(* ===== verification/_CoqProject ===== *)
-Q . S2P
Prelude.v
Address.v
Instruction.v
InstructionProofs.v
Decoder.v
DecoderProofs.v
CpuState.v
CpuStateProofs.v
Float32.v
MemoryApi.v
Machine.v
Execute.v
ExecuteProofs.v
JitFast.v
JitFastProofs.v
Step.v
StepProofs.v
StepFrame.v
StepSafety.v
Common.v
Trace.v
Peripheral.v
PeripheralProofs.v
Crc.v
Gpio.v
Exti.v
GpioExti.v
Flash.v
Rcc.v
Dma.v
DmaProofs.v
Timing.v
Watchdog.v
Timer.v
Usart.v
Spi.v
Adc.v
AdcLazy.v
EventLoop.v
EventLoopProofs.v
EventLoopDispatch.v
CanFrame.v
CanBus.v
CanBusProofs.v
MicroIr.v
MicroIrProofs.v
MicroIrBlocks.v
SystemControl.v
SystemControlProofs.v
Exceptions.v
MemoryBus.v
MemoryBusProofs.v
BusAccess.v
BusJournal.v
BusIsolation.v
BusWords.v
ExceptionsProofs.v
Elf.v
ElfProofs.v
McuMap.v
MmioRouter.v
Rsp.v
DebugRegisters.v
WindowSet.v
Demo.v
StackRoundTrip.v
CpuTheorems.v
BusTheorems.v
SystemTheorems.v
JitTheorems.v
CanClock.v
SimTheorems.v
CanTheorems.v
DeviceTheorems.v
TimingTheorems.v
LoadTheorems.v
DebugTheorems.v
