(* ===== verification/Prelude.v ===== *)
(** * fil: verification of the STM32G4 emulator

    [fil] is a C++ emulator of STM32G4 microcontrollers: a Cortex-M4F core, its memory bus and
    system control block, the peripherals, and a deterministic simulation of several boards that
    share CAN buses under one event loop.  This library models its core logic from the sources
    and proves the properties that make it correct.

    ** Parts of the program, and the files that model them

    - Values.  [Prelude]: machine integers as [Z] with their wrap-around, bit operations, hex
      output, shared lemmas, tactics and the hint database [fil].  [Common]
      ([include/fil/common], [src/sim/lane_horizon.cpp]): errors, results, saturating sums,
      range checks, and the horizons built on them.
    - Instructions ([include/fil/cpu/instruction.hpp], [src/cpu/decoder.cpp]).  [Instruction]:
      decoded instructions, adder, barrel shifter, conditions, IT state, cycle costs.
      [Decoder]: every decoding function and both pattern tables.  Proofs in
      [InstructionProofs] and [DecoderProofs].
    - The core ([src/cpu/cortex_m4.cpp], [src/cpu/execute.cpp], [src/cpu/jit.cpp]).  [CpuState]:
      registers, stack pointers, flags.  [Float32]: binary32 arithmetic on bit patterns.
      [MemoryApi]: the interface [CpuMemory] the core uses, with its laws.  [Machine] and
      [Execute]: [CortexM4::execute], every instruction kind.  [JitFast]: the fast handlers and
      block planning.  [Step]: fetch, decode, restart, cycle accounting, prediction, run loop.
      Proofs in [CpuStateProofs], [ExecuteProofs], [JitFastProofs], [StepProofs], [StepFrame],
      [StepSafety], [StackRoundTrip]; theorems in [CpuTheorems].
    - The micro-JIT's intermediate representation ([src/cpu/micro_jit_ir.cpp]).  [MicroIr]:
      lowering, block building, reference interpreter; [MicroIrProofs], [MicroIrBlocks],
      [JitTheorems].
    - Exceptions ([src/cortexm]).  [SystemControl]: SysTick, DWT, NVIC state and priorities, the
      register window.  [Exceptions]: entry, lazy and extended frames, return.
      [SystemControlProofs], [ExceptionsProofs], [SystemTheorems].
    - The memory bus ([src/mem/memory_bus.cpp]).  [MemoryBus]: regions, aliases, MMIO dispatch,
      fast paths, mutation journal with checkpoints, footprints, lane modes.  [WindowSet]: the
      certificate check.  [MemoryBusProofs], [BusAccess], [BusJournal], [BusIsolation],
      [BusWords], [BusTheorems].
    - The event loop ([src/sim/event_loop.cpp]).  [EventLoop]: slots, queues, scheduling,
      cancellation, owner clocks, dispatch; callbacks are programs over the loop's operations.
      [EventLoopProofs], [EventLoopDispatch], [SimTheorems].
    - CAN ([src/devices/can_bus.cpp]).  [CanFrame]: frames, CRC, stuffing, keys.  [CanBus]: the
      timed courier over the interface [EventClock]; [CanClock] proves that the event loop
      implements that interface.  [CanBusProofs], [CanTheorems].
    - Traces ([src/sim/trace.cpp]).  [Trace]: records, filter, observer, per-lane capture and
      merge, the JSON-lines text; theorems in [DeviceTheorems].
    - Peripherals ([src/stm32g4]).  [Peripheral]: the base class, as a monad with register hooks
      whose calls out of the device are recorded effects; [PeripheralProofs].  [Crc], [Gpio],
      [Exti], [GpioExti], [Flash] (with PWR), [Rcc] and [Dma] (with DMAMUX): the hooks, reset,
      inputs and callbacks of each device; [DmaProofs], [DeviceTheorems].  Devices that keep
      time: [Timing] (scheduled events and the [long double] conversions), [Watchdog] (IWDG and
      WWDG), [Timer], [Usart], [Spi], [Adc]; [AdcLazy] compares lazy and scheduled conversions;
      [TimingTheorems].
    - Loading ([src/elf/elf_loader.cpp], [src/mem/mcu_map.cpp], [src/mem/mmio_router.cpp]).
      [Elf]: headers, segments, sections, symbols, ARM attributes, inspection text.  [McuMap]:
      the regions of a device with the image in them.  [MmioRouter]: routes of the device
      addresses.  [ElfProofs], [LoadTheorems].
    - Debugger ([src/debug/rsp.cpp], [src/debug/registers.cpp], [src/debug/memory_map.cpp]).
      [Rsp]: value codecs and packet framing.  [DebugRegisters]: register packets, target
      description, memory map.  [DebugTheorems].
    - [Demo] holds the small machine on which the witnesses of several files run.

    ** How they interact

    The stepper runs the executor or a fast handler against any [CpuMemory]; [MemoryBus] is an
    instance, with devices as the class [MmioDevices].  Exceptions push and pop frames through the
    same interface.  The CAN bus schedules on any [EventClock], of which the event loop is an
    instance.  Client theorems are proved against the classes, and the implementations discharge
    their laws.  A peripheral is a state with register hooks; its calls to the event loop, the
    interrupt controller, the trace and other devices are effects in the order the code makes
    them, and [GpioExti] delivers the edges of a port to the controller.

    ** Code outside the sources, as parameters

    The host's NaN choice ([HostNaN]) and [long double] with at least 53 significant bits
    ([LongDouble]); the devices behind the bus ([MmioDevices]); the code that the CAN bus calls
    back ([CanUser]); scripted input of the USART ([RxProvider]), the SPI target ([SpiTarget]),
    the analog input as a function of channel and time, as the installed providers are
    ([AnalogInput]); the page erase of the flash ([PageErase]); the transport of the debugger
    ([RspTransport]).  The memory that DMA reads and writes is separate from the registers of
    the controller itself.

    ** What the theorems show

    - Equivalence of the optimised paths with the checked ones: fast handlers and the JIT stepper
      with the executor, lowered blocks with the stepper, single-word and bulk bus accesses with
      the byte-wise checked ones, SysTick batches with single cycles, certificate checks with a
      scan of the journal, the count of stuffed CAN bits with a transmitter, the direct DMA flag
      clear with the register write, lazy ADC conversions with scheduled ones.
    - Refinement: the event loop of a finite map, USART and SPI of byte streams, the CRC unit of
      polynomial remainders, a register block of a bit array, the next exception of the
      architecture's priority rule, the watchdog and the timer of integer schedules.
    - Invariants: decoded instructions, system control state, journal, slots and queues of the
      event loop, the courier of the CAN bus, DMA channels, EXTI lines, the clock tree.
    - Safety: the ELF loader is total and in bounds on every byte string, trapping keeps devices
      untouched, no changed input passes a compatibility check, the flash stays locked.
    - Round trips: push and pop, exception entry and return, rollback of the journal, packets
      and registers of the debugger, the text of a trace.
    - Termination and liveness: runs of the event loop stop and leave nothing due; a waiting CAN
      frame always has an event armed, and arbitration always finds the winner; the announced
      SysTick deadline is exact.
    - Bounds: cycle and instruction counts of a step, predictions, wire time without drift.
    - A few lemmas record defects of the code; the findings of the manifest point to them.

    ** Bounds and fuel

    Loops over a fixed number of steps (table scans, bit loops, register lists, SysTick words)
    recurse on a list or on a literal count.  The run loop of the core and the dispatch loop of
    the event loop have no bound of their own: they take fuel, and the theorems show that
    [(deadline + 1) * maximum_same_time_events + 1] units always give a result; the run loop is
    bounded by its instruction budget.  [MemoryBus] searches its journal at most over its capacity.
    The loops of the ELF parser get one unit more than the bytes they can consume, the payload
    loop of the debugger two more than the packet limit, the access loops of a register block
    the width of the access, and the ADC that is run for a time one unit per nanosecond; the
    theorems prove that the fuel does not run out.

    ** Not modelled

    Host code generation and everything that runs generated code ([micro_jit.cpp],
    [native_*.cpp], the emitters), host threads and locks, sockets and files.  The partition of
    the event loop into lane domains and its merge.  The board and world schedulers
    ([board.cpp], [world.cpp]), which drive the modelled parts from native execution, and the
    debugger sessions and monitor on top of them.  FDCAN and the wiring of the devices
    ([fdcan.cpp], [stm32g4.cpp]).  Configuration, command line, network protocol and the
    comparison with hardware. *)

From stdpp Require Export base numbers list strings.
From stdpp Require Import options.
From Stdlib Require Export ZArith Lia.

#[global] Open Scope Z_scope.

(** ** Notations for the bit operations of the C++ sources *)

Declare Scope fil_scope.
Delimit Scope fil_scope with fil.
#[global] Open Scope fil_scope.

Notation "a .<< n" := (Z.shiftl a n) (at level 44, left associativity) : fil_scope.
Notation "a .>> n" := (Z.shiftr a n) (at level 44, left associativity) : fil_scope.
Notation "a .& b" := (Z.land a b) (at level 46, left associativity) : fil_scope.
Notation "a .^ b" := (Z.lxor a b) (at level 47, left associativity) : fil_scope.
Notation "a .| b" := (Z.lor a b) (at level 48, left associativity) : fil_scope.

(** ** Machine-width integers *)

Definition u8 (x : Z) : Z := x mod 0x100.
Definition u16 (x : Z) : Z := x mod 0x10000.
Definition u32 (x : Z) : Z := x mod 0x100000000.
Definition u64 (x : Z) : Z := x mod 0x10000000000000000.

(** [std::bit_cast<std::int32_t>] of a 32-bit pattern. *)
Definition i32 (x : Z) : Z := if x <? 0x80000000 then x else x - 0x100000000.

(** C++ [~x] at [std::uint32_t]. *)
Definition not32 (x : Z) : Z := u32 (Z.lnot x).

(** C++ [(x & m) != 0]. *)
Definition has (x m : Z) : bool := negb (x .& m =? 0).

Definition is_u8 (x : Z) : Prop := 0 <= x < 0x100.
Definition is_u16 (x : Z) : Prop := 0 <= x < 0x10000.
Definition is_u32 (x : Z) : Prop := 0 <= x < 0x100000000.

(** [std::rotr] on [std::uint32_t], for a rotation count in [0, 31]. *)
Definition rotr32 (x n : Z) : Z :=
  if n =? 0 then x else u32 (x .>> n .| x .<< (32 - n)).

(** [std::popcount] and [std::countl_zero] on 32-bit values. *)
Fixpoint popcount_fuel (fuel : nat) (x : Z) : Z :=
  match fuel with
  | O => 0
  | S f => (x .& 1) + popcount_fuel f (x .>> 1)
  end.
Definition popcount (x : Z) : Z := popcount_fuel 32 x.
Definition countl_zero32 (x : Z) : Z := if x =? 0 then 32 else 31 - Z.log2 x.

(** ** Hexadecimal output *)

Definition hex_digit (d : Z) : Ascii.ascii :=
  Ascii.ascii_of_nat (Z.to_nat (if d <? 10 then 48 + d else 87 + d)).

(** [std::hex << std::setw(width) << std::setfill('0') << value], for a value that fits. *)
Fixpoint hex_padded (width : nat) (value : Z) : string :=
  match width with
  | O => EmptyString
  | S w => hex_padded w (value .>> 4) +:+ String (hex_digit (value .& 15)) EmptyString
  end.

(** ** Automation *)

Create HintDb fil discriminated.
#[export] Hint Constants Opaque : fil.

(** Closes arithmetic side conditions about widths after unfolding them. *)
Ltac width_lia := unfold is_u8, is_u16, is_u32 in *; lia.

(** Splits a boolean conditional or an [option]/sum scrutinee in the goal. *)
Ltac case_match_goal :=
  match goal with
  | |- context [match ?x with _ => _ end] => destruct x eqn:?
  end.

(** ** Ranges of machine-width operations *)

Lemma u8_range x : is_u8 (u8 x).
Proof. unfold is_u8, u8. apply Z.mod_pos_bound. lia. Qed.
Lemma u16_range x : is_u16 (u16 x).
Proof. unfold is_u16, u16. apply Z.mod_pos_bound. lia. Qed.
Lemma u32_range x : is_u32 (u32 x).
Proof. unfold is_u32, u32. apply Z.mod_pos_bound. lia. Qed.
Lemma u64_range x : 0 <= u64 x < 2 ^ 64.
Proof. unfold u64. apply Z.mod_pos_bound. lia. Qed.

Lemma u8_small x : is_u8 x -> u8 x = x.
Proof. unfold is_u8, u8. apply Z.mod_small. Qed.
Lemma u16_small x : is_u16 x -> u16 x = x.
Proof. unfold is_u16, u16. apply Z.mod_small. Qed.
Lemma u32_small x : is_u32 x -> u32 x = x.
Proof. unfold is_u32, u32. apply Z.mod_small. Qed.
Lemma u64_small x : 0 <= x < 2 ^ 64 -> u64 x = x.
Proof. unfold u64. apply Z.mod_small. Qed.

Lemma u32_u32 x : u32 (u32 x) = u32 x.
Proof. apply u32_small, u32_range. Qed.
Lemma u32_add_l x y : u32 (u32 x + y) = u32 (x + y).
Proof. unfold u32. apply Zplus_mod_idemp_l. Qed.
Lemma u32_add_r x y : u32 (x + u32 y) = u32 (x + y).
Proof. unfold u32. apply Zplus_mod_idemp_r. Qed.
Lemma u32_sub_l x y : u32 (u32 x - y) = u32 (x - y).
Proof. unfold u32. apply Zminus_mod_idemp_l. Qed.
Lemma u64_add_l x y : u64 (u64 x + y) = u64 (x + y).
Proof. unfold u64. apply Zplus_mod_idemp_l. Qed.

Lemma u8_is_u32 x : is_u8 x -> is_u32 x.
Proof. width_lia. Qed.
Lemma u16_is_u32 x : is_u16 x -> is_u32 x.
Proof. width_lia. Qed.
Lemma u64_u32 x : u32 (u64 x) = u32 x.
Proof.
  unfold u32, u64. change 0x10000000000000000 with (0x100000000 * 0x100000000).
  rewrite Z.rem_mul_r by lia. rewrite Z.mul_comm, Z.mod_add by lia.
  apply Z.mod_mod. lia.
Qed.

(** A non-negative number is below [2^n] exactly when its high bits are clear. *)
Lemma below_pow2_bits n x : 0 <= n -> 0 <= x ->
  (∀ i, n <= i -> Z.testbit x i = false) -> x < 2 ^ n.
Proof.
  intros Hn Hx H. destruct (decide (x = 0)) as [->|Hx0]; [lia|].
  destruct (Z.lt_ge_cases (Z.log2 x) n) as [Hl|Hl].
  - apply Z.log2_lt_pow2; lia.
  - specialize (H (Z.log2 x) Hl). rewrite Z.bit_log2 in H by lia. done.
Qed.
Lemma high_bits_clear n x i : 0 <= x < 2 ^ n -> n <= i -> Z.testbit x i = false.
Proof.
  intros Hx Hi. destruct (Z.lt_ge_cases n 0) as [Hn|Hn].
  { rewrite Z.pow_neg_r in Hx by lia. lia. }
  destruct (decide (x = 0)) as [->|Hx0]; [apply Z.bits_0|].
  apply Z.bits_above_log2; [lia|].
  assert (Z.log2 x < n) by (apply Z.log2_lt_pow2; lia). lia.
Qed.

Lemma lor_below n x y : 0 <= n -> 0 <= x < 2 ^ n -> 0 <= y < 2 ^ n -> 0 <= Z.lor x y < 2 ^ n.
Proof.
  intros Hn Hx Hy. split; [apply Z.lor_nonneg; lia|].
  apply below_pow2_bits; [lia| apply Z.lor_nonneg; lia|]. intros i Hi.
  rewrite Z.lor_spec, !(high_bits_clear n) by lia. done.
Qed.
Lemma lxor_below n x y : 0 <= n -> 0 <= x < 2 ^ n -> 0 <= y < 2 ^ n -> 0 <= Z.lxor x y < 2 ^ n.
Proof.
  intros Hn Hx Hy.
  assert (0 <= Z.lxor x y) by (apply Z.lxor_nonneg; lia).
  split; [done|]. apply below_pow2_bits; [lia|done|]. intros i Hi.
  rewrite Z.lxor_spec, !(high_bits_clear n) by lia. done.
Qed.
Lemma land_bounds_r x m : 0 <= m -> 0 <= Z.land x m <= m.
Proof.
  intros Hm. assert (0 <= Z.land x m) by (apply Z.land_nonneg; lia).
  split; [done|]. apply Z.ldiff_le; [done|].
  apply Z.bits_inj'. intros i Hi. rewrite Z.ldiff_spec, Z.land_spec, Z.bits_0.
  by destruct (Z.testbit x i), (Z.testbit m i).
Qed.
Lemma land_bounds_l x m : 0 <= x -> 0 <= Z.land x m <= x.
Proof. rewrite Z.land_comm. apply land_bounds_r. Qed.
Lemma shiftr_bounds x n : 0 <= x -> 0 <= n -> 0 <= Z.shiftr x n <= x.
Proof.
  intros Hx Hn. rewrite Z.shiftr_div_pow2 by done. split.
  - apply Z.div_pos; [done|]. apply Z.pow_pos_nonneg; lia.
  - apply Z.div_le_upper_bound; [apply Z.pow_pos_nonneg; lia|].
    assert (1 <= 2 ^ n) by (apply (Z.pow_le_mono_r 2 0); lia). nia.
Qed.

Lemma is_u32_lor x y : is_u32 x -> is_u32 y -> is_u32 (x .| y).
Proof. apply (lor_below 32). lia. Qed.
Lemma is_u32_lxor x y : is_u32 x -> is_u32 y -> is_u32 (x .^ y).
Proof. apply (lxor_below 32). lia. Qed.
Lemma not32_testbit x i : 0 <= i < 32 -> Z.testbit (not32 x) i = negb (Z.testbit x i).
Proof.
  intros Hi. unfold not32, u32. change 0x100000000 with (2 ^ 32).
  rewrite Z.mod_pow2_bits_low by lia. apply Z.lnot_spec. lia.
Qed.
Lemma is_u32_land_l x y : is_u32 x -> is_u32 (x .& y).
Proof. intros [Hx Hx']. pose proof (land_bounds_l x y Hx). width_lia. Qed.
Lemma is_u32_land_r x y : is_u32 y -> is_u32 (x .& y).
Proof. rewrite Z.land_comm. apply is_u32_land_l. Qed.
Lemma is_u32_shiftr x n : 0 <= n -> is_u32 x -> is_u32 (x .>> n).
Proof. intros Hn [Hx Hx']. pose proof (shiftr_bounds x n Hx Hn). width_lia. Qed.
Lemma is_u32_not32 x : is_u32 (not32 x).
Proof. apply u32_range. Qed.
Lemma is_u32_if (b : bool) x y : is_u32 x -> is_u32 y -> is_u32 (if b then x else y).
Proof. by destruct b. Qed.
Lemma rotr32_range x n : is_u32 x -> is_u32 (rotr32 x n).
Proof. intros. unfold rotr32. destruct (n =? 0); [done | apply u32_range]. Qed.
Lemma countl_zero32_range x : is_u32 x -> 0 <= countl_zero32 x <= 32.
Proof.
  intros Hx. unfold countl_zero32. destruct (Z.eqb_spec x 0); [lia|].
  assert (0 <= Z.log2 x) by apply Z.log2_nonneg.
  assert (Z.log2 x < 32) by (apply Z.log2_lt_pow2; width_lia). lia.
Qed.

#[export] Hint Resolve u8_range u16_range u32_range is_u32_lor is_u32_lxor is_u32_not32
  is_u32_if rotr32_range u8_is_u32 u16_is_u32 : fil.

(** Proves that an expression of 32-bit operations is a 32-bit value; the leaves come from
    the [fil] database, the context or linear arithmetic. *)
Ltac u32_auto :=
  lazymatch goal with
  | |- is_u32 (if _ then _ else _) => apply is_u32_if; u32_auto
  | |- is_u32 (_ .| _) => apply is_u32_lor; u32_auto
  | |- is_u32 (_ .^ _) => apply is_u32_lxor; u32_auto
  | |- is_u32 (_ .& _) =>
      first [apply is_u32_land_l; solve [u32_auto] | apply is_u32_land_r; solve [u32_auto]]
  | |- is_u32 (_ .>> _) => apply is_u32_shiftr; [lia | u32_auto]
  | |- is_u32 (u32 _) => apply u32_range
  | |- is_u32 (not32 _) => apply is_u32_not32
  | |- _ => solve [assumption | eauto with fil | width_lia]
  end.

(** ** Single bits *)

Lemma land_pow2 x k : 0 <= k -> x .& 2 ^ k = if Z.testbit x k then 2 ^ k else 0.
Proof.
  intros Hk. apply Z.bits_inj'. intros i Hi. rewrite Z.land_spec.
  destruct (decide (i = k)) as [->|Hne].
  - rewrite Z.pow2_bits_true by done. destruct (Z.testbit x k); [|by rewrite Z.bits_0].
    by rewrite Z.pow2_bits_true.
  - rewrite Z.pow2_bits_false by done. rewrite andb_false_r.
    destruct (Z.testbit x k); [by rewrite Z.pow2_bits_false | by rewrite Z.bits_0].
Qed.
Lemma has_pow2 x k : 0 <= k -> has x (2 ^ k) = Z.testbit x k.
Proof.
  intros Hk. unfold has. rewrite land_pow2 by done.
  assert (0 < 2 ^ k) by (apply Z.pow_pos_nonneg; lia).
  destruct (Z.testbit x k); [|done]. destruct (Z.eqb_spec (2 ^ k) 0); [lia|done].
Qed.
Lemma has_testbit x k : 0 <= k -> has x (1 .<< k) = Z.testbit x k.
Proof. intros Hk. rewrite Z.shiftl_1_l. by apply has_pow2. Qed.
Lemma land_one_bit x m k : 0 <= k -> m = 2 ^ k -> x .& m = if has x m then m else 0.
Proof. intros Hk ->. rewrite has_pow2 by done. by apply land_pow2. Qed.
Lemma has_lor x y m : has (x .| y) m = has x m || has y m.
Proof.
  unfold has. rewrite Z.land_lor_distr_l.
  destruct (Z.eqb_spec (x .& m) 0) as [->|Hx].
  - by rewrite Z.lor_0_l.
  - destruct (Z.eqb_spec (Z.lor (x .& m) (y .& m)) 0) as [E|E]; [|done].
    apply Z.lor_eq_0_iff in E as [? _]. done.
Qed.
Lemma has_land x y m : has (x .& y) m = has x (y .& m).
Proof. unfold has. by rewrite Z.land_assoc. Qed.
Lemma testbit_odd x : Z.testbit x 0 = has x 1.
Proof. symmetry. apply (has_pow2 x 0). lia. Qed.
Lemma has_shiftr_bit v k : 0 <= k -> has (v .>> k) 1 = Z.testbit v k.
Proof. intros. rewrite <- testbit_odd, Z.shiftr_spec by lia. done. Qed.
(** Equality of words bit by bit, with the index a literal in each case. *)
Lemma u32_bits x y : is_u32 x -> is_u32 y ->
  Forall (fun i => Z.testbit x i = Z.testbit y i) (seqZ 0 32) -> x = y.
Proof.
  intros Hx Hy Hall. rewrite Forall_forall in Hall. apply Z.bits_inj'. intros i Hi.
  destruct (Z.lt_ge_cases i 32); [apply Hall, elem_of_seqZ; lia|].
  by rewrite !(high_bits_clear 32).
Qed.

(** ** Lists indexed by [Z] *)

Lemma Forall_lookup_default {A} (P : A -> Prop) d l i :
  P d -> Forall P l -> P (default d (l !! i)).
Proof.
  intros Hd Hl. destruct (l !! i) eqn:E; simpl; [|done].
  by eapply Forall_lookup_1.
Qed.
Lemma Forall_default_last {A} (P : A -> Prop) d l :
  P d -> Forall P l -> P (default d (last l)).
Proof.
  intros Hd Hl. destruct (last l) eqn:E; simpl; [|done].
  apply last_Some in E as [l' ->]. by apply Forall_app in Hl as [_ Hl]; inversion Hl.
Qed.

(** ** Byte lanes *)

Lemma has_lor_r x m n : has x (m .| n) = has x m || has x n.
Proof.
  unfold has. rewrite !(Z.land_comm x). rewrite Z.land_lor_distr_l.
  destruct (Z.eqb_spec (m .& x) 0) as [->|Hx].
  - by rewrite Z.lor_0_l.
  - destruct (Z.eqb_spec (Z.lor (m .& x) (n .& x)) 0) as [E|E]; [|done].
    apply Z.lor_eq_0_iff in E as [? _]. done.
Qed.

Lemma u8_land x : u8 x = x .& 0xff.
Proof. symmetry. apply (Z.land_ones x 8). lia. Qed.
Lemma u16_land x : u16 x = x .& 0xffff.
Proof. symmetry. apply (Z.land_ones x 16). lia. Qed.
Lemma u32_land x : u32 x = x .& 0xffffffff.
Proof. symmetry. apply (Z.land_ones x 32). lia. Qed.

Lemma u8_lxor x y : u8 (x .^ y) = u8 x .^ u8 y.
Proof.
  rewrite !u8_land. apply Z.bits_inj'. intros i Hi.
  rewrite Z.lxor_spec, !Z.land_spec, Z.lxor_spec.
  by destruct (Z.testbit x i), (Z.testbit y i), (Z.testbit 0xff i).
Qed.

(** The bits of one byte lane are clear exactly when the shifted byte is zero. *)
Lemma lane_zero x s : 0 <= s -> (x .& (0xff .<< s) =? 0) = (u8 (x .>> s) =? 0).
Proof.
  intros Hs. assert (x .& (0xff .<< s) = u8 (x .>> s) .<< s) as ->.
  { rewrite u8_land. apply Z.bits_inj'. intros i Hi.
    rewrite Z.land_spec, !Z.shiftl_spec, Z.land_spec by done.
    destruct (Z.lt_ge_cases i s).
    - rewrite !(Z.testbit_neg_r _ (i - s)) by lia. by rewrite andb_false_r.
    - rewrite Z.shiftr_spec by lia. by replace (i - s + s) with i by lia. }
  rewrite Z.shiftl_mul_pow2 by done. assert (0 < 2 ^ s) by (apply Z.pow_pos_nonneg; lia).
  destruct (Z.eqb_spec (u8 (x .>> s)) 0) as [->|Hne]; [done|].
  destruct (Z.eqb_spec (u8 (x .>> s) * 2 ^ s) 0); [nia | done].
Qed.

Lemma lane_differs x y s : 0 <= s ->
  ((x .^ y) .& (0xff .<< s) =? 0) = (u8 (x .>> s) =? u8 (y .>> s)).
Proof.
  intros Hs. rewrite lane_zero, Z.shiftr_lxor, u8_lxor by done.
  destruct (Z.eqb_spec (u8 (x .>> s)) (u8 (y .>> s))) as [->|Hne].
  - by rewrite Z.lxor_nilpotent.
  - destruct (Z.eqb_spec (Z.lxor (u8 (x .>> s)) (u8 (y .>> s))) 0) as [E|]; [|done].
    by apply Z.lxor_eq in E.
Qed.

(** ** Filtering *)

Lemma filter_agree {A} (P Q : A -> Prop) `{∀ x, Decision (P x), ∀ x, Decision (Q x)} (l : list A) :
  (∀ x, x ∈ l -> P x <-> Q x) -> filter P l = filter Q l.
Proof.
  induction l as [|x l IH]; intros HPQ; [done|]. rewrite !filter_cons.
  rewrite IH by (intros y Hy; apply HPQ; by right).
  pose proof (HPQ x ltac:(by left)). destruct (decide (P x)), (decide (Q x)); tauto.
Qed.
Lemma filter_none {A} (P : A -> Prop) `{∀ x, Decision (P x)} (l : list A) :
  (∀ x, x ∈ l -> ~ P x) -> filter P l = [].
Proof.
  induction l as [|x l IH]; intros HP; [done|]. rewrite filter_cons, decide_False by (apply HP; by left).
  apply IH. intros y Hy. apply HP. by right.
Qed.
