(* ===== verification/Address.v ===== *)
(** * Target memory access types, widths and structured bus faults

    Models [include/fil/mem/address.hpp]: the access descriptors that every bus operation
    carries, and the fault values a refused access returns. *)

From S2P Require Import Prelude.

Module AccessType.
Inductive t : Type := instruction_fetch | data_read | data_write | debug.
#[export] Instance eq_dec : EqDecision t.
Proof. solve_decision. Defined.
End AccessType.
Export (hints) AccessType.

Module AccessSize.
Inductive t : Type := byte | halfword | word | doubleword.
#[export] Instance eq_dec : EqDecision t.
Proof. solve_decision. Defined.
End AccessSize.
Export (hints) AccessSize.

Module BusFaultReason.
Inductive t : Type :=
  | address_overflow | unmapped | cross_region | read_protected | write_protected
  | execute_protected | alias_cycle | device_error | synchronization_required.
#[export] Instance eq_dec : EqDecision t.
Proof. solve_decision. Defined.
End BusFaultReason.
Export (hints) BusFaultReason.

Record AccessContext := mkAccessContext {
  ctx_type : AccessType.t;
  ctx_pc : Z;
}.

Record BusFault := mkBusFault {
  fault_reason : BusFaultReason.t;
  fault_address : Z;
  fault_size : AccessSize.t;
  fault_context : AccessContext;
  fault_region : string;
  fault_message : string;
}.

#[global] Instance AccessContext_eq_dec : EqDecision AccessContext.
Proof. solve_decision. Defined.
#[global] Instance BusFault_eq_dec : EqDecision BusFault.
Proof. solve_decision. Defined.

Definition byteCount (size : AccessSize.t) : Z :=
  match size with
  | AccessSize.byte => 1
  | AccessSize.halfword => 2
  | AccessSize.word => 4
  | AccessSize.doubleword => 8
  end.

(** Every value of the enumeration names a supported width, so the
    [validAccessSize] guard of the source is always true here. *)
Definition accessWidthMask (size : AccessSize.t) : Z :=
  match size with
  | AccessSize.doubleword => 0xffffffffffffffff
  | _ => (1 .<< (byteCount size * 8)) - 1
  end.

(** [MemoryResult<T>]: a completed value or a structured fault. *)
Definition MemoryResult (A : Type) : Type := (A + BusFault)%type.

(** ** Diagnostic text ([src/mem/address.cpp]) *)

Definition accessTypeName (type : AccessType.t) : string :=
  match type with
  | AccessType.instruction_fetch => "instruction fetch"
  | AccessType.data_read => "data read"
  | AccessType.data_write => "data write"
  | AccessType.debug => "debug access"
  end.

Definition formatBusFault (fault : BusFault) : string :=
  fault_message fault +:+ " (" +:+ accessTypeName (ctx_type (fault_context fault))
  +:+ ", address=0x" +:+ hex_padded 8 (fault_address fault)
  +:+ ", size=" +:+ String (hex_digit (byteCount (fault_size fault))) EmptyString
  +:+ (if ctx_pc (fault_context fault) =? 0 then EmptyString
       else ", pc=0x" +:+ hex_padded 8 (ctx_pc (fault_context fault)))
  +:+ (if bool_decide (fault_region fault = EmptyString) then EmptyString
       else ", region=" +:+ fault_region fault)
  +:+ ")".
