(* ===== verification/Instruction.v ===== *)
(** * Semantic Thumb instruction representation and architectural helpers

    Models [include/fil/cpu/instruction.hpp] and the pure helpers at the top of
    [src/cpu/execute.cpp]: add-with-carry, the barrel shifter, condition codes, IT-state
    advancement and the pipeline-cycle tables. *)

From S2P Require Import Prelude.

Module Condition.
Inductive t : Type :=
  | eq | ne | cs | cc | mi | pl | vs | vc | hi | ls | ge | lt | gt | le | al | nv.
#[export] Instance eq_dec : EqDecision t.
Proof. solve_decision. Defined.
(** The enumeration's underlying values; [of_Z] is the [static_cast] from a nibble. *)
Definition to_Z (c : t) : Z :=
  match c with
  | eq => 0x0 | ne => 0x1 | cs => 0x2 | cc => 0x3 | mi => 0x4 | pl => 0x5 | vs => 0x6
  | vc => 0x7 | hi => 0x8 | ls => 0x9 | ge => 0xa | lt => 0xb | gt => 0xc | le => 0xd
  | al => 0xe | nv => 0xf
  end.
Definition of_Z (n : Z) : t :=
  match n with
  | 0x0 => eq | 0x1 => ne | 0x2 => cs | 0x3 => cc | 0x4 => mi | 0x5 => pl | 0x6 => vs
  | 0x7 => vc | 0x8 => hi | 0x9 => ls | 0xa => ge | 0xb => lt | 0xc => gt | 0xd => le
  | 0xe => al | _ => nv
  end.
End Condition.
Export (hints) Condition.

Module ShiftType.
Inductive t : Type := lsl | lsr | asr | ror | rrx.
#[export] Instance eq_dec : EqDecision t.
Proof. solve_decision. Defined.
End ShiftType.
Export (hints) ShiftType.

Module OperandForm.
Inductive t : Type := none | immediate | register_value | literal | register_list.
#[export] Instance eq_dec : EqDecision t.
Proof. solve_decision. Defined.
End OperandForm.
Export (hints) OperandForm.

Module InstrKind.
Inductive t : Type :=
  | undefined | mov | movw | movt | add | adc | sub | sbc | rsb | cmp | cmn | tst | and_
  | orr | eor | bic | mvn | orn | mul | mla | mls | umull | udiv | clz | bfc | ubfx | sxtb
  | sxth | uxtb | uxth | rev | rev16 | revsh | sdiv | smull | uadd8 | sel | lsl | lsr | asr
  | ror | rrx | ldr | str | ldrb | strb | ldrh | strh | ldrsb | ldrsh | ldrd | strd | ldm
  | stm | push | pop | b | bl | bx | blx | tbb | tbh | cbz | cbnz | it | nop | dmb | dsb
  | isb | svc | mrs | msr | cps | wfi | wfe | sev | vstm | vldm | vldr | vstr
  | vmov_core_to_single | vmov_single_to_core | vmov_single | vmov_immediate
  | vcvt_f32_s32 | vcvt_f32_u32 | vcvt_s32_f32 | vcvt_u32_f32 | vadd | vsub | vmul | vnmul
  | vdiv | vfma | vfms | vfnms | vcmp | vneg | vabs | vsqrt | vmrs | bkpt.
(** The enumeration's underlying [std::uint8_t] values. *)
Definition index (k : t) : Z :=
  match k with
  | undefined => 0 | mov => 1 | movw => 2 | movt => 3 | add => 4 | adc => 5 | sub => 6
  | sbc => 7 | rsb => 8 | cmp => 9 | cmn => 10 | tst => 11 | and_ => 12 | orr => 13 | eor => 14
  | bic => 15 | mvn => 16 | orn => 17 | mul => 18 | mla => 19 | mls => 20 | umull => 21
  | udiv => 22 | clz => 23 | bfc => 24 | ubfx => 25 | sxtb => 26 | sxth => 27 | uxtb => 28
  | uxth => 29 | rev => 30 | rev16 => 31 | revsh => 32 | sdiv => 33 | smull => 34 | uadd8 => 35
  | sel => 36 | lsl => 37 | lsr => 38 | asr => 39 | ror => 40 | rrx => 41 | ldr => 42
  | str => 43 | ldrb => 44 | strb => 45 | ldrh => 46 | strh => 47 | ldrsb => 48 | ldrsh => 49
  | ldrd => 50 | strd => 51 | ldm => 52 | stm => 53 | push => 54 | pop => 55 | b => 56
  | bl => 57 | bx => 58 | blx => 59 | tbb => 60 | tbh => 61 | cbz => 62 | cbnz => 63 | it => 64
  | nop => 65 | dmb => 66 | dsb => 67 | isb => 68 | svc => 69 | mrs => 70 | msr => 71
  | cps => 72 | wfi => 73 | wfe => 74 | sev => 75 | vstm => 76 | vldm => 77 | vldr => 78
  | vstr => 79 | vmov_core_to_single => 80 | vmov_single_to_core => 81 | vmov_single => 82
  | vmov_immediate => 83 | vcvt_f32_s32 => 84 | vcvt_f32_u32 => 85 | vcvt_s32_f32 => 86
  | vcvt_u32_f32 => 87 | vadd => 88 | vsub => 89 | vmul => 90 | vnmul => 91 | vdiv => 92
  | vfma => 93 | vfms => 94 | vfnms => 95 | vcmp => 96 | vneg => 97 | vabs => 98 | vsqrt => 99
  | vmrs => 100 | bkpt => 101
  end.
Definition of_index (n : Z) : option t :=
  match n with
  | 0 => Some undefined | 1 => Some mov | 2 => Some movw | 3 => Some movt | 4 => Some add
  | 5 => Some adc | 6 => Some sub | 7 => Some sbc | 8 => Some rsb | 9 => Some cmp
  | 10 => Some cmn | 11 => Some tst | 12 => Some and_ | 13 => Some orr | 14 => Some eor
  | 15 => Some bic | 16 => Some mvn | 17 => Some orn | 18 => Some mul | 19 => Some mla
  | 20 => Some mls | 21 => Some umull | 22 => Some udiv | 23 => Some clz | 24 => Some bfc
  | 25 => Some ubfx | 26 => Some sxtb | 27 => Some sxth | 28 => Some uxtb | 29 => Some uxth
  | 30 => Some rev | 31 => Some rev16 | 32 => Some revsh | 33 => Some sdiv | 34 => Some smull
  | 35 => Some uadd8 | 36 => Some sel | 37 => Some lsl | 38 => Some lsr | 39 => Some asr
  | 40 => Some ror | 41 => Some rrx | 42 => Some ldr | 43 => Some str | 44 => Some ldrb
  | 45 => Some strb | 46 => Some ldrh | 47 => Some strh | 48 => Some ldrsb | 49 => Some ldrsh
  | 50 => Some ldrd | 51 => Some strd | 52 => Some ldm | 53 => Some stm | 54 => Some push
  | 55 => Some pop | 56 => Some b | 57 => Some bl | 58 => Some bx | 59 => Some blx
  | 60 => Some tbb | 61 => Some tbh | 62 => Some cbz | 63 => Some cbnz | 64 => Some it
  | 65 => Some nop | 66 => Some dmb | 67 => Some dsb | 68 => Some isb | 69 => Some svc
  | 70 => Some mrs | 71 => Some msr | 72 => Some cps | 73 => Some wfi | 74 => Some wfe
  | 75 => Some sev | 76 => Some vstm | 77 => Some vldm | 78 => Some vldr | 79 => Some vstr
  | 80 => Some vmov_core_to_single | 81 => Some vmov_single_to_core | 82 => Some vmov_single
  | 83 => Some vmov_immediate | 84 => Some vcvt_f32_s32 | 85 => Some vcvt_f32_u32
  | 86 => Some vcvt_s32_f32 | 87 => Some vcvt_u32_f32 | 88 => Some vadd | 89 => Some vsub
  | 90 => Some vmul | 91 => Some vnmul | 92 => Some vdiv | 93 => Some vfma | 94 => Some vfms
  | 95 => Some vfnms | 96 => Some vcmp | 97 => Some vneg | 98 => Some vabs | 99 => Some vsqrt
  | 100 => Some vmrs | 101 => Some bkpt
  | _ => None
  end.
Lemma of_index_index k : of_index (index k) = Some k.
Proof. by destruct k. Qed.
#[export] Instance index_inj : Inj (=) (=) index.
Proof. intros k1 k2 H. apply (f_equal of_index) in H. rewrite !of_index_index in H. congruence. Qed.
#[export] Instance eq_dec : EqDecision t.
Proof.
  refine (λ k1 k2, cast_if (decide (index k1 = index k2))); [by apply index_inj | by intros ->].
Defined.
End InstrKind.
Export (hints) InstrKind.

(** C++ [a == b] on instruction kinds. *)
Definition kind_eqb (a b : InstrKind.t) : bool := InstrKind.index a =? InstrKind.index b.

Record DecodedInstruction := mkDecoded {
  di_kind : InstrKind.t;
  di_condition : Condition.t;
  di_form : OperandForm.t;
  di_rd : Z;
  di_rn : Z;
  di_rm : Z;
  di_ra : Z;
  di_imm : Z;
  di_branch_offset : Z;
  di_register_list : Z;
  di_shift_type : ShiftType.t;
  di_shift_amount : Z;
  di_set_flags : bool;
  di_index : bool;
  di_add : bool;
  di_writeback : bool;
  di_immediate_carry_valid : bool;
  di_immediate_carry : bool;
  di_fp_double : bool;
  di_is_32bit : bool;
  di_raw : Z;
}.

(** The value-initialised [DecodedInstruction] (member initialisers of the struct). *)
Definition decoded_default : DecodedInstruction :=
  {| di_kind := InstrKind.undefined; di_condition := Condition.al;
     di_form := OperandForm.none; di_rd := 0; di_rn := 0; di_rm := 0; di_ra := 0;
     di_imm := 0; di_branch_offset := 0; di_register_list := 0;
     di_shift_type := ShiftType.lsl; di_shift_amount := 0; di_set_flags := false;
     di_index := true; di_add := true; di_writeback := false;
     di_immediate_carry_valid := false; di_immediate_carry := false;
     di_fp_double := false; di_is_32bit := false; di_raw := 0 |}.

Record AddResult := mkAddResult {
  ar_value : Z; ar_n : bool; ar_z : bool; ar_c : bool; ar_v : bool;
}.

Record ShiftResult := mkShiftResult { sr_value : Z; sr_carry : bool }.

Definition xpsr_n : Z := 0x80000000.
Definition xpsr_z : Z := 0x40000000.
Definition xpsr_c : Z := 0x20000000.
Definition xpsr_v : Z := 0x10000000.
Definition xpsr_q : Z := 0x08000000.
Definition xpsr_t : Z := 0x01000000.
Definition xpsr_ge_mask : Z := 0x000f0000.
Definition xpsr_ipsr_mask : Z := 0x1ff.
Definition xpsr_it_mask : Z := 0x0600fc00.

Definition isExceptionReturn (value : Z) : bool :=
  match value with
  | 0xfffffff1 | 0xfffffff9 | 0xfffffffd | 0xffffffe1 | 0xffffffe9 | 0xffffffed => true
  | _ => false
  end.

Definition addWithCarry (x y : Z) (carry_in : bool) : AddResult :=
  let unsigned_sum := x + y + (if carry_in then 1 else 0) in
  let value := u32 unsigned_sum in
  let overflow := has (not32 (x .^ y) .& (x .^ value)) 0x80000000 in
  {| ar_value := value;
     ar_n := has value 0x80000000;
     ar_z := value =? 0;
     ar_c := negb (unsigned_sum .>> 32 =? 0);
     ar_v := overflow |}.

Definition shiftC (value : Z) (type : ShiftType.t) (amount : Z) (old_carry : bool)
    : ShiftResult :=
  match type with
  | ShiftType.lsl =>
      if amount =? 0 then mkShiftResult value old_carry
      else if amount <? 32 then
        mkShiftResult (u32 (value .<< amount)) (has (value .>> (32 - amount)) 1)
      else if amount =? 32 then mkShiftResult 0 (has value 1)
      else mkShiftResult 0 false
  | ShiftType.lsr =>
      if amount =? 0 then mkShiftResult value old_carry
      else if amount <? 32 then
        mkShiftResult (value .>> amount) (has (value .>> (amount - 1)) 1)
      else if amount =? 32 then mkShiftResult 0 (has value 0x80000000)
      else mkShiftResult 0 false
  | ShiftType.asr =>
      if amount =? 0 then mkShiftResult value old_carry
      else if amount <? 32 then
        let shifted := value .>> amount in
        let fill := if has value 0x80000000 then u32 (0xffffffff .<< (32 - amount)) else 0 in
        mkShiftResult (shifted .| fill) (has (value .>> (amount - 1)) 1)
      else
        mkShiftResult (if has value 0x80000000 then 0xffffffff else 0) (has value 0x80000000)
  | ShiftType.ror =>
      if amount =? 0 then mkShiftResult value old_carry
      else
        let rotation := amount .& 31 in
        if rotation =? 0 then mkShiftResult value (has value 0x80000000)
        else
          let shifted := value .>> rotation .| u32 (value .<< (32 - rotation)) in
          mkShiftResult shifted (has shifted 0x80000000)
  | ShiftType.rrx =>
      mkShiftResult ((if old_carry then 0x80000000 else 0) .| value .>> 1) (has value 1)
  end.

Definition conditionPasses (condition : Condition.t) (xpsr : Z) : bool :=
  let n := has xpsr xpsr_n in
  let z := has xpsr xpsr_z in
  let c := has xpsr xpsr_c in
  let v := has xpsr xpsr_v in
  match condition with
  | Condition.eq => z
  | Condition.ne => negb z
  | Condition.cs => c
  | Condition.cc => negb c
  | Condition.mi => n
  | Condition.pl => negb n
  | Condition.vs => v
  | Condition.vc => negb v
  | Condition.hi => c && negb z
  | Condition.ls => negb c || z
  | Condition.ge => eqb n v
  | Condition.lt => negb (eqb n v)
  | Condition.gt => negb z && eqb n v
  | Condition.le => z || negb (eqb n v)
  | Condition.al => true
  | Condition.nv => false
  end.

Definition inItBlock (it_state : Z) : bool := has it_state 0x0f.

Definition currentItCondition (it_state : Z) : Condition.t :=
  Condition.of_Z (it_state .>> 4 .& 0x0f).

Definition advanceItState (it_state : Z) : Z :=
  if it_state .& 0x07 =? 0 then 0
  else u8 (it_state .& 0xe0 .| (it_state .<< 1) .& 0x1f).

Definition divideCycles (divisor : Z) : Z :=
  if divisor =? 0 then 2
  else
    let leading := countl_zero32 divisor in
    u16 (12 - (leading * 10) / 32).

Definition takenBranchPenalty (kind : InstrKind.t) : Z :=
  match kind with
  | InstrKind.cbz | InstrKind.cbnz => 1
  | _ => 2
  end.

Definition basePipelineCycles (instruction : DecodedInstruction) : Z :=
  match di_kind instruction with
  | InstrKind.undefined | InstrKind.bkpt => 1
  | InstrKind.mul => 1
  | InstrKind.mla | InstrKind.mls => 2
  | InstrKind.umull | InstrKind.smull => 5
  | InstrKind.udiv | InstrKind.sdiv => 7
  | InstrKind.ldr | InstrKind.str | InstrKind.ldrb | InstrKind.strb | InstrKind.ldrh
  | InstrKind.strh | InstrKind.ldrsb | InstrKind.ldrsh => 2
  | InstrKind.ldrd | InstrKind.strd => 3
  | InstrKind.ldm | InstrKind.stm | InstrKind.push | InstrKind.pop =>
      u16 (1 + popcount (di_register_list instruction))
  | InstrKind.b | InstrKind.bl | InstrKind.blx | InstrKind.bx | InstrKind.tbb
  | InstrKind.tbh => 2
  | InstrKind.cbz | InstrKind.cbnz => 1
  | InstrKind.mrs | InstrKind.msr | InstrKind.svc | InstrKind.dmb | InstrKind.dsb
  | InstrKind.isb => 2
  | InstrKind.vdiv | InstrKind.vsqrt => 14
  | InstrKind.vfma | InstrKind.vfms | InstrKind.vfnms => 3
  | InstrKind.vcvt_f32_s32 | InstrKind.vcvt_f32_u32 | InstrKind.vcvt_s32_f32
  | InstrKind.vcvt_u32_f32 | InstrKind.vmrs | InstrKind.vldr | InstrKind.vstr => 2
  | InstrKind.vldm | InstrKind.vstm => u16 (1 + popcount (di_register_list instruction))
  | _ => 1
  end.
