(* ===== verification/InstructionProofs.v ===== *)
(** * Properties of the architectural helpers

    Add-with-carry against integer arithmetic, condition codes after a compare, the barrel
    shifter against division and rotation, IT-state sequencing and cycle bounds. *)

From S2P Require Import Prelude Instruction.

Lemma xpsr_flags_u32 : is_u32 xpsr_n /\ is_u32 xpsr_z /\ is_u32 xpsr_c /\ is_u32 xpsr_v
  /\ is_u32 xpsr_t.
Proof. unfold xpsr_n, xpsr_z, xpsr_c, xpsr_v, xpsr_t. width_lia. Qed.
Lemma xpsr_n_u32 : is_u32 xpsr_n.
Proof. apply xpsr_flags_u32. Qed.
Lemma xpsr_z_u32 : is_u32 xpsr_z.
Proof. apply xpsr_flags_u32. Qed.
Lemma xpsr_c_u32 : is_u32 xpsr_c.
Proof. apply xpsr_flags_u32. Qed.
Lemma xpsr_v_u32 : is_u32 xpsr_v.
Proof. apply xpsr_flags_u32. Qed.
Lemma xpsr_t_u32 : is_u32 xpsr_t.
Proof. apply xpsr_flags_u32. Qed.
#[export] Hint Resolve xpsr_n_u32 xpsr_z_u32 xpsr_c_u32 xpsr_v_u32 xpsr_t_u32 : fil.

(** ** Signed views *)

Lemma i32_range x : is_u32 x -> -0x80000000 <= i32 x < 0x80000000.
Proof. intros. unfold i32. destruct (Z.ltb_spec x 0x80000000); width_lia. Qed.

Lemma has_sign x : is_u32 x -> has x 0x80000000 = (0x80000000 <=? x).
Proof.
  intros Hx. change 0x80000000 with (2 ^ 31) at 1. rewrite has_pow2 by lia.
  rewrite Z.testbit_eqb by lia. destruct (Z.leb_spec 0x80000000 x).
  - assert (x / 2 ^ 31 = 1) as -> by (symmetry; apply Z.div_unique with (x - 2 ^ 31); width_lia).
    done.
  - rewrite Z.div_small by width_lia. done.
Qed.

Lemma i32_sign x : is_u32 x -> i32 x = x - (if has x 0x80000000 then 0x100000000 else 0).
Proof.
  intros Hx. rewrite has_sign by done. unfold i32.
  destruct (Z.ltb_spec x 0x80000000), (Z.leb_spec 0x80000000 x); lia.
Qed.

Lemma not32_sub x : is_u32 x -> not32 x = 0xffffffff - x.
Proof.
  intros Hx. unfold not32, u32, Z.lnot. symmetry.
  apply Z.mod_unique with (-1); width_lia.
Qed.

Lemma has_not32_sign x : is_u32 x -> has (not32 x) 0x80000000 = negb (has x 0x80000000).
Proof.
  intros Hx. rewrite !has_sign by eauto with fil. rewrite not32_sub by done.
  destruct (Z.leb_spec 0x80000000 x), (Z.leb_spec 0x80000000 (0xffffffff - x)); width_lia || done.
Qed.

Lemma has_land_bit x y k : 0 <= k -> has (x .& y) (2 ^ k) = has x (2 ^ k) && has y (2 ^ k).
Proof. intros. rewrite !has_pow2 by done. apply Z.land_spec. Qed.
Lemma has_lxor_bit x y k : 0 <= k -> has (x .^ y) (2 ^ k) = xorb (has x (2 ^ k)) (has y (2 ^ k)).
Proof. intros. rewrite !has_pow2 by done. apply Z.lxor_spec. Qed.

(** ** Add with carry *)

(** What [AddWithCarry] means on integers: the sum modulo 2^32 with its unsigned and signed
    overflow. *)
Record add_spec (x y c : Z) (r : AddResult) : Prop := {
  as_value : ar_value r = u32 (x + y + c);
  as_n : ar_n r = (0x80000000 <=? ar_value r);
  as_z : ar_z r = (ar_value r =? 0);
  as_c : ar_c r = (0x100000000 <=? x + y + c);
  as_v : ar_v r = negb ((-0x80000000 <=? i32 x + i32 y + c)
                        && (i32 x + i32 y + c <? 0x80000000));
}.

Lemma u32_cases s : 0 <= s < 0x200000000 ->
  u32 s = if s <? 0x100000000 then s else s - 0x100000000.
Proof.
  intros Hs. unfold u32. destruct (Z.ltb_spec s 0x100000000).
  - apply Z.mod_small. lia.
  - symmetry. apply Z.mod_unique with 1; lia.
Qed.

Lemma addWithCarry_add_spec x y b : is_u32 x -> is_u32 y ->
  add_spec x y (Z.b2z b) (addWithCarry x y b).
Proof.
  intros Hx Hy. assert (0 <= Z.b2z b <= 1) as Hc by (by destruct b).
  replace (addWithCarry x y b) with
    (let s := x + y + Z.b2z b in
     mkAddResult (u32 s) (has (u32 s) 0x80000000) (u32 s =? 0) (negb (s .>> 32 =? 0))
       (has (not32 (x .^ y) .& (x .^ u32 s)) 0x80000000)) by (by destruct b).
  set (s := x + y + Z.b2z b). assert (is_u32 (u32 s)) by eauto with fil.
  assert (0 <= s < 0x200000000) as Hs by (subst s; width_lia).
  cbv zeta. constructor; cbn [ar_value ar_n ar_z ar_c ar_v]; fold s.
  - reflexivity.
  - by apply has_sign.
  - reflexivity.
  - rewrite Z.shiftr_div_pow2 by lia. change (2 ^ 32) with 0x100000000.
    destruct (Z.leb_spec 0x100000000 s).
    + replace (s / 0x100000000) with 1 by (apply Z.div_unique with (s - 0x100000000); lia). done.
    + rewrite Z.div_small by lia. done.
  - change 0x80000000 with (2 ^ 31) at 1. rewrite has_land_bit by lia.
    change (2 ^ 31) with 0x80000000 at 1.
    rewrite has_not32_sign by eauto with fil.
    change 0x80000000 with (2 ^ 31) at 1. rewrite !has_lxor_bit by lia.
    change (2 ^ 31) with 0x80000000. rewrite !has_sign by done. unfold i32.
    rewrite u32_cases by done. unfold is_u32 in *. subst s.
    destruct (Z.ltb_spec x 0x80000000), (Z.ltb_spec y 0x80000000),
      (Z.ltb_spec (x + y + Z.b2z b) 0x100000000);
    repeat match goal with
    | |- context [?a <=? ?b] => destruct (Z.leb_spec a b)
    | |- context [?a <? ?b] => destruct (Z.ltb_spec a b)
    end; simpl; try done; lia.
Qed.

Lemma addWithCarry_value_range x y b : is_u32 (ar_value (addWithCarry x y b)).
Proof. apply u32_range. Qed.
#[export] Hint Resolve addWithCarry_value_range : fil.

(** The condition flags of an add result as the program status register holds them. *)
Definition flags_of (r : AddResult) : Z :=
  (if ar_n r then xpsr_n else 0) .| (if ar_z r then xpsr_z else 0)
  .| (if ar_c r then xpsr_c else 0) .| (if ar_v r then xpsr_v else 0).

Lemma flags_of_has r :
  has (flags_of r) xpsr_n = ar_n r /\ has (flags_of r) xpsr_z = ar_z r
  /\ has (flags_of r) xpsr_c = ar_c r /\ has (flags_of r) xpsr_v = ar_v r.
Proof. destruct r as [v [] [] [] []]; repeat split; reflexivity. Qed.

(** ** Conditions after a compare *)

(** The relation each condition code names between the two operands of a compare. *)
Definition condition_relation (c : Condition.t) (x y : Z) : bool :=
  match c with
  | Condition.eq => x =? y
  | Condition.ne => negb (x =? y)
  | Condition.cs => y <=? x
  | Condition.cc => x <? y
  | Condition.hi => y <? x
  | Condition.ls => x <=? y
  | Condition.ge => i32 y <=? i32 x
  | Condition.lt => i32 x <? i32 y
  | Condition.gt => i32 y <? i32 x
  | Condition.le => i32 x <=? i32 y
  | Condition.mi => 0x80000000 <=? u32 (x - y)
  | Condition.pl => u32 (x - y) <? 0x80000000
  | Condition.vs => negb ((-0x80000000 <=? i32 x - i32 y) && (i32 x - i32 y <? 0x80000000))
  | Condition.vc => (-0x80000000 <=? i32 x - i32 y) && (i32 x - i32 y <? 0x80000000)
  | Condition.al => true
  | Condition.nv => false
  end.

Lemma i32_not32 y : is_u32 y -> i32 (not32 y) = - i32 y - 1.
Proof.
  intros Hy. rewrite not32_sub by done. unfold i32.
  destruct (Z.ltb_spec y 0x80000000), (Z.ltb_spec (0xffffffff - y) 0x80000000); width_lia.
Qed.

(** The subtraction [x - y] as the compare computes it. *)
Record sub_spec (x y : Z) (r : AddResult) : Prop := {
  ss_value : ar_value r = u32 (x - y);
  ss_n : ar_n r = (0x80000000 <=? u32 (x - y));
  ss_z : ar_z r = (x =? y);
  ss_c : ar_c r = (y <=? x);
  ss_v : ar_v r = negb ((-0x80000000 <=? i32 x - i32 y) && (i32 x - i32 y <? 0x80000000));
}.

Lemma u32_sub_cases x y : is_u32 x -> is_u32 y ->
  u32 (x - y) = if y <=? x then x - y else x - y + 0x100000000.
Proof.
  intros Hx Hy. unfold u32. destruct (Z.leb_spec y x).
  - apply Z.mod_small. width_lia.
  - symmetry. apply Z.mod_unique with (-1); width_lia.
Qed.

Lemma addWithCarry_sub_spec x y : is_u32 x -> is_u32 y ->
  sub_spec x y (addWithCarry x (not32 y) true).
Proof.
  intros Hx Hy.
  destruct (addWithCarry_add_spec x (not32 y) true) as [Hv Hn Hz Hc Ho]; eauto with fil.
  rewrite i32_not32 in Ho by done. cbn [Z.b2z] in *.
  assert (ar_value (addWithCarry x (not32 y) true) = u32 (x - y)) as Hval.
  { rewrite Hv, not32_sub by done. unfold u32. symmetry. rewrite <- (Z.mod_add (x - y) 1) by lia. f_equal. lia. }
  constructor.
  - done.
  - by rewrite Hn, Hval.
  - rewrite Hz, Hval, u32_sub_cases by done.
    destruct (Z.leb_spec y x), (Z.eqb_spec x y);
      match goal with |- (?a =? 0) = _ => destruct (Z.eqb_spec a 0) end; width_lia || done.
  - rewrite Hc, not32_sub by done. destruct (Z.leb_spec y x);
      match goal with |- (?a <=? ?b) = _ => destruct (Z.leb_spec a b) end; width_lia || done.
  - rewrite Ho. replace (i32 x + (- i32 y - 1) + 1) with (i32 x - i32 y) by lia. done.
Qed.

Lemma sub_spec_conditions x y r cond : is_u32 x -> is_u32 y -> sub_spec x y r ->
  conditionPasses cond (flags_of r) = condition_relation cond x y.
Proof.
  intros Hx Hy [Hv Hn Hz Hc Ho].
  destruct (flags_of_has r) as (Fn & Fz & Fc & Fv).
  assert (u32 (x - y) = if y <=? x then x - y else x - y + 0x100000000) as Hs
    by (by apply u32_sub_cases).
  assert (i32 x = if x <? 0x80000000 then x else x - 0x100000000) as Ix by reflexivity.
  assert (i32 y = if y <? 0x80000000 then y else y - 0x100000000) as Iy by reflexivity.
  unfold is_u32 in *.
  destruct cond; cbn [conditionPasses condition_relation];
    rewrite ?Fn, ?Fz, ?Fc, ?Fv, ?Hn, ?Hz, ?Hc, ?Ho, ?Hs; try reflexivity;
    destruct (Z.ltb_spec x 0x80000000), (Z.ltb_spec y 0x80000000); rewrite ?Ix, ?Iy;
    destruct (Z.leb_spec y x);
    repeat match goal with
    | |- context [?a <=? ?b] => destruct (Z.leb_spec a b)
    | |- context [?a <? ?b] => destruct (Z.ltb_spec a b)
    | |- context [?a =? ?b] => destruct (Z.eqb_spec a b)
    end; cbn; try done; lia.
Qed.

(** ** The barrel shifter against arithmetic *)

(** The value and last bit shifted out, by multiplication, floor division and rotation. *)
Definition shift_reference (v : Z) (type : ShiftType.t) (n : Z) (carry : bool) : Z * bool :=
  match type with
  | ShiftType.rrx => ((v + 0x100000000 * Z.b2z carry) / 2, Z.odd v)
  | _ =>
      if n =? 0 then (v, carry)
      else
        match type with
        | ShiftType.lsl => (u32 (v * 2 ^ n), Z.testbit v (32 - n))
        | ShiftType.lsr => (v / 2 ^ n, Z.testbit v (n - 1))
        | ShiftType.asr => (u32 (i32 v / 2 ^ n), Z.testbit (i32 v) (n - 1))
        | _ =>
            let k := n mod 32 in
            let r := v / 2 ^ k + (v mod 2 ^ k) * 2 ^ (32 - k) in
            (r, Z.testbit r 31)
        end
  end.

Lemma u32_mul_pow2_large v n : 32 <= n -> u32 (v * 2 ^ n) = 0.
Proof.
  intros Hn. unfold u32. replace n with (n - 32 + 32) by lia.
  rewrite Z.pow_add_r by lia. change (2 ^ 32) with 0x100000000.
  rewrite Z.mul_assoc. apply Z.mod_mul. lia.
Qed.

Lemma div_pow2_large v n : is_u32 v -> 32 <= n -> v / 2 ^ n = 0.
Proof.
  intros Hv Hn. apply Z.div_small.
  assert (2 ^ 32 <= 2 ^ n) by (apply Z.pow_le_mono_r; lia). width_lia.
Qed.

Lemma sign_div_large v n : -0x80000000 <= v < 0x80000000 -> 31 <= n ->
  v / 2 ^ n = if v <? 0 then -1 else 0.
Proof.
  intros Hv Hn. assert (2 ^ 31 <= 2 ^ n) by (apply Z.pow_le_mono_r; lia).
  destruct (Z.ltb_spec v 0).
  - symmetry. apply Z.div_unique with (v + 2 ^ n); lia.
  - apply Z.div_small. lia.
Qed.

Lemma i32_testbit v i : is_u32 v -> 0 <= i ->
  Z.testbit (i32 v) i = if i <? 32 then Z.testbit v i else has v 0x80000000.
Proof.
  intros Hv Hi. rewrite has_sign by done. unfold i32. rewrite !Z.testbit_eqb by lia.
  destruct (Z.ltb_spec v 0x80000000), (Z.leb_spec 0x80000000 v); try lia.
  - destruct (Z.ltb_spec i 32); [done|].
    rewrite div_pow2_large by (lia || done). done.
  - destruct (Z.ltb_spec i 32).
    + rewrite <- (Z.mod_add (v / 2 ^ i) (- 2 ^ (31 - i)) 2) by lia.
      do 2 f_equal. rewrite <- Z.div_add by (pose proof (Z.pow_pos_nonneg 2 i); lia).
      f_equal. replace (- 2 ^ (31 - i) * 2) with (- 2 ^ (31 - i + 1)) by (rewrite Z.pow_add_r by lia; lia).
      rewrite Z.mul_opp_l, <- Z.pow_add_r by lia. replace (31 - i + 1 + i) with 32 by lia. done.
    + rewrite sign_div_large by width_lia. destruct (Z.ltb_spec (v - 0x100000000) 0); [done|].
      width_lia.
Qed.

Lemma sign_fill n : 0 < n < 32 -> u32 (0xffffffff .<< (32 - n)) = 2 ^ 32 - 2 ^ (32 - n).
Proof.
  intros Hn. unfold u32. rewrite Z.shiftl_mul_pow2 by lia. symmetry.
  apply Z.mod_unique with (2 ^ (32 - n) - 1); [|lia].
  assert (2 ^ (32 - n) < 2 ^ 32) by (apply Z.pow_lt_mono_r; lia).
  pose proof (Z.pow_pos_nonneg 2 (32 - n)). lia.
Qed.

Lemma lor_disjoint_add a b k : 0 <= a < 2 ^ k -> 0 <= k -> a .| b * 2 ^ k = a + b * 2 ^ k.
Proof.
  intros Ha Hk. symmetry. rewrite <- Z.lxor_lor, <- Z.add_nocarry_lxor; try done;
    rewrite <- Z.shiftl_mul_pow2 by done; apply Z.bits_inj'; intros i Hi;
    rewrite Z.land_spec, Z.bits_0, Z.shiftl_spec by done;
    (destruct (Z.lt_ge_cases i k);
      [rewrite (Z.testbit_neg_r _ (i - k)) by lia; apply andb_false_r
      |rewrite (high_bits_clear k) by lia; done]).
Qed.

Lemma asr_value v n : is_u32 v -> 0 < n < 32 ->
  v .>> n .| (if has v 0x80000000 then u32 (0xffffffff .<< (32 - n)) else 0)
  = u32 (i32 v / 2 ^ n).
Proof.
  intros Hv Hn. rewrite i32_sign by done. rewrite Z.shiftr_div_pow2 by lia.
  pose proof (Z.pow_pos_nonneg 2 n ltac:(lia) ltac:(lia)) as Hp.
  assert (2 ^ 32 = 2 ^ (32 - n) * 2 ^ n) as Hsplit
    by (rewrite <- Z.pow_add_r by lia; f_equal; lia).
  assert (0 <= v / 2 ^ n < 2 ^ (32 - n)) as Hq.
  { split; [apply Z.div_pos; width_lia|]. apply Z.div_lt_upper_bound; [lia|].
    rewrite Z.mul_comm, <- Hsplit. width_lia. }
  assert (2 ^ (32 - n) < 2 ^ 32) by (apply Z.pow_lt_mono_r; lia).
  destruct (has v 0x80000000).
  - rewrite sign_fill by done.
    replace (2 ^ 32 - 2 ^ (32 - n)) with ((2 ^ n - 1) * 2 ^ (32 - n)) by lia.
    rewrite lor_disjoint_add by lia.
    change 0x100000000 with (2 ^ 32). rewrite Hsplit.
    replace (v - 2 ^ (32 - n) * 2 ^ n) with (v + (- 2 ^ (32 - n)) * 2 ^ n) by lia.
    rewrite Z.div_add by lia. unfold u32. apply Z.mod_unique with (-1); lia.
  - rewrite Z.lor_0_r, Z.sub_0_r. symmetry. apply u32_small. width_lia.
Qed.

Lemma ror_value v k : is_u32 v -> 0 < k < 32 ->
  v .>> k .| u32 (v .<< (32 - k)) = v / 2 ^ k + (v mod 2 ^ k) * 2 ^ (32 - k).
Proof.
  intros Hv Hk. rewrite Z.shiftr_div_pow2, Z.shiftl_mul_pow2 by lia.
  pose proof (Z.pow_pos_nonneg 2 k ltac:(lia) ltac:(lia)) as Hp.
  pose proof (Z.pow_pos_nonneg 2 (32 - k) ltac:(lia) ltac:(lia)) as Hp'.
  assert (2 ^ 32 = 2 ^ (32 - k) * 2 ^ k) as Hsplit
    by (rewrite <- Z.pow_add_r by lia; f_equal; lia).
  assert (u32 (v * 2 ^ (32 - k)) = (v mod 2 ^ k) * 2 ^ (32 - k)) as ->.
  { unfold u32. change 0x100000000 with (2 ^ 32). rewrite Hsplit, (Z.mul_comm (2 ^ (32 - k))).
    apply Z.mul_mod_distr_r; lia. }
  apply lor_disjoint_add; [|lia]. split; [apply Z.div_pos; width_lia|].
  apply Z.div_lt_upper_bound; [lia|]. rewrite Z.mul_comm, <- Hsplit. width_lia.
Qed.

Lemma ror_value_range v k : is_u32 v -> 0 < k < 32 ->
  is_u32 (v .>> k .| u32 (v .<< (32 - k))).
Proof. intros Hv Hk. apply is_u32_lor; [apply is_u32_shiftr; [lia|done] | apply u32_range]. Qed.

Lemma rrx_value v (c : bool) : is_u32 v ->
  (if c then 0x80000000 else 0) .| v .>> 1 = (v + 0x100000000 * Z.b2z c) / 2.
Proof.
  intros Hv. rewrite Z.lor_comm, Z.shiftr_div_pow2 by lia. change (2 ^ 1) with 2.
  replace (v + 0x100000000 * Z.b2z c) with (v + (0x80000000 * Z.b2z c) * 2) by lia.
  rewrite Z.div_add by lia. destruct c; simpl Z.b2z.
  - change 0x80000000 with (1 * 2 ^ 31). rewrite lor_disjoint_add; [lia| |lia].
    split; [apply Z.div_pos; width_lia | apply Z.div_lt_upper_bound; width_lia].
  - rewrite Z.lor_0_r. lia.
Qed.

Lemma shiftC_reference v type n c : is_u32 v -> 0 <= n ->
  (sr_value (shiftC v type n c), sr_carry (shiftC v type n c)) = shift_reference v type n c.
Proof.
  intros Hv Hn. unfold shiftC, shift_reference.
  destruct type; [| | | |cbn [sr_value sr_carry]; rewrite rrx_value by done;
    f_equal; by rewrite <- testbit_odd, Z.bit0_odd];
  (destruct (Z.eqb_spec n 0); [done|]).
  - destruct (Z.ltb_spec n 32); cbn [sr_value sr_carry].
    { by rewrite Z.shiftl_mul_pow2, has_shiftr_bit by lia. }
    rewrite u32_mul_pow2_large by lia. destruct (Z.eqb_spec n 32) as [->|]; cbn [sr_value sr_carry].
    + by rewrite <- testbit_odd.
    + by rewrite Z.testbit_neg_r by lia.
  - destruct (Z.ltb_spec n 32); cbn [sr_value sr_carry].
    { by rewrite Z.shiftr_div_pow2, has_shiftr_bit by lia. }
    rewrite div_pow2_large by (lia || done).
    destruct (Z.eqb_spec n 32) as [->|]; cbn [sr_value sr_carry].
    + f_equal. by apply (has_pow2 v 31).
    + rewrite (high_bits_clear 32) by width_lia. done.
  - destruct (Z.ltb_spec n 32); cbn [sr_value sr_carry].
    + rewrite asr_value, has_shiftr_bit by (lia || done). f_equal.
      rewrite i32_testbit by (lia || done). destruct (Z.ltb_spec (n - 1) 32); [done|lia].
    + rewrite sign_div_large by (try apply i32_range; lia || done).
      rewrite i32_testbit by (lia || done). pose proof (has_sign v Hv) as Hs.
      assert ((i32 v <? 0) = has v 0x80000000) as ->.
      { rewrite Hs. unfold i32.
        destruct (Z.ltb_spec v 0x80000000), (Z.leb_spec 0x80000000 v); try lia;
          match goal with |- (?a <? 0) = _ => destruct (Z.ltb_spec a 0) end; width_lia || done. }
      destruct (Z.ltb_spec (n - 1) 32); [|by destruct (has v 0x80000000)].
      replace (n - 1) with 31 by lia.
      rewrite <- (has_pow2 v 31) by lia. by destruct (has v (2 ^ 31)) eqn:E;
        change (2 ^ 31) with 0x80000000 in E; rewrite E.
  - change (n .& 31) with (Z.land n (Z.ones 5)). rewrite Z.land_ones by lia.
    change (2 ^ 5) with 32. pose proof (Z.mod_pos_bound n 32 ltac:(lia)) as Hk.
    destruct (Z.eqb_spec (n mod 32) 0) as [E|E]; cbn [sr_value sr_carry].
    + rewrite E. rewrite Z.pow_0_r, Z.div_1_r, Z.mod_1_r, Z.mul_0_l, Z.add_0_r.
      f_equal. by apply (has_pow2 v 31).
    + rewrite <- ror_value by (lia || done). f_equal. by apply (has_pow2 _ 31).
Qed.

Lemma shiftC_value_range v type n c : is_u32 v -> 0 <= n ->
  is_u32 (sr_value (shiftC v type n c)).
Proof.
  intros Hv Hn. assert (0 <= v / 2 ^ n <= v) as Hd.
  { rewrite <- Z.shiftr_div_pow2 by lia. apply shiftr_bounds; width_lia. }
  destruct type; unfold shiftC; repeat case_match_goal; simpl; try width_lia;
    try apply u32_range; try (apply is_u32_lor);
    try (apply is_u32_shiftr; [lia|done]); eauto with fil; try width_lia.
  all: apply is_u32_shiftr; [|done]; apply Z.land_nonneg; lia.
Qed.
#[export] Hint Resolve shiftC_value_range : fil.

(** ** IT blocks *)

Fixpoint it_after (n : nat) (it_state : Z) : Z :=
  match n with O => it_state | S n => it_after n (advanceItState it_state) end.

(** Instructions governed by an IT state byte: the position of the mask's stop bit. *)
Definition it_length (it_state : Z) : nat :=
  if has it_state 1 then 4 else if has it_state 2 then 3
  else if has it_state 4 then 2 else if has it_state 8 then 1 else 0.

(** The condition of instruction [k]: the base condition with its low bit taken from the
    mask, as the T/E suffixes of the assembler select it. *)
Definition it_condition (it_state : Z) (k : nat) : Condition.t :=
  Condition.of_Z (it_state .>> 4 .& 0xe .| Z.b2z (Z.testbit it_state (4 - Z.of_nat k))).

Definition it_block_ok (it_state : Z) : bool :=
  eqb (inItBlock it_state) (bool_decide (0 < it_length it_state)%nat)
  && (negb (inItBlock it_state)
      || bool_decide (it_after (it_length it_state) it_state = 0))
  && forallb (fun k => inItBlock (it_after k it_state)
                       && bool_decide (currentItCondition (it_after k it_state)
                                       = it_condition it_state k))
       (seq 0 (it_length it_state)).

Lemma it_block_ok_all : forallb it_block_ok (seqZ 0 256) = true.
Proof. vm_compute. reflexivity. Qed.

Lemma it_block_ok_byte it_state : is_u8 it_state -> it_block_ok it_state = true.
Proof.
  intros Hit. pose proof it_block_ok_all as Hall. rewrite forallb_forall in Hall.
  apply Hall, list_elem_of_In, elem_of_seqZ. width_lia.
Qed.

Lemma advanceItState_range it_state : is_u8 (advanceItState it_state).
Proof. unfold advanceItState. destruct (_ =? 0); [width_lia | apply u8_range]. Qed.
#[export] Hint Resolve advanceItState_range : fil.

(** ** Cycle costs *)

Lemma popcount_fuel_range n x : 0 <= x -> 0 <= popcount_fuel n x <= Z.of_nat n.
Proof.
  revert x. induction n as [|n IH]; intros x Hx; simpl; [lia|].
  pose proof (land_bounds_r x 1 ltac:(lia)).
  assert (0 <= x .>> 1) by (by apply Z.shiftr_nonneg).
  specialize (IH _ H0). lia.
Qed.

Lemma popcount_fuel_0 n : popcount_fuel n 0 = 0.
Proof. induction n as [|n IH]; [done|]. cbn [popcount_fuel]. change (0 .>> 1) with 0. by rewrite IH. Qed.

Lemma popcount_fuel_below n k x : 0 <= x < 2 ^ Z.of_nat k ->
  0 <= popcount_fuel n x <= Z.of_nat k.
Proof.
  revert k x. induction n as [|n IH]; intros k x Hx; [simpl; lia|].
  destruct k as [|k].
  { replace x with 0 by (simpl in Hx; lia). rewrite popcount_fuel_0. lia. }
  simpl popcount_fuel. pose proof (land_bounds_r x 1 ltac:(lia)).
  assert (0 <= x .>> 1 < 2 ^ Z.of_nat k) as Hs.
  { rewrite Z.shiftr_div_pow2 by lia. rewrite Nat2Z.inj_succ, Z.pow_succ_r in Hx by lia.
    split; [apply Z.div_pos; lia | apply Z.div_lt_upper_bound; lia]. }
  specialize (IH k _ Hs). lia.
Qed.

Lemma popcount_list_range x : is_u16 x -> 0 <= popcount x <= 16.
Proof. intros. by apply (popcount_fuel_below 32 16). Qed.

Lemma divideCycles_range x : is_u32 x -> 2 <= divideCycles x <= 12.
Proof.
  intros Hx. unfold divideCycles. destruct (x =? 0); [lia|].
  pose proof (countl_zero32_range x Hx).
  assert (0 <= countl_zero32 x * 10 / 32 <= 10).
  { split; [apply Z.div_pos; lia | apply Z.div_le_upper_bound; lia]. }
  rewrite u16_small; width_lia.
Qed.

Lemma basePipelineCycles_range op : is_u16 (di_register_list op) ->
  1 <= basePipelineCycles op <= 17.
Proof.
  intros Hl. pose proof (popcount_list_range _ Hl).
  unfold basePipelineCycles. destruct (di_kind op); try lia; rewrite u16_small; width_lia.
Qed.

Lemma takenBranchPenalty_range k : 1 <= takenBranchPenalty k <= 2.
Proof. destruct k; simpl; lia. Qed.

(** ** Register lists *)

Lemma popcount_fuel_add a b x :
  popcount_fuel (a + b) x = popcount_fuel a x + popcount_fuel b (x .>> Z.of_nat a).
Proof.
  revert x. induction a as [|a IH]; intros x; [by rewrite Z.shiftr_0_r|].
  cbn [Nat.add popcount_fuel]. rewrite IH, Z.shiftr_shiftr by lia.
  replace (1 + Z.of_nat a) with (Z.of_nat (S a)) by lia. lia.
Qed.

Lemma popcount_fuel_filter n x :
  popcount_fuel n x =
    Z.of_nat (length (filter (fun i => Z.testbit x i = true) (seqZ 0 (Z.of_nat n)))).
Proof.
  induction n as [|n IH]; [done|].
  replace (popcount_fuel (S n) x) with (popcount_fuel (n + 1) x) by (f_equal; lia).
  rewrite popcount_fuel_add, IH, seqZ_S, filter_app, length_app. cbn [popcount_fuel].
  rewrite filter_cons, filter_nil, Z.add_0_l.
  change (x .>> Z.of_nat n .& 1) with (x .>> Z.of_nat n .& 2 ^ 0).
  rewrite land_pow2, Z.shiftr_spec, Z.add_0_l by lia.
  destruct (decide (Z.testbit x (Z.of_nat n) = true)) as [E|E].
  - rewrite E. simpl length. lia.
  - destruct (Z.testbit x (Z.of_nat n)); [done|]. simpl length. lia.
Qed.

Lemma popcount_listed x : is_u16 x ->
  popcount x = Z.of_nat (length (filter (fun i => Z.testbit x i = true) (seqZ 0 16))).
Proof.
  intros Hx. unfold popcount. change 32%nat with (16 + 16)%nat.
  rewrite popcount_fuel_add, popcount_fuel_filter.
  replace (x .>> Z.of_nat 16) with 0.
  - rewrite popcount_fuel_0. change (Z.of_nat 16) with 16. lia.
  - rewrite Z.shiftr_div_pow2 by lia. symmetry. apply Z.div_small. width_lia.
Qed.
