(* ===== verification/Decoder.v ===== *)
(** * Table-driven Thumb and Thumb-2 instruction decoder

    Models [src/cpu/decoder.cpp] and [include/fil/cpu/decoder.hpp] in full: one definition
    per decoding function, the two pattern tables in their source order, the table scan of
    [decode16]/[decode32] and the overlap check [decoderTablesHaveNoOverlaps].  Halfwords
    are integers in [0, 0xffff]; [std::optional] is [option]. *)

From S2P Require Import Prelude Instruction.

Import (notations) Prelude.

(** ** Shared helpers *)

Definition is32BitThumbPrefix (halfword : Z) : bool := 0xe800 <=? halfword .& 0xf800.

(** [signExtend<Bits>]: the low [bits] bits as a two's-complement number. *)
Definition signExtend (bits value : Z) : Z :=
  let sign := 1 .<< (bits - 1) in
  let mask := (1 .<< bits) - 1 in
  let narrowed := value .& mask in
  if narrowed .& sign =? 0 then narrowed else narrowed - (1 .<< bits).

Definition base16 (raw : Z) (kind : InstrKind.t) (form : OperandForm.t)
    : DecodedInstruction :=
  {| decoded_default with di_kind := kind; di_form := form; di_raw := raw |}.

Definition base32 (first second : Z) (kind : InstrKind.t) (form : OperandForm.t)
    : DecodedInstruction :=
  let result := base16 first kind form in
  {| result with di_is_32bit := true; di_raw := first .<< 16 .| second |}.

Record ExpandedImmediate := mkExpanded {
  ei_value : Z; ei_carry_valid : bool; ei_carry : bool;
}.

Definition thumbExpandImmediate (imm12 : Z) : option ExpandedImmediate :=
  let imm8 := imm12 .& 0xff in
  if imm12 .& 0xc00 =? 0 then
    match imm12 .>> 8 .& 0x3 with
    | 0 => Some (mkExpanded imm8 false false)
    | 1 => if imm8 =? 0 then None
           else Some (mkExpanded (imm8 .<< 16 .| imm8) false false)
    | 2 => if imm8 =? 0 then None
           else Some (mkExpanded (imm8 .<< 24 .| imm8 .<< 8) false false)
    | 3 => if imm8 =? 0 then None
           else Some (mkExpanded (u32 (imm8 * 0x01010101)) false false)
    | _ => None
    end
  else
    let unrotated := 0x80 .| imm12 .& 0x7f in
    let rotation := imm12 .>> 7 .& 0x1f in
    let value := rotr32 unrotated rotation in
    Some (mkExpanded value true (has value 0x80000000)).

(** ** 16-bit encodings *)

Definition decodeShiftImmediate (raw : Z) : option DecodedInstruction :=
  let selector := raw .>> 11 .& 0x3 in
  let finish kind type :=
    let result := base16 raw kind OperandForm.immediate in
    let amount := raw .>> 6 .& 0x1f in
    Some {| result with
      di_rd := raw .& 0x7;
      di_rm := raw .>> 3 .& 0x7;
      di_shift_type := type;
      di_shift_amount :=
        if negb (bool_decide (type = ShiftType.lsl)) && (amount =? 0) then 32 else amount;
      di_set_flags := true |} in
  if selector =? 1 then finish InstrKind.lsr ShiftType.lsr
  else if selector =? 2 then finish InstrKind.asr ShiftType.asr
  else if negb (selector =? 0) then None
  else finish InstrKind.lsl ShiftType.lsl.

Definition decodeAddSubtract (raw : Z) : option DecodedInstruction :=
  let immediate := has raw 0x0400 in
  let subtract := has raw 0x0200 in
  let result := base16 raw (if subtract then InstrKind.sub else InstrKind.add)
    (if immediate then OperandForm.immediate else OperandForm.register_value) in
  let result := {| result with di_rd := raw .& 0x7; di_rn := raw .>> 3 .& 0x7 |} in
  let result :=
    if immediate then {| result with di_imm := raw .>> 6 .& 0x7 |}
    else {| result with di_rm := raw .>> 6 .& 0x7 |} in
  Some {| result with di_set_flags := true |}.

Definition decodeImmediate8 (raw : Z) : option DecodedInstruction :=
  let operation := raw .>> 11 .& 0x3 in
  let kind :=
    if operation =? 1 then InstrKind.cmp
    else if operation =? 2 then InstrKind.add
    else if operation =? 3 then InstrKind.sub
    else InstrKind.mov in
  let result := base16 raw kind OperandForm.immediate in
  Some {| result with
    di_rd := raw .>> 8 .& 0x7;
    di_rn := raw .>> 8 .& 0x7;
    di_imm := raw .& 0xff;
    di_set_flags := true |}.

Definition data_processing_operations : list InstrKind.t :=
  [InstrKind.and_; InstrKind.eor; InstrKind.lsl; InstrKind.lsr;
   InstrKind.asr; InstrKind.adc; InstrKind.sbc; InstrKind.ror;
   InstrKind.tst; InstrKind.rsb; InstrKind.cmp; InstrKind.cmn;
   InstrKind.orr; InstrKind.mul; InstrKind.bic; InstrKind.mvn].

Definition kind_at (table : list InstrKind.t) (i : Z) : InstrKind.t :=
  default InstrKind.undefined (table !! Z.to_nat i).

Definition decodeDataProcessing (raw : Z) : option DecodedInstruction :=
  let opcode := raw .>> 6 .& 0x0f in
  let operation := kind_at data_processing_operations opcode in
  let result := base16 raw operation OperandForm.register_value in
  Some {| result with
    di_rd := raw .& 0x7;
    di_rn := raw .& 0x7;
    di_rm := raw .>> 3 .& 0x7;
    di_set_flags := true;
    di_shift_type :=
      match operation with
      | InstrKind.lsr => ShiftType.lsr
      | InstrKind.asr => ShiftType.asr
      | InstrKind.ror => ShiftType.ror
      | _ => ShiftType.lsl
      end |}.

Definition decodeSpecialData (raw : Z) : option DecodedInstruction :=
  let operation := raw .>> 8 .& 0x3 in
  let rd := raw .& 0x7 .| (raw .>> 4 .& 0x8) in
  let rm := raw .>> 3 .& 0x0f in
  if operation =? 3 then
    if negb (raw .& 0x7 =? 0) then None
    else
      let result := base16 raw
        (if has raw 0x0080 then InstrKind.blx else InstrKind.bx) OperandForm.register_value in
      Some {| result with di_rm := rm |}
  else
    let kind := if operation =? 0 then InstrKind.add
                else if operation =? 1 then InstrKind.cmp else InstrKind.mov in
    let result := base16 raw kind OperandForm.register_value in
    Some {| result with
      di_rd := rd; di_rn := rd; di_rm := rm; di_set_flags := operation =? 1 |}.

Definition decodeLiteralLoad (raw : Z) : option DecodedInstruction :=
  let result := base16 raw InstrKind.ldr OperandForm.literal in
  Some {| result with
    di_rd := raw .>> 8 .& 0x7; di_rn := 15; di_imm := (raw .& 0xff) .<< 2 |}.

Definition register_transfer_operations : list InstrKind.t :=
  [InstrKind.str; InstrKind.strh; InstrKind.strb; InstrKind.ldrsb;
   InstrKind.ldr; InstrKind.ldrh; InstrKind.ldrb; InstrKind.ldrsh].

Definition decodeRegisterTransfer (raw : Z) : option DecodedInstruction :=
  let opcode := raw .>> 9 .& 0x7 in
  let result := base16 raw (kind_at register_transfer_operations opcode)
    OperandForm.register_value in
  Some {| result with
    di_rd := raw .& 0x7; di_rn := raw .>> 3 .& 0x7; di_rm := raw .>> 6 .& 0x7 |}.

Definition decodeImmediateTransfer (raw : Z) : option DecodedInstruction :=
  let family := raw .& 0xf000 in
  let load := has raw 0x0800 in
  let '(kind, scale) :=
    if family =? 0x7000 then (if load then InstrKind.ldrb else InstrKind.strb, 1)
    else if family =? 0x8000 then (if load then InstrKind.ldrh else InstrKind.strh, 2)
    else (if load then InstrKind.ldr else InstrKind.str, 4) in
  let result := base16 raw kind OperandForm.immediate in
  Some {| result with
    di_rd := raw .& 0x7; di_rn := raw .>> 3 .& 0x7;
    di_imm := (raw .>> 6 .& 0x1f) * scale |}.

Definition decodeSpTransfer (raw : Z) : option DecodedInstruction :=
  let result := base16 raw (if has raw 0x0800 then InstrKind.ldr else InstrKind.str)
    OperandForm.immediate in
  Some {| result with
    di_rd := raw .>> 8 .& 0x7; di_rn := 13; di_imm := (raw .& 0xff) .<< 2 |}.

Definition decodeAddressGeneration (raw : Z) : option DecodedInstruction :=
  let result := base16 raw InstrKind.add OperandForm.immediate in
  Some {| result with
    di_rd := raw .>> 8 .& 0x7;
    di_rn := if has raw 0x0800 then 13 else 15;
    di_imm := (raw .& 0xff) .<< 2 |}.

Definition extend_operations : list InstrKind.t :=
  [InstrKind.sxth; InstrKind.sxtb; InstrKind.uxth; InstrKind.uxtb].

Definition decodeMiscellaneous (raw : Z) : option DecodedInstruction :=
  if raw .& 0xff00 =? 0xba00 then
    let operation := raw .>> 6 .& 0x3 in
    let finish kind :=
      let result := base16 raw kind OperandForm.register_value in
      Some {| result with di_rd := raw .& 0x7; di_rm := raw .>> 3 .& 0x7 |} in
    if operation =? 0 then finish InstrKind.rev
    else if operation =? 1 then finish InstrKind.rev16
    else if operation =? 3 then finish InstrKind.revsh
    else None
  else if raw .& 0xff00 =? 0xb200 then
    let result := base16 raw (kind_at extend_operations (raw .>> 6 .& 0x3))
      OperandForm.register_value in
    Some {| result with di_rd := raw .& 0x7; di_rm := raw .>> 3 .& 0x7 |}
  else if raw .& 0xff00 =? 0xbe00 then
    let result := base16 raw InstrKind.bkpt OperandForm.immediate in
    Some {| result with di_imm := raw .& 0xff |}
  else if raw .& 0xff00 =? 0xbf00 then
    if raw =? 0xbf20 then Some (base16 raw InstrKind.wfe OperandForm.none)
    else if raw =? 0xbf30 then Some (base16 raw InstrKind.wfi OperandForm.none)
    else if raw =? 0xbf40 then Some (base16 raw InstrKind.sev OperandForm.none)
    else
      let mask := raw .& 0x0f in
      let first_condition := raw .>> 4 .& 0x0f in
      if mask =? 0 then
        if raw =? 0xbf00 then Some (base16 raw InstrKind.nop OperandForm.none) else None
      else if Condition.to_Z Condition.al <=? first_condition then None
      else
        let result := base16 raw InstrKind.it OperandForm.immediate in
        Some {| result with
          di_condition := Condition.of_Z first_condition;
          di_imm := first_condition .<< 4 .| mask |}
  else if raw .& 0xffe8 =? 0xb660 then
    let affected := raw .& 0x7 in
    if (affected =? 0) || has affected 0x4 then None
    else
      let result := base16 raw InstrKind.cps OperandForm.immediate in
      Some {| result with di_imm := affected; di_add := raw .& 0x0010 =? 0 |}
  else if raw .& 0xf500 =? 0xb100 then
    let result := base16 raw (if has raw 0x0800 then InstrKind.cbnz else InstrKind.cbz)
      OperandForm.immediate in
    Some {| result with
      di_rn := raw .& 0x7;
      di_imm := (raw .>> 3 .& 0x1f) .<< 1 .| (raw .>> 9 .& 0x1) .<< 6 |}
  else if raw .& 0xfe00 =? 0xb400 then
    let result := base16 raw InstrKind.push OperandForm.register_list in
    let register_list := if has raw 0x0100 then raw .& 0xff .| 1 .<< 14 else raw .& 0xff in
    if register_list =? 0 then None
    else Some {| result with
      di_register_list := register_list; di_rn := 13; di_writeback := true;
      di_add := false; di_index := true |}
  else if raw .& 0xfe00 =? 0xbc00 then
    let result := base16 raw InstrKind.pop OperandForm.register_list in
    let register_list := if has raw 0x0100 then raw .& 0xff .| 1 .<< 15 else raw .& 0xff in
    if register_list =? 0 then None
    else Some {| result with
      di_register_list := register_list; di_rn := 13; di_writeback := true;
      di_add := true; di_index := false |}
  else if raw .& 0xff00 =? 0xb000 then
    let result := base16 raw (if has raw 0x0080 then InstrKind.sub else InstrKind.add)
      OperandForm.immediate in
    Some {| result with di_rd := 13; di_rn := 13; di_imm := (raw .& 0x7f) .<< 2 |}
  else None.

Definition decodeMultiple (raw : Z) : option DecodedInstruction :=
  let kind := if has raw 0x0800 then InstrKind.ldm else InstrKind.stm in
  let result := base16 raw kind OperandForm.register_list in
  let rn := raw .>> 8 .& 0x7 in
  let register_list := raw .& 0xff in
  if register_list =? 0 then None
  else Some {| result with
    di_rn := rn;
    di_register_list := register_list;
    di_writeback := kind_eqb kind InstrKind.stm || (register_list .& 1 .<< rn =? 0);
    di_add := true;
    di_index := false |}.

Definition decodeConditionalBranch (raw : Z) : option DecodedInstruction :=
  let condition := raw .>> 8 .& 0x0f in
  if condition =? Condition.to_Z Condition.nv then
    let result := base16 raw InstrKind.svc OperandForm.immediate in
    Some {| result with di_imm := raw .& 0xff |}
  else if Condition.to_Z Condition.al <=? condition then None
  else
    let result := base16 raw InstrKind.b OperandForm.immediate in
    Some {| result with
      di_condition := Condition.of_Z condition;
      di_branch_offset := signExtend 9 ((raw .& 0xff) .<< 1) |}.

Definition decodeUnconditionalBranch (raw : Z) : option DecodedInstruction :=
  let result := base16 raw InstrKind.b OperandForm.immediate in
  Some {| result with di_branch_offset := signExtend 12 ((raw .& 0x07ff) .<< 1) |}.

(** ** 32-bit encodings *)

Definition decodeMovWide (first second : Z) : option DecodedInstruction :=
  let top := has first 0x0080 in
  let result := base32 first second (if top then InstrKind.movt else InstrKind.movw)
    OperandForm.immediate in
  let rd := second .>> 8 .& 0x0f in
  let imm := (first .& 0x000f) .<< 12 .| (first .>> 10 .& 0x1) .<< 11
    .| (second .>> 12 .& 0x7) .<< 8 .| second .& 0x00ff in
  if rd =? 15 then None else Some {| result with di_rd := rd; di_imm := imm |}.

Definition decodeAddSubWideImmediate (first second : Z) : option DecodedInstruction :=
  let subtract := has first 0x0080 in
  let result := base32 first second (if subtract then InstrKind.sub else InstrKind.add)
    OperandForm.immediate in
  let rd := second .>> 8 .& 0x0f in
  if rd =? 15 then None
  else Some {| result with
    di_rn := first .& 0x0f;
    di_rd := rd;
    di_imm := (first .& 0x0400) .<< 1 .| (second .& 0x7000) .>> 4 .| second .& 0x00ff |}.

Definition decodeImmediateShiftType (encoded amount : Z) : ShiftType.t :=
  if encoded =? 0 then ShiftType.lsl
  else if encoded =? 1 then ShiftType.lsr
  else if encoded =? 2 then ShiftType.asr
  else if amount =? 0 then ShiftType.rrx else ShiftType.ror.

Definition normalizeDataProcessingOperation
    (opcode : Z) (set_flags : bool) (rn rd : Z) : option InstrKind.t :=
  kind ←
    match opcode with
    | 0 => Some InstrKind.and_
    | 1 => Some InstrKind.bic
    | 2 => Some InstrKind.orr
    | 3 => Some InstrKind.orn
    | 4 => Some InstrKind.eor
    | 8 => Some InstrKind.add
    | 10 => Some InstrKind.adc
    | 11 => Some InstrKind.sbc
    | 13 => Some InstrKind.sub
    | 14 => Some InstrKind.rsb
    | _ => None
    end;
  kind ←
    (if set_flags && (rd =? 15) then
       match kind with
       | InstrKind.and_ => Some InstrKind.tst
       | InstrKind.add => Some InstrKind.cmn
       | InstrKind.sub => Some InstrKind.cmp
       | _ => None
       end
     else if rn =? 15 then
       match kind with
       | InstrKind.orr => Some InstrKind.mov
       | InstrKind.orn => Some InstrKind.mvn
       | _ => None
       end
     else Some kind);
  if (rd =? 15) && negb (kind_eqb kind InstrKind.tst) && negb (kind_eqb kind InstrKind.cmp)
     && negb (kind_eqb kind InstrKind.cmn) then None
  else if (rn =? 15) && negb (kind_eqb kind InstrKind.mov)
     && negb (kind_eqb kind InstrKind.mvn) then None
  else Some kind.

Definition decodeDataProcessingImmediate (first second : Z) : option DecodedInstruction :=
  let opcode := first .>> 5 .& 0x0f in
  let set_flags := has first 0x0010 in
  let rn := first .& 0x0f in
  let rd := second .>> 8 .& 0x0f in
  let imm12 := u16 ((first .& 0x0400) .<< 1 .| (second .& 0x7000) .>> 4
    .| second .& 0x00ff) in
  expanded ← thumbExpandImmediate imm12;
  kind ← normalizeDataProcessingOperation opcode set_flags rn rd;
  let result := base32 first second kind OperandForm.immediate in
  Some {| result with
    di_rd := rd; di_rn := rn; di_imm := ei_value expanded; di_set_flags := set_flags;
    di_immediate_carry_valid := ei_carry_valid expanded;
    di_immediate_carry := ei_carry expanded |}.

Definition decodeDataProcessingRegister (first second : Z) : option DecodedInstruction :=
  let opcode := first .>> 5 .& 0x0f in
  let set_flags := has first 0x0010 in
  let rn := first .& 0x0f in
  let rd := second .>> 8 .& 0x0f in
  let rm := second .& 0x0f in
  let shift_encoding := second .>> 4 .& 0x3 in
  let amount := second .>> 10 .& 0x1c .| (second .>> 6 .& 0x3) in
  kind ← normalizeDataProcessingOperation opcode set_flags rn rd;
  if rm =? 15 then None
  else
    let result := base32 first second kind OperandForm.register_value in
    let shift_type := decodeImmediateShiftType shift_encoding amount in
    Some {| result with
      di_rd := rd; di_rn := rn; di_rm := rm;
      di_shift_type := shift_type;
      di_shift_amount :=
        if (amount =? 0) && match shift_type with
                            | ShiftType.lsr | ShiftType.asr => true
                            | _ => false
                            end
        then 32 else amount;
      di_set_flags := set_flags |}.

Definition register_shift_kinds : list InstrKind.t :=
  [InstrKind.lsl; InstrKind.lsr; InstrKind.asr; InstrKind.ror].
Definition register_shift_types : list ShiftType.t :=
  [ShiftType.lsl; ShiftType.lsr; ShiftType.asr; ShiftType.ror].

Definition decodeRegisterShift (first second : Z) : option DecodedInstruction :=
  let rn := first .& 0x0f in
  let rd := second .>> 8 .& 0x0f in
  let rm := second .& 0x0f in
  if (rn =? 15) || (rd =? 15) || (rm =? 15) then None
  else
    let operation := first .>> 5 .& 0x3 in
    let result := base32 first second (kind_at register_shift_kinds operation)
      OperandForm.register_value in
    Some {| result with
      di_rd := rd; di_rn := rn; di_rm := rm;
      di_shift_type :=
        default ShiftType.lsl (register_shift_types !! Z.to_nat operation) |}.

Definition decodeExtendWide (first second : Z) : option DecodedInstruction :=
  kind ←
    match first .>> 4 .& 0x7 with
    | 0 => Some InstrKind.sxth
    | 1 => Some InstrKind.uxth
    | 4 => Some InstrKind.sxtb
    | 5 => Some InstrKind.uxtb
    | _ => None
    end;
  let result := base32 first second kind OperandForm.register_value in
  let rd := second .>> 8 .& 0x0f in
  let rm := second .& 0x0f in
  if (rd =? 15) || (rm =? 15) then None
  else Some {| result with
    di_rd := rd; di_rm := rm; di_shift_amount := (second .>> 4 .& 0x3) * 8 |}.

Definition decodeMultiply (first second : Z) : option DecodedInstruction :=
  let rn := first .& 0x0f in
  let rm := second .& 0x0f in
  let rd := second .>> 8 .& 0x0f in
  let ra := second .>> 12 .& 0x0f in
  if (rn =? 15) || (rm =? 15) || (rd =? 15) then None
  else
    let subtract := has second 0x0010 in
    if subtract && (ra =? 15) then None
    else
      let kind := if negb subtract && (ra =? 15) then InstrKind.mul
                  else if subtract then InstrKind.mls else InstrKind.mla in
      let result := base32 first second kind OperandForm.register_value in
      Some {| result with di_rd := rd; di_rn := rn; di_rm := rm; di_ra := ra |}.

Definition decodeUmull (first second : Z) : option DecodedInstruction :=
  let result := base32 first second InstrKind.umull OperandForm.register_value in
  let rn := first .& 0x0f in
  let rm := second .& 0x0f in
  let rd := second .>> 12 .& 0x0f in
  let ra := second .>> 8 .& 0x0f in
  if (rn =? 15) || (rm =? 15) || (rd =? 15) || (ra =? 15) || (rd =? ra) then None
  else Some {| result with di_rn := rn; di_rm := rm; di_rd := rd; di_ra := ra |}.

Definition decodeSmull (first second : Z) : option DecodedInstruction :=
  result ← decodeUmull first second;
  Some {| result with di_kind := InstrKind.smull |}.

Definition decodeUdiv (first second : Z) : option DecodedInstruction :=
  let result := base32 first second InstrKind.udiv OperandForm.register_value in
  let rn := first .& 0x0f in
  let rd := second .>> 8 .& 0x0f in
  let rm := second .& 0x0f in
  if (rn =? 15) || (rd =? 15) || (rm =? 15) then None
  else Some {| result with di_rn := rn; di_rd := rd; di_rm := rm |}.

Definition decodeSdiv (first second : Z) : option DecodedInstruction :=
  result ← decodeUdiv first second;
  Some {| result with di_kind := InstrKind.sdiv |}.

Definition decodeParallelAddSelect (first second : Z) : option DecodedInstruction :=
  let select := has first 0x0020 in
  let result := base32 first second (if select then InstrKind.sel else InstrKind.uadd8)
    OperandForm.register_value in
  let rn := first .& 0x0f in
  let rd := second .>> 8 .& 0x0f in
  let rm := second .& 0x0f in
  if (rn =? 15) || (rd =? 15) || (rm =? 15) then None
  else Some {| result with di_rn := rn; di_rd := rd; di_rm := rm |}.

Definition decodeClz (first second : Z) : option DecodedInstruction :=
  let rm := first .& 0x0f in
  if negb (second .& 0x0f =? rm) then None
  else
    let result := base32 first second InstrKind.clz OperandForm.register_value in
    let rd := second .>> 8 .& 0x0f in
    if (rd =? 15) || (rm =? 15) then None
    else Some {| result with di_rd := rd; di_rm := rm |}.

Definition decodeBitfieldClear (first second : Z) : option DecodedInstruction :=
  let lsb := second .>> 10 .& 0x1c .| (second .>> 6 .& 0x3) in
  let msb := second .& 0x1f in
  if msb <? lsb then None
  else
    let width := u8 (msb - lsb + 1) in
    let result := base32 first second InstrKind.bfc OperandForm.immediate in
    let rn := first .& 0x0f in
    let rd := second .>> 8 .& 0x0f in
    if negb (rn =? 15) || (rd =? 15) then None
    else Some {| result with
      di_rn := rn; di_rd := rd; di_shift_amount := lsb; di_imm := width |}.

Definition decodeUbfx (first second : Z) : option DecodedInstruction :=
  let lsb := second .>> 10 .& 0x1c .| (second .>> 6 .& 0x3) in
  let width := u8 ((second .& 0x1f) + 1) in
  if 32 <? lsb + width then None
  else
    let result := base32 first second InstrKind.ubfx OperandForm.immediate in
    let rn := first .& 0x0f in
    let rd := second .>> 8 .& 0x0f in
    if (rn =? 15) || (rd =? 15) then None
    else Some {| result with
      di_rn := rn; di_rd := rd; di_shift_amount := lsb; di_imm := width |}.

Definition decodeMrs (first second : Z) : option DecodedInstruction :=
  let result := base32 first second InstrKind.mrs OperandForm.immediate in
  let rd := second .>> 8 .& 0x0f in
  let imm := second .& 0xff in
  let supported := (imm =? 5) || (imm =? 8) || (imm =? 9)
    || ((16 <=? imm) && (imm <=? 20)) in
  if (rd =? 15) || negb supported then None
  else Some {| result with di_rd := rd; di_imm := imm |}.

Definition decodeMsr (first second : Z) : option DecodedInstruction :=
  let result := base32 first second InstrKind.msr OperandForm.register_value in
  let rn := first .& 0x0f in
  let imm := second .& 0xff in
  let supported := (imm =? 8) || (imm =? 9) || ((16 <=? imm) && (imm <=? 20)) in
  if (rn =? 15) || negb supported then None
  else Some {| result with di_rn := rn; di_imm := imm |}.

Definition decodeBarrier (first second : Z) : option DecodedInstruction :=
  kind ←
    (if second .& 0x00f0 =? 0x0060 then Some InstrKind.isb
     else if second .& 0x00f0 =? 0x0050 then Some InstrKind.dmb
     else if second .& 0x00f0 =? 0x0040 then Some InstrKind.dsb
     else None);
  let result := base32 first second kind OperandForm.immediate in
  Some {| result with di_imm := second .& 0x0f |}.

Definition decodeNopWide (first second : Z) : option DecodedInstruction :=
  Some (base32 first second InstrKind.nop OperandForm.none).

Definition decodeBranchWide (first second : Z) : option DecodedInstruction :=
  let link := has second 0x4000 in
  let conditional := second .& 0x1000 =? 0 in
  let result := base32 first second (if link then InstrKind.bl else InstrKind.b)
    OperandForm.immediate in
  let s := first .>> 10 .& 1 in
  let j1 := second .>> 13 .& 1 in
  let j2 := second .>> 11 .& 1 in
  if conditional then
    let condition := first .>> 6 .& 0x0f in
    if (Condition.to_Z Condition.al <=? condition) || link then None
    else
      let encoded := s .<< 20 .| j2 .<< 19 .| j1 .<< 18 .| (first .& 0x003f) .<< 12
        .| (second .& 0x07ff) .<< 1 in
      Some {| result with
        di_condition := Condition.of_Z condition;
        di_branch_offset := signExtend 21 encoded |}
  else
    let i1 := not32 (j1 .^ s) .& 1 in
    let i2 := not32 (j2 .^ s) .& 1 in
    let encoded := s .<< 24 .| i1 .<< 23 .| i2 .<< 22 .| (first .& 0x03ff) .<< 12
      .| (second .& 0x07ff) .<< 1 in
    Some {| result with di_branch_offset := signExtend 25 encoded |}.

Definition decodeBranchOrSystem (first second : Z) : option DecodedInstruction :=
  let raw := first .<< 16 .| second in
  if raw .& 0xfffff000 =? 0xf3ef8000 then decodeMrs first second
  else if raw .& 0xfff0ff00 =? 0xf3808800 then decodeMsr first second
  else if (raw .& 0xfffffff0 =? 0xf3bf8f40) || (raw .& 0xfffffff0 =? 0xf3bf8f50)
       || (raw .& 0xfffffff0 =? 0xf3bf8f60) then decodeBarrier first second
  else if raw =? 0xf3af8000 then decodeNopWide first second
  else decodeBranchWide first second.

(** The [switch (op)] of [decodeWideTransfer]. *)
Definition wide_transfer_kind (op : Z) : option InstrKind.t :=
  match op with
  | 0xf8c0 => Some InstrKind.str
  | 0xf8d0 => Some InstrKind.ldr
  | 0xf880 => Some InstrKind.strb
  | 0xf890 => Some InstrKind.ldrb
  | 0xf8a0 => Some InstrKind.strh
  | 0xf8b0 => Some InstrKind.ldrh
  | 0xf990 => Some InstrKind.ldrsb
  | 0xf9b0 => Some InstrKind.ldrsh
  | 0xf840 => Some InstrKind.str
  | 0xf850 => Some InstrKind.ldr
  | 0xf800 => Some InstrKind.strb
  | 0xf810 => Some InstrKind.ldrb
  | 0xf820 => Some InstrKind.strh
  | 0xf830 => Some InstrKind.ldrh
  | 0xf910 => Some InstrKind.ldrsb
  | 0xf930 => Some InstrKind.ldrsh
  | _ => None
  end.

Definition is_wide_store (kind : InstrKind.t) : bool :=
  kind_eqb kind InstrKind.str || kind_eqb kind InstrKind.strb || kind_eqb kind InstrKind.strh.

Definition decodeWideTransfer (first second : Z) : option DecodedInstruction :=
  let op := first .& 0xfff0 in
  let literal := first .& 0xff7f =? 0xf85f in
  let literal_negative := literal && (first .& 0x0080 =? 0) in
  kind ← (if literal then Some InstrKind.ldr else wide_transfer_kind op);
  if (op =? 0xf890) && (second .& 0xf000 =? 0xf000) then
    Some (base32 first second InstrKind.nop OperandForm.none)
  else
    let result := base32 first second kind OperandForm.immediate in
    let result := {| result with
      di_rn := first .& 0x0f; di_rd := second .>> 12 .& 0x0f; di_imm := second .& 0x0fff |} in
    result ←
      (if literal || ((di_rn result =? 15) && negb (is_wide_store kind)) then
         Some {| result with
           di_form := OperandForm.literal; di_rn := 15; di_add := negb literal_negative;
           di_imm := second .& 0x0fff |}
       else if (op =? 0xf840) || (op =? 0xf850) || (op =? 0xf800) || (op =? 0xf810)
            || (op =? 0xf820) || (op =? 0xf830) || (op =? 0xf910) || (op =? 0xf930) then
         if has second 0x0800 then
           let index := has second 0x0400 in
           let writeback := has second 0x0100 in
           if negb index && negb writeback then None
           else Some {| result with
             di_form := OperandForm.immediate; di_index := index;
             di_add := has second 0x0200; di_writeback := writeback;
             di_imm := second .& 0x00ff |}
         else if has second 0x0fc0 then None
         else Some {| result with
           di_form := OperandForm.register_value; di_rm := second .& 0x0f;
           di_shift_type := ShiftType.lsl; di_shift_amount := second .>> 4 .& 0x3;
           di_imm := 0 |}
       else Some result);
    let store := is_wide_store kind in
    if (store && ((di_rn result =? 15) || (di_rd result =? 15)))
       || (negb store && (di_rd result =? 15) && negb (kind_eqb kind InstrKind.ldr))
    then None
    else Some result.

Definition decodeWideMultiple (first second : Z) : option DecodedInstruction :=
  if first .& 0xfff0 =? 0xe8d0 then
    let table_op := second .& 0xfff0 in
    if negb (table_op =? 0xf000) && negb (table_op =? 0xf010) then None
    else
      let rn := first .& 0x0f in
      let rm := second .& 0x0f in
      if (rn =? 13) || (rm =? 13) || (rm =? 15) then None
      else
        let result := base32 first second
          (if table_op =? 0xf000 then InstrKind.tbb else InstrKind.tbh)
          OperandForm.register_value in
        Some {| result with di_rn := rn; di_rm := rm |}
  else if first .& 0xfe40 =? 0xe840 then
    let kind := if has first 0x0010 then InstrKind.ldrd else InstrKind.strd in
    let result := base32 first second kind OperandForm.immediate in
    let rn := first .& 0x0f in
    let rd := second .>> 12 .& 0x0f in
    let ra := second .>> 8 .& 0x0f in
    let index := has first 0x0100 in
    let writeback := has first 0x0020 in
    if (negb index && negb writeback) || (rn =? 15) || (rd =? 15) || (ra =? 15)
       || (kind_eqb kind InstrKind.ldrd && (rd =? ra))
       || (writeback && ((rn =? rd) || (rn =? ra))) then None
    else Some {| result with
      di_rn := rn; di_rd := rd; di_ra := ra; di_imm := (second .& 0xff) .<< 2;
      di_index := index; di_add := has first 0x0080; di_writeback := writeback |}
  else
    let operation := first .& 0xffd0 in
    let load := (operation =? 0xe890) || (operation =? 0xe910) in
    let decrement_before := (operation =? 0xe900) || (operation =? 0xe910) in
    if negb (operation =? 0xe880) && negb (operation =? 0xe890)
       && negb (operation =? 0xe900) && negb (operation =? 0xe910) then None
    else
      let rn := first .& 0x0f in
      let writeback := has first 0x0020 in
      if (rn =? 15) || (second =? 0) || has second (1 .<< 13) then None
      else if negb load && has second (1 .<< 15) then None
      else
        let kind := if load then InstrKind.ldm else InstrKind.stm in
        let kind := if (rn =? 13) && writeback && decrement_before && negb load
                    then InstrKind.push else kind in
        let kind := if (rn =? 13) && writeback && negb decrement_before && load
                    then InstrKind.pop else kind in
        let result := base32 first second kind OperandForm.register_list in
        Some {| result with
          di_rn := rn; di_register_list := second; di_writeback := writeback;
          di_add := negb decrement_before; di_index := decrement_before |}.

Definition decodeVfpMultiple (first second : Z) : option DecodedInstruction :=
  let single_precision := second .& 0x0f00 =? 0x0a00 in
  let double_precision := second .& 0x0f00 =? 0x0b00 in
  if negb single_precision && negb double_precision then None
  else
    let pre_index := has first 0x0100 in
    let writeback := has first 0x0020 in
    let d_bit := has first 0x0040 in
    rd ←
      (if single_precision then
         Some ((second .>> 12 .& 0x0f) .<< 1 .| (if d_bit then 1 else 0))
       else if d_bit then None
       else Some ((second .>> 12 .& 0x0f) .<< 1));
    if pre_index && negb writeback then
      let result := base32 first second
        (if has first 0x0010 then InstrKind.vldr else InstrKind.vstr)
        OperandForm.immediate in
      let rn := first .& 0x0f in
      if 32 <? rd + (if double_precision then 2 else 1) then None
      else Some {| result with
        di_form := if rn =? 15 then OperandForm.literal else OperandForm.immediate;
        di_rn := rn; di_add := has first 0x0080; di_imm := (second .& 0xff) .<< 2;
        di_fp_double := double_precision; di_rd := rd |}
    else
      let load := has first 0x0010 in
      let increment_after := first .& 0x0180 =? 0x0080 in
      let decrement_before := first .& 0x0180 =? 0x0100 in
      if negb increment_after && negb decrement_before then None
      else
        let result := base32 first second (if load then InstrKind.vldm else InstrKind.vstm)
          OperandForm.register_list in
        let rn := first .& 0x0f in
        let imm := second .& 0xff in
        if (rn =? 15) || (imm =? 0) || (32 <? rd + imm) then None
        else Some {| result with
          di_rn := rn; di_rd := rd; di_fp_double := double_precision; di_imm := imm;
          di_add := increment_after; di_index := decrement_before;
          di_writeback := writeback |}.

Definition vfpSd (first second : Z) : Z :=
  (second .>> 12 .& 0x0f) .<< 1 .| (first .>> 6 .& 0x1).
Definition vfpSn (first second : Z) : Z :=
  (first .& 0x0f) .<< 1 .| (second .>> 7 .& 0x1).
Definition vfpSm (second : Z) : Z :=
  (second .& 0x0f) .<< 1 .| (second .>> 5 .& 0x1).

Definition vfpExpandImmediate (imm8 : Z) : Z :=
  let sign := (imm8 .& 0x80) .<< 24 in
  let exponent_bit := has imm8 0x40 in
  let exponent_head := if exponent_bit then 0 else 0x40000000 in
  let exponent_repeated := if exponent_bit then 0x3e000000 else 0 in
  let fraction := (imm8 .& 0x3f) .<< 19 in
  sign .| exponent_head .| exponent_repeated .| fraction.

(** The unary-operation selection of [decodeVfpDataProcessing]; [undefined] means that no
    unary form matched and decoding falls through. *)
Definition vfp_unary_kind (normalized_first unary_shape : Z) : InstrKind.t :=
  let wide := unary_shape =? 0x0ac0 in
  if (normalized_first =? 0xeebd) && wide then InstrKind.vcvt_s32_f32
  else if (normalized_first =? 0xeebc) && wide then InstrKind.vcvt_u32_f32
  else if normalized_first =? 0xeeb8 then
    (if wide then InstrKind.vcvt_f32_s32 else InstrKind.vcvt_f32_u32)
  else if normalized_first =? 0xeeb1 then
    (if wide then InstrKind.vsqrt else InstrKind.vneg)
  else if normalized_first =? 0xeeb0 then
    (if wide then InstrKind.vabs else InstrKind.vmov_single)
  else InstrKind.undefined.

(** The binary-operation selection of [decodeVfpDataProcessing]. *)
Definition vfp_binary_kind (binary_first second : Z) : InstrKind.t :=
  if binary_first =? 0xee30 then
    (if has second 0x0040 then InstrKind.vsub else InstrKind.vadd)
  else if binary_first =? 0xee20 then
    (if has second 0x0040 then InstrKind.vnmul else InstrKind.vmul)
  else if binary_first =? 0xee80 then InstrKind.vdiv
  else if binary_first =? 0xeea0 then
    (if has second 0x0040 then InstrKind.vfms else InstrKind.vfma)
  else if (binary_first =? 0xee90) && (second .& 0x0040 =? 0) then InstrKind.vfnms
  else InstrKind.undefined.

Definition decodeVfpDataProcessing (first second : Z) : option DecodedInstruction :=
  if (first .& 0xffe0 =? 0xee00) && (second .& 0x0f7f =? 0x0a10) then
    let to_core := has first 0x0010 in
    let core_register := second .>> 12 .& 0x0f in
    let single_register := (first .& 0x0f) .<< 1 .| (second .>> 7 .& 0x1) in
    if core_register =? 15 then None
    else
      let result := base32 first second
        (if to_core then InstrKind.vmov_single_to_core else InstrKind.vmov_core_to_single)
        OperandForm.register_value in
      Some {| result with
        di_rd := if to_core then core_register else single_register;
        di_rn := if to_core then single_register else core_register |}
  else if (first =? 0xeef1) && (second .& 0x0fff =? 0x0a10) then
    if negb (second .>> 12 =? 15) then None
    else Some (base32 first second InstrKind.vmrs OperandForm.none)
  else
    let normalized_first := first .& 0xffbf in
    let binary_first := first .& 0xffb0 in
    if (binary_first =? 0xeeb0) && (second .& 0x0ff0 =? 0x0a00) then
      let result := base32 first second InstrKind.vmov_immediate OperandForm.immediate in
      let imm8 := (first .& 0x0f) .<< 4 .| second .& 0x0f in
      Some {| result with
        di_rd := vfpSd first second; di_imm := vfpExpandImmediate imm8 |}
    else
      let unary_shape := second .& 0x0fd0 in
      let unary_kind :=
        if (unary_shape =? 0x0a40) || (unary_shape =? 0x0ac0)
        then vfp_unary_kind normalized_first unary_shape else InstrKind.undefined in
      if negb (kind_eqb unary_kind InstrKind.undefined) then
        let result := base32 first second unary_kind OperandForm.register_value in
        Some {| result with di_rd := vfpSd first second; di_rm := vfpSm second |}
      else if ((normalized_first =? 0xeeb4) || (normalized_first =? 0xeeb5))
              && (second .& 0x0f50 =? 0x0a40) then
        let result := base32 first second InstrKind.vcmp
          (if normalized_first =? 0xeeb5 then OperandForm.immediate
           else OperandForm.register_value) in
        Some {| result with di_rn := vfpSd first second; di_rm := vfpSm second |}
      else
        let binary_kind := vfp_binary_kind binary_first second in
        if negb (kind_eqb binary_kind InstrKind.undefined)
           && (second .& 0x0f10 =? 0x0a00) then
          let result := base32 first second binary_kind OperandForm.register_value in
          Some {| result with
            di_rd := vfpSd first second; di_rn := vfpSn first second;
            di_rm := vfpSm second |}
        else None.

(** ** Pattern tables and lookup *)

Record DecodePattern16 := mkPattern16 {
  p16_mask : Z; p16_value : Z; p16_decode : Z -> option DecodedInstruction;
}.
Record DecodePattern32 := mkPattern32 {
  p32_mask : Z; p32_value : Z; p32_decode : Z -> Z -> option DecodedInstruction;
}.

Definition patterns16 : list DecodePattern16 :=
  [mkPattern16 0xf800 0x0000 decodeShiftImmediate;
   mkPattern16 0xf800 0x0800 decodeShiftImmediate;
   mkPattern16 0xf800 0x1000 decodeShiftImmediate;
   mkPattern16 0xf800 0x1800 decodeAddSubtract;
   mkPattern16 0xe000 0x2000 decodeImmediate8;
   mkPattern16 0xfc00 0x4000 decodeDataProcessing;
   mkPattern16 0xfc00 0x4400 decodeSpecialData;
   mkPattern16 0xf800 0x4800 decodeLiteralLoad;
   mkPattern16 0xf000 0x5000 decodeRegisterTransfer;
   mkPattern16 0xf000 0x6000 decodeImmediateTransfer;
   mkPattern16 0xf000 0x7000 decodeImmediateTransfer;
   mkPattern16 0xf000 0x8000 decodeImmediateTransfer;
   mkPattern16 0xf000 0x9000 decodeSpTransfer;
   mkPattern16 0xf000 0xa000 decodeAddressGeneration;
   mkPattern16 0xf000 0xb000 decodeMiscellaneous;
   mkPattern16 0xf000 0xc000 decodeMultiple;
   mkPattern16 0xf000 0xd000 decodeConditionalBranch;
   mkPattern16 0xf800 0xe000 decodeUnconditionalBranch].

Definition patterns32 : list DecodePattern32 :=
  [mkPattern32 0xfbf08000 0xf2000000 decodeAddSubWideImmediate;
   mkPattern32 0xfbf08000 0xf2a00000 decodeAddSubWideImmediate;
   mkPattern32 0xfbf08000 0xf2400000 decodeMovWide;
   mkPattern32 0xfbf08000 0xf2c00000 decodeMovWide;
   mkPattern32 0xfa008000 0xf0000000 decodeDataProcessingImmediate;
   mkPattern32 0xf800d000 0xf0008000 decodeBranchOrSystem;
   mkPattern32 0xf800d000 0xf0009000 decodeBranchWide;
   mkPattern32 0xf800d000 0xf000d000 decodeBranchWide;
   mkPattern32 0xfe008000 0xea000000 decodeDataProcessingRegister;
   mkPattern32 0xff80f0f0 0xfa00f000 decodeRegisterShift;
   mkPattern32 0xff8ff0c0 0xfa0ff080 decodeExtendWide;
   mkPattern32 0xfff000f0 0xfb000000 decodeMultiply;
   mkPattern32 0xfff000f0 0xfb000010 decodeMultiply;
   mkPattern32 0xfff000f0 0xfb800000 decodeSmull;
   mkPattern32 0xfff000f0 0xfba00000 decodeUmull;
   mkPattern32 0xfff0f0f0 0xfb90f0f0 decodeSdiv;
   mkPattern32 0xfff0f0f0 0xfbb0f0f0 decodeUdiv;
   mkPattern32 0xfff0f0f0 0xfa80f040 decodeParallelAddSelect;
   mkPattern32 0xfff0f0f0 0xfaa0f080 decodeParallelAddSelect;
   mkPattern32 0xfff0f0f0 0xfab0f080 decodeClz;
   mkPattern32 0xfff08020 0xf3600000 decodeBitfieldClear;
   mkPattern32 0xfff08020 0xf3c00000 decodeUbfx;
   mkPattern32 0xfe000000 0xf8000000 decodeWideTransfer;
   mkPattern32 0xfe000000 0xe8000000 decodeWideMultiple;
   mkPattern32 0xfe000000 0xec000000 decodeVfpMultiple;
   mkPattern32 0xff000000 0xee000000 decodeVfpDataProcessing].

(** [tableHasNoOverlaps] on the (mask, value) rows of a table.  A row's [decode] is a
    function here, so the source's null-pointer test has no counterpart. *)
Fixpoint tableHasNoOverlaps (rows : list (Z * Z)) : bool :=
  match rows with
  | [] => true
  | (lmask, lvalue) :: rest =>
      (lvalue .& lmask =? lvalue)
      && forallb (fun '(rmask, rvalue) =>
                    let common := lmask .& rmask in
                    negb (lvalue .& common =? rvalue .& common)) rest
      && tableHasNoOverlaps rest
  end.

Definition rows16 (table : list DecodePattern16) : list (Z * Z) :=
  map (fun p => (p16_mask p, p16_value p)) table.
Definition rows32 (table : list DecodePattern32) : list (Z * Z) :=
  map (fun p => (p32_mask p, p32_value p)) table.

Definition decoderTablesHaveNoOverlaps : bool :=
  tableHasNoOverlaps (rows16 patterns16) && tableHasNoOverlaps (rows32 patterns32).

(** The range-for loops of [decode16] and [decode32]: the first matching row decodes. *)
Fixpoint scan16 (table : list DecodePattern16) (halfword : Z) : option DecodedInstruction :=
  match table with
  | [] => None
  | p :: rest =>
      if halfword .& p16_mask p =? p16_value p then p16_decode p halfword
      else scan16 rest halfword
  end.

Fixpoint scan32 (table : list DecodePattern32) (raw first second : Z)
    : option DecodedInstruction :=
  match table with
  | [] => None
  | p :: rest =>
      if raw .& p32_mask p =? p32_value p then p32_decode p first second
      else scan32 rest raw first second
  end.

Definition decode16 (halfword : Z) : option DecodedInstruction :=
  if is32BitThumbPrefix halfword then None else scan16 patterns16 halfword.

Definition decode32 (first second : Z) : option DecodedInstruction :=
  if negb (is32BitThumbPrefix first) then None
  else scan32 patterns32 (first .<< 16 .| second) first second.
