(* ===== verification/DecoderProofs.v ===== *)
(** * Properties of the decoder

    Every decoded instruction is well formed ([op_ok]): register numbers, immediates and
    shift amounts fit the fields the executor indexes with.  The pattern tables are
    unambiguous, so the scan does not depend on the order of their rows. *)

From S2P Require Import Prelude Instruction InstructionProofs Decoder.

(** ** Well-formed instructions *)

Definition is_pair_kind (k : InstrKind.t) : bool :=
  match k with InstrKind.ldrd | InstrKind.strd => true | _ => false end.
Definition is_multi_store_kind (k : InstrKind.t) : bool :=
  match k with InstrKind.push | InstrKind.stm => true | _ => false end.
Definition is_bitfield_kind (k : InstrKind.t) : bool :=
  match k with InstrKind.bfc | InstrKind.ubfx => true | _ => false end.
Definition is_extend_kind (k : InstrKind.t) : bool :=
  match k with
  | InstrKind.sxtb | InstrKind.sxth | InstrKind.uxtb | InstrKind.uxth => true
  | _ => false
  end.
Definition is_vfp_multiple_kind (k : InstrKind.t) : bool :=
  match k with InstrKind.vldm | InstrKind.vstm => true | _ => false end.
Definition is_vfp_scalar_kind (k : InstrKind.t) : bool :=
  match k with InstrKind.vldr | InstrKind.vstr => true | _ => false end.
Definition is_shift_kind (k : InstrKind.t) : bool :=
  match k with
  | InstrKind.lsl | InstrKind.lsr | InstrKind.asr | InstrKind.ror | InstrKind.rrx => true
  | _ => false
  end.
Definition shift_of_kind (k : InstrKind.t) : ShiftType.t :=
  match k with
  | InstrKind.lsr => ShiftType.lsr
  | InstrKind.asr => ShiftType.asr
  | InstrKind.ror => ShiftType.ror
  | InstrKind.rrx => ShiftType.rrx
  | _ => ShiftType.lsl
  end.
Definition is_link_kind (k : InstrKind.t) : bool :=
  match k with InstrKind.bl => true | _ => false end.
(** Kinds whose operands carry a constraint beyond their field widths. *)
Definition is_constrained_kind (k : InstrKind.t) : bool :=
  is_pair_kind k || is_multi_store_kind k || is_bitfield_kind k || is_extend_kind k
  || is_vfp_multiple_kind k || is_vfp_scalar_kind k || is_shift_kind k
  || is_link_kind k.

Record op_ok (op : DecodedInstruction) : Prop := {
  opk_rd : 0 <= di_rd op < 32;
  opk_rn : 0 <= di_rn op < 32;
  opk_rm : 0 <= di_rm op < 32;
  opk_ra : 0 <= di_ra op < 16;
  opk_imm : is_u32 (di_imm op);
  opk_raw : is_u32 (di_raw op);
  opk_list : is_u16 (di_register_list op);
  opk_shift : 0 <= di_shift_amount op <= 32;
  opk_branch : -0x1000000 <= di_branch_offset op < 0x1000000;
  opk_pair : is_pair_kind (di_kind op) = true -> di_form op = OperandForm.immediate;
  opk_multi_store : is_multi_store_kind (di_kind op) = true ->
    Z.testbit (di_register_list op) 15 = false;
  opk_bitfield : is_bitfield_kind (di_kind op) = true ->
    1 <= di_imm op /\ di_shift_amount op + di_imm op <= 32;
  opk_extend : is_extend_kind (di_kind op) = true -> di_shift_amount op < 32;
  opk_vfp_multiple : is_vfp_multiple_kind (di_kind op) = true -> di_rd op + di_imm op <= 32;
  opk_vfp_scalar : is_vfp_scalar_kind (di_kind op) = true ->
    di_rd op + (if di_fp_double op then 2 else 1) <= 32;
  opk_shift_kind : is_shift_kind (di_kind op) = true -> di_shift_type op = shift_of_kind (di_kind op);
  opk_link : is_link_kind (di_kind op) = true -> di_condition op = Condition.al;
}.

(** ** Bounds of field extractions *)

Lemma lor_le_add a b : 0 <= a -> 0 <= b -> 0 <= a .| b <= a + b.
Proof.
  intros Ha Hb. assert (0 <= a .| b) by (by apply Z.lor_nonneg).
  pose proof (Z.add_lor_land a b). assert (0 <= a .& b) by (apply Z.land_nonneg; lia). lia.
Qed.

(** Adds the bounds of every masked field in the goal, then removes shifts. *)
Ltac field_bounds :=
  repeat match goal with
  | |- context [Z.land ?a ?m] =>
      lazymatch goal with
      | _ : 0 <= Z.land a m <= m |- _ => fail
      | _ => pose proof (land_bounds_r a m ltac:(lia))
      end
  end;
  repeat match goal with
  | |- context [Z.shiftr (Z.land ?a ?m) ?k] =>
      lazymatch goal with
      | _ : 0 <= Z.shiftr (Z.land a m) k <= _ |- _ => fail
      | _ => pose proof (shiftr_bounds (Z.land a m) k ltac:(lia) ltac:(lia))
      end
  end;
  rewrite ?Z.shiftl_mul_pow2 in * by lia;
  repeat match goal with
  | |- context [Z.lor ?a ?b] =>
      lazymatch goal with
      | _ : 0 <= Z.lor a b <= _ |- _ => fail
      | _ => pose proof (lor_le_add a b ltac:(lia) ltac:(lia))
      end
  end.
Ltac field_lia := field_bounds; unfold is_u8, is_u16, is_u32 in *; lia.

Lemma signExtend_bounds bits value k : 0 < bits <= k -> - 2 ^ (k - 1) <= signExtend bits value < 2 ^ (k - 1).
Proof.
  intros Hk. unfold signExtend. rewrite !Z.shiftl_mul_pow2, !Z.mul_1_l by lia.
  assert (2 ^ bits = 2 * 2 ^ (bits - 1)) as Hp
    by (rewrite <- Z.pow_succ_r by lia; f_equal; lia).
  assert (0 < 2 ^ (bits - 1)) by (apply Z.pow_pos_nonneg; lia).
  assert (2 ^ (bits - 1) <= 2 ^ (k - 1)) by (apply Z.pow_le_mono_r; lia).
  pose proof (land_bounds_r value (2 ^ bits - 1) ltac:(lia)) as Hn.
  set (n := value .& (2 ^ bits - 1)) in *.
  rewrite (land_pow2 n (bits - 1)) by lia.
  destruct (Z.testbit n (bits - 1)) eqn:E.
  - destruct (Z.eqb_spec (2 ^ (bits - 1)) 0); [lia|].
    assert (2 ^ (bits - 1) <= n); [|lia].
    destruct (Z.le_gt_cases (2 ^ (bits - 1)) n); [done|].
    rewrite (high_bits_clear (bits - 1) n (bits - 1)) in E by lia. done.
  - simpl. assert (n < 2 ^ (bits - 1)); [|lia].
    apply below_pow2_bits; [lia|lia|]. intros i Hi.
    destruct (decide (i = bits - 1)) as [->|]; [done|].
    apply (high_bits_clear bits); lia.
Qed.

Lemma raw32_range first second : is_u16 first -> is_u16 second ->
  is_u32 (first .<< 16 .| second).
Proof. intros. apply is_u32_lor; [rewrite Z.shiftl_mul_pow2 by lia|]; width_lia. Qed.
#[export] Hint Resolve raw32_range : fil.

Lemma expanded_range imm12 e : thumbExpandImmediate imm12 = Some e -> is_u32 (ei_value e).
Proof.
  unfold thumbExpandImmediate. intros He.
  pose proof (land_bounds_r imm12 0xff ltac:(lia)). pose proof (land_bounds_r imm12 0x7f ltac:(lia)).
  repeat case_match; simplify_eq; cbn [ei_value];
    try (apply rotr32_range); try apply u32_range; field_lia.
Qed.

Lemma kind_at_cases (P : InstrKind.t -> bool) table i :
  P InstrKind.undefined = true -> forallb P table = true -> P (kind_at table i) = true.
Proof.
  intros Hu Ht. unfold kind_at. destruct (table !! Z.to_nat i) eqn:E; simpl; [|done].
  rewrite forallb_forall in Ht. apply Ht, list_elem_of_In. by eapply list_elem_of_lookup_2.
Qed.

(** A constrained kind cannot come from a table that has none. *)
Ltac refute_table_kind :=
  intros Hkind; exfalso;
  lazymatch type of Hkind with
  | ?P (kind_at ?t ?i) = true =>
      pose proof (kind_at_cases (fun k => negb (P k)) t i eq_refl eq_refl) as Hnot;
      cbv beta in Hnot; rewrite Hkind in Hnot; discriminate
  end.

(** [op_ok] of a decoded record: field bounds, and constrained kinds refuted by evaluation
    or met by arithmetic. *)
Ltac op_ok_fields :=
  constructor; cbn -[Z.mul Z.add Z.sub is_u32 is_u16 Z.testbit u8 u16 u32];
  first
    [ intros; discriminate
    | intros _; reflexivity
    | intros; field_lia
    | intros; split; field_lia
    | intros _; apply (high_bits_clear 15); field_lia
    | refute_table_kind
    | eauto with fil ].

(** Splits the guards of a decoding function. *)
Ltac decode_cases :=
  cbv zeta; intros; simplify_eq; repeat (case_match; simplify_eq; try done).
Ltac decode_ok f := unfold f; unfold mbind, option_bind; decode_cases; op_ok_fields.

(** ** Every decoding function returns well-formed instructions *)

Lemma decodeShiftImmediate_ok raw op : is_u16 raw ->
  decodeShiftImmediate raw = Some op -> op_ok op.
Proof. decode_ok decodeShiftImmediate. Qed.
Lemma decodeAddSubtract_ok raw op : is_u16 raw ->
  decodeAddSubtract raw = Some op -> op_ok op.
Proof.
  unfold decodeAddSubtract. destruct (has raw 0x0400), (has raw 0x0200);
    intros ? [= <-]; op_ok_fields.
Qed.
Lemma decodeImmediate8_ok raw op : is_u16 raw ->
  decodeImmediate8 raw = Some op -> op_ok op.
Proof. decode_ok decodeImmediate8. Qed.
Lemma decodeDataProcessing_ok raw op : is_u16 raw ->
  decodeDataProcessing raw = Some op -> op_ok op.
Proof.
  unfold decodeDataProcessing. cbv zeta. intros ? [= <-]. op_ok_fields.
  pose proof (kind_at_cases (fun k => negb (kind_eqb k InstrKind.rrx)) data_processing_operations
    (raw .>> 6 .& 0x0f) eq_refl eq_refl) as Hrrx.
  intros Hk. by destruct (kind_at data_processing_operations _).
Qed.
Lemma decodeSpecialData_ok raw op : is_u16 raw ->
  decodeSpecialData raw = Some op -> op_ok op.
Proof. decode_ok decodeSpecialData. Qed.
Lemma decodeLiteralLoad_ok raw op : is_u16 raw ->
  decodeLiteralLoad raw = Some op -> op_ok op.
Proof. decode_ok decodeLiteralLoad. Qed.
Lemma decodeRegisterTransfer_ok raw op : is_u16 raw ->
  decodeRegisterTransfer raw = Some op -> op_ok op.
Proof. decode_ok decodeRegisterTransfer. Qed.
Lemma decodeImmediateTransfer_ok raw op : is_u16 raw ->
  decodeImmediateTransfer raw = Some op -> op_ok op.
Proof. decode_ok decodeImmediateTransfer. Qed.
Lemma decodeSpTransfer_ok raw op : is_u16 raw ->
  decodeSpTransfer raw = Some op -> op_ok op.
Proof. decode_ok decodeSpTransfer. Qed.
Lemma decodeAddressGeneration_ok raw op : is_u16 raw ->
  decodeAddressGeneration raw = Some op -> op_ok op.
Proof. decode_ok decodeAddressGeneration. Qed.
Lemma decodeMiscellaneous_ok raw op : is_u16 raw ->
  decodeMiscellaneous raw = Some op -> op_ok op.
Proof. decode_ok decodeMiscellaneous. Qed.
Lemma decodeMultiple_ok raw op : is_u16 raw ->
  decodeMultiple raw = Some op -> op_ok op.
Proof. decode_ok decodeMultiple. Qed.
Lemma decodeConditionalBranch_ok raw op : is_u16 raw ->
  decodeConditionalBranch raw = Some op -> op_ok op.
Proof.
  pose proof (signExtend_bounds 9 ((raw .& 0xff) .<< 1) 25 ltac:(lia)).
  decode_ok decodeConditionalBranch.
Qed.
Lemma decodeUnconditionalBranch_ok raw op : is_u16 raw ->
  decodeUnconditionalBranch raw = Some op -> op_ok op.
Proof.
  pose proof (signExtend_bounds 12 ((raw .& 0x07ff) .<< 1) 25 ltac:(lia)).
  decode_ok decodeUnconditionalBranch.
Qed.

Lemma decodeMovWide_ok f s op : is_u16 f -> is_u16 s ->
  decodeMovWide f s = Some op -> op_ok op.
Proof. decode_ok decodeMovWide. Qed.
Lemma decodeAddSubWideImmediate_ok f s op : is_u16 f -> is_u16 s ->
  decodeAddSubWideImmediate f s = Some op -> op_ok op.
Proof. decode_ok decodeAddSubWideImmediate. Qed.

Lemma normalize_unconstrained opcode flags rn rd k :
  normalizeDataProcessingOperation opcode flags rn rd = Some k -> is_constrained_kind k = false.
Proof.
  unfold normalizeDataProcessingOperation. unfold mbind, option_bind. intros H.
  repeat (case_match; simplify_eq; try done).
Qed.

(** The constraints of [op_ok] hold of an unconstrained kind. *)
Lemma op_ok_unconstrained op :
  is_constrained_kind (di_kind op) = false ->
  0 <= di_rd op < 32 -> 0 <= di_rn op < 32 -> 0 <= di_rm op < 32 -> 0 <= di_ra op < 16 ->
  is_u32 (di_imm op) -> is_u32 (di_raw op) -> is_u16 (di_register_list op) ->
  0 <= di_shift_amount op <= 32 -> -0x1000000 <= di_branch_offset op < 0x1000000 ->
  op_ok op.
Proof.
  unfold is_constrained_kind. rewrite !orb_false_iff.
  intros [[[[[[[Hp Hm] Hb] He] Hv] Hs] Hsh] Hl]. constructor; try done; congruence.
Qed.

(** As [op_ok_fields], for an instruction whose kind is known to be unconstrained. *)
Ltac op_ok_plain :=
  apply op_ok_unconstrained; cbn -[Z.mul Z.add Z.sub is_u32 is_u16 Z.testbit u8 u16 u32];
  first [done | field_lia | eauto with fil].

Lemma decodeDataProcessingImmediate_ok f s op : is_u16 f -> is_u16 s ->
  decodeDataProcessingImmediate f s = Some op -> op_ok op.
Proof.
  unfold decodeDataProcessingImmediate. intros Hf Hs. unfold mbind, option_bind.
  destruct (thumbExpandImmediate _) as [e|] eqn:He; [|done].
  destruct (normalizeDataProcessingOperation _ _ _ _) as [k|] eqn:Hk; [|done].
  apply expanded_range in He. apply normalize_unconstrained in Hk.
  intros [= <-]. op_ok_plain.
Qed.
Lemma decodeDataProcessingRegister_ok f s op : is_u16 f -> is_u16 s ->
  decodeDataProcessingRegister f s = Some op -> op_ok op.
Proof.
  unfold decodeDataProcessingRegister. intros Hf Hs. unfold mbind, option_bind.
  destruct (normalizeDataProcessingOperation _ _ _ _) as [k|] eqn:Hk; [|done].
  apply normalize_unconstrained in Hk. destruct (_ =? 15); [done|].
  intros [= <-]. apply op_ok_unconstrained; cbn [di_kind di_rd di_rn di_rm di_ra di_imm di_raw
    di_register_list di_shift_amount di_branch_offset base32 base16 decoded_default];
    try destruct (_ && _); first [done | field_lia | eauto with fil].
Qed.
Lemma decodeRegisterShift_ok f s op : is_u16 f -> is_u16 s ->
  decodeRegisterShift f s = Some op -> op_ok op.
Proof.
  decode_ok decodeRegisterShift. intros _. unfold kind_at.
  by destruct (Z.to_nat (f .>> 5 .& 0x3)) as [|[|[|[|n]]]].
Qed.
Lemma decodeExtendWide_ok f s op : is_u16 f -> is_u16 s ->
  decodeExtendWide f s = Some op -> op_ok op.
Proof. decode_ok decodeExtendWide. Qed.
Lemma decodeMultiply_ok f s op : is_u16 f -> is_u16 s ->
  decodeMultiply f s = Some op -> op_ok op.
Proof. decode_ok decodeMultiply. Qed.
Lemma decodeUmull_ok f s op : is_u16 f -> is_u16 s ->
  decodeUmull f s = Some op -> op_ok op /\ di_kind op = InstrKind.umull.
Proof. unfold decodeUmull. decode_cases. split; [op_ok_fields | done]. Qed.
Lemma decodeUdiv_ok f s op : is_u16 f -> is_u16 s ->
  decodeUdiv f s = Some op -> op_ok op /\ di_kind op = InstrKind.udiv.
Proof. unfold decodeUdiv. decode_cases. split; [op_ok_fields | done]. Qed.

(** Renaming an unconstrained kind to another keeps an instruction well formed. *)
Lemma op_ok_rekind op k : op_ok op -> is_constrained_kind k = false ->
  op_ok {| op with di_kind := k |}.
Proof. intros [] Hk. by apply op_ok_unconstrained. Qed.

Lemma decodeSmull_ok f s op : is_u16 f -> is_u16 s ->
  decodeSmull f s = Some op -> op_ok op.
Proof.
  unfold decodeSmull. intros Hf Hs H.
  destruct (decodeUmull f s) as [op'|] eqn:E; [|done]. injection H as <-.
  apply decodeUmull_ok in E as [E _]; [|done..]. by apply op_ok_rekind.
Qed.
Lemma decodeSdiv_ok f s op : is_u16 f -> is_u16 s ->
  decodeSdiv f s = Some op -> op_ok op.
Proof.
  unfold decodeSdiv. intros Hf Hs H.
  destruct (decodeUdiv f s) as [op'|] eqn:E; [|done]. injection H as <-.
  apply decodeUdiv_ok in E as [E _]; [|done..]. by apply op_ok_rekind.
Qed.
Lemma decodeParallelAddSelect_ok f s op : is_u16 f -> is_u16 s ->
  decodeParallelAddSelect f s = Some op -> op_ok op.
Proof. decode_ok decodeParallelAddSelect. Qed.
Lemma decodeClz_ok f s op : is_u16 f -> is_u16 s ->
  decodeClz f s = Some op -> op_ok op.
Proof. decode_ok decodeClz. Qed.
Lemma decodeBitfieldClear_ok f s op : is_u16 f -> is_u16 s ->
  decodeBitfieldClear f s = Some op -> op_ok op.
Proof.
  unfold decodeBitfieldClear. cbv zeta. intros Hf Hs.
  set (lsb := s .>> 10 .& 0x1c .| (s .>> 6 .& 0x3)). set (msb := s .& 0x1f).
  assert (0 <= lsb <= 31) by (subst lsb; field_lia).
  assert (0 <= msb <= 31) by (subst msb; field_lia).
  destruct (Z.ltb_spec msb lsb); [done|]. rewrite (u8_small (msb - lsb + 1)) by width_lia.
  case_match; [done|]. intros [= <-]. op_ok_fields.
Qed.
Lemma decodeUbfx_ok f s op : is_u16 f -> is_u16 s ->
  decodeUbfx f s = Some op -> op_ok op.
Proof.
  unfold decodeUbfx. cbv zeta. intros Hf Hs.
  set (lsb := s .>> 10 .& 0x1c .| (s .>> 6 .& 0x3)). set (msb := s .& 0x1f).
  assert (0 <= lsb <= 31) by (subst lsb; field_lia).
  assert (0 <= msb <= 31) by (subst msb; field_lia).
  rewrite (u8_small (msb + 1)) by width_lia.
  destruct (Z.ltb_spec 32 (lsb + (msb + 1))); [done|].
  case_match; [done|]. intros [= <-]. op_ok_fields.
Qed.
Lemma decodeMrs_ok f s op : is_u16 f -> is_u16 s -> decodeMrs f s = Some op -> op_ok op.
Proof. unfold decodeMrs. cbv zeta. intros ??. case_match; [done|]. intros [= <-]. op_ok_fields. Qed.
Lemma decodeMsr_ok f s op : is_u16 f -> is_u16 s -> decodeMsr f s = Some op -> op_ok op.
Proof. unfold decodeMsr. cbv zeta. intros ??. case_match; [done|]. intros [= <-]. op_ok_fields. Qed.
Lemma decodeBarrier_ok f s op : is_u16 f -> is_u16 s -> decodeBarrier f s = Some op -> op_ok op.
Proof. decode_ok decodeBarrier. Qed.
Lemma decodeNopWide_ok f s op : is_u16 f -> is_u16 s -> decodeNopWide f s = Some op -> op_ok op.
Proof. decode_ok decodeNopWide. Qed.
Lemma decodeBranchWide_ok f s op : is_u16 f -> is_u16 s ->
  decodeBranchWide f s = Some op -> op_ok op.
Proof.
  unfold decodeBranchWide. cbv zeta. intros Hf Hs.
  match goal with |- context [signExtend 21 ?e] =>
    pose proof (signExtend_bounds 21 e 25 ltac:(lia)); generalize dependent (signExtend 21 e) end.
  match goal with |- context [signExtend 25 ?e] =>
    pose proof (signExtend_bounds 25 e 25 ltac:(lia)); generalize dependent (signExtend 25 e) end.
  intros. repeat case_match; simplify_eq; op_ok_fields.
Qed.
Lemma decodeBranchOrSystem_ok f s op : is_u16 f -> is_u16 s ->
  decodeBranchOrSystem f s = Some op -> op_ok op.
Proof.
  unfold decodeBranchOrSystem. cbv zeta. intros ??. repeat case_match_goal;
    eauto using decodeMrs_ok, decodeMsr_ok, decodeBarrier_ok, decodeNopWide_ok,
      decodeBranchWide_ok.
Qed.

(** Passes a rejecting guard at the head of a decoding function. *)
Ltac decode_guard :=
  match goal with |- (if ?b then None else _) = _ -> _ => destruct b eqn:?; [done|] end.

Lemma wide_transfer_unconstrained op k :
  wide_transfer_kind op = Some k -> is_constrained_kind k = false.
Proof. unfold wide_transfer_kind. intros. repeat (case_match; simplify_eq; try done). Qed.

Lemma decodeWideTransfer_ok f s op : is_u16 f -> is_u16 s ->
  decodeWideTransfer f s = Some op -> op_ok op.
Proof.
  unfold decodeWideTransfer, mbind, option_bind. cbv zeta. intros Hf Hs.
  destruct (if _ =? 0xf85f then _ else _) as [k|] eqn:Hk; [|done].
  assert (is_constrained_kind k = false) as Hu.
  { destruct (_ =? 0xf85f); [by injection Hk as <- | by eapply wide_transfer_unconstrained]. }
  clear Hk. destruct ((_ =? 0xf890) && _); [intros [= <-]; op_ok_fields|].
  match goal with |- match ?x with _ => _ end = _ -> _ => destruct x as [r|] eqn:Hr; [|done] end.
  decode_guard. intros [= <-].
  repeat (case_match; simplify_eq; try done); op_ok_plain.
Qed.

Lemma decodeWideMultiple_ok f s op : is_u16 f -> is_u16 s ->
  decodeWideMultiple f s = Some op -> op_ok op.
Proof.
  unfold decodeWideMultiple. cbv zeta. rewrite (has_testbit _ 15) by lia. intros Hf Hs.
  destruct (_ =? 0xe8d0).
  { decode_guard. decode_guard. destruct (_ =? 0xf000); intros [= <-]; op_ok_fields. }
  destruct (_ =? 0xe840).
  { destruct (has f 0x0010); decode_guard; intros [= <-]; op_ok_fields. }
  set (load := (_ =? 0xe890) || (_ =? 0xe910)).
  decode_guard. decode_guard.
  destruct load; cbn [negb andb].
  - destruct (_ && _); intros [= <-]; rewrite ?andb_false_r; cbn [andb negb];
      destruct (_ && _); op_ok_fields.
  - destruct (Z.testbit s 15) eqn:Hbit; [done|]. rewrite !andb_false_r.
    match goal with |- context [if ?b then InstrKind.push else _] => destruct b end;
      intros [= <-]; op_ok_fields.
Qed.

Lemma decodeVfpMultiple_ok f s op : is_u16 f -> is_u16 s ->
  decodeVfpMultiple f s = Some op -> op_ok op.
Proof.
  unfold decodeVfpMultiple, mbind, option_bind. cbv zeta. intros Hf Hs. decode_guard.
  match goal with |- match ?x with _ => _ end = _ -> _ => destruct x as [rd|] eqn:Hrd; [|done] end.
  assert (0 <= rd <= 31) as Hbound.
  { pose proof (land_bounds_r (s .>> 12) 0x0f ltac:(lia)).
    repeat (case_match; simplify_eq; try done); field_lia. }
  clear Hrd. destruct (has f 0x0100 && negb (has f 0x0020)).
  - destruct (Z.ltb_spec 32 (rd + (if s .& 0x0f00 =? 0x0b00 then 2 else 1))); [done|].
    destruct (s .& 0x0f00 =? 0x0b00), (has f 0x0010); intros [= <-]; op_ok_fields.
  - decode_guard.
    destruct (Z.ltb_spec 32 (rd + (s .& 0xff))); [by rewrite orb_true_r|].
    decode_guard. destruct (has f 0x0010); intros [= <-]; op_ok_fields.
Qed.

Lemma vfp_unary_unconstrained a b : is_constrained_kind (vfp_unary_kind a b) = false.
Proof. unfold vfp_unary_kind. cbv zeta. repeat case_match; done. Qed.
Lemma vfp_binary_unconstrained a b : is_constrained_kind (vfp_binary_kind a b) = false.
Proof. unfold vfp_binary_kind. repeat case_match; done. Qed.

Lemma vfp_registers_range f s :
  0 <= vfpSd f s < 32 /\ 0 <= vfpSn f s < 32 /\ 0 <= vfpSm s < 32.
Proof. unfold vfpSd, vfpSn, vfpSm. repeat split; field_lia. Qed.
Lemma vfpExpandImmediate_range imm8 : is_u32 (vfpExpandImmediate imm8).
Proof.
  unfold vfpExpandImmediate. cbv zeta. destruct (has imm8 0x40); field_lia.
Qed.

Lemma decodeVfpDataProcessing_ok f s op : is_u16 f -> is_u16 s ->
  decodeVfpDataProcessing f s = Some op -> op_ok op.
Proof.
  unfold decodeVfpDataProcessing. cbv zeta. intros Hf Hs.
  destruct (vfp_registers_range f s) as (Hd & Hn & Hm).
  pose proof (vfpExpandImmediate_range ((f .& 0x0f) .<< 4 .| s .& 0x0f)).
  destruct (_ && _).
  { decode_guard. destruct (has f 0x0010); intros [= <-]; op_ok_fields. }
  destruct (_ && _); [decode_guard; intros [= <-]; op_ok_fields|].
  destruct (_ && _); [intros [= <-]; op_ok_fields|].
  set (unary := if (_ =? 0x0a40) || _ then _ else _).
  assert (is_constrained_kind unary = false) as Hu
    by (subst unary; destruct (_ || _); [apply vfp_unary_unconstrained | done]).
  destruct (negb _); [intros [= <-]; op_ok_plain|].
  destruct (_ && _); [intros [= <-]; op_ok_plain|].
  match goal with |- context [vfp_binary_kind ?a ?b] =>
    pose proof (vfp_binary_unconstrained a b); generalize dependent (vfp_binary_kind a b) end.
  intros k Hk. destruct (_ && _); [|done]. intros [= <-]. op_ok_plain.
Qed.

(** ** The tables *)

Lemma patterns16_ok : Forall (fun p => ∀ raw op, is_u16 raw ->
  p16_decode p raw = Some op -> op_ok op) patterns16.
Proof.
  repeat (apply Forall_cons_2; [intros raw op Hraw Hd; cbn [p16_decode] in Hd;
    first [ exact (decodeShiftImmediate_ok _ _ Hraw Hd) | exact (decodeAddSubtract_ok _ _ Hraw Hd)
          | exact (decodeImmediate8_ok _ _ Hraw Hd) | exact (decodeDataProcessing_ok _ _ Hraw Hd)
          | exact (decodeSpecialData_ok _ _ Hraw Hd) | exact (decodeLiteralLoad_ok _ _ Hraw Hd)
          | exact (decodeRegisterTransfer_ok _ _ Hraw Hd) | exact (decodeImmediateTransfer_ok _ _ Hraw Hd)
          | exact (decodeSpTransfer_ok _ _ Hraw Hd) | exact (decodeAddressGeneration_ok _ _ Hraw Hd)
          | exact (decodeMiscellaneous_ok _ _ Hraw Hd) | exact (decodeMultiple_ok _ _ Hraw Hd)
          | exact (decodeConditionalBranch_ok _ _ Hraw Hd) | exact (decodeUnconditionalBranch_ok _ _ Hraw Hd) ]|]).
  apply Forall_nil_2.
Qed.

Lemma patterns32_ok : Forall (fun p => ∀ f s op, is_u16 f -> is_u16 s ->
  p32_decode p f s = Some op -> op_ok op) patterns32.
Proof.
  repeat (apply Forall_cons_2; [intros f s op Hf Hs Hd; cbn [p32_decode] in Hd;
    first [ exact (decodeAddSubWideImmediate_ok _ _ _ Hf Hs Hd) | exact (decodeMovWide_ok _ _ _ Hf Hs Hd)
          | exact (decodeDataProcessingImmediate_ok _ _ _ Hf Hs Hd) | exact (decodeBranchOrSystem_ok _ _ _ Hf Hs Hd)
          | exact (decodeBranchWide_ok _ _ _ Hf Hs Hd) | exact (decodeDataProcessingRegister_ok _ _ _ Hf Hs Hd)
          | exact (decodeRegisterShift_ok _ _ _ Hf Hs Hd) | exact (decodeExtendWide_ok _ _ _ Hf Hs Hd)
          | exact (decodeMultiply_ok _ _ _ Hf Hs Hd) | exact (decodeSmull_ok _ _ _ Hf Hs Hd)
          | exact (proj1 (decodeUmull_ok _ _ _ Hf Hs Hd)) | exact (decodeSdiv_ok _ _ _ Hf Hs Hd)
          | exact (proj1 (decodeUdiv_ok _ _ _ Hf Hs Hd)) | exact (decodeParallelAddSelect_ok _ _ _ Hf Hs Hd)
          | exact (decodeClz_ok _ _ _ Hf Hs Hd) | exact (decodeBitfieldClear_ok _ _ _ Hf Hs Hd)
          | exact (decodeUbfx_ok _ _ _ Hf Hs Hd) | exact (decodeWideTransfer_ok _ _ _ Hf Hs Hd)
          | exact (decodeWideMultiple_ok _ _ _ Hf Hs Hd) | exact (decodeVfpMultiple_ok _ _ _ Hf Hs Hd)
          | exact (decodeVfpDataProcessing_ok _ _ _ Hf Hs Hd) ]|]).
  apply Forall_nil_2.
Qed.

Lemma scan16_ok table raw op :
  Forall (fun p => ∀ raw op, is_u16 raw -> p16_decode p raw = Some op -> op_ok op) table ->
  is_u16 raw -> scan16 table raw = Some op -> op_ok op.
Proof.
  induction 1 as [|p table Hp _ IH]; simpl; intros Hraw; [done|].
  destruct (_ =? _); [by apply Hp | by apply IH].
Qed.
Lemma scan32_ok table raw f s op :
  Forall (fun p => ∀ f s op, is_u16 f -> is_u16 s -> p32_decode p f s = Some op -> op_ok op)
    table ->
  is_u16 f -> is_u16 s -> scan32 table raw f s = Some op -> op_ok op.
Proof.
  induction 1 as [|p table Hp _ IH]; simpl; intros Hf Hs; [done|].
  destruct (_ =? _); [by apply Hp | by apply IH].
Qed.

Lemma decode16_op_ok raw op : is_u16 raw -> decode16 raw = Some op -> op_ok op.
Proof.
  unfold decode16. intros Hraw. destruct (is32BitThumbPrefix raw); [done|].
  apply scan16_ok; [apply patterns16_ok | done].
Qed.
Lemma decode32_op_ok f s op : is_u16 f -> is_u16 s -> decode32 f s = Some op -> op_ok op.
Proof.
  unfold decode32. intros Hf Hs. destruct (is32BitThumbPrefix f); [|done].
  apply scan32_ok; [apply patterns32_ok | done | done].
Qed.

(** ** Table order *)

(** A word matches a row when its masked bits equal the row's value. *)
Definition row_matches (raw : Z) (row : Z * Z) : Prop := raw .& fst row = snd row.

Lemma no_overlap_unique rows raw i j ri rj :
  tableHasNoOverlaps rows = true -> rows !! i = Some ri -> rows !! j = Some rj ->
  row_matches raw ri -> row_matches raw rj -> i = j.
Proof.
  revert i j. induction rows as [|[m v] rows IH]; intros i j Ht; [done|].
  simpl in Ht. apply andb_true_iff in Ht as [[_ Hh]%andb_true_iff Ht].
  rewrite forallb_forall in Hh.
  assert (∀ k m' v', rows !! k = Some (m', v') -> raw .& m = v -> raw .& m' = v' -> False) as Hne.
  { intros k m' v' Hk H1 H2. specialize (Hh (m', v')).
    assert (negb (v .& (m .& m') =? v' .& (m .& m')) = true) as Hn.
    { apply Hh, list_elem_of_In. by eapply list_elem_of_lookup_2. }
    subst v v'. rewrite <- !Z.land_assoc, (Z.land_assoc m' m m'), (Z.land_comm m' m) in Hn.
    rewrite <- (Z.land_assoc m m' m'), Z.land_diag, (Z.land_assoc m m m'), Z.land_diag in Hn.
    by rewrite Z.eqb_refl in Hn. }
  destruct i as [|i], j as [|j]; simpl; intros Hi Hj Mi Mj; simplify_eq; try done.
  - destruct rj. exfalso. by eapply Hne.
  - destruct ri. exfalso. by eapply Hne.
  - f_equal. by eapply IH.
Qed.

Lemma scan32_first table raw f s i p :
  tableHasNoOverlaps (rows32 table) = true -> table !! i = Some p ->
  row_matches raw (p32_mask p, p32_value p) ->
  scan32 table raw f s = p32_decode p f s.
Proof.
  revert i. induction table as [|q table IH]; intros i Ht Hi Hm; [done|].
  simpl. destruct (Z.eqb_spec (raw .& p32_mask q) (p32_value q)) as [E|E].
  - assert (i = 0%nat) as ->; [|by simplify_eq/=].
    eapply (no_overlap_unique (rows32 (q :: table)) raw i 0); [done| | |exact Hm|].
    + unfold rows32. by rewrite list_lookup_fmap, Hi.
    + done.
    + done.
  - destruct i as [|i]; [simplify_eq/=; done|]. eapply IH; [|exact Hi|done].
    simpl in Ht. by apply andb_true_iff in Ht as [_ Ht].
Qed.
Lemma scan16_first table raw i p :
  tableHasNoOverlaps (rows16 table) = true -> table !! i = Some p ->
  row_matches raw (p16_mask p, p16_value p) ->
  scan16 table raw = p16_decode p raw.
Proof.
  revert i. induction table as [|q table IH]; intros i Ht Hi Hm; [done|].
  simpl. destruct (Z.eqb_spec (raw .& p16_mask q) (p16_value q)) as [E|E].
  - assert (i = 0%nat) as ->; [|by simplify_eq/=].
    eapply (no_overlap_unique (rows16 (q :: table)) raw i 0); [done| | |exact Hm|].
    + unfold rows16. by rewrite list_lookup_fmap, Hi.
    + done.
    + done.
  - destruct i as [|i]; [simplify_eq/=; done|]. eapply IH; [|exact Hi|done].
    simpl in Ht. by apply andb_true_iff in Ht as [_ Ht].
Qed.
