(* ===== verification/CpuState.v ===== *)
(** * Cortex-M4 architectural register state

    Models [CpuState] of [include/fil/cpu/cortex_m4.hpp] and its member functions in
    [src/cpu/cortex_m4.cpp].  Core registers are a list of sixteen 32-bit words; the single
    precision registers are the 32-bit patterns of the [float] array. *)

From S2P Require Import Prelude Instruction.

Record CpuState := mkCpuState {
  cs_r : list Z;
  cs_xpsr : Z;
  cs_msp : Z;
  cs_psp : Z;
  cs_primask : Z;
  cs_basepri : Z;
  cs_faultmask : Z;
  cs_control : Z;
  cs_thumb : bool;
  cs_halted : bool;
  cs_pending_exception : option Z;
  cs_pending_exc_return : option Z;
  cs_s : list Z;
  cs_fpscr : Z;
  cs_it_state : Z;
  cs_fp_lazy_active : bool;
  cs_fp_lazy_base : Z;
  cs_instruction_address : Z;
}.

#[global] Instance CpuState_eq_dec : EqDecision CpuState.
Proof. solve_decision. Defined.

Definition cpu_default : CpuState :=
  {| cs_r := replicate 16 0; cs_xpsr := xpsr_t; cs_msp := 0; cs_psp := 0; cs_primask := 0;
     cs_basepri := 0; cs_faultmask := 0; cs_control := 0; cs_thumb := true;
     cs_halted := false; cs_pending_exception := None; cs_pending_exc_return := None;
     cs_s := replicate 32 0; cs_fpscr := 0; cs_it_state := 0; cs_fp_lazy_active := false;
     cs_fp_lazy_base := 0; cs_instruction_address := 0 |}.

(** ** Array element access *)

Definition rget (l : list Z) (i : Z) : Z := default 0 (l !! Z.to_nat i).
Definition rset (l : list Z) (i v : Z) : list Z := <[Z.to_nat i := v]> l.

(** [state.r[i]] and its assignment; the callers index with constants below 16 or with a
    checked register number. *)
Definition reg (st : CpuState) (i : Z) : Z := rget (cs_r st) i.
Definition set_reg (i v : Z) (st : CpuState) : CpuState :=
  {| st with cs_r := rset (cs_r st) i v |}.
Definition set_xpsr (v : Z) (st : CpuState) : CpuState := {| st with cs_xpsr := v |}.
Definition sreg (st : CpuState) (i : Z) : Z := rget (cs_s st) i.
Definition set_sreg (i v : Z) (st : CpuState) : CpuState :=
  {| st with cs_s := rset (cs_s st) i v |}.

(** ** Member functions *)

(** [CpuState::reset], from the image's initial MSP and reset vector. *)
Definition cpu_reset (initial_msp reset_handler : Z) : bool * CpuState :=
  let thumb := has reset_handler 1 in
  let pc := reset_handler .& not32 1 in
  (thumb,
   {| cpu_default with
      cs_msp := initial_msp;
      cs_r := rset (rset (replicate 16 0) 13 initial_msp) 15 pc;
      cs_thumb := thumb;
      cs_instruction_address := pc;
      cs_xpsr := if thumb then xpsr_t else 0;
      cs_halted := negb thumb |}).

Definition ipsr (st : CpuState) : Z := cs_xpsr st .& xpsr_ipsr_mask.

Definition inHandlerMode (st : CpuState) : bool := negb (ipsr st =? 0).

(** [activeSp()] returns a reference to [msp] or [psp]; [uses_msp] is which. *)
Definition uses_msp (st : CpuState) : bool :=
  inHandlerMode st || (cs_control st .& 0x2 =? 0).
Definition activeSp (st : CpuState) : Z := if uses_msp st then cs_msp st else cs_psp st.
Definition set_activeSp (v : Z) (st : CpuState) : CpuState :=
  if uses_msp st then {| st with cs_msp := v |} else {| st with cs_psp := v |}.

Definition currentInstrAddr (st : CpuState) : Z := cs_instruction_address st.

Definition architecturalPcForRead (st : CpuState) : Z := u32 (cs_instruction_address st + 4).

Definition readRegister (st : CpuState) (i : Z) : Z :=
  if i =? 13 then activeSp st
  else if i =? 15 then architecturalPcForRead st
  else if i <? 16 then reg st i else 0.

Definition writeRegister (i v : Z) (st : CpuState) : CpuState :=
  if 16 <=? i then st
  else if i =? 13 then set_reg 13 v (set_activeSp v st)
  else set_reg i v st.

Definition branchWritePc (target : Z) (st : CpuState) : bool * CpuState :=
  if target .& 1 =? 0 then (false, st)
  else
    let st := set_reg 15 (target .& not32 1) st in
    (true, {| st with cs_thumb := true; cs_xpsr := cs_xpsr st .| xpsr_t |}).

Definition setItState (value : Z) (st : CpuState) : CpuState :=
  {| st with
     cs_it_state := value;
     cs_xpsr := cs_xpsr st .& not32 xpsr_it_mask
       .| ((value .& 0x03) .<< 25 .| (value .& 0xfc) .<< 8) |}.

Definition advanceIt (st : CpuState) : CpuState :=
  setItState (advanceItState (cs_it_state st)) st.

(** [bitwiseEqual]: member-wise comparison, the FP registers by their bit patterns. *)
Definition bitwiseEqual (left right : CpuState) : bool :=
  bool_decide (cs_r left = cs_r right) && (cs_xpsr left =? cs_xpsr right)
  && (cs_msp left =? cs_msp right) && (cs_psp left =? cs_psp right)
  && (cs_primask left =? cs_primask right) && (cs_basepri left =? cs_basepri right)
  && (cs_faultmask left =? cs_faultmask right) && (cs_control left =? cs_control right)
  && eqb (cs_thumb left) (cs_thumb right) && eqb (cs_halted left) (cs_halted right)
  && (cs_fpscr left =? cs_fpscr right) && (cs_it_state left =? cs_it_state right)
  && eqb (cs_fp_lazy_active left) (cs_fp_lazy_active right)
  && (cs_fp_lazy_base left =? cs_fp_lazy_base right)
  && bool_decide (cs_pending_exception left = cs_pending_exception right)
  && bool_decide (cs_pending_exc_return left = cs_pending_exc_return right)
  && (cs_instruction_address left =? cs_instruction_address right)
  && bool_decide (cs_s left = cs_s right).

(** ** Flag updates ([setNz], [setNzc], [setNzcv] of [execute.cpp]) *)

Definition carryFlag (st : CpuState) : bool := has (cs_xpsr st) xpsr_c.

Definition setNz (value : Z) (st : CpuState) : CpuState :=
  let xpsr := cs_xpsr st .& not32 (xpsr_n .| xpsr_z) in
  let xpsr := if has value 0x80000000 then xpsr .| xpsr_n else xpsr in
  let xpsr := if value =? 0 then xpsr .| xpsr_z else xpsr in
  set_xpsr xpsr st.

Definition setNzc (value : Z) (carry : bool) (st : CpuState) : CpuState :=
  let st := setNz value st in
  let xpsr := cs_xpsr st .& not32 xpsr_c in
  set_xpsr (if carry then xpsr .| xpsr_c else xpsr) st.

Definition setNzcv (result : AddResult) (st : CpuState) : CpuState :=
  let xpsr := cs_xpsr st .& not32 (xpsr_n .| xpsr_z .| xpsr_c .| xpsr_v) in
  let xpsr := if ar_n result then xpsr .| xpsr_n else xpsr in
  let xpsr := if ar_z result then xpsr .| xpsr_z else xpsr in
  let xpsr := if ar_c result then xpsr .| xpsr_c else xpsr in
  let xpsr := if ar_v result then xpsr .| xpsr_v else xpsr in
  set_xpsr xpsr st.

(** [jitSetNz], [jitSetNzc] and [jitAdd] of [cortex_m4.cpp]: the branch-free forms used by
    the fast handlers. *)
Definition jitSetNz (value : Z) (st : CpuState) : CpuState :=
  set_xpsr (cs_xpsr st .& not32 (xpsr_n .| xpsr_z)
    .| value .& xpsr_n .| (if value =? 0 then xpsr_z else 0)) st.

Definition jitSetNzc (value : Z) (carry : bool) (st : CpuState) : CpuState :=
  set_xpsr (cs_xpsr st .& not32 (xpsr_n .| xpsr_z .| xpsr_c)
    .| value .& xpsr_n .| (if value =? 0 then xpsr_z else 0)
    .| (if carry then xpsr_c else 0)) st.

Definition jitAdd (left right : Z) (carry set_flags : bool) (st : CpuState)
    : Z * CpuState :=
  let wide := left + right + (if carry then 1 else 0) in
  let value := u32 wide in
  if set_flags then
    let overflow := (not32 (left .^ right) .& (left .^ value)) .>> 3 .& xpsr_v in
    (value,
     set_xpsr (cs_xpsr st .& not32 (xpsr_n .| xpsr_z .| xpsr_c .| xpsr_v)
       .| value .& xpsr_n .| (if value =? 0 then xpsr_z else 0)
       .| u32 (u32 (wide .>> 32) .<< 29) .| overflow) st)
  else (value, st).
