(* ===== verification/CpuStateProofs.v ===== *)
(** * Invariants of the register state and the fast flag updates

    [cpu_ok] is the type invariant of [CpuState]: sixteen and thirty-two words, every
    register at its machine width.  The branch-free flag updates of the fast handlers are
    proved equal to the checked ones. *)

From S2P Require Import Prelude Instruction InstructionProofs CpuState.

Record cpu_ok (st : CpuState) : Prop := {
  ok_r_length : length (cs_r st) = 16%nat;
  ok_r : Forall is_u32 (cs_r st);
  ok_xpsr : is_u32 (cs_xpsr st);
  ok_msp : is_u32 (cs_msp st);
  ok_psp : is_u32 (cs_psp st);
  ok_primask : is_u32 (cs_primask st);
  ok_basepri : is_u32 (cs_basepri st);
  ok_faultmask : is_u32 (cs_faultmask st);
  ok_control : is_u32 (cs_control st);
  ok_s_length : length (cs_s st) = 32%nat;
  ok_s : Forall is_u32 (cs_s st);
  ok_fpscr : is_u32 (cs_fpscr st);
  ok_it_state : is_u8 (cs_it_state st);
  ok_fp_lazy_base : is_u32 (cs_fp_lazy_base st);
  ok_instruction_address : is_u32 (cs_instruction_address st);
}.

#[export] Hint Resolve ok_r_length ok_r ok_xpsr ok_msp ok_psp ok_primask ok_basepri
  ok_faultmask ok_control ok_s_length ok_s ok_fpscr ok_it_state ok_fp_lazy_base
  ok_instruction_address : fil.

Lemma rget_range l i : Forall is_u32 l -> is_u32 (rget l i).
Proof. intros. unfold rget. apply (Forall_lookup_default is_u32); [width_lia | done]. Qed.
Lemma rset_range l i v : Forall is_u32 l -> is_u32 v -> Forall is_u32 (rset l i v).
Proof. intros. by apply Forall_insert. Qed.
Lemma rget_rset l k v : (Z.to_nat k < length l)%nat -> rget (rset l k v) k = v.
Proof. intros Hk. unfold rget, rset. by rewrite list_lookup_insert_eq. Qed.
Lemma rget_rset_ne l i k v : 0 <= i -> 0 <= k -> i <> k -> rget (rset l i v) k = rget l k.
Proof.
  intros. unfold rget, rset. rewrite list_lookup_insert_ne; [done|]. lia.
Qed.
Lemma rset_length l i v : length (rset l i v) = length l.
Proof. apply length_insert. Qed.
#[export] Hint Resolve rget_range rset_range : fil.

(** Reduces the projections of an updated state, and nothing else. *)
Ltac cpu_fields :=
  cbn [cs_r cs_xpsr cs_msp cs_psp cs_primask cs_basepri cs_faultmask cs_control cs_thumb
       cs_halted cs_pending_exception cs_pending_exc_return cs_s cs_fpscr cs_it_state
       cs_fp_lazy_active cs_fp_lazy_base cs_instruction_address
       set_reg set_sreg set_xpsr setItState].

(** Proves [cpu_ok] of an updated record field by field. *)
Ltac cpu_ok_fields :=
  constructor; cpu_fields; rewrite ?rset_length; eauto with fil.

Lemma reg_range st i : cpu_ok st -> is_u32 (reg st i).
Proof. intros. unfold reg. eauto with fil. Qed.
Lemma sreg_range st i : cpu_ok st -> is_u32 (sreg st i).
Proof. intros. unfold sreg. eauto with fil. Qed.
Lemma activeSp_range st : cpu_ok st -> is_u32 (activeSp st).
Proof. intros. unfold activeSp. eauto with fil. Qed.
Lemma architecturalPcForRead_range st : is_u32 (architecturalPcForRead st).
Proof. apply u32_range. Qed.
Lemma readRegister_range st i : cpu_ok st -> is_u32 (readRegister st i).
Proof.
  intros. unfold readRegister. repeat case_match_goal;
    auto using activeSp_range, architecturalPcForRead_range, reg_range. width_lia.
Qed.
#[export] Hint Resolve reg_range sreg_range activeSp_range architecturalPcForRead_range
  readRegister_range : fil.

Lemma cpu_ok_set_reg i v st : cpu_ok st -> is_u32 v -> cpu_ok (set_reg i v st).
Proof. intros. cpu_ok_fields. Qed.
Lemma cpu_ok_set_sreg i v st : cpu_ok st -> is_u32 v -> cpu_ok (set_sreg i v st).
Proof. intros. cpu_ok_fields. Qed.
Lemma cpu_ok_set_xpsr v st : cpu_ok st -> is_u32 v -> cpu_ok (set_xpsr v st).
Proof. intros. cpu_ok_fields. Qed.
Lemma cpu_ok_set_activeSp v st : cpu_ok st -> is_u32 v -> cpu_ok (set_activeSp v st).
Proof. intros. unfold set_activeSp. destruct (uses_msp st); cpu_ok_fields. Qed.
#[export] Hint Resolve cpu_ok_set_reg cpu_ok_set_sreg cpu_ok_set_xpsr cpu_ok_set_activeSp : fil.

Lemma cpu_ok_writeRegister i v st : cpu_ok st -> is_u32 v -> cpu_ok (writeRegister i v st).
Proof. intros. unfold writeRegister. repeat case_match_goal; eauto with fil. Qed.
Lemma cpu_ok_branchWritePc t st b st' : cpu_ok st -> is_u32 t ->
  branchWritePc t st = (b, st') -> cpu_ok st'.
Proof.
  intros Hst Ht. unfold branchWritePc. destruct (_ =? 0); intros [= <- <-]; [done|].
  assert (is_u32 (t .& not32 1)) by (by apply is_u32_land_l).
  cpu_ok_fields.
Qed.
#[export] Hint Resolve cpu_ok_writeRegister : fil.

Lemma is_u32_clear_set x m f : is_u32 x -> is_u32 f -> is_u32 (x .& m .| f).
Proof. intros. apply is_u32_lor; [by apply is_u32_land_l | done]. Qed.

Lemma cpu_ok_setItState v st : cpu_ok st -> is_u8 v -> cpu_ok (setItState v st).
Proof.
  intros Hst Hv. cpu_ok_fields. apply is_u32_clear_set; [eauto with fil|].
  pose proof (land_bounds_r v 0x03 ltac:(lia)). pose proof (land_bounds_r v 0xfc ltac:(lia)).
  rewrite !Z.shiftl_mul_pow2 by lia. apply is_u32_lor; width_lia.
Qed.
Lemma cpu_ok_advanceIt st : cpu_ok st -> cpu_ok (advanceIt st).
Proof. intros. unfold advanceIt. apply cpu_ok_setItState; eauto with fil. Qed.
#[export] Hint Resolve cpu_ok_setItState cpu_ok_advanceIt : fil.

Lemma cpu_ok_setNz v st : cpu_ok st -> cpu_ok (setNz v st).
Proof. intros. unfold setNz. cbv zeta. apply cpu_ok_set_xpsr; [done|]. u32_auto. Qed.
Lemma cpu_ok_setNzc v c st : cpu_ok st -> cpu_ok (setNzc v c st).
Proof.
  intros. unfold setNzc. cbv zeta. assert (cpu_ok (setNz v st)) by (by apply cpu_ok_setNz).
  apply cpu_ok_set_xpsr; [done|]. u32_auto.
Qed.
Lemma cpu_ok_setNzcv r st : cpu_ok st -> cpu_ok (setNzcv r st).
Proof. intros. unfold setNzcv. cbv zeta. apply cpu_ok_set_xpsr; [done|]. u32_auto. Qed.
#[export] Hint Resolve cpu_ok_setNz cpu_ok_setNzc cpu_ok_setNzcv : fil.

(** ** Fast flag updates *)

Lemma land_sign_flag v : v .& xpsr_n = if has v 0x80000000 then xpsr_n else 0.
Proof. apply (land_one_bit v xpsr_n 31); [lia | reflexivity]. Qed.

(** Adding a flag conditionally is or-ing it or zero. *)
Lemma if_lor (b : bool) x m : (if b then x .| m else x) = x .| (if b then m else 0).
Proof. destruct b; [done | by rewrite Z.lor_0_r]. Qed.

Lemma jitSetNz_setNz v st : jitSetNz v st = setNz v st.
Proof. unfold jitSetNz, setNz. by rewrite land_sign_flag, !if_lor. Qed.

Lemma jitSetNzc_setNzc v c st : jitSetNzc v c st = setNzc v c st.
Proof.
  unfold jitSetNzc, setNzc, setNz, set_xpsr. simpl. f_equal.
  rewrite land_sign_flag, !if_lor, !Z.land_lor_distr_l, <- Z.land_assoc.
  assert (∀ b : bool, Z.land (if b then xpsr_n else 0) (not32 xpsr_c) = if b then xpsr_n else 0) as ->
    by (by intros []).
  assert (∀ b : bool, Z.land (if b then xpsr_z else 0) (not32 xpsr_c) = if b then xpsr_z else 0) as ->
    by (by intros []).
  done.
Qed.

Lemma carry_word (b : bool) w : w = Z.b2z b -> u32 (u32 w .<< 29) = if b then xpsr_c else 0.
Proof. intros ->. by destruct b. Qed.

Lemma overflow_flag x : x .>> 3 .& xpsr_v = if has x 0x80000000 then xpsr_v else 0.
Proof.
  rewrite (land_one_bit _ xpsr_v 28) by (lia || reflexivity).
  change xpsr_v with (2 ^ 28) at 1. change 0x80000000 with (2 ^ 31).
  by rewrite !has_pow2, Z.shiftr_spec by lia.
Qed.

Lemma jitAdd_addWithCarry x y c flags st : is_u32 x -> is_u32 y ->
  jitAdd x y c flags st =
    (ar_value (addWithCarry x y c),
     if flags then setNzcv (addWithCarry x y c) st else st).
Proof.
  intros Hx Hy. unfold jitAdd. destruct flags; [|by destruct c].
  pose proof (addWithCarry_add_spec x y c Hx Hy) as [Hv Hn Hz Hc Ho].
  set (s := x + y + (if c then 1 else 0)).
  assert (x + y + Z.b2z c = s) as Hs by (by destruct c). rewrite Hs in *.
  assert (0 <= s < 0x200000000) by (subst s; destruct c; width_lia).
  assert (s .>> 32 = Z.b2z (ar_c (addWithCarry x y c))) as Hcarry.
  { rewrite Hc, Z.shiftr_div_pow2 by lia. change (2 ^ 32) with 0x100000000.
    destruct (Z.leb_spec 0x100000000 s).
    - symmetry. apply Z.div_unique with (s - 0x100000000); simpl Z.b2z; lia.
    - rewrite Z.div_small by lia. done. }
  f_equal. unfold setNzcv. cbv zeta. f_equal.
  rewrite (carry_word _ _ Hcarry), overflow_flag, land_sign_flag, !if_lor.
  assert (ar_n (addWithCarry x y c) = has (u32 s) 0x80000000) as -> by done.
  assert (ar_z (addWithCarry x y c) = (u32 s =? 0)) as -> by done.
  done.
Qed.
