(* ===== verification/Float32.v ===== *)
(** * IEEE-754 binary32 arithmetic on bit patterns

    The executor of [src/cpu/execute.cpp] computes scalar FP results with the host's [float]
    operators, [std::fma], [std::sqrt] and [std::fabs].  [float] is binary32 on every
    supported target (docs/architecture.md), so these operations are modelled with the
    Standard Library's executable specification of IEEE-754 ([SpecFloat], precision 24,
    maximal exponent 128, round to nearest even).  C++ does not fix the payload and the sign
    of a NaN result: the class [HostNaN] is that host choice. *)

From S2P Require Import Prelude Instruction.
From Stdlib Require Import SpecFloat.

Definition prec32 : Z := 24.
Definition emax32 : Z := 128.

(** A NaN pattern has an all-ones exponent and a nonzero fraction. *)
Definition is_nan_bits (b : Z) : bool :=
  (b .>> 23 .& 0xff =? 0xff) && negb (b .& 0x7fffff =? 0).

Class HostNaN := {
  host_nan : InstrKind.t -> list Z -> Z;
  host_nan_is_nan : ∀ k operands, is_nan_bits (host_nan k operands) = true;
  host_nan_range : ∀ k operands, is_u32 (host_nan k operands);
}.

(** [std::bit_cast] between a pattern and its value. *)
Definition f32_of_bits (b : Z) : spec_float :=
  let s := has b 0x80000000 in
  let e := b .>> 23 .& 0xff in
  let m := b .& 0x7fffff in
  if e =? 0xff then (if m =? 0 then S754_infinity s else S754_nan)
  else if e =? 0 then
    match m with
    | Zpos p => S754_finite s p (-149)
    | _ => S754_zero s
    end
  else
    match m + 0x800000 with
    | Zpos p => S754_finite s p (e - 150)
    | _ => S754_zero s
    end.

Definition sign_bit (s : bool) : Z := if s then 0x80000000 else 0.

Definition bits_of_f32 (nan : Z) (f : spec_float) : Z :=
  match f with
  | S754_zero s => sign_bit s
  | S754_infinity s => sign_bit s + 0x7f800000
  | S754_nan => nan
  | S754_finite s m e =>
      if Zpos m <? 0x800000 then u32 (sign_bit s + Zpos m)
      else u32 (sign_bit s + ((e + 150) .<< 23) + (Zpos m - 0x800000))
  end.

Definition f32_isfinite (b : Z) : bool :=
  match f32_of_bits b with
  | S754_zero _ | S754_finite _ _ _ => true
  | _ => false
  end.

Definition f32_isnan (b : Z) : bool :=
  match f32_of_bits b with S754_nan => true | _ => false end.

(** Unary minus and [std::fabs] act on the sign bit. *)
Definition f32_neg (b : Z) : Z := b .^ 0x80000000.
Definition f32_abs (b : Z) : Z := b .& 0x7fffffff.

Definition signed_mantissa (s : bool) (m : positive) : Z := if s then Zneg m else Zpos m.

(** [std::fma]: the exact product and sum, rounded once. *)
Definition SFfma (x y z : spec_float) : spec_float :=
  match x, y with
  | S754_nan, _ | _, S754_nan => S754_nan
  | S754_infinity _, S754_zero _ | S754_zero _, S754_infinity _ => S754_nan
  | S754_infinity sx, S754_infinity sy
  | S754_infinity sx, S754_finite sy _ _ | S754_finite sx _ _, S754_infinity sy =>
      match z with
      | S754_nan => S754_nan
      | S754_infinity sz => if eqb (xorb sx sy) sz then S754_infinity sz else S754_nan
      | _ => S754_infinity (xorb sx sy)
      end
  | S754_zero sx, S754_zero sy
  | S754_zero sx, S754_finite sy _ _ | S754_finite sx _ _, S754_zero sy =>
      match z with
      | S754_zero sz => S754_zero (xorb sx sy && sz)
      | _ => z
      end
  | S754_finite sx mx ex, S754_finite sy my ey =>
      let sp := xorb sx sy in
      let mp := (mx * my)%positive in
      let ep := ex + ey in
      match z with
      | S754_nan => S754_nan
      | S754_infinity _ => z
      | S754_zero _ => binary_normalize prec32 emax32 (signed_mantissa sp mp) ep sp
      | S754_finite sz mz ez =>
          let e := Z.min ep ez in
          let total := signed_mantissa sp mp * 2 ^ (ep - e)
                       + signed_mantissa sz mz * 2 ^ (ez - e) in
          binary_normalize prec32 emax32 total e false
      end
  end.

Section host.
Context `{HostNaN}.

Definition f32_add (k : InstrKind.t) (a b : Z) : Z :=
  bits_of_f32 (host_nan k [a; b]) (SFadd prec32 emax32 (f32_of_bits a) (f32_of_bits b)).
Definition f32_sub (k : InstrKind.t) (a b : Z) : Z :=
  bits_of_f32 (host_nan k [a; b]) (SFsub prec32 emax32 (f32_of_bits a) (f32_of_bits b)).
Definition f32_mul (k : InstrKind.t) (a b : Z) : Z :=
  bits_of_f32 (host_nan k [a; b]) (SFmul prec32 emax32 (f32_of_bits a) (f32_of_bits b)).
Definition f32_div (k : InstrKind.t) (a b : Z) : Z :=
  bits_of_f32 (host_nan k [a; b]) (SFdiv prec32 emax32 (f32_of_bits a) (f32_of_bits b)).
Definition f32_sqrt (k : InstrKind.t) (a : Z) : Z :=
  bits_of_f32 (host_nan k [a]) (SFsqrt prec32 emax32 (f32_of_bits a)).
Definition f32_fma (k : InstrKind.t) (a b c : Z) : Z :=
  bits_of_f32 (host_nan k [a; b; c])
    (SFfma (f32_of_bits a) (f32_of_bits b) (f32_of_bits c)).
End host.

(** [static_cast<float>] of an integer; never a NaN. *)
Definition f32_of_int (v : Z) : Z :=
  bits_of_f32 0 (binary_normalize prec32 emax32 v 0 false).

(** [std::trunc] of a finite value, as an integer ([float] to [double] is exact). *)
Definition f32_trunc (b : Z) : Z :=
  match f32_of_bits b with
  | S754_finite s m e =>
      let magnitude := if 0 <=? e then Zpos m * 2 ^ e else Zpos m / 2 ^ (- e) in
      if s then - magnitude else magnitude
  | _ => 0
  end.

(** Ordered comparison; [None] when an operand is a NaN. *)
Definition f32_compare (a b : Z) : option comparison :=
  SFcompare (f32_of_bits a) (f32_of_bits b).

Definition floatToSignedIntegerBits (value : Z) : Z :=
  if negb (f32_isfinite value) then 0x80000000
  else
    let truncated := f32_trunc value in
    if (truncated <? -0x80000000) || (0x7fffffff <? truncated) then 0x80000000
    else u32 truncated.

Definition f32_le_zero (value : Z) : bool :=
  match f32_compare value 0 with
  | Some Lt | Some Eq => true
  | _ => false
  end.

Definition floatToUnsignedIntegerBits (value : Z) : Z :=
  if negb (f32_isfinite value) || f32_le_zero value then 0
  else
    let truncated := f32_trunc value in
    if 0xffffffff <=? truncated then 0xffffffff else u32 truncated.
