(* ===== verification/MemoryApi.v ===== *)
(** * The memory interface of the processor

    [CpuMemory] lists the [MemoryBus] operations that the core, the fast handlers and the
    exception controller call (declared in [include/fil/mem/memory_bus.hpp]), in state
    passing style.  [CpuMemoryLaws] is what the bus promises to the core: its backed-memory
    fast paths agree with the checked accesses up to an equivalence that forgets pure
    bookkeeping.  The core's theorems are proved against this interface; the bus model
    discharges it. *)

From S2P Require Import Prelude Address.

Class CpuMemory (M : Type) := {
  read8 : Z -> AccessContext -> M -> MemoryResult Z * M;
  read16 : Z -> AccessContext -> M -> MemoryResult Z * M;
  read32 : Z -> AccessContext -> M -> MemoryResult Z * M;
  write8 : Z -> Z -> AccessContext -> M -> MemoryResult Z * M;
  write16 : Z -> Z -> AccessContext -> M -> MemoryResult Z * M;
  write32 : Z -> Z -> AccessContext -> M -> MemoryResult Z * M;
  tryFastRead32 : Z -> AccessContext -> M -> option Z * M;
  tryFastRead : Z -> AccessSize.t -> AccessContext -> M -> option Z * M;
  tryFastWrite32 : Z -> Z -> AccessContext -> M -> bool * M;
  tryFastWrite : Z -> AccessSize.t -> Z -> AccessContext -> M -> bool * M;
  tryFastReadWords : Z -> Z -> AccessContext -> M -> option (list Z) * M;
  tryFastWriteWords : Z -> list Z -> AccessContext -> M -> bool * M;
  containsWritableRange : Z -> Z -> M -> bool;
  mmioTrapping : M -> bool;
  (** [system_->fpccr()]; [None] when no system control block is attached. *)
  system_fpccr : M -> option Z;
}.

Section sequences.
Context `{CpuMemory M}.

(** [n] consecutive word reads or writes with [read32]/[write32], stopping at a fault. *)
Fixpoint read_words (n : nat) (address : Z) (c : AccessContext) (m : M)
    : MemoryResult (list Z) * M :=
  match n with
  | O => (inl [], m)
  | S n' =>
      match read32 address c m with
      | (inl v, m) =>
          match read_words n' (u32 (address + 4)) c m with
          | (inl vs, m) => (inl (v :: vs), m)
          | (inr f, m) => (inr f, m)
          end
      | (inr f, m) => (inr f, m)
      end
  end.

Fixpoint write_words (values : list Z) (address : Z) (c : AccessContext) (m : M)
    : MemoryResult Z * M :=
  match values with
  | [] => (inl 0, m)
  | v :: vs =>
      match write32 address v c m with
      | (inl _, m) => write_words vs (u32 (address + 4)) c m
      | (inr f, m) => (inr f, m)
      end
  end.
End sequences.

(** Results of a state-passing operation, compared up to a relation on the state. *)
Definition res_rel {M A} (R : relation M) : relation (A * M) :=
  fun p q => fst p = fst q /\ R (snd p) (snd q).

Class CpuMemoryLaws (M : Type) `{CpuMemory M} := {
  mem_ok : M -> Prop;
  mem_eqv : relation M;
  mem_eqv_equivalence :: Equivalence mem_eqv;
  mem_ok_proper : Proper (mem_eqv ==> iff) mem_ok;

  read8_proper a c : Proper (mem_eqv ==> res_rel mem_eqv) (read8 a c);
  read16_proper a c : Proper (mem_eqv ==> res_rel mem_eqv) (read16 a c);
  read32_proper a c : Proper (mem_eqv ==> res_rel mem_eqv) (read32 a c);
  write8_proper a v c : Proper (mem_eqv ==> res_rel mem_eqv) (write8 a v c);
  write16_proper a v c : Proper (mem_eqv ==> res_rel mem_eqv) (write16 a v c);
  write32_proper a v c : Proper (mem_eqv ==> res_rel mem_eqv) (write32 a v c);
  mmioTrapping_proper : Proper (mem_eqv ==> eq) mmioTrapping;
  system_fpccr_proper : Proper (mem_eqv ==> eq) system_fpccr;

  read8_ok a c m : mem_ok m -> mem_ok (snd (read8 a c m));
  read16_ok a c m : mem_ok m -> mem_ok (snd (read16 a c m));
  read32_ok a c m : mem_ok m -> mem_ok (snd (read32 a c m));
  write8_ok a v c m : mem_ok m -> mem_ok (snd (write8 a v c m));
  write16_ok a v c m : mem_ok m -> mem_ok (snd (write16 a v c m));
  write32_ok a v c m : mem_ok m -> mem_ok (snd (write32 a v c m));

  read8_range a c m v m' : mem_ok m -> read8 a c m = (inl v, m') -> is_u8 v;
  read16_range a c m v m' : mem_ok m -> read16 a c m = (inl v, m') -> is_u16 v;
  read32_range a c m v m' : mem_ok m -> read32 a c m = (inl v, m') -> is_u32 v;

  fast_read32_hit a c m v m' : mem_ok m ->
    tryFastRead32 a c m = (Some v, m') -> read32 a c m = (inl v, m');
  fast_read8_hit a c m v m' : mem_ok m ->
    tryFastRead a AccessSize.byte c m = (Some v, m') -> read8 a c m = (inl v, m');
  fast_read16_hit a c m v m' : mem_ok m ->
    tryFastRead a AccessSize.halfword c m = (Some v, m') -> read16 a c m = (inl v, m');
  fast_write32_hit a v c m m' : mem_ok m ->
    tryFastWrite32 a v c m = (true, m') -> ∃ r, write32 a v c m = (inl r, m');
  fast_write8_hit a v c m m' : mem_ok m ->
    tryFastWrite a AccessSize.byte v c m = (true, m') ->
    ∃ r, write8 a (u8 v) c m = (inl r, m');
  fast_write16_hit a v c m m' : mem_ok m ->
    tryFastWrite a AccessSize.halfword v c m = (true, m') ->
    ∃ r, write16 a (u16 v) c m = (inl r, m');
  fast_read32_miss a c m m' : tryFastRead32 a c m = (None, m') -> m' = m;
  fast_read_miss a s c m m' : tryFastRead a s c m = (None, m') -> m' = m;
  fast_write32_miss a v c m m' : tryFastWrite32 a v c m = (false, m') -> m' = m;
  fast_write_miss a s v c m m' : tryFastWrite a s v c m = (false, m') -> m' = m;

  fast_read_words_hit a n c m vs m' : mem_ok m -> is_u32 a ->
    ctx_type c = AccessType.data_read -> 0 < n ->
    tryFastReadWords a n c m = (Some vs, m') ->
    read_words (Z.to_nat n) a c m = (inl vs, m');
  (** A bulk probe changes bookkeeping at most, whether it hits or declines. *)
  fast_read_words_eqv a n c m r m' : tryFastReadWords a n c m = (r, m') -> mem_eqv m' m;
  fast_write_words_hit a vs c m m' : mem_ok m -> is_u32 a ->
    ctx_type c = AccessType.data_write -> vs <> [] -> Forall is_u32 vs ->
    tryFastWriteWords a vs c m = (true, m') ->
    ∃ r m'', write_words vs a c m = (inl r, m'') /\ mem_eqv m' m'';
  fast_write_words_miss a vs c m m' : tryFastWriteWords a vs c m = (false, m') -> m' = m;
}.
