(* ===== verification/Machine.v ===== *)
(** * The executor's state and its early-return monad

    [CortexM4::execute] mutates the core state, the bus behind [memory_] and a diagnostic
    snapshot, and returns a [StopReason]; every failure is an early [return].  [Exec] is that
    effect: a computation either continues with a value or stops with a reason, and in both
    cases leaves the machine as it was mutated so far. *)

From S2P Require Import Prelude Address Instruction CpuState MemoryApi.

Module StopReason.
Inductive t : Type :=
  | step_complete | instruction_budget | breakpoint | halted | bus_fault
  | synchronization_required | undefined_instruction | invalid_state.
#[export] Instance eq_dec : EqDecision t.
Proof. solve_decision. Defined.
End StopReason.
Export (hints) StopReason.

Record DiagnosticSnapshot := mkDiagnostic {
  dg_instruction_address : Z;
  dg_next_pc : Z;
  dg_raw : Z;
  dg_instruction_size : Z;
  dg_registers : list Z;
  dg_xpsr : Z;
  dg_bus_fault : option BusFault;
  dg_message : string;
}.

Definition diagnostic_default : DiagnosticSnapshot :=
  {| dg_instruction_address := 0; dg_next_pc := 0; dg_raw := 0; dg_instruction_size := 0;
     dg_registers := replicate 16 0; dg_xpsr := 0; dg_bus_fault := None;
     dg_message := EmptyString |}.

(** The members of [CortexM4] that a step reads and writes. *)
Record Machine (M : Type) := mkMachine {
  mc_cpu : CpuState;
  mc_mem : M;
  mc_diag : DiagnosticSnapshot;
}.
Arguments mkMachine {_} _ _ _.
Arguments mc_cpu {_} _.
Arguments mc_mem {_} _.
Arguments mc_diag {_} _.

Inductive Outcome (M A : Type) : Type :=
  | Done (a : A) (mc : Machine M)
  | Stop (reason : StopReason.t) (mc : Machine M).
Arguments Done {_ _} _ _.
Arguments Stop {_ _} _ _.

Definition Exec (M A : Type) : Type := Machine M -> Outcome M A.

#[global] Instance Exec_ret {M} : MRet (Exec M) := fun _ a mc => Done a mc.
#[global] Instance Exec_bind {M} : MBind (Exec M) := fun _ _ f x mc =>
  match x mc with
  | Done a mc => f a mc
  | Stop reason mc => Stop reason mc
  end.

Section operations.
Context {M : Type}.

Definition with_cpu (st : CpuState) (mc : Machine M) : Machine M :=
  {| mc with mc_cpu := st |}.
Definition with_mem (m : M) (mc : Machine M) : Machine M := {| mc with mc_mem := m |}.
Definition with_diag (d : DiagnosticSnapshot) (mc : Machine M) : Machine M :=
  {| mc with mc_diag := d |}.

(** Reading and updating the core state. *)
Definition gets {A} (f : CpuState -> A) : Exec M A := fun mc => Done (f (mc_cpu mc)) mc.
Definition modify (f : CpuState -> CpuState) : Exec M unit :=
  fun mc => Done tt (with_cpu (f (mc_cpu mc)) mc).

Definition set_failure (fault : option BusFault) (message : string) (mc : Machine M)
    : Machine M :=
  {| mc with mc_diag :=
       {| (mc_diag mc) with dg_bus_fault := fault; dg_message := message |} |}.

(** The [failInvalid] and [failBus] lambdas of [CortexM4::execute]. *)
Definition failInvalid {A} (message : string) : Exec M A := fun mc =>
  let st := {| (mc_cpu mc) with cs_halted := true |} in
  Stop StopReason.invalid_state (set_failure None message (with_cpu st mc)).

Definition failBus {A} (fault : BusFault) (message : string) : Exec M A := fun mc =>
  Stop (if bool_decide (fault_reason fault = BusFaultReason.synchronization_required)
        then StopReason.synchronization_required else StopReason.bus_fault)
       (set_failure (Some fault) message mc).

(** Stops without halting: [diagnostic.bus_fault.reset(); message = ...; return reason]. *)
Definition failWith {A} (reason : StopReason.t) (message : string) : Exec M A := fun mc =>
  Stop reason (set_failure None message mc).

(** One bus access followed by the [if (!result) return failBus(...)] check. *)
Definition access {A} (op : M -> MemoryResult A * M) (message : string) : Exec M A :=
  fun mc =>
    let '(result, m) := op (mc_mem mc) in
    match result with
    | inl v => Done v (with_mem m mc)
    | inr fault => failBus fault message (with_mem m mc)
    end.

(** [if (!state_.branchWritePc(target)) return failInvalid(message)]. *)
Definition branch_or_fail (target : Z) (message : string) : Exec M unit := fun mc =>
  let '(taken, st) := branchWritePc target (mc_cpu mc) in
  if taken then Done tt (with_cpu st mc) else failInvalid message (with_cpu st mc).
End operations.
