(* ===== verification/Execute.v ===== *)
(** * The checked instruction executor

    Models [CortexM4::execute] of [src/cpu/execute.cpp]: the lazy FP stacking prologue and
    one definition per group of [switch] cases, composed by [execute].  Pure register
    updates are functions on [CpuState]; cases that reach memory or may fail are [Exec]
    computations. *)

From stdpp Require Import pretty.
From S2P Require Import Prelude Address Instruction CpuState Float32 MemoryApi Machine.
#[local] Open Scope Z_scope.
#[local] Open Scope fil_scope.

(** Reports FP instructions that access the FP register file. *)
Definition isFpRegisterAccess (kind : InstrKind.t) : bool :=
  match kind with
  | InstrKind.vstm | InstrKind.vldm | InstrKind.vldr | InstrKind.vstr
  | InstrKind.vmov_core_to_single | InstrKind.vmov_single_to_core | InstrKind.vmov_single
  | InstrKind.vmov_immediate | InstrKind.vcvt_f32_s32 | InstrKind.vcvt_f32_u32
  | InstrKind.vcvt_s32_f32 | InstrKind.vcvt_u32_f32 | InstrKind.vadd | InstrKind.vsub
  | InstrKind.vmul | InstrKind.vnmul | InstrKind.vdiv | InstrKind.vfma | InstrKind.vfms
  | InstrKind.vfnms | InstrKind.vcmp | InstrKind.vneg | InstrKind.vabs
  | InstrKind.vsqrt => true
  | _ => false
  end.

Definition isStore (kind : InstrKind.t) : bool :=
  kind_eqb kind InstrKind.str || kind_eqb kind InstrKind.strb
  || kind_eqb kind InstrKind.strh || kind_eqb kind InstrKind.strd.

Definition branchTarget (st : CpuState) (offset : Z) : Z :=
  u32 (currentInstrAddr st + 4 + offset).

(** [SystemControl::fpccr_aspen]. *)
Definition fpccr_aspen : Z := 0x80000000.

(** ** Operand selection *)

Definition form_is_immediate (op : DecodedInstruction) : bool :=
  match di_form op with OperandForm.immediate => true | _ => false end.
Definition form_is_register (op : DecodedInstruction) : bool :=
  match di_form op with OperandForm.register_value => true | _ => false end.

Definition shiftedRm (op : DecodedInstruction) (st : CpuState) : ShiftResult :=
  shiftC (readRegister st (di_rm op)) (di_shift_type op) (di_shift_amount op) (carryFlag st).

Definition shiftedOperand (op : DecodedInstruction) (st : CpuState) : ShiftResult :=
  if form_is_immediate op then
    mkShiftResult (di_imm op)
      (if di_immediate_carry_valid op then di_immediate_carry op else carryFlag st)
  else shiftedRm op st.

Definition operand2 (op : DecodedInstruction) (st : CpuState) : Z :=
  sr_value (shiftedOperand op st).

Definition writeAluResult (rd value : Z) (st : CpuState) : CpuState :=
  if rd =? 15 then set_reg 15 (value .& not32 1) st else writeRegister rd value st.

Definition when_flags (b : bool) (f : CpuState -> CpuState) (st : CpuState) : CpuState :=
  if b then f st else st.

(** ** Register-only cases *)

Definition alu_movt (op : DecodedInstruction) (st : CpuState) : CpuState :=
  let value := readRegister st (di_rd op) .& 0x0000ffff .| u32 (di_imm op .<< 16) in
  writeRegister (di_rd op) value st.

Definition alu_add_sub (op : DecodedInstruction) (st : CpuState) : CpuState :=
  let left := readRegister st (di_rn op) in
  let left := if (di_rn op =? 15) && form_is_immediate op then left .& not32 3 else left in
  let right := operand2 op st in
  let subtract := kind_eqb (di_kind op) InstrKind.sub || kind_eqb (di_kind op) InstrKind.sbc in
  let carry_in :=
    if kind_eqb (di_kind op) InstrKind.adc then carryFlag st
    else if kind_eqb (di_kind op) InstrKind.sbc then carryFlag st else subtract in
  let result := addWithCarry left (if subtract then not32 right else right) carry_in in
  when_flags (di_set_flags op) (setNzcv result)
    (writeAluResult (di_rd op) (ar_value result) st).

Definition alu_rsb (op : DecodedInstruction) (st : CpuState) : CpuState :=
  let left := if form_is_immediate op then di_imm op
              else if di_is_32bit op then operand2 op st else 0 in
  let right := if form_is_immediate op then readRegister st (di_rn op)
               else if di_is_32bit op then readRegister st (di_rn op)
               else readRegister st (di_rm op) in
  let result := addWithCarry left (not32 right) true in
  when_flags (di_set_flags op) (setNzcv result)
    (writeRegister (di_rd op) (ar_value result) st).

Definition alu_cmp_cmn (op : DecodedInstruction) (st : CpuState) : CpuState :=
  let left := readRegister st (di_rn op) in
  let right := operand2 op st in
  let result := if kind_eqb (di_kind op) InstrKind.cmp
                then addWithCarry left (not32 right) true
                else addWithCarry left right false in
  setNzcv result st.

Definition alu_tst (op : DecodedInstruction) (st : CpuState) : CpuState :=
  let shifted := shiftedOperand op st in
  let value := readRegister st (di_rn op) .& sr_value shifted in
  setNzc value (sr_carry shifted) st.

Definition logic_value (kind : InstrKind.t) (left right : Z) : Z :=
  match kind with
  | InstrKind.and_ => left .& right
  | InstrKind.orr => left .| right
  | InstrKind.eor => left .^ right
  | InstrKind.bic => left .& not32 right
  | InstrKind.mvn => not32 right
  | InstrKind.orn => left .| not32 right
  | _ => 0
  end.

Definition alu_logic (op : DecodedInstruction) (st : CpuState) : CpuState :=
  let left := readRegister st (di_rn op) in
  let shifted := shiftedOperand op st in
  let value := logic_value (di_kind op) left (sr_value shifted) in
  when_flags (di_set_flags op) (setNzc value (sr_carry shifted))
    (writeRegister (di_rd op) value st).

Definition alu_mul (op : DecodedInstruction) (st : CpuState) : CpuState :=
  let product := u64 (readRegister st (di_rn op) * readRegister st (di_rm op)) in
  let value := u32 product in
  when_flags (di_set_flags op) (setNz value) (writeRegister (di_rd op) value st).

Definition alu_mla_mls (op : DecodedInstruction) (st : CpuState) : CpuState :=
  let product := u32 (readRegister st (di_rn op) * readRegister st (di_rm op)) in
  let addend := readRegister st (di_ra op) in
  let value := if kind_eqb (di_kind op) InstrKind.mla
               then u32 (product + addend) else u32 (addend - product) in
  writeRegister (di_rd op) value st.

Definition alu_umull (op : DecodedInstruction) (st : CpuState) : CpuState :=
  let product := u64 (readRegister st (di_rn op) * readRegister st (di_rm op)) in
  writeRegister (di_ra op) (u32 (product .>> 32)) (writeRegister (di_rd op) (u32 product) st).

Definition alu_smull (op : DecodedInstruction) (st : CpuState) : CpuState :=
  let product := i32 (readRegister st (di_rn op)) * i32 (readRegister st (di_rm op)) in
  let bits := u64 product in
  writeRegister (di_ra op) (u32 (bits .>> 32)) (writeRegister (di_rd op) (u32 bits) st).

Definition alu_udiv (op : DecodedInstruction) (st : CpuState) : CpuState :=
  let divisor := readRegister st (di_rm op) in
  let value := if divisor =? 0 then 0 else readRegister st (di_rn op) / divisor in
  writeRegister (di_rd op) value st.

Definition alu_sdiv (op : DecodedInstruction) (st : CpuState) : CpuState :=
  let dividend := i32 (readRegister st (di_rn op)) in
  let divisor := i32 (readRegister st (di_rm op)) in
  let quotient :=
    if negb (divisor =? 0) then
      if (dividend =? -0x80000000) && (divisor =? -1) then -0x80000000
      else Z.quot dividend divisor
    else 0 in
  writeRegister (di_rd op) (u32 quotient) st.

(** One lane of the [uadd8] and [sel] loops. *)
Definition uadd8_lane (left right : Z) (acc : Z * Z) (lane : Z) : Z * Z :=
  let '(value, ge) := acc in
  let shift := lane * 8 in
  let sum := (left .>> shift .& 0xff) + (right .>> shift .& 0xff) in
  (value .| (sum .& 0xff) .<< shift, if 0x100 <=? sum then ge .| 1 .<< (16 + lane) else ge).

Definition alu_uadd8 (op : DecodedInstruction) (st : CpuState) : CpuState :=
  let left := readRegister st (di_rn op) in
  let right := readRegister st (di_rm op) in
  let '(value, ge) := foldl (uadd8_lane left right) (0, 0) [0; 1; 2; 3] in
  let st := writeRegister (di_rd op) value st in
  set_xpsr (cs_xpsr st .& not32 xpsr_ge_mask .| ge) st.

Definition sel_lane (xpsr left right value lane : Z) : Z :=
  let shift := lane * 8 in
  let use_left := has xpsr (1 .<< (16 + lane)) in
  value .| ((if use_left then left else right) .>> shift .& 0xff) .<< shift.

Definition alu_sel (op : DecodedInstruction) (st : CpuState) : CpuState :=
  let left := readRegister st (di_rn op) in
  let right := readRegister st (di_rm op) in
  let value := foldl (sel_lane (cs_xpsr st) left right) 0 [0; 1; 2; 3] in
  writeRegister (di_rd op) value st.

Definition alu_clz (op : DecodedInstruction) (st : CpuState) : CpuState :=
  writeRegister (di_rd op) (countl_zero32 (readRegister st (di_rm op))) st.

Definition alu_bfc (op : DecodedInstruction) (st : CpuState) : CpuState :=
  let width := di_imm op in
  let field_mask := if width =? 32 then 0xffffffff
                    else u32 (u32 (u32 (1 .<< width) - 1) .<< di_shift_amount op) in
  writeRegister (di_rd op) (readRegister st (di_rd op) .& not32 field_mask) st.

Definition alu_ubfx (op : DecodedInstruction) (st : CpuState) : CpuState :=
  let width := di_imm op in
  let mask := if width =? 32 then 0xffffffff else u32 (u32 (1 .<< width) - 1) in
  writeRegister (di_rd op) (readRegister st (di_rn op) .>> di_shift_amount op .& mask) st.

Definition alu_extend (op : DecodedInstruction) (st : CpuState) : CpuState :=
  let source := rotr32 (readRegister st (di_rm op)) (di_shift_amount op) in
  let value :=
    match di_kind op with
    | InstrKind.uxtb => source .& 0xff
    | InstrKind.uxth => source .& 0xffff
    | InstrKind.sxtb =>
        let value := source .& 0xff in
        if has value 0x80 then value .| 0xffffff00 else value
    | _ =>
        let value := source .& 0xffff in
        if has value 0x8000 then value .| 0xffff0000 else value
    end in
  writeRegister (di_rd op) value st.

Definition alu_rev (op : DecodedInstruction) (st : CpuState) : CpuState :=
  let value := readRegister st (di_rm op) in
  writeRegister (di_rd op)
    (u32 ((value .& 0x000000ff) .<< 24) .| u32 ((value .& 0x0000ff00) .<< 8)
     .| (value .& 0x00ff0000) .>> 8 .| (value .& 0xff000000) .>> 24) st.

Definition alu_rev16 (op : DecodedInstruction) (st : CpuState) : CpuState :=
  let value := readRegister st (di_rm op) in
  writeRegister (di_rd op)
    (u32 ((value .& 0x00ff00ff) .<< 8) .| (value .& 0xff00ff00) .>> 8) st.

Definition alu_revsh (op : DecodedInstruction) (st : CpuState) : CpuState :=
  let source := readRegister st (di_rm op) in
  let value := (source .& 0xff) .<< 8 .| (source .>> 8 .& 0xff) in
  let value := if has value 0x8000 then value .| 0xffff0000 else value in
  writeRegister (di_rd op) value st.

Definition alu_shift (op : DecodedInstruction) (st : CpuState) : CpuState :=
  let immediate := form_is_immediate op in
  let value := if immediate then readRegister st (di_rm op) else readRegister st (di_rn op) in
  let amount := if immediate then di_shift_amount op
                else readRegister st (di_rm op) .& 0xff in
  let result := shiftC value (di_shift_type op) amount (carryFlag st) in
  when_flags (di_set_flags op) (setNzc (sr_value result) (sr_carry result))
    (writeRegister (di_rd op) (sr_value result) st).

(** Branches that only move the program counter. *)
Definition alu_b (op : DecodedInstruction) (st : CpuState) : CpuState :=
  set_reg 15 (branchTarget st (di_branch_offset op) .& not32 1) st.

Definition alu_bl (op : DecodedInstruction) (st : CpuState) : CpuState :=
  let st := set_reg 14 (reg st 15 .| 1) st in
  set_reg 15 (branchTarget st (di_branch_offset op) .& not32 1) st.

Definition alu_cbz_cbnz (op : DecodedInstruction) (st : CpuState) : CpuState :=
  let zero := readRegister st (di_rn op) =? 0 in
  let take := if kind_eqb (di_kind op) InstrKind.cbz then zero else negb zero in
  if take then
    let st := set_reg 15 (u32 (architecturalPcForRead st + di_imm op)) st in
    set_reg 15 (reg st 15 .& not32 1) st
  else st.

(** ** Floating-point register cases *)

Section fp_alu.
Context `{HostNaN}.

Definition fp_binary (op : DecodedInstruction) (f : Z -> Z -> Z) (st : CpuState) : CpuState :=
  set_sreg (di_rd op) (f (sreg st (di_rn op)) (sreg st (di_rm op))) st.
Definition fp_unary (op : DecodedInstruction) (f : Z -> Z) (st : CpuState) : CpuState :=
  set_sreg (di_rd op) (f (sreg st (di_rm op))) st.

Definition alu_vfma (op : DecodedInstruction) (st : CpuState) : CpuState :=
  let n := sreg st (di_rn op) in
  let m := sreg st (di_rm op) in
  let d := sreg st (di_rd op) in
  let k := di_kind op in
  let value :=
    match k with
    | InstrKind.vfma => f32_fma k n m d
    | InstrKind.vfms => f32_fma k (f32_neg n) m d
    | _ => f32_fma k n m (f32_neg d)
    end in
  set_sreg (di_rd op) value st.

Definition alu_vcmp (op : DecodedInstruction) (st : CpuState) : CpuState :=
  let left := sreg st (di_rn op) in
  let right := if form_is_immediate op then 0 else sreg st (di_rm op) in
  let fpscr := cs_fpscr st .& 0x0fffffff in
  let flags :=
    if f32_isnan left || f32_isnan right then xpsr_c .| xpsr_v
    else match f32_compare left right with
         | Some Eq => xpsr_z .| xpsr_c
         | Some Lt => xpsr_n
         | _ => xpsr_c
         end in
  {| st with cs_fpscr := fpscr .| flags |}.

Definition xpsr_nzcv : Z := xpsr_n .| xpsr_z .| xpsr_c .| xpsr_v.

Definition alu_vmrs (st : CpuState) : CpuState :=
  set_xpsr (cs_xpsr st .& not32 xpsr_nzcv .| cs_fpscr st .& xpsr_nzcv) st.

(** The cases that only touch core or FP registers and always complete. *)
Definition register_case (op : DecodedInstruction) : option (CpuState -> CpuState) :=
  let k := di_kind op in
  match k with
  | InstrKind.movw => Some (writeRegister (di_rd op) (di_imm op))
  | InstrKind.movt => Some (alu_movt op)
  | InstrKind.add | InstrKind.adc | InstrKind.sub | InstrKind.sbc => Some (alu_add_sub op)
  | InstrKind.rsb => Some (alu_rsb op)
  | InstrKind.cmp | InstrKind.cmn => Some (alu_cmp_cmn op)
  | InstrKind.tst => Some (alu_tst op)
  | InstrKind.and_ | InstrKind.orr | InstrKind.eor | InstrKind.bic | InstrKind.mvn
  | InstrKind.orn => Some (alu_logic op)
  | InstrKind.mul => Some (alu_mul op)
  | InstrKind.mla | InstrKind.mls => Some (alu_mla_mls op)
  | InstrKind.umull => Some (alu_umull op)
  | InstrKind.smull => Some (alu_smull op)
  | InstrKind.udiv => Some (alu_udiv op)
  | InstrKind.sdiv => Some (alu_sdiv op)
  | InstrKind.uadd8 => Some (alu_uadd8 op)
  | InstrKind.sel => Some (alu_sel op)
  | InstrKind.clz => Some (alu_clz op)
  | InstrKind.bfc => Some (alu_bfc op)
  | InstrKind.ubfx => Some (alu_ubfx op)
  | InstrKind.uxtb | InstrKind.uxth | InstrKind.sxtb | InstrKind.sxth => Some (alu_extend op)
  | InstrKind.rev => Some (alu_rev op)
  | InstrKind.rev16 => Some (alu_rev16 op)
  | InstrKind.revsh => Some (alu_revsh op)
  | InstrKind.lsl | InstrKind.lsr | InstrKind.asr | InstrKind.ror | InstrKind.rrx =>
      Some (alu_shift op)
  | InstrKind.b => Some (alu_b op)
  | InstrKind.bl => Some (alu_bl op)
  | InstrKind.cbz | InstrKind.cbnz => Some (alu_cbz_cbnz op)
  | InstrKind.vmov_core_to_single =>
      Some (fun st => set_sreg (di_rd op) (readRegister st (di_rn op)) st)
  | InstrKind.vmov_single_to_core =>
      Some (fun st => writeRegister (di_rd op) (sreg st (di_rn op)) st)
  | InstrKind.vmov_single => Some (fp_unary op (fun m => m))
  | InstrKind.vmov_immediate => Some (set_sreg (di_rd op) (di_imm op))
  | InstrKind.vcvt_f32_s32 => Some (fp_unary op (fun m => f32_of_int (i32 m)))
  | InstrKind.vcvt_f32_u32 => Some (fp_unary op f32_of_int)
  | InstrKind.vcvt_s32_f32 => Some (fp_unary op floatToSignedIntegerBits)
  | InstrKind.vcvt_u32_f32 => Some (fp_unary op floatToUnsignedIntegerBits)
  | InstrKind.vadd => Some (fp_binary op (f32_add k))
  | InstrKind.vsub => Some (fp_binary op (f32_sub k))
  | InstrKind.vmul => Some (fp_binary op (f32_mul k))
  | InstrKind.vnmul => Some (fp_binary op (fun n m => f32_neg (f32_mul k n m)))
  | InstrKind.vdiv => Some (fp_binary op (f32_div k))
  | InstrKind.vfma | InstrKind.vfms | InstrKind.vfnms => Some (alu_vfma op)
  | InstrKind.vneg => Some (fp_unary op f32_neg)
  | InstrKind.vabs => Some (fp_unary op f32_abs)
  | InstrKind.vsqrt => Some (fp_unary op (f32_sqrt k))
  | InstrKind.vcmp => Some (alu_vcmp op)
  | InstrKind.vmrs => Some alu_vmrs
  | InstrKind.svc => Some (fun st => {| st with cs_pending_exception := Some 11 |})
  | InstrKind.cps =>
      Some (fun st =>
        let value := if di_add op then 0 else 1 in
        let st := if has (di_imm op) 0x2 then {| st with cs_primask := value |} else st in
        if has (di_imm op) 0x1 then {| st with cs_faultmask := value |} else st)
  | InstrKind.nop | InstrKind.dmb | InstrKind.dsb | InstrKind.isb | InstrKind.wfi
  | InstrKind.wfe | InstrKind.sev => Some (fun st => st)
  | _ => None
  end.
End fp_alu.

(** ** Memory, branch-exchange and system cases *)

Definition when {M} (b : bool) (e : Exec M unit) : Exec M unit := if b then e else mret tt.

(** Base and effective addresses of the single-register load/store forms. *)
Definition mem_base (op : DecodedInstruction) (st : CpuState) : Z :=
  if di_rn op =? 15 then architecturalPcForRead st .& not32 3
  else readRegister st (di_rn op).
Definition mem_offset (op : DecodedInstruction) (st : CpuState) : Z :=
  if form_is_register op then sr_value (shiftedRm op st) else di_imm op.
Definition displace (op : DecodedInstruction) (base offset : Z) : Z :=
  if di_add op then u32 (base + offset) else u32 (base - offset).
Definition offset_address (op : DecodedInstruction) (st : CpuState) : Z :=
  displace op (mem_base op st) (mem_offset op st).
Definition effective_address (op : DecodedInstruction) (st : CpuState) : Z :=
  if di_index op then offset_address op st else mem_base op st.

Definition load_context (st : CpuState) : AccessContext :=
  mkAccessContext AccessType.data_read (currentInstrAddr st).
Definition store_context (st : CpuState) : AccessContext :=
  mkAccessContext AccessType.data_write (currentInstrAddr st).

Definition sign_extend8 (value : Z) : Z :=
  if has value 0x80 then value .| 0xffffff00 else value.
Definition sign_extend16 (value : Z) : Z :=
  if has value 0x8000 then value .| 0xffff0000 else value.

(** Registers named by a [register_list], in ascending order below [limit]. *)
Definition listed (register_list : Z) (limit : nat) : list Z :=
  filter (fun i => Z.testbit register_list i = true) (seqZ 0 (Z.of_nat limit)).

Section exec.
Context `{HostNaN} `{CpuMemory M}.

Definition exec_mov (op : DecodedInstruction) : Exec M unit :=
  shifted ← gets (shiftedOperand op);
  (if di_rd op =? 15
   then branch_or_fail (sr_value shifted) "MOV to PC selected non-Thumb state"
   else modify (writeRegister (di_rd op) (sr_value shifted)));;
  modify (when_flags (di_set_flags op) (setNzc (sr_value shifted) (sr_carry shifted))).

(** [if (isExceptionReturn(v)) pending_exc_return = v; else if (!branchWritePc(v)) ...]. *)
Definition load_pc (value : Z) (message : string) : Exec M unit :=
  if isExceptionReturn value
  then modify (fun st => {| st with cs_pending_exc_return := Some value |})
  else branch_or_fail value message.

Definition exec_ldr (op : DecodedInstruction) : Exec M unit :=
  writeback_address ← gets (offset_address op);
  address ← gets (effective_address op);
  context ← gets load_context;
  value ← access (read32 address context) "word load failed";
  (if di_rd op =? 15 then load_pc value "load to PC selected non-Thumb state"
   else modify (writeRegister (di_rd op) value));;
  when (di_writeback op) (modify (writeRegister (di_rn op) writeback_address)).

Definition store_by_kind (kind : InstrKind.t) (address value : Z) (c : AccessContext)
    : Exec M Z :=
  match kind with
  | InstrKind.str => access (write32 address value c) "word store failed"
  | InstrKind.strb => access (write8 address (u8 value) c) "byte store failed"
  | _ => access (write16 address (u16 value) c) "halfword store failed"
  end.

Definition load_by_kind (kind : InstrKind.t) (address : Z) (c : AccessContext) : Exec M Z :=
  match kind with
  | InstrKind.ldrb => access (read8 address c) "byte load failed"
  | InstrKind.ldrsb =>
      value ← access (read8 address c) "byte load failed"; mret (sign_extend8 value)
  | InstrKind.ldrsh =>
      value ← access (read16 address c) "halfword load failed"; mret (sign_extend16 value)
  | _ => access (read16 address c) "halfword load failed"
  end.

Definition exec_load_store (op : DecodedInstruction) : Exec M unit :=
  writeback_address ← gets (offset_address op);
  address ← gets (effective_address op);
  (if isStore (di_kind op) then
     context ← gets store_context;
     value ← gets (fun st => readRegister st (di_rd op));
     store_by_kind (di_kind op) address value context;;
     mret tt
   else
     context ← gets load_context;
     value ← load_by_kind (di_kind op) address context;
     if di_rd op =? 15
     then branch_or_fail value "load to PC selected non-Thumb state"
     else modify (writeRegister (di_rd op) value));;
  when (di_writeback op) (modify (writeRegister (di_rn op) writeback_address)).

Definition exec_ldrd_strd (op : DecodedInstruction) : Exec M unit :=
  base ← gets (fun st => readRegister st (di_rn op));
  let writeback_address := displace op base (di_imm op) in
  let address := if di_index op then writeback_address else base in
  (if kind_eqb (di_kind op) InstrKind.ldrd then
     context ← gets load_context;
     first ← access (read32 address context) "first doubleword load failed";
     second ← access (read32 (u32 (address + 4)) context) "second doubleword load failed";
     modify (writeRegister (di_rd op) first);;
     modify (writeRegister (di_ra op) second)
   else
     context ← gets store_context;
     first ← gets (fun st => readRegister st (di_rd op));
     access (write32 address first context) "first doubleword store failed";;
     second ← gets (fun st => readRegister st (di_ra op));
     access (write32 (u32 (address + 4)) second context) "second doubleword store failed";;
     mret tt);;
  when (di_writeback op) (modify (writeRegister (di_rn op) writeback_address)).

(** The transfer loop of PUSH/POP/LDM/STM over the listed registers; a load returns the
    [loaded] words in the same order. *)
Fixpoint load_multiple (regs : list Z) (address : Z) (c : AccessContext)
    : Exec M (list Z) :=
  match regs with
  | [] => mret []
  | _ :: rest =>
      value ← access (read32 address c) "multiple-register load failed";
      values ← load_multiple rest (u32 (address + 4)) c;
      mret (value :: values)
  end.

Fixpoint store_multiple (regs : list Z) (address : Z) (c : AccessContext) : Exec M unit :=
  match regs with
  | [] => mret tt
  | r :: rest =>
      value ← gets (fun st => readRegister st r);
      access (write32 address value c) "multiple-register store failed";;
      store_multiple rest (u32 (address + 4)) c
  end.

(** [for (reg < 15) if (listed) writeRegister(reg, loaded[reg])]. *)
Fixpoint write_loaded (regs values : list Z) (st : CpuState) : CpuState :=
  match regs, values with
  | r :: regs, v :: values =>
      write_loaded regs values (if r =? 15 then st else writeRegister r v st)
  | _, _ => st
  end.

Definition decrement_before (op : DecodedInstruction) : bool := negb (di_add op) && di_index op.

Definition block_start (op : DecodedInstruction) (count base : Z) : Z :=
  if decrement_before op then u32 (base - count * 4) else base.
Definition block_final (op : DecodedInstruction) (count base : Z) : Z :=
  if decrement_before op then block_start op count base else u32 (base + count * 4).

Definition is_block_load (op : DecodedInstruction) : bool :=
  kind_eqb (di_kind op) InstrKind.pop || kind_eqb (di_kind op) InstrKind.ldm.

Definition exec_block (op : DecodedInstruction) : Exec M unit :=
  let load := is_block_load op in
  let count := popcount (di_register_list op) in
  let regs := listed (di_register_list op) 16 in
  base ← gets (fun st => readRegister st (di_rn op));
  let start := block_start op count base in
  loaded ←
    (if load then context ← gets load_context; load_multiple regs start context
     else context ← gets store_context; store_multiple regs start context;; mret []);
  when load (modify (write_loaded regs loaded));;
  when (di_writeback op)
    (modify (writeRegister (di_rn op) (block_final op count base)));;
  when (load && Z.testbit (di_register_list op) 15)
    (load_pc (default 0 (last loaded)) "POP/LDM selected non-Thumb state").

Definition exec_bx_blx (op : DecodedInstruction) : Exec M unit :=
  target ← gets (fun st => readRegister st (di_rm op));
  when (kind_eqb (di_kind op) InstrKind.blx)
    (modify (fun st => set_reg 14 (reg st 15 .| 1) st));;
  if kind_eqb (di_kind op) InstrKind.bx && isExceptionReturn target
  then modify (fun st => {| st with cs_pending_exc_return := Some target |})
  else branch_or_fail target "branch exchange selected non-Thumb state".

Definition exec_table_branch (op : DecodedInstruction) : Exec M unit :=
  base ← gets (fun st => readRegister st (di_rn op));
  offset ← gets (fun st => readRegister st (di_rm op));
  let half := kind_eqb (di_kind op) InstrKind.tbh in
  let address := u32 (base + (if half then u32 (offset * 2) else offset)) in
  context ← gets load_context;
  entry ← (if half then access (read16 address context) "TBH table halfword load failed"
           else access (read8 address context) "TBB table byte load failed");
  modify (fun st => set_reg 15 (u32 (architecturalPcForRead st + u32 (entry * 2))) st).

(** ** VFP memory cases *)

(** The word loops of VLDR/VLDM and VSTR/VSTM over registers [first ... first+count-1]. *)
Fixpoint load_fp (count : nat) (first address : Z) (c : AccessContext) (message : string)
    : Exec M unit :=
  match count with
  | O => mret tt
  | S n =>
      value ← access (read32 address c) message;
      modify (set_sreg first value);;
      load_fp n (first + 1) (u32 (address + 4)) c message
  end.

Fixpoint store_fp (count : nat) (first address : Z) (c : AccessContext) (message : string)
    : Exec M unit :=
  match count with
  | O => mret tt
  | S n =>
      value ← gets (fun st => sreg st first);
      access (write32 address value c) message;;
      store_fp n (first + 1) (u32 (address + 4)) c message
  end.

Definition exec_vldr_vstr (op : DecodedInstruction) : Exec M unit :=
  base ← gets (mem_base op);
  let address := displace op base (di_imm op) in
  let words := if di_fp_double op then 2%nat else 1%nat in
  if kind_eqb (di_kind op) InstrKind.vldr then
    context ← gets load_context;
    load_fp words (di_rd op) address context "VFP scalar load failed"
  else
    context ← gets store_context;
    store_fp words (di_rd op) address context "VFP scalar store failed".

Definition exec_vldm_vstm (op : DecodedInstruction) : Exec M unit :=
  let count := di_imm op in
  base ← gets (fun st => readRegister st (di_rn op));
  let start := block_start op count base in
  (if kind_eqb (di_kind op) InstrKind.vldm then
     context ← gets load_context;
     load_fp (Z.to_nat count) (di_rd op) start context "VFP multiple load failed"
   else
     context ← gets store_context;
     store_fp (Z.to_nat count) (di_rd op) start context "VFP multiple store failed");;
  when (di_writeback op)
    (modify (writeRegister (di_rn op) (block_final op count base))).

(** ** System cases *)

Definition mrs_value (sysm : Z) (st : CpuState) : option Z :=
  match sysm with
  | 5 => Some (ipsr st)
  | 8 => Some (cs_msp st)
  | 9 => Some (cs_psp st)
  | 16 => Some (cs_primask st .& 1)
  | 17 | 18 => Some (cs_basepri st .& 0xf0)
  | 19 => Some (cs_faultmask st .& 1)
  | 20 => Some (cs_control st .& 0x7)
  | _ => None
  end.

Definition exec_mrs (op : DecodedInstruction) : Exec M unit :=
  value ← gets (mrs_value (di_imm op));
  match value with
  | Some value => modify (writeRegister (di_rd op) value)
  | None => failWith StopReason.undefined_instruction "unsupported MRS special register"
  end.

Definition msr_write (sysm value : Z) (st : CpuState) : option CpuState :=
  match sysm with
  | 8 =>
      let st := {| st with cs_msp := value .& not32 3 |} in
      Some (if uses_msp st then set_reg 13 (cs_msp st) st else st)
  | 9 =>
      let st := {| st with cs_psp := value .& not32 3 |} in
      Some (if uses_msp st then st else set_reg 13 (cs_psp st) st)
  | 16 => Some {| st with cs_primask := value .& 1 |}
  | 17 => Some {| st with cs_basepri := value .& 0xf0 |}
  | 18 =>
      let requested := value .& 0xf0 in
      Some (if negb (requested =? 0)
               && ((cs_basepri st =? 0) || (requested <? cs_basepri st))
            then {| st with cs_basepri := requested |} else st)
  | 19 => Some {| st with cs_faultmask := value .& 1 |}
  | 20 => Some {| st with cs_control := value .& 0x7 |}
  | _ => None
  end.

Definition exec_msr (op : DecodedInstruction) : Exec M unit :=
  value ← gets (fun st => readRegister st (di_rn op));
  result ← gets (msr_write (di_imm op) value);
  match result with
  | Some st => modify (fun _ => st)
  | None => failWith StopReason.undefined_instruction "unsupported MSR special register"
  end.

Definition exec_it (op : DecodedInstruction) : Exec M unit :=
  in_block ← gets (fun st => inItBlock (cs_it_state st));
  if in_block : bool then failInvalid "nested IT block is invalid"
  else modify (setItState (u8 (di_imm op))).

Definition exec_bkpt (op : DecodedInstruction) : Exec M unit :=
  modify (fun st => {| st with cs_halted := true |});;
  failWith StopReason.breakpoint ("BKPT #" +:+ pretty (di_imm op)).

(** ** The lazy FP prologue and the whole executor *)

(** Materialises a pending lazy FP reservation: S0-S15, FPSCR and the reserved word. *)
Definition stack_lazy_fp : Exec M unit :=
  context ← gets store_context;
  base ← gets cs_fp_lazy_base;
  store_fp 16 0 base context "unable to stack floating-point exception frame";;
  fpscr ← gets cs_fpscr;
  access (write32 (u32 (base + 64)) fpscr context) "unable to stack FPSCR";;
  access (write32 (u32 (base + 68)) 0 context)
    "unable to stack floating-point reserved word";;
  modify (fun st => {| st with cs_fp_lazy_active := false |}).

Definition aspen_enabled : Exec M bool := fun mc =>
  Done (match system_fpccr (mc_mem mc) with
        | None => true
        | Some fpccr => has fpccr fpccr_aspen
        end) mc.

Definition fp_prologue (op : DecodedInstruction) : Exec M unit :=
  when (isFpRegisterAccess (di_kind op))
    (aspen ← aspen_enabled;
     when aspen (modify (fun st => {| st with cs_control := cs_control st .| 4 |}));;
     touch ← gets (fun st => inHandlerMode st && cs_fp_lazy_active st);
     when touch stack_lazy_fp).

Definition execute_switch (op : DecodedInstruction) : Exec M unit :=
  match register_case op with
  | Some f => modify f
  | None =>
      match di_kind op with
      | InstrKind.mov => exec_mov op
      | InstrKind.ldr => exec_ldr op
      | InstrKind.str | InstrKind.ldrb | InstrKind.strb | InstrKind.ldrh | InstrKind.strh
      | InstrKind.ldrsb | InstrKind.ldrsh => exec_load_store op
      | InstrKind.ldrd | InstrKind.strd => exec_ldrd_strd op
      | InstrKind.push | InstrKind.pop | InstrKind.ldm | InstrKind.stm => exec_block op
      | InstrKind.bx | InstrKind.blx => exec_bx_blx op
      | InstrKind.tbb | InstrKind.tbh => exec_table_branch op
      | InstrKind.vldr | InstrKind.vstr => exec_vldr_vstr op
      | InstrKind.vldm | InstrKind.vstm => exec_vldm_vstm op
      | InstrKind.mrs => exec_mrs op
      | InstrKind.msr => exec_msr op
      | InstrKind.it => exec_it op
      | InstrKind.bkpt => exec_bkpt op
      | _ => failWith StopReason.undefined_instruction "decoded instruction has no executor"
      end
  end.

(** [CortexM4::execute]: [Done] is [StopReason::step_complete]. *)
Definition execute (op : DecodedInstruction) : Exec M unit :=
  fp_prologue op;; execute_switch op.
End exec.
