(* ===== verification/ExecuteProofs.v ===== *)
(** * Properties of the checked executor

    [exec_inv] lifts the machine invariant to computations of the [Exec] monad and
    [exec_proper] says that a computation respects the bookkeeping equivalence of the bus.
    Both are closed under the monad's operations, and every case of [execute] satisfies
    both; the executor's theorems follow from the two. *)

From S2P Require Import Prelude Address Instruction InstructionProofs DecoderProofs CpuState.
From S2P Require Import CpuStateProofs Float32 MemoryApi Machine Execute.
#[local] Open Scope Z_scope.
#[local] Open Scope fil_scope.

(** ** Values computed by the register-only cases *)

Lemma shiftedRm_range op st : cpu_ok st -> op_ok op -> is_u32 (sr_value (shiftedRm op st)).
Proof.
  intros Hst Hop. apply shiftC_value_range; [eauto with fil|]. destruct (opk_shift op Hop). lia.
Qed.
Lemma shiftedOperand_range op st : cpu_ok st -> op_ok op ->
  is_u32 (sr_value (shiftedOperand op st)).
Proof.
  intros Hst Hop. unfold shiftedOperand. destruct (form_is_immediate op); cbn [sr_value].
  - apply (opk_imm op Hop).
  - by apply shiftedRm_range.
Qed.
Lemma operand2_range op st : cpu_ok st -> op_ok op -> is_u32 (operand2 op st).
Proof. apply shiftedOperand_range. Qed.
#[export] Hint Resolve opk_imm shiftedRm_range shiftedOperand_range operand2_range : fil.

Lemma cpu_ok_writeAluResult rd v st : cpu_ok st -> is_u32 v -> cpu_ok (writeAluResult rd v st).
Proof.
  intros. unfold writeAluResult. destruct (rd =? 15); [|eauto with fil].
  apply cpu_ok_set_reg; [done|]. u32_auto.
Qed.
Lemma cpu_ok_when_flags b f st : cpu_ok st -> (cpu_ok st -> cpu_ok (f st)) ->
  cpu_ok (when_flags b f st).
Proof. intros. destruct b; simpl; auto. Qed.
#[export] Hint Resolve cpu_ok_writeAluResult : fil.

Lemma logic_value_range k l r : is_u32 l -> is_u32 r -> is_u32 (logic_value k l r).
Proof. intros. destruct k; unfold logic_value; u32_auto. Qed.
#[export] Hint Resolve logic_value_range : fil.

Lemma lanes_range (f : Z -> Z -> Z) n :
  (∀ v lane, 0 <= lane < 4 -> is_u32 v -> is_u32 (f v lane)) ->
  is_u32 n -> is_u32 (foldl f n [0; 1; 2; 3]).
Proof. intros Hf Hn. simpl. repeat (apply Hf; [lia|]). done. Qed.

Lemma byte_lane_range x lane : 0 <= lane < 4 -> is_u32 ((x .& 0xff) .<< (lane * 8)).
Proof.
  intros Hl. pose proof (land_bounds_r x 0xff ltac:(lia)).
  rewrite Z.shiftl_mul_pow2 by lia.
  assert (2 ^ (lane * 8) <= 2 ^ 24) by (apply Z.pow_le_mono_r; lia).
  assert (0 < 2 ^ (lane * 8)) by (apply Z.pow_pos_nonneg; lia). unfold is_u32. nia.
Qed.

Lemma sel_lane_range xpsr l r v lane : 0 <= lane < 4 -> is_u32 v ->
  is_u32 (sel_lane xpsr l r v lane).
Proof. intros. unfold sel_lane. apply is_u32_lor; [done | by apply byte_lane_range]. Qed.

Lemma uadd8_lane_range l r v g lane v' g' : 0 <= lane < 4 -> is_u32 v -> is_u32 g ->
  uadd8_lane l r (v, g) lane = (v', g') -> is_u32 v' /\ is_u32 g'.
Proof.
  intros Hl Hv Hg [= <- <-]. split.
  - apply is_u32_lor; [done | by apply byte_lane_range].
  - destruct (0x100 <=? _); [|done]. apply is_u32_lor; [done|].
    rewrite Z.shiftl_mul_pow2, Z.mul_1_l by lia.
    assert (2 ^ (16 + lane) <= 2 ^ 19) by (apply Z.pow_le_mono_r; lia).
    assert (0 < 2 ^ (16 + lane)) by (apply Z.pow_pos_nonneg; lia). unfold is_u32. lia.
Qed.

Lemma uadd8_range l r v g :
  foldl (uadd8_lane l r) (0, 0) [0; 1; 2; 3] = (v, g) -> is_u32 v /\ is_u32 g.
Proof.
  cbn [foldl]. intros H3.
  destruct (uadd8_lane l r (0, 0) 0) as [v0 g0] eqn:E0.
  apply uadd8_lane_range in E0 as [? ?]; [|width_lia..].
  destruct (uadd8_lane l r (v0, g0) 1) as [v1 g1] eqn:E1.
  apply uadd8_lane_range in E1 as [? ?]; [|width_lia..].
  destruct (uadd8_lane l r (v1, g1) 2) as [v2 g2] eqn:E2.
  apply uadd8_lane_range in E2 as [? ?]; [|width_lia..].
  apply uadd8_lane_range in H3 as [? ?]; [done|width_lia..].
Qed.

Lemma udiv_range x y : is_u32 x -> is_u32 y -> is_u32 (if y =? 0 then 0 else x / y).
Proof.
  intros Hx Hy. destruct (Z.eqb_spec y 0); [width_lia|]. unfold is_u32 in *.
  split; [apply Z.div_pos; lia|]. apply Z.div_lt_upper_bound; nia.
Qed.

(** ** Every register-only case keeps the state well typed *)

Ltac alu_step :=
  first
    [ apply cpu_ok_when_flags; [|intros]
    | apply cpu_ok_setNzcv | apply cpu_ok_setNzc | apply cpu_ok_setNz
    | apply cpu_ok_writeAluResult | apply cpu_ok_writeRegister
    | apply cpu_ok_set_reg | apply cpu_ok_set_sreg | apply cpu_ok_set_xpsr ].
Ltac alu_ok f :=
  intros; unfold f; cbv zeta; repeat alu_step; try done; try u32_auto.

Section alu.
Context `{HostNaN}.

Lemma alu_movt_ok op st : cpu_ok st -> op_ok op -> cpu_ok (alu_movt op st).
Proof. alu_ok alu_movt. Qed.
Lemma alu_add_sub_ok op st : cpu_ok st -> op_ok op -> cpu_ok (alu_add_sub op st).
Proof. alu_ok alu_add_sub. Qed.
Lemma alu_rsb_ok op st : cpu_ok st -> op_ok op -> cpu_ok (alu_rsb op st).
Proof. alu_ok alu_rsb. Qed.
Lemma alu_cmp_cmn_ok op st : cpu_ok st -> op_ok op -> cpu_ok (alu_cmp_cmn op st).
Proof. alu_ok alu_cmp_cmn. Qed.
Lemma alu_tst_ok op st : cpu_ok st -> op_ok op -> cpu_ok (alu_tst op st).
Proof. alu_ok alu_tst. Qed.
Lemma alu_logic_ok op st : cpu_ok st -> op_ok op -> cpu_ok (alu_logic op st).
Proof. alu_ok alu_logic. Qed.
Lemma alu_mul_ok op st : cpu_ok st -> op_ok op -> cpu_ok (alu_mul op st).
Proof. alu_ok alu_mul. Qed.
Lemma alu_mla_mls_ok op st : cpu_ok st -> op_ok op -> cpu_ok (alu_mla_mls op st).
Proof. alu_ok alu_mla_mls. Qed.
Lemma alu_umull_ok op st : cpu_ok st -> op_ok op -> cpu_ok (alu_umull op st).
Proof. alu_ok alu_umull. Qed.
Lemma alu_smull_ok op st : cpu_ok st -> op_ok op -> cpu_ok (alu_smull op st).
Proof. alu_ok alu_smull. Qed.
Lemma alu_udiv_ok op st : cpu_ok st -> op_ok op -> cpu_ok (alu_udiv op st).
Proof. intros. apply cpu_ok_writeRegister; [done|]. apply udiv_range; eauto with fil. Qed.
Lemma alu_sdiv_ok op st : cpu_ok st -> op_ok op -> cpu_ok (alu_sdiv op st).
Proof. alu_ok alu_sdiv. Qed.
Lemma alu_uadd8_ok op st : cpu_ok st -> op_ok op -> cpu_ok (alu_uadd8 op st).
Proof.
  intros. unfold alu_uadd8. destruct (foldl _ _ _) as [v g] eqn:E.
  apply uadd8_range in E as [Hv Hg]. cbv zeta.
  assert (cpu_ok (writeRegister (di_rd op) v st)) by eauto with fil.
  apply cpu_ok_set_xpsr; [done|]. u32_auto.
Qed.
Lemma alu_sel_ok op st : cpu_ok st -> op_ok op -> cpu_ok (alu_sel op st).
Proof.
  intros. apply cpu_ok_writeRegister; [done|].
  apply lanes_range; [intros; by apply sel_lane_range | width_lia].
Qed.
Lemma alu_clz_ok op st : cpu_ok st -> op_ok op -> cpu_ok (alu_clz op st).
Proof.
  intros. apply cpu_ok_writeRegister; [done|].
  pose proof (countl_zero32_range (readRegister st (di_rm op)) ltac:(eauto with fil)). width_lia.
Qed.
Lemma alu_bfc_ok op st : cpu_ok st -> op_ok op -> cpu_ok (alu_bfc op st).
Proof. alu_ok alu_bfc. Qed.
Lemma alu_ubfx_ok op st : cpu_ok st -> op_ok op -> cpu_ok (alu_ubfx op st).
Proof.
  intros ? Hop. destruct (opk_shift op Hop). unfold alu_ubfx. cbv zeta.
  apply cpu_ok_writeRegister; [done|]. apply is_u32_land_l, is_u32_shiftr; eauto with fil.
Qed.
Lemma alu_extend_ok op st : cpu_ok st -> op_ok op -> cpu_ok (alu_extend op st).
Proof.
  intros. unfold alu_extend. cbv zeta. apply cpu_ok_writeRegister; [done|].
  destruct (di_kind op); u32_auto.
Qed.
Lemma alu_rev_ok op st : cpu_ok st -> op_ok op -> cpu_ok (alu_rev op st).
Proof. alu_ok alu_rev. Qed.
Lemma alu_rev16_ok op st : cpu_ok st -> op_ok op -> cpu_ok (alu_rev16 op st).
Proof. alu_ok alu_rev16. Qed.
Lemma alu_revsh_ok op st : cpu_ok st -> op_ok op -> cpu_ok (alu_revsh op st).
Proof.
  intros. unfold alu_revsh. cbv zeta. apply cpu_ok_writeRegister; [done|].
  assert (is_u32 ((readRegister st (di_rm op) .& 0xff) .<< 8)).
  { pose proof (land_bounds_r (readRegister st (di_rm op)) 0xff ltac:(lia)).
    rewrite Z.shiftl_mul_pow2 by lia. width_lia. }
  u32_auto.
Qed.
Lemma alu_shift_ok op st : cpu_ok st -> op_ok op -> cpu_ok (alu_shift op st).
Proof.
  intros ? Hop. destruct (opk_shift op Hop). unfold alu_shift. cbv zeta.
  apply cpu_ok_when_flags; [|eauto with fil]. apply cpu_ok_writeRegister; [done|].
  pose proof (land_bounds_r (readRegister st (di_rm op)) 0xff ltac:(lia)).
  destruct (form_is_immediate op); apply shiftC_value_range; (lia || eauto with fil).
Qed.
Lemma alu_b_ok op st : cpu_ok st -> op_ok op -> cpu_ok (alu_b op st).
Proof. intros. apply cpu_ok_set_reg; [done|]. apply is_u32_land_r, is_u32_not32. Qed.
Lemma alu_bl_ok op st : cpu_ok st -> op_ok op -> cpu_ok (alu_bl op st).
Proof.
  intros. unfold alu_bl. cbv zeta. apply cpu_ok_set_reg.
  - apply cpu_ok_set_reg; [done|]. u32_auto.
  - apply is_u32_land_r, is_u32_not32.
Qed.
Lemma alu_cbz_cbnz_ok op st : cpu_ok st -> op_ok op -> cpu_ok (alu_cbz_cbnz op st).
Proof.
  intros. unfold alu_cbz_cbnz. cbv zeta. destruct (if kind_eqb _ _ then _ else _); [|done].
  repeat apply cpu_ok_set_reg; try done; try apply u32_range. apply is_u32_land_r, is_u32_not32.
Qed.
End alu.

(** ** Floating-point values *)

Lemma bits_of_f32_range nan f : is_u32 nan -> is_u32 (bits_of_f32 nan f).
Proof.
  intros. destruct f as [s|s| |s m e]; cbn [bits_of_f32]; [destruct s; simpl; width_lia..|done|].
  destruct (_ <? _); apply u32_range.
Qed.
Lemma f32_of_int_range v : is_u32 (f32_of_int v).
Proof. apply bits_of_f32_range. width_lia. Qed.
Lemma f32_neg_range b : is_u32 b -> is_u32 (f32_neg b).
Proof. intros. apply is_u32_lxor; [done | width_lia]. Qed.
Lemma f32_abs_range b : is_u32 b -> is_u32 (f32_abs b).
Proof. intros. by apply is_u32_land_l. Qed.
Lemma floatToSignedIntegerBits_range v : is_u32 (floatToSignedIntegerBits v).
Proof. unfold floatToSignedIntegerBits. repeat case_match_goal; u32_auto. Qed.
Lemma floatToUnsignedIntegerBits_range v : is_u32 (floatToUnsignedIntegerBits v).
Proof. unfold floatToUnsignedIntegerBits. repeat case_match_goal; u32_auto. Qed.
#[export] Hint Resolve f32_of_int_range f32_neg_range f32_abs_range
  floatToSignedIntegerBits_range floatToUnsignedIntegerBits_range : fil.

Section fp.
Context `{HostNaN}.

Lemma host_bits_range k l f : is_u32 (bits_of_f32 (host_nan k l) f).
Proof. apply bits_of_f32_range, host_nan_range. Qed.

Lemma alu_vfma_ok op st : cpu_ok st -> op_ok op -> cpu_ok (alu_vfma op st).
Proof.
  intros. unfold alu_vfma. cbv zeta. apply cpu_ok_set_sreg; [done|].
  destruct (di_kind op); apply host_bits_range.
Qed.
Lemma alu_vcmp_ok op st : cpu_ok st -> op_ok op -> cpu_ok (alu_vcmp op st).
Proof.
  intros. unfold alu_vcmp. cbv zeta. cpu_ok_fields.
  apply is_u32_clear_set; [eauto with fil|].
  repeat case_match_goal; u32_auto.
Qed.
Lemma alu_vmrs_ok st : cpu_ok st -> cpu_ok (alu_vmrs st).
Proof. intros. apply cpu_ok_set_xpsr; [done|]. u32_auto. Qed.

Lemma register_case_ok op f st : register_case op = Some f ->
  op_ok op -> cpu_ok st -> cpu_ok (f st).
Proof.
  intros Hf Hop Hst.
  assert (∀ k l v, is_u32 (bits_of_f32 (host_nan k l) v)) as Hbits
    by (intros; apply host_bits_range).
  unfold register_case in Hf. cbv zeta in Hf.
  destruct (di_kind op); try discriminate Hf; injection Hf as <-;
    auto using alu_movt_ok, alu_add_sub_ok, alu_rsb_ok, alu_cmp_cmn_ok, alu_tst_ok,
      alu_logic_ok, alu_mul_ok, alu_mla_mls_ok, alu_umull_ok, alu_smull_ok, alu_udiv_ok,
      alu_sdiv_ok, alu_uadd8_ok, alu_sel_ok, alu_clz_ok, alu_bfc_ok, alu_ubfx_ok,
      alu_extend_ok, alu_rev_ok, alu_rev16_ok, alu_revsh_ok, alu_shift_ok, alu_b_ok,
      alu_bl_ok, alu_cbz_cbnz_ok, alu_vfma_ok, alu_vcmp_ok, alu_vmrs_ok;
    try (apply cpu_ok_writeRegister; [done | eauto with fil]);
    try (apply cpu_ok_set_sreg; [done | first [done | apply Hbits | eauto with fil]]).
  - cpu_ok_fields.
  - repeat case_match_goal; cpu_ok_fields; width_lia.
Qed.
End fp.

(** ** The machine invariant through the monad *)

Section inv.
Context `{HostNaN} {M : Type} `{ML : CpuMemoryLaws M}.

Definition machine_ok (mc : Machine M) : Prop := cpu_ok (mc_cpu mc) /\ mem_ok (mc_mem mc).

Definition outcome_ok {A} (Q : A -> Prop) (o : Outcome M A) : Prop :=
  match o with
  | Done a mc => Q a /\ machine_ok mc
  | Stop _ mc => machine_ok mc
  end.

(** From a well-formed machine, [e] ends in one and returns a value in [Q]. *)
Definition exec_inv {A} (Q : A -> Prop) (e : Exec M A) : Prop :=
  ∀ mc, machine_ok mc -> outcome_ok Q (e mc).

Lemma inv_ret {A} (Q : A -> Prop) a : Q a -> exec_inv Q (mret a).
Proof. intros Ha mc Hmc. done. Qed.
Lemma inv_bind {A B} (P : A -> Prop) (Q : B -> Prop) (e : Exec M A) f :
  exec_inv P e -> (∀ a, P a -> exec_inv Q (f a)) -> exec_inv Q (e ≫= f).
Proof.
  intros He Hf mc Hmc. specialize (He mc Hmc). unfold mbind, Exec_bind.
  destruct (e mc) as [a mc'|r mc']; [|done]. destruct He. by apply Hf.
Qed.
Lemma inv_gets {A} (Q : A -> Prop) f : (∀ st, cpu_ok st -> Q (f st)) -> exec_inv Q (gets f).
Proof. intros Hf mc [Hc Hm]. split; [by apply Hf | done]. Qed.
Lemma inv_modify f : (∀ st, cpu_ok st -> cpu_ok (f st)) ->
  exec_inv (fun _ => True) (modify f).
Proof. intros Hf mc [Hc Hm]. split; [done|]. split; [by apply Hf | done]. Qed.
Lemma inv_when b e : exec_inv (fun _ => True) e -> exec_inv (fun _ => True) (when b e).
Proof. intros He. destruct b; [done | by apply inv_ret]. Qed.
Lemma inv_failInvalid {A} (Q : A -> Prop) m : exec_inv Q (failInvalid m).
Proof. intros mc [Hc Hm]. split; [destruct Hc; by constructor | done]. Qed.
Lemma inv_failBus {A} (Q : A -> Prop) f m : exec_inv Q (failBus f m).
Proof. intros mc Hmc. done. Qed.
Lemma inv_failWith {A} (Q : A -> Prop) r m : exec_inv Q (failWith r m).
Proof. intros mc Hmc. done. Qed.
Lemma inv_branch t m : is_u32 t -> exec_inv (fun _ => True) (branch_or_fail t m).
Proof.
  intros Ht mc [Hc Hm]. unfold branch_or_fail.
  destruct (branchWritePc t (mc_cpu mc)) as [b st] eqn:E.
  apply cpu_ok_branchWritePc in E; [|done..].
  destruct b; [done|]. by apply inv_failInvalid.
Qed.
Lemma inv_access {A} (Q : A -> Prop) op m :
  (∀ mem r mem', mem_ok mem -> op mem = (r, mem') ->
    mem_ok mem' /\ match r with inl v => Q v | inr _ => True end) ->
  exec_inv Q (access op m).
Proof.
  intros Hop mc [Hc Hm]. unfold access. destruct (op (mc_mem mc)) as [r mem'] eqn:E.
  destruct (Hop _ _ _ Hm E) as [Hm' Hr]. destruct r; done.
Qed.

Lemma inv_read32 a c m : exec_inv is_u32 (access (read32 a c) m).
Proof.
  apply inv_access. intros mem r mem' Hm E. pose proof (read32_ok a c mem Hm) as Hok.
  rewrite E in Hok. split; [done|]. destruct r; [|done]. exact (read32_range _ _ _ _ _ Hm E).
Qed.
Lemma inv_read16 a c m : exec_inv is_u16 (access (read16 a c) m).
Proof.
  apply inv_access. intros mem r mem' Hm E. pose proof (read16_ok a c mem Hm) as Hok.
  rewrite E in Hok. split; [done|]. destruct r; [|done]. exact (read16_range _ _ _ _ _ Hm E).
Qed.
Lemma inv_read8 a c m : exec_inv is_u8 (access (read8 a c) m).
Proof.
  apply inv_access. intros mem r mem' Hm E. pose proof (read8_ok a c mem Hm) as Hok.
  rewrite E in Hok. split; [done|]. destruct r; [|done]. exact (read8_range _ _ _ _ _ Hm E).
Qed.
Lemma inv_write32 a v c m : exec_inv (fun _ => True) (access (write32 a v c) m).
Proof.
  apply inv_access. intros mem r mem' Hm E. pose proof (write32_ok a v c mem Hm) as Hok.
  rewrite E in Hok. by destruct r.
Qed.
Lemma inv_write16 a v c m : exec_inv (fun _ => True) (access (write16 a v c) m).
Proof.
  apply inv_access. intros mem r mem' Hm E. pose proof (write16_ok a v c mem Hm) as Hok.
  rewrite E in Hok. by destruct r.
Qed.
Lemma inv_write8 a v c m : exec_inv (fun _ => True) (access (write8 a v c) m).
Proof.
  apply inv_access. intros mem r mem' Hm E. pose proof (write8_ok a v c mem Hm) as Hok.
  rewrite E in Hok. by destruct r.
Qed.
Lemma inv_weaken {A} (P Q : A -> Prop) e : (∀ a, P a -> Q a) -> exec_inv P e -> exec_inv Q e.
Proof.
  intros HPQ He mc Hmc. specialize (He mc Hmc). destruct (e mc); [|done].
  destruct He; split; auto.
Qed.

(** *** The memory cases *)

Lemma displace_range op b o : is_u32 (displace op b o).
Proof. unfold displace. destruct (di_add op); apply u32_range. Qed.
Lemma mem_base_range op st : cpu_ok st -> is_u32 (mem_base op st).
Proof. intros. unfold mem_base. u32_auto. Qed.
Lemma block_final_range op count b : is_u32 b -> is_u32 (block_final op count b).
Proof. intros. unfold block_final, block_start. repeat case_match_goal; u32_auto. Qed.
Lemma write_loaded_ok regs values st : Forall is_u32 values -> cpu_ok st ->
  cpu_ok (write_loaded regs values st).
Proof.
  revert values st. induction regs as [|r regs IH]; intros values st Hv Hst; simpl; [done|].
  destruct values as [|v values]; [done|]. inversion_clear Hv.
  apply IH; [done|]. destruct (r =? 15); eauto with fil.
Qed.
Lemma sign_extend8_range v : is_u8 v -> is_u32 (sign_extend8 v).
Proof. intros. unfold sign_extend8. u32_auto. Qed.
Lemma sign_extend16_range v : is_u16 v -> is_u32 (sign_extend16 v).
Proof. intros. unfold sign_extend16. u32_auto. Qed.

#[local] Abbreviation ok := (exec_inv (fun _ => True)).
Local Hint Resolve displace_range mem_base_range block_final_range sign_extend8_range
  sign_extend16_range : fil.

Lemma inv_mov op : op_ok op -> ok (exec_mov op).
Proof.
  intros Hop. eapply inv_bind with (P := fun s => is_u32 (sr_value s)).
  { apply inv_gets. eauto with fil. }
  intros s Hs. eapply inv_bind with (P := fun _ => True).
  - destruct (di_rd op =? 15); [by apply inv_branch|]. apply inv_modify. eauto with fil.
  - intros _ _. apply inv_modify. intros. apply cpu_ok_when_flags; eauto with fil.
Qed.

Lemma inv_load_pc v m : is_u32 v -> ok (load_pc v m).
Proof.
  intros. unfold load_pc. destruct (isExceptionReturn v); [|by apply inv_branch].
  apply inv_modify. intros st [] . by constructor.
Qed.

(** Steps through a computation whose intermediate values need no bound. *)
Ltac inv_any := eapply inv_bind with (P := fun _ => True); [by apply inv_gets|intros ? _].

Lemma inv_writeback op (a : Z) : is_u32 a ->
  ok (when (di_writeback op) (modify (writeRegister (di_rn op) a))).
Proof. intros. apply inv_when, inv_modify. eauto with fil. Qed.

Lemma inv_ldr op : op_ok op -> ok (exec_ldr op).
Proof.
  intros Hop. eapply inv_bind with (P := is_u32).
  { apply inv_gets. intros. apply displace_range. }
  intros wb Hwb. inv_any. inv_any. eapply inv_bind; [apply inv_read32|]. intros v Hv.
  eapply inv_bind with (P := fun _ => True); [|intros; by apply inv_writeback].
  destruct (di_rd op =? 15); [by apply inv_load_pc|]. apply inv_modify. eauto with fil.
Qed.

Lemma inv_store_by_kind k a v c : exec_inv (fun _ => True) (store_by_kind k a v c).
Proof. destruct k; (apply inv_write32 || apply inv_write16 || apply inv_write8). Qed.
Lemma inv_load_by_kind k a c : exec_inv is_u32 (load_by_kind k a c).
Proof.
  assert (exec_inv is_u32 (access (read16 a c) "halfword load failed")).
  { eapply inv_weaken, inv_read16. eauto with fil. }
  destruct k; try done.
  - eapply inv_weaken, inv_read8. eauto with fil.
  - eapply inv_bind; [apply inv_read8|]. intros. apply inv_ret. eauto with fil.
  - eapply inv_bind; [apply inv_read16|]. intros. apply inv_ret. eauto with fil.
Qed.

Lemma inv_load_store op : op_ok op -> ok (exec_load_store op).
Proof.
  intros Hop. eapply inv_bind with (P := is_u32).
  { apply inv_gets. intros. apply displace_range. }
  intros wb Hwb. inv_any.
  eapply inv_bind with (P := fun _ => True); [|intros; by apply inv_writeback].
  destruct (isStore (di_kind op)).
  - inv_any. inv_any. eapply inv_bind; [apply inv_store_by_kind|]. intros. by apply inv_ret.
  - inv_any. eapply inv_bind; [apply inv_load_by_kind|]. intros v Hv.
    destruct (di_rd op =? 15); [by apply inv_branch|]. apply inv_modify. eauto with fil.
Qed.

Lemma inv_ldrd_strd op : op_ok op -> ok (exec_ldrd_strd op).
Proof.
  intros Hop. inv_any. cbv zeta.
  eapply inv_bind with (P := fun _ => True); [|intros; apply inv_writeback, displace_range].
  destruct (kind_eqb (di_kind op) InstrKind.ldrd).
  - inv_any. eapply inv_bind; [apply inv_read32|]. intros v Hv.
    eapply inv_bind; [apply inv_read32|]. intros w Hw.
    eapply inv_bind; [apply inv_modify; eauto with fil|]. intros.
    apply inv_modify. eauto with fil.
  - inv_any. inv_any. eapply inv_bind; [apply inv_write32|]. intros. inv_any.
    eapply inv_bind; [apply inv_write32|]. intros. by apply inv_ret.
Qed.

Lemma inv_load_multiple regs a c : exec_inv (Forall is_u32) (load_multiple regs a c).
Proof.
  revert a. induction regs as [|r regs IH]; intros a; simpl; [by apply inv_ret|].
  eapply inv_bind; [apply inv_read32|]. intros v Hv.
  eapply inv_bind; [apply IH|]. intros vs Hvs. apply inv_ret. by constructor.
Qed.
Lemma inv_store_multiple regs a c : ok (store_multiple regs a c).
Proof.
  revert a. induction regs as [|r regs IH]; intros a; simpl; [by apply inv_ret|].
  inv_any. eapply inv_bind; [apply inv_write32|]. intros. apply IH.
Qed.

Lemma inv_block op : op_ok op -> ok (exec_block op).
Proof.
  intros Hop. unfold exec_block. cbv zeta. eapply inv_bind with (P := is_u32).
  { apply inv_gets. eauto with fil. }
  intros base Hbase. eapply inv_bind with (P := Forall is_u32).
  { destruct (is_block_load op); inv_any; [apply inv_load_multiple|].
    eapply inv_bind; [apply inv_store_multiple|]. intros. by apply inv_ret. }
  intros vs Hvs. eapply inv_bind with (P := fun _ => True).
  { apply inv_when, inv_modify. intros. by apply write_loaded_ok. }
  intros _ _. eapply inv_bind with (P := fun _ => True).
  { apply inv_writeback. eauto with fil. }
  intros _ _. apply inv_when, inv_load_pc. apply (Forall_default_last is_u32); [width_lia | done].
Qed.

Lemma inv_bx_blx op : op_ok op -> ok (exec_bx_blx op).
Proof.
  intros Hop. eapply inv_bind with (P := is_u32); [apply inv_gets; eauto with fil|].
  intros t Ht. eapply inv_bind with (P := fun _ => True).
  { apply inv_when, inv_modify. intros. apply cpu_ok_set_reg; [done|]. u32_auto. }
  intros _ _. destruct (_ && _); [|by apply inv_branch].
  apply inv_modify. intros st []. by constructor.
Qed.

Lemma inv_table_branch op : op_ok op -> ok (exec_table_branch op).
Proof.
  intros Hop. unfold exec_table_branch. inv_any. inv_any. cbv zeta. inv_any.
  eapply inv_bind with (P := fun _ => True).
  { destruct (kind_eqb _ _); eapply inv_weaken; [|apply inv_read16| |apply inv_read8]; done. }
  intros e _. apply inv_modify. intros. apply cpu_ok_set_reg; [done|]. apply u32_range.
Qed.

Lemma inv_load_fp n first a c m : ok (load_fp n first a c m).
Proof.
  revert first a. induction n as [|n IH]; intros first a; simpl; [by apply inv_ret|].
  eapply inv_bind; [apply inv_read32|]. intros v Hv.
  eapply inv_bind; [apply inv_modify; eauto with fil|]. intros. apply IH.
Qed.
Lemma inv_store_fp n first a c m : ok (store_fp n first a c m).
Proof.
  revert first a. induction n as [|n IH]; intros first a; simpl; [by apply inv_ret|].
  inv_any. eapply inv_bind; [apply inv_write32|]. intros. apply IH.
Qed.

Lemma inv_vldr_vstr op : op_ok op -> ok (exec_vldr_vstr op).
Proof.
  intros Hop. unfold exec_vldr_vstr. inv_any. cbv zeta.
  destruct (kind_eqb _ _); inv_any; [apply inv_load_fp | apply inv_store_fp].
Qed.
Lemma inv_vldm_vstm op : op_ok op -> ok (exec_vldm_vstm op).
Proof.
  intros Hop. unfold exec_vldm_vstm. cbv zeta.
  eapply inv_bind with (P := is_u32); [apply inv_gets; eauto with fil|]. intros base Hbase.
  eapply inv_bind with (P := fun _ => True); [|intros; apply inv_writeback; eauto with fil].
  destruct (kind_eqb _ _); inv_any; [apply inv_load_fp | apply inv_store_fp].
Qed.

(** *** System cases *)

Lemma mrs_value_range sysm st v : cpu_ok st -> mrs_value sysm st = Some v -> is_u32 v.
Proof.
  intros Hst Hv. unfold mrs_value in Hv. repeat (case_match; try discriminate Hv);
    injection Hv as <-; unfold ipsr; u32_auto.
Qed.
Lemma msr_write_ok sysm v st st' : cpu_ok st -> is_u32 v ->
  msr_write sysm v st = Some st' -> cpu_ok st'.
Proof.
  intros Hst Hv Hw. unfold msr_write in Hw.
  assert (∀ m, is_u32 (v .& m)) as Hm by (intros; by apply is_u32_land_l).
  assert (cpu_ok {| st with cs_msp := v .& not32 3 |}) by cpu_ok_fields.
  assert (cpu_ok {| st with cs_psp := v .& not32 3 |}) by cpu_ok_fields.
  repeat (case_match; try discriminate Hw); injection Hw as <-; cbv zeta;
    try (repeat case_match_goal; eauto with fil); cpu_ok_fields.
Qed.

Lemma inv_mrs op : op_ok op -> ok (exec_mrs op).
Proof.
  intros Hop. eapply inv_bind with (P := fun v => ∀ x, v = Some x -> is_u32 x).
  { apply inv_gets. intros. eauto using mrs_value_range. }
  intros [v|] Hv; [|apply inv_failWith]. apply inv_modify. intros. apply cpu_ok_writeRegister; auto.
Qed.
Lemma inv_msr op : op_ok op -> ok (exec_msr op).
Proof.
  intros Hop. eapply inv_bind with (P := is_u32); [apply inv_gets; eauto with fil|].
  intros v Hv. eapply inv_bind with (P := fun r => ∀ st, r = Some st -> cpu_ok st).
  { apply inv_gets. intros. eauto using msr_write_ok. }
  intros [st|] Hs; [|apply inv_failWith]. apply inv_modify. auto.
Qed.
Lemma inv_it op : op_ok op -> ok (exec_it op).
Proof.
  intros Hop. unfold exec_it. inv_any. destruct a; [apply inv_failInvalid|].
  apply inv_modify. eauto with fil.
Qed.
Lemma inv_bkpt op : ok (exec_bkpt op).
Proof.
  eapply inv_bind; [apply inv_modify; intros st []; by constructor|].
  intros. apply inv_failWith.
Qed.

Lemma inv_stack_lazy_fp : ok (stack_lazy_fp (M := M)).
Proof.
  unfold stack_lazy_fp. inv_any. inv_any. eapply inv_bind; [apply inv_store_fp|]. intros _ _.
  inv_any. eapply inv_bind; [apply inv_write32|]. intros _ _.
  eapply inv_bind; [apply inv_write32|]. intros _ _. apply inv_modify. intros st []. by constructor.
Qed.
Lemma inv_fp_prologue op : ok (fp_prologue op).
Proof.
  apply inv_when. eapply inv_bind with (P := fun _ => True); [by intros mc Hmc|].
  intros aspen _. eapply inv_bind with (P := fun _ => True).
  { apply inv_when, inv_modify. intros. cpu_ok_fields. apply is_u32_lor; [eauto with fil | width_lia]. }
  intros _ _. inv_any. apply inv_when, inv_stack_lazy_fp.
Qed.

Lemma inv_execute_switch op : op_ok op -> ok (execute_switch op).
Proof.
  intros Hop. unfold execute_switch. destruct (register_case op) as [f|] eqn:Hf.
  { apply inv_modify. intros. eauto using register_case_ok. }
  destruct (di_kind op); try apply inv_failWith;
    auto using inv_mov, inv_ldr, inv_load_store, inv_ldrd_strd, inv_block, inv_bx_blx,
      inv_table_branch, inv_vldr_vstr, inv_vldm_vstm, inv_mrs, inv_msr, inv_it, inv_bkpt.
Qed.

Lemma inv_execute op : op_ok op -> ok (execute op).
Proof.
  intros Hop. eapply inv_bind; [apply inv_fp_prologue|]. intros. by apply inv_execute_switch.
Qed.
End inv.

(** ** Respecting the bookkeeping equivalence of the bus *)

Section proper.
Context `{HostNaN} {M : Type} `{ML : CpuMemoryLaws M}.

(** Machines that differ in bus bookkeeping at most. *)
Record mc_eqv (mc1 mc2 : Machine M) : Prop := {
  me_cpu : mc_cpu mc1 = mc_cpu mc2;
  me_mem : mem_eqv (mc_mem mc1) (mc_mem mc2);
  me_diag : mc_diag mc1 = mc_diag mc2;
}.

#[global] Instance mc_eqv_equivalence : Equivalence mc_eqv.
Proof.
  split.
  - intros mc. by constructor.
  - intros mc1 mc2 [E1 E2 E3]. by constructor.
  - intros mc1 mc2 mc3 [E1 E2 E3] [F1 F2 F3]. constructor; [congruence| |congruence].
    by etrans.
Qed.

Definition outcome_eqv {A} (o1 o2 : Outcome M A) : Prop :=
  match o1, o2 with
  | Done a mc1, Done b mc2 => a = b /\ mc_eqv mc1 mc2
  | Stop r mc1, Stop s mc2 => r = s /\ mc_eqv mc1 mc2
  | _, _ => False
  end.

#[global] Instance outcome_eqv_equivalence {A} : Equivalence (@outcome_eqv A).
Proof.
  split.
  - by intros [].
  - intros [] []; simpl; try done; intros [-> ?]; by split.
  - intros [] [] []; simpl; try done; intros [-> ?] [-> ?]; (split; [done | by etrans]).
Qed.

Definition exec_proper {A} (e : Exec M A) : Prop :=
  ∀ mc1 mc2, mc_eqv mc1 mc2 -> outcome_eqv (e mc1) (e mc2).

Lemma proper_ret {A} (a : A) : exec_proper (mret a).
Proof. intros mc1 mc2 E. by split. Qed.
Lemma proper_bind {A B} (e : Exec M A) (f : A -> Exec M B) :
  exec_proper e -> (∀ a, exec_proper (f a)) -> exec_proper (e ≫= f).
Proof.
  intros He Hf mc1 mc2 E. specialize (He mc1 mc2 E). unfold mbind, Exec_bind.
  destruct (e mc1), (e mc2); simpl in He; try done. destruct He as [-> He]. by apply Hf.
Qed.
Lemma proper_gets {A} (f : CpuState -> A) : exec_proper (gets f).
Proof. intros mc1 mc2 E. split; [by rewrite (me_cpu _ _ E) | done]. Qed.
Lemma proper_modify f : exec_proper (modify f).
Proof. intros mc1 mc2 [E1 E2 E3]. split; [done|]. constructor; simpl; by rewrite ?E1. Qed.
Lemma proper_when b e : exec_proper e -> exec_proper (when b e).
Proof. intros. destruct b; [done | apply proper_ret]. Qed.
Lemma proper_failInvalid {A} m : exec_proper (failInvalid (A := A) m).
Proof.
  intros mc1 mc2 [E1 E2 E3]. split; [done|].
  constructor; cbn [mc_cpu mc_mem mc_diag with_cpu set_failure]; by rewrite ?E1, ?E3.
Qed.
Lemma proper_failBus {A} f m : exec_proper (failBus (A := A) f m).
Proof.
  intros mc1 mc2 [E1 E2 E3]. split; [done|].
  constructor; cbn [mc_cpu mc_mem mc_diag set_failure]; by rewrite ?E1, ?E3.
Qed.
Lemma proper_failWith {A} r m : exec_proper (failWith (A := A) r m).
Proof.
  intros mc1 mc2 [E1 E2 E3]. split; [done|].
  constructor; cbn [mc_cpu mc_mem mc_diag set_failure]; by rewrite ?E1, ?E3.
Qed.
Lemma mc_eqv_with_cpu st mc1 mc2 : mc_eqv mc1 mc2 -> mc_eqv (with_cpu st mc1) (with_cpu st mc2).
Proof. intros []. by constructor. Qed.
Lemma mc_eqv_with_mem m1 m2 mc1 mc2 : mem_eqv m1 m2 -> mc_eqv mc1 mc2 ->
  mc_eqv (with_mem m1 mc1) (with_mem m2 mc2).
Proof. intros ? []. by constructor. Qed.
Lemma proper_branch t m : exec_proper (branch_or_fail t m).
Proof.
  intros mc1 mc2 E. unfold branch_or_fail. rewrite (me_cpu _ _ E).
  destruct (branchWritePc t (mc_cpu mc2)) as [[] st].
  - split; [done | by apply mc_eqv_with_cpu].
  - by apply proper_failInvalid, mc_eqv_with_cpu.
Qed.
Lemma proper_access {A} (op : M -> MemoryResult A * M) m :
  Proper (mem_eqv ==> res_rel mem_eqv) op -> exec_proper (access op m).
Proof.
  intros Hop mc1 mc2 E. unfold access. destruct (Hop _ _ (me_mem _ _ E)) as [H1 H2].
  destruct (op (mc_mem mc1)) as [r1 m1], (op (mc_mem mc2)) as [r2 m2]; simpl in *; subst r2.
  destruct r1.
  - split; [done | by apply mc_eqv_with_mem].
  - by apply proper_failBus, mc_eqv_with_mem.
Qed.
Lemma proper_aspen : exec_proper aspen_enabled.
Proof.
  intros mc1 mc2 E. split; [|done]. by rewrite (system_fpccr_proper _ _ (me_mem _ _ E)).
Qed.

(** Decomposes a computation down to the primitives above. *)
Ltac proper_step :=
  first
    [ apply proper_ret | apply proper_gets | apply proper_modify | apply proper_failInvalid
    | apply proper_failBus | apply proper_failWith | apply proper_branch | apply proper_aspen
    | apply proper_access; apply _
    | apply proper_when | apply proper_bind; [|intros ?]
    | match goal with |- exec_proper (if ?b then _ else _) => destruct b end ].
Ltac proper_auto := cbv zeta; repeat proper_step.

Existing Instances read8_proper read16_proper read32_proper write8_proper write16_proper
  write32_proper.

Lemma proper_load_pc v m : exec_proper (load_pc v m).
Proof. unfold load_pc. proper_auto. Qed.
Lemma proper_load_multiple regs a c : exec_proper (load_multiple regs a c).
Proof. revert a. induction regs; intros; simpl; proper_auto. auto. Qed.
Lemma proper_store_multiple regs a c : exec_proper (store_multiple regs a c).
Proof. revert a. induction regs; intros; simpl; proper_auto. auto. Qed.
Lemma proper_load_fp n f a c m : exec_proper (load_fp n f a c m).
Proof. revert f a. induction n; intros; simpl; proper_auto. auto. Qed.
Lemma proper_store_fp n f a c m : exec_proper (store_fp n f a c m).
Proof. revert f a. induction n; intros; simpl; proper_auto. auto. Qed.
Lemma proper_store_by_kind k a v c : exec_proper (store_by_kind k a v c).
Proof. destruct k; simpl; proper_auto. Qed.
Lemma proper_load_by_kind k a c : exec_proper (load_by_kind k a c).
Proof. destruct k; simpl; proper_auto. Qed.
Local Hint Resolve proper_load_pc proper_load_multiple proper_store_multiple proper_load_fp
  proper_store_fp proper_store_by_kind proper_load_by_kind : fil.

Lemma proper_execute_switch op : exec_proper (execute_switch op).
Proof.
  unfold execute_switch. destruct (register_case op); [apply proper_modify|].
  destruct (di_kind op);
    unfold exec_mov, exec_ldr, exec_load_store, exec_ldrd_strd, exec_block, exec_bx_blx,
      exec_table_branch, exec_vldr_vstr, exec_vldm_vstm, exec_mrs, exec_msr, exec_it,
      exec_bkpt;
    proper_auto; eauto with fil;
    match goal with |- exec_proper (match ?v with _ => _ end) => destruct v end; proper_auto.
Qed.

Lemma proper_execute op : exec_proper (execute op).
Proof.
  unfold execute, fp_prologue, stack_lazy_fp. proper_auto; eauto using proper_execute_switch with fil.
Qed.
End proper.
