(* ===== verification/JitFast.v ===== *)
(** * The inlined fast handlers of the stepper

    Models [CortexM4::classifyJitFast] and [CortexM4::executeJitFast] of
    [src/cpu/cortex_m4.cpp] and the block-boundary planner of [src/cpu/jit.cpp].  A fast
    handler either retires the instruction on its own ([true]) or declines ([false]) so that
    the checked executor runs it.  Bodies that the source repeats verbatim from [execute] are
    the same definitions here; bodies it rewrites (flag packing, branch targets, bulk memory
    transfers) are written out again and proved equal in [JitFastProofs]. *)

From S2P Require Import Prelude Address Instruction CpuState MemoryApi Machine Float32 Execute.
#[local] Open Scope Z_scope.
#[local] Open Scope fil_scope.

Module JitFast.
Inductive t : Type :=
  | generic | nop | b | bl | cbz | cbnz | mov_imm | mov_reg | movw | movt | add_imm | add_reg
  | sub_imm | sub_reg | cmp_imm | cmp_reg | logic_reg | mul_reg | mla_mls | long_mul
  | alu_single | alu_rsb_tst | dsp_extend | shift | bx_blx | divide | pop_pc | ldr_imm
  | str_imm | ldr_sub | str_sub | ldrd_strd | push_pop | ldm_stm | ldr_word_gpr
  | str_word_gpr.
#[export] Instance eq_dec : EqDecision t.
Proof. solve_decision. Defined.
End JitFast.
Export (hints) JitFast.

(** ** Classification *)

Definition no_pc_operands (op : DecodedInstruction) : bool :=
  negb (di_rd op =? 15) && negb (di_rn op =? 15) && negb (di_rm op =? 15).

(** The positive-immediate word transfers between ordinary registers. *)
Definition is_word_gpr (op : DecodedInstruction) : bool :=
  form_is_immediate op && (di_rn op <? 13) && (di_rd op <? 13) && di_index op && di_add op
  && negb (di_writeback op).

Definition is_direct_form (op : DecodedInstruction) : bool :=
  match di_form op with
  | OperandForm.immediate | OperandForm.register_value | OperandForm.literal => true
  | _ => false
  end.

(** [immediate -> a, register_value -> b, else generic]. *)
Definition by_form (op : DecodedInstruction) (imm reg : JitFast.t) : JitFast.t :=
  match di_form op with
  | OperandForm.immediate => imm
  | OperandForm.register_value => reg
  | _ => JitFast.generic
  end.

Definition or_generic (b : bool) (fast : JitFast.t) : JitFast.t :=
  if b then fast else JitFast.generic.

Definition classifyJitFast (op : DecodedInstruction) : JitFast.t :=
  match di_kind op with
  | InstrKind.nop => JitFast.nop
  | InstrKind.b => JitFast.b
  | InstrKind.bl => JitFast.bl
  | InstrKind.cbz => JitFast.cbz
  | InstrKind.cbnz => JitFast.cbnz
  | InstrKind.bx => JitFast.bx_blx
  | InstrKind.mov =>
      if (di_rd op =? 15) || (di_rm op =? 15) then JitFast.generic
      else by_form op JitFast.mov_imm JitFast.mov_reg
  | InstrKind.movw => or_generic (negb (di_rd op =? 15)) JitFast.movw
  | InstrKind.movt => or_generic (negb (di_rd op =? 15)) JitFast.movt
  | InstrKind.add | InstrKind.adc =>
      if di_rd op =? 15 then JitFast.generic else by_form op JitFast.add_imm JitFast.add_reg
  | InstrKind.sub | InstrKind.sbc =>
      if di_rd op =? 15 then JitFast.generic else by_form op JitFast.sub_imm JitFast.sub_reg
  | InstrKind.cmp | InstrKind.cmn => by_form op JitFast.cmp_imm JitFast.cmp_reg
  | InstrKind.and_ | InstrKind.orr | InstrKind.eor | InstrKind.bic | InstrKind.mvn
  | InstrKind.orn => or_generic (form_is_register op && no_pc_operands op) JitFast.logic_reg
  | InstrKind.mul => or_generic (form_is_register op && no_pc_operands op) JitFast.mul_reg
  | InstrKind.udiv | InstrKind.sdiv => or_generic (no_pc_operands op) JitFast.divide
  | InstrKind.mla | InstrKind.mls => or_generic (form_is_register op) JitFast.mla_mls
  | InstrKind.umull | InstrKind.smull => or_generic (form_is_register op) JitFast.long_mul
  | InstrKind.rsb | InstrKind.tst =>
      or_generic (form_is_immediate op || form_is_register op) JitFast.alu_rsb_tst
  | InstrKind.clz | InstrKind.rev | InstrKind.rev16 | InstrKind.revsh => JitFast.alu_single
  | InstrKind.bfc | InstrKind.ubfx | InstrKind.sxtb | InstrKind.sxth | InstrKind.uxtb
  | InstrKind.uxth | InstrKind.uadd8 | InstrKind.sel => JitFast.dsp_extend
  | InstrKind.lsl | InstrKind.lsr | InstrKind.asr | InstrKind.ror | InstrKind.rrx =>
      or_generic (no_pc_operands op && (form_is_immediate op || form_is_register op))
        JitFast.shift
  | InstrKind.ldr =>
      if is_word_gpr op then JitFast.ldr_word_gpr
      else or_generic (is_direct_form op && negb (di_rd op =? 15)) JitFast.ldr_imm
  | InstrKind.str =>
      if is_word_gpr op then JitFast.str_word_gpr
      else or_generic (is_direct_form op && negb (di_rd op =? 15)) JitFast.str_imm
  | InstrKind.ldrb | InstrKind.ldrh | InstrKind.ldrsb | InstrKind.ldrsh =>
      or_generic (is_direct_form op && negb (di_rd op =? 15)) JitFast.ldr_sub
  | InstrKind.strb | InstrKind.strh =>
      or_generic (is_direct_form op && negb (di_rd op =? 15)) JitFast.str_sub
  | InstrKind.ldrd | InstrKind.strd => or_generic (is_direct_form op) JitFast.ldrd_strd
  | InstrKind.push | InstrKind.pop =>
      if Z.testbit (di_register_list op) 15 then JitFast.pop_pc else JitFast.push_pop
  | InstrKind.ldm | InstrKind.stm =>
      if Z.testbit (di_register_list op) 15 then JitFast.pop_pc else JitFast.ldm_stm
  | _ => JitFast.generic
  end.

(** ** Block boundaries ([src/cpu/jit.cpp]) *)

Module JitBoundary.
Inductive t : Type :=
  | none | memory_may_trap | control_flow | exception_or_system | floating_point
  | unsupported.
#[export] Instance eq_dec : EqDecision t.
Proof. solve_decision. Defined.
End JitBoundary.
Export (hints) JitBoundary.

Definition classifyJitBoundary (instruction : DecodedInstruction) : JitBoundary.t :=
  match di_kind instruction with
  | InstrKind.mov | InstrKind.add | InstrKind.adc | InstrKind.sub | InstrKind.sbc
  | InstrKind.movw | InstrKind.movt =>
      if di_rd instruction =? 15 then JitBoundary.control_flow else JitBoundary.none
  | InstrKind.rsb | InstrKind.cmp | InstrKind.cmn | InstrKind.tst | InstrKind.and_
  | InstrKind.orr | InstrKind.eor | InstrKind.bic | InstrKind.mvn | InstrKind.orn
  | InstrKind.mul | InstrKind.mla | InstrKind.mls | InstrKind.umull | InstrKind.smull
  | InstrKind.udiv | InstrKind.sdiv | InstrKind.clz | InstrKind.bfc | InstrKind.ubfx
  | InstrKind.sxtb | InstrKind.sxth | InstrKind.uxtb | InstrKind.uxth | InstrKind.rev
  | InstrKind.rev16 | InstrKind.revsh | InstrKind.uadd8 | InstrKind.sel | InstrKind.lsl
  | InstrKind.lsr | InstrKind.asr | InstrKind.ror | InstrKind.rrx | InstrKind.nop =>
      JitBoundary.none
  | InstrKind.ldr | InstrKind.str | InstrKind.ldrb | InstrKind.strb | InstrKind.ldrh
  | InstrKind.strh | InstrKind.ldrsb | InstrKind.ldrsh | InstrKind.ldrd | InstrKind.strd
  | InstrKind.ldm | InstrKind.stm | InstrKind.push | InstrKind.pop =>
      if di_rd instruction =? 15 then JitBoundary.control_flow
      else if is_block_load instruction && Z.testbit (di_register_list instruction) 15
      then JitBoundary.control_flow
      else JitBoundary.memory_may_trap
  | InstrKind.b | InstrKind.bl | InstrKind.bx | InstrKind.blx | InstrKind.cbz
  | InstrKind.cbnz => JitBoundary.control_flow
  | InstrKind.tbb | InstrKind.tbh | InstrKind.it | InstrKind.dmb | InstrKind.dsb
  | InstrKind.isb | InstrKind.svc | InstrKind.mrs | InstrKind.msr | InstrKind.cps
  | InstrKind.wfi | InstrKind.wfe | InstrKind.sev | InstrKind.bkpt =>
      JitBoundary.exception_or_system
  | InstrKind.undefined => JitBoundary.unsupported
  | _ => JitBoundary.floating_point
  end.

Record JitBlockPlan := mkJitBlockPlan {
  plan_translated_instructions : nat;
  plan_boundary : JitBoundary.t;
  plan_ends_with_branch : bool;
}.

(** The planning loop over the remaining instructions, [limit] of them at most. *)
Fixpoint planJitBlock_loop (instructions : list DecodedInstruction) (limit : nat)
    (plan : JitBlockPlan) : JitBlockPlan :=
  match instructions, limit with
  | op :: rest, S limit =>
      let n := S (plan_translated_instructions plan) in
      match classifyJitBoundary op with
      | JitBoundary.control_flow => mkJitBlockPlan n JitBoundary.control_flow true
      | JitBoundary.memory_may_trap | JitBoundary.none =>
          planJitBlock_loop rest limit
            {| plan with plan_translated_instructions := n |}
      | boundary => {| plan with plan_boundary := boundary |}
      end
  | _, _ => plan
  end.

Definition planJitBlock (instructions : list DecodedInstruction)
    (maximum_instructions : nat) : JitBlockPlan :=
  planJitBlock_loop instructions maximum_instructions
    (mkJitBlockPlan 0 JitBoundary.none false).

(** ** Register-only handlers *)

(** [uint32(int64(pc) + 4 + branch_offset) & ~1]. *)
Definition jit_branch_target (op : DecodedInstruction) (pc : Z) : Z :=
  u32 (pc + 4 + di_branch_offset op) .& not32 1.

Definition jit_bl (op : DecodedInstruction) (pc : Z) (st : CpuState) : CpuState :=
  set_reg 15 (jit_branch_target op pc) (set_reg 14 (reg st 15 .| 1) st).

Definition jit_cbz_cbnz (fast : JitFast.t) (op : DecodedInstruction) (pc : Z)
    (st : CpuState) : CpuState :=
  let zero := readRegister st (di_rn op) =? 0 in
  let take := if bool_decide (fast = JitFast.cbz) then zero else negb zero in
  if take then set_reg 15 (u32 (pc + 4 + di_imm op) .& not32 1) st else st.

Definition jit_mov_reg (op : DecodedInstruction) (st : CpuState) : CpuState :=
  let shifted := shiftedRm op st in
  when_flags (di_set_flags op) (jitSetNzc (sr_value shifted) (sr_carry shifted))
    (writeRegister (di_rd op) (sr_value shifted) st).

Definition jit_mov_imm (op : DecodedInstruction) (st : CpuState) : CpuState :=
  let st := writeRegister (di_rd op) (di_imm op) st in
  when_flags (di_set_flags op)
    (fun st =>
       let carry := if di_immediate_carry_valid op then di_immediate_carry op
                    else carryFlag st in
       jitSetNzc (di_imm op) carry st) st.

Definition jit_add_sub (fast : JitFast.t) (op : DecodedInstruction) (st : CpuState)
    : CpuState :=
  let left := readRegister st (di_rn op) in
  let left := if (di_rn op =? 15) && form_is_immediate op then left .& not32 3 else left in
  let subtract := bool_decide (fast = JitFast.sub_imm) || bool_decide (fast = JitFast.sub_reg) in
  let right := if bool_decide (fast = JitFast.add_reg) || bool_decide (fast = JitFast.sub_reg)
               then sr_value (shiftedRm op st) else di_imm op in
  let carry_in :=
    if kind_eqb (di_kind op) InstrKind.adc || kind_eqb (di_kind op) InstrKind.sbc
    then carryFlag st else subtract in
  let '(value, st) :=
    jitAdd left (if subtract then not32 right else right) carry_in (di_set_flags op) st in
  writeRegister (di_rd op) value st.

Definition jit_cmp (fast : JitFast.t) (op : DecodedInstruction) (st : CpuState) : CpuState :=
  let left := readRegister st (di_rn op) in
  let right := if bool_decide (fast = JitFast.cmp_reg)
               then sr_value (shiftedRm op st) else di_imm op in
  let is_cmp := kind_eqb (di_kind op) InstrKind.cmp in
  snd (jitAdd left (if is_cmp then not32 right else right) is_cmp true st).

Definition jit_logic (op : DecodedInstruction) (st : CpuState) : CpuState :=
  let left := readRegister st (di_rn op) in
  let shifted := shiftedRm op st in
  let value := logic_value (di_kind op) left (sr_value shifted) in
  when_flags (di_set_flags op) (jitSetNzc value (sr_carry shifted))
    (writeRegister (di_rd op) value st).

Definition jit_mul (op : DecodedInstruction) (st : CpuState) : CpuState :=
  let value := u32 (u64 (readRegister st (di_rn op) * readRegister st (di_rm op))) in
  when_flags (di_set_flags op) (jitSetNz value) (writeRegister (di_rd op) value st).

Definition jit_shift (op : DecodedInstruction) (st : CpuState) : CpuState :=
  let immediate := form_is_immediate op in
  let value := if immediate then readRegister st (di_rm op) else readRegister st (di_rn op) in
  let amount := if immediate then di_shift_amount op
                else readRegister st (di_rm op) .& 0xff in
  let shifted := shiftC value (di_shift_type op) amount (carryFlag st) in
  when_flags (di_set_flags op) (jitSetNzc (sr_value shifted) (sr_carry shifted))
    (writeRegister (di_rd op) (sr_value shifted) st).

Definition jit_rsb_tst (op : DecodedInstruction) (st : CpuState) : CpuState :=
  let shifted :=
    if form_is_register op then shiftedRm op st
    else mkShiftResult (di_imm op)
           (if di_immediate_carry_valid op then di_immediate_carry op else carryFlag st) in
  if kind_eqb (di_kind op) InstrKind.tst then
    let value := readRegister st (di_rn op) .& sr_value shifted in
    jitSetNzc value (sr_carry shifted) st
  else
    let left := if form_is_immediate op then di_imm op
                else if di_is_32bit op then sr_value shifted else 0 in
    let right := if form_is_immediate op then readRegister st (di_rn op)
                 else if di_is_32bit op then readRegister st (di_rn op)
                 else readRegister st (di_rm op) in
    let '(value, st) := jitAdd left (not32 right) true (di_set_flags op) st in
    writeRegister (di_rd op) value st.

Definition jit_alu_single (op : DecodedInstruction) : CpuState -> CpuState :=
  match di_kind op with
  | InstrKind.clz => alu_clz op
  | InstrKind.rev => alu_rev op
  | InstrKind.rev16 => alu_rev16 op
  | _ => alu_revsh op
  end.

Definition jit_extend (op : DecodedInstruction) (st : CpuState) : CpuState :=
  let rotated := rotr32 (readRegister st (di_rm op)) (di_shift_amount op) in
  let k := di_kind op in
  let is_byte := kind_eqb k InstrKind.uxtb || kind_eqb k InstrKind.sxtb in
  let is_signed := kind_eqb k InstrKind.sxtb || kind_eqb k InstrKind.sxth in
  let value := if is_byte then rotated .& 0xff else rotated .& 0xffff in
  let sign := if is_byte then 0x80 else 0x8000 in
  let value := if is_signed && has value sign
               then value .| (if is_byte then 0xffffff00 else 0xffff0000) else value in
  writeRegister (di_rd op) value st.

Definition jit_dsp_extend (op : DecodedInstruction) : CpuState -> CpuState :=
  match di_kind op with
  | InstrKind.bfc => alu_bfc op
  | InstrKind.ubfx => alu_ubfx op
  | InstrKind.uxtb | InstrKind.uxth | InstrKind.sxtb | InstrKind.sxth => jit_extend op
  | InstrKind.uadd8 => alu_uadd8 op
  | _ => alu_sel op
  end.

(** The handlers that always retire and touch registers only. *)
Definition jit_register_case (op : DecodedInstruction) (fast : JitFast.t) (pc : Z)
    : option (CpuState -> CpuState) :=
  match fast with
  | JitFast.nop => Some (fun st => st)
  | JitFast.b => Some (fun st => set_reg 15 (jit_branch_target op pc) st)
  | JitFast.bl => Some (jit_bl op pc)
  | JitFast.cbz | JitFast.cbnz => Some (jit_cbz_cbnz fast op pc)
  | JitFast.mov_reg => Some (jit_mov_reg op)
  | JitFast.mov_imm => Some (jit_mov_imm op)
  | JitFast.movw => Some (writeRegister (di_rd op) (di_imm op))
  | JitFast.movt => Some (alu_movt op)
  | JitFast.add_reg | JitFast.sub_reg | JitFast.add_imm | JitFast.sub_imm =>
      Some (jit_add_sub fast op)
  | JitFast.cmp_imm | JitFast.cmp_reg => Some (jit_cmp fast op)
  | JitFast.logic_reg => Some (jit_logic op)
  | JitFast.mul_reg => Some (jit_mul op)
  | JitFast.divide =>
      Some (if kind_eqb (di_kind op) InstrKind.udiv then alu_udiv op else alu_sdiv op)
  | JitFast.shift => Some (jit_shift op)
  | JitFast.mla_mls => Some (alu_mla_mls op)
  | JitFast.long_mul =>
      Some (if kind_eqb (di_kind op) InstrKind.umull then alu_umull op else alu_smull op)
  | JitFast.alu_rsb_tst => Some (jit_rsb_tst op)
  | JitFast.alu_single => Some (jit_alu_single op)
  | JitFast.dsp_extend => Some (jit_dsp_extend op)
  | _ => None
  end.

(** ** Branch-exchange and memory handlers *)

Section handlers.
Context `{CpuMemory M}.

(** A handler returns whether it retired, with the core and the bus after it. *)
Definition Handled : Type := bool * CpuState * M.

Definition jit_bx (op : DecodedInstruction) (st : CpuState) (m : M) : Handled :=
  let target := readRegister st (di_rm op) in
  if kind_eqb (di_kind op) InstrKind.bx && isExceptionReturn target
  then (true, {| st with cs_pending_exc_return := Some target |}, m)
  else let '(branched, st) := branchWritePc target st in (branched, st, m).

Definition read_context (pc : Z) : AccessContext := mkAccessContext AccessType.data_read pc.
Definition write_context (pc : Z) : AccessContext := mkAccessContext AccessType.data_write pc.

Definition jit_block_writeback (op : DecodedInstruction) (count base : Z) (st : CpuState)
    : CpuState :=
  if di_writeback op then writeRegister (di_rn op) (block_final op count base) st else st.

Definition jit_pop_pc (op : DecodedInstruction) (pc : Z) (st : CpuState) (m : M) : Handled :=
  let count := popcount (di_register_list op) in
  let base := readRegister st (di_rn op) in
  let start := block_start op count base in
  if count =? 0 then (false, st, m)
  else
    match tryFastReadWords start count (read_context pc) m with
    | (None, m) => (false, st, m)
    | (Some dense, m) =>
        let pc_word := if Z.testbit (di_register_list op) 15
                       then default 0 (last dense) else 0 in
        let exc_return := isExceptionReturn pc_word in
        if negb exc_return && (pc_word .& 1 =? 0) then (false, st, m)
        else
          let st := write_loaded (listed (di_register_list op) 16) dense st in
          let st := jit_block_writeback op count base st in
          if exc_return
          then (true, {| st with cs_pending_exc_return := Some pc_word |}, m)
          else (true, snd (branchWritePc pc_word st), m)
    end.

Definition jit_ldr_word_gpr (op : DecodedInstruction) (pc : Z) (st : CpuState) (m : M)
    : Handled :=
  let address := u32 (reg st (di_rn op) + di_imm op) in
  match tryFastRead32 address (read_context pc) m with
  | (None, m) => (false, st, m)
  | (Some value, m) => (true, set_reg (di_rd op) value st, m)
  end.

Definition jit_str_word_gpr (op : DecodedInstruction) (pc : Z) (st : CpuState) (m : M)
    : Handled :=
  let address := u32 (reg st (di_rn op) + di_imm op) in
  let '(ok, m) := tryFastWrite32 address (reg st (di_rd op)) (write_context pc) m in
  (ok, st, m).

Definition jit_writeback (op : DecodedInstruction) (address : Z) (st : CpuState) : CpuState :=
  if di_writeback op then writeRegister (di_rn op) address st else st.

Definition jit_ldr_imm (op : DecodedInstruction) (pc : Z) (st : CpuState) (m : M) : Handled :=
  match tryFastRead32 (effective_address op st) (read_context pc) m with
  | (None, m) => (false, st, m)
  | (Some value, m) =>
      (true, jit_writeback op (offset_address op st) (writeRegister (di_rd op) value st), m)
  end.

Definition jit_str_imm (op : DecodedInstruction) (pc : Z) (st : CpuState) (m : M) : Handled :=
  match tryFastWrite32 (effective_address op st) (readRegister st (di_rd op))
          (write_context pc) m with
  | (false, m) => (false, st, m)
  | (true, m) => (true, jit_writeback op (offset_address op st) st, m)
  end.

Definition jit_ldr_sub (op : DecodedInstruction) (pc : Z) (st : CpuState) (m : M) : Handled :=
  let k := di_kind op in
  let is_byte := kind_eqb k InstrKind.ldrb || kind_eqb k InstrKind.ldrsb in
  let width := if is_byte then AccessSize.byte else AccessSize.halfword in
  match tryFastRead (effective_address op st) width (read_context pc) m with
  | (None, m) => (false, st, m)
  | (Some raw, m) =>
      let value := u32 raw in
      let value :=
        if kind_eqb k InstrKind.ldrsb && has value 0x80 then value .| 0xffffff00
        else if kind_eqb k InstrKind.ldrsh && has value 0x8000 then value .| 0xffff0000
        else value in
      (true, jit_writeback op (offset_address op st) (writeRegister (di_rd op) value st), m)
  end.

Definition jit_str_sub (op : DecodedInstruction) (pc : Z) (st : CpuState) (m : M) : Handled :=
  let width := if kind_eqb (di_kind op) InstrKind.strb
               then AccessSize.byte else AccessSize.halfword in
  match tryFastWrite (effective_address op st) width (readRegister st (di_rd op))
          (write_context pc) m with
  | (false, m) => (false, st, m)
  | (true, m) => (true, jit_writeback op (offset_address op st) st, m)
  end.

Definition jit_ldrd_strd (op : DecodedInstruction) (pc : Z) (st : CpuState) (m : M)
    : Handled :=
  let base := readRegister st (di_rn op) in
  let final := displace op base (mem_offset op st) in
  let address := if di_index op then final else base in
  if kind_eqb (di_kind op) InstrKind.ldrd then
    match tryFastReadWords address 2 (read_context pc) m with
    | (None, m) => (false, st, m)
    | (Some words, m) =>
        let st := writeRegister (di_rd op) (rget words 0) st in
        let st := writeRegister (di_ra op) (rget words 1) st in
        (true, jit_writeback op final st, m)
    end
  else
    let words := [readRegister st (di_rd op); readRegister st (di_ra op)] in
    match tryFastWriteWords address words (write_context pc) m with
    | (false, m) => (false, st, m)
    | (true, m) => (true, jit_writeback op final st, m)
    end.

Definition jit_block (fast : JitFast.t) (op : DecodedInstruction) (pc : Z) (st : CpuState)
    (m : M) : Handled :=
  let load := if bool_decide (fast = JitFast.push_pop)
              then kind_eqb (di_kind op) InstrKind.pop
              else kind_eqb (di_kind op) InstrKind.ldm in
  let count := popcount (di_register_list op) in
  let regs := listed (di_register_list op) 16 in
  let base := readRegister st (di_rn op) in
  let start := block_start op count base in
  if count =? 0 then (false, st, m)
  else if load then
    match tryFastReadWords start count (read_context pc) m with
    | (None, m) => (false, st, m)
    | (Some dense, m) =>
        (true, jit_block_writeback op count base (write_loaded regs dense st), m)
    end
  else
    match tryFastWriteWords start (map (readRegister st) regs) (write_context pc) m with
    | (false, m) => (false, st, m)
    | (true, m) => (true, jit_block_writeback op count base st, m)
    end.

Definition executeJitFast (op : DecodedInstruction) (fast : JitFast.t) (pc : Z)
    (st : CpuState) (m : M) : Handled :=
  match jit_register_case op fast pc with
  | Some f => (true, f st, m)
  | None =>
      match fast with
      | JitFast.bx_blx => jit_bx op st m
      | JitFast.pop_pc => jit_pop_pc op pc st m
      | JitFast.ldr_word_gpr => jit_ldr_word_gpr op pc st m
      | JitFast.str_word_gpr => jit_str_word_gpr op pc st m
      | JitFast.ldr_imm => jit_ldr_imm op pc st m
      | JitFast.str_imm => jit_str_imm op pc st m
      | JitFast.ldr_sub => jit_ldr_sub op pc st m
      | JitFast.str_sub => jit_str_sub op pc st m
      | JitFast.ldrd_strd => jit_ldrd_strd op pc st m
      | JitFast.push_pop | JitFast.ldm_stm => jit_block fast op pc st m
      | _ => (false, st, m)
      end
  end.
End handlers.
