(* ===== verification/JitFastProofs.v ===== *)
(** * The fast handlers refine the checked executor

    For an instruction that the classifier sends to a handler, a handler that retires leaves
    the core exactly as [execute] does and the bus equal up to bookkeeping; a handler that
    declines leaves the core untouched. *)

From S2P Require Import Prelude Address Instruction InstructionProofs DecoderProofs CpuState.
From S2P Require Import CpuStateProofs Float32 MemoryApi Machine Execute ExecuteProofs JitFast.
#[local] Open Scope Z_scope.
#[local] Open Scope fil_scope.

(** ** Flag updates commute with register writes *)

Lemma cs_xpsr_writeRegister i v st : cs_xpsr (writeRegister i v st) = cs_xpsr st.
Proof. unfold writeRegister, set_activeSp. repeat case_match_goal; done. Qed.
Lemma carryFlag_writeRegister i v st : carryFlag (writeRegister i v st) = carryFlag st.
Proof. unfold carryFlag. by rewrite cs_xpsr_writeRegister. Qed.

(** Status words with the same exception number select the same stack pointer. *)
Lemma writeRegister_set_xpsr i v x st : x .& xpsr_ipsr_mask = ipsr st ->
  writeRegister i v (set_xpsr x st) = set_xpsr x (writeRegister i v st).
Proof.
  intros Hx. unfold writeRegister, set_activeSp.
  assert (uses_msp (set_xpsr x st) = uses_msp st) as ->.
  { unfold uses_msp, inHandlerMode, ipsr in *. simpl. by rewrite Hx. }
  repeat case_match_goal; done.
Qed.

Lemma setNzcv_ipsr r st : ipsr (setNzcv r st) = ipsr st.
Proof.
  unfold ipsr, setNzcv. cbn [cs_xpsr set_xpsr].
  rewrite !if_lor, !Z.land_lor_distr_l, <- Z.land_assoc.
  change (Z.land (not32 (xpsr_n .| xpsr_z .| xpsr_c .| xpsr_v)) xpsr_ipsr_mask) with xpsr_ipsr_mask.
  destruct (ar_n r), (ar_z r), (ar_c r), (ar_v r);
    repeat match goal with |- context [Z.land ?a xpsr_ipsr_mask] =>
      lazymatch a with
      | cs_xpsr _ => fail
      | _ => change (Z.land a xpsr_ipsr_mask) with 0
      end end; by rewrite !Z.lor_0_r.
Qed.

Lemma writeRegister_setNzcv i v r st :
  writeRegister i v (setNzcv r st) = setNzcv r (writeRegister i v st).
Proof.
  pose proof (setNzcv_ipsr r st) as Hi. unfold setNzcv in *. cbv zeta in *.
  rewrite cs_xpsr_writeRegister. by apply writeRegister_set_xpsr.
Qed.

Lemma reg_set_reg i v st : cpu_ok st -> 0 <= i < 16 -> reg (set_reg i v st) i = v.
Proof.
  intros Hst Hi. unfold reg, set_reg, rget, rset. cpu_fields.
  rewrite list_lookup_insert_eq; [|rewrite ok_r_length by done; lia]. done.
Qed.
Lemma set_reg_set_reg i v w st : set_reg i v (set_reg i w st) = set_reg i v st.
Proof. unfold set_reg, rset. cpu_fields. by rewrite list_insert_insert_eq. Qed.

(** ** Register-only handlers *)

Section register_handlers.
Variables (op : DecodedInstruction) (st : CpuState).
Hypotheses (Hst : cpu_ok st) (Hop : op_ok op).

Lemma jit_branch_agrees : jit_branch_target op (cs_instruction_address st)
  = branchTarget st (di_branch_offset op) .& not32 1.
Proof. done. Qed.

Lemma jit_cbz_agrees fast : fast = (if kind_eqb (di_kind op) InstrKind.cbz
    then JitFast.cbz else JitFast.cbnz) ->
  jit_cbz_cbnz fast op (cs_instruction_address st) st = alu_cbz_cbnz op st.
Proof.
  intros ->. unfold jit_cbz_cbnz, alu_cbz_cbnz. cbv zeta.
  replace (bool_decide _) with (kind_eqb (di_kind op) InstrKind.cbz)
    by (by destruct (kind_eqb _ _)).
  destruct (if kind_eqb _ _ then _ else _); [|done].
  rewrite reg_set_reg, set_reg_set_reg by (done || lia).
  unfold architecturalPcForRead. by rewrite u32_add_l.
Qed.

Lemma jit_mov_reg_agrees : form_is_immediate op = false ->
  jit_mov_reg op st =
    let shifted := shiftedOperand op st in
    when_flags (di_set_flags op) (setNzc (sr_value shifted) (sr_carry shifted))
      (writeRegister (di_rd op) (sr_value shifted) st).
Proof.
  intros Hf. unfold jit_mov_reg, shiftedOperand. rewrite Hf. cbv zeta.
  destruct (di_set_flags op); simpl; [apply jitSetNzc_setNzc | done].
Qed.
Lemma jit_mov_imm_agrees : form_is_immediate op = true ->
  jit_mov_imm op st =
    let shifted := shiftedOperand op st in
    when_flags (di_set_flags op) (setNzc (sr_value shifted) (sr_carry shifted))
      (writeRegister (di_rd op) (sr_value shifted) st).
Proof.
  intros Hf. unfold jit_mov_imm, shiftedOperand. rewrite Hf. cbn [sr_value sr_carry].
  destruct (di_set_flags op); simpl; [|done].
  by rewrite jitSetNzc_setNzc, carryFlag_writeRegister.
Qed.

Lemma jit_add_sub_agrees fast :
  (di_rd op =? 15) = false ->
  fast = (if kind_eqb (di_kind op) InstrKind.sub || kind_eqb (di_kind op) InstrKind.sbc
          then (if form_is_immediate op then JitFast.sub_imm else JitFast.sub_reg)
          else (if form_is_immediate op then JitFast.add_imm else JitFast.add_reg)) ->
  jit_add_sub fast op st = alu_add_sub op st.
Proof.
  intros Hrd ->. unfold jit_add_sub, alu_add_sub, operand2, shiftedOperand, writeAluResult.
  cbv zeta. rewrite Hrd.
  assert (is_u32 (readRegister st (di_rn op))) by eauto with fil.
  assert (is_u32 (di_imm op)) by eauto with fil.
  assert (is_u32 (sr_value (shiftedRm op st))) by eauto with fil.
  rewrite jitAdd_addWithCarry; [|u32_auto|].
  2: { repeat case_match_goal; cbn [sr_value]; u32_auto. }
  set (subtract := kind_eqb (di_kind op) InstrKind.sub || kind_eqb (di_kind op) InstrKind.sbc).
  set (imm := form_is_immediate op).
  assert (∀ fast, fast = (if subtract then (if imm then JitFast.sub_imm else JitFast.sub_reg)
          else (if imm then JitFast.add_imm else JitFast.add_reg)) ->
    bool_decide (fast = JitFast.sub_imm) || bool_decide (fast = JitFast.sub_reg) = subtract
    /\ bool_decide (fast = JitFast.add_reg) || bool_decide (fast = JitFast.sub_reg) = negb imm)
    as Hfast by (intros ? ->; by destruct subtract, imm).
  destruct (Hfast _ eq_refl) as [-> ->].
  assert ((if negb imm then sr_value (shiftedRm op st) else di_imm op)
    = sr_value (if imm then mkShiftResult (di_imm op) (if di_immediate_carry_valid op
        then di_immediate_carry op else carryFlag st) else shiftedRm op st)) as ->
    by (by destruct imm).
  assert ((if kind_eqb (di_kind op) InstrKind.adc || kind_eqb (di_kind op) InstrKind.sbc
           then carryFlag st else subtract)
    = (if kind_eqb (di_kind op) InstrKind.adc then carryFlag st
       else if kind_eqb (di_kind op) InstrKind.sbc then carryFlag st else subtract)) as ->
    by (by destruct (kind_eqb (di_kind op) InstrKind.adc)).
  destruct (di_set_flags op); simpl; [apply writeRegister_setNzcv | done].
Qed.

Lemma jit_cmp_agrees fast :
  fast = (if form_is_immediate op then JitFast.cmp_imm else JitFast.cmp_reg) ->
  jit_cmp fast op st = alu_cmp_cmn op st.
Proof.
  intros ->. unfold jit_cmp, alu_cmp_cmn, operand2, shiftedOperand. cbv zeta.
  assert (is_u32 (readRegister st (di_rn op))) by eauto with fil.
  assert (is_u32 (di_imm op)) by eauto with fil.
  assert (is_u32 (sr_value (shiftedRm op st))) by eauto with fil.
  rewrite jitAdd_addWithCarry; [|done|repeat case_match_goal; u32_auto].
  destruct (form_is_immediate op), (kind_eqb (di_kind op) InstrKind.cmp); done.
Qed.

Lemma jit_logic_agrees : form_is_immediate op = false -> jit_logic op st = alu_logic op st.
Proof.
  intros Hf. unfold jit_logic, alu_logic, shiftedOperand. rewrite Hf. cbv zeta.
  destruct (di_set_flags op); simpl; [apply jitSetNzc_setNzc | done].
Qed.
Lemma jit_mul_agrees : jit_mul op st = alu_mul op st.
Proof.
  unfold jit_mul, alu_mul. cbv zeta.
  destruct (di_set_flags op); simpl; [apply jitSetNz_setNz | done].
Qed.
Lemma jit_shift_agrees : jit_shift op st = alu_shift op st.
Proof.
  unfold jit_shift, alu_shift. cbv zeta.
  destruct (di_set_flags op); simpl; [apply jitSetNzc_setNzc | done].
Qed.

Lemma jit_rsb_tst_agrees : form_is_immediate op || form_is_register op = true ->
  jit_rsb_tst op st = if kind_eqb (di_kind op) InstrKind.tst then alu_tst op st
                      else alu_rsb op st.
Proof.
  intros Hform.
  assert (form_is_register op = negb (form_is_immediate op)) as Hr.
  { unfold form_is_immediate, form_is_register in *. by destruct (di_form op). }
  unfold jit_rsb_tst, alu_tst, alu_rsb, operand2, shiftedOperand. cbv zeta. rewrite Hr.
  assert (is_u32 (readRegister st (di_rn op))) by eauto with fil.
  assert (is_u32 (sr_value (shiftedRm op st))) by eauto with fil.
  assert (is_u32 (di_imm op)) by eauto with fil.
  destruct (kind_eqb (di_kind op) InstrKind.tst).
  - rewrite jitSetNzc_setNzc. by destruct (form_is_immediate op).
  - rewrite jitAdd_addWithCarry; [| |u32_auto].
    2: { destruct (form_is_immediate op); cbn [negb sr_value]; u32_auto. }
    destruct (form_is_immediate op), (di_set_flags op); simpl;
      rewrite ?writeRegister_setNzcv; done.
Qed.

Lemma jit_extend_agrees : is_extend_kind (di_kind op) = true ->
  jit_extend op st = alu_extend op st.
Proof.
  intros Hk. unfold jit_extend, alu_extend. cbv zeta.
  destruct (di_kind op); try discriminate Hk; reflexivity.
Qed.
End register_handlers.

Lemma form_immediate_cases op : form_is_immediate op = true <-> di_form op = OperandForm.immediate.
Proof. unfold form_is_immediate. by destruct (di_form op). Qed.
Lemma form_register_not_immediate op : form_is_register op = true -> form_is_immediate op = false.
Proof. unfold form_is_register, form_is_immediate. by destruct (di_form op). Qed.

Section refinement.
Context `{HostNaN} {M : Type} `{ML : CpuMemoryLaws M}.

Lemma execute_no_fp op (mc : Machine M) : isFpRegisterAccess (di_kind op) = false ->
  execute op mc = execute_switch op mc.
Proof. intros Hk. unfold execute, fp_prologue, when. by rewrite Hk. Qed.

Lemma execute_register op f (mc : Machine M) : isFpRegisterAccess (di_kind op) = false ->
  register_case op = Some f -> execute op mc = Done tt (with_cpu (f (mc_cpu mc)) mc).
Proof. intros Hk Hf. rewrite execute_no_fp by done. unfold execute_switch. by rewrite Hf. Qed.

Lemma execute_mov op (mc : Machine M) : di_kind op = InstrKind.mov -> (di_rd op =? 15) = false ->
  execute op mc = Done tt (with_cpu
    (let shifted := shiftedOperand op (mc_cpu mc) in
     when_flags (di_set_flags op) (setNzc (sr_value shifted) (sr_carry shifted))
       (writeRegister (di_rd op) (sr_value shifted) (mc_cpu mc))) mc).
Proof.
  intros Hk Hrd. rewrite execute_no_fp by (by rewrite Hk).
  unfold execute_switch, register_case, exec_mov. rewrite Hk, Hrd. done.
Qed.

(** Reads the classifier's choice off its hypothesis. *)
Ltac classify_cases H :=
  unfold or_generic, by_form in H;
  repeat (case_match; try discriminate H); try (injection H as <-).
(** Evaluates the operand form found by the classifier. *)
Ltac use_form :=
  unfold form_is_immediate;
  match goal with Hf : di_form _ = _ |- _ => rewrite Hf end.

Lemma jit_register_agrees op st (m : M) d g : op_ok op -> cpu_ok st ->
  jit_register_case op (classifyJitFast op) (cs_instruction_address st) = Some g ->
  execute op (mkMachine st m d) = Done tt (mkMachine (g st) m d).
Proof.
  intros Hop Hst Hg. unfold classifyJitFast in Hg.
  destruct (di_kind op) eqn:Hk; try discriminate Hg; classify_cases Hg.
  all: rewrite ?orb_false_iff, ?andb_true_iff in *; destruct_and?.
  all: first
    [ rewrite execute_mov by (rewrite ?Hk; done)
    | erewrite execute_register;
        [|by rewrite Hk | unfold register_case; rewrite Hk; reflexivity] ];
    unfold with_cpu; cbn [mc_cpu mc_mem mc_diag]; do 2 f_equal; try reflexivity; symmetry.
  all: first
    [ apply jit_mov_imm_agrees; by apply form_immediate_cases
    | apply jit_mov_reg_agrees; by use_form
    | apply jit_add_sub_agrees; rewrite ?Hk; try done; by use_form
    | apply jit_cmp_agrees; try done; by use_form
    | apply jit_logic_agrees; by apply form_register_not_immediate
    | apply jit_mul_agrees
    | apply jit_shift_agrees
    | rewrite jit_rsb_tst_agrees by done; by rewrite Hk
    | apply jit_cbz_agrees; rewrite ?Hk; done
    | rewrite Hk; reflexivity
    | unfold jit_alu_single, jit_dsp_extend; rewrite Hk;
      first [reflexivity | apply jit_extend_agrees; by rewrite Hk] ].
Qed.
(** *** Single transfers *)

(** Evaluates the monadic skeleton of a case on a concrete machine. *)
Ltac run_exec :=
  unfold mbind, Exec_bind, mret, Exec_ret, gets, modify, access, when, with_cpu, with_mem;
  cbn [mc_cpu mc_mem mc_diag].

Lemma low_register_read st i : i < 13 -> readRegister st i = reg st i.
Proof.
  intros Hi. unfold readRegister. destruct (Z.eqb_spec i 13); [lia|].
  destruct (Z.eqb_spec i 15); [lia|]. destruct (Z.ltb_spec i 16); [done|lia].
Qed.
Lemma low_register_write i v st : i < 13 -> writeRegister i v st = set_reg i v st.
Proof.
  intros Hi. unfold writeRegister. destruct (Z.leb_spec 16 i); [lia|].
  destruct (Z.eqb_spec i 13); [lia|done].
Qed.

Lemma execute_switch_kind op (mc : Machine M) e :
  register_case op = None -> isFpRegisterAccess (di_kind op) = false ->
  execute_switch op mc = e -> execute op mc = e.
Proof. intros _ Hk <-. by apply execute_no_fp. Qed.

Ltac run_kind Hk :=
  apply execute_switch_kind;
  [ unfold register_case; by rewrite Hk | by rewrite Hk | ];
  unfold execute_switch, register_case; rewrite Hk.

Definition handler_refines (op : DecodedInstruction) (st : CpuState) (m : M)
    (h : Handled (M := M)) : Prop :=
  ∀ d, match h with
       | (true, st', m') =>
           ∃ m'', execute op (mkMachine st m d) = Done tt (mkMachine st' m'' d)
                  /\ mem_eqv m' m''
       | (false, st', m') => st' = st /\ mem_eqv m' m
       end.

Lemma refines_ldr_imm op st m : op_ok op -> cpu_ok st -> mem_ok m ->
  di_kind op = InstrKind.ldr -> (di_rd op =? 15) = false ->
  handler_refines op st m (jit_ldr_imm op (cs_instruction_address st) st m).
Proof.
  intros Hop Hst Hm Hk Hrd d. unfold jit_ldr_imm.
  destruct (tryFastRead32 _ _ m) as [[v|] m'] eqn:E.
  - apply fast_read32_hit in E; [|done]. exists m'. split; [|done].
    run_kind Hk. unfold exec_ldr. run_exec. rewrite Hrd.
    change (load_context st) with (read_context (cs_instruction_address st)). rewrite E.
    unfold jit_writeback. run_exec. by destruct (di_writeback op).
  - apply fast_read32_miss in E as ->. done.
Qed.

Lemma word_gpr_fields op : is_word_gpr op = true ->
  form_is_register op = false /\ di_rn op < 13 /\ di_rd op < 13 /\ di_index op = true
  /\ di_add op = true /\ di_writeback op = false.
Proof.
  unfold is_word_gpr, form_is_immediate, form_is_register.
  rewrite !andb_true_iff, !Z.ltb_lt, negb_true_iff.
  intros (((((Hf & ?) & ?) & ?) & ?) & ?). by destruct (di_form op).
Qed.

Lemma word_gpr_address op st : is_word_gpr op = true ->
  u32 (reg st (di_rn op) + di_imm op) = effective_address op st.
Proof.
  intros (Hf & Hrn & Hrd & Hi & Ha & Hw)%word_gpr_fields.
  unfold effective_address, offset_address, displace, mem_base, mem_offset.
  rewrite Hi, Ha, Hf. destruct (Z.eqb_spec (di_rn op) 15); [lia|].
  by rewrite low_register_read.
Qed.

Lemma jit_ldr_word_gpr_imm op pc st (m : M) : is_word_gpr op = true ->
  jit_ldr_word_gpr op pc st m = jit_ldr_imm op pc st m.
Proof.
  intros Hw. pose proof (word_gpr_fields op Hw) as (Hf & Hrn & Hrd & Hi & Ha & Hwb).
  unfold jit_ldr_word_gpr, jit_ldr_imm, jit_writeback.
  rewrite word_gpr_address, Hwb by done.
  destruct (tryFastRead32 _ _ m) as [[v|] m']; [by rewrite low_register_write | done].
Qed.
Lemma jit_str_word_gpr_imm op pc st (m : M) : is_word_gpr op = true ->
  jit_str_word_gpr op pc st m = jit_str_imm op pc st m.
Proof.
  intros Hw. pose proof (word_gpr_fields op Hw) as (Hf & Hrn & Hrd & Hi & Ha & Hwb).
  unfold jit_str_word_gpr, jit_str_imm, jit_writeback.
  rewrite word_gpr_address, Hwb, low_register_read by done.
  by destruct (tryFastWrite32 _ _ _ m) as [[] m'].
Qed.

Lemma refines_str_imm op st m : op_ok op -> cpu_ok st -> mem_ok m ->
  di_kind op = InstrKind.str ->
  handler_refines op st m (jit_str_imm op (cs_instruction_address st) st m).
Proof.
  intros Hop Hst Hm Hk d. unfold jit_str_imm.
  destruct (tryFastWrite32 _ _ _ m) as [[] m'] eqn:E.
  - apply fast_write32_hit in E as [r E]; [|done]. exists m'. split; [|done].
    run_kind Hk. unfold exec_load_store, store_by_kind, jit_writeback. rewrite Hk.
    change (isStore InstrKind.str) with true. cbv iota. run_exec.
    change (store_context st) with (write_context (cs_instruction_address st)). rewrite E.
    by destruct (di_writeback op).
  - apply fast_write32_miss in E as ->. done.
Qed.

(** The value a narrow load writes, as the handler extends it. *)
Lemma jit_narrow_value k (v : Z) : is_u32 v ->
  (if kind_eqb k InstrKind.ldrsb && has (u32 v) 0x80 then u32 v .| 0xffffff00
   else if kind_eqb k InstrKind.ldrsh && has (u32 v) 0x8000 then u32 v .| 0xffff0000
   else u32 v)
  = match k with
    | InstrKind.ldrsb => sign_extend8 v
    | InstrKind.ldrsh => sign_extend16 v
    | _ => v
    end.
Proof.
  intros Hv. rewrite u32_small by done. destruct k; try reflexivity;
    cbn [kind_eqb andb]; unfold sign_extend8, sign_extend16; by case_match_goal.
Qed.

Lemma refines_ldr_sub op st m : op_ok op -> cpu_ok st -> mem_ok m ->
  (di_rd op =? 15) = false ->
  di_kind op = InstrKind.ldrb \/ di_kind op = InstrKind.ldrh
    \/ di_kind op = InstrKind.ldrsb \/ di_kind op = InstrKind.ldrsh ->
  handler_refines op st m (jit_ldr_sub op (cs_instruction_address st) st m).
Proof.
  intros Hop Hst Hm Hrd Hkind d. unfold jit_ldr_sub. cbv zeta.
  destruct (tryFastRead _ _ _ m) as [[v|] m'] eqn:E; [|apply fast_read_miss in E as ->; done].
  exists m'. split; [|done].
  assert (is_u32 v /\ ∀ d, load_by_kind (di_kind op) (effective_address op st)
    (read_context (cs_instruction_address st)) (mkMachine st m d)
    = Done (match di_kind op with
            | InstrKind.ldrsb => sign_extend8 v
            | InstrKind.ldrsh => sign_extend16 v
            | _ => v end) (mkMachine st m' d)) as [Hv Hload].
  { destruct Hkind as [Hk|[Hk|[Hk|Hk]]]; rewrite Hk in *;
      (apply fast_read8_hit in E || apply fast_read16_hit in E); try done;
      (split; [first [apply u8_is_u32; exact (read8_range _ _ _ _ _ Hm E)
                     | apply u16_is_u32; exact (read16_range _ _ _ _ _ Hm E)]
              | intros d'; unfold load_by_kind; run_exec; by rewrite E]). }
  rewrite jit_narrow_value by done.
  assert (isStore (di_kind op) = false) as Hs
    by (destruct Hkind as [Hk|[Hk|[Hk|Hk]]]; by rewrite Hk).
  assert (execute op (mkMachine st m d) = exec_load_store op (mkMachine st m d)) as ->.
  { destruct Hkind as [Hk|[Hk|[Hk|Hk]]]; run_kind Hk; done. }
  unfold exec_load_store, jit_writeback. run_exec. rewrite Hs, Hrd. run_exec.
  change (load_context st) with (read_context (cs_instruction_address st)). rewrite Hload.
  by destruct (di_writeback op).
Qed.

Lemma refines_str_sub op st m : op_ok op -> cpu_ok st -> mem_ok m ->
  di_kind op = InstrKind.strb \/ di_kind op = InstrKind.strh ->
  handler_refines op st m (jit_str_sub op (cs_instruction_address st) st m).
Proof.
  intros Hop Hst Hm Hkind d. unfold jit_str_sub. cbv zeta.
  destruct (tryFastWrite _ _ _ _ m) as [[] m'] eqn:E; [|apply fast_write_miss in E as ->; done].
  exists m'. split; [|done].
  destruct Hkind as [Hk|Hk]; rewrite Hk in E;
    (apply fast_write8_hit in E as [r E] || apply fast_write16_hit in E as [r E]); try done;
    run_kind Hk; unfold exec_load_store, store_by_kind, jit_writeback; rewrite Hk;
    [change (isStore InstrKind.strb) with true | change (isStore InstrKind.strh) with true];
    cbv iota; run_exec;
    change (store_context st) with (write_context (cs_instruction_address st)); rewrite E;
    by destruct (di_writeback op).
Qed.

(** *** Multi-word transfers *)

Lemma listed_length op : op_ok op ->
  popcount (di_register_list op) = Z.of_nat (length (listed (di_register_list op) 16)).
Proof. intros Hop. apply popcount_listed, (opk_list op Hop). Qed.

Lemma load_multiple_words regs a c mc vs m' :
  read_words (length regs) a c (mc_mem mc) = (inl vs, m') ->
  load_multiple regs a c mc = Done vs (with_mem m' mc).
Proof.
  revert a mc vs m'. induction regs as [|r regs IH]; intros a mc vs m' E; simpl in *.
  - injection E as <- <-. by destruct mc.
  - unfold mbind, Exec_bind, access. destruct (read32 a c (mc_mem mc)) as [[v|f] m1]; [|done].
    destruct (read_words (length regs) (u32 (a + 4)) c m1) as [[ws|f] m2] eqn:E2; [|done].
    injection E as <- <-. rewrite (IH _ (with_mem m1 mc) ws m2) by done. done.
Qed.

Lemma store_multiple_words regs a c mc r m' :
  write_words (map (readRegister (mc_cpu mc)) regs) a c (mc_mem mc) = (inl r, m') ->
  store_multiple regs a c mc = Done tt (with_mem m' mc).
Proof.
  revert a mc. induction regs as [|i regs IH]; intros a mc E; simpl in *.
  - injection E as <- <-. by destruct mc.
  - unfold mbind, Exec_bind, access, gets.
    destruct (write32 a (readRegister (mc_cpu mc) i) c (mc_mem mc)) as [[v|f] m1]; [|done].
    by rewrite (IH _ (with_mem m1 mc)).
Qed.

Lemma block_start_range op count b : is_u32 b -> is_u32 (block_start op count b).
Proof. intros. unfold block_start. destruct (decrement_before op); [apply u32_range | done]. Qed.

Lemma refines_ldrd_strd op st m : op_ok op -> cpu_ok st -> mem_ok m ->
  is_pair_kind (di_kind op) = true ->
  handler_refines op st m (jit_ldrd_strd op (cs_instruction_address st) st m).
Proof.
  intros Hop Hst Hm Hkind d. pose proof (opk_pair op Hop Hkind) as Hform.
  assert (mem_offset op st = di_imm op) as Hoff.
  { unfold mem_offset, form_is_register. by rewrite Hform. }
  unfold jit_ldrd_strd. cbv zeta. rewrite Hoff.
  set (final := displace op (readRegister st (di_rn op)) (di_imm op)).
  set (address := if di_index op then final else readRegister st (di_rn op)).
  assert (is_u32 address) as Ha.
  { subst address final. unfold displace. u32_auto. }
  assert (execute op (mkMachine st m d) = exec_ldrd_strd op (mkMachine st m d)) as ->.
  { destruct (di_kind op) eqn:Hk; try discriminate Hkind; run_kind Hk; done. }
  destruct (kind_eqb (di_kind op) InstrKind.ldrd) eqn:Hld.
  - destruct (tryFastReadWords _ _ _ m) as [[vs|] m'] eqn:E.
    + apply fast_read_words_hit in E; [|done..|lia]. exists m'. split; [|done].
      change (Z.to_nat 2) with 2%nat in E. cbn [read_words] in E.
      destruct (read32 address _ m) as [[v|f] m1] eqn:E1; [|done].
      destruct (read32 (u32 (address + 4)) _ m1) as [[w|f] m2] eqn:E2; [|done].
      injection E as <- <-. unfold exec_ldrd_strd, jit_writeback. rewrite Hld. run_exec.
      fold final. fold address.
      change (load_context st) with (read_context (cs_instruction_address st)).
      rewrite E1. run_exec. rewrite E2. by destruct (di_writeback op).
    + split; [done|]. by eapply fast_read_words_eqv.
  - destruct (tryFastWriteWords _ _ _ m) as [[] m'] eqn:E;
      [|apply fast_write_words_miss in E as ->; done].
    apply fast_write_words_hit in E as (r & m'' & E & Heqv); [|done..|].
    2: { repeat apply Forall_cons_2; [eauto with fil..|apply Forall_nil_2]. }
    exists m''. split; [|done]. cbn [write_words] in E.
    destruct (write32 address _ _ m) as [[v|f] m1] eqn:E1; [|done].
    destruct (write32 (u32 (address + 4)) _ _ m1) as [[w|f] m2] eqn:E2; [|done].
    injection E as <- <-. unfold exec_ldrd_strd, jit_writeback. rewrite Hld. run_exec.
    fold final. fold address.
    change (store_context st) with (write_context (cs_instruction_address st)).
    rewrite E1. run_exec. rewrite E2. by destruct (di_writeback op).
Qed.

Lemma refines_block op st m fast : op_ok op -> cpu_ok st -> mem_ok m ->
  Z.testbit (di_register_list op) 15 = false ->
  (di_kind op = InstrKind.push \/ di_kind op = InstrKind.pop) /\ fast = JitFast.push_pop
    \/ (di_kind op = InstrKind.ldm \/ di_kind op = InstrKind.stm) /\ fast = JitFast.ldm_stm ->
  handler_refines op st m (jit_block fast op (cs_instruction_address st) st m).
Proof.
  intros Hop Hst Hm Hbit Hkind d. unfold jit_block. cbv zeta.
  assert ((if bool_decide (fast = JitFast.push_pop) then kind_eqb (di_kind op) InstrKind.pop
    else kind_eqb (di_kind op) InstrKind.ldm) = is_block_load op) as ->.
  { unfold is_block_load. destruct Hkind as [[[Hk|Hk] ->]|[[Hk|Hk] ->]]; by rewrite Hk. }
  assert (execute op (mkMachine st m d) = exec_block op (mkMachine st m d)) as ->.
  { destruct Hkind as [[[Hk|Hk] _]|[[Hk|Hk] _]]; run_kind Hk; done. }
  rewrite listed_length by done. set (regs := listed (di_register_list op) 16).
  set (count := Z.of_nat (length regs)).
  pose proof (block_start_range op count (readRegister st (di_rn op)) ltac:(eauto with fil)) as Hs.
  destruct (Z.eqb_spec count 0) as [|Hcount]; [done|].
  unfold exec_block. cbv zeta. rewrite listed_length, Hbit, andb_false_r by done.
  fold regs. fold count. unfold jit_block_writeback. destruct (is_block_load op).
  - destruct (tryFastReadWords _ _ _ m) as [[vs|] m'] eqn:E.
    + apply fast_read_words_hit in E; [|done..|subst count; lia]. exists m'. split; [|done].
      subst count. rewrite Nat2Z.id in E.
      pose proof (load_multiple_words regs _ _ (mkMachine st m d) vs m' E) as Hload.
      run_exec. change (load_context st) with (read_context (cs_instruction_address st)).
      rewrite Hload. by destruct (di_writeback op).
    + split; [done|]. by eapply fast_read_words_eqv.
  - destruct (tryFastWriteWords _ _ _ m) as [[] m'] eqn:E;
      [|apply fast_write_words_miss in E as ->; done].
    apply fast_write_words_hit in E as (r & m'' & E & Heqv); [|done..| |].
    2: { intros Hnil. apply Hcount. subst count. apply (f_equal length) in Hnil.
         rewrite length_map in Hnil. by rewrite Hnil. }
    2: { apply Forall_map, Forall_forall. intros. simpl. eauto with fil. }
    exists m''. split; [|done].
    pose proof (store_multiple_words regs _ _ (mkMachine st m d) r m'' E) as Hstore.
    run_exec. change (store_context st) with (write_context (cs_instruction_address st)).
    rewrite Hstore. by destruct (di_writeback op).
Qed.

Lemma refines_pop_pc op st m : op_ok op -> cpu_ok st -> mem_ok m ->
  Z.testbit (di_register_list op) 15 = true -> is_block_load op = true ->
  handler_refines op st m (jit_pop_pc op (cs_instruction_address st) st m).
Proof.
  intros Hop Hst Hm Hbit Hload d. unfold jit_pop_pc. cbv zeta. rewrite Hbit.
  assert (execute op (mkMachine st m d) = exec_block op (mkMachine st m d)) as ->.
  { unfold is_block_load in Hload.
    destruct (di_kind op) eqn:Hk; try discriminate Hload; run_kind Hk; done. }
  rewrite listed_length by done. set (regs := listed (di_register_list op) 16).
  set (count := Z.of_nat (length regs)).
  pose proof (block_start_range op count (readRegister st (di_rn op)) ltac:(eauto with fil)) as Hs.
  destruct (Z.eqb_spec count 0) as [|Hcount]; [done|].
  destruct (tryFastReadWords _ _ _ m) as [[vs|] m'] eqn:E.
  2: { split; [done|]. by eapply fast_read_words_eqv. }
  pose proof (fast_read_words_eqv _ _ _ _ _ _ E) as Heqv.
  apply fast_read_words_hit in E; [|done..|subst count; lia].
  subst count. rewrite Nat2Z.id in E.
  pose proof (load_multiple_words regs _ _ (mkMachine st m d) vs m' E) as Hmult.
  unfold exec_block. cbv zeta. rewrite listed_length, Hbit, Hload by done. fold regs.
  set (pc_word := default 0 (last vs)).
  destruct (negb (isExceptionReturn pc_word) && (pc_word .& 1 =? 0)) eqn:Hbad; [done|].
  run_exec. change (load_context st) with (read_context (cs_instruction_address st)).
  rewrite Hmult. unfold jit_block_writeback, load_pc. fold pc_word.
  destruct (isExceptionReturn pc_word); simpl in Hbad; exists m'.
  - split; [|done]. by destruct (di_writeback op).
  - split; [|done]. unfold branch_or_fail. run_exec.
    destruct (di_writeback op); cbn [andb mc_cpu mc_mem mc_diag];
      unfold branchWritePc; by rewrite Hbad.
Qed.

Lemma refines_bx op st m : di_kind op = InstrKind.bx ->
  handler_refines op st m (jit_bx op st m).
Proof.
  intros Hk d. unfold jit_bx. rewrite Hk.
  assert (∀ mc : Machine M, execute op mc =
    (let target := readRegister (mc_cpu mc) (di_rm op) in
     if isExceptionReturn target
     then Done tt (with_cpu {| (mc_cpu mc) with cs_pending_exc_return := Some target |} mc)
     else branch_or_fail target "branch exchange selected non-Thumb state" mc)) as Hexec.
  { intros mc. run_kind Hk. unfold exec_bx_blx. rewrite Hk. run_exec.
    change (kind_eqb InstrKind.bx InstrKind.blx) with false.
    change (kind_eqb InstrKind.bx InstrKind.bx) with true. cbn [andb].
    by destruct (isExceptionReturn _). }
  change (kind_eqb InstrKind.bx InstrKind.bx) with true. cbn [andb]. rewrite Hexec.
  cbn [mc_cpu]. destruct (isExceptionReturn (readRegister st (di_rm op))); [by exists m|].
  destruct (branchWritePc (readRegister st (di_rm op)) st) as [[] st'] eqn:Hb.
  - exists m. split; [|done]. unfold branch_or_fail. cbn [mc_cpu]. by rewrite Hb.
  - split; [|done]. unfold branchWritePc in Hb. by destruct (_ =? 0); simplify_eq.
Qed.

(** The handler selected by the classifier refines the executor. *)
Lemma executeJitFast_refines op st m : op_ok op -> cpu_ok st -> mem_ok m ->
  handler_refines op st m
    (executeJitFast op (classifyJitFast op) (cs_instruction_address st) st m).
Proof.
  intros Hop Hst Hm. unfold executeJitFast.
  destruct (jit_register_case op (classifyJitFast op) _) as [g|] eqn:Hg.
  { intros d. exists m. split; [|done]. by apply jit_register_agrees. }
  pose proof (opk_multi_store op Hop) as Hmulti.
  clear Hg. remember (classifyJitFast op) as fast eqn:Hf. unfold classifyJitFast in Hf.
  destruct (di_kind op) eqn:Hk; unfold or_generic, by_form in Hf;
    repeat match type of Hf with _ = match ?x with _ => _ end => destruct x eqn:? end;
    subst fast; try (intros d; done);
    rewrite ?andb_true_iff, ?negb_true_iff in *; destruct_and?;
    first
      [ rewrite jit_ldr_word_gpr_imm by done; apply refines_ldr_imm; try done;
        pose proof (word_gpr_fields op ltac:(done)); destruct (Z.eqb_spec (di_rd op) 15); (lia || done)
      | rewrite jit_str_word_gpr_imm by done; by apply refines_str_imm
      | by apply refines_ldr_imm
      | by apply refines_str_imm
      | apply refines_ldr_sub; by auto
      | apply refines_str_sub; by auto
      | apply refines_ldrd_strd; by rewrite ?Hk
      | apply refines_block; by auto
      | apply refines_pop_pc; try done; by (unfold is_block_load; rewrite Hk)
      | by apply refines_bx
      | specialize (Hmulti eq_refl); congruence ].
Qed.
End refinement.

(** ** Block planning *)

Definition straight_line (op : DecodedInstruction) : Prop :=
  classifyJitBoundary op = JitBoundary.none \/ classifyJitBoundary op = JitBoundary.memory_may_trap.

(** A plan for [instructions]: straight-line code up to the first boundary, the branch that
    ends it included, at most [limit] of them. *)
Record plan_ok (instructions : list DecodedInstruction) (limit n : nat) (p : JitBlockPlan) : Prop := {
  pl_bound : (plan_translated_instructions p <= n + limit)%nat
    /\ (plan_translated_instructions p <= n + length instructions)%nat
    /\ (n <= plan_translated_instructions p)%nat;
  pl_branch : plan_ends_with_branch p = true ->
    ∃ k op, plan_translated_instructions p = (n + S k)%nat /\ instructions !! k = Some op
      /\ classifyJitBoundary op = JitBoundary.control_flow
      /\ Forall straight_line (take k instructions);
  pl_straight : plan_ends_with_branch p = false ->
    Forall straight_line (take (plan_translated_instructions p - n) instructions);
  pl_stop : plan_ends_with_branch p = false ->
    (plan_translated_instructions p < n + limit)%nat ->
    match instructions !! (plan_translated_instructions p - n)%nat with
    | Some op => plan_boundary p = classifyJitBoundary op
        /\ ~ straight_line op /\ classifyJitBoundary op <> JitBoundary.control_flow
    | None => plan_boundary p = JitBoundary.none
    end;
}.

Lemma planJitBlock_loop_ok instructions limit n :
  plan_ok instructions limit n
    (planJitBlock_loop instructions limit (mkJitBlockPlan n JitBoundary.none false)).
Proof.
  revert limit n. induction instructions as [|op rest IH]; intros limit n.
  { constructor; destruct limit; cbn; try lia; try done; by rewrite Nat.sub_diag. }
  destruct limit as [|limit].
  { constructor; cbn; try lia; try done. by rewrite Nat.sub_diag. }
  cbn [planJitBlock_loop plan_translated_instructions].
  assert (straight_line op -> plan_ok (op :: rest) (S limit) n
    (planJitBlock_loop rest limit (mkJitBlockPlan (S n) JitBoundary.none false))) as Hgo.
  { intros Hs. destruct (IH limit (S n)) as [Hb Hbr Hst Hstop].
    set (p := planJitBlock_loop rest limit _) in *. constructor; cbn [length].
    - lia.
    - intros Hp. destruct (Hbr Hp) as (k & o & Hk & Ho & Hc & Hf). exists (S k), o.
      split; [lia|]. split; [done|]. split; [done|]. cbn [take]. by constructor.
    - intros Hp. replace (plan_translated_instructions p - n)%nat
        with (S (plan_translated_instructions p - S n)) by lia. cbn [take]. constructor; [done|by apply Hst].
    - intros Hp Hlt. replace (plan_translated_instructions p - n)%nat
        with (S (plan_translated_instructions p - S n)) by lia. cbn. apply Hstop; [done|lia]. }
  destruct (classifyJitBoundary op) eqn:Hc.
  1, 2: apply Hgo; unfold straight_line; auto.
  2, 3, 4: constructor; cbn; try lia; try done; rewrite Nat.sub_diag; try constructor; cbn; rewrite ?Hc;
    [done|]; unfold straight_line; rewrite Hc; split; [intros [? | ?]; done|done].
  constructor; cbn; try lia; try done. intros _. exists 0%nat, op. split; [lia|]. done.
Qed.
