(* ===== verification/Step.v ===== *)
(** * The instruction stepper

    Models [CortexM4::stepFastImpl], [fetchDecode], [peekPipelineCycles], [step] and [run] of
    [src/cpu/cortex_m4.cpp], in the configuration where the native memory JIT is off (the
    trace observation after BLX then does nothing).  [use_jit] selects between the checked
    interpreter ([stepFast]) and the inlined handlers ([stepJitFast]). *)

From stdpp Require Import pretty.
From S2P Require Import Prelude Address Instruction Decoder CpuState MemoryApi Machine Float32.
From S2P Require Import Execute JitFast.
#[local] Open Scope Z_scope.
#[local] Open Scope fil_scope.

Definition suppressImplicitFlagsInIt (kind : InstrKind.t) : bool :=
  match kind with
  | InstrKind.mov | InstrKind.add | InstrKind.adc | InstrKind.sub | InstrKind.sbc
  | InstrKind.rsb | InstrKind.and_ | InstrKind.orr | InstrKind.eor | InstrKind.bic
  | InstrKind.mvn | InstrKind.orn | InstrKind.mul | InstrKind.lsl | InstrKind.lsr
  | InstrKind.asr | InstrKind.ror | InstrKind.rrx => true
  | _ => false
  end.

(** ** Diagnostics *)

Definition undefinedMessage (pc raw size : Z) : string :=
  "unimplemented instruction pc=0x" +:+ hex_padded 8 pc +:+ " raw" +:+ pretty (size * 8)
    +:+ "=0x" +:+ hex_padded (if size =? 2 then 4 else 8) raw.

Definition capture (st : CpuState) (d : DiagnosticSnapshot) : DiagnosticSnapshot :=
  {| d with
     dg_next_pc := reg st 15;
     dg_registers := rset (cs_r st) 13 (activeSp st);
     dg_xpsr := cs_xpsr st |}.

Record FastStepResult := mkFastStepResult {
  fs_reason : StopReason.t;
  fs_suppress_loop_observation : bool;
  fs_instruction_size : Z;
  fs_instructions : Z;
  fs_instruction_address : Z;
  fs_raw : Z;
  fs_cycles : Z;
}.

Definition fast_step_default : FastStepResult :=
  {| fs_reason := StopReason.step_complete; fs_suppress_loop_observation := false;
     fs_instruction_size := 0; fs_instructions := 0; fs_instruction_address := 0;
     fs_raw := 0; fs_cycles := 0 |}.

(** The handler counters of [JitStats] that a single step advances. *)
Record JitStats := mkJitStats {
  js_single_fast : Z;
  js_single_decline : Z;
  js_single_generic : Z;
}.

Record Core (M : Type) := mkCore { core_mc : Machine M; core_stats : JitStats }.
Arguments mkCore {_} _ _.
Arguments core_mc {_} _.
Arguments core_stats {_} _.

Definition count_fast (s : JitStats) : JitStats :=
  {| s with js_single_fast := u64 (js_single_fast s + 1) |}.
Definition count_decline (s : JitStats) : JitStats :=
  {| s with js_single_decline := u64 (js_single_decline s + 1) |}.
Definition count_generic (s : JitStats) : JitStats :=
  {| s with js_single_generic := u64 (js_single_generic s + 1) |}.

(** ** Per-instruction metadata *)

Record StepInstruction := mkStepInstruction {
  si_raw : Z;
  si_decoded : DecodedInstruction;
  si_size : Z;
  si_base_cycles : Z;
  si_divide_form : bool;
  si_jit_fast : JitFast.t;
  si_branch_penalty : Z;
  si_fast_unconditional : bool;
  si_suppress_loop_observation : bool;
  si_may_trap : bool;
}.

Definition is_divide (op : DecodedInstruction) : bool :=
  kind_eqb (di_kind op) InstrKind.udiv || kind_eqb (di_kind op) InstrKind.sdiv.

Definition step_instruction (raw size : Z) (op : DecodedInstruction) : StepInstruction :=
  let k := di_kind op in
  let fast := classifyJitFast op in
  let boundary := classifyJitBoundary op in
  {| si_raw := raw;
     si_decoded := op;
     si_size := size;
     si_divide_form := is_divide op;
     si_base_cycles := if is_divide op then 7 else basePipelineCycles op;
     si_jit_fast := fast;
     si_branch_penalty := takenBranchPenalty k;
     si_fast_unconditional :=
       bool_decide (di_condition op = Condition.al) && negb (bool_decide (fast = JitFast.generic));
     si_suppress_loop_observation :=
       kind_eqb k InstrKind.bl || kind_eqb k InstrKind.blx
       || (kind_eqb k InstrKind.bx && (di_rm op =? 14))
       || (kind_eqb k InstrKind.mov && (di_rd op =? 15) && (di_rm op =? 14))
       || (is_block_load op && Z.testbit (di_register_list op) 15);
     si_may_trap :=
       negb (bool_decide (boundary = JitBoundary.none))
       && negb (bool_decide (boundary = JitBoundary.control_flow)) |}.

Definition instruction_cost (si : StepInstruction) (st : CpuState) : Z :=
  if si_divide_form si then divideCycles (readRegister st (di_rm (si_decoded si)))
  else si_base_cycles si.

Definition effective_condition (op : DecodedInstruction) (st : CpuState) : Condition.t :=
  if kind_eqb (di_kind op) InstrKind.it then Condition.al
  else if inItBlock (cs_it_state st) then currentItCondition (cs_it_state st)
  else di_condition op.

(** [decoded] with implicit flag setting dropped inside an IT block. *)
Definition it_adjusted (op : DecodedInstruction) (was_in_it : bool) : DecodedInstruction :=
  if was_in_it && di_set_flags op && suppressImplicitFlagsInIt (di_kind op)
  then {| op with di_set_flags := false |} else op.

Section stepper.
Context `{HostNaN} `{CpuMemory M}.

(** ** Fetch *)

Inductive Fetched : Type :=
  | FetchOk (si : StepInstruction)
  | FetchStop (result : FastStepResult) (diag : DiagnosticSnapshot).

Definition fetch_stop (r : FastStepResult) (pc raw size : Z) (fault : option BusFault)
    (message : string) (st : CpuState) (d : DiagnosticSnapshot) : Fetched :=
  FetchStop r
    (capture st {| d with dg_instruction_address := pc; dg_raw := raw;
                          dg_instruction_size := size; dg_bus_fault := fault;
                          dg_message := message |}).

Definition fetch_wrap_fault (pc : Z) (c : AccessContext) : BusFault :=
  mkBusFault BusFaultReason.address_overflow pc AccessSize.word c EmptyString
    "32-bit instruction fetch wraps target address space".

(** The decode half of the fetch: [raw] and [size] are known. *)
Definition decode_fetched (r : FastStepResult) (pc first second : Z) (wide : bool)
    (st : CpuState) (d : DiagnosticSnapshot) : Fetched :=
  let size := if wide then 4 else 2 in
  let raw := if wide then first .<< 16 .| second else first in
  match (if wide then decode32 first second else decode16 first) with
  | None =>
      fetch_stop {| r with fs_reason := StopReason.undefined_instruction; fs_raw := raw;
                           fs_instruction_size := size |}
        pc raw size None (undefinedMessage pc raw size) st d
  | Some op => FetchOk (step_instruction raw size op)
  end.

Definition fetch (r : FastStepResult) (pc : Z) (st : CpuState) (m : M)
    (d : DiagnosticSnapshot) : Fetched * M :=
  let context := mkAccessContext AccessType.instruction_fetch pc in
  match read16 pc context m with
  | (inr fault, m) =>
      (fetch_stop {| r with fs_reason := StopReason.bus_fault |} pc 0 0 (Some fault)
         "instruction fetch failed" st d, m)
  | (inl first, m) =>
      if is32BitThumbPrefix first then
        let raw := first .<< 16 in
        let stopped := {| r with fs_reason := StopReason.bus_fault; fs_raw := raw;
                                 fs_instruction_size := 4 |} in
        let message := "second instruction halfword fetch failed" in
        if 0xffffffff - 2 <? pc then
          (fetch_stop stopped pc raw 4 (Some (fetch_wrap_fault pc context)) message st d, m)
        else
          match read16 (pc + 2) context m with
          | (inr fault, m) => (fetch_stop stopped pc raw 4 (Some fault) message st d, m)
          | (inl second, m) => (decode_fetched r pc first second true st d, m)
          end
      else (decode_fetched r pc first 0 false st d, m)
  end.

(** ** Retirement *)

(** [state_.instruction_address = pc; state_.r[15] = pc + size]. *)
Definition advance_pc (pc size : Z) (st : CpuState) : CpuState :=
  set_reg 15 (u32 (pc + size)) {| st with cs_instruction_address := pc |}.

Definition branch_cycles (si : StepInstruction) (pc cycles : Z) (st : CpuState) : Z :=
  if negb (reg st 15 =? u32 (pc + si_size si))
  then u16 (cycles + si_branch_penalty si) else cycles.

(** The unconditional non-IT path: [Some] when the handler retired the instruction,
    otherwise the core is rewound and only the bus may differ. *)
Definition try_unconditional (si : StepInstruction) (r : FastStepResult) (pc : Z)
    (core : Core M) : option (FastStepResult * Core M) * Core M :=
  let mc := core_mc core in
  let st := mc_cpu mc in
  let cycles := instruction_cost si st in
  let '(handled, st', m') :=
    executeJitFast (si_decoded si) (si_jit_fast si) pc (advance_pc pc (si_size si) st)
      (mc_mem mc) in
  if handled then
    let r := {| r with fs_reason := StopReason.step_complete; fs_instructions := 1;
                       fs_cycles := branch_cycles si pc cycles st' |} in
    (Some (r, {| core_mc := with_mem m' (with_cpu st' mc);
                 core_stats := count_fast (core_stats core) |}), core)
  else
    let st' := set_reg 15 pc
                 {| st' with cs_instruction_address := cs_instruction_address st |} in
    (None, {| core with core_mc := with_mem m' (with_cpu st' mc) |}).

(** Runs the decoded instruction at the advanced PC: the fast handler when it may be tried,
    the checked executor otherwise.  Returns the stop reason ([None]: step complete). *)
Definition dispatch (use_jit was_in_it fast_handler_declined : bool) (op : DecodedInstruction)
    (fast : JitFast.t) (pc : Z) (core : Core M) : option StopReason.t * Core M :=
  let mc := core_mc core in
  let try_fast := use_jit && negb was_in_it && negb fast_handler_declined in
  let attempted := try_fast && negb (bool_decide (fast = JitFast.generic)) in
  let '(jit_handled, mc) :=
    if attempted then
      let '(handled, st, m) := executeJitFast op fast pc (mc_cpu mc) (mc_mem mc) in
      (handled, with_mem m (with_cpu st mc))
    else (false, mc) in
  let stats := core_stats core in
  let stats :=
    if try_fast then (if attempted && negb jit_handled then count_decline stats else stats)
    else if fast_handler_declined then count_decline stats else stats in
  let '(stop, mc) :=
    if jit_handled then (None, mc)
    else match execute op mc with
         | Done _ mc => (None, mc)
         | Stop reason mc => (Some reason, mc)
         end in
  let stats :=
    if use_jit && negb was_in_it
    then (if jit_handled then count_fast stats else count_generic stats) else stats in
  (stop, {| core_mc := mc; core_stats := stats |}).

Definition finish_stop (r : FastStepResult) (si : StepInstruction) (pc : Z)
    (reason : StopReason.t) (restart : option CpuState) (core : Core M)
    : FastStepResult * Core M :=
  let mc := core_mc core in
  let d := {| (mc_diag mc) with dg_instruction_address := pc; dg_raw := fs_raw r;
                                dg_instruction_size := si_size si |} in
  match reason, restart with
  | StopReason.synchronization_required, Some st =>
      ({| r with fs_instructions := 0; fs_cycles := 0 |},
       {| core with core_mc := with_diag (capture st d) (with_cpu st mc) |})
  | _, _ => (r, {| core with core_mc := with_diag (capture (mc_cpu mc) d) mc |})
  end.

(** The checked path after the fetch. *)
Definition step_checked (use_jit fast_handler_declined : bool) (si : StepInstruction)
    (r : FastStepResult) (pc : Z) (core : Core M) : FastStepResult * Core M :=
  let mc := core_mc core in
  let st := mc_cpu mc in
  let op := si_decoded si in
  let was_in_it := inItBlock (cs_it_state st) in
  let condition := effective_condition op st in
  let condition_passed :=
    bool_decide (condition = Condition.al) || conditionPasses condition (cs_xpsr st) in
  let base_cycles := if condition_passed then instruction_cost si st else 1 in
  let restart := if si_may_trap si && mmioTrapping (mc_mem mc) then Some st else None in
  let core := {| core with core_mc := with_cpu (advance_pc pc (si_size si) st) mc |} in
  let '(stop, core) :=
    if condition_passed
    then dispatch use_jit was_in_it fast_handler_declined (it_adjusted op was_in_it)
           (si_jit_fast si) pc core
    else (None, core) in
  let core :=
    if negb (kind_eqb (di_kind op) InstrKind.it) && was_in_it
    then {| core with core_mc := with_cpu (advanceIt (mc_cpu (core_mc core))) (core_mc core) |}
    else core in
  let cycles :=
    if condition_passed && bool_decide (stop = None)
    then branch_cycles si pc base_cycles (mc_cpu (core_mc core)) else base_cycles in
  let r := {| r with fs_reason := default StopReason.step_complete stop;
                     fs_instructions := 1; fs_cycles := cycles |} in
  match stop with
  | None => (r, core)
  | Some reason => finish_stop r si pc reason restart core
  end.

Definition stop_early (r : FastStepResult) (pc : Z) (message : string) (st : CpuState)
    (core : Core M) : FastStepResult * Core M :=
  let mc := core_mc core in
  let d := {| (mc_diag mc) with dg_instruction_address := pc; dg_message := message;
                                dg_bus_fault := None |} in
  (r, {| core with core_mc := with_diag (capture st d) (with_cpu st mc) |}).

Definition valid_thumb_state (st : CpuState) : bool :=
  cs_thumb st && has (cs_xpsr st) xpsr_t && (reg st 15 .& 1 =? 0).

Definition stepFastImpl (use_jit fast_handler_declined : bool) (core : Core M)
    : FastStepResult * Core M :=
  let mc := core_mc core in
  let st := mc_cpu mc in
  let pc := reg st 15 in
  let r := {| fast_step_default with fs_instruction_address := pc |} in
  if cs_halted st then
    stop_early {| r with fs_reason := StopReason.halted |} pc "CPU is halted" st core
  else if negb (valid_thumb_state st) then
    stop_early {| r with fs_reason := StopReason.invalid_state |} pc
      "invalid Cortex-M Thumb execution state" {| st with cs_halted := true |} core
  else
    let '(fetched, m) := fetch r pc st (mc_mem mc) (mc_diag mc) in
    let core := {| core with core_mc := with_mem m mc |} in
    match fetched with
    | FetchStop r d => (r, {| core with core_mc := with_diag d (core_mc core) |})
    | FetchOk si =>
        let r := {| r with fs_raw := si_raw si; fs_instruction_size := si_size si;
                           fs_suppress_loop_observation := si_suppress_loop_observation si |} in
        if negb fast_handler_declined && use_jit && (cs_it_state st =? 0)
           && si_fast_unconditional si then
          match try_unconditional si r pc core with
          | (Some retired, _) => retired
          | (None, core) => step_checked use_jit true si r pc core
          end
        else step_checked use_jit fast_handler_declined si r pc core
    end.

Definition stepFast : Core M -> FastStepResult * Core M := stepFastImpl false false.
Definition stepJitFast : Core M -> FastStepResult * Core M := stepFastImpl true false.

(** ** [step] and [run] *)

Record RunResult := mkRunResult {
  rr_reason : StopReason.t;
  rr_instructions : Z;
  rr_cycles : Z;
  rr_diagnostic : DiagnosticSnapshot;
}.

Definition label_diagnostic (one : FastStepResult) (d : DiagnosticSnapshot)
    : DiagnosticSnapshot :=
  {| d with dg_instruction_address := fs_instruction_address one; dg_raw := fs_raw one;
            dg_instruction_size := fs_instruction_size one |}.

Definition step (core : Core M) : RunResult * Core M :=
  let '(fast, core) := stepFast core in
  let mc := core_mc core in
  let d := if bool_decide (fs_reason fast = StopReason.step_complete)
           then capture (mc_cpu mc) (label_diagnostic fast diagnostic_default)
           else mc_diag mc in
  (mkRunResult (fs_reason fast) (fs_instructions fast) (fs_cycles fast) d, core).

(** The [for] loop of [run]: [one] is the last step result, [None] before the first. *)
Fixpoint run_loop (budget : nat) (one : option FastStepResult) (aggregate : RunResult)
    (core : Core M) : RunResult * Core M :=
  match budget with
  | O =>
      let d := rr_diagnostic aggregate in
      let d := match one with Some one => label_diagnostic one d | None => d end in
      ({| aggregate with rr_diagnostic := capture (mc_cpu (core_mc core)) d |}, core)
  | S budget =>
      let '(one, core) := stepFast core in
      let aggregate :=
        {| aggregate with
           rr_instructions := u64 (rr_instructions aggregate + fs_instructions one);
           rr_cycles := u64 (rr_cycles aggregate + fs_cycles one) |} in
      if bool_decide (fs_reason one = StopReason.step_complete)
      then run_loop budget (Some one) aggregate core
      else ({| aggregate with rr_reason := fs_reason one;
                              rr_diagnostic := mc_diag (core_mc core) |}, core)
  end.

Definition run (instruction_budget : nat) (core : Core M) : RunResult * Core M :=
  let st := mc_cpu (core_mc core) in
  let d := capture st {| diagnostic_default with dg_instruction_address := reg st 15 |} in
  run_loop instruction_budget None (mkRunResult StopReason.instruction_budget 0 0 d) core.

(** ** Cycle prediction *)

Definition fetchDecode (pc : Z) (m : M) : option (DecodedInstruction * Z * Z) :=
  let context := mkAccessContext AccessType.instruction_fetch pc in
  match tryFastRead pc AccessSize.halfword context m with
  | (None, _) => None
  | (Some first, m) =>
      if is32BitThumbPrefix (u16 first) then
        if 0xffffffff - 2 <? pc then None
        else
          match tryFastRead (pc + 2) AccessSize.halfword context m with
          | (None, _) => None
          | (Some second, _) =>
              op ← decode32 (u16 first) (u16 second);
              Some (op, u32 (first .<< 16) .| u32 second, 4)
          end
      else op ← decode16 (u16 first); Some (op, u32 first, 2)
  end.

Definition loaded_target (op : DecodedInstruction) : bool :=
  match di_kind op with
  | InstrKind.tbb | InstrKind.tbh => true
  | InstrKind.mov | InstrKind.ldr | InstrKind.ldrb | InstrKind.ldrh | InstrKind.ldrsb
  | InstrKind.ldrsh | InstrKind.ldrd => di_rd op =? 15
  | InstrKind.ldm | InstrKind.pop => Z.testbit (di_register_list op) 15
  | _ => false
  end.

Definition with_penalty (op : DecodedInstruction) (taken : bool) : Z :=
  u16 (basePipelineCycles op + (if taken then takenBranchPenalty (di_kind op) else 0)).

(** The cost of an instruction whose condition passed. *)
Definition peek_passed (op : DecodedInstruction) (pc size : Z) (upper_bound : bool)
    (st : CpuState) : option Z :=
  let fallthrough := u32 (pc + size) in
  if is_divide op then Some (divideCycles (readRegister st (di_rm op)))
  else if upper_bound && (loaded_target op || (di_rd op =? 15) || (di_ra op =? 15)
                          || (di_writeback op && (di_rn op =? 15)))
  then Some (with_penalty op true)
  else
    match di_kind op with
    | InstrKind.b | InstrKind.bl =>
        let target := u32 (pc + 4 + di_branch_offset op) .& not32 1 in
        Some (with_penalty op (negb (target =? fallthrough)))
    | InstrKind.bx | InstrKind.blx =>
        let target := readRegister st (di_rm op) in
        if kind_eqb (di_kind op) InstrKind.bx && isExceptionReturn target
        then Some (basePipelineCycles op)
        else if target .& 1 =? 0 then
          if negb upper_bound then None else Some (with_penalty op true)
        else Some (with_penalty op (negb (target .& not32 1 =? fallthrough)))
    | InstrKind.cbz | InstrKind.cbnz =>
        let zero := readRegister st (di_rn op) =? 0 in
        let take := if kind_eqb (di_kind op) InstrKind.cbz then zero else negb zero in
        let target := u32 (architecturalPcForRead st + di_imm op) .& not32 1 in
        Some (with_penalty op (take && negb (target =? fallthrough)))
    | _ => Some (with_penalty op false)
    end.

Definition peekPipelineCycles (upper_bound : bool) (st : CpuState) (m : M) : option Z :=
  let pc := reg st 15 in
  if cs_halted st || negb (valid_thumb_state st) then None
  else
    match fetchDecode pc m with
    | None => None
    | Some (op, _, size) =>
        if loaded_target op && negb upper_bound then None
        else if negb (conditionPasses (effective_condition op st) (cs_xpsr st)) then Some 1
        else peek_passed op pc size upper_bound st
    end.
End stepper.
