(* ===== verification/StepProofs.v ===== *)
(** * Properties of the stepper

    The machine invariant is preserved by a step; the fast-handler stepper and the checked
    stepper agree on the result, the core and the bus up to bookkeeping. *)

From S2P Require Import Prelude Address Instruction InstructionProofs Decoder DecoderProofs.
From S2P Require Import CpuState CpuStateProofs Float32 MemoryApi Machine Execute.
From S2P Require Import ExecuteProofs JitFast JitFastProofs Step.
#[local] Open Scope Z_scope.
#[local] Open Scope fil_scope.

Section step.
Context `{HostNaN} {M : Type} `{ML : CpuMemoryLaws M}.

(** Steppers that differ in bus bookkeeping and handler counters at most. *)
Definition core_eqv (c1 c2 : Core M) : Prop := mc_eqv (core_mc c1) (core_mc c2).
Definition core_ok (c : Core M) : Prop := machine_ok (core_mc c).

#[global] Instance core_eqv_equivalence : Equivalence core_eqv.
Proof.
  split; unfold core_eqv.
  - by intros c.
  - intros c1 c2 E. by symmetry.
  - intros c1 c2 c3 E F. by etrans.
Qed.

Definition result_eqv {A} (p q : A * Core M) : Prop := fst p = fst q /\ core_eqv (snd p) (snd q).

(** ** Fetch *)

Lemma fetch_decodes r pc st m d si m' : mem_ok m -> is_u32 pc ->
  fetch r pc st m d = (FetchOk si, m') ->
  mem_ok m' /\ ∃ raw size op, si = step_instruction raw size op /\ op_ok op
    /\ is_u32 raw /\ (size = 2 \/ size = 4).
Proof.
  intros Hm Hpc. unfold fetch, decode_fetched, fetch_stop.
  set (c := mkAccessContext _ pc).
  pose proof (read16_ok pc c m Hm) as Hm1.
  destruct (read16 pc c m) as [[first|f] m1] eqn:E1; [|done].
  apply read16_range in E1 as Hfirst; [|done]. simpl in Hm1.
  destruct (is32BitThumbPrefix first).
  - destruct (0xffffffff - 2 <? pc); [done|].
    pose proof (read16_ok (pc + 2) c m1 Hm1) as Hm2.
    destruct (read16 (pc + 2) c m1) as [[second|f] m2] eqn:E2; [|done].
    apply read16_range in E2 as Hsecond; [|done].
    destruct (decode32 first second) as [op|] eqn:Ed; [|done]. intros [= <- <-].
    split; [done|]. eexists _, _, op. split; [done|].
    split; [exact (decode32_op_ok _ _ _ Hfirst Hsecond Ed)|]. split; [eauto with fil | by right].
  - destruct (decode16 first) as [op|] eqn:Ed; [|done]. intros [= <- <-].
    split; [done|]. eexists _, _, op. split; [done|].
    split; [exact (decode16_op_ok _ _ Hfirst Ed)|]. split; [eauto with fil | by left].
Qed.

(** ** Dispatch *)

Lemma it_adjusted_outside op : it_adjusted op false = op.
Proof. done. Qed.

Lemma op_ok_it_adjusted op b : op_ok op -> op_ok (it_adjusted op b).
Proof.
  intros Hop. unfold it_adjusted. destruct (_ && _); [|done]. by destruct Hop; constructor.
Qed.

(** The checked dispatch: [execute], with its stop reason as an option. *)
Definition dispatch_checked (op : DecodedInstruction) (mc : Machine M)
    : option StopReason.t * Machine M :=
  match execute op mc with
  | Done _ mc => (None, mc)
  | Stop reason mc => (Some reason, mc)
  end.

Lemma dispatch_checked_proper op mc1 mc2 : mc_eqv mc1 mc2 ->
  fst (dispatch_checked op mc1) = fst (dispatch_checked op mc2)
  /\ mc_eqv (snd (dispatch_checked op mc1)) (snd (dispatch_checked op mc2)).
Proof.
  intros E. pose proof (proper_execute op mc1 mc2 E) as Hp. unfold dispatch_checked.
  destruct (execute op mc1), (execute op mc2); simpl in *; try done;
    destruct Hp as [? ?]; split; congruence || done.
Qed.

(** Whatever handlers are tried, a dispatch behaves as [execute]. *)
Lemma dispatch_refines use_jit was_in_it declined op (core : Core M) :
  op_ok op -> core_ok core ->
  let r := dispatch use_jit was_in_it declined (it_adjusted op was_in_it)
             (classifyJitFast op) (cs_instruction_address (mc_cpu (core_mc core))) core in
  let s := dispatch_checked (it_adjusted op was_in_it) (core_mc core) in
  fst r = fst s /\ mc_eqv (core_mc (snd r)) (snd s).
Proof.
  intros Hop [Hc Hm]. cbv zeta. unfold dispatch.
  set (attempted := use_jit && negb was_in_it && negb declined && _).
  destruct attempted eqn:Ha.
  - subst attempted. rewrite !andb_true_iff, negb_true_iff in Ha.
    destruct Ha as [[[_ Hit] _] _]. rewrite Hit, it_adjusted_outside.
    pose proof (executeJitFast_refines op (mc_cpu (core_mc core)) (mc_mem (core_mc core))
      Hop Hc Hm (mc_diag (core_mc core))) as Hr.
    destruct (executeJitFast op _ _ _ _) as [[[] st'] m'] eqn:E.
    + destruct Hr as (m'' & Hexec & Heqv). unfold dispatch_checked.
      replace (mkMachine _ _ _) with (core_mc core) in Hexec by (by destruct (core_mc core)).
      rewrite Hexec. split; [done|]. by constructor.
    + destruct Hr as [-> Heqv]. unfold dispatch_checked.
      assert (mc_eqv (with_mem m' (with_cpu (mc_cpu (core_mc core)) (core_mc core))) (core_mc core))
        as Hmc by (by constructor).
      pose proof (proper_execute op _ _ Hmc) as Hp. cbn [negb].
      destruct (execute op (with_mem _ _)), (execute op (core_mc core)); simpl in *; try done;
        destruct Hp as [? ?]; split; simpl; congruence || done.
  - unfold dispatch_checked. destruct (execute _ (core_mc core)); simpl; done.
Qed.

Lemma dispatch_eqv u1 d1 u2 d2 was op c1 c2 : op_ok op -> core_ok c1 -> core_eqv c1 c2 ->
  core_ok c2 ->
  result_eqv
    (dispatch u1 was d1 (it_adjusted op was) (classifyJitFast op)
       (cs_instruction_address (mc_cpu (core_mc c1))) c1)
    (dispatch u2 was d2 (it_adjusted op was) (classifyJitFast op)
       (cs_instruction_address (mc_cpu (core_mc c2))) c2).
Proof.
  intros Hop Hc1 E Hc2.
  destruct (dispatch_refines u1 was d1 op c1 Hop Hc1) as [F1 E1].
  destruct (dispatch_refines u2 was d2 op c2 Hop Hc2) as [F2 E2].
  destruct (dispatch_checked_proper (it_adjusted op was) _ _ E) as [F E'].
  split; [congruence|]. unfold core_eqv. etrans; [exact E1|]. etrans; [exact E'|]. by symmetry.
Qed.

(** ** The checked path *)

Lemma cpu_ok_advance_pc pc size st : cpu_ok st -> is_u32 pc -> cpu_ok (advance_pc pc size st).
Proof. intros. apply cpu_ok_set_reg; [cpu_ok_fields | apply u32_range]. Qed.

Lemma core_eqv_cpu st c1 c2 : core_eqv c1 c2 ->
  core_eqv {| c1 with core_mc := with_cpu st (core_mc c1) |}
           {| c2 with core_mc := with_cpu st (core_mc c2) |}.
Proof. apply mc_eqv_with_cpu. Qed.
Lemma core_eqv_diag d c1 c2 : core_eqv c1 c2 ->
  core_eqv {| c1 with core_mc := with_diag d (core_mc c1) |}
           {| c2 with core_mc := with_diag d (core_mc c2) |}.
Proof. intros []. by constructor. Qed.

Lemma finish_stop_eqv r si pc reason restart c1 c2 : core_eqv c1 c2 ->
  result_eqv (finish_stop r si pc reason restart c1) (finish_stop r si pc reason restart c2).
Proof.
  intros E. pose proof (me_cpu _ _ E) as Hcpu. pose proof (me_diag _ _ E) as Hdiag.
  unfold finish_stop. rewrite Hcpu, Hdiag.
  destruct reason, restart; split; try done;
    first [ by apply core_eqv_diag | by apply (core_eqv_diag _ _ _ (core_eqv_cpu _ _ _ E)) ].
Qed.

Lemma step_checked_eqv u1 d1 u2 d2 raw size op r pc c1 c2 :
  op_ok op -> core_ok c1 -> core_ok c2 -> core_eqv c1 c2 -> is_u32 pc ->
  result_eqv (step_checked u1 d1 (step_instruction raw size op) r pc c1)
             (step_checked u2 d2 (step_instruction raw size op) r pc c2).
Proof.
  intros Hop Hc1 Hc2 E Hpc. unfold step_checked.
  pose proof (me_cpu _ _ E) as Hcpu. rewrite Hcpu.
  rewrite (mmioTrapping_proper _ _ (me_mem _ _ E)).
  set (si := step_instruction raw size op). set (st := mc_cpu (core_mc c2)).
  set (passed := bool_decide _ || _). set (was := inItBlock _).
  set (restart := if _ && _ then Some st else None).
  set (a1 := mkCore (with_cpu _ (core_mc c1)) _).
  set (a2 := mkCore (with_cpu _ (core_mc c2)) _).
  assert (core_eqv a1 a2) as Ea by (by apply core_eqv_cpu).
  assert (core_ok a1 /\ core_ok a2) as [Ha1 Ha2].
  { destruct Hc1 as [Hc1 Hm1], Hc2 as [Hc2 Hm2]. rewrite Hcpu in Hc1.
    split; (split; [by apply cpu_ok_advance_pc | done]). }
  assert (result_eqv
    (if passed then dispatch u1 was d1 (it_adjusted op was) (si_jit_fast si) pc a1 else (None, a1))
    (if passed then dispatch u2 was d2 (it_adjusted op was) (si_jit_fast si) pc a2 else (None, a2)))
    as Hd.
  { destruct passed; [|by split]. exact (dispatch_eqv u1 d1 u2 d2 was op a1 a2 Hop Ha1 Ea Ha2). }
  cbn [si_decoded si] in *. change (si_decoded si) with op.
  destruct (if passed then dispatch u1 _ _ _ _ _ _ else _) as [stop b1],
           (if passed then dispatch u2 _ _ _ _ _ _ else _) as [stop' b2].
  destruct Hd as [Hs Eb]. simpl in Hs. subst stop'. simpl in Eb.
  set (e1 := if negb _ && was then _ else b1). set (e2 := if negb _ && was then _ else b2).
  assert (core_eqv e1 e2) as Ee.
  { subst e1 e2. destruct (negb _ && was); [|done]. rewrite (me_cpu _ _ Eb).
    by apply core_eqv_cpu. }
  rewrite (me_cpu _ _ Ee). destruct stop as [reason|]; [by apply finish_stop_eqv | by split].
Qed.

(** ** The unconditional fast path *)

Lemma rewind_advance pc size st : cpu_ok st -> reg st 15 = pc ->
  set_reg 15 pc {| (advance_pc pc size st) with
                   cs_instruction_address := cs_instruction_address st |} = st.
Proof.
  intros Hst <-. unfold advance_pc, set_reg, rset. cpu_fields.
  rewrite list_insert_insert_eq, list_insert_id; [by destruct st|].
  unfold reg, rget. destruct (lookup_lt_is_Some_2 (cs_r st) (Z.to_nat 15)) as [v Hv].
  - rewrite ok_r_length by done. lia.
  - by rewrite Hv.
Qed.

(** The checked step of an unconditional instruction outside an IT block. *)
Lemma step_checked_al u d raw size op r pc c : di_condition op = Condition.al ->
  cs_it_state (mc_cpu (core_mc c)) = 0 ->
  let si := step_instruction raw size op in
  let st := mc_cpu (core_mc c) in
  step_checked u d si r pc c =
    (let '(stop, core) := dispatch u false d op (si_jit_fast si) pc
       {| c with core_mc := with_cpu (advance_pc pc size st) (core_mc c) |} in
     let cycles := if bool_decide (stop = None)
       then branch_cycles si pc (instruction_cost si st) (mc_cpu (core_mc core))
       else instruction_cost si st in
     let r := {| r with fs_reason := default StopReason.step_complete stop;
                        fs_instructions := 1; fs_cycles := cycles |} in
     match stop with
     | None => (r, core)
     | Some reason => finish_stop r si pc reason
         (if si_may_trap si && mmioTrapping (mc_mem (core_mc c)) then Some st else None) core
     end).
Proof.
  intros Hal Hit si st. unfold step_checked. fold st.
  assert (inItBlock (cs_it_state st) = false) as Hin by (unfold st; by rewrite Hit).
  rewrite Hin. change (si_decoded si) with op.
  assert (effective_condition op st = Condition.al) as Hc.
  { unfold effective_condition. rewrite Hin. by destruct (kind_eqb _ _). }
  rewrite Hc. rewrite bool_decide_eq_true_2 by done. cbn [orb andb].
  rewrite it_adjusted_outside, andb_false_r. done.
Qed.

Lemma try_unconditional_refines raw size op r pc c :
  op_ok op -> core_ok c -> is_u32 pc -> reg (mc_cpu (core_mc c)) 15 = pc ->
  di_condition op = Condition.al -> cs_it_state (mc_cpu (core_mc c)) = 0 ->
  let si := step_instruction raw size op in
  match try_unconditional si r pc c with
  | (Some retired, _) => result_eqv retired (step_checked false false si r pc c)
  | (None, c') => core_ok c' /\ core_eqv c' c
  end.
Proof.
  intros Hop [Hc Hm] Hpc Hreg Hal Hit si. set (st := mc_cpu (core_mc c)) in *.
  pose proof (cpu_ok_advance_pc pc size st Hc Hpc) as Hadv.
  unfold try_unconditional. change (si_decoded si) with op.
  change (si_jit_fast si) with (classifyJitFast op). change (si_size si) with size. fold st.
  pose proof (executeJitFast_refines op (advance_pc pc size st) (mc_mem (core_mc c))
    Hop Hadv Hm (mc_diag (core_mc c))) as Hr.
  change (cs_instruction_address (advance_pc pc size st)) with pc in Hr.
  destruct (executeJitFast op _ pc _ _) as [[[] st'] m'].
  - destruct Hr as (m'' & Hexec & Heqv).
    unfold si. rewrite step_checked_al by done. fold si. fold st. unfold dispatch. cbn [andb core_mc].
    replace (with_cpu (advance_pc pc size st) (core_mc c))
      with (mkMachine (advance_pc pc size st) (mc_mem (core_mc c)) (mc_diag (core_mc c))) by done.
    rewrite Hexec. split; [done|]. by constructor.
  - destruct Hr as [-> Heqv]. subst st. rewrite rewind_advance by done.
    assert (core_eqv {| c with core_mc :=
      with_mem m' (with_cpu (mc_cpu (core_mc c)) (core_mc c)) |} c) as E by (by constructor).
    split; [|done]. split; [done|]. simpl. by apply (mem_ok_proper _ _ Heqv).
Qed.

(** ** The two steppers agree *)

Lemma stepFastImpl_agrees (c : Core M) : core_ok c ->
  result_eqv (stepFastImpl true false c) (stepFastImpl false false c).
Proof.
  intros Hc. pose proof Hc as [Hcpu Hm]. unfold stepFastImpl.
  destruct (cs_halted _); [done|]. destruct (negb (valid_thumb_state _)); [done|].
  destruct (fetch _ _ _ _ _) as [[si|r d] m'] eqn:Hf; [|done].
  assert (is_u32 (reg (mc_cpu (core_mc c)) 15)) as Hpc by eauto with fil.
  apply fetch_decodes in Hf as (Hm' & raw & size & op & -> & Hop & _ & _); [|done..].
  set (c' := mkCore (with_mem m' (core_mc c)) (core_stats c)).
  assert (core_ok c') as Hc' by (by split).
  match goal with |- context [step_checked false false _ ?r' _ _] => set (r := r') end.
  cbn [negb andb].
  destruct (Z.eqb_spec (cs_it_state (mc_cpu (core_mc c))) 0) as [Hit|_];
    [|by apply step_checked_eqv]. cbn [andb].
  destruct (si_fast_unconditional _) eqn:Hu; [|by apply step_checked_eqv].
  apply andb_true_iff in Hu as [Hal _]. apply bool_decide_eq_true in Hal.
  pose proof (try_unconditional_refines raw size op r (reg (mc_cpu (core_mc c)) 15) c'
    Hop Hc' Hpc eq_refl Hal Hit) as Ht. cbv zeta in Ht.
  destruct (try_unconditional _ r _ c') as [[retired|] c''].
  - exact Ht.
  - destruct Ht as [Hok E]. by apply step_checked_eqv.
Qed.
End step.
