(* ===== verification/StepFrame.v ===== *)
(** * What an instruction cannot do

    Two frame properties of [execute], used for the cycle prediction and the restart logic
    of the stepper: instructions that name no PC destination keep the program counter, and
    instructions that access no memory never ask for synchronization. *)

From S2P Require Import Prelude Address Instruction InstructionProofs Decoder DecoderProofs.
From S2P Require Import CpuState CpuStateProofs Float32 MemoryApi Machine Execute JitFast Step.
#[local] Open Scope Z_scope.
#[local] Open Scope fil_scope.

(** ** The program counter *)

Lemma reg_set_reg_ne i v st : i <> 15 -> reg (set_reg i v st) 15 = reg st 15.
Proof. intros Hi. unfold reg, set_reg, rget, rset. cbn [cs_r]. rewrite list_lookup_insert_ne; [done|lia]. Qed.
Lemma reg_set_activeSp v st : reg (set_activeSp v st) 15 = reg st 15.
Proof. unfold set_activeSp. by destruct (uses_msp st). Qed.
Lemma reg_writeRegister i v st : i <> 15 -> reg (writeRegister i v st) 15 = reg st 15.
Proof.
  intros Hi. unfold writeRegister. destruct (16 <=? i); [done|].
  destruct (Z.eqb_spec i 13).
  - by rewrite reg_set_reg_ne, reg_set_activeSp.
  - by rewrite reg_set_reg_ne.
Qed.
Lemma reg_writeAluResult i v st : i <> 15 -> reg (writeAluResult i v st) 15 = reg st 15.
Proof. intros Hi. unfold writeAluResult. destruct (Z.eqb_spec i 15); [done|]. by apply reg_writeRegister. Qed.
Lemma reg_when_flags b f st : (∀ st, reg (f st) 15 = reg st 15) -> reg (when_flags b f st) 15 = reg st 15.
Proof. intros Hf. by destruct b; cbn [when_flags]. Qed.
Lemma reg_setNz v st : reg (setNz v st) 15 = reg st 15.
Proof. done. Qed.
Lemma reg_setNzc v c st : reg (setNzc v c st) 15 = reg st 15.
Proof. done. Qed.
Lemma reg_setNzcv r st : reg (setNzcv r st) 15 = reg st 15.
Proof. done. Qed.
Lemma reg_set_xpsr v st : reg (set_xpsr v st) 15 = reg st 15.
Proof. done. Qed.
Lemma reg_set_sreg i v st : reg (set_sreg i v st) 15 = reg st 15.
Proof. done. Qed.

(** The kinds whose case writes the program counter through a branch. *)
Definition is_branch_kind (k : InstrKind.t) : bool :=
  match k with
  | InstrKind.b | InstrKind.bl | InstrKind.bx | InstrKind.blx | InstrKind.cbz
  | InstrKind.cbnz | InstrKind.tbb | InstrKind.tbh => true
  | _ => false
  end.

(** The instruction names the program counter as a destination. *)
Definition names_pc (op : DecodedInstruction) : bool :=
  loaded_target op || (di_rd op =? 15) || (di_ra op =? 15) || (di_writeback op && (di_rn op =? 15)).

Lemma names_pc_false op : names_pc op = false ->
  loaded_target op = false /\ di_rd op <> 15 /\ di_ra op <> 15
  /\ (di_writeback op = true -> di_rn op <> 15).
Proof.
  unfold names_pc. rewrite !orb_false_iff, !Z.eqb_neq. intros [[[? ?] ?] Hw].
  repeat split; try done. intros E. rewrite E in Hw. by apply Z.eqb_neq.
Qed.

Ltac pc_frame :=
  repeat first
    [ done
    | rewrite reg_writeRegister by done
    | rewrite reg_writeAluResult by done
    | rewrite reg_set_sreg
    | rewrite reg_set_xpsr
    | rewrite reg_when_flags by (intros; pc_frame) ].

Section fp_frame.
Context `{HostNaN}.

Lemma register_case_pc op f st : register_case op = Some f ->
  is_branch_kind (di_kind op) = false -> names_pc op = false -> reg (f st) 15 = reg st 15.
Proof.
  intros Hf Hb Hn. apply names_pc_false in Hn as (_ & Hd & Ha & _).
  unfold register_case in Hf. destruct (di_kind op) eqn:K; try discriminate; injection Hf as <-;
    unfold alu_movt, alu_add_sub, alu_rsb, alu_cmp_cmn, alu_tst, alu_logic, alu_mul, alu_mla_mls,
      alu_umull, alu_smull, alu_udiv, alu_sdiv, alu_sel, alu_clz, alu_bfc, alu_ubfx, alu_extend,
      alu_rev, alu_rev16, alu_revsh, alu_shift, fp_unary, fp_binary, alu_vfma, alu_vcmp, alu_vmrs;
    cbv zeta; pc_frame.
  - unfold alu_uadd8. cbv zeta. destruct (foldl _ _ _) as [v g]. pc_frame.
  - by destruct (has (di_imm op) 0x2), (has (di_imm op) 0x1).
Qed.
End fp_frame.

(** ** Frames of the executor *)

Section frame.
Context `{HostNaN} `{CpuMemory M}.

(** Completing leaves the program counter alone. *)
Definition keeps_pc {A} (e : Exec M A) : Prop := ∀ mc,
  match e mc with
  | Done _ mc' => reg (mc_cpu mc') 15 = reg (mc_cpu mc) 15
  | Stop _ _ => True
  end.

Lemma keeps_ret {A} (a : A) : keeps_pc (mret a).
Proof. by intros mc. Qed.
Lemma keeps_bind {A B} (e : Exec M A) (f : A -> Exec M B) :
  keeps_pc e -> (∀ a, keeps_pc (f a)) -> keeps_pc (e ≫= f).
Proof.
  intros He Hf mc. specialize (He mc). unfold mbind, Exec_bind. destruct (e mc) as [a mc1|]; [|done].
  specialize (Hf a mc1). destruct (f a mc1); [|done]. congruence.
Qed.
Lemma keeps_gets {A} (f : CpuState -> A) : keeps_pc (gets f).
Proof. by intros mc. Qed.
Lemma keeps_modify f : (∀ st, reg (f st) 15 = reg st 15) -> keeps_pc (modify f).
Proof. intros Hf mc. apply Hf. Qed.
Lemma keeps_when b (e : Exec M unit) : (b = true -> keeps_pc e) -> keeps_pc (when b e).
Proof. intros He. destruct b; [by apply He|apply keeps_ret]. Qed.
Lemma keeps_access {A} (op : M -> MemoryResult A * M) m : keeps_pc (access op m).
Proof. intros mc. unfold access. by destruct (op (mc_mem mc)) as [[v|f] m']. Qed.
Lemma keeps_failInvalid {A} m : keeps_pc (failInvalid (A := A) m).
Proof. by intros mc. Qed.
Lemma keeps_failWith {A} r m : keeps_pc (failWith (A := A) r m).
Proof. by intros mc. Qed.
Lemma keeps_aspen : keeps_pc aspen_enabled.
Proof. by intros mc. Qed.

(** The computation never stops for the reason [bad]. *)
Definition avoids {A} (bad : StopReason.t) (e : Exec M A) : Prop := ∀ mc mc', e mc <> Stop bad mc'.
Definition no_sync {A} (e : Exec M A) : Prop := avoids StopReason.synchronization_required e.

Lemma avoids_ret {A} bad (a : A) : avoids bad (mret a).
Proof. by intros mc mc'. Qed.
Lemma avoids_bind {A B} bad (e : Exec M A) (f : A -> Exec M B) :
  avoids bad e -> (∀ a, avoids bad (f a)) -> avoids bad (e ≫= f).
Proof.
  intros He Hf mc mc'. unfold mbind, Exec_bind. destruct (e mc) as [a mc1|r mc1] eqn:E.
  - apply Hf.
  - intros [= -> ->]. by apply (He mc mc').
Qed.
Lemma avoids_gets {A} bad (f : CpuState -> A) : avoids bad (gets f).
Proof. by intros mc mc'. Qed.
Lemma avoids_modify bad f : avoids bad (modify f).
Proof. by intros mc mc'. Qed.
Lemma avoids_when bad b (e : Exec M unit) : (b = true -> avoids bad e) -> avoids bad (when b e).
Proof. intros He. destruct b; [by apply He|apply avoids_ret]. Qed.
Lemma avoids_failInvalid {A} bad m : bad <> StopReason.invalid_state ->
  avoids bad (failInvalid (A := A) m).
Proof. intros Hb mc mc'. intros [= E _]. by apply Hb. Qed.
Lemma avoids_failWith {A} bad r m : r <> bad -> avoids bad (failWith (A := A) r m).
Proof. intros Hb mc mc'. by intros [= E _]. Qed.
Lemma avoids_branch bad t m : bad <> StopReason.invalid_state -> avoids bad (branch_or_fail t m).
Proof.
  intros Hb mc mc'. unfold branch_or_fail. destruct (branchWritePc t (mc_cpu mc)) as [[] st]; [done|].
  by apply avoids_failInvalid.
Qed.
Lemma avoids_access {A} bad (op : M -> MemoryResult A * M) m :
  bad <> StopReason.synchronization_required -> bad <> StopReason.bus_fault ->
  avoids bad (access op m).
Proof.
  intros Hs Hb mc mc'. unfold access, failBus. destruct (op (mc_mem mc)) as [[v|f] m']; [done|].
  destruct (bool_decide _); intros [= E _]; [by apply Hs|by apply Hb].
Qed.
Lemma avoids_aspen bad : avoids bad aspen_enabled.
Proof. by intros mc mc'. Qed.

Create HintDb frame discriminated.
#[local] Hint Resolve keeps_ret keeps_gets keeps_access keeps_failInvalid keeps_failWith keeps_aspen
  avoids_ret avoids_gets avoids_modify avoids_aspen : frame.
#[local] Hint Extern 1 (avoids _ (access _ _)) => (apply avoids_access; done) : frame.
#[local] Hint Extern 1 (avoids _ (failInvalid _)) => (apply avoids_failInvalid; done) : frame.
#[local] Hint Extern 1 (avoids _ (failWith _ _)) => (apply avoids_failWith; done) : frame.
#[local] Hint Extern 1 (avoids _ (branch_or_fail _ _)) => (apply avoids_branch; done) : frame.

Ltac frame_step :=
  first
    [ solve [auto with frame nocore]
    | apply keeps_bind; [|intros ?]
    | apply keeps_when; intros ?
    | apply keeps_modify; intros ?; solve [pc_frame]
    | apply avoids_bind; [|intros ?]
    | apply avoids_when; intros ? ].

Lemma keeps_load_fp n first a c m : keeps_pc (load_fp n first a c m).
Proof. revert first a. induction n as [|n IH]; intros first a; cbn [load_fp]; repeat frame_step. Qed.
Lemma keeps_store_fp n first a c m : keeps_pc (store_fp n first a c m).
Proof. revert first a. induction n as [|n IH]; intros first a; cbn [store_fp]; repeat frame_step. Qed.
Lemma keeps_load_multiple regs a c : keeps_pc (load_multiple regs a c).
Proof. revert a. induction regs as [|r regs IH]; intros a; cbn [load_multiple]; repeat frame_step. Qed.
Lemma keeps_store_multiple regs a c : keeps_pc (store_multiple regs a c).
Proof. revert a. induction regs as [|r regs IH]; intros a; cbn [store_multiple]; repeat frame_step. Qed.
Lemma reg_write_loaded regs vs st : reg (write_loaded regs vs st) 15 = reg st 15.
Proof.
  revert vs st. induction regs as [|r regs IH]; intros [|v vs] st; cbn [write_loaded]; try done.
  rewrite IH. destruct (Z.eqb_spec r 15); [done|]. by apply reg_writeRegister.
Qed.
Lemma keeps_store_by_kind k a v c : keeps_pc (store_by_kind k a v c).
Proof. unfold store_by_kind. destruct k; apply keeps_access. Qed.
Lemma keeps_load_by_kind k a c : keeps_pc (load_by_kind k a c).
Proof. unfold load_by_kind. destruct k; repeat frame_step. Qed.
Lemma reg_msr_write sysm v st st' : msr_write sysm v st = Some st' -> reg st' 15 = reg st 15.
Proof.
  unfold msr_write. intros E. repeat case_match; simplify_eq; try done; by rewrite reg_set_reg_ne.
Qed.
#[local] Hint Resolve keeps_load_fp keeps_store_fp keeps_load_multiple keeps_store_multiple
  keeps_store_by_kind keeps_load_by_kind : frame.

Lemma keeps_fp_prologue op : keeps_pc (fp_prologue op).
Proof. unfold fp_prologue, stack_lazy_fp. repeat frame_step. Qed.

(** The memory and system cases, one by one. *)
Section cases.
Variable op : DecodedInstruction.
Hypotheses (Hd : di_rd op <> 15) (Ha : di_ra op <> 15)
  (Hw : di_writeback op = true -> di_rn op <> 15)
  (Hl : is_block_load op && Z.testbit (di_register_list op) 15 = false).

Lemma keeps_writeback a : keeps_pc (when (di_writeback op) (modify (writeRegister (di_rn op) a))).
Proof. apply keeps_when. intros E. apply keeps_modify. intros st. by apply reg_writeRegister, Hw. Qed.
#[local] Hint Resolve keeps_writeback : frame.

Lemma rd_not_pc : (di_rd op =? 15) = false.
Proof. by apply Z.eqb_neq. Qed.

Lemma keeps_mov : keeps_pc (exec_mov op).
Proof. unfold exec_mov. rewrite rd_not_pc. repeat frame_step. Qed.
Lemma keeps_ldr : keeps_pc (exec_ldr op).
Proof. unfold exec_ldr. rewrite rd_not_pc. repeat frame_step. Qed.
Lemma keeps_load_store : keeps_pc (exec_load_store op).
Proof. unfold exec_load_store. rewrite rd_not_pc. destruct (isStore _); repeat frame_step. Qed.
Lemma keeps_ldrd_strd : keeps_pc (exec_ldrd_strd op).
Proof. unfold exec_ldrd_strd. cbv zeta. destruct (kind_eqb _ _); repeat frame_step. Qed.
Lemma keeps_block : keeps_pc (exec_block op).
Proof.
  unfold exec_block. cbv zeta. rewrite Hl. destruct (is_block_load op); repeat frame_step.
  apply keeps_modify. intros st. apply reg_write_loaded.
Qed.
Lemma keeps_vldr_vstr : keeps_pc (exec_vldr_vstr op).
Proof. unfold exec_vldr_vstr. cbv zeta. destruct (kind_eqb _ _); repeat frame_step. Qed.
Lemma keeps_vldm_vstm : keeps_pc (exec_vldm_vstm op).
Proof. unfold exec_vldm_vstm. cbv zeta. destruct (kind_eqb _ _); repeat frame_step. Qed.
Lemma keeps_mrs : keeps_pc (exec_mrs op).
Proof. apply keeps_bind; [apply keeps_gets|]. intros [v|]; repeat frame_step. Qed.
Lemma keeps_msr : keeps_pc (exec_msr op).
Proof.
  intros mc. unfold exec_msr, mbind, Exec_bind, gets, modify.
  destruct (msr_write _ _ _) as [st|] eqn:E; [|done]. cbn. by eapply reg_msr_write.
Qed.
Lemma keeps_it : keeps_pc (exec_it op).
Proof. apply keeps_bind; [apply keeps_gets|]. intros []; repeat frame_step. Qed.
Lemma keeps_bkpt : keeps_pc (exec_bkpt op).
Proof. unfold exec_bkpt. repeat frame_step. Qed.
End cases.

Lemma keeps_execute op : is_branch_kind (di_kind op) = false -> names_pc op = false ->
  keeps_pc (execute op).
Proof.
  intros Hb Hn. apply keeps_bind; [apply keeps_fp_prologue|intros _].
  pose proof (names_pc_false op Hn) as (Hl & Hd & Ha & Hw). unfold execute_switch.
  destruct (register_case op) as [f|] eqn:Hf.
  { apply keeps_modify. intros st. by apply (register_case_pc op f st). }
  assert (is_block_load op && Z.testbit (di_register_list op) 15 = false) as Hbl.
  { unfold loaded_target in Hl. unfold is_block_load, kind_eqb. by destruct (di_kind op). }
  destruct (di_kind op) eqn:K; try discriminate Hf; try discriminate Hb; try apply keeps_failWith.
  all: auto using keeps_mov, keeps_ldr, keeps_load_store, keeps_ldrd_strd, keeps_block,
    keeps_vldr_vstr, keeps_vldm_vstm, keeps_mrs, keeps_msr, keeps_it, keeps_bkpt.
  all: unfold register_case in Hf; rewrite K in Hf; discriminate Hf.
Qed.

(** ** Synchronization *)

(** The instruction accesses memory when executed with its condition passed. *)
Definition pc_load (op : DecodedInstruction) : bool :=
  match di_kind op with
  | InstrKind.ldr | InstrKind.str | InstrKind.ldrb | InstrKind.strb | InstrKind.ldrh
  | InstrKind.strh | InstrKind.ldrsb | InstrKind.ldrsh | InstrKind.ldrd | InstrKind.strd
  | InstrKind.ldm | InstrKind.stm | InstrKind.push | InstrKind.pop =>
      (di_rd op =? 15) || (is_block_load op && Z.testbit (di_register_list op) 15)
  | _ => false
  end.

(** Without [may_trap], only a load (or store) of the program counter reaches the bus. *)
Lemma no_sync_execute raw size op : si_may_trap (step_instruction raw size op) = false ->
  pc_load op = false -> no_sync (execute op).
Proof.
  intros Ht Hp. unfold step_instruction, si_may_trap, classifyJitBoundary in Ht. unfold pc_load in Hp.
  unfold execute, fp_prologue.
  destruct (di_kind op) eqn:K;
    try (apply orb_false_iff in Hp as [Hp1 Hp2]; rewrite Hp1, Hp2 in Ht);
    try discriminate Ht; cbn [isFpRegisterAccess].
  all: apply avoids_bind; [apply avoids_ret|intros _]; unfold execute_switch.
  all: destruct (register_case op) as [f|] eqn:Hf; [apply avoids_modify|].
  all: try (unfold register_case in Hf; rewrite K in Hf; discriminate Hf).
  all: rewrite K; unfold exec_mov, exec_bx_blx; repeat frame_step.
  all: match goal with |- avoids _ (if ?b then _ else _) => destruct b end; repeat frame_step.
Qed.

(** ** The reasons for which the executor stops *)

Section stops.
Variable bad : StopReason.t.
Hypotheses (Hsync : bad <> StopReason.synchronization_required)
  (Hbus : bad <> StopReason.bus_fault) (Hinvalid : bad <> StopReason.invalid_state)
  (Hundef : StopReason.undefined_instruction <> bad) (Hbkpt : StopReason.breakpoint <> bad).

Lemma stops_load_fp n first a c m : avoids bad (load_fp n first a c m).
Proof. revert first a. induction n as [|n IH]; intros first a; cbn [load_fp]; repeat frame_step. Qed.
Lemma stops_store_fp n first a c m : avoids bad (store_fp n first a c m).
Proof. revert first a. induction n as [|n IH]; intros first a; cbn [store_fp]; repeat frame_step. Qed.
Lemma stops_load_multiple regs a c : avoids bad (load_multiple regs a c).
Proof. revert a. induction regs as [|r regs IH]; intros a; cbn [load_multiple]; repeat frame_step. Qed.
Lemma stops_store_multiple regs a c : avoids bad (store_multiple regs a c).
Proof. revert a. induction regs as [|r regs IH]; intros a; cbn [store_multiple]; repeat frame_step. Qed.
Lemma stops_load_pc v m : avoids bad (load_pc v m).
Proof. unfold load_pc. destruct (isExceptionReturn v); repeat frame_step. Qed.
Lemma stops_store_by_kind k a v c : avoids bad (store_by_kind k a v c).
Proof. unfold store_by_kind. destruct k; by apply avoids_access. Qed.
Lemma stops_load_by_kind k a c : avoids bad (load_by_kind k a c).
Proof. unfold load_by_kind. destruct k; repeat frame_step. Qed.
#[local] Hint Resolve stops_load_fp stops_store_fp stops_load_multiple stops_store_multiple
  stops_load_pc stops_store_by_kind stops_load_by_kind : frame.

Ltac stop_case :=
  repeat first
    [ frame_step
    | match goal with
      | |- avoids _ (if ?b then _ else _) => destruct b
      | |- avoids _ (match ?o with Some _ => _ | None => _ end) => destruct o
      end ].

Lemma stops_execute op : avoids bad (execute op).
Proof.
  apply avoids_bind; [unfold fp_prologue, stack_lazy_fp; stop_case|intros _]. unfold execute_switch.
  destruct (register_case op) as [f|]; [apply avoids_modify|].
  destruct (di_kind op);
    unfold exec_mov, exec_ldr, exec_load_store, exec_ldrd_strd, exec_block, exec_bx_blx,
      exec_table_branch, exec_vldr_vstr, exec_vldm_vstm, exec_mrs, exec_msr, exec_it, exec_bkpt;
    cbv zeta; stop_case.
Qed.
End stops.
End frame.
