(* ===== verification/StepSafety.v ===== *)
(** * Safety of a step

    Invariant preservation and cost bounds of the stepper, the restart contract of
    synchronization stops, and the accuracy of the cycle prediction. *)

From S2P Require Import Prelude Address Instruction InstructionProofs Decoder DecoderProofs.
From S2P Require Import CpuState CpuStateProofs Float32 MemoryApi Machine Execute.
From S2P Require Import ExecuteProofs JitFast JitFastProofs Step StepProofs StepFrame.
#[local] Open Scope Z_scope.
#[local] Open Scope fil_scope.

Section safety.
Context `{HostNaN} {M : Type} `{ML : CpuMemoryLaws M}.

(** ** The checked step, unfolded *)

Lemma dispatch_plain was op fast pc (core : Core M) :
  dispatch false was false op fast pc core
  = (fst (dispatch_checked op (core_mc core)),
     {| core with core_mc := snd (dispatch_checked op (core_mc core)) |}).
Proof. unfold dispatch, dispatch_checked. cbn [andb]. by destruct (execute op (core_mc core)). Qed.

Lemma execute_ok op (mc : Machine M) : op_ok op -> machine_ok mc ->
  machine_ok (snd (dispatch_checked op mc)).
Proof.
  intros Hop Hm. pose proof (inv_execute op Hop mc Hm) as Hi. unfold dispatch_checked.
  destruct (execute op mc); cbn in *; [by destruct Hi|done].
Qed.

Lemma fetch_mem_ok r pc st m d : mem_ok m -> mem_ok (snd (fetch r pc st m d)).
Proof.
  intros Hm. unfold fetch. set (c := mkAccessContext _ pc).
  pose proof (read16_ok pc c m Hm) as Hm1. destruct (read16 pc c m) as [[first|f] m1]; [|done].
  cbn [snd] in Hm1. destruct (is32BitThumbPrefix first); [|done].
  destruct (0xffffffff - 2 <? pc); [done|]. pose proof (read16_ok (pc + 2) c m1 Hm1) as Hm2.
  by destruct (read16 (pc + 2) c m1) as [[second|f] m2].
Qed.

(** The cost and result conditions of one step. *)
Record result_ok (r : FastStepResult) : Prop := {
  ro_instructions : fs_instructions r = 0 \/ fs_instructions r = 1;
  ro_cycles : 0 <= fs_cycles r <= 19;
  ro_complete : fs_reason r = StopReason.step_complete ->
    fs_instructions r = 1 /\ 1 <= fs_cycles r;
  ro_budget : fs_reason r <> StopReason.instruction_budget;
}.

Lemma instruction_cost_range raw size op st : op_ok op -> cpu_ok st ->
  1 <= instruction_cost (step_instruction raw size op) st <= 17.
Proof.
  intros Hop Hst. unfold instruction_cost. cbn [step_instruction si_divide_form si_base_cycles si_decoded].
  destruct (is_divide op) eqn:Hdiv.
  - pose proof (divideCycles_range (readRegister st (di_rm op)) (readRegister_range _ _ Hst)). lia.
  - apply basePipelineCycles_range, Hop.
Qed.
Lemma branch_cycles_range raw size op pc cycles st : 1 <= cycles <= 17 ->
  1 <= branch_cycles (step_instruction raw size op) pc cycles st <= 19.
Proof.
  intros Hc. unfold branch_cycles. cbn [step_instruction si_branch_penalty].
  pose proof (takenBranchPenalty_range (di_kind op)). destruct (negb _); [|lia].
  unfold u16. rewrite Z.mod_small; lia.
Qed.

Lemma finish_stop_ok r si pc reason restart (c : Core M) : core_ok c ->
  (∀ st, restart = Some st -> cpu_ok st) -> reason <> StopReason.step_complete ->
  reason <> StopReason.instruction_budget -> fs_reason r = reason -> (fs_instructions r = 1 /\ 0 <= fs_cycles r <= 19) ->
  core_ok (snd (finish_stop r si pc reason restart c)) /\ result_ok (fst (finish_stop r si pc reason restart c)).
Proof.
  intros [Hcpu Hm] Hres Hreason Hbud Hr [Hi Hc]. unfold finish_stop.
  destruct reason, restart as [st|]; try done; (split; [split|constructor]);
    cbn [fst snd core_mc mc_cpu mc_mem with_diag with_cpu fs_instructions fs_cycles fs_reason];
    try done; try lia; try (by apply Hres); try (rewrite Hr; done); rewrite ?Hi; auto.
Qed.

Lemma dispatch_stop_reason op (mc : Machine M) reason :
  fst (dispatch_checked op mc) = Some reason ->
  reason <> StopReason.step_complete /\ reason <> StopReason.instruction_budget.
Proof.
  unfold dispatch_checked. destruct (execute op mc) as [u mc'|reason' mc'] eqn:E; [done|].
  intros [= <-]. split; intros ->; by eapply (stops_execute _) in E.
Qed.

Lemma advanceIt_ok c : core_ok c ->
  core_ok {| c with core_mc := with_cpu (advanceIt (mc_cpu (core_mc c))) (core_mc c) |}.
Proof. intros [Hc Hm]. split; [by apply cpu_ok_advanceIt|done]. Qed.

Lemma step_checked_ok raw size op r pc (c : Core M) : op_ok op -> core_ok c -> is_u32 pc ->
  let p := step_checked false false (step_instruction raw size op) r pc c in
  core_ok (snd p) /\ result_ok (fst p).
Proof.
  intros Hop Hc Hpc. cbv zeta. unfold step_checked.
  set (si := step_instruction raw size op). change (si_decoded si) with op.
  set (passed := bool_decide _ || _). set (was := inItBlock _).
  set (restart := if _ && _ then Some _ else None).
  set (a := mkCore (with_cpu _ (core_mc c)) _).
  assert (core_ok a) as Ha by (destruct Hc; split; [by apply cpu_ok_advance_pc|done]).
  pose proof (instruction_cost_range raw size op _ Hop (proj1 Hc)) as Hcost. fold si in Hcost.
  set (base := if passed then instruction_cost si _ else 1).
  assert (1 <= base <= 17) as Hbase by (unfold base; destruct passed; lia).
  assert (∀ st, restart = Some st -> cpu_ok st) as Hres.
  { unfold restart. destruct (_ && _); [|done]. intros st [= <-]. apply Hc. }
  rewrite dispatch_plain.
  destruct (if passed then (fst _, _) else (None, a)) as [stop b] eqn:Eb.
  assert (core_ok b /\ stop <> Some StopReason.step_complete
    /\ stop <> Some StopReason.instruction_budget) as (Hb & Hstop & Hstop').
  { destruct passed; simplify_eq; [|done]. split.
    - apply (execute_ok (it_adjusted op was) (core_mc a)); [by apply op_ok_it_adjusted|done].
    - split; intros E; by apply dispatch_stop_reason in E as []. }
  set (e := if negb _ && was then _ else b).
  assert (core_ok e) as He by (unfold e; destruct (negb _ && was); [by apply advanceIt_ok|done]).
  pose proof (branch_cycles_range raw size op pc base (mc_cpu (core_mc e)) Hbase) as Hbr. fold si in Hbr.
  destruct stop as [reason|].
  - rewrite (bool_decide_eq_false_2 (Some reason = None)), andb_false_r by done.
    apply finish_stop_ok; try done; [by intros ->|by intros ->|]. cbn. lia.
  - rewrite bool_decide_eq_true_2, andb_true_r by done. split; [done|]. constructor; cbn [fst fs_instructions fs_cycles].
    + by right.
    + destruct passed; lia.
    + intros _. destruct passed; lia.
    + done.
Qed.

Lemma stop_early_ok r pc msg st (c : Core M) : core_ok c -> cpu_ok st ->
  fs_instructions r = 0 -> fs_cycles r = 0 -> fs_reason r <> StopReason.step_complete ->
  fs_reason r <> StopReason.instruction_budget ->
  core_ok (snd (stop_early r pc msg st c)) /\ result_ok (fst (stop_early r pc msg st c)).
Proof.
  intros [Hc Hm] Hst Hi Hcy Hr Hb. split; [by split|]. unfold stop_early. cbn [fst].
  constructor; [by left|lia|done|done].
Qed.

Lemma fetch_stop_result r pc st m d r' d' m' :
  fetch r pc st m d = (FetchStop r' d', m') -> fs_instructions r' = fs_instructions r
  /\ fs_cycles r' = fs_cycles r /\ fs_reason r' <> StopReason.step_complete
  /\ fs_reason r' <> StopReason.instruction_budget.
Proof.
  unfold fetch, decode_fetched, fetch_stop. intros Hf.
  repeat case_match; simplify_eq; done.
Qed.

(** Every step keeps the invariant, retires at most one instruction and costs at most 19
    cycles. *)
Lemma stepFast_ok (c : Core M) : core_ok c ->
  core_ok (snd (stepFast c)) /\ result_ok (fst (stepFast c)).
Proof.
  intros Hc. pose proof Hc as [Hcpu Hm]. unfold stepFast, stepFastImpl.
  set (st := mc_cpu (core_mc c)) in *.
  destruct (cs_halted st); [by apply stop_early_ok|].
  destruct (negb (valid_thumb_state st)).
  { apply stop_early_ok; try done. cpu_ok_fields. }
  set (r0 := mkFastStepResult _ _ _ _ _ _ _).
  pose proof (fetch_mem_ok r0 (reg st 15) st (mc_mem (core_mc c)) (mc_diag (core_mc c)) Hm) as Hm1.
  destruct (fetch r0 (reg st 15) st _ _) as [[si|r d] m1] eqn:Hf; cbn [snd] in Hm1.
  - assert (is_u32 (reg st 15)) as Hpc by by apply reg_range.
    apply fetch_decodes in Hf as (_ & raw & size & op & -> & Hop & _); [|done..].
    rewrite andb_false_r. cbn [andb]. by apply step_checked_ok.
  - destruct (fetch_stop_result _ _ _ _ _ _ _ _ Hf) as (Hi & Hcy & Hr & Hb).
    split; [by split|]. constructor; cbn [fst]; [by left|rewrite Hcy; cbn; lia|done|done].
Qed.

Lemma core_ok_eqv (c1 c2 : Core M) : core_eqv c1 c2 -> core_ok c2 -> core_ok c1.
Proof.
  intros E [Hc Hm]. split; [by rewrite (me_cpu _ _ E)|]. by apply (mem_ok_proper _ _ (me_mem _ _ E)).
Qed.
Lemma stepJitFast_ok (c : Core M) : core_ok c ->
  core_ok (snd (stepJitFast c)) /\ result_ok (fst (stepJitFast c)).
Proof.
  intros Hc. destruct (stepFastImpl_agrees c Hc) as [E Ec]. destruct (stepFast_ok c Hc) as [Hok Hr].
  unfold stepJitFast. rewrite E. split; [|done]. by apply (core_ok_eqv _ _ Ec).
Qed.

(** ** Bounded runs *)

(** A run of [budget] more steps after [bound] of them. *)
Lemma run_loop_ok budget one agg (c : Core M) bound : core_ok c ->
  rr_reason agg = StopReason.instruction_budget ->
  0 <= rr_instructions agg <= bound -> 0 <= rr_cycles agg <= 19 * bound ->
  bound + Z.of_nat budget < 2 ^ 59 ->
  let p := run_loop budget one agg c in
  core_ok (snd p)
  /\ rr_instructions agg <= rr_instructions (fst p) <= bound + Z.of_nat budget
  /\ rr_cycles agg <= rr_cycles (fst p) <= 19 * (bound + Z.of_nat budget)
  /\ (rr_reason (fst p) = StopReason.instruction_budget ->
      rr_instructions (fst p) = rr_instructions agg + Z.of_nat budget).
Proof.
  revert one agg c bound. induction budget as [|budget IH]; intros one agg c bound Hc Hr Hi Hcy Hmax.
  { cbn. destruct one; repeat split; try apply Hc; cbn; lia. }
  cbn [run_loop]. destruct (stepFast_ok c Hc) as [Hc1 Hr1].
  destruct (stepFast c) as [r1 c1]. cbn [fst snd] in *.
  pose proof (ro_instructions _ Hr1). pose proof (ro_cycles _ Hr1).
  assert (u64 (rr_instructions agg + fs_instructions r1) = rr_instructions agg + fs_instructions r1) as E1.
  { unfold u64. apply Z.mod_small. lia. }
  assert (u64 (rr_cycles agg + fs_cycles r1) = rr_cycles agg + fs_cycles r1) as E2.
  { unfold u64. apply Z.mod_small. lia. }
  destruct (bool_decide _) eqn:Hd.
  - apply bool_decide_eq_true in Hd. destruct (ro_complete _ Hr1 Hd) as [Hone _].
    cbv zeta. specialize (IH (Some r1) {| agg with
      rr_instructions := u64 (rr_instructions agg + fs_instructions r1);
      rr_cycles := u64 (rr_cycles agg + fs_cycles r1) |} c1 (bound + 1) Hc1 Hr).
    cbn [rr_instructions rr_cycles] in IH. rewrite E1, E2 in *.
    destruct IH as (Hok & Hin & Hcyc & Hbud); [lia..|]. repeat split; try apply Hok; try lia.
    intros Hreason. rewrite Hbud by done. lia.
  - cbn [fst snd rr_instructions rr_cycles rr_reason]. rewrite E1, E2. split; [done|].
    repeat split; try lia. intros E. by apply (ro_budget _ Hr1) in E.
Qed.

Lemma run_ok budget (c : Core M) : core_ok c -> Z.of_nat budget < 2 ^ 59 ->
  let p := run budget c in
  core_ok (snd p) /\ 0 <= rr_instructions (fst p) <= Z.of_nat budget
  /\ 0 <= rr_cycles (fst p) <= 19 * Z.of_nat budget
  /\ (rr_reason (fst p) = StopReason.instruction_budget -> rr_instructions (fst p) = Z.of_nat budget).
Proof.
  intros Hc Hb. unfold run.
  destruct (run_loop_ok budget None (mkRunResult StopReason.instruction_budget 0 0
    (capture (mc_cpu (core_mc c)) {| diagnostic_default with
       dg_instruction_address := reg (mc_cpu (core_mc c)) 15 |})) c 0) as (Hok & Hi & Hcy & Hbud);
    [done|done|cbn; lia..|]. cbn [rr_instructions rr_cycles] in *.
  repeat split; try apply Hok; try lia. intros E. rewrite Hbud by done. lia.
Qed.

(** ** Steps past the fetch *)

Definition start_result (pc : Z) : FastStepResult :=
  {| fast_step_default with fs_instruction_address := pc |}.
Definition fetched_result (pc : Z) (si : StepInstruction) : FastStepResult :=
  {| (start_result pc) with fs_raw := si_raw si; fs_instruction_size := si_size si;
       fs_suppress_loop_observation := si_suppress_loop_observation si |}.

(** The instruction that the next step will execute, and the bus after its fetch. *)
Definition fetches (c : Core M) (si : StepInstruction) (m : M) : Prop :=
  let st := mc_cpu (core_mc c) in
  cs_halted st = false /\ valid_thumb_state st = true
  /\ fetch (start_result (reg st 15)) (reg st 15) st (mc_mem (core_mc c)) (mc_diag (core_mc c))
     = (FetchOk si, m).

Lemma stepFast_fetched c si m : fetches c si m ->
  stepFast c = step_checked false false si (fetched_result (reg (mc_cpu (core_mc c)) 15) si)
                 (reg (mc_cpu (core_mc c)) 15) {| c with core_mc := with_mem m (core_mc c) |}.
Proof.
  intros (Hh & Hv & Hf). unfold stepFast, stepFastImpl. rewrite Hh, Hv. cbn [negb].
  unfold start_result in Hf. rewrite Hf. cbn [negb andb]. done.
Qed.

(** ** Restart after a synchronization stop *)

Lemma it_adjusted_fields op was : di_kind (it_adjusted op was) = di_kind op
  /\ di_rd (it_adjusted op was) = di_rd op
  /\ di_register_list (it_adjusted op was) = di_register_list op.
Proof. unfold it_adjusted. by destruct (_ && _). Qed.
Lemma it_adjusted_may_trap raw size op was :
  si_may_trap (step_instruction raw size (it_adjusted op was)) = si_may_trap (step_instruction raw size op).
Proof. unfold it_adjusted. by destruct (_ && _). Qed.
Lemma it_adjusted_pc_load op was : pc_load (it_adjusted op was) = pc_load op.
Proof. unfold it_adjusted. by destruct (_ && _). Qed.

(** A synchronization stop under MMIO trapping leaves the core as it was, so that the same
    instruction can be executed again. *)
Lemma sync_restarts c raw size op m : fetches c (step_instruction raw size op) m ->
  mmioTrapping m = true -> pc_load op = false ->
  fs_reason (fst (stepFast c)) = StopReason.synchronization_required ->
  mc_cpu (core_mc (snd (stepFast c))) = mc_cpu (core_mc c)
  /\ fs_instructions (fst (stepFast c)) = 0 /\ fs_cycles (fst (stepFast c)) = 0.
Proof.
  intros Hf Hm Hp. rewrite (stepFast_fetched _ _ _ Hf). unfold step_checked.
  set (si := step_instruction raw size op). change (si_decoded si) with op.
  cbn [core_mc with_mem mc_cpu mc_mem]. rewrite Hm, andb_true_r.
  set (st := mc_cpu (core_mc c)). set (passed := bool_decide _ || _). set (was := inItBlock _).
  rewrite dispatch_plain. set (a := mkCore (with_cpu _ _) _).
  assert (passed = true -> si_may_trap si = false -> ∀ mc,
    fst (dispatch_checked (it_adjusted op was) mc) <> Some StopReason.synchronization_required) as Hno.
  { intros _ Ht mc. unfold dispatch_checked.
    assert (no_sync (execute (it_adjusted op was))) as Hns.
    { apply (no_sync_execute raw size); [by rewrite it_adjusted_may_trap|by rewrite it_adjusted_pc_load]. }
    destruct (execute _ mc) as [u mc'|reason mc'] eqn:E; [done|]. cbn. intros [= ->]. by apply Hns in E. }
  destruct (if passed then (fst _, _) else (None, a)) as [stop b] eqn:Eb.
  destruct stop as [reason|]; [|done].
  assert (reason = StopReason.synchronization_required -> si_may_trap si = true) as Htrap.
  { intros ->. destruct (si_may_trap si) eqn:Et; [done|]. destruct passed eqn:Ep; [|done].
    injection Eb as Es _. by apply Hno in Es. }
  unfold finish_stop. destruct reason; try (by destruct (si_may_trap si)).
  rewrite Htrap by done. done.
Qed.

(** ** Cycle prediction *)

Lemma fetchDecode_fetches c op raw size : core_ok c ->
  cs_halted (mc_cpu (core_mc c)) = false -> valid_thumb_state (mc_cpu (core_mc c)) = true ->
  fetchDecode (reg (mc_cpu (core_mc c)) 15) (mc_mem (core_mc c)) = Some (op, raw, size) ->
  ∃ raw' m, fetches c (step_instruction raw' size op) m.
Proof.
  intros [_ Hm] Hh Hv. unfold fetches. set (st := mc_cpu (core_mc c)).
  unfold fetchDecode, fetch, decode_fetched. set (ctx := mkAccessContext _ (reg st 15)).
  destruct (tryFastRead (reg st 15) AccessSize.halfword ctx (mc_mem (core_mc c))) as [[first|] m1] eqn:E1; [|done].
  pose proof (fast_read16_hit _ _ _ _ _ Hm E1) as R1. rewrite R1.
  pose proof (read16_range _ _ _ _ _ Hm R1) as Hfirst. rewrite (u16_small first) by done.
  pose proof (read16_ok (reg st 15) ctx _ Hm) as Hm1. rewrite R1 in Hm1. cbn [snd] in Hm1.
  destruct (is32BitThumbPrefix first).
  - destruct (0xffffffff - 2 <? reg st 15); [done|].
    destruct (tryFastRead (reg st 15 + 2) AccessSize.halfword ctx m1) as [[second|] m2] eqn:E2; [|done].
    pose proof (fast_read16_hit _ _ _ _ _ Hm1 E2) as R2. rewrite R2.
    pose proof (read16_range _ _ _ _ _ Hm1 R2) as Hsecond. rewrite (u16_small second) by done.
    destruct (decode32 first second) as [op'|]; [|done]. cbn. intros [= <- _ <-]. by eexists _, m2.
  - destruct (decode16 first) as [op'|]; [|done]. cbn. intros [= <- _ <-]. by eexists _, m1.
Qed.

(** The cost of a completed step, from the program counter after the instruction. *)
Lemma stepFast_cost c raw size op m : fetches c (step_instruction raw size op) m ->
  fs_reason (fst (stepFast c)) = StopReason.step_complete ->
  let st := mc_cpu (core_mc c) in
  let si := step_instruction raw size op in
  let a := with_cpu (advance_pc (reg st 15) size st) (with_mem m (core_mc c)) in
  if conditionPasses (effective_condition op st) (cs_xpsr st) then
    ∃ mc', execute (it_adjusted op (inItBlock (cs_it_state st))) a = Done tt mc'
      /\ fs_cycles (fst (stepFast c)) =
          branch_cycles si (reg st 15) (instruction_cost si st) (mc_cpu mc')
  else fs_cycles (fst (stepFast c)) = 1.
Proof.
  intros Hf. rewrite (stepFast_fetched _ _ _ Hf). cbv zeta. unfold step_checked.
  set (si := step_instruction raw size op). change (si_decoded si) with op. change (si_size si) with size.
  cbn [core_mc with_mem mc_cpu mc_mem]. set (st := mc_cpu (core_mc c)).
  assert (bool_decide (effective_condition op st = Condition.al)
    || conditionPasses (effective_condition op st) (cs_xpsr st)
    = conditionPasses (effective_condition op st) (cs_xpsr st)) as ->.
  { destruct (bool_decide _) eqn:E; [|done]. apply bool_decide_eq_true in E. by rewrite E. }
  destruct (conditionPasses _ _); [|done].
  rewrite dispatch_plain. unfold dispatch_checked. cbn [core_mc].
  destruct (execute _ _) as [[] mc'|reason mc'] eqn:E; cbn [fst snd andb].
  - intros _. exists mc'. split; [done|]. cbn [fst fs_cycles]. unfold branch_cycles. cbn [core_mc].
    by destruct (negb _ && _).
  - assert (reason <> StopReason.step_complete) as Hne by (intros ->; by eapply (stops_execute _) in E).
    unfold finish_stop. destruct reason; try done. by destruct (_ && _).
Qed.

Lemma reg_set_reg_pc v st : length (cs_r st) = 16%nat -> reg (set_reg 15 v st) 15 = v.
Proof.
  intros Hst. unfold reg, set_reg, rget, rset. cbn [cs_r].
  rewrite list_lookup_insert_eq; [done|]. rewrite Hst. lia.
Qed.
Lemma reg_advance_pc pc size st : cpu_ok st -> reg (advance_pc pc size st) 15 = u32 (pc + size).
Proof. intros Hst. apply reg_set_reg_pc. exact (ok_r_length _ Hst). Qed.
Lemma readRegister_advance_pc pc size st i : i <> 15 ->
  readRegister (advance_pc pc size st) i = readRegister st i.
Proof.
  intros Hi. unfold readRegister. change (activeSp (advance_pc pc size st)) with (activeSp st).
  destruct (i =? 13); [done|]. destruct (Z.eqb_spec i 15); [done|]. destruct (i <? 16); [|done].
  unfold reg, advance_pc, set_reg, rget, rset. cbn [cs_r]. rewrite list_lookup_insert_ne; [done|lia].
Qed.

Section branch_targets.
Variables (op : DecodedInstruction) (pc size : Z) (st : CpuState) (m : M) (d : DiagnosticSnapshot).
Hypotheses (Hst : cpu_ok st) (Hpc : is_u32 pc) (Heven : pc .& 1 = 0).
Let a : Machine M := mkMachine (advance_pc pc size st) m d.

Lemma advance_pc_length : length (cs_r (advance_pc pc size st)) = 16%nat.
Proof. unfold advance_pc, set_reg. cbn [cs_r]. rewrite rset_length. exact (ok_r_length _ Hst). Qed.

Lemma branch_target_pc mc' : di_kind op = InstrKind.b \/ di_kind op = InstrKind.bl ->
  execute op a = Done tt mc' ->
  reg (mc_cpu mc') 15 = u32 (pc + 4 + di_branch_offset op) .& not32 1.
Proof.
  intros [K|K]; unfold execute, fp_prologue, execute_switch, register_case; rewrite K; intros [= <-];
    cbn [mc_cpu with_cpu a]; unfold alu_b, alu_bl, branchTarget;
    rewrite reg_set_reg_pc; try done; [apply advance_pc_length|].
  unfold set_reg at 1. cbn [cs_r]. rewrite rset_length. apply advance_pc_length.
Qed.

Lemma even_not_exception_return v : v .& 1 = 0 -> isExceptionReturn v = false.
Proof.
  intros Hv. destruct (isExceptionReturn v) eqn:E; [|done]. unfold isExceptionReturn in E.
  repeat case_match; try discriminate E; discriminate Hv.
Qed.
Lemma even_next : u32 (pc + 4) .& 1 = 0.
Proof.
  change 1 with (Z.ones 1) in *. rewrite Z.land_ones in * by lia. change (2 ^ 1) with 2 in *.
  unfold u32. change 0x100000000 with (2 * 0x80000000). rewrite Z.rem_mul_r by lia.
  rewrite Z.mul_comm, Z.mod_add, Z.mod_mod by lia. rewrite <- Zplus_mod_idemp_l, Heven. done.
Qed.

Lemma exchange_target_pc mc' : di_kind op = InstrKind.bx \/ di_kind op = InstrKind.blx ->
  execute op a = Done tt mc' ->
  let target := readRegister st (di_rm op) in
  if kind_eqb (di_kind op) InstrKind.bx && isExceptionReturn target
  then reg (mc_cpu mc') 15 = u32 (pc + size)
  else (target .& 1 =? 0) = false /\ reg (mc_cpu mc') 15 = target .& not32 1.
Proof.
  intros K He. cbv zeta.
  assert (exec_bx_blx op a = Done tt mc') as Hx.
  { revert He. unfold execute, fp_prologue, execute_switch, register_case. by destruct K as [-> | ->]. }
  revert Hx. unfold exec_bx_blx, mbind, Exec_bind, gets, modify, when, branch_or_fail, mret, Exec_ret.
  cbn [mc_cpu a]. destruct (Z.eq_dec (di_rm op) 15) as [E15|Hne].
  - intros Hx. exfalso. revert Hx. rewrite E15. change (readRegister (advance_pc pc size st) 15) with (u32 (pc + 4)).
    rewrite even_not_exception_return, andb_false_r by apply even_next.
    unfold branchWritePc. rewrite even_next. cbn [Z.eqb]. by destruct (kind_eqb _ _).
  - rewrite readRegister_advance_pc by done. set (target := readRegister st (di_rm op)).
    destruct K as [K|K]; rewrite K; cbn [kind_eqb andb].
    + change (kind_eqb InstrKind.bx InstrKind.blx) with false.
      change (kind_eqb InstrKind.bx InstrKind.bx) with true. cbn [andb].
      destruct (isExceptionReturn target).
      * intros [= <-]. cbn [mc_cpu with_cpu]. by apply reg_advance_pc.
      * cbn [mc_cpu]. unfold branchWritePc. destruct (target .& 1 =? 0); [done|]. intros [= <-].
        split; [done|]. apply (reg_set_reg_pc (target .& not32 1) (advance_pc pc size st)), advance_pc_length.
    + change (kind_eqb InstrKind.blx InstrKind.blx) with true.
      change (kind_eqb InstrKind.blx InstrKind.bx) with false. cbn [andb].
      unfold branchWritePc. destruct (target .& 1 =? 0); [done|]. intros [= <-].
      split; [done|]. apply (reg_set_reg_pc (target .& not32 1) (set_reg 14 _ (advance_pc pc size st))).
      unfold set_reg at 1. cbn [cs_r]. rewrite rset_length. apply advance_pc_length.
Qed.
End branch_targets.

(** The cost of an executed instruction against its prediction. *)
Lemma peek_passed_exact op was pc size st m d mc' raw ub n : cpu_ok st -> op_ok op -> is_u32 pc ->
  pc .& 1 = 0 -> names_pc op = false ->
  di_kind op <> InstrKind.cbz -> di_kind op <> InstrKind.cbnz ->
  execute (it_adjusted op was) (mkMachine (advance_pc pc size st) m d) = Done tt mc' ->
  peek_passed op pc size ub st = Some n ->
  branch_cycles (step_instruction raw size op) pc
    (instruction_cost (step_instruction raw size op) st) (mc_cpu mc') = n.
Proof.
  intros Hst Hop Hpc Heven Hn Hcbz Hcbnz He. unfold peek_passed.
  assert (∀ taken, (if taken : bool then reg (mc_cpu mc') 15 <> u32 (pc + size)
                    else reg (mc_cpu mc') 15 = u32 (pc + size)) -> is_divide op = false ->
    branch_cycles (step_instruction raw size op) pc (instruction_cost (step_instruction raw size op) st)
      (mc_cpu mc') = with_penalty op taken) as Hcost.
  { intros taken Ht Hdiv. unfold branch_cycles, instruction_cost, with_penalty.
    cbn [step_instruction si_divide_form si_base_cycles si_branch_penalty si_size]. rewrite Hdiv.
    pose proof (basePipelineCycles_range op (opk_list op Hop)).
    destruct taken.
    - by destruct (Z.eqb_spec (reg (mc_cpu mc') 15) (u32 (pc + size))).
    - rewrite Ht, Z.eqb_refl, Z.add_0_r. cbn [negb]. symmetry. apply u16_small. unfold is_u16. lia. }
  assert (is_branch_kind (di_kind op) = false -> reg (mc_cpu mc') 15 = u32 (pc + size)) as Hkeep.
  { intros Hb. pose proof (keeps_execute (it_adjusted op was)) as Hk.
    assert (di_kind (it_adjusted op was) = di_kind op /\ names_pc (it_adjusted op was) = names_pc op) as [E1 E2].
    { unfold it_adjusted. by destruct (_ && _). }
    rewrite E1, E2 in Hk. specialize (Hk Hb Hn (mkMachine (advance_pc pc size st) m d)). rewrite He in Hk.
    rewrite Hk. by apply reg_advance_pc. }
  fold (names_pc op). rewrite Hn, andb_false_r. cbv zeta.
  assert (di_kind (it_adjusted op was) = di_kind op /\ di_rm (it_adjusted op was) = di_rm op
    /\ di_branch_offset (it_adjusted op was) = di_branch_offset op) as (Ek & Em & Eb).
  { unfold it_adjusted. by destruct (_ && _). }
  destruct (is_divide op) eqn:Hdiv.
  { intros [= <-]. unfold branch_cycles. rewrite Hkeep, Z.eqb_refl.
    - unfold instruction_cost. cbn [step_instruction si_divide_form si_decoded negb]. by rewrite Hdiv.
    - unfold is_divide, kind_eqb in Hdiv. by destruct (di_kind op). }
  assert (∀ target, reg (mc_cpu mc') 15 = target ->
    Some (with_penalty op (negb (target =? u32 (pc + size)))) = Some n ->
    branch_cycles (step_instruction raw size op) pc (instruction_cost (step_instruction raw size op) st)
      (mc_cpu mc') = n) as Htarget.
  { intros target Et [= <-]. apply Hcost; [|done]. rewrite Et. by destruct (Z.eqb_spec target (u32 (pc + size))). }
  destruct (is_branch_kind (di_kind op)) eqn:Hbk.
  - assert (loaded_target op = false) as Hl by by apply names_pc_false in Hn as (? & _).
    destruct (di_kind op) eqn:K; try discriminate Hbk; try done;
      try (unfold loaded_target in Hl; rewrite K in Hl; discriminate Hl).
    + apply Htarget. rewrite <- Eb. eapply branch_target_pc; [exact Hst|rewrite Ek; by left|exact He].
    + apply Htarget. rewrite <- Eb. eapply branch_target_pc; [exact Hst|rewrite Ek; by right|exact He].
    + eapply exchange_target_pc in He; [|done..|rewrite Ek; by left]. rewrite Ek, Em in He. cbv zeta in He.
      destruct (_ && isExceptionReturn _).
      * intros [= <-]. rewrite (Hcost false); [|done..]. unfold with_penalty. rewrite Z.add_0_r.
        apply u16_small. pose proof (basePipelineCycles_range op (opk_list op Hop)). unfold is_u16. lia.
      * destruct He as [Hodd Et]. rewrite Hodd. by apply Htarget.
    + eapply exchange_target_pc in He; [|done..|rewrite Ek; by right]. rewrite Ek, Em in He. cbv zeta in He.
      change (kind_eqb InstrKind.blx InstrKind.bx) with false in *. cbn [andb] in *.
      destruct He as [Hodd Et]. rewrite Hodd. by apply Htarget.
  - assert (Some (with_penalty op false) = Some n -> branch_cycles (step_instruction raw size op) pc
      (instruction_cost (step_instruction raw size op) st) (mc_cpu mc') = n) as Hplain.
    { intros [= <-]. apply Hcost; [by apply Hkeep|done]. }
    destruct (di_kind op); try discriminate Hbk; exact Hplain.
Qed.

Lemma valid_thumb_even st : valid_thumb_state st = true -> reg st 15 .& 1 = 0.
Proof. unfold valid_thumb_state. rewrite !andb_true_iff, Z.eqb_eq. by intros [_ ?]. Qed.

(** The prediction against the step that follows it. *)
Lemma peek_fetch c op raw size ub n : core_ok c ->
  fetchDecode (reg (mc_cpu (core_mc c)) 15) (mc_mem (core_mc c)) = Some (op, raw, size) ->
  peekPipelineCycles ub (mc_cpu (core_mc c)) (mc_mem (core_mc c)) = Some n ->
  cs_halted (mc_cpu (core_mc c)) = false /\ valid_thumb_state (mc_cpu (core_mc c)) = true
  /\ (if conditionPasses (effective_condition op (mc_cpu (core_mc c))) (cs_xpsr (mc_cpu (core_mc c)))
      then peek_passed op (reg (mc_cpu (core_mc c)) 15) size ub (mc_cpu (core_mc c)) = Some n
      else n = 1).
Proof.
  intros Hc Hf. unfold peekPipelineCycles. rewrite Hf.
  destruct (cs_halted _); [done|]. destruct (valid_thumb_state _); [|done]. cbn [orb negb].
  destruct (loaded_target op && _); [done|]. destruct (conditionPasses _ _); cbn [negb]; [done|].
  by intros [= <-].
Qed.

Lemma peek_exact c op raw size ub n : core_ok c ->
  fetchDecode (reg (mc_cpu (core_mc c)) 15) (mc_mem (core_mc c)) = Some (op, raw, size) ->
  names_pc op = false -> di_kind op <> InstrKind.cbz -> di_kind op <> InstrKind.cbnz ->
  peekPipelineCycles ub (mc_cpu (core_mc c)) (mc_mem (core_mc c)) = Some n ->
  fs_reason (fst (stepFast c)) = StopReason.step_complete -> fs_cycles (fst (stepFast c)) = n.
Proof.
  intros Hc Hf Hn Hcbz Hcbnz Hp Hr.
  destruct (peek_fetch _ _ _ _ _ _ Hc Hf Hp) as (Hh & Hv & Hpk).
  destruct (fetchDecode_fetches c op raw size Hc Hh Hv Hf) as (raw' & m & Hft).
  assert (is_u32 (reg (mc_cpu (core_mc c)) 15)) as Hpc by by apply reg_range, Hc.
  assert (op_ok op) as Hop.
  { destruct Hft as (_ & _ & Hft). apply fetch_decodes in Hft as (_ & r1 & s1 & o1 & E & Ho & _); [|apply Hc|done].
    injection E as _ <-. done. }
  pose proof (stepFast_cost _ _ _ _ _ Hft Hr) as Hcost. cbv zeta in Hcost.
  destruct (conditionPasses _ _); [|congruence]. destruct Hcost as (mc' & He & ->).
  eapply peek_passed_exact; [apply Hc|done|done|by apply valid_thumb_even|done|done|done|exact He|exact Hpk].
Qed.

(** Charging the penalty bounds the cost of anything but a divide into the PC. *)
Lemma peek_upper c op raw size n : core_ok c ->
  fetchDecode (reg (mc_cpu (core_mc c)) 15) (mc_mem (core_mc c)) = Some (op, raw, size) ->
  di_kind op <> InstrKind.cbz -> di_kind op <> InstrKind.cbnz ->
  (is_divide op = true -> names_pc op = false) ->
  peekPipelineCycles true (mc_cpu (core_mc c)) (mc_mem (core_mc c)) = Some n ->
  fs_reason (fst (stepFast c)) = StopReason.step_complete -> fs_cycles (fst (stepFast c)) <= n.
Proof.
  intros Hc Hf Hcbz Hcbnz Hdiv Hp Hr. destruct (names_pc op) eqn:Hn.
  2: { by rewrite (peek_exact c op raw size true n) by done. }
  destruct (peek_fetch _ _ _ _ _ _ Hc Hf Hp) as (Hh & Hv & Hpk).
  destruct (fetchDecode_fetches c op raw size Hc Hh Hv Hf) as (raw' & m & Hft).
  assert (is_u32 (reg (mc_cpu (core_mc c)) 15)) as Hpc by by apply reg_range, Hc.
  assert (op_ok op) as Hop.
  { destruct Hft as (_ & _ & Hft). apply fetch_decodes in Hft as (_ & r1 & s1 & o1 & E & Ho & _); [|apply Hc|done].
    injection E as _ <-. done. }
  pose proof (stepFast_cost _ _ _ _ _ Hft Hr) as Hcost. cbv zeta in Hcost.
  destruct (conditionPasses _ _); [|lia]. destruct Hcost as (mc' & He & ->).
  destruct (is_divide op) eqn:Hd; [by specialize (Hdiv eq_refl)|].
  revert Hpk. unfold peek_passed. rewrite Hd. fold (names_pc op). rewrite Hn. cbn [andb]. intros [= <-].
  unfold with_penalty, branch_cycles, instruction_cost.
  cbn [step_instruction si_divide_form si_base_cycles si_branch_penalty si_size]. rewrite Hd.
  pose proof (basePipelineCycles_range op (opk_list op Hop)). pose proof (takenBranchPenalty_range (di_kind op)).
  destruct (negb _); [lia|]. rewrite u16_small; unfold is_u16; lia.
Qed.
End safety.
