(* ===== verification/Common.v ===== *)
(** * Errors, results and checked integers

    Models [include/fil/common/error.hpp], [result.hpp], [numeric.hpp] and
    [src/common/error.cpp], and the conservative horizons of [src/sim/lane_horizon.cpp] that
    are built on saturating arithmetic. *)

From stdpp Require Import pretty.
From S2P Require Import Prelude.
#[local] Open Scope Z_scope.
#[local] Open Scope fil_scope.

(** ** Errors and results *)

Module ErrorCategory.
Inductive t := invalid_argument | io | parse | config | unsupported | runtime | internal.
#[global] Instance eq_dec : EqDecision t.
Proof. solve_decision. Defined.
End ErrorCategory.

Record SourceContext := mkSourceContext { sc_path : string; sc_line : Z; sc_column : Z }.
Record Error := mkError {
  err_category : ErrorCategory.t;
  err_message : string;
  err_source : option SourceContext;
}.
Definition Result (A : Type) : Type := (A + Error)%type.

(** [Error{category, message, std::nullopt}]. *)
Definition fail {A} (category : ErrorCategory.t) (message : string) : Result A :=
  inr (mkError category message None).

#[global] Instance source_context_eq_dec : EqDecision SourceContext.
Proof. solve_decision. Defined.
#[global] Instance error_eq_dec : EqDecision Error.
Proof. solve_decision. Defined.

Definition formatError (error : Error) : string :=
  (match err_source error with
   | Some source =>
       sc_path source
       +:+ (if negb (sc_line source =? 0) then
              ":" +:+ pretty (sc_line source)
              +:+ (if negb (sc_column source =? 0) then ":" +:+ pretty (sc_column source) else "")
            else "")
       +:+ ": "
   | None => ""
   end) +:+ err_message error.

(** ** Checked integers *)

Definition max_u64 : Z := 0xffffffffffffffff.
Definition max_u32 : Z := 0xffffffff.

(** [saturatingAdd] at a type whose maximum is [maximum]. *)
Definition saturatingAdd (maximum left right : Z) : Z :=
  if maximum - left <? right then maximum else left + right.

(** [rangeFits], after the sign tests. *)
Definition rangeFits (offset size total : Z) : bool :=
  (0 <=? offset) && (0 <=? size) && (0 <=? total) && (offset <=? total) && (size <=? total - offset).

Lemma saturatingAdd_min maximum left right : 0 <= left <= maximum -> 0 <= right ->
  saturatingAdd maximum left right = Z.min maximum (left + right).
Proof. intros Hl Hr. unfold saturatingAdd. destruct (Z.ltb_spec (maximum - left) right); lia. Qed.

Lemma rangeFits_spec offset size total :
  rangeFits offset size total = true <-> 0 <= offset /\ 0 <= size /\ offset + size <= total.
Proof. unfold rangeFits. rewrite !andb_true_iff, !Z.leb_le. lia. Qed.

(** ** Lane horizons *)

Record HorizonProof := mkHorizonProof { hp_earliest_shared_action : option Z; hp_generation : Z }.

Definition fold_frontier (frontier value : option Z) : option Z :=
  match value with
  | None => frontier
  | Some v => match frontier with
              | None => value
              | Some f => if v <? f then value else frontier
              end
  end.

Definition conservativeFrontier (lanes : list HorizonProof) (pending_global external_input : option Z) : option Z :=
  foldl (fun frontier lane => fold_frontier frontier (hp_earliest_shared_action lane))
    (fold_frontier pending_global external_input) lanes.

Definition horizonFromCycles (now cycles clock_hz : Z) : option Z :=
  if clock_hz =? 0 then None
  else
    let nanoseconds_per_second := 1000000000 in
    let numerator := if max_u64 / nanoseconds_per_second <? cycles then max_u64
                     else cycles * nanoseconds_per_second in
    let delta := numerator / clock_hz in
    if max_u64 - now <? delta then Some max_u64 else Some (now + delta).

(** The least of the finite values. *)
Definition least_of (values : list (option Z)) (r : option Z) : Prop :=
  match r with
  | None => ∀ v, v ∈ values -> v = None
  | Some f => Some f ∈ values /\ ∀ v, Some v ∈ values -> f <= v
  end.

Lemma fold_frontier_least values f v : least_of values f -> least_of (values ++ [v]) (fold_frontier f v).
Proof.
  intros Hf. unfold fold_frontier.
  assert (∀ w, w ∈ values ++ [v] <-> w ∈ values \/ w = v) as Hin by (intros; rewrite elem_of_app, list_elem_of_singleton; done).
  destruct v as [v|], f as [f|]; cbn in *; try (destruct (Z.ltb_spec v f)); cbn; setoid_rewrite Hin.
  - destruct Hf as [Hf Hmin]. split; [by right|]. intros w [Hw|[= ->]]; [apply Hmin in Hw|]; lia.
  - destruct Hf as [Hf Hmin]. split; [by left|]. intros w [Hw|[= ->]]; [by apply Hmin|lia].
  - split; [by right|]. intros w [Hw|[= ->]]; [by apply Hf in Hw|lia].
  - destruct Hf as [Hf Hmin]. split; [by left|]. intros w [Hw|?]; [by apply Hmin|done].
  - intros w [Hw| ->]; [by apply Hf|done].
Qed.

Lemma conservativeFrontier_least lanes pending_global external_input :
  least_of ([pending_global; external_input] ++ (hp_earliest_shared_action <$> lanes))
    (conservativeFrontier lanes pending_global external_input).
Proof.
  unfold conservativeFrontier. induction lanes as [|lane lanes IH] using rev_ind; cbn.
  - apply (fold_frontier_least [pending_global]). destruct pending_global; cbn.
    + split; [by apply list_elem_of_singleton|]. intros w Hw. apply list_elem_of_singleton in Hw as [= ->]. lia.
    + intros w Hw. by apply list_elem_of_singleton in Hw.
  - rewrite foldl_app, fmap_app. apply (fold_frontier_least ([pending_global; external_input] ++ (hp_earliest_shared_action <$> lanes))), IH.
Qed.

(** A horizon is never later than the exact time of the given number of cycles. *)
Lemma horizonFromCycles_lower_bound now cycles clock_hz h : 0 <= now <= max_u64 -> 0 <= cycles -> 0 <= clock_hz ->
  horizonFromCycles now cycles clock_hz = Some h ->
  now <= h <= max_u64 /\ (h - now) * clock_hz <= cycles * 1000000000.
Proof.
  intros Hn Hc Hz. unfold horizonFromCycles. destruct (Z.eqb_spec clock_hz 0) as [->|Hne]; [done|].
  set (numerator := if max_u64 / 1000000000 <? cycles then max_u64 else cycles * 1000000000).
  assert (0 <= numerator <= cycles * 1000000000) as Hnum.
  { unfold numerator. destruct (Z.ltb_spec (max_u64 / 1000000000) cycles) as [H|H]; [|lia].
    split; [done|]. change (max_u64 / 1000000000) with 18446744073 in H. unfold max_u64. lia. }
  assert (numerator / clock_hz * clock_hz <= numerator) as Hd by (rewrite Z.mul_comm; apply Z.mul_div_le; lia).
  assert (0 <= numerator / clock_hz) by (apply Z.div_pos; lia).
  cbv zeta. destruct (Z.ltb_spec (max_u64 - now) (numerator / clock_hz)) as [H1|H1]; intros [= <-]; nia.
Qed.
