(* ===== verification/Trace.v ===== *)
(** * Simulation traces

    Models [src/common/format.cpp], [include/fil/sim/trace.hpp] and [src/sim/trace.cpp]: trace
    records, the recorder with its allowlist, its observer and its per-lane capture, and the
    JSON-lines output.  The observer is foreign code that may use the recorder again, so it is a
    parameter that maps the recorder to the recorder; the lane of the calling thread is an
    argument. *)

From Stdlib Require Import Ascii.
From stdpp Require Import pretty sorting.
From S2P Require Import Prelude Common.
#[local] Open Scope Z_scope.
#[local] Open Scope fil_scope.

(** ** Hexadecimal text *)

(** [std::to_chars(..., value, 16)]: at most [fuel] digits, without leading zeros. *)
Fixpoint hex_digits (fuel : nat) (value : Z) : string :=
  match fuel with
  | O => EmptyString
  | S f => (if value <? 16 then EmptyString else hex_digits f (value .>> 4))
           +:+ String (hex_digit (value .& 15)) EmptyString
  end.
Definition to_hex (value : Z) : string := hex_digits 16 value.

Fixpoint zeros (n : nat) : string :=
  match n with O => EmptyString | S n => String "0"%char (zeros n) end.

(** [hexValue]; the sixteen digits always suffice, so [std::to_chars] does not fail. *)
Definition hexValue (value minimum_digits : Z) : string :=
  let digits := to_hex value in
  let width := Z.min minimum_digits 16 in
  "0x" +:+ zeros (Z.to_nat (width - Z.of_nat (String.length digits))) +:+ digits.
Definition hex32 (value : Z) : string := hexValue value 8.

(** [TraceRecorder::hexBytes]. *)
Definition hexBytes (bytes : list Z) : string :=
  foldr (fun b s => String (hex_digit (b .>> 4)) (String (hex_digit (b .& 0x0f)) s)) EmptyString bytes.

Definition booleanText (value : bool) : string := if value then "true" else "false".

(** ** Records *)

Definition TraceField : Type := string * string.

Record TraceRecord := mkTraceRecord {
  rec_time_ns : Z;
  rec_sequence : Z;
  rec_source : string;
  rec_type : string;
  rec_fields : list TraceField;
}.

Record CanTraceFrame := mkCanTraceFrame {
  ctf_id : Z;
  ctf_extended : bool;
  ctf_fd : bool;
  ctf_brs : bool;
  ctf_dlc : Z;
  ctf_data : list Z;
}.

Module CaptureMode.
Inductive t := live | lane_buffered.
#[global] Instance eq_dec : EqDecision t.
Proof. solve_decision. Defined.
End CaptureMode.

(** ** The recorder *)

Record TraceRecorder (O : Type) := mkTraceRecorder {
  tr_enabled : bool;
  tr_retain_records : bool;
  tr_capture_mode : CaptureMode.t;
  tr_next_sequence : Z;
  tr_records : list TraceRecord;
  tr_lane_records : list (list TraceRecord);
  tr_allowlist : list string;
  tr_observer : option O;
}.
Arguments mkTraceRecorder {O}.
Arguments tr_enabled {O}.
Arguments tr_retain_records {O}.
Arguments tr_capture_mode {O}.
Arguments tr_next_sequence {O}.
Arguments tr_records {O}.
Arguments tr_lane_records {O}.
Arguments tr_allowlist {O}.
Arguments tr_observer {O}.

Definition recorder_default {O} : TraceRecorder O :=
  mkTraceRecorder true true CaptureMode.live 0 [] [] [] None.

(** A stable sort by time ([std::stable_sort]): a record goes after those that are not later. *)
Fixpoint insert_by_time (r : TraceRecord) (l : list TraceRecord) : list TraceRecord :=
  match l with
  | [] => [r]
  | x :: l' => if rec_time_ns x <=? rec_time_ns r then x :: insert_by_time r l' else r :: l
  end.
Definition stable_sort (l : list TraceRecord) : list TraceRecord :=
  foldl (fun sorted r => insert_by_time r sorted) [] l.

Section recorder.
Context {O : Type}.
(** What the installed observer does with a record: it may use the recorder. *)
Variable observe : O -> TraceRecord -> TraceRecorder O -> TraceRecorder O.

Definition passesFilter (type : string) (t : TraceRecorder O) : bool :=
  match tr_allowlist t with
  | [] => true
  | _ => bool_decide (type ∈ tr_allowlist t)
  end.
Definition would_record (type : string) (t : TraceRecorder O) : bool :=
  tr_enabled t && passesFilter type t.

Definition setEnabled (enabled : bool) (t : TraceRecorder O) : TraceRecorder O := {| t with tr_enabled := enabled |}.
Definition setRetainRecords (retain : bool) (t : TraceRecorder O) : TraceRecorder O := {| t with tr_retain_records := retain |}.
Definition setObserver (observer : option O) (t : TraceRecorder O) : TraceRecorder O := {| t with tr_observer := observer |}.
Definition setTypeAllowlist (allowlist : list string) (t : TraceRecorder O) : TraceRecorder O := {| t with tr_allowlist := allowlist |}.

Definition appendRecord (r : TraceRecord) (t : TraceRecorder O) : TraceRecorder O :=
  if tr_retain_records t then
    let t : TraceRecorder O := {| t with tr_records := tr_records t ++ [r] |} in
    match tr_observer t with Some o => observe o r t | None => t end
  else match tr_observer t with Some o => observe o r t | None => t end.

(** [next_sequence_++]. *)
Definition next_sequence (t : TraceRecorder O) : Z * TraceRecorder O :=
  (tr_next_sequence t, {| t with tr_next_sequence := u64 (tr_next_sequence t + 1) |}).

(** [record], on a thread that runs [lane] ([None]: the coordinator). *)
Definition record (lane : option nat) (time_ns : Z) (source type : string) (fields : list TraceField)
    (t : TraceRecorder O) : Z * TraceRecorder O :=
  if negb (tr_enabled t) then (tr_next_sequence t, t)
  else if negb (passesFilter type t) then
    if bool_decide (tr_capture_mode t = CaptureMode.lane_buffered) then (tr_next_sequence t, t)
    else next_sequence t
  else
    match lane with
    | Some n =>
        if bool_decide (tr_capture_mode t = CaptureMode.lane_buffered)
           && bool_decide (n < length (tr_lane_records t))%nat then
          (tr_next_sequence t,
           {| t with tr_lane_records :=
                alter (fun l => l ++ [mkTraceRecord time_ns 0 source type fields]) n (tr_lane_records t) |})
        else
          let '(sequence, t) := next_sequence t in
          (sequence, appendRecord (mkTraceRecord time_ns sequence source type fields) t)
    | None =>
        let '(sequence, t) := next_sequence t in
        (sequence, appendRecord (mkTraceRecord time_ns sequence source type fields) t)
    end.

Definition beginLaneCapture (lane_count : nat) (t : TraceRecorder O) : TraceRecorder O :=
  {| t with tr_capture_mode := CaptureMode.lane_buffered; tr_lane_records := replicate lane_count [] |}.

Definition append_pending (t : TraceRecorder O) (r : TraceRecord) : TraceRecorder O :=
  let '(sequence, t) := next_sequence t in
  appendRecord {| r with rec_sequence := sequence |} t.

Definition flushLaneCapture (t : TraceRecorder O) : TraceRecorder O :=
  let pending := concat (tr_lane_records t) in
  foldl append_pending
    {| t with tr_capture_mode := CaptureMode.live;
              tr_lane_records := (fun _ => []) <$> tr_lane_records t |}
    (stable_sort pending).

Definition can_fields (frame : CanTraceFrame) (bus origin : string) : list TraceField :=
  [("id", "0x" +:+ to_hex (ctf_id frame)); ("extended", booleanText (ctf_extended frame));
   ("fd", booleanText (ctf_fd frame)); ("brs", booleanText (ctf_brs frame));
   ("dlc", pretty (ctf_dlc frame)); ("length", pretty (Z.of_nat (length (ctf_data frame))));
   ("data", hexBytes (ctf_data frame))]
  ++ (if bool_decide (bus = "") then [] else [("bus", bus)])
  ++ (if bool_decide (origin = "") then [] else [("origin", origin)]).

Definition recordCanFrame (lane : option nat) (time_ns : Z) (source : string) (transmit : bool)
    (frame : CanTraceFrame) (bus origin : string) (t : TraceRecorder O) : Z * TraceRecorder O :=
  let type := if transmit then "can_tx" else "can_rx" in
  if negb (tr_enabled t) then (tr_next_sequence t, t)
  else if negb (passesFilter type t) then
    if bool_decide (tr_capture_mode t = CaptureMode.lane_buffered) then (tr_next_sequence t, t)
    else next_sequence t
  else record lane time_ns source type (can_fields frame bus origin) t.

Definition clear (t : TraceRecorder O) : TraceRecorder O :=
  {| t with tr_records := []; tr_lane_records := []; tr_capture_mode := CaptureMode.live;
            tr_next_sequence := 0 |}.
End recorder.

(** ** JSON lines *)

Definition quote : Ascii.ascii := Ascii.ascii_of_nat 34.
Definition backslash : Ascii.ascii := Ascii.ascii_of_nat 92.

(** The text one character becomes. *)
Definition escape_char (c : Ascii.ascii) : list Ascii.ascii :=
  let byte := Z.of_nat (Ascii.nat_of_ascii c) in
  if byte =? 34 then [backslash; quote]
  else if byte =? 92 then [backslash; backslash]
  else if byte =? 8 then [backslash; "b"%char]
  else if byte =? 12 then [backslash; "f"%char]
  else if byte =? 10 then [backslash; "n"%char]
  else if byte =? 13 then [backslash; "r"%char]
  else if byte =? 9 then [backslash; "t"%char]
  else if byte <? 0x20 then
    [backslash; "u"%char; "0"%char; "0"%char; hex_digit (byte .>> 4); hex_digit (byte .& 0x0f)]
  else [c].
Definition writeEscaped (text : list Ascii.ascii) : list Ascii.ascii := mbind escape_char text.

Definition chars (s : string) : list Ascii.ascii := String.list_ascii_of_string s.
(** A JSON string literal. *)
Definition literal (s : string) : list Ascii.ascii := quote :: writeEscaped (chars s) ++ [quote].

Definition json_field (f : TraceField) : list Ascii.ascii :=
  ","%char :: literal (fst f) ++ [":"%char] ++ literal (snd f).

(** One line of [writeJsonLines], without its line feed. *)
Definition json_line (r : TraceRecord) : list Ascii.ascii :=
  ["{"%char] ++ literal "time_ns" ++ [":"%char] ++ chars (pretty (rec_time_ns r))
  ++ [","%char] ++ literal "sequence" ++ [":"%char] ++ chars (pretty (rec_sequence r))
  ++ [","%char] ++ literal "source" ++ [":"%char] ++ literal (rec_source r)
  ++ [","%char] ++ literal "type" ++ [":"%char] ++ literal (rec_type r)
  ++ mbind json_field (rec_fields r) ++ ["}"%char].

Definition line_feed : Ascii.ascii := Ascii.ascii_of_nat 10.
Definition writeJsonLines {O} (t : TraceRecorder O) : list Ascii.ascii :=
  mbind (fun r => json_line r ++ [line_feed]) (tr_records t).
Definition jsonLines {O} (t : TraceRecorder O) : string :=
  String.string_of_list_ascii (writeJsonLines t).

(** * Proofs about traces

    The stable merge of captured lanes, the sequence numbers of the recorder, and a decoder of
    the JSON-lines output. *)


(** ** The stable sort *)

Definition not_later (a b : TraceRecord) : Prop := rec_time_ns a <= rec_time_ns b.

Lemma insert_by_time_perm r l : insert_by_time r l ≡ₚ r :: l.
Proof.
  induction l as [|x l IH]; cbn; [done|]. destruct (_ <=? _); [|done].
  rewrite IH. apply Permutation_swap.
Qed.

Lemma insert_by_time_sorted r l : StronglySorted not_later l -> StronglySorted not_later (insert_by_time r l).
Proof.
  induction 1 as [|x l Hl IH Hx]; cbn; [repeat constructor|].
  destruct (Z.leb_spec (rec_time_ns x) (rec_time_ns r)).
  - constructor; [done|]. rewrite insert_by_time_perm. by constructor.
  - constructor; [by constructor|]. constructor; [unfold not_later; lia|].
    eapply Forall_impl; [exact Hx|]. unfold not_later. intros y. cbn. lia.
Qed.

(** Insertion keeps the records of every time in order, the new one last. *)
Lemma insert_by_time_stable r l t : StronglySorted not_later l ->
  filter (fun x => rec_time_ns x = t) (insert_by_time r l)
  = filter (fun x => rec_time_ns x = t) (l ++ [r]).
Proof.
  induction 1 as [|x l Hl IH Hx]; [done|]. cbn [insert_by_time].
  destruct (Z.leb_spec (rec_time_ns x) (rec_time_ns r)) as [Hle|Hlt].
  - rewrite <- app_comm_cons, !(filter_cons _ x), IH. done.
  - rewrite (filter_cons _ r (x :: l)), filter_app, (filter_cons _ r []), filter_nil.
    destruct (decide (rec_time_ns r = t)) as [<-|]; [|by rewrite app_nil_r].
    rewrite filter_none; [done|]. intros y [->|Hy]%elem_of_cons E; [lia|].
    rewrite Forall_forall in Hx. specialize (Hx _ Hy). unfold not_later in Hx. lia.
Qed.

Lemma stable_sort_app l r : stable_sort (l ++ [r]) = insert_by_time r (stable_sort l).
Proof. unfold stable_sort. by rewrite foldl_app. Qed.

Lemma stable_sort_spec l :
  stable_sort l ≡ₚ l /\ StronglySorted not_later (stable_sort l)
  /\ ∀ t, filter (fun x => rec_time_ns x = t) (stable_sort l) = filter (fun x => rec_time_ns x = t) l.
Proof.
  induction l as [|r l [Hp [Hs Hf]]] using rev_ind; [repeat split; constructor|].
  rewrite stable_sort_app. split_and!.
  - rewrite insert_by_time_perm, Hp. by rewrite Permutation_app_comm.
  - by apply insert_by_time_sorted.
  - intros t. rewrite insert_by_time_stable by done. by rewrite !filter_app, Hf.
Qed.

(** ** The recorder *)

Section recorder.
Context {O : Type}.
Variable observe : O -> TraceRecord -> TraceRecorder O -> TraceRecorder O.

(** The parts of the recorder that appending a record depends on. *)
Definition same_stream (t t' : TraceRecorder O) : Prop :=
  tr_retain_records t' = tr_retain_records t /\ tr_next_sequence t' = tr_next_sequence t
  /\ tr_records t' = tr_records t.
(** An observer that only looks. *)
Definition passive : Prop := ∀ o r t, same_stream t (observe o r t).

Definition number (from : Z) (l : list TraceRecord) : list TraceRecord :=
  imap (fun i r => {| r with rec_sequence := u64 (from + Z.of_nat i) |}) l.

Lemma appendRecord_stream r t : passive ->
  tr_retain_records (appendRecord observe r t) = tr_retain_records t
  /\ tr_next_sequence (appendRecord observe r t) = tr_next_sequence t
  /\ tr_records (appendRecord observe r t)
     = if tr_retain_records t then tr_records t ++ [r] else tr_records t.
Proof.
  intros Hp. unfold appendRecord. destruct (tr_retain_records t) eqn:E; cbn;
    destruct (tr_observer t); cbn; try done; match goal with |- context [observe ?o ?r ?t] => destruct (Hp o r t) as (?&?&?) end;
    cbn in *; split_and!; congruence.
Qed.

Lemma number_cons from r l :
  number from (r :: l) = {| r with rec_sequence := u64 from |} :: number (from + 1) l.
Proof.
  unfold number. cbn. f_equal; [by rewrite Z.add_0_r|]. apply imap_ext. intros i x _. cbn. do 2 f_equal. lia.
Qed.
Lemma number_u64 from l : number (u64 from) l = number from l.
Proof. unfold number. apply imap_ext. intros i x _. by rewrite u64_add_l. Qed.

Lemma append_all l t : passive -> tr_retain_records t = true -> tr_next_sequence t = u64 (tr_next_sequence t) ->
  tr_records (foldl (append_pending observe) t l) = tr_records t ++ number (tr_next_sequence t) l
  /\ tr_next_sequence (foldl (append_pending observe) t l) = u64 (tr_next_sequence t + Z.of_nat (length l)).
Proof.
  intros Hp. revert t. induction l as [|r l IH]; intros t Hr Hn; cbn [foldl].
  { cbn. by rewrite app_nil_r, Z.add_0_r. }
  unfold append_pending at 2 4, next_sequence. set (t1 := {| t with tr_next_sequence := _ |}).
  destruct (appendRecord_stream {| r with rec_sequence := tr_next_sequence t |} t1 Hp) as (R&N&L).
  cbn in R, N, L. rewrite Hr in L. destruct (IH (appendRecord observe {| r with rec_sequence := tr_next_sequence t |} t1)) as [E1 E2].
  { by rewrite R. }
  { rewrite N. unfold u64. rewrite Z.mod_mod; [done|lia]. }
  rewrite E1, E2, N, L. split.
  - rewrite number_u64, number_cons, <- Hn, <- app_assoc. done.
  - rewrite u64_add_l. cbn [length]. f_equal. lia.
Qed.
End recorder.

(** ** Reading JSON lines back *)

Definition unhex (c : ascii) : nat :=
  let n := nat_of_ascii c in if (n <? 58)%nat then (n - 48)%nat else (n - 87)%nat.

(** The characters of a literal up to its closing quote, and what follows it. *)
Fixpoint read_literal (l : list ascii) : option (list ascii * list ascii) :=
  match l with
  | [] => None
  | c :: l1 =>
      if Ascii.eqb c quote then Some ([], l1)
      else if Ascii.eqb c backslash then
        match l1 with
        | e :: l2 =>
            if Ascii.eqb e "u"%char then
              match l2 with
              | _ :: _ :: a :: b :: l3 =>
                  r ← read_literal l3;
                  Some (ascii_of_nat (16 * unhex a + unhex b) :: fst r, snd r)
              | _ => None
              end
            else
              r ← read_literal l2;
              let d := if Ascii.eqb e "b"%char then ascii_of_nat 8
                       else if Ascii.eqb e "f"%char then ascii_of_nat 12
                       else if Ascii.eqb e "n"%char then ascii_of_nat 10
                       else if Ascii.eqb e "r"%char then ascii_of_nat 13
                       else if Ascii.eqb e "t"%char then ascii_of_nat 9 else e in
              Some (d :: fst r, snd r)
        | [] => None
        end
      else r ← read_literal l1; Some (c :: fst r, snd r)
  end.

Lemma read_escape_char c l :
  read_literal (escape_char c ++ l) = (r ← read_literal l; Some (c :: fst r, snd r)).
Proof. destruct c as [[] [] [] [] [] [] [] []]; reflexivity. Qed.

Lemma read_escaped s l : read_literal (writeEscaped s ++ quote :: l) = Some (s, l).
Proof.
  induction s as [|c s IH]; [done|]. cbn [writeEscaped mbind list_bind]. rewrite <- app_assoc, read_escape_char.
  unfold writeEscaped in IH. by rewrite IH.
Qed.

Lemma chars_inj s1 s2 : chars s1 = chars s2 -> s1 = s2.
Proof.
  unfold chars. intros E. rewrite <- (String.string_of_list_ascii_of_string s1), E. apply String.string_of_list_ascii_of_string.
Qed.

Lemma literal_inj s1 s2 l1 l2 : literal s1 ++ l1 = literal s2 ++ l2 -> s1 = s2 /\ l1 = l2.
Proof.
  unfold literal. cbn. rewrite <- !app_assoc. cbn. intros [= E].
  apply (f_equal read_literal) in E. rewrite !read_escaped in E. injection E as E ->. by apply chars_inj in E.
Qed.

(** *** Numbers *)

Definition digit_or_dash (c : ascii) : Prop := c = "-"%char \/ (48 <= nat_of_ascii c <= 57)%nat.

Lemma pretty_N_go_digits x s : Forall digit_or_dash (chars s) -> Forall digit_or_dash (chars (pretty_N_go x s)).
Proof.
  revert s. induction (N.lt_wf_0 x) as [x _ IH]; intros s Hs.
  assert (x = 0 ∨ 0 < x)%N as [->|?] by lia; [by rewrite pretty_N_go_0|].
  rewrite pretty_N_go_step by done. apply IH; [by apply N.div_lt|]. cbn. constructor; [|done].
  right. unfold pretty_N_char. repeat case_match; split; apply Nat.leb_le; reflexivity.
Qed.
Lemma pretty_N_digits x : Forall digit_or_dash (chars (pretty (x : N))).
Proof.
  unfold pretty, pretty_N. case_decide; [repeat constructor; right; split; by apply Nat.leb_le|]. apply pretty_N_go_digits. constructor.
Qed.
Lemma pretty_Z_digits x : Forall digit_or_dash (chars (pretty (x : Z))).
Proof.
  destruct x as [|p|p]; [apply (pretty_N_digits 0) | apply (pretty_N_digits (Npos p)) |].
  apply Forall_cons. split; [by left | apply (pretty_N_digits (Npos p))].
Qed.

(** Two numbers before a comma. *)
Lemma digits_inj l1 l2 r1 r2 : Forall digit_or_dash l1 -> Forall digit_or_dash l2 ->
  l1 ++ ","%char :: r1 = l2 ++ ","%char :: r2 -> l1 = l2 /\ r1 = r2.
Proof.
  assert (~ digit_or_dash ","%char) as Hc by (intros [H|H]; [done | destruct H as [H _]; by apply Nat.leb_le in H]).
  intros H1. revert l2. induction H1 as [|c l1 Hd H1 IH]; intros [|d l2] H2 E; cbn in E.
  - by injection E as ->.
  - injection E as <- _. apply Forall_cons in H2 as [? _]. done.
  - injection E as -> _. done.
  - injection E as -> E. apply Forall_cons in H2 as [_ H2]. by destruct (IH _ H2 E) as [-> ->].
Qed.
Lemma pretty_comma_inj (n m : Z) l1 l2 :
  chars (pretty n) ++ ","%char :: l1 = chars (pretty m) ++ ","%char :: l2 -> n = m /\ l1 = l2.
Proof.
  intros E. apply digits_inj in E as [E ->]; [|apply pretty_Z_digits ..].
  split; [|done]. by apply (inj pretty), chars_inj.
Qed.

(** *** Records and lines *)

(** Drops the first elements of two equal lists. *)
Ltac uncons H := apply (f_equal tail) in H; cbn [tail] in H.

Lemma json_field_app f l : json_field f ++ l = ","%char :: literal (fst f) ++ ":"%char :: literal (snd f) ++ l.
Proof. unfold json_field. cbn -[literal]. by rewrite <- app_assoc. Qed.

Lemma fields_inj f1 f2 l1 l2 :
  mbind json_field f1 ++ "}"%char :: l1 = mbind json_field f2 ++ "}"%char :: l2 -> f1 = f2 /\ l1 = l2.
Proof.
  revert f2. induction f1 as [|[k1 v1] f1 IH]; intros [|[k2 v2] f2]; cbn [mbind list_bind];
    rewrite <- ?app_assoc, ?json_field_app; cbn [app fst snd]; intros E; try discriminate E.
  - by injection E as ->.
  - uncons E. apply literal_inj in E as [-> E]. uncons E.
    apply literal_inj in E as [-> E]. by apply IH in E as [-> ->].
Qed.

Lemma json_line_inj r1 r2 l1 l2 : json_line r1 ++ l1 = json_line r2 ++ l2 -> r1 = r2 /\ l1 = l2.
Proof.
  unfold json_line. rewrite <- !app_assoc. cbn [app]. intros E. uncons E.
  apply app_inv_head in E. uncons E.
  apply pretty_comma_inj in E as [Ht E]. apply app_inv_head in E. uncons E.
  apply pretty_comma_inj in E as [Hs E]. apply app_inv_head in E. uncons E.
  apply literal_inj in E as [Ho E]. uncons E. apply app_inv_head in E. uncons E.
  apply literal_inj in E as [Hty E]. apply fields_inj in E as [Hf E].
  destruct r1, r2; cbn in *; by simplify_eq.
Qed.

(** A line holds no line feed. *)
Lemma escape_char_no_lf c : line_feed ∉ escape_char c.
Proof. destruct c as [[] [] [] [] [] [] [] []]; intros H; repeat (apply elem_of_cons in H as [H|H]; [discriminate H|]); by apply elem_of_nil in H. Qed.
Lemma literal_no_lf s : line_feed ∉ literal s.
Proof.
  unfold literal. rewrite not_elem_of_cons, not_elem_of_app, list_elem_of_singleton. split_and!; [done| |done].
  unfold writeEscaped. rewrite list_elem_of_bind. intros (c&Hc&_). by apply escape_char_no_lf in Hc.
Qed.
