(* ===== verification/Peripheral.v ===== *)
(** * Register-backed peripherals

    Models [RegisterPeripheral] and [UnknownMmioDevice] of [include/fil/stm32g4/peripheral.hpp]
    and [src/stm32g4/peripheral.cpp].

    A device operation is a program of the monad [Dev S]: it reads the shared objects it only
    looks at ([Env]: the simulated time and the filter of the trace recorder), changes the device
    state [S], may throw, and emits the calls it makes to installed callbacks and to the recorder
    as a list of [Effect]s, in order.  Callbacks that use the same device again are not run
    inside the operation.  The base class is [RegBlock], reached through [HasBlock]; the virtual
    functions that a derived class overrides are the class [RegisterHooks]. *)

From stdpp Require Import gmap.
From S2P Require Import Prelude Address Common Trace CpuState.
#[local] Open Scope Z_scope.
#[local] Open Scope fil_scope.

(** ** Environment, effects and the device monad *)

Record Env := mkEnv {
  env_now : Z;                       (* [event_loop_->now()] *)
  env_trace_enabled : bool;          (* [trace_->enabled()] *)
  env_trace_allowlist : list string; (* of [trace_->passesFilter] *)
  env_trace_observer : bool;         (* [trace_->hasObserver()] *)
}.

Inductive Effect :=
  | fx_trace (time_ns : Z) (source type : string) (fields : list TraceField)
  | fx_interrupt_level (line : Z) (asserted : bool)
  | fx_interrupt (channel : Z)
  | fx_interrupt_request                (* [interrupt_callback_()] of a device without channels *)
  | fx_gpio_output (pin : Z) (high : bool) (time_ns : Z)
  | fx_gpio_edge (pin : Z) (high : bool) (time_ns : Z)
  | fx_clock_changed (frequency_hz : Z)
  | fx_adc_clock_changed (hclk_hz adc12_hz adc345_hz : Z) (adc12_enabled adc345_enabled hclk_div1_allowed : bool)
  | fx_adc_reset_changed (adc12 adc345 : bool)
  | fx_page_erase (page_base page_size : Z)
  | fx_reset
  | fx_update (time_ns : Z)
  | fx_transmit (value time_ns : Z)
  | fx_transfer (transmitted : list Z) (time_ns : Z)
  | fx_dma_request (transmit : bool)
  | fx_dma_enable (channel : Z)
  | fx_adc_sample (time_ns channel value : Z).

Definition Dev (S A : Type) : Type := Env -> S -> (A + string) * S * list Effect.

#[global] Instance Dev_ret {S} : MRet (Dev S) := fun _ a _ s => (inl a, s, []).
#[global] Instance Dev_bind {S} : MBind (Dev S) := fun _ _ f m env s =>
  match m env s with
  | (inl a, s, w) => let '(r, s, w') := f a env s in (r, s, w ++ w')
  | (inr e, s, w) => (inr e, s, w)
  end.

Section primitives.
Context {S : Type}.
Definition get {A} (f : S -> A) : Dev S A := fun _ s => (inl (f s), s, []).
Definition modify (f : S -> S) : Dev S unit := fun _ s => (inl tt, f s, []).
Definition ask {A} (f : Env -> A) : Dev S A := fun env s => (inl (f env), s, []).
Definition emit (e : Effect) : Dev S unit := fun _ s => (inl tt, s, [e]).
Definition throw {A} (message : string) : Dev S A := fun _ s => (inr message, s, []).
Definition skip : Dev S unit := mret tt.

(** A loop over a list of values. *)
Fixpoint for_each {A} (f : A -> Dev S unit) (l : list A) : Dev S unit :=
  match l with
  | [] => skip
  | x :: l => f x;; for_each f l
  end.
End primitives.

(** ** The register block *)

Record RegBlock := mkRegBlock {
  rb_name : string;
  rb_trace_source : string;
  rb_block_size : Z;
  rb_registers : list Z;
  rb_reset_values : list Z;
  rb_has_loop : bool;                 (* [event_loop_ != nullptr] *)
  rb_has_trace : bool;                (* [trace_ != nullptr] *)
  rb_interrupt_levels : list bool;    (* [std::bitset<8>] *)
  rb_level_callback : bool;           (* [interrupt_level_callback_] is set *)
  rb_level_callback_device_local : bool;
  rb_level_callback_generation : Z;
}.

Definition qualifiedTraceSource (prefix device_name : string) : string :=
  if bool_decide (prefix = "") then device_name else prefix +:+ "." +:+ device_name.

(** The members after the initialiser list of the constructor. *)
Definition block_init (name : string) (register_block_size : Z) (loop trace : bool) : RegBlock :=
  let words := Z.to_nat ((register_block_size + 3) / 4) in
  mkRegBlock name name register_block_size (replicate words 0) (replicate words 0) loop trace
    (replicate 8 false) false false 0.
(** The constructor; an empty block throws. *)
Definition block_new (name : string) (register_block_size : Z) (loop trace : bool) : RegBlock + string :=
  if register_block_size =? 0 then inr "peripheral register block must not be empty"
  else inl (block_init name register_block_size loop trace).

Definition aligned_register (word_offset : Z) (b : RegBlock) : bool :=
  (word_offset .& 3 =? 0) && (word_offset <? rb_block_size b).

Definition registerValue (word_offset : Z) (b : RegBlock) : Z :=
  if aligned_register word_offset b then rget (rb_registers b) (word_offset / 4) else 0.
Definition peekRegister : Z -> RegBlock -> Z := registerValue.

Definition set_register (word_offset value : Z) (b : RegBlock) : RegBlock :=
  if aligned_register word_offset b
  then {| b with rb_registers := rset (rb_registers b) (word_offset / 4) value |} else b.
Definition setResetValue (word_offset value : Z) (b : RegBlock) : RegBlock :=
  if aligned_register word_offset b
  then {| b with rb_reset_values := rset (rb_reset_values b) (word_offset / 4) value |} else b.

Definition level (line : Z) (b : RegBlock) : bool := default false (rb_interrupt_levels b !! Z.to_nat line).
Definition set_level (line : Z) (asserted : bool) (b : RegBlock) : RegBlock :=
  {| b with rb_interrupt_levels := <[Z.to_nat line := asserted]> (rb_interrupt_levels b) |}.
(** [interrupt_levels_.to_ulong()]. *)
Definition interruptLevelMask (b : RegBlock) : Z :=
  foldr (fun line mask => (if level line b then 1 .<< line else 0) .| mask) 0 (seqZ 0 8).
Definition deviceLocalInterruptRouting (b : RegBlock) : bool :=
  negb (rb_level_callback b) || rb_level_callback_device_local b.

(** ** The base class of a device *)

Class HasBlock (S : Type) := {
  block : S -> RegBlock;
  with_block : (RegBlock -> RegBlock) -> S -> S;
}.
Class HasBlockLaws (S : Type) `{HasBlock S} := {
  block_with_block f (s : S) : block (with_block f s) = f (block s);
  with_block_ext f g (s : S) : f (block s) = g (block s) -> with_block f s = with_block g s;
}.

#[global] Instance block_self : HasBlock RegBlock := {| block b := b; with_block f b := f b |}.
#[global] Instance block_self_laws : HasBlockLaws RegBlock.
Proof. by constructor. Qed.


Class RegisterHooks (S : Type) := {
  loadRegister : Z -> AccessContext -> Dev S Z;
  storeRegister : Z -> Z -> Z -> Z -> AccessContext -> Dev S unit;
  onReset : Dev S unit;
}.

Section device.
Context {S : Type} `{HasBlock S}.

Definition regValue (word_offset : Z) : Dev S Z := get (fun s => registerValue word_offset (block s)).
Definition setRegister (word_offset value : Z) : Dev S unit :=
  modify (with_block (set_register word_offset value)).

Definition current_time (env : Env) (b : RegBlock) : Z := if rb_has_loop b then env_now env else 0.
Definition currentTime : Dev S Z := fun env s => (inl (current_time env (block s)), s, []).

Definition trace_enabled (env : Env) (b : RegBlock) : bool := rb_has_trace b && env_trace_enabled env.
Definition trace_passes (type : string) (env : Env) (b : RegBlock) : bool :=
  trace_enabled env b
  && match env_trace_allowlist env with
     | [] => true
     | allowlist => bool_decide (type ∈ allowlist)
     end.
Definition tracePasses (type : string) : Dev S bool := fun env s => (inl (trace_passes type env (block s)), s, []).
Definition traceObserverActive (env : Env) (b : RegBlock) : bool := trace_enabled env b && env_trace_observer env.

(** [traceEvent]: the record that reaches the recorder. *)
Definition traceEvent (type : string) (fields : list TraceField) : Dev S unit :=
  fun env s =>
    (inl tt, s,
     if rb_has_trace (block s)
     then [fx_trace (current_time env (block s)) (rb_trace_source (block s)) type fields] else []).

Definition setInterruptLevel (line : Z) (asserted : bool) : Dev S unit := fun env s =>
  if (8 <=? line) || Bool.eqb (level line (block s)) asserted then (inl tt, s, [])
  else
    let s := with_block (set_level line asserted) s in
    (inl tt, s, if rb_level_callback (block s) then [fx_interrupt_level line asserted] else []).

(** Installing a callback publishes every level. *)
Definition setInterruptLevelCallback (present : bool) : Dev S unit := fun env s =>
  let s := with_block (fun b => {| b with rb_level_callback := present;
                                          rb_level_callback_device_local := false;
                                          rb_level_callback_generation := u64 (rb_level_callback_generation b + 1) |}) s in
  (inl tt, s, if present then (fun line => fx_interrupt_level line (level line (block s))) <$> seqZ 0 8 else []).
Definition setDeviceLocalInterruptLevelCallback (present : bool) : Dev S unit :=
  generation ← get (fun s => u64 (rb_level_callback_generation (block s) + 1));
  setInterruptLevelCallback present;;
  current ← get (fun s => rb_level_callback_generation (block s));
  if current =? generation
  then modify (with_block (fun b => {| b with rb_level_callback_device_local := true |})) else skip.

Definition setTraceSourcePrefix (prefix : string) : Dev S unit :=
  modify (with_block (fun b => {| b with rb_trace_source := qualifiedTraceSource prefix (rb_name b) |})).

Definition accessFault (offset : Z) (size : AccessSize.t) (c : AccessContext) (message : string) (s : S) : BusFault :=
  mkBusFault BusFaultReason.device_error offset size c (rb_name (block s)) message.

Context `{RegisterHooks S}.

(** ** Accesses of every width *)

(** The loop of [read]; every round consumes at least one byte. *)
Fixpoint read_loop (fuel : nat) (offset width : Z) (c : AccessContext) (consumed value : Z) : Dev S Z :=
  match fuel with
  | O => mret value
  | Datatypes.S fuel =>
      if consumed <? width then
        let address := u32 (offset + consumed) in
        let shift := (address .& 3) * 8 in
        let count := Z.min (width - consumed) (4 - (address .& 3)) in
        let mask := (1 .<< (count * 8)) - 1 in
        word ← loadRegister (address .& not32 3) c;
        read_loop fuel offset width c (consumed + count)
          (value .| ((word .>> shift) .& mask) .<< (consumed * 8))
      else mret value
  end.

Definition read (offset : Z) (size : AccessSize.t) (c : AccessContext) : Dev S (MemoryResult Z) :=
  let width := byteCount size in
  fits ← get (fun s => rangeFits offset width (rb_block_size (block s)));
  if (negb fits : bool) then
    get (fun s => inr (accessFault offset size c "peripheral register read is outside the register block" s))
  else if (width =? 4) && (offset .& 3 =? 0) then word ← loadRegister offset c; mret (inl word)
  else value ← read_loop (Z.to_nat width) offset width c 0 0; mret (inl value).

(** The [store] closure of [write]. *)
Definition store_word (word_offset bits mask : Z) (c : AccessContext) : Dev S unit :=
  previous ← get (fun s => rget (rb_registers (block s)) (word_offset / 4));
  let merged := (previous .& not32 mask) .| (bits .& mask) in
  modify (with_block (fun b => {| b with rb_registers := rset (rb_registers b) (word_offset / 4) merged |}));;
  storeRegister word_offset previous merged mask c.

Fixpoint write_loop (fuel : nat) (offset width value : Z) (c : AccessContext) (consumed : Z) : Dev S unit :=
  match fuel with
  | O => skip
  | Datatypes.S fuel =>
      if consumed <? width then
        let address := u32 (offset + consumed) in
        let shift := (address .& 3) * 8 in
        let count := Z.min (width - consumed) (4 - (address .& 3)) in
        let low_mask := (1 .<< (count * 8)) - 1 in
        let bits := u32 (u32 ((value .>> (consumed * 8)) .& low_mask) .<< shift) in
        store_word (address .& not32 3) bits (u32 (u32 low_mask .<< shift)) c;;
        write_loop fuel offset width value c (consumed + count)
      else skip
  end.

Definition write (offset : Z) (size : AccessSize.t) (value : Z) (c : AccessContext) : Dev S (MemoryResult Z) :=
  let width := byteCount size in
  fits ← get (fun s => rangeFits offset width (rb_block_size (block s)));
  if (negb fits : bool) then
    get (fun s => inr (accessFault offset size c "peripheral register write is outside the register block" s))
  else if (width =? 4) && (offset .& 3 =? 0) then store_word offset (u32 value) 0xffffffff c;; mret (inl 0)
  else write_loop (Z.to_nat width) offset width value c 0;; mret (inl 0).

Definition reset : Dev S unit :=
  modify (with_block (fun b => {| b with rb_registers := rb_reset_values b |}));;
  for_each (fun line => setInterruptLevel line false) (seqZ 0 8);;
  onReset.
End device.

(** The state that a constructor leaves: its last statement is [reset()]. *)
Definition construct {S} `{HasBlock S} `{RegisterHooks S} (env : Env) (s : S) : S := snd (fst (reset env s)).

(** The hooks of the base class. *)
Definition base_hooks {S} `{HasBlock S} : RegisterHooks S :=
  {| loadRegister word_offset _ := regValue word_offset;
     storeRegister _ _ _ _ _ := skip;
     onReset := skip |}.

(** ** Unknown MMIO *)

Record PeripheralAccess := mkPeripheralAccess {
  pa_time_ns : Z;
  pa_write : bool;
  pa_offset : Z;
  pa_size : AccessSize.t;
  pa_value : Z;
  pa_pc : Z;
}.

Module UnknownMmio.
Record t := mk {
  um_name : string;
  um_trace_source : string;
  um_absolute_base : Z;
  um_strict : bool;
  um_default_read_value : Z;
  um_has_loop : bool;
  um_has_trace : bool;
  um_bytes : gmap Z Z;
  um_accesses : list PeripheralAccess;
}.

Definition fault (offset : Z) (size : AccessSize.t) (c : AccessContext) (message : string) (d : t) : BusFault :=
  mkBusFault BusFaultReason.device_error (u32 (um_absolute_base d + offset)) size c (um_name d) message.

Definition traceAccess (a : PeripheralAccess) (d : t) : list Effect :=
  if um_has_trace d then
    [fx_trace (pa_time_ns a) (um_trace_source d)
       (if pa_write a then "unknown_mmio_write" else "unknown_mmio_read")
       [("offset", hexValue (pa_offset a) 0);
        ("size", String (hex_digit (byteCount (pa_size a))) "");
        ("value", hexValue (pa_value a) 0); ("pc", hexValue (pa_pc a) 0)]]
  else [].

Definition wraps (offset width : Z) : bool := 0xffffffff - (width - 1) <? offset.

(** Appends to the access log and traces. *)
Definition note (write : bool) (offset : Z) (size : AccessSize.t) (value : Z) (c : AccessContext) : Dev t unit :=
  fun env d =>
    let a := mkPeripheralAccess (if um_has_loop d then env_now env else 0) write offset size value (ctx_pc c) in
    (inl tt, {| d with um_accesses := um_accesses d ++ [a] |}, traceAccess a d).

Definition byte_at (offset index : Z) (d : t) : Z :=
  match um_bytes d !! u32 (offset + index) with
  | Some byte => byte
  | None => (um_default_read_value d .>> (index * 8)) .& 0xff
  end.
Definition read (offset : Z) (size : AccessSize.t) (c : AccessContext) : Dev t (MemoryResult Z) :=
  let width := byteCount size in
  if wraps offset width then get (fun d => inr (fault offset size c "unknown MMIO read wraps the address space" d))
  else
    value ← get (fun d => foldl (fun value index => value .| byte_at offset index d .<< (index * 8)) 0 (seqZ 0 width));
    note false offset size value c;;
    get (fun d => if um_strict d then inr (fault offset size c "read from unknown MMIO register" d) else inl value).

Definition write (offset : Z) (size : AccessSize.t) (value : Z) (c : AccessContext) : Dev t (MemoryResult Z) :=
  let width := byteCount size in
  if wraps offset width then get (fun d => inr (fault offset size c "unknown MMIO write wraps the address space" d))
  else
    note true offset size (value .& accessWidthMask size) c;;
    strict ← get um_strict;
    if (strict : bool) then get (fun d => inr (fault offset size c "write to unknown MMIO register" d))
    else
      modify (fun d : t => {| d with um_bytes :=
        foldl (fun bytes index => <[u32 (offset + index) := (value .>> (index * 8)) .& 0xff]> bytes)
          (um_bytes d) (seqZ 0 width) |});;
      mret (inl 0).

Definition clear (d : t) : t := {| d with um_bytes := ∅; um_accesses := [] |}.
End UnknownMmio.
