(* ===== verification/PeripheralProofs.v ===== *)
(** * Proofs about register blocks

    Well-formed blocks, reading back registers, and the refinement of a plain block to a
    little-endian array of bits. *)

From S2P Require Import Prelude Address Common Trace CpuState CpuStateProofs Peripheral.
#[local] Open Scope Z_scope.
#[local] Open Scope fil_scope.

(** ** Well-formed blocks *)

Record block_ok (b : RegBlock) : Prop := mk_block_ok {
  ok_size : 0 < rb_block_size b < 0x100000000;
  ok_registers : Z.of_nat (length (rb_registers b)) = (rb_block_size b + 3) / 4;
  ok_reset_values : Z.of_nat (length (rb_reset_values b)) = (rb_block_size b + 3) / 4;
  ok_register_range : Forall is_u32 (rb_registers b);
  ok_reset_range : Forall is_u32 (rb_reset_values b);
  ok_levels : length (rb_interrupt_levels b) = 8%nat;
}.

Lemma block_init_ok name size loop trace : 0 < size < 0x100000000 -> block_ok (block_init name size loop trace).
Proof.
  intros Hs. assert (0 <= (size + 3) / 4) by (apply Z.div_pos; lia).
  constructor; cbn; rewrite ?length_replicate; try lia; apply Forall_replicate; width_lia.
Qed.

Lemma word_index b i : block_ok b -> 0 <= i < rb_block_size b ->
  (Z.to_nat (i / 4) < length (rb_registers b))%nat /\ 0 <= i / 4.
Proof.
  intros [Hs Hl _ _ _ _] Hi. assert (0 <= i / 4) by (apply Z.div_pos; lia). split; [|done].
  assert (i / 4 < (rb_block_size b + 3) / 4); [|lia].
  assert ((i + 4) / 4 <= (rb_block_size b + 3) / 4) by (apply Z.div_le_mono; lia).
  replace (i + 4) with (i + 1 * 4) in * by lia. rewrite Z.div_add in * by lia. lia.
Qed.

Lemma registerValue_range w b : block_ok b -> is_u32 (registerValue w b).
Proof.
  intros Hb. unfold registerValue. destruct (aligned_register w b); [|width_lia].
  apply rget_range, ok_register_range, Hb.
Qed.
#[export] Hint Resolve registerValue_range : fil.

Lemma set_registers_ok regs b : block_ok b -> length regs = length (rb_registers b) -> Forall is_u32 regs ->
  block_ok {| b with rb_registers := regs |}.
Proof. intros [] Hl Hr. constructor; cbn; try done. by rewrite Hl. Qed.

Lemma set_register_ok w v b : block_ok b -> is_u32 v -> block_ok (set_register w v b).
Proof.
  intros Hb Hv. unfold set_register. destruct (aligned_register w b); [|done].
  apply set_registers_ok; [done | apply length_insert | by apply rset_range; [apply Hb|]].
Qed.
Lemma setResetValue_ok w v b : block_ok b -> is_u32 v -> block_ok (setResetValue w v b).
Proof.
  intros [] Hv. unfold setResetValue. destruct (aligned_register w b); [|done].
  constructor; cbn; try done; [by unfold rset; rewrite length_insert | by apply rset_range].
Qed.
Lemma set_level_ok line v b : block_ok b -> block_ok (set_level line v b).
Proof. intros []. constructor; cbn; try done. by rewrite length_insert. Qed.
#[export] Hint Resolve set_register_ok set_level_ok : fil.

Lemma registerValue_set_eq w v b : block_ok b -> aligned_register w b = true -> 0 <= w ->
  registerValue w (set_register w v b) = v.
Proof.
  intros Hb Ha Hw. unfold registerValue, set_register. rewrite Ha. unfold aligned_register in *. cbn. rewrite Ha.
  apply rget_rset. apply word_index; [done|]. lia.
Qed.
Lemma low_two_bits a : a .& 3 = a mod 4.
Proof. apply (Z.land_ones a 2). lia. Qed.
Lemma aligned_multiple w : 0 <= w -> w .& 3 = 0 -> w = 4 * (w / 4).
Proof. intros Hw E. rewrite low_two_bits in E. pose proof (Z.div_mod w 4). lia. Qed.
Lemma registerValue_set_ne w w' v b : 0 <= w -> 0 <= w' -> w <> w' ->
  registerValue w' (set_register w v b) = registerValue w' b.
Proof.
  intros Hw Hw' Hne. unfold registerValue, set_register. destruct (aligned_register w b) eqn:Ha; [|done].
  unfold aligned_register in *; cbn. destruct ((w' .& 3 =? 0) && _) eqn:Ha'; [|done].
  apply andb_true_iff in Ha as [Ha%Z.eqb_eq _], Ha' as [Ha'%Z.eqb_eq _].
  apply aligned_multiple in Ha, Ha'; [|done..].
  apply rget_rset_ne; [apply Z.div_pos; lia | apply Z.div_pos; lia |]. intros E. apply Hne. congruence.
Qed.

(** The merge of a store keeps the block well formed. *)
Lemma merged_ok b i bits mask : block_ok b -> is_u32 bits -> is_u32 mask ->
  block_ok {| b with rb_registers := rset (rb_registers b) i ((rget (rb_registers b) i .& not32 mask) .| (bits .& mask)) |}.
Proof.
  intros Hb Hbits Hm. apply set_registers_ok; [done | apply length_insert |].
  pose proof (rget_range _ i (ok_register_range _ Hb)). apply rset_range; [apply Hb|]. u32_auto.
Qed.

(** The written part of a merge. *)
Lemma merged_low previous bits m m' : m' = m -> is_u32 m ->
  ((previous .& not32 m) .| (bits .& m)) .& m' = bits .& m.
Proof.
  intros -> Hm. apply Z.bits_inj'. intros i Hi. rewrite !Z.land_spec, Z.lor_spec, !Z.land_spec.
  destruct (Z.lt_ge_cases i 32).
  - rewrite not32_testbit by lia. by destruct (Z.testbit m i), (Z.testbit bits i), (Z.testbit previous i).
  - rewrite (high_bits_clear 32 m i) by (done || width_lia). by rewrite !andb_false_r.
Qed.

(** ** The monad *)

Lemma bind_inl {S A B} (m : Dev S A) (f : A -> Dev S B) env s a s' w :
  m env s = (inl a, s', w) -> (m ≫= f) env s = (let '(r, s'', w') := f a env s' in (r, s'', w ++ w')).
Proof. intros E. unfold mbind, Dev_bind. by rewrite E. Qed.

Lemma get_bind {S A B} (f : S -> A) (k : A -> Dev S B) env s : (get f ≫= k) env s = k (f s) env s.
Proof. unfold mbind, Dev_bind, get. by destruct (k (f s) env s) as [[? ?] ?]. Qed.
Lemma modify_bind {S B} (f : S -> S) (k : unit -> Dev S B) env s : (modify f ≫= k) env s = k tt env (f s).
Proof. unfold mbind, Dev_bind, modify. by destruct (k tt env (f s)) as [[? ?] ?]. Qed.
Lemma skip_bind {S B} (k : unit -> Dev S B) env s : (skip ≫= k) env s = k tt env s.
Proof. unfold mbind, Dev_bind, skip, mret, Dev_ret. by destruct (k tt env s) as [[? ?] ?]. Qed.
Lemma regValue_bind {S B} `{HasBlock S} w (k : Z -> Dev S B) env s :
  (regValue w ≫= k) env s = k (registerValue w (block s)) env s.
Proof. exact (get_bind (fun s => registerValue w (block s)) k env s). Qed.
Lemma setRegister_bind {S B} `{HasBlock S} w v (k : unit -> Dev S B) env s :
  (setRegister w v ≫= k) env s = k tt env (with_block (set_register w v) s).
Proof. exact (modify_bind (with_block (set_register w v)) k env s). Qed.

(** A loop whose rounds have a known result and effects that do not depend on the state. *)
Lemma for_each_run {S A} (I : S -> Prop) (f : A -> Dev S unit) (g : A -> S -> S) (e : A -> list Effect) env l s :
  (∀ x s, x ∈ l -> I s -> f x env s = (inl tt, g x s, e x) /\ I (g x s)) -> I s ->
  for_each f l env s = (inl tt, foldl (fun s x => g x s) s l, mbind e l) /\ I (foldl (fun s x => g x s) s l).
Proof.
  revert s. induction l as [|x l IH]; intros s Hf Hs; [done|].
  destruct (Hf x s ltac:(by left) Hs) as [E Hx].
  destruct (IH (g x s)) as [E' Hl]; [intros y s' Hy; apply Hf; by right | done |]. split; [|done].
  cbn [for_each]. rewrite (bind_inl _ _ _ _ _ _ _ E), E'. done.
Qed.

(** ** Invariants of device programs

    [holds I m Q]: the program keeps [I], also when it throws, and its results satisfy [Q]. *)

Section holds.
Context {S : Type}.

Definition holds {A} (I : S -> Prop) (m : Dev S A) (Q : A -> Prop) : Prop :=
  ∀ env s, I s -> let '(r, s', _) := m env s in I s' /\ ∀ a, r = inl a -> Q a.

Lemma holds_bind {A B} I (m : Dev S A) (f : A -> Dev S B) Q R :
  holds I m Q -> (∀ a, Q a -> holds I (f a) R) -> holds I (m ≫= f) R.
Proof.
  intros Hm Hf env s Hs. specialize (Hm env s Hs). unfold mbind, Dev_bind.
  destruct (m env s) as [[[a|e] s'] w]; destruct Hm as [Hs' HQ]; [|by split].
  specialize (Hf a (HQ a eq_refl) env s' Hs'). destruct (f a env s') as [[r s''] w']. exact Hf.
Qed.
Lemma holds_state {A} I (m : Dev S A) Q env s : holds I m Q -> I s -> I (snd (fst (m env s))).
Proof. intros Hm Hs. specialize (Hm env s Hs). destruct (m env s) as [[r s'] w]. apply Hm. Qed.
Lemma state_of_app {A} (x : (A + string) * S * list Effect) w :
  snd (fst (let '(r, s, w') := x in (r, s, w ++ w'))) = snd (fst x).
Proof. by destruct x as [[? ?] ?]. Qed.
Lemma holds_ret {A} I (a : A) (Q : A -> Prop) : Q a -> holds I (mret a) Q.
Proof. intros Ha env s Hs. split; [done|]. by intros ? [= <-]. Qed.
Lemma holds_skip I : holds I (skip : Dev S unit) (fun _ => True).
Proof. by apply holds_ret. Qed.
Lemma holds_get {A} I (f : S -> A) (Q : A -> Prop) : (∀ s, I s -> Q (f s)) -> holds I (get f) Q.
Proof. intros H env s Hs. split; [done|]. intros ? [= <-]. by apply H. Qed.
Lemma holds_modify I (f : S -> S) : (∀ s, I s -> I (f s)) -> holds I (modify f) (fun _ => True).
Proof. intros H env s Hs. split; [by apply H|done]. Qed.
Lemma holds_emit I e : holds I (emit e : Dev S unit) (fun _ => True).
Proof. intros env s Hs. done. Qed.
Lemma holds_throw {A} I message (Q : A -> Prop) : holds I (throw message : Dev S A) Q.
Proof. intros env s Hs. done. Qed.
Lemma holds_ask {A} I (f : Env -> A) (Q : A -> Prop) : (∀ env, Q (f env)) -> holds I (ask f : Dev S A) Q.
Proof. intros H env s Hs. split; [done|]. intros ? [= <-]. apply H. Qed.
Lemma holds_weaken {A} I (m : Dev S A) (Q R : A -> Prop) : holds I m Q -> (∀ a, Q a -> R a) -> holds I m R.
Proof. intros Hm H env s Hs. specialize (Hm env s Hs). destruct (m env s) as [[r s'] w]. naive_solver. Qed.
Lemma holds_if {A} I (b : bool) (m n : Dev S A) Q : holds I m Q -> holds I n Q -> holds I (if b then m else n) Q.
Proof. by destruct b. Qed.
Lemma holds_for_each {A} I (f : A -> Dev S unit) l :
  (∀ x, x ∈ l -> holds I (f x) (fun _ => True)) -> holds I (for_each f l) (fun _ => True).
Proof.
  induction l as [|x l IH]; intros H; cbn; [apply holds_skip|].
  eapply holds_bind; [apply H; by left|]. intros _ _. apply IH. intros y Hy. apply H. by right.
Qed.

Context `{HasBlock S} `{!HasBlockLaws S}.
Implicit Type I : S -> Prop.

Lemma holds_regValue I w : (∀ s, I s -> block_ok (block s)) -> holds I (regValue w) is_u32.
Proof. intros HI. apply holds_get. intros s Hs. apply registerValue_range, HI, Hs. Qed.
Lemma holds_currentTime I : holds I currentTime (fun _ => True).
Proof. intros env s Hs. done. Qed.
Lemma holds_tracePasses I t : holds I (tracePasses t) (fun _ => True).
Proof. intros env s Hs. done. Qed.
Lemma holds_traceEvent I t fields : holds I (traceEvent t fields) (fun _ => True).
Proof. intros env s Hs. done. Qed.
Lemma holds_setInterruptLevel I line asserted :
  (∀ s, I s -> I (with_block (set_level line asserted) s)) -> holds I (setInterruptLevel line asserted) (fun _ => True).
Proof. intros HI env s Hs. unfold setInterruptLevel. destruct (_ || _); split; try done. by apply HI. Qed.
End holds.

(** The state of a device whose constructor resets it. *)
Lemma construct_block {S} `{HasBlock S} `{!HasBlockLaws S} `{RegisterHooks S} (I : S -> Prop) env s :
  I (with_block (fun b => {| b with rb_registers := rb_reset_values b |}) s) ->
  (∀ line s, I s -> I (with_block (set_level line false) s)) -> holds I onReset (fun _ => True) ->
  I (construct env s).
Proof.
  intros Hs Hl Hr. unfold construct, reset. erewrite bind_inl by reflexivity.
  assert (holds I (for_each (fun line => setInterruptLevel line false) (seqZ 0 8);; onReset) (fun _ => True)) as Hh.
  { eapply holds_bind; [|intros _ _; exact Hr]. apply holds_for_each. intros line _.
    apply holds_setInterruptLevel. intros. by apply Hl. }
  rewrite state_of_app. exact (holds_state _ _ _ env _ Hh Hs).
Qed.
Lemma reset_registers_ok b : block_ok b -> block_ok {| b with rb_registers := rb_reset_values b |}.
Proof. intros [Hs Hl Hl' Hr Hr' Hv]. constructor; cbn; try done; congruence. Qed.

(** ** Programs that return

    [runs P m Q]: from a state in [P] the program returns a result [a] and a state in [Q a]. *)

Section runs.
Context {S : Type}.

Definition runs {A} (P : S -> Prop) (m : Dev S A) (Q : A -> S -> Prop) : Prop :=
  ∀ env s, P s -> ∃ a s' w, m env s = (inl a, s', w) /\ Q a s'.

Lemma runs_bind {A B} P (m : Dev S A) (f : A -> Dev S B) Q R :
  runs P m Q -> (∀ a, runs (Q a) (f a) R) -> runs P (m ≫= f) R.
Proof.
  intros Hm Hf env s Hs. destruct (Hm env s Hs) as (a&s'&w&E&Ha). destruct (Hf a env s' Ha) as (b&s''&w'&E'&Hb).
  exists b, s'', (w ++ w'). split; [|done]. erewrite bind_inl by exact E. by rewrite E'.
Qed.
Lemma runs_conseq {A} (P P' : S -> Prop) (m : Dev S A) (Q Q' : A -> S -> Prop) :
  runs P m Q -> (∀ s, P' s -> P s) -> (∀ a s, Q a s -> Q' a s) -> runs P' m Q'.
Proof. intros Hm HP HQ env s Hs. destruct (Hm env s (HP s Hs)) as (a&s'&w&E&Ha). eauto 10. Qed.
Lemma runs_get {A} P (f : S -> A) : runs P (get f) (fun a s => P s /\ a = f s).
Proof. intros env s Hs. by eexists _, _, _. Qed.
Lemma runs_modify P (f : S -> S) (Q : unit -> S -> Prop) : (∀ s, P s -> Q tt (f s)) -> runs P (modify f) Q.
Proof. intros H env s Hs. eexists _, _, _. split; [done|]. by apply H. Qed.
Lemma runs_ret {A} P (a : A) (Q : A -> S -> Prop) : (∀ s, P s -> Q a s) -> runs P (mret a) Q.
Proof. intros H env s Hs. eexists _, _, _. split; [done|]. by apply H. Qed.
Lemma runs_skip P : runs P (skip : Dev S unit) (fun _ => P).
Proof. by apply runs_ret. Qed.
Lemma runs_if {A} P (b : bool) (m n : Dev S A) Q : (b = true -> runs P m Q) -> (b = false -> runs P n Q) ->
  runs P (if b then m else n) Q.
Proof. destruct b; auto. Qed.

(** A loop over [0 .. n) with an invariant indexed by the number of rounds done. *)
Lemma runs_for_seq (J : Z -> S -> Prop) (f : Z -> Dev S unit) n : 0 <= n ->
  (∀ k, 0 <= k < n -> runs (J k) (f k) (fun _ => J (k + 1))) -> runs (J 0) (for_each f (seqZ 0 n)) (fun _ => J n).
Proof.
  intros Hn Hf. assert (∀ l k, l = seqZ k (n - k) -> 0 <= k <= n -> runs (J k) (for_each f l) (fun _ => J n)) as H.
  2: { apply (H _ 0); [by rewrite Z.sub_0_r|lia]. }
  induction l as [|x l IH]; intros k El Hk.
  - assert (k = n) as -> by (destruct (decide (k = n)) as [|Hne]; [done|]; rewrite seqZ_cons in El by lia; done).
    apply runs_skip.
  - destruct (decide (k = n)) as [->|Hne]; [by rewrite Z.sub_diag in El|].
    rewrite seqZ_cons in El by lia. injection El as -> ->. cbn [for_each]. eapply runs_bind; [apply Hf; lia|].
    intros []. apply IH; [|lia]. f_equal; lia.
Qed.

Context `{HasBlock S}.
Lemma runs_regValue P w : runs P (regValue w) (fun a s => P s /\ a = registerValue w (block s)).
Proof. apply runs_get. Qed.
Lemma runs_traceEvent P t fields : runs P (traceEvent t fields) (fun _ => P).
Proof. intros env s Hs. by eexists _, _, _. Qed.
Lemma runs_setInterruptLevel (P : S -> Prop) (Q : unit -> S -> Prop) line asserted :
  (∀ s, P s -> (8 <=? line) || Bool.eqb (level line (block s)) asserted = true -> Q tt s) ->
  (∀ s, P s -> (8 <=? line) || Bool.eqb (level line (block s)) asserted = false ->
        Q tt (with_block (set_level line asserted) s)) ->
  runs P (setInterruptLevel line asserted) Q.
Proof.
  intros H1 H2 env s Hs. unfold setInterruptLevel. destruct (_ || _) eqn:E; eexists _, _, _; (split; [done|]); auto.
Qed.
End runs.

Lemma runs_and_holds {S A} (P I : S -> Prop) (m : Dev S A) (Q : A -> S -> Prop) R :
  runs P m Q -> holds I m R -> (∀ s, P s -> I s) -> runs P m (fun a s => Q a s /\ I s).
Proof.
  intros Hm Hi HP env s Hs. destruct (Hm env s Hs) as (a&s'&w&E&Ha). specialize (Hi env s (HP s Hs)).
  rewrite E in Hi. exists a, s', w. split; [done|]. split; [done|apply Hi].
Qed.
Lemma runs_holds {S A} (I : S -> Prop) (m : Dev S A) (Q : A -> S -> Prop) :
  runs I m Q -> (∀ a s, Q a s -> I s) -> holds I m (fun _ => True).
Proof. intros Hm HQ env s Hs. destruct (Hm env s Hs) as (a&s'&w&->&Ha). split; [by eapply HQ|done]. Qed.

(** ** Word accesses *)

Lemma merged_word previous v : is_u32 v -> (previous .& not32 0xffffffff) .| (v .& 0xffffffff) = v.
Proof.
  intros Hv. assert (not32 0xffffffff = 0) as -> by done. rewrite Z.land_0_r, Z.lor_0_l, <- u32_land. by apply u32_small.
Qed.

(** A store to an aligned register sets it to the merged image and runs the hook. *)
Definition merged_image (previous bits mask : Z) : Z := (previous .& not32 mask) .| (bits .& mask).
Lemma merged_image_range previous bits mask : is_u32 previous -> is_u32 bits -> is_u32 mask ->
  is_u32 (merged_image previous bits mask).
Proof. intros. unfold merged_image. u32_auto. Qed.
Lemma store_word_hook {S} `{HasBlock S} `{!HasBlockLaws S} `{RegisterHooks S} w bits mask c env (s : S) :
  aligned_register w (block s) = true ->
  store_word w bits mask c env s
  = storeRegister w (registerValue w (block s)) (merged_image (registerValue w (block s)) bits mask) mask c env
      (with_block (set_register w (merged_image (registerValue w (block s)) bits mask)) s).
Proof.
  intros Ha. unfold store_word, merged_image, registerValue. rewrite Ha. unfold mbind, Dev_bind. cbn -[not32].
  set (m := (rget _ _ .& _) .| _).
  rewrite (with_block_ext _ (set_register w m) s) by (unfold set_register; by rewrite Ha).
  by destruct (storeRegister _ _ _ _ _ _ _) as [[[[]|e] s'] fx].
Qed.

(** A word write stores the value and runs the hook with the full mask. *)
Lemma write_word {S} `{HasBlock S} `{!HasBlockLaws S} `{RegisterHooks S} w v c env (s : S) :
  block_ok (block s) -> aligned_register w (block s) = true -> 0 <= w -> w + 4 <= rb_block_size (block s) ->
  write w AccessSize.word v c env s
  = let '(r, s', fx) := storeRegister w (registerValue w (block s)) (u32 v) 0xffffffff c env
                          (with_block (set_register w (u32 v)) s) in
    (match r with inl _ => inl (inl 0) | inr e => inr e end, s', fx).
Proof.
  intros Hb Ha Hw Hs. unfold write. erewrite bind_inl by reflexivity.
  replace (rangeFits w (byteCount AccessSize.word) (rb_block_size (block s))) with true
    by (symmetry; apply rangeFits_spec; cbn; lia).
  pose proof Ha as [Ha' _]%andb_true_iff. rewrite Ha'. cbn -[u32].
  unfold store_word. unfold mbind, Dev_bind. cbn -[u32 not32]. unfold registerValue. rewrite Ha.
  rewrite merged_word by apply u32_range.
  rewrite (with_block_ext _ (set_register w (u32 v)) s) by (unfold set_register; by rewrite Ha).
  destruct (storeRegister _ _ _ _ _ _ _) as [[[[]|e] s'] fx]; cbn; by rewrite ?app_nil_r.
Qed.

Lemma read_word {S} `{HasBlock S} `{RegisterHooks S} w c env (s : S) :
  aligned_register w (block s) = true -> 0 <= w -> w + 4 <= rb_block_size (block s) ->
  read w AccessSize.word c env s
  = let '(r, s', fx) := loadRegister w c env s in (match r with inl v => inl (inl v) | inr e => inr e end, s', fx).
Proof.
  intros Ha Hw Hs. unfold read. erewrite bind_inl by reflexivity.
  replace (rangeFits w (byteCount AccessSize.word) (rb_block_size (block s))) with true
    by (symmetry; apply rangeFits_spec; cbn; lia).
  apply andb_true_iff in Ha as [Ha _]. rewrite Ha. cbn. unfold mbind, Dev_bind.
  destruct (loadRegister _ _ _ _) as [[[v|e] s'] fx]; cbn; by rewrite ?app_nil_r.
Qed.

(** ** Invariants of accesses of every width *)

Section accesses.
Context {S : Type} `{HasBlock S} `{!HasBlockLaws S} `{RegisterHooks S}.
Context (I : S -> Prop) (n : Z).
Hypothesis block_size_is : ∀ s, I s -> rb_block_size (block s) = n.
Hypothesis small_block : n <= 0x100000000.

Definition register_of (w : Z) : Prop := 0 <= w < n /\ w .& 3 = 0.
Lemma register_address offset consumed width : 0 <= offset -> 0 <= consumed < width -> offset + width <= n ->
  register_of (u32 (offset + consumed) .& not32 3).
Proof.
  intros Ho Hc Hs. rewrite (u32_small (offset + consumed)) by width_lia.
  pose proof (land_bounds_l (offset + consumed) (not32 3)). split; [lia|]. rewrite <- Z.land_assoc.
  by assert (not32 3 .& 3 = 0) as -> by done; rewrite Z.land_0_r.
Qed.

Lemma lane_positive a width consumed : consumed < width -> 0 < Z.min (width - consumed) (4 - (a .& 3)).
Proof. pose proof (land_bounds_r a 3). lia. Qed.

Lemma holds_write_loop fuel offset width v c consumed : 0 <= offset -> 0 <= consumed -> offset + width <= n ->
  (∀ w bits mask, register_of w -> is_u32 bits -> is_u32 mask -> holds I (store_word w bits mask c) (fun _ => True)) ->
  holds I (write_loop fuel offset width v c consumed) (fun _ => True).
Proof.
  intros Ho Hc Hs Hst. revert consumed Hc. induction fuel as [|fuel IH]; intros consumed Hc; cbn [write_loop]; [apply holds_skip|].
  destruct (Z.ltb_spec consumed width); [|apply holds_skip].
  eapply holds_bind; [apply Hst; [by eapply register_address|apply u32_range|apply u32_range]|].
  intros _ _. apply IH. pose proof (lane_positive (u32 (offset + consumed)) width consumed). lia.
Qed.
Lemma holds_read_loop fuel offset width c consumed value : 0 <= offset -> 0 <= consumed -> offset + width <= n ->
  (∀ w, register_of w -> holds I (loadRegister w c) (fun _ => True)) ->
  holds I (read_loop fuel offset width c consumed value) (fun _ => True).
Proof.
  intros Ho Hc Hs Hld. revert consumed value Hc. induction fuel as [|fuel IH]; intros consumed value Hc; cbn [read_loop]; [by apply holds_ret|].
  destruct (Z.ltb_spec consumed width); [|by apply holds_ret].
  eapply holds_bind; [apply Hld; by eapply register_address|].
  intros word _. apply IH. pose proof (lane_positive (u32 (offset + consumed)) width consumed). lia.
Qed.

Lemma holds_fits offset width : holds I (get (fun s => rangeFits offset width (rb_block_size (block s))))
  (fun fits => fits = true -> 0 <= offset /\ offset + width <= n).
Proof. apply holds_get. intros s Hs. rewrite (block_size_is s Hs). intros (?&_&?)%rangeFits_spec. lia. Qed.

Lemma holds_write offset size v c :
  (∀ w bits mask, register_of w -> is_u32 bits -> is_u32 mask -> holds I (store_word w bits mask c) (fun _ => True)) ->
  holds I (write offset size v c) (fun _ => True).
Proof.
  intros Hst. eapply holds_bind; [apply holds_fits|]. intros [] Hf; cbn [negb]; [|by apply holds_get].
  destruct (Hf eq_refl) as [Ho Hn]. destruct ((byteCount size =? 4) && (offset .& 3 =? 0)) eqn:E.
  - apply andb_true_iff in E as [Ew%Z.eqb_eq Ea%Z.eqb_eq].
    eapply holds_bind; [apply Hst; [split; [lia|done]|apply u32_range|width_lia]|]. intros _ _. by apply holds_ret.
  - eapply holds_bind; [by apply holds_write_loop|]. intros _ _. by apply holds_ret.
Qed.
Lemma holds_read offset size c :
  (∀ w, register_of w -> holds I (loadRegister w c) (fun _ => True)) -> holds I (read offset size c) (fun _ => True).
Proof.
  intros Hld. eapply holds_bind; [apply holds_fits|]. intros [] Hf; cbn [negb]; [|by apply holds_get].
  destruct (Hf eq_refl) as [Ho Hn]. destruct ((byteCount size =? 4) && (offset .& 3 =? 0)) eqn:E.
  - apply andb_true_iff in E as [Ew%Z.eqb_eq Ea%Z.eqb_eq].
    eapply holds_bind; [apply Hld; split; [lia|done]|]. intros w _. by apply holds_ret.
  - eapply holds_bind; [by apply holds_read_loop|]. intros w _. by apply holds_ret.
Qed.
End accesses.

(** ** A plain block is a little-endian array of bits *)

(** Bit [n] of the block, counting from the first register. *)
Definition block_bit (b : RegBlock) (n : Z) : bool := Z.testbit (rget (rb_registers b) (n / 32)) (n mod 32).

Lemma word_of_address a : is_u32 a -> (a .& not32 3) / 4 = a / 4.
Proof.
  intros Ha. assert (a .& not32 3 = (a .>> 2) .<< 2) as ->.
  { apply Z.bits_inj'. intros i Hi. rewrite Z.land_spec, Z.shiftl_spec by done.
    destruct (Z.lt_ge_cases i 2).
    - rewrite not32_testbit, (Z.testbit_neg_r _ (i - 2)) by lia.
      destruct (decide (i = 0)) as [->|]; [|replace i with 1 by lia]; apply andb_false_r.
    - rewrite Z.shiftr_spec by lia. replace (i - 2 + 2) with i by lia.
      destruct (Z.lt_ge_cases i 32).
      + rewrite not32_testbit by lia. rewrite (high_bits_clear 2 3 i) by lia. by rewrite andb_true_r.
      + by rewrite (high_bits_clear 32 a i) by (done || width_lia). }
  rewrite Z.shiftl_mul_pow2, Z.shiftr_div_pow2 by lia. change (2 ^ 2) with 4. by rewrite Z.div_mul.
Qed.

(** The bits of [count] bytes that start at byte address [a] of one word. *)
Lemma bit_position a j : 0 <= a -> 0 <= j < 8 * (4 - a mod 4) ->
  (8 * a + j) / 32 = a / 4 /\ (8 * a + j) mod 32 = 8 * (a mod 4) + j.
Proof.
  intros Ha Hj. pose proof (Z.div_mod a 4). pose proof (Z.mod_pos_bound a 4).
  replace (8 * a + j) with ((8 * (a mod 4) + j) + (a / 4) * 32) by lia.
  rewrite Z.div_add, Z_mod_plus_full by lia. rewrite Z.div_small, Z.mod_small by lia. lia.
Qed.

Lemma ones_testbit n i : 0 <= n -> 0 <= i -> Z.testbit (1 .<< n - 1) i = (i <? n).
Proof.
  intros Hn Hi. rewrite Z.shiftl_mul_pow2, Z.mul_1_l by done.
  replace (2 ^ n - 1) with (Z.ones n) by (rewrite Z.ones_equiv; lia).
  destruct (Z.ltb_spec i n); [apply Z.ones_spec_low | apply Z.ones_spec_high]; lia.
Qed.

Lemma high_mask_bit i : 0 <= i < 32 -> Z.testbit 0xffffffff i = true.
Proof. intros Hi. change 0xffffffff with (Z.ones 32). apply Z.ones_spec_low. lia. Qed.

Section plain.
#[local] Instance plain_hooks : RegisterHooks RegBlock := base_hooks.

(** The lane of the loops at byte [consumed] of an access. *)
Definition lane_count (offset width consumed : Z) : Z :=
  Z.min (width - consumed) (4 - (u32 (offset + consumed) .& 3)).

Lemma lane_facts offset width consumed : 0 <= offset -> 0 <= consumed < width -> offset + width <= 0x100000000 ->
  u32 (offset + consumed) = offset + consumed /\ is_u32 (offset + consumed)
  /\ 0 < lane_count offset width consumed <= width - consumed
  /\ lane_count offset width consumed <= 4 - (offset + consumed) mod 4.
Proof.
  intros Ho Hc Hs. assert (is_u32 (offset + consumed)) as Ha by width_lia.
  unfold lane_count. rewrite (u32_small _ Ha), low_two_bits.
  pose proof (Z.mod_pos_bound (offset + consumed) 4 ltac:(lia)). split_and!; done || lia.
Qed.

Lemma registerValue_word b a : is_u32 a -> a < rb_block_size b ->
  registerValue (a .& not32 3) b = rget (rb_registers b) (a / 4).
Proof.
  intros Ha Hs. unfold registerValue, aligned_register.
  assert (0 <= a .& not32 3 <= a) by (apply land_bounds_l; width_lia).
  rewrite (proj2 (Z.ltb_lt _ _)), word_of_address by (done || lia).
  rewrite <- Z.land_assoc. by assert (not32 3 .& 3 = 0) as -> by done; rewrite Z.land_0_r.
Qed.

(** Bits of the value that the read loop adds for one lane. *)
Lemma lane_bit word a j consumed count : 0 <= consumed -> 0 <= count -> 0 <= a -> 0 <= j ->
  Z.testbit (((word .>> ((a .& 3) * 8)) .& (1 .<< (count * 8) - 1)) .<< (consumed * 8)) j
  = (consumed * 8 <=? j) && (j <? (consumed + count) * 8) && Z.testbit word (8 * (a mod 4) + (j - consumed * 8)).
Proof.
  intros Hk Hc Ha Hj. rewrite low_two_bits, Z.shiftl_spec by done. pose proof (Z.mod_pos_bound a 4).
  destruct (Z.leb_spec (consumed * 8) j); [|by rewrite Z.testbit_neg_r by lia].
  rewrite Z.land_spec, Z.shiftr_spec, ones_testbit by lia.
  replace (j - consumed * 8 <? count * 8) with (j <? (consumed + count) * 8)
    by (destruct (Z.ltb_spec j ((consumed + count) * 8)), (Z.ltb_spec (j - consumed * 8) (count * 8)); lia).
  rewrite andb_comm. cbn. f_equal. f_equal. lia.
Qed.

Lemma read_loop_bits b env c offset width fuel consumed value :
  0 <= offset -> 0 <= consumed <= width -> offset + width <= rb_block_size b <= 0x100000000 ->
  width - consumed <= Z.of_nat fuel ->
  (∀ j, 0 <= j -> Z.testbit value j = (j <? consumed * 8) && block_bit b (8 * offset + j)) ->
  ∃ v, read_loop fuel offset width c consumed value env b = (inl v, b, [])
    /\ ∀ j, 0 <= j -> Z.testbit v j = (j <? width * 8) && block_bit b (8 * offset + j).
Proof.
  intros Ho Hc Hs. revert consumed value Hc. induction fuel as [|fuel IH]; intros consumed value Hc Hf Hv; cbn [read_loop].
  { exists value. split; [done|]. by replace width with consumed by lia. }
  destruct (Z.ltb_spec consumed width) as [Hlt|Hge].
  2: { exists value. split; [done|]. by replace width with consumed by lia. }
  destruct (lane_facts offset width consumed) as (Ea&Ha&Hn&Hn4); [lia ..|]. unfold lane_count in Hn, Hn4.
  rewrite Ea in *. unfold mbind at 1, Dev_bind at 1. cbn [loadRegister plain_hooks base_hooks regValue get].
  rewrite registerValue_word by (done || (cbn; width_lia)). set (count := Z.min _ _) in *.
  edestruct (IH (consumed + count)) as (v&->&Hb); [lia|lia| |by exists v].
  intros j Hj. cbn [block block_self]. rewrite Z.lor_spec, Hv, lane_bit by lia.
  destruct (Z.ltb_spec j (consumed * 8)), (Z.leb_spec (consumed * 8) j); try lia; cbn.
  - rewrite orb_false_r. by destruct (Z.ltb_spec j ((consumed + count) * 8)); [|lia].
  - destruct (Z.ltb_spec j ((consumed + count) * 8)); [|done]. cbn. unfold block_bit.
    destruct (bit_position (offset + consumed) (j - consumed * 8)) as [E1 E2]; [lia..|].
    replace (8 * offset + j) with (8 * (offset + consumed) + (j - consumed * 8)) by lia. by rewrite E1, E2.
Qed.

Lemma plain_read_bits b env c offset size : block_ok b -> 0 <= offset ->
  rangeFits offset (byteCount size) (rb_block_size b) = true ->
  ∃ v, read offset size c env b = (inl (inl v), b, [])
    /\ ∀ j, 0 <= j -> Z.testbit v j = (j <? byteCount size * 8) && block_bit b (8 * offset + j).
Proof.
  intros Hb Ho Hf. pose proof Hf as (_&_&Hs)%rangeFits_spec. pose proof (ok_size _ Hb).
  unfold read. erewrite bind_inl by reflexivity. cbn [block block_self]. rewrite Hf. cbn [negb].
  destruct ((byteCount size =? 4) && (offset .& 3 =? 0)) eqn:E.
  - apply andb_true_iff in E as [Ew%Z.eqb_eq E%Z.eqb_eq]. rewrite Ew in *.
    exists (registerValue offset b). split; [done|]. intros j Hj. unfold registerValue, aligned_register.
    rewrite E, (proj2 (Z.ltb_lt _ _)) by lia. cbn. unfold block_bit. rewrite low_two_bits in E.
    destruct (Z.ltb_spec j (4 * 8)).
    + destruct (bit_position offset j) as [-> ->]; [lia|lia|]. by rewrite E.
    + apply (high_bits_clear 32); [|lia]. apply rget_range, Hb.
  - edestruct (read_loop_bits b env c offset (byteCount size) (Z.to_nat (byteCount size)) 0 0) as (v&Hv&Hbits).
    { done. } { destruct size; cbn; lia. } { lia. } { destruct size; cbn; lia. }
    { intros j Hj. rewrite Z.bits_0. by destruct (Z.ltb_spec j (0 * 8)); [lia|]. }
    exists v. split; [|done]. erewrite bind_inl by exact Hv. done.
Qed.

(** One store of a lane changes exactly its bits. *)
Lemma store_word_bits b env c w bits mask : block_ok b -> 0 <= w < rb_block_size b -> is_u32 bits -> is_u32 mask ->
  ∃ b', store_word w bits mask c env b = (inl tt, b', []) /\ block_ok b' /\ rb_block_size b' = rb_block_size b
    /\ ∀ n, 0 <= n -> block_bit b' n =
         if (n / 32 =? w / 4) && Z.testbit mask (n mod 32) then Z.testbit bits (n mod 32) else block_bit b n.
Proof.
  intros Hb Hw Hbits Hmask. destruct (word_index b w Hb Hw) as [Hi Hi0].
  set (merged := (rget (rb_registers b) (w / 4) .& not32 mask) .| (bits .& mask)).
  exists {| b with rb_registers := rset (rb_registers b) (w / 4) merged |}. split_and!; [done| |done|].
  - apply set_registers_ok; [done | apply length_insert |].
    apply rset_range; [apply Hb|]. pose proof (rget_range _ (w / 4) (ok_register_range _ Hb)). subst merged. u32_auto.
  - intros n Hn. unfold block_bit. cbn. assert (0 <= n / 32) by (apply Z.div_pos; lia).
    pose proof (Z.mod_pos_bound n 32).
    destruct (Z.eqb_spec (n / 32) (w / 4)) as [->|Hne]; [|by rewrite rget_rset_ne].
    rewrite rget_rset by done. subst merged. rewrite Z.lor_spec, !Z.land_spec, not32_testbit by lia. cbn.
    destruct (Z.testbit mask (n mod 32)); cbn; [by rewrite andb_false_r, andb_true_r|].
    by rewrite andb_true_r, andb_false_r, orb_false_r.
Qed.

(** Masks and values of a lane. *)
Lemma lane_mask_bit a count j : 0 <= count <= 4 - a mod 4 -> 0 <= j < 32 ->
  Z.testbit (u32 (u32 (1 .<< (count * 8) - 1) .<< ((a .& 3) * 8))) j
  = (8 * (a mod 4) <=? j) && (j <? 8 * (a mod 4 + count)).
Proof.
  intros Hc Hj. rewrite low_two_bits. pose proof (Z.mod_pos_bound a 4).
  unfold u32 at 1. change 0x100000000 with (2 ^ 32). rewrite Z.mod_pow2_bits_low, Z.shiftl_spec by lia.
  destruct (Z.leb_spec (8 * (a mod 4)) j); [|by rewrite Z.testbit_neg_r by lia].
  unfold u32. change 0x100000000 with (2 ^ 32). rewrite Z.mod_pow2_bits_low, ones_testbit by lia. cbn.
  destruct (Z.ltb_spec (j - a mod 4 * 8) (count * 8)), (Z.ltb_spec j (8 * (a mod 4 + count))); lia.
Qed.
Lemma lane_value_bit value a count consumed j : 0 <= consumed -> 0 <= count <= 4 - a mod 4 ->
  8 * (a mod 4) <= j < 8 * (a mod 4 + count) ->
  Z.testbit (u32 (u32 ((value .>> (consumed * 8)) .& (1 .<< (count * 8) - 1)) .<< ((a .& 3) * 8))) j
  = Z.testbit value (consumed * 8 + (j - 8 * (a mod 4))).
Proof.
  intros Hk Hc Hj. rewrite low_two_bits. pose proof (Z.mod_pos_bound a 4).
  unfold u32 at 1. change 0x100000000 with (2 ^ 32). rewrite Z.mod_pow2_bits_low, Z.shiftl_spec by lia.
  unfold u32. change 0x100000000 with (2 ^ 32). rewrite Z.mod_pow2_bits_low, Z.land_spec, ones_testbit, Z.shiftr_spec by lia.
  destruct (Z.ltb_spec (j - a mod 4 * 8) (count * 8)); [|lia]. rewrite andb_true_r. f_equal. lia.
Qed.

(** The block after the bytes [from, to) of an access at [offset] were written. *)
Definition written (b b' : RegBlock) (offset value from to : Z) : Prop :=
  ∀ n, 0 <= n -> block_bit b' n =
    if (8 * (offset + from) <=? n) && (n <? 8 * (offset + to)) then Z.testbit value (n - 8 * offset) else block_bit b n.

Lemma written_trans b b1 b2 offset value from mid to : from <= mid <= to ->
  written b b1 offset value from mid -> written b1 b2 offset value mid to -> written b b2 offset value from to.
Proof.
  intros Hm H1 H2 n Hn. rewrite H2, H1 by done.
  destruct (Z.leb_spec (8 * (offset + mid)) n), (Z.leb_spec (8 * (offset + from)) n), (Z.ltb_spec n (8 * (offset + to))),
    (Z.ltb_spec n (8 * (offset + mid))); cbn; done || lia.
Qed.

Lemma store_lane b env c offset width value consumed : block_ok b -> 0 <= offset -> 0 <= consumed < width ->
  offset + width <= rb_block_size b ->
  let a := offset + consumed in
  let count := Z.min (width - consumed) (4 - (a .& 3)) in
  ∃ b', store_word (a .& not32 3) (u32 (u32 ((value .>> (consumed * 8)) .& (1 .<< (count * 8) - 1)) .<< ((a .& 3) * 8)))
          (u32 (u32 (1 .<< (count * 8) - 1) .<< ((a .& 3) * 8))) c env b = (inl tt, b', [])
    /\ block_ok b' /\ rb_block_size b' = rb_block_size b /\ written b b' offset value consumed (consumed + count).
Proof.
  intros Hb Ho Hc Hs a count. pose proof (ok_size _ Hb). pose proof (Z.mod_pos_bound a 4).
  assert (is_u32 a) by width_lia. assert (0 < count <= 4 - a mod 4) as Hn.
  { subst count. rewrite low_two_bits. lia. }
  assert (0 <= a .& not32 3 <= a) by (apply land_bounds_l; width_lia).
  edestruct (store_word_bits b env c (a .& not32 3)) as (b'&E&Hb'&Hs'&Hbits).
  { done. } { width_lia. } { apply u32_range. } { apply u32_range. }
  exists b'. split; [exact E|]. split_and!; [done|done|]. intros n Hn0. rewrite Hbits, word_of_address by done.
  change (8 * (offset + consumed)) with (8 * a).
  assert (0 <= n mod 32 < 32) as Hm by (apply Z.mod_pos_bound; lia). rewrite lane_mask_bit by lia.
  destruct (Z.eqb_spec (n / 32) (a / 4)) as [Ew|Ew]; cbn.
  - pose proof (Z.div_mod n 32 ltac:(lia)). pose proof (Z.div_mod a 4 ltac:(lia)).
    replace (8 * (a mod 4) <=? n mod 32) with (8 * a <=? n)
      by (destruct (Z.leb_spec (8 * a) n), (Z.leb_spec (8 * (a mod 4)) (n mod 32)); lia).
    replace (n mod 32 <? 8 * (a mod 4 + count)) with (n <? 8 * (offset + (consumed + count)))
      by (destruct (Z.ltb_spec n (8 * (offset + (consumed + count)))), (Z.ltb_spec (n mod 32) (8 * (a mod 4 + count))); lia).
    destruct (Z.leb_spec (8 * a) n), (Z.ltb_spec n (8 * (offset + (consumed + count)))); cbn; try done.
    rewrite lane_value_bit by lia. f_equal. lia.
  - destruct (Z.leb_spec (8 * a) n), (Z.ltb_spec n (8 * (offset + (consumed + count)))); cbn; try done.
    exfalso. apply Ew. destruct (bit_position a (n - 8 * a)) as [E1 _]; [lia|lia|].
    by replace (8 * a + (n - 8 * a)) with n in E1 by lia.
Qed.

Lemma write_loop_bits env c offset width value fuel b consumed : block_ok b -> 0 <= offset -> 0 <= consumed <= width ->
  offset + width <= rb_block_size b -> width - consumed <= Z.of_nat fuel ->
  ∃ b', write_loop fuel offset width value c consumed env b = (inl tt, b', [])
    /\ block_ok b' /\ rb_block_size b' = rb_block_size b /\ written b b' offset value consumed width.
Proof.
  revert b consumed. induction fuel as [|fuel IH]; intros b consumed Hb Ho Hc Hs Hf; cbn [write_loop].
  { exists b. split_and!; try done. intros n Hn. replace consumed with width by lia.
    destruct (Z.leb_spec (8 * (offset + width)) n), (Z.ltb_spec n (8 * (offset + width))); done || lia. }
  destruct (Z.ltb_spec consumed width) as [Hlt|Hge].
  2: { exists b. split_and!; try done. intros n Hn. replace consumed with width by lia.
    destruct (Z.leb_spec (8 * (offset + width)) n), (Z.ltb_spec n (8 * (offset + width))); done || lia. }
  pose proof (ok_size _ Hb). rewrite (u32_small (offset + consumed)) by width_lia.
  destruct (store_lane b env c offset width value consumed) as (b1&E&Hb1&Hs1&Hw1); [done|lia..|].
  pose proof (low_two_bits (offset + consumed)). pose proof (Z.mod_pos_bound (offset + consumed) 4).
  destruct (IH b1 (consumed + Z.min (width - consumed) (4 - ((offset + consumed) .& 3)))) as (b2&E2&Hb2&Hs2&Hw2); [done|lia..|].
  exists b2. split_and!; [|done|congruence|eapply written_trans; [|exact Hw1|exact Hw2]; lia].
  erewrite bind_inl by exact E. cbv beta. by rewrite E2.
Qed.

Lemma plain_write_bits b env c offset size value : block_ok b -> 0 <= offset ->
  rangeFits offset (byteCount size) (rb_block_size b) = true ->
  ∃ b', write offset size value c env b = (inl (inl 0), b', []) /\ block_ok b' /\ rb_block_size b' = rb_block_size b
    /\ written b b' offset value 0 (byteCount size).
Proof.
  intros Hb Ho Hf. pose proof Hf as (_&_&Hs)%rangeFits_spec. pose proof (ok_size _ Hb).
  unfold write. erewrite bind_inl by reflexivity. cbn [block block_self]. rewrite Hf. cbn [negb].
  destruct ((byteCount size =? 4) && (offset .& 3 =? 0)) eqn:E.
  - apply andb_true_iff in E as [Ew%Z.eqb_eq E%Z.eqb_eq]. rewrite Ew in *. rewrite low_two_bits in E.
    destruct (store_word_bits b env c offset (u32 value) 0xffffffff) as (b'&Ew'&Hb'&Hs'&Hbits).
    { done. } { lia. } { apply u32_range. } { width_lia. }
    exists b'. split_and!; try done; [by erewrite bind_inl by exact Ew'|]. intros n Hn. rewrite Hbits by done.
    pose proof (Z.div_mod n 32). pose proof (Z.mod_pos_bound n 32). pose proof (Z.div_mod offset 4).
    rewrite (high_mask_bit (n mod 32)) by lia. rewrite andb_true_r.
    destruct (Z.leb_spec (8 * (offset + 0)) n), (Z.ltb_spec n (8 * (offset + 4))); cbn;
      destruct (Z.eqb_spec (n / 32) (offset / 4)); try done; try lia.
    unfold u32. change 0x100000000 with (2 ^ 32). rewrite Z.mod_pow2_bits_low by lia. f_equal. lia.
  - edestruct (write_loop_bits env c offset (byteCount size) value (Z.to_nat (byteCount size)) b 0) as (b'&Hv&?&?&?).
    { done. } { done. } { destruct size; cbn; lia. } { lia. } { destruct size; cbn; lia. }
    exists b'. split_and!; try done. by erewrite bind_inl by exact Hv.
Qed.
End plain.
