(* ===== verification/Crc.v ===== *)
(** * The CRC unit

    Models [CrcPeripheral] of [src/stm32g4/crc.cpp] and proves that it computes polynomial
    remainders over the field of two elements. *)

From S2P Require Import Prelude Address Common Trace CpuState CpuStateProofs.
From S2P Require Import Peripheral PeripheralProofs.
#[local] Open Scope Z_scope.
#[local] Open Scope fil_scope.

Module Crc.
Definition dr : Z := 0x00.
Definition idr : Z := 0x04.
Definition cr : Z := 0x08.
Definition init_register : Z := 0x10.
Definition pol_register : Z := 0x14.
Definition cr_reset : Z := 1 .<< 0.

(** One bit of the inner loop. *)
Definition shift_bit (polynomial crc : Z) : Z :=
  if has crc 0x80000000 then u32 (crc .<< 1) .^ polynomial else u32 (crc .<< 1).
Definition feed_byte (polynomial crc byte : Z) : Z :=
  Nat.iter 8 (shift_bit polynomial) (crc .^ u32 (byte .<< 24)).
Definition updateCrc (crc polynomial data_word byte_count : Z) : Z :=
  foldl (fun crc byte_index =>
           let shift := (byte_count - 1 - byte_index) * 8 in
           feed_byte polynomial crc ((data_word .>> shift) .& 0xff))
    crc (seqZ 0 byte_count).

Record CrcPeripheral := mkCrc {
  crc_block : RegBlock;
  crc_crc : Z;
  crc_init : Z;
  crc_poly : Z;
}.
#[global] Instance crc_has_block : HasBlock CrcPeripheral :=
  {| block := crc_block; with_block f d := {| d with crc_block := f (crc_block d) |} |}.

#[global] Instance crc_has_block_laws : HasBlockLaws CrcPeripheral.
Proof. constructor; [done|]. intros f g [] E. cbn in *. by rewrite E. Qed.

Definition update (data_word : Z) : Dev CrcPeripheral unit :=
  modify (fun d : CrcPeripheral => {| d with crc_crc := updateCrc (crc_crc d) (crc_poly d) data_word 4 |}).

Definition crc_loadRegister (word_offset : Z) (c : AccessContext) : Dev CrcPeripheral Z :=
  if word_offset =? dr then get crc_crc
  else if word_offset =? idr then v ← regValue idr; mret (v .& 0xff)
  else regValue word_offset.

Definition crc_storeRegister (word_offset previous value write_mask : Z) (c : AccessContext) : Dev CrcPeripheral unit :=
  if word_offset =? dr then
    let byte_count := if write_mask =? 0x000000ff then 1 else if write_mask =? 0x0000ffff then 2 else 4 in
    if byte_count =? 4 then update value
    else modify (fun d : CrcPeripheral => {| d with crc_crc := updateCrc (crc_crc d) (crc_poly d) value byte_count |})
  else if word_offset =? idr then setRegister idr (value .& 0xff)
  else if word_offset =? cr then
    if has (value .& write_mask) cr_reset
    then modify (fun d : CrcPeripheral => {| d with crc_crc := crc_init d |}) else skip
  else if word_offset =? init_register then
    modify (fun d : CrcPeripheral => {| d with crc_init := value; crc_crc := value |})
  else if word_offset =? pol_register then modify (fun d : CrcPeripheral => {| d with crc_poly := value |})
  else skip.

Definition crc_onReset : Dev CrcPeripheral unit :=
  init ← regValue init_register;
  poly ← regValue pol_register;
  modify (fun d : CrcPeripheral => {| d with crc_init := init; crc_poly := poly; crc_crc := init |}).

#[global] Instance crc_hooks : RegisterHooks CrcPeripheral :=
  {| loadRegister := crc_loadRegister; storeRegister := crc_storeRegister; onReset := crc_onReset |}.

Definition crc_new (loop trace : bool) (env : Env) : CrcPeripheral :=
  let b := block_init "CRC" 0x18 loop trace in
  let b := setResetValue init_register 0xffffffff b in
  let b := setResetValue pol_register 0x04c11db7 b in
  construct env (mkCrc b 0xffffffff 0xffffffff 0x04c11db7).
End Crc.

(** ** Polynomials over two elements

    A number stands for the polynomial with its bits as coefficients: addition is [Z.lxor] and
    multiplication by the variable is doubling. *)

Module Poly.
(** The multiples of [p]. *)
Inductive multiple (p : Z) : Z -> Prop :=
  | multiple_zero : multiple p 0
  | multiple_base : multiple p p
  | multiple_add a b : multiple p a -> multiple p b -> multiple p (a .^ b)
  | multiple_shift a : multiple p a -> multiple p (a .<< 1).

(** Congruence modulo [p]. *)
Definition congruent (p a b : Z) : Prop := multiple p (a .^ b).

Lemma congruent_refl p a : congruent p a a.
Proof. unfold congruent. rewrite Z.lxor_nilpotent. constructor. Qed.
Lemma congruent_trans p a b c : congruent p a b -> congruent p b c -> congruent p a c.
Proof.
  unfold congruent. intros H1 H2. replace (a .^ c) with ((a .^ b) .^ (b .^ c)); [by constructor|].
  rewrite Z.lxor_assoc, <- (Z.lxor_assoc b), Z.lxor_nilpotent. by rewrite Z.lxor_0_l.
Qed.
Lemma congruent_add p a b c : congruent p a b -> congruent p (a .^ c) (b .^ c).
Proof.
  unfold congruent. intros H. replace ((a .^ c) .^ (b .^ c)) with (a .^ b); [done|].
  rewrite (Z.lxor_comm b c), Z.lxor_assoc, <- (Z.lxor_assoc c), Z.lxor_nilpotent. by rewrite Z.lxor_0_l.
Qed.
Lemma congruent_shift p a b n : 0 <= n -> congruent p a b -> congruent p (a .<< n) (b .<< n).
Proof.
  unfold congruent. intros Hn H. rewrite <- Z.shiftl_lxor.
  rewrite <- (Z2Nat.id n) by done. induction (Z.to_nat n) as [|k IH]; [by rewrite Z.shiftl_0_r|].
  replace (Z.of_nat (S k)) with (Z.of_nat k + 1) by lia. rewrite <- Z.shiftl_shiftl by lia. by constructor.
Qed.
End Poly.

Module CrcProofs.
Import Crc Poly.

(** The generator: the register holds the coefficients below the leading one. *)
Definition generator (polynomial : Z) : Z := 0x100000000 .^ polynomial.

Section generator.
Context (polynomial : Z) (Hp : is_u32 polynomial).

Lemma shift_bit_range crc : is_u32 (shift_bit polynomial crc).
Proof. unfold shift_bit. u32_auto. Qed.

(** A step multiplies by the variable, modulo the generator. *)
Lemma shift_bit_congruent crc : is_u32 crc -> congruent (generator polynomial) (crc .<< 1) (shift_bit polynomial crc).
Proof.
  intros Hc. unfold congruent, shift_bit. change 0x80000000 with (2 ^ 31). rewrite has_pow2 by lia.
  assert (crc .<< 1 = (if Z.testbit crc 31 then 0x100000000 else 0) .^ u32 (crc .<< 1)) as E.
  { apply Z.bits_inj'. intros i Hi. rewrite Z.lxor_spec. unfold u32. change 0x100000000 with (2 ^ 32).
    destruct (Z.lt_ge_cases i 32).
    - rewrite Z.mod_pow2_bits_low by lia. destruct (Z.testbit crc 31).
      + rewrite Z.pow2_bits_false by lia. by destruct (Z.testbit _ i).
      + rewrite Z.bits_0. by destruct (Z.testbit _ i).
    - rewrite Z.mod_pow2_bits_high, xorb_false_r, Z.shiftl_spec by lia.
      destruct (decide (i = 32)) as [->|].
      + change (32 - 1) with 31. destruct (Z.testbit crc 31); [by rewrite Z.pow2_bits_true | by rewrite Z.bits_0].
      + rewrite (high_bits_clear 32 crc) by (done || lia).
        destruct (Z.testbit crc 31); [by rewrite Z.pow2_bits_false by lia | by rewrite Z.bits_0]. }
  destruct (Z.testbit crc 31).
  - rewrite E at 1. rewrite Z.lxor_assoc, <- (Z.lxor_assoc (u32 _)), Z.lxor_nilpotent, Z.lxor_0_l. constructor.
  - rewrite E at 1. rewrite Z.lxor_0_l, Z.lxor_nilpotent. constructor.
Qed.

Lemma shift_bits n crc : is_u32 crc ->
  is_u32 (Nat.iter n (shift_bit polynomial) crc)
  /\ congruent (generator polynomial) (crc .<< Z.of_nat n) (Nat.iter n (shift_bit polynomial) crc).
Proof.
  intros Hc. induction n as [|n [Hr IH]].
  - split; [done|]. rewrite Z.shiftl_0_r. apply congruent_refl.
  - rewrite Nat.iter_succ. split; [apply shift_bit_range|].
    eapply congruent_trans; [|by apply shift_bit_congruent].
    replace (Z.of_nat (S n)) with (Z.of_nat n + 1) by lia. rewrite <- Z.shiftl_shiftl by lia.
    by apply congruent_shift.
Qed.

Lemma feed_byte_congruent crc byte : is_u32 crc -> is_u8 byte ->
  is_u32 (feed_byte polynomial crc byte)
  /\ congruent (generator polynomial) ((crc .<< 8) .^ (byte .<< 32)) (feed_byte polynomial crc byte).
Proof.
  intros Hc Hb. unfold feed_byte.
  assert (u32 (byte .<< 24) = byte .<< 24) as ->.
  { apply u32_small. rewrite Z.shiftl_mul_pow2 by lia. width_lia. }
  assert (is_u32 (crc .^ byte .<< 24)) as Hx.
  { apply is_u32_lxor; [done|]. rewrite Z.shiftl_mul_pow2 by lia. width_lia. }
  destruct (shift_bits 8 _ Hx) as [Hr Hcong]. split; [done|].
  rewrite Z.shiftl_lxor, Z.shiftl_shiftl in Hcong by lia. exact Hcong.
Qed.

(** The bytes of a message, most significant first, shifted into the register. *)
Definition message (bytes : list Z) : Z := foldl (fun m byte => (m .<< 8) .^ byte) 0 bytes.
Definition remainder_of (crc : Z) (bytes : list Z) (r : Z) : Prop :=
  is_u32 r /\ congruent (generator polynomial)
                ((crc .<< (8 * Z.of_nat (length bytes))) .^ (message bytes .<< 32)) r.

Lemma feed_bytes crc bytes : is_u32 crc -> Forall is_u8 bytes ->
  remainder_of crc bytes (foldl (feed_byte polynomial) crc bytes).
Proof.
  intros Hc. induction bytes as [|byte bytes IH] using rev_ind; intros Hb.
  { split; [done|]. cbn. rewrite Z.shiftl_0_r, Z.shiftl_0_l, Z.lxor_0_r. apply congruent_refl. }
  apply Forall_app in Hb as [Hb [Hbyte _]%Forall_cons].
  destruct (IH Hb) as [Hr Hcong]. unfold remainder_of, message. rewrite !foldl_app. cbn [foldl].
  destruct (feed_byte_congruent (foldl (feed_byte polynomial) crc bytes) byte Hr Hbyte) as [Hr' Hcong'].
  split; [done|]. eapply congruent_trans; [|exact Hcong'].
  apply (congruent_shift _ _ _ 8) in Hcong; [|lia]. apply (congruent_add _ _ _ (byte .<< 32)) in Hcong.
  rewrite length_app. cbn [length].
  replace (8 * Z.of_nat (length bytes + 1)) with (8 * Z.of_nat (length bytes) + 8) by lia.
  rewrite <- Z.shiftl_shiftl by lia. fold (message bytes).
  rewrite !Z.shiftl_lxor, Z.lxor_assoc in Hcong. rewrite Z.shiftl_lxor.
  by rewrite (Z.shiftl_shiftl (message bytes)), (Z.add_comm 8 32), <- Z.shiftl_shiftl by lia.
Qed.

(** The bytes [updateCrc] feeds: the low [n] bytes of the word, most significant first. *)
Definition word_bytes (data_word n : Z) : list Z :=
  (fun i => (data_word .>> ((n - 1 - i) * 8)) .& 0xff) <$> seqZ 0 n.
Lemma fed_bytes_range w n : Forall is_u8 (word_bytes w n).
Proof.
  apply Forall_fmap, Forall_true. intros i. cbn. pose proof (land_bounds_r (w .>> ((n - 1 - i) * 8)) 0xff). width_lia.
Qed.
Lemma updateCrc_bytes crc w n : updateCrc crc polynomial w n = foldl (feed_byte polynomial) crc (word_bytes w n).
Proof. unfold updateCrc, word_bytes. generalize (seqZ 0 n) as l. intros l. revert crc. by induction l; intros; cbn. Qed.
End generator.

(** ** The device *)

Record crc_ok (d : CrcPeripheral) : Prop := mk_crc_ok {
  crc_ok_block : block_ok (crc_block d);
  crc_ok_size : rb_block_size (crc_block d) = 0x18;
  crc_ok_crc : is_u32 (crc_crc d);
  crc_ok_poly : is_u32 (crc_poly d);
}.

(** The accesses that feed the unit: the low bytes of the data register. *)
Definition feeds (size : AccessSize.t) : bool := byteCount size <=? 4.

Lemma word_bytes_low v w n : 0 <= n -> v .& (1 .<< (n * 8) - 1) = w .& (1 .<< (n * 8) - 1) ->
  word_bytes v n = word_bytes w n.
Proof.
  intros Hn E. unfold word_bytes. apply list_fmap_ext. intros i x [-> Hi]%lookup_seqZ.
  apply Z.bits_inj'. intros j Hj. rewrite !Z.land_spec, !Z.shiftr_spec by done.
  destruct (Z.lt_ge_cases j 8).
  - apply (f_equal (fun z => Z.testbit z (j + (n - 1 - (0 + Z.of_nat i)) * 8))) in E.
    rewrite !Z.land_spec, ones_testbit in E by lia.
    rewrite (proj2 (Z.ltb_lt _ _)), !andb_true_r in E by lia. by rewrite E.
  - rewrite (high_bits_clear 8 0xff j) by lia. by rewrite !andb_false_r.
Qed.

Lemma low_lane v n : 0 <= n <= 32 ->
  u32 (u32 ((v .>> 0) .& (1 .<< n - 1)) .<< 0) .& (1 .<< n - 1) = v .& (1 .<< n - 1).
Proof.
  intros Hn. rewrite Z.shiftr_0_r, Z.shiftl_0_r, u32_u32, u32_land.
  apply Z.bits_inj'. intros i Hi. rewrite !Z.land_spec, ones_testbit by lia.
  destruct (Z.ltb_spec i n); [|by rewrite !andb_false_r]. by rewrite (high_mask_bit i), !andb_true_r by lia.
Qed.

(** One access to the data register. *)
Lemma crc_write size v c env d : crc_ok d -> feeds size = true ->
  ∃ d', write dr size v c env d = (inl (inl 0), d', []) /\ crc_ok d'
    /\ crc_poly d' = crc_poly d /\ crc_init d' = crc_init d
    /\ crc_crc d' = foldl (feed_byte (crc_poly d)) (crc_crc d) (word_bytes v (byteCount size)).
Proof.
  intros [Hb Hs Hc Hp] Hf.
  unfold write. erewrite bind_inl by reflexivity. cbn [block crc_has_block]. rewrite Hs.
  assert (∀ w n, is_u32 (updateCrc (crc_crc d) (crc_poly d) w n)) as Hr.
  { intros w n. rewrite updateCrc_bytes. apply (feed_bytes _ Hp); [done|apply fed_bytes_range]. }
  destruct size; try discriminate Hf; (eexists; split; [reflexivity|]).
  all: (split; [constructor; [by apply merged_ok; [|u32_auto|u32_auto] | exact Hs | apply Hr | exact Hp]|]).
  all: split; [done|]; split; [done|]; cbn -[updateCrc]; rewrite updateCrc_bytes; f_equal; apply word_bytes_low; [lia|].
  all: (rewrite (merged_low _ _ _ _ eq_refl) by (vm_compute; split; congruence)).
  - apply (low_lane v 8). lia.
  - apply (low_lane v 16). lia.
  - rewrite u32_land. by rewrite <- Z.land_assoc.
Qed.

(** A sequence of accesses to the data register, and the bytes it feeds. *)
Definition feed_accesses (c : AccessContext) (accesses : list (AccessSize.t * Z)) : Dev CrcPeripheral unit :=
  for_each (fun a => _ ← write dr (fst a) (snd a) c; skip) accesses.
Definition access_bytes (accesses : list (AccessSize.t * Z)) : list Z :=
  mbind (fun a => word_bytes (snd a) (byteCount (fst a))) accesses.

Lemma access_bytes_range accesses : Forall is_u8 (access_bytes accesses).
Proof.
  induction accesses as [|a accesses IH]; [constructor|]. cbn. apply Forall_app. split; [apply fed_bytes_range | done].
Qed.

Lemma crc_feed accesses c env d : crc_ok d -> Forall (fun a => feeds (fst a) = true) accesses ->
  ∃ d', feed_accesses c accesses env d = (inl tt, d', []) /\ crc_ok d' /\ crc_poly d' = crc_poly d
    /\ crc_crc d' = foldl (feed_byte (crc_poly d)) (crc_crc d) (access_bytes accesses).
Proof.
  intros Hd Ha. revert d Hd. induction Ha as [|[size v] accesses Hf Ha IH]; intros d Hd; [by exists d|].
  destruct (crc_write size v c env d Hd Hf) as (d1&E1&Hd1&Hp1&_&Hc1).
  destruct (IH d1 Hd1) as (d2&E2&Hd2&Hp2&Hc2). exists d2. split_and!; [|done|congruence|].
  - unfold feed_accesses in *. cbn [for_each fst snd].
    rewrite (bind_inl _ _ _ _ tt d1 []); [|by erewrite bind_inl by exact E1]. by rewrite E2.
  - rewrite Hc2, Hc1, Hp1. unfold access_bytes. cbn [mbind list_bind fst snd]. by rewrite foldl_app.
Qed.

Lemma crc_read c env d : crc_ok d -> read dr AccessSize.word c env d = (inl (inl (crc_crc d)), d, []).
Proof. intros [_ Hs _ _]. unfold read. erewrite bind_inl by reflexivity. cbn [block crc_has_block]. by rewrite Hs. Qed.

(** CRC-32/MPEG-2 of the nine digits, fed byte by byte. *)
Example crc_check_value :
  let d := crc_new false false (mkEnv 0 true [] false) in
  let '(r, _, _) := (feed_accesses (mkAccessContext AccessType.data_write 0)
                       ((fun b => (AccessSize.byte, b)) <$> seqZ 49 9);;
                     read dr AccessSize.word (mkAccessContext AccessType.data_read 0)) (mkEnv 0 true [] false) d in
  r = inl (inl 0x0376e6e7).
Proof. vm_compute. reflexivity. Qed.

Lemma crc_new_ok loop trace env : crc_ok (crc_new loop trace env).
Proof.
  assert (block_ok (setResetValue pol_register 0x04c11db7
    (setResetValue init_register 0xffffffff (block_init "CRC" 0x18 loop trace)))) as Hb.
  { repeat apply setResetValue_ok; [|width_lia|width_lia]. apply block_init_ok. lia. }
  unfold crc_new. apply (construct_block crc_ok).
  - constructor; cbn [crc_block crc_crc crc_poly with_block crc_has_block]; try width_lia; [by apply reset_registers_ok | done].
  - intros line d []. constructor; cbn; try done. by apply set_level_ok.
  - cbn. eapply holds_bind; [apply holds_regValue; by intros ? []|]. intros init Hi.
    eapply holds_bind; [apply holds_regValue; by intros ? []|]. intros poly Hp.
    apply holds_modify. intros d []. by constructor.
Qed.
End CrcProofs.
