(* ===== verification/Gpio.v ===== *)
(** * GPIO ports

    Models [GpioPeripheral] of [src/stm32g4/gpio.cpp]: output latch, external drivers of the
    pins, set and reset registers, transitions and edge notifications. *)

From stdpp Require Import pretty.
From S2P Require Import Prelude Address Common Trace CpuState CpuStateProofs.
From S2P Require Import Peripheral PeripheralProofs.
#[local] Open Scope Z_scope.
#[local] Open Scope fil_scope.

Module Gpio.
Definition moder : Z := 0x00.
Definition idr : Z := 0x10.
Definition odr : Z := 0x14.
Definition bsrr : Z := 0x18.
Definition brr : Z := 0x28.

Record GpioTransition := mkGpioTransition { gt_time_ns : Z; gt_pin : Z; gt_high : bool }.

Record GpioPeripheral := mkGpio {
  gp_block : RegBlock;
  gp_external_input_mask : Z;
  gp_external_input_value : Z;
  gp_output_callback : bool;      (* a callback is installed *)
  gp_edge_callback : bool;
  gp_transitions : list GpioTransition;
}.
#[global] Instance gpio_has_block : HasBlock GpioPeripheral :=
  {| block := gp_block; with_block f d := {| d with gp_block := f (gp_block d) |} |}.
#[global] Instance gpio_has_block_laws : HasBlockLaws GpioPeripheral.
Proof. constructor; [done|]. intros f g [] E. cbn in *. by rewrite E. Qed.

Definition pin_mask (pin : Z) : Z := 1 .<< pin.

(** One round of the loop of [inputValue]. *)
Definition input_step (external_mask modes outputs result pin : Z) : Z :=
  let mask := pin_mask pin in
  if has external_mask mask then result
  else
    let mode := (modes .>> (pin * 2)) .& 3 in
    if ((mode =? 1) || (mode =? 2)) && has outputs mask then result .| mask else result.
Definition inputValue (d : GpioPeripheral) : Z :=
  let modes := registerValue moder (gp_block d) in
  let outputs := registerValue odr (gp_block d) in
  foldl (input_step (gp_external_input_mask d) modes outputs)
    (gp_external_input_value d .& gp_external_input_mask d) (seqZ 0 16) .& 0xffff.

Definition output (pin : Z) (d : GpioPeripheral) : bool :=
  (pin <? 16) && has (registerValue odr (gp_block d)) (pin_mask pin).

Definition level_text (high : bool) : string := if high then "1" else "0".

Definition set_output_callback (present : bool) (d : GpioPeripheral) : GpioPeripheral :=
  {| d with gp_output_callback := present |}.
Definition set_edge_callback (present : bool) (d : GpioPeripheral) : GpioPeripheral :=
  {| d with gp_edge_callback := present |}.
Definition clearTransitions (d : GpioPeripheral) : GpioPeripheral := {| d with gp_transitions := [] |}.

(** [if (new_level != old_level && edge_callback_) edge_callback_(...)]. *)
Definition notify_edge (pin : Z) (old_level : bool) : Dev GpioPeripheral unit :=
  new_level ← get (fun d => has (inputValue d) (pin_mask pin));
  installed ← get gp_edge_callback;
  now ← currentTime;
  if (negb (Bool.eqb new_level old_level) && installed : bool) then emit (fx_gpio_edge pin new_level now) else skip.

Definition trace_if_passes (type : string) (fields : list TraceField) : Dev GpioPeripheral unit :=
  passes ← tracePasses type;
  if (passes : bool) then traceEvent type fields else skip.

Definition setInput (pin : Z) (high : bool) : Dev GpioPeripheral unit :=
  if 16 <=? pin then skip
  else
    old_level ← get (fun d => has (inputValue d) (pin_mask pin));
    let mask := u16 (pin_mask pin) in
    modify (fun d : GpioPeripheral =>
      {| d with gp_external_input_mask := u16 (gp_external_input_mask d .| mask) |});;
    modify (fun d : GpioPeripheral =>
      {| d with gp_external_input_value :=
           u16 (if high then gp_external_input_value d .| mask
                else gp_external_input_value d .& Z.lnot mask) |});;
    trace_if_passes "gpio_input" [("pin", pretty pin); ("value", level_text high)];;
    notify_edge pin old_level.

Definition releaseInput (pin : Z) : Dev GpioPeripheral unit :=
  if pin <? 16 then
    old_level ← get (fun d => has (inputValue d) (pin_mask pin));
    modify (fun d : GpioPeripheral =>
      {| d with gp_external_input_mask := u16 (gp_external_input_mask d .& u16 (Z.lnot (pin_mask pin))) |});;
    trace_if_passes "gpio_input" [("pin", pretty pin); ("value", "release")];;
    notify_edge pin old_level
  else skip.

(** One pin of the loop of [applyOutput]. *)
Definition output_pin (next_odr new_levels changed_odr changed_idr pin : Z) : Dev GpioPeripheral unit :=
  let mask := pin_mask pin in
  (if has changed_odr mask then
     let high := has next_odr mask in
     now ← currentTime;
     modify (fun d : GpioPeripheral =>
       {| d with gp_transitions := gp_transitions d ++ [mkGpioTransition now pin high] |});;
     trace_if_passes "gpio_output" [("pin", pretty pin); ("value", level_text high)];;
     installed ← get gp_output_callback;
     if (installed : bool) then emit (fx_gpio_output pin high now) else skip
   else skip);;
  installed ← get gp_edge_callback;
  now ← currentTime;
  if (has changed_idr mask && installed : bool) then emit (fx_gpio_edge pin (has new_levels mask) now) else skip.

Definition applyOutput (new_output : Z) : Dev GpioPeripheral unit :=
  previous ← regValue odr;
  let previous_odr := previous .& 0xffff in
  let next_odr := new_output .& 0xffff in
  old_levels ← get inputValue;
  setRegister odr next_odr;;
  new_levels ← get inputValue;
  let changed_odr := previous_odr .^ next_odr in
  let changed_idr := (old_levels .^ new_levels) .& 0xffff in
  for_each (output_pin next_odr new_levels changed_odr changed_idr) (seqZ 0 16).

Definition gpio_loadRegister (word_offset : Z) (c : AccessContext) : Dev GpioPeripheral Z :=
  if word_offset =? idr then
    value ← get inputValue;
    setRegister idr value;;
    mret value
  else if (word_offset =? bsrr) || (word_offset =? brr) then mret 0
  else regValue word_offset.

Definition gpio_storeRegister (word_offset previous value write_mask : Z) (c : AccessContext) : Dev GpioPeripheral unit :=
  if word_offset =? odr then
    setRegister odr (previous .& 0xffff);;
    applyOutput value
  else if word_offset =? bsrr then
    let command := value .& write_mask in
    let set_bits := command .& 0xffff in
    let reset_bits := (command .>> 16) .& 0xffff in
    current ← regValue odr;
    let next := (current .& not32 reset_bits) .| set_bits in
    setRegister bsrr 0;;
    applyOutput next
  else if word_offset =? brr then
    let command := value .& write_mask .& 0xffff in
    setRegister brr 0;;
    current ← regValue odr;
    applyOutput (current .& not32 command)
  else if word_offset =? idr then setRegister idr previous
  else skip.

#[global] Instance gpio_hooks : RegisterHooks GpioPeripheral :=
  {| loadRegister := gpio_loadRegister; storeRegister := gpio_storeRegister; onReset := skip |}.

Definition gpio_new (name : string) (loop trace : bool) (env : Env) : GpioPeripheral :=
  let reset_moder := if bool_decide (name = "GPIOA") then 0xabffffff
                     else if bool_decide (name = "GPIOB") then 0xfffffebf else 0xffffffff in
  construct env (mkGpio (setResetValue moder reset_moder (block_init name 0x2c loop trace)) 0 0 false false []).
End Gpio.

(** ** Levels *)

Module GpioProofs.
Import Gpio.

Lemma has_pin x pin : 0 <= pin -> has x (pin_mask pin) = Z.testbit x pin.
Proof. intros Hp. unfold pin_mask. rewrite Z.shiftl_mul_pow2, Z.mul_1_l by done. by apply has_pow2. Qed.
Lemma pin_mask_bit pin i : 0 <= pin -> 0 <= i -> Z.testbit (pin_mask pin) i = bool_decide (i = pin).
Proof.
  intros Hp Hi. unfold pin_mask. rewrite Z.shiftl_mul_pow2, Z.mul_1_l by done.
  case_bool_decide; subst; [by apply Z.pow2_bits_true | by apply Z.pow2_bits_false].
Qed.

(** The level a pin reads: its driver, or the latch when the port drives the pin. *)
Definition drives (modes pin : Z) : bool :=
  let mode := (modes .>> (pin * 2)) .& 3 in (mode =? 1) || (mode =? 2).
Definition pin_level (external_mask external_value modes outputs pin : Z) : bool :=
  if Z.testbit external_mask pin then Z.testbit external_value pin
  else drives modes pin && Z.testbit outputs pin.

Lemma input_loop_bit m modes outputs result n i : 0 <= i ->
  Z.testbit (foldl (input_step m modes outputs) result (seqZ 0 (Z.of_nat n))) i
  = Z.testbit result i || ((i <? Z.of_nat n) && negb (Z.testbit m i) && drives modes i && Z.testbit outputs i).
Proof.
  intros Hi. induction n as [|n IH].
  { change (seqZ 0 (Z.of_nat 0)) with (@nil Z). cbn [foldl].
    rewrite (proj2 (Z.ltb_ge i (Z.of_nat 0))) by lia. by rewrite orb_false_r. }
  replace (Z.of_nat (S n)) with (Z.of_nat n + 1) by lia. rewrite seqZ_app by lia. rewrite foldl_app.
  replace (0 + Z.of_nat n) with (Z.of_nat n) by lia.
  change (seqZ (Z.of_nat n) 1) with [Z.of_nat n]. cbn [foldl].
  unfold input_step at 1. rewrite !has_pin by lia. fold (drives modes (Z.of_nat n)).
  destruct (decide (i = Z.of_nat n)) as [->|Hne].
  - rewrite (proj2 (Z.ltb_lt _ (_ + 1))) by lia. rewrite Z.ltb_irrefl in IH. cbn in IH. rewrite orb_false_r in IH.
    destruct (Z.testbit m (Z.of_nat n)); cbn; [by rewrite IH, orb_false_r|].
    destruct (drives modes (Z.of_nat n) && Z.testbit outputs (Z.of_nat n)); [|by rewrite IH, orb_false_r].
    by rewrite Z.lor_spec, pin_mask_bit, bool_decide_eq_true_2, !orb_true_r by lia.
  - assert ((i <? Z.of_nat n + 1) = (i <? Z.of_nat n)) as ->.
    { destruct (Z.ltb_spec i (Z.of_nat n + 1)), (Z.ltb_spec i (Z.of_nat n)); lia. }
    destruct (Z.testbit m (Z.of_nat n)); [done|]. destruct (drives _ _ && _); [|done].
    rewrite Z.lor_spec, pin_mask_bit, bool_decide_eq_false_2 by lia. by rewrite orb_false_r.
Qed.

(** Bit [pin] of the input register. *)
Lemma inputValue_bit d pin : 0 <= pin ->
  Z.testbit (inputValue d) pin
  = (pin <? 16) && pin_level (gp_external_input_mask d) (gp_external_input_value d)
                     (registerValue moder (gp_block d)) (registerValue odr (gp_block d)) pin.
Proof.
  intros Hp. unfold inputValue, pin_level. rewrite Z.land_spec. rewrite (input_loop_bit _ _ _ _ 16), Z.land_spec by done.
  change 0xffff with (1 .<< 16 - 1). rewrite ones_testbit by lia. change (Z.of_nat 16) with 16.
  destruct (pin <? 16); cbn; [|by rewrite andb_false_r].
  destruct (Z.testbit (gp_external_input_mask d) pin); cbn; rewrite ?andb_true_r, ?andb_false_r, ?orb_false_r; done.
Qed.
Lemma inputValue_range d : 0 <= inputValue d <= 0xffff.
Proof. apply land_bounds_r. lia. Qed.

(** ** Well-formed ports *)

Record gpio_ok (d : GpioPeripheral) : Prop := mk_gpio_ok {
  gp_ok_block : block_ok (gp_block d);
  gp_ok_size : rb_block_size (gp_block d) = 0x2c;
  gp_ok_odr : registerValue odr (gp_block d) .& 0xffff = registerValue odr (gp_block d);
  gp_ok_mask : is_u16 (gp_external_input_mask d);
  gp_ok_value : is_u16 (gp_external_input_value d);
}.

Definition gpio_registers : list Z := [moder; idr; odr; bsrr; brr].
Lemma gpio_aligned d w : gpio_ok d -> w ∈ gpio_registers -> aligned_register w (gp_block d) = true /\ 0 <= w.
Proof.
  intros [_ Hs _ _ _] Hw. unfold aligned_register. rewrite Hs.
  repeat (apply elem_of_cons in Hw as [->|Hw]; [done|]). by apply elem_of_nil in Hw.
Qed.

(** ** What a change of the output latch does *)

Definition trace_text (type : string) (fields : list TraceField) (env : Env) (b : RegBlock) : list Effect :=
  if trace_passes type env b then [fx_trace (current_time env b) (rb_trace_source b) type fields] else [].

(** The calls made for one pin, for the latch before and after and the levels before and after. *)
Definition pin_effects (env : Env) (d : GpioPeripheral) (odr0 odr1 levels0 levels1 pin : Z) : list Effect :=
  let now := current_time env (gp_block d) in
  (if Bool.eqb (Z.testbit odr0 pin) (Z.testbit odr1 pin) then []
   else trace_text "gpio_output" [("pin", pretty pin); ("value", level_text (Z.testbit odr1 pin))] env (gp_block d)
        ++ (if gp_output_callback d then [fx_gpio_output pin (Z.testbit odr1 pin) now] else []))
  ++ (if negb (Bool.eqb (Z.testbit levels0 pin) (Z.testbit levels1 pin)) && gp_edge_callback d
      then [fx_gpio_edge pin (Z.testbit levels1 pin) now] else []).
Definition pin_transition (env : Env) (d : GpioPeripheral) (odr0 odr1 pin : Z) : list GpioTransition :=
  if Bool.eqb (Z.testbit odr0 pin) (Z.testbit odr1 pin) then []
  else [mkGpioTransition (current_time env (gp_block d)) pin (Z.testbit odr1 pin)].

Lemma trace_if_passes_run type fields env d :
  trace_if_passes type fields env d = (inl tt, d, trace_text type fields env (gp_block d)).
Proof.
  unfold trace_if_passes, trace_text. erewrite bind_inl by reflexivity. cbn [block gpio_has_block].
  destruct (trace_passes type env (gp_block d)) eqn:E; [|done]. unfold traceEvent. cbn [block gpio_has_block].
  unfold trace_passes, trace_enabled in E. by destruct (rb_has_trace (gp_block d)).
Qed.

(** The fields that the pins of one operation do not change. *)
Definition same_port (d s : GpioPeripheral) : Prop :=
  gp_block s = gp_block d /\ gp_output_callback s = gp_output_callback d /\ gp_edge_callback s = gp_edge_callback d.
Definition add_transitions (l : list GpioTransition) (d : GpioPeripheral) : GpioPeripheral :=
  {| d with gp_transitions := gp_transitions d ++ l |}.

Lemma changed_bit x y pin : 0 <= pin -> has (x .^ y) (pin_mask pin) = negb (Bool.eqb (Z.testbit x pin) (Z.testbit y pin)).
Proof. intros Hp. rewrite has_pin, Z.lxor_spec by done. by destruct (Z.testbit x pin), (Z.testbit y pin). Qed.

Lemma output_pin_run env d odr0 odr1 levels0 levels1 pin s : 0 <= pin < 16 -> same_port d s ->
  output_pin odr1 levels1 (odr0 .^ odr1) ((levels0 .^ levels1) .& 0xffff) pin env s
  = (inl tt, add_transitions (pin_transition env d odr0 odr1 pin) s, pin_effects env d odr0 odr1 levels0 levels1 pin)
  /\ same_port d (add_transitions (pin_transition env d odr0 odr1 pin) s).
Proof.
  intros Hp (Hb&Ho&He). split; [|by split_and!]. destruct s as [blk m v o e t]. cbn in Hb, Ho, He. subst blk o e.
  assert (has ((levels0 .^ levels1) .& 0xffff) (pin_mask pin)
          = negb (Bool.eqb (Z.testbit levels0 pin) (Z.testbit levels1 pin))) as Hi.
  { rewrite <- changed_bit, !has_pin, Z.land_spec by lia. change 0xffff with (1 .<< 16 - 1).
    rewrite ones_testbit, (proj2 (Z.ltb_lt _ _)) by lia. apply andb_true_r. }
  unfold output_pin, pin_transition, pin_effects. rewrite Hi, changed_bit, !has_pin by lia.
  destruct (Bool.eqb (Z.testbit odr0 pin) (Z.testbit odr1 pin)); cbn [negb].
  - erewrite bind_inl by reflexivity. unfold mbind, Dev_bind. cbn.
    destruct (_ && gp_edge_callback d); unfold add_transitions; cbn; by rewrite app_nil_r.
  - rewrite (bind_inl _ _ _ _ tt (add_transitions [mkGpioTransition (current_time env (gp_block d)) pin (Z.testbit odr1 pin)]
        (mkGpio (gp_block d) m v (gp_output_callback d) (gp_edge_callback d) t))
      (trace_text "gpio_output" [("pin", pretty pin); ("value", level_text (Z.testbit odr1 pin))] env (gp_block d)
       ++ if gp_output_callback d then [fx_gpio_output pin (Z.testbit odr1 pin) (current_time env (gp_block d))] else [])).
    + unfold mbind, Dev_bind. cbn. by destruct (_ && gp_edge_callback d).
    + erewrite bind_inl by reflexivity. erewrite bind_inl by reflexivity.
      erewrite bind_inl by apply trace_if_passes_run. erewrite bind_inl by reflexivity.
      cbn. by destruct (gp_output_callback d).
Qed.

Lemma foldl_add_transitions env d odr0 odr1 l s :
  foldl (fun s pin => add_transitions (pin_transition env d odr0 odr1 pin) s) s l
  = add_transitions (mbind (pin_transition env d odr0 odr1) l) s.
Proof.
  revert s. induction l as [|pin l IH]; intros s; cbn [foldl].
  - unfold add_transitions. cbn. rewrite app_nil_r. by destruct s.
  - rewrite IH. unfold add_transitions. cbn. by rewrite <- app_assoc.
Qed.

(** The port after the latch was set to the low half of [v]. *)
Definition latch (v : Z) (d : GpioPeripheral) : GpioPeripheral := with_block (set_register odr (v .& 0xffff)) d.

Lemma applyOutput_run v env d : gpio_ok d ->
  applyOutput v env d
  = (inl tt,
     add_transitions (mbind (pin_transition env d (registerValue odr (gp_block d)) (v .& 0xffff)) (seqZ 0 16)) (latch v d),
     mbind (pin_effects env d (registerValue odr (gp_block d)) (v .& 0xffff) (inputValue d) (inputValue (latch v d)))
       (seqZ 0 16)).
Proof.
  intros Hd. unfold applyOutput. do 4 (erewrite bind_inl by reflexivity). cbn [block gpio_has_block].
  rewrite (gp_ok_odr _ Hd). fold (latch v d).
  assert (current_time env (gp_block (latch v d)) = current_time env (gp_block d)) as Ht.
  { unfold latch, set_register. cbn. by destruct (aligned_register _ _). }
  assert (∀ t f, trace_text t f env (gp_block (latch v d)) = trace_text t f env (gp_block d)) as Hx.
  { intros t f. unfold latch, set_register. cbn. by destruct (aligned_register _ _). }
  destruct (for_each_run (same_port (latch v d))
    (output_pin (v .& 0xffff) (inputValue (latch v d)) (registerValue odr (gp_block d) .^ (v .& 0xffff))
       ((inputValue d .^ inputValue (latch v d)) .& 0xffff))
    (fun pin s => add_transitions (pin_transition env (latch v d) (registerValue odr (gp_block d)) (v .& 0xffff) pin) s)
    (pin_effects env (latch v d) (registerValue odr (gp_block d)) (v .& 0xffff) (inputValue d) (inputValue (latch v d)))
    env (seqZ 0 16) (latch v d)) as [E _].
  { intros pin s Hin%elem_of_seqZ. by apply output_pin_run. }
  { done. }
  rewrite E, foldl_add_transitions. cbn [app]. f_equal; [do 2 f_equal|]; apply list_bind_ext; try done; intros pin.
  - unfold pin_transition. by rewrite Ht.
  - unfold pin_effects. by rewrite Ht, Hx.
Qed.

(** Ports that differ at most in registers that do not reach the pins. *)
Record agrees (d d1 : GpioPeripheral) : Prop := mk_agrees {
  ag_moder : registerValue moder (gp_block d1) = registerValue moder (gp_block d);
  ag_odr : registerValue odr (gp_block d1) = registerValue odr (gp_block d);
  ag_mask : gp_external_input_mask d1 = gp_external_input_mask d;
  ag_value : gp_external_input_value d1 = gp_external_input_value d;
  ag_output : gp_output_callback d1 = gp_output_callback d;
  ag_edge : gp_edge_callback d1 = gp_edge_callback d;
  ag_transitions : gp_transitions d1 = gp_transitions d;
  ag_loop : rb_has_loop (gp_block d1) = rb_has_loop (gp_block d);
  ag_trace : rb_has_trace (gp_block d1) = rb_has_trace (gp_block d);
  ag_source : rb_trace_source (gp_block d1) = rb_trace_source (gp_block d);
}.

Lemma agrees_input d d1 : agrees d d1 -> inputValue d1 = inputValue d.
Proof. intros []. unfold inputValue. congruence. Qed.
Lemma agrees_effects env d d1 a b x y pin : agrees d d1 -> pin_effects env d1 a b x y pin = pin_effects env d a b x y pin.
Proof.
  intros []. unfold pin_effects, trace_text, trace_passes, trace_enabled, current_time.
  by rewrite ag_output0, ag_edge0, ag_loop0, ag_trace0, ag_source0.
Qed.
Lemma agrees_transition env d d1 a b pin : agrees d d1 -> pin_transition env d1 a b pin = pin_transition env d a b pin.
Proof. intros []. unfold pin_transition, current_time. by rewrite ag_loop0. Qed.

Lemma latch_ok v d : gpio_ok d -> gpio_ok (latch v d) /\ registerValue odr (gp_block (latch v d)) = v .& 0xffff
  /\ registerValue moder (gp_block (latch v d)) = registerValue moder (gp_block d).
Proof.
  intros Hd. destruct (gpio_aligned d odr Hd ltac:(do 2 right; left)) as [Ha _].
  assert (is_u32 (v .& 0xffff)) by (pose proof (land_bounds_r v 0xffff); width_lia).
  unfold latch. cbn. destruct Hd as [Hb Hs Ho Hm Hv].
  assert (registerValue odr (set_register odr (v .& 0xffff) (gp_block d)) = v .& 0xffff) as E.
  { apply registerValue_set_eq; done. }
  split_and!; [|done|by apply registerValue_set_ne].
  constructor; cbn; try done; [by apply set_register_ok | by unfold set_register; rewrite Ha |].
  rewrite E, <- Z.land_assoc. done.
Qed.

(** What an output change leaves: the latch, the levels, the calls and the history. *)
Record output_change (env : Env) (next : Z) (d d' : GpioPeripheral) (w : list Effect) : Prop := mk_output_change {
  oc_ok : gpio_ok d';
  oc_odr : registerValue odr (gp_block d') = next .& 0xffff;
  oc_moder : registerValue moder (gp_block d') = registerValue moder (gp_block d);
  oc_mask : gp_external_input_mask d' = gp_external_input_mask d;
  oc_value : gp_external_input_value d' = gp_external_input_value d;
  oc_effects : w = mbind (pin_effects env d (registerValue odr (gp_block d)) (next .& 0xffff) (inputValue d) (inputValue d')) (seqZ 0 16);
  oc_transitions : gp_transitions d'
    = gp_transitions d ++ mbind (pin_transition env d (registerValue odr (gp_block d)) (next .& 0xffff)) (seqZ 0 16);
}.

Lemma add_transitions_input l d : inputValue (add_transitions l d) = inputValue d.
Proof.
  unfold inputValue, add_transitions. cbn [gp_block gp_external_input_mask gp_external_input_value]. reflexivity.
Qed.

Lemma applyOutput_change env next d d1 : gpio_ok d1 -> agrees d d1 ->
  ∃ d' w, applyOutput next env d1 = (inl tt, d', w) /\ output_change env next d d' w.
Proof.
  intros Hd1 Hag. destruct (latch_ok next d1 Hd1) as (Hok&Ho&Hm).
  eexists _, _. split; [by apply applyOutput_run|]. constructor; cbn [gp_block gp_external_input_mask gp_external_input_value add_transitions gp_transitions].
  - destruct Hok. by constructor.
  - done.
  - rewrite Hm. apply Hag.
  - apply Hag.
  - apply Hag.
  - rewrite add_transitions_input. apply list_bind_ext; [|reflexivity]. intros pin.
    rewrite (agrees_effects env d d1), (agrees_input d d1), (ag_odr d d1) by exact Hag. reflexivity.
  - cbn. rewrite (ag_transitions d d1) by done. f_equal. apply list_bind_ext; [|done]. intros pin.
    by rewrite (agrees_transition env d d1), (ag_odr d d1) by done.
Qed.

(** Registers outside the pins. *)
Lemma set_other_agrees w v d d1 : gpio_ok d1 -> agrees d d1 -> 0 <= w -> w <> moder -> w <> odr -> is_u32 v ->
  agrees d (with_block (set_register w v) d1) /\ gpio_ok (with_block (set_register w v) d1).
Proof.
  intros [Hb Hs Ho Hm Hv] [] Hw Hmo Hod Hr.
  assert (registerValue odr (set_register w v (gp_block d1)) = registerValue odr (gp_block d1)) as Eo
    by by apply registerValue_set_ne.
  assert (registerValue moder (set_register w v (gp_block d1)) = registerValue moder (gp_block d1)) as Em
    by by apply registerValue_set_ne.
  split; constructor; cbn; rewrite ?Eo, ?Em; try done; try (by apply set_register_ok);
    unfold set_register; by destruct (aligned_register _ _).
Qed.
Lemma agrees_refl d : agrees d d.
Proof. by constructor. Qed.

(** The latch that a word written to an output register asks for. *)
Definition gpio_next (w v outputs : Z) : Z :=
  if w =? odr then v
  else if w =? bsrr then (outputs .& not32 ((v .>> 16) .& 0xffff)) .| (v .& 0xffff)
  else outputs .& not32 (v .& 0xffff).

Lemma restore_odr v d : gpio_ok d -> is_u32 v ->
  let d2 := with_block (set_register odr (registerValue odr (gp_block d) .& 0xffff)) (with_block (set_register odr v) d) in
  gpio_ok d2 /\ agrees d d2.
Proof.
  intros Hd Hv d2. destruct (gpio_aligned d odr Hd ltac:(do 2 right; left)) as [Ha _].
  assert (block_ok (set_register odr v (gp_block d))) as Hb1 by (apply set_register_ok; [apply Hd|done]).
  assert (aligned_register odr (set_register odr v (gp_block d)) = true) as Ha1.
  { unfold set_register. by rewrite Ha. }
  assert (is_u32 (registerValue odr (gp_block d) .& 0xffff)) as Hr.
  { pose proof (land_bounds_r (registerValue odr (gp_block d)) 0xffff). width_lia. }
  assert (registerValue odr (gp_block d2) = registerValue odr (gp_block d)) as Eo.
  { subst d2. cbn [gp_block with_block gpio_has_block]. rewrite registerValue_set_eq by done. apply Hd. }
  assert (registerValue moder (gp_block d2) = registerValue moder (gp_block d)) as Em.
  { subst d2. cbn [gp_block with_block gpio_has_block]. by rewrite !registerValue_set_ne. }
  assert (∀ A (f : RegBlock -> A), (∀ w v b, f (set_register w v b) = f b) -> f (gp_block d2) = f (gp_block d)) as Hf.
  { intros A f H. subst d2. cbn [gp_block with_block gpio_has_block]. by rewrite !H. }
  split.
  - destruct Hd as [Hb Hs Ho Hm Hx]. constructor; try done; [by apply set_register_ok| |by rewrite Eo].
    rewrite (Hf _ rb_block_size); [done|]. intros w v' b. unfold set_register. by destruct (aligned_register w b).
  - constructor; try done; [apply (Hf _ rb_has_loop)|apply (Hf _ rb_has_trace)|apply (Hf _ rb_trace_source)];
      intros w v' b; unfold set_register; by destruct (aligned_register w b).
Qed.

Lemma gpio_next_bsrr v outputs :
  gpio_next bsrr v outputs = (outputs .& not32 ((v .>> 16) .& 0xffff)) .| (v .& 0xffff).
Proof. done. Qed.
Lemma gpio_next_brr v outputs : gpio_next brr v outputs = outputs .& not32 (v .& 0xffff).
Proof. done. Qed.

Lemma regValue_odr d d1 env : agrees d d1 ->
  regValue odr env d1 = (inl (registerValue odr (gp_block d)), d1, []).
Proof. intros Hag. unfold regValue, get. cbn [block gpio_has_block]. by rewrite (ag_odr d d1). Qed.

(** The three branches of the store hook. *)
Lemma store_odr p v m c : gpio_storeRegister odr p v m c = (setRegister odr (p .& 0xffff);; applyOutput v).
Proof. done. Qed.
Lemma store_bsrr p v m c : gpio_storeRegister bsrr p v m c
  = (current ← regValue odr;
     setRegister bsrr 0;;
     applyOutput ((current .& not32 (((v .& m) .>> 16) .& 0xffff)) .| ((v .& m) .& 0xffff))).
Proof. done. Qed.
Lemma store_brr p v m c : gpio_storeRegister brr p v m c
  = (setRegister brr 0;; current ← regValue odr; applyOutput (current .& not32 (v .& m .& 0xffff))).
Proof. done. Qed.

Lemma gpio_write_run w v c env d : gpio_ok d -> is_u32 v -> w ∈ [odr; bsrr; brr] ->
  ∃ d' fx, write w AccessSize.word v c env d = (inl (inl 0), d', fx)
    /\ output_change env (gpio_next w v (registerValue odr (gp_block d))) d d' fx.
Proof.
  intros Hd Hv Hw.
  assert (w ∈ gpio_registers) as Hreg by (unfold gpio_registers; do 2 right; exact Hw).
  destruct (gpio_aligned d w Hd Hreg) as [Ha Hw0].
  rewrite write_word; [|apply Hd|done|done|cbn; rewrite (gp_ok_size _ Hd);
    repeat (apply elem_of_cons in Hw as [->|Hw]; [vm_compute; congruence|]); by apply elem_of_nil in Hw].
  cbn [block gpio_has_block]. rewrite u32_small by done.
  assert (0 <= v .& 0xffff <= 0xffff) as Hl by (apply land_bounds_r; lia).
  apply elem_of_cons in Hw as [->|Hw]; [|apply elem_of_cons in Hw as [->|Hw]; [|apply elem_of_cons in Hw as [->|Hw]; [|by apply elem_of_nil in Hw]]].
  - destruct (restore_odr v d Hd Hv) as [Hok Hag].
    destruct (applyOutput_change env v _ _ Hok Hag) as (d'&fx&E&Hc). exists d', fx. split; [|exact Hc].
    cbn [storeRegister gpio_hooks]. rewrite store_odr. erewrite bind_inl by reflexivity. by rewrite E.
  - destruct (set_other_agrees bsrr v d d Hd (agrees_refl d)) as [Hag1 Hok1]; [done..|].
    destruct (set_other_agrees bsrr 0 d _ Hok1 Hag1) as [Hag2 Hok2]; [done|done|done|width_lia|].
    set (next := gpio_next bsrr v (registerValue odr (gp_block d))).
    destruct (applyOutput_change env next _ _ Hok2 Hag2) as (d'&fx&E&Hc). exists d', fx. split; [|exact Hc].
    cbn [storeRegister gpio_hooks]. rewrite store_bsrr, <- u32_land, u32_small by done.
    erewrite bind_inl by (apply regValue_odr; exact Hag1). erewrite bind_inl by reflexivity.
    subst next. rewrite gpio_next_bsrr in E. by rewrite E.
  - destruct (set_other_agrees brr v d d Hd (agrees_refl d)) as [Hag1 Hok1]; [done..|].
    destruct (set_other_agrees brr 0 d _ Hok1 Hag1) as [Hag2 Hok2]; [done|done|done|width_lia|].
    set (next := gpio_next brr v (registerValue odr (gp_block d))).
    destruct (applyOutput_change env next _ _ Hok2 Hag2) as (d'&fx&E&Hc). exists d', fx. split; [|exact Hc].
    cbn [storeRegister gpio_hooks]. rewrite store_brr, <- u32_land, u32_small by done.
    erewrite bind_inl by reflexivity. erewrite bind_inl by (apply regValue_odr; exact Hag2).
    subst next. rewrite gpio_next_brr in E. by rewrite E.
Qed.

(** ** Reading the list of calls *)

Lemma trace_text_only type fields env b e : e ∈ trace_text type fields env b -> ∃ t s y f, e = fx_trace t s y f.
Proof.
  unfold trace_text. destruct (trace_passes type env b); [|by intros ?%elem_of_nil].
  intros ->%list_elem_of_singleton. eauto.
Qed.

Lemma edge_calls env d a b x y pin high t :
  fx_gpio_edge pin high t ∈ mbind (pin_effects env d a b x y) (seqZ 0 16) <->
  0 <= pin < 16 /\ gp_edge_callback d = true /\ Z.testbit x pin <> Z.testbit y pin
  /\ high = Z.testbit y pin /\ t = current_time env (gp_block d).
Proof.
  rewrite list_elem_of_bind. setoid_rewrite elem_of_seqZ. unfold pin_effects. split.
  - intros (p&Hin&Hp). rewrite elem_of_app in Hin. destruct Hin as [Hin|Hin].
    + destruct (Bool.eqb _ _); [by apply elem_of_nil in Hin|]. rewrite elem_of_app in Hin. destruct Hin as [Hin|Hin].
      * by apply trace_text_only in Hin as (?&?&?&?&[=]).
      * destruct (gp_output_callback d); [by apply list_elem_of_singleton in Hin | by apply elem_of_nil in Hin].
    + destruct (Bool.eqb (Z.testbit x p) (Z.testbit y p)) eqn:Eb, (gp_edge_callback d); cbn in Hin;
        try (by apply elem_of_nil in Hin). apply list_elem_of_singleton in Hin as [= -> -> ->].
      apply eqb_false_iff in Eb. split_and!; try done; lia.
  - intros (Hp&He&Hne&->&->). exists pin. split; [|lia]. apply elem_of_app. right.
    apply eqb_false_iff in Hne. rewrite He, Hne. cbn. by apply list_elem_of_singleton.
Qed.

Lemma output_calls env d a b x y pin high t :
  fx_gpio_output pin high t ∈ mbind (pin_effects env d a b x y) (seqZ 0 16) <->
  0 <= pin < 16 /\ gp_output_callback d = true /\ Z.testbit a pin <> Z.testbit b pin
  /\ high = Z.testbit b pin /\ t = current_time env (gp_block d).
Proof.
  rewrite list_elem_of_bind. setoid_rewrite elem_of_seqZ. unfold pin_effects. split.
  - intros (p&Hin&Hp). rewrite elem_of_app in Hin. destruct Hin as [Hin|Hin].
    + destruct (Bool.eqb (Z.testbit a p) (Z.testbit b p)) eqn:Eb; [by apply elem_of_nil in Hin|].
      rewrite elem_of_app in Hin. destruct Hin as [Hin|Hin]; [by apply trace_text_only in Hin as (?&?&?&?&[=])|].
      destruct (gp_output_callback d); [|by apply elem_of_nil in Hin]. apply list_elem_of_singleton in Hin as [= -> -> ->].
      apply eqb_false_iff in Eb. split_and!; try done; lia.
    + destruct (_ && _); [by apply list_elem_of_singleton in Hin | by apply elem_of_nil in Hin].
  - intros (Hp&He&Hne&->&->). exists pin. split; [|lia]. apply elem_of_app. left.
    apply eqb_false_iff in Hne. rewrite He, Hne. apply elem_of_app. right. by apply list_elem_of_singleton.
Qed.

(** The latch after a word was written to an output register, bit by bit. *)
Lemma gpio_next_bit w v outputs pin : w ∈ [odr; bsrr; brr] -> 0 <= pin < 16 ->
  Z.testbit (gpio_next w v outputs .& 0xffff) pin
  = if w =? odr then Z.testbit v pin
    else if w =? bsrr then Z.testbit v pin || (Z.testbit outputs pin && negb (Z.testbit v (pin + 16)))
    else Z.testbit outputs pin && negb (Z.testbit v pin).
Proof.
  intros Hw Hp. rewrite Z.land_spec. change 0xffff with (1 .<< 16 - 1).
  rewrite ones_testbit, (proj2 (Z.ltb_lt _ _)), andb_true_r by lia. unfold gpio_next.
  destruct (w =? odr); [done|]. destruct (w =? bsrr).
  - rewrite Z.lor_spec, !Z.land_spec, not32_testbit, Z.land_spec, Z.shiftr_spec by lia.
    change 0xffff with (1 .<< 16 - 1). rewrite ones_testbit, (proj2 (Z.ltb_lt _ _)), !andb_true_r by lia. apply orb_comm.
  - rewrite Z.land_spec, not32_testbit, Z.land_spec by lia. change 0xffff with (1 .<< 16 - 1).
    by rewrite ones_testbit, (proj2 (Z.ltb_lt _ _)), !andb_true_r by lia.
Qed.

Lemma gpio_new_ok name loop trace env : gpio_ok (gpio_new name loop trace env).
Proof.
  unfold gpio_new. cbv zeta. set (m := if bool_decide _ then _ else _).
  assert (is_u32 m) as Hm by (subst m; repeat (apply is_u32_if || case_match); width_lia).
  assert (block_ok (setResetValue moder m (block_init name 0x2c loop trace))) as Hb
    by (apply setResetValue_ok; [apply block_init_ok; lia|done]).
  apply (construct_block gpio_ok).
  - constructor; [by apply reset_registers_ok|reflexivity|reflexivity|cbn; width_lia|cbn; width_lia].
  - intros line d []. constructor; try done. by apply set_level_ok.
  - apply holds_skip.
Qed.
End GpioProofs.
