(* ===== verification/Exti.v ===== *)
(** * SYSCFG routing and the EXTI controller

    Models [SyscfgPeripheral] and [ExtiPeripheral] of [src/stm32g4/exti.cpp]: the port selected
    for every line, the explicit state of each line, and the interrupt lines derived from it.
    The controller reads the SYSCFG registers through a pointer, so the operation that does takes
    them as an argument. *)

From stdpp Require Import pretty.
From S2P Require Import Prelude Address Common Trace CpuState CpuStateProofs.
From S2P Require Import Peripheral PeripheralProofs.
#[local] Open Scope Z_scope.
#[local] Open Scope fil_scope.

Module Syscfg.
Definition exticr1 : Z := 0x08.
Definition exticr2 : Z := 0x0c.
Definition exticr3 : Z := 0x10.
Definition exticr4 : Z := 0x14.

Definition syscfg_new (name : string) (loop trace : bool) (env : Env) : RegBlock :=
  @construct _ block_self base_hooks env (block_init name 0x400 loop trace).

Definition portForLine (line : Z) (b : RegBlock) : Z :=
  if 15 <? line then -1
  else
    let reg := line / 4 in
    let field := line mod 4 in
    let value := peekRegister (rget [exticr1; exticr2; exticr3; exticr4] reg) b in
    let port := (value .>> (field * 4)) .& 0xf in
    if 6 <? port then -1 else port.
End Syscfg.

Module Exti.
Definition imr1 : Z := 0x00.
Definition emr1 : Z := 0x04.
Definition rtsr1 : Z := 0x08.
Definition ftsr1 : Z := 0x0c.
Definition swier1 : Z := 0x10.
Definition pr1 : Z := 0x14.

Module LineState.
Inductive t := idle | armed | pending | pending_masked.
#[global] Instance eq_dec : EqDecision t.
Proof. solve_decision. Defined.
End LineState.
Module LineEvent.
Inductive t := request | cleared | mask | unmask.
End LineEvent.
Definition tracked_lines : Z := 16.

Record ExtiPeripheral := mkExti {
  ex_block : RegBlock;
  ex_line_state : list LineState.t;
}.
#[global] Instance exti_has_block : HasBlock ExtiPeripheral :=
  {| block := ex_block; with_block f d := {| d with ex_block := f (ex_block d) |} |}.
#[global] Instance exti_has_block_laws : HasBlockLaws ExtiPeripheral.
Proof. constructor; [done|]. intros f g [] E. cbn in *. by rewrite E. Qed.

Definition line_state (line : Z) (d : ExtiPeripheral) : LineState.t :=
  default LineState.idle (ex_line_state d !! Z.to_nat line).

(** The table of [transitionLine]. *)
Definition line_next (s : LineState.t) (e : LineEvent.t) : LineState.t :=
  match s, e with
  | LineState.idle, LineEvent.request => LineState.pending_masked
  | LineState.idle, LineEvent.unmask => LineState.armed
  | LineState.idle, (LineEvent.cleared | LineEvent.mask) => LineState.idle
  | LineState.armed, LineEvent.request => LineState.pending
  | LineState.armed, LineEvent.mask => LineState.idle
  | LineState.armed, (LineEvent.cleared | LineEvent.unmask) => LineState.armed
  | LineState.pending, LineEvent.cleared => LineState.armed
  | LineState.pending, LineEvent.mask => LineState.pending_masked
  | LineState.pending, (LineEvent.request | LineEvent.unmask) => LineState.pending
  | LineState.pending_masked, LineEvent.cleared => LineState.idle
  | LineState.pending_masked, LineEvent.unmask => LineState.pending
  | LineState.pending_masked, (LineEvent.request | LineEvent.mask) => LineState.pending_masked
  end.
Definition transition (line : Z) (e : LineEvent.t) (d : ExtiPeripheral) : ExtiPeripheral :=
  if tracked_lines <=? line then d
  else {| d with ex_line_state := <[Z.to_nat line := line_next (line_state line d) e]> (ex_line_state d) |}.
Definition transitionLine (line : Z) (e : LineEvent.t) : Dev ExtiPeripheral unit := modify (transition line e).

Definition derived_state (latched enabled : bool) : LineState.t :=
  if latched then (if enabled then LineState.pending else LineState.pending_masked)
  else (if enabled then LineState.armed else LineState.idle).
Definition resyncPendingLines : Dev ExtiPeripheral unit :=
  pending ← regValue pr1;
  mask ← regValue imr1;
  for_each (fun line =>
    let bit := 1 .<< line in
    modify (fun d : ExtiPeripheral =>
      {| d with ex_line_state :=
           <[Z.to_nat line := derived_state (has pending bit) (has mask bit)]> (ex_line_state d) |}))
    (seqZ 0 tracked_lines).

Definition linePendingEnabled (line : Z) (d : ExtiPeripheral) : bool :=
  if tracked_lines <=? line then false else bool_decide (line_state line d = LineState.pending).

(** A shared line is asserted when one of its lines is pending. *)
Definition any_pending (first last : Z) (d : ExtiPeripheral) : bool :=
  existsb (fun line => linePendingEnabled line d) (seqZ first (last - first + 1)).

Definition updateInterruptLevels : Dev ExtiPeripheral unit :=
  for_each (fun dedicated =>
    asserted ← get (linePendingEnabled dedicated); setInterruptLevel dedicated asserted) (seqZ 0 5);;
  shared_5_9 ← get (any_pending 5 9);
  setInterruptLevel 5 shared_5_9;;
  shared_10_15 ← get (any_pending 10 15);
  setInterruptLevel 6 shared_10_15;;
  setInterruptLevel 7 false.

Definition exti_storeRegister (word_offset previous value write_mask : Z) (c : AccessContext) : Dev ExtiPeripheral unit :=
  if word_offset =? swier1 then
    let set_bits := value .& write_mask in
    (if negb (set_bits =? 0) then
       pending ← regValue pr1;
       setRegister pr1 (pending .| set_bits);;
       setRegister swier1 0;;
       resyncPendingLines;;
       for_each (fun line =>
         if has set_bits (1 .<< line)
         then traceEvent "exti_pending" [("line", pretty line); ("source", "software")] else skip) (seqZ 0 32)
     else
       setRegister swier1 0;;
       resyncPendingLines);;
    updateInterruptLevels
  else if word_offset =? pr1 then
    let clear_bits := value .& write_mask in
    setRegister pr1 (previous .& not32 clear_bits);;
    for_each (fun line =>
      if has clear_bits (1 .<< line) then transitionLine line LineEvent.cleared else skip) (seqZ 0 32);;
    (if negb (clear_bits =? 0) then traceEvent "exti_clear" [("mask", pretty clear_bits)] else skip);;
    updateInterruptLevels
  else if word_offset =? imr1 then
    mask ← regValue imr1;
    for_each (fun line =>
      transitionLine line (if has mask (1 .<< line) then LineEvent.unmask else LineEvent.mask)) (seqZ 0 tracked_lines);;
    updateInterruptLevels
  else if (word_offset =? emr1) || (word_offset =? rtsr1) || (word_offset =? ftsr1) then updateInterruptLevels
  else skip.

Definition exti_onReset : Dev ExtiPeripheral unit :=
  resyncPendingLines;;
  for_each (fun line => setInterruptLevel line false) (seqZ 0 8).

#[global] Instance exti_hooks : RegisterHooks ExtiPeripheral :=
  {| loadRegister w _ := regValue w; storeRegister := exti_storeRegister; onReset := exti_onReset |}.

Definition exti_new (name : string) (loop trace : bool) (env : Env) : ExtiPeripheral :=
  construct env (mkExti (block_init name 0x400 loop trace) (replicate 16 LineState.idle)).

(** [notifyGpioEdge]; [syscfg] is the SYSCFG the controller was given, if any. *)
Definition notifyGpioEdge (syscfg : option RegBlock) (port pin : Z) (high : bool) : Dev ExtiPeripheral unit :=
  if (15 <? pin) || (6 <? port) then skip
  else if match syscfg with
          | Some b => let routed := Syscfg.portForLine pin b in (routed <? 0) || negb (routed =? port)
          | None => false
          end then skip
  else
    let mask := 1 .<< pin in
    rtsr ← regValue rtsr1;
    ftsr ← regValue ftsr1;
    if ((high && has rtsr mask) || (negb high && has ftsr mask) : bool) then
      transitionLine pin LineEvent.request;;
      pending ← regValue pr1;
      setRegister pr1 (pending .| mask);;
      traceEvent "exti_pending" [("line", pretty pin); ("source", if high then "rising" else "falling")];;
      updateInterruptLevels
    else skip.
End Exti.

(** ** The state of the lines mirrors the registers *)

Module ExtiProofs.
Import Exti.

Definition latched (d : ExtiPeripheral) (line : Z) : bool := Z.testbit (registerValue pr1 (ex_block d)) line.
Definition enabled (d : ExtiPeripheral) (line : Z) : bool := Z.testbit (registerValue imr1 (ex_block d)) line.

(** Line states for given pending and mask bits. *)
Definition lines_are (p m : Z -> bool) (d : ExtiPeripheral) : Prop :=
  length (ex_line_state d) = 16%nat /\ ∀ i, 0 <= i < 16 -> line_state i d = derived_state (p i) (m i).

(** What an interrupt line of the controller must be. *)
Definition expected (k : Z) (d : ExtiPeripheral) : bool :=
  if k <? 5 then linePendingEnabled k d
  else if k =? 5 then any_pending 5 9 d
  else if k =? 6 then any_pending 10 15 d
  else false.

Definition block_part (d : ExtiPeripheral) : Prop := block_ok (ex_block d) /\ rb_block_size (ex_block d) = 0x400.
Record exti_mid (d : ExtiPeripheral) : Prop := mk_exti_mid {
  em_block : block_part d;
  em_lines : lines_are (latched d) (enabled d) d;
}.
Record exti_ok (d : ExtiPeripheral) : Prop := mk_exti_ok {
  eo_mid : exti_mid d;
  eo_levels : ∀ k, 0 <= k < 8 -> level k (ex_block d) = expected k d;
}.

Lemma line_next_request p m : line_next (derived_state p m) LineEvent.request = derived_state true m.
Proof. by destruct p, m. Qed.
Lemma line_next_cleared p m : line_next (derived_state p m) LineEvent.cleared = derived_state false m.
Proof. by destruct p, m. Qed.
Lemma line_next_mask p m (m' : bool) :
  line_next (derived_state p m) (if m' then LineEvent.unmask else LineEvent.mask) = derived_state p m'.
Proof. by destruct p, m, m'. Qed.

Lemma derived_pending p m : bool_decide (derived_state p m = LineState.pending) = p && m.
Proof. by destruct p, m. Qed.

(** A line requests an interrupt exactly when it is latched and unmasked. *)
Lemma linePendingEnabled_spec d i : exti_mid d -> 0 <= i < 16 -> linePendingEnabled i d = latched d i && enabled d i.
Proof.
  intros [_ [_ Hl]] Hi. unfold linePendingEnabled, tracked_lines. rewrite (proj2 (Z.leb_gt _ _)), Hl by lia.
  apply derived_pending.
Qed.

(** *** Lists of lines *)

Lemma line_state_insert i j s d l : length (ex_line_state d) = 16%nat -> 0 <= i < 16 -> 0 <= j < 16 ->
  l = <[Z.to_nat i := s]> (ex_line_state d) ->
  line_state j {| d with ex_line_state := l |} = if j =? i then s else line_state j d.
Proof.
  intros Hn Hi Hj ->. unfold line_state. cbn. destruct (Z.eqb_spec j i) as [->|Hne].
  - by rewrite list_lookup_insert_eq by lia.
  - by rewrite list_lookup_insert_ne by lia.
Qed.

Lemma transition_lines p m p' m' line e d : 0 <= line < 32 -> lines_are p m d ->
  (∀ i, 0 <= i < 16 -> i = line -> line_next (derived_state (p i) (m i)) e = derived_state (p' i) (m' i)) ->
  (∀ i, 0 <= i < 16 -> i <> line -> derived_state (p i) (m i) = derived_state (p' i) (m' i)) ->
  lines_are p' m' (transition line e d).
Proof.
  intros Hl [Hn Hd] He Ho. unfold transition, tracked_lines. destruct (Z.leb_spec 16 line).
  - split; [done|]. intros i Hi. rewrite Hd by done. apply Ho; lia.
  - split; [cbn; by rewrite length_insert|]. intros i Hi. rewrite (line_state_insert line i (line_next (line_state line d) e)) by (done || lia).
    destruct (Z.eqb_spec i line) as [->|Hne]; rewrite Hd by lia; [by apply He | by apply Ho].
Qed.
Lemma transition_block line e d : ex_block (transition line e d) = ex_block d.
Proof. unfold transition. by destruct (_ <=? _). Qed.

(** *** Interrupt levels *)

Definition upto (k : Z) (d : ExtiPeripheral) : Prop :=
  exti_mid d /\ ∀ i, 0 <= i < k -> level i (ex_block d) = expected i d.

Lemma level_set i j v b : block_ok b -> 0 <= i < 8 -> 0 <= j < 8 ->
  level j (set_level i v b) = if j =? i then v else level j b.
Proof.
  intros Hb Hi Hj. unfold level, set_level. cbn. pose proof (ok_levels _ Hb). destruct (Z.eqb_spec j i) as [->|Hne].
  - by rewrite list_lookup_insert_eq by lia.
  - by rewrite list_lookup_insert_ne by lia.
Qed.
Lemma set_level_mid line v d : exti_mid d -> exti_mid (with_block (set_level line v) d).
Proof. intros [[Hb Hs] Hl]. constructor; [split; [by apply set_level_ok|done]|exact Hl]. Qed.

Lemma level_run k a : 0 <= k < 8 ->
  runs (fun d => upto k d /\ a = expected k d) (setInterruptLevel k a) (fun _ => upto (k + 1)).
Proof.
  intros Hk. apply runs_setInterruptLevel; intros d [[Hm Hu] ->] E.
  - apply orb_true_iff in E as [E%Z.leb_le|E%eqb_prop]; [lia|]. split; [done|]. intros i Hi.
    destruct (decide (i = k)) as [->|]; [done|]. apply Hu. lia.
  - split; [by apply set_level_mid|]. intros i Hi. cbn [ex_block with_block exti_has_block].
    rewrite level_set by (apply Hm || lia). destruct (Z.eqb_spec i k) as [->|]; [done|]. rewrite Hu by lia. done.
Qed.
Lemma level_of_run k (f : ExtiPeripheral -> bool) : 0 <= k < 8 -> (∀ d, f d = expected k d) ->
  runs (upto k) (a ← get f; setInterruptLevel k a) (fun _ => upto (k + 1)).
Proof.
  intros Hk Hf. eapply runs_bind; [apply runs_get|]. intros a. eapply runs_conseq; [by apply (level_run k a)| |done].
  intros d [Hu ->]. by rewrite Hf.
Qed.

Lemma update_run : runs exti_mid updateInterruptLevels (fun _ => exti_ok).
Proof.
  unfold updateInterruptLevels. eapply runs_bind.
  { apply (runs_conseq (upto 0) _ _ (fun _ => upto 5)); [|intros d Hd; split; [done|lia]|intros a d H; exact H].
    apply (runs_for_seq upto); [lia|]. intros k Hk. apply level_of_run; [lia|]. intros d. unfold expected. by rewrite (proj2 (Z.ltb_lt _ _)) by lia. }
  intros []. cbn beta.
  assert (∀ (m : Dev ExtiPeripheral unit) Q, runs (upto 7) m Q -> runs (upto 5)
    (shared_5_9 ← get (any_pending 5 9); setInterruptLevel 5 shared_5_9;;
     shared_10_15 ← get (any_pending 10 15); setInterruptLevel 6 shared_10_15;; m) Q) as H.
  { intros m Q Hm. eapply runs_bind; [apply runs_get|]. intros a.
    eapply runs_bind; [eapply runs_conseq; [apply (level_run 5 a); lia | by intros d [Hu ->] | done]|]. intros [].
    eapply runs_bind; [apply runs_get|]. intros b.
    eapply runs_bind; [eapply runs_conseq; [apply (level_run 6 b); lia | by intros d [Hu ->] | done]|]. by intros []. }
  apply H. eapply runs_conseq; [apply (level_run 7 false); lia | done |]. intros [] d [Hm Hl]. by constructor.
Qed.

(** *** The register writes *)

Lemma exti_aligned d w : block_part d -> register_of 0x400 w -> aligned_register w (ex_block d) = true.
Proof. intros [_ Hs] [Hw Ha]. unfold aligned_register. rewrite Hs, Ha. apply andb_true_iff. split; [done|]. apply Z.ltb_lt. lia. Qed.
Lemma set_block_part w v d : block_part d -> is_u32 v -> block_part (with_block (set_register w v) d).
Proof.
  intros [Hb Hs] Hv. split; [by apply set_register_ok|]. cbn. unfold set_register. by destruct (aligned_register _ _).
Qed.
Lemma set_other_bit w w' v d : 0 <= w -> 0 <= w' -> w <> w' ->
  registerValue w' (ex_block (with_block (set_register w v) d)) = registerValue w' (ex_block d).
Proof. intros. cbn. by apply registerValue_set_ne. Qed.
Lemma set_same_bit w v d : block_part d -> register_of 0x400 w ->
  registerValue w (ex_block (with_block (set_register w v) d)) = v.
Proof. intros Hd Hw. cbn. apply registerValue_set_eq; [apply Hd | by apply exti_aligned | apply Hw]. Qed.

Definition sized (d : ExtiPeripheral) : Prop := block_part d /\ length (ex_line_state d) = 16%nat.

Lemma resync_run : runs sized resyncPendingLines (fun _ => exti_mid).
Proof.
  unfold resyncPendingLines. eapply runs_bind; [apply runs_regValue|]. intros pending.
  eapply runs_bind; [apply runs_regValue|]. intros mask.
  set (J := fun (k : Z) (d : ExtiPeripheral) =>
    (sized d /\ pending = registerValue pr1 (ex_block d) /\ mask = registerValue imr1 (ex_block d))
    /\ ∀ i, 0 <= i < k -> line_state i d = derived_state (latched d i) (enabled d i)).
  apply (runs_conseq (J 0) _ _ (fun _ => J 16)).
  - apply (runs_for_seq J); [lia|]. intros k Hk. apply runs_modify. intros d [[[Hb Hn] [Hp Hm]] Hl]. split.
    + split; [split; [done|cbn; by rewrite length_insert]|done].
    + intros i Hi. rewrite (line_state_insert k i (derived_state (has pending (1 .<< k)) (has mask (1 .<< k)))) by (done || (unfold tracked_lines in *; lia)).
      rewrite !has_testbit by lia. destruct (Z.eqb_spec i k) as [->|Hne]; [by rewrite Hp, Hm|]. apply Hl. lia.
  - intros d [[Hs Hp] Hm]. split; [done|]. intros i Hi. lia.
  - intros [] d [[[Hb Hn] _] Hl]. constructor; [done|]. by split.
Qed.

(** Programs of the store hook that keep the controller consistent. *)
Lemma swier_run previous value mask c : is_u32 value -> is_u32 mask ->
  runs sized (exti_storeRegister swier1 previous value mask c) (fun _ => exti_ok).
Proof.
  intros Hv Hm. change (exti_storeRegister swier1 previous value mask c) with
    ((if negb (value .& mask =? 0) then
       pending ← regValue pr1; setRegister pr1 (pending .| (value .& mask));; setRegister swier1 0;; resyncPendingLines;;
       for_each (fun line => if has (value .& mask) (1 .<< line)
         then traceEvent "exti_pending" [("line", pretty line); ("source", "software")] else skip) (seqZ 0 32)
      else setRegister swier1 0;; resyncPendingLines);; updateInterruptLevels).
  assert (∀ w v, is_u32 v -> runs sized (setRegister w v) (fun _ => sized)) as Hset.
  { intros w v Hw. apply runs_modify. intros d [Hb Hn]. split; [by apply set_block_part|done]. }
  apply (runs_bind _ _ _ (fun _ => exti_mid)); [|intros []; apply update_run]. apply runs_if; intros _.
  - eapply runs_bind; [apply runs_regValue|]. intros pending. intros env d [[Hb Hn] ->]. revert env d Hb Hn.
    cut (∀ pending, is_u32 pending -> runs sized
      (setRegister pr1 (pending .| (value .& mask));; setRegister swier1 0;; resyncPendingLines;;
       for_each (fun line => if has (value .& mask) (1 .<< line)
         then traceEvent "exti_pending" [("line", pretty line); ("source", "software")] else skip) (seqZ 0 32)) (fun _ => exti_mid)).
    { intros H env d Hb Hn. apply (H (registerValue pr1 (ex_block d))); [apply registerValue_range, Hb | by split]. }
    intros p Hp. eapply runs_bind; [apply Hset; u32_auto|]. intros [].
    eapply runs_bind; [apply Hset; width_lia|]. intros []. eapply runs_bind; [apply resync_run|]. intros [].
    apply (runs_for_seq (fun _ => exti_mid)); [lia|]. intros k Hk. apply runs_if; intros _; [apply runs_traceEvent | apply runs_skip].
  - eapply runs_bind; [apply Hset; width_lia|]. intros []. apply resync_run.
Qed.

(** The pending register and the lines, when the stored image was not consistent yet. *)
Definition lines_for (p m : Z -> bool) (d : ExtiPeripheral) : Prop := block_part d /\ lines_are p m d.

Lemma pr_run previous value mask c : is_u32 previous -> is_u32 value -> is_u32 mask ->
  runs (fun d => lines_for (Z.testbit previous) (enabled d) d) (exti_storeRegister pr1 previous value mask c) (fun _ => exti_ok).
Proof.
  intros Hp Hv Hm. set (clear := value .& mask). assert (is_u32 clear) as Hc by (subst clear; u32_auto).
  change (exti_storeRegister pr1 previous value mask c) with
    (setRegister pr1 (previous .& not32 clear);;
     for_each (fun line => if has clear (1 .<< line) then transitionLine line LineEvent.cleared else skip) (seqZ 0 32);;
     (if negb (clear =? 0) then traceEvent "exti_clear" [("mask", pretty clear)] else skip);;
     updateInterruptLevels).
  set (J := fun (k : Z) (d : ExtiPeripheral) =>
    block_part d /\ registerValue pr1 (ex_block d) = previous .& not32 clear
    /\ lines_are (fun i => Z.testbit previous i && negb ((i <? k) && Z.testbit clear i)) (enabled d) d).
  eapply (runs_bind _ _ _ (fun _ => J 0)).
  { apply runs_modify. intros d [Hb [Hn Hl]]. subst J. split_and!.
    - apply set_block_part; [done|u32_auto].
    - by apply set_same_bit.
    - split; [done|]. intros i Hi. change (line_state i (with_block _ d)) with (line_state i d). rewrite Hl by done.
      unfold enabled. rewrite (proj2 (Z.ltb_ge i 0)) by lia. cbn [negb andb]. rewrite andb_true_r.
      by rewrite set_other_bit. }
  intros []. eapply (runs_bind _ _ _ (fun _ => J 32)).
  { apply (runs_for_seq J); [lia|]. intros k Hk. rewrite has_testbit by lia. destruct (Z.testbit clear k) eqn:Ek.
    - apply runs_modify. intros d (Hb&Hr&Hl). subst J. cbn beta. unfold block_part, enabled. rewrite transition_block.
      split_and!; [apply Hb..|done|]. eapply transition_lines; [lia|exact Hl| |].
      + intros i Hi ->. rewrite line_next_cleared. rewrite (proj2 (Z.ltb_lt k (k + 1))), Ek by lia. cbn. by rewrite andb_false_r.
      + intros i Hi Hne. cbn beta. do 4 f_equal. destruct (Z.ltb_spec i k), (Z.ltb_spec i (k + 1)); lia.
    - eapply runs_conseq; [apply runs_skip|done|]. intros [] d (Hb&Hr&[Hn Hl]). subst J. cbn beta. split_and!; [done..|].
      split; [done|]. intros i Hi. rewrite Hl by done. f_equal. destruct (Z.ltb_spec i k), (Z.ltb_spec i (k + 1)); try lia; [done| |done].
      assert (i = k) as -> by lia. by rewrite Ek. }
  intros []. eapply (runs_bind _ _ _ (fun _ => J 32)).
  { apply runs_if; intros _; [apply runs_traceEvent | apply runs_skip]. }
  intros []. eapply runs_conseq; [apply update_run| |done]. intros d (Hb&Hr&[Hn Hl]). constructor; [done|]. split; [done|].
  intros i Hi. rewrite Hl by done. f_equal. unfold latched. rewrite Hr, Z.land_spec, not32_testbit by lia.
  by rewrite (proj2 (Z.ltb_lt i 32)) by lia.
Qed.

Lemma imr_run p m previous value mask c :
  runs (fun d => lines_for p m d /\ ∀ i, 0 <= i < 16 -> p i = latched d i)
    (exti_storeRegister imr1 previous value mask c) (fun _ => exti_ok).
Proof.
  change (exti_storeRegister imr1 previous value mask c) with
    (mask ← regValue imr1;
     for_each (fun line => transitionLine line (if has mask (1 .<< line) then LineEvent.unmask else LineEvent.mask))
       (seqZ 0 tracked_lines);;
     updateInterruptLevels).
  eapply runs_bind; [apply runs_regValue|]. intros x.
  set (J := fun (k : Z) (d : ExtiPeripheral) =>
    block_part d /\ x = registerValue imr1 (ex_block d)
    /\ lines_are (latched d) (fun i => if i <? k then Z.testbit x i else m i) d).
  eapply (runs_bind _ _ _ (fun _ => J 16)).
  - apply (runs_conseq (J 0) _ _ (fun _ => J 16)); [|intros d [[[Hb [Hn Hl]] Hp] ->]|done].
    2: { subst J. split_and!; [done..|]. split; [done|]. intros i Hi. rewrite Hl by done.
         by rewrite (proj2 (Z.ltb_ge i 0)), Hp by lia. }
    apply (runs_for_seq J); [done|]. intros k Hk. unfold tracked_lines in Hk. rewrite has_testbit by lia.
    apply runs_modify. intros d (Hb&Hx&Hl). subst J. cbn beta. unfold block_part, latched. rewrite transition_block.
    split_and!; [apply Hb..|done|]. eapply transition_lines; [lia|exact Hl| |].
    + intros i Hi ->. rewrite line_next_mask. by rewrite (proj2 (Z.ltb_lt k (k + 1))) by lia.
    + intros i Hi Hne. cbn beta. f_equal. by destruct (Z.ltb_spec i k), (Z.ltb_spec i (k + 1)); try lia.
  - intros []. eapply runs_conseq; [apply update_run| |done]. intros d (Hb&Hx&[Hn Hl]). constructor; [done|]. split; [done|].
    intros i Hi. rewrite Hl, (proj2 (Z.ltb_lt _ _)) by lia. unfold enabled. by rewrite <- Hx.
Qed.

Lemma exti_store w bits mask c : register_of 0x400 w -> is_u32 bits -> is_u32 mask ->
  runs exti_ok (store_word w bits mask c) (fun _ => exti_ok).
Proof.
  intros Hw Hbits Hmask env d Hd. pose proof Hd as [[Hb Hl] Hlev].
  rewrite store_word_hook by by apply exti_aligned. cbn [block exti_has_block].
  set (previous := registerValue w (ex_block d)). assert (is_u32 previous) as Hp by apply registerValue_range, Hb.
  pose proof (merged_image_range previous bits mask Hp Hbits Hmask) as Hv. set (v := merged_image previous bits mask) in *.
  set (d1 := with_block (set_register w v) d). assert (block_part d1) as Hb1 by by apply set_block_part.
  assert (∀ w', 0 <= w' -> w' <> w -> registerValue w' (ex_block d1) = registerValue w' (ex_block d)) as Hother.
  { intros w' H0 Hne. apply set_other_bit; [apply Hw|done|congruence]. }
  cbn [storeRegister exti_hooks].
  destruct (decide (w = swier1)) as [->|N1]; [apply swier_run; [done|done|]; split; [done|apply Hl]|].
  destruct (decide (w = pr1)) as [->|N2].
  { apply pr_run; try done. split; [done|]. destruct Hl as [Hn Hl]. split; [done|]. intros i Hi.
    change (line_state i d1) with (line_state i d). rewrite Hl by done. unfold latched, enabled. by rewrite (Hother imr1). }
  destruct (decide (w = imr1)) as [->|N3].
  { apply (imr_run (latched d) (enabled d)). split; [by split|]. intros i Hi. unfold latched. by rewrite (Hother pr1). }
  assert (exti_mid d1) as Hm1.
  { constructor; [done|]. unfold latched, enabled. rewrite (Hother pr1), (Hother imr1) by done. exact Hl. }
  unfold exti_storeRegister. rewrite (proj2 (Z.eqb_neq w swier1)), (proj2 (Z.eqb_neq w pr1)), (proj2 (Z.eqb_neq w imr1)) by done.
  destruct (_ || _); [by apply update_run|]. eexists _, _, _. split; [done|]. constructor; [done|].
  intros k Hk. assert (level k (ex_block d1) = level k (ex_block d)) as ->.
  { subst d1. cbn. unfold set_register. by destruct (aligned_register _ _). }
  by rewrite Hlev.
Qed.

(** Every access of every width keeps the controller consistent. *)
Lemma exti_write_ok offset size v c : holds exti_ok (write offset size v c) (fun _ => True).
Proof.
  apply (holds_write _ 0x400).
  - by intros d [[[_ Hs] _] _].
  - lia.
  - intros w bits mask Hw Hbits Hmask. eapply runs_holds; [by apply exti_store|]. by intros [] d.
Qed.

(** The edges the controller reacts to. *)
Definition triggers (syscfg : option RegBlock) (port pin : Z) (high : bool) (d : ExtiPeripheral) : bool :=
  match syscfg with Some b => Syscfg.portForLine pin b =? port | None => true end
  && Z.testbit (registerValue (if high then rtsr1 else ftsr1) (ex_block d)) pin.

Lemma request_mid pin d : exti_mid d -> 0 <= pin < 16 ->
  exti_mid (with_block (set_register pr1 (registerValue pr1 (ex_block d) .| 1 .<< pin)) (transition pin LineEvent.request d)).
Proof.
  intros [Hb Hl] Hp. set (t := transition pin LineEvent.request d).
  assert (ex_block t = ex_block d) as Et by apply transition_block.
  assert (block_part t) as Hbt by (unfold block_part; by rewrite Et).
  assert (is_u32 (1 .<< pin)) as Hbit.
  { rewrite Z.shiftl_mul_pow2, Z.mul_1_l by lia. split; [apply Z.pow_nonneg; lia|].
    apply (Z.lt_le_trans _ (2 ^ 16)); [apply Z.pow_lt_mono_r; lia|done]. }
  assert (is_u32 (registerValue pr1 (ex_block d) .| 1 .<< pin)) as Hv.
  { apply is_u32_lor; [apply registerValue_range, Hb|done]. }
  constructor; [by apply set_block_part|].
  assert (lines_are (fun i => latched d i || (i =? pin)) (enabled d) t) as [Hn Hlt].
  { eapply transition_lines; [lia|exact Hl| |].
    - intros i Hi ->. by rewrite line_next_request, Z.eqb_refl, orb_true_r.
    - intros i Hi Hne. by rewrite (proj2 (Z.eqb_neq i pin)), orb_false_r. }
  split; [done|]. intros i Hi. change (line_state i (with_block _ t)) with (line_state i t). rewrite Hlt by done.
  unfold latched, enabled. rewrite set_same_bit, set_other_bit, Et, Z.lor_spec by done.
  f_equal. f_equal. rewrite Z.shiftl_mul_pow2, Z.mul_1_l by lia.
  destruct (Z.eqb_spec i pin) as [->|]; [by rewrite Z.pow2_bits_true by lia | by rewrite Z.pow2_bits_false by lia].
Qed.

(** The interrupt levels do not touch the registers. *)
Lemma update_registers f : holds (fun d => ∀ w, registerValue w (ex_block d) = f w) updateInterruptLevels (fun _ => True).
Proof.
  unfold updateInterruptLevels.
  assert (∀ line a, holds (fun d => ∀ w, registerValue w (ex_block d) = f w) (setInterruptLevel line a) (fun _ => True)) as H.
  { intros line a. apply holds_setInterruptLevel. intros d Hd. exact Hd. }
  assert (∀ g, holds (fun d => ∀ w, registerValue w (ex_block d) = f w) (get (g : ExtiPeripheral -> bool)) (fun _ => True)) as Hg.
  { intros g. by apply holds_get. }
  eapply holds_bind; [apply holds_for_each; intros x _; eapply holds_bind; [apply Hg|intros; apply H]|]. intros _ _.
  eapply holds_bind; [apply Hg|]. intros ? _. eapply holds_bind; [apply H|]. intros _ _.
  eapply holds_bind; [apply Hg|]. intros ? _. eapply holds_bind; [apply H|]. intros _ _. apply H.
Qed.

Lemma portForLine_range line b : 0 <= line -> -1 <= Syscfg.portForLine line b <= 6.
Proof.
  intros Hl. unfold Syscfg.portForLine. destruct (15 <? line); [lia|]. cbv zeta.
  set (port := _ .& 0xf). assert (0 <= port <= 0xf) by (apply land_bounds_r; lia).
  destruct (Z.ltb_spec 6 port); lia.
Qed.

(** A GPIO edge latches its line exactly when it is routed and armed. *)
Lemma notify_run syscfg port pin high env d : exti_ok d -> 0 <= pin < 16 -> 0 <= port <= 6 ->
  ∃ d' w, notifyGpioEdge syscfg port pin high env d = (inl tt, d', w) /\ exti_ok d'
    /\ (∀ i, 0 <= i < 16 -> latched d' i = latched d i || (bool_decide (i = pin) && triggers syscfg port pin high d))
    /\ ∀ w, 0 <= w -> w <> pr1 -> registerValue w (ex_block d') = registerValue w (ex_block d).
Proof.
  intros Hd Hp Hport. unfold notifyGpioEdge, triggers.
  rewrite (proj2 (Z.ltb_ge 15 pin)), (proj2 (Z.ltb_ge 6 port)) by lia. cbn [orb].
  set (routed := match syscfg with Some b => Syscfg.portForLine pin b =? port | None => true end).
  replace (match syscfg with Some b => _ | None => false end) with (negb routed)
    by (subst routed; destruct syscfg as [b|]; [|done]; pose proof (portForLine_range pin b);
        destruct (Z.eqb_spec (Syscfg.portForLine pin b) port), (Z.ltb_spec (Syscfg.portForLine pin b) 0); done || lia).
  assert (∀ P : Prop, P -> ∃ d' w, (skip : Dev ExtiPeripheral unit) env d = (inl tt, d', w) /\ exti_ok d'
    /\ (∀ i, 0 <= i < 16 -> latched d' i = latched d i || (bool_decide (i = pin) && false))
    /\ ∀ w, 0 <= w -> w <> pr1 -> registerValue w (ex_block d') = registerValue w (ex_block d)) as Hskip.
  { intros _ _. exists d, []. split_and!; try done. intros i Hi. by rewrite andb_false_r, orb_false_r. }
  destruct routed; cbn [negb andb]; [|by apply (Hskip True)].
  do 2 (erewrite bind_inl by reflexivity). cbn [block exti_has_block]. rewrite !has_testbit by lia.
  replace ((high && _) || (negb high && _)) with (Z.testbit (registerValue (if high then rtsr1 else ftsr1) (ex_block d)) pin)
    by (destruct high; cbn; by rewrite ?orb_false_r).
  destruct (Z.testbit (registerValue (if high then rtsr1 else ftsr1) (ex_block d)) pin); [|by apply (Hskip True)].
  erewrite bind_inl by reflexivity. erewrite bind_inl by reflexivity. erewrite bind_inl by reflexivity.
  erewrite bind_inl by reflexivity. cbn [block exti_has_block]. rewrite transition_block.
  set (d1 := with_block (set_register pr1 (registerValue pr1 (ex_block d) .| 1 .<< pin)) (transition pin LineEvent.request d)).
  assert (exti_mid d1) as Hm1 by (apply request_mid; [apply Hd|done]).
  destruct (update_run env d1 Hm1) as ([]&d'&w&E&Hok). rewrite E.
  pose proof (update_registers (fun w => registerValue w (ex_block d1)) env d1 (fun _ => eq_refl)) as Hr.
  rewrite E in Hr. destruct Hr as [Hr _]. eexists d', _. split; [done|]. split; [done|].
  assert (block_part (transition pin LineEvent.request d)) as Hbt by (unfold block_part; rewrite transition_block; apply Hd).
  split; [intros i Hi; unfold latched|intros w' Hw Hne]; rewrite Hr; subst d1.
  - rewrite set_same_bit, Z.lor_spec by done. f_equal. rewrite Z.shiftl_mul_pow2, Z.mul_1_l, andb_true_r by lia.
    case_bool_decide; [subst; by rewrite Z.pow2_bits_true by lia | by rewrite Z.pow2_bits_false by lia].
  - by rewrite set_other_bit, transition_block.
Qed.

(** *** Reset *)

Definition zeroed (d : ExtiPeripheral) : Prop := ∀ w, registerValue w (ex_block d) = 0.
Definition blank (d : ExtiPeripheral) : Prop := sized d /\ zeroed d.

Lemma set_level_blank line v d : blank d -> blank (with_block (set_level line v) d).
Proof. intros [[[Hb Hs] Hn] Hz]. split; [split; [split; [by apply set_level_ok|done]|done]|exact Hz]. Qed.

Lemma clear_levels_run (P : ExtiPeripheral -> Prop) : (∀ d, P d -> block_part d) ->
  (∀ line d, P d -> P (with_block (set_level line false) d)) ->
  runs P (for_each (fun line => setInterruptLevel line false) (seqZ 0 8))
    (fun _ d => P d /\ ∀ k, 0 <= k < 8 -> level k (ex_block d) = false).
Proof.
  intros HP Hset. set (J := fun k (d : ExtiPeripheral) => P d /\ ∀ i, 0 <= i < k -> level i (ex_block d) = false).
  apply (runs_conseq (J 0) _ _ (fun _ => J 8)); [|intros d Hd; split; [done|lia]|done].
  apply (runs_for_seq J); [lia|]. intros k Hk. apply runs_setInterruptLevel; intros d [Hd Hl] E.
  - apply orb_true_iff in E as [E%Z.leb_le|E%eqb_prop]; [lia|]. split; [done|]. intros i Hi.
    destruct (decide (i = k)) as [->|]; [done|]. apply Hl. lia.
  - split; [by apply Hset|]. intros i Hi. cbn [ex_block with_block exti_has_block].
    rewrite level_set by (apply (HP d Hd) || lia). destruct (Z.eqb_spec i k); [done|]. apply Hl. lia.
Qed.

Lemma resync_registers f : holds (fun d => ∀ w, registerValue w (ex_block d) = f w) resyncPendingLines (fun _ => True).
Proof.
  eapply holds_bind; [by apply (holds_get _ _ (fun _ => True))|]. intros ? _.
  eapply holds_bind; [by apply (holds_get _ _ (fun _ => True))|]. intros ? _.
  apply holds_for_each. intros line _. by apply holds_modify.
Qed.

Lemma reset_run : runs (fun d => sized d /\ rb_reset_values (ex_block d) = replicate 256 0) reset (fun _ => exti_ok).
Proof.
  unfold reset. apply (runs_bind _ _ _ (fun _ => blank)).
  { apply runs_modify. intros d [[[Hb Hs] Hn] Hz]. split.
    - split; [split; [by apply reset_registers_ok|done]|done].
    - intros w. unfold registerValue. cbn. destruct (aligned_register _ _); [|done]. rewrite Hz.
      unfold rget. destruct (replicate 256 0 !! Z.to_nat (w / 4)) eqn:E; [|done].
      by apply lookup_replicate in E as [-> _]. }
  intros []. apply (runs_bind _ _ _ (fun _ => blank)).
  { eapply runs_conseq; [apply (clear_levels_run blank)|done|by intros ? ? [? _]]; [by intros d [[? _] _]|intros line d; apply (set_level_blank line false)]. }
  intros []. cbn [onReset exti_hooks]. unfold exti_onReset. apply (runs_bind _ _ _ (fun _ d => exti_mid d /\ zeroed d)).
  { eapply runs_conseq; [eapply (runs_and_holds blank zeroed _ (fun _ => exti_mid)); [|apply (resync_registers (fun _ => 0))|by intros d [_ ?]]|done|].
    - eapply runs_conseq; [apply resync_run|by intros d [? _]|]. intros a d H. exact H.
    - intros a d H. exact H. }
  intros []. eapply runs_conseq; [apply (clear_levels_run (fun d => exti_mid d /\ zeroed d))|done|].
  - by intros d [[] _].
  - intros line d [Hm Hz]. split; [by apply set_level_mid|exact Hz].
  - intros [] d [[Hm Hz] Hl]. constructor; [done|]. intros k Hk. rewrite Hl by done.
    assert (∀ i, 0 <= i < 16 -> linePendingEnabled i d = false) as Hp.
    { intros i Hi. rewrite linePendingEnabled_spec by done. unfold latched. by rewrite Hz, Z.bits_0. }
    assert (∀ a b, 0 <= a -> b < 16 -> any_pending a b d = false) as Hany.
    { intros a b Ha Hb. unfold any_pending. apply not_true_is_false. intros (i&Hi&E)%existsb_exists.
      apply list_elem_of_In, elem_of_seqZ in Hi. rewrite Hp in E by lia. done. }
    unfold expected. destruct (Z.ltb_spec k 5); [by rewrite Hp by lia|]. rewrite !Hany by lia. by destruct (k =? 5), (k =? 6).
Qed.

Lemma exti_new_ok name loop trace env : exti_ok (exti_new name loop trace env).
Proof.
  unfold exti_new, construct. destruct (reset_run env (mkExti (block_init name 0x400 loop trace) (replicate 16 LineState.idle)))
    as (a&d&w&->&Hd); [|exact Hd].
  split; [|done]. split; [|done]. split; [|done]. apply block_init_ok. lia.
Qed.
End ExtiProofs.
