(* ===== verification/GpioExti.v ===== *)
(** * GPIO edges at the interrupt controller

    Models the edge callbacks that [Stm32G4::wireInterrupts] ([src/stm32g4/stm32g4.cpp]) installs
    on every port, and proves what a write to a port latches in the EXTI controller. *)

From S2P Require Import Prelude Address Common Trace CpuState CpuStateProofs.
From S2P Require Import Peripheral PeripheralProofs Gpio Exti.
#[local] Open Scope Z_scope.
#[local] Open Scope fil_scope.

(** The edge callback of port [port], run for every edge that an operation of the port reported. *)
Definition deliver_edges (syscfg : option RegBlock) (port : Z) (calls : list Effect) : Dev Exti.ExtiPeripheral unit :=
  for_each (fun e => match e with
                     | fx_gpio_edge pin high _ => Exti.notifyGpioEdge syscfg port pin high
                     | _ => skip
                     end) calls.

Import Gpio Exti GpioProofs ExtiProofs.

Definition edge_hit (syscfg : option RegBlock) (port : Z) (d : ExtiPeripheral) (line : Z) (e : Effect) : bool :=
  match e with
  | fx_gpio_edge pin high _ => (pin =? line) && triggers syscfg port pin high d
  | _ => false
  end.
Definition edge_on_port (e : Effect) : Prop := match e with fx_gpio_edge pin _ _ => 0 <= pin < 16 | _ => True end.

Lemma triggers_same syscfg port pin high d d' : (∀ w, 0 <= w -> w <> pr1 -> registerValue w (ex_block d') = registerValue w (ex_block d)) ->
  triggers syscfg port pin high d' = triggers syscfg port pin high d.
Proof. intros Hr. unfold triggers. rewrite Hr; [done| |]; by destruct high. Qed.

Lemma deliver_run syscfg port calls env d : exti_ok d -> 0 <= port <= 6 -> Forall edge_on_port calls ->
  ∃ d' w, deliver_edges syscfg port calls env d = (inl tt, d', w) /\ exti_ok d'
    /\ (∀ i, 0 <= i < 16 -> latched d' i = latched d i || existsb (edge_hit syscfg port d i) calls)
    /\ ∀ w, 0 <= w -> w <> pr1 -> registerValue w (ex_block d') = registerValue w (ex_block d).
Proof.
  intros Hd Hport Hall. revert d Hd. induction Hall as [|e calls He Hall IH]; intros d Hd.
  { exists d, []. split_and!; try done. intros i Hi. by rewrite orb_false_r. }
  unfold deliver_edges. cbn [for_each]. fold (deliver_edges syscfg port calls).
  assert (∃ d1 w, (match e with fx_gpio_edge pin high _ => notifyGpioEdge syscfg port pin high | _ => skip end) env d = (inl tt, d1, w)
    /\ exti_ok d1 /\ (∀ i, 0 <= i < 16 -> latched d1 i = latched d i || edge_hit syscfg port d i e)
    /\ ∀ w, 0 <= w -> w <> pr1 -> registerValue w (ex_block d1) = registerValue w (ex_block d)) as (d1&w1&E1&H1&L1&R1).
  { destruct e; try (exists d, []; split_and!; try done; intros i Hi; by rewrite orb_false_r).
    destruct (notify_run syscfg port pin high env d Hd He Hport) as (d1&w1&E&Hok&Hl&Hr). exists d1, w1. split_and!; try done.
    intros i Hi. rewrite Hl by done. unfold edge_hit. f_equal. f_equal.
    destruct (Z.eqb_spec pin i) as [->|]; [by apply bool_decide_eq_true_2|by apply bool_decide_eq_false_2; congruence]. }
  destruct (IH d1 H1) as (d2&w2&E2&H2&L2&R2). exists d2, (w1 ++ w2). split_and!; [|done| |].
  - rewrite (bind_inl _ _ _ _ _ _ _ E1). by rewrite E2.
  - intros i Hi. rewrite L2, L1 by done. cbn [existsb]. rewrite orb_assoc. f_equal. clear -R1.
    induction calls as [|e' calls IH]; [done|]. cbn. rewrite IH. f_equal. destruct e'; try done. cbn. by rewrite (triggers_same _ _ _ _ d d1).
  - intros w Hw Hne. by rewrite R2, R1.
Qed.

(** The edges that one output change reports. *)
Lemma port_edges syscfg port x env d a b l l' i : gp_edge_callback d = true -> 0 <= i < 16 ->
  existsb (edge_hit syscfg port x i) (mbind (pin_effects env d a b l l') (seqZ 0 16))
  = negb (Bool.eqb (Z.testbit l i) (Z.testbit l' i)) && triggers syscfg port i (Z.testbit l' i) x.
Proof.
  intros He Hi. apply eq_bool_prop_intro. split.
  - intros (e&Hin&Ht)%Is_true_true%existsb_exists. apply list_elem_of_In in Hin. destruct e; try done.
    apply edge_calls in Hin as (Hp&_&Hne&->&_). cbn in Ht. apply andb_true_iff in Ht as [->%Z.eqb_eq Ht].
    apply Is_true_true. rewrite Ht, andb_true_r. by apply negb_true_iff, eqb_false_iff.
  - intros [Hne%negb_true_iff%eqb_false_iff Ht]%Is_true_true%andb_true_iff. apply Is_true_true, existsb_exists.
    exists (fx_gpio_edge i (Z.testbit l' i) (current_time env (gp_block d))). split.
    + apply list_elem_of_In, edge_calls. split_and!; done || lia.
    + cbn. by rewrite Z.eqb_refl, Ht.
Qed.
Lemma port_edges_range env d a b l l' : Forall edge_on_port (mbind (pin_effects env d a b l l') (seqZ 0 16)).
Proof. apply Forall_forall. intros e He. destruct e; try done. by apply edge_calls in He as [? _]. Qed.
