(* ===== verification/Flash.v ===== *)
(** * Flash control and power control

    Models [FlashPeripheral] ([src/stm32g4/flash.cpp] and the inline members of
    [include/fil/stm32g4/peripheral.hpp]) and [PwrPeripheral] ([src/stm32g4/pwr.cpp]).  Whether
    the installed backing erases a page is decided outside, so it is the class [PageErase]. *)

From S2P Require Import Prelude Address Common Trace CpuState CpuStateProofs.
From S2P Require Import Peripheral PeripheralProofs.
#[local] Open Scope Z_scope.
#[local] Open Scope fil_scope.

(** The result of the installed [PageEraseCallback]: [true] when it returns no error. *)
Class PageErase := { erase_succeeds : Z -> Z -> bool }.

Module Flash.
Definition acr : Z := 0x00.
Definition keyr : Z := 0x08.
Definition optkeyr : Z := 0x0c.
Definition sr : Z := 0x10.
Definition cr : Z := 0x14.
Definition busy : Z := 1 .<< 16.
Definition lock : Z := 1 .<< 31.
Definition option_lock : Z := 1 .<< 30.
Definition per : Z := 1 .<< 1.
Definition bker : Z := 1 .<< 11.
Definition strt : Z := 1 .<< 16.
Definition eop : Z := 1 .<< 0.
Definition flash_unlock_key1 : Z := 0x45670123.
Definition flash_unlock_key2 : Z := 0xcdef89ab.
Definition option_unlock_key1 : Z := 0x08192a3b.
Definition option_unlock_key2 : Z := 0x4c5d6e7f.

Definition pageNumberFromControl (control : Z) : Z := (control .>> 3) .& 0x7f.

Module KeySequence.
Inductive t := idle | first_key_seen.
#[global] Instance eq_dec : EqDecision t.
Proof. solve_decision. Defined.
End KeySequence.

Record FlashPeripheral := mkFlash {
  fl_block : RegBlock;
  fl_key_sequence : KeySequence.t;
  fl_option_key_sequence : KeySequence.t;
  fl_acr : Z;
  fl_acr_generation : Z;
  fl_page_erase_callback : bool;
  fl_flash_base : Z;
  fl_page_size : Z;
  fl_bank_size : Z;
}.
#[global] Instance flash_has_block : HasBlock FlashPeripheral :=
  {| block := fl_block; with_block f d := {| d with fl_block := f (fl_block d) |} |}.
#[global] Instance flash_has_block_laws : HasBlockLaws FlashPeripheral.
Proof. constructor; [done|]. intros f g [] E. cbn in *. by rewrite E. Qed.

(** *** Timing of instruction fetches *)

Definition waitStates (d : FlashPeripheral) : Z := fl_acr d .& 0x7.
Definition prefetchEnabled (d : FlashPeripheral) : bool := has (fl_acr d) (1 .<< 8).
Definition instructionCacheEnabled (d : FlashPeripheral) : bool := has (fl_acr d) (1 .<< 9).
Definition requiredWaitStates (hclk_hz : Z) : Z :=
  if hclk_hz <=? 30000000 then 0
  else if hclk_hz <=? 60000000 then 1
  else if hclk_hz <=? 90000000 then 2
  else if hclk_hz <=? 120000000 then 3 else 4.
Definition isFlashAddress (address : Z) (d : FlashPeripheral) : bool :=
  if (fl_flash_base d <=? address) && (address <? u32 (fl_flash_base d + fl_bank_size d)) then true
  else address <? fl_bank_size d.
Definition fetchStallCycles (pc : Z) (sequential : bool) (d : FlashPeripheral) : Z :=
  if negb (isFlashAddress pc d) then 0
  else
    let wait := waitStates d in
    if wait =? 0 then 0
    else if sequential && (prefetchEnabled d || instructionCacheEnabled d) then 0 else wait.

(** *** Registers *)

Definition setEraseGeometry (flash_base page_size bank_size : Z) (d : FlashPeripheral) : FlashPeripheral :=
  {| d with fl_flash_base := flash_base; fl_page_size := page_size; fl_bank_size := bank_size |}.

(** [advanceKeySequence]: the new position, and whether the second key completed the sequence. *)
Definition advanceKeySequence (sequence : KeySequence.t) (value first_key second_key : Z) : KeySequence.t * bool :=
  let restart := if value =? first_key then KeySequence.first_key_seen else KeySequence.idle in
  match sequence with
  | KeySequence.first_key_seen => if value =? second_key then (KeySequence.idle, true) else (restart, false)
  | KeySequence.idle => (restart, false)
  end.

(** [++acr_generation_; if (acr_generation_ == 0U) acr_generation_ = 1U]. *)
Definition next_generation (generation : Z) : Z :=
  let g := u64 (generation + 1) in if g =? 0 then 1 else g.

Definition acr_writable : Z := 0x7 .| (1 .<< 8) .| (1 .<< 9) .| (1 .<< 10) .| (1 .<< 11) .| (1 .<< 12).
Definition acr_timing : Z := 0x7 .| (1 .<< 8) .| (1 .<< 9) .| (1 .<< 10).

Section device.
Context `{PageErase}.

Definition performPageErase (control : Z) : Dev FlashPeripheral unit :=
  status ← regValue sr;
  setRegister sr (status .| busy);;
  let bank := if has control bker then 1 else 0 in
  let page := pageNumberFromControl control in
  d ← get id;
  let page_base := u32 (fl_flash_base d + bank * fl_bank_size d + page * fl_page_size d) in
  (if fl_page_erase_callback d then emit (fx_page_erase page_base (fl_page_size d)) else skip);;
  let succeeded := if fl_page_erase_callback d then erase_succeeds page_base (fl_page_size d) else true in
  status ← regValue sr;
  if (succeeded : bool) then setRegister sr ((status .& not32 busy) .| eop)
  else setRegister sr (status .& not32 busy).

Definition flash_loadRegister (word_offset : Z) (c : AccessContext) : Dev FlashPeripheral Z :=
  if (word_offset =? keyr) || (word_offset =? optkeyr) then mret 0
  else
    (if word_offset =? sr then status ← regValue sr; setRegister sr (status .& not32 busy) else skip);;
    regValue word_offset.

Definition store_acr (previous value write_mask : Z) : Dev FlashPeripheral unit :=
  let masked := value .& acr_writable .& write_mask in
  let next := (previous .& not32 (acr_writable .& write_mask)) .| (masked .& not32 ((1 .<< 11) .| (1 .<< 12))) in
  setRegister acr next;;
  modify (fun d : FlashPeripheral => {| d with fl_acr := next |});;
  if has (previous .^ next) acr_timing
  then modify (fun d : FlashPeripheral => {| d with fl_acr_generation := next_generation (fl_acr_generation d) |})
  else skip.

Definition flash_storeRegister (word_offset previous value write_mask : Z) (c : AccessContext) : Dev FlashPeripheral unit :=
  if word_offset =? acr then store_acr previous value write_mask
  else if word_offset =? keyr then
    sequence ← get fl_key_sequence;
    let '(next, done) := advanceKeySequence sequence value flash_unlock_key1 flash_unlock_key2 in
    modify (fun d : FlashPeripheral => {| d with fl_key_sequence := next |});;
    (if (done : bool) then control ← regValue cr; setRegister cr (control .& not32 lock) else skip);;
    setRegister keyr 0
  else if word_offset =? optkeyr then
    sequence ← get fl_option_key_sequence;
    let '(next, done) := advanceKeySequence sequence value option_unlock_key1 option_unlock_key2 in
    modify (fun d : FlashPeripheral => {| d with fl_option_key_sequence := next |});;
    (if (done : bool) then control ← regValue cr; setRegister cr (control .& not32 option_lock) else skip);;
    setRegister optkeyr 0
  else if word_offset =? sr then setRegister sr ((previous .& not32 (value .& write_mask)) .& not32 busy)
  else if (word_offset =? cr) && has previous lock then setRegister cr previous
  else if word_offset =? cr then
    setRegister cr value;;
    if has value per && has value strt then performPageErase value else skip
  else skip.

Definition flash_onReset : Dev FlashPeripheral unit :=
  value ← regValue acr;
  modify (fun d : FlashPeripheral =>
    {| d with fl_key_sequence := KeySequence.idle; fl_option_key_sequence := KeySequence.idle;
              fl_acr := value; fl_acr_generation := next_generation (fl_acr_generation d) |});;
  status ← regValue sr;
  setRegister sr (status .& not32 busy).

#[global] Instance flash_hooks : RegisterHooks FlashPeripheral :=
  {| loadRegister := flash_loadRegister; storeRegister := flash_storeRegister; onReset := flash_onReset |}.

Definition flash_new (loop trace : bool) (env : Env) : FlashPeripheral :=
  let b := block_init "FLASH" 0x40 loop trace in
  let b := setResetValue acr 0x00040601 b in
  let b := setResetValue cr (lock .| option_lock) b in
  construct env (mkFlash b KeySequence.idle KeySequence.idle 0 1 false 0x08000000 4096 (512 * 1024)).
End device.
End Flash.

Module Pwr.
Definition pwr_loadRegister (word_offset : Z) (c : AccessContext) : Dev RegBlock Z :=
  value ← regValue word_offset;
  if word_offset =? 0x14 then
    let value := value .& not32 (1 .<< 10) in
    setRegister word_offset value;;
    mret value
  else mret value.
Definition pwr_hooks : RegisterHooks RegBlock :=
  {| loadRegister := pwr_loadRegister; storeRegister _ _ _ _ _ := skip; onReset := skip |}.
Definition pwr_new (loop trace : bool) (env : Env) : RegBlock :=
  let b := block_init "PWR" 0x84 loop trace in
  let b := setResetValue 0x00 (1 .<< 9) b in
  let b := setResetValue 0x80 (1 .<< 8) b in
  @construct _ block_self pwr_hooks env b.
End Pwr.

(** ** The lock *)

Module FlashProofs.
Import Flash.
Section locked.
Context `{PageErase}.

(** The state while the control register is locked: its content, and where the key sequence is. *)
Record locked (control : Z) (k : KeySequence.t) (d : FlashPeripheral) : Prop := mk_locked {
  lk_block : block_ok (fl_block d);
  lk_size : rb_block_size (fl_block d) = 0x40;
  lk_control : registerValue cr (fl_block d) .& not32 option_lock = control .& not32 option_lock;
  lk_lock : has (registerValue cr (fl_block d)) lock = true;
  lk_key : fl_key_sequence d = k;
}.

(** The key position after a word write. *)
Definition next_key (w v : Z) (k : KeySequence.t) : KeySequence.t :=
  if w =? keyr then fst (advanceKeySequence k v flash_unlock_key1 flash_unlock_key2) else k.
(** The write that unlocks. *)
Definition completes (w v : Z) (k : KeySequence.t) : bool :=
  (w =? keyr) && snd (advanceKeySequence k v flash_unlock_key1 flash_unlock_key2).

Lemma locked_set w v control k d : 0 <= w -> w <> cr -> is_u32 v -> locked control k d ->
  locked control k (with_block (set_register w v) d).
Proof.
  intros Hw Hne Hv [Hb Hs Hc Hl Hk].
  assert (registerValue cr (set_register w v (fl_block d)) = registerValue cr (fl_block d)) as E by by apply registerValue_set_ne.
  constructor; cbn; rewrite ?E; try done; [by apply set_register_ok|]. unfold set_register. by destruct (aligned_register _ _).
Qed.

(** The option lock does not matter for the control lock. *)
Lemma locked_option control k d x : locked control k d -> x = registerValue cr (fl_block d) .& not32 option_lock ->
  locked control k (with_block (set_register cr x) d).
Proof.
  intros [Hb Hs Hc Hl Hk] ->. set (x := _ .& _).
  assert (registerValue cr (set_register cr x (fl_block d)) = x) as E.
  { apply registerValue_set_eq; [done| |done]. unfold aligned_register. by rewrite Hs. }
  constructor; cbn; rewrite ?E; try done.
  - apply set_register_ok; [done|]. subst x. pose proof (registerValue_range cr _ Hb). u32_auto.
  - unfold set_register. by destruct (aligned_register _ _).
  - subst x. by rewrite <- Hc, <- Z.land_assoc.
  - subst x. rewrite has_land. by change (not32 option_lock .& lock) with lock.
Qed.
Lemma locked_other control k d d' : locked control k d -> fl_block d' = fl_block d -> locked control (fl_key_sequence d') d'.
Proof. intros [Hb Hs Hc Hl Hk] E. constructor; rewrite ?E; done. Qed.

(** A hook program that emits nothing and keeps the lock. *)
Definition quiet (control : Z) (k k' : KeySequence.t) (m : Dev FlashPeripheral unit) : Prop :=
  ∀ env d, locked control k d -> ∃ d', m env d = (inl tt, d', []) /\ locked control k' d'.
Lemma quiet_bind control k k1 k2 m n : quiet control k k1 m -> quiet control k1 k2 n -> quiet control k k2 (m;; n).
Proof.
  intros Hm Hn env d Hd. destruct (Hm env d Hd) as (d1&E1&H1). destruct (Hn env d1 H1) as (d2&E2&H2).
  exists d2. split; [|done]. rewrite (bind_inl _ _ _ _ _ _ _ E1), E2. done.
Qed.
Lemma quiet_get {A} control k k' (f : FlashPeripheral -> A) m :
  (∀ env d, locked control k d -> ∃ d', m (f d) env d = (inl tt, d', []) /\ locked control k' d') ->
  quiet control k k' (get f ≫= m).
Proof.
  intros Hm env d Hd. destruct (Hm env d Hd) as (d'&E&H'). exists d'. split; [|done].
  erewrite bind_inl by reflexivity. by rewrite E.
Qed.
Lemma quiet_skip control k : quiet control k k skip.
Proof. intros env d Hd. by exists d. Qed.
Lemma quiet_set control k w v : 0 <= w -> w <> cr -> is_u32 v -> quiet control k k (setRegister w v).
Proof. intros Hw Hne Hv env d Hd. eexists. split; [done|]. by apply locked_set. Qed.
Lemma quiet_modify control k k' f : (∀ d, fl_block (f d) = fl_block d) -> (∀ d, fl_key_sequence d = k -> fl_key_sequence (f d) = k') ->
  quiet control k k' (modify f).
Proof.
  intros Hf Hk env d Hd. eexists. split; [done|]. rewrite <- (Hk d) by apply Hd. by eapply locked_other.
Qed.

Lemma acr_quiet control k previous value mask : is_u32 previous -> is_u32 value -> quiet control k k (store_acr previous value mask).
Proof.
  intros Hp Hv. unfold store_acr. apply (quiet_bind _ k k k); [apply quiet_set; [done|done|u32_auto]|].
  apply (quiet_bind _ k k k); [by apply quiet_modify|]. destruct (has _ _); [by apply quiet_modify|apply quiet_skip].
Qed.

Lemma flash_store_quiet control k w previous value c : 0 <= w -> is_u32 previous -> is_u32 value ->
  w <> cr -> completes w value k = false ->
  quiet control k (next_key w value k) (flash_storeRegister w previous value 0xffffffff c).
Proof.
  intros Hw Hp Hv Hne Hc. unfold flash_storeRegister, next_key, completes in *.
  rewrite (proj2 (Z.eqb_neq w cr)) by done. cbn [andb].
  destruct (Z.eqb_spec w acr) as [->|]; [by apply acr_quiet|].
  destruct (Z.eqb_spec w keyr) as [->|].
  { apply quiet_get. intros env d Hd. rewrite (lk_key _ _ _ Hd). cbn [andb] in Hc. revert env d Hd.
    destruct (advanceKeySequence k value flash_unlock_key1 flash_unlock_key2) as [next fin]. cbn in Hc. subst fin. cbn [fst].
    apply (quiet_bind _ k next next); [by apply quiet_modify|].
    apply (quiet_bind _ next next next); [apply quiet_skip|]. by apply quiet_set. }
  destruct (Z.eqb_spec w optkeyr) as [->|].
  { apply quiet_get. intros env d Hd. destruct (advanceKeySequence (fl_option_key_sequence d) _ _ _) as [next fin]. revert env d Hd.
    apply (quiet_bind _ k k k); [by apply quiet_modify|]. apply (quiet_bind _ k k k); [|by apply quiet_set].
    destruct fin; [|apply quiet_skip]. apply quiet_get. intros env d Hd. eexists. split; [done|]. by apply locked_option. }
  destruct (Z.eqb_spec w sr) as [->|]; [apply quiet_set; [done|done|u32_auto]|]. apply quiet_skip.
Qed.

(** Word writes to a locked controller. *)
Lemma flash_write_locked w v c env control k d : register_of 0x40 w -> is_u32 v -> locked control k d ->
  completes w v k = false ->
  ∃ d', write w AccessSize.word v c env d = (inl (inl 0), d', []) /\ locked control (next_key w v k) d'.
Proof.
  intros [Hw Ha] Hv Hd Hc. pose proof (lk_size _ _ _ Hd) as Hs.
  assert (aligned_register w (fl_block d) = true) as Hal.
  { unfold aligned_register. rewrite Hs, Ha. apply andb_true_iff. split; [done|]. apply Z.ltb_lt. lia. }
  assert (w + 4 <= 0x40) as Hend by (rewrite low_two_bits in Ha; pose proof (Z.div_mod w 4); lia).
  rewrite write_word; [|apply Hd|done|lia|cbn; lia]. cbn [block flash_has_block storeRegister flash_hooks].
  rewrite u32_small by done. pose proof (registerValue_range w _ (lk_block _ _ _ Hd)) as Hp.
  destruct (decide (w = cr)) as [->|Hne].
  - (* the stored image is undone *)
    set (d1 := with_block (set_register cr v) d).
    exists (with_block (set_register cr (registerValue cr (fl_block d))) d1). split.
    + unfold flash_storeRegister. change (cr =? acr) with false. change (cr =? keyr) with false.
      change (cr =? optkeyr) with false. change (cr =? sr) with false. change (cr =? cr) with true.
      by rewrite (lk_lock _ _ _ Hd).
    + destruct Hd as [Hb _ Hcr Hl Hk].
      assert (block_ok (set_register cr v (fl_block d))) as Hb1 by by apply set_register_ok.
      assert (aligned_register cr (set_register cr v (fl_block d)) = true) as Hal1.
      { unfold set_register. by rewrite Hal. }
      assert (registerValue cr (set_register cr (registerValue cr (fl_block d)) (set_register cr v (fl_block d)))
              = registerValue cr (fl_block d)) as E by by apply registerValue_set_eq.
      constructor; cbn; rewrite ?E; try done; [by apply set_register_ok|].
      unfold set_register. rewrite Hal. by destruct (aligned_register _ _).
  - destruct (flash_store_quiet control k w (registerValue w (fl_block d)) v c ltac:(lia) Hp Hv Hne Hc env
      (with_block (set_register w v) d)) as (d'&E&H'); [by apply locked_set; [lia|..]|].
    rewrite E. by exists d'.
Qed.

(** *** Sequences of writes *)

(** The key position after a sequence of writes, [None] once the sequence unlocks. *)
Fixpoint key_after (k : KeySequence.t) (writes : list (Z * Z)) : option KeySequence.t :=
  match writes with
  | [] => Some k
  | (w, v) :: writes => if completes w v k then None else key_after (next_key w v k) writes
  end.

Definition write_all (c : AccessContext) (writes : list (Z * Z)) : Dev FlashPeripheral unit :=
  for_each (fun a => _ ← write (fst a) AccessSize.word (snd a) c; skip) writes.

Lemma flash_writes_locked c writes env control k k' d :
  Forall (fun a => register_of 0x40 (fst a) /\ is_u32 (snd a)) writes -> locked control k d ->
  key_after k writes = Some k' ->
  ∃ d', write_all c writes env d = (inl tt, d', []) /\ locked control k' d'.
Proof.
  intros Hw. revert k d. induction Hw as [|[w v] writes [Hr Hv] Hw IH]; intros k d Hd Hk; cbn [key_after] in Hk.
  { injection Hk as <-. by exists d. }
  destruct (completes w v k) eqn:Hc; [done|].
  destruct (flash_write_locked w v c env control k d Hr Hv Hd Hc) as (d1&E1&H1).
  destruct (IH _ _ H1 Hk) as (d2&E2&H2). exists d2. split; [|done]. unfold write_all in *. cbn [for_each fst snd].
  rewrite (bind_inl _ _ _ _ tt d1 []); [|by erewrite bind_inl by exact E1]. by rewrite E2.
Qed.

(** Both keys in a row among the writes to the key register. *)
Definition key_writes (writes : list (Z * Z)) : list Z := snd <$> filter (fun a => fst a = keyr) writes.
Fixpoint keys_in_a_row (l : list Z) : bool :=
  match l with
  | a :: ((b :: _) as rest) => ((a =? flash_unlock_key1) && (b =? flash_unlock_key2)) || keys_in_a_row rest
  | _ => false
  end.

(** The key write that a position stands for. *)
Definition seen_key (k : KeySequence.t) : list Z :=
  match k with KeySequence.first_key_seen => [flash_unlock_key1] | KeySequence.idle => [] end.

Lemma keys_pair a b l : keys_in_a_row (a :: b :: l)
  = ((a =? flash_unlock_key1) && (b =? flash_unlock_key2)) || keys_in_a_row (b :: l).
Proof. done. Qed.
Lemma keys_other v l : v <> flash_unlock_key1 -> keys_in_a_row (v :: l) = keys_in_a_row l.
Proof.
  intros Hv. destruct l as [|b l]; [done|]. cbn [keys_in_a_row].
  rewrite (proj2 (Z.eqb_neq v flash_unlock_key1)) by done. done.
Qed.

Lemma key_after_none k writes :
  key_after k writes = None <->
  keys_in_a_row (seen_key k ++ key_writes writes) = true.
Proof.
  revert k. induction writes as [|[w v] writes IH]; intros k.
  { destruct k; cbn; done. }
  cbn [key_after]. unfold key_writes. rewrite filter_cons. cbn [fst]. unfold completes, next_key.
  destruct (decide (w = keyr)) as [->|Hne].
  - change (keyr =? keyr) with true. cbn [andb fmap list_fmap snd]. fold (key_writes writes).
    destruct k; cbn [advanceKeySequence].
    + cbn [snd fst]. rewrite IH. destruct (Z.eqb_spec v flash_unlock_key1) as [->|Hv]; [done|].
      cbn [seen_key app]. by rewrite keys_other.
    + cbn [seen_key app].
      destruct (Z.eqb_spec v flash_unlock_key2) as [->|Hv]; cbn [snd fst]; [done|]. rewrite IH.
      rewrite keys_pair, (proj2 (Z.eqb_neq v flash_unlock_key2)) by done. rewrite andb_false_r. cbn [orb].
      destruct (Z.eqb_spec v flash_unlock_key1) as [->|Hv1]; [done|]. by rewrite keys_other.
  - rewrite (proj2 (Z.eqb_neq w keyr)) by done. cbn [andb]. apply IH.
Qed.

(** The controller comes out of its constructor locked. *)
Lemma flash_new_locked loop trace env : locked (lock .| option_lock) KeySequence.idle (flash_new loop trace env).
Proof.
  set (b := setResetValue cr (lock .| option_lock) (setResetValue acr 0x00040601 (block_init "FLASH" 0x40 loop trace))).
  assert (block_ok b) as Hb.
  { repeat apply setResetValue_ok; [|width_lia|vm_compute; split; congruence]. apply block_init_ok. lia. }
  apply (construct_block (locked (lock .| option_lock) KeySequence.idle)).
  - constructor; cbn [fl_block fl_key_sequence with_block flash_has_block]; [by apply reset_registers_ok|..]; reflexivity.
  - intros line d [Hd Hs Hc Hl Hk]. constructor; cbn; try done. by apply set_level_ok.
  - cbn [onReset flash_hooks]. unfold flash_onReset.
    set (I := locked _ _). eapply (holds_bind I _ _ is_u32); [apply holds_regValue; intros d Hd; apply Hd|]. intros v Hv.
    eapply holds_bind; [apply holds_modify; intros d [Hd Hs Hc Hl Hk]; by constructor|]. intros _ _.
    eapply (holds_bind I _ _ is_u32); [apply holds_regValue; intros d Hd; apply Hd|]. intros st Hst.
    apply holds_modify. intros d Hd. apply locked_set; try done. u32_auto.
Qed.
End locked.
End FlashProofs.
