(* ===== verification/Rcc.v ===== *)
(** * Reset and clock control

    Models [RccPeripheral] of [src/stm32g4/rcc.cpp]: oscillator ready bits, the clock tree, and
    the notifications of clock changes. *)

From stdpp Require Import pretty sets.
From S2P Require Import Prelude Address Common Trace CpuState CpuStateProofs.
From S2P Require Import Peripheral PeripheralProofs.
#[local] Open Scope Z_scope.
#[local] Open Scope fil_scope.

Module Rcc.
Definition cr : Z := 0x00.
Definition cfgr : Z := 0x08.
Definition pllcfgr : Z := 0x0c.
Definition cifr : Z := 0x1c.
Definition cicr : Z := 0x20.
Definition ahb2rstr : Z := 0x2c.
Definition ahb2enr : Z := 0x4c.
Definition ccipr : Z := 0x88.
Definition bdcr : Z := 0x90.
Definition csr : Z := 0x94.
Definition crrcr : Z := 0x98.
Definition msion : Z := 1 .<< 0.
Definition msirdy : Z := 1 .<< 1.
Definition hsion : Z := 1 .<< 8.
Definition hsirdy : Z := 1 .<< 10.
Definition hseon : Z := 1 .<< 16.
Definition hserdy : Z := 1 .<< 17.
Definition pllon : Z := 1 .<< 24.
Definition pllrdy : Z := 1 .<< 25.

Record RccPeripheral := mkRcc {
  rc_block : RegBlock;
  rc_hse_present : bool;
  rc_hse_hz : Z;
  rc_system_clock_hz : Z;
  rc_hclk_hz : Z;
  rc_adc12_clock_hz : Z;
  rc_adc345_clock_hz : Z;
  rc_adc12_enabled : bool;
  rc_adc345_enabled : bool;
  rc_hpre_div1_allowed : bool;
  rc_clock_changed : bool;        (* callbacks that are installed *)
  rc_adc_clock_changed : bool;
  rc_adc_reset_changed : bool;
}.
#[global] Instance rcc_has_block : HasBlock RccPeripheral :=
  {| block := rc_block; with_block f d := {| d with rc_block := f (rc_block d) |} |}.
#[global] Instance rcc_has_block_laws : HasBlockLaws RccPeripheral.
Proof. constructor; [done|]. intros f g [] E. cbn in *. by rewrite E. Qed.

(** [(value & ~ready) | (on ? ready : 0)]. *)
Definition with_ready (value ready : Z) (on : bool) : Z := (value .& not32 ready) .| (if on then ready else 0).

(** The ready bits the code computes for an oscillator register. *)
Definition ready_cr (present : bool) (value : Z) : Z :=
  let value := with_ready value msirdy (has value msion) in
  let value := with_ready value hsirdy (has value hsion) in
  let value := with_ready value hserdy (has value hseon && present) in
  with_ready value pllrdy (has value pllon).
Definition ready_low (value : Z) : Z := with_ready value (1 .<< 1) (has value 1).

Definition updateClockReadyBits : Dev RccPeripheral unit :=
  value ← regValue cr;
  present ← get rc_hse_present;
  setRegister cr (ready_cr present value);;
  backup ← regValue bdcr;
  setRegister bdcr (ready_low backup);;
  low_speed ← regValue csr;
  setRegister csr (ready_low low_speed);;
  hsi48 ← regValue crrcr;
  setRegister crrcr (ready_low hsi48).

Definition pllClockHz (d : RccPeripheral) : Z :=
  let config := registerValue pllcfgr (rc_block d) in
  let source_selector := config .& 0x3 in
  let source_hz := if source_selector =? 1 then 4000000
                   else if source_selector =? 2 then 16000000
                   else if source_selector =? 3 then rc_hse_hz d else 0 in
  if source_hz =? 0 then 16000000
  else
    let divider_m := ((config .>> 4) .& 0x0f) + 1 in
    let multiplier_n := Z.max ((config .>> 8) .& 0x7f) 1 in
    let divider_r := 2 * (((config .>> 25) .& 0x3) + 1) in
    u64 ((source_hz / divider_m) * multiplier_n) / divider_r.

Definition hpre (d : RccPeripheral) : Z := (registerValue cfgr (rc_block d) .>> 4) .& 0x0f.
Definition divisors : list Z := [1; 1; 1; 1; 1; 1; 1; 1; 2; 4; 8; 16; 64; 128; 256; 512].
Definition hclkClockHz (d : RccPeripheral) : Z := rc_system_clock_hz d / rget divisors (hpre d).

Definition adcKernelClockHz (selector : Z) (d : RccPeripheral) : Z :=
  if (selector =? 0) || (selector =? 3) then 0
  else if selector =? 2 then rc_system_clock_hz d
  else
    let config := registerValue pllcfgr (rc_block d) in
    let source_selector := config .& 0x3 in
    let oscillator_state := registerValue cr (rc_block d) in
    if negb (has config (1 .<< 16)) || negb (oscillator_state .& (pllon .| pllrdy) =? (pllon .| pllrdy)) then 0
    else
      let source_hz := if (source_selector =? 2) && has oscillator_state hsirdy then 16000000 else 0 in
      let source_hz := if (source_selector =? 3) && has oscillator_state hserdy then rc_hse_hz d else source_hz in
      if source_hz =? 0 then 0
      else
        let divider_m := ((config .>> 4) .& 0x0f) + 1 in
        let multiplier_n := Z.max ((config .>> 8) .& 0x7f) 1 in
        let p_divider := (config .>> 27) .& 0x1f in
        if p_divider =? 1 then 0
        else
          let p_divider := if p_divider =? 0 then (if has config (1 .<< 17) then 17 else 7) else p_divider in
          u64 (source_hz * multiplier_n) / (divider_m * p_divider).

Definition adc12_gate (d : RccPeripheral) : bool := has (registerValue ahb2enr (rc_block d)) (1 .<< 13).
Definition adc345_gate (d : RccPeripheral) : bool := has (registerValue ahb2enr (rc_block d)) (1 .<< 14).
Definition div1_allowed (d : RccPeripheral) : bool := hpre d <? 8.
Definition adc12_kernel (d : RccPeripheral) : Z :=
  adcKernelClockHz ((registerValue ccipr (rc_block d) .>> 28) .& 0x3) d.
Definition adc345_kernel (d : RccPeripheral) : Z :=
  adcKernelClockHz ((registerValue ccipr (rc_block d) .>> 30) .& 0x3) d.

Definition updateAdcClocks (force_callback : bool) : Dev RccPeripheral unit :=
  previous_hclk ← get rc_hclk_hz;
  modify (fun d : RccPeripheral => {| d with rc_hclk_hz := hclkClockHz d |});;
  d ← get id;
  if (negb force_callback && (previous_hclk =? rc_hclk_hz d)
      && (adc12_kernel d =? rc_adc12_clock_hz d) && (adc345_kernel d =? rc_adc345_clock_hz d)
      && Bool.eqb (adc12_gate d) (rc_adc12_enabled d) && Bool.eqb (adc345_gate d) (rc_adc345_enabled d)
      && Bool.eqb (div1_allowed d) (rc_hpre_div1_allowed d) : bool) then skip
  else
    modify (fun d : RccPeripheral =>
      {| d with rc_adc12_clock_hz := adc12_kernel d; rc_adc345_clock_hz := adc345_kernel d;
                rc_adc12_enabled := adc12_gate d; rc_adc345_enabled := adc345_gate d;
                rc_hpre_div1_allowed := div1_allowed d |});;
    d ← get id;
    if (rc_adc_clock_changed d : bool)
    then emit (fx_adc_clock_changed (rc_hclk_hz d) (rc_adc12_clock_hz d) (rc_adc345_clock_hz d)
                 (rc_adc12_enabled d) (rc_adc345_enabled d) (rc_hpre_div1_allowed d))
    else skip.

Definition updateAdcResets : Dev RccPeripheral unit :=
  d ← get id;
  if (negb (rc_adc_reset_changed d) : bool) then skip
  else
    let resets := registerValue ahb2rstr (rc_block d) in
    emit (fx_adc_reset_changed (has resets (1 .<< 13)) (has resets (1 .<< 14))).

(** The frequency that the clock switch selects. *)
Definition selected_clock (d : RccPeripheral) : Z :=
  let selected := registerValue cfgr (rc_block d) .& 0x3 in
  if selected =? 0 then 4000000
  else if (selected =? 2) && rc_hse_present d then rc_hse_hz d
  else if selected =? 3 then pllClockHz d else 16000000.

Definition trace_clock (frequency_hz : Z) : Dev RccPeripheral unit :=
  traceEvent "clock_change" [("frequency_hz", pretty frequency_hz)].

Definition updateSystemClock : Dev RccPeripheral unit :=
  d ← get id;
  let next_clock := selected_clock d in
  if ((next_clock =? 0) || (next_clock =? rc_system_clock_hz d) : bool) then skip
  else
    modify (fun d : RccPeripheral => {| d with rc_system_clock_hz := next_clock |});;
    trace_clock next_clock;;
    if (rc_clock_changed d : bool) then emit (fx_clock_changed next_clock) else skip.

Definition is_oscillator (w : Z) : bool := (w =? cr) || (w =? bdcr) || (w =? csr) || (w =? crrcr).
Definition is_clock_tree (w : Z) : bool := (w =? cr) || (w =? cfgr) || (w =? pllcfgr).
Definition is_adc_clock (w : Z) : bool := is_clock_tree w || (w =? ccipr) || (w =? ahb2enr).

Definition rcc_storeRegister (word_offset previous value write_mask : Z) (c : AccessContext) : Dev RccPeripheral unit :=
  (if is_oscillator word_offset then updateClockReadyBits
   else if word_offset =? cfgr then
     let selected := value .& 0x3 in
     setRegister cfgr ((value .& not32 0x0c) .| selected .<< 2)
   else if word_offset =? cicr then
     flags ← regValue cifr;
     setRegister cifr (flags .& not32 value);;
     setRegister cicr 0
   else skip);;
  (if is_clock_tree word_offset then updateSystemClock else skip);;
  (if is_adc_clock word_offset then updateAdcClocks false else skip);;
  (if word_offset =? ahb2rstr then updateAdcResets else skip).

Definition rcc_onReset : Dev RccPeripheral unit :=
  previous_clock ← get rc_system_clock_hz;
  modify (fun d : RccPeripheral =>
    {| d with rc_system_clock_hz := 16000000; rc_hclk_hz := 16000000;
              rc_adc12_clock_hz := 0; rc_adc345_clock_hz := 0 |});;
  updateClockReadyBits;;
  updateAdcClocks true;;
  updateAdcResets;;
  d ← get id;
  if (negb (previous_clock =? rc_system_clock_hz d) && rc_clock_changed d : bool) then
    trace_clock (rc_system_clock_hz d);;
    emit (fx_clock_changed (rc_system_clock_hz d))
  else skip.

#[global] Instance rcc_hooks : RegisterHooks RccPeripheral :=
  {| loadRegister w _ := regValue w; storeRegister := rcc_storeRegister; onReset := rcc_onReset |}.

Definition rcc_new (hse_present : bool) (hse_hz : Z) (loop trace : bool) (env : Env) : RccPeripheral :=
  let b := block_init "RCC" 0xa0 loop trace in
  let b := setResetValue cr (hsion .| hsirdy) b in
  let b := setResetValue cfgr 0x5 b in
  construct env (mkRcc b hse_present (if hse_hz =? 0 then 8000000 else hse_hz) 16000000 16000000 0 0
                   false false true false false false).

(** Installing the callbacks. *)
Definition setClockChangedCallback (present : bool) : Dev RccPeripheral unit :=
  modify (fun d : RccPeripheral => {| d with rc_clock_changed := present |}).
Definition setAdcClockChangedCallback (present : bool) : Dev RccPeripheral unit :=
  modify (fun d : RccPeripheral => {| d with rc_adc_clock_changed := present |});;
  d ← get id;
  if present
  then emit (fx_adc_clock_changed (rc_hclk_hz d) (rc_adc12_clock_hz d) (rc_adc345_clock_hz d)
               (adc12_gate d) (adc345_gate d) (div1_allowed d))
  else skip.
Definition setAdcResetChangedCallback (present : bool) : Dev RccPeripheral unit :=
  modify (fun d : RccPeripheral => {| d with rc_adc_reset_changed := present |});;
  if present then updateAdcResets else skip.
End Rcc.

(** ** Consistency of the clock tree *)

Module RccProofs.
Import Rcc.

Definition reg (w : Z) (d : RccPeripheral) : Z := registerValue w (rc_block d).

Definition osc_ok (present : bool) (value : Z) : Prop :=
  Z.testbit value 1 = Z.testbit value 0 /\ Z.testbit value 10 = Z.testbit value 8
  /\ Z.testbit value 17 = (Z.testbit value 16 && present) /\ Z.testbit value 25 = Z.testbit value 24.
Definition low_ok (value : Z) : Prop := Z.testbit value 1 = Z.testbit value 0.

Lemma with_ready_bit v k on i : 0 <= k < 32 -> 0 <= i < 32 ->
  Z.testbit (with_ready v (1 .<< k) on) i = if i =? k then on else Z.testbit v i.
Proof.
  intros Hk Hi. unfold with_ready. rewrite Z.lor_spec, Z.land_spec, not32_testbit by lia.
  rewrite Z.shiftl_mul_pow2, Z.mul_1_l by lia. destruct (Z.eqb_spec i k) as [->|Hne].
  - rewrite Z.pow2_bits_true by lia. rewrite andb_false_r. destruct on; [apply Z.pow2_bits_true; lia|apply Z.bits_0].
  - rewrite Z.pow2_bits_false by lia. rewrite andb_true_r. destruct on; [rewrite Z.pow2_bits_false by lia|rewrite Z.bits_0]; apply orb_false_r.
Qed.
Lemma with_ready_range v k on : 0 <= k < 32 -> is_u32 v -> is_u32 (with_ready v (1 .<< k) on).
Proof.
  intros Hk Hv. unfold with_ready. apply is_u32_lor; [u32_auto|]. destruct on; [|width_lia].
  rewrite Z.shiftl_mul_pow2, Z.mul_1_l by lia. split; [apply Z.pow_nonneg; lia|].
  apply (Z.lt_le_trans _ (2 ^ 32)); [apply Z.pow_lt_mono_r; lia|done].
Qed.
(** A ready bit that already agrees is left alone. *)
Lemma with_ready_id v k on : 0 <= k < 32 -> is_u32 v -> Z.testbit v k = on -> with_ready v (1 .<< k) on = v.
Proof.
  intros Hk Hv Hb. apply Z.bits_inj'. intros i Hi. destruct (Z.lt_ge_cases i 32).
  - rewrite with_ready_bit by lia. destruct (Z.eqb_spec i k); congruence.
  - rewrite !(high_bits_clear 32 _ i); try done. by apply with_ready_range.
Qed.

Lemma ready_cr_ok present v : osc_ok present (ready_cr present v).
Proof.
  unfold osc_ok, ready_cr, msirdy, hsirdy, hserdy, pllrdy, msion, hsion, hseon, pllon.
  rewrite !has_testbit by lia. rewrite !with_ready_bit by lia. cbn [Z.eqb Pos.eqb]. done.
Qed.
Lemma ready_cr_range present v : is_u32 v -> is_u32 (ready_cr present v).
Proof.
  intros Hv. unfold ready_cr, msirdy, hsirdy, hserdy, pllrdy.
  apply (with_ready_range _ 25); [lia|]. apply (with_ready_range _ 17); [lia|].
  apply (with_ready_range _ 10); [lia|]. apply (with_ready_range _ 1); [lia|]. done.
Qed.
Lemma ready_cr_id present v : is_u32 v -> osc_ok present v -> ready_cr present v = v.
Proof.
  intros Hv (H1&H2&H3&H4). unfold ready_cr, msirdy, hsirdy, hserdy, pllrdy, msion, hsion, hseon, pllon.
  rewrite !has_testbit by lia. rewrite (with_ready_id v 1), (with_ready_id v 10), (with_ready_id v 17) by (done || lia).
  by apply with_ready_id.
Qed.
Lemma ready_low_ok v : low_ok (ready_low v).
Proof. unfold low_ok, ready_low. rewrite !with_ready_bit by lia. cbn. symmetry. apply testbit_odd. Qed.
Lemma ready_low_range v : is_u32 v -> is_u32 (ready_low v).
Proof. apply (with_ready_range _ 1). lia. Qed.

(** *** The invariant *)

(** The register block, with the reset value of the clock switch. *)
Definition rcc_block_ok (b : RegBlock) : Prop :=
  block_ok b /\ rb_block_size b = 0xa0 /\ rget (rb_reset_values b) (cfgr / 4) = 0x5.

Record registers_ok (d : RccPeripheral) : Prop := mk_registers_ok {
  ro_block : rcc_block_ok (rc_block d);
  ro_cr : osc_ok (rc_hse_present d) (reg cr d);
  ro_bdcr : low_ok (reg bdcr d);
  ro_csr : low_ok (reg csr d);
  ro_crrcr : low_ok (reg crrcr d);
  ro_switch : (reg cfgr d .>> 2) .& 3 = reg cfgr d .& 3;
}.
(** The frequencies the device holds are those the registers select; a selection that computes
    to zero leaves the system clock as it was. *)
Definition system_ok (d : RccPeripheral) : Prop := selected_clock d = 0 \/ rc_system_clock_hz d = selected_clock d.
Definition adc_ok (d : RccPeripheral) : Prop :=
  rc_hclk_hz d = hclkClockHz d /\ rc_adc12_clock_hz d = adc12_kernel d /\ rc_adc345_clock_hz d = adc345_kernel d
  /\ rc_adc12_enabled d = adc12_gate d /\ rc_adc345_enabled d = adc345_gate d /\ rc_hpre_div1_allowed d = div1_allowed d.
Definition rcc_ok (d : RccPeripheral) : Prop := registers_ok d /\ system_ok d /\ adc_ok d.

(** *** The updates *)

Lemma system_run : runs registers_ok updateSystemClock (fun _ d => registers_ok d /\ system_ok d).
Proof.
  intros env d Hd. unfold updateSystemClock. erewrite bind_inl by reflexivity. cbn [id].
  destruct (Z.eqb_spec (selected_clock d) 0) as [E|E]; cbn [orb].
  { eexists _, _, _. split; [done|]. split; [done|]. by left. }
  destruct (Z.eqb_spec (selected_clock d) (rc_system_clock_hz d)) as [E'|E'].
  { eexists _, _, _. split; [done|]. split; [done|]. by right. }
  assert (let d' : RccPeripheral := {| d with rc_system_clock_hz := selected_clock d |} in registers_ok d' /\ system_ok d') as H.
  { split; [by destruct Hd; constructor|]. by right. }
  do 2 (erewrite bind_inl by reflexivity). destruct (rc_clock_changed d); eexists _, _, _; split; done.
Qed.

Lemma adc_run force (P : RccPeripheral -> Prop) :
  (∀ d h a b x y z, P d -> P {| d with rc_hclk_hz := h; rc_adc12_clock_hz := a; rc_adc345_clock_hz := b;
                                       rc_adc12_enabled := x; rc_adc345_enabled := y; rc_hpre_div1_allowed := z |}) ->
  runs P (updateAdcClocks force) (fun _ d => P d /\ adc_ok d).
Proof.
  intros HP env d Hd. unfold updateAdcClocks. erewrite bind_inl by reflexivity. erewrite bind_inl by reflexivity.
  erewrite bind_inl by reflexivity. cbn [id].
  match goal with |- context [if ?c then _ else _] => destruct c eqn:E end.
  - repeat match goal with H : _ && _ = true |- _ => apply andb_true_iff in H as [H ?] end.
    eexists _, _, _. split; [done|]. destruct d; cbn in *. split; [by apply (HP _ _ _ _ _ _ _ Hd)|].
    repeat match goal with
    | H : (_ =? _) = true |- _ => apply Z.eqb_eq in H
    | H : Bool.eqb _ _ = true |- _ => apply eqb_prop in H
    end. split_and!; cbn; congruence.
  - do 2 (erewrite bind_inl by reflexivity). cbn [id].
    match goal with |- context [if ?c then _ else _] => destruct c end;
      (eexists _, _, _; split; [reflexivity|]; split; [by destruct d; apply (HP _ _ _ _ _ _ _ Hd)|done]).
Qed.

Lemma rcc_set_ok w v b : rcc_block_ok b -> is_u32 v -> rcc_block_ok (set_register w v b).
Proof. intros [Hb Hs] Hv. split; [by apply set_register_ok|]. unfold set_register. by destruct (aligned_register _ _). Qed.
Lemma rcc_get_set w w' v b : rcc_block_ok b -> register_of 0xa0 w -> 0 <= w' ->
  registerValue w' (set_register w v b) = if w' =? w then v else registerValue w' b.
Proof.
  intros (Hb&Hs&_) [Hw Ha] Hw'. destruct (Z.eqb_spec w' w) as [->|Hne].
  - apply registerValue_set_eq; [done| |lia]. unfold aligned_register. rewrite Hs, Ha. apply andb_true_iff.
    split; [done|]. apply Z.ltb_lt. lia.
  - apply registerValue_set_ne; lia || congruence.
Qed.

(** What refreshing the ready bits leaves in the registers. *)
Definition refreshed (present : bool) (b b' : RegBlock) : Prop :=
  ∀ w, 0 <= w -> registerValue w b' =
    if w =? cr then ready_cr present (registerValue w b) else if is_oscillator w then ready_low (registerValue w b) else registerValue w b.

Lemma refresh_run env d : rcc_block_ok (rc_block d) ->
  ∃ b', updateClockReadyBits env d = (inl tt, with_block (fun _ => b') d, []) /\ rcc_block_ok b'
    /\ refreshed (rc_hse_present d) (rc_block d) b'.
Proof.
  intros Hb. unfold updateClockReadyBits.
  set (b1 := set_register cr (ready_cr (rc_hse_present d) (registerValue cr (rc_block d))) (rc_block d)).
  assert (rcc_block_ok b1) as H1 by (apply rcc_set_ok; [done|]; apply ready_cr_range, registerValue_range, Hb).
  set (b2 := set_register bdcr (ready_low (registerValue bdcr b1)) b1).
  assert (rcc_block_ok b2) as H2 by (apply rcc_set_ok; [done|]; apply ready_low_range, registerValue_range, H1).
  set (b3 := set_register csr (ready_low (registerValue csr b2)) b2).
  assert (rcc_block_ok b3) as H3 by (apply rcc_set_ok; [done|]; apply ready_low_range, registerValue_range, H2).
  set (b4 := set_register crrcr (ready_low (registerValue crrcr b3)) b3).
  exists b4. split_and!; [|apply rcc_set_ok; [done|]; apply ready_low_range, registerValue_range, H3|].
  { rewrite regValue_bind, get_bind, setRegister_bind, regValue_bind, setRegister_bind, regValue_bind, setRegister_bind,
      regValue_bind. reflexivity. }
  intros w Hw. unfold is_oscillator.
  assert (∀ w, 0 <= w -> registerValue w b1 = if w =? cr then ready_cr (rc_hse_present d) (registerValue cr (rc_block d))
    else registerValue w (rc_block d)) as E1 by (intros; apply rcc_get_set; [done|vm_compute; intuition congruence|done]).
  assert (∀ w, 0 <= w -> registerValue w b2 = if w =? bdcr then ready_low (registerValue bdcr b1) else registerValue w b1) as E2
    by (intros; apply rcc_get_set; [done|vm_compute; intuition congruence|done]).
  assert (∀ w, 0 <= w -> registerValue w b3 = if w =? csr then ready_low (registerValue csr b2) else registerValue w b2) as E3
    by (intros; apply rcc_get_set; [done|vm_compute; intuition congruence|done]).
  assert (registerValue w b4 = if w =? crrcr then ready_low (registerValue crrcr b3) else registerValue w b3) as ->
    by (intros; apply rcc_get_set; [done|vm_compute; intuition congruence|done]).
  rewrite !E3, !E2, !E1 by done. clearbody b1 b2 b3 b4.
  destruct (Z.eqb_spec w crrcr) as [->|]; [done|]. destruct (Z.eqb_spec w csr) as [->|]; [done|].
  destruct (Z.eqb_spec w bdcr) as [->|]; [done|]. by destruct (Z.eqb_spec w cr) as [->|].
Qed.

(** Devices whose clock tree reads the same registers. *)
Record same_tree (d d' : RccPeripheral) : Prop := mk_same_tree {
  st_regs : ∀ w, w ∈ [cr; cfgr; pllcfgr; ccipr; ahb2enr] -> reg w d' = reg w d;
  st_fields : ∃ b, d' = with_block (fun _ => b) d;
}.
Lemma same_tree_ok d d' : same_tree d d' -> system_ok d -> adc_ok d -> system_ok d' /\ adc_ok d'.
Proof.
  intros [Hr [b ->]] Hs Ha.
  pose proof (Hr cr ltac:(set_solver)) as Ecr. pose proof (Hr cfgr ltac:(set_solver)) as Ecf.
  pose proof (Hr pllcfgr ltac:(set_solver)) as Epl. pose proof (Hr ccipr ltac:(set_solver)) as Ecc.
  pose proof (Hr ahb2enr ltac:(set_solver)) as Eah. unfold reg in *. cbn in Ecr, Ecf, Epl, Ecc, Eah.
  unfold system_ok, adc_ok, selected_clock, pllClockHz, hclkClockHz, adc12_kernel, adc345_kernel, adcKernelClockHz,
    adc12_gate, adc345_gate, div1_allowed, hpre in *.
  cbn [rc_block with_block rcc_has_block rc_hse_present rc_hse_hz rc_system_clock_hz rc_hclk_hz rc_adc12_clock_hz
    rc_adc345_clock_hz rc_adc12_enabled rc_adc345_enabled rc_hpre_div1_allowed]. rewrite Ecr, Ecf, Epl, Ecc, Eah. done.
Qed.

Lemma resets_run P : runs P updateAdcResets (fun _ => P).
Proof.
  intros env d Hd. unfold updateAdcResets. rewrite get_bind. cbn [id].
  destruct (rc_adc_reset_changed d); eexists _, _, _; split; done.
Qed.

(** The programs after the first part of the hook. *)
Definition rest (w : Z) : Dev RccPeripheral unit :=
  (if is_clock_tree w then updateSystemClock else skip);;
  (if is_adc_clock w then updateAdcClocks false else skip);;
  (if w =? ahb2rstr then updateAdcResets else skip).

Lemma rest_tree w : is_clock_tree w = true -> runs registers_ok (rest w) (fun _ => rcc_ok).
Proof.
  intros Hw. unfold rest. assert (is_adc_clock w = true) as Ha by (unfold is_adc_clock; by rewrite Hw).
  assert ((w =? ahb2rstr) = false) as Hn.
  { unfold is_clock_tree in Hw. apply orb_true_iff in Hw as [[Hw|Hw]%orb_true_iff|Hw]; apply Z.eqb_eq in Hw as ->; done. }
  rewrite Hw, Ha, Hn. eapply runs_bind; [apply system_run|]. intros [].
  apply (runs_bind _ _ _ (fun _ d => (registers_ok d /\ system_ok d) /\ adc_ok d)).
  - apply adc_run. intros d h a b x y z [Hr Hs]. split; [|exact Hs]. destruct Hr. by constructor.
  - intros []. apply runs_ret. intros d [[Hr Hs] Ha']. by split_and!.
Qed.
Lemma rest_adc w : is_clock_tree w = false -> is_adc_clock w = true ->
  runs (fun d => registers_ok d /\ system_ok d) (rest w) (fun _ => rcc_ok).
Proof.
  intros Hw Ha. unfold rest. rewrite Hw, Ha. eapply runs_bind; [apply runs_skip|]. intros [].
  apply (runs_bind _ _ _ (fun _ d => (registers_ok d /\ system_ok d) /\ adc_ok d)).
  - apply adc_run. intros d h a b x y z [Hr Hs]. split; [|exact Hs]. destruct Hr. by constructor.
  - intros []. apply (runs_conseq rcc_ok _ _ (fun _ => rcc_ok)); [|intros d [[Hr Hs] Ha']; by split_and!|done].
    apply runs_if; intros _; [apply resets_run|apply runs_skip].
Qed.
Lemma rest_other w : is_adc_clock w = false -> runs rcc_ok (rest w) (fun _ => rcc_ok).
Proof.
  intros Ha. unfold rest. assert (is_clock_tree w = false) as Hw.
  { unfold is_adc_clock in Ha. by destruct (is_clock_tree w). }
  rewrite Hw, Ha. eapply runs_bind; [apply runs_skip|]. intros []. eapply runs_bind; [apply runs_skip|]. intros [].
  apply runs_if; intros _; [apply resets_run|apply runs_skip].
Qed.

Lemma switch_bits v : is_u32 v -> (((v .& not32 0x0c) .| (v .& 0x3) .<< 2) .>> 2) .& 3 = ((v .& not32 0x0c) .| (v .& 0x3) .<< 2) .& 3.
Proof.
  intros Hv. apply Z.bits_inj'. intros i Hi. rewrite !Z.land_spec, Z.shiftr_spec, !Z.lor_spec, !Z.land_spec, !Z.shiftl_spec, !Z.land_spec by lia.
  destruct (Z.lt_ge_cases i 2).
  - rewrite !not32_testbit by lia. assert (i = 0 \/ i = 1) as [-> | ->] by lia; cbn -[Z.testbit];
      [replace (0 + 2 - 2) with 0 by lia | replace (1 + 2 - 2) with 1 by lia];
      rewrite ?(Z.testbit_neg_r _ (0 - 2)), ?(Z.testbit_neg_r _ (1 - 2)) by lia; cbn; rewrite ?andb_true_r, ?andb_false_r, ?orb_false_r; done.
  - rewrite (high_bits_clear 2 3 i) by lia. by rewrite !andb_false_r.
Qed.

Lemma oscillator_cases w : is_oscillator w = true -> w = cr \/ w = bdcr \/ w = csr \/ w = crrcr.
Proof.
  unfold is_oscillator. intros H. apply orb_true_iff in H as [[[H|H]%orb_true_iff|H]%orb_true_iff|H]; apply Z.eqb_eq in H; auto.
Qed.

Lemma refreshed_ok d d1 w v b' : rcc_ok d -> register_of 0xa0 w -> is_oscillator w = true ->
  d1 = with_block (set_register w v) d -> rcc_block_ok b' -> refreshed (rc_hse_present d) (rc_block d1) b' ->
  registers_ok (with_block (fun _ => b') d1) /\ (w <> cr -> rcc_ok (with_block (fun _ => b') d1)).
Proof.
  intros (Hr&Hs&Ha) Hw Ho -> Hb' Href. set (d' := with_block _ _).
  assert (rcc_block_ok (rc_block d)) as Hb by apply Hr.
  assert (∀ w', 0 <= w' -> reg w' d' = if w' =? cr then ready_cr (rc_hse_present d) (if w' =? w then v else reg w' d)
    else if is_oscillator w' then ready_low (if w' =? w then v else reg w' d) else if w' =? w then v else reg w' d) as Hreg.
  { intros w' H0. unfold reg. subst d'. cbn [rc_block with_block rcc_has_block] in *. rewrite (Href w' H0).
    by rewrite (rcc_get_set w w' v (rc_block d) Hb Hw H0). }
  assert (∀ w', 0 <= w' -> is_oscillator w' = false -> reg w' d' = reg w' d) as Hother.
  { intros w' H0 Hno. rewrite (Hreg w' H0), Hno. destruct (Z.eqb_spec w' cr) as [->|]; [done|].
    destruct (Z.eqb_spec w' w) as [->|]; [congruence|done]. }
  assert (registers_ok d') as Hr'.
  { destruct Hr as [_ Hcr H1 H2 H3 Hsw]. constructor.
    - apply Hb'.
    - rewrite Hreg by done. apply ready_cr_ok.
    - rewrite Hreg by done. apply ready_low_ok.
    - rewrite Hreg by done. apply ready_low_ok.
    - rewrite Hreg by done. apply ready_low_ok.
    - by rewrite (Hother cfgr). }
  split; [done|]. intros Hne. split; [done|].
  apply (same_tree_ok d); [|done|done]. constructor; [|by exists b'; destruct d].
  intros w' Hin. assert (w' = cr \/ is_oscillator w' = false /\ 0 <= w') as [->|[Hno H0]].
  { repeat (apply elem_of_cons in Hin as [->|Hin]; [first [by left | by right]|]). by apply elem_of_nil in Hin. }
  - rewrite Hreg by done. cbn [Z.eqb]. change (cr =? cr) with true. rewrite (proj2 (Z.eqb_neq cr w)) by congruence.
    apply ready_cr_id; [apply registerValue_range, Hb|]. apply Hr.
  - by apply Hother.
Qed.

Lemma rcc_store w bits mask c : register_of 0xa0 w -> is_u32 bits -> is_u32 mask ->
  runs rcc_ok (store_word w bits mask c) (fun _ => rcc_ok).
Proof.
  intros Hw Hbits Hmask env d Hd. pose proof Hd as (Hr&Hs&Ha).
  assert (rcc_block_ok (rc_block d)) as Hb by apply Hr.
  assert (aligned_register w (rc_block d) = true) as Hal.
  { unfold aligned_register. rewrite (proj1 (proj2 Hb)), (proj2 Hw). apply andb_true_iff. split; [done|]. apply Z.ltb_lt. apply Hw. }
  rewrite store_word_hook by done. cbn [block rcc_has_block].
  set (previous := registerValue w (rc_block d)). assert (is_u32 previous) as Hp by apply registerValue_range, Hb.
  pose proof (merged_image_range previous bits mask Hp Hbits Hmask) as Hv. set (v := merged_image previous bits mask) in *.
  set (d1 := with_block (set_register w v) d).
  assert (rcc_block_ok (rc_block d1)) as Hb1 by by apply rcc_set_ok.
  assert (∀ w', 0 <= w' -> reg w' d1 = if w' =? w then v else reg w' d) as Hreg by (intros; by apply rcc_get_set).
  assert (∀ w', 0 <= w' -> w' <> w -> reg w' d1 = reg w' d) as Hoth.
  { intros w' H0 Hne. rewrite Hreg by done. by rewrite (proj2 (Z.eqb_neq _ _)). }
  cbn [storeRegister rcc_hooks]. unfold rcc_storeRegister. fold (rest w).
  destruct (is_oscillator w) eqn:Ho.
  { destruct (refresh_run env d1 Hb1) as (b'&E&Hb'&Href).
    destruct (refreshed_ok d d1 w v b' Hd Hw Ho eq_refl Hb' Href) as [Hr' Hok'].
    destruct (decide (w = cr)) as [->|Hne].
    - destruct (rest_tree cr eq_refl env _ Hr') as ([]&d'&fx&E'&Hd'). eexists tt, d', _. split; [|done].
      rewrite (bind_inl _ _ _ _ _ _ _ E), E'. done.
    - assert (is_adc_clock w = false) as Hna.
      { apply oscillator_cases in Ho as [->|[->|[->| ->]]]; done. }
      destruct (rest_other w Hna env _ (Hok' Hne)) as ([]&d'&fx&E'&Hd'). eexists tt, d', _. split; [|done].
      rewrite (bind_inl _ _ _ _ _ _ _ E), E'. done. }
  assert (∀ w', is_oscillator w' = true -> 0 <= w' -> reg w' d1 = reg w' d) as Hosc.
  { intros w' Ho' H0. apply Hoth; [done|]. congruence. }
  assert ((reg cfgr d1 .>> 2) .& 3 = reg cfgr d1 .& 3 -> registers_ok d1) as Hregs.
  { intros Hsw. destruct Hr as [_ Hcr H1 H2 H3 _]. constructor; try apply Hb1; rewrite ?Hosc by done; done. }
  destruct (Z.eqb_spec w cfgr) as [->|Hncf].
  { set (x := (v .& not32 0x0c) .| (v .& 0x3) .<< 2). assert (is_u32 x) as Hx.
    { subst x. apply is_u32_lor; [u32_auto|]. pose proof (land_bounds_r v 3). rewrite Z.shiftl_mul_pow2 by lia. width_lia. }
    set (d2 := with_block (set_register cfgr x) d1).
    assert (registers_ok d2) as Hr2.
    { assert (rcc_block_ok (rc_block d2)) as Hb2 by by apply rcc_set_ok.
      assert (∀ w', 0 <= w' -> reg w' d2 = if w' =? cfgr then x else reg w' d1) as Hreg2 by (intros; by apply rcc_get_set).
      destruct Hr as [_ Hcr H1 H2 H3 _].
      constructor; try apply Hb2; try (rewrite Hreg2 by done; rewrite ?Hosc by done; done).
      rewrite Hreg2 by done. change (cfgr =? cfgr) with true. by apply switch_bits. }
    destruct (rest_tree cfgr eq_refl env _ Hr2) as ([]&d'&fx&E'&Hd'). eexists tt, d', _. split; [|done].
    rewrite setRegister_bind. exact E'. }
  assert (registers_ok d1) as Hr1 by (apply Hregs; rewrite (Hoth cfgr) by (done || congruence); apply Hr).
  destruct (Z.eqb_spec w cicr) as [->|Hnci].
  { set (x := registerValue cifr (rc_block d1) .& not32 v).
    assert (is_u32 x) as Hx by (subst x; pose proof (registerValue_range cifr _ (proj1 Hb1)); u32_auto).
    set (d2 := with_block (set_register cifr x) d1). set (d3 := with_block (set_register cicr 0) d2).
    assert (rcc_block_ok (rc_block d3)) as Hb3 by (repeat apply rcc_set_ok; done).
    assert (∀ w', 0 <= w' -> w' <> cicr -> w' <> cifr -> reg w' d3 = reg w' d) as Hreg3.
    { intros w' H0 N1 N2. rewrite <- (Hoth w') by done. unfold reg. subst d3 d2. cbn [rc_block with_block rcc_has_block].
      rewrite !registerValue_set_ne; done. }
    assert (rcc_ok d3) as Hok3.
    { split; [|apply (same_tree_ok d); [|done|done]].
      - destruct Hr as [_ Hcr H1 H2 H3 Hsw]. constructor; try apply Hb3; rewrite ?Hreg3 by done; done.
      - constructor; [|by eexists; destruct d]. intros w' Hin.
        repeat (apply elem_of_cons in Hin as [->|Hin]; [by apply Hreg3|]). by apply elem_of_nil in Hin. }
    destruct (rest_other cicr eq_refl env d3 Hok3) as ([]&d'&fx&E'&Hd'). exists tt, d', fx. split; [|done].
    rewrite (bind_inl _ _ _ _ tt d3 []) by (rewrite regValue_bind, setRegister_bind; reflexivity). by rewrite E'. }
  rewrite skip_bind.
  destruct (is_clock_tree w) eqn:Ht; [by apply rest_tree|].
  assert (w <> pllcfgr) as Hnpl by (intros ->; done). assert (w <> cr) as Hncr by (intros ->; done).
  destruct (is_adc_clock w) eqn:Hac.
  - apply rest_adc; [done|done|]. split; [done|]. unfold system_ok, selected_clock, pllClockHz in *.
    pose proof (Hoth cfgr ltac:(done) ltac:(congruence)) as E1. pose proof (Hoth pllcfgr ltac:(done) ltac:(congruence)) as E2.
    unfold reg in E1, E2. rewrite E1, E2. exact Hs.
  - apply rest_other; [done|]. split; [done|]. apply (same_tree_ok d); [|done|done].
    constructor; [|by eexists; destruct d]. intros w' Hin. unfold is_adc_clock in Hac. rewrite Ht in Hac. cbn [orb] in Hac.
    apply orb_false_iff in Hac as [N1%Z.eqb_neq N2%Z.eqb_neq].
    repeat (apply elem_of_cons in Hin as [->|Hin]; [apply Hoth; [done|congruence]|]). by apply elem_of_nil in Hin.
Qed.

(** Every access of every width keeps the clock tree consistent. *)
Lemma rcc_write_ok offset size v c : holds rcc_ok (write offset size v c) (fun _ => True).
Proof.
  apply (holds_write _ 0xa0).
  - intros d [[(_&Hs&_) _ _ _ _ _] _]. exact Hs.
  - lia.
  - intros w bits mask Hw Hbits Hmask. eapply runs_holds; [by apply rcc_store|]. by intros [] d.
Qed.

(** *** Reset *)

(** The registers after they took their reset values. *)
Definition cleared (d : RccPeripheral) : Prop := rcc_block_ok (rc_block d) /\ reg cfgr d = 0x5.

Lemma onReset_run : runs cleared rcc_onReset (fun _ => rcc_ok).
Proof.
  intros env d [Hb Hc]. unfold rcc_onReset. rewrite get_bind, modify_bind.
  set (d1 := mkRcc _ _ _ _ _ _ _ _ _ _ _ _ _).
  destruct (refresh_run env d1 Hb) as (b'&E&Hb'&Href). rewrite (bind_inl _ _ _ _ _ _ _ E). clear E.
  set (d2 := with_block (fun _ => b') d1).
  assert (reg cfgr d2 = 0x5) as Hc2.
  { unfold reg. subst d2. cbn [rc_block with_block rcc_has_block]. rewrite Href by done. exact Hc. }
  assert (registers_ok d2 /\ system_ok d2) as H2.
  { split; [constructor; try apply Hb'|].
    - unfold reg. subst d2. cbn [rc_block with_block rcc_has_block]. rewrite Href by done. apply ready_cr_ok.
    - unfold reg. subst d2. cbn [rc_block with_block rcc_has_block]. rewrite Href by done. apply ready_low_ok.
    - unfold reg. subst d2. cbn [rc_block with_block rcc_has_block]. rewrite Href by done. apply ready_low_ok.
    - unfold reg. subst d2. cbn [rc_block with_block rcc_has_block]. rewrite Href by done. apply ready_low_ok.
    - by rewrite Hc2.
    - right. unfold selected_clock. unfold reg in Hc2. by rewrite Hc2. }
  destruct (adc_run true (fun d => registers_ok d /\ system_ok d)) with (env := env) (s := d2) as ([]&d3&w3&E3&[H3 H3']).
  { intros d' h a b x y z [Hr Hs]. split; [|exact Hs]. destruct Hr. by constructor. }
  { done. }
  rewrite (bind_inl _ _ _ _ _ _ _ E3). destruct (resets_run rcc_ok env d3) as ([]&d4&w4&E4&H4); [by destruct H3; split_and!|].
  rewrite (bind_inl _ _ _ _ _ _ _ E4), get_bind. cbn [id].
  destruct (_ && rc_clock_changed d4); eexists tt, d4, _; (split; [reflexivity|done]).
Qed.

(** Clearing the registers and the interrupt lines, and the hook. *)
Lemma rcc_reset_run d env : rcc_block_ok (rc_block d) -> rcc_ok (snd (fst (reset env d))).
Proof.
  intros (Hb&Hs&Hc). unfold reset. rewrite modify_bind.
  match goal with |- context [(_ ≫= _) env ?s] => set (d1 := s) end.
  assert (cleared d1) as H1.
  { split; [split_and!; [by apply reset_registers_ok|exact Hs|exact Hc]|].
    unfold reg, registerValue. subst d1. cbn [rc_block with_block rcc_has_block rb_registers].
    unfold aligned_register. cbn [rb_block_size]. rewrite Hs. exact Hc. }
  assert (runs cleared (for_each (fun line => setInterruptLevel line false) (seqZ 0 8)) (fun _ => cleared)) as Hr.
  { apply (runs_for_seq (fun _ => cleared)); [lia|]. intros k _. apply runs_setInterruptLevel; intros d' Hd _; [done|].
    destruct Hd as [[Hd Hs'] Hc']. split; [split; [by apply set_level_ok|exact Hs']|exact Hc']. }
  destruct (Hr env d1 H1) as ([]&d2&w2&E2&H2). rewrite (bind_inl _ _ _ _ _ _ _ E2).
  destruct (onReset_run env d2 H2) as ([]&d3&w3&E3&H3). cbn [onReset rcc_hooks]. rewrite E3. exact H3.
Qed.
Lemma rcc_reset_ok env d : rcc_ok d -> rcc_ok (snd (fst (reset env d))).
Proof. intros [[Hb] _]. by apply rcc_reset_run. Qed.

Lemma rcc_new_ok hse_present hse_hz loop trace env : rcc_ok (rcc_new hse_present hse_hz loop trace env).
Proof.
  apply rcc_reset_run. split_and!; [|reflexivity|reflexivity].
  repeat apply setResetValue_ok; [|vm_compute; split; congruence|vm_compute; split; congruence]. apply block_init_ok. lia.
Qed.
End RccProofs.
