(* ===== verification/Dma.v ===== *)
(** * DMA controllers and the request multiplexer

    Models [DmaPeripheral] and [DmamuxPeripheral] of [src/stm32g4/dma.cpp].  The memory bus the
    controller masters is any [CpuMemory]; it is part of the state of the operations. *)

From stdpp Require Import pretty.
From S2P Require Import Prelude Address Common Trace CpuState CpuStateProofs MemoryApi.
From S2P Require Import Peripheral PeripheralProofs.
#[local] Open Scope Z_scope.
#[local] Open Scope fil_scope.

Module Dma.
Definition dma_isr : Z := 0x00.
Definition dma_ifcr : Z := 0x04.
Definition first_channel : Z := 0x08.
Definition channel_stride : Z := 0x14.

(** [std::clamp(count, 1U, 8U)]. *)
Definition normalizedDmaChannels (count : Z) : Z := Z.min (Z.max count 1) 8.
Definition transferWidth (selector : Z) : Z := if selector <=? 2 then 1 .<< selector else 4.

Module ChannelState.
Inductive t := disabled | armed | active | completed | failed.
#[global] Instance eq_dec : EqDecision t.
Proof. solve_decision. Defined.
End ChannelState.

Record DmaTransfer := mkDmaTransfer {
  dt_time_ns : Z;
  dt_channel : Z;
  dt_items : Z;
  dt_memory_to_peripheral : bool;
  dt_success : bool;
}.

Record DmaPeripheral := mkDma {
  dm_block : RegBlock;
  dm_channel_count : Z;
  dm_interrupt_callback : bool;
  dm_enable_callback : bool;
  dm_reload_counts : list Z;
  dm_channel_state : list ChannelState.t;
  dm_transfer_history_enabled : bool;
  dm_transfers : list DmaTransfer;
}.

(** A controller and the bus attached to it. *)
Record DmaBus (M : Type) := mkDmaBus { db_dma : DmaPeripheral; db_memory : option M }.
Arguments mkDmaBus {M}.
Arguments db_dma {M}.
Arguments db_memory {M}.

#[global] Instance dma_has_block {M} : HasBlock (DmaBus M) :=
  {| block s := dm_block (db_dma s);
     with_block f s := mkDmaBus (let d : DmaPeripheral := db_dma s in {| d with dm_block := f (dm_block d) |}) (db_memory s) |}.
#[global] Instance dma_has_block_laws {M} : HasBlockLaws (DmaBus M).
Proof. constructor; [done|]. intros f g [[] m] E. cbn in *. by rewrite E. Qed.

(** Base of the registers of a channel, counted from 1. *)
Definition channel_base (channel : Z) : Z := first_channel + (channel - 1) * channel_stride.

Definition upd {M} (f : DmaPeripheral -> DmaPeripheral) : Dev (DmaBus M) unit :=
  modify (fun s => mkDmaBus (f (db_dma s)) (db_memory s)).
Definition reload_count (channel : Z) (d : DmaPeripheral) : Z := rget (dm_reload_counts d) (channel - 1).
Definition channel_state (channel : Z) (d : DmaPeripheral) : ChannelState.t :=
  default ChannelState.disabled (dm_channel_state d !! Z.to_nat (channel - 1)).
Definition set_channel_state (channel : Z) (st : ChannelState.t) (d : DmaPeripheral) : DmaPeripheral :=
  {| d with dm_channel_state := <[Z.to_nat (channel - 1) := st]> (dm_channel_state d) |}.

Section controller.
Context {M : Type} `{CpuMemory M}.
Abbreviation D A := (Dev (DmaBus M) A).

(** *** Interrupt levels and flags *)

Definition channel_asserted (status control channel : Z) : bool :=
  let shift := (channel - 1) * 4 in
  (has status (1 .<< (shift + 1)) && has control (1 .<< 1))
  || (has status (1 .<< (shift + 2)) && has control (1 .<< 2))
  || (has status (1 .<< (shift + 3)) && has control (1 .<< 3)).

Definition channel_count : D Z := get (fun s => dm_channel_count (db_dma s)).

Definition updateInterruptLevels : D unit :=
  status ← regValue dma_isr;
  count ← channel_count;
  for_each (fun channel =>
    control ← regValue (channel_base channel);
    setInterruptLevel (channel - 1) (channel_asserted status control channel)) (seqZ 1 count).

Definition setChannelFlag (channel flag_bit : Z) : D unit :=
  let shift := (channel - 1) * 4 in
  status ← regValue dma_isr;
  setRegister dma_isr (status .| (1 .<< shift) .| (1 .<< (shift + flag_bit)));;
  updateInterruptLevels.

(** Clears completed and failed states whose flag is gone. *)
Definition refreshed_state (status channel : Z) (st : ChannelState.t) : ChannelState.t :=
  let shift := (channel - 1) * 4 in
  match st with
  | ChannelState.completed => if has status (1 .<< (shift + 1)) then st else ChannelState.disabled
  | ChannelState.failed => if has status (1 .<< (shift + 3)) then st else ChannelState.disabled
  | _ => st
  end.
Definition refreshStoppedChannelStates : D unit :=
  status ← regValue dma_isr;
  count ← channel_count;
  for_each (fun channel =>
    upd (fun d => set_channel_state channel (refreshed_state status channel (channel_state channel d)) d)) (seqZ 1 count).

(** *** Bus accesses *)

Definition missingMemoryFault (device : string) (address : Z) (type : AccessType.t) : BusFault :=
  mkBusFault BusFaultReason.device_error address AccessSize.byte (mkAccessContext type 0) device
    "DMA has no attached memory bus".

Definition on_memory {A} (missing : DmaBus M -> A) (f : M -> A * M) : D A := fun env s =>
  match db_memory s with
  | None => (inl (missing s), s, [])
  | Some m => let '(r, m) := f m in (inl r, mkDmaBus (db_dma s) (Some m), [])
  end.

Definition readMemory (address width : Z) : D (MemoryResult Z) :=
  let c := mkAccessContext AccessType.data_read 0 in
  on_memory (fun s => inr (missingMemoryFault (rb_name (block s)) address AccessType.data_read))
    (if width =? 1 then read8 address c else if width =? 2 then read16 address c else read32 address c).
Definition writeMemory (address width value : Z) : D (MemoryResult Z) :=
  let c := mkAccessContext AccessType.data_write 0 in
  on_memory (fun s => inr (missingMemoryFault (rb_name (block s)) address AccessType.data_write))
    (if width =? 1 then write8 address (u8 value) c
     else if width =? 2 then write16 address (u16 value) c else write32 address (u32 value) c).

(** *** Transfers *)

(** The addresses and widths of the next item of a channel. *)
Record Item := mkItem { it_source : Z; it_source_width : Z; it_destination : Z; it_destination_width : Z }.
Definition next_item (control transferred peripheral_address memory_address : Z) : Item :=
  let memory_to_peripheral := has control (1 .<< 4) in
  let peripheral_width := transferWidth ((control .>> 8) .& 0x3) in
  let memory_width := transferWidth ((control .>> 10) .& 0x3) in
  let peripheral_address :=
    if has control (1 .<< 6) then u32 (peripheral_address + u32 (transferred * peripheral_width)) else peripheral_address in
  let memory_address :=
    if has control (1 .<< 7) then u32 (memory_address + u32 (transferred * memory_width)) else memory_address in
  if memory_to_peripheral then mkItem memory_address memory_width peripheral_address peripheral_width
  else mkItem peripheral_address peripheral_width memory_address memory_width.

(** [read && writeMemory(...)]. *)
Definition move_item (item : Item) : D bool :=
  r ← readMemory (it_source item) (it_source_width item);
  match (r : MemoryResult Z) with
  | inl value =>
      w ← writeMemory (it_destination item) (it_destination_width item) value;
      mret (match (w : MemoryResult Z) with inl _ => true | inr _ => false end)
  | inr _ => mret false
  end.

Definition text_of (b : bool) : string := if b then "true" else "false".

Definition runChannelRequest (channel : Z) : D unit :=
  let base := channel_base channel in
  control ← regValue base;
  remaining_register ← regValue (base + 0x04);
  let remaining := remaining_register .& 0xffff in
  reload ← get (fun s => reload_count channel (db_dma s));
  if ((remaining =? 0) || (reload =? 0) : bool) then skip
  else
    peripheral_address ← regValue (base + 0x08);
    memory_address ← regValue (base + 0x0c);
    let memory_to_peripheral := has control (1 .<< 4) in
    success ← move_item (next_item control (u32 (reload - remaining)) peripheral_address memory_address);
    let next_remaining := if (success : bool) then remaining - 1 else remaining in
    setRegister (base + 0x04) next_remaining;;
    let complete := success && (next_remaining =? 0) in
    (if (complete : bool) then
       setChannelFlag channel 1;;
       if has control (1 .<< 5) then
         setRegister (base + 0x04) reload;;
         upd (set_channel_state channel ChannelState.armed)
       else
         current ← regValue base;
         setRegister base (current .& not32 1);;
         upd (set_channel_state channel ChannelState.completed)
     else if negb success then
       setChannelFlag channel 3;;
       current ← regValue base;
       setRegister base (current .& not32 1);;
       upd (set_channel_state channel ChannelState.failed)
     else upd (set_channel_state channel ChannelState.active));;
    now ← currentTime;
    upd (fun d : DmaPeripheral =>
      if dm_transfer_history_enabled d
      then {| d with dm_transfers := dm_transfers d ++ [mkDmaTransfer now channel 1 memory_to_peripheral success] |} else d);;
    passes ← tracePasses "dma_transfer";
    (if (passes : bool) then
       traceEvent "dma_transfer"
         [("channel", pretty channel); ("items", "1");
          ("direction", if memory_to_peripheral then "memory_to_peripheral" else "peripheral_to_memory");
          ("success", text_of success)]
     else skip);;
    let interrupt_enabled := if (complete : bool) then has control (1 .<< 1) else negb success && has control (1 .<< 3) in
    installed ← get (fun s => dm_interrupt_callback (db_dma s));
    if (interrupt_enabled && installed : bool) then emit (fx_interrupt channel) else skip.

Definition request (channel : Z) : D bool :=
  count ← channel_count;
  if ((channel =? 0) || (count <? channel) : bool) then mret false
  else
    let base := channel_base channel in
    control ← regValue base;
    remaining ← regValue (base + 0x04);
    if (negb (has control 1) || (remaining .& 0xffff =? 0) : bool) then mret false
    else runChannelRequest channel;; mret true.

(** [for (item = 0; item < count; ++item) if (!request(channel)) break;] *)
Fixpoint request_items (fuel : nat) (channel : Z) : D unit :=
  match fuel with
  | O => skip
  | S fuel => ok ← request channel; if (ok : bool) then request_items fuel channel else skip
  end.

(** *** Registers *)

Definition initializeChannel (channel : Z) : D unit :=
  remaining ← regValue (channel_base channel + 0x04);
  upd (fun d : DmaPeripheral => {| d with dm_reload_counts := rset (dm_reload_counts d) (channel - 1) (remaining .& 0xffff) |}).

Definition channelForOffset (offset count : Z) : option Z :=
  if offset <? first_channel then None
  else
    let relative := offset - first_channel in
    if negb (relative mod channel_stride =? 0) then None
    else
      let channel := relative / channel_stride + 1 in
      if channel <=? count then Some channel else None.

(** One channel of the loop that clears flags. *)
Definition clear_channel (clear status channel : Z) : Z :=
  let shift := channel * 4 in
  let flags := if has (clear .>> shift) 1 then 0xf else (clear .>> shift) .& 0xe in
  let status := status .& not32 (u32 (flags .<< shift)) in
  if status .& u32 (0xe .<< shift) =? 0 then status .& not32 (1 .<< shift) else status.

Definition dma_storeRegister (word_offset previous value write_mask : Z) (c : AccessContext) : D unit :=
  if word_offset =? dma_isr then
    setRegister dma_isr previous;;
    updateInterruptLevels
  else if word_offset =? dma_ifcr then
    status ← regValue dma_isr;
    count ← channel_count;
    let clear := value .& write_mask in
    setRegister dma_isr (foldl (clear_channel clear) status (seqZ 0 count));;
    setRegister dma_ifcr 0;;
    updateInterruptLevels;;
    refreshStoppedChannelStates
  else
    count ← channel_count;
    match channelForOffset word_offset count with
    | None => skip
    | Some channel =>
        let was_enabled := has previous 1 in
        let enabled := has value 1 in
        (if negb was_enabled && enabled then
           initializeChannel channel;;
           upd (set_channel_state channel ChannelState.armed);;
           (if has value (1 .<< 14) then
              items ← get (fun s => reload_count channel (db_dma s));
              request_items (Z.to_nat items) channel
            else skip);;
           installed ← get (fun s => dm_enable_callback (db_dma s));
           if (installed : bool) then emit (fx_dma_enable channel) else skip
         else if was_enabled && negb enabled then upd (set_channel_state channel ChannelState.disabled)
         else skip);;
        updateInterruptLevels
    end.

#[global] Instance dma_hooks : RegisterHooks (DmaBus M) :=
  {| loadRegister w _ := regValue w;
     storeRegister := dma_storeRegister;
     onReset := upd (fun d : DmaPeripheral => {| d with dm_channel_state := replicate 8 ChannelState.disabled |}) |}.

Definition dma_new (name : string) (count : Z) (memory : option M) (loop trace : bool) (env : Env) : DmaBus M :=
  let count := normalizedDmaChannels count in
  construct env (mkDmaBus (mkDma (block_init name (first_channel + count * channel_stride) loop trace) count
                             false false (replicate 8 0) (replicate 8 ChannelState.disabled) true []) memory).

(** *** The direct word write of the flag-clear register *)

Definition direct_status (status value count : Z) : Z :=
  let active := 0xffffffff .>> (32 - count * 4) in
  let clear := ((value .& 0xeeeeeeee) .| u32 ((value .& 0x11111111) * 15)) .& active in
  let status := status .& not32 clear in
  let occupied := ((status .>> 1) .| (status .>> 2) .| (status .>> 3)) .& 0x11111111 in
  status .& not32 ((not32 occupied .& 0x11111111) .& active).

Definition direct_levels (status count : Z) (b : RegBlock) : Z :=
  foldl (fun levels channel =>
    let flags := (status .>> (channel * 4)) .& 0xe in
    let control := registerValue (first_channel + channel * channel_stride) b in
    if has flags control then levels .| (1 .<< channel) else levels) 0 (seqZ 0 count).

(** [while (changed != 0)]: the set bits, lowest first. *)
Definition changed_channels (changed : Z) : list Z := filter (fun channel => Z.testbit changed channel = true) (seqZ 0 32).

(** [directClearFlags]; the result tells whether the write was performed. *)
Definition directClearFlags (value : Z) : D bool :=
  s ← get id;
  let d := db_dma s in
  let status := direct_status (registerValue dma_isr (dm_block d)) value (dm_channel_count d) in
  let levels := direct_levels status (dm_channel_count d) (dm_block d) in
  let previous_levels := interruptLevelMask (dm_block d) in
  if (has levels (not32 previous_levels) : bool) then mret false
  else
    let changed := previous_levels .^ levels in
    if (negb (changed =? 0) && negb (deviceLocalInterruptRouting (dm_block d)) : bool) then mret false
    else
      setRegister dma_isr status;;
      setRegister dma_ifcr 0;;
      refreshStoppedChannelStates;;
      for_each (fun channel => setInterruptLevel channel false) (changed_channels changed);;
      mret true.
End controller.
End Dma.

Module Dmamux.
Definition normalizedMuxChannels (count : Z) : Z := Z.min (Z.max count 1) 16.

Record DmamuxPeripheral := mkDmamux {
  mx_block : RegBlock;
  mx_channel_count : Z;
  mx_routing_generation : Z;
}.
#[global] Instance dmamux_has_block : HasBlock DmamuxPeripheral :=
  {| block := mx_block; with_block f d := {| d with mx_block := f (mx_block d) |} |}.

Definition requestForChannel (channel : Z) (d : DmamuxPeripheral) : Z :=
  if mx_channel_count d <=? channel then 0 else registerValue (channel * 4) (mx_block d) .& 0x7f.

Definition dmamux_storeRegister (word_offset previous value write_mask : Z) (c : AccessContext) : Dev DmamuxPeripheral unit :=
  count ← get mx_channel_count;
  if (word_offset <? count * 4 : bool) then
    (if negb (previous .& 0x7f =? value .& 0x7f)
     then modify (fun d : DmamuxPeripheral => {| d with mx_routing_generation := u64 (mx_routing_generation d + 1) |}) else skip);;
    traceEvent "dmamux_request" [("channel", pretty (word_offset / 4)); ("request", pretty (value .& 0x7f))]
  else if word_offset =? 0x80 then setRegister word_offset previous
  else if word_offset =? 0x84 then
    flags ← regValue 0x80;
    setRegister 0x80 (flags .& not32 value);;
    setRegister 0x84 0
  else skip.
#[global] Instance dmamux_hooks : RegisterHooks DmamuxPeripheral :=
  {| loadRegister w _ := regValue w; storeRegister := dmamux_storeRegister; onReset := skip |}.

Definition dmamux_new (name : string) (count : Z) (loop trace : bool) (env : Env) : DmamuxPeripheral :=
  construct env (mkDmamux (block_init name 0x100 loop trace) (normalizedMuxChannels count) 1).
End Dmamux.
