(* ===== verification/DmaProofs.v ===== *)
(** * Proofs about the DMA controller

    The direct word write of the flag-clear register against the ordinary register write, and the
    invariant of the channel states, flags and interrupt levels. *)

From S2P Require Import Prelude Address Common Trace CpuState CpuStateProofs MemoryApi.
From S2P Require Import Peripheral PeripheralProofs Dma.
#[local] Open Scope Z_scope.
#[local] Open Scope fil_scope.

Import Dma.

(** ** Clearing flags *)

(** Bit [4 k + r] of the status after the flags [clear] were cleared. *)
Definition kept (clear status : Z) (k r : Z) : bool :=
  Z.testbit status (4 * k + r) && negb (Z.testbit clear (4 * k) || Z.testbit clear (4 * k + r)).
Definition cleared_bit (clear status : Z) (k r : Z) : bool :=
  if r =? 0
  then Z.testbit status (4 * k) && negb (Z.testbit clear (4 * k))
       && (kept clear status k 1 || kept clear status k 2 || kept clear status k 3)
  else kept clear status k r.

Lemma cleared_bit_agree clear status status' k r : 0 <= r < 4 ->
  (∀ j, 0 <= j < 4 -> Z.testbit status' (4 * k + j) = Z.testbit status (4 * k + j)) ->
  cleared_bit clear status' k r = cleared_bit clear status k r.
Proof.
  intros Hr Hs. unfold cleared_bit, kept. rewrite !Hs by lia.
  specialize (Hs 0 ltac:(lia)). rewrite !Z.add_0_r in Hs. by rewrite Hs.
Qed.

Lemma nibble_index k r : 0 <= r < 4 -> (4 * k + r) / 4 = k /\ (4 * k + r) mod 4 = r.
Proof. intros Hr. rewrite Z.mul_comm, Z.div_add_l, (Z.add_comm (k * 4)), Z_mod_plus_full, Z.div_small, Z.mod_small by lia. lia. Qed.

(** A nibble moved to its channel. *)
Lemma nibble_bit flags k i : 0 <= flags < 16 -> 0 <= k < 8 -> 0 <= i < 32 ->
  Z.testbit (u32 (flags .<< (k * 4))) i = (i / 4 =? k) && Z.testbit flags (i mod 4).
Proof.
  intros Hf Hk Hi. unfold u32. change 0x100000000 with (2 ^ 32).
  rewrite Z.mod_pow2_bits_low, Z.shiftl_spec by lia. pose proof (Z.div_mod i 4). pose proof (Z.mod_pos_bound i 4).
  destruct (Z.eqb_spec (i / 4) k) as [<-|Hne]; cbn; [f_equal; lia|].
  destruct (Z.lt_ge_cases i (k * 4)); [by rewrite Z.testbit_neg_r by lia|].
  apply (high_bits_clear 4); lia.
Qed.

(** The flags that a clear request names in the nibble of a channel. *)
Definition clear_flags (clear k : Z) : Z :=
  if has (clear .>> (k * 4)) 1 then 0xf else (clear .>> (k * 4)) .& 0xe.
Lemma clear_flags_range clear k : 0 <= clear_flags clear k < 16.
Proof. unfold clear_flags. pose proof (land_bounds_r (clear .>> (k * 4)) 0xe). destruct (has _ _); lia. Qed.
Lemma clear_flags_bit clear k r : 0 <= k -> 0 <= r < 4 ->
  Z.testbit (clear_flags clear k) r = Z.testbit clear (4 * k) || Z.testbit clear (4 * k + r).
Proof.
  intros Hk Hr. unfold clear_flags. rewrite has_shiftr_bit by lia. replace (k * 4) with (4 * k) by lia.
  destruct (Z.testbit clear (4 * k)) eqn:E.
  - assert (r = 0 \/ r = 1 \/ r = 2 \/ r = 3) by lia. by destruct_or!; subst.
  - rewrite Z.land_spec, Z.shiftr_spec, (Z.add_comm r) by lia. assert (r = 0 \/ r = 1 \/ r = 2 \/ r = 3) by lia.
    destruct_or!; subst; cbn; rewrite ?andb_true_r; try done. by rewrite Z.add_0_r, E.
Qed.

Lemma nibble_empty status k : 0 <= k < 8 ->
  (status .& u32 (0xe .<< (k * 4)) =? 0)
  = negb (Z.testbit status (4 * k + 1) || Z.testbit status (4 * k + 2) || Z.testbit status (4 * k + 3)).
Proof.
  intros Hk. replace (u32 (0xe .<< (k * 4))) with ((1 .<< (4 * k + 1)) .| (1 .<< (4 * k + 2)) .| (1 .<< (4 * k + 3))).
  - rewrite <- (negb_involutive (_ =? 0)). fold (has status ((1 .<< (4 * k + 1)) .| (1 .<< (4 * k + 2)) .| (1 .<< (4 * k + 3)))).
    by rewrite !has_lor_r, !has_testbit by lia.
  - assert (k = 0 \/ k = 1 \/ k = 2 \/ k = 3 \/ k = 4 \/ k = 5 \/ k = 6 \/ k = 7) by lia. by destruct_or!; subst.
Qed.

Lemma clear_channel_bit clear status k i : is_u32 status -> 0 <= k < 8 -> 0 <= i < 32 ->
  Z.testbit (clear_channel clear status k) i
  = if i / 4 =? k then cleared_bit clear status k (i mod 4) else Z.testbit status i.
Proof.
  intros Hs Hk Hi. unfold clear_channel. cbv zeta. fold (clear_flags clear k).
  pose proof (clear_flags_range clear k). set (st := status .& not32 _).
  assert (∀ j, 0 <= j < 32 -> Z.testbit st j
    = Z.testbit status j && negb ((j / 4 =? k) && Z.testbit (clear_flags clear k) (j mod 4))) as Hst.
  { intros j Hj. unfold st. by rewrite Z.land_spec, not32_testbit, nibble_bit by lia. }
  assert (∀ r, 1 <= r < 4 -> Z.testbit st (4 * k + r) = kept clear status k r) as Hkept.
  { intros r Hr. rewrite Hst by lia. destruct (nibble_index k r) as [-> ->]; [lia|].
    rewrite Z.eqb_refl, clear_flags_bit by lia. done. }
  rewrite nibble_empty by done. rewrite !Hkept by lia.
  pose proof (Z.div_mod i 4). pose proof (Z.mod_pos_bound i 4).
  assert (Z.testbit (if negb (kept clear status k 1 || kept clear status k 2 || kept clear status k 3)
                     then st .& not32 (1 .<< (k * 4)) else st) i
          = Z.testbit st i && negb ((i =? 4 * k) && negb (kept clear status k 1 || kept clear status k 2 || kept clear status k 3))) as ->.
  { destruct (negb _); [|by rewrite andb_false_r, andb_true_r].
    rewrite Z.land_spec, not32_testbit, Z.shiftl_1_l, Z.pow2_bits_eqb, andb_true_r by lia.
    f_equal. f_equal. destruct (Z.eqb_spec (k * 4) i), (Z.eqb_spec i (4 * k)); lia. }
  rewrite Hst by done. unfold cleared_bit, kept. destruct (Z.eqb_spec (i / 4) k) as [Ek|Ek]; cbn.
  - rewrite clear_flags_bit by lia. replace (4 * k + i mod 4) with i by lia.
    destruct (Z.eqb_spec (i mod 4) 0), (Z.eqb_spec i (4 * k)); try lia; cbn; [|by rewrite andb_true_r].
    replace (4 * k) with i by lia. by rewrite orb_diag, negb_involutive.
  - rewrite andb_true_r. destruct (Z.eqb_spec i (4 * k)); [lia|]. by rewrite andb_true_r.
Qed.

Lemma clear_channel_range clear status k : is_u32 status -> is_u32 (clear_channel clear status k).
Proof. intros Hs. unfold clear_channel. cbv zeta. destruct (_ =? 0); u32_auto. Qed.

Definition cleared_status (clear status count : Z) : Z := foldl (clear_channel clear) status (seqZ 0 count).
Lemma cleared_status_range clear status n : is_u32 status -> is_u32 (cleared_status clear status n).
Proof.
  unfold cleared_status. generalize (seqZ 0 n). intros l. revert status.
  induction l as [|k l IH]; intros status Hs; [done|]. by apply IH, clear_channel_range.
Qed.
Lemma cleared_status_bit clear status n i : is_u32 status -> 0 <= n <= 8 -> 0 <= i < 32 ->
  Z.testbit (cleared_status clear status n) i
  = if i / 4 <? n then cleared_bit clear status (i / 4) (i mod 4) else Z.testbit status i.
Proof.
  intros Hs Hn. replace n with (Z.of_nat (Z.to_nat n)) in * by lia. revert Hn. generalize (Z.to_nat n) as m. clear n.
  intros m. revert i. induction m as [|m IH]; intros i Hm Hi.
  { pose proof (Z.div_pos i 4). change (Z.of_nat 0) with 0. destruct (Z.ltb_spec (i / 4) 0); [lia|done]. }
  replace (Z.of_nat (S m)) with (Z.of_nat m + 1) by lia. unfold cleared_status. rewrite seqZ_app, foldl_app by lia.
  fold (cleared_status clear status (Z.of_nat m)). change (seqZ (0 + Z.of_nat m) 1) with [0 + (0 + Z.of_nat m)]. cbn [foldl].
  rewrite clear_channel_bit by (try apply cleared_status_range; done || lia).
  pose proof (Z.div_mod i 4). pose proof (Z.mod_pos_bound i 4).
  replace (0 + (0 + Z.of_nat m)) with (Z.of_nat m) by lia.
  destruct (Z.eqb_spec (i / 4) (Z.of_nat m)) as [E|E].
  - rewrite (proj2 (Z.ltb_lt (i / 4) (Z.of_nat m + 1))), E by lia. apply cleared_bit_agree; [lia|].
    intros j Hj. rewrite IH by lia. destruct (nibble_index (Z.of_nat m) j) as [-> _]; [done|].
    by rewrite Z.ltb_irrefl.
  - rewrite IH by lia. by replace (i / 4 <? Z.of_nat m + 1) with (i / 4 <? Z.of_nat m)
      by (destruct (Z.ltb_spec (i / 4) (Z.of_nat m)), (Z.ltb_spec (i / 4) (Z.of_nat m + 1)); lia).
Qed.

(** *** The parallel form of the direct write *)

Lemma summary_mask_bit i : -4 <= i < 36 -> Z.testbit 0x11111111 i = (0 <=? i) && (i <? 32) && (i mod 4 =? 0).
Proof.
  intros Hi. assert (i ∈ seqZ (-4) 40) as H by (apply elem_of_seqZ; lia). revert i Hi H.
  enough (Forall (fun i => Z.testbit 0x11111111 i = (0 <=? i) && (i <? 32) && (i mod 4 =? 0)) (seqZ (-4) 40)) as Hall.
  { intros i _ Hi. by rewrite Forall_forall in Hall; apply Hall. }
  by apply (bool_decide_unpack _).
Qed.
Lemma flag_mask_bit i : 0 <= i < 32 -> Z.testbit 0xeeeeeeee i = negb (i mod 4 =? 0).
Proof.
  intros Hi. assert (i ∈ seqZ 0 32) as H by (apply elem_of_seqZ; lia). revert i Hi H.
  enough (Forall (fun i => Z.testbit 0xeeeeeeee i = negb (i mod 4 =? 0)) (seqZ 0 32)) as Hall.
  { intros i _ Hi. by rewrite Forall_forall in Hall; apply Hall. }
  by apply (bool_decide_unpack _).
Qed.
Lemma active_bit count i : 1 <= count <= 8 -> 0 <= i < 32 ->
  Z.testbit (0xffffffff .>> (32 - count * 4)) i = (i / 4 <? count).
Proof.
  intros Hc Hi. rewrite Z.shiftr_spec by lia. pose proof (Z.div_mod i 4). pose proof (Z.mod_pos_bound i 4).
  change 0xffffffff with (Z.ones 32). destruct (Z.ltb_spec (i / 4) count);
    [apply Z.ones_spec_low | apply Z.ones_spec_high]; lia.
Qed.

(** Multiplying the summary bits by 15 fills their nibbles. *)
Lemma disjoint_add x y : x .& y = 0 -> x + y = x .| y.
Proof. intros E. rewrite Z.add_nocarry_lxor by done. by apply Z.lxor_lor. Qed.
Lemma sparse_disjoint x a b : x .& 0x11111111 = x -> 0 <= a < 4 -> 0 <= b < 4 -> a <> b -> (x .<< a) .& (x .<< b) = 0.
Proof.
  intros E Ha Hb Hne. apply Z.bits_inj'. intros i Hi. rewrite Z.land_spec, !Z.shiftl_spec, Z.bits_0 by done.
  rewrite <- E. rewrite !Z.land_spec. destruct (Z.lt_ge_cases i 36).
  - rewrite !summary_mask_bit by lia. apply not_true_is_false. intros H'.
    repeat (apply andb_true_iff in H' as [H' ?]). rewrite !andb_true_iff, !Z.eqb_eq in *. destruct_and!.
    pose proof (Z.div_mod (i - a) 4). pose proof (Z.div_mod (i - b) 4). lia.
  - rewrite (high_bits_clear 32 0x11111111 (i - a)) by lia. by rewrite andb_false_r.
Qed.
Lemma spread_summary x : x .& 0x11111111 = x ->
  u32 (x * 15) = x .| (x .<< 1) .| (x .<< 2) .| (x .<< 3).
Proof.
  intros E. assert (0 <= x <= 0x11111111) by (rewrite <- E; apply land_bounds_r; lia).
  rewrite u32_small by width_lia. pose proof (sparse_disjoint x) as D.
  rewrite <- (disjoint_add x (x .<< 1)).
  2: { rewrite <- (Z.shiftl_0_r x) at 1. apply D; done || lia. }
  pose proof (Z.shiftl_mul_pow2 x 1). pose proof (Z.shiftl_mul_pow2 x 2). pose proof (Z.shiftl_mul_pow2 x 3).
  assert ((x .| (x .<< 1)) .& (x .<< 2) = 0) as D2.
  { rewrite Z.land_lor_distr_l, D by (done || lia). rewrite <- (Z.shiftl_0_r x) at 1. by rewrite D by (done || lia). }
  assert ((x .| (x .<< 1) .| (x .<< 2)) .& (x .<< 3) = 0) as D3.
  { rewrite !Z.land_lor_distr_l, !D by (done || lia). rewrite <- (Z.shiftl_0_r x) at 1. by rewrite D by (done || lia). }
  rewrite <- (disjoint_add x (x .<< 1)) in D2, D3 by (rewrite <- (Z.shiftl_0_r x) at 1; apply D; done || lia).
  rewrite <- disjoint_add in D3 by done. rewrite <- disjoint_add by (by rewrite <- disjoint_add by done).
  rewrite <- disjoint_add by done. lia.
Qed.

Lemma direct_clear_bit value count i : 1 <= count <= 8 -> 0 <= i < 32 ->
  Z.testbit (((value .& 0xeeeeeeee) .| u32 ((value .& 0x11111111) * 15)) .& (0xffffffff .>> (32 - count * 4))) i
  = (i / 4 <? count) && (Z.testbit value (4 * (i / 4)) || Z.testbit value i).
Proof.
  intros Hc Hi. rewrite spread_summary by (by rewrite <- Z.land_assoc).
  rewrite Z.land_spec, active_bit, !Z.lor_spec, !Z.shiftl_spec, !Z.land_spec, flag_mask_bit, !summary_mask_bit by lia.
  rewrite andb_comm. f_equal. pose proof (Z.div_mod i 4). pose proof (Z.mod_pos_bound i 4).
  set (k := i / 4) in *. set (r := i mod 4) in *.
  assert (∀ a, 0 <= a < 4 -> (0 <=? i - a) && (i - a <? 32) && ((i - a) mod 4 =? 0) = (r =? a)) as Hm.
  { intros a Ha. destruct (Z.eqb_spec r a) as [Er|Er].
    - replace (i - a) with (4 * k) by lia. rewrite (Z.mul_comm 4 k), Z.mod_mul by lia.
      rewrite (proj2 (Z.leb_le _ _)), (proj2 (Z.ltb_lt _ _)) by lia. done.
    - apply not_true_is_false. rewrite !andb_true_iff, Z.eqb_eq. intros [_ E].
      pose proof (Z.div_mod (i - a) 4). lia. }
  rewrite !Hm, (proj2 (Z.leb_le 0 i)), (proj2 (Z.ltb_lt i 32)) by lia.
  assert (r = 0 \/ r = 1 \/ r = 2 \/ r = 3) as Hr by lia.
  destruct Hr as [E|[E|[E|E]]]; rewrite E in *; cbn; rewrite ?andb_true_r, ?andb_false_r, ?orb_false_r; cbn.
  - replace (4 * k) with i by lia. by destruct (Z.testbit value i).
  - replace (4 * k) with (i - 1) by lia. by rewrite orb_comm.
  - replace (4 * k) with (i - 2) by lia. by rewrite orb_comm.
  - replace (4 * k) with (i - 3) by lia. by rewrite orb_comm.
Qed.

Lemma direct_status_range status value count : is_u32 status -> is_u32 (direct_status status value count).
Proof. intros Hs. unfold direct_status. cbv zeta. u32_auto. Qed.

(** The parallel form computes the status that the loop over the channels computes. *)
Lemma direct_status_eq status value count : is_u32 status -> 1 <= count <= 8 ->
  direct_status status value count = cleared_status value status count.
Proof.
  intros Hs Hc. apply u32_bits; [by apply direct_status_range|by apply cleared_status_range|].
  apply Forall_forall. intros i [Hi1 Hi2]%elem_of_seqZ. assert (0 <= i < 32) as Hi by lia. clear Hi1 Hi2.
  rewrite cleared_status_bit by (done || lia). unfold direct_status. cbv zeta. set (st := status .& not32 _).
  assert (∀ j, 0 <= j < 32 -> Z.testbit st j
    = Z.testbit status j && negb ((j / 4 <? count) && (Z.testbit value (4 * (j / 4)) || Z.testbit value j))) as Hst.
  { intros j Hj. unfold st. by rewrite Z.land_spec, not32_testbit, direct_clear_bit by lia. }
  clearbody st. pose proof (active_bit count i Hc Hi) as Hact. set (active := 0xffffffff .>> _) in *. clearbody active.
  pose proof (Z.div_mod i 4). pose proof (Z.mod_pos_bound i 4).
  rewrite Z.land_spec, not32_testbit, !Z.land_spec, not32_testbit, Z.land_spec, !Z.lor_spec, !Z.shiftr_spec by lia.
  rewrite Hact, summary_mask_bit, (proj2 (Z.leb_le 0 i)), (proj2 (Z.ltb_lt i 32)), (Hst i) by lia. cbn [andb].
  set (k := i / 4) in *. set (r := i mod 4) in *. unfold cleared_bit. destruct (Z.ltb_spec k count) as [Hk|Hk]; cbn [andb].
  - destruct (Z.eqb_spec r 0) as [Er|Er].
    + assert (∀ a, 1 <= a < 4 -> Z.testbit st (i + a) = kept value status k a) as Hn.
      { intros a Ha. rewrite Hst by lia. replace (i + a) with (4 * k + a) by lia.
        destruct (nibble_index k a) as [-> _]; [lia|]. by rewrite (proj2 (Z.ltb_lt k count)) by done. }
      rewrite !Hn by lia. replace i with (4 * k) by lia. rewrite orb_diag, !andb_true_r, negb_involutive. done.
    + unfold kept. replace (4 * k + r) with i by lia. by rewrite andb_false_r, andb_true_r.
  - by rewrite !andb_false_r, !andb_true_r.
Qed.

(** ** Interrupt levels *)

Lemma flags_and_control x c :
  has (x .& 0xe) c = (Z.testbit x 1 && Z.testbit c 1) || (Z.testbit x 2 && Z.testbit c 2) || (Z.testbit x 3 && Z.testbit c 3).
Proof.
  rewrite has_land, (Z.land_comm 0xe c). change 0xe with (2 ^ 1 .| 2 ^ 2 .| 2 ^ 3).
  rewrite !Z.land_lor_distr_r, !land_pow2, !has_lor_r by done.
  assert (∀ k, 0 <= k -> has x (if Z.testbit c k then 2 ^ k else 0) = Z.testbit x k && Z.testbit c k) as Hk.
  { intros k Hk. destruct (Z.testbit c k); [by rewrite has_pow2, andb_true_r|]. unfold has. by rewrite Z.land_0_r, andb_false_r. }
  by rewrite !Hk by done.
Qed.

(** Whether channel [k], counted from 0, requests its interrupt. *)
Definition asserted (status : Z) (b : RegBlock) (k : Z) : bool :=
  channel_asserted status (registerValue (channel_base (k + 1)) b) (k + 1).
Lemma asserted_bits status b k : 0 <= k ->
  asserted status b k = has ((status .>> (k * 4)) .& 0xe) (registerValue (channel_base (k + 1)) b).
Proof.
  intros Hk. rewrite flags_and_control, !Z.shiftr_spec by lia. unfold asserted, channel_asserted.
  replace (k + 1 - 1) with k by lia. rewrite !has_testbit by lia. by rewrite !(Z.add_comm (k * 4)).
Qed.

Lemma fold_levels_bit (p : Z -> bool) l acc j : (∀ k, k ∈ l -> 0 <= k) -> 0 <= j ->
  Z.testbit (foldl (fun levels k => if p k then levels .| (1 .<< k) else levels) acc l) j
  = Z.testbit acc j || (bool_decide (j ∈ l) && p j).
Proof.
  revert acc. induction l as [|k l IH]; intros acc Hl Hj; cbn [foldl].
  { rewrite bool_decide_eq_false_2 by apply not_elem_of_nil. by rewrite orb_false_r. }
  rewrite IH by (done || (intros; apply Hl; by right)). specialize (Hl k ltac:(by left)).
  assert (Z.testbit (if p k then acc .| 1 .<< k else acc) j = Z.testbit acc j || (bool_decide (j = k) && p j)) as ->.
  { destruct (bool_decide_reflect (j = k)) as [->|Hne]; destruct (p k); cbn [andb]; rewrite ?orb_false_r, ?Z.lor_spec; try done.
    - by rewrite Z.shiftl_1_l, Z.pow2_bits_true.
    - by rewrite Z.shiftl_1_l, Z.pow2_bits_false, orb_false_r by done. }
  rewrite <- orb_assoc. f_equal. rewrite <- andb_orb_distrib_l. f_equal.
  rewrite <- bool_decide_or. apply bool_decide_ext. by rewrite elem_of_cons.
Qed.
Lemma direct_levels_bit status count b j : 0 <= j ->
  Z.testbit (direct_levels status count b) j = (j <? count) && asserted status b j.
Proof.
  intros Hj. unfold direct_levels.
  assert (∀ l acc, (∀ k, k ∈ l -> 0 <= k) ->
    foldl (fun levels k => if has ((status .>> (k * 4)) .& 0xe) (registerValue (first_channel + k * channel_stride) b)
                           then levels .| (1 .<< k) else levels) acc l
    = foldl (fun levels k => if asserted status b k then levels .| (1 .<< k) else levels) acc l) as E.
  { induction l as [|k l IH]; intros acc Hl; [done|]. cbn [foldl].
    rewrite asserted_bits by (apply Hl; by left). unfold channel_base. replace (k + 1 - 1) with k by lia.
    apply IH. intros k' Hk'. apply Hl. by right. }
  cbv zeta. rewrite E by (intros k; rewrite elem_of_seqZ; lia).
  rewrite fold_levels_bit by (done || (intros k; rewrite elem_of_seqZ; lia)). rewrite Z.bits_0. cbn.
  f_equal. rewrite (bool_decide_ext _ (j < count)) by (rewrite elem_of_seqZ; lia).
  destruct (Z.ltb_spec j count); [by apply bool_decide_eq_true_2 | by apply bool_decide_eq_false_2; lia].
Qed.

Lemma level_mask_bit b j : 0 <= j -> Z.testbit (interruptLevelMask b) j = (j <? 8) && level j b.
Proof.
  intros Hj. unfold interruptLevelMask. assert (∀ l, (∀ k, k ∈ l -> 0 <= k) ->
    Z.testbit (foldr (fun line mask => (if level line b then 1 .<< line else 0) .| mask) 0 l) j = bool_decide (j ∈ l) && level j b) as H.
  { induction l as [|k l IH]; intros Hl; cbn [foldr].
    { by rewrite bool_decide_eq_false_2, Z.bits_0 by apply not_elem_of_nil. }
    rewrite Z.lor_spec, IH by (intros; apply Hl; by right). specialize (Hl k ltac:(by left)).
    rewrite (bool_decide_ext (j ∈ k :: l) (j = k \/ j ∈ l)), bool_decide_or, andb_orb_distrib_l by by rewrite elem_of_cons.
    f_equal. destruct (bool_decide_reflect (j = k)) as [->|Hne]; destruct (level k b); rewrite ?Z.bits_0; try done.
    - by rewrite Z.shiftl_1_l, Z.pow2_bits_true.
    - by rewrite Z.shiftl_1_l, Z.pow2_bits_false. }
  rewrite H by (intros k; rewrite elem_of_seqZ; lia). f_equal.
  rewrite (bool_decide_ext _ (j < 8)) by (rewrite elem_of_seqZ; lia).
  destruct (Z.ltb_spec j 8); [by apply bool_decide_eq_true_2 | by apply bool_decide_eq_false_2; lia].
Qed.

(** ** Loops of the controller *)

Section controller.
Context {M : Type} `{CpuMemory M}.
Implicit Types (s : DmaBus M) (b : RegBlock).

Lemma for_each_modify {A} (f : A -> DmaBus M -> DmaBus M) l env s :
  for_each (fun x => modify (f x)) l env s = (inl tt, foldl (fun s x => f x s) s l, []).
Proof. revert s. induction l as [|x l IH]; intros s; [done|]. cbn [for_each]. rewrite modify_bind. apply IH. Qed.
Lemma for_each_fmap {A B} (f : B -> Dev (DmaBus M) unit) (g : A -> B) l : for_each f (g <$> l) = for_each (fun x => f (g x)) l.
Proof. induction l as [|x l IH]; [done|]. cbn. by rewrite IH. Qed.

Definition set_levels (ls : list bool) b : RegBlock := {| b with rb_interrupt_levels := ls |}.
(** The levels [ls] with the lines of [l] driven to [g]. *)
Definition driven (g : Z -> bool) (ls : list bool) (l : list Z) : list bool :=
  foldl (fun ls k => <[Z.to_nat k := g k]> ls) ls l.
Definition level_change (callback : bool) (ls : list bool) (g : Z -> bool) (k : Z) : list Effect :=
  if Bool.eqb (default false (ls !! Z.to_nat k)) (g k) then []
  else if callback then [fx_interrupt_level k (g k)] else [].

Lemma driven_lookup g ls l j : (∀ k, k ∈ l -> 0 <= k < Z.of_nat (length ls)) -> 0 <= j ->
  default false (driven g ls l !! Z.to_nat j) = if bool_decide (j ∈ l) then g j else default false (ls !! Z.to_nat j).
Proof.
  revert ls. induction l as [|k l IH]; intros ls Hl Hj; cbn [driven foldl].
  { by rewrite bool_decide_eq_false_2 by apply not_elem_of_nil. }
  fold (driven g (<[Z.to_nat k := g k]> ls) l). rewrite IH; [|intros k' Hk'; rewrite length_insert; apply Hl; by right|done].
  specialize (Hl k ltac:(by left)).
  destruct (bool_decide_reflect (j ∈ l)) as [Hin|Hin]; [by rewrite bool_decide_eq_true_2 by (by right)|].
  destruct (decide (j = k)) as [->|Hne].
  - rewrite bool_decide_eq_true_2 by (by left). by rewrite list_lookup_insert_eq by lia.
  - rewrite bool_decide_eq_false_2 by (by apply not_elem_of_cons). by rewrite list_lookup_insert_ne by lia.
Qed.
Lemma driven_length g ls l : length (driven g ls l) = length ls.
Proof.
  revert ls. induction l as [|k l IH]; intros ls; [done|].
  change (length (driven g (<[Z.to_nat k := g k]> ls) l) = length ls). by rewrite IH, length_insert.
Qed.

(** A loop that drives each line of a list once. *)
Lemma levels_run (f : Z -> Dev (DmaBus M) unit) g l env s ls :
  NoDup l -> (∀ k, k ∈ l -> 0 <= k < 8) -> length ls = 8%nat ->
  (∀ k ls, k ∈ l -> f k env (with_block (set_levels ls) s) = setInterruptLevel k (g k) env (with_block (set_levels ls) s)) ->
  for_each f l env (with_block (set_levels ls) s)
  = (inl tt, with_block (set_levels (driven g ls l)) s, l ≫= level_change (rb_level_callback (block s)) ls g).
Proof.
  revert ls. induction l as [|k l IH]; intros ls Hnd Hl Hn Hf; [done|]. apply NoDup_cons in Hnd as [Hk Hnd].
  assert (0 <= k < 8) as Hk8 by (apply Hl; by left).
  assert (f k env (with_block (set_levels ls) s)
    = (inl tt, with_block (set_levels (<[Z.to_nat k := g k]> ls)) s, level_change (rb_level_callback (block s)) ls g k)) as E.
  { rewrite Hf by (by left). unfold setInterruptLevel, level_change. rewrite (proj2 (Z.leb_gt 8 k)) by lia. cbn [orb].
    unfold level. cbn [block dma_has_block db_dma with_block dm_block set_levels rb_interrupt_levels].
    destruct (Bool.eqb _ _) eqn:Eb; [|done]. apply eqb_prop in Eb. rewrite list_insert_id; [done|].
    destruct (ls !! Z.to_nat k) eqn:El; [by rewrite <- Eb|]. apply lookup_ge_None in El. lia. }
  cbn [for_each]. rewrite (bind_inl _ _ _ _ _ _ _ E), IH; [|done|intros; apply Hl; by right|by rewrite length_insert
    |intros; apply Hf; by right].
  cbn [mbind list_bind]. f_equal. f_equal. apply Forall_bind_ext, Forall_forall. intros j Hj. unfold level_change.
  rewrite list_lookup_insert_ne; [done|]. intros E'. apply Hk. assert (0 <= j < 8) by (apply Hl; by right). by replace k with j by lia.
Qed.

Lemma updateInterruptLevels_run env s : length (rb_interrupt_levels (block s)) = 8%nat -> 1 <= dm_channel_count (db_dma s) <= 8 ->
  let g := asserted (registerValue dma_isr (block s)) (block s) in
  let ls := rb_interrupt_levels (block s) in
  let l := seqZ 0 (dm_channel_count (db_dma s)) in
  updateInterruptLevels env s
  = (inl tt, with_block (set_levels (driven g ls l)) s, l ≫= level_change (rb_level_callback (block s)) ls g).
Proof.
  intros Hn Hc. cbv zeta. unfold updateInterruptLevels. rewrite regValue_bind. unfold channel_count. rewrite get_bind.
  assert (∀ n, seqZ 1 n = Z.add 1 <$> seqZ 0 n) as -> by (intros n; by rewrite fmap_add_seqZ).
  rewrite for_each_fmap.
  assert (with_block (set_levels (rb_interrupt_levels (block s))) s = s) as Es by by destruct s as [[[] ] ?].
  match goal with |- for_each ?f _ _ _ = (_, with_block (set_levels (driven ?g ?ls ?l)) _, _) =>
    pose proof (levels_run f g l env s ls) as R end.
  rewrite Es in R. apply R; [apply NoDup_seqZ|intros k; rewrite elem_of_seqZ; lia|done|].
  intros k ls [Hk _]%elem_of_seqZ. rewrite regValue_bind. f_equal; [lia|]. unfold asserted. by rewrite (Z.add_comm k 1).
Qed.

(** *** Channel states after flags were cleared *)

Definition refreshed (status : Z) (l : list Z) s : DmaBus M :=
  foldl (fun s k => mkDmaBus (set_channel_state k (refreshed_state status k (channel_state k (db_dma s))) (db_dma s)) (db_memory s)) s l.
Lemma refreshed_cons status k l s : refreshed status (k :: l) s
  = refreshed status l (mkDmaBus (set_channel_state k (refreshed_state status k (channel_state k (db_dma s))) (db_dma s)) (db_memory s)).
Proof. done. Qed.
Lemma refresh_states_run env s : refreshStoppedChannelStates env s
  = (inl tt, refreshed (registerValue dma_isr (block s)) (seqZ 1 (dm_channel_count (db_dma s))) s, []).
Proof.
  unfold refreshStoppedChannelStates. rewrite regValue_bind. unfold channel_count. rewrite get_bind.
  exact (for_each_modify (fun k s => mkDmaBus (set_channel_state k (refreshed_state _ k (channel_state k (db_dma s))) (db_dma s)) (db_memory s)) _ env s).
Qed.
Lemma refreshed_block status l s f : refreshed status l (with_block f s) = with_block f (refreshed status l s).
Proof. revert s. induction l as [|k l IH]; intros s; [done|]. rewrite !refreshed_cons, <- IH. done. Qed.
Lemma refreshed_frame status l s : block (refreshed status l s) = block s
  /\ dm_channel_count (db_dma (refreshed status l s)) = dm_channel_count (db_dma s)
  /\ dm_reload_counts (db_dma (refreshed status l s)) = dm_reload_counts (db_dma s).
Proof.
  revert s. induction l as [|k l IH]; intros s; [done|]. rewrite refreshed_cons.
  match goal with |- context [refreshed _ l ?t] => by destruct (IH t) as (->&->&->) end.
Qed.

(** ** The direct write of the flag-clear register *)

Record dma_shape s : Prop := mk_dma_shape {
  ds_block : block_ok (block s);
  ds_count : 1 <= dm_channel_count (db_dma s) <= 8;
  ds_size : rb_block_size (block s) = first_channel + dm_channel_count (db_dma s) * channel_stride;
  ds_reset : Forall (eq 0) (rb_reset_values (block s));
}.
Definition unused_levels_low s : Prop := ∀ k, dm_channel_count (db_dma s) <= k < 8 -> level k (block s) = false.

Lemma dma_aligned s w : dma_shape s -> w = dma_isr \/ w = dma_ifcr -> aligned_register w (block s) = true.
Proof.
  intros [_ Hc Hs _] Hw. unfold aligned_register. rewrite Hs. unfold first_channel, channel_stride.
  destruct Hw as [->| ->]; apply andb_true_iff; (split; [done|]); apply Z.ltb_lt; unfold dma_isr, dma_ifcr; lia.
Qed.
Lemma set_clear_registers b S v : aligned_register dma_isr b = true -> aligned_register dma_ifcr b = true ->
  set_register dma_ifcr 0 (set_register dma_isr S (set_register dma_ifcr v b))
  = set_register dma_ifcr 0 (set_register dma_isr S b).
Proof.
  intros E0 E4. assert (∀ w v b', aligned_register w b = true -> rb_block_size b' = rb_block_size b ->
    set_register w v b' = {| b' with rb_registers := rset (rb_registers b') (w / 4) v |}) as E.
  { intros w v' b' Ha Hb. unfold set_register, aligned_register in *. by rewrite Hb, Ha. }
  rewrite (E dma_ifcr v b), (E dma_isr _ _), (E dma_isr S b), (E dma_ifcr 0 _), (E dma_ifcr 0 _) by done.
  destruct b. cbn. f_equal. unfold rset. cbn. by destruct rb_registers as [|x [|y l]].
Qed.

(** The state after both registers of a flag clear were stored. *)
Definition flags_stored (status : Z) s : DmaBus M := with_block (fun b => set_register dma_ifcr 0 (set_register dma_isr status b)) s.
Lemma flags_stored_facts status s : dma_shape s ->
  registerValue dma_isr (block (flags_stored status s)) = status
  /\ (∀ k, 0 <= k -> asserted status (block (flags_stored status s)) k = asserted status (block s) k)
  /\ rb_interrupt_levels (block (flags_stored status s)) = rb_interrupt_levels (block s)
  /\ rb_level_callback (block (flags_stored status s)) = rb_level_callback (block s).
Proof.
  intros Hs. unfold flags_stored. cbn [block with_block dma_has_block db_dma dm_block].
  change (dm_block (db_dma s)) with (block s). split_and!.
  - rewrite registerValue_set_ne by done. apply registerValue_set_eq; [apply Hs| |done]. apply dma_aligned; auto.
  - intros k Hk. unfold asserted. rewrite !registerValue_set_ne; [done| | | | | |];
      unfold channel_base, first_channel, channel_stride, dma_isr, dma_ifcr; lia.
  - unfold set_register. by repeat case_match.
  - unfold set_register. by repeat case_match.
Qed.

(** The state after a flag clear, and the level changes on the way. *)
Definition flags_cleared (clear : Z) s : DmaBus M :=
  let n := dm_channel_count (db_dma s) in
  let status := cleared_status clear (registerValue dma_isr (block s)) n in
  with_block (set_levels (driven (asserted status (block s)) (rb_interrupt_levels (block s)) (seqZ 0 n)))
    (refreshed status (seqZ 1 n) (flags_stored status s)).
Definition clear_effects (clear : Z) s : list Effect :=
  let n := dm_channel_count (db_dma s) in
  let status := cleared_status clear (registerValue dma_isr (block s)) n in
  seqZ 0 n ≫= level_change (rb_level_callback (block s)) (rb_interrupt_levels (block s)) (asserted status (block s)).

Lemma driven_agree g g' acc l : (∀ k, k ∈ l -> g k = g' k) -> driven g acc l = driven g' acc l.
Proof.
  revert acc. induction l as [|k l IH]; intros acc Hl; [done|]. unfold driven. cbn [foldl]. rewrite Hl by (by left).
  apply IH. intros k' Hk'. apply Hl. by right.
Qed.

Lemma ifcr_store_run previous value mask c env s : dma_shape s ->
  dma_storeRegister dma_ifcr previous value mask c env (with_block (set_register dma_ifcr value) s)
  = (inl tt, flags_cleared (value .& mask) s, clear_effects (value .& mask) s).
Proof.
  intros Hs. unfold flags_cleared, clear_effects. cbv zeta. pose proof Hs as [Hb Hc Hsz _]. unfold dma_storeRegister.
  change (dma_ifcr =? dma_isr) with false. change (dma_ifcr =? dma_ifcr) with true. cbv iota.
  rewrite regValue_bind. unfold channel_count. rewrite get_bind. cbv zeta.
  cbn [block with_block dma_has_block db_dma dm_block dm_channel_count db_memory].
  change (dm_block (db_dma s)) with (block s). rewrite registerValue_set_ne by done.
  fold (cleared_status (value .& mask) (registerValue dma_isr (block s)) (dm_channel_count (db_dma s))).
  set (status := cleared_status _ _ _). rewrite !setRegister_bind.
  match goal with |- context [with_block (set_register dma_ifcr 0) ?x] =>
    replace (with_block (set_register dma_ifcr 0) x) with (flags_stored status s) end.
  2: { unfold flags_stored. cbn [with_block dma_has_block db_dma dm_block db_memory].
    rewrite set_clear_registers; [done| |]; apply dma_aligned; auto. }
  destruct (flags_stored_facts status s Hs) as (E1&E2&E3&E4).
  assert (dm_channel_count (db_dma (flags_stored status s)) = dm_channel_count (db_dma s)) as E5 by done.
  erewrite bind_inl by (apply updateInterruptLevels_run; [rewrite E3; apply Hb|by rewrite E5]).
  rewrite refresh_states_run, block_with_block, app_nil_r.
  change (registerValue dma_isr (set_levels ?ls ?b)) with (registerValue dma_isr b).
  match goal with |- context [dm_channel_count (db_dma (with_block ?f ?t))] =>
    change (dm_channel_count (db_dma (with_block f t))) with (dm_channel_count (db_dma t)) end.
  rewrite refreshed_block, E1, E3, E4, E5. revert E2. generalize (flags_stored status s). intros t E2.
  rewrite (driven_agree (asserted status (block t)) (asserted status (block s)))
    by (intros k [Hk _]%elem_of_seqZ; by apply E2).
  f_equal. apply Forall_bind_ext, Forall_forall. intros k [Hk _]%elem_of_seqZ. unfold level_change. by rewrite E2 by done.
Qed.
Lemma ifcr_write_run v c env s : dma_shape s -> is_u32 v ->
  write dma_ifcr AccessSize.word v c env s = (inl (inl 0), flags_cleared v s, clear_effects v s).
Proof.
  intros Hs Hv. rewrite write_word; [|apply Hs|apply dma_aligned; auto|done|].
  2: { rewrite (ds_size _ Hs). pose proof (ds_count _ Hs). unfold dma_ifcr, first_channel, channel_stride. lia. }
  rewrite (u32_small v) by done. cbn [storeRegister dma_hooks]. rewrite ifcr_store_run by done.
  by rewrite <- (u32_land v), (u32_small v) by done.
Qed.

Lemma has_false_bits x m i : has x m = false -> 0 <= i -> Z.testbit x i = true -> Z.testbit m i = false.
Proof.
  unfold has. intros E%negb_false_iff%Z.eqb_eq Hi Hx. apply (f_equal (fun z => Z.testbit z i)) in E.
  by rewrite Z.land_spec, Hx, Z.bits_0 in E.
Qed.
Lemma bind_filter {A B} (p : A -> bool) (e : A -> list B) l :
  filter (fun x => p x = true) l ≫= e = l ≫= (fun x => if p x then e x else []).
Proof.
  induction l as [|x l IH]; [done|]. rewrite filter_cons. destruct (decide (p x = true)) as [E|E].
  - cbn. by rewrite E, IH.
  - cbn. apply not_true_is_false in E. by rewrite E, IH.
Qed.

(** Lines that are dropped: the direct write drives the lines the loop would change. *)
Lemma dropped_lines (g : Z -> bool) ls n changed callback : 1 <= n <= 8 -> length ls = 8%nat ->
  (∀ k, 0 <= k < n -> g k = true -> default false (ls !! Z.to_nat k) = true) ->
  (∀ k, n <= k < 8 -> default false (ls !! Z.to_nat k) = false) ->
  (∀ k, 0 <= k < 32 -> Z.testbit changed k = (k <? n) && xorb (default false (ls !! Z.to_nat k)) (g k)) ->
  driven (fun _ => false) ls (changed_channels changed) = driven g ls (seqZ 0 n)
  /\ changed_channels changed ≫= level_change callback ls (fun _ => false) = seqZ 0 n ≫= level_change callback ls g.
Proof.
  intros Hn Hl Hg Hu Hc. assert (∀ k, k ∈ changed_channels changed <-> 0 <= k < n /\ default false (ls !! Z.to_nat k) = true /\ g k = false) as Hin.
  { intros k. unfold changed_channels. rewrite list_elem_of_filter, elem_of_seqZ. split.
    - intros [E Hk]. rewrite Hc in E by lia. apply andb_true_iff in E as [E%Z.ltb_lt E'].
      destruct (g k) eqn:Eg; [rewrite (Hg k) in E' by (done || lia); done|]. rewrite xorb_false_r in E'. auto with lia.
    - intros (Hk&E&Eg). split; [|lia]. rewrite Hc, E, Eg, (proj2 (Z.ltb_lt _ _)) by lia. done. }
  split.
  - apply (list_eq_same_length _ _ 8); [by rewrite driven_length..|]. intros i x y Hi Ex Ey.
    pose proof (driven_lookup (fun _ => false) ls (changed_channels changed) (Z.of_nat i)) as E1.
    pose proof (driven_lookup g ls (seqZ 0 n) (Z.of_nat i)) as E2. rewrite Nat2Z.id, Ex in E1. rewrite Nat2Z.id, Ey in E2. cbn in E1, E2.
    rewrite E1; [|intros k Hk%Hin; lia|lia]. rewrite E2; [|intros k; rewrite elem_of_seqZ; lia|lia]. clear E1 E2 Ex Ey.
    rewrite (bool_decide_ext (Z.of_nat i ∈ seqZ 0 n) (Z.of_nat i < n)) by (rewrite elem_of_seqZ; lia).
    specialize (Hg (Z.of_nat i)). rewrite Nat2Z.id in Hg.
    destruct (bool_decide_reflect (Z.of_nat i ∈ changed_channels changed)) as [(Hk&El&Eg)%Hin|Hni].
    + rewrite bool_decide_eq_true_2 by lia. by rewrite Eg.
    + rewrite Hin, Nat2Z.id in Hni. case_bool_decide; [|done].
      destruct (g (Z.of_nat i)) eqn:Eg; [by apply Hg; auto with lia|]. apply not_true_is_false. intros El. apply Hni. auto with lia.
  - unfold changed_channels. rewrite bind_filter. replace 32 with (n + (32 - n)) by lia. rewrite seqZ_app by lia. rewrite bind_app.
    assert (seqZ (0 + n) (32 - n) ≫= (fun k => if Z.testbit changed k then level_change callback ls (fun _ => false) k else []) = []) as ->.
    { assert (∀ l, (∀ k, k ∈ l -> Z.testbit changed k = false) ->
        l ≫= (fun k => if Z.testbit changed k then level_change callback ls (fun _ => false) k else []) = []) as Hnil.
      { induction l as [|k l IH]; intros H'; [done|]. cbn. rewrite H' by (by left). apply IH. intros. apply H'. by right. }
      apply Hnil. intros k Hk%elem_of_seqZ. rewrite Hc, (proj2 (Z.ltb_ge _ _)) by lia. done. }
    rewrite app_nil_r. apply Forall_bind_ext, Forall_forall. intros k Hk%elem_of_seqZ.
    rewrite Hc, (proj2 (Z.ltb_lt _ _)) by lia. unfold level_change. cbn [andb]. specialize (Hg k).
    destruct (default false (ls !! Z.to_nat k)) eqn:El, (g k) eqn:Eg; cbn; try done. discriminate Hg; auto with lia.
Qed.

Lemma direct_clear_run v c env s : dma_shape s -> unused_levels_low s -> is_u32 v ->
  directClearFlags v env s = (inl false, s, [])
  \/ ∃ s' fx, directClearFlags v env s = (inl true, s', fx) /\ write dma_ifcr AccessSize.word v c env s = (inl (inl 0), s', fx)
       /\ Forall (fun e => ∃ k, e = fx_interrupt_level k false) fx.
Proof.
  intros Hs Hu Hv. pose proof Hs as [Hb Hc Hsz _]. rewrite ifcr_write_run by done. unfold flags_cleared, clear_effects. cbv zeta.
  unfold directClearFlags. rewrite get_bind. cbv zeta. cbn [id]. change (dm_block (db_dma s)) with (block s).
  rewrite direct_status_eq by (done || apply registerValue_range, Hb).
  set (n := dm_channel_count (db_dma s)) in *. set (status := cleared_status _ _ _).
  destruct (has _ (not32 _)) eqn:Eh; [by left|].
  destruct (negb (_ =? 0) && _); [by left|]. right.
  set (changed := interruptLevelMask (block s) .^ direct_levels status n (block s)).
  destruct (dropped_lines (asserted status (block s)) (rb_interrupt_levels (block s)) n changed (rb_level_callback (block s)))
    as [Ed Ee]; [done|apply Hb| | | |].
  { intros k Hk Eg. apply (has_false_bits _ _ k) in Eh; [|lia|by rewrite direct_levels_bit, Eg, (proj2 (Z.ltb_lt _ _)) by lia].
    rewrite not32_testbit, level_mask_bit, (proj2 (Z.ltb_lt k 8)) in Eh by lia. by apply negb_false_iff in Eh. }
  { exact Hu. }
  { intros k Hk. unfold changed. rewrite Z.lxor_spec, level_mask_bit, direct_levels_bit by lia.
    change (default false (rb_interrupt_levels (block s) !! Z.to_nat k)) with (level k (block s)).
    destruct (Z.ltb_spec k n); [by rewrite (proj2 (Z.ltb_lt k 8)) by lia|]. cbn. rewrite xorb_false_r.
    destruct (Z.ltb_spec k 8); [apply Hu; lia|done]. }
  exists (with_block (set_levels (driven (asserted status (block s)) (rb_interrupt_levels (block s)) (seqZ 0 n)))
            (refreshed status (seqZ 1 n) (flags_stored status s))), (seqZ 0 n ≫= level_change (rb_level_callback (block s))
            (rb_interrupt_levels (block s)) (asserted status (block s))). split; [|split; [done|]].
  2: { rewrite <- Ee. apply Forall_forall. intros e (k&He&_)%list_elem_of_bind. revert He. unfold level_change.
    destruct (Bool.eqb _ _); [by intros ?%elem_of_nil|]. destruct (rb_level_callback _); [|by intros ?%elem_of_nil].
    intros ->%list_elem_of_singleton. by exists k. }
  rewrite !setRegister_bind.
  change (with_block (set_register dma_ifcr 0) (with_block (set_register dma_isr status) s)) with (flags_stored status s).
  erewrite bind_inl by apply refresh_states_run. destruct (flags_stored_facts status s Hs) as (E1&E2&E3&E4). rewrite E1.
  change (dm_channel_count (db_dma (flags_stored status s))) with n. destruct (refreshed_frame status (seqZ 1 n) (flags_stored status s)) as (Eb&_&_).
  revert Eb. generalize (refreshed status (seqZ 1 n) (flags_stored status s)). intros t Eb.
  assert (with_block (set_levels (rb_interrupt_levels (block s))) t = t) as Et.
  { rewrite <- E3, <- Eb. by destruct t as [[[] ] ?]. }
  pose proof (levels_run (fun k => setInterruptLevel k false) (fun _ => false) (changed_channels changed) env t (rb_interrupt_levels (block s))) as R.
  rewrite Et in R. erewrite bind_inl; [|apply R; [| |apply Hb|done]].
  - rewrite Ed, Eb, E4, Ee. unfold mret, Dev_ret. by rewrite app_nil_r.
  - apply NoDup_filter, NoDup_seqZ.
  - intros k [E Hk%elem_of_seqZ]%list_elem_of_filter. split; [lia|]. destruct (Z.lt_ge_cases k 8); [done|].
    unfold changed in E. rewrite Z.lxor_spec, level_mask_bit, direct_levels_bit in E by lia.
    rewrite (proj2 (Z.ltb_ge k 8)), (proj2 (Z.ltb_ge k n)) in E by lia. done.
Qed.

(** ** The invariant of the channels *)

Definition status_of s : Z := registerValue dma_isr (block s).
Definition control_of s (k : Z) : Z := registerValue (channel_base (k + 1)) (block s).
Definition state_of s (k : Z) : ChannelState.t := channel_state (k + 1) (db_dma s).

(** What the state of channel [k] says of its registers. *)
Definition state_ok (status control k : Z) (st : ChannelState.t) : Prop :=
  match st with
  | ChannelState.disabled => Z.testbit control 0 = false
  | ChannelState.armed | ChannelState.active => Z.testbit control 0 = true
  | ChannelState.completed => Z.testbit control 0 = false /\ Z.testbit status (4 * k + 1) = true
  | ChannelState.failed => Z.testbit control 0 = false /\ Z.testbit status (4 * k + 3) = true
  end.
(** The summary bit of every used channel is the disjunction of its flags; unused flags are clear. *)
Definition flags_ok (status n : Z) : Prop :=
  (∀ k, 0 <= k < n -> Z.testbit status (4 * k)
     = Z.testbit status (4 * k + 1) || Z.testbit status (4 * k + 2) || Z.testbit status (4 * k + 3))
  /\ ∀ i, 4 * n <= i < 32 -> Z.testbit status i = false.
Definition levels_ok s : Prop :=
  ∀ k, 0 <= k < 8 -> level k (block s) = (k <? dm_channel_count (db_dma s)) && asserted (status_of s) (block s) k.

(** The shape, the flags and the states of the channels other than [but]. *)
Record dma_mid (n : Z) (but : option Z) s : Prop := mk_dma_mid {
  dj_shape : dma_shape s;
  dj_count : dm_channel_count (db_dma s) = n;
  dj_reloads : length (dm_reload_counts (db_dma s)) = 8%nat /\ Forall is_u16 (dm_reload_counts (db_dma s));
  dj_states : length (dm_channel_state (db_dma s)) = 8%nat;
  dj_flags : flags_ok (status_of s) n;
  dj_unused : ∀ k, n <= k < 8 -> level k (block s) = false;
  dj_state_ok : ∀ k, 0 <= k < n -> but <> Some k -> state_ok (status_of s) (control_of s k) k (state_of s k);
}.
Definition dma_inv (n : Z) (lv : bool) s : Prop := dma_mid n None s /\ (lv = true -> levels_ok s).

(** *** Stores that the invariant does not see *)

Definition plain_register (n w : Z) : Prop := 0 < w /\ ∀ k, 0 <= k < n -> w <> channel_base (k + 1).
Lemma data_register n k j : 0 <= k < n -> j = 4 \/ j = 8 \/ j = 12 -> plain_register n (channel_base (k + 1) + j).
Proof. intros Hk Hj. unfold plain_register, channel_base, first_channel, channel_stride. split; [lia|]. intros k' Hk' E. lia. Qed.

Lemma set_shape w v s : dma_shape s -> is_u32 v -> dma_shape (with_block (set_register w v) s).
Proof.
  intros [Hb Hc Hs Hz] Hv. constructor; [by apply set_register_ok|done| |rewrite block_with_block; unfold set_register; by case_match].
  transitivity (rb_block_size (block s)); [|exact Hs]. rewrite block_with_block. unfold set_register. by case_match.
Qed.
Lemma set_levels_same w v s : rb_interrupt_levels (block (with_block (set_register w v) s)) = rb_interrupt_levels (block s).
Proof. cbn. unfold set_register. by case_match. Qed.
Lemma register_set_ne w w' v s : 0 <= w -> 0 <= w' -> w <> w' ->
  registerValue w' (block (with_block (set_register w v) s)) = registerValue w' (block s).
Proof. intros. rewrite block_with_block. by apply registerValue_set_ne. Qed.

Lemma mid_same n but s s' : dma_mid n but s -> dma_shape s' -> db_dma s' = db_dma s \/ (
    dm_channel_count (db_dma s') = dm_channel_count (db_dma s) /\ dm_reload_counts (db_dma s') = dm_reload_counts (db_dma s)
    /\ dm_channel_state (db_dma s') = dm_channel_state (db_dma s)
    /\ status_of s' = status_of s /\ rb_interrupt_levels (block s') = rb_interrupt_levels (block s)
    /\ ∀ k, 0 <= k < n -> but <> Some k -> control_of s' k = control_of s k) -> dma_mid n but s'.
Proof.
  intros [Hs Hc Hr Hst Hf Hu Ho] Hs' [E|(E1&E2&E3&E4&E6&E5)].
  - unfold status_of, control_of, state_of in *. constructor; try done; unfold status_of, control_of, state_of;
      cbn [block dma_has_block] in *; rewrite E in *; done.
  - constructor; [done|congruence|by rewrite E2|by rewrite E3|by rewrite E4|unfold level; by rewrite E6|]. intros k Hk Hb. rewrite E4, E5 by done.
    unfold state_of, channel_state. rewrite E3. by apply Ho.
Qed.
Lemma inv_plain n lv w v s : dma_inv n lv s -> plain_register n w -> is_u32 v -> dma_inv n lv (with_block (set_register w v) s).
Proof.
  intros [Hm Hl] [Hw Hne] Hv. assert (status_of (with_block (set_register w v) s) = status_of s) as Es
    by (unfold status_of; apply register_set_ne; unfold dma_isr; lia).
  assert (∀ k, 0 <= k < n -> control_of (with_block (set_register w v) s) k = control_of s k) as Ec.
  { intros k Hk. unfold control_of. apply register_set_ne; [lia| |by apply Hne]. unfold channel_base, first_channel, channel_stride. lia. }
  split.
  - eapply mid_same; [exact Hm|apply set_shape; [apply Hm|done]|]. right. split_and!; try done; [apply set_levels_same|]. intros k Hk _. by apply Ec.
  - intros ->. specialize (Hl eq_refl). intros k Hk. unfold level. rewrite set_levels_same. rewrite (Hl k Hk : default _ _ = _).
    change (dm_channel_count (db_dma (with_block (set_register w v) s))) with (dm_channel_count (db_dma s)).
    rewrite (dj_count _ _ _ Hm).
    destruct (Z.ltb_spec k n); [|done]. cbn [andb]. unfold asserted. fold (control_of s k) (control_of (with_block (set_register w v) s) k).
    by rewrite Es, Ec by lia.
Qed.

(** *** Interrupt levels and flags *)

Lemma mid_levels n but s ls : dma_mid n but s -> length ls = 8%nat -> (∀ k, n <= k < 8 -> default false (ls !! Z.to_nat k) = false) ->
  dma_mid n but (with_block (set_levels ls) s).
Proof.
  intros [[Hb Hc Hsz Hz] Hn Hr Hst Hf Hu Ho] Hl Hu'. constructor; try done. constructor; try done. destruct Hb. by constructor.
Qed.
Lemma update_runs n but : runs (dma_mid n but) updateInterruptLevels (fun _ s => dma_mid n but s /\ levels_ok s).
Proof.
  intros env s Hm. pose proof (dj_shape _ _ _ Hm) as [Hb Hc _ _]. pose proof (ok_levels _ Hb) as Hl.
  rewrite updateInterruptLevels_run by done. eexists _, _, _. split; [done|].
  pose proof (dj_count _ _ _ Hm) as En. set (g := asserted _ _). rewrite En in *.
  assert (∀ k, 0 <= k < 8 -> default false (driven g (rb_interrupt_levels (block s)) (seqZ 0 n) !! Z.to_nat k) = (k <? n) && g k) as Hd.
  { intros k Hk. rewrite driven_lookup by ((intros j; rewrite elem_of_seqZ; lia) || lia).
    rewrite (bool_decide_ext _ (k < n)) by (rewrite elem_of_seqZ; lia). destruct (Z.ltb_spec k n).
    - by rewrite bool_decide_eq_true_2 by done.
    - rewrite bool_decide_eq_false_2 by lia. cbn. apply (dj_unused _ _ _ Hm). lia. }
  split.
  - apply mid_levels; [done|by rewrite driven_length|]. intros k Hk. rewrite Hd, (proj2 (Z.ltb_ge _ _)) by lia. done.
  - intros k Hk. change (dm_channel_count (db_dma (with_block ?f s))) with (dm_channel_count (db_dma s)). rewrite En. exact (Hd k Hk).
Qed.

Lemma flag_bits status k f i : 0 <= k -> 0 <= f -> 0 <= i ->
  Z.testbit (status .| (1 .<< (k * 4)) .| (1 .<< (k * 4 + f))) i = Z.testbit status i || (i =? 4 * k) || (i =? 4 * k + f).
Proof.
  intros Hk Hf Hi. rewrite !Z.lor_spec, !Z.shiftl_1_l, !Z.pow2_bits_eqb by lia.
  f_equal; [f_equal|]; rewrite Z.eqb_sym; f_equal; lia.
Qed.
Lemma flags_ok_set status n k f : flags_ok status n -> 0 <= k < n -> n <= 8 -> f = 1 \/ f = 3 ->
  flags_ok (status .| (1 .<< (k * 4)) .| (1 .<< (k * 4 + f))) n.
Proof.
  intros [Hs Hu] Hk Hn Hf. split.
  - intros j Hj. rewrite !flag_bits, Hs by lia. destruct (Z.eqb_spec (4 * j) (4 * k)).
    + assert (j = k) as -> by lia. destruct Hf as [-> | ->]; rewrite ?Z.eqb_refl, ?orb_true_r; cbn;
        rewrite ?orb_true_r; done.
    + assert (∀ a e, 0 <= a < 4 -> 0 <= e < 4 -> (4 * j + a =? 4 * k + e) = false) as Hne by (intros; apply Z.eqb_neq; lia).
      rewrite (Hne 1 f), (Hne 2 f), (Hne 3 f) by lia. specialize (Hne 0 f). rewrite Z.add_0_r in Hne. rewrite Hne by lia.
      assert (∀ a, 0 <= a < 4 -> (4 * j + a =? 4 * k) = false) as Hn0 by (intros; apply Z.eqb_neq; lia).
      rewrite !Hn0 by lia. by rewrite !orb_false_r.
  - intros i Hi. rewrite flag_bits, Hu by lia. cbn. apply orb_false_iff. split; apply Z.eqb_neq; lia.
Qed.
Lemma state_ok_mono status status' c k st : state_ok status c k st ->
  (∀ i, 0 <= i -> Z.testbit status i = true -> Z.testbit status' i = true) -> 0 <= k -> state_ok status' c k st.
Proof. intros Hs Hm Hk. destruct st; cbn in *; try done; destruct Hs; split; auto with lia. Qed.


(** The channel that a request serves: its flag bits, and that it is enabled. *)
Definition enabled_at s (k : Z) : Prop := Z.testbit (control_of s k) 0 = true.
Definition flag_at s (k f : Z) : Prop := Z.testbit (status_of s) (4 * k + f) = true.

Lemma setChannelFlag_runs n k f : 0 <= k < n -> f = 1 \/ f = 3 ->
  runs (fun s => dma_mid n None s /\ enabled_at s k) (setChannelFlag (k + 1) f)
       (fun _ s => dma_mid n None s /\ levels_ok s /\ enabled_at s k /\ flag_at s k f).
Proof.
  intros Hk Hf env s [Hm He]. unfold setChannelFlag. replace (k + 1 - 1) with k by lia.
  rewrite regValue_bind, setRegister_bind. fold (status_of s). set (status := _ .| _ .| _).
  pose proof (dj_shape _ _ _ Hm) as [Hb Hc Hsz _]. pose proof (dj_count _ _ _ Hm) as En. rewrite En in Hc.
  assert (is_u32 status) as Hu.
  { unfold status, status_of. pose proof (registerValue_range dma_isr _ Hb).
    assert (∀ a, 0 <= a < 32 -> is_u32 (1 .<< a)) as Hp.
    { intros a Ha. rewrite Z.shiftl_1_l. split; [apply Z.pow_nonneg; lia|]. apply (Z.pow_lt_mono_r 2 a 32); lia. }
    apply is_u32_lor; [apply is_u32_lor|]; [done|apply Hp; lia..]. }
  set (t := with_block (set_register dma_isr status) s).
  assert (status_of t = status) as Es.
  { unfold status_of, t. rewrite block_with_block. apply registerValue_set_eq; [done|apply dma_aligned; [apply Hm|by left]|done]. }
  assert (∀ j, 0 <= j < n -> control_of t j = control_of s j) as Ec.
  { intros j Hj. apply register_set_ne; unfold dma_isr, channel_base, first_channel, channel_stride; lia. }
  assert (dma_mid n None t) as Ht.
  { destruct Hm as [Hs _ Hr Hst Hfl Hun Ho]. constructor; try done.
    - by apply set_shape.
    - rewrite Es. apply flags_ok_set; done || lia.
    - intros j Hj. unfold level, t. rewrite set_levels_same. by apply Hun.
    - intros j Hj _. rewrite Es, Ec by done. eapply state_ok_mono; [by apply Ho| |lia].
      intros i Hi Hbit. unfold status. by rewrite flag_bits, Hbit by lia. }
  destruct (update_runs n None env t Ht) as (a&s'&w&E&Hm'&Hl'). exists a, s', w. split; [done|].
  assert (status_of s' = status_of t /\ ∀ j, control_of s' j = control_of t j) as [Es' Ec'].
  { pose proof (dj_shape _ _ _ Ht) as [Hbt Hct _ _]. rewrite updateInterruptLevels_run in E by (done || apply Hbt).
    by injection E as _ <- _. }
  split_and!; [done|done| |].
  - unfold enabled_at. by rewrite Ec', Ec.
  - unfold flag_at. rewrite Es', Es. unfold status. rewrite flag_bits, Z.eqb_refl by lia. apply orb_true_r.
Qed.

Lemma channel_state_set s k k' st : length (dm_channel_state (db_dma s)) = 8%nat -> 0 <= k < 8 -> 0 <= k' < 8 ->
  channel_state (k' + 1) (set_channel_state (k + 1) st (db_dma s)) = if k' =? k then st else state_of s k'.
Proof.
  intros Hl Hk Hk'. unfold state_of, channel_state, set_channel_state. cbn. replace (k + 1 - 1) with k by lia.
  replace (k' + 1 - 1) with k' by lia. destruct (Z.eqb_spec k' k) as [->|Hne].
  - by rewrite list_lookup_insert_eq by lia.
  - by rewrite list_lookup_insert_ne by lia.
Qed.

(** Giving a channel a state that fits its registers. *)
Definition with_state (k : Z) (st : ChannelState.t) s : DmaBus M := mkDmaBus (set_channel_state (k + 1) st (db_dma s)) (db_memory s).
Lemma mid_set_state n but k st s : 0 <= k < n -> dma_mid n but s -> but = None \/ but = Some k ->
  state_ok (status_of s) (control_of s k) k st -> dma_mid n None (with_state k st s).
Proof.
  intros Hk [Hs Hc Hr Hst Hf Hu Ho] Hb Hok. pose proof (ds_count _ Hs). constructor; try done.
  - by destruct Hs.
  - cbn. by rewrite length_insert.
  - intros j Hj _. change (state_of (with_state k st s) j) with (channel_state (j + 1) (set_channel_state (k + 1) st (db_dma s))).
    change (status_of (with_state k st s)) with (status_of s). change (control_of (with_state k st s) j) with (control_of s j).
    rewrite channel_state_set by (done || lia). destruct (Z.eqb_spec j k) as [->|Hne]; [done|]. apply Ho; [done|].
    destruct Hb as [->| ->]; congruence.
Qed.

Lemma dma_inv_weaken n lv s : dma_mid n None s -> levels_ok s -> dma_inv n lv s.
Proof. by split. Qed.
Lemma levels_with_state n lv k st s : (lv = true -> levels_ok s) -> dma_mid n None (with_state k st s) -> dma_inv n lv (with_state k st s).
Proof. intros Hl Hm. split; [done|]. intros E. exact (Hl E). Qed.
Lemma base_register n k : 0 <= k -> 0 <= channel_base (k + 1) /\ channel_base (k + 1) <> dma_isr
  /\ ∀ j, 0 <= j < n -> j <> k -> channel_base (k + 1) <> channel_base (j + 1).
Proof. intros Hk. unfold channel_base, first_channel, channel_stride, dma_isr. split_and!; try lia. Qed.
Lemma base_aligned n but s k : dma_mid n but s -> 0 <= k < n -> aligned_register (channel_base (k + 1)) (block s) = true.
Proof.
  intros Hm Hk. unfold aligned_register. rewrite (ds_size _ (dj_shape _ _ _ Hm)), (dj_count _ _ _ Hm).
  pose proof (ds_count _ (dj_shape _ _ _ Hm)) as Hc. rewrite (dj_count _ _ _ Hm) in Hc.
  unfold channel_base, first_channel, channel_stride. rewrite low_two_bits. replace (8 + (k + 1 - 1) * 20) with ((2 + k * 5) * 4) by lia.
  rewrite Z.mod_mul by lia. apply Z.ltb_lt. lia.
Qed.

(** Storing the control of channel [k] leaves the other channels alone. *)
Lemma mid_set_control n k v s : 0 <= k < n -> dma_mid n None s -> is_u32 v ->
  let t := with_block (set_register (channel_base (k + 1)) v) s in
  dma_mid n (Some k) t /\ status_of t = status_of s /\ control_of t k = v
  /\ rb_interrupt_levels (block t) = rb_interrupt_levels (block s) /\ state_of t k = state_of s k
  /\ ∀ j, 0 <= j < n -> j <> k -> control_of t j = control_of s j.
Proof.
  intros Hk Hm Hv t. destruct (base_register n k) as (H0&H1&H2); [lia|]. unfold dma_isr in *.
  assert (status_of t = status_of s) as Es by (apply register_set_ne; unfold dma_isr; lia).
  assert (∀ j, 0 <= j < n -> j <> k -> control_of t j = control_of s j) as Ec.
  { intros j Hj Hne. apply register_set_ne; [done| |by apply H2]. destruct (base_register n j); lia. }
  split_and!; [|done| |apply set_levels_same|done|done].
  - eapply (mid_same _ _ s); [|apply set_shape; [apply Hm|done]|].
    + destruct Hm. constructor; try done. intros j Hj _. by apply dj_state_ok0.
    + right. split_and!; try done; [apply set_levels_same|]. intros j Hj Hne. apply Ec; [done|congruence].
  - unfold control_of, t. rewrite block_with_block. apply registerValue_set_eq; [apply Hm| |done]. by eapply base_aligned.
Qed.

(** Clearing the enable bit of a channel and recording why it stopped. *)
Lemma stop_runs n lv k f st : 0 <= k < n -> (f = 1 /\ st = ChannelState.completed) \/ (f = 3 /\ st = ChannelState.failed) ->
  runs (fun s => dma_mid n None s /\ levels_ok s /\ enabled_at s k /\ flag_at s k f)
       (current ← regValue (channel_base (k + 1)); setRegister (channel_base (k + 1)) (current .& not32 1);;
        upd (set_channel_state (k + 1) st)) (fun _ => dma_inv n lv).
Proof.
  intros Hk Hst env s (Hm&Hl&He&Hf). rewrite regValue_bind, setRegister_bind. fold (control_of s k).
  assert (is_u32 (control_of s k)) as Hu by apply registerValue_range, Hm.
  destruct (mid_set_control n k (control_of s k .& not32 1) s) as (Hm'&Es&Ek&El&_&Ec); [done|done|u32_auto|]. cbv zeta in *.
  set (t := with_block _ s) in *. eexists _, _, _. split; [done|]. change (dma_inv n lv (with_state k st t)).
  assert (∀ i, 0 <= i < 32 -> i <> 0 -> Z.testbit (control_of t k) i = Z.testbit (control_of s k) i) as Hbits.
  { intros i Hi Hne. rewrite Ek, Z.land_spec, not32_testbit by lia. change 1 with (2 ^ 0). rewrite Z.pow2_bits_false by lia. apply andb_true_r. }
  assert (Z.testbit (control_of t k) 0 = false) as H0 by (rewrite Ek, Z.land_spec; apply andb_false_r).
  apply levels_with_state.
  - intros _ j Hj. unfold level. rewrite El, (Hl j Hj : default _ _ = _).
    change (dm_channel_count (db_dma t)) with (dm_channel_count (db_dma s)). rewrite (dj_count _ _ _ Hm).
    destruct (Z.ltb_spec j n); [|done]. cbn [andb]. rewrite !asserted_bits, !flags_and_control, Es by lia.
    fold (control_of s j) (control_of t j). destruct (decide (j = k)) as [->|Hne]; [by rewrite !Hbits by lia|by rewrite Ec by lia].
  - eapply mid_set_state; [done|exact Hm'|by right|]. unfold flag_at in Hf. rewrite <- Es in Hf.
    destruct Hst as [[-> ->]|[-> ->]]; by split.
Qed.

(** *** A request *)

Definition serving (n : Z) (lv : bool) (k : Z) s : Prop := dma_inv n lv s /\ enabled_at s k.
Lemma serving_memory n lv k d m m' : serving n lv k (mkDmaBus d m) -> serving n lv k (mkDmaBus d m').
Proof.
  intros [[Hm Hl] He]. split; [|done]. split; [|exact Hl]. eapply mid_same; [exact Hm| |by left].
  destruct (dj_shape _ _ _ Hm). by constructor.
Qed.
Lemma on_memory_runs n lv k {A} (missing : DmaBus M -> A) g : runs (serving n lv k) (on_memory missing g) (fun _ => serving n lv k).
Proof.
  intros env [d [m|]] Hs; unfold on_memory; cbn.
  - destruct (g m) as [r m']. eexists _, _, _. split; [done|]. by eapply serving_memory.
  - by eexists _, _, _.
Qed.
Lemma move_item_runs n lv k item : runs (serving n lv k) (move_item item) (fun _ => serving n lv k).
Proof.
  eapply runs_bind; [apply on_memory_runs|]. intros [v|e]; [|by apply runs_ret].
  eapply runs_bind; [apply on_memory_runs|]. intros w. by apply runs_ret.
Qed.
Lemma store_count_runs n lv k v : 0 <= k < n -> is_u32 v ->
  runs (serving n lv k) (setRegister (channel_base (k + 1) + 0x04) v) (fun _ => serving n lv k).
Proof.
  intros Hk Hv. apply runs_modify. intros s [Hi He]. split.
  - apply inv_plain; [done| |done]. apply data_register; auto.
  - unfold enabled_at, control_of. rewrite register_set_ne; [done| | |];
      unfold channel_base, first_channel, channel_stride; lia.
Qed.
Lemma arm_runs n lv k st : 0 <= k < n -> st = ChannelState.armed \/ st = ChannelState.active ->
  runs (serving n lv k) (upd (set_channel_state (k + 1) st)) (fun _ => dma_inv n lv).
Proof.
  intros Hk Hst. apply runs_modify. intros s [[Hm Hl] He]. apply (levels_with_state n lv k st); [done|].
  eapply mid_set_state; [done|exact Hm|by left|]. by destruct Hst as [->| ->].
Qed.
Lemma serving_flagged n lv k f s :
  dma_mid n None s /\ levels_ok s /\ enabled_at s k /\ flag_at s k f -> serving n lv k s.
Proof. intros (Hm&Hl&He&_). split; [by apply dma_inv_weaken|done]. Qed.
Lemma inv_history n lv s x : dma_inv n lv s ->
  dma_inv n lv (mkDmaBus (let d : DmaPeripheral := db_dma s in
    if dm_transfer_history_enabled d then {| d with dm_transfers := dm_transfers d ++ [x] |} else d) (db_memory s)).
Proof.
  intros [Hm Hl]. cbv zeta. destruct (dm_transfer_history_enabled (db_dma s)); [|by destruct s]. split; [|exact Hl].
  eapply mid_same; [exact Hm| |by right]. destruct (dj_shape _ _ _ Hm). by constructor.
Qed.

(** What a request does to the flags and the state of its channel. *)
Lemma outcome_runs n lv k (success complete : bool) control reload : 0 <= k < n -> is_u32 reload ->
  runs (serving n lv k)
    (if complete then
       setChannelFlag (k + 1) 1;;
       if has control (1 .<< 5) then
         setRegister (channel_base (k + 1) + 0x04) reload;;
         upd (set_channel_state (k + 1) ChannelState.armed)
       else
         current ← regValue (channel_base (k + 1));
         setRegister (channel_base (k + 1)) (current .& not32 1);;
         upd (set_channel_state (k + 1) ChannelState.completed)
     else if negb success then
       setChannelFlag (k + 1) 3;;
       current ← regValue (channel_base (k + 1));
       setRegister (channel_base (k + 1)) (current .& not32 1);;
       upd (set_channel_state (k + 1) ChannelState.failed)
     else upd (set_channel_state (k + 1) ChannelState.active)) (fun _ => dma_inv n lv).
Proof.
  intros Hk Hr. assert (∀ f, f = 1 \/ f = 3 -> runs (serving n lv k) (setChannelFlag (k + 1) f)
    (fun _ s => dma_mid n None s /\ levels_ok s /\ enabled_at s k /\ flag_at s k f)) as Hf.
  { intros f Hf. eapply runs_conseq; [by apply setChannelFlag_runs| |done]. intros s [[Hm _] He]. done. }
  apply runs_if; intros _; [|apply runs_if; intros _].
  - eapply runs_bind; [apply Hf; auto|]. intros []. apply runs_if; intros _; [|apply (stop_runs n lv k 1); auto].
    apply (runs_conseq (serving n lv k) _ _ (fun _ => dma_inv n lv)); [|intros s Hs; exact (serving_flagged n lv k 1 s Hs)|done].
    eapply runs_bind; [by apply store_count_runs|]. intros []. apply arm_runs; auto.
  - eapply runs_bind; [apply Hf; auto|]. intros []. apply (stop_runs n lv k 3); auto.
  - apply arm_runs; auto.
Qed.

Lemma runs_keep {A} (P : DmaBus M -> Prop) (m : Dev (DmaBus M) A) : (∀ env s, ∃ a w, m env s = (inl a, s, w)) -> runs P m (fun _ => P).
Proof. intros Hm env s Hs. destruct (Hm env s) as (a&w&E). by exists a, s, w. Qed.

Lemma runs_pure {A} (P : DmaBus M -> Prop) (φ : Prop) (m : Dev (DmaBus M) A) Q : (φ -> runs P m Q) -> runs (fun s => P s /\ φ) m Q.
Proof. intros Hm env s [Hs Hφ]. by apply Hm. Qed.

Lemma runChannelRequest_runs n lv k : 0 <= k < n -> runs (serving n lv k) (runChannelRequest (k + 1)) (fun _ => dma_inv n lv).
Proof.
  intros Hk. unfold runChannelRequest. eapply runs_bind; [apply runs_keep; intros env s; by eexists _, _|]. intros control.
  eapply runs_bind; [apply runs_keep; intros env s; by eexists _, _|]. intros remaining. cbv zeta.
  eapply (runs_bind _ _ _ (fun reload s => serving n lv k s /\ is_u32 reload)).
  { eapply runs_conseq; [apply runs_get|done|]. intros reload s [Hs ->]. split; [done|].
    apply u16_is_u32, (Forall_lookup_default is_u16); [width_lia|apply (dj_reloads _ _ _ (proj1 (proj1 Hs)))]. }
  intros reload. apply runs_pure. intros Hr. apply runs_if; intros Hz.
  { eapply runs_conseq; [apply runs_skip|done|]. by intros _ s [? _]. }
  do 2 (eapply runs_bind; [apply runs_keep; intros env s; by eexists _, _|]; intros ?).
  eapply runs_bind; [apply move_item_runs|]. intros success.
  eapply runs_bind; [apply store_count_runs; [done|]|]; [|intros []].
  { apply orb_false_iff in Hz as [Hz%Z.eqb_neq _]. pose proof (land_bounds_r remaining 0xffff). destruct success; width_lia. }
  eapply runs_bind; [by apply outcome_runs|]. intros [].
  eapply runs_bind; [apply runs_keep; intros env s; by eexists _, _|]. intros now.
  eapply runs_bind; [apply (runs_modify _ _ (fun _ => dma_inv n lv)); intros s Hs; exact (inv_history n lv s _ Hs)|intros []].
  eapply runs_bind; [apply runs_keep; intros env s; by eexists _, _|]. intros passes.
  eapply runs_bind; [apply (runs_if _ _ _ _ (fun _ => dma_inv n lv)); intros _; [apply runs_traceEvent|apply runs_skip]|intros []].
  eapply runs_bind; [apply runs_keep; intros env s; by eexists _, _|]. intros installed. apply runs_if; intros _; apply runs_keep; intros env s; by eexists _, _.
Qed.

Lemma request_runs n lv channel : 0 <= channel -> runs (dma_inv n lv) (request channel) (fun _ => dma_inv n lv).
Proof.
  intros Hc env s Hs. unfold request, channel_count. rewrite get_bind. rewrite (dj_count _ _ _ (proj1 Hs)).
  destruct (Z.eqb_spec channel 0); [by eexists _, _, _|]. destruct (Z.ltb_spec n channel); [by eexists _, _, _|]. cbn [orb].
  rewrite !regValue_bind. destruct (negb _ || _) eqn:E; [by eexists _, _, _|]. apply orb_false_iff in E as [E%negb_false_iff _].
  rewrite <- testbit_odd in E. replace channel with (channel - 1 + 1) in E |- * by lia.
  destruct (runChannelRequest_runs n lv (channel - 1) ltac:(lia) env s) as (a&s'&w&Er&Hs'); [by split|].
  eexists _, _, _. split; [by rewrite (bind_inl _ _ _ _ _ _ _ Er)|done].
Qed.
Lemma request_items_runs n lv fuel channel : 0 <= channel -> runs (dma_inv n lv) (request_items fuel channel) (fun _ => dma_inv n lv).
Proof.
  intros Hc. induction fuel as [|fuel IH]; [apply runs_skip|]. cbn [request_items].
  eapply runs_bind; [by apply request_runs|]. intros ok. apply runs_if; intros _; [exact IH|apply runs_skip].
Qed.

(** *** Register stores *)

Lemma refreshed_states status l s : NoDup l -> (∀ k, k ∈ l -> 1 <= k <= 8) -> length (dm_channel_state (db_dma s)) = 8%nat ->
  length (dm_channel_state (db_dma (refreshed status l s))) = 8%nat
  /\ ∀ k, 0 <= k < 8 -> state_of (refreshed status l s) k
       = if bool_decide (k + 1 ∈ l) then refreshed_state status (k + 1) (state_of s k) else state_of s k.
Proof.
  revert s. induction l as [|x l IH]; intros s Hnd Hl Hn; [done|]. apply NoDup_cons in Hnd as [Hx Hnd].
  assert (1 <= x <= 8) as Hx8 by (apply Hl; by left). rewrite refreshed_cons. set (st := refreshed_state _ _ _). set (t := mkDmaBus _ _).
  destruct (IH t) as [Hn' Hk']; [done|intros; apply Hl; by right|cbn; by rewrite length_insert|]. split; [done|].
  intros k Hk. rewrite Hk' by done. unfold t, state_of. cbn [db_dma]. replace x with (x - 1 + 1) by lia.
  rewrite channel_state_set by (done || lia). destruct (Z.eqb_spec k (x - 1)) as [->|Hne].
  - replace (x - 1 + 1) with x by lia. rewrite bool_decide_eq_false_2, bool_decide_eq_true_2 by (done || by left). done.
  - rewrite (bool_decide_ext (k + 1 ∈ x - 1 + 1 :: l) (k + 1 ∈ l)); [done|]. rewrite elem_of_cons. split; [by intros [?|?]; [lia|]|by right].
Qed.

Lemma cleared_flags_ok clear status n : is_u32 status -> 0 <= n <= 8 -> flags_ok status n -> flags_ok (cleared_status clear status n) n.
Proof.
  intros Hs Hn [Hf Hu]. split.
  - intros k Hk. rewrite !cleared_status_bit by (done || lia).
    destruct (nibble_index k 1 ltac:(lia)) as [-> ->], (nibble_index k 2 ltac:(lia)) as [-> ->], (nibble_index k 3 ltac:(lia)) as [-> ->].
    destruct (nibble_index k 0 ltac:(lia)) as [E0 E0']. rewrite Z.add_0_r in E0, E0'. rewrite E0, E0', (proj2 (Z.ltb_lt _ _)) by lia.
    unfold cleared_bit. cbn [Z.eqb]. rewrite Hf by done. unfold kept.
    destruct (Z.testbit clear (4 * k)); rewrite ?andb_false_r; [done|]. cbn [orb negb].
    by destruct (Z.testbit status (4 * k + 1)), (Z.testbit status (4 * k + 2)), (Z.testbit status (4 * k + 3)), (Z.testbit clear (4 * k + 1)),
      (Z.testbit clear (4 * k + 2)), (Z.testbit clear (4 * k + 3)).
  - intros i Hi. rewrite cleared_status_bit by (done || lia). pose proof (Z.div_mod i 4). pose proof (Z.mod_pos_bound i 4).
    rewrite (proj2 (Z.ltb_ge _ _)) by lia. by apply Hu.
Qed.

(** The state after a flag clear, seen through the registers the invariant names. *)
Lemma flags_cleared_view n clear s : dma_mid n None s ->
  let status := cleared_status clear (status_of s) n in
  let t := flags_cleared clear s in
  status_of t = status /\ (∀ k, 0 <= k < n -> control_of t k = control_of s k)
  /\ (∀ k, 0 <= k < 8 -> level k (block t) = (k <? n) && asserted status (block s) k)
  /\ length (dm_channel_state (db_dma t)) = 8%nat
  /\ ∀ k, 0 <= k < n -> state_of t k = refreshed_state status (k + 1) (state_of s k).
Proof.
  intros Hm. pose proof (dj_shape _ _ _ Hm) as Hs. pose proof (dj_count _ _ _ Hm) as En. pose proof (ds_count _ Hs) as Hn.
  unfold flags_cleared. cbv zeta. rewrite En in *. fold (status_of s). set (status := cleared_status _ _ _).
  destruct (flags_stored_facts status s Hs) as (E1&_&_&_). set (t0 := flags_stored status s) in *.
  destruct (refreshed_frame status (seqZ 1 n) t0) as (Eb&_&_).
  destruct (refreshed_states status (seqZ 1 n) t0) as [Hlen Hst]; [apply NoDup_seqZ|intros k; rewrite elem_of_seqZ; lia|apply Hm|].
  split_and!.
  - unfold status_of. rewrite block_with_block, Eb. exact E1.
  - intros k Hk. unfold control_of. rewrite block_with_block, Eb. unfold t0, flags_stored. rewrite block_with_block.
    change (registerValue (channel_base (k + 1)) (set_levels ?l ?b)) with (registerValue (channel_base (k + 1)) b).
    rewrite !registerValue_set_ne; [done|..]; unfold dma_isr, dma_ifcr, channel_base, first_channel, channel_stride; lia.
  - intros k Hk. unfold level. rewrite block_with_block. cbn [set_levels rb_interrupt_levels].
    rewrite driven_lookup by ((intros j; rewrite elem_of_seqZ; pose proof (ok_levels _ (ds_block _ Hs)); lia) || lia).
    rewrite (bool_decide_ext _ (k < n)) by (rewrite elem_of_seqZ; lia). destruct (Z.ltb_spec k n).
    + by rewrite bool_decide_eq_true_2 by done.
    + rewrite bool_decide_eq_false_2 by lia. apply (dj_unused _ _ _ Hm). lia.
  - exact Hlen.
  - intros k Hk. refine (eq_trans (Hst k _) _); [lia|]. by rewrite bool_decide_eq_true_2 by (rewrite elem_of_seqZ; lia).
Qed.
Lemma flags_cleared_shape clear s : dma_shape s -> dma_shape (flags_cleared clear s)
  /\ dm_channel_count (db_dma (flags_cleared clear s)) = dm_channel_count (db_dma s)
  /\ dm_reload_counts (db_dma (flags_cleared clear s)) = dm_reload_counts (db_dma s).
Proof.
  intros Hs. unfold flags_cleared. cbv zeta. set (n := dm_channel_count (db_dma s)). set (status := cleared_status _ _ _).
  assert (is_u32 status) as Hu by apply cleared_status_range, registerValue_range, Hs.
  destruct (refreshed_frame status (seqZ 1 n) (flags_stored status s)) as (Eb&Ec&Er).
  assert (dma_shape (flags_stored status s)) as [[] Hc0 Hs0 Hz0].
  { change (flags_stored status s) with (with_block (set_register dma_ifcr 0) (with_block (set_register dma_isr status) s)).
    apply set_shape; [by apply set_shape|width_lia]. }
  set (t := refreshed _ _ _) in *. split; [|split; [exact Ec|exact Er]]. constructor.
  - rewrite block_with_block, Eb. constructor; try done. cbn. rewrite driven_length. apply Hs.
  - change (1 <= dm_channel_count (db_dma t) <= 8). by rewrite Ec.
  - rewrite block_with_block, Eb. change (dm_channel_count (db_dma (with_block ?f t))) with (dm_channel_count (db_dma t)). by rewrite Ec.
  - by rewrite block_with_block, Eb.
Qed.

Lemma flags_cleared_ok n clear s : dma_inv n true s -> dma_inv n true (flags_cleared clear s).
Proof.
  intros [Hm _]. pose proof (dj_shape _ _ _ Hm) as Hs. pose proof (dj_count _ _ _ Hm) as En. pose proof (ds_count _ Hs) as Hn.
  destruct (flags_cleared_view n clear s Hm) as (Es&Eco&Hl&Hlen&Hst). destruct (flags_cleared_shape clear s Hs) as (Hs'&Ec&Er).
  cbv zeta in *. set (status := cleared_status _ _ _) in *. set (t := flags_cleared clear s) in *. rewrite En in *. split.
  - constructor; [done|done|rewrite Er; apply Hm|done| | |].
    + rewrite Es. apply cleared_flags_ok; [apply registerValue_range, Hs|lia|apply Hm].
    + intros k Hk. rewrite Hl, (proj2 (Z.ltb_ge _ _)) by lia. done.
    + intros k Hk _. rewrite Es, Eco, Hst by lia. pose proof (dj_state_ok _ _ _ Hm k Hk ltac:(done)) as Ho.
      unfold refreshed_state. replace ((k + 1 - 1) * 4) with (4 * k) by lia.
      rewrite !has_testbit by lia. destruct (state_of s k); cbn in *; try done;
        destruct (Z.testbit status _) eqn:E; cbn; try split; try done; apply Ho.
  - intros _ k Hk. rewrite Ec, Hl, Es by done. destruct (Z.ltb_spec k n); [|done].
    cbn [andb]. unfold asserted. fold (control_of s k) (control_of t k). by rewrite Eco by lia.
Qed.

Lemma channel_offset w n :
  (∃ k, 0 <= k < n /\ w = channel_base (k + 1) /\ channelForOffset w n = Some (k + 1))
  \/ ((∀ k, 0 <= k < n -> w <> channel_base (k + 1)) /\ channelForOffset w n = None).
Proof.
  unfold channelForOffset, channel_base, first_channel, channel_stride. cbv zeta.
  destruct (Z.ltb_spec w 8); [right; split; [lia|done]|]. pose proof (Z.div_mod (w - 8) 20).
  destruct (Z.eqb_spec ((w - 8) mod 20) 0) as [E|E]; cbn [negb].
  - assert (0 <= (w - 8) / 20) by (apply Z.div_pos; lia). destruct (Z.leb_spec ((w - 8) / 20 + 1) n).
    + left. exists ((w - 8) / 20). split_and!; done || lia.
    + right. split; [lia|done].
  - right. split; [|done]. intros k Hk ->. apply E. replace (8 + (k + 1 - 1) * 20 - 8) with (k * 20) by lia. by apply Z.mod_mul.
Qed.

Lemma state_ok_control status c c' k st : Z.testbit c' 0 = Z.testbit c 0 -> state_ok status c k st -> state_ok status c' k st.
Proof. intros E. unfold state_ok. by destruct st; rewrite E. Qed.
Lemma mid_all n k s : dma_mid n (Some k) s -> 0 <= k < n -> state_ok (status_of s) (control_of s k) k (state_of s k) -> dma_mid n None s.
Proof.
  intros [] Hk Hok. constructor; try done. intros j Hj _. destruct (decide (j = k)) as [->|]; [done|].
  apply dj_state_ok0; [done|congruence].
Qed.

(** The stopped and started channel of a control write, before the levels are recomputed. *)
Lemma arm_store_runs n k value : 0 <= k < n -> Z.testbit value 0 = true ->
  runs (fun s => dma_mid n (Some k) s /\ control_of s k = value)
    (initializeChannel (k + 1);;
     upd (set_channel_state (k + 1) ChannelState.armed);;
     (if has value (1 .<< 14) then
        items ← get (fun s => reload_count (k + 1) (db_dma s));
        request_items (Z.to_nat items) (k + 1)
      else skip);;
     installed ← get (fun s => dm_enable_callback (db_dma s));
     if (installed : bool) then emit (fx_dma_enable (k + 1)) else skip) (fun _ => dma_mid n None).
Proof.
  intros Hk He. eapply (runs_bind _ _ _ (fun _ s => dma_mid n (Some k) s /\ control_of s k = value)).
  { intros env s [Hm Hv]. unfold initializeChannel. rewrite regValue_bind. eexists _, _, _. split; [done|]. split; [|done].
    destruct Hm as [Hs Hc [Hr Hr'] Hst Hf Hu Ho]. constructor; try done; [by destruct Hs|]. split.
    - cbn. unfold rset. by rewrite length_insert.
    - apply Forall_insert; [done|]. pose proof (land_bounds_r (registerValue (channel_base (k + 1) + 0x04) (block s)) 0xffff). width_lia. }
  intros []. eapply (runs_bind _ _ _ (fun _ => dma_inv n false)).
  { apply runs_modify. intros s [Hm Hv]. split; [|done]. eapply (mid_set_state n (Some k)); [done|exact Hm|by right|]. cbn. by rewrite Hv. }
  intros []. eapply runs_bind; [apply (runs_if _ _ _ _ (fun _ => dma_inv n false)); intros _; [|apply runs_skip]|intros []].
  { eapply runs_bind; [apply runs_keep; intros env s; by eexists _, _|]. intros items. apply request_items_runs. lia. }
  apply (runs_conseq (dma_inv n false) _ _ (fun _ => dma_inv n false)); [|done|by intros _ s []].
  eapply runs_bind; [apply runs_keep; intros env s; by eexists _, _|]. intros installed.
  apply runs_if; intros _; apply runs_keep; intros env s; by eexists _, _.
Qed.

Lemma control_store_runs n k previous value mask c : 0 <= k < n ->
  runs (fun s => dma_mid n (Some k) s /\ control_of s k = value /\ state_ok (status_of s) previous k (state_of s k))
    (dma_storeRegister (channel_base (k + 1)) previous value mask c) (fun _ => dma_inv n true).
Proof.
  intros Hk env s Hs. pose proof (dj_count _ _ _ (proj1 Hs)) as En. unfold dma_storeRegister.
  assert ((channel_base (k + 1) =? dma_isr) = false) as -> by (apply Z.eqb_neq; unfold channel_base, first_channel, channel_stride, dma_isr; lia).
  assert ((channel_base (k + 1) =? dma_ifcr) = false) as -> by (apply Z.eqb_neq; unfold channel_base, first_channel, channel_stride, dma_ifcr; lia).
  unfold channel_count. rewrite get_bind, En. destruct (channel_offset (channel_base (k + 1)) n) as [(k'&Hk'&Ek&->)|[Hne _]].
  2: by destruct (Hne k Hk).
  assert (k' = k) as -> by (unfold channel_base, channel_stride in Ek; lia). clear Ek. cbv zeta.
  revert env s Hs En. cut (runs (fun s => dma_mid n (Some k) s /\ control_of s k = value /\ state_ok (status_of s) previous k (state_of s k))
    ((if negb (has previous 1) && has value 1 then
       initializeChannel (k + 1);;
       upd (set_channel_state (k + 1) ChannelState.armed);;
       (if has value (1 .<< 14) then
          items ← get (fun s => reload_count (k + 1) (db_dma s));
          request_items (Z.to_nat items) (k + 1)
        else skip);;
       installed ← get (fun s => dm_enable_callback (db_dma s));
       if (installed : bool) then emit (fx_dma_enable (k + 1)) else skip
     else if has previous 1 && negb (has value 1) then upd (set_channel_state (k + 1) ChannelState.disabled)
     else skip);; updateInterruptLevels) (fun _ => dma_inv n true)).
  { intros R env s Hs _. by apply R. }
  eapply (runs_bind _ _ _ (fun _ => dma_mid n None)).
  2: { intros []. eapply runs_conseq; [apply update_runs|done|]. intros a s [Hm Hl]. by split. }
  rewrite <- !testbit_odd. apply runs_if; [intros [_ E]%andb_true_iff|intros E1].
  { eapply runs_conseq; [by apply arm_store_runs|by intros s (?&?&?)|done]. }
  apply runs_if; [intros [_ E]%andb_true_iff|intros E2].
  - apply runs_modify. intros s (Hm&Hv&_). eapply (mid_set_state n (Some k)); [done|exact Hm|by right|].
    cbn. rewrite Hv. by apply negb_true_iff.
  - apply (runs_conseq (dma_mid n None) _ _ (fun _ => dma_mid n None)); [apply runs_skip| |done].
    intros s (Hm&Hv&Ho). eapply mid_all; [exact Hm|done|]. eapply state_ok_control; [|exact Ho]. rewrite Hv.
    by destruct (Z.testbit previous 0), (Z.testbit value 0).
Qed.

Lemma store_word_runs n w bits mask c : register_of (first_channel + n * channel_stride) w -> is_u32 bits -> is_u32 mask ->
  runs (dma_inv n true) (store_word w bits mask c) (fun _ => dma_inv n true).
Proof.
  intros [Hw Ha] Hbits Hmask env s [Hm Hl]. pose proof (dj_shape _ _ _ Hm) as Hs. pose proof (dj_count _ _ _ Hm) as En.
  assert (aligned_register w (block s) = true) as Hal.
  { unfold aligned_register. rewrite Ha, (ds_size _ Hs), En. cbn. apply Z.ltb_lt. lia. }
  rewrite store_word_hook by done. set (value := merged_image _ _ _).
  assert (is_u32 value) as Hv by (apply merged_image_range; [apply registerValue_range, Hs|done|done]).
  cbn [storeRegister dma_hooks]. destruct (decide (w = dma_isr)) as [->|Hisr]; [|destruct (decide (w = dma_ifcr)) as [->|Hifcr]].
  - set (t := with_block (set_register dma_isr value) s). unfold dma_storeRegister. change (dma_isr =? dma_isr) with true. cbv iota.
    rewrite setRegister_bind. set (u := with_block _ t).
    assert (dma_mid n None u) as Hu.
    { assert (is_u32 (registerValue dma_isr (block s))) by apply registerValue_range, Hs.
      assert (dma_shape t) as Ht by by apply set_shape. eapply mid_same; [exact Hm|by apply set_shape|]. right. split_and!; try done.
      - unfold status_of, u. rewrite block_with_block. apply registerValue_set_eq; [apply Ht| |done]. apply dma_aligned; auto.
      - unfold u, t. by rewrite !set_levels_same.
      - intros k Hk _. unfold control_of, u, t. rewrite !register_set_ne; [done|..];
          unfold dma_isr, channel_base, first_channel, channel_stride; lia. }
    destruct (update_runs n None env u Hu) as (a&s'&fx&E&Hm'&Hl'). exists a, s', fx. by split_and!.
  - rewrite ifcr_store_run by done. eexists _, _, _. split; [done|]. by apply flags_cleared_ok.
  - destruct (channel_offset w n) as [(k&Hk&->&_)|[Hne Hnone]].
    + destruct (mid_set_control n k value s) as (Hm'&Es&Ek&_&Est&_); [done..|]. cbv zeta in *.
      apply (control_store_runs n k (registerValue (channel_base (k + 1)) (block s)) value mask c Hk env). split_and!; [done|done|].
      rewrite Es, Est. by apply Hm.
    + assert (plain_register n w) as Hp by (unfold dma_isr in *; split; [lia|done]).
      unfold dma_storeRegister. rewrite (proj2 (Z.eqb_neq _ _) Hisr), (proj2 (Z.eqb_neq _ _) Hifcr). unfold channel_count. rewrite get_bind.
      change (dm_channel_count (db_dma (with_block ?f s))) with (dm_channel_count (db_dma s)). rewrite En, Hnone.
      eexists _, _, _. split; [done|]. by apply inv_plain.
Qed.

Lemma inv_size n lv s : dma_inv n lv s -> rb_block_size (block s) = first_channel + n * channel_stride.
Proof. intros [Hm _]. rewrite (ds_size _ (dj_shape _ _ _ Hm)). by rewrite (dj_count _ _ _ Hm). Qed.
Lemma inv_count n lv s : dma_inv n lv s -> 1 <= n <= 8.
Proof. intros [Hm _]. rewrite <- (dj_count _ _ _ Hm). apply (dj_shape _ _ _ Hm). Qed.

Lemma dma_write_ok n offset size v c : n <= 8 -> holds (dma_inv n true) (write offset size v c) (fun _ => True).
Proof.
  intros Hn. apply (holds_write _ (first_channel + n * channel_stride)).
  - intros s. apply inv_size.
  - unfold first_channel, channel_stride. lia.
  - intros w bits mask Hw Hb Hm. eapply runs_holds; [by apply store_word_runs|done].
Qed.
Lemma dma_read_ok n offset size c : n <= 8 -> holds (dma_inv n true) (read offset size c) (fun _ => True).
Proof.
  intros Hn. apply (holds_read _ (first_channel + n * channel_stride)).
  - intros s. apply inv_size.
  - unfold first_channel, channel_stride. lia.
  - intros w Hw. by apply holds_get.
Qed.
Lemma dma_request_ok n channel : 0 <= channel -> holds (dma_inv n true) (request channel) (fun _ => True).
Proof. intros Hc. eapply runs_holds; [by apply request_runs|done]. Qed.

(** *** Reset *)

Lemma zero_registers b w : Forall (eq 0) (rb_registers b) -> registerValue w b = 0.
Proof.
  intros Hz. unfold registerValue, rget. destruct (aligned_register w b); [|done].
  destruct (rb_registers b !! _) eqn:E; [|done]. by rewrite Forall_lookup in Hz; rewrite <- (Hz _ _ E).
Qed.
Record dma_resettable (n : Z) s : Prop := mk_dma_resettable {
  dr_shape : dma_shape s;
  dr_count : dm_channel_count (db_dma s) = n;
  dr_reloads : length (dm_reload_counts (db_dma s)) = 8%nat /\ Forall is_u16 (dm_reload_counts (db_dma s));
}.
Lemma reset_runs n : runs (dma_resettable n) reset (fun _ => dma_inv n true).
Proof.
  intros env s [Hs Hn Hr]. unfold reset. rewrite modify_bind. set (t := with_block _ s).
  assert (dma_shape t) as Ht by (destruct Hs; constructor; [by apply reset_registers_ok|done..]).
  pose proof (levels_run (fun line => setInterruptLevel line false) (fun _ => false) (seqZ 0 8) env t (rb_interrupt_levels (block t))) as R.
  assert (with_block (set_levels (rb_interrupt_levels (block t))) t = t) as Et by by destruct s as [[[] ] ?].
  rewrite Et in R. erewrite bind_inl; [|apply R; [apply NoDup_seqZ|intros k; rewrite elem_of_seqZ; lia|apply Ht|done]].
  set (ls := driven _ _ _). eexists _, _, _. split; [done|]. set (u := mkDmaBus _ _).
  assert (∀ k, 0 <= k < 8 -> default false (ls !! Z.to_nat k) = false) as Hls.
  { intros k Hk. unfold ls. rewrite driven_lookup by ((intros j; rewrite elem_of_seqZ; pose proof (ok_levels _ (ds_block _ Ht)); lia) || lia).
    by rewrite bool_decide_eq_true_2 by (rewrite elem_of_seqZ; lia). }
  assert (∀ w, registerValue w (block u) = 0) as H0 by (intros w; apply zero_registers, Hs).
  assert (∀ k, 0 <= k < 8 -> asserted (status_of u) (block u) k = false) as Ha.
  { intros k Hk. rewrite asserted_bits, flags_and_control by lia. rewrite H0. by rewrite !Z.bits_0, !andb_false_r. }
  split.
  - constructor; try done.
    + destruct Ht as [[] ? ? ?]. constructor; try done. constructor; try done. change (length ls = 8%nat). unfold ls. by rewrite driven_length.
    + unfold status_of. rewrite H0. split; [intros k Hk|intros i Hi]; by rewrite !Z.bits_0.
    + intros k Hk. apply Hls. rewrite <- Hn in Hk. pose proof (ds_count _ Hs). lia.
    + intros k Hk _. assert (state_of u k = ChannelState.disabled) as ->.
      { unfold state_of, channel_state, u. cbn [db_dma dm_channel_state]. by destruct (replicate 8 ChannelState.disabled !! _) eqn:E;
          [apply lookup_replicate in E as [-> _]|]. }
      unfold state_ok, control_of. by rewrite H0, Z.bits_0.
  - intros _ k Hk. rewrite (Ha k Hk), andb_false_r. by apply Hls.
Qed.
Lemma inv_resettable n lv s : dma_inv n lv s -> dma_resettable n s.
Proof. by intros [[] _]. Qed.

Lemma dma_new_ok name count memory loop trace env :
  dma_inv (normalizedDmaChannels count) true (dma_new (M := M) name count memory loop trace env).
Proof.
  unfold dma_new. cbv zeta. set (n := normalizedDmaChannels count). assert (1 <= n <= 8) as Hn by (unfold n, normalizedDmaChannels; lia).
  set (s0 := mkDmaBus _ memory). assert (dma_resettable n s0) as Hs.
  { constructor; [|done|].
    - constructor; [|done|done|].
      + apply block_init_ok. unfold first_channel, channel_stride. lia.
      + cbn. by apply Forall_replicate.
    - split; [done|]. cbn. repeat constructor; width_lia. }
  unfold construct. destruct (reset_runs n env s0 Hs) as (a&s'&w&->&Hok). exact Hok.
Qed.
End controller.
