(* ===== verification/Timing.v ===== *)
(** * Durations in [long double] and replaceable events

    The devices that run on simulated time convert tick counts to nanoseconds in [long double]
    and keep one [ScheduledEvent] ([include/fil/sim/event_loop.hpp]).

    The significand width of [long double] depends on the target (53 bits where it is [double],
    64 on x86-64), so it is the class [LongDouble].  A value is [ld_m * 2^ld_e]; every operation
    rounds its exact result to nearest, ties to even.  The values here stay far below the
    exponent limits of either format, so overflow and subnormals do not occur.

    A [ScheduledEvent] that a device owns is the deadline of its pending invocation.  The event
    loop runs the callback at the deadline, after clearing the handle ([retireBefore]). *)

From S2P Require Import Prelude CpuState Peripheral PeripheralProofs.
#[local] Open Scope Z_scope.
#[local] Open Scope fil_scope.

(** ** [long double] *)

Class LongDouble := {
  ld_precision : Z;
  ld_precision_wide : 53 <= ld_precision;
}.

Record ld := mk_ld { ld_m : Z; ld_e : Z }.
Definition ld_num (x : ld) : Z := ld_m x * 2 ^ Z.max 0 (ld_e x).
Definition ld_den (x : ld) : Z := 2 ^ Z.max 0 (- ld_e x).

Section arithmetic.
Context `{LongDouble}.

(** The exponent that leaves a quotient of [ld_precision] bits. *)
Definition ld_exponent (n d : Z) : Z :=
  let e := Z.log2 n - Z.log2 d - ld_precision in
  if d * 2 ^ ld_precision * 2 ^ Z.max 0 e <=? n * 2 ^ Z.max 0 (- e) then e + 1 else e.

(** Nearest integer to [n / d], ties to even. *)
Definition nearest_even (n d : Z) : Z :=
  let q := n / d in
  match 2 * (n mod d) ?= d with
  | Lt => q
  | Gt => q + 1
  | Eq => if Z.even q then q else q + 1
  end.

(** The representable value nearest to the ratio [n / d] of a nonnegative and a positive number. *)
Definition ld_round (n d : Z) : ld :=
  if n =? 0 then mk_ld 0 0
  else
    let g := Z.gcd n d in
    let n := n / g in
    let d := d / g in
    let e := ld_exponent n d in
    mk_ld (nearest_even (n * 2 ^ Z.max 0 (- e)) (d * 2 ^ Z.max 0 e)) e.

Definition ld_of_Z (n : Z) : ld := ld_round n 1.
Definition ld_mul (x y : ld) : ld := ld_round (ld_num x * ld_num y) (ld_den x * ld_den y).
Definition ld_div (x y : ld) : ld := ld_round (ld_num x * ld_den y) (ld_den x * ld_num y).
End arithmetic.

Definition ld_geb (x y : ld) : bool := ld_num y * ld_den x <=? ld_num x * ld_den y.
(** [std::ceil] and the conversion to an integer, which truncates. *)
Definition ld_ceil (x : ld) : Z := - (- ld_num x / ld_den x).
Definition ld_trunc (x : ld) : Z := ld_num x / ld_den x.

(** ** Replaceable events *)

Definition max_u64 : Z := 0xffffffffffffffff.
(** The deadline of the pending invocation; [None] is [id_ == 0]. *)
Definition ScheduledEvent : Type := option Z.
Definition pending (e : ScheduledEvent) : bool := bool_decide (is_Some e).

Section scheduled.
Context {S : Type} `{HasBlock S}.
(** Where the device keeps its handle. *)
Context (with_event : (ScheduledEvent -> ScheduledEvent) -> S -> S).

Definition cancel : Dev S unit := modify (with_event (fun _ => None)).
(** [ScheduledEvent::scheduleAfter] with the loop of the device; the result is [id != 0]. *)
Definition scheduleAfter (delta : Z) : Dev S bool :=
  cancel;;
  loop ← get (fun s => rb_has_loop (block s));
  if (loop : bool) then
    now ← ask env_now;
    if max_u64 - now <? delta then throw "simulation event time overflow"
    else modify (with_event (fun _ => Some (now + delta)));; mret true
  else mret false.
End scheduled.

(** * Proofs about durations and replaceable events

    Rounding a ratio keeps its floor and its ceiling while the numerator fits the significand, so
    the conversions of the timing devices are exact in that range on every target. *)


(** Case analysis on a comparison of the goal. *)
Ltac case_eqb := match goal with |- context [?a =? ?b] => destruct (Z.eqb_spec a b) end.

(** A stronger invariant for the rest of a program. *)
Lemma holds_at {S A} (I J : S -> Prop) (m : Dev S A) Q env s : holds J m Q -> J s -> (∀ s, J s -> I s) ->
  let '(r, s', _) := m env s in I s' /\ ∀ a, r = inl a -> Q a.
Proof. intros Hm Hs HI. specialize (Hm env s Hs). destruct (m env s) as [[r s'] w]. split; [apply HI|]; apply Hm. Qed.

(** Programs whose last state satisfies [Q], also when they throw; the steps before the last do not. *)
Definition ends {S A} (P : S -> Prop) (m : Dev S A) (Q : S -> Prop) : Prop := ∀ env s, P s -> Q (snd (fst (m env s))).
Definition total {S A} (m : Dev S A) : Prop := ∀ env s, ∃ a s' w, m env s = (inl a, s', w).
Lemma ends_bind {S A B} (P : S -> Prop) (m : Dev S A) (f : A -> Dev S B) R Q :
  total m -> holds P m R -> (∀ a, R a -> ends P (f a) Q) -> ends P (m ≫= f) Q.
Proof.
  intros Ht Hm Hf env s Hs. destruct (Ht env s) as (a&s'&w&E). specialize (Hm env s Hs). rewrite E in Hm.
  destruct Hm as [Hs' HR]. erewrite bind_inl by exact E. rewrite state_of_app. by apply Hf; [apply HR|].
Qed.
Lemma total_ret {S A} (a : A) : total (mret a : Dev S A).
Proof. intros env s. by eexists _, _, _. Qed.
Lemma total_get {S A} (f : S -> A) : total (get f).
Proof. intros env s. by eexists _, _, _. Qed.
Lemma total_modify {S} (f : S -> S) : total (modify f).
Proof. intros env s. by eexists _, _, _. Qed.
Lemma total_emit {S} e : total (emit e : Dev S unit).
Proof. intros env s. by eexists _, _, _. Qed.
Lemma total_skip {S} : total (skip : Dev S unit).
Proof. intros env s. by eexists _, _, _. Qed.
Lemma total_currentTime {S} `{HasBlock S} : total (currentTime : Dev S Z).
Proof. intros env s. by eexists _, _, _. Qed.
Lemma total_regValue {S} `{HasBlock S} w : total (regValue w : Dev S Z).
Proof. intros env s. by eexists _, _, _. Qed.
Lemma total_setRegister {S} `{HasBlock S} w v : total (setRegister w v : Dev S unit).
Proof. intros env s. by eexists _, _, _. Qed.
Lemma total_traceEvent {S} `{HasBlock S} t fields : total (traceEvent t fields : Dev S unit).
Proof. intros env s. by eexists _, _, _. Qed.
Lemma total_setInterruptLevel {S} `{HasBlock S} line v : total (setInterruptLevel line v : Dev S unit).
Proof. intros env s. unfold setInterruptLevel. destruct (_ || _); by eexists _, _, _. Qed.
Lemma total_bind {S A B} (m : Dev S A) (f : A -> Dev S B) : total m -> (∀ a, total (f a)) -> total (m ≫= f).
Proof.
  intros Hm Hf env s. destruct (Hm env s) as (a&s'&w&E). destruct (Hf a env s') as (b&s''&w'&E').
  eexists _, _, _. erewrite bind_inl by exact E. by rewrite E'.
Qed.
Lemma total_if {S A} (b : bool) (m n : Dev S A) : total m -> total n -> total (if b then m else n).
Proof. by destruct b. Qed.
#[export] Hint Resolve total_ret total_get total_modify total_emit total_skip total_currentTime total_regValue
  total_setRegister total_traceEvent total_setInterruptLevel total_if : fil.

(** The ceiling of a ratio. *)
Definition cdiv (n d : Z) : Z := - (- n / d).

Lemma cdiv_spec n d : 0 < d -> (cdiv n d - 1) * d < n <= cdiv n d * d.
Proof. intros Hd. unfold cdiv. pose proof (Z.div_mod (- n) d). pose proof (Z.mod_pos_bound (- n) d). nia. Qed.
Lemma cdiv_unique n d q : 0 < d -> (q - 1) * d < n <= q * d -> cdiv n d = q.
Proof. intros Hd Hq. pose proof (cdiv_spec n d Hd). nia. Qed.
Lemma div_unique_between n d q : 0 < d -> q * d <= n < (q + 1) * d -> n / d = q.
Proof. intros Hd Hq. symmetry. apply (Z.div_unique_pos n d q (n - q * d)); nia. Qed.
Lemma cdiv_mul n d k : 0 < d -> 0 < k -> cdiv (n * k) (d * k) = cdiv n d.
Proof. intros Hd Hk. unfold cdiv. rewrite <- Z.mul_opp_l, Z.div_mul_cancel_r by lia. done. Qed.
(** The ceiling is the least number of units that covers [n]. *)
Lemma cdiv_le n d t : 0 < d -> cdiv n d <= t <-> n <= t * d.
Proof. intros Hd. pose proof (cdiv_spec n d Hd). nia. Qed.
Lemma cdiv_pos n d : 0 < n -> 0 < d -> 1 <= cdiv n d.
Proof. intros Hn Hd. apply Z.nlt_ge. intros Hlt. assert (cdiv n d <= 0) as Hle by lia. apply cdiv_le in Hle; lia. Qed.

Lemma pow2_pos k : 0 < 2 ^ Z.max 0 k.
Proof. apply Z.pow_pos_nonneg; lia. Qed.
#[export] Hint Resolve pow2_pos : fil.

(** [nearest_even] is the floor or the ceiling, and the floor only up to the midpoint. *)
Lemma nearest_even_bounds n d : 0 < d -> n / d <= nearest_even n d <= cdiv n d.
Proof.
  intros Hd. pose proof (cdiv_spec n d Hd). pose proof (Z.div_mod n d). pose proof (Z.mod_pos_bound n d Hd).
  unfold nearest_even. destruct (Z.compare_spec (2 * (n mod d)) d); [destruct (Z.even _)|..]; nia.
Qed.
Lemma nearest_even_up n d : d < 2 * (n mod d) -> nearest_even n d = n / d + 1.
Proof. intros H. unfold nearest_even. by rewrite (proj2 (Z.compare_gt_iff _ _) H). Qed.
Lemma nearest_even_down n d : 2 * (n mod d) < d -> nearest_even n d = n / d.
Proof. intros H. unfold nearest_even. by rewrite (proj2 (Z.compare_lt_iff _ _) H). Qed.

Section rounding.
Context `{LongDouble}.
Abbreviation p := ld_precision.

Lemma two_p : 2 ^ p = 2 * 2 ^ (p - 1).
Proof. pose proof ld_precision_wide. replace p with (Z.succ (p - 1)) at 1 by lia. rewrite Z.pow_succ_r; lia. Qed.
Lemma two_p_53 : 2 ^ 53 <= 2 ^ p.
Proof. pose proof ld_precision_wide. apply Z.pow_le_mono_r; lia. Qed.

(** Powers of two at the two sides of a sum of exponents. *)
Lemma pow2_sides a b : 2 ^ Z.max 0 (a + b) * 2 ^ Z.max 0 (- a) * 2 ^ Z.max 0 (- b)
  = 2 ^ Z.max 0 (- (a + b)) * 2 ^ Z.max 0 a * 2 ^ Z.max 0 b.
Proof. rewrite <- !Z.pow_add_r by lia. f_equal. lia. Qed.

Lemma log2_lower n : 0 < n -> 2 ^ Z.log2 n <= n.
Proof. intros Hn. by apply Z.log2_spec. Qed.
Lemma log2_upper n : 0 < n -> n < 2 * 2 ^ Z.log2 n.
Proof. intros Hn. rewrite <- Z.pow_succ_r by apply Z.log2_nonneg. by apply Z.log2_spec. Qed.

(** The significand has its top bit set. *)
Lemma ld_exponent_normal n d : 0 < n -> 0 < d ->
  d * 2 ^ (p - 1) * 2 ^ Z.max 0 (ld_exponent n d) <= n * 2 ^ Z.max 0 (- ld_exponent n d).
Proof.
  intros Hn Hd. unfold ld_exponent. set (e := Z.log2 n - Z.log2 d - p). pose proof two_p as Hp.
  pose proof (log2_lower n Hn). pose proof (log2_upper d Hd).
  pose proof (Z.log2_nonneg n). pose proof (Z.log2_nonneg d). pose proof ld_precision_wide.
  destruct (Z.leb_spec (d * 2 ^ p * 2 ^ Z.max 0 e) (n * 2 ^ Z.max 0 (- e))) as [Hle|Hgt].
  - destruct (Z.le_gt_cases 0 e).
    + rewrite (Z.max_r 0 (e + 1)), (Z.max_l 0 (- (e + 1))), (Z.max_r 0 e), (Z.max_l 0 (- e)) in * by lia.
      replace (e + 1) with (Z.succ e) by lia. rewrite Z.pow_succ_r by lia. rewrite Hp in Hle. lia.
    + rewrite (Z.max_l 0 (e + 1)), (Z.max_r 0 (- (e + 1))), (Z.max_l 0 e), (Z.max_r 0 (- e)) in * by lia.
      replace (- e) with (Z.succ (- (e + 1))) in Hle by lia. rewrite Z.pow_succ_r in Hle by lia. rewrite Hp in Hle. lia.
  - assert (2 ^ Z.log2 d * 2 ^ p * 2 ^ Z.max 0 e = 2 ^ Z.log2 n * 2 ^ Z.max 0 (- e)) as E.
    { rewrite <- !Z.pow_add_r by lia. f_equal. lia. }
    pose proof (pow2_pos e) as HE. pose proof (pow2_pos (- e)) as HK.
    assert (0 < 2 ^ (p - 1)) by (apply Z.pow_pos_nonneg; lia).
    trans (2 ^ Z.log2 n * 2 ^ Z.max 0 (- e)); [|apply Z.mul_le_mono_nonneg_r; lia]. rewrite <- E, Hp.
    replace (2 ^ Z.log2 d * (2 * 2 ^ (p - 1))) with (2 * 2 ^ Z.log2 d * 2 ^ (p - 1)) by lia.
    do 2 (apply Z.mul_le_mono_nonneg_r; [lia|]). lia.
Qed.

(** Rounding depends on the value only. *)
Lemma ld_round_scale k n d : 0 < k -> 0 <= n -> 0 < d -> ld_round (k * n) (k * d) = ld_round n d.
Proof.
  intros Hk Hn Hd. unfold ld_round. destruct (Z.eqb_spec n 0) as [->|Hn0]; [by rewrite Z.mul_0_r|].
  rewrite (proj2 (Z.eqb_neq (k * n) 0)) by nia. rewrite Z.gcd_mul_mono_l_nonneg by lia.
  assert (Z.gcd n d <> 0) by (intros [? ?]%Z.gcd_eq_0; lia).
  by rewrite !Z.div_mul_cancel_l by lia.
Qed.

Lemma gcd_parts n d : 0 < n -> 0 < d ->
  let g := Z.gcd n d in 0 < g /\ 0 < n / g <= n /\ 0 < d / g /\ n = g * (n / g) /\ d = g * (d / g).
Proof.
  intros Hn Hd g. assert (0 < g) as Hg.
  { pose proof (Z.gcd_nonneg n d). assert (g <> 0) by (intros [? ?]%Z.gcd_eq_0; lia). lia. }
  destruct (Z.gcd_divide_l n d) as [a Ha], (Z.gcd_divide_r n d) as [b Hb]. fold g in Ha, Hb.
  assert (n / g = a) as -> by (rewrite Ha; apply Z.div_mul; lia).
  assert (d / g = b) as -> by (rewrite Hb; apply Z.div_mul; lia).
  split_and!; nia.
Qed.

(** The rounding step on a reduced ratio whose numerator fits the significand. *)
Lemma round_reduced n d : 0 < n < 2 ^ p -> 0 < d ->
  let e := ld_exponent n d in
  let m := nearest_even (n * 2 ^ Z.max 0 (- e)) (d * 2 ^ Z.max 0 e) in
  cdiv (m * 2 ^ Z.max 0 e) (2 ^ Z.max 0 (- e)) = cdiv n d /\ (m * 2 ^ Z.max 0 e) / (2 ^ Z.max 0 (- e)) = n / d.
Proof.
  intros Hn Hd e m. pose proof (ld_exponent_normal n d ltac:(lia) Hd) as Hnorm. fold e in Hnorm.
  pose proof (pow2_pos e) as HE. pose proof (pow2_pos (- e)) as HK. pose proof two_p as Hp.
  set (E := 2 ^ Z.max 0 e) in *. set (K := 2 ^ Z.max 0 (- e)) in *.
  assert (0 < 2 ^ (p - 1)) by (apply Z.pow_pos_nonneg; pose proof ld_precision_wide; lia).
  assert (d * E < 2 * K) as Hsmall by nia.
  destruct (Z.le_gt_cases 0 e) as [Hpos|Hneg].
  - assert (K = 1) as HK1 by (unfold K; by rewrite Z.max_l by lia). assert (d = 1 /\ E = 1) as [-> HE1] by nia.
    assert (m = n) as ->.
    { unfold m. rewrite HK1, HE1, !Z.mul_1_r. unfold nearest_even. rewrite Z.mod_1_r, Z.div_1_r. done. }
    by rewrite HK1, HE1, Z.mul_1_r.
  - assert (E = 1) as HE1 by (unfold E; by rewrite Z.max_l by lia).
    assert (m = nearest_even (n * K) d) as Hm by (unfold m; by rewrite HE1, Z.mul_1_r).
    rewrite HE1, Z.mul_1_r in *. clear Hnorm.
    pose proof (nearest_even_bounds (n * K) d Hd) as Hb. rewrite <- Hm in Hb.
    pose proof (cdiv_spec (n * K) d Hd). pose proof (Z.div_mod (n * K) d). pose proof (Z.mod_pos_bound (n * K) d Hd).
    pose proof (cdiv_spec n d Hd) as HN. pose proof (Z.div_mod n d) as HQ. pose proof (Z.mod_pos_bound n d Hd).
    split.
    + apply cdiv_unique; [done|]. split; [|nia].
      (* the value stays above the integer below the ceiling *)
      apply Z.lt_nge. intros Hle. set (N := cdiv n d) in *. assert (n * K / d = (N - 1) * K) as Eq by nia.
      assert ((n * K) mod d = (n - (N - 1) * d) * K) as Er by nia.
      rewrite nearest_even_up in Hm by nia. nia.
    + apply div_unique_between; [done|]. split; [nia|].
      apply Z.nle_gt. intros Hle. set (Q := n / d) in *. assert (cdiv (n * K) d = (Q + 1) * K) as Eq by nia.
      assert (n * K / d = (Q + 1) * K - 1) as Ef by nia.
      rewrite nearest_even_down in Hm by nia. nia.
Qed.

Lemma ld_round_exact n d : 0 <= n < 2 ^ p -> 0 < d ->
  ld_ceil (ld_round n d) = cdiv n d /\ ld_trunc (ld_round n d) = n / d.
Proof.
  intros Hn Hd. unfold ld_round. destruct (Z.eqb_spec n 0) as [->|Hn0].
  { rewrite Z.div_0_l by lia. split; [|done]. unfold cdiv. by rewrite Z.div_0_l by lia. }
  destruct (gcd_parts n d ltac:(lia) Hd) as (Hg&Hn'&Hd'&En&Ed). set (g := Z.gcd n d) in *.
  destruct (round_reduced (n / g) (d / g) ltac:(lia) Hd') as [Hc Hf].
  unfold ld_ceil, ld_trunc, ld_num, ld_den. cbn [ld_m ld_e]. cbv zeta in Hc, Hf. unfold cdiv in Hc. rewrite Hc, Hf.
  change (- (- (n / g) / (d / g))) with (cdiv (n / g) (d / g)).
  rewrite <- (cdiv_mul (n / g) (d / g) g), <- (Z.div_mul_cancel_r (n / g) (d / g) g) by lia.
  by rewrite !(Z.mul_comm _ g), <- En, <- Ed.
Qed.

(** ** Values that are exact integers *)

Definition ld_is (x : ld) (z : Z) : Prop := ld_num x = z * ld_den x.
Lemma ld_den_pos x : 0 < ld_den x.
Proof. apply pow2_pos. Qed.

Lemma ld_round_is n : 0 <= n < 2 ^ p -> ld_is (ld_round n 1) n.
Proof.
  intros Hn. destruct (ld_round_exact n 1 Hn ltac:(lia)) as [Hc Hf]. rewrite Z.div_1_r in Hf. unfold ld_ceil, ld_trunc in *.
  pose proof (ld_den_pos (ld_round n 1)) as Hd. change (- (- ?a / ?b)) with (cdiv a b) in Hc.
  pose proof (cdiv_spec (ld_num (ld_round n 1)) _ Hd). pose proof (Z.mul_div_le (ld_num (ld_round n 1)) _ Hd).
  assert (cdiv n 1 = n) as En by (apply cdiv_unique; lia). unfold ld_is. nia.
Qed.
Lemma ld_of_Z_is n : 0 <= n < 2 ^ p -> ld_is (ld_of_Z n) n.
Proof. apply ld_round_is. Qed.
Lemma ld_mul_is x y a b : ld_is x a -> ld_is y b -> 0 <= a * b < 2 ^ p -> ld_is (ld_mul x y) (a * b).
Proof.
  intros Hx Hy Hab. unfold ld_mul. rewrite Hx, Hy. pose proof (ld_den_pos x). pose proof (ld_den_pos y).
  replace (a * ld_den x * (b * ld_den y)) with ((ld_den x * ld_den y) * (a * b)) by lia.
  rewrite <- (Z.mul_1_r (ld_den x * ld_den y)) at 2. rewrite ld_round_scale by nia. by apply ld_round_is.
Qed.
Lemma ld_div_round x y a b : ld_is x a -> ld_is y b -> 0 <= a -> 0 < b -> ld_div x y = ld_round a b.
Proof.
  intros Hx Hy Ha Hb. unfold ld_div. rewrite Hx, Hy. pose proof (ld_den_pos x). pose proof (ld_den_pos y).
  replace (a * ld_den x * ld_den y) with ((ld_den x * ld_den y) * a) by lia.
  replace (ld_den x * (b * ld_den y)) with ((ld_den x * ld_den y) * b) by lia.
  apply ld_round_scale; nia.
Qed.

(** A quotient below an integer that is a value compares below it, so the saturation test of the conversions fails. *)
Lemma ld_geb_ceil x y z : ld_is y z -> ld_ceil x < z -> ld_geb x y = false.
Proof.
  intros Hy Hx. apply Z.leb_gt. rewrite Hy. unfold ld_ceil in Hx. change (- (- ?a / ?b)) with (cdiv a b) in Hx.
  pose proof (ld_den_pos x) as Hd. pose proof (ld_den_pos y). pose proof (cdiv_spec (ld_num x) _ Hd) as [_ Hu].
  assert (ld_num x < z * ld_den x) as Hl by (apply (Z.le_lt_trans _ _ _ Hu), Z.mul_lt_mono_pos_r; lia).
  replace (z * ld_den y * ld_den x) with (z * ld_den x * ld_den y) by lia. apply Z.mul_lt_mono_pos_r; lia.
Qed.
(** Conversion of an integer at a given precision, for evaluation. *)
Definition ld_of_at (q n : Z) : ld :=
  let e := Z.log2 n - Z.log2 1 - q in
  let e := if 1 * 2 ^ q * 2 ^ Z.max 0 e <=? n * 2 ^ Z.max 0 (- e) then e + 1 else e in
  mk_ld (nearest_even (n * 2 ^ Z.max 0 (- e)) (1 * 2 ^ Z.max 0 e)) e.

(** The largest [SimTimeNs] converts to itself or rounds up to [2^64]. *)
Lemma ld_of_max : ∃ z, max_u64 <= z /\ ld_is (ld_of_Z max_u64) z.
Proof.
  destruct (Z.le_gt_cases 64 p) as [Hp|Hp].
  { exists max_u64. split; [done|]. apply ld_of_Z_is. pose proof (Z.pow_le_mono_r 2 64 p). split; [done|].
    apply Z.lt_le_trans with (2 ^ 64); [done|lia]. }
  exists (2 ^ 64). split; [done|]. pose proof ld_precision_wide as Hw. unfold ld_is, ld_of_Z, ld_round, ld_exponent.
  remember ld_precision as q eqn:Eq. clear Eq.
  assert (q ∈ seqZ 53 11) as Hq by (apply elem_of_seqZ; lia).
  assert (forallb (fun q => ld_num (ld_of_at q max_u64) =? 2 ^ 64 * ld_den (ld_of_at q max_u64)) (seqZ 53 11) = true) as Hall
    by (vm_compute; reflexivity).
  apply forallb_forall with (x := q) in Hall; [|by apply list_elem_of_In]. by apply Z.eqb_eq in Hall.
Qed.
Lemma ld_below_max x : ld_ceil x < max_u64 -> ld_geb x (ld_of_Z max_u64) = false.
Proof. destruct ld_of_max as (z&Hz&Hi). intros Hx. apply (ld_geb_ceil x _ z Hi). lia. Qed.
End rounding.

(** ** Scheduling *)

Section scheduling.
Context {S : Type} `{HasBlock S} (with_event : (ScheduledEvent -> ScheduledEvent) -> S -> S).
Hypothesis block_with_event : ∀ f s, block (with_event f s) = block s.

Lemma scheduleAfter_run delta env (s : S) : rb_has_loop (block s) = true -> env_now env + delta <= max_u64 ->
  scheduleAfter with_event delta env s
  = (inl true, with_event (fun _ => Some (env_now env + delta)) (with_event (fun _ => None) s), []).
Proof.
  intros Hl Hd. unfold scheduleAfter, cancel. rewrite modify_bind, get_bind, block_with_event, Hl.
  unfold mbind, Dev_bind, ask. rewrite (proj2 (Z.ltb_ge (max_u64 - env_now env) delta)) by lia. done.
Qed.
Lemma scheduleAfter_no_loop delta env (s : S) : rb_has_loop (block s) = false ->
  scheduleAfter with_event delta env s = (inl false, with_event (fun _ => None) s, []).
Proof. intros Hl. unfold scheduleAfter, cancel. by rewrite modify_bind, get_bind, block_with_event, Hl. Qed.
Lemma scheduleAfter_overflow delta env (s : S) : rb_has_loop (block s) = true -> max_u64 < env_now env + delta ->
  scheduleAfter with_event delta env s = (inr "simulation event time overflow", with_event (fun _ => None) s, []).
Proof.
  intros Hl Hd. unfold scheduleAfter, cancel. rewrite modify_bind, get_bind, block_with_event, Hl.
  unfold mbind, Dev_bind, ask. by rewrite (proj2 (Z.ltb_lt (max_u64 - env_now env) delta)) by lia.
Qed.

(** The three outcomes keep an invariant of the device that does not mention the handle. *)
Lemma holds_scheduleAfter (I : S -> Prop) delta : (∀ f s, I s -> I (with_event f s)) ->
  holds I (scheduleAfter with_event delta) (fun _ => True).
Proof.
  intros HI. unfold scheduleAfter. eapply (holds_bind I _ _ (fun _ => True)); [by apply holds_modify; auto|]. intros _ _.
  eapply (holds_bind I _ _ (fun _ => True)); [by apply holds_get|]. intros [] _; [|by apply holds_ret].
  eapply (holds_bind I _ _ (fun _ => True)); [by apply holds_ask|]. intros now _. destruct (_ <? _); [apply holds_throw|].
  eapply (holds_bind I _ _ (fun _ => True)); [apply holds_modify; auto|]. intros _ _. by apply holds_ret.
Qed.
End scheduling.
