(* ===== verification/Watchdog.v ===== *)
(** * Independent and window watchdog

    Models [IwdgPeripheral] and [WwdgPeripheral] ([src/stm32g4/watchdog.cpp] and the classes of
    [include/fil/stm32g4/peripheral.hpp]).  The callback of the timeout event is a program of its
    own, run by the event loop at the deadline. *)

From S2P Require Import Prelude Address CpuState CpuStateProofs Common Trace Peripheral PeripheralProofs Timing.
#[local] Open Scope Z_scope.
#[local] Open Scope fil_scope.

Definition key_unlock : Z := 0x5555.
Definition key_start : Z := 0xcccc.
Definition key_reload : Z := 0xaaaa.

Definition boundedDuration `{LongDouble} (duration : ld) : Z :=
  if ld_geb duration (ld_of_Z max_u64) then max_u64 else Z.max (ld_ceil duration) 1.

(** The lifecycle of a watchdog or timer. *)
Module State.
Inductive t := stopped | running.
#[global] Instance eq_dec : EqDecision t.
Proof. solve_decision. Defined.
End State.

Module Iwdg.
Module UnlockState.
Inductive t := locked | key1_seen.
#[global] Instance eq_dec : EqDecision t.
Proof. solve_decision. Defined.
End UnlockState.

Record IwdgPeripheral := mkIwdg {
  iw_block : RegBlock;
  iw_reset_enabled : bool;
  iw_state : State.t;
  iw_unlock : UnlockState.t;
  iw_timeout_event : ScheduledEvent;
  iw_reset_callback : bool;
}.
#[global] Instance iwdg_has_block : HasBlock IwdgPeripheral :=
  {| block := iw_block; with_block f d := {| d with iw_block := f (iw_block d) |} |}.
#[global] Instance iwdg_has_block_laws : HasBlockLaws IwdgPeripheral.
Proof. constructor; [done|]. intros f g [] E. cbn in *. by rewrite E. Qed.
Definition with_timeout (f : ScheduledEvent -> ScheduledEvent) (d : IwdgPeripheral) : IwdgPeripheral :=
  {| d with iw_timeout_event := f (iw_timeout_event d) |}.
Definition set_state (x : State.t) : Dev IwdgPeripheral unit :=
  modify (fun d : IwdgPeripheral => {| d with iw_state := x |}).

Section device.
Context `{LongDouble}.

Definition cancelTimeout : Dev IwdgPeripheral unit := cancel with_timeout.

(** The period from the prescaler and reload registers, at 32 kHz. *)
Definition timeout_duration (b : RegBlock) : Z :=
  let divider_code := Z.min (registerValue 0x04 b .& 0x7) 6 in
  let prescaler := 4 .<< divider_code in
  let ticks := (registerValue 0x08 b .& 0x0fff) + 1 in
  boundedDuration (ld_div (ld_mul (ld_mul (ld_of_Z ticks) (ld_of_Z prescaler)) (ld_of_Z 1000000000)) (ld_of_Z 32000)).

Definition reload : Dev IwdgPeripheral unit :=
  cancelTimeout;;
  traceEvent "watchdog_reload" [];;
  state ← get iw_state;
  match state with
  | State.stopped => skip
  | State.running =>
      loop ← get (fun d => rb_has_loop (iw_block d));
      if (loop : bool) then
        duration ← get (fun d => timeout_duration (iw_block d));
        _ ← scheduleAfter with_timeout duration;
        skip
      else skip
  end.
Definition reloadIfRunning : Dev IwdgPeripheral unit :=
  state ← get iw_state;
  match state with State.stopped => skip | State.running => reload end.
Definition enterRunning : Dev IwdgPeripheral unit :=
  state ← get iw_state;
  match state with State.stopped => set_state State.running | State.running => skip end;;
  reload.
Definition applyKey (key : Z) : Dev IwdgPeripheral unit :=
  if key =? key_unlock then modify (fun d : IwdgPeripheral => {| d with iw_unlock := UnlockState.key1_seen |})
  else if key =? key_start then enterRunning
  else if key =? key_reload then reloadIfRunning
  else skip.

Definition iwdg_loadRegister (word_offset : Z) (c : AccessContext) : Dev IwdgPeripheral Z :=
  if (word_offset =? 0x00) || (word_offset =? 0x0c) then mret 0 else regValue word_offset.
Definition iwdg_storeRegister (word_offset previous value write_mask : Z) (c : AccessContext) : Dev IwdgPeripheral unit :=
  unlock ← get iw_unlock;
  if word_offset =? 0x00 then
    applyKey (u16 value);;
    setRegister 0x00 0
  else if ((word_offset =? 0x04) || (word_offset =? 0x08) || (word_offset =? 0x10))
          && bool_decide (unlock = UnlockState.locked) then setRegister word_offset previous
  else if word_offset =? 0x04 then setRegister word_offset (value .& 0x7)
  else if (word_offset =? 0x08) || (word_offset =? 0x10) then setRegister word_offset (value .& 0x0fff)
  else if word_offset =? 0x0c then setRegister word_offset previous
  else skip.
Definition iwdg_onReset : Dev IwdgPeripheral unit :=
  cancelTimeout;;
  modify (fun d : IwdgPeripheral => {| d with iw_state := State.stopped; iw_unlock := UnlockState.locked |}).
#[global] Instance iwdg_hooks : RegisterHooks IwdgPeripheral :=
  {| loadRegister := iwdg_loadRegister; storeRegister := iwdg_storeRegister; onReset := iwdg_onReset |}.

(** The callback of [timeout_event_]. *)
Definition timeout : Dev IwdgPeripheral unit :=
  modify (with_timeout (fun _ => None));;
  traceEvent "watchdog_timeout" [];;
  fires ← get (fun d => iw_reset_enabled d && iw_reset_callback d);
  if (fires : bool) then emit fx_reset else skip.

Definition setResetEnabled (enabled : bool) : Dev IwdgPeripheral unit :=
  modify (fun d : IwdgPeripheral => {| d with iw_reset_enabled := enabled |});;
  reloadIfRunning.
Definition setResetCallback (present : bool) : Dev IwdgPeripheral unit :=
  modify (fun d : IwdgPeripheral => {| d with iw_reset_callback := present |}).

Definition iwdg_new (reset_enabled loop trace : bool) (env : Env) : IwdgPeripheral :=
  let b := block_init "IWDG" 0x14 loop trace in
  let b := setResetValue 0x08 0x0fff b in
  let b := setResetValue 0x10 0x0fff b in
  construct env (mkIwdg b reset_enabled State.stopped UnlockState.locked None false).
End device.
End Iwdg.

Module Wwdg.
Record WwdgPeripheral := mkWwdg {
  ww_block : RegBlock;
  ww_reset_enabled : bool;
  ww_state : State.t;
  ww_peripheral_clock_hz : Z;
  ww_timeout_event : ScheduledEvent;
  ww_reset_callback : bool;
}.
#[global] Instance wwdg_has_block : HasBlock WwdgPeripheral :=
  {| block := ww_block; with_block f d := {| d with ww_block := f (ww_block d) |} |}.
#[global] Instance wwdg_has_block_laws : HasBlockLaws WwdgPeripheral.
Proof. constructor; [done|]. intros f g [] E. cbn in *. by rewrite E. Qed.
Definition with_timeout (f : ScheduledEvent -> ScheduledEvent) (d : WwdgPeripheral) : WwdgPeripheral :=
  {| d with ww_timeout_event := f (ww_timeout_event d) |}.
Definition set_state (x : State.t) : Dev WwdgPeripheral unit :=
  modify (fun d : WwdgPeripheral => {| d with ww_state := x |}).

Section device.
Context `{LongDouble}.

Definition cancelTimeout : Dev WwdgPeripheral unit := cancel with_timeout.
Definition timeout_duration (clock_hz : Z) (b : RegBlock) : Z :=
  let counter := registerValue 0x00 b .& 0x7f in
  let steps := if 0x3f <? counter then counter - 0x3f else 1 in
  let prescaler := 1 .<< ((registerValue 0x04 b .>> 7) .& 0x3) in
  boundedDuration
    (ld_div (ld_mul (ld_mul (ld_mul (ld_of_Z steps) (ld_of_Z 4096)) (ld_of_Z prescaler)) (ld_of_Z 1000000000))
       (ld_of_Z clock_hz)).

Definition reload : Dev WwdgPeripheral unit :=
  cancelTimeout;;
  traceEvent "watchdog_reload" [];;
  state ← get ww_state;
  match state with
  | State.stopped => skip
  | State.running =>
      loop ← get (fun d => rb_has_loop (ww_block d));
      if (loop : bool) then
        duration ← get (fun d => timeout_duration (ww_peripheral_clock_hz d) (ww_block d));
        _ ← scheduleAfter with_timeout duration;
        skip
      else skip
  end.

Definition applyControl (value : Z) : Dev WwdgPeripheral unit :=
  setRegister 0x00 (value .& 0xff);;
  let enabled := has value (1 .<< 7) in
  state ← get ww_state;
  match state with
  | State.stopped => if enabled then set_state State.running;; reload else skip
  | State.running => if enabled then reload else set_state State.stopped;; cancelTimeout
  end.

Definition wwdg_storeRegister (word_offset previous value write_mask : Z) (c : AccessContext) : Dev WwdgPeripheral unit :=
  if word_offset =? 0x00 then applyControl value
  else if word_offset =? 0x08 then setRegister 0x08 (previous .& value)
  else skip.
Definition wwdg_onReset : Dev WwdgPeripheral unit := set_state State.stopped;; cancelTimeout.
#[global] Instance wwdg_hooks : RegisterHooks WwdgPeripheral :=
  {| loadRegister word_offset _ := regValue word_offset; storeRegister := wwdg_storeRegister; onReset := wwdg_onReset |}.

(** The callback of [timeout_event_]. *)
Definition timeout : Dev WwdgPeripheral unit :=
  modify (with_timeout (fun _ => None));;
  traceEvent "watchdog_timeout" [];;
  fires ← get (fun d => ww_reset_enabled d && ww_reset_callback d);
  if (fires : bool) then emit fx_reset else skip.

Definition setResetEnabled (enabled : bool) : Dev WwdgPeripheral unit :=
  modify (fun d : WwdgPeripheral => {| d with ww_reset_enabled := enabled |});;
  state ← get ww_state;
  match state with State.stopped => skip | State.running => reload end.
Definition setResetCallback (present : bool) : Dev WwdgPeripheral unit :=
  modify (fun d : WwdgPeripheral => {| d with ww_reset_callback := present |}).

Definition wwdg_new (reset_enabled : bool) (peripheral_clock_hz : Z) (loop trace : bool) (env : Env) : WwdgPeripheral :=
  let b := block_init "WWDG" 0x0c loop trace in
  let b := setResetValue 0x00 0x7f b in
  let b := setResetValue 0x04 0x7f b in
  construct env (mkWwdg b reset_enabled State.stopped (if peripheral_clock_hz =? 0 then 1 else peripheral_clock_hz) None false).
End device.
End Wwdg.

(** * Proofs about the watchdogs

    The periods in nanoseconds; a driver that interleaves timed register writes with the timeout
    event the way an event loop does, and the abstract watchdog that it refines; the window
    watchdog's state against its control register. *)


(** ** Blocks under register writes *)

Lemma set_register_size w v b : rb_block_size (set_register w v b) = rb_block_size b.
Proof. unfold set_register. by destruct (aligned_register _ _). Qed.
Lemma set_register_loop w v b : rb_has_loop (set_register w v b) = rb_has_loop b.
Proof. unfold set_register. by destruct (aligned_register _ _). Qed.

(** Reading a register after a write to a register of the block. *)
Lemma registerValue_set w w' v b : block_ok b -> register_of (rb_block_size b) w -> 0 <= w' ->
  registerValue w' (set_register w v b) = if w =? w' then v else registerValue w' b.
Proof.
  intros Hb [Hw Ha] Hw'. destruct (Z.eqb_spec w w') as [<-|Hne].
  - apply registerValue_set_eq; [done| |lia]. unfold aligned_register. rewrite Ha. apply andb_true_iff. split; [done|].
    apply Z.ltb_lt. lia.
  - apply registerValue_set_ne; [lia|done..].
Qed.
(** A whole-word access to a register of a block of words. *)
Lemma register_fits n w b : rb_block_size b = n -> n .& 3 = 0 -> register_of n w ->
  aligned_register w b = true /\ 0 <= w /\ w + 4 <= rb_block_size b.
Proof.
  intros Hs Hn [Hw Ha]. unfold aligned_register. rewrite Hs, Ha. split; [by apply andb_true_iff; split; [|apply Z.ltb_lt; lia]|].
  rewrite low_two_bits in *. pose proof (Z.div_mod w 4). pose proof (Z.div_mod n 4). lia.
Qed.

(** ** Periods *)

Section periods.
Context `{LongDouble}.

Lemma bounded_exact n d : 0 < n < 2 ^ ld_precision -> 0 < d -> cdiv n d < max_u64 ->
  boundedDuration (ld_round n d) = cdiv n d.
Proof.
  intros Hn Hd Hc. unfold boundedDuration. destruct (ld_round_exact n d) as [E _]; [lia|done|].
  rewrite ld_below_max by (rewrite E; lia). rewrite E. pose proof (cdiv_pos n d). apply Z.max_l. lia.
Qed.

(** The IWDG period: [RLR + 1] ticks of the prescaled 32 kHz clock, in whole nanoseconds. *)
Definition iwdg_period (pr rlr : Z) : Z := ((rlr .& 0xfff) + 1) * (4 * 2 ^ Z.min (pr .& 7) 6) * 31250.

Lemma iwdg_period_bounds pr rlr : 0 <= pr -> 0 <= rlr -> 125000 <= iwdg_period pr rlr <= 32768000000.
Proof.
  intros Hp Hr. unfold iwdg_period. pose proof (land_bounds_r rlr 0xfff ltac:(lia)). pose proof (land_bounds_r pr 7 ltac:(lia)).
  set (e := Z.min (pr .& 7) 6). assert (1 <= 2 ^ e <= 64) as He.
  { split; [apply (Z.pow_le_mono_r 2 0 e)|apply (Z.pow_le_mono_r 2 e 6)]; lia. }
  nia.
Qed.
Lemma iwdg_duration_exact b : block_ok b ->
  Iwdg.timeout_duration b = iwdg_period (registerValue 4 b) (registerValue 8 b).
Proof.
  intros Hb. unfold Iwdg.timeout_duration, iwdg_period. pose proof (registerValue_range 4 b Hb) as [Hp _].
  pose proof (registerValue_range 8 b Hb) as [Hr _]. pose proof (land_bounds_r (registerValue 8 b) 0xfff ltac:(lia)) as Hr'.
  pose proof (land_bounds_r (registerValue 4 b) 7 ltac:(lia)) as Hp'.
  set (e := Z.min (registerValue 4 b .& 7) 6). set (ticks := (registerValue 8 b .& 0xfff) + 1).
  rewrite Z.shiftl_mul_pow2 by lia. assert (1 <= 2 ^ e <= 64) as He.
  { split; [apply (Z.pow_le_mono_r 2 0 e)|apply (Z.pow_le_mono_r 2 e 6)]; lia. }
  set (prescaler := 4 * 2 ^ e). assert (1 <= ticks <= 4096) as Ht by lia.
  assert (4 <= prescaler <= 256) as Hps by lia. pose proof two_p_53 as H53.
  assert (4 <= ticks * prescaler <= 1048576) as Hm by nia.
  rewrite (ld_div_round _ _ (ticks * prescaler * 1000000000) 32000); [| |apply ld_of_Z_is; lia|lia|lia].
  - rewrite bounded_exact; [|lia|lia|].
    + rewrite (cdiv_unique _ _ (ticks * prescaler * 31250)); lia.
    + rewrite (cdiv_unique _ _ (ticks * prescaler * 31250)); unfold max_u64; lia.
  - repeat (apply ld_mul_is; [|apply ld_of_Z_is; lia|lia]). apply ld_of_Z_is. lia.
Qed.

(** The WWDG period: the steps down to [0x3f] of the prescaled peripheral clock, rounded up. *)
Definition wwdg_steps (cr : Z) : Z := Z.max ((cr .& 0x7f) - 0x3f) 1.
Definition wwdg_period (clock_hz cr cfr : Z) : Z :=
  cdiv (wwdg_steps cr * 4096 * 2 ^ ((cfr .>> 7) .& 3) * 1000000000) clock_hz.

Lemma wwdg_duration_exact clock_hz b : block_ok b -> 0 < clock_hz < 2 ^ 53 ->
  Wwdg.timeout_duration clock_hz b = wwdg_period clock_hz (registerValue 0 b) (registerValue 4 b).
Proof.
  intros Hb Hc. unfold Wwdg.timeout_duration, wwdg_period, wwdg_steps. pose proof (registerValue_range 0 b Hb) as [H0 _].
  pose proof (registerValue_range 4 b Hb) as [H4 _]. pose proof (land_bounds_r (registerValue 0 b) 0x7f ltac:(lia)).
  set (counter := registerValue 0 b .& 0x7f) in *. pose proof (shiftr_bounds (registerValue 4 b) 7).
  pose proof (land_bounds_r (registerValue 4 b .>> 7) 3 ltac:(lia)). set (e := (registerValue 4 b .>> 7) .& 3) in *.
  replace (if 0x3f <? counter then counter - 0x3f else 1) with (Z.max (counter - 0x3f) 1) by (destruct (Z.ltb_spec 0x3f counter); lia).
  set (steps := Z.max (counter - 0x3f) 1). assert (1 <= steps <= 64) by lia.
  rewrite Z.shiftl_mul_pow2, Z.mul_1_l by lia. assert (1 <= 2 ^ e <= 8) as He.
  { split; [apply (Z.pow_le_mono_r 2 0 e)|apply (Z.pow_le_mono_r 2 e 3)]; lia. }
  pose proof two_p_53 as H53. set (n := steps * 4096 * 2 ^ e * 1000000000).
  assert (4096 <= steps * 4096 * 2 ^ e <= 2097152) as Hn by nia.
  rewrite (ld_div_round _ _ n clock_hz); [| |apply ld_of_Z_is; lia|lia|lia].
  - apply bounded_exact; [lia|lia|]. pose proof (cdiv_spec n clock_hz ltac:(lia)). unfold max_u64. nia.
  - repeat (apply ld_mul_is; [|apply ld_of_Z_is; lia|lia]). apply ld_of_Z_is. lia.
Qed.
End periods.

(** ** The independent watchdog under timed writes *)

Definition at_time (t : Z) (env : Env) : Env := {| env with env_now := t |}.

Module Supervision.
Import Iwdg.
Section driver.
Context `{LongDouble} (c : AccessContext) (env : Env).

(** The event loop up to time [t]: a due timeout runs at its deadline. *)
Definition elapse (t : Z) (d : IwdgPeripheral) : IwdgPeripheral * list (Z * Effect) :=
  match iw_timeout_event d with
  | Some deadline =>
      if deadline <=? t then
        let '(_, d, fx) := timeout (at_time deadline env) d in (d, (deadline,.) <$> fx)
      else (d, [])
  | None => (d, [])
  end.

(** Word writes at given times, then the loop up to [until]; a write that throws ends the run. *)
Fixpoint drive (writes : list (Z * (Z * Z))) (until : Z) (d : IwdgPeripheral) : option IwdgPeripheral * list (Z * Effect) :=
  match writes with
  | [] => let '(d, fx) := elapse until d in (Some d, fx)
  | (t, (w, v)) :: writes =>
      let '(d, fx) := elapse t d in
      match write w AccessSize.word v c (at_time t env) d with
      | (inl _, d, fx') => let '(r, fx'') := drive writes until d in (r, fx ++ ((t,.) <$> fx') ++ fx'')
      | (inr _, d, fx') => (None, fx ++ ((t,.) <$> fx'))
      end
  end.
End driver.

(** The times at which a reset was requested. *)
Definition resets (fx : list (Z * Effect)) : list Z := omap (fun x => match x.2 with fx_reset => Some x.1 | _ => None end) fx.

(** *** The abstract watchdog *)

Definition fire (deadline : option Z) (t : Z) : list Z :=
  match deadline with Some x => if x <=? t then [x] else [] | None => [] end.
(** Keys as the firmware writes them, in time order: the start key always starts a period, the
    reload key only while the watchdog runs; a period that is not renewed ends in one timeout. *)
Fixpoint timeouts (period : Z) (running : bool) (deadline : option Z) (keys : list (Z * Z)) (until : Z) : list Z :=
  match keys with
  | [] => fire deadline until
  | (t, key) :: keys =>
      if (key =? key_start) || ((key =? key_reload) && running)
      then fire deadline t ++ timeouts period true (Some (t + period)) keys until
      else timeouts period running deadline keys until
  end.
(** The key writes among word writes. *)
Definition key_writes (writes : list (Z * (Z * Z))) : list (Z * Z) :=
  (fun x => (x.1, u16 x.2.2)) <$> filter (fun x => x.2.1 = 0) writes.

(** *** Refinement *)

Section refinement.
Context `{LongDouble} (fires : bool).

Record supervised (pr rlr winr : Z) (running : bool) (deadline : option Z) (d : IwdgPeripheral) : Prop := mk_supervised {
  sv_block : block_ok (iw_block d);
  sv_size : rb_block_size (iw_block d) = 0x14;
  sv_loop : rb_has_loop (iw_block d) = true;
  sv_locked : iw_unlock d = UnlockState.locked;
  sv_pr : registerValue 0x04 (iw_block d) = pr;
  sv_rlr : registerValue 0x08 (iw_block d) = rlr;
  sv_winr : registerValue 0x10 (iw_block d) = winr;
  sv_running : iw_state d = if running then State.running else State.stopped;
  sv_deadline : iw_timeout_event d = deadline;
  sv_fires : iw_reset_enabled d && iw_reset_callback d = fires;
}.

Lemma supervised_set pr rlr winr running deadline w v d : register_of 0x14 w -> is_u32 v ->
  (w = 0x04 -> v = pr) -> (w = 0x08 -> v = rlr) -> (w = 0x10 -> v = winr) ->
  supervised pr rlr winr running deadline d -> supervised pr rlr winr running deadline (with_block (set_register w v) d).
Proof.
  intros Hw Hv H4 H8 H10 [Hb Hs Hl Hu Hp Hr Hwn Hst Hd Hf]. rewrite <- Hs in Hw.
  constructor; cbn; rewrite ?set_register_size, ?set_register_loop; try done; [by apply set_register_ok|..];
    rewrite registerValue_set by done; (case_eqb; auto).
Qed.

(** A renewed period. *)
Lemma reload_run pr rlr winr deadline env d :
  supervised pr rlr winr true deadline d -> 0 <= env_now env -> env_now env + iwdg_period pr rlr <= max_u64 ->
  ∃ d' fx, reload env d = (inl tt, d', fx)
    /\ supervised pr rlr winr true (Some (env_now env + iwdg_period pr rlr)) d' /\ Forall (.≠ fx_reset) fx.
Proof.
  intros [Hb Hs Hl Hu Hp Hr Hwn Hst Hd Hf] Hnow Hend. unfold reload, cancelTimeout, cancel. rewrite modify_bind.
  erewrite bind_inl by reflexivity. rewrite get_bind. cbn [iw_state with_timeout]. rewrite Hst, get_bind.
  cbn [iw_block with_timeout]. rewrite Hl, get_bind. cbn [iw_block with_timeout].
  rewrite iwdg_duration_exact, Hp, Hr by done.
  erewrite bind_inl by (apply scheduleAfter_run; done).
  eexists _, _. split; [done|]. split; [by constructor|].
  cbn. destruct (rb_has_trace _); by repeat constructor.
Qed.

(** A key write: the period that runs afterwards. *)
Definition renews (key : Z) (running : bool) : bool := (key =? key_start) || ((key =? key_reload) && running).

Lemma applyKey_run pr rlr winr running deadline key env d :
  supervised pr rlr winr running deadline d -> 0 <= env_now env -> env_now env + iwdg_period pr rlr <= max_u64 ->
  key <> key_unlock ->
  ∃ d' fx, applyKey key env d = (inl tt, d', fx) /\ Forall (.≠ fx_reset) fx
    /\ (if renews key running then supervised pr rlr winr true (Some (env_now env + iwdg_period pr rlr)) d'
        else supervised pr rlr winr running deadline d').
Proof.
  intros Hd Hnow Hend Hk. unfold applyKey, renews. rewrite (proj2 (Z.eqb_neq key key_unlock)) by done.
  destruct (key =? key_start); cbn [orb].
  { unfold enterRunning. rewrite get_bind. pose proof (sv_running _ _ _ _ _ _ Hd) as Hr.
    assert (∃ d1, (match iw_state d with State.stopped => set_state State.running | State.running => skip end) env d = (inl tt, d1, [])
      /\ supervised pr rlr winr true deadline d1) as (d1&E1&H1).
    { destruct Hd. rewrite Hr. destruct running; eexists; (split; [done|]); by constructor. }
    destruct (reload_run _ _ _ _ env d1 H1 Hnow Hend) as (d'&fx&E&H'&Hfx). exists d', fx.
    rewrite (bind_inl _ _ _ _ _ _ _ E1), E. done. }
  destruct (key =? key_reload); cbn [andb]; [|by exists d, []; split; [|split; [constructor|]]].
  unfold reloadIfRunning. rewrite get_bind, (sv_running _ _ _ _ _ _ Hd). destruct running.
  - destruct (reload_run _ _ _ _ env d Hd Hnow Hend) as (d'&fx&E&H'&Hfx). by exists d', fx.
  - by exists d, []; split; [|split; [constructor|]].
Qed.

(** One word write. *)
Lemma iwdg_write_run pr rlr winr running deadline w v c env d :
  register_of 0x14 w -> is_u32 v -> (w = 0 -> u16 v <> key_unlock) ->
  supervised pr rlr winr running deadline d -> 0 <= env_now env -> env_now env + iwdg_period pr rlr <= max_u64 ->
  ∃ d' fx, write w AccessSize.word v c env d = (inl (inl 0), d', fx) /\ Forall (.≠ fx_reset) fx
    /\ (if (w =? 0) && renews (u16 v) running then supervised pr rlr winr true (Some (env_now env + iwdg_period pr rlr)) d'
        else supervised pr rlr winr running deadline d').
Proof.
  intros Hw Hv Hk Hd Hnow Hend. pose proof Hd as [Hb Hs _ Hu Hp Hr Hwn _ _ _].
  destruct (register_fits 0x14 w (iw_block d) Hs eq_refl Hw) as (Ha&Hw0&Hfit).
  rewrite write_word by done. rewrite u32_small by done. cbn [block iwdg_has_block storeRegister iwdg_hooks].
  unfold iwdg_storeRegister. rewrite get_bind. change (iw_unlock (with_block _ d)) with (iw_unlock d). rewrite Hu.
  destruct (Z.eqb_spec w 0) as [->|Hw1]; cbn [andb].
  - destruct (applyKey_run pr rlr winr running deadline (u16 v) env (with_block (set_register 0 v) d)) as (d1&fx&E&Hfx&H1);
      [by apply supervised_set|done|done|by apply Hk|].
    exists (with_block (set_register 0 0) d1), fx.
    rewrite (bind_inl _ _ _ _ _ _ _ E). unfold setRegister, modify. rewrite app_nil_r. split; [done|]. split; [done|].
    destruct (renews _ _); apply supervised_set; done.
  - pose proof (registerValue_range w _ Hb) as Hpv.
    rewrite bool_decide_true, andb_true_r by done.
    assert (∀ x, is_u32 x -> (w = 4 -> x = pr) -> (w = 8 -> x = rlr) -> (w = 16 -> x = winr) ->
      supervised pr rlr winr running deadline (with_block (set_register w x) (with_block (set_register w v) d))) as Hset.
    { intros x Hx H4 H8 H16. destruct Hd. rewrite <- sv_size0 in Hw.
      assert (register_of (rb_block_size (set_register w v (iw_block d))) w) as Hw' by by rewrite set_register_size.
      assert (block_ok (set_register w v (iw_block d))) as Hb' by by apply set_register_ok.
      constructor; cbn; rewrite ?set_register_size, ?set_register_loop; try done; [by apply set_register_ok|..];
        rewrite !registerValue_set by done; (case_eqb; auto). }
    destruct (Z.eqb_spec w 4) as [->|]; cbn [orb]; [by eexists _, _; split; [done|split; [constructor|]]; apply Hset|].
    destruct (Z.eqb_spec w 8) as [->|]; cbn [orb]; [by eexists _, _; split; [done|split; [constructor|]]; apply Hset|].
    destruct (Z.eqb_spec w 16) as [->|]; cbn [orb]; [by eexists _, _; split; [done|split; [constructor|]]; apply Hset|].
    destruct (Z.eqb_spec w 12) as [->|]; [by eexists _, _; split; [done|split; [constructor|]]; apply Hset|].
    eexists _, _. split; [done|]. split; [constructor|]. by apply supervised_set.
Qed.

(** *** Runs *)

Definition after (deadline : option Z) (t : Z) : option Z :=
  match deadline with Some x => if x <=? t then None else Some x | None => None end.
Definition if_fires (l : list Z) : list Z := if fires then l else [].
Lemma if_fires_app l k : if_fires l ++ if_fires k = if_fires (l ++ k).
Proof. unfold if_fires. by destruct fires. Qed.

Lemma resets_app fx fx' : resets (fx ++ fx') = resets fx ++ resets fx'.
Proof. apply omap_app. Qed.
Lemma resets_none t (fx : list Effect) : Forall (.≠ fx_reset) fx -> resets ((t,.) <$> fx) = [].
Proof. induction 1 as [|e fx He _ IH]; [done|]. unfold resets in *. cbn. by destruct e. Qed.

Lemma elapse_run pr rlr winr running deadline env t d : supervised pr rlr winr running deadline d ->
  ∃ d' fx, elapse env t d = (d', fx) /\ supervised pr rlr winr running (after deadline t) d'
    /\ resets fx = if_fires (fire deadline t).
Proof.
  intros [Hb Hs Hl Hu Hp Hr Hwn Hst Hd Hf]. unfold elapse. rewrite Hd. unfold if_fires.
  destruct deadline as [x|]; [|by eexists _, _; split; [done|]; split; [by constructor|destruct fires]].
  cbn [fire after]. destruct (x <=? t); [|by eexists _, _; split; [done|]; split; [by constructor|destruct fires]].
  unfold timeout. rewrite modify_bind. erewrite bind_inl by reflexivity. rewrite get_bind.
  change (iw_reset_enabled (with_timeout _ d) && iw_reset_callback (with_timeout _ d)) with (iw_reset_enabled d && iw_reset_callback d).
  rewrite <- Hf. destruct (iw_reset_enabled d && iw_reset_callback d) eqn:Eg; eexists _, _; (split; [reflexivity|]);
    (split; [constructor; try done; cbn; congruence|]); by destruct (rb_has_trace _).
Qed.

(** Writes in time order. *)
Fixpoint timed (now : Z) (writes : list (Z * (Z * Z))) (until : Z) : Prop :=
  match writes with
  | [] => now <= until
  | (t, _) :: writes => now <= t /\ timed t writes until
  end.
Lemma timed_until now writes until : timed now writes until -> now <= until.
Proof. revert now. induction writes as [|[t [w v]] writes IH]; intros now; cbn; [done|]. intros [? ?%IH]. lia. Qed.
Lemma timed_keys now writes until : timed now writes until -> Forall (fun k => now <= k.1) (key_writes writes).
Proof.
  revert now. induction writes as [|[t [w v]] writes IH]; intros now; [by constructor|]. intros [Ht Hw].
  assert (Forall (fun k => now <= k.1) (key_writes writes)) as Hl by (eapply Forall_impl; [by apply IH|]; cbn; lia).
  unfold key_writes in *. rewrite filter_cons. case_decide; [|exact Hl]. rewrite fmap_cons. constructor; [exact Ht|exact Hl].
Qed.

Lemma fire_after deadline t t' : t <= t' -> fire deadline t ++ fire (after deadline t) t' = fire deadline t'.
Proof.
  intros Ht. destruct deadline as [x|]; [|done]. cbn. destruct (Z.leb_spec x t); cbn; [|done].
  by rewrite (proj2 (Z.leb_le x t')) by lia.
Qed.
Lemma timeouts_after period running deadline keys t until : Forall (fun k => t <= k.1) keys -> t <= until ->
  fire deadline t ++ timeouts period running (after deadline t) keys until = timeouts period running deadline keys until.
Proof.
  intros Hk Hu. induction Hk as [|[t' key] keys Ht Hk IH]; cbn [timeouts]; [by apply fire_after|].
  destruct (_ || _); [|done]. rewrite app_assoc, fire_after by done. done.
Qed.

Definition plain_write (x : Z * (Z * Z)) : Prop :=
  register_of 0x14 x.2.1 /\ is_u32 x.2.2 /\ (x.2.1 = 0 -> u16 x.2.2 <> key_unlock).

Lemma drive_run pr rlr winr c env writes until : Forall plain_write writes -> until + iwdg_period pr rlr <= max_u64 ->
  ∀ now running deadline d, 0 <= now -> timed now writes until -> supervised pr rlr winr running deadline d ->
  ∃ d' fx, drive c env writes until d = (Some d', fx)
    /\ (∃ running' deadline', supervised pr rlr winr running' deadline' d')
    /\ resets fx = if_fires (timeouts (iwdg_period pr rlr) running deadline (key_writes writes) until).
Proof.
  intros Hw Hend. induction Hw as [|[t [w v]] writes (Hr&Hv&Hk) Hw IH]; intros now running deadline d Hnow Ht Hd; cbn [drive].
  { destruct (elapse_run _ _ _ _ _ env until d Hd) as (d'&fx&->&Hd'&Hfx). exists d', fx. eauto. }
  destruct Ht as [Hle Ht]. cbn [fst snd] in Hr, Hv, Hk. pose proof (timed_until _ _ _ Ht) as Htu.
  destruct (elapse_run _ _ _ _ _ env t d Hd) as (d1&fx1&->&Hd1&Hfx1).
  destruct (iwdg_write_run _ _ _ _ _ w v c (at_time t env) d1 Hr Hv Hk Hd1) as (d2&fx2&->&Hfx2&Hd2);
    [cbn; lia|cbn; lia|]. cbn [env_now at_time] in Hd2.
  assert (∃ running2 deadline2, supervised pr rlr winr running2 deadline2 d2
    /\ fire deadline t ++ timeouts (iwdg_period pr rlr) running2 deadline2 (key_writes writes) until
       = timeouts (iwdg_period pr rlr) running deadline (key_writes ((t, (w, v)) :: writes)) until) as (r2&dl2&H2&Hspec).
  { assert (key_writes ((t, (w, v)) :: writes) = (if w =? 0 then [(t, u16 v)] else []) ++ key_writes writes) as ->.
    { unfold key_writes. rewrite filter_cons. cbn [fst snd]. by case_eqb; case_decide. }
    pose proof (timed_keys _ _ _ Ht) as Hkeys.
    destruct (Z.eqb_spec w 0); cbn [andb app timeouts] in *; [unfold renews in Hd2; destruct (_ || _)|];
      eexists _, _; (split; [exact Hd2|]); [done|by apply timeouts_after..]. }
  destruct (IH t r2 dl2 d2 ltac:(lia) Ht H2) as (d'&fx&->&Hd'&Hfx). exists d', (fx1 ++ ((t,.) <$> fx2) ++ fx). split; [done|].
  split; [done|]. rewrite !resets_app, Hfx1, Hfx, resets_none by done. by rewrite app_nil_l, if_fires_app, Hspec.
Qed.

(** A constructed watchdog is stopped, locked and has the longest period at the fastest clock. *)
Lemma iwdg_new_supervised enabled trace env : enabled && false = fires ->
  supervised 0 0xfff 0xfff false None (iwdg_new enabled true trace env).
Proof.
  intros Hf. set (b := setResetValue 0x10 0xfff (setResetValue 0x08 0xfff (block_init "IWDG" 0x14 true trace))).
  assert (block_ok b) as Hb by (repeat apply setResetValue_ok; [apply block_init_ok; lia|width_lia..]).
  apply (construct_block (supervised 0 0xfff 0xfff false None)).
  - constructor; cbn [iw_block with_block iwdg_has_block]; try done; by apply reset_registers_ok.
  - intros line d []. constructor; cbn; try done. by apply set_level_ok.
  - cbn [onReset iwdg_hooks]. eapply holds_bind; [apply holds_modify; intros d []; by constructor|]. intros _ _.
    apply holds_modify. intros d []. by constructor.
Qed.
End refinement.
End Supervision.

(** ** The window watchdog's state and its control register *)

Module Window.
Import Wwdg.
Section window.
Context `{LongDouble}.

(** WDGA (bit 7 of CR) is set exactly while the watchdog runs, and only then a timeout is pending. *)
Record mirrored (d : WwdgPeripheral) : Prop := mk_mirrored {
  mi_block : block_ok (ww_block d);
  mi_size : rb_block_size (ww_block d) = 0x0c;
  mi_state : has (registerValue 0 (ww_block d)) (1 .<< 7) = bool_decide (ww_state d = State.running);
  mi_armed : is_Some (ww_timeout_event d) -> ww_state d = State.running;
}.
Definition runs_mirrored (d : WwdgPeripheral) : Prop := mirrored d /\ ww_state d = State.running.

Lemma reload_holds : holds runs_mirrored reload (fun _ => True).
Proof.
  assert (∀ f d, runs_mirrored d -> runs_mirrored (with_timeout f d)) as Hf by (intros f d [[] ?]; by split; [constructor|]).
  unfold reload, cancelTimeout, cancel. eapply holds_bind; [by apply holds_modify; auto|]. intros _ _.
  eapply holds_bind; [apply holds_traceEvent|]. intros _ _. eapply (holds_bind _ _ _ (fun _ => True)); [by apply holds_get|].
  intros [] _; [apply holds_skip|]. eapply (holds_bind _ _ _ (fun _ => True)); [by apply holds_get|]. intros [] _; [|apply holds_skip].
  eapply (holds_bind _ _ _ (fun _ => True)); [by apply holds_get|]. intros duration _.
  eapply (holds_bind _ _ _ (fun _ => True)); [by apply holds_scheduleAfter|]. intros _ _. apply holds_skip.
Qed.
Lemma reload_mirrored env d : mirrored d -> ww_state d = State.running -> mirrored (snd (fst (reload env d))).
Proof. intros Hd Hr. by apply (holds_state _ _ _ env _ reload_holds). Qed.

Lemma wdga_of_byte value : has (value .& 0xff) (1 .<< 7) = has value (1 .<< 7).
Proof. by rewrite has_land. Qed.

Lemma applyControl_mirrored value env d : is_u32 value ->
  block_ok (ww_block d) -> rb_block_size (ww_block d) = 0x0c -> (is_Some (ww_timeout_event d) -> ww_state d = State.running) ->
  mirrored (snd (fst (applyControl value env d))).
Proof.
  intros Hv Hb Hs Ha. unfold applyControl. rewrite setRegister_bind, get_bind. set (d1 := with_block _ d).
  change (ww_state d1) with (ww_state d).
  assert (block_ok (ww_block d1)) as Hb1 by (apply set_register_ok; [done|u32_auto]).
  assert (rb_block_size (ww_block d1) = 0x0c) as Hs1 by (cbn; by rewrite set_register_size).
  assert (has (registerValue 0 (ww_block d1)) (1 .<< 7) = has value (1 .<< 7)) as Hw.
  { cbn. rewrite registerValue_set by (done || by rewrite Hs). apply wdga_of_byte. }
  destruct (ww_state d) eqn:Est, (has value (1 .<< 7)).
  - unfold set_state. rewrite modify_bind. apply reload_mirrored; [|done]. by constructor.
  - constructor; try done; cbn; by rewrite Est.
  - apply reload_mirrored; [|done]. constructor; try done. cbn. by rewrite bool_decide_true.
  - unfold set_state. rewrite modify_bind. constructor; try done. cbn. by intros [? ?].
Qed.

Lemma wwdg_store_holds w bits mask c : register_of 0x0c w -> is_u32 bits -> is_u32 mask ->
  holds mirrored (store_word w bits mask c) (fun _ => True).
Proof.
  intros Hw Hb Hm env d Hd. pose proof Hd as [Hok Hs Hst Ha].
  destruct (register_fits 0x0c w (ww_block d) Hs eq_refl Hw) as (Hal&Hw0&_). rewrite store_word_hook by done.
  set (m := merged_image _ _ _). assert (is_u32 m) as Hmr by (apply merged_image_range; auto with fil).
  set (d1 := with_block (set_register w m) d).
  assert (block_ok (ww_block d1) /\ rb_block_size (ww_block d1) = 0x0c) as [Hok1 Hs1]
    by (split; [by apply set_register_ok|cbn; by rewrite set_register_size]).
  assert (w <> 0 -> mirrored d1) as H1.
  { intros Hne. constructor; try done. cbn. rewrite registerValue_set_ne by (lia || done). exact Hst. }
  cbn [storeRegister wwdg_hooks]. unfold wwdg_storeRegister. destruct (Z.eqb_spec w 0) as [->|Hne].
  - pose proof (applyControl_mirrored m env d1 Hmr Hok1 Hs1 Ha) as Hr. destruct (applyControl m env d1) as [[r d2] fx]. by split.
  - destruct (H1 Hne) as [_ _ Hst1 Ha1]. destruct (Z.eqb_spec w 8) as [->|]; [|split; [by apply H1|done]].
    split; [|done]. constructor; [..|done].
    + apply set_register_ok; [done|]. pose proof (registerValue_range 8 _ Hok). u32_auto.
    + cbn. by rewrite !set_register_size.
    + cbn. by rewrite registerValue_set_ne by done.
Qed.

(** Every operation of the device keeps the mirror. *)
Lemma wwdg_write_holds offset size v c : holds mirrored (write offset size v c) (fun _ => True).
Proof.
  apply (holds_write mirrored 0x0c); [intros d Hd; apply Hd|lia|]. intros w bits mask. apply wwdg_store_holds.
Qed.
Lemma wwdg_read_holds offset size c : holds mirrored (read offset size c) (fun _ => True).
Proof.
  apply (holds_read mirrored 0x0c); [intros d Hd; apply Hd|lia|]. intros w _. eapply holds_weaken; [apply holds_regValue|done].
  intros d Hd. apply Hd.
Qed.
Lemma wwdg_timeout_holds : holds mirrored timeout (fun _ => True).
Proof.
  unfold timeout. eapply holds_bind; [apply holds_modify; intros d []; constructor; try done; by intros [? ?]|]. intros _ _.
  eapply holds_bind; [apply holds_traceEvent|]. intros _ _. eapply (holds_bind _ _ _ (fun _ => True)); [by apply holds_get|].
  intros [] _; [apply holds_emit|apply holds_skip].
Qed.
Lemma wwdg_setResetEnabled_holds enabled : holds mirrored (setResetEnabled enabled) (fun _ => True).
Proof.
  intros env d Hd. unfold setResetEnabled. rewrite modify_bind, get_bind. set (d1 := {| d with ww_reset_enabled := enabled |}).
  assert (mirrored d1) as H1 by (destruct Hd; by constructor). destruct (ww_state d1) eqn:E; [by split|].
  pose proof (reload_mirrored env d1 H1 E) as H2. destruct (reload env d1) as [[r d2] fx]. by split.
Qed.
(** [reset()] clears the control register's enable bit, stops the watchdog and cancels its timeout. *)
Lemma wwdg_reset_mirrored env d : mirrored d -> has (registerValue 0 {| (ww_block d) with rb_registers := rb_reset_values (ww_block d) |}) (1 .<< 7) = false ->
  mirrored (snd (fst (reset env d))).
Proof.
  intros [Hok Hs Hst Ha] Hz. unfold reset. rewrite modify_bind.
  set (P d := block_ok (ww_block d) /\ rb_block_size (ww_block d) = 0x0c /\ has (registerValue 0 (ww_block d)) (1 .<< 7) = false).
  assert (runs P (for_each (fun line => setInterruptLevel line false) (seqZ 0 8)) (fun _ => P)) as Hl.
  { apply (runs_for_seq (fun _ => P)); [done|]. intros line _. apply runs_setInterruptLevel; [done|].
    intros x (?&?&?) _. split_and!; try done. by apply set_level_ok. }
  destruct (Hl env (with_block (fun b => {| b with rb_registers := rb_reset_values b |}) d)) as ([]&d1&fx&E&H1&H2&H3);
    [by split_and!; [apply reset_registers_ok|..]|].
  erewrite bind_inl by exact E. rewrite state_of_app. cbn. constructor; cbn; try done. by intros [? ?].
Qed.
End window.
End Window.
