(* ===== verification/Timer.v ===== *)
(** * Timers

    Models [TimerPeripheral] ([src/stm32g4/tim.cpp] and the class of
    [include/fil/stm32g4/peripheral.hpp]).  The counter is not stepped: it is derived from the
    time since an epoch, and the update event is scheduled at the computed overflow. *)

From S2P Require Import Prelude Address CpuState CpuStateProofs Common Trace Peripheral PeripheralProofs Timing.
From S2P Require Import Watchdog.
#[local] Open Scope Z_scope.
#[local] Open Scope fil_scope.

Record TimerUpdate := mkTimerUpdate {
  tu_time_ns : Z;
  tu_count_before_update : Z;
}.

Module Timer.
Definition cr1 : Z := 0x00.
Definition dier : Z := 0x0c.
Definition sr : Z := 0x10.
Definition egr : Z := 0x14.
Definition cnt : Z := 0x24.
Definition psc : Z := 0x28.
Definition arr : Z := 0x2c.

Section conversions.
Context `{LongDouble}.

Definition timerTicks (duration_ns frequency_hz prescaler : Z) : Z :=
  let ticks := ld_div (ld_mul (ld_of_Z duration_ns) (ld_of_Z frequency_hz))
                 (ld_mul (ld_of_Z 1000000000) (ld_of_Z prescaler)) in
  if ld_geb ticks (ld_of_Z max_u64) then max_u64 else ld_trunc ticks.

(** [std::ceil] yields an integer that is a [long double]. *)
Definition durationForTicks (ticks frequency_hz prescaler : Z) : Z :=
  if frequency_hz =? 0 then max_u64
  else
    let duration := ld_ceil (ld_div (ld_mul (ld_mul (ld_of_Z ticks) (ld_of_Z prescaler)) (ld_of_Z 1000000000))
                               (ld_of_Z frequency_hz)) in
    if ld_geb (mk_ld duration 0) (ld_of_Z max_u64) then max_u64 else Z.max duration 1.
End conversions.

Record TimerPeripheral := mkTimer {
  tm_block : RegBlock;
  tm_input_clock_hz : Z;
  tm_state : State.t;
  tm_counter_epoch_ns : Z;
  tm_counter_epoch_value : Z;
  tm_update_event : ScheduledEvent;
  tm_interrupt_callback : bool;
  tm_update_callback : bool;
  tm_updates : list TimerUpdate;
}.
#[global] Instance timer_has_block : HasBlock TimerPeripheral :=
  {| block := tm_block; with_block f d := {| d with tm_block := f (tm_block d) |} |}.
#[global] Instance timer_has_block_laws : HasBlockLaws TimerPeripheral.
Proof. constructor; [done|]. intros f g [] E. cbn in *. by rewrite E. Qed.
Definition with_update (f : ScheduledEvent -> ScheduledEvent) (d : TimerPeripheral) : TimerPeripheral :=
  {| d with tm_update_event := f (tm_update_event d) |}.
Definition set_state (x : State.t) : Dev TimerPeripheral unit :=
  modify (fun d : TimerPeripheral => {| d with tm_state := x |}).
Definition set_epoch_ns (t : Z) : Dev TimerPeripheral unit :=
  modify (fun d : TimerPeripheral => {| d with tm_counter_epoch_ns := t |}).
Definition set_epoch_value (v : Z) : Dev TimerPeripheral unit :=
  modify (fun d : TimerPeripheral => {| d with tm_counter_epoch_value := v |}).

Section device.
Context `{LongDouble}.

Definition live_counter (env : Env) (d : TimerPeripheral) : Z :=
  match tm_state d with
  | State.stopped => tm_counter_epoch_value d
  | State.running =>
      let now := current_time env (tm_block d) in
      if now <=? tm_counter_epoch_ns d then tm_counter_epoch_value d
      else
        let period := registerValue arr (tm_block d) + 1 in
        let prescaler := registerValue psc (tm_block d) + 1 in
        let ticks := timerTicks (now - tm_counter_epoch_ns d) (tm_input_clock_hz d) prescaler in
        u32 ((tm_counter_epoch_value d + ticks mod period) mod period)
  end.
Definition liveCounter : Dev TimerPeripheral Z := fun env d => (inl (live_counter env d), d, []).

Definition captureCounter : Dev TimerPeripheral unit :=
  value ← liveCounter;
  set_epoch_value value;;
  now ← currentTime;
  set_epoch_ns now;;
  setRegister cnt value.

Definition cancelUpdate : Dev TimerPeripheral unit := cancel with_update.
Definition scheduleUpdate : Dev TimerPeripheral unit :=
  cancelUpdate;;
  state ← get tm_state;
  match state with
  | State.stopped => skip
  | State.running =>
      loop ← get (fun d => rb_has_loop (tm_block d));
      if (loop : bool) then
        period ← get (fun d => registerValue arr (tm_block d) + 1);
        current ← liveCounter;
        let remaining := period - Z.min current (period - 1) in
        prescaler ← get (fun d => registerValue psc (tm_block d) + 1);
        frequency_hz ← get tm_input_clock_hz;
        _ ← scheduleAfter with_update (durationForTicks remaining frequency_hz prescaler);
        skip
      else skip
  end.

Definition applyControl (control : Z) : Dev TimerPeripheral unit :=
  let enabled := has control 1 in
  state ← get tm_state;
  match state with
  | State.stopped => if enabled then set_state State.running else skip
  | State.running => if enabled then skip else set_state State.stopped
  end.
Definition enterStopped : Dev TimerPeripheral unit := set_state State.stopped.

Definition fireUpdate (forced : bool) : Dev TimerPeripheral unit :=
  before ← (if forced then liveCounter else regValue arr);
  now ← currentTime;
  set_epoch_ns now;;
  set_epoch_value 0;;
  setRegister cnt 0;;
  status ← regValue sr;
  setRegister sr (status .| 1);;
  enable ← regValue dier;
  setInterruptLevel 0 (has enable 1);;
  modify (fun d : TimerPeripheral => {| d with tm_updates := tm_updates d ++ [mkTimerUpdate now before] |});;
  traceEvent "timer_update" [("forced", if forced then "true" else "false")];;
  interrupt ← get tm_interrupt_callback;
  (if has enable 1 && interrupt then emit fx_interrupt_request else skip);;
  update ← get tm_update_callback;
  (if (update : bool) then emit (fx_update now) else skip);;
  control ← regValue cr1;
  (if has control (1 .<< 3) then enterStopped;; setRegister cr1 (control .& not32 1) else skip);;
  scheduleUpdate.

(** The callback of [update_event_]. *)
Definition update_callback : Dev TimerPeripheral unit :=
  modify (with_update (fun _ => None));;
  fireUpdate false.

Definition timer_loadRegister (word_offset : Z) (c : AccessContext) : Dev TimerPeripheral Z :=
  if word_offset =? cnt then
    value ← liveCounter;
    setRegister cnt value;;
    mret value
  else regValue word_offset.

(** Level of the update interrupt from the registers. *)
Definition refresh_level : Dev TimerPeripheral unit :=
  enable ← regValue dier;
  status ← regValue sr;
  setInterruptLevel 0 (has enable 1 && has status 1).

Definition timer_storeRegister (word_offset previous value write_mask : Z) (c : AccessContext) : Dev TimerPeripheral unit :=
  if (word_offset =? cr1) || (word_offset =? psc) || (word_offset =? arr) || (word_offset =? cnt) then
    setRegister word_offset previous;;
    captureCounter;;
    setRegister word_offset value;;
    (if word_offset =? cr1 then applyControl value else skip);;
    (if word_offset =? cnt then set_epoch_value value else skip);;
    now ← currentTime;
    set_epoch_ns now;;
    scheduleUpdate
  else if word_offset =? sr then
    setRegister sr (previous .& (value .| not32 write_mask));;
    refresh_level
  else if word_offset =? dier then
    status ← regValue sr;
    setInterruptLevel 0 (has value 1 && has status 1)
  else if word_offset =? egr then
    let generate_update := has (value .& write_mask) 1 in
    setRegister egr 0;;
    (if generate_update then fireUpdate true else refresh_level)
  else skip.

Definition timer_onReset : Dev TimerPeripheral unit :=
  cancelUpdate;;
  control ← regValue cr1;
  applyControl control;;
  now ← currentTime;
  set_epoch_ns now;;
  value ← regValue cnt;
  set_epoch_value value.
#[global] Instance timer_hooks : RegisterHooks TimerPeripheral :=
  {| loadRegister := timer_loadRegister; storeRegister := timer_storeRegister; onReset := timer_onReset |}.

Definition setInputClockHz (frequency_hz : Z) : Dev TimerPeripheral unit :=
  if frequency_hz =? 0 then throw "timer input clock must be nonzero"
  else
    captureCounter;;
    modify (fun d : TimerPeripheral => {| d with tm_input_clock_hz := frequency_hz |});;
    scheduleUpdate.
Definition setInterruptCallback (present : bool) : Dev TimerPeripheral unit :=
  modify (fun d : TimerPeripheral => {| d with tm_interrupt_callback := present |}).
Definition setUpdateCallback (present : bool) : Dev TimerPeripheral unit :=
  modify (fun d : TimerPeripheral => {| d with tm_update_callback := present |}).

Definition timer_new (name : string) (input_clock_hz : Z) (loop trace : bool) (env : Env) : TimerPeripheral :=
  let b := block_init name 0x50 loop trace in
  let b := setResetValue arr 0xffff b in
  construct env (mkTimer b (if input_clock_hz =? 0 then 1 else input_clock_hz) State.stopped 0 0 None false false []).
End device.
End Timer.

(** * Proofs about the timer

    The invariant of the device (the lifecycle mirrors CR1.CEN, the interrupt line is DIER.UIE and
    SR.UIF, an update is pending only while the timer runs) over accesses of every width, and the
    exactness of the counter and of the update times. *)

Import Timer.

Lemma level_set_same line v b : block_ok b -> 0 <= line < 8 -> level line (set_level line v b) = v.
Proof.
  intros Hb Hl. unfold level, set_level. cbn. rewrite list_lookup_insert_eq; [done|]. rewrite (ok_levels _ Hb). lia.
Qed.
Lemma level_set_register line w v b : level line (set_register w v b) = level line b.
Proof. unfold set_register. by destruct (aligned_register _ _). Qed.
Lemma registerValue_level w line v b : registerValue w (set_level line v b) = registerValue w b.
Proof. done. Qed.

Lemma currentTime_bind {S B} `{HasBlock S} (k : Z -> Dev S B) env s : rb_has_loop (block s) = true ->
  (currentTime ≫= k) env s = k (env_now env) env s.
Proof.
  intros Hl. unfold mbind, Dev_bind, currentTime, current_time. rewrite Hl. by destruct (k (env_now env) env s) as [[? ?] ?].
Qed.

Section invariant.
Context `{LongDouble}.

(** With [armed], also that an update is pending only while the timer runs; that holds between
    operations, and [scheduleUpdate] restores it. *)
Record timer_inv (armed : bool) (d : TimerPeripheral) : Prop := mk_timer_inv {
  tk_block : block_ok (tm_block d);
  tk_size : rb_block_size (tm_block d) = 0x50;
  tk_state : has (registerValue cr1 (tm_block d)) 1 = bool_decide (tm_state d = State.running);
  tk_level : level 0 (tm_block d) = has (registerValue dier (tm_block d)) 1 && has (registerValue sr (tm_block d)) 1;
  tk_epoch : is_u32 (tm_counter_epoch_value d);
  tk_armed : armed = true -> is_Some (tm_update_event d) -> tm_state d = State.running;
}.
Definition timer_ok : TimerPeripheral -> Prop := timer_inv true.
Lemma timer_inv_weaken d : timer_ok d -> timer_inv false d.
Proof. intros []. by constructor. Qed.

Lemma register_of_small w : w ∈ [cr1; dier; sr; egr; cnt; psc; arr] -> register_of 0x50 w.
Proof. intros Hw. repeat (apply elem_of_cons in Hw as [->|Hw]; [by split|]). by apply elem_of_nil in Hw. Qed.

(** A register that the invariant does not mention. *)
Lemma timer_set a w v d : register_of 0x50 w -> w <> cr1 -> w <> dier -> w <> sr -> is_u32 v ->
  timer_inv a d -> timer_inv a (with_block (set_register w v) d).
Proof.
  intros [Hw _] H1 H2 H3 Hv [Hb Hs Hst Hl He Ha].
  constructor; cbn; rewrite ?set_register_size, ?level_set_register, ?registerValue_set_ne by (done || lia); try done.
  by apply set_register_ok.
Qed.

Lemma live_counter_range a env d : timer_inv a d -> is_u32 (live_counter env d).
Proof.
  intros Hd. unfold live_counter. destruct (tm_state d); [by eapply tk_epoch|]. destruct (_ <=? _); [by eapply tk_epoch|apply u32_range].
Qed.
Lemma holds_liveCounter a : holds (timer_inv a) liveCounter is_u32.
Proof. intros env d Hd. split; [done|]. intros ? [= <-]. by eapply live_counter_range. Qed.
Lemma holds_regs a w : holds (timer_inv a) (regValue w) is_u32.
Proof. apply holds_regValue. intros d Hd. apply Hd. Qed.
Lemma holds_epoch_ns a t : holds (timer_inv a) (set_epoch_ns t) (fun _ => True).
Proof. apply holds_modify. intros d []. by constructor. Qed.
Lemma holds_epoch_value a v : is_u32 v -> holds (timer_inv a) (set_epoch_value v) (fun _ => True).
Proof. intros Hv. apply holds_modify. intros d []. by constructor. Qed.
Lemma holds_set a w v : w ∈ [egr; cnt; psc; arr] -> is_u32 v -> holds (timer_inv a) (setRegister w v) (fun _ => True).
Proof.
  intros Hw Hv. apply holds_modify. intros d. apply timer_set; [apply register_of_small; by do 3 right|..]; [| | |done];
    repeat (apply elem_of_cons in Hw as [->|Hw]; [done|]); by apply elem_of_nil in Hw.
Qed.

Lemma holds_captureCounter a : holds (timer_inv a) captureCounter (fun _ => True).
Proof.
  eapply holds_bind; [apply holds_liveCounter|]. intros v Hv. eapply holds_bind; [by apply holds_epoch_value|]. intros _ _.
  eapply holds_bind; [apply holds_currentTime|]. intros t _. eapply holds_bind; [apply holds_epoch_ns|]. intros _ _.
  apply holds_set; [|done]. by right; left.
Qed.

(** From the weaker invariant to the full one, also when scheduling throws. *)
Definition timer_running (d : TimerPeripheral) : Prop := timer_ok d /\ tm_state d = State.running.
Lemma scheduleUpdate_ok env d : timer_inv false d -> timer_ok (snd (fst (scheduleUpdate env d))).
Proof.
  intros [Hb Hs Hst Hl He _]. unfold scheduleUpdate, cancelUpdate, cancel. rewrite modify_bind, get_bind.
  set (d1 := with_update _ d). assert (timer_ok d1) as Hd1 by (constructor; try done; by intros _ [? ?]).
  destruct (tm_state d1) eqn:Est; [done|].
  assert (∀ f d, timer_running d -> timer_running (with_update f d)) as Hf by (intros f x [[] ?]; by split; [constructor|]).
  refine (proj1 (holds_state timer_running _ (fun _ => True) env d1 _ (conj Hd1 Est))).
  eapply (holds_bind _ _ _ (fun _ => True)); [by apply holds_get|]. intros [] _; [|apply holds_skip].
  eapply (holds_bind _ _ _ (fun _ => True)); [by apply holds_get|]. intros period _.
  eapply (holds_bind _ _ _ (fun _ => True)); [by intros env' d' Hd'|]. intros current _.
  eapply (holds_bind _ _ _ (fun _ => True)); [by apply holds_get|]. intros prescaler _.
  eapply (holds_bind _ _ _ (fun _ => True)); [by apply holds_get|]. intros frequency _.
  eapply (holds_bind _ _ _ (fun _ => True)); [by apply holds_scheduleAfter|]. intros _ _. apply holds_skip.
Qed.

(** Raising UIF and driving the line. *)
Definition raise {A} (k : Z -> Dev TimerPeripheral A) : Dev TimerPeripheral A :=
  status ← regValue sr; setRegister sr (status .| 1);; enable ← regValue dier;
  setInterruptLevel 0 (has enable 1);; k enable.
Lemma raise_ends {A} a (k : Z -> Dev TimerPeripheral A) Q :
  (∀ enable, ends (timer_inv a) (k enable) Q) -> ends (timer_inv a) (raise k) Q.
Proof.
  intros Hk env d [Hb Hs Hst Hl He Ha]. unfold raise. rewrite regValue_bind, setRegister_bind, regValue_bind.
  set (v := _ .| 1). assert (is_u32 v) as Hv by (unfold v; pose proof (registerValue_range sr _ Hb); u32_auto).
  set (d1 := with_block (set_register sr v) d).
  assert (registerValue dier (tm_block d1) = registerValue dier (tm_block d)) as Ed by (cbn; by rewrite registerValue_set_ne).
  assert (registerValue sr (tm_block d1) = v) as Es.
  { cbn. rewrite registerValue_set; [done|done|rewrite Hs; by apply register_of_small; do 2 right; left|done]. }
  assert (has v 1 = true) as Hbit.
  { unfold v, has. rewrite Z.land_lor_distr_l, Z.land_diag. apply negb_true_iff, Z.eqb_neq.
    intros E. apply Z.lor_eq_0_iff in E. lia. }
  change (registerValue dier (block d1)) with (registerValue dier (tm_block d1)). rewrite Ed.
  assert (∃ d2 w, setInterruptLevel 0 (has (registerValue dier (tm_block d)) 1) env d1 = (inl tt, d2, w) /\ timer_inv a d2) as (d2&w&E2&H2).
  { assert (block_ok (tm_block d1)) as Hb1 by by apply set_register_ok.
    unfold setInterruptLevel. change (8 <=? 0) with false. cbn [orb].
    change (block d1) with (tm_block d1). destruct (Bool.eqb _ _) eqn:El.
    - apply Bool.eqb_prop in El. eexists _, _. split; [done|]. constructor; rewrite ?Ed, ?Es, ?Hbit, ?andb_true_r; try done.
      + cbn. by rewrite set_register_size.
      + cbn. by rewrite registerValue_set_ne.
    - eexists _, _. split; [done|]. constructor; cbn; rewrite ?registerValue_level; try done.
      + by apply set_level_ok.
      + by rewrite set_register_size.
      + by rewrite registerValue_set_ne.
      + rewrite level_set_same by done. change (set_register sr v (tm_block d)) with (tm_block d1). by rewrite Ed, Es, Hbit, andb_true_r. }
  rewrite (bind_inl _ _ _ _ _ _ _ E2), state_of_app. by apply Hk.
Qed.

Lemma has_clear_bit0 x : has (x .& not32 1) 1 = false.
Proof. rewrite has_land. unfold has. change (not32 1 .& 1) with 0. by rewrite Z.land_0_r. Qed.

(** Entering the stopped state together with CR1.CEN. *)
Lemma one_pulse_ends {A} (k : Dev TimerPeripheral A) Q : ends (timer_inv false) k Q ->
  ends (timer_inv false) (control ← regValue cr1;
    (if has control (1 .<< 3) then enterStopped;; setRegister cr1 (control .& not32 1) else skip);; k) Q.
Proof.
  intros Hk env d Hd. pose proof Hd as [Hb Hs Hst Hl He _]. rewrite regValue_bind. destruct (has _ (1 .<< 3)).
  - erewrite bind_inl by reflexivity. rewrite state_of_app. apply Hk.
    pose proof (registerValue_range cr1 _ Hb) as Hr.
    assert (is_u32 (registerValue cr1 (tm_block d) .& not32 1)) as Hv by u32_auto.
    constructor; cbn; rewrite ?set_register_size, ?level_set_register; try done.
    + by apply set_register_ok.
    + rewrite registerValue_set; [apply has_clear_bit0|done|rewrite Hs; by apply register_of_small; left|done].
    + by rewrite !registerValue_set_ne by done.
  - rewrite skip_bind. by apply Hk.
Qed.

Lemma fireUpdate_ok forced : ends (timer_inv false) (fireUpdate forced) timer_ok.
Proof.
  unfold fireUpdate. eapply (ends_bind _ _ _ (fun _ => True)); [destruct forced; intros ??; by eexists _, _, _|by destruct forced|].
  intros before _. eapply ends_bind; [auto with fil|apply holds_currentTime|]. intros now _.
  eapply ends_bind; [apply total_modify|apply holds_epoch_ns|]. intros _ _.
  eapply ends_bind; [apply total_modify|by apply holds_epoch_value|]. intros _ _.
  eapply ends_bind; [auto with fil|apply holds_set; [by right; left|done]|]. intros _ _.
  apply raise_ends. intros enable.
  eapply ends_bind; [auto with fil|apply holds_modify; intros d []; by constructor|]. intros _ _.
  eapply ends_bind; [auto with fil|apply holds_traceEvent|]. intros _ _.
  eapply (ends_bind _ _ _ (fun _ => True)); [auto with fil|by apply holds_get|]. intros interrupt _.
  eapply (ends_bind _ _ _ (fun _ => True)); [auto with fil|apply holds_if; [apply holds_emit|apply holds_skip]|]. intros _ _.
  eapply (ends_bind _ _ _ (fun _ => True)); [auto with fil|by apply holds_get|]. intros update _.
  eapply (ends_bind _ _ _ (fun _ => True)); [auto with fil|apply holds_if; [apply holds_emit|apply holds_skip]|]. intros _ _.
  apply one_pulse_ends. intros env d. apply scheduleUpdate_ok.
Qed.

(** *** Register stores *)

Lemma timer_restore w m d : register_of 0x50 w -> is_u32 m -> timer_ok d ->
  timer_ok (with_block (set_register w (registerValue w (tm_block d))) (with_block (set_register w m) d)).
Proof.
  intros Hw Hm [Hb Hs Hst Hl He Ha]. rewrite <- Hs in Hw. pose proof (registerValue_range w _ Hb) as Hr.
  assert (block_ok (set_register w m (tm_block d))) as Hb1 by by apply set_register_ok.
  assert (∀ x, 0 <= x -> registerValue x (set_register w (registerValue w (tm_block d)) (set_register w m (tm_block d)))
    = registerValue x (tm_block d)) as Hsame.
  { intros x Hx. rewrite !registerValue_set; [|done|by rewrite ?set_register_size..]. by case_eqb; subst. }
  constructor; cbn; rewrite ?set_register_size, ?level_set_register, ?Hsame by done; try done. by apply set_register_ok.
Qed.

Lemma total_captureCounter : total captureCounter.
Proof.
  apply total_bind; [intros ??; by eexists _, _, _|]. intros v. apply total_bind; [apply total_modify|]. intros _.
  apply total_bind; [auto with fil|]. intros t. apply total_bind; [apply total_modify|]. auto with fil.
Qed.

(** CR1 and the lifecycle change together. *)
Lemma control_ends {A} v (k : Dev TimerPeripheral A) Q : is_u32 v -> ends (timer_inv false) k Q ->
  ends (timer_inv false) (setRegister cr1 v;; applyControl v;; k) Q.
Proof.
  intros Hv Hk env d [Hb Hs Hst Hl He _]. rewrite setRegister_bind. set (d1 := with_block _ d).
  assert (applyControl v env d1 = (inl tt, {| d1 with tm_state := if has v 1 then State.running else State.stopped |}, [])) as E.
  { unfold applyControl. rewrite get_bind. change (tm_state d1) with (tm_state d). unfold d1. destruct d as [? ? st]; cbn. by destruct st, (has v 1). }
  erewrite bind_inl by exact E. rewrite state_of_app. apply Hk.
  constructor; cbn; rewrite ?set_register_size, ?level_set_register; try done.
  - by apply set_register_ok.
  - rewrite registerValue_set by (done || rewrite Hs; by apply register_of_small; left). cbn. by destruct (has v 1).
  - by rewrite !registerValue_set_ne by done.
Qed.

Definition timing_register (w : Z) : bool := (w =? cr1) || (w =? psc) || (w =? arr) || (w =? cnt).
Lemma timing_store_ok w previous value mask c env d : timing_register w = true -> is_u32 value ->
  timer_ok (with_block (set_register w previous) d) -> timer_ok (snd (fst (timer_storeRegister w previous value mask c env d))).
Proof.
  intros Hw Hv Hd. unfold timer_storeRegister. fold (timing_register w). rewrite Hw, setRegister_bind.
  apply timer_inv_weaken in Hd. revert env Hd. generalize (with_block (set_register w previous) d) as d1. intros d1 env Hd1.
  assert (ends (timer_inv false) (now ← currentTime; set_epoch_ns now;; scheduleUpdate) timer_ok) as Hend.
  { eapply ends_bind; [auto with fil|apply holds_currentTime|]. intros now _.
    eapply ends_bind; [apply total_modify|apply holds_epoch_ns|]. intros _ _ env' d'. apply scheduleUpdate_ok. }
  revert env d1 Hd1. eapply ends_bind; [apply total_captureCounter|apply holds_captureCounter|]. intros _ _.
  unfold timing_register in Hw. destruct (Z.eqb_spec w cr1) as [->|Hne]; cbn [orb] in Hw.
  { apply control_ends; [done|]. change (cr1 =? cnt) with false. intros env d1 Hd1. rewrite skip_bind. by apply Hend. }
  eapply ends_bind; [auto with fil|apply holds_set; [|done]|].
  { apply orb_true_iff in Hw as [[->%Z.eqb_eq| ->%Z.eqb_eq]%orb_true_iff| ->%Z.eqb_eq];
      repeat (first [by left|right]). }
  intros _ _ env' d2 Hd2. rewrite skip_bind. revert env' d2 Hd2. eapply ends_bind; [apply total_if; [apply total_modify|auto with fil]| |].
  { apply holds_if; [by apply holds_epoch_value|apply holds_skip]. }
  intros _ _. exact Hend.
Qed.

(** The invariant but for the interrupt line. *)
Definition timer_unlevelled (d : TimerPeripheral) : Prop :=
  block_ok (tm_block d) /\ rb_block_size (tm_block d) = 0x50
  /\ has (registerValue cr1 (tm_block d)) 1 = bool_decide (tm_state d = State.running)
  /\ is_u32 (tm_counter_epoch_value d) /\ (is_Some (tm_update_event d) -> tm_state d = State.running).
Lemma timer_ok_unlevelled d : timer_ok d -> timer_unlevelled d.
Proof. intros []. split_and!; auto. Qed.
Lemma timer_unlevelled_set w v d : register_of 0x50 w -> w <> cr1 -> is_u32 v -> timer_unlevelled d ->
  timer_unlevelled (with_block (set_register w v) d).
Proof.
  intros [Hw _] Hne Hv (Hb&Hs&Hst&He&Ha). split_and!; cbn; rewrite ?set_register_size, ?registerValue_set_ne by (done || lia); try done.
  by apply set_register_ok.
Qed.
Lemma level_ok v env d : timer_unlevelled d ->
  v = has (registerValue dier (tm_block d)) 1 && has (registerValue sr (tm_block d)) 1 ->
  timer_ok (snd (fst (setInterruptLevel 0 v env d))).
Proof.
  intros (Hb&Hs&Hst&He&Ha) ->. unfold setInterruptLevel. change (8 <=? 0) with false. cbn [orb].
  destruct (Bool.eqb _ _) eqn:E; [apply Bool.eqb_prop in E; by constructor|].
  constructor; cbn; rewrite ?registerValue_level, ?level_set_same by done; try done. by apply set_level_ok.
Qed.
Lemma timer_refresh_ok env d : timer_unlevelled d -> timer_ok (snd (fst (refresh_level env d))).
Proof. intros Hd. unfold refresh_level. rewrite !regValue_bind. by apply level_ok. Qed.

Lemma timer_store_ok w bits mask c env d : register_of 0x50 w -> is_u32 bits -> is_u32 mask -> timer_ok d ->
  timer_ok (snd (fst (store_word w bits mask c env d))).
Proof.
  intros Hw Hbits Hmask Hd. pose proof Hd as [Hb Hs _ _ _ _].
  destruct (register_fits 0x50 w (tm_block d) Hs eq_refl Hw) as (Hal&Hw0&_). rewrite store_word_hook by done.
  cbn [storeRegister timer_hooks]. change (block d) with (tm_block d). pose proof (registerValue_range w _ Hb) as Hprev.
  set (m := merged_image _ _ _). assert (is_u32 m) as Hm by by apply merged_image_range.
  destruct (timing_register w) eqn:Ht; [apply timing_store_ok; [done|done|by apply timer_restore]|].
  pose proof Ht as Ht'. unfold timing_register in Ht'. rewrite !orb_false_iff, !Z.eqb_neq in Ht'. destruct Ht' as [[[Hcr _] _] _].
  unfold timer_storeRegister. fold (timing_register w). rewrite Ht.
  pose proof (timer_unlevelled_set w m d Hw Hcr Hm (timer_ok_unlevelled d Hd)) as Hu.
  destruct (Z.eqb_spec w sr) as [->|Hsr].
  { rewrite setRegister_bind. apply timer_refresh_ok, timer_unlevelled_set; [done|done|u32_auto|done]. }
  destruct (Z.eqb_spec w dier) as [->|Hdier].
  { rewrite regValue_bind. apply level_ok; [done|]. cbn. rewrite (registerValue_set dier dier), Z.eqb_refl by (done || by rewrite Hs).
    rewrite registerValue_set_ne by done. done. }
  assert (timer_ok (with_block (set_register w m) d)) as Hok by by apply timer_set.
  destruct (Z.eqb_spec w egr) as [->|]; [|done]. rewrite setRegister_bind.
  assert (timer_ok (with_block (set_register egr 0) (with_block (set_register egr m) d))) as Hok2 by by apply timer_set.
  destruct (has _ 1); [by apply fireUpdate_ok, timer_inv_weaken|by apply timer_refresh_ok, timer_ok_unlevelled].
Qed.

(** *** Every operation of the device *)

Lemma ends_holds {A} (m : Dev TimerPeripheral A) : ends timer_ok m timer_ok -> holds timer_ok m (fun _ => True).
Proof. intros Hm env d Hd. specialize (Hm env d Hd). destruct (m env d) as [[r d'] w]. by split. Qed.

Lemma timer_write_holds offset size v c : holds timer_ok (write offset size v c) (fun _ => True).
Proof.
  apply (holds_write timer_ok 0x50); [intros d Hd; apply Hd|lia|]. intros w bits mask Hw Hb Hm. apply ends_holds.
  intros env d Hd. by apply timer_store_ok.
Qed.
Lemma timer_read_holds offset size c : holds timer_ok (read offset size c) (fun _ => True).
Proof.
  apply (holds_read timer_ok 0x50); [intros d Hd; apply Hd|lia|]. intros w Hw. cbn [loadRegister timer_hooks]. unfold timer_loadRegister.
  destruct (w =? cnt); [|eapply holds_weaken; [apply holds_regs|done]].
  eapply holds_bind; [apply holds_liveCounter|]. intros v Hv. eapply holds_bind; [apply holds_set; [by right; left|done]|].
  intros _ _. by apply holds_ret.
Qed.
Lemma timer_callback_holds : holds timer_ok update_callback (fun _ => True).
Proof.
  apply ends_holds. intros env d Hd. unfold update_callback. rewrite modify_bind. apply fireUpdate_ok.
  destruct Hd. by constructor.
Qed.
Lemma timer_clock_holds f : holds timer_ok (setInputClockHz f) (fun _ => True).
Proof.
  unfold setInputClockHz. destruct (f =? 0); [apply holds_throw|]. apply ends_holds. intros env d Hd%timer_inv_weaken.
  revert env d Hd. eapply ends_bind; [apply total_captureCounter|apply holds_captureCounter|]. intros _ _.
  eapply ends_bind; [auto with fil|apply holds_modify; intros d []; by constructor|]. intros _ _ env d. apply scheduleUpdate_ok.
Qed.
End invariant.

(** ** Exact counting and update times *)

Section exactness.
Context `{LongDouble}.

(** Numbers that the [long double] conversions carry without rounding on the target. *)
Definition ld_fits (n : Z) : Prop := 0 <= n < 2 ^ 63 /\ n < 2 ^ ld_precision.
Lemma ld_fits_le n m : 0 <= n <= m -> ld_fits m -> ld_fits n.
Proof. unfold ld_fits. lia. Qed.

(** Timer ticks in [dt] nanoseconds. *)
Definition ticks_in (f prescaler dt : Z) : Z := dt * f / (1000000000 * prescaler).
(** Nanoseconds until [ticks] ticks have passed. *)
Definition ticks_ns (f prescaler ticks : Z) : Z := cdiv (ticks * prescaler * 1000000000) f.

Lemma ticks_reached f prescaler ticks dt : 0 < f -> 0 < prescaler ->
  ticks <= ticks_in f prescaler dt <-> ticks_ns f prescaler ticks <= dt.
Proof.
  intros Hf Hp. unfold ticks_in, ticks_ns. rewrite cdiv_le by done. pose proof (Z.mul_div_le (dt * f) (1000000000 * prescaler)).
  split; intros Hle; [nia|]. apply Z.div_le_lower_bound; lia.
Qed.
Lemma ticks_in_nonneg f prescaler dt : 0 < f -> 0 < prescaler -> 0 <= dt -> 0 <= ticks_in f prescaler dt.
Proof. intros. apply Z.div_pos; lia. Qed.

Lemma timerTicks_exact dt f prescaler : 0 <= dt -> 0 < f -> 0 < prescaler -> ld_fits f -> ld_fits dt -> ld_fits (dt * f) ->
  ld_fits (1000000000 * prescaler) -> timerTicks dt f prescaler = ticks_in f prescaler dt.
Proof.
  intros Hdt Hf Hp Ff Fdt [Fm Fm'] Fp. unfold timerTicks, ticks_in. pose proof two_p_53.
  rewrite (ld_div_round _ _ (dt * f) (1000000000 * prescaler)); [|apply ld_mul_is; [apply ld_of_Z_is..|]|apply ld_mul_is; [apply ld_of_Z_is..|]|lia|lia];
    [|unfold ld_fits in *; lia..].
  destruct (ld_round_exact (dt * f) (1000000000 * prescaler)) as [Ec Et]; [lia..|].
  rewrite ld_below_max; [done|]. rewrite Ec. assert (cdiv (dt * f) (1000000000 * prescaler) <= dt * f) as Hle by (apply cdiv_le; nia).
  unfold max_u64. lia.
Qed.

Lemma durationForTicks_exact ticks f prescaler : 0 < ticks -> 0 < f -> 0 < prescaler -> ld_fits f ->
  ld_fits (ticks * prescaler * 1000000000) -> durationForTicks ticks f prescaler = ticks_ns f prescaler ticks.
Proof.
  intros Ht Hf Hp Ff Fm. unfold durationForTicks, ticks_ns. rewrite (proj2 (Z.eqb_neq f 0)) by lia.
  assert (0 < ticks * prescaler) as Htp by nia. set (n := ticks * prescaler * 1000000000) in *.
  rewrite (ld_div_round _ _ n f); [| |apply ld_of_Z_is; unfold ld_fits in *; lia|lia|lia].
  - destruct (ld_round_exact n f) as [-> _]; [unfold ld_fits in *; lia|done|].
    assert (cdiv n f <= n) as Hle by (apply cdiv_le; nia). pose proof (cdiv_pos n f ltac:(lia) Hf).
    rewrite ld_below_max; [lia|]. unfold ld_ceil, ld_num, ld_den. cbn [ld_m ld_e]. change (2 ^ Z.max 0 0) with 1.
    change (2 ^ Z.max 0 (- 0)) with 1. rewrite Z.mul_1_r, Z.div_1_r, Z.opp_involutive. unfold ld_fits, max_u64 in *. lia.
  - unfold ld_fits in *. repeat (apply ld_mul_is; [|apply ld_of_Z_is; nia|nia]). apply ld_of_Z_is. nia.
Qed.

Definition reload_value (d : TimerPeripheral) : Z := registerValue arr (tm_block d).
Definition divider (d : TimerPeripheral) : Z := registerValue psc (tm_block d) + 1.
(** Time from counter value [c] to the next update. *)
Definition update_delay (c : Z) (d : TimerPeripheral) : Z :=
  ticks_ns (tm_input_clock_hz d) (divider d) (reload_value d + 1 - c).

(** A running timer whose counter had the value [c] at time [t0]. *)
Record ticking (t0 c : Z) (d : TimerPeripheral) : Prop := mk_ticking {
  ti_ok : timer_ok d;
  ti_loop : rb_has_loop (tm_block d) = true;
  ti_running : tm_state d = State.running;
  ti_epoch_ns : tm_counter_epoch_ns d = t0;
  ti_epoch_value : tm_counter_epoch_value d = c;
  ti_counter : 0 <= c <= reload_value d;
  ti_clock : 0 < tm_input_clock_hz d;
  ti_event : tm_update_event d = Some (t0 + update_delay c d);
}.
(** The registers stay in the exact range of the conversions. *)
Record in_range (d : TimerPeripheral) : Prop := mk_in_range {
  ir_clock : ld_fits (tm_input_clock_hz d);
  ir_period : ld_fits ((reload_value d + 1) * divider d * 1000000000);
}.

Lemma divider_pos d : timer_ok d -> 0 < divider d.
Proof. intros Hd. unfold divider. pose proof (registerValue_range psc _ (tk_block _ _ Hd)). width_lia. Qed.
Lemma reload_value_pos d : timer_ok d -> 0 <= reload_value d < 2 ^ 32.
Proof. intros Hd. pose proof (registerValue_range arr _ (tk_block _ _ Hd)). unfold reload_value. width_lia. Qed.
Lemma divider_fits d : timer_ok d -> in_range d -> ld_fits (1000000000 * divider d).
Proof.
  intros Hd [_ Hr]. pose proof (divider_pos d Hd). pose proof (reload_value_pos d Hd).
  apply (ld_fits_le _ ((reload_value d + 1) * divider d * 1000000000)); [nia|done].
Qed.

Lemma counter_exact t0 c env d : ticking t0 c d -> in_range d -> t0 <= env_now env -> ld_fits (env_now env - t0) ->
  ld_fits ((env_now env - t0) * tm_input_clock_hz d) ->
  live_counter env d = (c + ticks_in (tm_input_clock_hz d) (divider d) (env_now env - t0)) mod (reload_value d + 1).
Proof.
  intros [Hok Hl Hr Hn Hv Hc Hf _] Hrange Ht Fdt Fm. unfold live_counter, current_time. rewrite Hr, Hl, Hn, Hv.
  pose proof (reload_value_pos d Hok). fold (reload_value d) (divider d).
  destruct (Z.leb_spec (env_now env) t0).
  { replace (env_now env - t0) with 0 by lia. unfold ticks_in. rewrite Z.mul_0_l.
    pose proof (divider_pos d Hok). rewrite Z.div_0_l, Z.add_0_r, Z.mod_small by lia. done. }
  rewrite timerTicks_exact; [|lia|done|by apply divider_pos|apply Hrange|done|done|by apply divider_fits].
  rewrite Zplus_mod_idemp_r. apply u32_small.
  pose proof (Z.mod_pos_bound (c + ticks_in (tm_input_clock_hz d) (divider d) (env_now env - t0)) (reload_value d + 1)). width_lia.
Qed.

(** The update event is at the first nanosecond at which the free-running counter passes the reload value. *)
Lemma overflow_exact t0 c t d : ticking t0 c d ->
  t0 + update_delay c d <= t <-> reload_value d + 1 <= c + ticks_in (tm_input_clock_hz d) (divider d) (t - t0).
Proof.
  intros [Hok Hl Hr Hn Hv Hc Hf _]. pose proof (divider_pos d Hok). unfold update_delay.
  pose proof (ticks_reached (tm_input_clock_hz d) (divider d) (reload_value d + 1 - c) (t - t0) Hf ltac:(done)). lia.
Qed.

Lemma with_update_block f (d : TimerPeripheral) : block (with_update f d) = block d.
Proof. done. Qed.
Lemma scheduleUpdate_run c env d : block_ok (tm_block d) -> rb_has_loop (tm_block d) = true -> tm_state d = State.running ->
  live_counter env (with_update (fun _ => None) d) = c -> 0 <= c <= reload_value d -> 0 < tm_input_clock_hz d -> in_range d ->
  env_now env + update_delay c d <= max_u64 ->
  scheduleUpdate env d = (inl tt, {| d with tm_update_event := Some (env_now env + update_delay c d) |}, []).
Proof.
  intros Hd Hl Hr Hlive Hc Hf [Fc Fp] Hend. unfold scheduleUpdate, cancelUpdate, cancel. rewrite modify_bind, get_bind.
  set (d1 := with_update _ d) in *. change (tm_state d1) with (tm_state d). rewrite Hr, get_bind.
  change (rb_has_loop (tm_block d1)) with (rb_has_loop (tm_block d)). rewrite Hl, get_bind.
  erewrite bind_inl by reflexivity. rewrite Hlive, !get_bind.
  change (registerValue arr (tm_block d1)) with (reload_value d).
  change (registerValue psc (tm_block d1) + 1) with (divider d). change (tm_input_clock_hz d1) with (tm_input_clock_hz d).
  pose proof (registerValue_range psc _ Hd) as Hp. assert (0 < divider d) by (unfold divider; width_lia).
  replace (reload_value d + 1 - Z.min c (reload_value d + 1 - 1)) with (reload_value d + 1 - c) by lia.
  rewrite durationForTicks_exact; [|lia|done|done|done|eapply ld_fits_le; [|exact Fp]; nia].
  rewrite (bind_inl _ _ env d1 _ _ _ (scheduleAfter_run with_update with_update_block (update_delay c d) env d1 Hl Hend)). by rewrite <- Hr.
Qed.

(** ** Runs of updates *)

(** The event loop dispatches [n] pending updates. *)
Fixpoint run_updates (env : Env) (n : nat) (d : TimerPeripheral) : option TimerPeripheral :=
  match n with
  | O => Some d
  | S n =>
      match tm_update_event d with
      | Some t => match update_callback (at_time t env) d with (inl _, d, _) => run_updates env n d | _ => None end
      | None => None
      end
  end.

Lemma setInterruptLevel_run line v env (d : TimerPeripheral) : block_ok (tm_block d) -> ∃ b w,
  setInterruptLevel line v env d = (inl tt, with_block (fun _ => b) d, w) /\ block_ok b
  /\ (∀ x, registerValue x b = registerValue x (tm_block d)) /\ rb_has_loop b = rb_has_loop (tm_block d).
Proof.
  intros Hb. unfold setInterruptLevel. destruct (_ || _).
  - exists (tm_block d), []. split; [by destruct d|]. done.
  - eexists (set_level line v (tm_block d)), _. split; [done|]. split; [by apply set_level_ok|done].
Qed.

(** Registers other than the ones that an update writes. *)
Definition configuration (d : TimerPeripheral) : list Z :=
  [registerValue cr1 (tm_block d); registerValue arr (tm_block d); registerValue psc (tm_block d); tm_input_clock_hz d].

(** The callbacks of an update and the next one. *)
Definition notify (enable now : Z) : Dev TimerPeripheral unit :=
  interrupt ← get tm_interrupt_callback;
  (if has enable 1 && interrupt then emit fx_interrupt_request else skip);;
  update ← get tm_update_callback;
  (if (update : bool) then emit (fx_update now) else skip);;
  control ← regValue cr1;
  (if has control (1 .<< 3) then enterStopped;; setRegister cr1 (control .& not32 1) else skip);;
  scheduleUpdate.
Lemma timer_notify_run enable now env d d' fx : has (registerValue cr1 (tm_block d)) (1 .<< 3) = false ->
  scheduleUpdate env d = (inl tt, d', fx) -> ∃ fx', notify enable now env d = (inl tt, d', fx').
Proof.
  intros Hopm E. unfold notify. rewrite get_bind.
  destruct (has enable 1 && _); [erewrite bind_inl by reflexivity|rewrite skip_bind]; rewrite get_bind;
    (destruct (tm_update_callback d); [erewrite bind_inl by reflexivity|rewrite skip_bind]); rewrite regValue_bind;
    change (block d) with (tm_block d); rewrite Hopm, skip_bind, E; by eexists.
Qed.

(** The next update after one at the present time. *)
Lemma rearm_run env b f t ic uc ups : let d := mkTimer b f State.running t 0 None ic uc ups in
  env_now env = t -> block_ok b -> rb_has_loop b = true -> 0 < f -> in_range d -> t + update_delay 0 d <= max_u64 ->
  scheduleUpdate env d = (inl tt, mkTimer b f State.running t 0 (Some (t + update_delay 0 d)) ic uc ups, []).
Proof.
  intros d Hnow Hb Hl Hf Hr Hend. pose proof (registerValue_range arr b Hb) as [Harr _].
  rewrite (scheduleUpdate_run 0); [by rewrite Hnow|done..| |done|done|done|by rewrite Hnow].
  unfold live_counter, current_time. cbn. by rewrite Hl, Hnow, Z.leb_refl.
Qed.

Lemma fire_steps env t b f e0 v0 event ic uc ups :
  let d := mkTimer b f State.running e0 v0 event ic uc ups in
  block_ok b -> rb_block_size b = 0x50 -> rb_has_loop b = true -> 0 < f -> in_range d ->
  has (registerValue cr1 b) (1 .<< 3) = false -> t + update_delay 0 d <= max_u64 ->
  ∃ b' fx, update_callback (at_time t env) d
      = (inl tt, mkTimer b' f State.running t 0 (Some (t + update_delay 0 d)) ic uc (ups ++ [mkTimerUpdate t (registerValue arr b)]), fx)
    /\ (∀ x, 0 <= x -> x <> sr -> x <> cnt -> registerValue x b' = registerValue x b) /\ rb_has_loop b' = true
    /\ registerValue sr b' = registerValue sr b .| 1.
Proof.
  intros d Hb Hs Hl Hf Hrange Hopm Hend. unfold d, update_callback, fireUpdate. set (env' := at_time t env).
  rewrite modify_bind, regValue_bind.
  rewrite currentTime_bind by done. change (env_now env') with t.
  unfold set_epoch_ns, set_epoch_value. rewrite !modify_bind, setRegister_bind, regValue_bind, setRegister_bind, regValue_bind.
  cbn [with_update with_block block timer_has_block tm_block tm_input_clock_hz tm_state tm_counter_epoch_ns tm_counter_epoch_value
       tm_update_event tm_interrupt_callback tm_update_callback tm_updates].
  rewrite (registerValue_set_ne cnt sr) by done. set (v := registerValue sr b .| 1). set (b1 := set_register sr v (set_register cnt 0 b)).
  pose proof (registerValue_range sr b Hb) as Hsr. assert (is_u32 v) as Hv by (unfold v; u32_auto).
  assert (block_ok (set_register cnt 0 b)) as Hb0 by by apply set_register_ok.
  assert (block_ok b1) as Hb1 by by apply set_register_ok.
  destruct (setInterruptLevel_run 0 (has (registerValue dier b1) 1) env'
    (mkTimer b1 f State.running t 0 None ic uc ups) Hb1) as (b2&w&E&Hb2&Hsame2&Hl2). cbn [tm_block] in Hsame2, Hl2.
  assert (∀ x, 0 <= x -> x <> sr -> x <> cnt -> registerValue x b2 = registerValue x b) as Hsame
    by (intros; rewrite Hsame2; unfold b1; by rewrite !registerValue_set_ne).
  assert (rb_has_loop b2 = true) as Hloop by (rewrite Hl2; unfold b1; by rewrite !set_register_loop).
  exists b2. erewrite bind_inl by exact E. clear E. rewrite modify_bind. erewrite bind_inl by reflexivity.
  cbn [with_block timer_has_block tm_block tm_input_clock_hz tm_state tm_counter_epoch_ns tm_counter_epoch_value
       tm_update_event tm_interrupt_callback tm_update_callback tm_updates].
  set (d3 := mkTimer b2 _ _ _ _ _ _ _ _).
  assert (reload_value d3 = reload_value d /\ divider d3 = divider d) as [Ea Ep]
    by (unfold reload_value, divider; cbn; by rewrite !Hsame).
  assert (update_delay 0 d3 = update_delay 0 d) as Ed by (unfold update_delay; by rewrite Ea, Ep).
  assert (in_range d3) as Hr3 by (destruct Hrange; constructor; [done|by rewrite Ea, Ep]).
  pose proof (rearm_run env' b2 f t ic uc (ups ++ [mkTimerUpdate t (registerValue arr b)]) eq_refl Hb2 Hloop Hf Hr3) as Es.
  fold d3 in Es. rewrite Ed in Es. specialize (Es Hend).
  assert (has (registerValue cr1 (tm_block d3)) (1 .<< 3) = false) as Hopm3 by (cbn; by rewrite Hsame).
  destruct (timer_notify_run (registerValue dier b1) t env' d3 _ _ Hopm3 Es) as [fx En].
  unfold notify in En. rewrite En. eexists. split; [done|]. split; [done|]. split; [done|].
  rewrite Hsame2. unfold b1. rewrite registerValue_set; [done|done|rewrite set_register_size, Hs; by apply register_of_small; do 2 right; left|done].
Qed.

Lemma configuration_range d d' : configuration d' = configuration d -> in_range d -> in_range d'.
Proof. unfold configuration. intros [= _ Ea Ep Ef] [Fc Fp]. unfold reload_value, divider in Fp.
  constructor; unfold reload_value, divider; by rewrite ?Ef, ?Ea, ?Ep. Qed.
Lemma configuration_delay d d' c : configuration d' = configuration d -> update_delay c d' = update_delay c d.
Proof. unfold configuration, update_delay, reload_value, divider. by intros [= _ -> -> ->]. Qed.

Lemma fire_run t0 c env d : ticking t0 c d -> in_range d -> has (registerValue cr1 (tm_block d)) (1 .<< 3) = false ->
  let t := t0 + update_delay c d in t + update_delay 0 d <= max_u64 ->
  ∃ d' fx, update_callback (at_time t env) d = (inl tt, d', fx) /\ ticking t 0 d' /\ configuration d' = configuration d
    /\ tm_updates d' = tm_updates d ++ [mkTimerUpdate t (reload_value d)] /\ has (registerValue sr (tm_block d')) 1 = true.
Proof.
  intros Hd Hrange Hopm t Hend. pose proof (timer_callback_holds (at_time t env) d (ti_ok _ _ _ Hd)) as Hinv.
  destruct Hd as [Hok Hl Hr Hn Hv Hc Hf Hev]. destruct Hok as [Hb Hs _ _ _ _].
  destruct d as [b f st e0 v0 event ic uc ups]. cbn in Hb, Hs, Hl, Hr, Hf, Hopm. subst st.
  destruct (fire_steps env t b f e0 v0 event ic uc ups Hb Hs Hl Hf Hrange Hopm Hend) as (b'&fx&E&Hsame&Hl'&Hsr).
  rewrite E in Hinv. destruct Hinv as [Hok' _]. eexists _, _. split; [exact E|].
  set (d' := mkTimer b' _ _ _ _ _ _ _ _) in *. set (d := mkTimer b _ _ _ _ _ _ _ _) in *.
  assert (configuration d' = configuration d) as Hconf by (unfold configuration; cbn; by rewrite !Hsame).
  split_and!; [|done|done|].
  - constructor; try done; [split; [done|apply (reload_value_pos d' Hok')]|]. cbn. f_equal. f_equal. symmetry.
    by apply configuration_delay.
  - cbn. rewrite Hsr. unfold has. rewrite Z.land_lor_distr_l, Z.land_diag. apply negb_true_iff, Z.eqb_neq.
    intros E0%Z.lor_eq_0_iff. lia.
Qed.

(** Between updates the counter counts up from its last value and stays within the reload value. *)
Lemma counter_between t0 c env d : ticking t0 c d -> in_range d -> t0 <= env_now env < t0 + update_delay c d ->
  live_counter env d = c + ticks_in (tm_input_clock_hz d) (divider d) (env_now env - t0)
  /\ c + ticks_in (tm_input_clock_hz d) (divider d) (env_now env - t0) <= reload_value d.
Proof.
  intros Hd Hr Ht. pose proof (overflow_exact t0 c (env_now env) d Hd) as Hover. pose proof Hd as [Hok _ _ _ _ Hc Hf _].
  pose proof (divider_pos d Hok) as Hp. pose proof (reload_value_pos d Hok) as Ha.
  pose proof (counter_exact t0 c env d Hd Hr ltac:(lia)) as Hx. remember (env_now env - t0) as dt eqn:Edt.
  assert (0 <= dt) as Hdt by lia. pose proof (ticks_in_nonneg (tm_input_clock_hz d) (divider d) dt Hf Hp Hdt) as Hn.
  assert (~ (reload_value d + 1 - c) * divider d * 1000000000 <= dt * tm_input_clock_hz d) as Hlt.
  { intros Hle. apply (cdiv_le _ _ dt Hf) in Hle. unfold update_delay, ticks_ns in Ht. lia. }
  assert (~ reload_value d + 1 <= c + ticks_in (tm_input_clock_hz d) (divider d) dt) as Hle by (rewrite <- Hover; lia).
  assert (ld_fits (dt * tm_input_clock_hz d)) as Fm by (eapply ld_fits_le; [|exact (ir_period _ Hr)]; nia).
  rewrite Hx; [split; [apply Z.mod_small|]; lia| |done]. eapply ld_fits_le; [|exact Fm]. nia.
Qed.

(** [n] updates are [update_delay 0] apart; the last one restarted the counter. *)
Lemma updates_run env n : ∀ t0 c d, ticking t0 c d -> in_range d -> has (registerValue cr1 (tm_block d)) (1 .<< 3) = false ->
  t0 + update_delay c d + Z.of_nat n * update_delay 0 d <= max_u64 -> 0 <= update_delay 0 d ->
  ∃ d', run_updates env n d = Some d'
    /\ ticking (if n is S m then t0 + update_delay c d + Z.of_nat m * update_delay 0 d else t0) (if n is S _ then 0 else c) d'
    /\ configuration d' = configuration d
    /\ tm_updates d' = tm_updates d
         ++ ((fun k => mkTimerUpdate (t0 + update_delay c d + k * update_delay 0 d) (reload_value d)) <$> seqZ 0 (Z.of_nat n)).
Proof.
  induction n as [|n IH]; intros t0 c d Hd Hr Hopm Hend Hpos; cbn [run_updates].
  { exists d. cbn. by rewrite app_nil_r. }
  rewrite Nat2Z.inj_succ in Hend. set (t := t0 + update_delay c d) in *. rewrite (ti_event _ _ _ Hd). fold t.
  destruct (fire_run t0 c env d Hd Hr Hopm) as (d1&fx&E&H1&Hconf&Hups&_); [cbv zeta; fold t; nia|]. cbv zeta in E, H1, Hups. fold t in E, H1, Hups. rewrite E.
  pose proof (configuration_delay _ _ 0 Hconf) as Hdel. pose proof Hconf as Hconf'. unfold configuration in Hconf'.
  injection Hconf' as Ecr Earr _ _.
  destruct (IH t 0 d1 H1 (configuration_range _ _ Hconf Hr)) as (d'&E'&H'&Hc'&Hu').
  { by rewrite Ecr. }
  { rewrite Hdel. lia. }
  { by rewrite Hdel. }
  exists d'. split; [done|]. split; [|split; [congruence|]].
  { rewrite Hdel in H'. destruct n as [|m]; [by rewrite Z.mul_0_l, Z.add_0_r|]. rewrite Nat2Z.inj_succ.
    replace (t + Z.succ (Z.of_nat m) * update_delay 0 d) with (t + update_delay 0 d + Z.of_nat m * update_delay 0 d) by lia. exact H'. }
  rewrite Hu', Hups, Hdel, Nat2Z.inj_succ, (seqZ_cons 0 (Z.succ (Z.of_nat n))), fmap_cons, <- app_assoc by lia. cbn [app].
  f_equal. f_equal; [by rewrite Z.mul_0_l, Z.add_0_r|]. rewrite Z.pred_succ.
  change (Z.succ 0) with (1 + 0). rewrite <- fmap_add_seqZ, <- list_fmap_compose. apply list_fmap_ext. intros i k _. cbn.
  unfold reload_value. rewrite Earr. f_equal. lia.
Qed.

(** ** Starting the counter *)

Lemma start_steps env c b f e0 v0 ev ic uc ups previous v mask : let d := mkTimer b f State.stopped e0 v0 ev ic uc ups in
  let b' := set_register cr1 v (set_register cnt v0 (set_register cr1 previous b)) in
  let d' := mkTimer b' f State.running (env_now env) v0 None ic uc ups in
  block_ok b -> rb_has_loop b = true -> is_u32 previous -> is_u32 v -> is_u32 v0 -> has v 1 = true -> 0 < f -> in_range d' ->
  v0 <= reload_value d' -> env_now env + update_delay v0 d' <= max_u64 ->
  timer_storeRegister cr1 previous v mask c env d
  = (inl tt, mkTimer b' f State.running (env_now env) v0 (Some (env_now env + update_delay v0 d')) ic uc ups, []).
Proof.
  intros d b' d' Hb Hl Hp Hv Hv0 Hen Hf Hr Hle Hend. unfold timer_storeRegister.
  change ((cr1 =? cr1) || (cr1 =? psc) || (cr1 =? arr) || (cr1 =? cnt)) with true.
  change (cr1 =? cr1) with true. change (cr1 =? cnt) with false. cbv iota. rewrite setRegister_bind.
  rewrite (bind_inl captureCounter _ env _ tt
    (mkTimer (set_register cnt v0 (set_register cr1 previous b)) f State.stopped (env_now env) v0 ev ic uc ups) []).
  2: { unfold captureCounter. erewrite bind_inl by reflexivity. unfold set_epoch_value, set_epoch_ns. rewrite modify_bind.
       rewrite currentTime_bind; [done|]. exact (eq_trans (set_register_loop _ _ _) Hl). }
  rewrite setRegister_bind. rewrite (bind_inl (applyControl v) _ env _ tt (mkTimer b' f State.running (env_now env) v0 ev ic uc ups) []).
  2: { unfold applyControl. rewrite get_bind. cbn. by rewrite Hen. }
  assert (rb_has_loop b' = true) as Hl' by (unfold b'; by rewrite !set_register_loop).
  rewrite skip_bind. rewrite currentTime_bind by done.
  unfold set_epoch_ns. rewrite modify_bind.
  rewrite (scheduleUpdate_run v0); [done|by repeat apply set_register_ok|done|done| |split; [apply Hv0|exact Hle]|done| |exact Hend].
  - unfold live_counter, current_time. cbn. by rewrite Hl', Z.leb_refl.
  - destruct Hr. by constructor.
Qed.

Lemma start_run v c env d : timer_ok d -> tm_state d = State.stopped -> rb_has_loop (tm_block d) = true ->
  0 < tm_input_clock_hz d -> in_range d -> tm_counter_epoch_value d <= reload_value d -> is_u32 v -> has v 1 = true ->
  let n := tm_counter_epoch_value d in env_now env + update_delay n d <= max_u64 ->
  ∃ d' fx, write cr1 AccessSize.word v c env d = (inl (inl 0), d', fx) /\ ticking (env_now env) n d'
    /\ configuration d' = [v; registerValue arr (tm_block d); registerValue psc (tm_block d); tm_input_clock_hz d]
    /\ tm_updates d' = tm_updates d.
Proof.
  intros Hok Hst Hl Hf Hrange Hn Hv Hen n Hend. pose proof (timer_write_holds cr1 AccessSize.word v c env d Hok) as Hinv.
  pose proof Hok as [Hb Hs _ _ He _]. 
  destruct (register_fits 0x50 cr1 (tm_block d) Hs eq_refl ltac:(by apply register_of_small; left)) as (Ha&H0&Hfit).
  rewrite write_word in Hinv |- * by done.
  rewrite u32_small in Hinv |- * by done. cbn [storeRegister timer_hooks] in Hinv |- *.
  destruct d as [b f st e0 v0 ev ic uc ups]. cbn in Hst, Hl, Hf, Hb, Hs, He, n. subst st. subst n.
  cbn [with_block timer_has_block block tm_block tm_input_clock_hz tm_state tm_counter_epoch_ns tm_counter_epoch_value
       tm_update_event tm_interrupt_callback tm_update_callback tm_updates] in Hinv |- *.
  set (b0 := set_register cr1 v b) in *. set (previous := registerValue cr1 b) in *.
  set (b' := set_register cr1 v (set_register cnt v0 (set_register cr1 previous b0))).
  set (d := mkTimer b _ _ _ _ _ _ _ _) in *. set (d1 := mkTimer b' f State.running (env_now env) v0 None ic uc ups).
  pose proof (registerValue_range cr1 b Hb : is_u32 previous) as Hp.
  assert (∀ x, 0 <= x -> x <> cr1 -> x <> cnt -> registerValue x b' = registerValue x b) as Hsame
    by (intros; unfold b', b0; by rewrite !registerValue_set_ne).
  assert (reload_value d1 = reload_value d /\ divider d1 = divider d) as [Ea Ep]
    by (unfold reload_value, divider; cbn; by rewrite !Hsame).
  assert (update_delay v0 d1 = update_delay v0 d) as Ed by (unfold update_delay; by rewrite Ea, Ep).
  assert (block_ok b0) as Hb0 by by apply set_register_ok.
  assert (rb_has_loop b0 = true) as Hl0 by (unfold b0; by rewrite set_register_loop).
  pose proof (start_steps env c b0 f e0 v0 ev ic uc ups previous v 0xffffffff Hb0 Hl0 Hp Hv He Hen Hf) as E.
  fold b' in E. cbv zeta in E. fold d1 in E. rewrite Ea, Ed in E. rewrite E in Hinv |- *; [|by destruct Hrange; constructor; rewrite ?Ea, ?Ep|done|done
    |by destruct Hrange; constructor; rewrite ?Ea, ?Ep|done|done].
  destruct Hinv as [Hok' _]. eexists _, _. split; [done|].
  assert (registerValue cr1 b' = v) as Hcr.
  { unfold b'. rewrite registerValue_set; [done|by repeat apply set_register_ok| |done].
    unfold b0. rewrite !set_register_size, Hs. by apply register_of_small; left. }
  split_and!; [|unfold configuration; cbn; by rewrite Hcr, !Hsame|done].
  constructor; try done; [cbn; unfold b', b0; by rewrite !set_register_loop| |].
  - change (reload_value _) with (reload_value d1). rewrite Ea. split; [apply He|exact Hn].
  - cbn. f_equal. f_equal. symmetry. exact Ed.
Qed.
End exactness.

(** A constructed timer. *)
Lemma timer_new_ok `{LongDouble} name clock loop trace env : timer_ok (timer_new name clock loop trace env).
Proof.
  set (b := setResetValue arr 0xffff (block_init name 0x50 loop trace)).
  assert (block_ok b) as Hb by (apply setResetValue_ok; [apply block_init_ok; lia|width_lia]).
  set (I d := timer_ok d /\ tm_state d = State.stopped /\ registerValue cr1 (tm_block d) = 0 /\ registerValue dier (tm_block d) = 0).
  assert (I (timer_new name clock loop trace env)) as [Hok _]; [|done]. apply (construct_block I).
  - split; [|done]. constructor; try done; [by apply reset_registers_ok|]. by intros _ [? ?].
  - intros line d ([Hbd Hs Hst Hl He Ha]&Hs0&Hc&Hd). split; [|done]. constructor; try done; [by apply set_level_ok|].
    cbn. rewrite !registerValue_level, Hd. cbn. rewrite Hd in Hl. unfold level, set_level in *. cbn in *.
    destruct (decide (Z.to_nat line = 0%nat)) as [->|Hne]; [|by rewrite list_lookup_insert_ne by done].
    rewrite list_lookup_insert_eq; [done|]. rewrite (ok_levels _ Hbd). lia.
  - cbn [onReset timer_hooks]. unfold timer_onReset. eapply holds_bind.
    { apply holds_modify. intros d ([]&?&?&?). split; [|done]. constructor; try done. by intros _ [? ?]. }
    intros _ _. eapply (holds_bind _ _ _ (.= 0)); [apply holds_get; by intros d (_&_&?&_)|]. intros control ->.
    eapply holds_bind; [apply (runs_holds _ _ (fun _ => I)); [|done]|].
    { intros env' d Hd. unfold applyControl. rewrite get_bind. pose proof Hd as (_&->&_). by eexists _, _, _. }
    intros _ _. eapply holds_bind; [apply holds_currentTime|]. intros now _.
    eapply holds_bind; [apply holds_modify; intros d ([]&?&?&?); split; [|done]; by constructor|]. intros _ _.
    eapply (holds_bind _ _ _ is_u32); [apply holds_regValue; intros d [Hd _]; apply Hd|]. intros v Hv.
    apply holds_modify. intros d ([]&?&?&?). split; [|done]. by constructor.
Qed.
