(* ===== verification/Usart.v ===== *)
(** * USART

    Models [UsartPeripheral] ([src/stm32g4/usart.cpp] and the class of
    [include/fil/stm32g4/peripheral.hpp]).  The installed [RxProvider] is code of the caller with
    a state of its own: the class [RxProvider].  The callback of the idle event is a program of
    its own, run by the event loop at the deadline. *)

From stdpp Require Import pretty.
From S2P Require Import Prelude Address CpuState CpuStateProofs Common Trace Peripheral PeripheralProofs Timing.
From S2P Require Import Watchdog Timer.
#[local] Open Scope Z_scope.
#[local] Open Scope fil_scope.

(** The next scripted byte at a time, if any. *)
Class RxProvider := {
  rx_state : Type;
  provide : rx_state -> Z -> option Z * rx_state;
  provide_byte p time_ns : from_option is_u8 True (provide p time_ns).1;
}.

Record UsartTxByte := mkUsartTxByte {
  utx_time_ns : Z;
  utx_value : Z;
}.

Module Usart.
Definition cr1 : Z := 0x00.
Definition cr3 : Z := 0x08.
Definition rqr : Z := 0x18.
Definition isr : Z := 0x1c.
Definition icr : Z := 0x20.
Definition rdr : Z := 0x24.
Definition tdr : Z := 0x28.
Definition idle_flag : Z := 1 .<< 4.
Definition rxne_flag : Z := 1 .<< 5.
Definition tc_flag : Z := 1 .<< 6.
Definition txe_flag : Z := 1 .<< 7.
Definition teack_flag : Z := 1 .<< 21.
Definition reack_flag : Z := 1 .<< 22.
Definition txfe_flag : Z := 1 .<< 23.

Module IdleLineState.
Inductive t := disarmed | armed.
#[global] Instance eq_dec : EqDecision t.
Proof. solve_decision. Defined.
End IdleLineState.

Section device.
Context `{RxProvider}.

Record UsartPeripheral := mkUsart {
  us_block : RegBlock;
  us_rx_queue : list Z;
  us_tx_log : list UsartTxByte;
  us_tx_callback : bool;
  us_rx_provider : option rx_state;
  us_interrupt_callback : bool;
  us_dma_request_callback : bool;
  us_dma_suppress : bool;
  us_idle_gap_ns : Z;
  us_idle_event : ScheduledEvent;
  us_idle_state : IdleLineState.t;
}.
#[global] Instance usart_has_block : HasBlock UsartPeripheral :=
  {| block := us_block; with_block f d := {| d with us_block := f (us_block d) |} |}.
#[global] Instance usart_has_block_laws : HasBlockLaws UsartPeripheral.
Proof. constructor; [done|]. intros f g [] E. cbn in *. by rewrite E. Qed.
Definition with_idle (f : ScheduledEvent -> ScheduledEvent) (d : UsartPeripheral) : UsartPeripheral :=
  {| d with us_idle_event := f (us_idle_event d) |}.
Definition set_idle_state (x : IdleLineState.t) : Dev UsartPeripheral unit :=
  modify (fun d : UsartPeripheral => {| d with us_idle_state := x |}).
Definition set_rx_queue (f : list Z -> list Z) : Dev UsartPeripheral unit :=
  modify (fun d : UsartPeripheral => {| d with us_rx_queue := f (us_rx_queue d) |}).

(** *** Status and signals *)

(** The status register that [updateStatus] computes. *)
Definition status_of (empty : bool) (control status : Z) : Z :=
  let status := status .| txe_flag .| txfe_flag in
  let status := if empty then status .& not32 rxne_flag else status .| rxne_flag in
  let enabled := has control 1 in
  let status := if enabled && has control (1 .<< 3) then status .| teack_flag else status .& not32 teack_flag in
  if enabled && has control (1 .<< 2) then status .| reack_flag else status .& not32 reack_flag.
Definition updateStatus : Dev UsartPeripheral unit :=
  status ← regValue isr;
  control ← regValue cr1;
  queue ← get us_rx_queue;
  setRegister isr (status_of (bool_decide (queue = [])) control status).

Definition interrupt_pending (control status : Z) : bool :=
  (has control (1 .<< 4) && has status idle_flag) || (has control (1 .<< 5) && has status rxne_flag)
  || (has control (1 .<< 6) && has status tc_flag) || (has control (1 .<< 7) && has status txe_flag).
Definition signalInterruptIfEnabled : Dev UsartPeripheral unit :=
  control ← regValue cr1;
  status ← regValue isr;
  let pending := interrupt_pending control status in
  setInterruptLevel 0 pending;;
  callback ← get us_interrupt_callback;
  if pending && callback then emit fx_interrupt_request else skip.

Definition signalDmaRequests : Dev UsartPeripheral unit :=
  silent ← get (fun d => us_dma_suppress d || negb (us_dma_request_callback d));
  if (silent : bool) then skip
  else
    control ← regValue cr3;
    status ← regValue isr;
    (if has control (1 .<< 7) then emit (fx_dma_request true) else skip);;
    (if has control (1 .<< 6) && has status rxne_flag then emit (fx_dma_request false) else skip).

(** *** The idle line *)

Definition cancelIdle : Dev UsartPeripheral unit :=
  state ← get us_idle_state;
  match state with
  | IdleLineState.armed => cancel with_idle;; set_idle_state IdleLineState.disarmed
  | IdleLineState.disarmed => skip
  end.
Definition scheduleIdle : Dev UsartPeripheral unit :=
  cancelIdle;;
  idle ← get (fun d => negb (rb_has_loop (us_block d)) || bool_decide (us_rx_queue d = []));
  if (idle : bool) then skip
  else
    gap ← get us_idle_gap_ns;
    scheduled ← scheduleAfter with_idle gap;
    set_idle_state (if (scheduled : bool) then IdleLineState.armed else IdleLineState.disarmed).
(** The callback of [idle_event_]. *)
Definition idle_callback : Dev UsartPeripheral unit :=
  modify (with_idle (fun _ => None));;
  set_idle_state IdleLineState.disarmed;;
  status ← regValue isr;
  setRegister isr (status .| idle_flag);;
  traceEvent "uart_idle" [];;
  signalInterruptIfEnabled.

(** *** Receiving and transmitting *)

Definition traceByte (type : string) (byte : Z) : Dev UsartPeripheral unit := traceEvent type [("byte", pretty byte)].
Definition injectRx (bytes : list Z) : Dev UsartPeripheral unit :=
  for_each (fun byte => set_rx_queue (fun queue => queue ++ [byte]);; traceByte "uart_rx" byte) bytes;;
  updateStatus;;
  scheduleIdle;;
  signalInterruptIfEnabled;;
  signalDmaRequests.
Definition injectRxByte (byte : Z) : Dev UsartPeripheral unit := injectRx [byte].

(** The call of the provider. *)
Definition poll_provider (time_ns : Z) : Dev UsartPeripheral (option Z) := fun _ d =>
  match us_rx_provider d with
  | Some p => let '(byte, p) := provide p time_ns in (inl byte, {| d with us_rx_provider := Some p |}, [])
  | None => (inl None, d, [])
  end.
Definition refillRx : Dev UsartPeripheral unit :=
  done ← get (fun d => negb (bool_decide (us_rx_queue d = [])) || negb (bool_decide (is_Some (us_rx_provider d))));
  if (done : bool) then skip
  else
    now ← currentTime;
    byte ← poll_provider now;
    match byte with
    | Some byte =>
        set_rx_queue (fun queue => queue ++ [byte]);;
        traceByte "uart_rx" byte;;
        scheduleIdle
    | None => skip
    end.

Definition usart_loadRegister (word_offset : Z) (c : AccessContext) : Dev UsartPeripheral Z :=
  if word_offset =? isr then
    refillRx;;
    updateStatus;;
    signalInterruptIfEnabled;;
    signalDmaRequests;;
    regValue word_offset
  else if word_offset =? rdr then
    refillRx;;
    value ← get (fun d => default 0 (head (us_rx_queue d)));
    set_rx_queue tail;;
    setRegister rdr value;;
    updateStatus;;
    signalInterruptIfEnabled;;
    signalDmaRequests;;
    mret value
  else regValue word_offset.

Definition usart_storeRegister (word_offset previous value write_mask : Z) (c : AccessContext) : Dev UsartPeripheral unit :=
  if word_offset =? tdr then
    let byte := u8 (value .& 0xff) in
    now ← currentTime;
    modify (fun d : UsartPeripheral => {| d with us_tx_log := us_tx_log d ++ [mkUsartTxByte now byte] |});;
    traceByte "uart_tx" byte;;
    callback ← get us_tx_callback;
    (if (callback : bool) then emit (fx_transmit byte now) else skip);;
    status ← regValue isr;
    setRegister isr (status .| tc_flag);;
    updateStatus;;
    signalInterruptIfEnabled
  else if word_offset =? icr then
    status ← regValue isr;
    setRegister isr (status .& not32 value);;
    setRegister icr 0;;
    updateStatus;;
    signalInterruptIfEnabled
  else if word_offset =? rqr then
    (if has value (1 .<< 3) then set_rx_queue (fun _ => []) else skip);;
    setRegister rqr 0;;
    updateStatus;;
    signalInterruptIfEnabled
  else if word_offset =? cr1 then
    updateStatus;;
    scheduleIdle;;
    signalInterruptIfEnabled
  else if word_offset =? cr3 then signalDmaRequests
  else if (word_offset =? rdr) || (word_offset =? isr) then setRegister word_offset previous
  else skip.

Definition usart_onReset : Dev UsartPeripheral unit :=
  cancelIdle;;
  set_rx_queue (fun _ => []);;
  setRegister isr (tc_flag .| txe_flag .| txfe_flag).
#[global] Instance usart_hooks : RegisterHooks UsartPeripheral :=
  {| loadRegister := usart_loadRegister; storeRegister := usart_storeRegister; onReset := usart_onReset |}.

(** *** Configuration *)

Definition setTxCallback (present : bool) : Dev UsartPeripheral unit :=
  modify (fun d : UsartPeripheral => {| d with us_tx_callback := present |}).
Definition setRxProvider (p : option rx_state) : Dev UsartPeripheral unit :=
  modify (fun d : UsartPeripheral => {| d with us_rx_provider := p |}).
Definition setInterruptCallback (present : bool) : Dev UsartPeripheral unit :=
  modify (fun d : UsartPeripheral => {| d with us_interrupt_callback := present |});;
  signalInterruptIfEnabled.
Definition setDmaRequestCallback (present : bool) : Dev UsartPeripheral unit :=
  modify (fun d : UsartPeripheral => {| d with us_dma_request_callback := present |});;
  signalDmaRequests.
Definition setDmaSuppress (suppress : bool) (d : UsartPeripheral) : UsartPeripheral := {| d with us_dma_suppress := suppress |}.
Definition setIdleGap (idle_gap_ns : Z) (d : UsartPeripheral) : UsartPeripheral := {| d with us_idle_gap_ns := idle_gap_ns |}.
Definition dmaTxEnabled (d : UsartPeripheral) : bool := has (peekRegister 0x08 (us_block d)) (1 .<< 7).
Definition dmaRxEnabled (d : UsartPeripheral) : bool := has (peekRegister 0x08 (us_block d)) (1 .<< 6).
Definition hasRxData (d : UsartPeripheral) : bool := negb (bool_decide (us_rx_queue d = [])).
Definition clearTxLog (d : UsartPeripheral) : UsartPeripheral := {| d with us_tx_log := [] |}.

Definition usart_new (name : string) (loop trace : bool) (env : Env) : UsartPeripheral :=
  let b := block_init name 0x30 loop trace in
  let b := setResetValue isr (tc_flag .| txe_flag .| txfe_flag) b in
  construct env (mkUsart b [] [] false None false false false 1000000 None IdleLineState.disarmed).
End device.
End Usart.

(** * Proofs about the USART

    The device refines two byte streams: a receive queue filled by injections and by the installed
    provider and drained by reads of RDR, and a log of transmitted bytes.  The status register and
    the interrupt line follow the queue and the control registers. *)

Import Usart.

(** ** Programs that return, at a given time *)

Section runs_at.
Context {S : Type} (env : Env).
Definition runs_at {A} (P : S -> Prop) (m : Dev S A) (Q : A -> S -> Prop) : Prop :=
  ∀ s, P s -> ∃ a s' w, m env s = (inl a, s', w) /\ Q a s'.
Lemma runs_at_bind {A B} P (m : Dev S A) (f : A -> Dev S B) Q R :
  runs_at P m Q -> (∀ a, runs_at (Q a) (f a) R) -> runs_at P (m ≫= f) R.
Proof.
  intros Hm Hf s Hs. destruct (Hm s Hs) as (a&s'&w&E&Ha). destruct (Hf a s' Ha) as (b&s''&w'&E'&Hb).
  eexists _, _, _. split; [|exact Hb]. erewrite bind_inl by exact E. by rewrite E'.
Qed.
Lemma runs_at_then {A} P Q (m : Dev S unit) (k : Dev S A) R :
  runs_at P m (fun _ => Q) -> runs_at Q k R -> runs_at P (m;; k) R.
Proof. intros Hm Hk. eapply runs_at_bind; [exact Hm|]. by intros []. Qed.
Lemma runs_at_get {A B} P (f : S -> A) (k : A -> Dev S B) R :
  (∀ a, runs_at (fun s => P s /\ f s = a) (k a) R) -> runs_at P (get f ≫= k) R.
Proof. intros Hk s Hs. rewrite get_bind. by apply Hk. Qed.
Lemma runs_at_any {A B} P (f : S -> A) (k : A -> Dev S B) R : (∀ a, runs_at P (k a) R) -> runs_at P (get f ≫= k) R.
Proof. intros Hk s Hs. rewrite get_bind. by apply Hk. Qed.
Lemma runs_at_modify P (f : S -> S) (Q : S -> Prop) : (∀ s, P s -> Q (f s)) -> runs_at P (modify f) (fun _ => Q).
Proof. intros HQ s Hs. eexists _, _, _. split; [done|]. by apply HQ. Qed.
Lemma runs_at_ret {A} P (a : A) (Q : A -> S -> Prop) : (∀ s, P s -> Q a s) -> runs_at P (mret a) Q.
Proof. intros HQ s Hs. eexists _, _, _. split; [done|]. by apply HQ. Qed.
Lemma runs_at_skip (P : S -> Prop) : runs_at P (skip : Dev S unit) (fun _ => P).
Proof. by apply runs_at_ret. Qed.
Lemma runs_at_emit (P : S -> Prop) e : runs_at P (emit e : Dev S unit) (fun _ => P).
Proof. intros s Hs. by eexists _, _, _. Qed.
Lemma runs_at_if {A} P (b : bool) (m n : Dev S A) Q : runs_at P m Q -> runs_at P n Q -> runs_at P (if b then m else n) Q.
Proof. by destruct b. Qed.
Lemma runs_at_conseq {A} (P P' : S -> Prop) (m : Dev S A) (Q Q' : A -> S -> Prop) :
  runs_at P m Q -> (∀ s, P' s -> P s) -> (∀ a s, Q a s -> Q' a s) -> runs_at P' m Q'.
Proof. intros Hm HP HQ s Hs. destruct (Hm s (HP s Hs)) as (a&s'&w&E&Ha). eauto 10. Qed.
Context `{HasBlock S}.
Lemma runs_at_reg {B} P w (k : Z -> Dev S B) R :
  (∀ v, runs_at (fun s => P s /\ registerValue w (block s) = v) (k v) R) -> runs_at P (regValue w ≫= k) R.
Proof. apply runs_at_get. Qed.
Lemma runs_at_trace (P : S -> Prop) t fields : runs_at P (traceEvent t fields) (fun _ => P).
Proof. intros s Hs. by eexists _, _, _. Qed.
Lemma runs_at_level (P : S -> Prop) line v (Q : S -> Prop) :
  (∀ s, P s -> level line (block s) = v -> Q s) -> (∀ s, P s -> Q (with_block (set_level line v) s)) -> line < 8 ->
  runs_at P (setInterruptLevel line v) (fun _ => Q).
Proof.
  intros H1 H2 Hl s Hs. unfold setInterruptLevel. rewrite (proj2 (Z.leb_gt 8 line)) by done. cbn [orb].
  destruct (Bool.eqb _ _) eqn:E; eexists _, _, _; (split; [done|]); [|by apply H2].
  apply Bool.eqb_prop in E. by apply H1.
Qed.
End runs_at.

(** ** Status bits *)

(** One bit of an expression over flags. *)
Ltac flag_bits :=
  unfold idle_flag, rxne_flag, tc_flag, txe_flag, teack_flag, reack_flag, txfe_flag; rewrite ?has_testbit by lia;
  repeat (rewrite Z.lor_spec || rewrite Z.land_spec || rewrite not32_testbit by lia);
  repeat match goal with |- context [Z.testbit (1 .<< ?a) ?k] =>
    let b := eval vm_compute in (Z.testbit (1 .<< a) k) in change (Z.testbit (1 .<< a) k) with b end;
  rewrite ?orb_true_r, ?orb_false_r, ?andb_true_r, ?andb_false_r; cbn [negb andb orb];
  rewrite ?orb_true_r, ?orb_false_r, ?andb_true_r, ?andb_false_r.

Section status.
Context (empty : bool) (control status : Z).
Abbreviation new := (status_of empty control status).
Lemma status_rxne : has new rxne_flag = negb empty.
Proof. unfold status_of. by destruct (_ && _), (_ && _), empty; flag_bits. Qed.
Lemma status_txe : has new txe_flag = true.
Proof. unfold status_of. by destruct (_ && _), (_ && _), empty; flag_bits. Qed.
Lemma status_teack : has new teack_flag = has control 1 && has control (1 .<< 3).
Proof. unfold status_of. by destruct (has control 1 && has control (1 .<< 3)), (_ && _), empty; flag_bits. Qed.
Lemma status_reack : has new reack_flag = has control 1 && has control (1 .<< 2).
Proof. unfold status_of. by destruct (has control 1 && has control (1 .<< 3)), (has control 1 && has control (1 .<< 2)), empty; flag_bits. Qed.
Lemma status_range : is_u32 status -> is_u32 new.
Proof. intros Hs. unfold status_of. assert (∀ m, is_u32 (not32 m)) by (intros; apply u32_range).
  assert (is_u32 txe_flag /\ is_u32 txfe_flag /\ is_u32 rxne_flag /\ is_u32 teack_flag /\ is_u32 reack_flag) as (?&?&?&?&?)
    by (split_and!; by vm_compute). u32_auto. Qed.
End status.

(** ** The invariant *)

Section invariant.
Context `{RxProvider}.

(** What does not depend on the status register. *)
Record core (d : UsartPeripheral) : Prop := mk_core {
  uc_block : block_ok (us_block d);
  uc_size : rb_block_size (us_block d) = 0x30;
  uc_loop : rb_has_loop (us_block d) = true;
  uc_idle : is_Some (us_idle_event d) <-> us_idle_state d = IdleLineState.armed;
  uc_gap : 0 <= us_idle_gap_ns d;
  uc_bytes : Forall is_u8 (us_rx_queue d);
}.
(** The status register follows the queue and CR1. *)
Record mirrored (d : UsartPeripheral) : Prop := mk_mirrored {
  um_rxne : has (registerValue isr (us_block d)) rxne_flag = negb (bool_decide (us_rx_queue d = []));
  um_txe : has (registerValue isr (us_block d)) txe_flag = true;
  um_teack : has (registerValue isr (us_block d)) teack_flag
    = has (registerValue cr1 (us_block d)) 1 && has (registerValue cr1 (us_block d)) (1 .<< 3);
  um_reack : has (registerValue isr (us_block d)) reack_flag
    = has (registerValue cr1 (us_block d)) 1 && has (registerValue cr1 (us_block d)) (1 .<< 2);
}.
(** The interrupt line follows CR1 and the status register. *)
Definition levelled (d : UsartPeripheral) : Prop :=
  level 0 (us_block d) = interrupt_pending (registerValue cr1 (us_block d)) (registerValue isr (us_block d)).
Definition usart_ok (d : UsartPeripheral) : Prop := core d /\ mirrored d /\ levelled d.

(** The streams. *)
Record Streams := mkStreams {
  st_rx : list Z;
  st_provider : option rx_state;
  st_tx : list UsartTxByte;
}.
Definition streams (d : UsartPeripheral) : Streams := mkStreams (us_rx_queue d) (us_rx_provider d) (us_tx_log d).

Section steps.
Context (env : Env) (gap : Z).
Hypothesis time_left : env_now env + gap <= max_u64.

Definition at_core (s : Streams) (d : UsartPeripheral) : Prop := core d /\ us_idle_gap_ns d = gap /\ streams d = s.
Definition at_status (s : Streams) (d : UsartPeripheral) : Prop := at_core s d /\ mirrored d.
Definition at_ok (s : Streams) (d : UsartPeripheral) : Prop := at_core s d /\ mirrored d /\ levelled d.

Lemma usart_register w : w ∈ [cr1; cr3; rqr; isr; icr; rdr; tdr] -> register_of 0x30 w.
Proof. intros Hw. repeat (apply elem_of_cons in Hw as [->|Hw]; [by split|]). by apply elem_of_nil in Hw. Qed.

Lemma core_set w v d : is_u32 v -> core d -> core (with_block (set_register w v) d).
Proof. intros Hv [Hb Hs Hl Hi Hg Hq]. constructor; cbn; rewrite ?set_register_size, ?set_register_loop; try done. by apply set_register_ok. Qed.
Lemma at_core_set w v s d : is_u32 v -> at_core s d -> at_core s (with_block (set_register w v) d).
Proof. intros Hv (Hc&Hg&Hs). split; [by apply core_set|done]. Qed.

Lemma updateStatus_runs s : runs_at env (at_core s) updateStatus (fun _ => at_status s).
Proof.
  intros d Hd. unfold updateStatus. rewrite !regValue_bind, get_bind. eexists _, _, _. split; [done|].
  pose proof Hd as ([Hb Hsz _ _ _ _]&_&_). pose proof (registerValue_range isr _ Hb) as Hr.
  set (v := status_of _ _ _). assert (is_u32 v) as Hv by by apply status_range.
  split; [by apply at_core_set|].
  assert (registerValue isr (set_register isr v (us_block d)) = v) as Ei.
  { rewrite registerValue_set; [done|done|rewrite Hsz; by apply usart_register; do 3 right; left|done]. }
  assert (registerValue cr1 (set_register isr v (us_block d)) = registerValue cr1 (us_block d)) as Ec by by apply registerValue_set_ne.
  constructor; cbn; rewrite ?Ei, ?Ec; [apply status_rxne|apply status_txe|apply status_teack|apply status_reack].
Qed.

Lemma level_core v s d : at_core s d -> at_core s (with_block (set_level 0 v) d).
Proof. intros ([]&?&?). split; [|done]. constructor; try done. by apply set_level_ok. Qed.
Lemma signalInterrupt_runs s : runs_at env (at_status s) signalInterruptIfEnabled (fun _ => at_ok s).
Proof.
  apply runs_at_reg. intros control. apply runs_at_reg. intros status.
  eapply (runs_at_then _ _ (at_ok s)).
  - apply runs_at_level; [|intros d [[[Hc Hm] Ec] Es]|done].
    + intros d [[[Hc Hm] Ec] Es] Hl. split_and!; [done..|]. unfold levelled. cbn in Hl, Ec, Es. by rewrite Hl, Ec, Es.
    + split_and!; [by apply level_core|destruct Hm; by constructor|]. unfold levelled. cbn.
      rewrite level_set_same by (apply Hc || done). cbn in Ec, Es. rewrite !registerValue_level. by rewrite Ec, Es.
  - apply runs_at_any. intros callback. apply runs_at_if; [apply runs_at_emit|apply runs_at_skip].
Qed.
Lemma signalDma_runs P : runs_at env P signalDmaRequests (fun _ => P).
Proof.
  intros d Hd. unfold signalDmaRequests. rewrite get_bind. destruct (_ || _); [by eexists _, _, _|].
  rewrite !regValue_bind. destruct (has _ (1 .<< 7)), (has _ (1 .<< 6) && _); by eexists _, _, _.
Qed.

(** Changes of the idle detector only. *)
Definition idle_blind (F : UsartPeripheral -> Prop) : Prop :=
  ∀ d e x, F d -> F {| d with us_idle_event := e; us_idle_state := x |}.
Lemma scheduleIdle_runs s F : idle_blind F ->
  runs_at env (fun d => at_core s d /\ F d) scheduleIdle (fun _ d => at_core s d /\ F d).
Proof.
  intros HF d [([Hb Hs Hloop Hi Hg Hq]&Hgap&Hst) Hd]. unfold scheduleIdle.
  assert (∃ d1, cancelIdle env d = (inl tt, d1, []) /\ d1 = {| d with us_idle_event := None; us_idle_state := IdleLineState.disarmed |})
    as (d1&E1&Hd1).
  { unfold cancelIdle. rewrite get_bind. destruct d as [? ? ? ? ? ? ? ? ? ev st]. cbn in Hi |- *. destruct st.
    - assert (ev = None) as -> by (destruct ev; [|done]; by specialize (proj1 Hi (ex_intro _ _ eq_refl))). by eexists.
    - by eexists. }
  rewrite (bind_inl _ _ _ _ _ _ _ E1), get_bind. clear E1.
  assert (∀ e x, (is_Some e <-> x = IdleLineState.armed) ->
    at_core s {| d with us_idle_event := e; us_idle_state := x |} /\ F {| d with us_idle_event := e; us_idle_state := x |}) as Hany
    by (intros e x He; split; [split; [by constructor|done]|by apply HF]).
  destruct (negb (rb_has_loop (us_block d1)) || _) eqn:El.
  { eexists _, _, _. split; [done|]. rewrite Hd1. apply Hany. split; [by intros [? ?]|done]. }
  rewrite get_bind. apply orb_false_iff in El as [Hl%negb_false_iff _].
  assert (us_idle_gap_ns d1 = gap) as Eg by by rewrite Hd1.
  erewrite bind_inl by (apply scheduleAfter_run; [done|exact Hl|by rewrite Eg]).
  eexists _, _, _. split; [done|]. rewrite Hd1. apply Hany. done.
Qed.

(** ** The streams as a specification *)

Definition refill (s : Streams) : Streams :=
  match st_rx s, st_provider s with
  | [], Some p =>
      let '(byte, p) := provide p (env_now env) in
      mkStreams (match byte with Some b => [b] | None => [] end) (Some p) (st_tx s)
  | _, _ => s
  end.
Definition push (bytes : list Z) (s : Streams) : Streams := mkStreams (st_rx s ++ bytes) (st_provider s) (st_tx s).
Definition pop (s : Streams) : Streams := mkStreams (tail (st_rx s)) (st_provider s) (st_tx s).
Definition flush (s : Streams) : Streams := mkStreams [] (st_provider s) (st_tx s).
Definition send (byte : Z) (s : Streams) : Streams :=
  mkStreams (st_rx s) (st_provider s) (st_tx s ++ [mkUsartTxByte (env_now env) byte]).

Lemma queue_core f s d : Forall is_u8 (f (st_rx s)) -> at_core s d ->
  at_core (mkStreams (f (st_rx s)) (st_provider s) (st_tx s)) {| d with us_rx_queue := f (us_rx_queue d) |}.
Proof. intros Hf ([]&Hg&<-). split; [by constructor|done]. Qed.
Lemma set_rx_queue_runs f s : (∀ q, Forall is_u8 q -> Forall is_u8 (f q)) ->
  runs_at env (at_core s) (set_rx_queue f) (fun _ => at_core (mkStreams (f (st_rx s)) (st_provider s) (st_tx s))).
Proof.
  intros Hf. apply runs_at_modify. intros d Hd. apply queue_core; [|done]. apply Hf. destruct Hd as ([]&_&<-). done.
Qed.
Lemma Forall_snoc_u8 q b : is_u8 b -> Forall is_u8 q -> Forall is_u8 (q ++ [b]).
Proof. intros Hb Hq. apply Forall_app. by split; [|constructor]. Qed.
Lemma scheduleIdle_core s : runs_at env (at_core s) scheduleIdle (fun _ => at_core s).
Proof.
  eapply runs_at_conseq; [apply (scheduleIdle_runs s (fun _ => True))|by split|by intros _ d []]. done.
Qed.
Lemma scheduleIdle_status s : runs_at env (at_status s) scheduleIdle (fun _ => at_status s).
Proof. apply (scheduleIdle_runs s mirrored). intros d e x []. by constructor. Qed.

Lemma refillRx_runs s : runs_at env (at_core s) refillRx (fun _ => at_core (refill s)).
Proof.
  intros d (Hc&Hg&<-). unfold refillRx. rewrite get_bind. unfold refill. cbn [streams st_rx st_provider st_tx].
  destruct (us_rx_queue d) as [|x q] eqn:Eq; [|rewrite bool_decide_false by done; cbn [negb orb]; eexists _, _, _; split; [done|];
    unfold at_core, streams; by rewrite Eq].
  rewrite bool_decide_true by done. destruct (us_rx_provider d) as [p|] eqn:Ep.
  2: { rewrite bool_decide_false by (by intros [? ?]). cbn [negb orb]. eexists _, _, _. split; [done|]. unfold at_core, streams. by rewrite Eq, Ep. }
  rewrite bool_decide_true by done. cbn [negb orb]. rewrite currentTime_bind by apply Hc.
  destruct (provide p (env_now env)) as [byte p'] eqn:Epr.
  set (d1 := {| d with us_rx_provider := Some p' |}).
  rewrite (bind_inl (poll_provider (env_now env)) _ env d byte d1 []) by (unfold poll_provider; by rewrite Ep, Epr).
  assert (at_core (mkStreams [] (Some p') (us_tx_log d)) d1) as H1.
  { split; [destruct Hc; by constructor|]. split; [done|]. unfold streams. cbn. by rewrite Eq. }
  destruct byte as [byte|]; [|by eexists _, _, _].
  assert (runs_at env (at_core (mkStreams [] (Some p') (us_tx_log d)))
    (set_rx_queue (fun queue => queue ++ [byte]);; traceByte "uart_rx" byte;; scheduleIdle)
    (fun _ => at_core (mkStreams [byte] (Some p') (us_tx_log d)))) as Hrun.
  { pose proof (provide_byte p (env_now env)) as Hbyte. rewrite Epr in Hbyte. cbn in Hbyte.
    eapply runs_at_then; [apply set_rx_queue_runs; intros q; by apply Forall_snoc_u8|]. eapply runs_at_then; [apply runs_at_trace|]. apply scheduleIdle_core. }
  destruct (Hrun d1 H1) as (a&d2&w&->&H2). by eexists _, _, _.
Qed.

(** The common ends of the register programs. *)
Lemma settle_runs s : runs_at env (at_core s) (updateStatus;; signalInterruptIfEnabled) (fun _ => at_ok s).
Proof. eapply runs_at_then; [apply updateStatus_runs|apply signalInterrupt_runs]. Qed.
Lemma settle_then {A} s (k : Dev UsartPeripheral A) R : runs_at env (at_ok s) k R ->
  runs_at env (at_core s) (updateStatus;; signalInterruptIfEnabled;; k) R.
Proof.
  intros Hk. eapply runs_at_then; [apply updateStatus_runs|]. eapply runs_at_then; [apply signalInterrupt_runs|]. done.
Qed.

Lemma injectRx_runs bytes s : Forall is_u8 bytes -> runs_at env (at_core s) (injectRx bytes) (fun _ => at_ok (push bytes s)).
Proof.
  intros Hbytes. unfold injectRx. eapply (runs_at_then _ _ (at_core (push bytes s))).
  - revert s. induction Hbytes as [|b bytes Hb Hbytes IH]; intros s; cbn [for_each].
    { eapply runs_at_conseq; [apply (runs_at_skip env (at_core s))|done|]. intros [] d Hd. unfold push. rewrite app_nil_r. by destruct s. }
    eapply runs_at_then; [eapply runs_at_then; [apply set_rx_queue_runs; intros q; by apply Forall_snoc_u8|apply runs_at_trace]|].
    eapply runs_at_conseq; [apply IH|done|]. intros [] d. unfold push. cbn. by rewrite <- app_assoc.
  - eapply runs_at_then; [apply updateStatus_runs|]. eapply runs_at_then; [apply scheduleIdle_status|].
    eapply runs_at_then; [apply signalInterrupt_runs|]. apply signalDma_runs.
Qed.

Lemma idle_runs s : runs_at env (at_ok s) idle_callback (fun _ => at_ok s).
Proof.
  intros d (Hc&Hm&Hl). unfold idle_callback, set_idle_state. rewrite !modify_bind, regValue_bind, setRegister_bind.
  erewrite bind_inl by reflexivity. set (d1 := with_block _ _).
  destruct (signalInterrupt_runs s d1) as (a&d2&w&->&H2); [|by eexists _, _, _].
  pose proof Hc as ([Hb Hs Hlp Hi Hg Hq]&Hgap&Hst). pose proof (registerValue_range isr _ Hb) as Hr.
  assert (is_u32 (registerValue isr (us_block d) .| idle_flag)) as Hv by (apply is_u32_lor; [done|by vm_compute]).
  assert (registerValue isr (us_block d1) = registerValue isr (us_block d) .| idle_flag) as Ei.
  { cbn. rewrite registerValue_set; [done|done|rewrite Hs; by apply usart_register; do 3 right; left|done]. }
  assert (registerValue cr1 (us_block d1) = registerValue cr1 (us_block d)) as Ec by (cbn; by rewrite registerValue_set_ne).
  split; [split; [|done]|].
  - constructor; cbn; rewrite ?set_register_size, ?set_register_loop; try done; by apply set_register_ok.
  - destruct Hm. constructor; rewrite Ei, ?Ec, has_lor; [by rewrite orb_false_r..].
Qed.

(** *** Word accesses *)

Definition read_streams (w : Z) (s : Streams) : Streams :=
  if w =? isr then refill s else if w =? rdr then pop (refill s) else s.
(** What a read returns: RDR the oldest byte, ISR the status with RXNE telling whether there is one. *)
Definition read_value (w : Z) (s : Streams) (v : Z) : Prop :=
  (w = rdr -> v = default 0 (head (st_rx (refill s))))
  /\ (w = isr -> has v rxne_flag = negb (bool_decide (st_rx (refill s) = []))).

Lemma pop_runs s : runs_at env (at_core s)
  (value ← get (fun d => default 0 (head (us_rx_queue d))); set_rx_queue tail;; setRegister rdr value;;
   updateStatus;; signalInterruptIfEnabled;; signalDmaRequests;; mret value)
  (fun v d => at_ok (pop s) d /\ v = default 0 (head (st_rx s))).
Proof.
  apply runs_at_get. intros v. apply (runs_at_conseq env (fun d => at_core s d /\ (v = default 0 (head (st_rx s)) /\ is_u32 v))
    _ _ (fun a d => at_ok (pop s) d /\ a = default 0 (head (st_rx s)))); [|intros d [Hd <-]|done].
  2: { split; [done|]. destruct Hd as (Hc&_&<-). split; [done|]. pose proof (uc_bytes _ Hc) as Hq. cbn.
       destruct Hq; cbn; width_lia. }
  intros d [Hd [-> Hv]]. set (v := default 0 (head (st_rx s))) in *.
  assert (runs_at env (at_core s) (set_rx_queue tail;; setRegister rdr v;; updateStatus;; signalInterruptIfEnabled;; signalDmaRequests;; mret v)
    (fun a d => at_ok (pop s) d /\ a = v)) as Hrun; [|exact (Hrun d Hd)].
  eapply runs_at_then; [apply set_rx_queue_runs; intros q Hq; by destruct Hq|].
  eapply runs_at_then; [apply runs_at_modify; intros x; by apply at_core_set|]. apply settle_then.
  eapply runs_at_then; [apply signalDma_runs|]. by apply runs_at_ret.
Qed.

Lemma load_runs w c s : runs_at env (at_ok s) (usart_loadRegister w c) (fun v d => at_ok (read_streams w s) d /\ read_value w s v).
Proof.
  assert (∀ x, at_ok s x -> at_core s x) as Hok by (intros x Hx; apply Hx). unfold usart_loadRegister, read_streams, read_value.
  destruct (Z.eqb_spec w isr) as [->|Hi].
  { eapply runs_at_then; [eapply runs_at_conseq; [apply refillRx_runs|exact Hok|done]|]. apply settle_then.
    eapply runs_at_then; [apply signalDma_runs|]. intros d Hd. eexists _, _, _. split; [done|]. split; [done|]. split; [done|]. intros _.
    destruct Hd as ((_&_&<-)&Hm&_). apply Hm. }
  destruct (Z.eqb_spec w rdr) as [->|Hr].
  { eapply runs_at_then; [eapply runs_at_conseq; [apply refillRx_runs|exact Hok|done]|].
    eapply runs_at_conseq; [apply pop_runs|done|]. intros v d [Hd ->]. by split. }
  intros d Hd. by eexists _, _, _.
Qed.

(** Stores. *)
Definition write_streams (w v : Z) (s : Streams) : Streams :=
  if w =? tdr then send (u8 v) s else if (w =? rqr) && has v (1 .<< 3) then flush s else s.

Lemma settled_set w v s d : register_of 0x30 w -> w <> isr -> w <> cr1 -> is_u32 v -> at_ok s d ->
  at_ok s (with_block (set_register w v) d).
Proof.
  intros [Hw _] Hi Hc Hv (Hcore&Hm&Hl). split_and!; [by apply at_core_set| |].
  - destruct Hm. constructor; cbn; by rewrite !registerValue_set_ne by (lia || done).
  - unfold levelled in *. cbn. by rewrite level_set_register, !registerValue_set_ne by (lia || done).
Qed.
Lemma settled_restore w v s d : register_of 0x30 w -> is_u32 v -> at_ok s d ->
  at_ok s (with_block (set_register w (registerValue w (us_block d))) (with_block (set_register w v) d)).
Proof.
  intros Hw Hv (Hcore&Hm&Hl). pose proof Hcore as ([Hb Hs _ _ _ _]&_&_). rewrite <- Hs in Hw. pose proof (registerValue_range w _ Hb) as Hr.
  assert (block_ok (set_register w v (us_block d))) as Hb1 by by apply set_register_ok.
  assert (∀ x, 0 <= x -> registerValue x (set_register w (registerValue w (us_block d)) (set_register w v (us_block d)))
    = registerValue x (us_block d)) as Hsame.
  { intros x Hx. rewrite !registerValue_set; [|done|by rewrite ?set_register_size..]. by case_eqb; subst. }
  split_and!; [apply at_core_set; [done|by apply at_core_set]| |].
  - destruct Hm. constructor; cbn; by rewrite !Hsame.
  - unfold levelled in *. cbn. by rewrite !level_set_register, !Hsame.
Qed.

(** A register written with a value derived from its content. *)
Lemma rewrite_runs {A} w (g : Z -> Z) s (k : Dev UsartPeripheral A) R : (∀ x, is_u32 x -> is_u32 (g x)) ->
  runs_at env (at_core s) k R ->
  runs_at env (at_core s) (x ← regValue w; setRegister w (g x);; k) R.
Proof.
  intros Hg Hk d Hd. rewrite regValue_bind, setRegister_bind. apply Hk, at_core_set; [|done].
  apply Hg, registerValue_range. apply Hd.
Qed.
Lemma u8_land_255 v : u8 (v .& 0xff) = u8 v.
Proof.
  unfold u8. change 0xff with (Z.ones 8). rewrite Z.land_ones by lia. change (2 ^ 8) with 0x100. apply Zmod_mod.
Qed.

Lemma transmit_runs v s c previous : is_u32 v ->
  runs_at env (at_core s) (usart_storeRegister tdr previous v 0xffffffff c) (fun _ => at_ok (send (u8 v) s)).
Proof.
  intros Hv d Hd. unfold usart_storeRegister. change (tdr =? tdr) with true. cbv iota. rewrite u8_land_255.
  rewrite currentTime_bind by apply Hd. rewrite modify_bind.
  set (d1 := {| d with us_tx_log := _ |}). assert (at_core (send (u8 v) s) d1) as H1.
  { destruct Hd as ([]&Hg&<-). split; [by constructor|done]. }
  clearbody d1. clear d Hd. revert d1 H1. generalize (send (u8 v) s) as s'. intros s'.
  eapply runs_at_then; [apply runs_at_trace|]. apply runs_at_any. intros callback.
  eapply runs_at_then; [apply runs_at_if; [apply runs_at_emit|apply runs_at_skip]|]. apply rewrite_runs; [|apply settle_runs].
  intros x Hx. apply is_u32_lor; [done|by vm_compute].
Qed.

Lemma other_store_runs w v c s d : register_of 0x30 w -> is_u32 v -> w <> tdr -> at_ok s d ->
  ∃ a d' fx, usart_storeRegister w (registerValue w (us_block d)) v 0xffffffff c env (with_block (set_register w v) d) = (inl a, d', fx)
    /\ at_ok (if (w =? rqr) && has v (1 .<< 3) then flush s else s) d'.
Proof.
  intros Hw Hv Hne Hd. pose proof Hd as (Hcore&_&_). assert (at_core s (with_block (set_register w v) d)) as H1 by by apply at_core_set.
  unfold usart_storeRegister. rewrite (proj2 (Z.eqb_neq w tdr)) by done.
  destruct (Z.eqb_spec w icr) as [->|H_icr].
  { revert H1. generalize (with_block (set_register icr v) d). apply rewrite_runs.
    - intros x Hx. u32_auto.
    - eapply runs_at_then; [apply runs_at_modify; intros x; by apply at_core_set|apply settle_runs]. }
  destruct (Z.eqb_spec w rqr) as [->|H_rqr]; cbn [andb].
  { revert H1. generalize (with_block (set_register rqr v) d).
    eapply (runs_at_then _ _ (at_core (if has v (1 .<< 3) then flush s else s))).
    - destruct (has v (1 .<< 3)); [apply (set_rx_queue_runs (fun _ => []))|apply runs_at_skip]. intros. constructor.
    - eapply runs_at_then; [apply runs_at_modify; intros x; by apply at_core_set|apply settle_runs]. }
  destruct (Z.eqb_spec w cr1) as [->|H_cr1].
  { revert H1. generalize (with_block (set_register cr1 v) d). eapply runs_at_then; [apply updateStatus_runs|].
    eapply runs_at_then; [apply scheduleIdle_status|apply signalInterrupt_runs]. }
  destruct (Z.eqb_spec w isr) as [->|H_isr].
  { change ((isr =? rdr) || true) with true. change (isr =? cr3) with false. cbv iota. eexists _, _, _. split; [done|]. by apply settled_restore. }
  assert (at_ok s (with_block (set_register w v) d)) as Hok by by apply settled_set.
  destruct (Z.eqb_spec w cr3) as [->|]; [by apply (signalDma_runs (at_ok s))|].
  rewrite orb_false_r. destruct (Z.eqb_spec w rdr) as [->|]; [|by eexists _, _, _].
  eexists _, _, _. split; [done|]. by apply settled_restore.
Qed.

Lemma store_runs w v c s : register_of 0x30 w -> is_u32 v ->
  runs_at env (at_ok s) (write w AccessSize.word v c) (fun _ => at_ok (write_streams w v s)).
Proof.
  intros Hw Hv d Hd. pose proof Hd as (Hcore&_&_). pose proof Hcore as ([Hb Hs Hl _ _ _]&_&_).
  destruct (register_fits 0x30 w (us_block d) Hs eq_refl Hw) as (Ha&Hw0&Hfit).
  rewrite write_word by done. rewrite u32_small by done. cbn [block usart_has_block storeRegister usart_hooks]. unfold write_streams.
  destruct (Z.eqb_spec w tdr) as [->|H_tdr].
  - destruct (transmit_runs v s c (registerValue tdr (us_block d)) Hv (with_block (set_register tdr v) d)) as (a&d2&fx&->&H2);
      [by apply at_core_set|by eexists _, _, _].
  - destruct (other_store_runs w v c s d Hw Hv H_tdr Hd) as (a&d2&fx&->&H2). by eexists _, _, _.
Qed.
Lemma word_read_runs w c s : register_of 0x30 w -> runs_at env (at_ok s) (read w AccessSize.word c)
  (fun r d => at_ok (read_streams w s) d /\ ∃ v, r = inl v /\ read_value w s v).
Proof.
  intros Hw d Hd. pose proof Hd as (([Hb Hs _ _ _ _]&_&_)&_&_).
  destruct (register_fits 0x30 w (us_block d) Hs eq_refl Hw) as (Ha&Hw0&Hfit). rewrite read_word by done.
  destruct (load_runs w c s d Hd) as (v&d2&fx&E&H2&Hv). cbn [loadRegister usart_hooks]. rewrite E. eexists _, _, _. split; [done|].
  split; [done|]. by exists v.
Qed.
End steps.
End invariant.

(** ** Runs of timed operations *)

Inductive UsartOp :=
  | usart_inject (bytes : list Z)
  | usart_read (w : Z)
  | usart_write (w v : Z)
  | usart_idle.

Section runs.
Context `{RxProvider} (c : AccessContext) (env : Env) (gap : Z).

Definition usart_op (o : UsartOp) : Dev UsartPeripheral (list Z) :=
  match o with
  | usart_inject bytes => injectRx bytes;; mret []
  | usart_read w => r ← read w AccessSize.word c; mret (if w =? rdr then match r with inl v => [v] | inr _ => [] end else [])
  | usart_write w v => _ ← write w AccessSize.word v c; mret []
  | usart_idle => idle_callback;; mret []
  end.
(** The bytes that the firmware gets out of RDR, and the device at the end; [None] if an operation throws. *)
Fixpoint usart_drive (ops : list (Z * UsartOp)) (d : UsartPeripheral) : option (list Z * UsartPeripheral) :=
  match ops with
  | [] => Some ([], d)
  | (t, o) :: ops =>
      match usart_op o (at_time t env) d with
      | (inl out, d, _) => '(out', d) ← usart_drive ops d; Some (out ++ out', d)
      | (inr _, _, _) => None
      end
  end.

(** The specification: the streams alone. *)
Definition stream_op (t : Z) (o : UsartOp) (s : Streams) : list Z * Streams :=
  let env := at_time t env in
  match o with
  | usart_inject bytes => ([], push bytes s)
  | usart_read w => (if w =? rdr then [default 0 (head (st_rx (refill env s)))] else [], read_streams env w s)
  | usart_write w v => ([], write_streams env w v s)
  | usart_idle => ([], s)
  end.
Fixpoint stream_drive (ops : list (Z * UsartOp)) (s : Streams) : list Z * Streams :=
  match ops with
  | [] => ([], s)
  | (t, o) :: ops =>
      let '(out, s) := stream_op t o s in
      let '(out', s) := stream_drive ops s in (out ++ out', s)
  end.

Definition op_valid (x : Z * UsartOp) : Prop :=
  x.1 + gap <= max_u64
  /\ match x.2 with
     | usart_inject bytes => Forall is_u8 bytes
     | usart_read w => register_of 0x30 w
     | usart_write w v => register_of 0x30 w /\ is_u32 v
     | usart_idle => True
     end.

Lemma usart_op_runs t o s : op_valid (t, o) ->
  runs_at (at_time t env) (at_ok gap s) (usart_op o) (fun out d => out = (stream_op t o s).1 /\ at_ok gap (stream_op t o s).2 d).
Proof.
  intros [Ht Ho]. cbn in Ht, Ho. destruct o as [bytes|w|w v|]; cbn [usart_op stream_op fst snd].
  - eapply runs_at_then; [|by apply runs_at_ret].
    eapply runs_at_conseq; [by apply injectRx_runs|intros d Hd; apply Hd|done].
  - eapply runs_at_bind; [by apply word_read_runs|]. intros r. apply runs_at_ret. intros d (Hd&v&->&Hv1&_). split; [|done].
    destruct (Z.eqb_spec w rdr); [|done]. by rewrite Hv1.
  - destruct Ho as [Hw Hv]. eapply runs_at_bind; [by apply store_runs|]. intros r. by apply runs_at_ret.
  - eapply runs_at_then; [apply idle_runs|by apply runs_at_ret].
Qed.

Lemma usart_drive_runs ops : Forall op_valid ops -> ∀ s d, at_ok gap s d ->
  ∃ d', usart_drive ops d = Some ((stream_drive ops s).1, d') /\ at_ok gap (stream_drive ops s).2 d'.
Proof.
  induction 1 as [|[t o] ops Ho Hops IH]; intros s d Hd; cbn [usart_drive stream_drive]; [by exists d|].
  destruct (usart_op_runs t o s Ho d Hd) as (out&d1&fx&->&->&H1).
  destruct (stream_op t o s) as [out1 s1]. cbn [fst snd] in H1 |- *.
  destruct (IH s1 d1 H1) as (d'&->&H'). destruct (stream_drive ops s1) as [out2 s2]. by exists d'.
Qed.

(** A constructed device. *)
Lemma usart_new_ok name trace : gap = 1000000 -> at_ok gap (mkStreams [] None []) (usart_new name true trace env).
Proof.
  intros ->. set (b := setResetValue isr (tc_flag .| txe_flag .| txfe_flag) (block_init name 0x30 true trace)).
  assert (block_ok b) as Hb by (apply setResetValue_ok; [apply block_init_ok; lia|by vm_compute]).
  set (I d := core d /\ us_idle_gap_ns d = 1000000 /\ streams d = mkStreams [] None [] /\ us_idle_state d = IdleLineState.disarmed
    /\ registerValue cr1 (us_block d) = 0 /\ registerValue isr (us_block d) = tc_flag .| txe_flag .| txfe_flag
    /\ level 0 (us_block d) = false).
  assert (I (usart_new name true trace env)) as (Hc&Hg&Hs&_&Hcr&Hi&Hl).
  { apply (construct_block I).
    - split_and!; try done. constructor; try done; [by apply reset_registers_ok|]. split; [by intros [? ?]|done].
    - intros line d (Hc&Hg&Hs&Hst&Hcr&Hi&Hl). destruct Hc. split_and!; try done; [constructor; try done; by apply set_level_ok|].
      cbn. unfold level, set_level. cbn. destruct (decide (Z.to_nat line = 0%nat)) as [->|Hne].
      + rewrite list_lookup_insert_eq; [done|]. rewrite (ok_levels _ uc_block0). lia.
      + by rewrite list_lookup_insert_ne by done.
    - cbn [onReset usart_hooks]. unfold usart_onReset.
      eapply holds_bind; [apply (runs_holds _ _ (fun _ => I)); [|done]|].
      { intros env' d Hd. unfold cancelIdle. rewrite get_bind. pose proof Hd as (_&_&_&->&_). by eexists _, _, _. }
      intros _ _. eapply holds_bind; [apply holds_modify|].
      { intros d (Hc&Hg&Hs&Hst&Hcr&Hi&Hl). destruct Hc. split_and!; try done.
        unfold streams in *. cbn in *. by injection Hs as _ -> ->. }
      intros _ _. apply holds_modify. intros d (Hc&Hg&Hs&Hst&Hcr&Hi&Hl). split_and!; try done; [by apply core_set| | |].
      + cbn. by rewrite registerValue_set_ne.
      + cbn. rewrite registerValue_set; [done|apply Hc|rewrite (uc_size _ Hc); by apply usart_register; do 3 right; left|done].
      + cbn. by rewrite level_set_register. }
  split_and!; [by split|constructor; rewrite Hi, ?Hcr; [|done..]|unfold levelled; by rewrite Hl, Hcr, Hi].
  assert (us_rx_queue (usart_new name true trace env) = []) as -> by exact (f_equal st_rx Hs). done.
Qed.
End runs.
