(* ===== verification/Spi.v ===== *)
(** * SPI

    Models [SpiPeripheral] ([src/stm32g4/spi.cpp] and the class of
    [include/fil/stm32g4/peripheral.hpp]).  The installed [TransferCallback] is the attached
    target, code of the caller with a state of its own: the class [SpiTarget]. *)

From S2P Require Import Prelude Address InstructionProofs CpuState CpuStateProofs Common Trace Peripheral PeripheralProofs.
From S2P Require Import Timing Watchdog Timer Usart.
#[local] Open Scope Z_scope.
#[local] Open Scope fil_scope.

(** The answer of the target to a transfer at a time. *)
Class SpiTarget := {
  target_state : Type;
  exchange : target_state -> list Z -> Z -> list Z * target_state;
  exchange_bytes t transmitted time_ns : Forall is_u8 (exchange t transmitted time_ns).1;
}.

Record SpiTransfer := mkSpiTransfer {
  spt_time_ns : Z;
  spt_transmitted : list Z;
  spt_received : list Z;
}.

Module Spi.
Definition cr2 : Z := 0x04.
Definition sr : Z := 0x08.
Definition dr : Z := 0x0c.
Definition rxne : Z := 1 .<< 0.
Definition txe : Z := 1 .<< 1.
Definition bsy : Z := 1 .<< 7.

Section device.
Context `{SpiTarget}.

Record SpiPeripheral := mkSpi {
  sp_block : RegBlock;
  sp_receive_bytes : list Z;
  sp_transfer_callback : option target_state;
  sp_interrupt_callback : bool;
  sp_dma_request_callback : bool;
  sp_echo : bool;
  sp_dma_suppress : bool;
  sp_transfers : list SpiTransfer;
}.
#[global] Instance spi_has_block : HasBlock SpiPeripheral :=
  {| block := sp_block; with_block f d := {| d with sp_block := f (sp_block d) |} |}.
#[global] Instance spi_has_block_laws : HasBlockLaws SpiPeripheral.
Proof. constructor; [done|]. intros f g [] E. cbn in *. by rewrite E. Qed.

(** *** Status and signals *)

Definition status_of (empty : bool) (status : Z) : Z :=
  if empty then (status .| txe) .& not32 rxne else (status .| txe) .| rxne.
Definition updateStatus : Dev SpiPeripheral unit :=
  status ← regValue sr;
  bytes ← get sp_receive_bytes;
  setRegister sr (status_of (bool_decide (bytes = [])) status).

Definition interrupt_pending (control status : Z) : bool :=
  (has control (1 .<< 6) && has status rxne) || (has control (1 .<< 7) && has status txe).
Definition signalRequests : Dev SpiPeripheral unit :=
  updateStatus;;
  control ← regValue cr2;
  status ← regValue sr;
  let pending := interrupt_pending control status in
  setInterruptLevel 0 pending;;
  interrupt ← get sp_interrupt_callback;
  (if interrupt && pending then emit fx_interrupt_request else skip);;
  dma ← get (fun d => sp_dma_request_callback d && negb (sp_dma_suppress d));
  if (dma : bool) then
    (if has control 1 && has status rxne then emit (fx_dma_request false) else skip);;
    (if has control (1 .<< 1) && has status txe then emit (fx_dma_request true) else skip)
  else skip.

(** *** Transfers *)

(** The call of the target, the echo, or nothing. *)
Definition respond (transmitted : list Z) (time_ns : Z) : Dev SpiPeripheral (list Z) := fun _ d =>
  match sp_transfer_callback d with
  | Some t => let '(received, t) := exchange t transmitted time_ns in
              (inl received, {| d with sp_transfer_callback := Some t |}, [fx_transfer transmitted time_ns])
  | None => (inl (if sp_echo d then transmitted else []), d, [])
  end.
(** Padding with zeros and truncation to the width of the transfer. *)
Definition normalize (byte_count : nat) (received : list Z) : list Z :=
  take byte_count (received ++ replicate (byte_count - length received) 0).

Definition transferWord (value write_mask : Z) : Dev SpiPeripheral unit :=
  let byte_count := if has write_mask 0xffffff00 then 2%nat else 1%nat in
  let transmitted := (fun index => u8 ((value .>> (index * 8)) .& 0xff)) <$> seqZ 0 (Z.of_nat byte_count) in
  status ← regValue sr;
  setRegister sr ((status .| bsy) .& not32 txe);;
  now ← currentTime;
  received ← respond transmitted now;
  let received := normalize byte_count received in
  modify (fun d : SpiPeripheral => {| d with sp_receive_bytes := sp_receive_bytes d ++ received |});;
  modify (fun d : SpiPeripheral => {| d with sp_transfers := sp_transfers d ++ [mkSpiTransfer now transmitted received] |});;
  traceEvent "spi_transfer" [("tx", hexBytes transmitted); ("rx", hexBytes received)];;
  status ← regValue sr;
  setRegister sr ((status .& not32 bsy) .| txe);;
  updateStatus;;
  signalRequests.

(** *** Registers *)

Definition spi_loadRegister (word_offset : Z) (c : AccessContext) : Dev SpiPeripheral Z :=
  updateStatus;;
  regValue word_offset.
Definition spi_storeRegister (word_offset previous value write_mask : Z) (c : AccessContext) : Dev SpiPeripheral unit :=
  if word_offset =? dr then transferWord value write_mask
  else if word_offset =? sr then setRegister sr previous
  else if word_offset =? cr2 then signalRequests
  else skip.
Definition spi_onReset : Dev SpiPeripheral unit :=
  modify (fun d : SpiPeripheral => {| d with sp_receive_bytes := [] |});;
  setRegister sr txe.
#[global] Instance spi_hooks : RegisterHooks SpiPeripheral :=
  {| loadRegister := spi_loadRegister; storeRegister := spi_storeRegister; onReset := spi_onReset |}.

(** The loop of [SpiPeripheral::read]: the value of up to [width] bytes and the bytes left. *)
Fixpoint drain (width : nat) (index : Z) (bytes : list Z) : Z * list Z :=
  match width, bytes with
  | Datatypes.S width, byte :: bytes =>
      let '(value, rest) := drain width (index + 1) bytes in ((byte .<< (index * 8)) .| value, rest)
  | _, _ => (0, bytes)
  end.
Definition spi_read (offset : Z) (size : AccessSize.t) (c : AccessContext) : Dev SpiPeripheral (MemoryResult Z) :=
  if negb (offset =? dr) || (4 <? byteCount size) then read offset size c
  else
    bytes ← get sp_receive_bytes;
    let '(value, rest) := drain (Z.to_nat (byteCount size)) 0 bytes in
    modify (fun d : SpiPeripheral => {| d with sp_receive_bytes := rest |});;
    setRegister dr (u32 value);;
    updateStatus;;
    signalRequests;;
    mret (inl value).

(** *** Configuration *)

Definition setTransferCallback (t : option target_state) : Dev SpiPeripheral unit :=
  modify (fun d : SpiPeripheral => {| d with sp_transfer_callback := t |}).
Definition setInterruptCallback (present : bool) : Dev SpiPeripheral unit :=
  modify (fun d : SpiPeripheral => {| d with sp_interrupt_callback := present |});;
  signalRequests.
Definition setDmaRequestCallback (present : bool) : Dev SpiPeripheral unit :=
  modify (fun d : SpiPeripheral => {| d with sp_dma_request_callback := present |});;
  signalRequests.
Definition setEcho (enabled : bool) (d : SpiPeripheral) : SpiPeripheral := {| d with sp_echo := enabled |}.
Definition setDmaSuppress (suppress : bool) (d : SpiPeripheral) : SpiPeripheral := {| d with sp_dma_suppress := suppress |}.
Definition hasRxData (d : SpiPeripheral) : bool := negb (bool_decide (sp_receive_bytes d = [])).
Definition clearTransferLog (d : SpiPeripheral) : SpiPeripheral := {| d with sp_transfers := [] |}.

Definition spi_new (name : string) (loop trace : bool) (env : Env) : SpiPeripheral :=
  let b := block_init name 0x24 loop trace in
  let b := setResetValue sr txe b in
  construct env (mkSpi b [] None false false false false []).
End device.
End Spi.

(** * Proofs about the SPI

    A transfer exchanges as many bytes as the access is wide, the receive queue delivers the
    answers in order, and the status register and the interrupt line follow the queue. *)

Import Spi.

(** ** Bytes of a transfer *)

Lemma u8_bits x i : 0 <= i < 8 -> Z.testbit (u8 x) i = Z.testbit x i.
Proof. intros Hi. unfold u8. change 0x100 with (2 ^ 8). apply Z.mod_pow2_bits_low. lia. Qed.
Lemma u32_low_bits x i : 0 <= i < 32 -> Z.testbit (u32 x) i = Z.testbit x i.
Proof. intros Hi. unfold u32. change 0x100000000 with (2 ^ 32). apply Z.mod_pow2_bits_low. lia. Qed.
Lemma bind_skip {S} (m : Dev S unit) env s : (m;; skip) env s = m env s.
Proof. unfold mbind, Dev_bind. destruct (m env s) as [[[[]|e] s'] w]; cbn; by rewrite ?app_nil_r. Qed.
Lemma u8_ext x y : (∀ i, 0 <= i < 8 -> Z.testbit x i = Z.testbit y i) -> u8 x = u8 y.
Proof.
  intros Hxy. apply Z.bits_inj'. intros i Hi. destruct (Z.lt_ge_cases i 8).
  - rewrite !u8_bits by lia. apply Hxy. lia.
  - pose proof (u8_range x) as Hx. pose proof (u8_range y) as Hy. unfold is_u8 in *.
    by rewrite !(high_bits_clear 8 _ i) by (lia || done).
Qed.

(** What a transfer of a given width sends. *)
Definition tx_bytes (size : AccessSize.t) (v : Z) : list Z :=
  match size with AccessSize.byte => [u8 v] | _ => [u8 v; u8 (v .>> 8)] end.
Definition access_mask (size : AccessSize.t) : Z :=
  match size with AccessSize.byte => 0xff | AccessSize.halfword => 0xffff | _ => 0xffffffff end.

Lemma merged_bit previous bits mask i : is_u32 mask -> 0 <= i < 32 -> Z.testbit mask i = true ->
  Z.testbit (merged_image previous bits mask) i = Z.testbit bits i.
Proof.
  intros Hm Hi Hb. unfold merged_image. rewrite Z.lor_spec, !Z.land_spec, not32_testbit, Hb by lia. cbn.
  by rewrite andb_false_r, andb_true_r.
Qed.

(** A write to DR runs one transfer of the width of the access. *)
Lemma dr_write_hook `{SpiTarget} size v c env (d : SpiPeripheral) : size <> AccessSize.doubleword ->
  block_ok (sp_block d) -> rb_block_size (sp_block d) = 0x24 ->
  ∃ value, is_u32 value /\ (∀ i, 0 <= i < 32 -> Z.testbit (access_mask size) i = true -> Z.testbit value i = Z.testbit v i)
    /\ write dr size v c env d
       = (let '(r, d', fx) := transferWord value (access_mask size) env (with_block (set_register dr value) d) in
          (match r with inl _ => inl (inl 0) | inr e => inr e end, d', fx)).
Proof.
  intros Hs Hb Hsize. pose proof (registerValue_range dr _ Hb) as Hp.
  assert (aligned_register dr (block d) = true) as Ha by (unfold aligned_register; cbn; by rewrite Hsize).
  assert (∀ n, 0 <= n <= 4 -> rangeFits dr n (rb_block_size (block d)) = true) as Hfit
    by (intros n Hn; cbn; rewrite Hsize; apply rangeFits_spec; unfold dr; lia).
  assert (∀ bits mask (k : Dev SpiPeripheral unit), mask = access_mask size -> is_u32 bits -> is_u32 mask ->
    (∀ i, 0 <= i < 32 -> Z.testbit mask i = true -> Z.testbit bits i = Z.testbit v i) ->
    k env d = store_word dr bits mask c env d -> ∃ value, is_u32 value
      /\ (∀ i, 0 <= i < 32 -> Z.testbit (access_mask size) i = true -> Z.testbit value i = Z.testbit v i)
      /\ k env d = transferWord value (access_mask size) env (with_block (set_register dr value) d)) as Hstore.
  { intros bits mask k -> Hbits Hmask Hv Ek. exists (merged_image (registerValue dr (sp_block d)) bits (access_mask size)).
    split; [by apply merged_image_range|]. split; [intros i Hi Hm; rewrite merged_bit by done; by apply Hv|].
    by rewrite Ek, store_word_hook. }
  assert (∀ k : Dev SpiPeripheral unit, (∃ value, is_u32 value
      /\ (∀ i, 0 <= i < 32 -> Z.testbit (access_mask size) i = true -> Z.testbit value i = Z.testbit v i)
      /\ k env d = transferWord value (access_mask size) env (with_block (set_register dr value) d)) ->
    ∃ value, is_u32 value
      /\ (∀ i, 0 <= i < 32 -> Z.testbit (access_mask size) i = true -> Z.testbit value i = Z.testbit v i)
      /\ (k;; mret (inl 0)) env d
         = (let '(r, d', fx) := transferWord value (access_mask size) env (with_block (set_register dr value) d) in
            (match r with inl _ => inl (inl 0 : MemoryResult Z) | inr e => inr e end, d', fx))) as Hret.
  { intros k (value&Hval&Hbits&E). exists value. split; [done|]. split; [done|]. unfold mbind, Dev_bind. rewrite E.
    destruct (transferWord _ _ _ _) as [[[[]|e] d'] fx]; cbn; by rewrite ?app_nil_r. }
  unfold write. rewrite get_bind. destruct size; [| | |done]; cbn [byteCount]; rewrite Hfit by lia.
  - apply Hret. apply (Hstore (u32 (u32 ((v .>> 0) .& 0xff) .<< 0)) 0xff); [done|apply u32_range|width_lia| |].
    2: { etrans; [|apply bind_skip]. reflexivity. }
    intros i Hi Hm. rewrite Z.shiftl_0_r, Z.shiftr_0_r, !u32_low_bits, Z.land_spec, Hm by lia. by rewrite andb_true_r.
  - apply Hret. apply (Hstore (u32 (u32 ((v .>> 0) .& 0xffff) .<< 0)) 0xffff); [done|apply u32_range|width_lia| |].
    2: { etrans; [|apply bind_skip]. reflexivity. }
    intros i Hi Hm. rewrite Z.shiftl_0_r, Z.shiftr_0_r, !u32_low_bits, Z.land_spec, Hm by lia. by rewrite andb_true_r.
  - apply Hret. apply (Hstore (u32 v) 0xffffffff); [done|apply u32_range|width_lia| |reflexivity].
    intros i Hi Hm. by rewrite u32_low_bits by lia.
Qed.

(** ** The invariant *)

Section invariant.
Context `{SpiTarget}.

Record SpiStreams := mkSpiStreams {
  ss_rx : list Z;
  ss_target : option target_state;
  ss_log : list SpiTransfer;
}.
Definition spi_streams (d : SpiPeripheral) : SpiStreams :=
  mkSpiStreams (sp_receive_bytes d) (sp_transfer_callback d) (sp_transfers d).

Context (echo : bool).
Record at_core (s : SpiStreams) (d : SpiPeripheral) : Prop := mk_at_core {
  sc_block : block_ok (sp_block d);
  sc_size : rb_block_size (sp_block d) = 0x24;
  sc_loop : rb_has_loop (sp_block d) = true;
  sc_bytes : Forall is_u8 (sp_receive_bytes d);
  sc_echo : sp_echo d = echo;
  sc_streams : spi_streams d = s;
}.
(** RXNE tells whether bytes are waiting, TXE is set, and the line follows CR2 and the status. *)
Definition at_status (s : SpiStreams) (d : SpiPeripheral) : Prop :=
  at_core s d /\ has (registerValue sr (sp_block d)) rxne = negb (bool_decide (ss_rx s = []))
  /\ has (registerValue sr (sp_block d)) txe = true.
Definition at_ok (s : SpiStreams) (d : SpiPeripheral) : Prop :=
  at_status s d
  /\ level 0 (sp_block d) = interrupt_pending (registerValue cr2 (sp_block d)) (registerValue sr (sp_block d)).

Lemma spi_core_set w v s d : is_u32 v -> at_core s d -> at_core s (with_block (set_register w v) d).
Proof.
  intros Hv []. constructor; cbn; rewrite ?set_register_size, ?set_register_loop; try done. by apply set_register_ok.
Qed.

Section steps.
Context (env : Env).

Lemma status_bits empty status : has (status_of empty status) rxne = negb empty /\ has (status_of empty status) txe = true.
Proof. unfold status_of, rxne, txe. destruct empty; split; flag_bits; done. Qed.
Lemma status_of_range empty status : is_u32 status -> is_u32 (status_of empty status).
Proof. intros Hs. unfold status_of. assert (is_u32 txe /\ is_u32 rxne) as [? ?] by (split; by vm_compute). u32_auto. Qed.

Lemma spi_updateStatus_runs s : runs_at env (at_core s) updateStatus (fun _ => at_status s).
Proof.
  intros d Hd. unfold updateStatus. rewrite regValue_bind, get_bind. eexists _, _, _. split; [done|].
  pose proof Hd as [Hb Hs _ _ _ Hst]. pose proof (registerValue_range sr _ Hb) as Hr.
  set (v := status_of _ _). assert (is_u32 v) as Hv by by apply status_of_range. split; [by apply spi_core_set|].
  assert (registerValue sr (set_register sr v (sp_block d)) = v) as Es.
  { rewrite registerValue_set; [done|done|by rewrite Hs; split|done]. }
  cbn. rewrite Es. replace (ss_rx s) with (sp_receive_bytes d) by (by rewrite <- Hst). apply status_bits.
Qed.
Lemma spi_level_core v s d : at_core s d -> at_core s (with_block (set_level 0 v) d).
Proof. intros []. constructor; try done. by apply set_level_ok. Qed.

Lemma signalRequests_runs s : runs_at env (at_core s) signalRequests (fun _ => at_ok s).
Proof.
  unfold signalRequests. eapply runs_at_then; [apply spi_updateStatus_runs|]. apply runs_at_reg. intros control.
  apply runs_at_reg. intros status. eapply (runs_at_then _ _ (at_ok s)).
  - apply runs_at_level; [intros d [[Hd Ec] Es] Hl|intros d [[(Hc&Hx&Ht) Ec] Es]|done]; cbn in Ec, Es.
    + split; [done|]. cbn in Hl. by rewrite Hl, Ec, Es.
    + split; [split; [by apply spi_level_core|done]|]. cbn. rewrite level_set_same by (apply Hc || done).
      rewrite !registerValue_level. by rewrite Ec, Es.
  - apply runs_at_any. intros interrupt. eapply runs_at_then; [apply runs_at_if; [apply runs_at_emit|apply runs_at_skip]|].
    apply runs_at_any. intros dma. apply runs_at_if; [|apply runs_at_skip].
    eapply runs_at_then; (apply runs_at_if; [apply runs_at_emit|apply runs_at_skip]).
Qed.

(** ** Transfers *)

(** The answer to a transfer: the target's, the echo, or silence, at the width of the transfer. *)
Definition answer (transmitted : list Z) (s : SpiStreams) : list Z * option target_state :=
  match ss_target s with
  | Some t => let '(received, t) := exchange t transmitted (env_now env) in
              (normalize (length transmitted) received, Some t)
  | None => (normalize (length transmitted) (if echo then transmitted else []), None)
  end.
Definition transfer (transmitted : list Z) (s : SpiStreams) : SpiStreams :=
  let '(received, t) := answer transmitted s in
  mkSpiStreams (ss_rx s ++ received) t (ss_log s ++ [mkSpiTransfer (env_now env) transmitted received]).

Lemma normalize_bytes n l : Forall is_u8 l -> Forall is_u8 (normalize n l).
Proof. intros Hl. apply Forall_take, Forall_app. split; [done|]. apply Forall_replicate. width_lia. Qed.
Lemma normalize_length n l : length (normalize n l) = n.
Proof. unfold normalize. rewrite length_take, length_app, length_replicate. lia. Qed.

Lemma respond_runs tx s d : at_core s d -> Forall is_u8 tx -> ∃ received d' fx,
  respond tx (env_now env) env d = (inl received, d', fx) /\ Forall is_u8 received
  /\ at_core (mkSpiStreams (ss_rx s) (answer tx s).2 (ss_log s)) d' /\ (answer tx s).1 = normalize (length tx) received.
Proof.
  intros [Hb Hs Hl Hq He <-] Htx. unfold respond, answer. cbn [spi_streams ss_target ss_rx ss_log].
  destruct (sp_transfer_callback d) as [t|] eqn:Et.
  - pose proof (exchange_bytes t tx (env_now env)) as Hx. destruct (exchange t tx (env_now env)) as [received t'].
    eexists _, _, _. split; [done|]. split; [done|]. split; [by constructor|done].
  - eexists _, _, _. split; [done|]. rewrite He. split; [by destruct echo|]. split; [|done].
    constructor; try done. unfold spi_streams. by rewrite Et.
Qed.

Lemma transferWord_runs value mask tx s : is_u32 value ->
  tx = ((fun index => u8 ((value .>> (index * 8)) .& 0xff)) <$> seqZ 0 (if has mask 0xffffff00 then 2 else 1)) ->
  runs_at env (at_core s) (transferWord value mask) (fun _ => at_ok (transfer tx s)).
Proof.
  intros Hv Htx d Hd. unfold transferWord. set (n := if has mask 0xffffff00 then 2%nat else 1%nat).
  assert (Z.of_nat n = if has mask 0xffffff00 then 2 else 1) as En by (unfold n; by destruct (has _ _)). rewrite En, <- Htx.
  assert (length tx = n) as Hlen by (rewrite Htx, length_fmap, length_seqZ; unfold n; by destruct (has _ _)).
  assert (Forall is_u8 tx) as Hbytes by (rewrite Htx; apply Forall_fmap, Forall_true; intros x; apply u8_range).
  rewrite regValue_bind, setRegister_bind. set (d1 := with_block _ d).
  pose proof (registerValue_range sr _ (sc_block _ _ Hd)) as Hr.
  assert (at_core s d1) as H1.
  { apply spi_core_set; [|done]. assert (is_u32 bsy) by by vm_compute. u32_auto. }
  rewrite currentTime_bind by apply H1. destruct (respond_runs tx s d1 H1 Hbytes) as (received&d2&fx&E&Hrec&H2&Hans).
  erewrite bind_inl by exact E. rewrite <- Hlen, <- Hans, !modify_bind. clear E. set (d3 := {| _ with sp_transfers := _ |}).
  assert (at_core (transfer tx s) d3) as H3.
  { pose proof (normalize_bytes (length tx) received Hrec) as Hn. rewrite <- Hans in Hn. unfold d3, transfer.
    destruct (answer tx s) as [r t]. cbn in H2, Hn |- *. destruct H2 as [Hb2 Hs2 Hl2 Hq2 He2 Hst2].
    constructor; try done; [by apply Forall_app|]. unfold spi_streams in *. cbn. by injection Hst2 as -> -> ->. }
  assert (runs_at env (at_core (transfer tx s)) (traceEvent "spi_transfer" [("tx", hexBytes tx); ("rx", hexBytes (answer tx s).1)];;
    status ← regValue sr; setRegister sr ((status .& not32 bsy) .| txe);; updateStatus;; signalRequests)
    (fun _ => at_ok (transfer tx s))) as Hrun.
  { eapply runs_at_then; [apply runs_at_trace|]. intros x Hx. rewrite regValue_bind, setRegister_bind.
    pose proof (registerValue_range sr _ (sc_block _ _ Hx)) as Hrx. assert (is_u32 txe) by by vm_compute.
    destruct (spi_updateStatus_runs (transfer tx s) (with_block (set_register sr ((registerValue sr (sp_block x) .& not32 bsy) .| txe)) x))
      as (?&x1&w&Ex&Hx1&_); [apply spi_core_set; [u32_auto|done]|].
    destruct (signalRequests_runs (transfer tx s) x1 Hx1) as (?&x2&w2&Ex2&Hx2). eexists _, _, _.
    erewrite bind_inl by exact Ex. by rewrite Ex2. }
  destruct (Hrun d3 H3) as (a&d4&w&->&H4). by eexists _, _, _.
Qed.

Lemma send_runs size v c s : size <> AccessSize.doubleword ->
  runs_at env (at_ok s) (write dr size v c) (fun _ => at_ok (transfer (tx_bytes size v) s)).
Proof.
  intros Hsize d [[Hd _] _]. destruct (dr_write_hook size v c env d Hsize (sc_block _ _ Hd) (sc_size _ _ Hd)) as (value&Hval&Hbits&->).
  destruct (transferWord_runs value (access_mask size) (tx_bytes size v) s Hval) with (with_block (set_register dr value) d)
    as (a&d'&fx&->&Hd'); [|by apply spi_core_set|by eexists _, _, _].
  assert (∀ k, 0 <= k -> (∀ i, 0 <= i < 8 -> i + k < 32 /\ Z.testbit (access_mask size) (i + k) = true) -> u8 ((value .>> k) .& 0xff) = u8 (v .>> k)) as Hk.
  { intros k Hk Hm. rewrite u8_land_255. apply u8_ext. intros i Hi. destruct (Hm i Hi) as [Hlt Hb].
    rewrite !Z.shiftr_spec by lia. apply Hbits; [lia|done]. }
  assert (∀ m i, m = Z.ones 8 \/ m = Z.ones 16 \/ m = Z.ones 32 -> 0 <= i < 8 -> Z.testbit m i = true) as Hlow
    by (intros m i [-> | [-> | ->]] Hi; apply Z.ones_spec_low; lia).
  assert (∀ m i, m = Z.ones 16 \/ m = Z.ones 32 -> 0 <= i < 8 -> Z.testbit m (i + 8) = true) as Hhigh
    by (intros m i [-> | ->] Hi; apply Z.ones_spec_low; lia).
  assert (u8 ((value .>> (0 * 8)) .& 0xff) = u8 v) as E0.
  { rewrite Hk, Z.shiftr_0_r; [done|done|]. intros i Hi. rewrite Z.add_0_r. split; [lia|].
    apply Hlow; [|done]. by destruct size; auto. }
  assert (size <> AccessSize.byte -> u8 ((value .>> (1 * 8)) .& 0xff) = u8 (v .>> 8)) as E1.
  { intros Hne. rewrite Hk; [done|done|]. intros i Hi. split; [lia|]. apply Hhigh; [|done]. by destruct size; auto. }
  destruct size; [| | |done]; cbn [tx_bytes access_mask].
  - change (if has 0xff 0xffffff00 then 2 else 1) with 1. change (seqZ 0 1) with [0]. cbn [fmap list_fmap]. by rewrite E0.
  - change (if has 0xffff 0xffffff00 then 2 else 1) with 2. change (seqZ 0 2) with [0; 1]. cbn [fmap list_fmap]. by rewrite E0, E1.
  - change (if has 0xffffffff 0xffffff00 then 2 else 1) with 2. change (seqZ 0 2) with [0; 1]. cbn [fmap list_fmap]. by rewrite E0, E1.
Qed.

(** Little-endian value of bytes. *)
Definition le_value (l : list Z) : Z := foldr (fun byte value => byte .| (value .<< 8)) 0 l.
Lemma drain_spec n i l : 0 <= i -> drain n i l = (le_value (take n l) .<< (i * 8), drop n l).
Proof.
  revert i l. induction n as [|n IH]; intros i l Hi; [by cbn; rewrite Z.shiftl_0_l|]. destruct l as [|b l]; [by cbn; rewrite Z.shiftl_0_l|].
  cbn [drain take drop le_value foldr]. rewrite IH by lia. f_equal. fold (le_value (take n l)).
  rewrite Z.shiftl_lor, Z.shiftl_shiftl by lia. do 2 f_equal. lia.
Qed.
Lemma le_value_range l : Forall is_u8 l -> 0 <= le_value l < 2 ^ (8 * Z.of_nat (length l)).
Proof.
  induction 1 as [|b l Hb Hl IH]; [done|]. cbn [le_value foldr length]. fold (le_value l). rewrite Nat2Z.inj_succ.
  replace (8 * Z.succ (Z.of_nat (length l))) with (8 * Z.of_nat (length l) + 8) by lia. rewrite Z.pow_add_r by lia.
  assert (b .| (le_value l .<< 8) = b + le_value l * 2 ^ 8) as ->; [|unfold is_u8 in *; nia].
  rewrite Z.shiftl_mul_pow2 by lia. apply lor_disjoint_add; [exact Hb|lia].
Qed.

Definition recv (n : nat) (s : SpiStreams) : SpiStreams := mkSpiStreams (drop n (ss_rx s)) (ss_target s) (ss_log s).
Lemma recv_runs size c s : size <> AccessSize.doubleword -> runs_at env (at_ok s) (spi_read dr size c)
  (fun r d => r = inl (le_value (take (Z.to_nat (byteCount size)) (ss_rx s))) /\ at_ok (recv (Z.to_nat (byteCount size)) s) d).
Proof.
  intros Hsize d [[Hd _] _]. unfold spi_read. assert (byteCount size <= 4) as H4 by (by destruct size).
  rewrite (proj2 (Z.ltb_ge 4 (byteCount size))) by done. change (negb (dr =? dr) || false) with false. cbv iota. rewrite get_bind.
  set (n := Z.to_nat (byteCount size)). pose proof Hd as [Hb Hs Hl Hq He <-]. cbn [spi_streams ss_rx].
  rewrite drain_spec, Z.shiftl_0_r, modify_bind, setRegister_bind by lia.
  set (d1 := with_block _ _). assert (at_core (recv n (spi_streams d)) d1) as H1.
  { apply spi_core_set; [apply u32_range|]. constructor; try done. cbn. by apply Forall_drop. }
  assert (runs_at env (at_core (recv n (spi_streams d)))
    (updateStatus;; signalRequests;; mret (inl (le_value (take n (sp_receive_bytes d))) : MemoryResult Z))
    (fun r x => r = inl (le_value (take n (sp_receive_bytes d))) /\ at_ok (recv n (spi_streams d)) x)) as Hrun.
  { eapply runs_at_then; [apply spi_updateStatus_runs|]. eapply runs_at_then; [|by apply runs_at_ret].
    eapply runs_at_conseq; [apply signalRequests_runs|by intros x [Hx _]|done]. }
  exact (Hrun d1 H1).
Qed.

(** A status register that is up to date stays as it is. *)
Lemma status_fix empty status : is_u32 status -> has status rxne = negb empty -> has status txe = true ->
  status_of empty status = status.
Proof.
  intros Hs Hr Ht. unfold rxne, txe in *. rewrite has_testbit in Hr, Ht by lia. apply Z.bits_inj'. intros i Hi.
  destruct (Z.lt_ge_cases i 32) as [Hlt|Hge].
  - assert (Z.testbit (1 .<< 0) i = (i =? 0) /\ Z.testbit (1 .<< 1) i = (i =? 1)) as [E0 E1].
    { rewrite !Z.shiftl_mul_pow2, !Z.mul_1_l, !Z.pow2_bits_eqb by lia. split; apply Z.eqb_sym. }
    unfold status_of, rxne, txe. destruct empty; rewrite ?Z.land_spec, ?Z.lor_spec, ?not32_testbit, E0, E1 by lia;
      (destruct (Z.eqb_spec i 0) as [->|]; [|destruct (Z.eqb_spec i 1) as [->|]]); cbn; rewrite ?Hr, ?Ht, ?andb_true_r, ?andb_false_r, ?orb_false_r, ?orb_true_r; done.
  - assert (is_u32 (status_of empty status)) as Hn by by apply status_of_range.
    by rewrite !(high_bits_clear 32 _ i) by (done || width_lia).
Qed.
Lemma status_idle s d : at_ok s d -> updateStatus env d = (inl tt, with_block (set_register sr (registerValue sr (sp_block d))) d, []).
Proof.
  intros [(Hd&Hr&Ht) _]. unfold updateStatus. rewrite regValue_bind, get_bind.
  replace (sp_receive_bytes d) with (ss_rx s) by (by rewrite <- (sc_streams _ _ Hd)).
  rewrite status_fix; [done|apply registerValue_range, Hd|done|done].
Qed.

(** A register that neither the status nor the line depend on, and the status register itself. *)
Lemma ok_set w v s d : 0 <= w -> w <> sr -> w <> cr2 -> is_u32 v -> at_ok s d -> at_ok s (with_block (set_register w v) d).
Proof.
  intros Hw H1 H2 Hv [(Hc&Hr&Ht) Hl]. split; [split; [by apply spi_core_set|]|]; cbn;
    rewrite ?level_set_register, !registerValue_set_ne by done; done.
Qed.
Lemma ok_restore v s d : is_u32 v -> at_ok s d ->
  at_ok s (with_block (set_register sr (registerValue sr (sp_block d))) (with_block (set_register sr v) d)).
Proof.
  intros Hv [(Hc&Hr&Ht) Hl]. pose proof Hc as [Hb Hs _ _ _ _]. pose proof (registerValue_range sr _ Hb).
  assert (∀ x, 0 <= x -> registerValue x (set_register sr (registerValue sr (sp_block d)) (set_register sr v (sp_block d)))
    = registerValue x (sp_block d)) as Hsame.
  { intros x Hx. assert (block_ok (set_register sr v (sp_block d))) by by apply set_register_ok.
    assert (register_of (rb_block_size (sp_block d)) sr) as Hsr by (rewrite Hs; by split).
    rewrite !registerValue_set; [|done|by rewrite ?set_register_size..]. by case_eqb; subst. }
  split; [split; [apply spi_core_set; [done|by apply spi_core_set]|]|]; cbn; rewrite ?level_set_register, !Hsame by done; done.
Qed.

Lemma spi_load_runs w c s : register_of 0x24 w -> w <> dr -> runs_at env (at_ok s) (spi_read w AccessSize.word c)
  (fun r d => at_ok s d /\ (w = sr -> ∃ v, r = inl v /\ has v rxne = negb (bool_decide (ss_rx s = [])))).
Proof.
  intros Hw Hne d Hd. pose proof Hd as [(Hc&Hr&Ht) Hl]. unfold spi_read. rewrite (proj2 (Z.eqb_neq w dr)) by done. cbn [negb orb].
  destruct (register_fits 0x24 w (sp_block d) (sc_size _ _ Hc) eq_refl Hw) as (Ha&Hw0&Hfit). rewrite read_word by done.
  cbn [loadRegister spi_hooks]. unfold spi_loadRegister. rewrite (bind_inl _ _ _ _ _ _ _ (status_idle s d Hd)).
  pose proof (registerValue_range sr _ (sc_block _ _ Hc)) as Hv.
  assert (at_ok s (with_block (set_register sr (registerValue sr (sp_block d))) d)) as Hd'.
  { pose proof (registerValue_set sr sr (registerValue sr (sp_block d)) _ (sc_block _ _ Hc)) as Es.
    assert (register_of (rb_block_size (sp_block d)) sr) as Hsr by (rewrite (sc_size _ _ Hc); by split).
    specialize (Es Hsr ltac:(done)). rewrite Z.eqb_refl in Es.
    split; [split; [by apply spi_core_set|]|]; cbn; rewrite ?level_set_register, Es, ?registerValue_set_ne by done; done. }
  eexists _, _, _. split; [done|]. split; [done|]. intros ->. eexists. split; [done|]. apply Hd'.
Qed.

Lemma spi_store_runs w v c s : register_of 0x24 w -> w <> dr -> is_u32 v ->
  runs_at env (at_ok s) (write w AccessSize.word v c) (fun _ => at_ok s).
Proof.
  intros Hw Hne Hv d Hd. pose proof Hd as [(Hc&_) _].
  destruct (register_fits 0x24 w (sp_block d) (sc_size _ _ Hc) eq_refl Hw) as (Ha&Hw0&Hfit).
  rewrite write_word by (done || apply Hc). rewrite u32_small by done. cbn [block spi_has_block storeRegister spi_hooks].
  unfold spi_storeRegister. rewrite (proj2 (Z.eqb_neq w dr)) by done.
  destruct (Z.eqb_spec w sr) as [->|Hsr]; [eexists _, _, _; split; [done|]; by apply ok_restore|].
  destruct (Z.eqb_spec w cr2) as [->|Hcr]; [|eexists _, _, _; split; [done|]; by apply ok_set].
  destruct (signalRequests_runs s (with_block (set_register cr2 v) d)) as (a&d'&fx&->&Hd'); [by apply spi_core_set|by eexists _, _, _].
Qed.
End steps.
End invariant.

(** ** Runs of timed operations *)

Inductive SpiOp :=
  | spi_send (size : AccessSize.t) (v : Z)     (* a write to DR *)
  | spi_recv (size : AccessSize.t)             (* a read of DR *)
  | spi_load (w : Z)
  | spi_store (w v : Z).

Section runs.
Context `{SpiTarget} (c : AccessContext) (env : Env) (echo : bool).

Definition spi_op (o : SpiOp) : Dev SpiPeripheral (list Z) :=
  match o with
  | spi_send size v => _ ← write dr size v c; mret []
  | spi_recv size => r ← spi_read dr size c; mret (match r with inl v => [v] | inr _ => [] end)
  | spi_load w => _ ← spi_read w AccessSize.word c; mret []
  | spi_store w v => _ ← write w AccessSize.word v c; mret []
  end.
(** The values that the firmware reads from DR. *)
Fixpoint spi_drive (ops : list (Z * SpiOp)) (d : SpiPeripheral) : option (list Z * SpiPeripheral) :=
  match ops with
  | [] => Some ([], d)
  | (t, o) :: ops =>
      match spi_op o (at_time t env) d with
      | (inl out, d, _) => '(out', d) ← spi_drive ops d; Some (out ++ out', d)
      | (inr _, _, _) => None
      end
  end.

(** The specification: every DR write exchanges bytes with the target, every DR read takes the oldest answers. *)
Definition spi_stream_op (t : Z) (o : SpiOp) (s : SpiStreams) : list Z * SpiStreams :=
  match o with
  | spi_send size v => ([], transfer echo (at_time t env) (tx_bytes size v) s)
  | spi_recv size =>
      let n := Z.to_nat (byteCount size) in ([le_value (take n (ss_rx s))], recv n s)
  | spi_load _ | spi_store _ _ => ([], s)
  end.
Fixpoint spi_stream_drive (ops : list (Z * SpiOp)) (s : SpiStreams) : list Z * SpiStreams :=
  match ops with
  | [] => ([], s)
  | (t, o) :: ops =>
      let '(out, s) := spi_stream_op t o s in
      let '(out', s) := spi_stream_drive ops s in (out ++ out', s)
  end.

Definition spi_op_valid (x : Z * SpiOp) : Prop :=
  match x.2 with
  | spi_send size _ | spi_recv size => size <> AccessSize.doubleword
  | spi_load w => register_of 0x24 w /\ w <> dr
  | spi_store w v => register_of 0x24 w /\ w <> dr /\ is_u32 v
  end.

Lemma spi_op_runs t o s : spi_op_valid (t, o) ->
  runs_at (at_time t env) (at_ok echo s) (spi_op o) (fun out d => out = (spi_stream_op t o s).1 /\ at_ok echo (spi_stream_op t o s).2 d).
Proof.
  intros Ho. cbn in Ho. destruct o as [size v|size|w|w v]; cbn [spi_op spi_stream_op fst snd].
  - eapply runs_at_bind; [by apply send_runs|]. intros r. by apply runs_at_ret.
  - eapply runs_at_bind; [by apply recv_runs|]. intros r. apply runs_at_ret. by intros d [-> Hd].
  - destruct Ho as [Hw Hne]. eapply runs_at_bind; [by apply spi_load_runs|]. intros r. apply runs_at_ret. by intros d [Hd _].
  - destruct Ho as (Hw&Hne&Hv). eapply runs_at_bind; [by apply spi_store_runs|]. intros r. by apply runs_at_ret.
Qed.
Lemma spi_drive_runs ops : Forall spi_op_valid ops -> ∀ s d, at_ok echo s d ->
  ∃ d', spi_drive ops d = Some ((spi_stream_drive ops s).1, d') /\ at_ok echo (spi_stream_drive ops s).2 d'.
Proof.
  induction 1 as [|[t o] ops Ho Hops IH]; intros s d Hd; cbn [spi_drive spi_stream_drive]; [by exists d|].
  destruct (spi_op_runs t o s Ho d Hd) as (out&d1&fx&->&->&H1).
  destruct (spi_stream_op t o s) as [out1 s1]. cbn [fst snd] in H1 |- *.
  destruct (IH s1 d1 H1) as (d'&->&H'). destruct (spi_stream_drive ops s1) as [out2 s2]. by exists d'.
Qed.

(** A constructed device, after [setEcho] and [setTransferCallback]. *)
Lemma spi_new_ok name trace t : at_ok echo (mkSpiStreams [] t [])
  ({| (setEcho echo (spi_new name true trace env)) with sp_transfer_callback := t |}).
Proof.
  set (b := setResetValue sr txe (block_init name 0x24 true trace)).
  assert (block_ok b) as Hb by (apply setResetValue_ok; [apply block_init_ok; lia|by vm_compute]).
  set (I d := at_core false (mkSpiStreams [] None []) d /\ registerValue sr (sp_block d) = txe /\ registerValue cr2 (sp_block d) = 0
    /\ level 0 (sp_block d) = false).
  assert (I (spi_new name true trace env)) as ([Hb' Hs' Hl' Hq' He' Hst']&Hsr&Hcr&Hlev).
  { apply (construct_block I).
    - split_and!; try done. constructor; try done. by apply reset_registers_ok.
    - intros line d ([]&Hsr&Hcr&Hlev). split_and!; try done; [constructor; try done; by apply set_level_ok|].
      cbn. unfold level, set_level. cbn. destruct (decide (Z.to_nat line = 0%nat)) as [->|Hne].
      + rewrite list_lookup_insert_eq; [done|]. rewrite (ok_levels _ sc_block0). lia.
      + by rewrite list_lookup_insert_ne by done.
    - cbn [onReset spi_hooks]. eapply holds_bind; [apply holds_modify|].
      { intros d (Hc&Hsr&Hcr&Hlev). split_and!; try done. destruct Hc. constructor; try done. unfold spi_streams in sc_streams0 |- *. cbn. by injection sc_streams0 as _ -> ->. }
      intros _ _. apply holds_modify. intros d (Hc&Hsr&Hcr&Hlev). pose proof Hc as [Hbd Hsd _ _ _ _].
      split_and!; [by apply spi_core_set; [by vm_compute|]|..]; cbn.
      + rewrite registerValue_set; [done|done|rewrite Hsd; by split|done].
      + by rewrite registerValue_set_ne.
      + by rewrite level_set_register. }
  split; [split|]; cbn -[Z.shiftl]; [|by rewrite Hsr|by rewrite Hsr, Hcr, Hlev].
  by constructor.
Qed.
End runs.
