(* ===== verification/Adc.v ===== *)
(** * ADC

    Models [AdcPeripheral] and [AdcCommonPeripheral] ([src/stm32g4/adc.cpp] and the classes of
    [include/fil/stm32g4/peripheral.hpp]).  The installed [ChannelProvider] is a function of the
    channel and the time: the class [AnalogInput].  The callbacks of the conversion event are
    programs of their own, run by the event loop at the deadline.  The members of the common
    block are shared objects: the model of the common block holds them. *)

From stdpp Require Import pretty.
From S2P Require Import Prelude Address CpuState CpuStateProofs Common Trace Peripheral PeripheralProofs.
From S2P Require Import Timing Watchdog.
#[local] Open Scope Z_scope.
#[local] Open Scope fil_scope.

(** The external signal on a channel. *)
Class AnalogInput := {
  analog : Z -> Z -> Z;
  analog_range channel time_ns : is_u16 (analog channel time_ns);
}.

Record AdcSample := mkAdcSample {
  as_time_ns : Z;
  as_channel : Z;
  as_value : Z;
}.

Module Adc.
Definition isr : Z := 0x00.
Definition ier : Z := 0x04.
Definition cr : Z := 0x08.
Definition cfgr : Z := 0x0c.
Definition smpr1 : Z := 0x14.
Definition smpr2 : Z := 0x18.
Definition sqr1 : Z := 0x30.
Definition sqr2 : Z := 0x34.
Definition sqr3 : Z := 0x38.
Definition sqr4 : Z := 0x3c.
Definition dr : Z := 0x40.
Definition adrdy : Z := 1 .<< 0.
Definition eoc : Z := 1 .<< 2.
Definition eos : Z := 1 .<< 3.
Definition aden : Z := 1 .<< 0.
Definition addis : Z := 1 .<< 1.
Definition adstart : Z := 1 .<< 2.
Definition adcal : Z := 1 .<< 31.
Definition continuous : Z := 1 .<< 13.

Module ConversionState.
Inductive t := idle | scheduled | lazy | skipped_gap | lazy_gap | suspended | suspended_gap.
#[global] Instance eq_dec : EqDecision t.
Proof. solve_decision. Defined.
End ConversionState.

Record AdcPeripheral := mkAdc {
  ad_block : RegBlock;
  ad_channel_values : list Z;
  ad_channel_overrides : list bool;
  ad_channel_provider : bool;
  ad_sample_callback : bool;
  ad_interrupt_callback : bool;
  ad_certified_provider : bool;
  ad_certified_sample_callback : bool;
  ad_owner_local_guard : bool;
  ad_certified_interrupt_generation : Z;
  ad_input_clock_hz : Z;
  ad_conversion_delay_override_ns : Z;
  ad_sequence_rank : Z;
  ad_decimation : Z;
  ad_scan_index : Z;
  ad_skip_scan : bool;
  ad_conversion_event : ScheduledEvent;
  ad_next_conversion_ns : option Z;
  ad_suspended_conversion_cycles : Z;
  ad_suspended_override_ns : Z;
  ad_reset_held : bool;
  ad_conversion_state : ConversionState.t;
  ad_skipped_scan_count : Z;
  ad_sample_history_enabled : bool;
  ad_samples : list AdcSample;
}.
#[global] Instance adc_has_block : HasBlock AdcPeripheral :=
  {| block := ad_block; with_block f d := {| d with ad_block := f (ad_block d) |} |}.
#[global] Instance adc_has_block_laws : HasBlockLaws AdcPeripheral.
Proof. constructor; [done|]. intros f g [] E. cbn in *. by rewrite E. Qed.

(** *** Queries *)

Definition conversionEventArmed (d : AdcPeripheral) : bool :=
  match ad_conversion_state d with ConversionState.scheduled | ConversionState.skipped_gap => true | _ => false end.
Definition conversionIsGap (d : AdcPeripheral) : bool :=
  match ad_conversion_state d with
  | ConversionState.skipped_gap | ConversionState.lazy_gap | ConversionState.suspended_gap => true | _ => false
  end.

Definition sequenceLength (b : RegBlock) : Z := Z.min ((registerValue sqr1 b .& 0x0f) + 1) 16.
Definition channelForRank (rank : Z) (b : RegBlock) : Z :=
  let '(sequence_register, shift) :=
    if 14 <=? rank then (sqr4, 6 * (rank - 14))
    else if 9 <=? rank then (sqr3, 6 * (rank - 9))
    else if 4 <=? rank then (sqr2, 6 * (rank - 4))
    else (sqr1, 6 + 6 * rank) in
  let channel := (registerValue sequence_register b .>> shift) .& 0x1f in
  if channel <? 20 then channel else 0.

Definition sample_half_cycles : list Z := [5; 13; 25; 49; 95; 185; 495; 1281].
Definition conversion_half_cycles : list Z := [25; 21; 17; 13].
Definition conversionCycleBudget (rank : Z) (b : RegBlock) : Z :=
  let channel := channelForRank rank b in
  let sample_register := if channel <=? 9 then smpr1 else smpr2 in
  let sample_shift := 3 * (if channel <=? 9 then channel else channel - 10) in
  let sample_selector := (registerValue sample_register b .>> sample_shift) .& 0x7 in
  let resolution := (registerValue cfgr b .>> 3) .& 0x3 in
  let sample_plus := if sample_selector =? 0 then ((registerValue smpr1 b .>> 31) .& 1) * 2 else 0 in
  (default 0 (sample_half_cycles !! Z.to_nat sample_selector)
   + default 0 (conversion_half_cycles !! Z.to_nat resolution) + sample_plus) * 500000000.
Definition conversionDelayForRank (rank : Z) (d : AdcPeripheral) : Z :=
  if negb (ad_conversion_delay_override_ns d =? 0) then ad_conversion_delay_override_ns d
  else if ad_input_clock_hz d =? 0 then max_u64
  else Z.max (u64 (conversionCycleBudget rank (ad_block d) + ad_input_clock_hz d - 1) / ad_input_clock_hz d) 1.

Definition continuousMode (b : RegBlock) : bool := has (registerValue cfgr b) continuous.
Definition started (b : RegBlock) : bool := has (registerValue cr b) adstart.
Definition conversionObservable (env : Env) (d : AdcPeripheral) : bool :=
  has (registerValue ier (ad_block d)) (eoc .| eos) || ad_sample_callback d || trace_enabled env (ad_block d)
  || ad_sample_history_enabled d.
Definition lazyConversionEligible (env : Env) (d : AdcPeripheral) : bool :=
  rb_has_loop (ad_block d) && (sequenceLength (ad_block d) =? 1) && continuousMode (ad_block d) && started (ad_block d)
  && negb (conversionObservable env d).

(** [ownerLocalTrusted] with the result of the installed guard. *)
Definition ownerLocalTrusted (guard : bool) (env : Env) (d : AdcPeripheral) : bool :=
  ad_certified_sample_callback d && ad_certified_provider d && negb (ad_interrupt_callback d)
  && negb (traceObserverActive env (ad_block d))
  && (ad_certified_interrupt_generation d =? rb_level_callback_generation (ad_block d))
  && ad_owner_local_guard d && guard.

(** *** Setters of single members *)

Definition set_next (x : option Z) : Dev AdcPeripheral unit :=
  modify (fun d : AdcPeripheral => {| d with ad_next_conversion_ns := x |}).
Definition set_conversion_state (x : ConversionState.t) : Dev AdcPeripheral unit :=
  modify (fun d : AdcPeripheral => {| d with ad_conversion_state := x |}).
Definition set_rank (x : Z) : Dev AdcPeripheral unit :=
  modify (fun d : AdcPeripheral => {| d with ad_sequence_rank := x |}).
Definition set_scan_index (x : Z) : Dev AdcPeripheral unit :=
  modify (fun d : AdcPeripheral => {| d with ad_scan_index := x |}).
Definition set_skip_scan (x : bool) : Dev AdcPeripheral unit :=
  modify (fun d : AdcPeripheral => {| d with ad_skip_scan := x |}).
Definition set_skipped_count (x : Z) : Dev AdcPeripheral unit :=
  modify (fun d : AdcPeripheral => {| d with ad_skipped_scan_count := x |}).
Definition set_clock (x : Z) : Dev AdcPeripheral unit :=
  modify (fun d : AdcPeripheral => {| d with ad_input_clock_hz := x |}).
Definition set_suspended_cycles (x : Z) : Dev AdcPeripheral unit :=
  modify (fun d : AdcPeripheral => {| d with ad_suspended_conversion_cycles := x |}).
Definition set_suspended_override (x : Z) : Dev AdcPeripheral unit :=
  modify (fun d : AdcPeripheral => {| d with ad_suspended_override_ns := x |}).
Definition with_event (f : ScheduledEvent -> ScheduledEvent) (d : AdcPeripheral) : AdcPeripheral :=
  {| d with ad_conversion_event := f (ad_conversion_event d) |}.

(** *** Scheduling *)

(** [ScheduledEvent::scheduleOwnerLocalBuiltinAt] with the loop of the device. *)
Definition scheduleOwnerLocalBuiltinAt (at_ns : Z) : Dev AdcPeripheral unit :=
  cancel with_event;;
  loop ← get (fun d => rb_has_loop (ad_block d));
  if (loop : bool) then
    now ← ask env_now;
    if at_ns <? now then throw "cannot schedule a simulation event in the past"
    else modify (with_event (fun _ => Some at_ns))
  else skip.
Definition scheduleConversionEvent : Dev AdcPeripheral unit :=
  next ← get ad_next_conversion_ns;
  loop ← get (fun d => rb_has_loop (ad_block d));
  match next with
  | Some next =>
      if (loop : bool) then
        state ← get ad_conversion_state;
        match state with
        | ConversionState.skipped_gap | ConversionState.scheduled => scheduleOwnerLocalBuiltinAt next
        | _ => skip
        end
      else skip
  | None => skip
  end.

Definition gap_or (gap : bool) (x y : ConversionState.t) : ConversionState.t := if gap then x else y.
Definition refreshConversionScheduling : Dev AdcPeripheral unit :=
  state ← get ad_conversion_state;
  match state with
  | ConversionState.idle | ConversionState.suspended | ConversionState.suspended_gap => skip
  | _ =>
      next ← get ad_next_conversion_ns;
      match next with
      | None => skip
      | Some _ =>
          gap ← get conversionIsGap;
          eligible ← (fun env d => (inl (lazyConversionEligible env d), d, []));
          loop ← get (fun d => rb_has_loop (ad_block d));
          if (eligible : bool) then
            cancel with_event;;
            set_conversion_state (gap_or gap ConversionState.lazy_gap ConversionState.lazy)
          else if negb loop then set_conversion_state (gap_or gap ConversionState.lazy_gap ConversionState.lazy)
          else
            set_conversion_state (gap_or gap ConversionState.skipped_gap ConversionState.scheduled);;
            armed ← get (fun d => pending (ad_conversion_event d));
            if (armed : bool) then skip else scheduleConversionEvent
      end
  end.
Definition armNextConversion (completion_time : Z) : Dev AdcPeripheral unit :=
  set_next (Some completion_time);;
  set_conversion_state ConversionState.scheduled;;
  refreshConversionScheduling.
Definition cancelConversion : Dev AdcPeripheral unit :=
  cancel with_event;;
  set_suspended_cycles 0;;
  set_suspended_override 0;;
  set_next None;;
  set_skipped_count 0;;
  set_conversion_state ConversionState.idle.

(** *** Conversions *)

Definition refresh_level : Dev AdcPeripheral unit :=
  enable ← regValue ier;
  status ← regValue isr;
  setInterruptLevel 0 (has (enable .& status) (eoc .| eos)).

Section device.
Context `{AnalogInput}.

Definition channel_value (channel completion_time : Z) (d : AdcPeripheral) : Z :=
  if default false (ad_channel_overrides d !! Z.to_nat channel) || negb (ad_channel_provider d)
  then default 0 (ad_channel_values d !! Z.to_nat channel) else analog channel completion_time.

Definition materializeConversion (completion_time : Z) (observable : bool) : Dev AdcPeripheral unit :=
  rank ← get ad_sequence_rank;
  channel ← get (fun d => channelForRank rank (ad_block d));
  value ← get (channel_value channel completion_time);
  setRegister dr value;;
  complete ← get (fun d => sequenceLength (ad_block d) <=? rank + 1);
  status ← regValue isr;
  setRegister isr (status .| eoc .| (if (complete : bool) then eos else 0));;
  refresh_level;;
  history ← get ad_sample_history_enabled;
  (if observable && history
   then modify (fun d : AdcPeripheral => {| d with ad_samples := ad_samples d ++ [mkAdcSample completion_time channel value] |})
   else skip);;
  traced ← (fun env d => (inl (trace_enabled env (ad_block d) && trace_passes "adc_sample" env (ad_block d)), d, []));
  (if observable && traced then traceEvent "adc_sample" [("channel", pretty channel); ("value", pretty value)] else skip);;
  callback ← get ad_sample_callback;
  (if observable && callback then emit (fx_adc_sample completion_time channel value) else skip);;
  enabled_interrupts ← regValue ier;
  interrupt ← get ad_interrupt_callback;
  if observable && interrupt && (has enabled_interrupts eoc || has enabled_interrupts eos)
  then emit fx_interrupt_request else skip.

(** Arming after [delay] from now, or the overflow error. *)
Definition arm_after (delay : Z) : Dev AdcPeripheral unit :=
  now ← currentTime;
  if max_u64 - now <? delay then throw "ADC conversion time overflow" else armNextConversion (now + delay).

(** The period of a scan and whether it is representable. *)
Definition scan_period (length : Z) (d : AdcPeripheral) : bool * Z :=
  foldl (fun '(representable, period) rank =>
           if (representable : bool) then
             let delay := conversionDelayForRank rank d in
             (delay <=? max_u64 - period, u64 (period + delay))
           else (false, period)) (true, 0) (seqZ 0 length).
Definition armSkippedScans (count : Z) : Dev AdcPeripheral unit :=
  now ← currentTime;
  length ← get (fun d => sequenceLength (ad_block d));
  '(representable, period) ← get (scan_period length);
  let representable := (0 <? length) && (0 <? count) && representable && (0 <? period)
    && (count <=? max_u64 / period) && (count * period <=? max_u64 - now) in
  loop ← get (fun d => rb_has_loop (ad_block d));
  if negb representable || negb loop then
    delay ← get (conversionDelayForRank 0);
    armNextConversion (u64 (now + delay))
  else
    set_next (Some (now + count * period));;
    set_conversion_state ConversionState.skipped_gap;;
    set_skipped_count count;;
    refreshConversionScheduling.

Definition stop_conversion : Dev AdcPeripheral unit :=
  control ← regValue cr;
  setRegister cr (control .& not32 adstart);;
  set_conversion_state ConversionState.idle.
Definition beginNextScan : Dev AdcPeripheral unit :=
  set_rank 0;;
  running ← get (fun d => continuousMode (ad_block d) && started (ad_block d));
  if negb running then stop_conversion
  else
    clock ← get ad_input_clock_hz;
    if clock =? 0 then set_conversion_state ConversionState.idle
    else
      decimation ← get ad_decimation;
      scan_index ← get ad_scan_index;
      let upcoming := scan_index mod decimation in
      if (1 <? decimation) && negb (upcoming =? 0) then
        set_skip_scan true;;
        armSkippedScans (decimation - upcoming)
      else
        set_skip_scan false;;
        delay ← get (conversionDelayForRank 0);
        arm_after delay.

Definition completeConversion : Dev AdcPeripheral unit :=
  rank ← get ad_sequence_rank;
  sequence_complete ← get (fun d => sequenceLength (ad_block d) <=? rank + 1);
  decimated ← get (fun d => continuousMode (ad_block d) && (1 <? ad_decimation d));
  (if decimated && (rank =? 0)
   then modify (fun d : AdcPeripheral => {| d with ad_skip_scan := negb (ad_scan_index d mod ad_decimation d =? 0) |}) else skip);;
  skip_scan ← get ad_skip_scan;
  now ← currentTime;
  (if decimated && skip_scan then skip else materializeConversion now true);;
  set_rank (if (sequence_complete : bool) then 0 else u32 (rank + 1));;
  if (sequence_complete : bool) then
    modify (fun d : AdcPeripheral => {| d with ad_scan_index := u64 (ad_scan_index d + 1) |});;
    beginNextScan
  else
    clock ← get ad_input_clock_hz;
    if clock =? 0 then skip
    else
      running ← get (fun d => started (ad_block d));
      if (running : bool) then
        rank ← get ad_sequence_rank;
        delay ← get (conversionDelayForRank rank);
        arm_after delay
      else stop_conversion.

Definition completeSkippedScans (skipped : Z) : Dev AdcPeripheral unit :=
  set_conversion_state ConversionState.idle;;
  set_skipped_count 0;;
  set_rank 0;;
  modify (fun d : AdcPeripheral => {| d with ad_scan_index := u64 (ad_scan_index d + skipped) |});;
  beginNextScan.

(** The callbacks of [conversion_event_]. *)
Definition conversionEventThunk : Dev AdcPeripheral unit :=
  modify (with_event (fun _ => None));;
  set_next None;;
  set_conversion_state ConversionState.idle;;
  completeConversion.
Definition skippedScanEventThunk : Dev AdcPeripheral unit :=
  modify (with_event (fun _ => None));;
  skipped ← get ad_skipped_scan_count;
  set_next None;;
  set_conversion_state ConversionState.idle;;
  completeSkippedScans skipped.

Definition startConversion : Dev AdcPeripheral unit :=
  cancelConversion;;
  set_rank 0;;
  set_scan_index 0;;
  set_skip_scan false;;
  clock ← get ad_input_clock_hz;
  if clock =? 0 then
    override ← get ad_conversion_delay_override_ns;
    budget ← get (fun d => conversionCycleBudget 0 (ad_block d));
    (if negb (override =? 0) then set_suspended_override override else set_suspended_cycles budget);;
    set_conversion_state ConversionState.suspended
  else
    loop ← get (fun d => rb_has_loop (ad_block d));
    if negb loop then
      now ← currentTime;
      materializeConversion now true;;
      control ← regValue cr;
      setRegister cr (control .& not32 adstart)
    else
      delay ← get (conversionDelayForRank 0);
      arm_after delay.

(** Conversions that elapsed without an event. *)
Definition synchronizeLazyConversions : Dev AdcPeripheral unit :=
  state ← get ad_conversion_state;
  next ← get ad_next_conversion_ns;
  now ← currentTime;
  match state, next with
  | ConversionState.lazy_gap, Some next =>
      if now <? next then skip
      else
        skipped ← get ad_skipped_scan_count;
        set_next None;;
        completeSkippedScans skipped
  | ConversionState.lazy, Some next =>
      if now <? next then skip
      else
        delay ← get (conversionDelayForRank 0);
        if delay =? 0 then skip
        else
          let latest := next + (now - next) / delay * delay in
          materializeConversion latest false;;
          (if max_u64 - delay <? latest then set_next None;; set_conversion_state ConversionState.idle
           else set_next (Some (latest + delay)))
  | _, _ => skip
  end.

(** *** Registers *)

Definition adc_loadRegister (word_offset : Z) (c : AccessContext) : Dev AdcPeripheral Z :=
  value ← regValue word_offset;
  if word_offset =? dr then
    status ← regValue isr;
    setRegister isr (status .& not32 eoc);;
    refresh_level;;
    mret value
  else mret value.

Definition store_control (value : Z) : Dev AdcPeripheral unit :=
  (if has value adcal then traceEvent "adc_calibrated" [] else skip);;
  let control := if has value adcal then value .& not32 adcal else value in
  (if has control addis then
     status ← regValue isr;
     setRegister isr (status .& not32 adrdy);;
     cancelConversion
   else skip);;
  let control := if has control addis then control .& not32 (addis .| aden .| adstart) else control in
  (if has control aden then status ← regValue isr; setRegister isr (status .| adrdy) else skip);;
  setRegister cr control;;
  if has control adstart then startConversion else skip.

Definition adc_storeRegister (word_offset previous value write_mask : Z) (c : AccessContext) : Dev AdcPeripheral unit :=
  held ← get ad_reset_held;
  if (held : bool) then setRegister word_offset previous
  else if word_offset =? isr then
    setRegister isr (previous .& not32 (value .& write_mask));;
    refresh_level
  else if word_offset =? ier then
    status ← regValue isr;
    setInterruptLevel 0 (has (value .& status) (eoc .| eos))
  else if word_offset =? dr then setRegister dr previous
  else if word_offset =? cr then store_control value
  else skip.

Definition adc_onReset : Dev AdcPeripheral unit :=
  cancelConversion;;
  modify (fun d : AdcPeripheral => {| d with ad_samples := [] |});;
  set_rank 0;;
  set_scan_index 0;;
  set_skip_scan false.
#[global] Instance adc_hooks : RegisterHooks AdcPeripheral :=
  {| loadRegister := adc_loadRegister; storeRegister := adc_storeRegister; onReset := adc_onReset |}.

(** [AdcPeripheral::read] and [write]. *)
Definition adc_read (offset : Z) (size : AccessSize.t) (c : AccessContext) : Dev AdcPeripheral (MemoryResult Z) :=
  synchronizeLazyConversions;;
  read offset size c.
Definition adc_write (offset : Z) (size : AccessSize.t) (value : Z) (c : AccessContext) : Dev AdcPeripheral (MemoryResult Z) :=
  synchronizeLazyConversions;;
  result ← write offset size value c;
  match result with
  | inl _ => refreshConversionScheduling;; mret result
  | inr _ => mret result
  end.

(** *** Inputs and callbacks *)

Definition setChannelValue (channel value : Z) : Dev AdcPeripheral unit :=
  synchronizeLazyConversions;;
  if channel <? 20 then
    modify (fun d : AdcPeripheral =>
      {| d with ad_channel_values := <[Z.to_nat channel := Z.min value 0x0fff]> (ad_channel_values d);
                ad_channel_overrides := <[Z.to_nat channel := true]> (ad_channel_overrides d) |})
  else skip.
Definition setChannelProvider (present : bool) : Dev AdcPeripheral unit :=
  synchronizeLazyConversions;;
  modify (fun d : AdcPeripheral => {| d with ad_certified_provider := false; ad_channel_provider := present |}).
Definition setCertifiedChannelProvider (present : bool) : Dev AdcPeripheral unit :=
  synchronizeLazyConversions;;
  modify (fun d : AdcPeripheral => {| d with ad_certified_provider := true; ad_channel_provider := present |});;
  refreshConversionScheduling.
Definition setSampleCallback (present : bool) : Dev AdcPeripheral unit :=
  synchronizeLazyConversions;;
  modify (fun d : AdcPeripheral =>
    {| d with ad_sample_callback := present; ad_certified_sample_callback := false; ad_owner_local_guard := false |});;
  refreshConversionScheduling.
Definition setCertifiedSampleCallback (present guard : bool) : Dev AdcPeripheral unit :=
  synchronizeLazyConversions;;
  modify (fun d : AdcPeripheral =>
    {| d with ad_sample_callback := present; ad_owner_local_guard := guard; ad_certified_sample_callback := true;
              ad_certified_interrupt_generation := rb_level_callback_generation (ad_block d) |});;
  refreshConversionScheduling.
Definition setInterruptCallback (present : bool) : Dev AdcPeripheral unit :=
  synchronizeLazyConversions;;
  modify (fun d : AdcPeripheral => {| d with ad_interrupt_callback := present; ad_certified_sample_callback := false |});;
  refresh_level;;
  refreshConversionScheduling.
Definition setSampleHistoryEnabled (enabled : bool) : Dev AdcPeripheral unit :=
  synchronizeLazyConversions;;
  modify (fun d : AdcPeripheral => {| d with ad_sample_history_enabled := enabled |});;
  refreshConversionScheduling.
Definition setConversionDelay (delay_ns : Z) (d : AdcPeripheral) : AdcPeripheral :=
  {| d with ad_conversion_delay_override_ns := delay_ns |}.
Definition setDecimation (factor : Z) (d : AdcPeripheral) : AdcPeripheral :=
  {| d with ad_decimation := if factor =? 0 then 1 else factor |}.
Definition setResetHeld (asserted : bool) : Dev AdcPeripheral unit :=
  held ← get ad_reset_held;
  if Bool.eqb held asserted then skip
  else
    modify (fun d : AdcPeripheral => {| d with ad_reset_held := asserted |});;
    if asserted then reset else skip.

(** *** Clock changes *)

(** Stopping the clock holds the remaining progress. *)
Definition suspend_clock : Dev AdcPeripheral unit :=
  next ← get ad_next_conversion_ns;
  gap ← get conversionIsGap;
  match next with
  | Some next =>
      now ← currentTime;
      override ← get ad_conversion_delay_override_ns;
      clock ← get ad_input_clock_hz;
      let remaining_ns := if now <? next then next - now else 0 in
      if negb (override =? 0) then set_suspended_override remaining_ns
      else if max_u64 / clock <? remaining_ns then throw "ADC suspended-cycle count overflow"
      else set_suspended_cycles (remaining_ns * clock)
  | None => skip
  end;;
  cancel with_event;;
  set_next None;;
  set_clock 0;;
  set_conversion_state (match next with
                        | Some _ => gap_or gap ConversionState.suspended_gap ConversionState.suspended
                        | None => ConversionState.idle
                        end).

(** [product / clock] rounded up, at least 1. *)
Definition ceil_delay (product clock : Z) : Z :=
  Z.max (product / clock + (if negb (product mod clock =? 0) then 1 else 0)) 1.
(** The deadline after a clock change, if it moves. *)
Definition rescheduled_time (next_hz : Z) : Dev AdcPeripheral (option Z) :=
  now ← currentTime;
  previous_hz ← get ad_input_clock_hz;
  suspended_override ← get ad_suspended_override_ns;
  suspended_cycles ← get ad_suspended_conversion_cycles;
  next ← get ad_next_conversion_ns;
  override ← get ad_conversion_delay_override_ns;
  if negb (suspended_override =? 0) then
    if max_u64 - now <? suspended_override then throw "ADC conversion time overflow during override resume"
    else set_suspended_override 0;; mret (Some (now + suspended_override))
  else if negb (suspended_cycles =? 0) then
    let delay := ceil_delay suspended_cycles next_hz in
    if max_u64 - now <? delay then throw "ADC conversion time overflow during clock resume"
    else set_suspended_cycles 0;; mret (Some (now + delay))
  else
    match next with
    | Some next =>
        if override =? 0 then
          let remaining_ns := if now <? next then next - now else 0 in
          if max_u64 / previous_hz <? remaining_ns then throw "ADC clock reschedule multiplication overflow"
          else
            let product := remaining_ns * previous_hz in
            if negb (product mod next_hz =? 0) && (product / next_hz =? max_u64)
            then throw "ADC clock reschedule rounding overflow"
            else
              let delay := ceil_delay product next_hz in
              if max_u64 - now <? delay then throw "ADC conversion time overflow during clock change"
              else mret (Some (now + delay))
        else mret None
    | None => mret None
    end.

Definition setInputClockHz (next_hz : Z) : Dev AdcPeripheral unit :=
  current ← get ad_input_clock_hz;
  if next_hz =? current then skip
  else
    synchronizeLazyConversions;;
    if next_hz =? 0 then suspend_clock
    else
      gap ← get conversionIsGap;
      event_pending ← get conversionEventArmed;
      rescheduled ← rescheduled_time next_hz;
      (if (event_pending : bool) then cancel with_event else skip);;
      set_clock next_hz;;
      match rescheduled with
      | Some t =>
          set_next (Some t);;
          set_conversion_state (gap_or gap ConversionState.skipped_gap ConversionState.scheduled)
      | None => skip
      end;;
      now ← currentTime;
      waiting ← get (fun d => bool_decide (ad_next_conversion_ns d = None) && started (ad_block d));
      rank ← get ad_sequence_rank;
      delay ← get (conversionDelayForRank rank);
      (if waiting && (delay <=? max_u64 - now) then
         set_next (Some (now + delay));;
         set_conversion_state ConversionState.scheduled
       else skip);;
      next ← get ad_next_conversion_ns;
      if event_pending || bool_decide (is_Some rescheduled) || bool_decide (is_Some next)
      then refreshConversionScheduling else skip.

Definition adc_new (name : string) (loop trace : bool) (env : Env) : AdcPeripheral :=
  construct env (mkAdc (block_init name 0x50 loop trace) (replicate 20 0) (replicate 20 false) false false false false false false 0
                   16000000 0 0 1 0 false None None 0 0 false ConversionState.idle 0 true []).

(** ** The common block of a group *)

(** The common registers with the members they clock; a missing member is a null pointer. *)
Record AdcGroup := mkAdcGroup {
  ag_block : RegBlock;
  ag_members : list (option AdcPeripheral);
  ag_hclk_hz : Z;
  ag_async_kernel_hz : Z;
  ag_clock_enabled : bool;
  ag_hclk_div1_allowed : bool;
  ag_reset_asserted : bool;
}.
#[global] Instance group_has_block : HasBlock AdcGroup :=
  {| block := ag_block; with_block f d := {| d with ag_block := f (ag_block d) |} |}.
#[global] Instance group_has_block_laws : HasBlockLaws AdcGroup.
Proof. constructor; [done|]. intros f g [] E. cbn in *. by rewrite E. Qed.

(** A program of one member, run on the shared object. *)
Definition on_member (m : Dev AdcPeripheral unit) (i : nat) : Dev AdcGroup unit := fun env d =>
  match ag_members d !! i with
  | Some (Some member) =>
      let '(r, member, w) := m env member in
      (r, {| d with ag_members := <[i := Some member]> (ag_members d) |}, w)
  | _ => (inl tt, d, [])
  end.
Definition on_members (m : Dev AdcPeripheral unit) : Dev AdcGroup unit :=
  count ← get (fun d => length (ag_members d));
  for_each (on_member m) (seq 0 count).

Definition async_dividers : list Z := [1; 2; 4; 6; 8; 10; 12; 16; 32; 64; 128; 256; 0; 0; 0; 0].
Definition member_clock (d : AdcGroup) : Z :=
  let ccr := registerValue 0x08 (ag_block d) in
  let mode := (ccr .>> 16) .& 0x3 in
  let presc := (ccr .>> 18) .& 0x0f in
  let async_clock := if presc <? 12 then ag_async_kernel_hz d / default 0 (async_dividers !! Z.to_nat presc) else 0 in
  let synchronous_clock :=
    if mode =? 1 then (if ag_hclk_div1_allowed d then ag_hclk_hz d else 0)
    else if mode =? 2 then ag_hclk_hz d / 2
    else if mode =? 3 then ag_hclk_hz d / 4 else async_clock in
  if ag_reset_asserted d then 0
  else if mode =? 0 then async_clock
  else if ag_clock_enabled d then synchronous_clock else 0.
Definition updateMemberClocks : Dev AdcGroup unit :=
  clock ← get member_clock;
  on_members (setInputClockHz clock).

Definition clock_fields : Z := (3 .<< 16) .| (0x0f .<< 18).
Definition member_active : Z :=
  (1 .<< 0) .| (1 .<< 1) .| (1 .<< 2) .| (1 .<< 3) .| (1 .<< 4) .| (1 .<< 31).
Definition member_enabled (d : AdcGroup) : bool :=
  existsb (fun m => match m with
                    | Some m => has (peekRegister 0x08 (ad_block m)) member_active
                    | None => false
                    end) (ag_members d).
Definition group_storeRegister (word_offset previous value write_mask : Z) (c : AccessContext) : Dev AdcGroup unit :=
  held ← get ag_reset_asserted;
  if (held : bool) then setRegister word_offset previous
  else if negb (word_offset =? 0x08) then skip
  else
    enabled ← get member_enabled;
    (if (enabled : bool)
     then setRegister word_offset ((value .& not32 clock_fields) .| (previous .& clock_fields)) else skip);;
    updateMemberClocks.
#[global] Instance group_hooks : RegisterHooks AdcGroup :=
  {| loadRegister word_offset _ := regValue word_offset; storeRegister := group_storeRegister; onReset := updateMemberClocks |}.

Definition setClockInputs (hclk_hz async_kernel_hz : Z) (clock_enabled hclk_div1_allowed : bool) : Dev AdcGroup unit :=
  modify (fun d : AdcGroup =>
    {| d with ag_hclk_hz := hclk_hz; ag_async_kernel_hz := async_kernel_hz; ag_clock_enabled := clock_enabled;
              ag_hclk_div1_allowed := hclk_div1_allowed |});;
  updateMemberClocks.
Definition setSystemClockHz (frequency_hz : Z) : Dev AdcGroup unit := setClockInputs frequency_hz frequency_hz true true.
Definition setGroupReset (asserted : bool) : Dev AdcGroup unit :=
  held ← get ag_reset_asserted;
  if Bool.eqb held asserted then skip
  else
    modify (fun d : AdcGroup => {| d with ag_reset_asserted := asserted |});;
    (if asserted then reset else skip);;
    on_members (setResetHeld asserted);;
    updateMemberClocks.
Definition group_new (name : string) (members : list (option AdcPeripheral)) (loop trace : bool) (env : Env) : AdcGroup :=
  construct env (mkAdcGroup (block_init name 0x100 loop trace) members 16000000 16000000 true true false).
End device.
End Adc.
