(* ===== verification/AdcLazy.v ===== *)
(** * Lazy ADC conversions

    An ADC in continuous mode whose conversions nobody observes schedules no events: it computes
    the last elapsed conversion when its registers are accessed ([synchronizeLazyConversions]).
    Here a device with lazy conversions (sample history off) is compared with the same device
    that runs every conversion as an event (sample history on).

    [Sim] is a relational program logic for device programs: two runs from states that look
    alike end in states that look alike, with the same result.  [adc_drive] runs timed
    operations against the device, dispatching its conversion event at its deadlines as the
    event loop does. *)

From S2P Require Import Prelude Address CpuState CpuStateProofs Common Trace Peripheral PeripheralProofs.
From S2P Require Import Timing Watchdog Timer Adc.
#[local] Open Scope Z_scope.
#[local] Open Scope fil_scope.

(** ** Relational reasoning about device programs

    [sim hide env P m1 m2 Q]: when [m1] returns from one state, [m2] returns the same result from
    every state with the same view, and the final states have the same view.  [P] and [Q]
    are predicates of both sides, told apart by a flag. *)

Section Sim.
Context {S V : Type} (hide : S -> V).
Definition Two : Type := bool -> S -> Prop.

Definition sim {A} (env : Env) (P : Two) (m1 m2 : Dev S A) (Q : A -> Two) : Prop :=
  ∀ e l, hide e = hide l -> P true e -> P false l ->
  match m1 env e with
  | (inl a, e', _) => ∃ l' w, m2 env l = (inl a, l', w) /\ hide e' = hide l' /\ Q a true e' /\ Q a false l'
  | (inr _, _, _) => True
  end.

Lemma sim_bind {A B} env P (m1 m2 : Dev S A) (f1 f2 : A -> Dev S B) Q T :
  sim env P m1 m2 Q -> (∀ a, sim env (Q a) (f1 a) (f2 a) T) -> sim env P (m1 ≫= f1) (m2 ≫= f2) T.
Proof.
  intros Hm Hf e l Hv He Hl. specialize (Hm e l Hv He Hl). unfold mbind, Dev_bind.
  destruct (m1 env e) as [[[a|x] e'] w]; [|done]. destruct Hm as (l'&w'&->&Hv'&He'&Hl').
  specialize (Hf a e' l' Hv' He' Hl'). destruct (f1 a env e') as [[[b|x] e''] u]; [|done].
  destruct Hf as (l''&u'&->&Hv''&He''&Hl''). by eexists _, _.
Qed.
Lemma sim_conseq {A} env (P P' : Two) (m1 m2 : Dev S A) (Q Q' : A -> Two) :
  sim env P m1 m2 Q -> (∀ h s, P' h s -> P h s) -> (∀ a h s, Q a h s -> Q' a h s) -> sim env P' m1 m2 Q'.
Proof.
  intros Hm HP HQ e l Hv He Hl. specialize (Hm e l Hv (HP _ _ He) (HP _ _ Hl)).
  destruct (m1 env e) as [[[a|x] e'] w]; [|done]. destruct Hm as (l'&w'&E&Hv'&He'&Hl'). eauto 10.
Qed.
Lemma sim_pre {A} env (P P' : Two) (m1 m2 : Dev S A) (Q : A -> Two) :
  (∀ h s, P' h s -> P h s) -> sim env P m1 m2 Q -> sim env P' m1 m2 Q.
Proof. intros HP Hm. by eapply sim_conseq. Qed.
Lemma sim_ret {A} env P (a : A) (Q : A -> Two) : (∀ h s, P h s -> Q a h s) -> sim env P (mret a) (mret a) Q.
Proof. intros HQ e l Hv He Hl. eexists _, _. split; [done|]. eauto. Qed.
Lemma sim_skip env P : sim env P skip skip (fun _ => P).
Proof. by apply sim_ret. Qed.
Lemma sim_throw {A} env P message (m2 : Dev S A) Q : sim env P (throw message) m2 Q.
Proof. done. Qed.
Lemma sim_if {A} env (P : Two) (b : bool) (m1 m2 n1 n2 : Dev S A) Q :
  (b = true -> sim env P m1 m2 Q) -> (b = false -> sim env P n1 n2 Q) ->
  sim env P (if b then m1 else n1) (if b then m2 else n2) Q.
Proof. destruct b; auto. Qed.
(** A pure fact of the view. *)
Lemma sim_assume {A} env (P : Two) (X : Prop) (m1 m2 : Dev S A) Q :
  (∀ h s, P h s -> X) -> (X -> sim env P m1 m2 Q) -> sim env P m1 m2 Q.
Proof. intros HX Hm e l Hv He Hl. by apply (Hm (HX _ _ He)). Qed.

Lemma sim_assume_sides {A} env (P : Two) (X Y : Prop) (m1 m2 : Dev S A) Q :
  (∀ s, P true s -> X) -> (∀ s, P false s -> Y) -> (X -> Y -> sim env P m1 m2 Q) -> sim env P m1 m2 Q.
Proof. intros HX HY Hm e l Hv He Hl. by apply (Hm (HX _ He) (HY _ Hl)). Qed.
Lemma sim_rewrite {A} env (P : Two) (m n : Dev S A) Q : (∀ h s, P h s -> m env s = n env s) -> sim env P n n Q -> sim env P m m Q.
Proof. intros E Hn e l Hv He Hl. rewrite (E true e He), (E false l Hl). by apply Hn. Qed.

(** Reading what the view determines. *)
Lemma sim_get {A} env P (f : S -> A) (g : V -> A) : (∀ s, f s = g (hide s)) ->
  sim env P (get f) (get f) (fun a h s => P h s /\ a = f s).
Proof.
  intros Hf e l Hv He Hl. assert (f e = f l) as E by (by rewrite !Hf, Hv). unfold get. rewrite E.
  eexists _, _. by split_and!.
Qed.
Lemma sim_query {A} env P (F : Env -> S -> A) (g : V -> A) : (∀ s, F env s = g (hide s)) ->
  sim env P (fun env s => (inl (F env s), s, [])) (fun env s => (inl (F env s), s, []))
    (fun a h s => P h s /\ a = F env s).
Proof.
  intros Hf e l Hv He Hl. assert (F env e = F env l) as E by (by rewrite !Hf, Hv). rewrite E.
  eexists _, _. by split_and!.
Qed.
(** Reading hidden state: the two sides continue with their own values. *)
Lemma sim_get_hidden {A B} env P (f : S -> A) (k1 k2 : A -> Dev S B) Q :
  (∀ a b, sim env (fun h s => P h s /\ f s = if h then a else b) (k1 a) (k2 b) Q) ->
  sim env P (get f ≫= k1) (get f ≫= k2) Q.
Proof. intros Hk e l Hv He Hl. rewrite !get_bind. by apply (Hk (f e) (f l) e l). Qed.

Lemma sim_modify env (P : Two) (Q : unit -> Two) (f : S -> S) (g : V -> V) : (∀ s, hide (f s) = g (hide s)) ->
  (∀ h s, P h s -> Q tt h (f s)) -> sim env P (modify f) (modify f) Q.
Proof. intros Hf HQ e l Hv He Hl. eexists _, _. split; [done|]. rewrite !Hf, Hv. auto. Qed.

(** Programs that only call out. *)
Definition silent (m : Dev S unit) : Prop := ∀ env s, ∃ w, m env s = (inl tt, s, w).
Lemma sim_silent env P m1 m2 : silent m1 -> silent m2 -> sim env P m1 m2 (fun _ => P).
Proof.
  intros H1 H2 e l Hv He Hl. destruct (H1 env e) as [w ->], (H2 env l) as [w' ->]. by eexists _, _.
Qed.
Lemma silent_skip : silent skip.
Proof. intros env s. by eexists. Qed.
Lemma silent_emit x : silent (emit x).
Proof. intros env s. by eexists. Qed.
Lemma silent_if (b : bool) m n : silent m -> silent n -> silent (if b then m else n).
Proof. by destruct b. Qed.
Lemma silent_trace `{HasBlock S} type fields : silent (traceEvent type fields).
Proof. intros env s. by eexists. Qed.

(** Programs whose effect on either side is a function of the state. *)
Lemma sim_run {A} env (P : Two) (m1 m2 : Dev S A) (a : A) (f1 f2 : S -> S) (Q : A -> Two) :
  (∀ s, P true s -> ∃ w, m1 env s = (inl a, f1 s, w)) -> (∀ s, P false s -> ∃ w, m2 env s = (inl a, f2 s, w)) ->
  (∀ e l, hide e = hide l -> P true e -> P false l -> hide (f1 e) = hide (f2 l)) ->
  (∀ s, P true s -> Q a true (f1 s)) -> (∀ s, P false s -> Q a false (f2 s)) -> sim env P m1 m2 Q.
Proof.
  intros H1 H2 Hv HQ1 HQ2 e l E He Hl. destruct (H1 e He) as [w ->], (H2 l Hl) as [w' ->]. eauto 10.
Qed.
End Sim.
#[export] Hint Resolve silent_skip silent_emit silent_if silent_trace : fil.

(** ** What firmware cannot see *)

Module AdcLazy.
Import Adc.

Definition hide_state (x : ConversionState.t) : ConversionState.t :=
  match x with ConversionState.lazy => ConversionState.scheduled | x => x end.
Definition hide (d : AdcPeripheral) : AdcPeripheral :=
  {| d with ad_sample_history_enabled := false; ad_samples := []; ad_conversion_event := None; ad_scan_index := 0;
            ad_conversion_state := hide_state (ad_conversion_state d) |}.

(** Blocks of an ADC on an event loop. *)
Record shape (b : RegBlock) : Prop := mk_shape {
  sh_size : rb_block_size b = 0x50;
  sh_registers : length (rb_registers b) = 20%nat;
  sh_loop : rb_has_loop b = true;
}.
Definition control (b : RegBlock) : Z * Z * Z * Z * bool :=
  (registerValue cr b, registerValue sqr1 b, registerValue cfgr b, registerValue ier b, rb_has_trace b).

Record core (h : bool) (d : AdcPeripheral) : Prop := mk_core {
  co_history : ad_sample_history_enabled d = h;
  co_decimation : ad_decimation d = 1;
  co_skip : ad_skip_scan d = false;
  co_shape : shape (ad_block d);
  co_clock : 0 <= ad_input_clock_hz d;
  co_override : 0 <= ad_conversion_delay_override_ns d;
  co_suspended : 0 <= ad_suspended_override_ns d;
}.
(** The conversion state agrees with the deadline and the event at time [t]. *)
Definition sched (t : Z) (d : AdcPeripheral) : Prop :=
  match ad_conversion_state d, ad_next_conversion_ns d, ad_conversion_event d with
  | ConversionState.idle, None, None | ConversionState.suspended, None, None => True
  | ConversionState.scheduled, Some next, Some event => next = event /\ t < next /\ ad_input_clock_hz d <> 0
  | ConversionState.lazy, Some next, None => t < next /\ ad_input_clock_hz d <> 0
  | _, _, _ => False
  end.
Definition rank_ok (d : AdcPeripheral) : Prop :=
  0 <= ad_sequence_rank d /\ (started (ad_block d) = true -> ad_sequence_rank d < sequenceLength (ad_block d)).
Record steady (env : Env) (h : bool) (d : AdcPeripheral) : Prop := mk_steady {
  st_core : core h d;
  st_sched : sched (env_now env) d;
  st_rank : rank_ok d;
}.
Record inv (env : Env) (h : bool) (d : AdcPeripheral) : Prop := mk_inv {
  in_steady : steady env h d;
  in_lazy : ad_conversion_state d = ConversionState.lazy -> lazyConversionEligible env d = true;
}.

(** *** Blocks *)

Lemma shape_set w v b : shape b -> shape (set_register w v b).
Proof. intros []. unfold set_register. destruct (aligned_register w b); constructor; cbn; by rewrite ?rset_length. Qed.
Lemma shape_level i v b : shape b -> shape (set_level i v b).
Proof. by intros []. Qed.
Lemma shape_aligned w b : shape b -> 0 <= w < 0x50 -> w .& 3 = 0 -> aligned_register w b = true.
Proof. intros [Hs _ _] Hw E. unfold aligned_register. rewrite Hs, E. lia. Qed.
Lemma value_set w v b : shape b -> 0 <= w < 0x50 -> w .& 3 = 0 -> registerValue w (set_register w v b) = v.
Proof.
  intros Hb Hw E. pose proof (shape_aligned w b Hb Hw E) as Ha. unfold registerValue, set_register. rewrite Ha.
  unfold aligned_register in *. cbn. rewrite Ha. apply rget_rset. destruct Hb as [_ -> _].
  assert (w / 4 < 20) by (apply Z.div_lt_upper_bound; lia). assert (0 <= w / 4) by (apply Z.div_pos; lia). lia.
Qed.
Lemma has_trace_set w v b : rb_has_trace (set_register w v b) = rb_has_trace b.
Proof. unfold set_register. by destruct (aligned_register w b). Qed.
Lemma value_level w i v b : registerValue w (set_level i v b) = registerValue w b.
Proof. done. Qed.
Lemma sequenceLength_pos b : 1 <= sequenceLength b <= 16.
Proof. unfold sequenceLength. pose proof (land_bounds_r (registerValue sqr1 b) 15). lia. Qed.
Lemma delay_pos rank d h : core h d -> 1 <= conversionDelayForRank rank d.
Proof.
  intros []. unfold conversionDelayForRank. destruct (Z.eqb_spec (ad_conversion_delay_override_ns d) 0); cbn; [|lia].
  destruct (Z.eqb_spec (ad_input_clock_hz d) 0); [done|]. lia.
Qed.

(** *** Scheduling in closed form *)

Definition set_sched (state : ConversionState.t) (event : ScheduledEvent) (d : AdcPeripheral) : AdcPeripheral :=
  {| d with ad_conversion_state := state; ad_conversion_event := event |}.
(** The pending deadline as an event, or lazily. *)
Definition rearmed (env : Env) (d : AdcPeripheral) : AdcPeripheral :=
  if lazyConversionEligible env d then set_sched ConversionState.lazy None d
  else set_sched ConversionState.scheduled (ad_next_conversion_ns d) d.
Definition refreshed (env : Env) (d : AdcPeripheral) : AdcPeripheral :=
  match ad_conversion_state d with
  | ConversionState.scheduled | ConversionState.lazy => rearmed env d
  | _ => d
  end.
Definition with_next (t : Z) (d : AdcPeripheral) : AdcPeripheral :=
  {| d with ad_next_conversion_ns := Some t; ad_conversion_state := ConversionState.scheduled |}.

Lemma schedule_run env d next : rb_has_loop (ad_block d) = true -> ad_next_conversion_ns d = Some next ->
  ad_conversion_state d = ConversionState.scheduled -> env_now env <= next ->
  scheduleConversionEvent env d = (inl tt, with_event (fun _ => Some next) d, []).
Proof.
  intros Hl En Es Ht. unfold scheduleConversionEvent. rewrite !get_bind, En, Hl, get_bind, Es.
  unfold scheduleOwnerLocalBuiltinAt, cancel. rewrite modify_bind, get_bind. cbn [ad_block with_event]. rewrite Hl.
  erewrite bind_inl by reflexivity. by rewrite (proj2 (Z.ltb_ge next (env_now env)) Ht).
Qed.
(** Refreshing an active device whose event, if any, is its deadline. *)
Lemma refresh_active env h d next : core h d -> ad_next_conversion_ns d = Some next -> env_now env <= next ->
  ad_conversion_state d = ConversionState.scheduled \/ ad_conversion_state d = ConversionState.lazy ->
  ad_conversion_event d = None \/ ad_conversion_event d = Some next ->
  refreshConversionScheduling env d = (inl tt, rearmed env d, []).
Proof.
  intros Hc En Ht Hs He. pose proof (sh_loop _ (co_shape _ _ Hc)) as Hl. unfold refreshConversionScheduling, rearmed.
  rewrite get_bind, En.
  destruct Hs as [Hs|Hs]; rewrite Hs, get_bind, En, get_bind; unfold conversionIsGap; rewrite Hs;
    erewrite bind_inl by reflexivity; rewrite get_bind, Hl; destruct (lazyConversionEligible env d); try done;
    cbn [negb gap_or]; unfold set_conversion_state; rewrite modify_bind, get_bind; cbn [ad_conversion_event];
    destruct He as [He|He]; rewrite He; first [change (pending None) with false | change (pending (Some next)) with true];
    cbv iota; rewrite ?(schedule_run env _ next) by done; done.
Qed.
Lemma refresh_steady_run env h d : core h d -> sched (env_now env) d ->
  refreshConversionScheduling env d = (inl tt, refreshed env d, []).
Proof.
  intros Hc Hs. unfold refreshed. unfold sched in Hs.
  destruct (ad_conversion_state d) eqn:Est, (ad_next_conversion_ns d) as [next|] eqn:En, (ad_conversion_event d) as [event|] eqn:Ev;
    try done; try (unfold refreshConversionScheduling; rewrite get_bind, Est; done).
  - destruct Hs as (<-&Hlt&_). eapply refresh_active; [done|done|lia|by left|by right].
  - destruct Hs as (Hlt&_). eapply refresh_active; [done|done|lia|by right|by left].
Qed.
Lemma arm_run env h d t : core h d -> ad_conversion_event d = None -> env_now env <= t ->
  armNextConversion t env d = (inl tt, rearmed env (with_next t d), []).
Proof.
  intros Hc He Ht. unfold armNextConversion, set_next, set_conversion_state. rewrite !modify_bind.
  eapply (refresh_active env h (with_next t d) t); [by destruct Hc|done|done|by left|by left].
Qed.

Lemma hide_rearmed env d : ad_conversion_state d = ConversionState.scheduled \/ ad_conversion_state d = ConversionState.lazy ->
  hide (rearmed env d) = hide d.
Proof.
  intros Hs. unfold rearmed, hide, set_sched. destruct (lazyConversionEligible env d); cbn;
    destruct Hs as [Hs|Hs]; by rewrite Hs.
Qed.
Lemma hide_refreshed env d : hide (refreshed env d) = hide d.
Proof. unfold refreshed. destruct (ad_conversion_state d) eqn:E; try done; apply hide_rearmed; auto. Qed.
Lemma eligible_sched env state event d : lazyConversionEligible env (set_sched state event d) = lazyConversionEligible env d.
Proof. done. Qed.

Lemma rearmed_inv env h d next : core h d -> rank_ok d -> ad_next_conversion_ns d = Some next -> env_now env < next ->
  ad_input_clock_hz d <> 0 -> inv env h (rearmed env d).
Proof.
  intros [] [] En Ht Hk. unfold rearmed. destruct (lazyConversionEligible env d) eqn:El; (split; [|done]);
    (split; [by constructor| |by split]); unfold sched; cbn; by rewrite En.
Qed.
Lemma refreshed_inv env h d : steady env h d -> inv env h (refreshed env d).
Proof.
  intros [Hc Hs Hr]. unfold refreshed. pose proof Hs as Hs'. unfold sched in Hs.
  destruct (ad_conversion_state d) eqn:Est, (ad_next_conversion_ns d) as [next|] eqn:En, (ad_conversion_event d) as [event|] eqn:Ev;
    try done; try (split; [done|]; congruence).
  - destruct Hs as (_&Hlt&Hk). by eapply rearmed_inv.
  - destruct Hs as (Hlt&Hk). by eapply rearmed_inv.
Qed.

(** *** Programs on two devices that look alike *)

Abbreviation similar := (sim hide).

(** Predicates that do not look at status, data, interrupt lines and history. *)
Record stable (P : Two) : Prop := mk_stable {
  stable_block h s f : P h s -> (∀ b, shape b -> shape (f b) /\ control (f b) = control b) ->
    P h ({| s with ad_block := f (ad_block s) |} : AdcPeripheral);
  stable_samples h (s : AdcPeripheral) x : P h s -> P h {| s with ad_samples := x |};
}.
Lemma control_set w v b : w = isr \/ w = dr -> shape b -> shape (set_register w v b) /\ control (set_register w v b) = control b.
Proof. intros Hw Hb. split; [by apply shape_set|]. unfold control. destruct Hw as [-> | ->]; rewrite !registerValue_set_ne by done; by rewrite has_trace_set. Qed.

Lemma sim_field {A} env P (f : AdcPeripheral -> A) : (∀ s, f s = f (hide s)) -> similar env P (get f) (get f) (fun _ => P).
Proof. intros Hf. eapply sim_conseq; [by apply (sim_get hide env P f f)|done|]. by intros ??? [? _]. Qed.
Lemma sim_known {A} env P (f : AdcPeripheral -> A) : (∀ s, f s = f (hide s)) ->
  similar env P (get f) (get f) (fun a h s => P h s /\ a = f s).
Proof. intros Hf. by apply sim_get with (g := f). Qed.
Lemma sim_now env P : similar env P currentTime currentTime (fun a h s => P h s /\ a = current_time env (ad_block s)).
Proof. by apply sim_query with (F := fun env d => current_time env (ad_block d)) (g := fun d => current_time env (ad_block d)). Qed.
Lemma sim_regValue env P w : similar env P (regValue w) (regValue w) (fun _ => P).
Proof. by apply (sim_field env P (fun s => registerValue w (ad_block s))). Qed.
Lemma sim_status env P w v : stable P -> w = isr \/ w = dr -> similar env P (setRegister w v) (setRegister w v) (fun _ => P).
Proof.
  intros HP Hw. apply sim_modify with (g := with_block (set_register w v)); [done|]. intros h s Hs.
  apply (stable_block P HP h s (set_register w v) Hs). intros b. by apply control_set.
Qed.
Lemma sim_level env P i v : stable P -> similar env P (setInterruptLevel i v) (setInterruptLevel i v) (fun _ => P).
Proof.
  intros HP e l Hv He Hl. unfold setInterruptLevel. cbn [block adc_has_block].
  assert (ad_block e = ad_block l) as Eb by exact (f_equal ad_block Hv). rewrite <- Eb.
  destruct (_ || _); eexists _, _; (split; [reflexivity|]); [done|]. split.
  - exact (f_equal (with_block (set_level i v)) Hv).
  - split; (apply (stable_block P HP _ _ (set_level i v)); [done|]; intros b Hb; split; [by apply shape_level|done]).
Qed.
Lemma sim_refresh_level env P : stable P -> similar env P refresh_level refresh_level (fun _ => P).
Proof.
  intros HP. eapply sim_bind; [apply sim_regValue|]. intros enable. eapply sim_bind; [apply sim_regValue|].
  intros status. by apply sim_level.
Qed.

(** Proof steps of the logic: a sequence with the predicate between its parts, and reading a visible member. *)
Ltac sim_to Q := eapply (sim_bind hide _ _ _ _ _ _ (fun _ => Q)).
Tactic Notation "sim_read" ident(x) := eapply sim_bind; [by apply sim_field|]; intros x.
Tactic Notation "sim_know" ident(x) := eapply sim_bind; [by apply sim_known|]; intros x.
Tactic Notation "sim_reg" ident(x) := eapply sim_bind; [apply sim_regValue|]; intros x.

Section conversions.
Context `{AnalogInput}.

Lemma sim_materialize env P t o1 o2 : stable P ->
  similar env P (materializeConversion t o1) (materializeConversion t o2) (fun _ => P).
Proof.
  intros HP. sim_read rank. sim_read channel.
  sim_read value. eapply sim_bind; [apply sim_status; auto|]. intros [].
  sim_read complete. sim_reg status.
  eapply sim_bind; [apply sim_status; auto|]. intros []. eapply sim_bind; [by apply sim_refresh_level|]. intros [].
  apply sim_get_hidden. intros a b.
  sim_to P.
  { set (f := fun d : AdcPeripheral => {| d with ad_samples := ad_samples d ++ [mkAdcSample t channel value] |}).
    apply sim_run with (a := tt) (f1 := if o1 && a then f else id) (f2 := if o2 && b then f else id).
    - intros s _. destruct (o1 && a); by eexists.
    - intros s _. destruct (o2 && b); by eexists.
    - intros e l Hv _ _. by destruct (o1 && a), (o2 && b).
    - intros s [Hs _]. destruct (o1 && a); [|done]. by apply (stable_samples P HP).
    - intros s [Hs _]. destruct (o2 && b); [|done]. by apply (stable_samples P HP). }
  intros []. eapply sim_bind.
  { apply sim_query with (F := fun env d => trace_enabled env (ad_block d) && trace_passes "adc_sample" env (ad_block d))
      (g := fun d => trace_enabled env (ad_block d) && trace_passes "adc_sample" env (ad_block d)). done. }
  intros traced. eapply sim_bind; [apply sim_silent; auto with fil|]. intros [].
  sim_read callback. eapply sim_bind; [apply sim_silent; auto with fil|]. intros [].
  sim_reg enabled. sim_read interrupt.
  eapply (sim_conseq hide env P); [apply sim_silent; auto with fil|by intros h s [? _]|done].
Qed.

(** A device between two conversions: nothing is pending. *)
Record between (h : bool) (s : AdcPeripheral) : Prop := mk_between {
  be_core : core h s;
  be_next : ad_next_conversion_ns s = None;
  be_event : ad_conversion_event s = None;
  be_rank : 0 <= ad_sequence_rank s;
}.
Lemma between_inv env h s : between h s -> rank_ok s ->
  ad_conversion_state s = ConversionState.idle \/ ad_conversion_state s = ConversionState.suspended -> inv env h s.
Proof.
  intros [Hc Hn He _] Hr Hs. split; [split; [done| |done]|destruct Hs; congruence]. unfold sched. rewrite Hn, He.
  by destruct Hs as [-> | ->].
Qed.
Lemma between_stable : stable between.
Proof.
  constructor.
  - intros h s f [[] ???] Hf. split; try done. constructor; try done. by apply Hf.
  - by intros h s x [[] ???].
Qed.

Lemma arm_after_run env h d D : core h d -> ad_conversion_event d = None -> 0 <= D ->
  arm_after D env d = if max_u64 - env_now env <? D then (inr "ADC conversion time overflow", d, [])
                      else (inl tt, rearmed env (with_next (env_now env + D) d), []).
Proof.
  intros Hc He HD. unfold arm_after. erewrite bind_inl by reflexivity. unfold current_time. cbn [block adc_has_block].
  rewrite (sh_loop _ (co_shape _ _ Hc)). destruct (_ <? D); [done|]. rewrite (arm_run env h) by (done || lia). done.
Qed.
Lemma sim_arm env D : 1 <= D ->
  similar env (fun h s => between h s /\ rank_ok s /\ ad_input_clock_hz s <> 0) (arm_after D) (arm_after D) (fun _ => inv env).
Proof.
  intros HD e l Hv (He&Hre&Hke) (Hl&Hrl&Hkl). rewrite (arm_after_run env true), (arm_after_run env false) by (apply He || apply Hl || lia).
  destruct (Z.ltb_spec (max_u64 - env_now env) D); [done|]. eexists _, _. split; [done|]. split_and!.
  - rewrite !hide_rearmed by (by left). exact (f_equal (with_next (env_now env + D)) Hv).
  - apply rearmed_inv with (env_now env + D); try done; [|cbn; lia]. by destruct He as [[] _ _ _].
  - apply rearmed_inv with (env_now env + D); try done; [|cbn; lia]. by destruct Hl as [[] _ _ _].
Qed.

Lemma started_stop b : shape b -> started (set_register cr (registerValue cr b .& not32 adstart) b) = false.
Proof.
  intros Hb. unfold started. rewrite value_set by done. unfold has. apply negb_false_iff, Z.eqb_eq.
  rewrite <- Z.land_assoc. change (not32 adstart .& adstart) with 0. apply Z.land_0_r.
Qed.
Lemma sim_stop env : similar env between stop_conversion stop_conversion (fun _ => inv env).
Proof.
  set (f := fun s : AdcPeripheral => {| s with ad_block := set_register cr (registerValue cr (ad_block s) .& not32 adstart) (ad_block s);
                                               ad_conversion_state := ConversionState.idle |}).
  assert (∀ h s, between h s -> inv env h (f s)) as Hf.
  { intros h s [[] ???]. pose proof (started_stop (ad_block s) ltac:(done)). apply between_inv; [|split|by left]; try done.
    - split; try done. constructor; try done. by apply shape_set.
    - cbn. congruence. }
  apply sim_run with (a := tt) (f1 := f) (f2 := f); try apply Hf; try (intros s _; by eexists).
  intros e l Hv _ _. exact (f_equal f Hv).
Qed.

(** [beginNextScan] on a device that keeps every scan. *)
Definition next_scan : Dev AdcPeripheral unit :=
  set_rank 0;;
  running ← get (fun d => continuousMode (ad_block d) && started (ad_block d));
  if negb running then stop_conversion
  else
    clock ← get ad_input_clock_hz;
    if clock =? 0 then set_conversion_state ConversionState.idle
    else
      set_skip_scan false;;
      delay ← get (conversionDelayForRank 0);
      arm_after delay.
Lemma beginNextScan_plain env h s : core h s -> beginNextScan env s = next_scan env s.
Proof.
  intros Hc. unfold beginNextScan, next_scan, set_rank. rewrite !modify_bind, !get_bind. destruct (negb _); [done|].
  rewrite !get_bind. destruct (_ =? 0); [done|]. rewrite !get_bind. cbn [ad_decimation]. rewrite (co_decimation _ _ Hc). done.
Qed.
Lemma sim_beginNextScan env :
  similar env (fun h s => between h s /\ ad_input_clock_hz s <> 0) beginNextScan beginNextScan (fun _ => inv env).
Proof.
  apply sim_rewrite with (n := next_scan). { intros h s [[Hc _ _ _] _]. by eapply beginNextScan_plain. }
  set (P := fun h s => between h s /\ ad_input_clock_hz s <> 0 /\ ad_sequence_rank s = 0).
  sim_to P.
  { apply sim_modify with (g := fun d : AdcPeripheral => {| d with ad_sequence_rank := 0 |}); [done|]. by intros h s [[[] ???] ?]. }
  intros []. sim_read running. destruct running; cbn [negb].
  2: { eapply sim_conseq; [apply sim_stop|by intros h s [? _]|done]. }
  sim_know clock. cbn beta. destruct (Z.eqb_spec clock 0) as [->|Hk].
  { eapply sim_assume with (X := False); [|done]. intros h s [(_&?&_) ?]. congruence. }
  sim_to P.
  { apply sim_modify with (g := fun d : AdcPeripheral => {| d with ad_skip_scan := false |}); [done|].
    by intros h s [([[] ???]&?&?) _]. }
  intros []. sim_know delay.
  eapply sim_assume with (X := 1 <= delay); [intros h s [([Hc _ _ _]&_) ->]; by eapply delay_pos|]. intros HD.
  eapply sim_conseq; [by apply sim_arm| |done]. intros h s [(Hb&Hk'&Hr) _]. split_and!; try done. unfold rank_ok.
  rewrite Hr. pose proof (sequenceLength_pos (ad_block s)). lia.
Qed.

(** A conversion in progress. *)
Record converting (h : bool) (s : AdcPeripheral) : Prop := mk_converting {
  cv_between : between h s;
  cv_clock : ad_input_clock_hz s <> 0;
  cv_rank : rank_ok s;
}.
(** At rank [r], which ends the sequence or not. *)
Definition at_rank (r : Z) (complete : bool) (h : bool) (s : AdcPeripheral) : Prop :=
  converting h s /\ ad_sequence_rank s = r /\ complete = (sequenceLength (ad_block s) <=? r + 1).
Lemma rank_stable f (s : AdcPeripheral) : shape (ad_block s) -> (∀ b, shape b -> shape (f b) /\ control (f b) = control b) ->
  rank_ok s -> rank_ok {| s with ad_block := f (ad_block s) |}.
Proof.
  intros Hs Hf [Hr Hlt]. split; [done|]. destruct (Hf (ad_block s) Hs) as [_ [= Ecr Esq _ _ _]]. revert Hlt.
  unfold started, sequenceLength. cbn. by rewrite Ecr, Esq.
Qed.
Lemma at_rank_stable r complete : stable (at_rank r complete).
Proof.
  constructor.
  - intros h s f ([Hb Hk Hr]&E&Ec) Hf. pose proof (co_shape _ _ (be_core _ _ Hb)) as Hs. split_and!; [|done|].
    + split; [by apply (stable_block _ between_stable)|done|]. by apply rank_stable.
    + rewrite Ec. destruct (Hf _ Hs) as [_ [= _ Esq _ _ _]]. unfold sequenceLength. cbn. by rewrite Esq.
  - intros h s x ([Hb Hk Hr]&E&Ec). split_and!; try done. split; [by apply (stable_samples _ between_stable)|done|done].
Qed.

Lemma sim_rank env (P Q : Two) r : (∀ h (s : AdcPeripheral), P h s -> Q h {| s with ad_sequence_rank := r |}) ->
  similar env P (set_rank r) (set_rank r) (fun _ => Q).
Proof. intros HQ. by apply sim_modify with (g := fun d : AdcPeripheral => {| d with ad_sequence_rank := r |}). Qed.

Lemma sim_complete env : similar env converting completeConversion completeConversion (fun _ => inv env).
Proof.
  unfold completeConversion. sim_know rank.
  eapply sim_bind; [by apply (sim_known env _ (fun d => sequenceLength (ad_block d) <=? rank + 1))|]. intros complete.
  eapply sim_bind; [by apply (sim_known env _ (fun d => continuousMode (ad_block d) && (1 <? ad_decimation d)))|]. intros decimated.
  apply sim_assume with (X := decimated = false).
  { intros h s [[[[[[] _ _ _] _ _] _] _] ->]. rewrite co_decimation0. apply andb_false_r. }
  intros ->. cbn [andb]. eapply sim_bind; [apply sim_skip|]. intros []. apply sim_get_hidden. intros a b.
  eapply sim_bind; [apply sim_now|]. intros now. sim_to (at_rank rank complete).
  { eapply sim_conseq; [apply (sim_materialize env (at_rank rank complete)), at_rank_stable| |done]. by intros h s [[[[[? ->] ->] _] _] _]. }
  intros []. destruct complete.
  - sim_to (fun h s => between h s /\ ad_input_clock_hz s <> 0).
    { apply sim_rank. by intros h s ([[[] ???] Hk _]&_). }
    intros []. sim_to (fun h s => between h s /\ ad_input_clock_hz s <> 0); [|intros []; apply sim_beginNextScan].
    apply sim_modify with (g := id); [done|]. by intros h s [[[] ???] Hk].
  - set (P := fun h s => converting h s /\ ad_sequence_rank s < sequenceLength (ad_block s)).
    sim_to P.
    { apply sim_rank. intros h s ([[[] ???] Hk [Hr _]]&Er&Ec). symmetry in Ec. apply Z.leb_gt in Ec.
      pose proof (sequenceLength_pos (ad_block s)). assert (u32 (rank + 1) = rank + 1) as Eu by (apply u32_small; width_lia).
      rewrite Eu. split; [|done]. split; [split; try done; cbn; lia|done|split; [cbn; lia|done]]. }
    intros []. sim_know clock. cbn beta. destruct (Z.eqb_spec clock 0) as [->|Hk].
    { eapply sim_assume with (X := False); [|done]. intros h s [[[_ ? _] _] ?]. congruence. }
    eapply sim_bind; [by apply sim_field|]. intros [].
    + eapply sim_bind; [by apply sim_field|]. intros rank'. sim_know delay.
      eapply sim_assume with (X := 1 <= delay); [intros h s [[[[[Hc _ _ _] _ _] _] _] ->]; by eapply delay_pos|]. intros HD.
      eapply sim_conseq; [by apply sim_arm| |done]. by intros h s [[[[Hb Hk' Hr] _] _] _].
    + eapply sim_conseq; [apply sim_stop| |done]. by intros h s [[[Hb Hk' Hr] _] _].
Qed.

(** The event of a device that looks the same has the same outcome. *)
Lemma sim_thunk env :
  similar env (fun h s => core h s /\ rank_ok s /\ ad_input_clock_hz s <> 0) conversionEventThunk conversionEventThunk (fun _ => inv env).
Proof.
  set (f := fun s : AdcPeripheral => {| s with ad_conversion_event := None; ad_next_conversion_ns := None;
                                               ad_conversion_state := ConversionState.idle |}).
  apply sim_rewrite with (n := modify f;; completeConversion).
  { intros h s _. unfold conversionEventThunk, set_next, set_conversion_state. by rewrite !modify_bind. }
  sim_to converting; [|intros []; apply sim_complete]. apply sim_modify with (g := f); [done|].
  by intros h s ([]&[]&?).
Qed.

(** *** A conversion in closed form *)

Definition lined (line : Z) (asserted : bool) (b : RegBlock) : RegBlock :=
  if (8 <=? line) || Bool.eqb (level line b) asserted then b else set_level line asserted b.
(** The block after a conversion of [value]. *)
Definition converted (value rank : Z) (b : RegBlock) : RegBlock :=
  let b := set_register dr value b in
  let b := set_register isr (registerValue isr b .| eoc .| (if sequenceLength b <=? rank + 1 then eos else 0)) b in
  lined 0 (has (registerValue ier b .& registerValue isr b) (eoc .| eos)) b.
Definition materialized (t : Z) (d : AdcPeripheral) : AdcPeripheral :=
  let channel := channelForRank (ad_sequence_rank d) (ad_block d) in
  {| d with ad_block := converted (channel_value channel t d) (ad_sequence_rank d) (ad_block d) |}.

Definition with_samples (x : list AdcSample) (d : AdcPeripheral) : AdcPeripheral := {| d with ad_samples := x |}.

Lemma refresh_level_run env d : ∃ w,
  refresh_level env d
  = (inl tt, ({| d with ad_block := lined 0 (has (registerValue ier (ad_block d) .& registerValue isr (ad_block d)) (eoc .| eos)) (ad_block d) |}
              : AdcPeripheral), w).
Proof.
  unfold refresh_level. rewrite !regValue_bind. cbn [block adc_has_block]. unfold setInterruptLevel, lined. cbn [block adc_has_block].
  destruct (_ || _); [|by eexists]. destruct d. by eexists.
Qed.
Lemma materialize_run t observable env d : ∃ w samples,
  materializeConversion t observable env d = (inl tt, (with_samples samples (materialized t d)), w)
  /\ (observable = false -> samples = ad_samples d).
Proof.
  unfold materializeConversion. rewrite !get_bind, setRegister_bind, get_bind, regValue_bind, setRegister_bind.
  edestruct (refresh_level_run env) as [w E]. erewrite bind_inl by exact E. clear E. cbn [block adc_has_block ad_block with_block].
  rewrite get_bind. cbn [ad_sample_history_enabled].
  set (sample := mkAdcSample t _ _). set (samples := if observable && ad_sample_history_enabled d then ad_samples d ++ [sample] else ad_samples d).
  erewrite bind_inl with (s' := (with_samples samples (materialized t d))) (a := tt) (w := []).
  2: { unfold samples. destruct (observable && _); [done|]. unfold materialized. by destruct d. }
  erewrite bind_inl by reflexivity.
  destruct (silent_if (observable && (trace_enabled env (ad_block (with_samples samples (materialized t d)))
      && trace_passes "adc_sample" env (ad_block (with_samples samples (materialized t d))))) _ _
      (silent_trace "adc_sample" [("channel", pretty.pretty (as_channel sample)); ("value", pretty.pretty (as_value sample))]) silent_skip
      env (with_samples samples (materialized t d))) as [w1 E1].
  erewrite bind_inl by exact E1. rewrite get_bind.
  destruct (silent_if (observable && ad_sample_callback (with_samples samples (materialized t d))) _ _
      (silent_emit (fx_adc_sample t (as_channel sample) (as_value sample))) silent_skip
      env (with_samples samples (materialized t d))) as [w2 E2].
  erewrite bind_inl by exact E2. rewrite regValue_bind, get_bind.
  destruct (_ && _ && _); eexists _, samples; (split; [reflexivity|by intros ->]).
Qed.

(** The registers that a conversion leaves alone. *)
Lemma converted_other w value rank b : 0 <= w -> w <> dr -> w <> isr -> registerValue w (converted value rank b) = registerValue w b.
Proof.
  intros Hw Hd Hi. unfold converted, lined. destruct (_ || _); rewrite ?value_level;
    by rewrite (registerValue_set_ne isr w), (registerValue_set_ne dr w) by (done || by apply not_eq_sym).
Qed.
Lemma converted_channel r value rank b : channelForRank r (converted value rank b) = channelForRank r b.
Proof.
  unfold channelForRank. assert (∀ w, In w [sqr1; sqr2; sqr3; sqr4] -> registerValue w (converted value rank b) = registerValue w b) as E.
  { intros w Hw. cbn in Hw. apply converted_other; intuition (subst; done). }
  destruct (14 <=? r), (9 <=? r), (4 <=? r); by rewrite E by (cbn; auto).
Qed.
Lemma converted_shape value rank b : shape b -> shape (converted value rank b).
Proof. intros Hb. unfold converted, lined. destruct (_ || _); [|apply shape_level]; by do 2 apply shape_set. Qed.
Lemma converted_control value rank b : control (converted value rank b) = control b.
Proof.
  unfold control. rewrite !converted_other by done. f_equal. unfold converted, lined. destruct (_ || _); cbn [rb_has_trace set_level]; by rewrite !has_trace_set.
Qed.
Lemma materialized_delay r t d : conversionDelayForRank r (materialized t d) = conversionDelayForRank r d.
Proof.
  unfold conversionDelayForRank, conversionCycleBudget. cbn [ad_block materialized ad_conversion_delay_override_ns ad_input_clock_hz].
  rewrite converted_channel. destruct (_ <=? 9); by rewrite !converted_other.
Qed.

(** *** Conversions overwrite each other *)

Lemma aligned_set w w' v b : aligned_register w (set_register w' v b) = aligned_register w b.
Proof. unfold set_register. by destruct (aligned_register w' b). Qed.
Lemma set_set w v v' b : set_register w v (set_register w v' b) = set_register w v b.
Proof.
  unfold set_register at 1. rewrite aligned_set. unfold set_register. destruct (aligned_register w b); [|done].
  cbn. unfold rset. by rewrite list_insert_insert_eq.
Qed.
Lemma set_set_comm w w' v v' b : 0 <= w -> 0 <= w' -> w <> w' ->
  set_register w v (set_register w' v' b) = set_register w' v' (set_register w v b).
Proof.
  intros Hw Hw' Hne. unfold set_register at 1 3. rewrite !aligned_set. unfold set_register.
  destruct (aligned_register w b) eqn:E, (aligned_register w' b) eqn:E'; try done. cbn. f_equal. unfold rset.
  apply list_insert_insert_ne. apply andb_true_iff in E as [E%Z.eqb_eq _], E' as [E'%Z.eqb_eq _].
  apply aligned_multiple in E, E'; [|done..].
  assert (0 <= w / 4) by (apply Z.div_pos; lia). assert (0 <= w' / 4) by (apply Z.div_pos; lia). lia.
Qed.
Lemma set_lined w v i a b : set_register w v (lined i a b) = lined i a (set_register w v b).
Proof.
  unfold lined, level, set_register, aligned_register. destruct ((w .& 3 =? 0) && (w <? rb_block_size b)) eqn:E; cbn [rb_interrupt_levels];
    destruct (_ || _); cbn [rb_block_size set_level]; by rewrite E.
Qed.
Lemma lined_lined i a b : lined i a (lined i a b) = lined i a b.
Proof.
  unfold lined at 2 3. destruct ((8 <=? i) || Bool.eqb (level i b) a) eqn:E; unfold lined; [by rewrite E|].
  clear E. destruct (_ || _); [done|]. unfold set_level. cbn. by rewrite list_insert_insert_eq.
Qed.
Lemma value_lined w i a b : registerValue w (lined i a b) = registerValue w b.
Proof. unfold lined. by destruct (_ || _). Qed.

(** The status and the line after a conversion. *)
Lemma converted_eq v rank b : shape b ->
  let x := registerValue isr b .| eoc .| (if sequenceLength b <=? rank + 1 then eos else 0) in
  converted v rank b = lined 0 (has (registerValue ier b .& x) (eoc .| eos)) (set_register isr x (set_register dr v b)).
Proof.
  intros Hb x. unfold converted.
  assert (sequenceLength (set_register dr v b) = sequenceLength b) as -> by (unfold sequenceLength; by rewrite registerValue_set_ne).
  rewrite (registerValue_set_ne dr isr) by done. fold x.
  rewrite value_set by (done || by apply shape_set). by rewrite !registerValue_set_ne.
Qed.
Lemma converted_twice v v' rank b : shape b -> converted v rank (converted v' rank b) = converted v rank b.
Proof.
  intros Hb. rewrite (converted_eq v rank (converted v' rank b)) by by apply converted_shape.
  assert (sequenceLength (converted v' rank b) = sequenceLength b) as -> by (unfold sequenceLength; by rewrite converted_other).
  rewrite (converted_other ier) by done. rewrite !converted_eq by done. rewrite value_lined, value_set by (done || by apply shape_set).
  set (x := registerValue isr b .| eoc .| _). assert (x .| eoc .| (if sequenceLength b <=? rank + 1 then eos else 0) = x) as ->.
  { unfold x. apply Z.bits_inj'. intros i _. rewrite !Z.lor_spec. by repeat destruct (Z.testbit _ i). }
  rewrite !set_lined, lined_lined. f_equal. by rewrite (set_set_comm dr isr), !set_set.
Qed.
Lemma materialized_twice t t' d : shape (ad_block d) -> materialized t (materialized t' d) = materialized t d.
Proof.
  intros Hb. unfold materialized. cbn. rewrite converted_channel, converted_twice by done. done.
Qed.

(** *** Lazy conversions and events *)

Definition deadline (next : option Z) (d : AdcPeripheral) : AdcPeripheral := {| d with ad_next_conversion_ns := next |}.
Lemma materialized_deadline t next d : materialized t (deadline next d) = deadline next (materialized t d).
Proof. done. Qed.
Lemma materialized_later t t' next d : shape (ad_block d) ->
  materialized t (deadline next (materialized t' d)) = deadline next (materialized t d).
Proof. intros Hb. by rewrite materialized_deadline, materialized_twice. Qed.
(** One lazy conversion at [t]. *)
Definition lazy_step (t : Z) (d : AdcPeripheral) : AdcPeripheral :=
  deadline (Some (t + conversionDelayForRank 0 d)) (materialized t d).
Definition synced (now : Z) (d : AdcPeripheral) : AdcPeripheral :=
  match ad_conversion_state d, ad_next_conversion_ns d with
  | ConversionState.lazy, Some next =>
      if now <? next then d
      else
        let delay := conversionDelayForRank 0 d in
        let latest := next + (now - next) / delay * delay in
        if max_u64 - delay <? latest then set_sched ConversionState.idle (ad_conversion_event d) (deadline None (materialized latest d))
        else deadline (Some (latest + delay)) (materialized latest d)
  | _, _ => d
  end.

Lemma sync_run env h d : core h d -> sched (env_now env) d \/ ad_conversion_state d = ConversionState.lazy ->
  ∃ w, synchronizeLazyConversions env d = (inl tt, synced (env_now env) d, w).
Proof.
  intros Hc Hs. unfold synchronizeLazyConversions. rewrite !get_bind. erewrite bind_inl by reflexivity. unfold current_time.
  cbn [block adc_has_block]. rewrite (sh_loop _ (co_shape _ _ Hc)). unfold synced.
  destruct (ad_conversion_state d) eqn:Est, (ad_next_conversion_ns d) as [next|] eqn:En; try (by eexists);
    [|unfold sched in Hs; rewrite Est in Hs; by destruct Hs as [Hs|]].
  destruct (_ <? next); [by eexists|]. rewrite get_bind. pose proof (delay_pos 0 d h Hc) as HD.
  rewrite (proj2 (Z.eqb_neq _ 0)) by lia. set (latest := next + _).
  destruct (materialize_run latest false env d) as (w&x&E&Ex). rewrite (Ex eq_refl) in E. erewrite bind_inl by exact E.
  destruct (_ <? latest); by eexists.
Qed.
Lemma synced_id t d : sched t d -> synced t d = d.
Proof.
  unfold sched, synced. destruct (ad_conversion_state d), (ad_next_conversion_ns d) as [next|], (ad_conversion_event d); try done.
  intros [Ht _]. by rewrite (proj2 (Z.ltb_lt t next)).
Qed.
(** Looking later covers the conversions between. *)
Lemma synced_step h t d next : core h d -> ad_conversion_state d = ConversionState.lazy -> ad_next_conversion_ns d = Some next ->
  next <= t -> next + conversionDelayForRank 0 d <= max_u64 -> synced t d = synced t (lazy_step next d).
Proof.
  intros Hc Est En Ht Hm. pose proof (delay_pos 0 d h Hc) as HD. unfold synced at 1. rewrite Est, En.
  rewrite (proj2 (Z.ltb_ge t next)) by lia. unfold synced.
  change (ad_conversion_state (lazy_step next d)) with (ad_conversion_state d). rewrite Est.
  change (ad_next_conversion_ns (lazy_step next d)) with (Some (next + conversionDelayForRank 0 d)). cbv iota.
  assert (conversionDelayForRank 0 (lazy_step next d) = conversionDelayForRank 0 d) as -> by exact (materialized_delay 0 next d).
  set (D := conversionDelayForRank 0 d) in *. cbv zeta. destruct (Z.ltb_spec t (next + D)) as [Hlt|Hge].
  - assert ((t - next) / D = 0) as -> by (apply Z.div_small; lia). rewrite Z.mul_0_l, Z.add_0_r.
    by rewrite (proj2 (Z.ltb_ge (max_u64 - D) next)) by lia.
  - assert (next + (t - next) / D * D = next + D + (t - (next + D)) / D * D) as ->.
    { replace (t - next) with ((t - (next + D)) + 1 * D) by lia. rewrite Z.div_add by lia. lia. }
    set (latest := next + D + _). unfold lazy_step. rewrite (materialized_later latest) by apply Hc. by destruct (_ <? latest).
Qed.

(** The event of an eligible device is a lazy conversion. *)
Record free_running (d : AdcPeripheral) : Prop := mk_free_running {
  fr_length : sequenceLength (ad_block d) = 1;
  fr_continuous : continuousMode (ad_block d) = true;
  fr_started : started (ad_block d) = true;
  fr_rank : ad_sequence_rank d = 0;
  fr_clock : ad_input_clock_hz d <> 0;
}.
Lemma control_started b b' : control b = control b' -> started b = started b' /\ continuousMode b = continuousMode b'.
Proof. intros [= E1 _ E3 _ _]. unfold started, continuousMode. by rewrite E1, E3. Qed.
Lemma next_scan_run env d h : core h d -> ad_conversion_event d = None -> continuousMode (ad_block d) = true ->
  started (ad_block d) = true -> ad_input_clock_hz d <> 0 ->
  let t := env_now env in
  let delay := conversionDelayForRank 0 d in
  let d' : AdcPeripheral := {| d with ad_sequence_rank := 0; ad_skip_scan := false |} in
  beginNextScan env d
  = if max_u64 - t <? delay then (inr "ADC conversion time overflow", d', [])
    else (inl tt, rearmed env (with_next (t + delay) d'), []).
Proof.
  intros Hc He Hcont Hst Hk t delay d'. rewrite (beginNextScan_plain env h) by done. unfold next_scan, set_rank, set_skip_scan.
  rewrite modify_bind, get_bind. cbn [ad_block]. rewrite Hcont, Hst. cbn [andb negb]. rewrite get_bind. cbn [ad_input_clock_hz].
  rewrite (proj2 (Z.eqb_neq _ 0)) by done. rewrite modify_bind, get_bind.
  apply (arm_after_run env h d' delay); [by destruct Hc|done|]. pose proof (delay_pos 0 d h Hc). unfold delay. lia.
Qed.
(** The bookkeeping of a scan is hidden. *)
Lemma hide_scan t d samples index : ad_sequence_rank d = 0 -> ad_skip_scan d = false ->
  hide (with_next t {| d with ad_sequence_rank := 0; ad_skip_scan := false; ad_scan_index := index; ad_samples := samples |})
  = hide (with_next t d).
Proof. destruct d; cbn; by intros -> ->. Qed.
Lemma complete_free env h d : core h d -> ad_conversion_event d = None -> free_running d ->
  let t := env_now env in
  let delay := conversionDelayForRank 0 d in
  (max_u64 < t + delay /\ ∃ e s w, completeConversion env d = (inr e, s, w))
  \/ (t + delay <= max_u64
      /\ ∃ d' w, completeConversion env d = (inl tt, d', w) /\ hide d' = hide (with_next (t + delay) (materialized t d))).
Proof.
  intros Hc He [Hlen Hcont Hst Hr Hk] t delay. unfold completeConversion. rewrite get_bind, Hr, get_bind, Hlen, get_bind.
  rewrite (co_decimation _ _ Hc), andb_false_r. cbn [andb]. rewrite skip_bind, get_bind. erewrite bind_inl by reflexivity.
  unfold current_time. cbn [block adc_has_block]. rewrite (sh_loop _ (co_shape _ _ Hc)).
  destruct (materialize_run t true env d) as (w&x&E&_). erewrite bind_inl by exact E. unfold set_rank. rewrite !modify_bind.
  set (d1 := with_samples x (materialized t d)) in *. change (1 <=? 0 + 1) with true. cbv iota. rewrite modify_bind.
  match goal with |- context [beginNextScan env ?s] => set (d2 := s) end.
  assert (core h d2) as Hc2.
  { destruct Hc as [? ? ? Hs ? ? ?]. constructor; try done. by apply converted_shape. }
  destruct (control_started (ad_block d2) (ad_block d) ltac:(apply converted_control)) as [Es Ec].
  assert (conversionDelayForRank 0 d2 = delay) as Ed by exact (materialized_delay 0 t d).
  pose proof (next_scan_run env d2 h Hc2 He ltac:(congruence) ltac:(congruence) Hk) as Eb. cbv zeta in Eb.
  rewrite Eb, Ed. fold t. destruct (Z.ltb_spec (max_u64 - t) delay).
  - left. split; [lia|]. by eexists _, _, _.
  - right. split; [lia|]. eexists _, _. split; [done|]. rewrite hide_rearmed by (by left).
    apply (hide_scan (t + delay) (materialized t d) x); [exact Hr|exact (co_skip _ _ Hc)].
Qed.
Lemma thunk_free env h d : core h d -> free_running d ->
  let t := env_now env in
  (max_u64 < t + conversionDelayForRank 0 d /\ ∃ e s w, conversionEventThunk env d = (inr e, s, w))
  \/ (t + conversionDelayForRank 0 d <= max_u64
      /\ ∃ d' w, conversionEventThunk env d = (inl tt, d', w)
                 /\ hide d' = hide (set_sched ConversionState.lazy None (lazy_step t d))).
Proof.
  intros Hc Hf t. unfold conversionEventThunk, set_next, set_conversion_state. rewrite !modify_bind.
  match goal with |- context [completeConversion env ?s] => set (d1 := s) end.
  destruct (complete_free env h d1) as [[Hm Hx]|(Hm&d'&w&E&Ev)]; [by destruct Hc|done|by destruct Hf| |].
  - left. split; [exact Hm|]. destruct Hx as (e&s&w&->). by eexists _, _, _.
  - right. split; [exact Hm|]. exists d', w. split; [by rewrite E|]. rewrite Ev. unfold materialized. cbn. done.
Qed.

(** *** Accesses *)

Lemma inv_stable env : stable (inv env).
Proof.
  constructor.
  - intros h s f [[Hc Hs Hr] He] Hf. pose proof (co_shape _ _ Hc) as Hb. destruct (Hf _ Hb) as [Hb' Ek].
    split; [split|]; [by destruct Hc|done|by apply rank_stable|]. intros El. specialize (He El). revert He.
    unfold lazyConversionEligible, conversionObservable, sequenceLength, continuousMode, started, trace_enabled. cbn.
    injection Ek as E1 E2 E3 E4 E5. by rewrite E1, E2, E3, E4, E5, (sh_loop _ Hb), (sh_loop _ Hb').
  - intros h s x [[[] ? ?] ?]. split; [split; [constructor|..]|]; done.
Qed.
Lemma sim_load env P w c : stable P -> similar env P (adc_loadRegister w c) (adc_loadRegister w c) (fun _ => P).
Proof.
  intros HP. sim_reg value. destruct (w =? dr); [|by apply sim_ret].
  sim_reg status. eapply sim_bind; [by apply sim_status; auto|]. intros [].
  eapply sim_bind; [by apply sim_refresh_level|]. intros []. by apply sim_ret.
Qed.
Lemma sim_read env P offset size c : stable P -> similar env P (read offset size c) (read offset size c) (fun _ => P).
Proof.
  intros HP. unfold read. eapply sim_bind; [by apply (sim_field env P (fun s => rangeFits offset (byteCount size) (rb_block_size (ad_block s))))|].
  intros []; cbn [negb]; [|by apply sim_field]. destruct (_ && _).
  { eapply sim_bind; [by apply sim_load|]. intros word. by apply sim_ret. }
  sim_to P; [|intros v; by apply sim_ret].
  generalize (Z.to_nat (byteCount size)) as fuel. generalize 0 at 1 3 as consumed. generalize 0 as value. intros value consumed fuel.
  revert consumed value. induction fuel as [|fuel IH]; intros consumed value; cbn [read_loop]; [by apply sim_ret|].
  destruct (consumed <? _); [|by apply sim_ret]. eapply sim_bind; [by apply sim_load|]. intros word. apply IH.
Qed.

(** A store to another register than CR, with the sequence length changed only while stopped. *)
Lemma steady_set env h (s : AdcPeripheral) w v : steady env h s -> 0 <= w -> w <> cr ->
  (w = sqr1 -> started (ad_block s) = false) -> steady env h {| s with ad_block := set_register w v (ad_block s) |}.
Proof.
  intros [[] Hs [Hr Hlt]] Hw Hne Hq. split; [constructor; try done; by apply shape_set|done|]. split; [done|].
  unfold started, sequenceLength in *. cbn. rewrite (registerValue_set_ne w cr) by done.
  destruct (decide (w = sqr1)) as [->|Hn]; [rewrite Hq by done; done|]. by rewrite (registerValue_set_ne w sqr1).
Qed.
Definition calm (env : Env) (stop : bool) : Two := fun h s => steady env h s /\ (stop = true -> started (ad_block s) = false).
Lemma calm_stable env stop : stable (calm env stop).
Proof.
  constructor.
  - intros h s f [[Hc Hs Hr] Hq] Hf. pose proof (co_shape _ _ Hc) as Hb. destruct (Hf _ Hb) as [Hb' Ek].
    split; [split; [by destruct Hc|done|by apply rank_stable]|]. cbn. by destruct (control_started _ _ Ek) as [-> _].
  - intros h s x [[[] ? ?] ?]. split; [split; [constructor|..]|]; done.
Qed.
Lemma sim_calm_set env stop w v : w <> cr -> 0 <= w -> (w = sqr1 -> stop = true) ->
  similar env (calm env stop) (setRegister w v) (setRegister w v) (fun _ => calm env stop).
Proof.
  intros Hne Hw Hq. apply sim_modify with (g := with_block (set_register w v)); [done|]. intros h s [Hs Hst].
  split; [apply steady_set; auto|]. intros E. unfold started. cbn. rewrite registerValue_set_ne by done. by apply Hst.
Qed.
Lemma sim_store env stop w previous v mask c : w <> cr -> 0 <= w -> (w = sqr1 -> stop = true) ->
  similar env (calm env stop) (adc_storeRegister w previous v mask c) (adc_storeRegister w previous v mask c) (fun _ => calm env stop).
Proof.
  intros Hne Hw Hq. unfold adc_storeRegister. eapply sim_bind; [by apply sim_field|]. intros []; [by apply sim_calm_set|].
  destruct (Z.eqb_spec w isr) as [->|_].
  { eapply sim_bind; [by apply sim_calm_set|]. intros []. apply sim_refresh_level, calm_stable. }
  destruct (Z.eqb_spec w ier) as [->|_].
  { sim_reg status. apply sim_level, calm_stable. }
  destruct (Z.eqb_spec w dr) as [->|_]; [by apply sim_calm_set|]. destruct (Z.eqb_spec w cr); [done|]. apply sim_skip.
Qed.

(** *** The control register *)

(** While CR is stored, the rank may not fit the sequence. *)
Definition unranked (env : Env) : Two := fun h s => core h s /\ sched (env_now env) s /\ 0 <= ad_sequence_rank s.
Lemma unranked_stable env : stable (unranked env).
Proof.
  constructor.
  - intros h s f (Hc&Hs&Hr) Hf. destruct (Hf _ (co_shape _ _ Hc)) as [Hb' _]. split_and!; try done. by destruct Hc.
  - intros h s x ([]&?&?). split_and!; done.
Qed.
Lemma sim_cancel env (P : Two) : (∀ h s, P h s -> core h s /\ 0 <= ad_sequence_rank s) ->
  similar env P cancelConversion cancelConversion (fun _ h s => between h s /\ ad_conversion_state s = ConversionState.idle).
Proof.
  intros HP. set (f := fun d : AdcPeripheral => {| d with ad_conversion_event := None; ad_suspended_conversion_cycles := 0;
    ad_suspended_override_ns := 0; ad_next_conversion_ns := None; ad_skipped_scan_count := 0;
    ad_conversion_state := ConversionState.idle |}).
  apply sim_run with (a := tt) (f1 := f) (f2 := f); try (intros s _; by eexists).
  - intros e l Hv _ _. exact (f_equal f Hv).
  - intros s Hs. by destruct (HP _ _ Hs) as [[] Hr].
  - intros s Hs. by destruct (HP _ _ Hs) as [[] Hr].
Qed.
Lemma sim_set_state env (P Q : Two) x : hide_state x = x ->
  (∀ h (s : AdcPeripheral), P h s -> Q h {| s with ad_conversion_state := x |}) ->
  similar env P (set_conversion_state x) (set_conversion_state x) (fun _ => Q).
Proof.
  intros Hx HQ. apply sim_modify with (g := fun s : AdcPeripheral => {| s with ad_conversion_state := x |}); [|done].
  intros s. unfold hide. cbn. by rewrite Hx.
Qed.

Lemma sim_start env (P : Two) : (∀ h s, P h s -> core h s /\ 0 <= ad_sequence_rank s) ->
  similar env P startConversion startConversion (fun _ => inv env).
Proof.
  intros HP. eapply sim_bind; [by apply sim_cancel|]. intros [].
  set (P0 := fun h s => between h s /\ ad_sequence_rank s = 0).
  sim_to P0. { apply sim_rank. by intros h s [[[] ? ? ?] _]. }
  intros []. sim_to P0.
  { apply sim_modify with (g := id); [done|]. by intros h s [[[] ? ? ?] ?]. }
  intros []. sim_to P0.
  { apply sim_modify with (g := fun s : AdcPeripheral => {| s with ad_skip_scan := false |}); [done|]. by intros h s [[[] ? ? ?] ?]. }
  intros []. sim_know clock. cbn beta.
  assert (∀ h s, P0 h s -> rank_ok s) as Hrank.
  { intros h s [_ Hr]. unfold rank_ok. rewrite Hr. pose proof (sequenceLength_pos (ad_block s)). lia. }
  destruct (Z.eqb_spec clock 0) as [->|Hk].
  - sim_know override. sim_read budget.
    sim_to P0.
    { destruct (negb _).
      - apply sim_modify with (g := fun s : AdcPeripheral => {| s with ad_suspended_override_ns := override |}); [done|].
        intros h s [[[[[] ? ? ?] ?] _] ->]. split; [split; [constructor|..]|]; done.
      - apply sim_modify with (g := fun s : AdcPeripheral => {| s with ad_suspended_conversion_cycles := budget |}); [done|].
        by intros h s [[[[[] ? ? ?] ?] _] _]. }
    intros []. apply sim_set_state; [done|]. intros h s Hs. pose proof (Hrank h s Hs). destruct Hs as [[[] ? ? ?] ?].
    by apply between_inv; [done|done|right].
  - sim_know loop. apply sim_assume with (X := loop = true).
    { intros h s [[[[[] _ _ _] _] _] ->]. by apply sh_loop. }
    intros ->. cbn [negb]. sim_know delay.
    eapply sim_assume with (X := 1 <= delay); [intros h s [[[[[Hc _ _ _] _] _] _] ->]; by eapply delay_pos|]. intros HD.
    eapply sim_conseq; [by apply sim_arm| |done]. intros h s [[[Hs Hk'] _] _]. pose proof (Hrank h s Hs). destruct Hs.
    split_and!; try done. congruence.
Qed.
Lemma sim_set_cr env (P Q : Two) v : (∀ h (s : AdcPeripheral), P h s -> Q h {| s with ad_block := set_register cr v (ad_block s) |}) ->
  similar env P (setRegister cr v) (setRegister cr v) (fun _ => Q).
Proof. intros HQ. by apply sim_modify with (g := with_block (set_register cr v)). Qed.
Lemma unranked_set env h (s : AdcPeripheral) v : unranked env h s ->
  unranked env h {| s with ad_block := set_register cr v (ad_block s) |}.
Proof. intros ([]&?&?). split_and!; try done. constructor; try done. by apply shape_set. Qed.

Lemma sim_store_control env value : similar env (unranked env) (store_control value) (store_control value) (fun _ => steady env).
Proof.
  unfold store_control. eapply sim_bind; [apply sim_silent; auto with fil|]. intros [].
  set (control := if has value adcal then _ else value).
  sim_to (unranked env).
  { apply sim_if; intros _; [|apply sim_skip]. sim_reg status.
    eapply sim_bind; [apply sim_status; [apply unranked_stable|auto]|]. intros [].
    eapply sim_conseq; [apply (sim_cancel env (unranked env)); by intros h s (?&?&?)|done|].
    intros _ h s [[Hc Hn He Hr] Est]. split_and!; try done. unfold sched. by rewrite Est, Hn, He. }
  intros []. set (control' := if has control addis then _ else control). sim_to (unranked env).
  { apply sim_if; intros _; [|apply sim_skip]. sim_reg status.
    apply sim_status; [apply unranked_stable|auto]. }
  intros []. sim_to (fun h s => unranked env h s /\ registerValue cr (ad_block s) = control').
  { apply sim_set_cr. intros h s Hs. split; [by apply unranked_set|]. apply value_set; [apply Hs|done|done]. }
  intros []. apply sim_if; intros Ha.
  - eapply sim_conseq; [apply (sim_start env (unranked env)); by intros h s (?&?&?)|by intros h s [? _]|]. by intros _ h s [? _].
  - apply sim_ret. intros h s [(Hc&Hs&Hr) E]. split; [done|done|]. split; [done|]. unfold started. rewrite E, Ha. done.
Qed.

Lemma sim_store_cr env previous v mask c :
  similar env (fun h s => unranked env h s /\ (has previous adstart = true -> ad_sequence_rank s < sequenceLength (ad_block s)))
    (adc_storeRegister cr previous v mask c) (adc_storeRegister cr previous v mask c) (fun _ => steady env).
Proof.
  unfold adc_storeRegister. eapply sim_bind; [by apply sim_field|]. intros [].
  - apply sim_set_cr. intros h s [Hs Hrank]. pose proof (unranked_set env h s previous Hs) as (Hc&Hd&Hr). split; [done|done|].
    split; [done|]. unfold started, sequenceLength. cbn [ad_block ad_sequence_rank]. rewrite value_set by (apply Hs || done).
    by rewrite registerValue_set_ne.
  - eapply sim_conseq; [apply sim_store_control|by intros h s [? _]|done].
Qed.

(** A store to any register keeps the devices alike. *)
Lemma sim_store_word env stop w bits mask c : 0 <= w < 0x50 -> w .& 3 = 0 -> (w = sqr1 -> stop = true) -> (w = cr -> stop = false) ->
  similar env (calm env stop) (store_word w bits mask c) (store_word w bits mask c) (fun _ => calm env stop).
Proof.
  intros Hw Ha Hq Hcr.
  apply sim_rewrite with (n := previous ← regValue w;
    setRegister w (merged_image previous bits mask);; storeRegister w previous (merged_image previous bits mask) mask c).
  { intros h s [[Hc _ _] _]. rewrite store_word_hook by (by apply shape_aligned; [apply Hc|..]). by rewrite regValue_bind, setRegister_bind. }
  destruct (decide (w = cr)) as [->|Hne].
  - rewrite Hcr by done. eapply sim_bind; [by apply (sim_known env _ (fun s => registerValue cr (ad_block s)))|].
    intros previous. eapply (sim_bind hide env _ _ _ _ _ (fun _ h s => unranked env h s
      /\ (has previous adstart = true -> ad_sequence_rank s < sequenceLength (ad_block s)))).
    + apply sim_set_cr. intros h s [[[Hc Hs [Hr Hlt]] _] ->]. split; [apply unranked_set; by split_and!|].
      intros Hst. specialize (Hlt Hst). unfold sequenceLength. cbn. by rewrite registerValue_set_ne.
    + intros []. eapply sim_conseq; [apply (sim_store_cr env previous)|done|]. by intros [] h s Hs.
  - sim_reg previous. eapply sim_bind; [apply sim_calm_set; try done; lia|].
    intros []. apply sim_store; try done; lia.
Qed.

(** An access that overlaps SQR1. *)
Definition touches_sqr1 (offset : Z) (size : AccessSize.t) : bool := (offset <? sqr1 + 4) && (sqr1 <? offset + byteCount size).
Lemma lane_word a : is_u32 a -> let w := a .& not32 3 in w <= a < w + 4 /\ 0 <= w /\ w .& 3 = 0.
Proof.
  intros Ha w. assert (w .& 3 = 0) as E.
  { unfold w. rewrite <- Z.land_assoc. by assert (not32 3 .& 3 = 0) as -> by done; rewrite Z.land_0_r. }
  assert (0 <= w) as Hw by (unfold w; pose proof (land_bounds_l a (not32 3)); width_lia).
  pose proof (word_of_address a Ha) as Ew. pose proof (aligned_multiple w Hw E). fold w in Ew. pose proof (Z.div_mod a 4).
  pose proof (Z.mod_pos_bound a 4). lia.
Qed.
Lemma sim_write_loop env stop fuel offset width v c consumed : 0 <= offset -> 0 <= consumed -> width <= 8 -> offset + width <= 0x50 ->
  stop = (offset <? sqr1 + 4) && (sqr1 <? offset + width) ->
  similar env (calm env stop) (write_loop fuel offset width v c consumed) (write_loop fuel offset width v c consumed) (fun _ => calm env stop).
Proof.
  intros Ho Hc Hw Hfit Hs. revert consumed Hc. induction fuel as [|fuel IH]; intros consumed Hc; cbn [write_loop]; [apply sim_skip|].
  destruct (Z.ltb_spec consumed width) as [Hlt|]; [|apply sim_skip]. rewrite (u32_small (offset + consumed)) by width_lia.
  destruct (lane_word (offset + consumed)) as (Hl&Hp&Ha); [width_lia|]. unfold sqr1, cr in *.
  set (w := (offset + consumed) .& not32 3) in *.
  eapply sim_bind; [apply sim_store_word; [lia|done|unfold sqr1, cr; intros E; rewrite Hs; lia|unfold sqr1, cr; intros E; rewrite Hs; lia]|].
  intros []. apply IH. pose proof (lane_positive (offset + consumed) width consumed Hlt). lia.
Qed.
Lemma sim_write env offset size v c :
  similar env (fun h s => inv env h s /\ (touches_sqr1 offset size = true -> started (ad_block s) = false))
    (write offset size v c) (write offset size v c) (fun r => match r with inl _ => steady env | inr _ => inv env end).
Proof.
  unfold write. eapply sim_bind; [by apply (sim_known env _ (fun s => rangeFits offset (byteCount size) (rb_block_size (ad_block s))))|].
  intros [] ; cbn [negb].
  - apply sim_assume with (X := 0 <= offset /\ offset + byteCount size <= 0x50).
    { intros h s [[[[[] _ _] _] _] E]. rewrite (sh_size _ co_shape0) in E. symmetry in E. by apply rangeFits_spec in E as (?&_&?). }
    intros [Ho Hf]. assert (byteCount size <= 8) as Hw8 by (destruct size; cbn; lia).
    set (stop := touches_sqr1 offset size).
    assert (∀ m : Dev AdcPeripheral unit, similar env (calm env stop) m m (fun _ => calm env stop) ->
      similar env (calm env stop) (m;; mret (inl 0 : MemoryResult Z)) (m;; mret (inl 0)) (fun r => match r with inl _ => steady env | inr _ => inv env end)) as Hret.
    { intros m Hm. eapply sim_bind; [exact Hm|]. intros []. apply sim_ret. by intros h s [? _]. }
    apply (sim_conseq hide env (calm env stop)) with (Q := fun r => match r with inl _ => steady env | inr _ => inv env end);
      [|by intros h s [[[? _] ?] _]|done].
    destruct ((byteCount size =? 4) && (offset .& 3 =? 0)) eqn:E; apply Hret; [|apply sim_write_loop; done || lia].
    apply andb_true_iff in E as [Ew%Z.eqb_eq Ea%Z.eqb_eq]. unfold stop, touches_sqr1, sqr1, cr.
    apply sim_store_word; unfold sqr1, cr; rewrite ?Ew; done || lia.
  - eapply sim_conseq; [by eapply (sim_get hide env _ _ (fun d => inr (accessFault offset size c _ d)))|intros h s Hs; exact Hs|]. by intros a h s [[[? _] _] ->].
Qed.

(** *** Operations on fresh devices *)

Lemma sim_sync env (P : Two) : (∀ h s, P h s -> inv env h s) ->
  similar env P synchronizeLazyConversions synchronizeLazyConversions (fun _ => P).
Proof.
  intros HP. assert (∀ h s, P h s -> ∃ w, synchronizeLazyConversions env s = (inl tt, s, w)) as Hs.
  { intros h s Hs. destruct (HP h s Hs) as [[Hc Hd _] _]. destruct (sync_run env h s Hc (or_introl Hd)) as [w E].
    rewrite synced_id in E by done. by exists w. }
  apply sim_run with (a := tt) (f1 := id) (f2 := id); try done; apply Hs.
Qed.
Lemma sim_refresh env : similar env (steady env) refreshConversionScheduling refreshConversionScheduling (fun _ => inv env).
Proof.
  apply sim_run with (a := tt) (f1 := refreshed env) (f2 := refreshed env); try apply refreshed_inv.
  - intros s [Hc Hs _]. eexists. by eapply refresh_steady_run.
  - intros s [Hc Hs _]. eexists. by eapply refresh_steady_run.
  - intros e l Hv _ _. by rewrite !hide_refreshed.
Qed.
Lemma sim_adc_read env offset size c :
  similar env (inv env) (adc_read offset size c) (adc_read offset size c) (fun _ => inv env).
Proof. eapply sim_bind; [by apply sim_sync|]. intros []. apply sim_read, inv_stable. Qed.
Lemma sim_adc_write env offset size v c :
  similar env (fun h s => inv env h s /\ (touches_sqr1 offset size = true -> started (ad_block s) = false))
    (adc_write offset size v c) (adc_write offset size v c) (fun _ => inv env).
Proof.
  eapply sim_bind; [apply sim_sync; by intros h s [? _]|]. intros []. eapply sim_bind; [apply sim_write|].
  intros [x|x]; [|by apply sim_ret]. eapply sim_bind; [apply sim_refresh|]. intros []. by apply sim_ret.
Qed.
Lemma sim_setChannelValue env channel value :
  similar env (inv env) (setChannelValue channel value) (setChannelValue channel value) (fun _ => inv env).
Proof.
  eapply sim_bind; [by apply sim_sync|]. intros []. apply sim_if; intros _; [|apply sim_skip].
  apply sim_modify with (g := fun d : AdcPeripheral =>
      {| d with ad_channel_values := <[Z.to_nat channel := Z.min value 0x0fff]> (ad_channel_values d);
                ad_channel_overrides := <[Z.to_nat channel := true]> (ad_channel_overrides d) |}); [done|].
  intros h s [[[] ? ?] ?]. split; [split; [constructor|..]|]; done.
Qed.

(** *** Clock changes *)

Definition known_core : Two := fun h s => core h s /\ rank_ok s.
Lemma sim_suspend env : similar env (inv env) suspend_clock suspend_clock (fun _ => inv env).
Proof.
  unfold suspend_clock. sim_know next.
  eapply sim_bind; [apply (sim_known env _ conversionIsGap); intros s; unfold conversionIsGap, hide; cbn; by destruct (ad_conversion_state s)|].
  intros gap. apply sim_assume with (X := gap = false).
  { intros h s [[[[_ Hs _] _] _] ->]. unfold conversionIsGap. unfold sched in Hs. by destruct (ad_conversion_state s). }
  intros ->. cbn [gap_or]. sim_to known_core.
  { destruct next as [next|]; [|apply sim_ret; by intros h s [[[[] ] _] _]].
    eapply sim_bind; [apply sim_now|]. intros now. sim_know override. sim_know clock.
    set (remaining := if now <? next then next - now else 0).
    apply sim_if; intros _.
    { apply sim_modify with (g := fun s : AdcPeripheral => {| s with ad_suspended_override_ns := remaining |}); [done|].
      intros h s [[[[[[[[] ? ?] _] _] _] _] _] _]. split; [constructor|]; try done. unfold remaining. cbn. case_match; lia. }
    apply sim_if; intros _; [apply sim_throw|].
    apply sim_modify with (g := fun s : AdcPeripheral => {| s with ad_suspended_conversion_cycles := remaining * clock |}); [done|].
    intros h s [[[[[[[[] ? ?] _] _] _] _] _] _]. split; [constructor|]; done. }
  intros []. set (state := match next with Some _ => _ | None => _ end).
  set (f := fun d : AdcPeripheral => {| d with ad_conversion_event := None; ad_next_conversion_ns := None; ad_input_clock_hz := 0;
                                               ad_conversion_state := state |}).
  assert (∀ h s, known_core h s -> inv env h (f s)) as Hf.
  { intros h s [[] Hr]. apply between_inv; try done.
    - split; [by constructor|done|done|apply Hr].
    - cbn. unfold state. destruct next; auto. }
  apply sim_run with (a := tt) (f1 := f) (f2 := f); try apply Hf; try (intros s _; by eexists).
  assert (∀ s, hide (f s) = f (hide s)) as Eh by (intros s; unfold f, hide, state; by destruct next).
  intros e l Hv _ _. by rewrite !Eh, Hv.
Qed.

Lemma ceil_delay_pos product clock : 1 <= ceil_delay product clock.
Proof. unfold ceil_delay. lia. Qed.
Definition armed_as (ep : bool -> bool) (env : Env) : Two := fun h s => steady env h s /\ conversionEventArmed s = ep h.
Lemma armed_suspended env ep h (s : AdcPeripheral) x y : armed_as ep env h s -> 0 <= x ->
  armed_as ep env h {| s with ad_suspended_override_ns := x; ad_suspended_conversion_cycles := y |}.
Proof. intros [[[] ? ?] ?] Hx. split; [split; [constructor|..]|]; done. Qed.
Lemma sim_rescheduled env ep next_hz :
  similar env (armed_as ep env) (rescheduled_time next_hz) (rescheduled_time next_hz)
    (fun r h s => armed_as ep env h s /\ ∀ t, r = Some t -> env_now env < t).
Proof.
  unfold rescheduled_time. eapply sim_bind; [apply sim_now|]. intros now. apply sim_assume with (X := now = env_now env).
  { intros h s [[[[] _ _] _] ->]. unfold current_time. by rewrite (sh_loop _ co_shape0). }
  intros ->. sim_read previous_hz. sim_know so.
  apply sim_assume with (X := 0 <= so). { by intros h s [[[[[] _ _] _] _] ->]. } intros Hso.
  sim_read sc. sim_read next.
  sim_read override.
  apply (sim_pre hide env (armed_as ep env)); [by intros h s [[? _] _]|].
  destruct (Z.eqb_spec so 0) as [->|Hne]; cbn [negb].
  2: { destruct (_ <? so); [apply sim_throw|]. sim_to (armed_as ep env).
       - apply sim_modify with (g := fun s : AdcPeripheral => {| s with ad_suspended_override_ns := 0 |}); [done|].
         intros h s Hs. by apply (armed_suspended env ep h s 0 (ad_suspended_conversion_cycles s)).
       - intros []. apply sim_ret. intros h s Hs. split; [done|]. intros t [= <-]. lia. }
  destruct (negb _).
  { pose proof (ceil_delay_pos sc next_hz). destruct (_ <? _); [apply sim_throw|].
    sim_to (armed_as ep env).
    - apply sim_modify with (g := fun s : AdcPeripheral => {| s with ad_suspended_conversion_cycles := 0 |}); [done|].
      intros h s Hs. apply (armed_suspended env ep h s (ad_suspended_override_ns s) 0); [done|]. by destruct Hs as [[[]]].
    - intros []. apply sim_ret. intros h s Hs. split; [done|]. intros t [= <-]. lia. }
  destruct next as [next|]; [|by apply sim_ret]. destruct (override =? 0); [|by apply sim_ret].
  set (remaining := if _ <? next then _ else _). destruct (_ <? remaining); [apply sim_throw|]. destruct (_ && _); [apply sim_throw|].
  pose proof (ceil_delay_pos (remaining * previous_hz) next_hz). destruct (max_u64 - _ <? _); [apply sim_throw|]. apply sim_ret.
  intros h s Hs. split; [done|]. intros t [= <-]. lia.
Qed.

(** A device whose event was taken back for the new clock. *)
Record loose (env : Env) (h : bool) (s : AdcPeripheral) : Prop := mk_loose {
  lo_core : core h s;
  lo_rank : rank_ok s;
  lo_event : ad_conversion_event s = None;
  lo_state : match ad_next_conversion_ns s with
             | Some next => env_now env < next /\ hide_state (ad_conversion_state s) = ConversionState.scheduled
             | None => ad_conversion_state s = ConversionState.idle \/ ad_conversion_state s = ConversionState.suspended
             end;
}.
Lemma loose_next env h s t : loose env h s -> env_now env < t -> loose env h (with_next t s).
Proof. intros [[] ? ? ?] Ht. by split. Qed.
Lemma loose_disarm env ep h s : armed_as ep env h s ->
  let s' := if ep h then with_event (fun _ => None) s else s in
  loose env h s' /\ (ep h = true -> is_Some (ad_next_conversion_ns s')).
Proof.
  intros [[[] Hs Hr] <-] s'. unfold s', sched, conversionEventArmed in *.
  destruct (ad_conversion_state s) eqn:Est, (ad_next_conversion_ns s) as [n|] eqn:En, (ad_conversion_event s) as [ev|] eqn:Ev; try done.
  - split; [|done]. split; try done. rewrite En. by left.
  - destruct Hs as (_&Ht&_). split; [|intros _; cbn; rewrite En; by eexists]. split; try done. cbn. by rewrite En, Est.
  - destruct Hs as (Ht&_). split; [|done]. split; try done. by rewrite En, Est.
  - split; [|done]. split; try done. rewrite En. by right.
Qed.

Lemma loose_refresh env h s next : loose env h s -> ad_input_clock_hz s <> 0 -> ad_next_conversion_ns s = Some next ->
  refreshConversionScheduling env s = (inl tt, rearmed env s, []) /\ hide (rearmed env s) = hide s /\ inv env h (rearmed env s).
Proof.
  intros [Hc Hrk He Hst] Hk En. rewrite En in Hst. destruct Hst as [Ht Hst].
  assert (ad_conversion_state s = ConversionState.scheduled \/ ad_conversion_state s = ConversionState.lazy) as Hs
    by (destruct (ad_conversion_state s); auto; done). split_and!.
  - eapply refresh_active; [done|done|lia|done|by left].
  - by apply hide_rearmed.
  - by eapply rearmed_inv.
Qed.
Lemma loose_idle env h s : loose env h s -> ad_next_conversion_ns s = None -> inv env h s.
Proof. intros [Hc Hrk He Hst] En. rewrite En in Hst. apply between_inv; try done. split; try done. apply Hrk. Qed.

(** The end of a clock change: a deadline is rescheduled. *)
Lemma sim_settle env (a b : bool) (r : option Z) (P : Two) :
  (∀ h s, P h s -> loose env h s /\ ad_input_clock_hz s <> 0 /\ (is_Some r -> is_Some (ad_next_conversion_ns s))
     /\ ((if h then a else b) = true -> is_Some (ad_next_conversion_ns s))) ->
  let settle (event_pending : bool) :=
    next ← get ad_next_conversion_ns;
    if event_pending || bool_decide (is_Some r) || bool_decide (is_Some next) then refreshConversionScheduling else skip in
  similar env P (settle a) (settle b) (fun _ => inv env).
Proof.
  intros HP settle. eapply sim_bind; [by apply sim_known|]. intros [next|].
  - rewrite (bool_decide_eq_true_2 (is_Some (Some next))) by by eexists. rewrite !orb_true_r.
    assert (∀ h s, P h s /\ Some next = ad_next_conversion_ns s -> refreshConversionScheduling env s = (inl tt, rearmed env s, [])
      /\ hide (rearmed env s) = hide s /\ inv env h (rearmed env s)) as Hx.
    { intros h s [Hs En]. destruct (HP h s Hs) as (Hl&Hk&_). by eapply loose_refresh. }
    apply sim_run with (a := tt) (f1 := rearmed env) (f2 := rearmed env); try (intros s Hs; by apply (Hx _ s Hs)).
    + intros s Hs. eexists. by apply (Hx true s Hs).
    + intros s Hs. eexists. by apply (Hx false s Hs).
    + intros e l Hv He Hl. destruct (Hx _ _ He) as (_&->&_), (Hx _ _ Hl) as (_&->&_). done.
  - assert (∀ h s, P h s /\ None = ad_next_conversion_ns s -> (if h then a else b) = false /\ r = None) as Hnone.
    { intros h s [Hs En]. destruct (HP h s Hs) as (_&_&Hr&Hep). rewrite <- En in Hep, Hr. split.
      - destruct (if h then a else b); [|done]. by destruct (Hep eq_refl).
      - destruct r; [|done]. by destruct Hr. }
    apply sim_assume_sides with (X := a = false /\ r = None) (Y := b = false); [apply (Hnone true)|intros s Hs; by apply (Hnone false s)|].
    intros [-> ->] ->. rewrite !bool_decide_eq_false_2 by (by intros [? ?]). apply sim_ret.
    intros h s [Hs En]. by apply loose_idle; [apply HP|].
Qed.
Lemma sim_setInputClockHz env next_hz : 0 <= next_hz ->
  similar env (inv env) (setInputClockHz next_hz) (setInputClockHz next_hz) (fun _ => inv env).
Proof.
  intros Hhz. unfold setInputClockHz. sim_read current. destruct (next_hz =? current); [apply sim_skip|].
  eapply sim_bind; [by apply sim_sync|]. intros []. destruct (Z.eqb_spec next_hz 0) as [_|Hne]; [apply sim_suspend|].
  eapply sim_bind; [apply (sim_known env _ conversionIsGap); intros s; unfold conversionIsGap, hide; cbn; by destruct (ad_conversion_state s)|].
  intros gap. apply sim_assume with (X := gap = false).
  { intros h s [[[_ Hs _] _] ->]. unfold conversionIsGap. unfold sched in Hs. by destruct (ad_conversion_state s). }
  intros ->. cbn [gap_or]. apply sim_get_hidden. intros a b. set (ep := fun h : bool => if h then a else b).
  apply (sim_pre hide env (armed_as ep env)); [by intros h s [[[? _] _] ?]|].
  eapply sim_bind; [apply sim_rescheduled|]. intros r. apply sim_assume with (X := ∀ t, r = Some t -> env_now env < t); [by intros h s [_ ?]|].
  intros Hr. set (P := fun h s => loose env h s /\ (ep h = true -> is_Some (ad_next_conversion_ns s))).
  sim_to P.
  { apply sim_run with (a := tt) (f1 := fun s => if a then with_event (fun _ => None) s else s)
      (f2 := fun s => if b then with_event (fun _ => None) s else s).
    - intros s _. destruct a; by eexists.
    - intros s _. destruct b; by eexists.
    - intros e l Hv _ _. by destruct a, b.
    - intros s [Hs _]. exact (loose_disarm env ep true s Hs).
    - intros s [Hs _]. exact (loose_disarm env ep false s Hs). }
  intros []. set (P1 := fun h s => P h s /\ ad_input_clock_hz s <> 0). sim_to P1.
  { apply sim_modify with (g := fun s : AdcPeripheral => {| s with ad_input_clock_hz := next_hz |}); [done|].
    intros h s [[[] ? ? ?] ?]. by split; [split; [split|]|]. }
  intros []. set (P2 := fun h s => P1 h s /\ (is_Some r -> is_Some (ad_next_conversion_ns s))).
  assert (∀ t h s, env_now env < t -> P1 h s -> P2 h (with_next t s)) as Hnext.
  { intros t h s Ht [[Hl _] Hk]. split; [split; [split; [by apply loose_next|]|]|]; done || (intros _; by eexists). }
  assert (∀ t, env_now env < t -> similar env P1 (set_next (Some t);; set_conversion_state ConversionState.scheduled)
    (set_next (Some t);; set_conversion_state ConversionState.scheduled) (fun _ => P2)) as Hset.
  { intros t Ht. apply sim_run with (a := tt) (f1 := with_next t) (f2 := with_next t); auto; try (intros s _; by eexists).
    intros e l Hv _ _. exact (f_equal (with_next t) Hv). }
  sim_to P2.
  { destruct r as [t|]; [apply Hset; auto|]. apply sim_ret. intros h s Hs. split; [done|]. by intros [? ?]. }
  intros []. eapply sim_bind; [apply sim_now|]. intros now. apply sim_assume with (X := now = env_now env).
  { intros h s [[[[[[] _ _ _] _] _] _] ->]. unfold current_time. by rewrite (sh_loop _ co_shape0). }
  intros ->. eapply sim_bind.
  { by apply (sim_field env _ (fun d => bool_decide (ad_next_conversion_ns d = None) && started (ad_block d))). }
  intros waiting. sim_read rank. sim_know delay.
  apply sim_assume with (X := 1 <= delay). { intros h s [[[[[[Hc _ _ _] _] _] _] _] ->]. by eapply delay_pos. }
  intros HD. sim_to P2.
  { apply sim_if; intros _; [|apply sim_ret; by intros h s [[? _] _]].
    apply (sim_pre hide env P1); [by intros h s [[[? _] _] _]|]. apply Hset. lia. }
  intros []. apply sim_settle. intros h s [[[Hl Hep] Hk] Hr']. by split_and!.
Qed.

(** ** Timed operations *)

Inductive AdcOp :=
  | ao_read (offset : Z) (size : AccessSize.t)
  | ao_write (offset : Z) (size : AccessSize.t) (value : Z)
  | ao_channel (channel value : Z)
  | ao_clock (hz : Z).
#[global] Instance AdcOp_eq_dec : EqDecision AdcOp.
Proof. solve_decision. Defined.
Definition op_valid (op : AdcOp) : Prop := match op with ao_clock hz => 0 <= hz | _ => True end.
(** The sequence length is fixed while conversions run (reference manual, ADC_SQR1). *)
Definition allowed (op : AdcOp) (d : AdcPeripheral) : bool :=
  match op with ao_write offset size _ => negb (touches_sqr1 offset size && started (ad_block d)) | _ => true end.
Definition adc_op (c : AccessContext) (op : AdcOp) : Dev AdcPeripheral (MemoryResult Z) :=
  match op with
  | ao_read offset size => adc_read offset size c
  | ao_write offset size value => adc_write offset size value c
  | ao_channel channel value => setChannelValue channel value;; mret (inl 0)
  | ao_clock hz => setInputClockHz hz;; mret (inl 0)
  end.

(** The callback that the pending event was scheduled with. *)
Definition event_callback (d : AdcPeripheral) : Dev AdcPeripheral unit :=
  match ad_conversion_state d with ConversionState.skipped_gap => skippedScanEventThunk | _ => conversionEventThunk end.
(** The event loop up to [t]: due events run at their deadlines; [None] when the fuel is used up. *)
Fixpoint adc_elapse (fuel : nat) (env : Env) (t : Z) (d : AdcPeripheral) : option (AdcPeripheral + string) :=
  match ad_conversion_event d with
  | Some at_ns =>
      if at_ns <=? t then
        match fuel with
        | O => None
        | S fuel =>
            match event_callback d (at_time at_ns env) d with
            | (inl _, d, _) => adc_elapse fuel env t d
            | (inr e, _, _) => Some (inr e)
            end
        end
      else Some (inl d)
  | None => Some (inl d)
  end.

Inductive AdcRun :=
  | finished (results : list (MemoryResult Z)) (d : AdcPeripheral)
  | thrown
  | rejected
  | exhausted.
Definition prepend (r : MemoryResult Z) (run : AdcRun) : AdcRun :=
  match run with finished out d => finished (r :: out) d | run => run end.
Fixpoint adc_drive (c : AccessContext) (env : Env) (now : Z) (ops : list (Z * AdcOp)) (d : AdcPeripheral) : AdcRun :=
  match ops with
  | [] => finished [] d
  | (t, op) :: ops =>
      match adc_elapse (Z.to_nat (t - now)) env t d with
      | None => exhausted
      | Some (inr _) => thrown
      | Some (inl d) =>
          if allowed op d then
            match adc_op c op (at_time t env) d with
            | (inl r, d, _) => prepend r (adc_drive c env t ops d)
            | (inr _, _, _) => thrown
            end
          else rejected
      end
  end.
Fixpoint timed (now : Z) (ops : list (Z * AdcOp)) : Prop :=
  match ops with [] => True | (t, _) :: ops => now <= t /\ timed t ops end.

(** *** Devices that have not looked since *)

Record rel (env : Env) (t : Z) (e l : AdcPeripheral) : Prop := mk_rel {
  rel_view : hide e = hide (synced t l);
  rel_eager : inv (at_time t env) true e;
  rel_lazy : inv (at_time t env) false (synced t l);
  rel_core : core false l;
  rel_stale : ad_conversion_state l = ConversionState.lazy ->
    ad_conversion_state (synced t l) = ConversionState.lazy /\ ad_conversion_event l = None;
}.
Lemma rel_fresh env t e l : hide e = hide l -> inv (at_time t env) true e -> inv (at_time t env) false l -> rel env t e l.
Proof.
  intros Hv He Hl. assert (synced t l = l) as Es by apply (synced_id t l (st_sched _ _ _ (in_steady _ _ _ Hl))).
  split; rewrite ?Es; try done; [apply Hl|]. intros El. split; [done|]. destruct Hl as [[_ Hs _] _]. unfold sched in Hs. rewrite El in Hs.
  by destruct (ad_next_conversion_ns l), (ad_conversion_event l).
Qed.
Lemma synced_synced t t' l h : core h l -> ad_conversion_state l = ConversionState.lazy ->
  ad_conversion_state (synced t l) = ConversionState.lazy -> t <= t' -> synced t' (synced t l) = synced t' l.
Proof.
  intros Hc Hl Hsl Ht. pose proof (delay_pos 0 l h Hc) as HD. unfold synced at 2. unfold synced in Hsl. rewrite Hl in *.
  destruct (ad_next_conversion_ns l) as [next|] eqn:En; [|done]. destruct (Z.ltb_spec t next); [done|].
  set (D := conversionDelayForRank 0 l) in *. set (latest := next + (t - next) / D * D) in *. cbv zeta in *.
  destruct (max_u64 - D <? latest) eqn:Em; [done|]. pose proof (Z.div_mod (t - next) D). pose proof (Z.mod_pos_bound (t - next) D).
  unfold synced. cbn [deadline ad_conversion_state materialized ad_next_conversion_ns]. rewrite Hl, En.
  assert (conversionDelayForRank 0 (deadline (Some (latest + D)) (materialized latest l)) = D) as Ed by exact (materialized_delay 0 latest l).
  rewrite (proj2 (Z.ltb_ge t' next)) by lia. rewrite Ed. fold D. cbv zeta. destruct (Z.ltb_spec t' (latest + D)).
  - assert ((t' - next) / D = (t - next) / D) as -> by (apply div_unique_between; [lia|]; unfold latest in *; nia). fold latest.
    by rewrite Em.
  - assert (latest + D + (t' - (latest + D)) / D * D = next + (t' - next) / D * D) as ->.
    { replace (t' - next) with ((t' - (latest + D)) + ((t - next) / D + 1) * D) by (unfold latest; lia).
      rewrite Z.div_add by lia. unfold latest. lia. }
    set (latest' := next + (t' - next) / D * D). rewrite (materialized_later latest') by apply Hc. by destruct (_ <? latest').
Qed.

Lemma inv_at env t t' h d : inv (at_time t env) h d ->
  (∀ next, ad_next_conversion_ns d = Some next -> t' < next) -> inv (at_time t' env) h d.
Proof.
  intros [[Hc Hs Hr] Hl] Ht. split; [split; [done| |done]|exact Hl]. unfold sched in *. cbn [env_now at_time] in *.
  destruct (ad_conversion_state d), (ad_next_conversion_ns d) as [next|], (ad_conversion_event d); try done; specialize (Ht next eq_refl); tauto.
Qed.
(** The event of a device that is not lazy is its deadline. *)
Lemma eager_state env d : inv env true d -> ad_conversion_state d <> ConversionState.lazy.
Proof.
  intros [[Hc _ _] Hl] E. specialize (Hl E). revert Hl. unfold lazyConversionEligible, conversionObservable.
  by rewrite (co_history _ _ Hc), orb_true_r, andb_false_r.
Qed.
Lemma eager_event env h d : inv env h d -> ad_conversion_state d <> ConversionState.lazy ->
  ad_conversion_event d = ad_next_conversion_ns d
  /\ ∀ next, ad_next_conversion_ns d = Some next ->
       ad_conversion_state d = ConversionState.scheduled /\ ad_input_clock_hz d <> 0 /\ env_now env < next.
Proof.
  intros [[_ Hs _] _] Hn. unfold sched in Hs.
  destruct (ad_conversion_state d), (ad_next_conversion_ns d) as [next|], (ad_conversion_event d); try done.
  destruct Hs as (<-&?&?). split; [done|]. by intros n [= <-].
Qed.
Lemma lazy_event env h d : inv env h d -> ad_conversion_state d = ConversionState.lazy ->
  ad_conversion_event d = None /\ ad_input_clock_hz d <> 0 /\ is_Some (ad_next_conversion_ns d).
Proof.
  intros [[_ Hs _] _] E. unfold sched in Hs. rewrite E in Hs.
  destruct (ad_next_conversion_ns d) as [next|], (ad_conversion_event d); try done. by destruct Hs.
Qed.
(** A free-running device after a lazy conversion. *)
Lemma lazy_step_inv env d : core false d -> rank_ok d -> ad_conversion_state d = ConversionState.lazy ->
  ad_conversion_event d = None -> lazyConversionEligible env d = true -> ad_input_clock_hz d <> 0 -> inv env false (lazy_step (env_now env) d).
Proof.
  intros Hc Hr Hst Hev Hel Hk. pose proof (delay_pos 0 d false Hc) as HD. set (t := env_now env) in *.
  assert (inv env false (deadline (Some (t + conversionDelayForRank 0 d)) d)) as Hi.
  { split; [split|]; [by destruct Hc| |done|done]. unfold sched. cbn. rewrite Hst, Hev. split; [unfold t in *; lia|done]. }
  set (f := converted (channel_value (channelForRank (ad_sequence_rank d) (ad_block d)) t d) (ad_sequence_rank d)).
  apply (stable_block _ (inv_stable env) false _ f Hi). intros b Hb. split; [by apply converted_shape|apply converted_control].
Qed.
Lemma eligible_free env d : lazyConversionEligible env d = true -> rank_ok d -> ad_input_clock_hz d <> 0 -> free_running d.
Proof.
  unfold lazyConversionEligible. rewrite !andb_true_iff, Z.eqb_eq. intros [[[[_ Hl] Hc] Hs] _] [Hr Hlt] Hk.
  specialize (Hlt Hs). split; try done. lia.
Qed.

Lemma elapse_wait fuel env t d : (∀ n, ad_conversion_event d = Some n -> t < n) -> adc_elapse fuel env t d = Some (inl d).
Proof.
  intros Hd. destruct fuel; cbn; (destruct (ad_conversion_event d) as [n|]; [|done]);
    by rewrite (proj2 (Z.leb_gt n t)) by by apply Hd.
Qed.
Lemma elapse_due fuel env t n d : ad_conversion_event d = Some n -> n <= t -> ad_conversion_state d = ConversionState.scheduled ->
  adc_elapse (S fuel) env t d = match conversionEventThunk (at_time n env) d with
                                | (inl _, d, _) => adc_elapse fuel env t d
                                | (inr e, _, _) => Some (inr e)
                                end.
Proof. intros Ev Hn Est. cbn [adc_elapse]. rewrite Ev, (proj2 (Z.leb_le n t)) by done. unfold event_callback. by rewrite Est. Qed.

(** The next conversion, as an event on one side and an event or a lazy conversion on the other. *)
Lemma event_alike env t n e l e' w : hide e = hide l -> inv (at_time t env) true e -> inv (at_time t env) false l ->
  ad_next_conversion_ns l = Some n -> conversionEventThunk (at_time n env) e = (inl tt, e', w) ->
  inv (at_time n env) true e' /\
  if decide (ad_conversion_state l = ConversionState.lazy)
  then n + conversionDelayForRank 0 l <= max_u64 /\ hide e' = hide (lazy_step n l) /\ inv (at_time n env) false (lazy_step n l)
  else ∃ l' w', conversionEventThunk (at_time n env) l = (inl tt, l', w') /\ hide e' = hide l' /\ inv (at_time n env) false l'.
Proof.
  intros Hv He Hl En Ee.
  assert (ad_next_conversion_ns e = Some n) as Ene by (rewrite <- En; exact (f_equal ad_next_conversion_ns Hv)).
  destruct (eager_event _ _ _ He (eager_state _ _ He)) as [_ Hke]. destruct (Hke n Ene) as (_&Hk&_).
  assert (ad_input_clock_hz l <> 0) as Hkl by (rewrite <- (f_equal ad_input_clock_hz Hv : ad_input_clock_hz e = ad_input_clock_hz l); done).
  pose proof (st_core _ _ _ (in_steady _ _ _ He)). pose proof (st_rank _ _ _ (in_steady _ _ _ He)).
  pose proof (st_core _ _ _ (in_steady _ _ _ Hl)) as Hc. pose proof (st_rank _ _ _ (in_steady _ _ _ Hl)) as Hr.
  pose proof (sim_thunk (at_time n env) e l Hv ltac:(by split_and!) ltac:(by split_and!)) as Hs. rewrite Ee in Hs.
  destruct Hs as (l'&w'&El&Hv'&He'&Hl'). split; [done|]. case_decide as Hlazy; [|by eexists _, _].
  pose proof (in_lazy _ _ _ Hl Hlazy) as Hel. change (lazyConversionEligible (at_time t env) l) with (lazyConversionEligible (at_time n env) l) in Hel.
  destruct (lazy_event _ _ _ Hl Hlazy) as (Hev&_&_).
  destruct (thunk_free (at_time n env) false l Hc (eligible_free _ _ Hel Hr Hkl)) as [[_ (x&s&u&Ex)]|(Hm&d'&u&Ex&Hd)];
    rewrite El in Ex; [done|]. injection Ex as -> ->. cbn [env_now at_time] in *. split; [done|]. split.
  - rewrite Hv', Hd. unfold hide. cbn. by rewrite Hlazy.
  - exact (lazy_step_inv (at_time n env) l Hc Hr Hlazy Hev Hel Hkl).
Qed.

Lemma elapse_alike env t' fuel : ∀ t e l, hide e = hide l -> inv (at_time t env) true e -> inv (at_time t env) false l ->
  t <= t' -> t' - t <= Z.of_nat fuel ->
  match adc_elapse fuel env t' e with
  | None => False
  | Some (inr _) => True
  | Some (inl e') => ∃ l', adc_elapse fuel env t' l = Some (inl l') /\ rel env t' e' l'
  end.
Proof.
  induction fuel as [|fuel IH]; intros t e l Hv He Hl Ht Hf.
  all: assert (ad_next_conversion_ns e = ad_next_conversion_ns l) as Enx by exact (f_equal ad_next_conversion_ns Hv).
  all: destruct (eager_event _ _ _ He (eager_state _ _ He)) as [Eve Hke].
  all: assert (ad_conversion_event l = ad_next_conversion_ns l \/ ad_conversion_event l = None) as Evl
    by (destruct (decide (ad_conversion_state l = ConversionState.lazy)) as [E|E];
        [right; by destruct (lazy_event _ _ _ Hl E)|left; by destruct (eager_event _ _ _ Hl E)]).
  all: assert ((∀ n, ad_next_conversion_ns e = Some n -> t' < n) \/ ∃ n, ad_next_conversion_ns e = Some n /\ n <= t') as [Hw|(n&En&Hn)]
    by (destruct (ad_next_conversion_ns e) as [n|]; [|by left]; destruct (Z.lt_ge_cases t' n); [left; by intros ? [= <-]|right; eauto]).
  1,3: rewrite elapse_wait by (rewrite Eve; exact Hw); exists l; split;
      [apply elapse_wait; intros n En; apply Hw; destruct Evl; congruence|];
      apply rel_fresh; [done|by eapply inv_at|]; eapply inv_at; [exact Hl|]; intros n En; apply Hw; congruence.
  { destruct (Hke n En) as (_&_&Hlt). cbn in Hlt. lia. }
  destruct (Hke n En) as (Hst&Hk&Hlt). cbn in Hlt. rewrite (elapse_due fuel env t' n e) by (congruence || done).
  destruct (conversionEventThunk (at_time n env) e) as [[[[]|x] e'] w] eqn:Ee; [|done].
  destruct (event_alike env t n e l e' w Hv He Hl ltac:(congruence) Ee) as [He' Halike]. case_decide as Hlazy.
  - destruct Halike as (Hm&Hv'&Hl'). destruct (lazy_event _ _ _ Hl Hlazy) as (Hev&_&_).
    specialize (IH n e' (lazy_step n l) Hv' He' Hl' Hn ltac:(lia)). destruct (adc_elapse fuel env t' e') as [[e''|]|]; [|done..].
    destruct IH as (l''&El&Hrel). exists l. split; [apply elapse_wait; congruence|].
    rewrite (elapse_wait fuel env t' (lazy_step n l)) in El by (intros m Em; cbn in Em; congruence). injection El as <-.
    pose proof (synced_step false t' l n (st_core _ _ _ (in_steady _ _ _ Hl)) Hlazy ltac:(congruence) Hn Hm) as Es.
    destruct Hrel as [Hv2 He2 Hl2 Hc2 Hs2]. split; [by rewrite Es|done|by rewrite Es|apply Hl|].
    intros _. rewrite Es. split; [|done]. by apply Hs2.
  - destruct Halike as (l'&w'&El&Hv'&Hl'). destruct (eager_event _ _ _ Hl Hlazy) as [Ev Hkl].
    destruct (Hkl n ltac:(congruence)) as (Hsl&_&_). rewrite (elapse_due fuel env t' n l), El by (congruence || done).
    apply (IH n); done || lia.
Qed.

Lemma rel_elapse env t t' e l : rel env t e l -> t <= t' ->
  match adc_elapse (Z.to_nat (t' - t)) env t' e with
  | None => False
  | Some (inr _) => True
  | Some (inl e') => ∃ l', adc_elapse (Z.to_nat (t' - t)) env t' l = Some (inl l') /\ rel env t' e' l'
  end.
Proof.
  intros [Hv He Hl Hc Hst] Ht. set (fuel := Z.to_nat (t' - t)).
  pose proof (elapse_alike env t' fuel t e (synced t l) Hv He Hl Ht ltac:(lia)) as Hal.
  destruct (adc_elapse fuel env t' e) as [[e'|]|]; [|done..]. destruct Hal as (l'&El&Hrel).
  destruct (decide (ad_conversion_state l = ConversionState.lazy)) as [Hlazy|Hn].
  - destruct (Hst Hlazy) as [Hsl Hev]. exists l. split; [apply elapse_wait; congruence|].
    destruct (lazy_event _ _ _ Hl Hsl) as (Hev'&_&_). rewrite elapse_wait in El by congruence. injection El as <-.
    destruct Hrel as [Hv2 He2 Hl2 _ Hs2]. pose proof (synced_synced t t' l false Hc Hlazy Hsl Ht) as Es.
    rewrite Es in *. split; try done. intros _. split; [by apply Hs2|done].
  - assert (synced t l = l) as Es by (unfold synced; by destruct (ad_conversion_state l)). rewrite Es in *. by exists l'.
Qed.

(** Operations that look first do the same on a stale device as on a fresh one. *)
Lemma sync_first {B} env t l (k : Dev AdcPeripheral B) : core false l -> inv (at_time t env) false (synced t l) ->
  ad_conversion_state l = ConversionState.lazy \/ synced t l = l ->
  fst ((synchronizeLazyConversions;; k) (at_time t env) l) = fst ((synchronizeLazyConversions;; k) (at_time t env) (synced t l)).
Proof.
  intros Hc Hi Hl. set (env' := at_time t env) in *.
  assert (sched (env_now env') l \/ ad_conversion_state l = ConversionState.lazy) as Hs
    by (destruct Hl as [Hl|Hl]; [by right|left; rewrite Hl in Hi; apply Hi]).
  destruct (sync_run env' false l Hc Hs) as [w E]. change (env_now env') with t in E.
  destruct (sync_run env' false (synced t l)) as [w' E']; [apply Hi|left; apply Hi|].
  change (env_now env') with t in E'. rewrite (synced_id t (synced t l)) in E' by apply Hi.
  rewrite (bind_inl _ _ _ _ _ _ _ E), (bind_inl _ _ _ _ _ _ _ E'). by destruct (k env' (synced t l)) as [[? ?] ?].
Qed.
Lemma synced_clock t l : ad_input_clock_hz (synced t l) = ad_input_clock_hz l.
Proof. unfold synced. by repeat case_match. Qed.
Lemma synced_started t l : started (ad_block (synced t l)) = started (ad_block l).
Proof.
  unfold synced. repeat case_match; try done; apply control_started; cbn [ad_block deadline set_sched materialized]; apply converted_control.
Qed.
Lemma bind_fst {S A B} (m m' : (A + string) * S * list Effect) (f : A -> Dev S B) env : fst m = fst m' ->
  fst (match m with (inl a, s, w) => let '(r, s, w') := f a env s in (r, s, w ++ w') | (inr e, s, w) => (inr e, s, w) end)
  = fst (match m' with (inl a, s, w) => let '(r, s, w') := f a env s in (r, s, w ++ w') | (inr e, s, w) => (inr e, s, w) end).
Proof. destruct m as [[[a|x] s] w], m' as [[[a'|x'] s'] w']; cbn; intros [= -> ->]; [|done]. by destruct (f a' env s') as [[? ?] ?]. Qed.
Lemma op_fresh c op env t l : core false l -> inv (at_time t env) false (synced t l) ->
  ad_conversion_state l = ConversionState.lazy \/ synced t l = l ->
  (∀ hz, op = ao_clock hz -> hz <> ad_input_clock_hz l) ->
  fst (adc_op c op (at_time t env) l) = fst (adc_op c op (at_time t env) (synced t l)).
Proof.
  intros Hc Hi Hl Hop. destruct op as [offset size|offset size v|channel v|hz]; try (by apply sync_first).
  - apply bind_fst. by apply sync_first.
  - apply bind_fst. unfold setInputClockHz. rewrite !get_bind. specialize (Hop hz eq_refl).
    rewrite synced_clock.
    rewrite (proj2 (Z.eqb_neq hz _)) by done. by apply sync_first.
Qed.
Lemma sim_op c env op : op_valid op ->
  similar env (fun h s => inv env h s /\ allowed op s = true) (adc_op c op) (adc_op c op) (fun _ => inv env).
Proof.
  intros Hop. destruct op as [offset size|offset size v|channel v|hz]; cbn [adc_op].
  - apply (sim_pre hide env (inv env)); [by intros h s [? _]|apply sim_adc_read].
  - eapply sim_pre; [|apply sim_adc_write]. intros h s [Hs Ha]. split; [done|]. intros Ht. cbn in Ha. rewrite Ht in Ha.
    by apply negb_true_iff in Ha.
  - apply (sim_pre hide env (inv env)); [by intros h s [? _]|]. eapply sim_bind; [apply sim_setChannelValue|]. intros []. by apply sim_ret.
  - apply (sim_pre hide env (inv env)); [by intros h s [? _]|]. eapply sim_bind; [by apply sim_setInputClockHz|]. intros []. by apply sim_ret.
Qed.

Lemma rel_op c op env t e l : rel env t e l -> op_valid op -> allowed op e = true ->
  match adc_op c op (at_time t env) e with
  | (inl r, e', _) => allowed op l = true /\ ∃ l' w, adc_op c op (at_time t env) l = (inl r, l', w) /\ rel env t e' l'
  | (inr _, _, _) => True
  end.
Proof.
  intros Hrel Hop Ha. pose proof Hrel as [Hv He Hl Hc Hst].
  assert (ad_block e = ad_block (synced t l)) as Eb by exact (f_equal ad_block Hv).
  assert (allowed op (synced t l) = true /\ allowed op l = true) as [Has Hal].
  { destruct op; try done. cbn in *. by rewrite Eb, synced_started in *. }
  destruct (decide (op = ao_clock (ad_input_clock_hz l))) as [->|Hne].
  { assert (ad_input_clock_hz e = ad_input_clock_hz l) as Ek
      by (rewrite <- (synced_clock t l); exact (f_equal ad_input_clock_hz Hv)).
    cbn [adc_op]. unfold setInputClockHz, mbind, Dev_bind, get. rewrite Ek, Z.eqb_refl. cbn. split; [done|]. by eexists _, _. }
  pose proof (sim_op c (at_time t env) op Hop e (synced t l) Hv (conj He Ha) (conj Hl Has)) as Hs.
  destruct (adc_op c op (at_time t env) e) as [[[r|x] e'] w]; [|done]. destruct Hs as (l'&w'&E&Hv'&He'&Hl'). split; [done|].
  assert (ad_conversion_state l = ConversionState.lazy \/ synced t l = l) as Hcase.
  { destruct (decide (ad_conversion_state l = ConversionState.lazy)); [by left|right]. unfold synced. by destruct (ad_conversion_state l). }
  pose proof (op_fresh c op env t l Hc Hl Hcase ltac:(intros hz -> ->; done)) as Ef. rewrite E in Ef.
  destruct (adc_op c op (at_time t env) l) as [[r' l1] w1]. injection Ef as -> ->. eexists _, _. split; [done|]. by apply rel_fresh.
Qed.

(** Every run of the eager device is a run of the lazy one, with the same results. *)
Lemma drive_alike c env ops : Forall (fun x => op_valid x.2) ops -> ∀ now e l, timed now ops -> rel env now e l ->
  match adc_drive c env now ops e with
  | finished out _ => ∃ l', adc_drive c env now ops l = finished out l'
  | exhausted => False
  | _ => True
  end.
Proof.
  induction 1 as [|[t op] ops Hop Hops IH]; intros now e l Ht Hrel; [by exists l|]. destruct Ht as [Ht Hts]. cbn [adc_drive].
  pose proof (rel_elapse env now t e l Hrel Ht) as Hel. destruct (adc_elapse _ env t e) as [[e1|]|]; [|done..].
  destruct Hel as (l1&->&Hrel1). destruct (allowed op e1) eqn:Ha; [|done].
  pose proof (rel_op c op env t e1 l1 Hrel1 Hop Ha) as Hro.
  destruct (adc_op c op (at_time t env) e1) as [[[r|x] e2] w]; [|done]. destruct Hro as (->&l2&w'&->&Hrel2).
  specialize (IH t e2 l2 Hts Hrel2). destruct (adc_drive c env t ops e2) as [out d| | |]; cbn; try done.
  destruct IH as [l' ->]. by exists l'.
Qed.

(** Switching the history off on a device leaves one that looks the same. *)
Lemma history_off env t d : inv (at_time t env) true d -> ∃ l w,
  setSampleHistoryEnabled false (at_time t env) d = (inl tt, l, w) /\ rel env t d l.
Proof.
  intros Hd. pose proof (eager_state _ _ Hd) as Hn. set (env' := at_time t env) in *. destruct Hd as [[Hc Hs Hr] Hl] eqn:Hd'. clear Hd'.
  set (off := {| d with ad_sample_history_enabled := false |}).
  assert (steady env' false off) as Ho by (by split; [destruct Hc|..]).
  destruct (sync_run env' true d Hc (or_introl Hs)) as [w E]. rewrite (synced_id _ d Hs) in E.
  exists (refreshed env' off). eexists. split.
  - unfold setSampleHistoryEnabled. erewrite bind_inl by exact E. rewrite modify_bind. fold off.
    rewrite (refresh_steady_run env' false off) by apply Ho. done.
  - apply rel_fresh; [by rewrite hide_refreshed|by split|by apply refreshed_inv].
Qed.

(** A new device is in this form. *)
Lemma adc_new_inv name trace env t : inv (at_time t env) true (adc_new name true trace env).
Proof. split; [split; [constructor|..]|]; try done. Qed.
End conversions.
End AdcLazy.
