(* ===== verification/EventLoop.v ===== *)
(** * The simulated-time event loop

    Models [EventLoop::Impl] of [src/sim/event_loop.cpp] and the entry points of
    [EventLoop] that use one domain: reusable slots whose event identifier is their
    generation, priority queues with lazily discarded entries, scheduling, cancellation,
    owner clocks, and the dispatch loops.  A [std::priority_queue] is a list in dispatch order.
    Callbacks are programs over the loop's own operations and an external world [W]; locality
    guards and observers read or change the world only.  Locks are not modelled: every
    operation holds the loop's mutex for its whole duration. *)

From stdpp Require Import gmap sorting.
From S2P Require Import Prelude Common.
#[local] Open Scope Z_scope.
#[local] Open Scope fil_scope.

Definition shared_event_owner : Z := 0xffffffff.
Definition dense_owner_count : Z := 64.
Definition lane_id_marker : Z := 1 .<< 63.
Definition lane_id_counter_mask : Z := (1 .<< 56) - 1.

Module SlotState.
Inductive t := free | queued.
#[global] Instance eq_dec : EqDecision t.
Proof. solve_decision. Defined.
End SlotState.

Module EventObservation.
Inductive t := global | owner_local.
End EventObservation.

Record Entry := mkEntry { en_at : Z; en_sequence : Z; en_slot : nat; en_id : Z }.
Record SlotRef := mkSlotRef { sf_slot : nat; sf_id : Z }.

Record EventRunResult := mkEventRunResult {
  er_events_executed : Z;
  er_same_time_limit_hit : bool;
  er_stopped_at : Z;
  er_local_owner_mask : Z;
  er_shared_event_executed : bool;
}.

(** ** Queues *)

(** [Later]: [left] is dispatched after [right]. *)
Definition later (left right : Entry) : bool :=
  if negb (en_at left =? en_at right) then en_at right <? en_at left
  else en_sequence right <? en_sequence left.

Fixpoint queue_push (e : Entry) (q : list Entry) : list Entry :=
  match q with
  | [] => [e]
  | e' :: q' => if later e e' then e' :: queue_push e q' else e :: q
  end.

(** What a callback may do: use the loop and change the world. Calls from a callback back into
    the run functions, and changes of the same-time limit or of the observers, are not
    among its operations. *)
Inductive Prog (C G W : Type) :=
  | Return (w : W)
  | Throw (message : string) (w : W)
  | Schedule (builtin : bool) (at_time : Z) (callback : option C) (guard : option G)
      (k : Z + string -> Prog C G W)
  | ScheduleAfter (builtin : bool) (delta : Z) (callback : option C) (k : Z + string -> Prog C G W)
  | Cancel (id : Z) (k : bool -> Prog C G W)
  | Now (k : Z -> Prog C G W)
  | SetOwner (owner : Z) (k : Z -> Prog C G W).
Arguments Return {_ _ _} _.
Arguments Throw {_ _ _} _ _.
Arguments Schedule {_ _ _} _ _ _ _ _.
Arguments ScheduleAfter {_ _ _} _ _ _ _.
Arguments Cancel {_ _ _} _ _.
Arguments Now {_ _ _} _.
Arguments SetOwner {_ _ _} _ _.

(** What the loop runs: the behaviour of callbacks, guards and observers. *)
Class Callbacks (C G B W : Type) := {
  behave : C -> W -> Prog C G W;
  guard_holds : G -> W -> bool;
  observe : B -> Z -> Z -> EventObservation.t -> W -> W;
}.

Section loop.
Context {C G B W : Type} `{Callbacks C G B W}.

Record Slot := mkSlot {
  sl_at : Z;
  sl_id : Z;
  sl_sequence : Z;
  sl_owner : Z;
  sl_callback : option C;
  sl_builtin : option C;
  sl_locality_guard : option G;
  sl_globally_observed : bool;
  sl_state : SlotState.t;
}.
Definition slot_default : Slot :=
  mkSlot 0 0 0 shared_event_owner None None None true SlotState.free.

(** The dense arrays and the maps for owners above 63 are one map here; an owner without a
    queue has the empty queue.  [lp_free_slots] lists the vector from its back. *)
Record Loop := mkLoop {
  lp_shared_now : Z;
  lp_next_id : Z;
  lp_next_sequence : Z;
  lp_maximum_same_time_events : Z;
  lp_active_owner : Z;
  lp_slots : list Slot;
  lp_free_slots : list nat;
  lp_events : list Entry;
  lp_globally_observed : list Entry;
  lp_owner_events : gmap Z (list Entry);
  lp_observation_barrier : option B;
  lp_scheduler_observation_barrier : option B;
  lp_live_events : gmap Z SlotRef;
  lp_owner_now : gmap Z Z;
  lp_executed_callbacks : Z;
  lp_owner_dispatch_active : bool;
  lp_global_dispatch_depth : Z;
  lp_lane_domain : bool;
  lp_lane_owner : Z;
  lp_lane_next_id : Z;
  lp_read_offset : Z;
}.

(** A loop as its constructor leaves it. *)
Definition loop_default (maximum_same_time_events : Z) : Loop :=
  mkLoop 0 1 0 maximum_same_time_events shared_event_owner [] [] [] [] ∅ None None ∅ ∅ 0 false 0
    false shared_event_owner 1 0.

(** ** Clocks *)

Definition timeFor (owner : Z) (l : Loop) : Z :=
  if owner =? shared_event_owner then u64 (lp_shared_now l + lp_read_offset l)
  else match lp_owner_now l !! owner with
       | None => u64 (lp_shared_now l + lp_read_offset l)
       | Some local_time => u64 (Z.max local_time (lp_shared_now l) + lp_read_offset l)
       end.

Definition setTime (owner time : Z) (l : Loop) : Loop :=
  if owner =? shared_event_owner then {| l with lp_shared_now := time |}
  else {| l with lp_owner_now := <[owner := time]> (lp_owner_now l) |}.

Definition setCurrentOwner (owner : Z) (l : Loop) : Loop := {| l with lp_active_owner := owner |}.

(** ** Slots and queues *)

Definition entryLive (slots : list Slot) (e : Entry) : bool :=
  match slots !! en_slot e with
  | None => false
  | Some slot => bool_decide (sl_state slot = SlotState.queued) && (sl_id slot =? en_id e)
  end.

Fixpoint discardDeadFront (slots : list Slot) (q : list Entry) : list Entry :=
  match q with
  | [] => []
  | e :: q' => if entryLive slots e then q else discardDeadFront slots q'
  end.

Definition schedulingQueue (owner : Z) (l : Loop) : list Entry := default [] (lp_owner_events l !! owner).

Definition discardDeadGlobalFront (l : Loop) : Loop :=
  {| l with lp_events := discardDeadFront (lp_slots l) (lp_events l) |}.
Definition discardDeadObservedFront (l : Loop) : Loop :=
  {| l with lp_globally_observed := discardDeadFront (lp_slots l) (lp_globally_observed l) |}.
(** [ownerQueue]: discards the dead front of the owner's queue and returns it. *)
Definition ownerQueue (owner : Z) (l : Loop) : list Entry * Loop :=
  match lp_owner_events l !! owner with
  | None => ([], l)
  | Some q =>
      let q := discardDeadFront (lp_slots l) q in
      (q, {| l with lp_owner_events := <[owner := q]> (lp_owner_events l) |})
  end.

Definition set_slot (index : nat) (slot : Slot) (l : Loop) : Loop :=
  {| l with lp_slots := <[index := slot]> (lp_slots l) |}.

(** An operation that may throw; the state keeps what was done before the throw. *)
Definition Ev (A : Type) : Type := Loop -> (A + string) * Loop.
#[local] Instance Ev_ret : MRet Ev := fun _ a l => (inl a, l).
#[local] Instance Ev_bind : MBind Ev := fun _ _ f x l =>
  match x l with
  | (inl a, l) => f a l
  | (inr e, l) => (inr e, l)
  end.
Definition raise {A} (message : string) : Ev A := fun l => (inr message, l).
Definition update (f : Loop -> Loop) : Ev unit := fun l => (inl tt, f l).
Definition get {A} (f : Loop -> A) : Ev A := fun l => (inl (f l), l).
Definition throw_if (b : bool) (message : string) : Ev unit := if b then raise message else mret tt.

Definition allocateId : Ev Z := fun l =>
  if lp_lane_domain l then
    if (lp_lane_next_id l =? 0) || (lane_id_counter_mask <? lp_lane_next_id l) then
      (inr "lane event identifier space exhausted"%string, l)
    else (inl (lane_id_marker .| u64 (lp_lane_owner l .<< 56) .| lp_lane_next_id l),
          {| l with lp_lane_next_id := u64 (lp_lane_next_id l + 1) |})
  else if (lp_next_id l =? 0) || (lane_id_marker <=? lp_next_id l) then
    (inr "simulation event identifier space exhausted"%string, l)
  else (inl (lp_next_id l), {| l with lp_next_id := u64 (lp_next_id l + 1) |}).

Definition allocateSequence : Ev Z := fun l =>
  if lp_next_sequence l =? max_u64 then (inr "simulation event sequence space exhausted"%string, l)
  else (inl (lp_next_sequence l), {| l with lp_next_sequence := u64 (lp_next_sequence l + 1) |}).

Definition acquireSlot : Ev nat := fun l =>
  match lp_free_slots l with
  | index :: rest =>
      let slot := default slot_default (lp_slots l !! index) in
      (inl index, set_slot index {| slot with sl_state := SlotState.queued |}
                    {| l with lp_free_slots := rest |})
  | [] =>
      if max_u32 <=? Z.of_nat (length (lp_slots l)) then
        (inr "simulation event slot space exhausted"%string, l)
      else (inl (length (lp_slots l)),
            {| l with lp_slots := lp_slots l ++ [{| slot_default with sl_state := SlotState.queued |}] |})
  end.

Definition free_slot (slot : Slot) : Slot :=
  {| slot with sl_state := SlotState.free; sl_callback := None; sl_builtin := None;
               sl_locality_guard := None |}.

Definition releaseSlot (index : nat) (l : Loop) : Loop :=
  let slot := default slot_default (lp_slots l !! index) in
  {| l with lp_slots := <[index := free_slot slot]> (lp_slots l);
            lp_free_slots := index :: lp_free_slots l |}.

Definition cancelId (id : Z) (l : Loop) : bool * Loop :=
  if id =? 0 then (false, l)
  else match lp_live_events l !! id with
       | None => (false, l)
       | Some ref =>
           if match lp_slots l !! sf_slot ref with
              | None => true
              | Some slot => negb (sl_id slot =? sf_id ref)
              end
           then (false, {| l with lp_live_events := delete id (lp_live_events l) |})
           else
             let l := releaseSlot (sf_slot ref) l in
             let l := {| l with lp_live_events := delete id (lp_live_events l) |} in
             (true, discardDeadObservedFront l)
       end.

(** ** Scheduling *)

(** [slot.at = at; slot.id = id]. *)
Definition stamp_slot (index : nat) (at_time id : Z) (l : Loop) : Loop :=
  let slot := default slot_default (lp_slots l !! index) in
  set_slot index {| slot with sl_at := at_time; sl_id := id |} l.

(** The rest of the slot, the queue entries and the live map. *)
Definition publish (index : nat) (sequence owner : Z) (callback builtin : option C)
    (guard : option G) (globally_observed : bool) (l : Loop) : Loop :=
  let slot := default slot_default (lp_slots l !! index) in
  let slot := {| slot with sl_sequence := sequence; sl_owner := owner; sl_callback := callback;
                           sl_builtin := builtin; sl_locality_guard := guard;
                           sl_globally_observed := globally_observed |} in
  let l := set_slot index slot l in
  let entry := mkEntry (sl_at slot) sequence index (sl_id slot) in
  let queue := discardDeadFront (lp_slots l) (schedulingQueue owner l) in
  {| l with
     lp_events := queue_push entry (lp_events l);
     lp_globally_observed :=
       if globally_observed then queue_push entry (lp_globally_observed l)
       else lp_globally_observed l;
     lp_owner_events := <[owner := queue_push entry queue]> (lp_owner_events l);
     lp_live_events :=
       match lp_live_events l !! sl_id slot with
       | Some _ => lp_live_events l
       | None => <[sl_id slot := mkSlotRef index (sl_id slot)]> (lp_live_events l)
       end |}.

(** [Impl::schedule] and [Impl::scheduleBuiltin], which differ in the member that holds the
    callback and in the message for an empty one. *)
Definition schedule_with (builtin : bool) (at_time : Z) (callback : option C) (guard : option G)
    : Ev Z :=
  throw_if (negb (bool_decide (is_Some callback)))
    (if builtin then "simulation built-in callback is empty" else "simulation event callback is empty");;
  owner ← get lp_active_owner;
  lane ← get (fun l => lp_lane_domain l && negb (owner =? lp_lane_owner l));
  throw_if lane "lane domain cannot schedule another owner's event";;
  now ← get (timeFor owner);
  throw_if (at_time <? now) "cannot schedule a simulation event in the past";;
  id ← allocateId;
  let globally_observed := negb (bool_decide (is_Some guard)) || (owner =? shared_event_owner) in
  index ← acquireSlot;
  update (stamp_slot index at_time id);;
  sequence ← allocateSequence;
  update (publish index sequence owner (if builtin then None else callback)
            (if builtin then callback else None) guard globally_observed);;
  mret id.

Definition schedule (at_time : Z) (callback : option C) (guard : option G) : Ev Z :=
  schedule_with false at_time callback guard.
Definition scheduleBuiltin (at_time : Z) (event : option C) (guard : option G) : Ev Z :=
  schedule_with true at_time event guard.

(** [EventLoop::scheduleAfter] and [scheduleBuiltinAfter] outside a lane session. *)
Definition schedule_after (builtin : bool) (delta : Z) (callback : option C) : Ev Z :=
  owner ← get lp_active_owner;
  current ← get (timeFor owner);
  throw_if (max_u64 - current <? delta) "simulation event time overflow";;
  schedule_with builtin (current + delta) callback None.

(** ** Callbacks *)

Fixpoint run_prog (p : Prog C G W) (l : Loop) : (unit + string) * W * Loop :=
  match p with
  | Return w => (inl tt, w, l)
  | Throw message w => (inr message, w, l)
  | Schedule builtin at_time callback guard k =>
      let '(r, l) := schedule_with builtin at_time callback guard l in run_prog (k r) l
  | ScheduleAfter builtin delta callback k =>
      let '(r, l) := schedule_after builtin delta callback l in run_prog (k r) l
  | Cancel id k => let '(r, l) := cancelId id l in run_prog (k r) l
  | Now k => run_prog (k (timeFor (lp_active_owner l) l)) l
  | SetOwner owner k => run_prog (k (lp_active_owner l)) (setCurrentOwner owner l)
  end.

Definition markOwner (r : EventRunResult) (owner : Z) : EventRunResult :=
  if owner <? 64 then {| r with er_local_owner_mask := er_local_owner_mask r .| 1 .<< owner |}
  else {| r with er_shared_event_executed := true |}.

(** The observers, in the order [invoke] calls them. *)
Definition run_observers (at_time owner : Z) (guard : option G) (l : Loop) (w : W) : W :=
  let holds (w : W) := match guard with Some g => guard_holds g w | None => false end in
  let owner_local := negb (owner =? shared_event_owner) && holds w in
  let classification := if owner_local then EventObservation.owner_local else EventObservation.global in
  let tell (b : option B) (c : EventObservation.t) (w : W) :=
    match b with Some b => observe b at_time owner c w | None => w end in
  let observer := lp_observation_barrier l in
  let w := tell (lp_scheduler_observation_barrier l)
             (if bool_decide (is_Some observer) then EventObservation.global else classification) w in
  let w := tell observer classification w in
  if owner_local && negb (holds w) then
    tell observer EventObservation.global
      (tell (lp_scheduler_observation_barrier l) EventObservation.global w)
  else w.

(** The bookkeeping of [invoke] before user code runs. *)
Definition retire_entry (entry : Entry) (slot : Slot) (l : Loop) : Loop :=
  let l := {| l with
    lp_slots := <[en_slot entry := {| slot with sl_state := SlotState.free; sl_callback := None;
                                                sl_locality_guard := None |}]> (lp_slots l);
    lp_live_events := delete (sl_id slot) (lp_live_events l);
    lp_free_slots := en_slot entry :: lp_free_slots l |} in
  let l := discardDeadObservedFront l in
  setTime (sl_owner slot) (sl_at slot) l.

Definition invoke (entry : Entry) (r : EventRunResult) (w : W) (l : Loop)
    : (unit + string) * EventRunResult * W * Loop :=
  let slot := default slot_default (lp_slots l !! en_slot entry) in
  let l := retire_entry entry slot l in
  let r := markOwner r (sl_owner slot) in
  let r := {| r with er_events_executed := er_events_executed r + 1 |} in
  let previous_owner := lp_active_owner l in
  let l := setCurrentOwner (sl_owner slot) l in
  let w := run_observers (sl_at slot) (sl_owner slot) (sl_locality_guard slot) l w in
  let '(result, w, l) :=
    match (match sl_builtin slot with Some c => Some c | None => sl_callback slot end) with
    | Some c => run_prog (behave c w) l
    | None => (inr "bad_function_call"%string, w, l)
    end in
  let l :=
    match result with
    | inl _ => if lp_executed_callbacks l =? max_u64 then l
               else {| l with lp_executed_callbacks := lp_executed_callbacks l + 1 |}
    | inr _ => l
    end in
  (result, r, w, setCurrentOwner previous_owner l).

(** ** Dispatch *)

(** What distinguishes a global run from the run of one owner. *)
Record Selection := mkSelection {
  select : Loop -> list Entry * Loop;    (* the queue, its dead front discarded *)
  drop_front : Loop -> Loop;             (* [queue.pop()] *)
  set_clock : Z -> Loop -> Loop;         (* the clock the run advances *)
  before_invoke : Z -> Loop -> Loop;     (* done between the pop and [invoke] *)
}.

(** The [for (;;)] of the run functions; [None] when the fuel runs out. *)
Fixpoint dispatch_loop (fuel : nat) (s : Selection) (deadline counted_time events_at_counted_time : Z)
    (r : EventRunResult) (w : W) (l : Loop)
    : option ((EventRunResult + string) * W * Loop) :=
  match fuel with
  | O => None
  | S fuel =>
      let '(queue, l) := select s l in
      match queue with
      | [] => Some (inl {| r with er_stopped_at := deadline |}, w, set_clock s deadline l)
      | entry :: _ =>
          if deadline <? en_at entry then
            Some (inl {| r with er_stopped_at := deadline |}, w, set_clock s deadline l)
          else
            let next_time := en_at entry in
            let fresh := (events_at_counted_time =? 0) || negb (next_time =? counted_time) in
            let counted_time := if fresh then next_time else counted_time in
            let events_at_counted_time := if fresh then 0 else events_at_counted_time in
            if lp_maximum_same_time_events l <=? events_at_counted_time then
              Some (inl {| r with er_same_time_limit_hit := true; er_stopped_at := next_time |}, w,
                    set_clock s next_time l)
            else
              let l := before_invoke s next_time (drop_front s l) in
              match invoke entry r w l with
              | (inr e, _, w, l) => Some (inr e, w, l)
              | (inl _, r, w, l) =>
                  dispatch_loop fuel s deadline counted_time (events_at_counted_time + 1) r w l
              end
      end
  end.

Definition global_selection : Selection := {|
  select l := let l := discardDeadGlobalFront l in (lp_events l, l);
  drop_front l := {| l with lp_events := tail (lp_events l) |};
  set_clock time l := {| l with lp_shared_now := time |};
  before_invoke time l := {| l with lp_shared_now := time |};
|}.

Definition owner_selection (owner : Z) : Selection := {|
  select l := ownerQueue owner l;
  drop_front l := {| l with lp_owner_events :=
                       <[owner := tail (schedulingQueue owner l)]> (lp_owner_events l) |};
  set_clock time l := setTime owner time l;
  before_invoke _ l := l;
|}.

Definition run_result (now : Z) : EventRunResult := mkEventRunResult 0 false now 0 false.

Definition runDueEventsLocked (fuel : nat) (deadline : Z) (w : W) (l : Loop)
    : option ((EventRunResult + string) * W * Loop) :=
  if deadline <? lp_shared_now l then
    Some (inr "cannot run the simulation clock backwards"%string, w, l)
  else dispatch_loop fuel global_selection deadline 0 0 (run_result (lp_shared_now l)) w l.

Definition set_dispatch_depth (d : Z) (l : Loop) : Loop := {| l with lp_global_dispatch_depth := d |}.
Definition set_owner_dispatch (b : bool) (l : Loop) : Loop := {| l with lp_owner_dispatch_active := b |}.

(** [EventLoop::runDueEvents] outside a lane session, with [GlobalDispatchGuard]. *)
Definition runDueEvents (fuel : nat) (deadline : Z) (w : W) (l : Loop)
    : option ((EventRunResult + string) * W * Loop) :=
  if lp_owner_dispatch_active l then
    Some (inr "cannot run global events during an owner run"%string, w, l)
  else
    let depth := lp_global_dispatch_depth l in
    '(r, w, l) ← runDueEventsLocked fuel deadline w (set_dispatch_depth (depth + 1) l);
    Some (r, w, set_dispatch_depth depth l).

(** [EventLoop::runOwnedEvents] outside a lane session, with [OwnerDispatchGuard]. *)
Definition runOwnedEvents (fuel : nat) (owner deadline : Z) (w : W) (l : Loop)
    : option ((EventRunResult + string) * W * Loop) :=
  if lp_lane_domain l && negb (owner =? lp_lane_owner l) then
    Some (inr "lane domain cannot run another owner's events"%string, w, l)
  else if lp_owner_dispatch_active l then
    Some (inr "cannot reenter event dispatch during an owner run"%string, w, l)
  else
    let l := set_owner_dispatch true l in
    let current := timeFor owner l in
    if deadline <? current then
      Some (inr "cannot run an owner clock backwards"%string, w, set_owner_dispatch false l)
    else
      '(r, w, l) ← dispatch_loop fuel (owner_selection owner) deadline 0 0 (run_result current) w l;
      Some (r, w, set_owner_dispatch false l).

Definition runSharedEvents (fuel : nat) (deadline : Z) (w : W) (l : Loop)
    : option ((EventRunResult + string) * W * Loop) :=
  runOwnedEvents fuel shared_event_owner deadline w l.

Definition advanceBy (fuel : nat) (delta : Z) (w : W) (l : Loop)
    : option ((EventRunResult + string) * W * Loop) :=
  if lp_owner_dispatch_active l then
    Some (inr "cannot advance global events during an owner run"%string, w, l)
  else if max_u64 - lp_shared_now l <? delta then
    Some (inr "simulation clock overflow"%string, w, l)
  else
    let depth := lp_global_dispatch_depth l in
    '(r, w, l) ← runDueEventsLocked fuel (lp_shared_now l + delta) w (set_dispatch_depth (depth + 1) l);
    Some (r, w, set_dispatch_depth depth l).

(** ** Queries and [clear] *)

Definition clear (l : Loop) : Loop :=
  {| l with
     lp_events := []; lp_globally_observed := []; lp_owner_events := ∅; lp_live_events := ∅;
     lp_slots := free_slot <$> lp_slots l;
     lp_free_slots := reverse (seq 0 (length (lp_slots l))) |}.

Definition pending (l : Loop) : nat := size (lp_live_events l).

Definition nextScheduledTime (l : Loop) : option Z * Loop :=
  let l := discardDeadGlobalFront l in (en_at <$> head (lp_events l), l).
Definition nextScheduledTimeOf (owner : Z) (l : Loop) : option Z * Loop :=
  let '(q, l) := ownerQueue owner l in (en_at <$> head q, l).

Definition nextObservationTime (owner : Z) (l : Loop) : option Z * Loop :=
  let '(q, l) := ownerQueue owner l in
  let l := discardDeadObservedFront l in
  let result := en_at <$> head q in
  (match head (lp_globally_observed l) with
   | Some e => match result with
               | Some t => if en_at e <? t then Some (en_at e) else result
               | None => Some (en_at e)
               end
   | None => result
   end, l).
End loop.
