(* ===== verification/EventLoopProofs.v ===== *)
(** * Properties of the event loop

    The invariant that ties slots, queues and the live map together, the abstract view of the
    loop as the map of its pending events, and what scheduling, cancellation and dispatch do to
    that view. *)

From stdpp Require Import gmap sorting.
From S2P Require Import Prelude Common EventLoop.
#[local] Open Scope Z_scope.
#[local] Open Scope fil_scope.

Arguments Slot : clear implicits.
Arguments Loop : clear implicits.

(** ** Queues in dispatch order *)

Definition before (a b : Entry) : Prop := en_at a < en_at b \/ en_at a = en_at b /\ en_sequence a < en_sequence b.

Lemma later_before a b : later a b = true <-> before b a.
Proof.
  unfold later, before. destruct (Z.eqb_spec (en_at a) (en_at b)); cbn [negb]; rewrite Z.ltb_lt; lia.
Qed.
Lemma not_later_before a b : later a b = false -> en_sequence a <> en_sequence b -> before a b.
Proof.
  unfold later, before. destruct (Z.eqb_spec (en_at a) (en_at b)); cbn [negb]; rewrite Z.ltb_ge; lia.
Qed.
#[global] Instance before_transitive : Transitive before.
Proof. intros a b c. unfold before. lia. Qed.

Lemma queue_push_elem e q x : x ∈ queue_push e q <-> x = e \/ x ∈ q.
Proof.
  induction q as [|y q IH]; cbn [queue_push]; [by rewrite elem_of_cons|].
  destruct (later e y); rewrite !elem_of_cons, ?IH; tauto.
Qed.

Lemma queue_push_sorted e q : StronglySorted before q -> (∀ x, x ∈ q -> en_sequence x <> en_sequence e) ->
  StronglySorted before (queue_push e q).
Proof.
  induction 1 as [|y q Hs IH Hy]; intros Hseq; cbn [queue_push]; [repeat constructor|].
  destruct (later e y) eqn:E.
  - constructor; [apply IH; set_solver|]. apply Forall_forall. intros x Hx.
    apply queue_push_elem in Hx as [->|Hx]; [by apply later_before|]. by eapply Forall_forall in Hy.
  - assert (before e y) as He by (apply not_later_before; [done|]; specialize (Hseq y); set_solver).
    constructor; [by constructor|]. constructor; [done|]. eapply Forall_impl; [done|]. intros x. by apply transitivity.
Qed.

Section invariant.
Context {C G B W : Type} `{Callbacks C G B W}.
Abbreviation Loop := (Loop C G B).
Abbreviation Slot := (Slot C G).

(** The pending events, by identifier. *)
Definition view (l : Loop) : gmap Z Slot :=
  omap (fun ref => lp_slots l !! sf_slot ref) (lp_live_events l).

Definition entry_of (index : nat) (slot : Slot) : Entry :=
  mkEntry (sl_at slot) (sl_sequence slot) index (sl_id slot).

Definition live_slot (l : Loop) (index : nat) (slot : Slot) : Prop :=
  lp_slots l !! index = Some slot /\ sl_state slot = SlotState.queued
  /\ lp_live_events l !! sl_id slot = Some (mkSlotRef index (sl_id slot)).

(** A queue that holds the live slots that satisfy [P], and entries that are dead. *)
Record queue_ok (P : Slot -> Prop) (l : Loop) (q : list Entry) : Prop := {
  qo_sorted : StronglySorted before q;
  qo_bounds e : e ∈ q -> en_id e < lp_next_id l /\ en_sequence e < lp_next_sequence l;
  qo_live e : e ∈ q -> entryLive (lp_slots l) e = true ->
    ∃ slot, live_slot l (en_slot e) slot /\ e = entry_of (en_slot e) slot /\ P slot;
  qo_complete index slot : live_slot l index slot -> P slot -> entry_of index slot ∈ q;
}.

Record loop_ok (l : Loop) : Prop := {
  lo_serial : lp_lane_domain l = false;
  lo_offset : lp_read_offset l = 0;
  lo_shared_now : 0 <= lp_shared_now l <= max_u64;
  lo_owner_now owner t : lp_owner_now l !! owner = Some t -> 0 <= t <= max_u64;
  lo_next_id : 0 < lp_next_id l <= lane_id_marker;
  lo_next_sequence : 0 <= lp_next_sequence l <= max_u64;
  lo_live id ref : lp_live_events l !! id = Some ref -> sf_id ref = id
    /\ ∃ slot, live_slot l (sf_slot ref) slot /\ sl_id slot = id;
  lo_live_slot index slot : live_slot l index slot ->
    0 < sl_id slot /\ sl_sequence slot < lp_next_sequence l /\ 0 <= sl_at slot <= max_u64
    /\ is_Some (match sl_builtin slot with Some c => Some c | None => sl_callback slot end);
  lo_slot_ids index slot : lp_slots l !! index = Some slot -> sl_id slot < lp_next_id l;
  lo_free_nodup : NoDup (lp_free_slots l);
  lo_free index : index ∈ lp_free_slots l ->
    ∃ slot, lp_slots l !! index = Some slot /\ sl_state slot = SlotState.free;
  lo_events : queue_ok (fun _ => True) l (lp_events l);
  lo_observed : queue_ok (fun slot => sl_globally_observed slot = true) l (lp_globally_observed l);
  lo_owner_events owner : queue_ok (fun slot => sl_owner slot = owner) l (schedulingQueue owner l);
}.

(** ** The view *)

Lemma view_lookup l id slot : loop_ok l ->
  view l !! id = Some slot <-> ∃ index, live_slot l index slot /\ sl_id slot = id.
Proof.
  intros Hok. unfold view. rewrite lookup_omap. split.
  - destruct (lp_live_events l !! id) as [ref|] eqn:E; [|done]. cbn. intros Hs.
    destruct (lo_live l Hok id ref E) as (_ & slot' & Hl & Hid). exists (sf_slot ref).
    assert (slot' = slot) as -> by (destruct Hl as [Hl _]; congruence). done.
  - intros (index & (Hs & _ & Hl) & <-). by rewrite Hl.
Qed.

Lemma live_slot_entry l index slot : live_slot l index slot -> entryLive (lp_slots l) (entry_of index slot) = true.
Proof.
  intros (Hs & Hq & _). unfold entryLive, entry_of. cbn. rewrite Hs, Hq, bool_decide_eq_true_2 by done.
  apply Z.eqb_refl.
Qed.

Lemma live_slot_inj l i1 s1 i2 s2 : live_slot l i1 s1 -> live_slot l i2 s2 -> sl_id s1 = sl_id s2 -> i1 = i2 /\ s1 = s2.
Proof.
  intros (Hs1 & _ & Hl1) (Hs2 & _ & Hl2) E. rewrite E in Hl1. rewrite Hl1 in Hl2. injection Hl2 as ->.
  rewrite Hs1 in Hs2. by injection Hs2.
Qed.

(** ** Discarding dead entries *)

Lemma discard_suffix slots q : ∃ dead, q = dead ++ discardDeadFront (C:=C) (G:=G) slots q
  /\ Forall (fun e => entryLive slots e = false) dead.
Proof.
  induction q as [|e q IH]; cbn [discardDeadFront]; [by exists []|]. destruct (entryLive slots e) eqn:E.
  - by exists [].
  - destruct IH as (dead & Hq & Hd). exists (e :: dead). cbn. split; [by f_equal|]. by constructor.
Qed.
Lemma discard_head slots q e q' : discardDeadFront (C:=C) (G:=G) slots q = e :: q' -> entryLive slots e = true.
Proof.
  induction q as [|x q IH]; cbn [discardDeadFront]; [done|]. destruct (entryLive slots x) eqn:E; [|done].
  by intros [= -> ->].
Qed.
Lemma discard_elem slots q e : e ∈ discardDeadFront (C:=C) (G:=G) slots q -> e ∈ q.
Proof. destruct (discard_suffix slots q) as (dead & Hq & _). intros He. rewrite Hq. set_solver. Qed.
Lemma sorted_suffix (p q : list Entry) : StronglySorted before (p ++ q) -> StronglySorted before q.
Proof. induction p as [|x p IH]; cbn; [done|]. intros Hs. apply IH. by inversion Hs. Qed.

(** Dead entries may be discarded, as judged by the slots of any state that keeps the live ones. *)
Lemma discard_by_ok P l l' q : queue_ok P l q -> (∀ i x, live_slot l i x -> live_slot l' i x) ->
  queue_ok P l (discardDeadFront (lp_slots l') q).
Proof.
  intros [Hs Hb Hl Hc] Hlive. destruct (discard_suffix (lp_slots l') q) as (dead & Hq & Hd). constructor.
  - rewrite Hq in Hs. by apply sorted_suffix in Hs.
  - intros e He. by apply Hb, discard_elem with (lp_slots l').
  - intros e He. by apply Hl, discard_elem with (lp_slots l').
  - intros index slot Hx HP. pose proof (Hc index slot Hx HP) as He. rewrite Hq in He.
    apply elem_of_app in He as [He|He]; [|done].
    eapply Forall_forall in Hd; [|exact He]. cbn in Hd. by rewrite (live_slot_entry l') in Hd by auto.
Qed.
Lemma discard_ok P l q : queue_ok P l q -> queue_ok P l (discardDeadFront (lp_slots l) q).
Proof. intros Hq. by apply discard_by_ok. Qed.

(** The front of a queue whose dead front is discarded is its earliest pending event. *)
Lemma queue_front P l q : queue_ok P l q ->
  match discardDeadFront (lp_slots l) q with
  | [] => ∀ index slot, live_slot l index slot -> ~ P slot
  | e :: _ => ∃ slot, live_slot l (en_slot e) slot /\ e = entry_of (en_slot e) slot /\ P slot
      /\ ∀ index slot', live_slot l index slot' -> P slot' ->
         slot' = slot \/ before e (entry_of index slot')
  end.
Proof.
  intros Hq. apply discard_ok in Hq. destruct (discardDeadFront (lp_slots l) q) as [|e q'] eqn:E.
  - intros index slot Hl HP. pose proof (qo_complete _ _ _ Hq index slot Hl HP). set_solver.
  - apply discard_head in E. destruct (qo_live _ _ _ Hq e ltac:(set_solver) E) as (slot & Hl & He & HP).
    exists slot. split_and!; try done. intros index slot' Hl' HP'.
    pose proof (qo_complete _ _ _ Hq index slot' Hl' HP') as Hin. apply elem_of_cons in Hin as [Hin|Hin].
    + left. assert (en_id e = sl_id slot) as H1 by (rewrite He; done).
      assert (en_id e = sl_id slot') as H2 by (rewrite <- Hin; done).
      by destruct (live_slot_inj l _ _ _ _ Hl' Hl) as [_ ?]; [congruence|].
    + right. pose proof (qo_sorted _ _ _ Hq) as Hs. inversion Hs as [|? ? _ Hall]. by eapply Forall_forall in Hall.
Qed.

(** ** Removing a pending event *)

(** [l'] is [l] without the live slot [index]; its queues are not constrained. *)
Record removed (l : Loop) (index : nat) (slot : Slot) (l' : Loop) : Prop := {
  rm_slot : live_slot l index slot;
  rm_dead : ∃ dead, lp_slots l' = <[index := dead]> (lp_slots l) /\ sl_state dead = SlotState.free
    /\ sl_id dead = sl_id slot;
  rm_live : lp_live_events l' = delete (sl_id slot) (lp_live_events l);
  rm_free : lp_free_slots l' = index :: lp_free_slots l;
  rm_next_id : lp_next_id l' = lp_next_id l;
  rm_next_sequence : lp_next_sequence l' = lp_next_sequence l;
}.

Lemma removed_live_slot l index slot l' i x : removed l index slot l' ->
  live_slot l' i x <-> live_slot l i x /\ i <> index.
Proof.
  intros [Hslot (dead & Hs & Hdead & _) Hl _ _ _]. unfold live_slot at 1. rewrite Hs, Hl. split.
  - intros (Hi & Hq & Hlive). destruct (decide (i = index)) as [->|Hne].
    { destruct Hslot as [Hslot _]. rewrite list_lookup_insert_eq in Hi by (by eapply lookup_lt_Some). congruence. }
    rewrite list_lookup_insert_ne in Hi by done. apply lookup_delete_Some in Hlive as [_ Hlive]. done.
  - intros [Hx Hne]. pose proof Hx as (Hi & Hq & Hlive). rewrite list_lookup_insert_ne by done.
    split; [done|]. split; [done|]. rewrite lookup_delete_ne; [done|]. intros E.
    by destruct (live_slot_inj _ _ _ _ _ Hx Hslot (eq_sym E)).
Qed.

Lemma removed_entryLive l index slot l' e : removed l index slot l' ->
  entryLive (lp_slots l') e = true -> entryLive (lp_slots l) e = true /\ en_slot e <> index.
Proof.
  intros [Hslot (dead & Hs & Hdead & _) _ _ _ _]. unfold entryLive. rewrite Hs.
  destruct (decide (en_slot e = index)) as [->|Hne].
  - destruct Hslot as [Hslot _]. rewrite list_lookup_insert_eq by (by eapply lookup_lt_Some). by rewrite Hdead.
  - by rewrite list_lookup_insert_ne.
Qed.

Lemma removed_queue P l index slot l' q : removed l index slot l' -> queue_ok P l q -> queue_ok P l' q.
Proof.
  intros Hr [Hs Hb Hl Hc]. constructor; [done| | |].
  - rewrite (rm_next_id _ _ _ _ Hr), (rm_next_sequence _ _ _ _ Hr). done.
  - intros e He Hlive. apply (removed_entryLive _ _ _ _ _ Hr) in Hlive as [Hlive Hne].
    destruct (Hl e He Hlive) as (x & Hx & Hex). exists x. by rewrite (removed_live_slot _ _ _ _ _ _ Hr).
  - intros i x Hx. apply (removed_live_slot _ _ _ _ _ _ Hr) in Hx as [Hx _]. by apply Hc.
Qed.
(** The entry of the removed event may be popped. *)
Lemma removed_queue_tail P l index slot l' q : removed l index slot l' ->
  queue_ok P l (entry_of index slot :: q) -> queue_ok P l' q.
Proof.
  intros Hr Hq. apply (removed_queue _ _ _ _ _ _ Hr) in Hq as [Hs Hb Hl Hc]. constructor.
  - by inversion Hs.
  - intros e He. apply Hb. set_solver.
  - intros e He. apply Hl. set_solver.
  - intros i x Hx HP. pose proof (Hc i x Hx HP) as Hin. apply elem_of_cons in Hin as [E|Hin]; [|done].
    apply (removed_live_slot _ _ _ _ _ _ Hr) in Hx as [_ Hne]. by injection E.
Qed.

(** The clocks and the mode are untouched. *)
Record same_clocks (l l' : Loop) : Prop := {
  sk_lane : lp_lane_domain l' = lp_lane_domain l;
  sk_offset : lp_read_offset l' = lp_read_offset l;
  sk_shared : lp_shared_now l' = lp_shared_now l;
  sk_owner : lp_owner_now l' = lp_owner_now l;
  sk_maximum : lp_maximum_same_time_events l' = lp_maximum_same_time_events l;
}.

Lemma removed_ok l index slot l' : loop_ok l -> removed l index slot l' ->
  lp_lane_domain l' = false -> lp_read_offset l' = 0 -> 0 <= lp_shared_now l' <= max_u64 ->
  (∀ owner t, lp_owner_now l' !! owner = Some t -> 0 <= t <= max_u64) ->
  queue_ok (fun _ => True) l' (lp_events l') ->
  queue_ok (fun slot => sl_globally_observed slot = true) l' (lp_globally_observed l') ->
  (∀ owner, queue_ok (fun slot => sl_owner slot = owner) l' (schedulingQueue owner l')) ->
  loop_ok l' /\ view l' = delete (sl_id slot) (view l).
Proof.
  intros Hok Hr Hlane Hoff Hnow Hown He Hg Ho.
  pose proof Hr as [Hslot (dead & Hs & Hdead & Hdid) Hl Hf Hi Hn]. assert (loop_ok l') as Hok'.
  { constructor; try done; rewrite ?Hi, ?Hn; try apply Hok.
    - intros id ref E. rewrite Hl in E. apply lookup_delete_Some in E as [Hne E].
      destruct (lo_live l Hok id ref E) as (Hid & x & Hx & Hxid). split; [done|]. exists x.
      rewrite (removed_live_slot _ _ _ _ _ _ Hr). split; [|done]. split; [done|]. intros E'.
      rewrite E' in Hx. destruct Hx as [Hx _], Hslot as [Hslot _]. congruence.
    - intros i x Hx. apply (removed_live_slot _ _ _ _ _ _ Hr) in Hx as [Hx _]. exact (lo_live_slot l Hok i x Hx).
    - intros i x. rewrite Hs. intros [(-> & <- & _)|[_ Hx]]%list_lookup_insert_Some.
      + rewrite Hdid. destruct Hslot as [Hslot _]. by eapply (lo_slot_ids l Hok).
      + by eapply (lo_slot_ids l Hok).
    - rewrite Hf. constructor; [|apply Hok]. intros Hin. destruct (lo_free l Hok _ Hin) as (x & Hx & Hfree).
      destruct Hslot as (Hslot & Hq & _). congruence.
    - intros i. rewrite Hf, Hs. destruct (decide (i = index)) as [->|Hne].
      + intros _. exists dead. rewrite list_lookup_insert_eq; [done|]. destruct Hslot. by eapply lookup_lt_Some.
      + rewrite list_lookup_insert_ne by done. intros Hin. apply (lo_free l Hok). set_solver. }
  split; [done|]. apply map_eq. intros id. apply option_eq. intros x.
  rewrite lookup_delete_Some, !view_lookup by done. split.
  - intros (i & Hx & <-). apply (removed_live_slot _ _ _ _ _ _ Hr) in Hx as [Hx Hne].
    split; [|by exists i]. intros E. by destruct (live_slot_inj _ _ _ _ _ Hslot Hx E).
  - intros (Hne & i & Hx & <-). exists i. rewrite (removed_live_slot _ _ _ _ _ _ Hr). split; [|done].
    split; [done|]. intros ->. destruct Hx as [Hx _], Hslot as [Hslot _]. congruence.
Qed.

Ltac loop_fields := cbn [lp_shared_now lp_next_id lp_next_sequence lp_maximum_same_time_events
  lp_active_owner lp_slots lp_free_slots lp_events lp_globally_observed lp_owner_events
  lp_observation_barrier lp_scheduler_observation_barrier lp_live_events lp_owner_now
  lp_executed_callbacks lp_owner_dispatch_active lp_global_dispatch_depth lp_lane_domain
  lp_lane_owner lp_lane_next_id lp_read_offset sl_at sl_id sl_sequence sl_owner sl_callback
  sl_builtin sl_locality_guard sl_globally_observed sl_state en_at en_sequence en_slot en_id
  sf_slot sf_id].

#[local] Instance same_clocks_refl : Reflexive same_clocks.
Proof. by constructor. Qed.
#[local] Instance same_clocks_trans : Transitive same_clocks.
Proof. intros x y z [] []. constructor; congruence. Qed.

Lemma cancelId_spec l id : loop_ok l ->
  let '(b, l') := cancelId id l in
  loop_ok l' /\ same_clocks l l' /\ lp_active_owner l' = lp_active_owner l
  /\ b = bool_decide (is_Some (view l !! id)) /\ view l' = delete id (view l).
Proof.
  intros Hok. assert (∀ id, view l !! id = None -> delete id (view l) = view l) as Hdel
    by (intros; by apply delete_id).
  unfold cancelId. destruct (Z.eqb_spec id 0) as [->|Hid0].
  { assert (view l !! 0 = None) as E.
    { apply eq_None_not_Some. intros [slot Hs]. apply view_lookup in Hs as (index & Hl & Hid); [|done].
      destruct (lo_live_slot l Hok _ _ Hl). lia. }
    rewrite E, Hdel by done. by split_and!. }
  destruct (lp_live_events l !! id) as [ref|] eqn:Eref.
  2: { assert (view l !! id = None) as E by (unfold view; rewrite lookup_omap; by rewrite Eref).
       rewrite E, Hdel by done. by split_and!. }
  destruct (lo_live l Hok id ref Eref) as (Hsf & slot & Hl & Hid). pose proof Hl as (Hs & _ & _).
  rewrite Hs, Hid, Hsf, Z.eqb_refl. cbn [negb].
  assert (view l !! id = Some slot) as Ev by (apply view_lookup; [done|]; by exists (sf_slot ref)).
  rewrite Ev, bool_decide_eq_true_2 by done.
  set (l1 := {| (releaseSlot (sf_slot ref) l) with lp_live_events := delete id (lp_live_events l) |}).
  change (lp_live_events (releaseSlot (sf_slot ref) l)) with (lp_live_events l). fold l1.
  assert (removed l (sf_slot ref) slot l1) as Hr.
  { constructor; try done; [|by rewrite Hid]. exists (free_slot slot). split; [|done].
    unfold l1, releaseSlot. loop_fields. by rewrite Hs. }
  assert (removed l (sf_slot ref) slot (discardDeadObservedFront l1)) as Hr' by (destruct Hr; by constructor).
  destruct (removed_ok l (sf_slot ref) slot (discardDeadObservedFront l1) Hok Hr') as [Hok' Hv];
    try apply Hok; try (eapply removed_queue; [exact Hr'|apply Hok]).
  { apply (discard_ok _ (discardDeadObservedFront l1)). eapply removed_queue; [exact Hr'|apply Hok]. }
  { intros owner. eapply removed_queue; [exact Hr'|apply Hok]. }
  split_and!; try done. by rewrite <- Hid.
Qed.

(** ** Scheduling *)

Lemma live_id_bound l id ref : loop_ok l -> lp_live_events l !! id = Some ref -> id < lp_next_id l.
Proof.
  intros Hok E. destruct (lo_live l Hok id ref E) as (_ & slot & (Hs & _) & <-). exact (lo_slot_ids l Hok _ _ Hs).
Qed.

(** A queue only depends on the slots, the live map and the two counters. *)
Lemma queue_ok_mono P l l' q : queue_ok P l q -> (∀ i x, live_slot l' i x <-> live_slot l i x) ->
  (∀ e, e ∈ q -> entryLive (lp_slots l') e = true -> entryLive (lp_slots l) e = true) ->
  lp_next_id l <= lp_next_id l' -> lp_next_sequence l <= lp_next_sequence l' -> queue_ok P l' q.
Proof.
  intros [Hs Hb Hl Hc] Hlive He Hi Hn. constructor; [done| | |].
  - intros e Hin. destruct (Hb e Hin). lia.
  - intros e Hin Hx. destruct (Hl e Hin (He e Hin Hx)) as (x & Hxl & Hxe). exists x. by rewrite Hlive.
  - intros i x Hx. rewrite Hlive in Hx. by apply Hc.
Qed.

(** [l'] is [l] with a slot that is not pending put in use under a fresh identifier. *)
Record reserved (l : Loop) (index : nat) (slot : Slot) (l' : Loop) : Prop := {
  rv_slots i x : lp_slots l' !! i = Some x <-> i = index /\ x = slot \/ i <> index /\ lp_slots l !! i = Some x;
  rv_not_live x : ~ live_slot l index x;
  rv_id : sl_id slot = lp_next_id l;
  rv_next_id : lp_next_id l' = lp_next_id l + 1 /\ lp_next_id l' <= lane_id_marker;
  rv_state : sl_state slot = SlotState.queued;
  rv_free : NoDup (lp_free_slots l') /\ (∀ i, i ∈ lp_free_slots l' -> i ∈ lp_free_slots l /\ i <> index);
  rv_live : lp_live_events l' = lp_live_events l;
  rv_next_sequence : lp_next_sequence l' = lp_next_sequence l;
  rv_events : lp_events l' = lp_events l;
  rv_observed : lp_globally_observed l' = lp_globally_observed l;
  rv_owner_events : lp_owner_events l' = lp_owner_events l;
  rv_clocks : same_clocks l l';
}.

Lemma reserved_live_slot l index slot l' i x : loop_ok l -> reserved l index slot l' ->
  live_slot l' i x <-> live_slot l i x.
Proof.
  intros Hok Hr. unfold live_slot at 1. rewrite (rv_slots _ _ _ _ Hr), (rv_live _ _ _ _ Hr). split.
  - intros ([[-> ->]|[Hne Hs]] & Hq & Hl); [|done]. exfalso. apply live_id_bound in Hl; [|done].
    rewrite (rv_id _ _ _ _ Hr) in Hl. lia.
  - intros Hx. pose proof Hx as (Hs & Hq & Hl). split; [|done]. right. split; [|done]. intros ->.
    by apply (rv_not_live _ _ _ _ Hr) in Hx.
Qed.

Lemma reserved_ok l index slot l' : loop_ok l -> reserved l index slot l' ->
  loop_ok l' /\ view l' = view l.
Proof.
  intros Hok Hr. pose proof (rv_clocks _ _ _ _ Hr) as [Kl Ko Ks Kn _].
  destruct (rv_next_id _ _ _ _ Hr) as [Hid Hidb]. pose proof (lo_next_id l Hok) as Hpos.
  assert (∀ i x, live_slot l' i x <-> live_slot l i x) as Hlive by (intros; by eapply reserved_live_slot).
  assert (∀ P q, queue_ok P l q -> queue_ok P l' q) as Hqueue.
  { intros P q Hq. apply (queue_ok_mono P l); try done; rewrite ?(rv_next_sequence _ _ _ _ Hr); [|lia..].
    intros e He. unfold entryLive. destruct (lp_slots l' !! en_slot e) as [x|] eqn:E; [|done].
    apply (rv_slots _ _ _ _ Hr) in E as [[-> ->]|[_ E]]; [|by rewrite E].
    rewrite andb_true_iff, Z.eqb_eq, (rv_id _ _ _ _ Hr). destruct (qo_bounds _ _ _ Hq e He). lia. }
  assert (loop_ok l') as Hok'.
  { constructor.
    - rewrite Kl. apply Hok.
    - rewrite Ko. apply Hok.
    - rewrite Ks. apply Hok.
    - rewrite Kn. apply Hok.
    - lia.
    - rewrite (rv_next_sequence _ _ _ _ Hr). apply Hok.
    - rewrite (rv_live _ _ _ _ Hr). intros id ref E. destruct (lo_live l Hok id ref E) as (? & x & Hx & ?).
      split; [done|]. exists x. by rewrite Hlive.
    - intros i x. rewrite Hlive, (rv_next_sequence _ _ _ _ Hr). apply Hok.
    - intros i x [[-> ->]|[_ Hs]]%(rv_slots _ _ _ _ Hr); [rewrite (rv_id _ _ _ _ Hr); lia|].
      apply (lo_slot_ids l Hok) in Hs. lia.
    - apply Hr.
    - intros i Hin. apply (rv_free _ _ _ _ Hr) in Hin as [Hin Hne].
      destruct (lo_free l Hok i Hin) as (x & Hx & Hf). exists x. split; [|done].
      apply (rv_slots _ _ _ _ Hr). by right.
    - rewrite (rv_events _ _ _ _ Hr). apply Hqueue, Hok.
    - rewrite (rv_observed _ _ _ _ Hr). apply Hqueue, Hok.
    - intros owner. unfold schedulingQueue. rewrite (rv_owner_events _ _ _ _ Hr). apply Hqueue, (lo_owner_events l Hok owner). }
  split; [done|]. apply map_eq. intros id. apply option_eq. intros x. rewrite !view_lookup by done.
  by setoid_rewrite Hlive.
Qed.

(** Every queue of [l] holds entries of older identifiers. *)
Lemma reserved_fresh l index slot l' P q e : reserved l index slot l' -> queue_ok P l q -> e ∈ q ->
  en_id e <> sl_id slot.
Proof. intros Hr Hq He. rewrite (rv_id _ _ _ _ Hr). destruct (qo_bounds _ _ _ Hq e He). lia. Qed.

Lemma allocateId_inv l r l1 : loop_ok l -> allocateId l = (r, l1) ->
  match r with
  | inl id => id = lp_next_id l /\ l1 = {| l with lp_next_id := lp_next_id l + 1 |} /\ lp_next_id l < lane_id_marker
  | inr _ => l1 = l
  end.
Proof.
  intros Hok. pose proof (lo_next_id l Hok) as Hid. pose proof (lo_serial l Hok) as E. unfold allocateId.
  match goal with |- context [if lp_lane_domain l then ?a else ?b] =>
    replace (if lp_lane_domain l then a else b) with b by (by rewrite E) end.
  destruct (Z.eqb_spec (lp_next_id l) 0); [lia|]. cbn [orb].
  destruct (Z.leb_spec lane_id_marker (lp_next_id l)); [by intros [= <- <-]|].
  assert (u64 (lp_next_id l + 1) = lp_next_id l + 1) as ->; [|by intros [= <- <-]].
  unfold u64, lane_id_marker in *. rewrite Z.shiftl_1_l in *. apply Z.mod_small. lia.
Qed.

Lemma reserve_spec l at_time id l1 index l2 : loop_ok l ->
  allocateId l = (inl id, l1) -> acquireSlot l1 = (inl index, l2) ->
  ∃ slot, reserved l index slot (stamp_slot index at_time id l2) /\ sl_at slot = at_time /\ sl_id slot = id
    /\ lp_active_owner (stamp_slot index at_time id l2) = lp_active_owner l.
Proof.
  intros Hok Ha. apply allocateId_inv in Ha as (-> & -> & Hid); [|done].
  unfold acquireSlot, stamp_slot, set_slot. loop_fields.
  destruct (lp_free_slots l) as [|i rest] eqn:Ef.
  - destruct (_ <=? _); [done|]. intros [= <- <-]. loop_fields.
    rewrite list_lookup_middle by done. cbn [default from_option id].
    exists {| (slot_default (C:=C) (G:=G)) with sl_state := SlotState.queued; sl_at := at_time; sl_id := lp_next_id l |}.
    split; [|done]. constructor; loop_fields; try done; try lia.
    + intros i x. rewrite insert_app_r_alt, Nat.sub_diag by lia. cbn. rewrite lookup_app_Some. split.
      * intros [Hx|[Hi Hx]]; [right; split; [apply lookup_lt_Some in Hx; lia|done]|].
        destruct (i - length (lp_slots l))%nat as [|k] eqn:Ek; cbn in Hx; [|done].
        injection Hx as <-. left. split; [lia|done].
      * intros [[-> ->]|[_ Hx]]; [|by left]. right. by rewrite Nat.sub_diag.
    + intros x [Hx _]. apply lookup_lt_Some in Hx. lia.
    + rewrite Ef. split; [constructor|set_solver].
  - destruct (lo_free l Hok i) as (old & Hold & Hfree); [rewrite Ef; set_solver|].
    pose proof (lo_free_nodup l Hok) as Hnd. rewrite Ef in Hnd. apply NoDup_cons in Hnd as [Hni Hnd].
    intros [= <- <-]. loop_fields. rewrite Hold. cbn [default from_option id].
    rewrite list_lookup_insert_eq by (by eapply lookup_lt_Some). cbn [default from_option id].
    rewrite list_insert_insert_eq.
    exists {| old with sl_state := SlotState.queued; sl_at := at_time; sl_id := lp_next_id l |}.
    split; [|done]. constructor; loop_fields; try done; try lia.
    + intros j x. rewrite list_lookup_insert_Some. split.
      * intros [(-> & <- & _)|[Hne Hx]]; [by left|right]. split; [by apply not_eq_sym|done].
      * intros [[-> ->]|[Hne Hx]]; [left|right; split; [by apply not_eq_sym|done]].
        split; [done|]. split; [done|]. by eapply lookup_lt_Some.
    + intros x (Hx & Hq & _). congruence.
    + split; [done|]. intros j Hj. rewrite Ef. split; [set_solver|]. by intros ->.
Qed.

(** [l'] is [l] with one more pending event, its entry not yet in the queues. *)
Record added (l : Loop) (index : nat) (slot : Slot) (l' : Loop) : Prop := {
  ad_slots i x : lp_slots l' !! i = Some x <-> i = index /\ x = slot \/ i <> index /\ lp_slots l !! i = Some x;
  ad_not_live x : ~ live_slot l index x;
  ad_id : lp_next_id l <= sl_id slot < lp_next_id l';
  ad_state : sl_state slot = SlotState.queued;
  ad_live : lp_live_events l' = <[sl_id slot := mkSlotRef index (sl_id slot)]> (lp_live_events l);
  ad_sequence : sl_sequence slot = lp_next_sequence l /\ lp_next_sequence l' = lp_next_sequence l + 1;
}.

Lemma added_live_slot l index slot l' i x : loop_ok l -> added l index slot l' ->
  live_slot l' i x <-> i = index /\ x = slot \/ live_slot l i x.
Proof.
  intros Hok Ha. pose proof (ad_id _ _ _ _ Ha) as Hid. unfold live_slot at 1.
  rewrite (ad_slots _ _ _ _ Ha), (ad_live _ _ _ _ Ha). split.
  - intros ([[-> ->]|[Hne Hs]] & Hq & Hl); [by left|right]. split; [done|]. split; [done|].
    rewrite lookup_insert_ne in Hl; [done|]. apply (lo_slot_ids l Hok) in Hs. lia.
  - intros [[-> ->]|Hx].
    + split; [by left|]. split; [apply Ha|apply lookup_insert_eq].
    + pose proof Hx as (Hs & Hq & Hl). split; [right; split; [|done]; intros ->; by apply (ad_not_live _ _ _ _ Ha) in Hx|].
      split; [done|]. rewrite lookup_insert_ne; [done|]. apply (lo_slot_ids l Hok) in Hs. lia.
Qed.

Lemma added_queue_skip P l index slot l' q : loop_ok l -> added l index slot l' -> queue_ok P l q ->
  ~ P slot -> queue_ok P l' q.
Proof.
  intros Hok Ha Hq HP. pose proof (ad_id _ _ _ _ Ha). destruct (ad_sequence _ _ _ _ Ha) as [Es En]. constructor.
  - apply Hq.
  - intros e He. destruct (qo_bounds _ _ _ Hq e He). lia.
  - intros e He Hl. destruct (qo_bounds _ _ _ Hq e He) as [Hb _]. unfold entryLive in Hl.
    destruct (lp_slots l' !! en_slot e) as [x|] eqn:E; [|done].
    apply (ad_slots _ _ _ _ Ha) in E as [[Ei ->]|[Hne E]].
    { rewrite andb_true_iff, Z.eqb_eq in Hl. lia. }
    destruct (qo_live _ _ _ Hq e He) as (y & Hy & Hey & HPy); [unfold entryLive; by rewrite E|].
    exists y. rewrite (added_live_slot _ _ _ _ _ _ Hok Ha). split; [by right|done].
  - intros i x Hx HPx. apply (added_live_slot _ _ _ _ _ _ Hok Ha) in Hx as [[-> ->]|Hx]; [done|]. by apply Hq.
Qed.
Lemma added_queue_push P l index slot l' q : loop_ok l -> added l index slot l' -> queue_ok P l q ->
  P slot -> queue_ok P l' (queue_push (entry_of index slot) q).
Proof.
  intros Hok Ha Hq HP. pose proof (ad_id _ _ _ _ Ha). destruct (ad_sequence _ _ _ _ Ha) as [Es En].
  assert (live_slot l' index slot) as Hslot by (apply (added_live_slot _ _ _ _ _ _ Hok Ha); by left). constructor.
  - apply queue_push_sorted; [apply Hq|]. intros x Hx. destruct (qo_bounds _ _ _ Hq x Hx). cbn. lia.
  - intros e [->|He]%queue_push_elem; [cbn; lia|]. destruct (qo_bounds _ _ _ Hq e He). lia.
  - intros e [->|He]%queue_push_elem Hl; [by exists slot|]. destruct (qo_bounds _ _ _ Hq e He) as [Hb _].
    unfold entryLive in Hl. destruct (lp_slots l' !! en_slot e) as [x|] eqn:E; [|done].
    apply (ad_slots _ _ _ _ Ha) in E as [[Ei ->]|[Hne E]].
    { rewrite andb_true_iff, Z.eqb_eq in Hl. lia. }
    destruct (qo_live _ _ _ Hq e He) as (y & Hy & Hey & HPy); [unfold entryLive; by rewrite E|].
    exists y. rewrite (added_live_slot _ _ _ _ _ _ Hok Ha). split; [by right|done].
  - intros i x Hx HPx. apply queue_push_elem.
    apply (added_live_slot _ _ _ _ _ _ Hok Ha) in Hx as [[-> ->]|Hx]; [by left|right]. by apply Hq.
Qed.

Lemma added_ok l index slot l' : loop_ok l -> added l index slot l' -> same_clocks l l' ->
  lp_next_id l' <= lane_id_marker -> lp_next_sequence l' <= max_u64 ->
  0 <= sl_at slot <= max_u64 ->
  is_Some (match sl_builtin slot with Some c => Some c | None => sl_callback slot end) ->
  NoDup (lp_free_slots l') -> (∀ i, i ∈ lp_free_slots l' -> i ∈ lp_free_slots l /\ i <> index) ->
  queue_ok (fun _ => True) l' (lp_events l') ->
  queue_ok (fun slot => sl_globally_observed slot = true) l' (lp_globally_observed l') ->
  (∀ owner, queue_ok (fun slot => sl_owner slot = owner) l' (schedulingQueue owner l')) ->
  loop_ok l' /\ view l' = <[sl_id slot := slot]> (view l) /\ view l !! sl_id slot = None.
Proof.
  intros Hok Ha [Kl Ko Ks Kn _] Hmark Hmax Hat Hcb Hnd Hfree He Hg Hown.
  pose proof (ad_id _ _ _ _ Ha) as Hid. pose proof (lo_next_id l Hok). pose proof (lo_next_sequence l Hok).
  destruct (ad_sequence _ _ _ _ Ha) as [Es En].
  assert (∀ i x, live_slot l' i x <-> i = index /\ x = slot \/ live_slot l i x) as Hlive
    by (intros; by apply added_live_slot).
  assert (loop_ok l') as Hok'.
  { constructor; try done; try lia.
    - rewrite Kl. apply Hok.
    - rewrite Ko. apply Hok.
    - rewrite Ks. apply Hok.
    - rewrite Kn. apply Hok.
    - rewrite (ad_live _ _ _ _ Ha). intros id ref [[<- <-]|[Hne E]]%lookup_insert_Some.
      + split; [done|]. exists slot. rewrite Hlive. split; [by left|done].
      + destruct (lo_live l Hok id ref E) as (? & x & Hx & ?). split; [done|]. exists x. rewrite Hlive. split; [by right|done].
    - intros i x [[-> ->]|Hx]%Hlive; [split_and!; try done; lia|].
      destruct (lo_live_slot l Hok i x Hx) as (? & ? & ? & ?). split_and!; try done; lia.
    - intros i x [[-> ->]|[_ Hs]]%(ad_slots _ _ _ _ Ha); [lia|]. apply (lo_slot_ids l Hok) in Hs. lia.
    - intros i Hin. apply Hfree in Hin as [Hin Hne]. destruct (lo_free l Hok i Hin) as (x & Hx & Hf).
      exists x. split; [|done]. apply (ad_slots _ _ _ _ Ha). by right. }
  split; [done|]. split.
  - apply map_eq. intros id. apply option_eq. intros x. rewrite lookup_insert_Some, !view_lookup by done.
    setoid_rewrite Hlive. split.
    + intros (i & [[-> ->]|Hx] & <-); [by left|right]. split; [|by exists i].
      destruct Hx as [Hx _]. apply (lo_slot_ids l Hok) in Hx. lia.
    + intros [[<- <-]|[Hne (i & Hx & <-)]]; [exists index|exists i]; tauto.
  - apply eq_None_not_Some. intros [x Hx]. apply view_lookup in Hx as (i & [Hx _] & E); [|done].
    apply (lo_slot_ids l Hok) in Hx. lia.
Qed.

Lemma timeFor_shared owner l : loop_ok l -> lp_shared_now l <= timeFor owner l.
Proof.
  intros Hok. pose proof (lo_shared_now l Hok) as Hs. unfold timeFor. rewrite (lo_offset l Hok), !Z.add_0_r.
  assert (∀ x, 0 <= x <= max_u64 -> u64 x = x) as Hu by (intros x Hx; unfold u64, max_u64 in *; apply Z.mod_small; lia).
  case_match; [rewrite Hu; lia|]. destruct (lp_owner_now l !! owner) as [t|] eqn:E; [|rewrite Hu; lia].
  pose proof (lo_owner_now l Hok owner t E). rewrite Hu; lia.
Qed.
Lemma timeFor_owner owner l t : loop_ok l -> owner <> shared_event_owner -> lp_owner_now l !! owner = Some t ->
  t <= timeFor owner l.
Proof.
  intros Hok Ho E. pose proof (lo_shared_now l Hok). pose proof (lo_owner_now l Hok owner t E).
  unfold timeFor. rewrite (lo_offset l Hok), Z.add_0_r, E. destruct (Z.eqb_spec owner shared_event_owner); [done|].
  unfold u64, max_u64 in *. rewrite Z.mod_small; lia.
Qed.

Lemma skip_ids_ok l n : loop_ok l -> lp_next_id l <= n <= lane_id_marker ->
  loop_ok {| l with lp_next_id := n |}.
Proof.
  intros Hok Hn. pose proof (lo_next_id l Hok).
  assert (∀ P q, queue_ok P l q -> queue_ok P {| l with lp_next_id := n |} q) as Hq.
  { intros P q Hq. apply (queue_ok_mono P l); try done. loop_fields. lia. }
  constructor; try exact (lo_live l Hok); try exact (lo_live_slot l Hok); try apply Hok; loop_fields; try lia.
  - intros i x Hx. apply (lo_slot_ids l Hok) in Hx. lia.
  - apply Hq, Hok.
  - apply Hq, Hok.
  - intros owner. apply Hq, (lo_owner_events l Hok).
Qed.

(** What scheduling did: nothing visible on an exception, one more event otherwise. *)
Definition scheduled (builtin : bool) (at_time : Z) (callback : option C) (guard : option G) (l : Loop)
    (r : Z + string) (l' : Loop) : Prop :=
  loop_ok l' /\ same_clocks l l' /\ lp_active_owner l' = lp_active_owner l
  /\ match r with
     | inr _ => view l' = view l
     | inl id => timeFor (lp_active_owner l) l <= at_time /\ ∃ slot,
         view l !! id = None /\ view l' = <[id := slot]> (view l)
         /\ slot = mkSlot at_time id (lp_next_sequence l) (lp_active_owner l)
              (if builtin then None else callback) (if builtin then callback else None) guard
              (negb (bool_decide (is_Some guard)) || (lp_active_owner l =? shared_event_owner)) SlotState.queued
     end.

Lemma publish_spec builtin at_time c guard l index slot l3 : let owner := lp_active_owner l in
  let observed := negb (bool_decide (is_Some guard)) || (owner =? shared_event_owner) in
  loop_ok l -> reserved l index slot l3 -> sl_at slot = at_time -> sl_id slot = lp_next_id l ->
  lp_active_owner l3 = owner -> timeFor owner l <= at_time -> 0 <= at_time <= max_u64 ->
  lp_next_sequence l < max_u64 ->
  scheduled builtin at_time (Some c) guard l (inl (sl_id slot))
    (publish index (lp_next_sequence l) owner (if builtin then None else Some c)
       (if builtin then Some c else None) guard observed {| l3 with lp_next_sequence := lp_next_sequence l + 1 |}).
Proof.
  intros owner observed Hok Hr Hat Hid Howner Ht Hrange Hseq.
  set (slot' := mkSlot at_time (sl_id slot) (lp_next_sequence l) owner (if builtin then None else Some c)
    (if builtin then Some c else None) guard observed SlotState.queued).
  assert (lp_slots l3 !! index = Some slot) as Hs3 by (apply (rv_slots _ _ _ _ Hr); by left).
  destruct (rv_next_id _ _ _ _ Hr) as [Hn1 Hn2].
  set (l5 := publish _ _ _ _ _ _ _ _).
  assert (lp_slots l5 = <[index := slot']> (lp_slots l3)) as Hs5.
  { unfold l5, publish, set_slot. loop_fields. rewrite Hs3. cbn [default from_option id]. unfold slot'.
    by rewrite <- Hat, <- (rv_state _ _ _ _ Hr). }
  assert (lp_live_events l !! sl_id slot = None) as Hnone.
  { apply eq_None_not_Some. intros [ref E]. apply live_id_bound in E; [lia|done]. }
  assert (added l index slot' l5) as Ha.
  { constructor; rewrite ?Hs5.
    - intros i x. rewrite list_lookup_insert_Some, (rv_slots _ _ _ _ Hr). split.
      + intros [(-> & <- & _)|[Hne [[-> _]|[_ Hx]]]]; [by left|done|right]. by split; [apply not_eq_sym|].
      + intros [[-> ->]|[Hne Hx]]; [left|right].
        * split; [done|]. split; [done|]. by eapply lookup_lt_Some.
        * split; [by apply not_eq_sym|]. by right.
    - apply Hr.
    - unfold l5, publish, set_slot, slot'. loop_fields. lia.
    - done.
    - unfold l5, publish, set_slot. loop_fields. rewrite Hs3. cbn [default from_option id].
      rewrite (rv_live _ _ _ _ Hr), Hnone. done.
    - done. }
  assert (lp_events l5 = queue_push (entry_of index slot') (lp_events l)) as He5.
  { unfold l5, publish, set_slot. loop_fields. rewrite Hs3, (rv_events _ _ _ _ Hr). cbn [default from_option id].
    by rewrite Hat. }
  assert (lp_globally_observed l5 = if observed then queue_push (entry_of index slot') (lp_globally_observed l)
                                    else lp_globally_observed l) as Hg5.
  { unfold l5, publish, set_slot. loop_fields. rewrite Hs3, (rv_observed _ _ _ _ Hr). cbn [default from_option id].
    by rewrite Hat. }
  assert (∀ o, schedulingQueue o l5 = if decide (o = owner)
      then queue_push (entry_of index slot') (discardDeadFront (lp_slots l5) (schedulingQueue owner l))
      else schedulingQueue o l) as Ho5.
  { intros o. rewrite Hs5. unfold l5, publish, set_slot, schedulingQueue. loop_fields.
    rewrite Hs3, (rv_owner_events _ _ _ _ Hr). cbn [default from_option id]. case_decide as Ho.
    - subst o. rewrite lookup_insert_eq. cbn [default from_option id]. unfold slot' at 1 2, entry_of. loop_fields.
      by rewrite <- Hat, <- (rv_state _ _ _ _ Hr).
    - by rewrite lookup_insert_ne by by apply not_eq_sym. }
  destruct (added_ok l index slot' l5 Hok Ha) as (Hok5 & Hv & Hn).
  - unfold l5, publish, set_slot. destruct (rv_clocks _ _ _ _ Hr). by constructor; loop_fields.
  - unfold l5, publish, set_slot. by loop_fields.
  - unfold l5, publish, set_slot. loop_fields. lia.
  - done.
  - unfold slot'. loop_fields. destruct builtin; by eexists.
  - apply Hr.
  - apply Hr.
  - rewrite He5. apply (added_queue_push _ l); try done. exact (lo_events l Hok).
  - rewrite Hg5. destruct observed eqn:Eo; [apply (added_queue_push _ l)|apply (added_queue_skip _ l index slot')]; try done;
      try exact (lo_observed l Hok); unfold slot'; loop_fields; by rewrite Eo.
  - intros o. rewrite Ho5. destruct (decide (o = owner)) as [->|Hne].
    + apply (added_queue_push _ l); try done. apply discard_by_ok; [exact (lo_owner_events l Hok owner)|].
      intros i x Hx. apply (added_live_slot l index slot' l5 i x Hok Ha). by right.
    + apply (added_queue_skip _ l index slot'); [done|done|exact (lo_owner_events l Hok o)|]. cbn [sl_owner slot']. by apply not_eq_sym.
  - split_and!; try done.
    + unfold l5, publish, set_slot. destruct (rv_clocks _ _ _ _ Hr). by constructor; loop_fields.
    + by exists slot'.
Qed.

Lemma schedule_spec builtin at_time callback guard l : loop_ok l -> at_time <= max_u64 ->
  let '(r, l') := schedule_with builtin at_time callback guard l in
  scheduled builtin at_time callback guard l r l'.
Proof.
  intros Hok Hat. pose proof (timeFor_shared (lp_active_owner l) l Hok) as Ht. pose proof (lo_shared_now l Hok) as Hs.
  assert (∀ e, scheduled builtin at_time callback guard l (inr e) l) as Hstay by (intros e; by split_and!).
  unfold schedule_with, throw_if, get, update, mbind, Ev_bind, raise, mret, Ev_ret.
  destruct callback as [c|]; [rewrite bool_decide_eq_true_2 by done|rewrite bool_decide_eq_false_2 by (by intros [? ?]); apply Hstay].
  cbn [negb]. pose proof (lo_serial l Hok) as Hser. rewrite Hser. cbn [andb].
  destruct (Z.ltb_spec at_time (timeFor (lp_active_owner l) l)); [apply Hstay|].
  destruct (allocateId l) as [[id|e] l1] eqn:Ea.
  2: { apply allocateId_inv in Ea as ->; [|done]. apply Hstay. }
  destruct (acquireSlot l1) as [[index|e] l2] eqn:Eq.
  2: { unfold acquireSlot in Eq. destruct (lp_free_slots l1); [|done]. case_match; [|done]. injection Eq as <- <-.
       apply allocateId_inv in Ea as (_ & -> & Hlt); [|done]. split_and!; try done.
       apply skip_ids_ok; [done|lia]. }
  destruct (reserve_spec l at_time id l1 index l2 Hok Ea Eq) as (slot & Hr & Hsat & Hsid & Howner).
  destruct (reserved_ok l index slot _ Hok Hr) as [Hok3 Hv3]. set (l3 := stamp_slot index at_time id l2) in *.
  unfold allocateSequence. destruct (Z.eqb_spec (lp_next_sequence l3) max_u64) as [Hmax|Hmax].
  { split_and!; try done. apply Hr. }
  assert (lp_next_sequence l3 = lp_next_sequence l) as Hseq by apply Hr. rewrite Hseq in *.
  pose proof (lo_next_sequence l Hok) as Hsb.
  assert (u64 (lp_next_sequence l + 1) = lp_next_sequence l + 1) as Hu
    by (unfold u64, max_u64 in *; apply Z.mod_small; lia). rewrite Hu.
  rewrite <- Hsid. apply publish_spec; try done; try lia. apply Hr.
Qed.
End invariant.
