(* ===== verification/EventLoopDispatch.v ===== *)
(** * Dispatch terminates and runs every due event

    Callbacks preserve the invariant and cannot schedule before the clock of the owner they
    schedule for; so a run dispatches events in order, each timestamp at most the configured
    number of times, and stops. *)

From stdpp Require Import gmap sorting.
From S2P Require Import Prelude Common EventLoop EventLoopProofs.
#[local] Open Scope Z_scope.
#[local] Open Scope fil_scope.

Section dispatch.
Context {C G B W : Type} `{Callbacks C G B W}.
Abbreviation Loop := (Loop C G B).
Abbreviation Slot := (Slot C G).

(** ** Fields the invariant does not read *)

Record same_store (l l' : Loop) : Prop := {
  ss_slots : lp_slots l' = lp_slots l;
  ss_free : lp_free_slots l' = lp_free_slots l;
  ss_live : lp_live_events l' = lp_live_events l;
  ss_next_id : lp_next_id l' = lp_next_id l;
  ss_next_sequence : lp_next_sequence l' = lp_next_sequence l;
  ss_events : lp_events l' = lp_events l;
  ss_observed : lp_globally_observed l' = lp_globally_observed l;
  ss_owner_events : lp_owner_events l' = lp_owner_events l;
}.

Lemma same_store_ok l l' : loop_ok l -> same_store l l' ->
  lp_lane_domain l' = false -> lp_read_offset l' = 0 -> 0 <= lp_shared_now l' <= max_u64 ->
  (∀ owner t, lp_owner_now l' !! owner = Some t -> 0 <= t <= max_u64) ->
  loop_ok l' /\ view l' = view l.
Proof.
  intros Hok [Hs Hf Hl Hi Hn He Hg Ho] Hlane Hoff Hnow Hown.
  assert (∀ i x, live_slot l' i x <-> live_slot l i x) as Hlive by (intros; unfold live_slot; by rewrite Hs, Hl).
  assert (∀ P q, queue_ok P l q -> queue_ok P l' q) as Hq
    by (intros P q Hq; apply (queue_ok_mono P l); try done; rewrite ?Hs, ?Hi, ?Hn; try done; lia).
  split; [|unfold view; by rewrite Hs, Hl]. constructor; try done; rewrite ?Hi, ?Hn, ?Hl, ?Hf, ?Hs, ?He, ?Hg; try apply Hok.
  - intros id ref E. destruct (lo_live l Hok id ref E) as (? & x & Hx & ?). split; [done|]. exists x. by rewrite Hlive.
  - intros i x. rewrite Hlive. apply Hok.
  - apply Hq, Hok.
  - apply Hq, Hok.
  - intros owner. unfold schedulingQueue. rewrite Ho. apply Hq, (lo_owner_events l Hok owner).
Qed.

Lemma clocks_ok l l' : loop_ok l -> same_store l l' -> same_clocks l l' -> loop_ok l' /\ view l' = view l.
Proof.
  intros Hok Hs [Kl Ko Ks Kn _]. apply (same_store_ok l); try done; rewrite ?Kl, ?Ko, ?Ks, ?Kn; apply Hok.
Qed.

Lemma timeFor_clocks (l l' : Loop) owner : same_clocks l l' -> timeFor owner l' = timeFor owner l.
Proof. intros [_ Ko Ks Kn _]. unfold timeFor. by rewrite Ko, Ks, Kn. Qed.

(** ** Callbacks *)

(** The time arguments of a program are of type [SimTimeNs]. *)
Fixpoint prog_ok (p : Prog C G W) : Prop :=
  match p with
  | Return _ | Throw _ _ => True
  | Schedule _ at_time _ _ k => at_time <= max_u64 /\ ∀ r, prog_ok (k r)
  | ScheduleAfter _ _ _ k => ∀ r, prog_ok (k r)
  | Cancel _ k => ∀ r, prog_ok (k r)
  | Now k => ∀ r, prog_ok (k r)
  | SetOwner _ k => ∀ r, prog_ok (k r)
  end.

(** [l'] has events of [l], and new ones that are not before the clock of their owner. *)
Record grown (l l' : Loop) : Prop := {
  gr_ok : loop_ok l';
  gr_clocks : same_clocks l l';
  gr_view id slot : view l' !! id = Some slot ->
    view l !! id = Some slot \/ timeFor (sl_owner slot) l <= sl_at slot;
}.

Lemma grown_refl l : loop_ok l -> grown l l.
Proof. intros Hok. constructor; [done|by constructor|]. by left. Qed.
Lemma grown_trans l1 l2 l3 : grown l1 l2 -> grown l2 l3 -> grown l1 l3.
Proof.
  intros [O1 K1 V1] [O2 K2 V2]. constructor; [done|destruct K1, K2; constructor; congruence|].
  intros id slot E. rewrite <- (timeFor_clocks l1 l2 _ K1). destruct (V2 id slot E) as [E'|]; [|by right].
  destruct (V1 id slot E'); [by left|right]. by rewrite (timeFor_clocks l1 l2 _ K1).
Qed.

Lemma grown_schedule builtin at_time callback guard l : loop_ok l -> at_time <= max_u64 ->
  grown l (snd (schedule_with builtin at_time callback guard l)).
Proof.
  intros Hok Hat. pose proof (schedule_spec builtin at_time callback guard l Hok Hat) as Hs.
  destruct (schedule_with builtin at_time callback guard l) as [[id|e] l']; destruct Hs as (Hok' & Hk & _ & Hv);
    constructor; try done; intros id' slot E; cbn [snd] in E.
  - destruct Hv as (Ht & new & Hnone & Hv & ->). rewrite Hv in E. apply lookup_insert_Some in E as [[<- <-]|[_ E]].
    + right. done.
    + by left.
  - rewrite Hv in E. by left.
Qed.

Lemma schedule_after_grown builtin delta callback l : loop_ok l ->
  grown l (snd (schedule_after builtin delta callback l)).
Proof.
  intros Hok. unfold schedule_after, get, throw_if, raise, mbind, Ev_bind, mret, Ev_ret.
  destruct (Z.ltb_spec (max_u64 - timeFor (lp_active_owner l) l) delta); [by apply grown_refl|].
  apply grown_schedule; [done|lia].
Qed.

Lemma run_prog_grown p l : loop_ok l -> prog_ok p ->
  grown l (snd (run_prog p l)).
Proof.
  revert l. induction p as [w|m w|b t c g k IH|b dt c k IH|i k IH|k IH|o k IH]; intros l Hok Hp; cbn [run_prog].
  - by apply grown_refl.
  - by apply grown_refl.
  - destruct Hp as [Ht Hp]. pose proof (grown_schedule b t c g l Hok Ht) as Hg.
    destruct (schedule_with b t c g l) as [r l1]. cbn [snd] in Hg.
    eapply grown_trans; [exact Hg|]. apply IH; [apply Hg|apply Hp].
  - pose proof (schedule_after_grown b dt c l Hok) as Hg. destruct (schedule_after b dt c l) as [r l1]. cbn [snd] in Hg.
    eapply grown_trans; [exact Hg|]. apply IH; [apply Hg|apply Hp].
  - pose proof (cancelId_spec l i Hok) as Hc. destruct (cancelId i l) as [r l1]. destruct Hc as (Hok1 & Hk & _ & _ & Hv).
    assert (grown l l1) as Hg.
    { constructor; try done. intros id slot. rewrite Hv. intros E. apply lookup_delete_Some in E as [_ E]. by left. }
    eapply grown_trans; [exact Hg|]. apply IH; [done|apply Hp].
  - apply IH; [done|apply Hp].
  - assert (grown l (setCurrentOwner o l)) as Hg.
    { destruct (clocks_ok l (setCurrentOwner o l) Hok) as [Hok' Hv]; [by constructor|by constructor|].
      constructor; [done|by constructor|]. rewrite Hv. by left. }
    eapply grown_trans; [exact Hg|]. apply IH; [apply Hg|apply Hp].
Qed.

(** ** Selections *)

(** The front of a selection's queue is the earliest event of the selection; retiring it
    removes exactly that event and moves the clock of every owner it selects. *)
Definition front_spec (s : Selection) (P : Slot -> Prop) (l : Loop) (q : list Entry) : Prop :=
  match q with
  | [] => ∀ id x, view l !! id = Some x -> ~ P x
  | e :: _ => ∃ slot, lp_slots (before_invoke s (en_at e) (drop_front s l)) !! en_slot e = Some slot
      /\ e = entry_of (en_slot e) slot /\ P slot /\ view l !! en_id e = Some slot
      /\ is_Some (match sl_builtin slot with Some c => Some c | None => sl_callback slot end)
      /\ 0 <= en_at e <= max_u64
      /\ (∀ id x, view l !! id = Some x -> P x -> x = slot \/ before e (entry_of 0 x))
      /\ let l' := retire_entry e slot (before_invoke s (en_at e) (drop_front s l)) in
         loop_ok l' /\ view l' = delete (en_id e) (view l)
         /\ (∀ x, P x -> en_at e <= timeFor (sl_owner x) l')
         /\ lp_maximum_same_time_events l' = lp_maximum_same_time_events l
  end.

Record selects (s : Selection) (P : Slot -> Prop) : Prop := {
  sc_select (l : Loop) : loop_ok l -> let '(q, l') := select s l in
    loop_ok l' /\ view l' = view l /\ same_clocks l l' /\ front_spec s P l' q;
  sc_clock (l : Loop) t : loop_ok l -> 0 <= t <= max_u64 ->
    loop_ok (set_clock s t l) /\ view (set_clock s t l) = view l;
}.

(** Replacing a queue by one that is correct. *)
Lemma events_ok (l : Loop) q : loop_ok l -> queue_ok (fun _ => True) l q -> loop_ok {| l with lp_events := q |}.
Proof.
  intros Hok Hq. constructor; try exact (lo_live l Hok); try exact (lo_live_slot l Hok); try apply Hok.
  - destruct Hq; by constructor.
  - destruct (lo_observed l Hok); by constructor.
  - intros owner. destruct (lo_owner_events l Hok owner); by constructor.
Qed.
Lemma owner_events_ok (l : Loop) owner q : loop_ok l -> queue_ok (fun x => sl_owner x = owner) l q ->
  loop_ok {| l with lp_owner_events := <[owner := q]> (lp_owner_events l) |}.
Proof.
  intros Hok Hq. constructor; try exact (lo_live l Hok); try exact (lo_live_slot l Hok); try apply Hok.
  - destruct (lo_events l Hok); by constructor.
  - destruct (lo_observed l Hok); by constructor.
  - intros o. unfold schedulingQueue. cbn [lp_owner_events]. destruct (decide (o = owner)) as [->|Hne].
    + rewrite lookup_insert_eq. destruct Hq; by constructor.
    + rewrite lookup_insert_ne by done. destruct (lo_owner_events l Hok o); by constructor.
Qed.

(** A queue either keeps the entry or has popped it. *)
Definition popped (e : Entry) (q q' : list Entry) : Prop := q' = q \/ q = e :: q'.

Lemma popped_ok P (l : Loop) index slot l' q q' : removed l index slot l' -> queue_ok P l q ->
  popped (entry_of index slot) q q' -> queue_ok P l' q'.
Proof.
  intros Hr Hq [->| ->]; [by apply (removed_queue _ l index slot)|by apply (removed_queue_tail _ l index slot)].
Qed.

(** [l1] is [l] with the entry popped from its queue and perhaps the shared clock moved. *)
Record about_to_invoke (l l1 : Loop) (e : Entry) : Prop := {
  ai_slots : lp_slots l1 = lp_slots l;
  ai_free : lp_free_slots l1 = lp_free_slots l;
  ai_live : lp_live_events l1 = lp_live_events l;
  ai_next_id : lp_next_id l1 = lp_next_id l;
  ai_next_sequence : lp_next_sequence l1 = lp_next_sequence l;
  ai_observed : lp_globally_observed l1 = lp_globally_observed l;
  ai_events : popped e (lp_events l) (lp_events l1);
  ai_owner_events owner : popped e (schedulingQueue owner l) (schedulingQueue owner l1);
  ai_owner_now : lp_owner_now l1 = lp_owner_now l;
  ai_lane : lp_lane_domain l1 = lp_lane_domain l;
  ai_offset : lp_read_offset l1 = lp_read_offset l;
  ai_maximum : lp_maximum_same_time_events l1 = lp_maximum_same_time_events l;
  ai_shared : 0 <= lp_shared_now l1 <= max_u64;
}.

Lemma retire_ok (l l1 : Loop) index slot e : loop_ok l -> live_slot l index slot ->
  e = entry_of index slot -> about_to_invoke l l1 e ->
  let l' := retire_entry e slot l1 in
  loop_ok l' /\ view l' = delete (sl_id slot) (view l)
  /\ lp_maximum_same_time_events l' = lp_maximum_same_time_events l
  /\ sl_at slot <= timeFor (sl_owner slot) l' /\ Z.min (sl_at slot) (lp_shared_now l1) <= lp_shared_now l'.
Proof.
  intros Hok Hs -> Ha l'. destruct (lo_live_slot l Hok _ _ Hs) as (_ & _ & Hat & _).
  assert (removed l index slot l') as Hr.
  { destruct Ha as [As Af Al Ai An _ _ _ _ _ _ _ _].
    constructor; try done; unfold l', retire_entry, setTime; case_match; cbn; rewrite ?Al, ?Af; try done;
      eexists; (split; [by rewrite As|done]). }
  destruct (removed_ok l index slot l' Hok Hr) as [Hok' Hv].
  - unfold l', retire_entry, setTime. case_match; cbn; rewrite (ai_lane _ _ _ Ha); apply Hok.
  - unfold l', retire_entry, setTime. case_match; cbn; rewrite (ai_offset _ _ _ Ha); apply Hok.
  - unfold l', retire_entry, setTime. case_match; cbn; [done|apply Ha].
  - intros owner t. unfold l', retire_entry, setTime. case_match; cbn; rewrite (ai_owner_now _ _ _ Ha); [apply Hok|].
    intros [[_ <-]|[_ E]]%lookup_insert_Some; [done|by apply (lo_owner_now l Hok) in E].
  - apply (popped_ok _ l index slot l' (lp_events l)); [done|apply Hok|].
    unfold l', retire_entry, setTime. case_match; apply Ha.
  - assert (lp_globally_observed l' = discardDeadFront (lp_slots l') (lp_globally_observed l)) as ->
      by (unfold l', retire_entry, setTime; case_match; cbn; by rewrite (ai_observed _ _ _ Ha)).
    apply discard_ok, (removed_queue _ l index slot); [done|apply Hok].
  - intros owner. apply (popped_ok _ l index slot l' (schedulingQueue owner l)); [done|apply (lo_owner_events l Hok)|].
    unfold l', retire_entry, setTime. case_match; apply Ha.
  - split_and!; try done.
    + unfold l', retire_entry, setTime. case_match; apply Ha.
    + destruct (Z.eqb_spec (sl_owner slot) shared_event_owner) as [E|E].
      * pose proof (timeFor_shared (sl_owner slot) l' Hok') as Ht.
        unfold l', retire_entry, setTime in Ht |- *. rewrite E in *. exact Ht.
      * apply timeFor_owner; [done|done|]. unfold l', retire_entry, setTime.
        destruct (Z.eqb_spec (sl_owner slot) shared_event_owner); [done|]. apply lookup_insert_eq.
    + unfold l', retire_entry, setTime. case_match; cbn; lia.
Qed.

(** From the front of a correct queue to the specification of the selection. *)
Lemma front_of_queue (s : Selection) P (l : Loop) q : loop_ok l -> queue_ok P l q ->
  discardDeadFront (lp_slots l) q = q ->
  (∀ e q' slot, q = e :: q' -> live_slot l (en_slot e) slot -> P slot -> 0 <= en_at e <= max_u64 ->
    about_to_invoke l (before_invoke s (en_at e) (drop_front s l)) e
    /\ (lp_shared_now (before_invoke s (en_at e) (drop_front s l)) = en_at e
        \/ ∀ x, P x -> sl_owner x = sl_owner slot)) ->
  front_spec s P l q.
Proof.
  intros Hok Hq Hdis Hinv. pose proof (queue_front P l q Hq) as Hf. rewrite Hdis in Hf. destruct q as [|e q'].
  { intros id x Hx HP. apply view_lookup in Hx as (i & Hx & _); [|done]. by apply (Hf i x). }
  destruct Hf as (slot & Hl & He & HP & Hfirst). pose proof (lo_live_slot l Hok _ _ Hl) as (_ & _ & Hat & Hcb).
  assert (en_at e = sl_at slot) as Eat by (by rewrite He). rewrite <- Eat in Hat.
  destruct (Hinv e q' slot eq_refl Hl HP Hat) as [Ha Hclock].
  assert (en_id e = sl_id slot) as Eid by (by rewrite He).
  destruct (retire_ok l _ (en_slot e) slot e Hok Hl He Ha) as (Hok' & Hv & Hm & Ht & Hs).
  exists slot. split_and!; try done.
  - rewrite (ai_slots _ _ _ Ha). apply Hl.
  - apply view_lookup; [done|]. by exists (en_slot e).
  - apply Hat.
  - apply Hat.
  - intros id x Hx HPx. apply view_lookup in Hx as (i & Hx & _); [|done]. by destruct (Hfirst i x Hx HPx); [left|right].
  - cbv zeta. rewrite Eid. split_and!; try done. intros x HPx. destruct Hclock as [Hc|Hc].
    + pose proof (timeFor_shared (sl_owner x) _ Hok'). lia.
    + rewrite (Hc x HPx). lia.
Qed.

Lemma discard_idem slots q : discardDeadFront (C:=C) (G:=G) slots (discardDeadFront slots q) = discardDeadFront slots q.
Proof.
  induction q as [|e q IH]; cbn [discardDeadFront]; [done|]. destruct (entryLive slots e) eqn:E; [|done].
  cbn [discardDeadFront]. by rewrite E.
Qed.

Lemma global_selects : selects global_selection (fun _ => True).
Proof.
  constructor.
  - intros l Hok. cbn [select global_selection]. pose proof (discard_ok _ l _ (lo_events l Hok)) as Hq.
    pose proof (events_ok l _ Hok Hq) as Hok'. split_and!; try done.
    apply front_of_queue; [done|apply Hok'|apply discard_idem|].
    intros e q' slot Eq Hl _ Hat. split; [|by left].
    constructor; try done; [|by left]. right. cbn [before_invoke drop_front global_selection lp_events]. by rewrite Eq.
  - intros l t Hok Ht. apply (same_store_ok l); try done; apply Hok.
Qed.

Lemma owner_selects owner : selects (owner_selection owner) (fun x => sl_owner x = owner).
Proof.
  constructor.
  - intros l Hok. cbn [select owner_selection]. unfold ownerQueue.
    pose proof (lo_owner_events l Hok owner) as Hq. unfold schedulingQueue in Hq.
    destruct (lp_owner_events l !! owner) as [q|] eqn:E; cbn [default from_option id] in Hq.
    + apply discard_ok in Hq. set (q1 := discardDeadFront (lp_slots l) q) in *.
      pose proof (owner_events_ok l owner q1 Hok Hq) as Hok'. split_and!; try done.
      apply front_of_queue; [done| |apply discard_idem|].
      { pose proof (lo_owner_events _ Hok' owner) as Hq'. unfold schedulingQueue in Hq'. cbn [lp_owner_events] in Hq'.
        by rewrite lookup_insert_eq in Hq'. }
      intros e q' slot Eq Hl HP Hat. split; [|right; congruence].
      constructor; try done; cbn; [by left| |apply Hok].
      intros o. unfold popped, schedulingQueue. cbn [before_invoke drop_front owner_selection lp_owner_events]. destruct (decide (o = owner)) as [->|Ho].
      * unfold schedulingQueue. cbn [lp_owner_events]. rewrite !lookup_insert_eq. cbn. rewrite Eq. by right.
      * rewrite !lookup_insert_ne by by apply not_eq_sym. by left.
    + split_and!; try done. intros id x Hx HP. apply view_lookup in Hx as (i & Hx & _); [|done].
      pose proof (qo_complete _ _ _ Hq i x Hx HP). set_solver.
  - intros l t Hok Ht. cbn [set_clock owner_selection]. unfold setTime.
    case_match; apply (same_store_ok l); try done; try apply Hok.
    cbn. intros o t' [[_ <-]|[_ Eo]]%lookup_insert_Some; [done|by apply (lo_owner_now l Hok) in Eo].
Qed.

(** ** The other operations *)

Lemma loop_default_ok maximum : loop_ok (loop_default maximum : Loop).
Proof.
  assert (∀ P, queue_ok P (loop_default maximum : Loop) []) as Hq.
  { intros P. constructor; [constructor|set_solver|set_solver|]. intros i x (_ & _ & Hx). done. }
  constructor; try done; cbn.
  - intros i x (_ & _ & Hx). done.
  - constructor.
  - intros i Hi. set_solver.
Qed.

Lemma clear_ok (l : Loop) : loop_ok l -> loop_ok (clear l) /\ view (clear l) = ∅.
Proof.
  intros Hok. assert (∀ P, queue_ok P (clear l) []) as Hq.
  { intros P. constructor; [constructor|set_solver|set_solver|]. intros i x (_ & _ & Hx). done. }
  split; [|unfold view; cbn; apply omap_empty]. constructor; try apply Hok; try done; cbn.
  - intros i x (_ & _ & Hx). done.
  - intros i x. rewrite list_lookup_fmap. intros ([y] & Hy & ->)%fmap_Some. exact (lo_slot_ids l Hok i _ Hy).
  - rewrite (reverse_Permutation (seq 0 _)). apply NoDup_seq.
  - intros i. rewrite elem_of_reverse, elem_of_seq. intros Hi. destruct (lookup_lt_is_Some_2 (lp_slots l) i) as [x Hx]; [lia|].
    exists (free_slot x). split; [|done]. rewrite list_lookup_fmap. apply fmap_Some. by exists x.
Qed.

Lemma pending_view (l : Loop) : loop_ok l -> pending l = size (view l).
Proof.
  intros Hok. unfold pending. rewrite <- !(size_dom (D:=gset Z)). f_equal. apply set_eq. intros id.
  rewrite !elem_of_dom. unfold view. rewrite lookup_omap. split; [|by intros [x Hx]; destruct (lp_live_events l !! id)].
  intros [ref E]. destruct (lo_live l Hok id ref E) as (_ & x & [Hx _] & _). rewrite E. exists x. exact Hx.
Qed.

(** ** One dispatch *)

Hypothesis Hprogs : ∀ c w, prog_ok (behave c w).

Lemma invoke_spec s P (l : Loop) e q' r w : front_spec s P l (e :: q') ->
  (∀ id x, view l !! id = Some x -> P x -> en_at e <= sl_at x) ->
  let '(_, r', _, l') := invoke e r w (before_invoke s (en_at e) (drop_front s l)) in
  loop_ok l' /\ lp_maximum_same_time_events l' = lp_maximum_same_time_events l
  /\ er_same_time_limit_hit r' = er_same_time_limit_hit r
  /\ er_events_executed r' = er_events_executed r + 1
  /\ ∀ id x, view l' !! id = Some x -> P x -> en_at e <= sl_at x.
Proof.
  intros (slot & Hs & He & HP & _ & [c Hc] & Hat & _ & Hok1 & Hv1 & Hclock & Hmax) Hfirst.
  unfold invoke. rewrite Hs. cbn [default from_option id]. rewrite Hc.
  set (l1 := retire_entry e slot _) in *. set (l2 := setCurrentOwner (sl_owner slot) l1).
  destruct (clocks_ok l1 l2 Hok1) as [Hok2 Hv2]; [by constructor|by constructor|].
  set (w1 := run_observers _ _ _ _ _). pose proof (run_prog_grown (behave c w1) l2 Hok2 (Hprogs c w1)) as Hg.
  destruct (run_prog (behave c w1) l2) as [[res w2] l3]. cbn [snd] in Hg. destruct Hg as [Hok3 Hk3 Hv3].
  set (l4 := match res with inl _ => _ | inr _ => _ end).
  assert (same_store l3 l4 /\ same_clocks l3 l4) as [Hs4 Hk4].
  { unfold l4. destruct res; [destruct (lp_executed_callbacks l3 =? max_u64)|]; split; constructor; reflexivity. }
  clearbody l4. set (l5 := setCurrentOwner (lp_active_owner l1) l4).
  destruct (clocks_ok l3 l5 Hok3) as [Hok5 Hv5]; [destruct Hs4; constructor; assumption|destruct Hk4; constructor; assumption|].
  split_and!; try done.
  - change (lp_maximum_same_time_events l4 = lp_maximum_same_time_events l). rewrite (sk_maximum _ _ Hk4), (sk_maximum _ _ Hk3). exact Hmax.
  - unfold markOwner. by destruct (sl_owner slot <? 64).
  - cbn. unfold markOwner. by destruct (sl_owner slot <? 64).
  - intros id x. rewrite Hv5. intros Hx HPx. destruct (Hv3 id x Hx) as [Hx'|Ht].
    + rewrite Hv2, Hv1 in Hx'. apply lookup_delete_Some in Hx' as [_ Hx']. by apply (Hfirst id).
    + pose proof (Hclock x HPx) as Hx1. change (timeFor (sl_owner x) l2) with (timeFor (sl_owner x) l1) in Ht. lia.
Qed.

(** ** Dispatch *)

(** What a run leaves: no selected event that is due, or an event at the time it stopped at. *)
Definition run_spec (P : Slot -> Prop) (deadline : Z) (res : (EventRunResult + string) * W * Loop) : Prop :=
  let '(r, _, l) := res in
  loop_ok l /\
  match r with
  | inr _ => True
  | inl r => if er_same_time_limit_hit r
             then er_stopped_at r <= deadline
               /\ (∃ id x, view l !! id = Some x /\ P x /\ sl_at x = er_stopped_at r)
               /\ ∀ id x, view l !! id = Some x -> P x -> er_stopped_at r <= sl_at x
             else er_stopped_at r = deadline
               /\ ∀ id x, view l !! id = Some x -> P x -> deadline < sl_at x
  end.

Lemma front_first s P (l : Loop) e q' : front_spec s P l (e :: q') ->
  ∀ id x, view l !! id = Some x -> P x -> en_at e <= sl_at x.
Proof.
  intros (slot & _ & He & _ & _ & _ & _ & Hfirst & _) id x Hx HP.
  destruct (Hfirst id x Hx HP) as [->|[Hb|Hb]]; [by rewrite He|cbn in Hb; lia|cbn in Hb; lia].
Qed.

(** Each dispatch uses up part of what is left: [n] of the events allowed at time [t]. *)
Lemma dispatch_measure deadline t t' maximum n fuel : t <= t' <= deadline -> 0 <= n <= maximum ->
  n < maximum \/ t < t' ->
  (deadline + 1 - t) * maximum - n < Z.of_nat (S fuel) ->
  (deadline + 1 - t') * maximum - (if (n =? 0) || negb (t' =? t) then 1 else n + 1) < Z.of_nat fuel.
Proof.
  intros Ht Hn Hlt Hf. destruct (Z.eqb_spec n 0), (Z.eqb_spec t' t); cbn [negb orb]; nia.
Qed.

Lemma dispatch_spec s P : selects s P -> ∀ fuel deadline t counted n r w (l : Loop), loop_ok l ->
  0 <= deadline <= max_u64 -> er_same_time_limit_hit r = false ->
  (∀ id x, view l !! id = Some x -> P x -> t <= sl_at x) ->
  n = 0 \/ counted = t /\ t <= deadline -> 0 <= n <= lp_maximum_same_time_events l ->
  t <= deadline + 1 -> (deadline + 1 - t) * lp_maximum_same_time_events l - n < Z.of_nat fuel ->
  ∃ res, dispatch_loop fuel s deadline counted n r w l = Some res /\ run_spec P deadline res.
Proof.
  intros Hsel. induction fuel as [|fuel IH]; intros deadline t counted n r w l Hok Hd Hr Ht Hn Hn0 Htd Hfuel; [nia|].
  cbn [dispatch_loop]. pose proof (sc_select s P Hsel l Hok) as Hs. destruct (select s l) as [q l1].
  destruct Hs as (Hok1 & Hv1 & Hk1 & Hfront). rewrite (sk_maximum _ _ Hk1).
  assert (∀ id x, view l1 !! id = Some x -> P x -> t <= sl_at x) as Ht1 by (by rewrite Hv1).
  assert ((∀ id x, view l1 !! id = Some x -> P x -> deadline < sl_at x) ->
    run_spec P deadline (inl {| r with er_stopped_at := deadline |}, w, set_clock s deadline l1)) as Hdone.
  { intros Hlate. destruct (sc_clock s P Hsel l1 deadline Hok1 Hd) as [Hok2 Hv2].
    split; [done|]. cbn [er_same_time_limit_hit er_stopped_at]. rewrite Hr, Hv2. done. }
  destruct q as [|e q'].
  { eexists. split; [done|]. apply Hdone. intros id x Hx HP. by destruct (Hfront id x Hx). }
  pose proof (front_first s P l1 e q' Hfront) as Hfirst.
  destruct (Z.ltb_spec deadline (en_at e)) as [Hlt|Hle].
  { eexists. split; [done|]. apply Hdone. intros id x Hx HP. pose proof (Hfirst id x Hx HP). lia. }
  pose proof Hfront as (slot & _ & He & HPs & Hvs & _ & Hat & _).
  assert (t <= en_at e) as Hte by (rewrite He; cbn; by apply (Ht1 (en_id e))).
  assert ((n =? 0) || negb (en_at e =? counted) = (n =? 0) || negb (en_at e =? t)) as Efresh.
  { destruct Hn as [->|[-> _]]; done. } rewrite Efresh.
  set (fresh := (n =? 0) || negb (en_at e =? t)) in *.
  destruct (Z.leb_spec (lp_maximum_same_time_events l) (if fresh then 0 else n)) as [Hlim|Hlim].
  { eexists. split; [done|]. destruct (sc_clock s P Hsel l1 (en_at e) Hok1 Hat) as [Hok2 Hv2].
    split; [done|]. cbn. rewrite Hv2. split_and!; [done| |done]. exists (en_id e), slot. split_and!; try done. by rewrite He. }
  pose proof (invoke_spec s P l1 e q' r w Hfront Hfirst) as Hinv.
  destruct (invoke e r w _) as [[[res r'] w'] l2]. destruct Hinv as (Hok2 & Hm2 & Hr2 & _ & Hafter).
  destruct res as [[]|err]; [|by eexists]. rewrite (sk_maximum _ _ Hk1) in Hm2.
  apply (IH _ (en_at e)); rewrite ?Hm2; try done; try lia; try congruence.
  - right. split; [|done]. unfold fresh. destruct Hn as [->|[-> _]]; [done|].
    destruct (Z.eqb_spec (en_at e) t) as [->|]; cbn [negb]; [by destruct (n =? 0)|by rewrite orb_true_r].
  - destruct fresh; lia.
  - pose proof (dispatch_measure deadline t (en_at e) (lp_maximum_same_time_events l) n fuel) as Hmeas.
    fold fresh in Hmeas. replace ((if fresh then 0 else n) + 1) with (if fresh then 1 else n + 1) by (by destruct fresh).
    apply Hmeas; try lia. unfold fresh in Hlim. destruct (Z.eqb_spec n 0), (Z.eqb_spec (en_at e) t); cbn in Hlim; lia.
Qed.
End dispatch.
