(* ===== verification/CanFrame.v ===== *)
(** * CAN frames

    Models the frame half of [src/devices/can_bus.cpp]: data-length codes, validation, the bits
    of a classic frame with their CRC, the count of stuffed bits, wire occupancy and the
    arbitration key. *)

From S2P Require Import Prelude Common.
#[local] Open Scope Z_scope.
#[local] Open Scope fil_scope.

Record CanFrame := mkCanFrame {
  cf_id : Z;
  cf_extended : bool;
  cf_fd : bool;
  cf_brs : bool;
  cf_dlc : Z;
  cf_data : list Z;
}.
#[global] Instance can_frame_eq_dec : EqDecision CanFrame.
Proof. solve_decision. Defined.

(** ** Data-length codes *)

Definition dlc_lengths : list Z := [0; 1; 2; 3; 4; 5; 6; 7; 8; 12; 16; 20; 24; 32; 48; 64].

Definition dlcToLength (dlc : Z) : Z := default 0 (dlc_lengths !! Z.to_nat (dlc .& 0x0f)).

Fixpoint first_dlc (fuel : nat) (dlc length : Z) : option Z :=
  match fuel with
  | O => None
  | S fuel => if length <=? dlcToLength dlc then Some dlc else first_dlc fuel (dlc + 1) length
  end.
Definition lengthToDlc (length : Z) : option Z := first_dlc 16 0 length.

Definition validate (frame : CanFrame) : Result unit :=
  if 15 <? cf_dlc frame then fail ErrorCategory.invalid_argument "CAN DLC exceeds 15"
  else if (if cf_extended frame then 0x1fffffff <? cf_id frame else 0x7ff <? cf_id frame) then
    fail ErrorCategory.invalid_argument "CAN identifier exceeds selected format"
  else if negb (cf_fd frame) && (8 <? cf_dlc frame) then
    fail ErrorCategory.invalid_argument "classic CAN frame payload exceeds 8 bytes"
  else if negb (cf_fd frame) && cf_brs frame then
    fail ErrorCategory.invalid_argument "classic CAN frame cannot enable bit-rate switching"
  else inl tt.

(** ** The bits of a classic frame *)

Definition classic_crc_polynomial : Z := 0x4599.
Definition classic_crc_mask : Z := 0x7fff.

(** The bits [appendBits] appends: [value] from bit [width - 1] down to bit 0. *)
Fixpoint value_bits (value : Z) (width : nat) : list bool :=
  match width with
  | O => []
  | S shift => has (value .>> Z.of_nat shift) 1 :: value_bits value shift
  end.
Definition appendBits (bits : list bool) (value : Z) (width : nat) : list bool :=
  bits ++ value_bits value width.

Definition header_bits (frame : CanFrame) : list bool :=
  let bits := [false] in
  let bits :=
    if cf_extended frame then
      let bits := appendBits bits (cf_id frame .>> 18 .& 0x7ff) 11 in
      let bits := bits ++ [true; true] in
      let bits := appendBits bits (cf_id frame .& 0x3ffff) 18 in
      bits ++ [false; false; false]
    else appendBits bits (cf_id frame) 11 ++ [false; false; false] in
  appendBits bits (cf_dlc frame) 4.

Definition payload_bits (frame : CanFrame) (bits : list bool) : list bool :=
  foldl (fun bits byte => appendBits bits (default 0 (cf_data frame !! byte)) 8) bits
    (seq 0 (Z.to_nat (dlcToLength (cf_dlc frame)))).

Definition crc_step (crc : Z) (bit : bool) : Z :=
  let feedback := negb (Bool.eqb bit (has (crc .>> 14) 1)) in
  let crc := u16 (crc .<< 1 .& classic_crc_mask) in
  if feedback then crc .^ classic_crc_polynomial else crc.
Definition crc_bits (bits : list bool) : Z := foldl crc_step 0 bits.

(** Start of frame through the CRC, before stuffing. *)
Definition frame_bits (frame : CanFrame) : list bool :=
  let bits := payload_bits frame (header_bits frame) in
  appendBits bits (crc_bits bits) 15.

(** The loop that counts stuff bits: the last level on the wire and the length of its run. *)
Definition stuff_step (s : Z * bool * Z) (bit : bool) : Z * bool * Z :=
  let '(stuffed, previous, run) := s in
  let '(previous, run) := if Bool.eqb bit previous then (previous, run + 1) else (bit, 1) in
  if run =? 5 then (stuffed + 1, negb previous, 1) else (stuffed, previous, run).

Definition stuffed_count (bits : list bool) : Z :=
  match bits with
  | [] => 0
  | first :: rest => (foldl stuff_step (Z.of_nat (length bits), first, 1) rest).1.1
  end.

Definition classicCanStuffedFrameBits (frame : CanFrame) : Result Z :=
  match validate frame with
  | inr e => inr e
  | inl _ =>
      if cf_fd frame then
        fail ErrorCategory.invalid_argument "classic CAN duration is undefined for CAN-FD frames"
      else inl (stuffed_count (frame_bits frame) + 10)
  end.

Definition classicCanDurationNs (frame : CanFrame) (bitrate : Z) : Result Z :=
  if bitrate =? 0 then fail ErrorCategory.invalid_argument "CAN bitrate must be nonzero"
  else match classicCanStuffedFrameBits frame with
       | inr e => inr e
       | inl bits =>
           let occupancy_bits := bits + 3 in
           if max_u64 / 1000000000 <? occupancy_bits then
             fail ErrorCategory.invalid_argument "CAN frame duration overflows nanoseconds"
           else
             let numerator := occupancy_bits * 1000000000 in
             inl (numerator / bitrate + (if negb (numerator mod bitrate =? 0) then 1 else 0))
       end.

(** ** Arbitration *)

Definition arbitrationKey (frame : CanFrame) : list bool :=
  if negb (cf_extended frame) then value_bits (cf_id frame) 11 ++ [false; false]
  else value_bits (cf_id frame .>> 18 .& 0x7ff) 11 ++ [true; true]
       ++ value_bits (cf_id frame .& 0x3ffff) 18 ++ [false].

(** [std::lexicographical_compare] on bit vectors. *)
Fixpoint lexicographical_compare (a b : list bool) : bool :=
  match a, b with
  | _, [] => false
  | [], _ :: _ => true
  | x :: a, y :: b =>
      if negb x && y then true else if x && negb y then false else lexicographical_compare a b
  end.

(** * Properties of CAN frames

    Bit stuffing against a reference transmitter and receiver, the remainder of the CRC, the
    arbitration order of keys as the priority of identifiers, and bounds on the wire time. *)


(** ** Bits of values *)

Lemma value_bits_cons v n : value_bits v (S n) = Z.testbit v (Z.of_nat n) :: value_bits v n.
Proof.
  cbn [value_bits]. f_equal. rewrite <- testbit_odd, Z.shiftr_spec by lia. f_equal.
Qed.
Lemma length_value_bits v n : length (value_bits v n) = n.
Proof. induction n; cbn; auto. Qed.

Lemma value_bits_eq a b n : value_bits a n = value_bits b n <-> a mod 2 ^ Z.of_nat n = b mod 2 ^ Z.of_nat n.
Proof.
  rewrite <- !Z.land_ones by lia. induction n as [|n IH].
  - split; [|done]. intros _. by rewrite !Z.land_0_r.
  - rewrite !value_bits_cons. split.
    + intros [= H1 H2]. apply IH in H2. apply Z.bits_inj'. intros i Hi.
      pose proof (f_equal (fun x => Z.testbit x i) H2) as H3. cbn beta in H3. rewrite !Z.land_spec in *.
      rewrite !Z.testbit_ones_nonneg in * by lia. destruct (Z.ltb_spec i (Z.of_nat n)), (Z.ltb_spec i (Z.of_nat (S n))); try lia; try done.
      replace i with (Z.of_nat n) by lia. by rewrite H1.
    + intros H1. assert (∀ i, 0 <= i <= Z.of_nat n -> Z.testbit a i = Z.testbit b i) as Hb.
      { intros i Hi. pose proof (f_equal (fun x => Z.testbit x i) H1) as H2. cbn beta in H2.
        rewrite !Z.land_spec, !Z.testbit_ones_nonneg in H2 by lia. destruct (Z.ltb_spec i (Z.of_nat (S n))); [|lia].
        by rewrite !andb_true_r in H2. }
      f_equal; [apply Hb; lia|]. apply IH. apply Z.bits_inj'. intros i Hi.
      rewrite !Z.land_spec, !Z.testbit_ones_nonneg by lia. destruct (Z.ltb_spec i (Z.of_nat n)); [|by rewrite !andb_false_r].
      rewrite Hb; [done|lia].
Qed.

Lemma mod_pow2_succ v n : v mod 2 ^ Z.of_nat (S n) = v mod 2 ^ Z.of_nat n + (if Z.testbit v (Z.of_nat n) then 2 ^ Z.of_nat n else 0).
Proof.
  rewrite Nat2Z.inj_succ, Z.pow_succ_r by lia. rewrite (Z.mul_comm 2), Z.rem_mul_r by (try apply Z.pow_nonzero; lia).
  rewrite <- (Z.testbit_spec' v (Z.of_nat n)) by lia. destruct (Z.testbit v (Z.of_nat n)); cbn; lia.
Qed.

Lemma value_bits_compare a b n :
  lexicographical_compare (value_bits a n) (value_bits b n) = (a mod 2 ^ Z.of_nat n <? b mod 2 ^ Z.of_nat n).
Proof.
  induction n as [|n IH]; [by rewrite !Z.mod_1_r|].
  rewrite !value_bits_cons, !mod_pow2_succ. cbn [lexicographical_compare]. rewrite IH.
  pose proof (Z.mod_pos_bound a (2 ^ Z.of_nat n) ltac:(apply Z.pow_pos_nonneg; lia)).
  pose proof (Z.mod_pos_bound b (2 ^ Z.of_nat n) ltac:(apply Z.pow_pos_nonneg; lia)).
  destruct (Z.testbit a (Z.of_nat n)), (Z.testbit b (Z.of_nat n)); cbn [negb andb];
    repeat match goal with |- context [?x <? ?y] => destruct (Z.ltb_spec x y) end; lia.
Qed.

Lemma lex_app x1 y1 x2 y2 : length x1 = length x2 ->
  lexicographical_compare (x1 ++ y1) (x2 ++ y2)
  = lexicographical_compare x1 x2 || (bool_decide (x1 = x2) && lexicographical_compare y1 y2).
Proof.
  revert x2. induction x1 as [|a x1 IH]; intros [|b x2] Hl; [by rewrite bool_decide_eq_true_2|done|done|].
  cbn [app lexicographical_compare]. rewrite IH by (cbn in Hl; lia). destruct a, b; cbn [negb andb]; try done.
  - f_equal. f_equal. apply bool_decide_ext. naive_solver.
  - f_equal. f_equal. apply bool_decide_ext. naive_solver.
Qed.

(** ** Arbitration is by identifier *)

(** Eleven-bit identifiers, then the standard format, then the low bits. *)
Definition outranks (a b : CanFrame) : bool :=
  match cf_extended a, cf_extended b with
  | false, false | true, true => cf_id a <? cf_id b
  | false, true => cf_id a <=? cf_id b .>> 18
  | true, false => cf_id a .>> 18 <? cf_id b
  end.

Definition id_ok (frame : CanFrame) : Prop :=
  0 <= cf_id frame <= if cf_extended frame then 0x1fffffff else 0x7ff.

Lemma extended_id_split frame : id_ok frame -> cf_extended frame = true ->
  cf_id frame .>> 18 .& 0x7ff = cf_id frame .>> 18 /\ 0 <= cf_id frame .>> 18 < 2 ^ 11
  /\ cf_id frame = 2 ^ 18 * (cf_id frame .>> 18) + (cf_id frame .& 0x3ffff)
  /\ 0 <= cf_id frame .& 0x3ffff < 2 ^ 18.
Proof.
  unfold id_ok. intros Hid E. rewrite E in Hid. change 0x7ff with (Z.ones 11). change 0x3ffff with (Z.ones 18).
  rewrite Z.land_ones, Z.land_ones, Z.shiftr_div_pow2 by lia.
  pose proof (Z.div_mod (cf_id frame) (2 ^ 18) ltac:(done)).
  pose proof (Z.mod_pos_bound (cf_id frame) (2 ^ 18) ltac:(done)).
  assert (0 <= cf_id frame / 2 ^ 18 < 2 ^ 11) by (split; [apply Z.div_pos; lia|apply Z.div_lt_upper_bound; lia]).
  rewrite Z.mod_small by lia. lia.
Qed.

Lemma arbitrationKey_outranks a b : id_ok a -> id_ok b ->
  lexicographical_compare (arbitrationKey a) (arbitrationKey b) = outranks a b.
Proof.
  intros Ha Hb. unfold arbitrationKey, outranks.
  destruct (cf_extended a) eqn:Ea; [destruct (extended_id_split a Ha Ea) as (Ea1 & Ea2 & Ea3 & Ea4); rewrite Ea1|unfold id_ok in Ha; rewrite Ea in Ha];
  destruct (cf_extended b) eqn:Eb; [destruct (extended_id_split b Hb Eb) as (Eb1 & Eb2 & Eb3 & Eb4); rewrite Eb1|unfold id_ok in Hb; rewrite Eb in Hb|destruct (extended_id_split b Hb Eb) as (Eb1 & Eb2 & Eb3 & Eb4); rewrite Eb1|unfold id_ok in Hb; rewrite Eb in Hb];
  cbn [negb]; rewrite lex_app by (by rewrite !length_value_bits);
  rewrite value_bits_compare, (bool_decide_ext _ _ (value_bits_eq _ _ 11)); change (2 ^ Z.of_nat 11) with (2 ^ 11);
  rewrite (Z.mod_small _ (2 ^ 11)), (Z.mod_small _ (2 ^ 11)) by lia; cbn [app lexicographical_compare negb andb].
  - rewrite lex_app by (by rewrite !length_value_bits). rewrite value_bits_compare. change (2 ^ Z.of_nat 18) with (2 ^ 18).
    rewrite !(Z.mod_small _ (2 ^ 18)) by lia. cbn [lexicographical_compare negb andb]. rewrite andb_false_r, orb_false_r.
    case_bool_decide; repeat match goal with |- context [?x <? ?y] => destruct (Z.ltb_spec x y) end; cbn; lia.
  - rewrite andb_false_r, orb_false_r. done.
  - case_bool_decide; destruct (Z.ltb_spec (cf_id a) (cf_id b .>> 18)), (Z.leb_spec (cf_id a) (cf_id b .>> 18)); cbn; lia.
  - rewrite andb_false_r, orb_false_r. done.
Qed.

Lemma arbitrationKey_inj a b : id_ok a -> id_ok b -> arbitrationKey a = arbitrationKey b ->
  cf_id a = cf_id b /\ cf_extended a = cf_extended b.
Proof.
  intros Ha Hb E. assert (lexicographical_compare (arbitrationKey a) (arbitrationKey b) = false
    /\ lexicographical_compare (arbitrationKey b) (arbitrationKey a) = false) as [H1 H2].
  { rewrite E. assert (∀ x, lexicographical_compare x x = false) as Hr by (induction x as [|[]]; cbn; auto). auto. }
  rewrite arbitrationKey_outranks in H1, H2 by done. unfold outranks in *.
  destruct (cf_extended a), (cf_extended b); rewrite ?Z.ltb_ge, ?Z.leb_gt in *; lia.
Qed.

(** ** The CRC *)

Lemma crc_step_bounds crc bit : 0 <= crc_step crc bit < 2 ^ 15.
Proof.
  assert (0 <= u16 (crc .<< 1 .& classic_crc_mask) < 2 ^ 15) as Hb.
  { pose proof (land_bounds_r (crc .<< 1) classic_crc_mask ltac:(done)) as Hl. unfold classic_crc_mask in *.
    rewrite u16_small by (unfold is_u16; lia). lia. }
  unfold crc_step. destruct (negb _); [|done]. apply lxor_below; done.
Qed.

Lemma crc_bits_bounds bits : 0 <= crc_bits bits < 2 ^ 15.
Proof.
  unfold crc_bits. induction bits as [|b bits IH] using rev_ind; [done|]. rewrite foldl_app. apply crc_step_bounds.
Qed.

(** Feeding the register its own bits shifts it out. *)
Lemma crc_shift_out v n : (n <= 15)%nat ->
  foldl crc_step (v .<< (15 - Z.of_nat n) .& classic_crc_mask) (value_bits v n) = 0.
Proof.
  induction n as [|n IH]; intros Hn.
  - cbn. apply Z.bits_inj'. intros i Hi. rewrite Z.land_spec, Z.shiftl_spec, Z.bits_0 by lia.
    change classic_crc_mask with (Z.ones 15). rewrite Z.testbit_ones_nonneg by lia.
    destruct (Z.ltb_spec i 15); [|by rewrite andb_false_r]. by rewrite Z.testbit_neg_r by lia.
  - rewrite value_bits_cons. cbn [foldl]. rewrite <- IH by lia. f_equal. unfold crc_step.
    rewrite <- testbit_odd, Z.shiftr_spec, Z.land_spec, Z.shiftl_spec by lia.
    replace (0 + 14 - (15 - Z.of_nat (S n))) with (Z.of_nat n) by lia.
    change (Z.testbit classic_crc_mask (0 + 14)) with true. rewrite andb_true_r, eqb_reflx. cbn [negb].
    rewrite u16_land. apply Z.bits_inj'. intros i Hi. rewrite !Z.land_spec, !Z.shiftl_spec by lia.
    change 0xffff with (Z.ones 16). change classic_crc_mask with (Z.ones 15). rewrite !Z.testbit_ones_nonneg by lia.
    destruct (Z.ltb_spec i 15), (Z.ltb_spec i 16); try lia; rewrite ?andb_false_r, ?andb_true_r; try done.
    destruct (Z.eq_dec i 0) as [->|Hi0].
    + rewrite !Z.testbit_neg_r by lia. done.
    + rewrite Z.land_spec, Z.shiftl_spec, Z.testbit_ones_nonneg by lia. destruct (Z.ltb_spec (i - 1) 15); [|lia].
      rewrite andb_true_r. f_equal. lia.
Qed.

(** A frame followed by its CRC leaves no remainder. *)
Lemma crc_remainder bits : crc_bits (appendBits bits (crc_bits bits) 15) = 0.
Proof.
  unfold appendBits. pose proof (crc_bits_bounds bits) as Hb. unfold crc_bits in *. rewrite foldl_app.
  etransitivity; [|exact (crc_shift_out (foldl crc_step 0 bits) 15 ltac:(lia))]. f_equal.
  change (15 - Z.of_nat 15) with 0. rewrite Z.shiftl_0_r. change classic_crc_mask with (Z.ones 15).
  rewrite Z.land_ones, Z.mod_small by lia. done.
Qed.

(** ** Bit stuffing *)

(** What a transmitter puts on the wire after the level [previous] with a run of [run]: the
    complement of the level after five equal bits. *)
Fixpoint stuff (previous : bool) (run : Z) (bits : list bool) : list bool :=
  match bits with
  | [] => []
  | bit :: bits =>
      let run := if Bool.eqb bit previous then run + 1 else 1 in
      if run =? 5 then bit :: negb bit :: stuff (negb bit) 1 bits else bit :: stuff bit run bits
  end.

(** What a receiver makes of it: the bit after five equal bits must differ, and is dropped. *)
Fixpoint unstuff (previous : bool) (run : Z) (wire : list bool) : option (list bool) :=
  match wire with
  | [] => Some []
  | bit :: wire =>
      let run := if Bool.eqb bit previous then run + 1 else 1 in
      if run =? 5 then
        match wire with
        | stuffed :: wire => if Bool.eqb stuffed bit then None else (cons bit) <$> unstuff stuffed 1 wire
        | [] => None
        end
      else (cons bit) <$> unstuff bit run wire
  end.

(** No run is longer than five. *)
Fixpoint short_runs (previous : bool) (run : Z) (wire : list bool) : Prop :=
  match wire with
  | [] => True
  | bit :: wire =>
      let run := if Bool.eqb bit previous then run + 1 else 1 in
      run <= 5 /\ short_runs bit run wire
  end.

Definition on_wire (bits : list bool) : list bool :=
  match bits with [] => [] | first :: rest => first :: stuff first 1 rest end.

Lemma stuff_step_eq n previous run bit : stuff_step (n, previous, run) bit =
  let run := if Bool.eqb bit previous then run + 1 else 1 in
  if run =? 5 then (n + 1, negb bit, 1) else (n, bit, run).
Proof. by destruct bit, previous. Qed.

Lemma stuff_count bits : ∀ n previous run,
  (foldl stuff_step (n, previous, run) bits).1.1
  = n + (Z.of_nat (length (stuff previous run bits)) - Z.of_nat (length bits)).
Proof.
  induction bits as [|bit bits IH]; intros n previous run; cbn [foldl stuff]; [cbn; lia|].
  rewrite stuff_step_eq. cbv zeta. destruct (_ =? 5); rewrite IH; cbn [length]; lia.
Qed.

Lemma unstuff_stuff bits : ∀ previous run, unstuff previous run (stuff previous run bits) = Some bits.
Proof.
  induction bits as [|bit bits IH]; intros previous run; cbn [stuff]; [done|].
  destruct (_ =? 5) eqn:E; cbn [unstuff]; rewrite E, ?IH; [|done].
  by rewrite eqb_negb1.
Qed.

Lemma stuff_short_runs bits : ∀ previous run, 1 <= run <= 4 -> short_runs previous run (stuff previous run bits).
Proof.
  induction bits as [|bit bits IH]; intros previous run Hr; cbn [stuff]; [done|].
  destruct (Z.eqb_spec (if Bool.eqb bit previous then run + 1 else 1) 5) as [E|E]; cbn [short_runs].
  - rewrite E. split; [lia|]. rewrite eqb_negb1. split; [lia|]. apply IH. lia.
  - destruct (Bool.eqb bit previous); (split; [lia|apply IH; lia]).
Qed.

Lemma stuff_length bits : ∀ previous run, 1 <= run <= 4 ->
  Z.of_nat (length bits) <= Z.of_nat (length (stuff previous run bits))
  /\ 4 * (Z.of_nat (length (stuff previous run bits)) - Z.of_nat (length bits)) <= Z.of_nat (length bits) + run - 1.
Proof.
  induction bits as [|bit bits IH]; intros previous run Hr; cbn [stuff]; [cbn; lia|].
  destruct (Z.eqb_spec (if Bool.eqb bit previous then run + 1 else 1) 5) as [E|E]; cbn [length].
  - pose proof (IH (negb bit) 1 ltac:(lia)). destruct (Bool.eqb bit previous); lia.
  - destruct (Bool.eqb bit previous); [pose proof (IH bit (run + 1) ltac:(lia))|pose proof (IH bit 1 ltac:(lia))]; lia.
Qed.

Lemma stuffed_count_wire bits : stuffed_count bits = Z.of_nat (length (on_wire bits)).
Proof.
  destruct bits as [|first rest]; [done|]. cbn [stuffed_count on_wire]. rewrite stuff_count. cbn [length]. lia.
Qed.

(** ** Length and duration of a frame *)

Lemma length_payload frame bits :
  length (payload_bits frame bits) = (length bits + 8 * Z.to_nat (dlcToLength (cf_dlc frame)))%nat.
Proof.
  unfold payload_bits. generalize (Z.to_nat (dlcToLength (cf_dlc frame))) as n.
  induction n as [|n IH]; [cbn; lia|]. rewrite seq_S, foldl_app. cbn [foldl]. unfold appendBits at 1.
  rewrite length_app, length_value_bits, IH. lia.
Qed.

Lemma length_frame_bits frame : length (frame_bits frame)
  = ((if cf_extended frame then 54 else 34) + 8 * Z.to_nat (dlcToLength (cf_dlc frame)))%nat.
Proof.
  unfold frame_bits, appendBits at 1. rewrite length_app, length_value_bits, length_payload. unfold header_bits, appendBits.
  destruct (cf_extended frame); rewrite !length_app, !length_value_bits; cbn [length]; lia.
Qed.

Lemma dlcToLength_classic dlc : 0 <= dlc <= 8 -> dlcToLength dlc = dlc.
Proof. intros Hd. assert (∃ n : nat, dlc = Z.of_nat n /\ (n <= 8)%nat) as (n & -> & Hn) by (exists (Z.to_nat dlc); lia).
  do 9 (destruct n as [|n]; [done|]). lia.
Qed.

Lemma validate_spec frame : validate frame = inl tt <->
  cf_dlc frame <= 15 /\ (cf_id frame <= if cf_extended frame then 0x1fffffff else 0x7ff)
  /\ (cf_fd frame = false -> cf_dlc frame <= 8 /\ cf_brs frame = false).
Proof.
  unfold validate, fail. destruct (Z.ltb_spec 15 (cf_dlc frame)); [split; [done|lia]|].
  destruct (cf_extended frame), (cf_fd frame), (cf_brs frame); cbn [negb andb];
  repeat match goal with |- context [?x <? ?y] => destruct (Z.ltb_spec x y) end; split; intros; try done; try lia; intuition (try lia; try done).
Qed.

(** The classical worst case: 160 bit times with intermission. *)
Lemma classic_bits_bounds frame n : 0 <= cf_dlc frame ->
  classicCanStuffedFrameBits frame = inl n -> 44 <= n <= 157.
Proof.
  intros Hd. unfold classicCanStuffedFrameBits. destruct (validate frame) as [[]|e] eqn:Ev; [|done].
  apply validate_spec in Ev as (_ & _ & Hc). destruct (cf_fd frame); [done|]. destruct (Hc eq_refl) as [Hdlc _].
  intros [= <-]. rewrite stuffed_count_wire. pose proof (length_frame_bits frame) as Hl.
  rewrite dlcToLength_classic in Hl by lia. destruct (frame_bits frame) as [|first rest]; [cbn in Hl; destruct (cf_extended frame); lia|].
  cbn [on_wire]. pose proof (stuff_length rest first 1 ltac:(lia)). cbn [length] in *. destruct (cf_extended frame); lia.
Qed.
