(* ===== verification/CanBus.v ===== *)
(** * The virtual CAN bus

    Models [VirtualCanBus] and the deferred staging scope of [src/devices/can_bus.cpp]:
    attachment, submission in immediate and timed mode, arbitration, completion, cancellation and
    replay of staged commands.  The event loop is an interface ([EventClock]); the code that the
    bus calls back (receivers, completions, trace sinks, delivery barriers) is a parameter that
    may change the bus, the loop and the rest of the world ([CanUser]). *)

From stdpp Require Import gmap.
From S2P Require Import Prelude Common CanFrame.
#[local] Open Scope Z_scope.
#[local] Open Scope fil_scope.

(** ** The event loop as the bus uses it *)

(** The two static callbacks the bus schedules. *)
Inductive CanEvent := arbitrationEvent_cb | completionEvent_cb.
#[global] Instance can_event_eq_dec : EqDecision CanEvent.
Proof. solve_decision. Defined.

Class EventClock (L : Type) := {
  ck_now_of : Z -> L -> Z;                         (* [now(owner)] *)
  ck_owner : L -> Z;                               (* [activeOwner()] *)
  ck_set_owner : Z -> L -> L;                      (* [useOwner] and the end of its scope *)
  ck_schedule : Z -> CanEvent -> L -> (Z + string) * L;   (* [scheduleBuiltinAt] *)
  ck_cancel : Z -> L -> bool * L;                  (* [cancel] *)
}.
(** [now()]: the clock of the active owner. *)
Definition ck_now `{EventClock L} (l : L) : Z := ck_now_of (ck_owner l) l.

Definition ck_shared_owner : Z := 0xffffffff.

(** ** Data *)

Module TimedState.
Inductive t := idle | arbitrating | in_flight.
#[global] Instance eq_dec : EqDecision t.
Proof. solve_decision. Defined.
End TimedState.

Module DeliveryMode.
Inductive t := immediate | timed.
#[global] Instance eq_dec : EqDecision t.
Proof. solve_decision. Defined.
End DeliveryMode.

Module Direction.
Inductive t := transmit | receive | rejected.
End Direction.

Record CanTraceRecord := mkCanTraceRecord {
  tr_direction : Direction.t;
  tr_time_ns : Z;
  tr_sequence : Z;
  tr_node : string;
  tr_frame : CanFrame;
}.

Section types.
Context {CB : Type}.

Record Node := mkNode {
  nd_id : Z;
  nd_name : string;
  nd_loopback : bool;
  nd_receive : CB;
}.

Record Transmission := mkTransmission {
  tx_frame : CanFrame;
  tx_sender : option Z;
  tx_sender_name : string;
  tx_requested_ns : Z;
  tx_sequence : Z;
  tx_completion : option CB;
}.

Record Bus := mkBus {
  cb_name : string;
  cb_bitrate : Z;
  cb_next_node_id : Z;
  cb_next_sequence : Z;
  cb_nodes : list Node;
  cb_trace_callback : option CB;
  cb_delivery_barrier : option CB;
  cb_mode : DeliveryMode.t;
  cb_queue_capacity : Z;
  cb_has_event_loop : bool;
  cb_pending : list Transmission;
  cb_in_flight : option Transmission;
  cb_next_start_ns : Z;
  cb_fractional_numerator : Z;
  cb_in_flight_fraction_before_start : Z;
  cb_next_transmission_sequence : Z;
  cb_timed_event_id : Z;
  cb_timed_state : TimedState.t;
}.

Definition bus_default (name : string) (bitrate : Z) (mode : DeliveryMode.t) (queue_capacity : Z) : Bus :=
  mkBus name bitrate 1 0 [] None None mode queue_capacity false [] None 0 0 0 0 0 TimedState.idle.

(** The closure of a deferred command. *)
Inductive Replay :=
  | replay_send (sender : Z) (frame : CanFrame) (staged_time : Z) (sender_name : string) (completion : option CB)
  | replay_inject (frame : CanFrame) (staged_time : Z) (completion : option CB)
  | replay_cancel_sender (sender : Z).

Record DeferredCanCommand := mkDeferredCanCommand {
  dc_timestamp : Z;
  dc_board_index : Z;
  dc_lane_sequence : Z;
  dc_replay : Replay;
}.

Record CanScope := mkCanScope {
  cs_outbox : list DeferredCanCommand;
  cs_board : Z;
  cs_owner : Z;
  cs_sequence : Z;
}.
End types.
Arguments Node : clear implicits.
Arguments Transmission : clear implicits.
Arguments Bus : clear implicits.
Arguments DeferredCanCommand : clear implicits.
Arguments CanScope : clear implicits.

(** The bus, the loop, the calling thread's staging scope and everything else. *)
Record CanState (CB L W : Type) := mkCanState {
  st_bus : Bus CB;
  st_loop : L;
  st_scope : option (CanScope CB);
  st_world : W;
}.
Arguments mkCanState {_ _ _} _ _ _ _.
Arguments st_bus {_ _ _} _.
Arguments st_loop {_ _ _} _.
Arguments st_scope {_ _ _} _.
Arguments st_world {_ _ _} _.

(** Code that may throw. *)
Definition Op (CB L W A : Type) : Type := CanState CB L W -> (A + string) * CanState CB L W.

Class CanUser (CB L W : Type) := {
  user_receive : CB -> CanFrame -> Z -> Op CB L W unit;
  user_complete : CB -> Z -> bool -> Op CB L W unit;
  user_trace : CB -> CanTraceRecord -> Op CB L W unit;
  user_barrier : CB -> Z -> Op CB L W unit;
}.

Section bus.
Context {CB L W : Type} `{EventClock L} `{CanUser CB L W}.
Abbreviation Op := (Op CB L W).
Abbreviation State := (CanState CB L W).

#[global] Instance Op_ret : MRet Op := fun _ a s => (inl a, s).
#[global] Instance Op_bind : MBind Op := fun _ _ f x s =>
  match x s with
  | (inl a, s) => f a s
  | (inr e, s) => (inr e, s)
  end.
Definition gets {A} (f : State -> A) : Op A := fun s => (inl (f s), s).
Definition modify (f : State -> State) : Op unit := fun s => (inl tt, f s).
Definition set_bus (f : Bus CB -> Bus CB) : Op unit := modify (fun s => {| s with st_bus := f (st_bus s) |}).
Definition the {A} (f : Bus CB -> A) : Op A := gets (fun s => f (st_bus s)).
Definition skip : Op unit := mret tt.

(** A scope guard: [after] runs on return and on exception. *)
Definition scoped {A} (after : State -> State) (m : Op A) : Op A := fun s => let '(r, s) := m s in (r, after s).

Definition set_loop_owner (owner : Z) (s : State) : State := {| s with st_loop := ck_set_owner owner (st_loop s) |}.
(** [auto owner = event_loop_->useOwner(...)] and the rest of the block. *)
Definition use_owner {A} (owner : Z) (m : Op A) : Op A :=
  previous ← gets (fun s => ck_owner (st_loop s));
  modify (set_loop_owner owner);;
  scoped (set_loop_owner previous) m.

Definition now : Op Z := gets (fun s => ck_now (st_loop s)).
Definition schedule_at (at_time : Z) (event : CanEvent) : Op Z := fun s =>
  let '(r, l) := ck_schedule at_time event (st_loop s) in (r, {| s with st_loop := l |}).
Definition cancel_event (id : Z) : Op unit := modify (fun s => {| s with st_loop := (ck_cancel id (st_loop s)).2 |}).

Definition queuedTransmissions (b : Bus CB) : Z :=
  Z.of_nat (length (cb_pending b)) + (if cb_in_flight b is Some _ then 1 else 0).

Definition find (id : Z) (b : Bus CB) : option (Node CB) :=
  List.find (fun node => nd_id node =? id) (cb_nodes b).

(** ** Trace and delivery *)

Definition trace (direction : Direction.t) (time_ns : Z) (node : string) (frame : CanFrame) : Op unit :=
  callback ← the cb_trace_callback;
  sequence ← the cb_next_sequence;
  set_bus (fun b => {| b with cb_next_sequence := u64 (sequence + 1) |});;
  match callback with
  | Some c => user_trace c (mkCanTraceRecord direction time_ns sequence node frame)
  | None => skip
  end.

(** The snapshot of the receivers. *)
Definition receivers (sender : option Z) (b : Bus CB) : list (Node CB) :=
  filter (fun node => ~ (sender = Some (nd_id node) /\ nd_loopback node = false)) (cb_nodes b).

Fixpoint deliver_each (frame : CanFrame) (time_ns : Z) (deliveries : list (Node CB)) : Op unit :=
  match deliveries with
  | [] => skip
  | delivery :: rest =>
      attached ← the (find (nd_id delivery));
      match attached with
      | None => skip
      | Some _ =>
          trace Direction.receive time_ns (nd_name delivery) frame;;
          attached ← the (find (nd_id delivery));
          if attached is Some _ then user_receive (nd_receive delivery) frame time_ns else skip
      end;;
      deliver_each frame time_ns rest
  end.

Definition deliver (frame : CanFrame) (time_ns : Z) (sender : option Z) : Op unit :=
  deliveries ← the (receivers sender);
  deliver_each frame time_ns deliveries.

Definition run_barrier (time_ns : Z) : Op unit :=
  barrier ← the cb_delivery_barrier;
  if barrier is Some c then user_barrier c time_ns else skip.

(** A successful completion is reported unless its sender has been detached. *)
Definition complete_attached (tx : Transmission CB) (time_ns : Z) : Op unit :=
  attached ← the (A:=bool) (fun b => match tx_sender tx with
                           | None => true
                           | Some sender => bool_decide (is_Some (find sender b))
                           end);
  match tx_completion tx with
  | Some c => if (attached : bool) then user_complete c time_ns true else skip
  | None => skip
  end.

(** ** Arbitration *)

Definition has_earlier_from_sender (pending : list (Transmission CB)) (i : nat) (tx : Transmission CB) : bool :=
  existsb (fun earlier => bool_decide (tx_sender earlier = tx_sender tx)) (take i pending).

(** [scheduleArbitration]'s loop: the earliest request among the sender heads. *)
Fixpoint earliest_head (pending : list (Transmission CB)) (i : nat) (rest : list (Transmission CB)) (earliest : Z) : Z :=
  match rest with
  | [] => earliest
  | tx :: rest =>
      earliest_head pending (S i) rest
        (if has_earlier_from_sender pending i tx then earliest else Z.min earliest (tx_requested_ns tx))
  end.

Definition scheduleArbitration : Op unit :=
  state ← the cb_timed_state;
  match state with
  | TimedState.in_flight | TimedState.arbitrating => skip
  | TimedState.idle =>
      b ← the id;
      if negb (bool_decide (cb_mode b = DeliveryMode.timed)) || bool_decide (cb_pending b = [])
         || negb (cb_has_event_loop b) then skip
      else
        let earliest := earliest_head (cb_pending b) 0 (cb_pending b) max_u64 in
        current ← now;
        let at_time := Z.max (cb_next_start_ns b) (Z.max earliest current) in
        use_owner ck_shared_owner (
          id ← schedule_at at_time arbitrationEvent_cb;
          set_bus (fun b => {| b with cb_timed_event_id := id; cb_timed_state := TimedState.arbitrating |}))
  end.

(** [arbitrate]'s loop: the winner so far and its key. *)
Fixpoint pick_winner (pending : list (Transmission CB)) (start : Z) (i : nat) (rest : list (Transmission CB))
    (winner : option (nat * Transmission CB)) : option (nat * Transmission CB) :=
  match rest with
  | [] => winner
  | tx :: rest =>
      let better :=
        match winner with
        | None => true
        | Some (_, w) =>
            let key := arbitrationKey (tx_frame tx) in
            let winner_key := arbitrationKey (tx_frame w) in
            lexicographical_compare key winner_key
            || (bool_decide (key = winner_key) && (tx_sequence tx <? tx_sequence w))
        end in
      pick_winner pending start (S i) rest
        (if has_earlier_from_sender pending i tx || (start <? tx_requested_ns tx) then winner
         else if better then Some (i, tx) else winner)
  end.

Definition complete_failed (failed : Transmission CB) (start : Z) : Op unit :=
  set_bus (fun b => {| b with cb_in_flight := None |});;
  match tx_completion failed with
  | Some c => user_complete c start false
  | None => skip
  end;;
  scheduleArbitration.

(** The wire time of a frame and of the intermission, with the carried fraction. *)
Record WireTime := mkWireTime { wt_frame_duration : Z; wt_intermission : Z; wt_fraction : Z }.
Definition wire_time (bits fraction bitrate : Z) : WireTime :=
  let frame_numerator := u64 (bits * 1000000000 + fraction) in
  let frame_duration := frame_numerator / bitrate in
  let fraction := frame_numerator mod bitrate in
  let intermission_numerator := u64 (3000000000 + fraction) in
  mkWireTime frame_duration (intermission_numerator / bitrate) (intermission_numerator mod bitrate).

(** [arbitrate] from the choice of the winner on. *)
Definition start_frame (start : Z) (winner : nat) (tx : Transmission CB) : Op unit :=
  set_bus (fun b => {| b with cb_in_flight := Some tx; cb_pending := delete winner (cb_pending b) |});;
  bitrate ← the cb_bitrate;
  match classicCanStuffedFrameBits (tx_frame tx) with
  | inr _ => complete_failed tx start
  | inl bits =>
      if bitrate =? 0 then complete_failed tx start
      else
        prior_fraction ← the cb_fractional_numerator;
        let wt := wire_time bits prior_fraction bitrate in
        if (max_u64 - wt_frame_duration wt <? start)
           || (max_u64 - wt_intermission wt <? start + wt_frame_duration wt) then
          complete_failed tx start
        else
          set_bus (fun b => {| b with
            cb_fractional_numerator := wt_fraction wt;
            cb_in_flight_fraction_before_start := prior_fraction;
            cb_next_start_ns := start + wt_frame_duration wt + wt_intermission wt |});;
          use_owner ck_shared_owner (
            id ← schedule_at (start + wt_frame_duration wt) completionEvent_cb;
            set_bus (fun b => {| b with cb_timed_event_id := id; cb_timed_state := TimedState.in_flight |});;
            trace Direction.transmit start (tx_sender_name tx) (tx_frame tx))
  end.

Definition arbitrate : Op unit :=
  b ← the id;
  if bool_decide (cb_timed_state b = TimedState.in_flight) then skip
  else if negb (bool_decide (cb_mode b = DeliveryMode.timed)) || bool_decide (cb_pending b = [])
          || negb (cb_has_event_loop b) then skip
  else
    current ← now;
    let start := Z.max (cb_next_start_ns b) current in
    match pick_winner (cb_pending b) start 0 (cb_pending b) None with
    | None => scheduleArbitration
    | Some (winner, tx) => start_frame start winner tx
    end.

Definition completeInFlight : Op unit :=
  set_bus (fun b => {| b with cb_timed_event_id := 0 |});;
  in_flight ← the cb_in_flight;
  match in_flight with
  | None => skip
  | Some completed =>
      set_bus (fun b => {| b with cb_in_flight := None; cb_timed_state := TimedState.idle |});;
      b ← the id;
      current ← now;
      let at_time := if cb_has_event_loop b then current else cb_next_start_ns b in
      run_barrier at_time;;
      deliver (tx_frame completed) at_time (tx_sender completed);;
      complete_attached completed at_time;;
      scheduleArbitration
  end.

Definition arbitrationEvent : Op unit :=
  set_bus (fun b => {| b with cb_timed_event_id := 0; cb_timed_state := TimedState.idle |});;
  arbitrate.
Definition completionEvent : Op unit :=
  set_bus (fun b => {| b with cb_timed_event_id := 0 |});;
  completeInFlight.

(** ** Submission *)

Definition reject {A} (tx : Transmission CB) (category : ErrorCategory.t) (message : string) : Op (Result A) :=
  trace Direction.rejected (tx_requested_ns tx) (tx_sender_name tx) (tx_frame tx);;
  mret (fail category message).

Definition submit_immediate (tx : Transmission CB) : Op (Result unit) :=
  run_barrier (tx_requested_ns tx);;
  trace Direction.transmit (tx_requested_ns tx) (tx_sender_name tx) (tx_frame tx);;
  deliver (tx_frame tx) (tx_requested_ns tx) (tx_sender tx);;
  complete_attached tx (tx_requested_ns tx);;
  mret (inl tt).

Definition submit (tx : Transmission CB) : Op (Result unit) :=
  b ← the id;
  if bool_decide (cb_mode b = DeliveryMode.immediate) then submit_immediate tx
  else if negb (cb_has_event_loop b) then
    mret (fail ErrorCategory.runtime "timed CAN bus has no event loop")
  else if cb_bitrate b =? 0 then reject tx ErrorCategory.invalid_argument "CAN bitrate must be nonzero"
  else if cf_fd (tx_frame tx) then
    reject tx ErrorCategory.unsupported "timed CAN bus currently supports classic CAN frames only"
  else if (cb_queue_capacity b =? 0) || (cb_queue_capacity b <=? queuedTransmissions b) then
    reject tx ErrorCategory.runtime "CAN transmit queue full"
  else
    set_bus (fun b => {| b with
      cb_next_transmission_sequence := u64 (cb_next_transmission_sequence b + 1);
      cb_pending := cb_pending b ++ [{| tx with tx_sequence := cb_next_transmission_sequence b |}] |});;
    (if bool_decide (cb_timed_state b = TimedState.arbitrating) then
       cancel_event (cb_timed_event_id b);;
       set_bus (fun b => {| b with cb_timed_event_id := 0; cb_timed_state := TimedState.idle |})
     else skip);;
    scheduleArbitration;;
    mret (inl tt).

(** [outbox->push_back({time, board, nextSequence(), ..., replay})]. *)
Definition stage (time : Z) (replay : Replay) (scope : CanScope CB) : Op unit :=
  modify (fun s => {| s with st_scope := Some {| scope with
    cs_outbox := cs_outbox scope ++ [mkDeferredCanCommand time (cs_board scope) (cs_sequence scope) replay];
    cs_sequence := u64 (cs_sequence scope + 1) |} |}).

Definition send (sender : Z) (frame : CanFrame) (time_ns : Z) (completion : option CB) : Op (Result unit) :=
  match validate frame with
  | inr e => mret (inr e)
  | inl _ =>
      node ← the (find sender);
      match node with
      | None => mret (fail ErrorCategory.invalid_argument "CAN sender is not attached")
      | Some node =>
          scope ← gets st_scope;
          match scope with
          | Some scope =>
              stage time_ns (replay_send sender frame time_ns (nd_name node) completion) scope;;
              mret (inl tt)
          | None => submit (mkTransmission frame (Some sender) (nd_name node) time_ns 0 completion)
          end
      end
  end.

Definition inject (frame : CanFrame) (time_ns : Z) (completion : option CB) : Op (Result unit) :=
  match validate frame with
  | inr e => mret (inr e)
  | inl _ =>
      scope ← gets st_scope;
      match scope with
      | Some scope => stage time_ns (replay_inject frame time_ns completion) scope;; mret (inl tt)
      | None => submit (mkTransmission frame None "external" time_ns 0 completion)
      end
  end.

(** ** Cancellation and attachment *)

(** [cancelSender] outside a staging scope. *)
Definition cancel_now (sender : Z) : Op unit :=
  set_bus (fun b => {| b with cb_pending := filter (fun tx => tx_sender tx <> Some sender) (cb_pending b) |});;
  b ← the id;
  (match cb_timed_state b with
   | TimedState.in_flight =>
       if bool_decide ((cb_in_flight b ≫= tx_sender) = Some sender) then
         (if cb_has_event_loop b && negb (cb_timed_event_id b =? 0) then cancel_event (cb_timed_event_id b) else skip);;
         current ← now;
         set_bus (fun b => {| b with
           cb_timed_event_id := 0; cb_in_flight := None;
           cb_fractional_numerator := cb_in_flight_fraction_before_start b;
           cb_next_start_ns := if cb_has_event_loop b then current else cb_next_start_ns b;
           cb_timed_state := TimedState.idle |})
       else skip
   | TimedState.arbitrating =>
       (if cb_has_event_loop b then cancel_event (cb_timed_event_id b) else skip);;
       set_bus (fun b => {| b with cb_timed_event_id := 0; cb_timed_state := TimedState.idle |})
   | TimedState.idle => skip
   end);;
  scheduleArbitration.

Definition cancelSender (sender : Z) : Op unit :=
  scope ← gets st_scope;
  match scope with
  | Some scope =>
      time ← gets (fun s => ck_now_of (cs_owner scope) (st_loop s));
      stage time (replay_cancel_sender sender) scope
  | None => cancel_now sender
  end.

Definition attach (node : string) (loopback : bool) (callback : option CB) : Op (Result Z) :=
  scope ← gets st_scope;
  match scope with
  | Some _ => mret (fail ErrorCategory.runtime "CAN attachment mutation is unsupported during deferred staging")
  | None =>
      if bool_decide (node = ""%string) then mret (fail ErrorCategory.invalid_argument "CAN node name is empty")
      else match callback with
           | None => mret (fail ErrorCategory.invalid_argument "CAN node receive callback is empty")
           | Some c =>
               b ← the id;
               if existsb (fun existing => bool_decide (nd_name existing = node)) (cb_nodes b) then
                 mret (fail ErrorCategory.invalid_argument ("duplicate CAN node name '" +:+ node +:+ "'"))
               else
                 set_bus (fun b => {| b with
                   cb_next_node_id := u64 (cb_next_node_id b + 1);
                   cb_nodes := cb_nodes b ++ [mkNode (cb_next_node_id b) node loopback c] |});;
                 mret (inl (cb_next_node_id b))
           end
  end.

Definition detach (id : Z) : Op unit :=
  scope ← gets st_scope;
  match scope with
  | Some _ => skip
  | None =>
      cancelSender id;;
      set_bus (fun b => {| b with cb_nodes := filter (fun node => nd_id node <> id) (cb_nodes b) |})
  end.

(** The destructor. *)
Definition destroy : Op unit :=
  b ← the id;
  if cb_has_event_loop b && negb (cb_timed_event_id b =? 0) then cancel_event (cb_timed_event_id b) else skip.

(** ** Replay *)

Definition replay_submit (tx : Transmission CB) : Op (Result unit) :=
  result ← submit tx;
  match result, tx_completion tx with
  | inr _, Some c => user_complete c (tx_requested_ns tx) false
  | _, _ => skip
  end;;
  mret result.

Definition replay (r : Replay) : Op (Result unit) :=
  match r with
  | replay_send sender frame staged_time sender_name completion =>
      node ← the (find sender);
      match node with
      | None =>
          (if completion is Some c then user_complete c staged_time false else skip);;
          mret (fail ErrorCategory.invalid_argument "CAN sender detached before replay")
      | Some _ => replay_submit (mkTransmission frame (Some sender) sender_name staged_time 0 completion)
      end
  | replay_inject frame staged_time completion =>
      replay_submit (mkTransmission frame None "external" staged_time 0 completion)
  | replay_cancel_sender sender => cancelSender sender;; mret (inl tt)
  end.

(** Entering and leaving a [DeferredCanScope]; the outbox is returned to the coordinator. *)
Definition enter_scope (outbox : list (DeferredCanCommand CB)) (board owner : Z) : Op (option (CanScope CB)) :=
  previous ← gets st_scope;
  modify (fun s => {| s with st_scope := Some (mkCanScope outbox board owner 0) |});;
  mret previous.
Definition leave_scope (previous : option (CanScope CB)) : Op (list (DeferredCanCommand CB)) :=
  scope ← gets st_scope;
  modify (fun s => {| s with st_scope := previous |});;
  mret (from_option cs_outbox [] scope).
End bus.
