(* ===== verification/CanBusProofs.v ===== *)
(** * Properties of the CAN bus

    The contract of the event loop ([EventClockLaws]), the invariant of the timed courier (one
    armed event exactly when a frame waits or is on the wire), that every operation keeps it
    when the code the bus calls back does, the winner of arbitration and wire time without
    drift. *)

From stdpp Require Import gmap.
From S2P Require Import Prelude Common CanFrame CanBus.
#[local] Open Scope Z_scope.
#[local] Open Scope fil_scope.

(** ** The contract of the event loop *)

Class EventClockLaws (L : Type) `{EventClock L} := {
  ck_ok : L -> Prop;
  (** The pending events: their times, and which of the bus's callbacks they run. *)
  ck_pending : L -> gmap Z (Z * option CanEvent);
  (** Identifiers, sequences and slots are not exhausted. *)
  ck_room : L -> Prop;
  ck_now_range l o : ck_ok l -> 0 <= ck_now_of o l <= max_u64;
  ck_now_shared l o : ck_ok l -> ck_now_of ck_shared_owner l <= ck_now_of o l;
  ck_set_owner_law l o : ck_ok l -> ck_ok (ck_set_owner o l)
    /\ ck_pending (ck_set_owner o l) = ck_pending l /\ ck_owner (ck_set_owner o l) = o
    /\ (∀ o', ck_now_of o' (ck_set_owner o l) = ck_now_of o' l)
    /\ (ck_room l -> ck_room (ck_set_owner o l));
  ck_schedule_law l t e : ck_ok l -> t <= max_u64 -> let '(r, l') := ck_schedule t e l in
    ck_ok l' /\ ck_owner l' = ck_owner l /\ (∀ o, ck_now_of o l' = ck_now_of o l)
    /\ match r with
       | inl id => id <> 0 /\ ck_pending l !! id = None
           /\ ck_pending l' = <[id := (t, Some e)]> (ck_pending l)
       | inr _ => ck_pending l' = ck_pending l /\ ~ (ck_room l /\ ck_now l <= t)
       end;
  ck_cancel_law l id : ck_ok l -> let '(_, l') := ck_cancel id l in
    ck_ok l' /\ ck_owner l' = ck_owner l /\ (∀ o, ck_now_of o l' = ck_now_of o l)
    /\ ck_pending l' = delete id (ck_pending l) /\ (ck_room l -> ck_room l');
}.

(** ** Winners *)

Lemma lex_irreflexive x : lexicographical_compare x x = false.
Proof. induction x as [|[] x IH]; cbn; auto. Qed.
Lemma lex_transitive x y z : lexicographical_compare x y = true -> lexicographical_compare y z = true ->
  lexicographical_compare x z = true.
Proof.
  revert y z. induction x as [|a x IH]; intros [|b y] [|c z]; try done.
  destruct a, b, c; cbn; try done; apply IH.
Qed.
Lemma lex_total x y : lexicographical_compare x y = false -> lexicographical_compare y x = false -> x = y.
Proof.
  revert y. induction x as [|a x IH]; intros [|b y]; try done; destruct a, b; cbn; try done; intros; f_equal; auto.
Qed.

Section winners.
Context {CB : Type}.
Abbreviation Tx := (Transmission CB).

(** [a] wins against [b]: by key, and by admission order between equal keys. *)
Definition beats (a b : Tx) : bool :=
  let ka := arbitrationKey (tx_frame a) in
  let kb := arbitrationKey (tx_frame b) in
  lexicographical_compare ka kb || (bool_decide (ka = kb) && (tx_sequence a <? tx_sequence b)).

Lemma beats_cases a b : beats a b = true <->
  lexicographical_compare (arbitrationKey (tx_frame a)) (arbitrationKey (tx_frame b)) = true
  \/ arbitrationKey (tx_frame a) = arbitrationKey (tx_frame b) /\ tx_sequence a < tx_sequence b.
Proof. unfold beats. by rewrite orb_true_iff, andb_true_iff, bool_decide_eq_true, Z.ltb_lt. Qed.

(** Replacing the best so far by a better one keeps it unbeaten. *)
Lemma beats_improve a b c : beats a b = true -> beats c b = false -> beats c a = false.
Proof.
  intros Hab Hcb. apply not_true_iff_false. intros Hca. apply not_true_iff_false in Hcb. apply Hcb.
  apply beats_cases in Hab, Hca. apply beats_cases. destruct Hab as [Hab|[Ek Hs]], Hca as [Hca|[Ek' Hs']].
  - left. by eapply lex_transitive.
  - left. by rewrite Ek'.
  - left. by rewrite <- Ek.
  - right. split; [congruence|lia].
Qed.
Lemma beats_irreflexive a : beats a a = false.
Proof. apply not_true_iff_false. rewrite beats_cases, lex_irreflexive. intros [?|[_ ?]]; [done|lia]. Qed.
Lemma beats_asymmetric a b : beats a b = true -> beats b a = false.
Proof. intros Hab. apply (beats_improve a b); [done|]. apply beats_irreflexive. Qed.

(** A request that may be on the wire at [start]: the first of its sender, and not in the future. *)
Definition eligible (pending : list Tx) (start : Z) (i : nat) (tx : Tx) : Prop :=
  pending !! i = Some tx /\ has_earlier_from_sender pending i tx = false /\ tx_requested_ns tx <= start.

Definition best_below (pending : list Tx) (start : Z) (n : nat) (r : option (nat * Tx)) : Prop :=
  match r with
  | None => ∀ i tx, (i < n)%nat -> ~ eligible pending start i tx
  | Some (w, tx) => eligible pending start w tx
      /\ ∀ i tx', (i < n)%nat -> eligible pending start i tx' -> beats tx' tx = false
  end.

Lemma pick_winner_best pending start rest : ∀ i r, pending = take i pending ++ rest -> (i <= length pending)%nat ->
  best_below pending start i r -> best_below pending start (length pending) (pick_winner pending start i rest r).
Proof.
  induction rest as [|tx rest IH]; intros i r Hp Hi Hr.
  - cbn [pick_winner]. rewrite app_nil_r in Hp. assert (length pending <= i)%nat as Hle.
    { rewrite Hp. rewrite length_take. lia. } by replace (length pending) with i by lia.
  - cbn [pick_winner]. assert (length (take i pending) = i) as Hlen by (rewrite length_take; lia).
    assert (pending !! i = Some tx) as Htx.
    { rewrite Hp, lookup_app_r by lia. by rewrite Hlen, Nat.sub_diag. }
    assert (i < length pending)%nat as Hlt by (by eapply lookup_lt_Some).
    apply IH; [|lia|].
    { rewrite (take_S_r _ _ _ Htx), <- app_assoc. exact Hp. }
    assert (∀ j y, (j < S i)%nat -> eligible pending start j y -> (j < i)%nat \/ j = i /\ y = tx) as Hcases.
    { intros j y Hj [Hy _]. destruct (decide (j = i)) as [->|]; [right; split; [done|congruence]|left; lia]. }
    destruct (has_earlier_from_sender pending i tx || (start <? tx_requested_ns tx)) eqn:Ee.
    + assert (¬ eligible pending start i tx) as Hno.
      { intros (_ & H1 & H2). rewrite H1 in Ee. cbn in Ee. apply Z.ltb_lt in Ee. lia. }
      destruct r as [[w y]|]; cbn in *.
      * destruct Hr as [Hw Hb]. split; [done|]. intros j z Hj Hz. destruct (Hcases j z Hj Hz) as [?|[-> ->]]; [by apply (Hb j)|done].
      * intros j z Hj Hz. destruct (Hcases j z Hj Hz) as [?|[-> ->]]; [by apply (Hr j z)|done].
    + apply orb_false_iff in Ee as [E1 E2]. apply Z.ltb_ge in E2.
      assert (eligible pending start i tx) as Hel by done. destruct r as [[w y]|]; cbn in *.
      * destruct Hr as [Hw Hb]. change (lexicographical_compare _ _ || _) with (beats tx y). destruct (beats tx y) eqn:Eb.
        -- split; [done|]. intros j z Hj Hz. destruct (Hcases j z Hj Hz) as [Hji|[-> ->]]; [|apply beats_irreflexive].
           apply (beats_improve tx y); [done|]. by apply (Hb j).
        -- split; [done|]. intros j z Hj Hz. destruct (Hcases j z Hj Hz) as [Hji|[-> ->]]; [by apply (Hb j)|done].
      * split; [done|]. intros j z Hj Hz. destruct (Hcases j z Hj Hz) as [Hji|[-> ->]]; [by destruct (Hr j z)|apply beats_irreflexive].
Qed.

Lemma pick_winner_spec (pending : list Tx) start : best_below pending start (length pending) (pick_winner pending start 0 pending None).
Proof. apply pick_winner_best; [done|lia|]. intros i tx Hi. lia. Qed.

(** The earliest request of a sender head is the earliest time an eligible one exists. *)
Lemma earliest_head_spec (pending rest : list Tx) : ∀ i e, pending = take i pending ++ rest -> (i <= length pending)%nat ->
  let r := earliest_head pending i rest e in
  r <= e /\ (r = e \/ ∃ j tx, pending !! j = Some tx /\ has_earlier_from_sender pending j tx = false /\ tx_requested_ns tx = r)
  /\ ∀ j tx, (i <= j)%nat -> pending !! j = Some tx -> has_earlier_from_sender pending j tx = false -> r <= tx_requested_ns tx.
Proof.
  induction rest as [|tx rest IH]; intros i e Hp Hi; cbn [earliest_head].
  - split; [lia|]. split; [by left|]. intros j tx Hj Hx. apply lookup_lt_Some in Hx. rewrite app_nil_r in Hp.
    assert (length pending <= i)%nat by (rewrite Hp, length_take; lia). lia.
  - assert (length (take i pending) = i) as Hlen by (rewrite length_take; lia).
    assert (pending !! i = Some tx) as Htx by (rewrite Hp, lookup_app_r by lia; by rewrite Hlen, Nat.sub_diag).
    assert (i < length pending)%nat as Hlt by (by eapply lookup_lt_Some).
    destruct (IH (S i) (if has_earlier_from_sender pending i tx then e else Z.min e (tx_requested_ns tx))) as (H1 & H2 & H3);
      [rewrite (take_S_r _ _ _ Htx), <- app_assoc; exact Hp|lia|].
    set (r := earliest_head _ _ _ _) in *. split_and!.
    + destruct (has_earlier_from_sender pending i tx); lia.
    + destruct H2 as [H2|H2]; [|by right]. destruct (has_earlier_from_sender pending i tx) eqn:E; [by left|].
      destruct (Z.min_spec e (tx_requested_ns tx)) as [[_ Em]|[_ Em]]; [left; congruence|right].
      exists i, tx. split_and!; try done. congruence.
    + intros j y Hj Hy Hh. destruct (decide (j = i)) as [->|]; [|apply (H3 j y); [lia|done|done]].
      assert (y = tx) as -> by congruence. rewrite Hh in H1. lia.
Qed.

(** The head of the queue is the first of its sender. *)
Lemma earliest_head_bound (pending : list Tx) tx rest : pending = tx :: rest ->
  earliest_head pending 0 pending max_u64 <= tx_requested_ns tx.
Proof.
  intros ->. destruct (earliest_head_spec (tx :: rest) (tx :: rest) 0 max_u64) as (_ & _ & Hb); [done|lia|].
  apply (Hb 0%nat tx); [lia|done|done].
Qed.

(** From the earliest request on, there is a winner. *)
Lemma winner_exists (pending : list Tx) start : pending <> [] -> Forall (fun tx => tx_requested_ns tx <= max_u64) pending ->
  earliest_head pending 0 pending max_u64 <= start ->
  ∃ w tx, pick_winner pending start 0 pending None = Some (w, tx).
Proof.
  intros Hne Hmax Hs. destruct (earliest_head_spec pending pending 0 max_u64) as (H1 & H2 & H3); [done|lia|].
  assert (∃ j tx, eligible pending start j tx) as (j & tx & Hel).
  { destruct H2 as [H2|(j & tx & Hj & Hh & Hr)]; [|exists j, tx; split_and!; [done|done|lia]].
    destruct pending as [|tx rest]; [done|]. exists 0%nat, tx. split_and!; [done|done|].
    inversion Hmax as [|? ? Hm _]; subst. lia. }
  pose proof (pick_winner_spec pending start) as Hw. destruct (pick_winner pending start 0 pending None) as [[w y]|]; [by exists w, y|].
  destruct (Hw j tx); [|done]. destruct Hel as [Hel _]. by eapply lookup_lt_Some.
Qed.
End winners.

(** ** Wire time *)

(** Whole nanoseconds and the carried fraction add up to the exact time of the bits. *)
Lemma wire_time_exact bits fraction bitrate : 0 <= bits <= 157 -> 0 < bitrate <= max_u32 -> 0 <= fraction < bitrate ->
  let wt := wire_time bits fraction bitrate in
  0 <= wt_frame_duration wt /\ 0 <= wt_intermission wt /\ 0 <= wt_fraction wt < bitrate
  /\ (wt_frame_duration wt + wt_intermission wt) * bitrate + wt_fraction wt = (bits + 3) * 1000000000 + fraction.
Proof.
  intros Hb Hr Hf wt. unfold wt, wire_time. cbn [wt_frame_duration wt_intermission wt_fraction].
  unfold max_u32 in *. rewrite (u64_small (bits * 1000000000 + fraction)) by lia.
  set (n := bits * 1000000000 + fraction) in *. pose proof (Z.mod_pos_bound n bitrate ltac:(lia)) as Hm.
  rewrite (u64_small (3000000000 + n mod bitrate)) by lia. set (m := 3000000000 + n mod bitrate) in *.
  pose proof (Z.mod_pos_bound m bitrate ltac:(lia)). pose proof (Z.div_mod n bitrate ltac:(lia)).
  pose proof (Z.div_mod m bitrate ltac:(lia)). pose proof (Z.div_pos n bitrate ltac:(lia) ltac:(lia)).
  pose proof (Z.div_pos m bitrate ltac:(lia) ltac:(lia)). split_and!; try lia.
Qed.

(** ** The invariant *)

Section invariant.
Context {CB L W : Type} `{LW : EventClockLaws L} `{U : CanUser CB L W}.
Abbreviation Op := (Op CB L W).
Abbreviation State := (CanState CB L W).
Abbreviation Tx := (Transmission CB).

Record tx_ok (tx : Tx) : Prop := {
  to_valid : validate (tx_frame tx) = inl tt;
  to_classic : cf_fd (tx_frame tx) = false;
  to_dlc : 0 <= cf_dlc (tx_frame tx);
  to_id : 0 <= cf_id (tx_frame tx);
  to_requested : 0 <= tx_requested_ns tx <= max_u64;
}.

(** What the courier's state says about the queue, the wire and the armed event. *)
Definition courier_ok (b : Bus CB) (l : L) : Prop :=
  match cb_timed_state b with
  | TimedState.idle => cb_in_flight b = None /\ cb_timed_event_id b = 0
  | TimedState.arbitrating => cb_in_flight b = None /\ cb_pending b <> [] /\ ∃ t,
      ck_pending l !! cb_timed_event_id b = Some (t, Some arbitrationEvent_cb)
      /\ cb_next_start_ns b <= t /\ earliest_head (cb_pending b) 0 (cb_pending b) max_u64 <= t
  | TimedState.in_flight => ∃ tx t, cb_in_flight b = Some tx /\ tx_ok tx
      /\ ck_pending l !! cb_timed_event_id b = Some (t, Some completionEvent_cb)
      /\ t <= cb_next_start_ns b
  end.

Record bus_inv (b : Bus CB) (l : L) : Prop := {
  bi_loop : ck_ok l;
  bi_courier : courier_ok b l;
  (** No event of the bus is armed but the one it remembers. *)
  bi_only id t e : ck_pending l !! id = Some (t, Some e) -> id = cb_timed_event_id b;
  bi_zero : ck_pending l !! 0 = None;
  bi_pending : Forall tx_ok (cb_pending b);
  bi_capacity : queuedTransmissions b <= Z.max 0 (cb_queue_capacity b);
  bi_bitrate : 0 <= cb_bitrate b <= max_u32;
  bi_fraction : cb_bitrate b <> 0 -> 0 <= cb_fractional_numerator b < cb_bitrate b
    /\ 0 <= cb_in_flight_fraction_before_start b < cb_bitrate b;
  bi_next_start : 0 <= cb_next_start_ns b <= max_u64;
  bi_attached : cb_timed_state b <> TimedState.idle -> cb_has_event_loop b = true;
}.
Definition bus_ok (s : State) : Prop := bus_inv (st_bus s) (st_loop s).

(** A timed bus with waiting frames has an event armed. *)
Definition awake_bus (b : Bus CB) : Prop :=
  cb_mode b = DeliveryMode.timed -> cb_has_event_loop b = true -> cb_pending b <> [] ->
  cb_timed_state b <> TimedState.idle.
Definition awake (s : State) : Prop := awake_bus (st_bus s).

(** An operation that, when it returns, keeps the invariant and does not put the bus to sleep. *)
Definition keeps {A} (m : Op A) : Prop :=
  ∀ s a s', bus_ok s -> m s = (inl a, s') -> bus_ok s' /\ (awake s -> awake s').
(** An operation that, when it returns, leaves the bus awake. *)
Definition wakes {A} (m : Op A) : Prop :=
  ∀ s a s', bus_ok s -> m s = (inl a, s') -> bus_ok s' /\ awake s'.

Lemma bus_keeps_ret {A} (a : A) : keeps (mret a : Op A).
Proof. intros s a' s' Hs [= _ <-]. done. Qed.
Lemma keeps_skip : keeps skip.
Proof. apply bus_keeps_ret. Qed.
Lemma bind_inv {A B} (m : Op A) (f : A -> Op B) s b s' : (m ≫= f) s = (inl b, s') ->
  ∃ a s1, m s = (inl a, s1) /\ f a s1 = (inl b, s').
Proof.
  unfold mbind, Op_bind. destruct (m s) as [[a|e] s1]; [|done]. intros E. by exists a, s1.
Qed.
Lemma bus_keeps_bind {A B} (m : Op A) (f : A -> Op B) : keeps m -> (∀ a, keeps (f a)) -> keeps (m ≫= f).
Proof.
  intros Hm Hf s b s' Hs E. apply bind_inv in E as (a & s1 & E1 & E2). destruct (Hm s a s1 Hs E1) as [Hs1 Ha1].
  destruct (Hf a s1 b s' Hs1 E2) as [Hs' Ha']. auto.
Qed.
Lemma wakes_bind {A B} (m : Op A) (f : A -> Op B) : keeps m -> (∀ a, wakes (f a)) -> wakes (m ≫= f).
Proof.
  intros Hm Hf s b s' Hs E. apply bind_inv in E as (a & s1 & E1 & E2). destruct (Hm s a s1 Hs E1) as [Hs1 _].
  by apply (Hf a s1 b s').
Qed.
Lemma wakes_keeps {A} (m : Op A) : wakes m -> keeps m.
Proof. intros Hm s a s' Hs E. destruct (Hm s a s' Hs E). auto. Qed.
Lemma wakes_return {A B} (m : Op A) (b : B) : wakes m -> wakes (m ≫= fun _ => mret b).
Proof. intros Hm s b' s' Hs E. apply bind_inv in E as (a & s1 & E1 & [= _ <-]). by apply (Hm s a s1). Qed.
Lemma bus_keeps_gets {A} (f : State -> A) : keeps (gets f).
Proof. intros s a s' Hs [= _ <-]. done. Qed.
Lemma keeps_if {A} (b : bool) (m n : Op A) : keeps m -> keeps n -> keeps (if b then m else n).
Proof. by destruct b. Qed.

(** The invariant only reads the courier's fields. *)
Definition same_courier (b b' : Bus CB) : Prop :=
  cb_timed_state b' = cb_timed_state b /\ cb_in_flight b' = cb_in_flight b /\ cb_timed_event_id b' = cb_timed_event_id b
  /\ cb_pending b' = cb_pending b /\ cb_next_start_ns b' = cb_next_start_ns b /\ cb_bitrate b' = cb_bitrate b
  /\ cb_queue_capacity b' = cb_queue_capacity b /\ cb_fractional_numerator b' = cb_fractional_numerator b
  /\ cb_in_flight_fraction_before_start b' = cb_in_flight_fraction_before_start b
  /\ cb_mode b' = cb_mode b /\ cb_has_event_loop b' = cb_has_event_loop b.

Lemma same_courier_inv b b' l : same_courier b b' -> bus_inv b l -> bus_inv b' l.
Proof.
  intros (E1 & E2 & E3 & E4 & E5 & E6 & E7 & E8 & E9 & _ & E10) [I1 I2 I3 I4 I5 I6 I7 I8 I9 I10].
  constructor; unfold courier_ok, queuedTransmissions in *; rewrite ?E1, ?E2, ?E3, ?E4, ?E5, ?E6, ?E7, ?E8, ?E9, ?E10; done.
Qed.
Lemma keeps_set_bus f : (∀ b, same_courier b (f b)) -> keeps (set_bus f).
Proof.
  intros Hf s a s' Hs [= _ <-]. unfold bus_ok, awake, awake_bus in *. cbn [st_bus st_loop].
  specialize (Hf (st_bus s)). split; [by apply (same_courier_inv (st_bus s))|].
  destruct Hf as (-> & _ & _ & -> & _ & _ & _ & _ & _ & -> & ->). done.
Qed.

(** ** User code *)

Class CanUserLaws : Prop := {
  receive_keeps c frame t : keeps (user_receive c frame t);
  complete_keeps c t b : keeps (user_complete c t b);
  trace_keeps c r : keeps (user_trace c r);
  barrier_keeps c t : keeps (user_barrier c t);
}.
Context `{UL : CanUserLaws}.

Lemma keeps_trace direction t node frame : keeps (trace direction t node frame).
Proof.
  apply bus_keeps_bind; [apply bus_keeps_gets|]. intros callback. apply bus_keeps_bind; [apply bus_keeps_gets|]. intros sequence.
  apply bus_keeps_bind; [apply keeps_set_bus; intros; by repeat split|]. intros _.
  destruct callback; [apply trace_keeps|apply keeps_skip].
Qed.
Lemma keeps_run_barrier t : keeps (run_barrier t).
Proof. apply bus_keeps_bind; [apply bus_keeps_gets|]. intros []; [apply barrier_keeps|apply keeps_skip]. Qed.
Lemma keeps_complete_attached tx t : keeps (complete_attached tx t).
Proof.
  apply bus_keeps_bind; [apply bus_keeps_gets|]. intros b. destruct (tx_completion tx); [|apply keeps_skip].
  destruct b; [apply complete_keeps|apply keeps_skip].
Qed.
Lemma keeps_deliver frame t sender : keeps (deliver frame t sender).
Proof.
  apply bus_keeps_bind; [apply bus_keeps_gets|]. intros deliveries. induction deliveries as [|d rest IH]; [apply keeps_skip|].
  cbn [deliver_each]. apply bus_keeps_bind; [apply bus_keeps_gets|]. intros attached. apply bus_keeps_bind; [|done].
  destruct attached; [|apply keeps_skip]. apply bus_keeps_bind; [apply keeps_trace|]. intros _.
  apply bus_keeps_bind; [apply bus_keeps_gets|]. intros []; [apply receive_keeps|apply keeps_skip].
Qed.

(** ** Arming an event *)

Lemma bus_inv_owner b l o : bus_inv b l -> bus_inv b (ck_set_owner o l).
Proof.
  intros [I1 I2 I3 I4 I5 I6 I7 I8 I9 I10]. destruct (ck_set_owner_law l o I1) as (Hok & Hp & _).
  constructor; unfold courier_ok in *; rewrite ?Hp; done.
Qed.
Lemma idle_no_events b l : bus_inv b l -> cb_timed_state b = TimedState.idle ->
  ∀ id t e, ck_pending l !! id <> Some (t, Some e).
Proof.
  intros I Hidle id t e Hp. pose proof (bi_courier b l I) as Hc. unfold courier_ok in Hc. rewrite Hidle in Hc.
  pose proof (bi_only b l I id t e Hp) as ->. destruct Hc as [_ Hc]. rewrite Hc, (bi_zero b l I) in Hp. done.
Qed.

(** What scheduling from an idle courier gives. *)
Record armed (l : L) (t : Z) (e : CanEvent) (id : Z) (l' : L) : Prop := {
  ar_ok : ck_ok l';
  ar_id : id <> 0;
  ar_event : ck_pending l' !! id = Some (t, Some e);
  ar_only id' t' e' : ck_pending l' !! id' = Some (t', Some e') -> id' = id;
  ar_zero : ck_pending l' !! 0 = None;
}.
Lemma schedule_armed b l t e id l' : bus_inv b l -> cb_timed_state b = TimedState.idle -> t <= max_u64 ->
  ck_schedule t e l = (inl id, l') -> armed l t e id l'.
Proof.
  intros I Hidle Ht E. pose proof (ck_schedule_law l t e (bi_loop b l I) Ht) as Hs. rewrite E in Hs.
  destruct Hs as (Hok & _ & _ & Hid & Hnone & Hp). constructor; try done; rewrite Hp.
  - apply lookup_insert_eq.
  - intros id' t' e' [[<- _]|[_ Hx]]%lookup_insert_Some; [done|]. by apply (idle_no_events b l I) in Hx.
  - rewrite lookup_insert_ne by done. apply (bi_zero b l I).
Qed.

(** Running a block under another owner. *)
Lemma use_owner_inv {A} o (m : Op A) s a s' : use_owner o m s = (inl a, s') ->
  ∃ s1, m (set_loop_owner o s) = (inl a, s1) /\ s' = set_loop_owner (ck_owner (st_loop s)) s1.
Proof.
  unfold use_owner, scoped, gets, modify, mbind, Op_bind. destruct (m (set_loop_owner o s)) as [r s1]. intros [= -> <-].
  by exists s1.
Qed.
Lemma bus_ok_owner o (s : State) : bus_ok s -> bus_ok (set_loop_owner o s).
Proof. apply bus_inv_owner. Qed.

Lemma head_bounds b l : bus_inv b l -> 0 <= earliest_head (cb_pending b) 0 (cb_pending b) max_u64 <= max_u64.
Proof.
  intros I. destruct (earliest_head_spec (cb_pending b) (cb_pending b) 0 max_u64) as (H1 & H2 & _); [done|lia|].
  split; [|done]. destruct H2 as [->|(j & tx & Hj & _ & <-)]; [done|].
  pose proof (Forall_lookup_1 _ _ _ _ (bi_pending b l I) Hj) as Htx. apply (to_requested tx Htx).
Qed.

Lemma scheduleArbitration_wakes : wakes scheduleArbitration.
Proof.
  intros s [] s' Hs E. apply bind_inv in E as (state & s1 & [= <- <-] & E).
  assert (cb_timed_state (st_bus s) <> TimedState.idle -> skip s = (inl tt, s') -> bus_ok s' /\ awake s') as Hstay.
  { intros Hne [= <-]. split; [done|]. by intros _ _ _. }
  destruct (cb_timed_state (st_bus s)) eqn:Est; try (by apply Hstay).
  apply bind_inv in E as (b & s1 & [= <- <-] & E). cbn [id] in E.
  destruct (negb _ || _ || _) eqn:Ec.
  { injection E as <-. split; [done|]. intros Hm Hl Hp. rewrite Hm, Hl in Ec. cbn in Ec.
    rewrite orb_false_r in Ec. by apply bool_decide_eq_true in Ec. }
  apply orb_false_iff in Ec as [[Em Ep]%orb_false_iff El%negb_false_iff]. apply bool_decide_eq_false in Ep.
  apply bind_inv in E as (current & s1 & [= <- <-] & E). apply use_owner_inv in E as (s1 & E & ->).
  apply bind_inv in E as (id & s2 & E & [= <-]). unfold schedule_at in E. cbn [st_loop set_loop_owner] in E.
  set (t := Z.max _ _) in E. set (l := ck_set_owner ck_shared_owner (st_loop s)) in *.
  destruct (ck_schedule t arbitrationEvent_cb l) as [r l'] eqn:Esch. injection E as -> <-.
  pose proof (bus_inv_owner _ _ ck_shared_owner Hs) as I. fold l in I.
  pose proof (head_bounds _ _ Hs). pose proof (bi_next_start _ _ Hs). pose proof (ck_now_range (st_loop s) (ck_owner (st_loop s)) (bi_loop _ _ Hs)).
  assert (t <= max_u64) as Ht by (unfold t, ck_now; lia).
  destruct (schedule_armed _ _ _ _ _ _ I Est Ht Esch) as [A1 A2 A3 A4 A5].
  split; [|intros _ _ _; cbn; done]. apply bus_ok_owner. unfold bus_ok. cbn [st_bus st_loop].
  pose proof (bi_courier _ _ Hs) as Hc. unfold courier_ok in Hc. rewrite Est in Hc.
  destruct Hs as [I1 I2 I3 I4 I5 I6 I7 I8 I9 I10]. constructor; try done.
  unfold courier_ok. cbn [cb_timed_state cb_in_flight cb_pending cb_timed_event_id cb_next_start_ns].
  split; [apply Hc|]. split; [done|]. exists t. split; [done|]. unfold t. lia.
Qed.

(** ** Arbitration and completion *)

(** Taking a request out of the queue of an idle bus. *)
Definition drop_request (w : nat) (b : Bus CB) : Bus CB := {| b with cb_in_flight := None; cb_pending := delete w (cb_pending b) |}.

Lemma drop_request_inv b l w : bus_inv b l -> cb_timed_state b = TimedState.idle -> bus_inv (drop_request w b) l.
Proof.
  intros [I1 I2 I3 I4 I5 I6 I7 I8 I9 I10] Hidle. unfold courier_ok in I2. rewrite Hidle in I2. constructor; try done.
  - unfold courier_ok, drop_request. cbn. rewrite Hidle. split; [done|apply I2].
  - cbn. by apply Forall_delete.
  - unfold queuedTransmissions, drop_request in *. cbn. destruct I2 as [I2 _]. rewrite I2 in I6.
    assert (length (delete w (cb_pending b)) <= length (cb_pending b))%nat by apply sublist_length, sublist_delete. lia.
Qed.

Lemma complete_failed_wakes tx start b l s s' : bus_inv b l -> cb_timed_state b = TimedState.idle ->
  {| (st_bus s) with cb_in_flight := None |} = b -> st_loop s = l ->
  complete_failed tx start s = (inl tt, s') -> bus_ok s' /\ awake s'.
Proof.
  intros I Hidle Hb Hl E. apply bind_inv in E as ([] & s1 & [= <-] & E). rewrite Hb in E.
  revert E. apply (wakes_bind _ _); [destruct (tx_completion tx); [apply complete_keeps|apply keeps_skip]| |].
  - intros _. apply scheduleArbitration_wakes.
  - unfold bus_ok. cbn. by rewrite Hl.
Qed.

Lemma start_frame_wakes start w tx s s' : bus_ok s -> cb_timed_state (st_bus s) = TimedState.idle ->
  cb_has_event_loop (st_bus s) = true ->
  cb_pending (st_bus s) !! w = Some tx -> 0 <= start ->
  start_frame start w tx s = (inl tt, s') -> bus_ok s' /\ awake s'.
Proof.
  intros Hs Hidle Hloop Hw Hstart E. pose proof (drop_request_inv _ _ w Hs Hidle) as Id. pose proof Hs as [I1 I2 I3 I4 I5 I6 I7 I8 I9 I10].
  apply bind_inv in E as ([] & s1 & [= <-] & E). set (s1 := mkCanState _ _ _ _) in E.
  assert (complete_failed tx start s1 = (inl tt, s') -> bus_ok s' /\ awake s') as Hfail
    by (intros Ef; by apply (complete_failed_wakes tx start _ _ s1 s' Id)).
  apply bind_inv in E as (bitrate & s2 & [= <- <-] & E). cbn [st_bus cb_bitrate] in E.
  pose proof (Forall_lookup_1 _ _ _ _ I5 Hw) as Htx.
  destruct (classicCanStuffedFrameBits (tx_frame tx)) as [bits|] eqn:Ebits; [|by apply Hfail].
  pose proof (classic_bits_bounds _ _ (to_dlc _ Htx) Ebits) as Hbits.
  destruct (Z.eqb_spec (cb_bitrate (st_bus s)) 0) as [|Hrate]; [by apply Hfail|].
  apply bind_inv in E as (prior & s2 & [= <- <-] & E). cbn [st_bus cb_fractional_numerator] in E.
  destruct (I8 Hrate) as [Hf1 Hf2].
  destruct (wire_time_exact bits (cb_fractional_numerator (st_bus s)) (cb_bitrate (st_bus s))) as (W1 & W2 & W3 & _); try lia.
  set (wt := wire_time _ _ _) in *. clearbody wt. destruct (_ || _) eqn:Eo; [by apply Hfail|].
  apply orb_false_iff in Eo as [Eo1%Z.ltb_ge Eo2%Z.ltb_ge].
  apply bind_inv in E as ([] & s2 & [= <-] & E). cbn [st_bus st_loop] in E.
  apply use_owner_inv in E as (s2 & E & ->).
  apply bind_inv in E as (id & s3 & E3 & E). unfold schedule_at in E3. cbn [st_loop set_loop_owner] in E3.
  destruct (ck_schedule _ completionEvent_cb _) as [r l'] eqn:Esch. injection E3 as -> <-.
  apply bind_inv in E as ([] & s3 & [= <-] & E). cbn [st_bus st_loop st_scope st_world] in E.
  assert (start + wt_frame_duration wt <= max_u64) as Ht by lia.
  destruct (schedule_armed _ _ _ _ _ _ (bus_inv_owner _ _ ck_shared_owner Id) Hidle Ht Esch) as [A1 A2 A3 A4 A5].
  revert E. set (s3 := mkCanState _ _ _ _). intros E.
  destruct (keeps_trace Direction.transmit start (tx_sender_name tx) (tx_frame tx) s3 tt s2) as [Hs2 Ha2]; [|done|].
  { constructor; try done; cbn; try lia; [|apply Id|].
    - exists tx, (start + wt_frame_duration wt). split_and!; try done. lia.
    - pose proof (bi_capacity _ _ Hs) as Hcap. unfold queuedTransmissions in *. cbn.
      unfold courier_ok in I2. rewrite Hidle in I2. destruct I2 as [I2 _]. rewrite I2 in Hcap.
      pose proof (length_delete _ _ _ Hw) as Hlen || pose proof (length_delete (cb_pending (st_bus s)) w ltac:(by eexists)) as Hlen.
      apply lookup_lt_Some in Hw. lia. }
  split; [by apply bus_ok_owner|]. unfold awake in *. cbn. apply Ha2. by intros _ _ _.
Qed.

(** The event loop has removed the bus's event and is about to call back. *)
Record dispatched (s s1 : State) : Prop := {
  di_bus : st_bus s1 = st_bus s;
  di_ok : ck_ok (st_loop s1);
  di_pending : ck_pending (st_loop s1) = delete (cb_timed_event_id (st_bus s)) (ck_pending (st_loop s));
}.

(** Any way of removing the event will do. *)
Lemma cancelled_dispatched s : bus_ok s ->
  dispatched s {| s with st_loop := (ck_cancel (cb_timed_event_id (st_bus s)) (st_loop s)).2 |}.
Proof.
  intros Hs. pose proof (ck_cancel_law (st_loop s) (cb_timed_event_id (st_bus s)) (bi_loop _ _ Hs)) as Hc.
  destruct (ck_cancel _ _) as [b l']. by destruct Hc as (Hok & _ & _ & Hp & _).
Qed.

(** The bus once it has noted that its event is gone. *)
Definition rested (b : Bus CB) : Bus CB :=
  {| b with cb_timed_event_id := 0; cb_in_flight := None; cb_timed_state := TimedState.idle |}.

Lemma rested_inv b l l1 : bus_inv b l -> ck_ok l1 -> ck_pending l1 = delete (cb_timed_event_id b) (ck_pending l) ->
  bus_inv (rested b) l1.
Proof.
  intros [I1 I2 I3 I4 I5 I6 I7 I8 I9 I10] Hok Hp. constructor; try done.
  - intros id t e. rewrite Hp. intros [Hne Hx]%lookup_delete_Some. by apply I3 in Hx.
  - rewrite Hp. apply lookup_delete_None. by right.
  - unfold queuedTransmissions in *. cbn. destruct (cb_in_flight b); lia.
Qed.

Lemma arbitrate_wakes s s' : bus_ok s -> cb_timed_state (st_bus s) = TimedState.idle ->
  arbitrate s = (inl tt, s') -> bus_ok s' /\ awake s'.
Proof.
  intros Hs Hidle E. apply bind_inv in E as (b & s1 & [= <- <-] & E). cbn [id] in E. rewrite Hidle in E.
  rewrite bool_decide_eq_false_2 in E by done. destruct (negb _ || _ || _) eqn:Ec.
  { injection E as <-. split; [done|]. intros Hm Hl Hp. rewrite Hm, Hl in Ec. cbn in Ec.
    rewrite orb_false_r in Ec. by apply bool_decide_eq_true in Ec. }
  apply orb_false_iff in Ec as [_ El%negb_false_iff]. apply bind_inv in E as (current & s1 & [= <- <-] & E).
  pose proof (pick_winner_spec (cb_pending (st_bus s)) (Z.max (cb_next_start_ns (st_bus s)) (ck_now (st_loop s)))) as Hw.
  destruct (pick_winner _ _ _ _ _) as [[w tx]|].
  - destruct Hw as [[Hw _] _]. refine (start_frame_wakes _ w tx s s' Hs Hidle El Hw _ E). pose proof (bi_next_start _ _ Hs). lia.
  - by apply (scheduleArbitration_wakes s tt).
Qed.

Lemma arbitrationEvent_wakes s s1 s' : bus_ok s -> cb_timed_state (st_bus s) = TimedState.arbitrating ->
  dispatched s s1 -> arbitrationEvent s1 = (inl tt, s') -> bus_ok s' /\ awake s'.
Proof.
  intros Hs Hst [Hb Hok Hp] E. apply bind_inv in E as ([] & s2 & [= <-] & E).
  refine (arbitrate_wakes _ s' _ _ E); [|done]. pose proof (rested_inv _ _ _ Hs Hok Hp) as I.
  pose proof (bi_courier _ _ Hs) as Hc. unfold courier_ok in Hc. rewrite Hst in Hc. destruct Hc as [Hc _].
  unfold bus_ok, rested in *. cbn [st_bus st_loop]. rewrite Hb. by rewrite Hc in *.
Qed.

Lemma completionEvent_wakes s s1 s' : bus_ok s -> cb_timed_state (st_bus s) = TimedState.in_flight ->
  dispatched s s1 -> completionEvent s1 = (inl tt, s') -> bus_ok s' /\ awake s'.
Proof.
  intros Hs Hst [Hb Hok Hp] E. apply bind_inv in E as ([] & s2 & [= <-] & E).
  apply bind_inv in E as ([] & s2 & [= <-] & E). cbn [st_bus st_loop st_scope st_world] in E.
  apply bind_inv in E as (in_flight & s2 & [= <- <-] & E). cbn [st_bus cb_in_flight] in E.
  pose proof (bi_courier _ _ Hs) as Hc. unfold courier_ok in Hc. rewrite Hst in Hc. destruct Hc as (tx & t & Hc & _).
  rewrite Hb, Hc in E. apply bind_inv in E as ([] & s2 & [= <-] & E). cbn [st_bus st_loop st_scope st_world] in E.
  apply bind_inv in E as (b & s2 & [= <- <-] & E). apply bind_inv in E as (current & s2 & [= <- <-] & E).
  revert E. match goal with |- context [run_barrier ?x] => generalize x end. intros t'. apply wakes_bind; [apply keeps_run_barrier| |].
  - intros _. apply wakes_bind; [apply keeps_deliver|]. intros _. apply wakes_bind; [apply keeps_complete_attached|].
    intros _. apply scheduleArbitration_wakes.
  - exact (rested_inv _ _ _ Hs Hok Hp).
Qed.

(** ** Submission and cancellation *)

Lemma cancel_armed b l : bus_inv b l -> let l' := (ck_cancel (cb_timed_event_id b) l).2 in bus_inv (rested b) l'.
Proof.
  intros I l'. pose proof (ck_cancel_law l (cb_timed_event_id b) (bi_loop _ _ I)) as Hc. unfold l'.
  destruct (ck_cancel (cb_timed_event_id b) l) as [r l1]. destruct Hc as (Hok & _ & _ & Hp & _). by apply (rested_inv b l).
Qed.

(** Changing the queue when no arbitration is armed. *)
Lemma queue_inv b l pending n : bus_inv b l -> cb_timed_state b <> TimedState.arbitrating -> Forall tx_ok pending ->
  Z.of_nat (length pending) + (if cb_in_flight b is Some _ then 1 else 0) <= Z.max 0 (cb_queue_capacity b) ->
  bus_inv {| b with cb_pending := pending; cb_next_transmission_sequence := n |} l.
Proof.
  intros [I1 I2 I3 I4 I5 I6 I7 I8 I9 I10] Hst Hp Hl. constructor; try done.
  unfold courier_ok in *. cbn [cb_timed_state cb_in_flight cb_timed_event_id cb_next_start_ns]. by destruct (cb_timed_state b).
Qed.

Lemma reject_keeps {A} tx category message : keeps (reject (A:=A) tx category message).
Proof. apply bus_keeps_bind; [apply keeps_trace|]. intros _. apply bus_keeps_ret. Qed.

Lemma submit_immediate_keeps tx : keeps (submit_immediate tx).
Proof.
  apply bus_keeps_bind; [apply keeps_run_barrier|]. intros _. apply bus_keeps_bind; [apply keeps_trace|]. intros _.
  apply bus_keeps_bind; [apply keeps_deliver|]. intros _. apply bus_keeps_bind; [apply keeps_complete_attached|]. intros _. apply bus_keeps_ret.
Qed.

(** The queue after admitting a request, and the loop once a stale arbitration is cancelled. *)
Definition admitted (tx : Tx) (s : State) : State :=
  let b := st_bus s in
  let pending := cb_pending b ++ [{| tx with tx_sequence := cb_next_transmission_sequence b |}] in
  let n := u64 (cb_next_transmission_sequence b + 1) in
  if bool_decide (cb_timed_state b = TimedState.arbitrating) then
    {| s with st_bus := {| (rested b) with cb_pending := pending; cb_next_transmission_sequence := n |};
              st_loop := (ck_cancel (cb_timed_event_id b) (st_loop s)).2 |}
  else {| s with st_bus := {| b with cb_pending := pending; cb_next_transmission_sequence := n |} |}.

Lemma admitted_ok tx s : bus_ok s -> tx_ok tx -> queuedTransmissions (st_bus s) < cb_queue_capacity (st_bus s) ->
  bus_ok (admitted tx s) /\ (ck_room (st_loop s) -> ck_room (st_loop (admitted tx s))).
Proof.
  intros Hs Htx Hcap. pose proof Hs as [I1 I2 I3 I4 I5 I6 I7 I8 I9 I10]. unfold admitted.
  set (tx' := {| tx with tx_sequence := _ |}). assert (Forall tx_ok (cb_pending (st_bus s) ++ [tx'])) as Hq.
  { apply Forall_app_2; [done|]. constructor; [|constructor]. destruct Htx. by constructor. }
  assert (Z.of_nat (length (cb_pending (st_bus s) ++ [tx'])) + (if cb_in_flight (st_bus s) is Some _ then 1 else 0)
    <= Z.max 0 (cb_queue_capacity (st_bus s))) as Hl.
  { rewrite length_app. unfold queuedTransmissions in Hcap. cbn [length]. lia. }
  case_bool_decide as Hst.
  - split.
    + apply queue_inv; [by apply cancel_armed|done|done|]. cbn. destruct (cb_in_flight (st_bus s)); lia.
    + pose proof (ck_cancel_law (st_loop s) (cb_timed_event_id (st_bus s)) I1) as Hc. cbn [st_loop].
      destruct (ck_cancel _ _). apply Hc.
  - split; [|done]. by apply queue_inv.
Qed.

Lemma submit_admits tx s : bus_ok s -> cb_mode (st_bus s) = DeliveryMode.timed -> cb_has_event_loop (st_bus s) = true ->
  cb_bitrate (st_bus s) <> 0 -> cf_fd (tx_frame tx) = false -> queuedTransmissions (st_bus s) < cb_queue_capacity (st_bus s) ->
  submit tx s = (scheduleArbitration ≫= fun _ => mret (inl tt)) (admitted tx s).
Proof.
  intros Hs Hm Hl Hb Hf Hcap. unfold submit, the, gets, set_bus, modify, cancel_event, mbind, Op_bind. cbn [id]. rewrite Hm, Hl, Hf.
  assert (0 <= queuedTransmissions (st_bus s)) by (unfold queuedTransmissions; destruct (cb_in_flight (st_bus s)); lia).
  change (bool_decide (DeliveryMode.timed = DeliveryMode.immediate)) with false. cbn [negb].
  destruct (Z.eqb_spec (cb_bitrate (st_bus s)) 0); [done|]. destruct (Z.eqb_spec (cb_queue_capacity (st_bus s)) 0); [lia|].
  destruct (Z.leb_spec (cb_queue_capacity (st_bus s)) (queuedTransmissions (st_bus s))); [lia|]. cbn [orb].
  unfold admitted, rested. pose proof (bi_courier _ _ Hs) as Hc. unfold courier_ok in Hc. case_bool_decide as Hst; [|done].
  rewrite Hst in Hc. destruct Hc as [Hc _]. cbn [st_bus st_loop modify skip]. by rewrite Hc.
Qed.

Lemma submit_keeps tx : validate (tx_frame tx) = inl tt -> 0 <= cf_dlc (tx_frame tx) -> 0 <= cf_id (tx_frame tx) ->
  0 <= tx_requested_ns tx <= max_u64 -> keeps (submit tx).
Proof.
  intros Hv Hd Hid Hr s a s' Hs E.
  destruct (decide (cb_mode (st_bus s) = DeliveryMode.timed /\ cb_has_event_loop (st_bus s) = true /\ cb_bitrate (st_bus s) <> 0
    /\ cf_fd (tx_frame tx) = false /\ queuedTransmissions (st_bus s) < cb_queue_capacity (st_bus s))) as [(H1 & H2 & H3 & H4 & H5)|Hno].
  { rewrite submit_admits in E by done. destruct (admitted_ok tx s Hs ltac:(by constructor) H5) as [Hs1 _].
    destruct (wakes_return _ (inl tt : Result unit) scheduleArbitration_wakes _ a s' Hs1 E). auto. }
  apply bind_inv in E as (b & s1 & [= <- <-] & E). cbn [id] in E.
  destruct (bool_decide _) eqn:Em; [by apply (submit_immediate_keeps tx s a)|].
  destruct (cb_has_event_loop (st_bus s)) eqn:El; [|by injection E as _ <-]. cbn [negb] in E.
  destruct (Z.eqb_spec (cb_bitrate (st_bus s)) 0); [by eapply reject_keeps|].
  destruct (cf_fd (tx_frame tx)) eqn:Efd; [by eapply reject_keeps|].
  destruct (_ || _) eqn:Ecap; [by eapply reject_keeps|]. apply orb_false_iff in Ecap as [_ Ecap%Z.leb_gt].
  destruct Hno. split_and!; try done. destruct (cb_mode (st_bus s)); [by apply bool_decide_eq_false in Em|done].
Qed.

Lemma cancel_now_wakes sender : wakes (cancel_now sender).
Proof.
  intros s [] s' Hs E. apply bind_inv in E as ([] & s1 & [= <-] & E). pose proof Hs as [I1 I2 I3 I4 I5 I6 I7 I8 I9 I10].
  cbn [st_bus st_loop st_scope st_world] in E. apply bind_inv in E as (b & s1 & [= <- <-] & E). cbn [id] in E.
  set (pending := filter _ _) in E.
  assert (Forall tx_ok pending) as Hq by (apply Forall_forall; intros x [_ Hx]%list_elem_of_filter; by eapply Forall_forall in I5).
  assert (length pending <= length (cb_pending (st_bus s)))%nat as Hlen by (apply length_filter).
  assert (Z.of_nat (length pending) + (if cb_in_flight (st_bus s) is Some _ then 1 else 0)
    <= Z.max 0 (cb_queue_capacity (st_bus s))) as Hl by (unfold queuedTransmissions in I6; lia).
  apply bind_inv in E as ([] & s1 & E1 & E). apply (scheduleArbitration_wakes s1 tt s'); [|exact E]. clear E.
  cbn [cb_timed_state cb_in_flight cb_timed_event_id cb_has_event_loop cb_next_start_ns] in E1.
  destruct (cb_timed_state (st_bus s)) eqn:Est.
  - injection E1 as <-. pose proof (queue_inv _ _ pending (cb_next_transmission_sequence (st_bus s)) Hs ltac:(congruence) Hq Hl) as Iq.
    rewrite Est in Iq. exact Iq.
  - rewrite (I10 ltac:(congruence)) in E1. apply bind_inv in E1 as ([] & s2 & [= <-] & [= <-]).
    unfold courier_ok in I2. rewrite Est in I2. destruct I2 as [I2 _]. pose proof (cancel_armed _ _ Hs) as Ic. cbn zeta in Ic.
    pose proof (queue_inv _ _ pending (cb_next_transmission_sequence (st_bus s)) Ic) as Iq.
    unfold bus_ok, rested in *. cbn in *. rewrite I2, (I10 ltac:(congruence)) in *. apply Iq; done.
  - unfold courier_ok in I2. rewrite Est in I2. destruct I2 as (tx & t & I2 & Htx & Hev & Ht).
    case_bool_decide as Hown.
    + assert (cb_timed_event_id (st_bus s) <> 0) as Hne by (intros E0; rewrite E0, I4 in Hev; done).
      rewrite (I10 ltac:(congruence)) in E1. destruct (Z.eqb_spec (cb_timed_event_id (st_bus s)) 0) as [|_]; [done|]. cbn [andb negb] in E1.
      apply bind_inv in E1 as ([] & s2 & [= <-] & E1). apply bind_inv in E1 as (current & s2 & [= <- <-] & [= <-]).
      pose proof (cancel_armed _ _ Hs) as Ic. cbn zeta in Ic.
      pose proof (ck_cancel_law (st_loop s) (cb_timed_event_id (st_bus s)) I1) as Hc.
      destruct (ck_cancel (cb_timed_event_id (st_bus s)) (st_loop s)) as [r l1]. destruct Hc as (Hok1 & _ & _ & _ & _). cbn [snd] in Ic |- *.
      destruct Ic as [J1 J2 J3 J4 J5 J6 J7 J8 J9 J10]. constructor; try done; cbn.
      * unfold queuedTransmissions. cbn. rewrite I2 in Hl. lia.
      * intros Hb. destruct (I8 Hb). done.
      * exact (ck_now_range _ _ Hok1).
    + injection E1 as <-. pose proof (queue_inv _ _ pending (cb_next_transmission_sequence (st_bus s)) Hs ltac:(congruence) Hq Hl) as Iq.
    rewrite Est in Iq. exact Iq.
Qed.

(** ** The public operations *)

Definition frame_range (frame : CanFrame) : Prop := 0 <= cf_dlc frame /\ 0 <= cf_id frame.

Lemma keeps_stage t r scope : keeps (stage t r scope).
Proof. intros s a s' Hs [= _ <-]. done. Qed.

Lemma send_keeps sender frame t completion : frame_range frame -> 0 <= t <= max_u64 -> keeps (send sender frame t completion).
Proof.
  intros [Hd Hi] Ht. unfold send. destruct (validate frame) as [[]|e] eqn:Ev; [|apply bus_keeps_ret].
  apply bus_keeps_bind; [apply bus_keeps_gets|]. intros [node|]; [|apply bus_keeps_ret].
  apply bus_keeps_bind; [apply bus_keeps_gets|]. intros [scope|]; [|by apply submit_keeps].
  apply bus_keeps_bind; [apply keeps_stage|]. intros _. apply bus_keeps_ret.
Qed.
Lemma inject_keeps frame t completion : frame_range frame -> 0 <= t <= max_u64 -> keeps (inject frame t completion).
Proof.
  intros [Hd Hi] Ht. unfold inject. destruct (validate frame) as [[]|e] eqn:Ev; [|apply bus_keeps_ret].
  apply bus_keeps_bind; [apply bus_keeps_gets|]. intros [scope|]; [|by apply submit_keeps].
  apply bus_keeps_bind; [apply keeps_stage|]. intros _. apply bus_keeps_ret.
Qed.
Lemma cancelSender_keeps sender : keeps (cancelSender sender).
Proof.
  apply bus_keeps_bind; [apply bus_keeps_gets|]. intros [scope|]; [|apply wakes_keeps, cancel_now_wakes].
  apply bus_keeps_bind; [apply bus_keeps_gets|]. intros t. apply keeps_stage.
Qed.
Lemma attach_keeps node loopback callback : keeps (attach node loopback callback).
Proof.
  apply bus_keeps_bind; [apply bus_keeps_gets|]. intros [scope|]; [apply bus_keeps_ret|]. apply keeps_if; [apply bus_keeps_ret|].
  destruct callback as [c|]; [|apply bus_keeps_ret]. apply bus_keeps_bind; [apply bus_keeps_gets|]. intros b.
  apply keeps_if; [apply bus_keeps_ret|]. apply bus_keeps_bind; [apply keeps_set_bus; intros; by repeat split|]. intros _. apply bus_keeps_ret.
Qed.
Lemma detach_keeps id : keeps (detach id).
Proof.
  apply bus_keeps_bind; [apply bus_keeps_gets|]. intros [scope|]; [apply keeps_skip|].
  apply bus_keeps_bind; [apply cancelSender_keeps|]. intros _. apply keeps_set_bus. intros. by repeat split.
Qed.

(** Staged commands were validated when they were staged. *)
Definition replay_ok (r : Replay (CB:=CB)) : Prop :=
  match r with
  | replay_send _ frame t _ _ | replay_inject frame t _ =>
      frame_range frame /\ validate frame = inl tt /\ 0 <= t <= max_u64
  | replay_cancel_sender _ => True
  end.
Lemma replay_submit_keeps tx : frame_range (tx_frame tx) -> validate (tx_frame tx) = inl tt ->
  0 <= tx_requested_ns tx <= max_u64 -> keeps (replay_submit tx).
Proof.
  intros [Hd Hi] Hv Ht. apply bus_keeps_bind; [by apply submit_keeps|]. intros result. apply bus_keeps_bind; [|intros _; apply bus_keeps_ret].
  destruct result; [apply keeps_skip|]. destruct (tx_completion tx); [apply complete_keeps|apply keeps_skip].
Qed.
Lemma replay_keeps r : replay_ok r -> keeps (replay r).
Proof.
  destruct r as [sender frame t name completion|frame t completion|sender]; cbn [replay replay_ok].
  - intros (Hf & Hv & Ht). apply bus_keeps_bind; [apply bus_keeps_gets|]. intros [node|]; [by apply replay_submit_keeps|].
    apply bus_keeps_bind; [|intros _; apply bus_keeps_ret]. destruct completion; [apply complete_keeps|apply keeps_skip].
  - intros (Hf & Hv & Ht). by apply replay_submit_keeps.
  - intros _. apply bus_keeps_bind; [apply cancelSender_keeps|]. intros _. apply bus_keeps_ret.
Qed.

(** ** Progress *)

Lemma arbitrate_starts (s : State) w tx : let start := Z.max (cb_next_start_ns (st_bus s)) (ck_now (st_loop s)) in
  cb_timed_state (st_bus s) = TimedState.idle -> cb_mode (st_bus s) = DeliveryMode.timed -> cb_has_event_loop (st_bus s) = true ->
  pick_winner (cb_pending (st_bus s)) start 0 (cb_pending (st_bus s)) None = Some (w, tx) ->
  arbitrate s = start_frame start w tx s.
Proof.
  intros start Hidle Hm Hl Ew. unfold arbitrate, the, now, gets, mbind, Op_bind. cbn [id]. rewrite Hidle, Hm, Hl.
  rewrite (bool_decide_eq_false_2 (cb_pending (st_bus s) = [])) by (intros E; by rewrite E in Ew).
  cbv beta. change (negb (bool_decide (DeliveryMode.timed = DeliveryMode.timed)) || false || negb true) with false.
  change (bool_decide (TimedState.idle = TimedState.in_flight)) with false. cbv iota beta. fold start. by rewrite Ew.
Qed.

(** Scheduling under the shared owner never asks for a time in its past. *)
Lemma scheduleArbitration_returns s : bus_ok s -> ck_room (st_loop s) -> ∃ s', scheduleArbitration s = (inl tt, s')
  /\ cb_pending (st_bus s') = cb_pending (st_bus s) /\ cb_in_flight (st_bus s') = cb_in_flight (st_bus s).
Proof.
  intros Hs Hroom. unfold scheduleArbitration, the, gets, mbind, Op_bind. destruct (cb_timed_state (st_bus s)); try (by eexists).
  destruct (negb _ || _ || _); [by eexists|]. unfold now, gets. cbn [id]. set (t := Z.max _ _).
  unfold use_owner, scoped, gets, modify, mbind, Op_bind, schedule_at. cbn [st_loop set_loop_owner].
  destruct (ck_set_owner_law (st_loop s) ck_shared_owner (bi_loop _ _ Hs)) as (Hok & _ & Ho & Hn & Hr).
  pose proof (head_bounds _ _ Hs). pose proof (bi_next_start _ _ Hs). pose proof (ck_now_range (st_loop s) (ck_owner (st_loop s)) (bi_loop _ _ Hs)).
  pose proof (ck_now_shared (st_loop s) (ck_owner (st_loop s)) (bi_loop _ _ Hs)) as Hsh.
  pose proof (ck_schedule_law _ t arbitrationEvent_cb Hok ltac:(unfold t, ck_now; lia)) as Hl.
  destruct (ck_schedule t arbitrationEvent_cb _) as [[id|e] l']; [by eexists|].
  destruct Hl as (_ & _ & _ & _ & []). split; [by apply Hr|]. unfold ck_now. rewrite Ho, Hn. unfold t, ck_now. lia.
Qed.
End invariant.
