(* ===== verification/MicroIr.v ===== *)
(** * The micro-JIT's intermediate representation (FilIR)

    Models [src/cpu/micro_jit_ir.cpp] and [include/fil/cpu/micro_jit_ir.hpp]: the lowering of a
    decoded instruction to one micro-operation, the block builder with its cost, and the
    reference interpreter.  A lowering result is a sum: the [out] parameter on success, the
    reason and detail of the refusal otherwise. *)

From S2P Require Import Prelude Instruction CpuState.
#[local] Open Scope Z_scope.
#[local] Open Scope fil_scope.

Module MicroOp.
Inductive t :=
  | nop | mov_imm | mov_reg | movw | movt | add_imm | sub_imm | cmp_imm | cmn_imm | cmp_reg
  | cmn_reg | tst_reg | add_reg | sub_reg | and_reg | orr_reg | eor_reg | bic_reg | add_shift
  | sub_shift | lsl | lsr | asr | ror | rrx | b | bl | b_cond | cbz | cbnz | extend | ubfx.
#[global] Instance eq_dec : EqDecision t.
Proof. solve_decision. Defined.
End MicroOp.

Module ExtendKind.
Inductive t := uxtb | uxth | sxtb | sxth.
End ExtendKind.

Module MicroLowerReason.
Inductive t :=
  | bad_condition | bad_size | bad_pc | unsupported_kind | bad_shape | bad_register
  | branch_not_terminal.
End MicroLowerReason.

Record MicroInst := mkMicroInst {
  mi_op : MicroOp.t;
  mi_rd : Z;
  mi_rn : Z;
  mi_rm : Z;
  mi_imm : Z;
  mi_condition : Condition.t;
  mi_shift : ShiftType.t;
  mi_shift_amount : Z;
  mi_set_flags : bool;
  mi_carry_valid : bool;
  mi_carry : bool;
  mi_shift_immediate : bool;
  mi_extend_kind : ExtendKind.t;
  mi_branch_offset : Z;
  mi_pc : Z;
  mi_size : Z;
}.

(** The value-initialised [MicroInst]. *)
Definition micro_inst_default : MicroInst :=
  {| mi_op := MicroOp.nop; mi_rd := 0; mi_rn := 0; mi_rm := 0; mi_imm := 0;
     mi_condition := Condition.al; mi_shift := ShiftType.lsl; mi_shift_amount := 0;
     mi_set_flags := false; mi_carry_valid := false; mi_carry := false;
     mi_shift_immediate := true; mi_extend_kind := ExtendKind.uxtb; mi_branch_offset := 0;
     mi_pc := 0; mi_size := 0 |}.

Record MicroSource := mkMicroSource {
  ms_decoded : DecodedInstruction;
  ms_pc : Z;
  ms_size : Z;
}.

Definition Lowered (A : Type) : Type := A + (MicroLowerReason.t * string).

Record MicroBlock := mkMicroBlock {
  mb_ops : list MicroInst;
  mb_ends_with_branch : bool;
  mb_entry_pc : Z;
}.
Definition max_ops : nat := 16.

Record MicroCpu := mkMicroCpu {
  mu_r : list Z;
  mu_lr : Z;
  mu_pc : Z;
  mu_xpsr : Z;
}.

(** ** Lowering *)

Definition is_form (f : OperandForm.t) (d : DecodedInstruction) : bool := bool_decide (di_form d = f).
Definition is_shift (t : ShiftType.t) (d : DecodedInstruction) : bool := bool_decide (di_shift_type d = t).

Definition immediateShape (d : DecodedInstruction) : bool :=
  is_form OperandForm.immediate d && (di_rm d =? 0) && (di_ra d =? 0)
  && (di_shift_amount d =? 0) && is_shift ShiftType.lsl d
  && negb (di_writeback d) && (di_register_list d =? 0) && negb (di_fp_double d).

Definition registerShape (d : DecodedInstruction) : bool :=
  is_form OperandForm.register_value d && (di_ra d =? 0) && (di_imm d =? 0)
  && (di_branch_offset d =? 0) && negb (di_writeback d) && (di_register_list d =? 0)
  && negb (di_immediate_carry_valid d) && negb (di_immediate_carry d) && negb (di_fp_double d)
  && di_index d && di_add d.

Definition coreReg (reg : Z) : bool := reg <=? 12.

Definition decline {A} (reason : MicroLowerReason.t) (detail : string) : Lowered A :=
  inr (reason, detail).

(** [inst] with the fields set before the switch. *)
Definition micro_base (source : MicroSource) : MicroInst :=
  {| micro_inst_default with
     mi_pc := ms_pc source; mi_size := ms_size source;
     mi_set_flags := di_set_flags (ms_decoded source);
     mi_branch_offset := di_branch_offset (ms_decoded source) |}.

Definition no_carry (d : DecodedInstruction) : bool :=
  negb (di_immediate_carry_valid d) && negb (di_immediate_carry d).

Definition lower_nop (d : DecodedInstruction) (inst : MicroInst) : Lowered MicroInst :=
  if negb (is_form OperandForm.none d) || di_set_flags d || negb (di_rd d =? 0)
     || negb (di_rn d =? 0) || negb (di_rm d =? 0) || negb (di_imm d =? 0)
     || negb (di_branch_offset d =? 0)
  then decline MicroLowerReason.bad_shape "nop shape"
  else inl {| inst with mi_op := MicroOp.nop |}.

Definition lower_barrier (d : DecodedInstruction) (inst : MicroInst) : Lowered MicroInst :=
  if di_set_flags d || negb (di_branch_offset d =? 0) || di_writeback d
     || negb (di_register_list d =? 0) || di_fp_double d || di_immediate_carry_valid d
     || di_immediate_carry d
     || (negb (is_form OperandForm.immediate d) && negb (is_form OperandForm.none d))
  then decline MicroLowerReason.bad_shape "barrier shape"
  else inl {| inst with mi_op := MicroOp.nop |}.

Definition lower_mov (d : DecodedInstruction) (inst : MicroInst) : Lowered MicroInst :=
  if registerShape d && is_shift ShiftType.lsl d && (di_shift_amount d =? 0)
     && coreReg (di_rd d) && coreReg (di_rm d)
  then inl {| inst with mi_op := MicroOp.mov_reg; mi_rd := di_rd d; mi_rm := di_rm d |}
  else if negb (immediateShape d) || negb (coreReg (di_rd d)) then
    decline (if negb (coreReg (di_rd d)) then MicroLowerReason.bad_register
             else MicroLowerReason.bad_shape) "mov imm"
  else inl {| inst with mi_op := MicroOp.mov_imm; mi_rd := di_rd d; mi_imm := di_imm d;
                        mi_carry_valid := di_immediate_carry_valid d;
                        mi_carry := di_immediate_carry d |}.

Definition lower_movw_movt (op : MicroOp.t) (detail : string) (d : DecodedInstruction)
    (inst : MicroInst) : Lowered MicroInst :=
  if negb (immediateShape d) || negb (di_rn d =? 0) || (0xffff <? di_imm d) || di_set_flags d
     || di_immediate_carry_valid d || di_immediate_carry d || negb (coreReg (di_rd d))
  then decline MicroLowerReason.bad_shape detail
  else inl {| inst with mi_op := op; mi_rd := di_rd d; mi_imm := di_imm d |}.

Definition lower_add_sub (is_add : bool) (d : DecodedInstruction) (inst : MicroInst)
    : Lowered MicroInst :=
  if is_form OperandForm.immediate d then
    if negb (immediateShape d) || negb (coreReg (di_rd d)) || negb (coreReg (di_rn d))
       || di_immediate_carry_valid d || di_immediate_carry d
    then decline MicroLowerReason.bad_shape "alu imm shape"
    else inl {| inst with mi_op := if is_add then MicroOp.add_imm else MicroOp.sub_imm;
                          mi_rd := di_rd d; mi_rn := di_rn d; mi_imm := di_imm d |}
  else if negb (registerShape d) || negb (coreReg (di_rd d)) || negb (coreReg (di_rn d))
          || negb (coreReg (di_rm d))
  then decline MicroLowerReason.bad_shape "alu reg shape"
  else if (di_shift_amount d =? 0) && is_shift ShiftType.lsl d then
    inl {| inst with mi_op := if is_add then MicroOp.add_reg else MicroOp.sub_reg;
                     mi_rd := di_rd d; mi_rn := di_rn d; mi_rm := di_rm d |}
  else if is_shift ShiftType.rrx d && negb (di_shift_amount d =? 0) then
    decline MicroLowerReason.bad_shape "rrx amount must be 0/1"
  else inl {| inst with mi_op := if is_add then MicroOp.add_shift else MicroOp.sub_shift;
                        mi_shift := di_shift_type d; mi_shift_amount := di_shift_amount d;
                        mi_rd := di_rd d; mi_rn := di_rn d; mi_rm := di_rm d |}.

Definition lower_cmp_cmn (is_cmp : bool) (d : DecodedInstruction) (inst : MicroInst)
    : Lowered MicroInst :=
  if is_form OperandForm.register_value d then
    if negb (registerShape d) || negb (coreReg (di_rn d)) || negb (coreReg (di_rm d))
       || negb (di_set_flags d)
    then decline MicroLowerReason.bad_shape "cmp/cmn reg shape"
    else inl {| inst with mi_op := if is_cmp then MicroOp.cmp_reg else MicroOp.cmn_reg;
                          mi_rn := di_rn d; mi_rm := di_rm d;
                          mi_shift := di_shift_type d; mi_shift_amount := di_shift_amount d |}
  else if negb (immediateShape d) || negb (coreReg (di_rn d)) || negb (di_set_flags d)
          || di_immediate_carry_valid d || di_immediate_carry d
  then decline MicroLowerReason.bad_shape "cmp/cmn shape"
  else inl {| inst with mi_op := if is_cmp then MicroOp.cmp_imm else MicroOp.cmn_imm;
                        mi_rd := di_rd d; mi_rn := di_rn d; mi_imm := di_imm d |}.

Definition lower_tst (d : DecodedInstruction) (inst : MicroInst) : Lowered MicroInst :=
  if negb (registerShape d) || negb (coreReg (di_rn d)) || negb (coreReg (di_rm d))
     || negb (di_set_flags d) || negb (is_shift ShiftType.lsl d) || negb (di_shift_amount d =? 0)
  then decline MicroLowerReason.bad_shape "tst reg shape"
  else inl {| inst with mi_op := MicroOp.tst_reg; mi_rn := di_rn d; mi_rm := di_rm d |}.

Definition lower_logical (op : MicroOp.t) (d : DecodedInstruction) (inst : MicroInst)
    : Lowered MicroInst :=
  if negb (registerShape d) || negb (di_shift_amount d =? 0) || negb (is_shift ShiftType.lsl d)
     || negb (coreReg (di_rd d)) || negb (coreReg (di_rn d)) || negb (coreReg (di_rm d))
  then decline MicroLowerReason.bad_shape "logical shape"
  else inl {| inst with mi_op := op; mi_rd := di_rd d; mi_rn := di_rn d; mi_rm := di_rm d |}.

Definition shift_op (kind : InstrKind.t) : MicroOp.t :=
  match kind with
  | InstrKind.lsl => MicroOp.lsl
  | InstrKind.lsr => MicroOp.lsr
  | InstrKind.asr => MicroOp.asr
  | InstrKind.ror => MicroOp.ror
  | _ => MicroOp.rrx
  end.

Definition lower_shift (d : DecodedInstruction) (inst : MicroInst) : Lowered MicroInst :=
  let immediate := is_form OperandForm.immediate d in
  let lowered :=
    inl {| inst with mi_op := shift_op (di_kind d); mi_rd := di_rd d; mi_rn := di_rn d;
                     mi_rm := di_rm d; mi_shift_amount := di_shift_amount d;
                     mi_shift := di_shift_type d; mi_shift_immediate := immediate;
                     mi_imm := di_imm d |} in
  if immediate then
    if negb (coreReg (di_rd d)) || negb (coreReg (di_rm d))
    then decline MicroLowerReason.bad_register "shift reg"
    else lowered
  else if negb (is_form OperandForm.register_value d) || negb (coreReg (di_rd d))
          || negb (coreReg (di_rn d)) || negb (coreReg (di_rm d))
  then decline MicroLowerReason.bad_shape "shift reg form"
  else if bool_decide (di_kind d = InstrKind.rrx)
  then decline MicroLowerReason.bad_shape "register rrx"
  else lowered.

Definition lower_branch (d : DecodedInstruction) (inst : MicroInst) : Lowered MicroInst :=
  if (negb (is_form OperandForm.none d) && negb (is_form OperandForm.immediate d))
     || di_set_flags d || negb (di_rd d =? 0) || negb (di_rn d =? 0) || negb (di_rm d =? 0)
     || negb (di_imm d =? 0) || di_immediate_carry_valid d || di_immediate_carry d
  then decline MicroLowerReason.bad_shape "branch shape"
  else
    let is_b := bool_decide (di_kind d = InstrKind.b) in
    let op := if is_b && negb (bool_decide (di_condition d = Condition.al)) then MicroOp.b_cond
              else if is_b then MicroOp.b else MicroOp.bl in
    if bool_decide (op = MicroOp.b_cond) && bool_decide (di_condition d = Condition.nv)
    then decline MicroLowerReason.bad_condition "NV branch"
    else inl {| inst with mi_op := op; mi_condition := di_condition d |}.

Definition lower_cbz (op : MicroOp.t) (d : DecodedInstruction) (inst : MicroInst)
    : Lowered MicroInst :=
  if negb (is_form OperandForm.immediate d) || negb (bool_decide (di_condition d = Condition.al))
     || di_set_flags d || negb (coreReg (di_rn d)) || negb (di_branch_offset d =? 0)
  then decline MicroLowerReason.bad_shape "cbz shape"
  else inl {| inst with mi_op := op; mi_rn := di_rn d; mi_imm := di_imm d |}.

Definition lower_extend (kind : ExtendKind.t) (d : DecodedInstruction) (inst : MicroInst)
    : Lowered MicroInst :=
  if negb (coreReg (di_rd d)) || negb (coreReg (di_rm d)) || negb (di_imm d =? 0)
     || negb (di_ra d =? 0) || negb (di_register_list d =? 0) || di_writeback d || di_fp_double d
     || negb (di_branch_offset d =? 0) || di_immediate_carry_valid d || di_immediate_carry d
     || (negb (di_shift_amount d =? 0) && negb (is_shift ShiftType.ror d))
  then decline MicroLowerReason.bad_shape "extend shape"
  else inl {| inst with mi_op := MicroOp.extend; mi_rd := di_rd d; mi_rm := di_rm d;
                        mi_imm := di_shift_amount d; mi_extend_kind := kind |}.

Definition lower_ubfx (d : DecodedInstruction) (inst : MicroInst) : Lowered MicroInst :=
  if negb (coreReg (di_rd d)) || negb (coreReg (di_rn d)) || (di_imm d =? 0) || (32 <? di_imm d)
     || (32 <? u32 (di_shift_amount d + di_imm d)) || negb (di_ra d =? 0) || negb (di_rm d =? 0)
     || negb (di_register_list d =? 0) || di_writeback d || di_fp_double d
     || negb (di_branch_offset d =? 0) || di_immediate_carry_valid d || di_immediate_carry d
  then decline MicroLowerReason.bad_shape "ubfx shape"
  else inl {| inst with mi_op := MicroOp.ubfx; mi_rd := di_rd d; mi_rn := di_rn d;
                        mi_shift_amount := u8 (di_shift_amount d); mi_imm := di_imm d |}.

Definition lower_switch (d : DecodedInstruction) (inst : MicroInst) : Lowered MicroInst :=
  match di_kind d with
  | InstrKind.nop => lower_nop d inst
  | InstrKind.dmb | InstrKind.dsb | InstrKind.isb => lower_barrier d inst
  | InstrKind.mov => lower_mov d inst
  | InstrKind.movw => lower_movw_movt MicroOp.movw "movw shape" d inst
  | InstrKind.movt => lower_movw_movt MicroOp.movt "movt shape" d inst
  | InstrKind.add => lower_add_sub true d inst
  | InstrKind.sub => lower_add_sub false d inst
  | InstrKind.cmp => lower_cmp_cmn true d inst
  | InstrKind.cmn => lower_cmp_cmn false d inst
  | InstrKind.tst => lower_tst d inst
  | InstrKind.and_ => lower_logical MicroOp.and_reg d inst
  | InstrKind.orr => lower_logical MicroOp.orr_reg d inst
  | InstrKind.eor => lower_logical MicroOp.eor_reg d inst
  | InstrKind.bic => lower_logical MicroOp.bic_reg d inst
  | InstrKind.lsl | InstrKind.lsr | InstrKind.asr | InstrKind.ror | InstrKind.rrx =>
      lower_shift d inst
  | InstrKind.b | InstrKind.bl => lower_branch d inst
  | InstrKind.cbz => lower_cbz MicroOp.cbz d inst
  | InstrKind.cbnz => lower_cbz MicroOp.cbnz d inst
  | InstrKind.uxtb => lower_extend ExtendKind.uxtb d inst
  | InstrKind.uxth => lower_extend ExtendKind.uxth d inst
  | InstrKind.sxtb => lower_extend ExtendKind.sxtb d inst
  | InstrKind.sxth => lower_extend ExtendKind.sxth d inst
  | InstrKind.ubfx => lower_ubfx d inst
  | _ => decline MicroLowerReason.unsupported_kind "kind not in FilIR subset"
  end.

Definition is_branch_kind (kind : InstrKind.t) : bool :=
  match kind with
  | InstrKind.b | InstrKind.bl | InstrKind.cbz | InstrKind.cbnz => true
  | _ => false
  end.

Definition tryLowerMicroInst (source : MicroSource) : Lowered MicroInst :=
  let d := ms_decoded source in
  let inst := micro_base source in
  if negb (bool_decide (di_condition d = Condition.al)) && negb (is_branch_kind (di_kind d))
  then decline MicroLowerReason.bad_condition "only AL is lowered"
  else if negb (ms_size source =? 2) && negb (ms_size source =? 4)
  then decline MicroLowerReason.bad_size "width must be 2 or 4"
  else if negb (Bool.eqb (di_is_32bit d) (ms_size source =? 4))
  then decline MicroLowerReason.bad_size "is_32bit disagrees with width"
  else if has (ms_pc source) 1
  then decline MicroLowerReason.bad_pc "thumb pc must be even"
  else lower_switch d inst.

(** ** Blocks *)

Definition is_terminal (op : MicroOp.t) : bool :=
  match op with MicroOp.b | MicroOp.bl => true | _ => false end.

(** The loop of [buildMicroBlock] over the sources that are left. *)
Fixpoint build_ops (sources : list MicroSource) (block : MicroBlock) : Lowered MicroBlock :=
  match sources with
  | [] => inl block
  | source :: rest =>
      match tryLowerMicroInst source with
      | inr declined => inr declined
      | inl inst =>
          let terminal := is_terminal (mi_op inst) in
          if terminal && negb (bool_decide (rest = []))
          then decline MicroLowerReason.branch_not_terminal "branch must terminate"
          else build_ops rest
            {| block with mb_ends_with_branch := terminal || mb_ends_with_branch block;
                          mb_ops := mb_ops block ++ [inst] |}
      end
  end.

Definition buildMicroBlock (sources : list MicroSource) : Lowered MicroBlock :=
  match sources with
  | [] => decline MicroLowerReason.bad_shape "empty block"
  | first :: _ =>
      if (max_ops <? length sources)%nat
      then decline MicroLowerReason.bad_shape "block exceeds 16 ops"
      else build_ops sources (mkMicroBlock [] false (ms_pc first))
  end.

Definition microBlockCost (block : MicroBlock) : Z :=
  foldl (fun cost op => u64 (cost + (if is_terminal (mi_op op) then 2 else 1))) 0 (mb_ops block).

(** ** The reference interpreter *)

Definition kFlagN : Z := 1 .<< 31.
Definition kFlagZ : Z := 1 .<< 30.
Definition kFlagC : Z := 1 .<< 29.
Definition kFlagV : Z := 1 .<< 28.

Definition set_mu_xpsr (x : Z) (cpu : MicroCpu) : MicroCpu := {| cpu with mu_xpsr := x |}.
Definition set_mu_pc (x : Z) (cpu : MicroCpu) : MicroCpu := {| cpu with mu_pc := x |}.

Definition applyNzcv (r : AddResult) (cpu : MicroCpu) : MicroCpu :=
  let x := mu_xpsr cpu .& not32 (kFlagN .| kFlagZ .| kFlagC .| kFlagV) in
  let x := if ar_n r then x .| kFlagN else x in
  let x := if ar_z r then x .| kFlagZ else x in
  let x := if ar_c r then x .| kFlagC else x in
  let x := if ar_v r then x .| kFlagV else x in
  set_mu_xpsr x cpu.

Definition applyNz (value : Z) (cpu : MicroCpu) : MicroCpu :=
  let x := mu_xpsr cpu .& not32 (kFlagN .| kFlagZ) in
  let x := if has value kFlagN then x .| kFlagN else x in
  let x := if value =? 0 then x .| kFlagZ else x in
  set_mu_xpsr x cpu.

(** [if (c) xpsr |= kFlagC; else xpsr &= ~kFlagC]. *)
Definition set_carry (c : bool) (cpu : MicroCpu) : MicroCpu :=
  set_mu_xpsr (if c then mu_xpsr cpu .| kFlagC else mu_xpsr cpu .& not32 kFlagC) cpu.

Definition readOp (cpu : MicroCpu) (reg : Z) : Z :=
  if reg =? 14 then mu_lr cpu else rget (mu_r cpu) reg.
Definition writeOp (reg value : Z) (cpu : MicroCpu) : MicroCpu :=
  if reg =? 14 then {| cpu with mu_lr := value |}
  else {| cpu with mu_r := rset (mu_r cpu) reg value |}.

Definition flags_if (b : bool) (f : MicroCpu -> MicroCpu) (cpu : MicroCpu) : MicroCpu :=
  if b then f cpu else cpu.

Definition old_carry (cpu : MicroCpu) : bool := has (mu_xpsr cpu) kFlagC.

Definition micro_extend (op : MicroInst) (source : Z) : Z :=
  let rotated := if mi_imm op =? 0 then source else rotr32 source (mi_imm op mod 32) in
  let byte := match mi_extend_kind op with ExtendKind.uxtb | ExtendKind.sxtb => true | _ => false end in
  let sign := match mi_extend_kind op with ExtendKind.sxtb | ExtendKind.sxth => true | _ => false end in
  let value := if byte then rotated .& 0xff else rotated .& 0xffff in
  let sign_bit := if byte then 0x80 else 0x8000 in
  if sign && has value sign_bit
  then value .| (if byte then 0xffffff00 else 0xffff0000) else value.

Definition micro_logic (op : MicroOp.t) (lhs rhs : Z) : Z :=
  match op with
  | MicroOp.and_reg => lhs .& rhs
  | MicroOp.orr_reg => lhs .| rhs
  | MicroOp.eor_reg => lhs .^ rhs
  | _ => lhs .& not32 rhs
  end.

(** The type and amount of the shift opcodes. *)
Definition micro_shift_type (op : MicroOp.t) : ShiftType.t :=
  match op with
  | MicroOp.lsl => ShiftType.lsl
  | MicroOp.lsr => ShiftType.lsr
  | MicroOp.asr => ShiftType.asr
  | MicroOp.ror => ShiftType.ror
  | _ => ShiftType.rrx
  end.
Definition micro_shift_amount (op : MicroInst) (cpu : MicroCpu) : Z :=
  let amount := match mi_op op with
                | MicroOp.lsl | MicroOp.lsr | MicroOp.asr | MicroOp.ror => mi_shift_amount op
                | _ => 1
                end in
  if mi_shift_immediate op then amount else readOp cpu (mi_rm op) .& 0xff.

(** [writeOp(rd, r.value); if (set_flags) applyNzcv(r)]. *)
Definition write_add (op : MicroInst) (r : AddResult) (cpu : MicroCpu) : MicroCpu :=
  flags_if (mi_set_flags op) (applyNzcv r) (writeOp (mi_rd op) (ar_value r) cpu).

(** The cases of the switch that [break]. *)
Definition micro_alu (op : MicroInst) (cpu : MicroCpu) : MicroCpu :=
  let old_c := old_carry cpu in
  let rn := readOp cpu (mi_rn op) in
  let rm := readOp cpu (mi_rm op) in
  let shifted := shiftC rm (mi_shift op) (mi_shift_amount op) old_c in
  match mi_op op with
  | MicroOp.mov_imm =>
      flags_if (mi_set_flags op)
        (fun cpu => let cpu := applyNz (mi_imm op) cpu in
                    let x := mu_xpsr cpu .& not32 kFlagC in
                    let c := if mi_carry_valid op then mi_carry op else old_c in
                    set_mu_xpsr (if c then x .| kFlagC else x) cpu)
        (writeOp (mi_rd op) (mi_imm op) cpu)
  | MicroOp.mov_reg => flags_if (mi_set_flags op) (applyNz rm) (writeOp (mi_rd op) rm cpu)
  | MicroOp.movw => writeOp (mi_rd op) (mi_imm op .& 0xffff) cpu
  | MicroOp.movt =>
      writeOp (mi_rd op)
        (readOp cpu (mi_rd op) .& 0xffff .| u32 ((mi_imm op .& 0xffff) .<< 16)) cpu
  | MicroOp.add_imm => write_add op (addWithCarry rn (mi_imm op) false) cpu
  | MicroOp.sub_imm => write_add op (addWithCarry rn (not32 (mi_imm op)) true) cpu
  | MicroOp.cmp_imm => applyNzcv (addWithCarry rn (not32 (mi_imm op)) true) cpu
  | MicroOp.cmn_imm => applyNzcv (addWithCarry rn (mi_imm op) false) cpu
  | MicroOp.cmp_reg => applyNzcv (addWithCarry rn (not32 (sr_value shifted)) true) cpu
  | MicroOp.cmn_reg => applyNzcv (addWithCarry rn (sr_value shifted) false) cpu
  | MicroOp.extend => writeOp (mi_rd op) (micro_extend op rm) cpu
  | MicroOp.ubfx =>
      let width := mi_imm op in
      let mask := if width =? 32 then 0xffffffff else u32 (u32 (1 .<< width) - 1) in
      writeOp (mi_rd op) (rn .>> mi_shift_amount op .& mask) cpu
  | MicroOp.tst_reg => applyNz (rn .& rm) cpu
  | MicroOp.add_reg => write_add op (addWithCarry rn rm false) cpu
  | MicroOp.sub_reg => write_add op (addWithCarry rn (not32 rm) true) cpu
  | MicroOp.and_reg | MicroOp.orr_reg | MicroOp.eor_reg | MicroOp.bic_reg =>
      let v := micro_logic (mi_op op) rn rm in
      flags_if (mi_set_flags op) (applyNz v) (writeOp (mi_rd op) v cpu)
  | MicroOp.add_shift => write_add op (addWithCarry rn (sr_value shifted) false) cpu
  | MicroOp.sub_shift => write_add op (addWithCarry rn (not32 (sr_value shifted)) true) cpu
  | MicroOp.lsl | MicroOp.lsr | MicroOp.asr | MicroOp.ror | MicroOp.rrx =>
      let value := if mi_shift_immediate op then rm else rn in
      let s := shiftC value (micro_shift_type (mi_op op)) (micro_shift_amount op cpu) old_c in
      flags_if (mi_set_flags op) (fun cpu => set_carry (sr_carry s) (applyNz (sr_value s) cpu))
        (writeOp (mi_rd op) (sr_value s) cpu)
  | _ => cpu
  end.

Definition micro_target (op : MicroInst) (offset : Z) : Z :=
  u32 (mi_pc op + 4 + offset) .& not32 1.
Definition micro_next (op : MicroInst) : Z := u32 (mi_pc op + mi_size op).

(** One iteration of the loop, [true] when the case returns from the interpreter. *)
Definition micro_op (op : MicroInst) (cpu : MicroCpu) : MicroCpu * bool :=
  let conditional (take : bool) (offset : Z) :=
    if take then (set_mu_pc (micro_target op offset) cpu, true)
    else (set_mu_pc (micro_next op) cpu, false) in
  match mi_op op with
  | MicroOp.b_cond => conditional (conditionPasses (mi_condition op) (mu_xpsr cpu)) (mi_branch_offset op)
  | MicroOp.cbz => conditional (readOp cpu (mi_rn op) =? 0) (mi_imm op)
  | MicroOp.cbnz => conditional (negb (readOp cpu (mi_rn op) =? 0)) (mi_imm op)
  | MicroOp.b => (set_mu_pc (micro_target op (mi_branch_offset op)) cpu, true)
  | MicroOp.bl =>
      (set_mu_pc (micro_target op (mi_branch_offset op)) {| cpu with mu_lr := micro_next op .| 1 |}, true)
  | _ => (set_mu_pc (micro_next op) (micro_alu op cpu), false)
  end.

Fixpoint interpret_loop (ops : list MicroInst) (max_instructions retired : nat) (cpu : MicroCpu)
    : nat * MicroCpu :=
  match ops with
  | [] => (retired, cpu)
  | op :: rest =>
      if (max_instructions <=? retired)%nat then (retired, cpu)
      else
        match micro_op op cpu with
        | (cpu, true) => (S retired, cpu)
        | (cpu, false) => interpret_loop rest max_instructions (S retired) cpu
        end
  end.

Definition interpretMicroOps (ops : list MicroInst) (max_instructions : nat) (cpu : MicroCpu)
    : nat * MicroCpu :=
  if (max_instructions =? 0)%nat then (0%nat, cpu) else interpret_loop ops max_instructions 0 cpu.

Definition interpretMicroBlock (block : MicroBlock) (max_instructions : nat) (cpu : MicroCpu)
    : nat * MicroCpu :=
  interpretMicroOps (mb_ops block) max_instructions cpu.
