(* ===== verification/MicroIrProofs.v ===== *)
(** * Lowered instructions behave as the executor

    [inject] embeds the interpreter's register file into a processor state.  Under it the
    lowering is a simulation: a micro-operation does what [execute] does to the instruction it
    was lowered from, and a block does what the stepper does instruction by instruction. *)

From S2P Require Import Prelude Address Instruction InstructionProofs DecoderProofs.
From S2P Require Import CpuState CpuStateProofs MemoryApi Machine Float32 Execute MicroIr.
From S2P Require Import ExecuteProofs.
#[local] Open Scope Z_scope.
#[local] Open Scope fil_scope.

(** ** The embedding *)

Record micro_ok (mu : MicroCpu) : Prop := {
  mo_length : length (mu_r mu) = 13%nat;
  mo_r : Forall is_u32 (mu_r mu);
  mo_lr : is_u32 (mu_lr mu);
  mo_pc : is_u32 (mu_pc mu);
  mo_xpsr : is_u32 (mu_xpsr mu);
}.

Definition micro_of (st : CpuState) : MicroCpu :=
  mkMicroCpu (take 13 (cs_r st)) (reg st 14) (reg st 15) (cs_xpsr st).

Definition inject (mu : MicroCpu) (st : CpuState) : CpuState :=
  {| st with cs_r := mu_r mu ++ [reg st 13; mu_lr mu; mu_pc mu]; cs_xpsr := mu_xpsr mu |}.

Lemma inject_micro_of st : length (cs_r st) = 16%nat -> inject (micro_of st) st = st.
Proof.
  intros Hl. destruct st as [r]. unfold inject, micro_of, reg. cbn in Hl |- *.
  do 16 (destruct r as [|? r]; [done|]). by destruct r.
Qed.

Lemma micro_of_ok st : cpu_ok st -> micro_ok (micro_of st).
Proof.
  intros Hst. constructor; cbn [micro_of mu_r mu_lr mu_pc mu_xpsr].
  - rewrite length_take. rewrite (ok_r_length _ Hst). done.
  - apply Forall_take, Hst.
  - by apply reg_range.
  - by apply reg_range.
  - apply Hst.
Qed.

Section embedding.
Context (mu : MicroCpu) (Hlen : length (mu_r mu) = 13%nat) (s : CpuState).

Lemma reg_inject i : 0 <= i <= 12 -> reg (inject mu s) i = readOp mu i.
Proof.
  intros Hi. unfold readOp. destruct (Z.eqb_spec i 14); [lia|].
  unfold reg, rget, inject. cbn [cs_r]. by rewrite lookup_app_l by lia.
Qed.
Lemma readRegister_inject i : 0 <= i <= 12 -> readRegister (inject mu s) i = readOp mu i.
Proof.
  intros Hi. unfold readRegister. destruct (Z.eqb_spec i 13); [lia|]. destruct (Z.eqb_spec i 15); [lia|].
  destruct (Z.ltb_spec i 16); [by apply reg_inject|lia].
Qed.
Lemma reg15_inject : reg (inject mu s) 15 = mu_pc mu.
Proof. unfold reg, rget, inject. cbn [cs_r]. rewrite lookup_app_r by lia. by rewrite Hlen. Qed.
Lemma set_reg_inject i v : 0 <= i <= 12 -> set_reg i v (inject mu s) = inject (writeOp i v mu) s.
Proof.
  intros Hi. unfold writeOp. destruct (Z.eqb_spec i 14); [lia|].
  unfold set_reg, rset, inject. cbn [cs_r mu_r mu_lr mu_pc mu_xpsr]. by rewrite insert_app_l by lia.
Qed.
Lemma writeRegister_inject i v : 0 <= i <= 12 -> writeRegister i v (inject mu s) = inject (writeOp i v mu) s.
Proof.
  intros Hi. unfold writeRegister. destruct (Z.leb_spec 16 i); [lia|]. destruct (Z.eqb_spec i 13); [lia|].
  by apply set_reg_inject.
Qed.
Lemma set_pc_inject v : set_reg 15 v (inject mu s) = inject (set_mu_pc v mu) s.
Proof.
  unfold set_reg, rset, inject. cbn [cs_r mu_r mu_lr mu_pc mu_xpsr set_mu_pc].
  rewrite insert_app_r_alt by lia. by rewrite Hlen.
Qed.
Lemma set_lr_inject v : set_reg 14 v (inject mu s) = inject {| mu with mu_lr := v |} s.
Proof.
  unfold set_reg, rset, inject. cbn [cs_r mu_r mu_lr mu_pc mu_xpsr].
  rewrite insert_app_r_alt by lia. by rewrite Hlen.
Qed.
End embedding.

Lemma carryFlag_inject mu s : carryFlag (inject mu s) = old_carry mu.
Proof. done. Qed.
Lemma setNz_inject v mu s : setNz v (inject mu s) = inject (applyNz v mu) s.
Proof. done. Qed.
Lemma setNzcv_inject r mu s : setNzcv r (inject mu s) = inject (applyNzcv r mu) s.
Proof. done. Qed.

Lemma writeOp_length i v mu : length (mu_r (writeOp i v mu)) = length (mu_r mu).
Proof. unfold writeOp. case_match; [done|]. apply rset_length. Qed.

(** ** Flags *)

Lemma carry_set x : is_u32 x -> x .& not32 kFlagC .| kFlagC = x .| kFlagC.
Proof.
  intros Hx. apply Z.bits_inj'. intros i Hi. rewrite !Z.lor_spec, Z.land_spec.
  destruct (Z.lt_ge_cases i 32).
  - rewrite not32_testbit by lia. unfold kFlagC. rewrite Z.shiftl_1_l, Z.pow2_bits_eqb by lia.
    destruct (Z.eqb_spec 29 i); cbn; by rewrite ?orb_true_r, ?andb_true_r, ?orb_false_r.
  - rewrite (high_bits_clear 32 x i Hx) by lia. done.
Qed.
Lemma carry_kept x : is_u32 x -> (if has x kFlagC then x .& not32 kFlagC .| kFlagC else x .& not32 kFlagC) = x.
Proof.
  intros Hx. destruct (has x kFlagC) eqn:E; unfold kFlagC in E; rewrite Z.shiftl_1_l, has_pow2 in E by lia.
  - rewrite carry_set by done. apply Z.bits_inj'. intros i Hi. unfold kFlagC.
    rewrite Z.lor_spec, Z.shiftl_1_l, Z.pow2_bits_eqb by lia.
    destruct (Z.eqb_spec 29 i) as [<-|]; by rewrite ?E, ?orb_false_r.
  - apply Z.bits_inj'. intros i Hi. rewrite Z.land_spec. destruct (Z.lt_ge_cases i 32).
    + unfold kFlagC. rewrite not32_testbit, Z.shiftl_1_l, Z.pow2_bits_eqb by lia.
      destruct (Z.eqb_spec 29 i) as [<-|]; by rewrite ?E, ?andb_true_r.
    + by rewrite (high_bits_clear 32 x i Hx) by lia.
Qed.

Lemma applyNz_u32 v mu : is_u32 (mu_xpsr mu) -> is_u32 (mu_xpsr (applyNz v mu)).
Proof.
  intros Hx. unfold applyNz. cbn [mu_xpsr set_mu_xpsr].
  repeat case_match; repeat apply is_u32_lor; try (by apply is_u32_land_l); unfold is_u32; by vm_compute.
Qed.

(** N and Z do not overlap C. *)
Lemma applyNz_carry v mu : is_u32 (mu_xpsr mu) -> old_carry (applyNz v mu) = old_carry mu.
Proof.
  intros Hx. unfold old_carry, applyNz, kFlagC. cbn [mu_xpsr set_mu_xpsr].
  rewrite Z.shiftl_1_l, !has_pow2 by lia.
  repeat case_match; rewrite ?Z.lor_spec, Z.land_spec, not32_testbit by lia;
    cbn; by rewrite ?orb_false_r, ?andb_true_r.
Qed.

Lemma setNzc_inject v c mu s : is_u32 (mu_xpsr mu) ->
  setNzc v c (inject mu s) = inject (set_carry c (applyNz v mu)) s.
Proof.
  intros Hx. unfold setNzc. rewrite setNz_inject. cbv zeta. unfold set_carry.
  pose proof (applyNz_u32 v mu Hx) as Hz. set (nu := applyNz v mu) in *.
  change xpsr_c with kFlagC. unfold inject, set_xpsr. cbn [cs_xpsr mu_xpsr set_mu_xpsr].
  destruct c; [by rewrite carry_set|done].
Qed.
(** Setting C to its old value is no change. *)
Lemma setNzc_old_inject v mu s : is_u32 (mu_xpsr mu) ->
  setNzc v (old_carry mu) (inject mu s) = inject (applyNz v mu) s.
Proof.
  intros Hx. rewrite <- (applyNz_carry v mu Hx). rewrite setNzc_inject by done. f_equal.
  pose proof (applyNz_u32 v mu Hx) as Hz. set (nu := applyNz v mu) in *.
  pose proof (carry_kept _ Hz) as Hk. unfold set_carry, old_carry.
  rewrite <- (carry_set (mu_xpsr nu)) by done. destruct nu as [? ? ? x]. cbn in *. unfold set_mu_xpsr. cbn. by rewrite Hk.
Qed.

(** ** Operands *)

Ltac split_guards :=
  unfold immediateShape, registerShape, is_form, is_shift, coreReg in *;
  repeat match goal with
  | H : _ && _ = true |- _ => apply andb_prop in H as [? ?]
  | H : _ || _ = false |- _ => apply orb_false_iff in H as [? ?]
  | H : negb _ = true |- _ => apply negb_true_iff in H
  | H : negb _ = false |- _ => apply negb_false_iff in H
  | H : (_ =? _) = true |- _ => apply Z.eqb_eq in H
  | H : (_ =? _) = false |- _ => apply Z.eqb_neq in H
  | H : (_ <=? _) = true |- _ => apply Z.leb_le in H
  | H : (_ <? _) = false |- _ => apply Z.ltb_ge in H
  | H : bool_decide _ = true |- _ => apply bool_decide_eq_true in H
  | H : bool_decide _ = false |- _ => apply bool_decide_eq_false in H
  end.

Section operands.
Context (mu : MicroCpu) (Hlen : length (mu_r mu) = 13%nat) (s : CpuState) (d : DecodedInstruction).

Lemma operand_immediate : di_form d = OperandForm.immediate ->
  shiftedOperand d (inject mu s)
  = mkShiftResult (di_imm d) (if di_immediate_carry_valid d then di_immediate_carry d else old_carry mu).
Proof. intros Hf. unfold shiftedOperand, form_is_immediate. by rewrite Hf. Qed.
Lemma operand_register : di_form d = OperandForm.register_value -> 0 <= di_rm d <= 12 ->
  shiftedOperand d (inject mu s)
  = shiftC (readOp mu (di_rm d)) (di_shift_type d) (di_shift_amount d) (old_carry mu).
Proof.
  intros Hf Hr. unfold shiftedOperand, form_is_immediate, shiftedRm. rewrite Hf.
  by rewrite readRegister_inject, carryFlag_inject.
Qed.
Lemma operand_plain : di_form d = OperandForm.register_value -> 0 <= di_rm d <= 12 ->
  di_shift_type d = ShiftType.lsl -> di_shift_amount d = 0 ->
  shiftedOperand d (inject mu s) = mkShiftResult (readOp mu (di_rm d)) (old_carry mu).
Proof. intros Hf Hr Ht Ha. rewrite operand_register by done. by rewrite Ht, Ha. Qed.
End operands.

Lemma writeAluResult_inject mu s i v : length (mu_r mu) = 13%nat -> 0 <= i <= 12 ->
  writeAluResult i v (inject mu s) = inject (writeOp i v mu) s.
Proof.
  intros Hl Hi. unfold writeAluResult. destruct (Z.eqb_spec i 15); [lia|]. by apply writeRegister_inject.
Qed.

Lemma when_nzcv_inject b r mu s :
  when_flags b (setNzcv r) (inject mu s) = inject (flags_if b (applyNzcv r) mu) s.
Proof. by destruct b. Qed.
Lemma writeOp_xpsr i v mu : mu_xpsr (writeOp i v mu) = mu_xpsr mu.
Proof. unfold writeOp. by case_match. Qed.
Lemma writeOp_carry i v mu : old_carry (writeOp i v mu) = old_carry mu.
Proof. unfold old_carry. by rewrite writeOp_xpsr. Qed.
Lemma writeOp_pc i v mu : mu_pc (writeOp i v mu) = mu_pc mu.
Proof. unfold writeOp. by case_match. Qed.

(** The logical operations set N and Z and keep C. *)
Lemma when_nzc_old_inject b v i w mu s : is_u32 (mu_xpsr mu) ->
  when_flags b (setNzc v (old_carry mu)) (inject (writeOp i w mu) s)
  = inject (flags_if b (applyNz v) (writeOp i w mu)) s.
Proof.
  intros Hx. destruct b; [|done]. cbn [when_flags flags_if]. rewrite <- (writeOp_carry i w mu).
  apply setNzc_old_inject. by rewrite writeOp_xpsr.
Qed.
Lemma when_nzc_inject b v c i w mu s : is_u32 (mu_xpsr mu) ->
  when_flags b (setNzc v c) (inject (writeOp i w mu) s)
  = inject (flags_if b (fun cpu => set_carry c (applyNz v cpu)) (writeOp i w mu)) s.
Proof.
  intros Hx. destruct b; [|done]. cbn [when_flags flags_if]. apply setNzc_inject. by rewrite writeOp_xpsr.
Qed.

(** ** One lemma per case of the lowering *)

Ltac micro_fields :=
  cbn [mi_op mi_rd mi_rn mi_rm mi_imm mi_condition mi_shift mi_shift_amount mi_set_flags
       mi_carry_valid mi_carry mi_shift_immediate mi_extend_kind mi_branch_offset mi_pc mi_size
       micro_base micro_inst_default ms_decoded ms_pc ms_size sr_value sr_carry].

(** Opens [lower d inst = inl inst'], leaving the branches that lower. *)
Ltac lowered H :=
  cbv zeta in H;
  repeat match type of H with (if ?b then _ else _) = _ => destruct b eqn:? end;
  try discriminate H; injection H as <-; split_guards.

Section cases.
Context (d : DecodedInstruction) (pc size : Z) (mu : MicroCpu) (s : CpuState).
Context (Hop : op_ok d) (Hmu : micro_ok mu).
Let source := mkMicroSource d pc size.
Let Hlen : length (mu_r mu) = 13%nat := mo_length mu Hmu.
Let Hx : is_u32 (mu_xpsr mu) := mo_xpsr mu Hmu.
Let Hrd : 0 <= di_rd d := proj1 (opk_rd d Hop).
Let Hrn : 0 <= di_rn d := proj1 (opk_rn d Hop).
Let Hrm : 0 <= di_rm d := proj1 (opk_rm d Hop).

Lemma sim_mov inst : lower_mov d (micro_base source) = inl inst ->
  when_flags (di_set_flags d) (setNzc (sr_value (shiftedOperand d (inject mu s)))
      (sr_carry (shiftedOperand d (inject mu s))))
    (writeRegister (di_rd d) (sr_value (shiftedOperand d (inject mu s))) (inject mu s))
  = inject (micro_alu inst mu) s /\ di_rd d <= 12.
Proof.
  intros H. unfold lower_mov in H. lowered H; (split; [|lia]).
  - rewrite operand_plain by (done || lia). rewrite writeRegister_inject by (done || lia).
    unfold micro_alu. micro_fields. by apply when_nzc_old_inject.
  - rewrite operand_immediate by done. rewrite writeRegister_inject by (done || lia).
    unfold micro_alu. micro_fields. by destruct (di_set_flags d).
Qed.

Lemma sim_add_sub (is_add : bool) inst : di_kind d = (if is_add then InstrKind.add else InstrKind.sub) ->
  lower_add_sub is_add d (micro_base source) = inl inst ->
  alu_add_sub d (inject mu s) = inject (micro_alu inst mu) s.
Proof.
  intros Hk H. unfold lower_add_sub in H. unfold alu_add_sub, operand2.
  assert (∀ left right, addWithCarry left
      (if kind_eqb (di_kind d) InstrKind.sub || kind_eqb (di_kind d) InstrKind.sbc then not32 right else right)
      (if kind_eqb (di_kind d) InstrKind.adc then carryFlag (inject mu s)
       else if kind_eqb (di_kind d) InstrKind.sbc then carryFlag (inject mu s)
       else kind_eqb (di_kind d) InstrKind.sub || kind_eqb (di_kind d) InstrKind.sbc)
    = if is_add then addWithCarry left right false else addWithCarry left (not32 right) true) as Hadd
    by (intros; rewrite Hk; by destruct is_add).
  cbv zeta. rewrite Hadd. clear Hadd.
  lowered H; (rewrite (proj2 (Z.eqb_neq (di_rn d) 15)) by lia); cbn [andb];
    rewrite writeAluResult_inject, when_nzcv_inject, readRegister_inject by (done || lia);
    [rewrite operand_immediate by done|rewrite operand_plain by (done || lia)
    |rewrite operand_register by (done || lia)]; by destruct is_add.
Qed.

Lemma sim_movw inst : lower_movw_movt MicroOp.movw "movw shape" d (micro_base source) = inl inst ->
  writeRegister (di_rd d) (di_imm d) (inject mu s) = inject (micro_alu inst mu) s.
Proof.
  intros H. unfold lower_movw_movt in H. lowered H. rewrite writeRegister_inject by (done || lia).
  unfold micro_alu. micro_fields. rewrite <- (u16_land (di_imm d)), (u16_small (di_imm d)) by (pose proof (opk_imm d Hop); width_lia). done.
Qed.
Lemma sim_movt inst : lower_movw_movt MicroOp.movt "movt shape" d (micro_base source) = inl inst ->
  alu_movt d (inject mu s) = inject (micro_alu inst mu) s.
Proof.
  intros H. unfold lower_movw_movt in H. lowered H. unfold alu_movt.
  rewrite writeRegister_inject, readRegister_inject by (done || lia).
  unfold micro_alu. micro_fields. by rewrite <- (u16_land (di_imm d)), (u16_small (di_imm d)) by (pose proof (opk_imm d Hop); width_lia).
Qed.

Lemma sim_cmp_cmn (is_cmp : bool) inst : di_kind d = (if is_cmp then InstrKind.cmp else InstrKind.cmn) ->
  lower_cmp_cmn is_cmp d (micro_base source) = inl inst ->
  alu_cmp_cmn d (inject mu s) = inject (micro_alu inst mu) s.
Proof.
  intros Hk H. unfold lower_cmp_cmn in H. unfold alu_cmp_cmn, operand2. rewrite setNzcv_inject, Hk.
  lowered H; rewrite readRegister_inject by (done || lia);
    [rewrite operand_register by (done || lia)|rewrite operand_immediate by done]; by destruct is_cmp.
Qed.

Lemma sim_tst inst : lower_tst d (micro_base source) = inl inst ->
  alu_tst d (inject mu s) = inject (micro_alu inst mu) s.
Proof.
  intros H. unfold lower_tst in H. lowered H. unfold alu_tst.
  rewrite operand_plain, readRegister_inject by (done || lia). by apply setNzc_old_inject.
Qed.

Lemma sim_logical op inst :
  (∀ left right, logic_value (di_kind d) left right = micro_logic op left right) ->
  match op with MicroOp.and_reg | MicroOp.orr_reg | MicroOp.eor_reg | MicroOp.bic_reg => True | _ => False end ->
  lower_logical op d (micro_base source) = inl inst ->
  alu_logic d (inject mu s) = inject (micro_alu inst mu) s.
Proof.
  intros Hv Hk H. unfold lower_logical in H. lowered H. unfold alu_logic. cbv zeta.
  rewrite operand_plain, readRegister_inject, writeRegister_inject by (done || lia). cbn [sr_value sr_carry].
  rewrite Hv, when_nzc_old_inject by done. unfold micro_alu. micro_fields. by destruct op.
Qed.

Lemma sim_shift inst : is_shift_kind (di_kind d) = true -> lower_shift d (micro_base source) = inl inst ->
  alu_shift d (inject mu s) = inject (micro_alu inst mu) s.
Proof.
  intros Hk H. pose proof (opk_shift_kind d Hop Hk) as Ht. unfold lower_shift in H.
  unfold alu_shift, form_is_immediate. cbv zeta. rewrite Ht, carryFlag_inject.
  lowered H.
  - match goal with Hf : di_form d = _ |- _ => rewrite Hf end.
    rewrite readRegister_inject, writeRegister_inject, when_nzc_inject by (done || lia).
    unfold micro_alu, micro_shift_amount. micro_fields.
    by destruct (di_kind d).
  - match goal with Hf : di_form d = _ |- _ => rewrite Hf end.
    rewrite !readRegister_inject, writeRegister_inject, when_nzc_inject by (done || lia).
    unfold micro_alu, micro_shift_amount. micro_fields.
    by destruct (di_kind d).
Qed.

Lemma sim_extend kind inst : is_extend_kind (di_kind d) = true ->
  di_kind d = match kind with
              | ExtendKind.uxtb => InstrKind.uxtb | ExtendKind.uxth => InstrKind.uxth
              | ExtendKind.sxtb => InstrKind.sxtb | ExtendKind.sxth => InstrKind.sxth end ->
  lower_extend kind d (micro_base source) = inl inst ->
  alu_extend d (inject mu s) = inject (micro_alu inst mu) s.
Proof.
  intros He Hk H. pose proof (opk_extend d Hop He). pose proof (opk_shift d Hop).
  unfold lower_extend in H. lowered H. unfold alu_extend.
  rewrite readRegister_inject, writeRegister_inject by (done || lia). unfold micro_alu, micro_extend.
  micro_fields. rewrite Z.mod_small by lia. unfold rotr32. rewrite Hk.
  by destruct (Z.eqb_spec (di_shift_amount d) 0), kind.
Qed.

Lemma sim_ubfx inst : lower_ubfx d (micro_base source) = inl inst ->
  alu_ubfx d (inject mu s) = inject (micro_alu inst mu) s.
Proof.
  intros H. unfold lower_ubfx in H. lowered H. unfold alu_ubfx.
  rewrite readRegister_inject, writeRegister_inject by (done || lia). unfold micro_alu. micro_fields.
  by rewrite (u8_small (di_shift_amount d)) by (pose proof (opk_shift d Hop); width_lia).
Qed.
End cases.

(** ** The lowering is a simulation *)

Definition branches (op : MicroOp.t) : bool :=
  match op with
  | MicroOp.b | MicroOp.bl | MicroOp.b_cond | MicroOp.cbz | MicroOp.cbnz => true
  | _ => false
  end.

Lemma micro_alu_pc op mu : mu_pc (micro_alu op mu) = mu_pc mu.
Proof.
  unfold micro_alu, write_add, flags_if. cbv zeta.
  destruct (mi_op op); try done; try (destruct (mi_set_flags op));
    unfold set_carry, set_mu_xpsr, applyNz, applyNzcv; cbn [mu_pc set_mu_xpsr]; by rewrite ?writeOp_pc.
Qed.

Lemma micro_op_alu op mu : branches (mi_op op) = false -> mu_pc mu = micro_next op ->
  micro_op op mu = (micro_alu op mu, false).
Proof.
  intros Hb Hpc. assert (set_mu_pc (micro_next op) (micro_alu op mu) = micro_alu op mu) as E.
  { rewrite <- Hpc, <- (micro_alu_pc op mu). by destruct (micro_alu op mu). }
  unfold micro_op. rewrite E. by destruct (mi_op op).
Qed.

(** What the lowering copies, and which kinds become branches. *)
Lemma lower_switch_fields source inst : lower_switch (ms_decoded source) (micro_base source) = inl inst ->
  mi_pc inst = ms_pc source /\ mi_size inst = ms_size source
  /\ branches (mi_op inst) = is_branch_kind (di_kind (ms_decoded source)).
Proof.
  unfold lower_switch. intros H.
  destruct (di_kind (ms_decoded source)) eqn:Hk; try discriminate H;
    unfold lower_nop, lower_barrier, lower_mov, lower_movw_movt, lower_add_sub, lower_cmp_cmn, lower_tst,
      lower_logical, lower_shift, lower_branch, lower_cbz, lower_extend, lower_ubfx in H;
    lowered H; micro_fields; rewrite ?Hk; try done; by repeat case_match.
Qed.

Section execution.
Context `{HostNaN} `{CpuMemory M}.
Context (d : DecodedInstruction) (pc size : Z) (mu : MicroCpu) (s : CpuState) (m : M).
Context (dg : DiagnosticSnapshot).
Context (Hop : op_ok d) (Hmu : micro_ok mu) (Hs : cs_instruction_address s = pc).
Context (Hpc : mu_pc mu = u32 (pc + size)).
Let source := mkMicroSource d pc size.
Let Hlen : length (mu_r mu) = 13%nat := mo_length mu Hmu.

(** A register-only instruction. *)
Lemma micro_execute_register f : isFpRegisterAccess (di_kind d) = false -> register_case d = Some f ->
  execute d (mkMachine (inject mu s) m dg) = Done tt (mkMachine (f (inject mu s)) m dg).
Proof.
  intros Hfp Hc. unfold execute, fp_prologue, when. rewrite Hfp. unfold execute_switch. by rewrite Hc.
Qed.

Lemma micro_execute_mov : isFpRegisterAccess (di_kind d) = false -> di_kind d = InstrKind.mov -> di_rd d <= 12 ->
  execute d (mkMachine (inject mu s) m dg) = Done tt (mkMachine
    (when_flags (di_set_flags d) (setNzc (sr_value (shiftedOperand d (inject mu s)))
        (sr_carry (shiftedOperand d (inject mu s))))
      (writeRegister (di_rd d) (sr_value (shiftedOperand d (inject mu s))) (inject mu s))) m dg).
Proof.
  intros Hfp Hk Hr. unfold execute, fp_prologue, when. rewrite Hfp. unfold execute_switch, register_case.
  rewrite Hk. unfold exec_mov. unfold mbind, Exec_bind, gets, mret, Exec_ret.
  destruct (Z.eqb_spec (di_rd d) 15); [lia|]. done.
Qed.

Lemma lower_alu_execute inst : is_branch_kind (di_kind d) = false ->
  lower_switch d (micro_base source) = inl inst ->
  execute d (mkMachine (inject mu s) m dg) = Done tt (mkMachine (inject (micro_alu inst mu) s) m dg).
Proof.
  intros Hb H2. unfold lower_switch in H2. destruct (di_kind d) eqn:Hk; try discriminate.
  all: try (eapply sim_mov in H2 as [<- ?]; [apply micro_execute_mov; rewrite ?Hk|..]; done).
  all: erewrite micro_execute_register; [|by rewrite Hk|unfold register_case; rewrite Hk; reflexivity].
  all: do 2 f_equal.
  all: first
    [ by eapply sim_movw | by eapply sim_movt | by eapply (sim_add_sub d pc size mu s Hop Hmu true)
    | by eapply (sim_add_sub d pc size mu s Hop Hmu false)
    | by eapply (sim_cmp_cmn d pc size mu s Hop Hmu true) | by eapply (sim_cmp_cmn d pc size mu s Hop Hmu false)
    | by eapply sim_tst | by eapply sim_shift; rewrite ?Hk | by eapply sim_ubfx
    | idtac ].
  all: first
    [ eapply (sim_logical d pc size mu s Hop Hmu); [| |exact H2]; [intros; by rewrite Hk|done]
    | by eapply (sim_extend d pc size mu s Hop Hmu); [by rewrite Hk| |exact H2]
    | unfold lower_nop, lower_barrier in H2; by lowered H2 ].
Qed.

Lemma micro_target_wrap offset : u32 (u32 (pc + 4) + offset) = u32 (pc + 4 + offset).
Proof. unfold u32. by rewrite Zplus_mod_idemp_l. Qed.

Lemma lower_cbz_execute op inst : op = MicroOp.cbz \/ op = MicroOp.cbnz ->
  kind_eqb (di_kind d) InstrKind.cbz = bool_decide (op = MicroOp.cbz) ->
  lower_cbz op d (micro_base source) = inl inst ->
  alu_cbz_cbnz d (inject mu s) = inject (fst (micro_op inst mu)) s.
Proof.
  intros Ho Hk H2. pose proof (opk_rn d Hop) as Hrn. unfold alu_cbz_cbnz, lower_cbz in *. lowered H2.
  rewrite readRegister_inject, Hk by (done || lia). unfold micro_op, architecturalPcForRead. micro_fields.
  cbn [cs_instruction_address inject]. rewrite Hs, micro_target_wrap.
  assert (set_mu_pc (u32 (pc + size)) mu = mu) as E by (rewrite <- Hpc; by destruct mu).
  unfold micro_next. micro_fields. rewrite E.
  destruct Ho as [-> | ->]; destruct (readOp mu (di_rn d) =? 0);
    [rewrite bool_decide_eq_true_2 by done..|rewrite bool_decide_eq_false_2 by done|rewrite bool_decide_eq_false_2 by done];
    cbn [negb fst]; rewrite ?set_pc_inject, ?reg15_inject, ?set_pc_inject by done; done.
Qed.

Lemma lower_branch_execute inst : is_branch_kind (di_kind d) = true ->
  lower_switch d (micro_base source) = inl inst ->
  (mi_op inst = MicroOp.b_cond -> conditionPasses (di_condition d) (mu_xpsr mu) = true) ->
  execute d (mkMachine (inject mu s) m dg) = Done tt (mkMachine (inject (fst (micro_op inst mu)) s) m dg).
Proof.
  intros Hb H2 Hcond. pose proof (opk_rn d Hop) as Hrn. unfold lower_switch in H2.
  destruct (di_kind d) eqn:Hk; try discriminate.
  all: erewrite micro_execute_register; [|by rewrite Hk|unfold register_case; rewrite Hk; reflexivity].
  all: do 2 f_equal.
  - unfold alu_b, branchTarget, currentInstrAddr. rewrite set_pc_inject by done. cbn [cs_instruction_address inject].
    rewrite Hs. unfold lower_branch in H2. lowered H2. revert Hcond. unfold micro_op. micro_fields.
    rewrite Hk, (bool_decide_eq_true_2 (InstrKind.b = InstrKind.b)) by done. cbn [andb].
    destruct (bool_decide (di_condition d = Condition.al)); cbn [negb]; [by intros _|]. intros Hc. by rewrite (Hc eq_refl).
  - unfold alu_bl, branchTarget, currentInstrAddr. rewrite reg15_inject, set_lr_inject, set_pc_inject by done.
    cbn [cs_instruction_address inject]. rewrite Hs, Hpc. unfold lower_branch in H2. lowered H2.
    unfold micro_op. micro_fields. by rewrite Hk.
  - eapply (lower_cbz_execute MicroOp.cbz); [by left|by rewrite Hk|exact H2].
  - eapply (lower_cbz_execute MicroOp.cbnz); [by right|by rewrite Hk|exact H2].
Qed.
End execution.
