(* ===== verification/MicroIrBlocks.v ===== *)
(** * Micro-JIT blocks against the stepper

    A lowered block, run by the reference interpreter, has the effect of the stepper on the
    instructions the block was built from, one by one. *)

From S2P Require Import Prelude Address Instruction InstructionProofs DecoderProofs.
From S2P Require Import CpuState CpuStateProofs MemoryApi Machine Float32 Execute.
From S2P Require Import ExecuteProofs Step StepProofs StepSafety MicroIr MicroIrProofs.
#[local] Open Scope Z_scope.
#[local] Open Scope fil_scope.

(** ** The program counter is an output of the interpreter only *)

Lemma micro_op_pc x op mu : micro_op op (set_mu_pc x mu) = micro_op op mu.
Proof.
  assert (∀ y, set_mu_pc y (micro_alu op (set_mu_pc x mu)) = set_mu_pc y (micro_alu op mu)) as Halu.
  { intros y. unfold micro_alu, write_add, flags_if, writeOp.
    destruct (mi_op op), (mi_set_flags op), (mi_rd op =? 14); reflexivity. }
  unfold micro_op. rewrite Halu. by destruct (mi_op op).
Qed.

Lemma micro_of_inject mu s : length (mu_r mu) = 13%nat -> micro_of (inject mu s) = mu.
Proof.
  intros Hl. destruct mu as [r lr pc x]. unfold micro_of, reg, rget, inject. cbn in *.
  rewrite take_app_length' by done. rewrite !lookup_app_r by lia. by rewrite Hl.
Qed.
Lemma inject_ok_inv mu s : length (mu_r mu) = 13%nat -> cpu_ok (inject mu s) -> micro_ok mu.
Proof. intros Hl Hok. rewrite <- (micro_of_inject mu s) by done. by apply micro_of_ok. Qed.

Definition at_address (a : Z) (st : CpuState) : CpuState := {| st with cs_instruction_address := a |}.

Lemma inject_inject mu1 mu2 a1 a2 st : length (mu_r mu1) = 13%nat ->
  inject mu2 (at_address a2 (inject mu1 (at_address a1 st))) = inject mu2 (at_address a2 st).
Proof.
  intros Hl. unfold inject, at_address, reg, rget. cbn. rewrite lookup_app_r by lia. by rewrite Hl.
Qed.

Lemma micro_op_length op mu : length (mu_r (fst (micro_op op mu))) = length (mu_r mu).
Proof.
  unfold micro_op, micro_alu, write_add, flags_if, set_carry, applyNz, applyNzcv. cbv zeta.
  destruct (mi_op op); repeat case_match; cbn [fst mu_r set_mu_pc set_mu_xpsr]; by rewrite ?writeOp_length.
Qed.

(** Only a conditional branch keeps a condition. *)
Lemma tryLower_switch source inst : op_ok (ms_decoded source) -> tryLowerMicroInst source = inl inst ->
  lower_switch (ms_decoded source) (micro_base source) = inl inst
  /\ (di_condition (ms_decoded source) = Condition.al
      \/ mi_op inst = MicroOp.b_cond /\ mi_condition inst = di_condition (ms_decoded source)).
Proof.
  intros Hop. unfold tryLowerMicroInst. cbv zeta. intros Hl. set (d := ms_decoded source) in *.
  destruct (_ && negb (is_branch_kind (di_kind d))) eqn:Hb; [discriminate|].
  do 3 (case_match; [discriminate|]). split; [done|].
  destruct (decide (di_condition d = Condition.al)) as [|Hc]; [by left|right].
  rewrite bool_decide_eq_false_2 in Hb by done. cbn in Hb. apply negb_false_iff in Hb.
  pose proof (opk_link d Hop) as Hlink. unfold lower_switch in Hl. destruct (di_kind d) eqn:Hk; try discriminate.
  2: by specialize (Hlink eq_refl).
  2, 3: unfold lower_cbz in Hl; by lowered Hl.
  unfold lower_branch in Hl. cbv zeta in Hl. rewrite Hk in Hl.
  rewrite (bool_decide_eq_true_2 (InstrKind.b = InstrKind.b)), (bool_decide_eq_false_2 (di_condition d = _)) in Hl by done.
  cbn [andb negb] in Hl. by lowered Hl.
Qed.

Section blocks.
Context `{HostNaN} {M : Type} `{ML : CpuMemoryLaws M}.

(** The checked stepper on an instruction that is already decoded. *)
Definition step_source (source : MicroSource) (core : Core M) : FastStepResult * Core M :=
  let d := ms_decoded source in
  step_checked false false (step_instruction (di_raw d) (ms_size source) d) fast_step_default
    (ms_pc source) core.

(** Steps through the sources; [None] when a source is not at the program counter or a step
    does not complete. *)
Fixpoint step_sources (sources : list MicroSource) (core : Core M) : option (Core M) :=
  match sources with
  | [] => Some core
  | source :: rest =>
      let '(r, core') := step_source source core in
      if (reg (mc_cpu (core_mc core)) 15 =? ms_pc source)
         && bool_decide (fs_reason r = StopReason.step_complete)
      then step_sources rest core' else None
  end.

Definition put_cpu (st : CpuState) (core : Core M) : Core M :=
  {| core with core_mc := with_cpu st (core_mc core) |}.

Lemma step_source_lowered source inst core : let st := mc_cpu (core_mc core) in
  op_ok (ms_decoded source) -> cpu_ok st -> is_u32 (ms_pc source) -> cs_it_state st = 0 ->
  tryLowerMicroInst source = inl inst ->
  ∃ r, step_source source core
       = (r, put_cpu (inject (fst (micro_op inst (micro_of st))) (at_address (ms_pc source) st)) core)
    /\ fs_reason r = StopReason.step_complete /\ fs_instructions r = 1.
Proof.
  intros st Hop Hst Hpc Hit Hl. destruct (tryLower_switch _ _ Hop Hl) as [Hsw Hcond].
  destruct (lower_switch_fields _ _ Hsw) as (Ep & Es & Eb).
  set (next := u32 (ms_pc source + ms_size source)) in *.
  set (mu := set_mu_pc next (micro_of st)). set (d := ms_decoded source) in *.
  assert (micro_ok mu) as Hmu by (destruct (micro_of_ok st Hst); constructor; try done; apply u32_range).
  assert (advance_pc (ms_pc source) (ms_size source) st = inject mu (at_address (ms_pc source) st)) as Eadv.
  { rewrite <- (inject_micro_of st) at 1 by apply Hst. unfold mu.
    rewrite <- set_pc_inject by apply (micro_of_ok st Hst). done. }
  assert (kind_eqb (di_kind d) InstrKind.it = false) as Hnit
    by (unfold lower_switch in Hsw; by destruct (di_kind d)).
  unfold step_source, step_checked. cbn [si_decoded step_instruction si_size]. cbv zeta. fold d st.
  unfold effective_condition. rewrite Hnit, Hit. change (inItBlock 0) with false. cbn [andb negb]. rewrite Eadv.
  rewrite <- (micro_op_pc next). fold mu.
  destruct (bool_decide (di_condition d = Condition.al) || conditionPasses (di_condition d) (cs_xpsr st)) eqn:Hpass.
  - assert (execute d (mkMachine (inject mu (at_address (ms_pc source) st)) (mc_mem (core_mc core)) (mc_diag (core_mc core)))
      = Done tt (mkMachine (inject (fst (micro_op inst mu)) (at_address (ms_pc source) st))
          (mc_mem (core_mc core)) (mc_diag (core_mc core)))) as Hex.
    { destruct source as [d' pc size]. cbn [ms_decoded ms_pc ms_size] in *. subst d.
      destruct (is_branch_kind (di_kind d')) eqn:Hbr.
      - apply (lower_branch_execute d' pc size mu (at_address pc st) _ _ Hop Hmu eq_refl eq_refl inst Hbr Hsw).
        intros _. change (mu_xpsr mu) with (cs_xpsr st).
        apply orb_prop in Hpass as [Hal|Hp]; [|done]. apply bool_decide_eq_true in Hal. by rewrite Hal.
      - rewrite micro_op_alu; [|by rewrite Eb|unfold micro_next; by rewrite Ep, Es]. by eapply lower_alu_execute. }
    rewrite dispatch_plain. unfold dispatch_checked. cbn [core_mc]. unfold it_adjusted. cbn [andb].
    change (with_cpu ?x ?y) with (mkMachine x (mc_mem y) (mc_diag y)). rewrite Hex.
    eexists. split; [reflexivity|]. done.
  - destruct Hcond as [Hal|[Ho Hc]].
    { by rewrite Hal, bool_decide_eq_true_2 in Hpass. }
    apply orb_false_iff in Hpass as [_ Hp].
    assert (micro_op inst mu = (mu, false)) as ->.
    { unfold micro_op. rewrite Ho, Hc. change (mu_xpsr mu) with (cs_xpsr st). rewrite Hp.
      unfold micro_next. by rewrite Ep, Es. }
    eexists. split; [reflexivity|]. done.
Qed.

Lemma step_source_ok source core : op_ok (ms_decoded source) -> core_ok core -> is_u32 (ms_pc source) ->
  core_ok (snd (step_source source core)).
Proof. intros Hop Hc Hpc. by apply step_checked_ok. Qed.

(** ** Blocks *)

(** Each source starts where the one before it ends. *)
Fixpoint contiguous (pc : Z) (sources : list MicroSource) : Prop :=
  match sources with
  | [] => True
  | source :: rest => ms_pc source = pc /\ contiguous (u32 (pc + ms_size source)) rest
  end.

Lemma build_ops_lowers sources block block' : build_ops sources block = inl block' ->
  ∃ insts, mb_ops block' = mb_ops block ++ insts
    /\ Forall2 (fun source inst => tryLowerMicroInst source = inl inst) sources insts.
Proof.
  revert block. induction sources as [|source rest IH]; intros block Hb.
  { injection Hb as <-. exists []. by rewrite app_nil_r. }
  cbn [build_ops] in Hb. destruct (tryLowerMicroInst source) as [inst|] eqn:Hl; [|done].
  case_match; [done|]. destruct (IH _ Hb) as (insts & Hi & Hf). cbn in Hi.
  exists (inst :: insts). rewrite Hi, <- app_assoc. split; [done|]. by constructor.
Qed.

(** A micro-operation that stays in the block continues at the next source. *)
Lemma micro_op_stays op mu : snd (micro_op op mu) = false -> mu_pc (fst (micro_op op mu)) = micro_next op.
Proof. unfold micro_op. cbv zeta. destruct (mi_op op); try done; by case_match. Qed.

Lemma put_cpu_same core : core_ok core -> let st := mc_cpu (core_mc core) in
  put_cpu (inject (micro_of st) (at_address (cs_instruction_address st) st)) core = core.
Proof.
  intros [Hst _] st. assert (inject (micro_of st) (at_address (cs_instruction_address st) st) = st) as ->.
  { transitivity (inject (micro_of st) st); [f_equal|apply inject_micro_of, Hst]. }
  unfold put_cpu, with_cpu. by destruct core as [[]].
Qed.

Lemma interpret_loop_sim sources insts max retired core n mu' : let st := mc_cpu (core_mc core) in
  Forall2 (fun source inst => tryLowerMicroInst source = inl inst) sources insts ->
  Forall (fun source => op_ok (ms_decoded source)) sources ->
  core_ok core -> cs_it_state st = 0 -> contiguous (reg st 15) sources ->
  interpret_loop insts max retired (micro_of st) = (n, mu') ->
  (retired <= n)%nat /\ ∃ a, step_sources (take (n - retired) sources) core
      = Some (put_cpu (inject mu' (at_address a st)) core) /\ length (mu_r mu') = 13%nat.
Proof.
  intros st Hf. revert core retired st.
  induction Hf as [|source inst sources insts Hl Hf IH]; intros core retired st Hops Hc Hit Hcont Hi.
  - injection Hi as <- <-. split; [lia|]. rewrite Nat.sub_diag. exists (cs_instruction_address st).
    unfold st. rewrite put_cpu_same by done. split; [done|apply (micro_of_ok st), Hc].
  - destruct Hcont as [Epc Hcont]. inversion_clear Hops as [|? ? Hop Hops'].
    cbn [interpret_loop] in Hi. destruct (max <=? retired)%nat eqn:Hmax.
    { injection Hi as <- <-. split; [lia|]. rewrite Nat.sub_diag. exists (cs_instruction_address st).
      unfold st. rewrite put_cpu_same by done. split; [done|apply (micro_of_ok st), Hc]. }
    assert (is_u32 (ms_pc source)) as Hpc by (rewrite Epc; apply reg_range, Hc).
    destruct (step_source_lowered source inst core Hop (proj1 Hc) Hpc Hit Hl) as (r & Hstep & Hr & _).
    fold st in Hstep. set (mu1 := fst (micro_op inst (micro_of st))) in *.
    assert (length (mu_r mu1) = 13%nat) as Hl1
      by (unfold mu1; rewrite micro_op_length; apply (micro_of_ok st), Hc).
    set (core1 := put_cpu (inject mu1 (at_address (ms_pc source) st)) core) in *.
    assert (∀ k, step_sources (take (S k) (source :: sources)) core = step_sources (take k sources) core1) as Hss.
    { intros k. cbn [take step_sources]. rewrite Hstep. fold st. rewrite Epc, Z.eqb_refl, Hr.
      by rewrite bool_decide_eq_true_2. }
    assert (core_ok core1) as Hc1 by (pose proof (step_source_ok source core Hop Hc Hpc) as Hk; by rewrite Hstep in Hk).
    destruct (micro_op inst (micro_of st)) as [mu2 []] eqn:Eop; cbn [fst] in mu1; subst mu1.
    + injection Hi as <- <-. split; [lia|]. replace (S retired - retired)%nat with 1%nat by lia.
      exists (ms_pc source). rewrite Hss. done.
    + destruct (IH core1 (S retired) Hops' Hc1) as (Hn & a & Hs & Hlen).
      * exact Hit.
      * unfold core1. cbn [mc_cpu core_mc put_cpu with_cpu]. rewrite reg15_inject by done.
        assert (mu_pc mu2 = micro_next inst) as ->
          by (pose proof (micro_op_stays inst (micro_of st)) as Hp; rewrite Eop in Hp; by apply Hp).
        destruct (tryLower_switch _ _ Hop Hl) as [Hsw _]. destruct (lower_switch_fields _ _ Hsw) as (Ep & Es & _).
        unfold micro_next. by rewrite Ep, Es, Epc.
      * unfold core1. cbn [mc_cpu core_mc put_cpu with_cpu]. by rewrite micro_of_inject.
      * split; [lia|]. exists a. replace (n - retired)%nat with (S (n - S retired)) by lia.
        rewrite Hss, Hs. split; [|done]. f_equal. unfold core1, put_cpu. cbn [mc_cpu core_mc with_cpu].
        by rewrite inject_inject.
Qed.

(** The interpreter retires at least one instruction of a non-empty block and never more than
    it was asked to. *)
Lemma interpret_loop_bounds insts max retired mu : let n := fst (interpret_loop insts max retired mu) in
  (n <= retired + length insts)%nat /\ (retired <= max -> n <= max)%nat
  /\ (insts <> [] -> retired < max -> retired < n)%nat /\ (retired <= n)%nat.
Proof.
  revert retired mu. induction insts as [|op insts IH]; intros retired mu; cbn [interpret_loop length];
    [cbn; split_and!; intros; try lia; done|].
  destruct (Nat.leb_spec max retired); [cbn; split_and!; intros; lia|].
  destruct (micro_op op mu) as [mu' []]; [cbn; split_and!; intros; lia|].
  destruct (IH (S retired) mu') as (? & ? & _ & ?). cbv zeta. split_and!; intros; lia.
Qed.
End blocks.
