(* ===== verification/SystemControl.v ===== *)
(** * SysTick, NVIC, SCB, DWT and CoreDebug registers

    Models [SystemControl] of [include/fil/cortexm/system_control.hpp] and
    [src/cortexm/system_control.cpp]: the register block as a record, with the register
    arrays as lists indexed as the source indexes them, and one definition per member
    function.  Accesses clear or set state as the source does, so reads return a new state. *)

From S2P Require Import Prelude Address CpuState.

(** The exception numbers of [ExceptionNumber] that the code names. *)
Definition exc_nmi : Z := 2.
Definition exc_hard_fault : Z := 3.
Definition exc_pend_sv : Z := 14.
Definition exc_sys_tick : Z := 15.

Record SystemControl := mkSystemControl {
  sc_nvic_enable : list Z;
  sc_nvic_pending : list Z;
  sc_nvic_active : list Z;
  sc_nvic_lines : list Z;
  sc_nvic_priority : list Z;
  sc_system_priority : list Z;
  sc_systick_ctrl : Z;
  sc_systick_load : Z;
  sc_systick_value : Z;
  sc_systick_cycles_to_wrap : Z;
  sc_systick_count_flag : bool;
  sc_vtor : Z;
  sc_aircr : Z;
  sc_scr : Z;
  sc_ccr : Z;
  sc_shcsr : Z;
  sc_cfsr : Z;
  sc_hfsr : Z;
  sc_mmfar : Z;
  sc_bfar : Z;
  sc_cpacr : Z;
  sc_demcr : Z;
  sc_fpccr : Z;
  sc_dwt_ctrl : Z;
  sc_dwt_cyccnt : Z;
  sc_active_exception : Z;
  sc_pendsv_pending : bool;
  sc_systick_pending : bool;
  sc_external_pending_enabled : bool;
  sc_reset_requested : bool;
}.

Definition system_base : Z := 0xe0000000.
Definition cpuid_value : Z := 0x410fc241.
Definition fpccr_lspen : Z := 0x40000000.

(** [reset] assigns every member. *)
Definition system_reset (vector_base : Z) : SystemControl :=
  {| sc_nvic_enable := replicate 8 0; sc_nvic_pending := replicate 8 0;
     sc_nvic_active := replicate 8 0; sc_nvic_lines := replicate 8 0;
     sc_nvic_priority := replicate 240 0; sc_system_priority := replicate 12 0;
     sc_systick_ctrl := 0; sc_systick_load := 0; sc_systick_value := 0;
     sc_systick_cycles_to_wrap := 0; sc_systick_count_flag := false;
     sc_vtor := vector_base .& 0xffffff80; sc_aircr := 0; sc_scr := 0; sc_ccr := 0x200;
     sc_shcsr := 0; sc_cfsr := 0; sc_hfsr := 0; sc_mmfar := 0; sc_bfar := 0;
     sc_cpacr := 0; sc_demcr := 0; sc_fpccr := 0; sc_dwt_ctrl := 0; sc_dwt_cyccnt := 0;
     sc_active_exception := 0; sc_pendsv_pending := false; sc_systick_pending := false;
     sc_external_pending_enabled := false; sc_reset_requested := false |}.

(** ** Time *)

(** [systick_count_flag_ = true; if ((systick_ctrl_ & 2U) != 0) systick_pending_ = true]. *)
Definition systick_wrapped (s : SystemControl) : SystemControl :=
  {| s with sc_systick_count_flag := true;
            sc_systick_pending := sc_systick_pending s || has (sc_systick_ctrl s) 2 |}.

Definition set_cycles_to_wrap (cycles : Z) (s : SystemControl) : SystemControl :=
  {| s with sc_systick_cycles_to_wrap := cycles; sc_systick_value := u32 (cycles - 1) |}.

Definition advanceCycles (cycles : Z) (s : SystemControl) : SystemControl :=
  let s := if has (sc_dwt_ctrl s) 1
           then {| s with sc_dwt_cyccnt := u32 (sc_dwt_cyccnt s + u32 cycles) |} else s in
  if negb (has (sc_systick_ctrl s) 1) || (sc_systick_load s =? 0) || (cycles =? 0) then s
  else
    let period := u32 (sc_systick_load s + 1) in
    let to_wrap := if sc_systick_cycles_to_wrap s =? 0 then period
                   else sc_systick_cycles_to_wrap s in
    if cycles <? to_wrap then set_cycles_to_wrap (u32 (to_wrap - u32 cycles)) s
    else
      let remaining := cycles - to_wrap in
      let s := systick_wrapped s in
      if negb (remaining =? 0) then
        let s := if period <=? remaining then systick_wrapped s else s in
        let remaining := if period <=? remaining then remaining mod period else remaining in
        set_cycles_to_wrap (if remaining =? 0 then period else u32 (period - u32 remaining)) s
      else set_cycles_to_wrap period s.

Definition cyclesUntilSysTickInterrupt (s : SystemControl) : option Z :=
  if sc_systick_pending s then Some 0
  else if negb (sc_systick_ctrl s .& 3 =? 3) || (sc_systick_load s =? 0) then None
  else Some (if sc_systick_cycles_to_wrap s =? 0 then sc_systick_load s + 1
             else sc_systick_cycles_to_wrap s).

(** ** Pending and active exceptions *)

Definition irq_mask (irq : Z) : Z := 1 .<< (irq mod 32).
Definition is_external (exception_number : Z) : bool :=
  (16 <=? exception_number) && (exception_number <? 256).

(** [array[irq / 32] |= mask] and [array[irq / 32] &= ~mask]. *)
Definition set_irq (irq : Z) (words : list Z) : list Z :=
  rset words (irq / 32) (rget words (irq / 32) .| irq_mask irq).
Definition clear_irq (irq : Z) (words : list Z) : list Z :=
  rset words (irq / 32) (rget words (irq / 32) .& not32 (irq_mask irq)).
Definition irq_bit (words : list Z) (irq : Z) : bool := has (rget words (irq / 32)) (irq_mask irq).

Definition refreshPendingSummary (s : SystemControl) : SystemControl :=
  let pending := (fun i => rget (sc_nvic_pending s) i
                    .| (rget (sc_nvic_lines s) i .& not32 (rget (sc_nvic_active s) i)))
                 <$> seqZ 0 8 in
  {| s with sc_nvic_pending := pending;
            sc_external_pending_enabled :=
              existsb (fun i => has (rget pending i) (rget (sc_nvic_enable s) i)) (seqZ 0 8) |}.

Definition pend (n : Z) (s : SystemControl) : SystemControl :=
  if n =? exc_pend_sv then {| s with sc_pendsv_pending := true |}
  else if n =? exc_sys_tick then {| s with sc_systick_pending := true |}
  else if is_external n
  then refreshPendingSummary {| s with sc_nvic_pending := set_irq (n - 16) (sc_nvic_pending s) |}
  else s.

Definition setInterruptLine (irq : Z) (asserted : bool) (s : SystemControl) : SystemControl :=
  if 240 <=? irq then s
  else
    let was_asserted := irq_bit (sc_nvic_lines s) irq in
    let s := {| s with sc_nvic_lines :=
                  (if asserted then set_irq else clear_irq) irq (sc_nvic_lines s) |} in
    let s := if asserted && negb was_asserted
             then {| s with sc_nvic_pending := set_irq irq (sc_nvic_pending s) |} else s in
    refreshPendingSummary s.

Definition clearPending (n : Z) (s : SystemControl) : SystemControl :=
  if n =? exc_pend_sv then {| s with sc_pendsv_pending := false |}
  else if n =? exc_sys_tick then {| s with sc_systick_pending := false |}
  else if is_external n
  then refreshPendingSummary {| s with sc_nvic_pending := clear_irq (n - 16) (sc_nvic_pending s) |}
  else s.

Definition system_enter (n : Z) (s : SystemControl) : SystemControl :=
  let s := {| s with sc_active_exception := n |} in
  let s := if is_external n
           then {| s with sc_nvic_active := set_irq (n - 16) (sc_nvic_active s) |} else s in
  clearPending n s.

Definition system_resume (n : Z) (s : SystemControl) : SystemControl :=
  {| s with sc_active_exception := n |}.

Definition system_leave (n : Z) (s : SystemControl) : SystemControl :=
  let s := if is_external n
           then {| s with sc_nvic_active := clear_irq (n - 16) (sc_nvic_active s) |} else s in
  let s := if sc_active_exception s =? n then {| s with sc_active_exception := 0 |} else s in
  refreshPendingSummary s.

Definition isPending (s : SystemControl) (n : Z) : bool :=
  if n =? exc_pend_sv then sc_pendsv_pending s
  else if n =? exc_sys_tick then sc_systick_pending s
  else if negb (is_external n) then false
  else irq_bit (sc_nvic_pending s) (n - 16).

Definition isEnabled (s : SystemControl) (n : Z) : bool :=
  if n <? 16 then true
  else if 256 <=? n then false
  else irq_bit (sc_nvic_enable s) (n - 16).

Definition priority (s : SystemControl) (n : Z) : Z :=
  if (4 <=? n) && (n <=? 15) then rget (sc_system_priority s) (n - 4)
  else if is_external n then rget (sc_nvic_priority s) (n - 16)
  else 0.

Definition hasEnabledPending (s : SystemControl) : bool :=
  sc_pendsv_pending s || sc_systick_pending s || sc_external_pending_enabled s.

(** The lambdas of [nextPending]. *)
Definition architectural_priority (s : SystemControl) (n : Z) : Z :=
  if n =? exc_nmi then -2 else if n =? exc_hard_fault then -1 else priority s n.

(** The guards of [consider], before the comparison with the selection so far. *)
Definition takable (s : SystemControl) (primask basepri faultmask n : Z) : bool :=
  isPending s n && isEnabled s n
  && negb (negb (faultmask =? 0) && negb (n =? exc_nmi))
  && negb (negb (primask =? 0) && (exc_hard_fault <? n))
  && negb (negb (sc_active_exception s =? 0)
           && (architectural_priority s (sc_active_exception s) <=? architectural_priority s n))
  && negb (negb (basepri .& 0xf0 =? 0) && (exc_hard_fault <? n)
           && (basepri .& 0xf0 <=? priority s n)).

(** [selected] with [selected_priority]. *)
Definition consider (s : SystemControl) (primask basepri faultmask n : Z)
    (selected : option (Z * Z)) : option (Z * Z) :=
  if negb (takable s primask basepri faultmask n) then selected
  else
    let candidate := priority s n in
    match selected with
    | None => Some (n, candidate)
    | Some (number, best) =>
        if (candidate <? best) || ((candidate =? best) && (n <? number))
        then Some (n, candidate) else selected
    end.

(** [std::countr_zero] of a nonzero word. *)
Definition countr_zero (x : Z) : Z := Z.log2 (x .& - x).

(** The [while (candidates != 0U)] loop over one word, at most one turn per bit. *)
Fixpoint consider_word (fuel : nat) (visit : Z -> option (Z * Z) -> option (Z * Z))
    (word_index candidates : Z) (selected : option (Z * Z)) : option (Z * Z) :=
  match fuel with
  | O => selected
  | S fuel =>
      if candidates =? 0 then selected
      else consider_word fuel visit word_index (candidates .& (candidates - 1))
             (visit (16 + word_index * 32 + countr_zero candidates) selected)
  end.

Definition nextPending (primask basepri faultmask : Z) (s : SystemControl) : option Z :=
  if negb (hasEnabledPending s) then None
  else
    let visit := consider s primask basepri faultmask in
    let selected := visit exc_sys_tick (visit exc_pend_sv None) in
    fst <$> foldl (fun selected word_index =>
        consider_word 32 visit word_index
          (rget (sc_nvic_pending s) word_index .& rget (sc_nvic_enable s) word_index) selected)
      selected (seqZ 0 8).

Definition consumeResetRequest (s : SystemControl) : bool * SystemControl :=
  (sc_reset_requested s, {| s with sc_reset_requested := false |}).

Definition fpuEnabled (s : SystemControl) : bool := sc_cpacr s .& 0x00f00000 =? 0x00f00000.

(** ** Register accesses *)

(** [offset >= base && offset < limit], and the array index inside such a window. *)
Definition in_bank (base limit offset : Z) : bool := (base <=? offset) && (offset <? limit).
Definition bank_index (base offset : Z) : Z := (offset - base) / 4.

(** Four consecutive priority bytes as a word. *)
Definition priority_word (bytes : list Z) (first : Z) : Z :=
  rget bytes first .| rget bytes (first + 1) .<< 8 .| rget bytes (first + 2) .<< 16
  .| rget bytes (first + 3) .<< 24.

Definition icsr (s : SystemControl) : Z :=
  let value := sc_active_exception s in
  let value := if sc_pendsv_pending s then value .| 1 .<< 28 else value in
  let value := if sc_systick_pending s then value .| 1 .<< 26 else value in
  match nextPending 0 0 0 s with
  | Some pending => value .| pending .<< 12
  | None => value
  end.

(** [readWord]; only SysTick CTRL has a read effect. *)
Definition readWord (offset : Z) (s : SystemControl) : Z * SystemControl :=
  if offset =? 0x1000 then (sc_dwt_ctrl s, s)
  else if offset =? 0x1004 then (sc_dwt_cyccnt s, s)
  else if offset =? 0xe010 then
    (sc_systick_ctrl s .& 7 .| (if sc_systick_count_flag s then 1 .<< 16 else 0),
     {| s with sc_systick_count_flag := false |})
  else if offset =? 0xe014 then (sc_systick_load s, s)
  else if offset =? 0xe018 then (sc_systick_value s, s)
  else if offset =? 0xe01c then (0x3e8, s)
  else if in_bank 0xe100 0xe120 offset then (rget (sc_nvic_enable s) (bank_index 0xe100 offset), s)
  else if in_bank 0xe180 0xe1a0 offset then (rget (sc_nvic_enable s) (bank_index 0xe180 offset), s)
  else if in_bank 0xe200 0xe220 offset then (rget (sc_nvic_pending s) (bank_index 0xe200 offset), s)
  else if in_bank 0xe280 0xe2a0 offset then (rget (sc_nvic_pending s) (bank_index 0xe280 offset), s)
  else if in_bank 0xe300 0xe320 offset then (rget (sc_nvic_active s) (bank_index 0xe300 offset), s)
  else if in_bank 0xe400 0xe4f0 offset then (priority_word (sc_nvic_priority s) (offset - 0xe400), s)
  else if offset =? 0xed00 then (cpuid_value, s)
  else if offset =? 0xed04 then (icsr s, s)
  else if offset =? 0xed08 then (sc_vtor s, s)
  else if offset =? 0xed0c then (0xfa050000 .| (sc_aircr s .& 0x700), s)
  else if offset =? 0xed10 then (sc_scr s, s)
  else if offset =? 0xed14 then (sc_ccr s, s)
  else if in_bank 0xed18 0xed24 offset then (priority_word (sc_system_priority s) (offset - 0xed18), s)
  else if offset =? 0xed24 then (sc_shcsr s, s)
  else if offset =? 0xed28 then (sc_cfsr s, s)
  else if offset =? 0xed2c then (sc_hfsr s, s)
  else if offset =? 0xed34 then (sc_mmfar s, s)
  else if offset =? 0xed38 then (sc_bfar s, s)
  else if offset =? 0xed88 then (sc_cpacr s, s)
  else if offset =? 0xedfc then (sc_demcr s, s)
  else if offset =? 0xef34 then (sc_fpccr s, s)
  else (0, s).

Definition merge (old value lane_mask : Z) : Z := old .& not32 lane_mask .| value .& lane_mask.

(** The byte loop over the priority registers: implemented bits are 7 to 4. *)
Definition write_priorities (bytes : list Z) (first value lane_mask : Z) : list Z :=
  foldl (fun bytes index =>
      if has lane_mask (0xff .<< (index * 8))
      then rset bytes (first + index) (u8 (value .>> (index * 8)) .& 0xf0) else bytes)
    bytes (seqZ 0 4).

(** The assignments of [writeWord], before the refresh of the pending summary. *)
Definition write_register (offset value lane_mask : Z) (s : SystemControl) : SystemControl :=
  let merged old := merge old value lane_mask in
  let bits := value .& lane_mask in
  if offset =? 0x1000 then {| s with sc_dwt_ctrl := merged (sc_dwt_ctrl s) |}
  else if offset =? 0x1004 then {| s with sc_dwt_cyccnt := merged (sc_dwt_cyccnt s) |}
  else if offset =? 0xe010 then
    let ctrl := merged (sc_systick_ctrl s) .& 7 in
    {| s with sc_systick_ctrl := ctrl;
              sc_systick_cycles_to_wrap :=
                if negb (has ctrl 1) || negb (has (sc_systick_ctrl s) 1) then 0
                else sc_systick_cycles_to_wrap s |}
  else if offset =? 0xe014 then
    {| s with sc_systick_load := merged (sc_systick_load s) .& 0x00ffffff;
              sc_systick_cycles_to_wrap := 0 |}
  else if offset =? 0xe018 then
    {| s with sc_systick_value := 0; sc_systick_cycles_to_wrap := 0;
              sc_systick_count_flag := false |}
  else if in_bank 0xe100 0xe120 offset then
    let i := bank_index 0xe100 offset in
    {| s with sc_nvic_enable := rset (sc_nvic_enable s) i (rget (sc_nvic_enable s) i .| bits) |}
  else if in_bank 0xe180 0xe1a0 offset then
    let i := bank_index 0xe180 offset in
    {| s with sc_nvic_enable :=
         rset (sc_nvic_enable s) i (rget (sc_nvic_enable s) i .& not32 bits) |}
  else if in_bank 0xe200 0xe220 offset then
    let i := bank_index 0xe200 offset in
    {| s with sc_nvic_pending := rset (sc_nvic_pending s) i (rget (sc_nvic_pending s) i .| bits) |}
  else if in_bank 0xe280 0xe2a0 offset then
    let i := bank_index 0xe280 offset in
    {| s with sc_nvic_pending :=
         rset (sc_nvic_pending s) i (rget (sc_nvic_pending s) i .& not32 bits) |}
  else if in_bank 0xe400 0xe4f0 offset then
    {| s with sc_nvic_priority :=
         write_priorities (sc_nvic_priority s) (offset - 0xe400) value lane_mask |}
  else if offset =? 0xef00 then
    let irq := value .& 0x1ff in
    if irq <? 240 then pend (irq + 16) s else s
  else if offset =? 0xed04 then
    let pendsv := if has value (1 .<< 28) then true else sc_pendsv_pending s in
    let pendsv := if has value (1 .<< 27) then false else pendsv in
    let systick := if has value (1 .<< 26) then true else sc_systick_pending s in
    let systick := if has value (1 .<< 25) then false else systick in
    {| s with sc_pendsv_pending := pendsv; sc_systick_pending := systick |}
  else if offset =? 0xed08 then {| s with sc_vtor := merged (sc_vtor s) .& 0xffffff80 |}
  else if (offset =? 0xed0c) && (value .>> 16 =? 0x05fa) then
    {| s with sc_aircr := value .& 0x700;
              sc_reset_requested := has value 4 || sc_reset_requested s |}
  else if offset =? 0xed10 then {| s with sc_scr := merged (sc_scr s) |}
  else if offset =? 0xed14 then {| s with sc_ccr := merged (sc_ccr s) |}
  else if in_bank 0xed18 0xed24 offset then
    {| s with sc_system_priority :=
         write_priorities (sc_system_priority s) (offset - 0xed18) value lane_mask |}
  else if offset =? 0xed24 then {| s with sc_shcsr := merged (sc_shcsr s) |}
  else if offset =? 0xed28 then {| s with sc_cfsr := sc_cfsr s .& not32 bits |}
  else if offset =? 0xed2c then {| s with sc_hfsr := sc_hfsr s .& not32 bits |}
  else if offset =? 0xed34 then {| s with sc_mmfar := merged (sc_mmfar s) |}
  else if offset =? 0xed38 then {| s with sc_bfar := merged (sc_bfar s) |}
  else if offset =? 0xed88 then {| s with sc_cpacr := merged (sc_cpacr s) |}
  else if offset =? 0xedfc then {| s with sc_demcr := merged (sc_demcr s) |}
  else if offset =? 0xef34 then {| s with sc_fpccr := merged (sc_fpccr s) |}
  else s.

Definition mutates_external_pending (offset : Z) : bool :=
  in_bank 0xe100 0xe120 offset || in_bank 0xe180 0xe1a0 offset
  || in_bank 0xe200 0xe220 offset || in_bank 0xe280 0xe2a0 offset.

Definition writeWord (offset value lane_mask : Z) (s : SystemControl) : SystemControl :=
  let s := write_register offset value lane_mask s in
  if mutates_external_pending offset then refreshPendingSummary s else s.

Definition accessFault (offset : Z) (size : AccessSize.t) (c : AccessContext) (message : string)
    : BusFault :=
  mkBusFault BusFaultReason.device_error (u32 (system_base + offset)) size c "cortexm-system" message.

(** [width > 4U || (offset & 3U) + width > 4U || offset > 0x000fffffU - (width - 1U)]. *)
Definition unsupported_access (offset : Z) (size : AccessSize.t) : bool :=
  let width := byteCount size in
  (4 <? width) || (4 <? (offset .& 3) + width) || (0x000fffff - (width - 1) <? offset).

Definition system_read (offset : Z) (size : AccessSize.t) (c : AccessContext) (s : SystemControl)
    : MemoryResult Z * SystemControl :=
  if unsupported_access offset size then
    (inr (accessFault offset size c "unsupported or cross-register system-control read"), s)
  else
    let '(value, s) := readWord (offset .& not32 3) s in
    (inl (value .>> ((offset .& 3) * 8) .& u32 (accessWidthMask size)), s).

Definition system_write (offset : Z) (size : AccessSize.t) (value : Z) (c : AccessContext)
    (s : SystemControl) : MemoryResult Z * SystemControl :=
  if unsupported_access offset size then
    (inr (accessFault offset size c "unsupported or cross-register system-control write"), s)
  else
    let shift := (offset .& 3) * 8 in
    let mask := u32 (u32 (accessWidthMask size) .<< shift) in
    (inl 0, writeWord (offset .& not32 3) (u32 (u32 value .<< shift)) mask s).
