(* ===== verification/SystemControlProofs.v ===== *)
(** * Properties of the system control block

    The register invariant [sys_ok] and its preservation by every operation; exception
    selection against its specification (the most urgent takable exception); SysTick time:
    batched advances equal single ones and the announced deadline is exact. *)

From S2P Require Import Prelude Address InstructionProofs CpuState CpuStateProofs SystemControl.

(** ** The lowest set bit *)

Lemma odd_part (p : positive) : ∃ m k, 0 <= k /\ 0 <= m /\ Z.pos p = (2 * m + 1) * 2 ^ k.
Proof.
  induction p as [p _|p (m & k & Hk & Hm & E)|].
  - exists (Z.pos p), 0. rewrite Z.pow_0_r. lia.
  - exists m, (k + 1). rewrite Z.pow_add_r by lia. lia.
  - exists 0, 0. rewrite Z.pow_0_r. lia.
Qed.
Lemma low_bit x : 0 < x -> ∃ k, 0 <= k /\ countr_zero x = k /\ Z.testbit x k = true
  /\ (∀ i, i < k -> Z.testbit x i = false)
  /\ ∀ i, Z.testbit (x .& (x - 1)) i = Z.testbit x i && negb (i =? k).
Proof.
  intros Hx. destruct x as [|p|]; try lia. destruct (odd_part p) as (m & k & Hk & Hm & E).
  set (x := Z.pos p) in *. exists k.
  assert (∀ i, 0 <= i -> Z.testbit x i = if i <? k then false else if i =? k then true else Z.testbit m (i - k - 1)) as Hxb.
  { intros i Hi. rewrite E. destruct (Z.ltb_spec i k); [by apply Z.mul_pow2_bits_low|].
    rewrite Z.mul_pow2_bits by lia. destruct (Z.eqb_spec i k) as [->|]; [by rewrite Z.sub_diag, Z.testbit_odd_0|].
    replace (i - k) with (Z.succ (i - k - 1)) at 1 by lia. rewrite Z.testbit_odd_succ by lia. done. }
  assert (∀ i, 0 <= i -> Z.testbit (x - 1) i = if i <? k then true else if i =? k then false else Z.testbit m (i - k - 1)) as Hyb.
  { intros i Hi. pose proof (Z.pow_pos_nonneg 2 k ltac:(lia) Hk).
    replace (x - 1) with ((2 ^ k - 1) + (2 * m) * 2 ^ k) by lia.
    rewrite <- lor_disjoint_add by lia. replace (2 ^ k - 1) with (Z.ones k) by (rewrite Z.ones_equiv; lia).
    rewrite Z.lor_spec, Z.testbit_ones by lia.
    destruct (Z.ltb_spec i k); [by destruct (Z.leb_spec 0 i); [|lia]|].
    rewrite andb_false_r. cbn [orb]. rewrite Z.mul_pow2_bits by lia.
    destruct (Z.eqb_spec i k) as [->|]; [by rewrite Z.sub_diag, Z.testbit_even_0|].
    replace (i - k) with (Z.succ (i - k - 1)) at 1 by lia. by rewrite Z.testbit_even_succ by lia. }
  split; [done|]. split; [|split; [|split]].
  - unfold countr_zero. replace (x .& - x) with (2 ^ k); [by apply Z.log2_pow2|].
    apply Z.bits_inj'. intros i Hi. rewrite Z.land_spec, Z.pow2_bits_eqb by lia.
    replace (- x) with (Z.lnot (x - 1)) by (unfold Z.lnot; lia).
    rewrite Z.lnot_spec, Hxb, Hyb by lia. destruct (Z.ltb_spec i k), (Z.eqb_spec i k); subst; try lia.
    destruct (Z.eqb_spec k i); [lia|]. by destruct (Z.testbit m _).
  - rewrite Hxb by lia. destruct (Z.ltb_spec k k); [lia|]. by rewrite Z.eqb_refl.
  - intros i Hi. destruct (Z.ltb_spec i 0); [by apply Z.testbit_neg_r|]. rewrite Hxb by lia.
    by destruct (Z.ltb_spec i k); [|lia].
  - intros i. rewrite Z.land_spec. destruct (Z.ltb_spec i 0).
    + by rewrite !(Z.testbit_neg_r _ i).
    + rewrite Hxb, Hyb by lia. destruct (Z.ltb_spec i k), (Z.eqb_spec i k); try done.
      by destruct (Z.testbit m _).
Qed.

Lemma consider_word_fold visit w c sel fuel k : is_u32 c -> 0 <= k <= 32 ->
  (∀ i, i < k -> Z.testbit c i = false) -> (32 - k <= Z.of_nat fuel) ->
  consider_word fuel visit w c sel
  = foldl (fun sel n => visit n sel) sel
      ((fun bit => 16 + w * 32 + bit) <$> filter (fun i => Z.testbit c i = true) (seqZ k (32 - k))).
Proof.
  revert k c sel. induction fuel as [|fuel IH]; intros k c sel Hc Hk Hlow Hf.
  { replace (32 - k) with 0 by lia. done. }
  cbn [consider_word]. destruct (Z.eqb_spec c 0) as [->|Hc0].
  { rewrite filter_none; [done|]. intros i _. by rewrite Z.testbit_0_l. }
  destruct (low_bit c) as (j & Hj & -> & Hjt & Hjlow & Hclear); [unfold is_u32 in Hc; lia|].
  assert (k <= j) as Hkj. { destruct (Z.le_gt_cases k j); [done|]. rewrite Hlow in Hjt by lia. done. }
  assert (j < 32) as Hj32.
  { destruct (Z.le_gt_cases 32 j); [|done]. rewrite (high_bits_clear 32) in Hjt; [done|apply Hc|done]. }
  replace (seqZ k (32 - k)) with (seqZ k (j - k) ++ j :: seqZ (j + 1) (32 - (j + 1))).
  2: { replace (32 - k) with ((j - k) + (32 - j)) by lia. rewrite seqZ_app by lia. f_equal.
       rewrite (seqZ_cons (k + (j - k))) by lia. f_equal; [lia|]. f_equal; lia. }
  rewrite filter_app. replace (filter _ (seqZ k (j - k))) with (@nil Z).
  2: { symmetry. apply filter_none. intros i Hi%elem_of_seqZ. rewrite Hjlow by lia. done. }
  rewrite filter_cons, decide_True by done. cbn [app fmap list_fmap foldl].
  rewrite (IH (j + 1)); [|by apply is_u32_land_l|lia| |lia].
  2: { intros i Hi. rewrite Hclear. destruct (Z.eqb_spec i j); [by rewrite andb_false_r|].
       by rewrite Hjlow by lia. }
  do 2 f_equal. apply filter_agree. intros i Hi%elem_of_seqZ. rewrite Hclear.
  destruct (Z.eqb_spec i j); [lia|]. by rewrite andb_true_r.
Qed.

(** ** Selection *)

Section selection.
Context (s : SystemControl) (primask basepri faultmask : Z).
Abbreviation takable := (takable s primask basepri faultmask).
Abbreviation consider := (consider s primask basepri faultmask).

(** Lower priority values are more urgent; the exception number breaks ties. *)
Definition at_least_as_urgent (n m : Z) : Prop :=
  priority s n < priority s m \/ (priority s n = priority s m /\ n <= m).

Definition selects (seen : Z -> Prop) (selected : option (Z * Z)) : Prop :=
  match selected with
  | None => ∀ m, seen m -> takable m = false
  | Some (n, p) => seen n /\ takable n = true /\ p = priority s n
                   /\ ∀ m, seen m -> takable m = true -> at_least_as_urgent n m
  end.

Lemma consider_selects seen selected n : selects seen selected ->
  selects (fun m => seen m \/ m = n) (consider n selected).
Proof.
  unfold SystemControl.consider. intros Hsel. destruct (takable n) eqn:Ht; cbn [negb].
  - destruct selected as [[k p]|].
    + destruct Hsel as (Hk & Htk & -> & Hbest). unfold at_least_as_urgent in *.
      destruct (_ || _) eqn:Hbetter.
      * rewrite orb_true_iff, andb_true_iff, !Z.ltb_lt, Z.eqb_eq in Hbetter.
        split; [by right|]. split; [done|]. split; [done|]. intros m [Hm| ->] Htm; [|right; lia].
        specialize (Hbest m Hm Htm). unfold at_least_as_urgent. lia.
      * rewrite orb_false_iff, andb_false_iff, !Z.ltb_ge, Z.eqb_neq in Hbetter.
        split; [by left|]. split; [done|]. split; [done|]. intros m [Hm| ->] Htm; [by apply Hbest|].
        unfold at_least_as_urgent. lia.
    + split; [by right|]. split; [done|]. split; [done|]. intros m [Hm| ->] Htm; [|right; lia].
      rewrite Hsel in Htm by done. done.
  - destruct selected as [[k p]|].
    + destruct Hsel as (Hk & Htk & Hp & Hbest). split; [by left|]. split; [done|]. split; [done|].
      intros m [Hm| ->] Htm; [by apply Hbest|congruence].
    + intros m [Hm| ->]; [by apply Hsel|done].
Qed.

Lemma selects_proper (P Q : Z -> Prop) selected : (∀ m, P m <-> Q m) -> selects P selected -> selects Q selected.
Proof.
  intros HPQ. destruct selected as [[n p]|]; cbn.
  - intros (Hn & Ht & Hp & Hb). rewrite <- HPQ. split; [done|]. split; [done|]. split; [done|].
    intros m Hm. apply Hb. by apply HPQ.
  - intros H m Hm. apply H. by apply HPQ.
Qed.

Lemma fold_selects seen selected l : selects seen selected ->
  selects (fun m => seen m \/ m ∈ l) (foldl (fun sel n => consider n sel) selected l).
Proof.
  revert seen selected. induction l as [|n l IH]; intros seen selected Hsel; cbn [foldl].
  - eapply selects_proper; [|exact Hsel]. intros m. rewrite elem_of_nil. tauto.
  - eapply selects_proper; [|exact (IH _ _ (consider_selects _ _ n Hsel))].
    intros m. rewrite elem_of_cons. tauto.
Qed.
End selection.

(** ** The register invariant *)

(** Array sizes and register widths. *)
Record sys_typed (s : SystemControl) : Prop := {
  st_enable : length (sc_nvic_enable s) = 8%nat /\ Forall is_u32 (sc_nvic_enable s);
  st_pending : length (sc_nvic_pending s) = 8%nat /\ Forall is_u32 (sc_nvic_pending s);
  st_active : length (sc_nvic_active s) = 8%nat /\ Forall is_u32 (sc_nvic_active s);
  st_lines : length (sc_nvic_lines s) = 8%nat /\ Forall is_u32 (sc_nvic_lines s);
  st_priority : length (sc_nvic_priority s) = 240%nat /\ Forall is_u8 (sc_nvic_priority s);
  st_system : length (sc_system_priority s) = 12%nat /\ Forall is_u8 (sc_system_priority s);
  st_registers : Forall is_u32
    [sc_vtor s; sc_aircr s; sc_scr s; sc_ccr s; sc_shcsr s; sc_cfsr s; sc_hfsr s; sc_mmfar s;
     sc_bfar s; sc_cpacr s; sc_demcr s; sc_fpccr s; sc_dwt_ctrl s; sc_dwt_cyccnt s;
     sc_systick_value s];
  st_ctrl : 0 <= sc_systick_ctrl s < 8;
  st_load : 0 <= sc_systick_load s < 0x1000000;
  st_wrap : 0 <= sc_systick_cycles_to_wrap s <= sc_systick_load s + 1;
}.

Definition external_summary (s : SystemControl) : bool :=
  existsb (fun i => has (rget (sc_nvic_pending s) i) (rget (sc_nvic_enable s) i)) (seqZ 0 8).

(** The summary flag is exact, and every asserted line of an inactive interrupt is pending. *)
Record sys_ok (s : SystemControl) : Prop := {
  so_typed : sys_typed s;
  so_summary : sc_external_pending_enabled s = external_summary s;
  so_lines irq : 0 <= irq < 256 -> irq_bit (sc_nvic_lines s) irq = true ->
    irq_bit (sc_nvic_active s) irq = false -> irq_bit (sc_nvic_pending s) irq = true;
}.

Lemma irq_bit_testbit words irq : irq_bit words irq = Z.testbit (rget words (irq / 32)) (irq mod 32).
Proof.
  pose proof (Z.mod_pos_bound irq 32). unfold irq_bit, irq_mask.
  rewrite Z.shiftl_1_l. apply has_pow2. lia.
Qed.

Lemma has_common x y i : 0 <= i -> Z.testbit x i = true -> Z.testbit y i = true -> has x y = true.
Proof.
  intros Hi Hx Hy. unfold has. apply negb_true_iff, Z.eqb_neq. intros E.
  assert (Z.testbit (x .& y) i = false) by (rewrite E; apply Z.testbit_0_l).
  rewrite Z.land_spec, Hx, Hy in *. done.
Qed.

(** The exceptions that the loops of [nextPending] visit. *)
Definition visited (s : SystemControl) : list Z :=
  [exc_pend_sv; exc_sys_tick] ++ (seqZ 0 8 ≫= fun w =>
     (fun bit => 16 + w * 32 + bit) <$>
       filter (fun i => Z.testbit (rget (sc_nvic_pending s) w .& rget (sc_nvic_enable s) w) i = true)
         (seqZ 0 32)).

Lemma nextPending_fold primask basepri faultmask s : sys_typed s -> hasEnabledPending s = true ->
  nextPending primask basepri faultmask s
  = fst <$> foldl (fun sel n => consider s primask basepri faultmask n sel) None (visited s).
Proof.
  intros Ht Hp. unfold nextPending. rewrite Hp. cbn [negb]. unfold visited. f_equal.
  rewrite foldl_app. cbn [foldl]. generalize (consider s primask basepri faultmask exc_sys_tick
    (consider s primask basepri faultmask exc_pend_sv None)) as sel.
  assert (∀ w, is_u32 (rget (sc_nvic_pending s) w .& rget (sc_nvic_enable s) w)) as Hu.
  { intros w. apply is_u32_land_l, rget_range, Ht. }
  induction (seqZ 0 8) as [|w l IH]; intros sel; [done|]. cbn [foldl mbind list_bind].
  rewrite foldl_app, IH. f_equal.
  apply (consider_word_fold _ w _ sel 32 0); [done|lia| |lia]. intros i Hi. by apply Z.testbit_neg_r.
Qed.

Lemma pending_enabled_cases s n : isPending s n = true -> isEnabled s n = true ->
  (n = exc_pend_sv /\ sc_pendsv_pending s = true) \/ (n = exc_sys_tick /\ sc_systick_pending s = true)
  \/ ∃ w bit, n = 16 + w * 32 + bit /\ 0 <= w < 8 /\ 0 <= bit < 32
       /\ Z.testbit (rget (sc_nvic_pending s) w) bit = true /\ Z.testbit (rget (sc_nvic_enable s) w) bit = true.
Proof.
  unfold isPending, isEnabled.
  destruct (Z.eqb_spec n exc_pend_sv); [by left|]. destruct (Z.eqb_spec n exc_sys_tick); [by right; left|].
  unfold is_external. destruct (Z.leb_spec 16 n); [|done]. destruct (Z.ltb_spec n 256); [|done]. cbn [andb negb].
  destruct (Z.ltb_spec n 16); [lia|]. destruct (Z.leb_spec 256 n); [lia|]. rewrite !irq_bit_testbit. intros Hp He.
  right; right. exists ((n - 16) / 32), ((n - 16) mod 32).
  pose proof (Z.mod_pos_bound (n - 16) 32 ltac:(lia)). pose proof (Z.div_mod (n - 16) 32 ltac:(lia)).
  pose proof (Z.div_pos (n - 16) 32). pose proof (Z.div_lt_upper_bound (n - 16) 32 8).
  split; [lia|]. split; [lia|]. split; [lia|]. by split.
Qed.

Lemma pending_enabled_visited s n : isPending s n = true -> isEnabled s n = true -> n ∈ visited s.
Proof.
  intros Hp He. unfold visited. rewrite !elem_of_app, !elem_of_cons.
  destruct (pending_enabled_cases s n Hp He) as [[-> _]|[[-> _]|(w & bit & -> & Hw & Hbit & H1 & H2)]];
    [by left; left|by left; right; left|right].
  apply list_elem_of_bind. exists w. split; [|apply elem_of_seqZ; lia].
  apply list_elem_of_fmap. exists bit. split; [done|]. apply list_elem_of_filter.
  split; [by rewrite Z.land_spec, H1, H2|apply elem_of_seqZ; lia].
Qed.

(** [nextPending] selects the most urgent takable exception, and finds one when there is one. *)
Lemma nextPending_best primask basepri faultmask s : sys_ok s ->
  match nextPending primask basepri faultmask s with
  | Some n => takable s primask basepri faultmask n = true
      /\ ∀ m, takable s primask basepri faultmask m = true -> at_least_as_urgent s n m
  | None => ∀ m, takable s primask basepri faultmask m = false
  end.
Proof.
  intros Hok. pose proof (so_typed s Hok) as Ht.
  assert (∀ m, takable s primask basepri faultmask m = true -> m ∈ visited s) as Hvis.
  { intros m Hm. unfold takable in Hm. rewrite !andb_true_iff in Hm. apply pending_enabled_visited; tauto. }
  destruct (hasEnabledPending s) eqn:Hp.
  - rewrite nextPending_fold by done.
    assert (selects s primask basepri faultmask (fun _ => False) None) as H0 by (by intros ?).
    pose proof (fold_selects s primask basepri faultmask _ _ (visited s) H0) as Hsel.
    destruct (foldl _ None (visited s)) as [[n p]|]; cbn [fmap option_fmap option_map fst].
    + destruct Hsel as (_ & Hn & _ & Hb). split; [done|]. intros m Hm. apply Hb; [right; by apply Hvis|done].
    + intros m. destruct (takable s primask basepri faultmask m) eqn:Hm; [|done].
      rewrite <- Hm. apply Hsel. right. by apply Hvis.
  - unfold nextPending. rewrite Hp. cbn [negb]. intros m. apply not_true_iff_false. intros Hm.
    specialize (Hvis m Hm). unfold takable in Hm. rewrite !andb_true_iff in Hm. destruct Hm as (((((Hpm & Hem) & _) & _) & _) & _).
    unfold hasEnabledPending in Hp. rewrite !orb_false_iff in Hp. destruct Hp as [[Hsv Hst] Hext].
    destruct (pending_enabled_cases s m Hpm Hem) as [[_ ?]|[[_ ?]|(w & bit & -> & Hw & Hbit & H1 & H2)]]; [congruence..|].
    rewrite (so_summary s Hok) in Hext. apply not_true_iff_false in Hext. apply Hext, existsb_exists.
    exists w. split; [apply list_elem_of_In, elem_of_seqZ; lia|]. by apply (has_common _ _ bit); [lia|..].
Qed.

(** ** The architecture's rule

    An exception is taken when it is requested and its priority is below the execution priority: the priority of the
    running exception, lowered by PRIMASK to 0, by FAULTMASK to -1 and by a nonzero BASEPRI to its value. *)

(** The request and enable bits, by exception number. *)
Definition requested (s : SystemControl) (n : Z) : Prop :=
  (n = 14 /\ sc_pendsv_pending s = true) \/ (n = 15 /\ sc_systick_pending s = true)
  \/ (16 <= n < 256 /\ Z.testbit (rget (sc_nvic_pending s) ((n - 16) / 32)) ((n - 16) mod 32) = true
      /\ Z.testbit (rget (sc_nvic_enable s) ((n - 16) / 32)) ((n - 16) mod 32) = true).
(** The priority registers, with the fixed priorities of NMI and HardFault. *)
Definition exception_level (s : SystemControl) (n : Z) : Z :=
  if n =? 2 then -2 else if n =? 3 then -1
  else if (4 <=? n) && (n <? 16) then default 0 (sc_system_priority s !! Z.to_nat (n - 4))
  else if (16 <=? n) && (n <? 256) then default 0 (sc_nvic_priority s !! Z.to_nat (n - 16))
  else 0.
Definition execution_priority (primask basepri faultmask : Z) (s : SystemControl) : Z :=
  let running := if sc_active_exception s =? 0 then 256 else exception_level s (sc_active_exception s) in
  let by_primask := if primask =? 0 then 256 else 0 in
  let by_faultmask := if faultmask =? 0 then 256 else -1 in
  let by_basepri := if basepri .& 0xf0 =? 0 then 256 else basepri .& 0xf0 in
  Z.min (Z.min running by_primask) (Z.min by_faultmask by_basepri).
(** [n] comes before [m]: lower priority value, then lower number. *)
Definition comes_before (s : SystemControl) (n m : Z) : Prop := exception_level s n < exception_level s m \/ (exception_level s n = exception_level s m /\ n <= m).

Lemma requested_iff s n : requested s n <-> isPending s n = true /\ isEnabled s n = true.
Proof.
  unfold requested, isPending, isEnabled, is_external, exc_pend_sv, exc_sys_tick. rewrite !irq_bit_testbit.
  destruct (Z.eqb_spec n 14) as [->|]; [cbn; intuition lia|]. destruct (Z.eqb_spec n 15) as [->|]; [cbn; intuition lia|].
  destruct (Z.leb_spec 16 n), (Z.ltb_spec n 256), (Z.ltb_spec n 16), (Z.leb_spec 256 n); cbn; try lia; intuition (try lia; try done).
Qed.
Lemma level_architectural s n : exception_level s n = architectural_priority s n.
Proof.
  unfold exception_level, architectural_priority, priority, is_external, exc_nmi, exc_hard_fault, rget.
  destruct (Z.eqb_spec n 2); [done|]. destruct (Z.eqb_spec n 3); [done|].
  destruct (Z.leb_spec 4 n), (Z.ltb_spec n 16), (Z.leb_spec n 15); cbn; try lia; done.
Qed.
Lemma requested_level s n : sys_typed s -> requested s n -> exception_level s n = priority s n /\ 0 <= exception_level s n < 256 /\ 14 <= n.
Proof.
  intros Ht Hn. assert (14 <= n < 256) as Hr by (unfold requested in Hn; lia). rewrite level_architectural.
  assert (architectural_priority s n = priority s n) as ->.
  { unfold architectural_priority, exc_nmi, exc_hard_fault. destruct (Z.eqb_spec n 2), (Z.eqb_spec n 3); lia. }
  split; [done|]. split; [|lia]. unfold priority, rget. destruct Ht as [_ _ _ _ [_ Hp] [_ Hs] _ _ _ _].
  assert (∀ l i, Forall is_u8 l -> 0 <= default 0 (l !! i) < 256) as Hd.
  { intros l i Hl. destruct (l !! i) as [x|] eqn:E; cbn; [|lia]. pose proof (Forall_lookup_1 _ _ _ _ Hl E) as Hx. unfold is_u8 in Hx. lia. }
  destruct (_ && _); [by apply Hd|]. destruct (is_external n); [by apply Hd|lia].
Qed.
Lemma takable_iff primask basepri faultmask s n : sys_typed s ->
  takable s primask basepri faultmask n = true
  <-> requested s n /\ exception_level s n < execution_priority primask basepri faultmask s.
Proof.
  intros Ht. unfold takable. rewrite !andb_true_iff, requested_iff.
  assert (isPending s n = true -> isEnabled s n = true ->
    (negb (negb (faultmask =? 0) && negb (n =? exc_nmi)) && negb (negb (primask =? 0) && (exc_hard_fault <? n))
     && negb (negb (sc_active_exception s =? 0)
              && (architectural_priority s (sc_active_exception s) <=? architectural_priority s n))
     && negb (negb (basepri .& 0xf0 =? 0) && (exc_hard_fault <? n) && (basepri .& 0xf0 <=? priority s n)) = true
     <-> exception_level s n < execution_priority primask basepri faultmask s)) as Hmask.
  { intros Hp He. destruct (requested_level s n Ht) as (El&Hl&Hn); [by apply requested_iff|].
    pose proof (land_bounds_r basepri 0xf0). unfold execution_priority. rewrite <- !level_architectural, <- El.
    unfold exc_nmi, exc_hard_fault. destruct (Z.eqb_spec n 2), (Z.ltb_spec 3 n); try lia.
    destruct (Z.eqb_spec faultmask 0), (Z.eqb_spec primask 0), (Z.eqb_spec (sc_active_exception s) 0), (Z.eqb_spec (basepri .& 240) 0);
      cbn [negb andb]; lia. }
  rewrite !andb_true_iff in Hmask. tauto.
Qed.

(** ** Preservation *)

Lemma rget_seq (f : Z -> Z) i : 0 <= i < 8 -> rget (f <$> seqZ 0 8) i = f i.
Proof.
  intros Hi. unfold rget. rewrite list_lookup_fmap, lookup_seqZ_lt by lia. cbn. f_equal. lia.
Qed.
Lemma irq_mask_u32 irq : is_u32 (irq_mask irq).
Proof.
  pose proof (Z.mod_pos_bound irq 32). unfold irq_mask, is_u32. rewrite Z.shiftl_1_l.
  pose proof (Z.pow_pos_nonneg 2 (irq mod 32)). pose proof (Z.pow_lt_mono_r 2 (irq mod 32) 32). lia.
Qed.
Lemma set_irq_typed irq words : length words = 8%nat /\ Forall is_u32 words ->
  length (set_irq irq words) = 8%nat /\ Forall is_u32 (set_irq irq words).
Proof.
  intros [Hl Hf]. unfold set_irq. rewrite rset_length. split; [done|].
  apply rset_range; [done|]. apply is_u32_lor; [by apply rget_range|apply irq_mask_u32].
Qed.
Lemma clear_irq_typed irq words : length words = 8%nat /\ Forall is_u32 words ->
  length (clear_irq irq words) = 8%nat /\ Forall is_u32 (clear_irq irq words).
Proof.
  intros [Hl Hf]. unfold clear_irq. rewrite rset_length. split; [done|].
  apply rset_range; [done|]. by apply is_u32_land_l, rget_range.
Qed.

Ltac typed Ht :=
  destruct Ht; constructor; cbn [sc_nvic_enable sc_nvic_pending sc_nvic_active sc_nvic_lines
    sc_nvic_priority sc_system_priority sc_vtor sc_aircr sc_scr sc_ccr sc_shcsr sc_cfsr sc_hfsr
    sc_mmfar sc_bfar sc_cpacr sc_demcr sc_fpccr sc_dwt_ctrl sc_dwt_cyccnt sc_systick_value
    sc_systick_ctrl sc_systick_load sc_systick_cycles_to_wrap] in *;
  try done; auto using set_irq_typed, clear_irq_typed.

Lemma refresh_ok s : sys_typed s -> sys_ok (refreshPendingSummary s).
Proof.
  intros Ht. constructor.
  - pose proof (st_pending s Ht) as [_ Hp]. pose proof (st_lines s Ht) as [_ Hl]. typed Ht.
    split; [done|]. unfold refreshPendingSummary. cbn [sc_nvic_pending].
    apply Forall_fmap, Forall_forall. intros i _. cbn. apply is_u32_lor; [by apply rget_range|].
    by apply is_u32_land_l, rget_range.
  - done.
  - intros irq Hirq. unfold refreshPendingSummary. cbn [sc_nvic_lines sc_nvic_active sc_nvic_pending].
    rewrite !irq_bit_testbit. pose proof (Z.mod_pos_bound irq 32). pose proof (Z.div_pos irq 32).
    pose proof (Z.div_lt_upper_bound irq 32 8). rewrite rget_seq by lia.
    rewrite Z.lor_spec, Z.land_spec, not32_testbit by lia. intros -> ->. by rewrite orb_true_r.
Qed.

(** Operations that leave the interrupt arrays and the summary alone. *)
Lemma sys_ok_frame s s' : sys_ok s -> sys_typed s' -> sc_nvic_enable s' = sc_nvic_enable s ->
  sc_nvic_pending s' = sc_nvic_pending s -> sc_nvic_active s' = sc_nvic_active s ->
  sc_nvic_lines s' = sc_nvic_lines s ->
  sc_external_pending_enabled s' = sc_external_pending_enabled s -> sys_ok s'.
Proof.
  intros [Ht Hs Hl] Ht' E1 E2 E3 E4 E5. constructor; [done| |].
  - unfold external_summary. rewrite E5, E1, E2. exact Hs.
  - intros irq. rewrite E2, E3, E4. apply Hl.
Qed.

Lemma reset_ok vector_base : is_u32 vector_base -> sys_ok (system_reset vector_base).
Proof.
  intros Hv. constructor.
  - constructor; cbn; try (split; [done|]; repeat constructor; unfold is_u32, is_u8; lia); try lia.
    repeat constructor; try (unfold is_u32; lia); by apply is_u32_land_l.
  - done.
  - intros irq Hirq Hl. rewrite irq_bit_testbit in Hl. cbn [sc_nvic_lines system_reset] in Hl.
    unfold rget in Hl. rewrite lookup_replicate_2 in Hl; [by rewrite Z.testbit_0_l in Hl|].
    pose proof (Z.div_lt_upper_bound irq 32 8). lia.
Qed.

Lemma pend_ok n s : sys_ok s -> sys_ok (pend n s).
Proof.
  intros Hok. pose proof (so_typed s Hok) as Ht. unfold pend. repeat case_match; try done.
  - apply (sys_ok_frame s); try done. typed Ht.
  - apply (sys_ok_frame s); try done. typed Ht.
  - apply refresh_ok. typed Ht.
Qed.
Lemma clearPending_typed n s : sys_typed s -> sys_typed (clearPending n s).
Proof.
  intros Ht. unfold clearPending. repeat case_match; try (typed Ht; done).
  apply refresh_ok. typed Ht.
Qed.
Lemma clearPending_ok n s : sys_ok s -> sys_ok (clearPending n s).
Proof.
  intros Hok. pose proof (so_typed s Hok) as Ht. unfold clearPending. repeat case_match; try done.
  - apply (sys_ok_frame s); try done. typed Ht.
  - apply (sys_ok_frame s); try done. typed Ht.
  - apply refresh_ok. typed Ht.
Qed.
Lemma setInterruptLine_ok irq asserted s : sys_ok s -> sys_ok (setInterruptLine irq asserted s).
Proof.
  intros Hok. pose proof (so_typed s Hok) as Ht. unfold setInterruptLine. case_match; [done|].
  apply refresh_ok. destruct asserted, (irq_bit _ _); cbn [andb negb]; typed Ht.
Qed.
Lemma enter_ok n s : sys_ok s -> sys_ok (system_enter n s).
Proof.
  intros Hok. pose proof (so_typed s Hok) as Ht. unfold system_enter. destruct (is_external n) eqn:He.
  - unfold clearPending. destruct (Z.eqb_spec n exc_pend_sv) as [->|]; [done|].
    destruct (Z.eqb_spec n exc_sys_tick) as [->|]; [done|]. rewrite He. apply refresh_ok. typed Ht.
  - apply clearPending_ok. apply (sys_ok_frame s); try done. typed Ht.
Qed.
Lemma resume_ok n s : sys_ok s -> sys_ok (system_resume n s).
Proof. intros Hok. pose proof (so_typed s Hok) as Ht. apply (sys_ok_frame s); try done. typed Ht. Qed.
Lemma leave_ok n s : sys_ok s -> sys_ok (system_leave n s).
Proof.
  intros Hok. pose proof (so_typed s Hok) as Ht. unfold system_leave. apply refresh_ok.
  repeat case_match; typed Ht.
Qed.

(** ** SysTick *)

Definition systick_running (s : SystemControl) : bool :=
  has (sc_systick_ctrl s) 1 && negb (sc_systick_load s =? 0).
Definition systick_period (s : SystemControl) : Z := sc_systick_load s + 1.
(** Cycles since the last reload. *)
Definition systick_elapsed (s : SystemControl) : Z :=
  if sc_systick_cycles_to_wrap s =? 0 then 0 else systick_period s - sc_systick_cycles_to_wrap s.

Definition dwt_count (cycles : Z) (s : SystemControl) : Z :=
  if has (sc_dwt_ctrl s) 1 then u32 (sc_dwt_cyccnt s + cycles) else sc_dwt_cyccnt s.

(** The counter as division with remainder: [total / period] reloads in one step. *)
Definition advance_reference (cycles : Z) (s : SystemControl) : SystemControl :=
  let total := systick_elapsed s + cycles in
  let to_wrap := systick_period s - total mod systick_period s in
  let wrapped := systick_period s <=? total in
  if systick_running s && negb (cycles =? 0)
  then {| s with
          sc_systick_cycles_to_wrap := to_wrap;
          sc_systick_value := to_wrap - 1;
          sc_systick_count_flag := sc_systick_count_flag s || wrapped;
          sc_systick_pending := sc_systick_pending s || has (sc_systick_ctrl s) 2 && wrapped;
          sc_dwt_cyccnt := dwt_count cycles s |}
  else {| s with sc_dwt_cyccnt := dwt_count cycles s |}.

Lemma advanceCycles_reference c s : sys_typed s -> 0 <= c < 2 ^ 64 ->
  advanceCycles c s = advance_reference c s.
Proof.
  intros Ht Hc. pose proof (st_load s Ht) as Hload. pose proof (st_wrap s Ht) as Hwrap.
  unfold advanceCycles, advance_reference.
  set (s0 := if has (sc_dwt_ctrl s) 1 then _ else s).
  assert (s0 = {| s with sc_dwt_cyccnt := dwt_count c s |}) as ->.
  { unfold s0, dwt_count. rewrite u32_add_r. destruct (has _ _); [done|by destruct s]. }
  unfold systick_running, systick_elapsed, systick_period.
  cbn [sc_systick_ctrl sc_systick_load sc_systick_cycles_to_wrap].
  destruct (has (sc_systick_ctrl s) 1); cbn [negb orb andb]; [|done].
  destruct (Z.eqb_spec (sc_systick_load s) 0); cbn [negb orb andb]; [done|].
  destruct (Z.eqb_spec c 0); cbn [negb orb andb]; [done|].
  rewrite (u32_small (sc_systick_load s + 1)) by (unfold is_u32; lia).
  set (period := sc_systick_load s + 1) in *.
  set (w := if sc_systick_cycles_to_wrap s =? 0 then period else sc_systick_cycles_to_wrap s).
  set (e := if sc_systick_cycles_to_wrap s =? 0 then 0 else period - sc_systick_cycles_to_wrap s).
  assert (e = period - w /\ 0 < w <= period /\ 1 < period <= 0x1000000) as (-> & Hw & Hperiod).
  { unfold e, w, period. destruct (Z.eqb_spec (sc_systick_cycles_to_wrap s) 0); lia. }
  assert (∀ x, 0 < x <= period -> u32 (x - 1) = x - 1) as Hval by (intros; apply u32_small; unfold is_u32; lia).
  destruct (Z.ltb_spec c w).
  - rewrite (u32_small c), (u32_small (w - c)) by (unfold is_u32; lia).
    rewrite (Z.mod_small (period - w + c)) by lia. destruct (Z.leb_spec period (period - w + c)); [lia|].
    unfold set_cycles_to_wrap. rewrite Hval by lia. rewrite !andb_false_r, !orb_false_r.
    replace (period - (period - w + c)) with (w - c) by lia. done.
  - destruct (Z.leb_spec period (period - w + c)); [|lia]. rewrite !andb_true_r, !orb_true_r.
    assert ((period - w + c) mod period = (c - w) mod period) as ->.
    { replace (period - w + c) with (c - w + 1 * period) by lia. by rewrite Z_mod_plus_full. }
    pose proof (Z.mod_pos_bound (c - w) period ltac:(lia)) as Hm.
    destruct (Z.eqb_spec (c - w) 0) as [E0|E0]; cbn [negb].
    + rewrite E0, Z.mod_0_l, Z.sub_0_r by lia. unfold set_cycles_to_wrap. rewrite Hval by lia. done.
    + assert (∀ r, r = (c - w) mod period ->
        (if r =? 0 then period else u32 (period - u32 r)) = period - (c - w) mod period) as Hr.
      { intros r ->. destruct (Z.eqb_spec ((c - w) mod period) 0); [lia|].
        rewrite (u32_small ((c - w) mod period)) by (unfold is_u32; lia). apply u32_small. unfold is_u32. lia. }
      destruct (Z.leb_spec period (c - w)).
      * rewrite Hr by done. unfold set_cycles_to_wrap. rewrite Hval by lia.
        unfold systick_wrapped. cbn [sc_systick_pending sc_systick_ctrl]. by rewrite <- orb_assoc, orb_diag.
      * rewrite Hr by (rewrite Z.mod_small; lia). unfold set_cycles_to_wrap. by rewrite Hval by lia.
Qed.

Lemma advance_typed c s : sys_typed s -> 0 <= c -> sys_typed (advance_reference c s).
Proof.
  intros Ht Hc. pose proof (st_load s Ht). pose proof (st_wrap s Ht). pose proof (st_registers s Ht) as Hr.
  pose proof (Z.mod_pos_bound (systick_elapsed s + c) (systick_period s) ltac:(unfold systick_period; lia)) as Hm.
  unfold systick_period in Hm.
  assert (is_u32 (dwt_count c s)) as Hd.
  { unfold dwt_count. destruct (has _ _); [apply u32_range|]. rewrite !Forall_cons in Hr. tauto. }
  unfold advance_reference. destruct (systick_running s && negb (c =? 0)); typed Ht; unfold systick_period.
  - rewrite !Forall_cons in *. assert (is_u32 (sc_systick_load s + 1 - (systick_elapsed s + c) mod (sc_systick_load s + 1) - 1))
      by (unfold is_u32; lia). tauto.
  - lia.
  - rewrite !Forall_cons in *. tauto.
Qed.
Lemma advanceCycles_ok c s : sys_ok s -> 0 <= c < 2 ^ 64 -> sys_ok (advanceCycles c s).
Proof.
  intros Hok Hc. pose proof (so_typed s Hok) as Ht. rewrite advanceCycles_reference by done.
  apply (sys_ok_frame s); [done|apply advance_typed; [done|lia]|..]; unfold advance_reference; by case_match.
Qed.

(** Batching: two advances are one. *)
Lemma advance_add a b s : sys_typed s -> 0 <= a -> 0 <= b ->
  advance_reference b (advance_reference a s) = advance_reference (a + b) s.
Proof.
  intros Ht Ha Hb. pose proof (st_load s Ht) as Hload. pose proof (st_wrap s Ht) as Hwrap.
  assert (dwt_count 0 s = sc_dwt_cyccnt s) as D0.
  { unfold dwt_count. destruct (has _ _); [|done]. rewrite Z.add_0_r. apply u32_small.
    pose proof (st_registers s Ht) as Hr. rewrite !Forall_cons in Hr. tauto. }
  assert (u32 (u32 (sc_dwt_cyccnt s + a) + b) = u32 (sc_dwt_cyccnt s + (a + b))) as DA
    by (rewrite u32_add_l; f_equal; lia).
  unfold advance_reference at 2 3.
  destruct (systick_running s) eqn:Hrun; cbn [andb].
  2: { unfold advance_reference. change (systick_running _) with (systick_running s). rewrite Hrun. cbn [andb].
       unfold dwt_count. cbn [sc_dwt_ctrl sc_dwt_cyccnt]. destruct (has _ _); [by rewrite DA|done]. }
  destruct (Z.eqb_spec a 0) as [->|Ha0]; cbn [negb].
  { rewrite D0. replace {| s with sc_dwt_cyccnt := sc_dwt_cyccnt s |} with s by by destruct s.
    unfold advance_reference. rewrite Hrun. done. }
  destruct (Z.eqb_spec (a + b) 0); [lia|]. cbn [negb].
  set (period := systick_period s). set (e := systick_elapsed s).
  assert (1 < period) as Hp.
  { unfold period, systick_period. unfold systick_running in Hrun. apply andb_true_iff in Hrun as [_ Hz].
    apply negb_true_iff, Z.eqb_neq in Hz. lia. }
  assert (0 <= e < period) as He.
  { unfold e, systick_elapsed, period, systick_period in *.
    destruct (Z.eqb_spec (sc_systick_cycles_to_wrap s) 0); lia. }
  pose proof (Z.mod_pos_bound (e + a) period ltac:(lia)) as Hm.
  unfold advance_reference. change (systick_running _) with (systick_running s). rewrite Hrun. cbn [andb].
  change (systick_period (_ : SystemControl)) with period.
  destruct (Z.eqb_spec b 0) as [->|Hb0]; cbn [negb].
  { rewrite Z.add_0_r. unfold dwt_count in *. cbn [sc_dwt_ctrl sc_dwt_cyccnt].
    destruct (has (sc_dwt_ctrl s) 1); [|done]. rewrite DA, !Z.add_0_r. done. }
  unfold systick_elapsed. cbn [sc_systick_cycles_to_wrap sc_systick_count_flag sc_systick_pending sc_systick_ctrl].
  destruct (Z.eqb_spec (period - (e + a) mod period) 0); [lia|].
  change (systick_period (_ : SystemControl)) with period.
  replace (period - (period - (e + a) mod period) + b) with ((e + a) mod period + b) by lia.
  rewrite Z.add_mod_idemp_l by lia. rewrite <- (Z.add_assoc e a b).
  assert ((period <=? e + a) || (period <=? (e + a) mod period + b) = (period <=? e + (a + b))) as Hor.
  { destruct (Z.leb_spec period (e + a)).
    - cbn [orb]. symmetry. apply Z.leb_le. lia.
    - rewrite Z.mod_small by lia. cbn [orb]. by rewrite Z.add_assoc. }
  rewrite <- Hor. f_equal.
  - by rewrite <- orb_assoc.
  - unfold dwt_count. cbn [sc_dwt_ctrl sc_dwt_cyccnt]. destruct (has _ _); [by rewrite DA|done].
  - by rewrite <- orb_assoc, andb_orb_distrib_r.
Qed.

(** Advancing by [c] pends SysTick exactly from the announced deadline on. *)
Lemma systick_deadline c s : sys_typed s -> 0 <= c -> sc_systick_pending s = false ->
  sc_systick_pending (advance_reference c s)
  = match cyclesUntilSysTickInterrupt s with Some n => n <=? c | None => false end.
Proof.
  intros Ht Hc Hp. pose proof (st_load s Ht) as Hload. pose proof (st_wrap s Ht) as Hwrap.
  pose proof (st_ctrl s Ht) as Hctrl. unfold cyclesUntilSysTickInterrupt. rewrite Hp.
  assert ((sc_systick_ctrl s .& 3 =? 3) = has (sc_systick_ctrl s) 1 && has (sc_systick_ctrl s) 2) as ->.
  { assert (Hcases : Forall (fun x => (x .& 3 =? 3) = has x 1 && has x 2) (seqZ 0 8)) by by repeat constructor.
    rewrite Forall_forall in Hcases. apply Hcases, elem_of_seqZ. lia. }
  unfold advance_reference, systick_running. destruct (has (sc_systick_ctrl s) 1); cbn [andb negb orb]; [|done].
  destruct (Z.eqb_spec (sc_systick_load s) 0); cbn [andb negb orb]; [by rewrite orb_true_r|]. rewrite orb_false_r.
  destruct (has (sc_systick_ctrl s) 2); cbn [andb negb orb].
  - destruct (Z.eqb_spec c 0) as [->|]; cbn [negb sc_systick_pending]; rewrite Hp; cbn [orb];
      unfold systick_elapsed, systick_period; destruct (Z.eqb_spec (sc_systick_cycles_to_wrap s) 0);
      lia.
  - by destruct (c =? 0); cbn [negb sc_systick_pending]; rewrite Hp.
Qed.

(** ** Register accesses *)

Lemma merge_u32 old value mask : is_u32 old -> is_u32 value -> is_u32 (merge old value mask).
Proof. intros. unfold merge. apply is_u32_lor; by apply is_u32_land_l. Qed.
Lemma write_priorities_typed n bytes first value mask : length bytes = n /\ Forall is_u8 bytes ->
  length (write_priorities bytes first value mask) = n
  /\ Forall is_u8 (write_priorities bytes first value mask).
Proof.
  unfold write_priorities. revert bytes. induction (seqZ 0 4) as [|i l IH]; intros bytes Hb; [done|].
  cbn [foldl]. apply IH. destruct (has _ _); [|done]. destruct Hb as [Hl Hf]. rewrite rset_length.
  split; [done|]. apply Forall_insert; [done|]. unfold is_u8.
  pose proof (land_bounds_r (u8 (value .>> (i * 8))) 0xf0). lia.
Qed.
Lemma rset_word_typed words i v : length words = 8%nat /\ Forall is_u32 words -> is_u32 v ->
  length (rset words i v) = 8%nat /\ Forall is_u32 (rset words i v).
Proof. intros [Hl Hf] Hv. rewrite rset_length. split; [done|]. by apply rset_range. Qed.

Ltac registers := rewrite !Forall_cons in *; intuition (auto using merge_u32, is_u32_land_l).

Lemma pend_typed n s : sys_typed s -> sys_typed (pend n s).
Proof. intros Ht. unfold pend. repeat case_match; try done; try (typed Ht; done). apply refresh_ok. typed Ht. Qed.

(** One register assignment: the widths, the SysTick fields and the arrays in turn. *)
Ltac assign :=
  constructor; cbn [sc_nvic_enable sc_nvic_pending sc_nvic_active sc_nvic_lines
    sc_nvic_priority sc_system_priority sc_vtor sc_aircr sc_scr sc_ccr sc_shcsr sc_cfsr sc_hfsr
    sc_mmfar sc_bfar sc_cpacr sc_demcr sc_fpccr sc_dwt_ctrl sc_dwt_cyccnt sc_systick_value
    sc_systick_ctrl sc_systick_load sc_systick_cycles_to_wrap];
  try assumption; try lia;
  first [ repeat (apply Forall_cons_2; [auto using merge_u32, is_u32_land_l|]); apply Forall_nil_2
        | apply rset_word_typed; [assumption|];
          first [apply is_u32_lor|apply is_u32_land_l]; auto using rget_range, is_u32_land_l
        | auto ].

Lemma write_register_typed offset value mask s : sys_typed s -> is_u32 value ->
  sys_typed (write_register offset value mask s).
Proof.
  intros Ht Hv.
  pose proof (land_bounds_r (merge (sc_systick_ctrl s) value mask) 7 ltac:(lia)).
  pose proof (land_bounds_r (merge (sc_systick_load s) value mask) 0x00ffffff ltac:(lia)).
  pose proof (fun first => write_priorities_typed _ _ first value mask (st_priority s Ht)).
  pose proof (fun first => write_priorities_typed _ _ first value mask (st_system s Ht)).
  pose proof (fun n => pend_typed n s Ht) as Hpend. pose proof Ht as [He Hp Ha Hl Hnp Hsp Hr Hc Hld Hw].
  pose proof He as [_ He']. pose proof Hp as [_ Hp']. pose proof Hr as Hr'. rewrite !Forall_cons in Hr'.
  destruct Hr' as (? & ? & ? & ? & ? & ? & ? & ? & ? & ? & ? & ? & ? & ? & ? & _).
  assert (is_u32 0) by (unfold is_u32; lia). unfold write_register. cbv zeta.
  repeat (case_match; [try assumption; try (by apply Hpend); try assign|]); try assumption; assign.
Qed.

Lemma writeWord_ok offset value mask s : sys_ok s -> is_u32 value -> sys_ok (writeWord offset value mask s).
Proof.
  intros Hok Hv. pose proof (so_typed s Hok) as Ht.
  pose proof (write_register_typed offset value mask s Ht Hv) as Ht'. unfold writeWord.
  destruct (mutates_external_pending offset) eqn:Hm; [by apply refresh_ok|].
  destruct (Z.eqb_spec offset 0xef00) as [->|Hne].
  { change (sys_ok (if value .& 0x1ff <? 240 then pend (value .& 0x1ff + 16) s else s)).
    case_match; [by apply pend_ok|done]. }
  unfold mutates_external_pending in Hm. rewrite !orb_false_iff in Hm. destruct Hm as [[[H1 H2] H3] H4].
  apply (sys_ok_frame s); [done|done|..]; unfold write_register; cbv zeta; rewrite H1, H2, H3, H4;
    destruct (Z.eqb_spec offset 0xef00); try done; repeat (case_match; [done|]); done.
Qed.

Lemma readWord_ok offset s : sys_ok s -> sys_ok (snd (readWord offset s)).
Proof.
  intros Hok. assert (snd (readWord offset s) = s
    \/ snd (readWord offset s) = {| s with sc_systick_count_flag := false |}) as [-> | ->]; [|done|].
  - unfold readWord. destruct (offset =? 0x1000); [by left|]. destruct (offset =? 0x1004); [by left|].
    destruct (offset =? 0xe010); [by right|]. left. repeat (case_match; [done|]). done.
  - pose proof (so_typed s Hok) as Ht. apply (sys_ok_frame s); try done. typed Ht.
Qed.

Lemma system_access_ok offset size value c s : sys_ok s ->
  sys_ok (snd (system_read offset size c s)) /\ sys_ok (snd (system_write offset size value c s)).
Proof.
  intros Hok. unfold system_read, system_write. destruct (unsupported_access offset size); [done|].
  pose proof (readWord_ok (offset .& not32 3) s Hok) as Hr. destruct (readWord _ s). split; [done|].
  apply writeWord_ok; [done|]. apply u32_range.
Qed.

(** ** Reachable states *)

Inductive system_step : SystemControl -> SystemControl -> Prop :=
  | step_advance cycles s : 0 <= cycles < 2 ^ 64 -> system_step s (advanceCycles cycles s)
  | step_pend n s : system_step s (pend n s)
  | step_line irq asserted s : system_step s (setInterruptLine irq asserted s)
  | step_clear n s : system_step s (clearPending n s)
  | step_enter n s : system_step s (system_enter n s)
  | step_resume n s : system_step s (system_resume n s)
  | step_leave n s : system_step s (system_leave n s)
  | step_reset_request s : system_step s (snd (consumeResetRequest s))
  | step_read offset size c s : system_step s (snd (system_read offset size c s))
  | step_write offset size value c s : system_step s (snd (system_write offset size value c s))
  | step_reset vector_base s : is_u32 vector_base -> system_step s (system_reset vector_base).

Lemma system_step_ok s s' : system_step s s' -> sys_ok s -> sys_ok s'.
Proof.
  intros [] Hok; eauto using pend_ok, setInterruptLine_ok, clearPending_ok, enter_ok, resume_ok,
    leave_ok, reset_ok, advanceCycles_ok.
  - pose proof (so_typed s0 Hok) as Ht. apply (sys_ok_frame s0); try done. typed Ht.
  - exact (proj1 (system_access_ok offset size 0 c s0 Hok)).
  - exact (proj2 (system_access_ok offset size value c s0 Hok)).
Qed.
