(* ===== verification/Exceptions.v ===== *)
(** * Exception entry and return

    Models [ExceptionController] of [include/fil/cortexm/exceptions.hpp] and
    [src/cortexm/exceptions.cpp].  The controller holds references to the bus and to the
    system control block, which is itself a device of that bus: [SystemHost] is that sharing,
    a view of the block inside the memory state.  [Ctl] is the effect of its functions: they
    update the core, the memory and the stack of active exceptions in place and return a
    value or an error message; an error keeps the updates made before it. *)

From S2P Require Import Prelude Address Instruction CpuState MemoryApi SystemControl.

Class SystemHost (M : Type) := {
  system_of : M -> SystemControl;
  set_system : SystemControl -> M -> M;
}.

Record Controller (M : Type) := mkController {
  ec_cpu : CpuState;
  ec_mem : M;
  ec_active_stack : list Z;   (** oldest first *)
}.
Arguments mkController {_} _ _ _.
Arguments ec_cpu {_} _.
Arguments ec_mem {_} _.
Arguments ec_active_stack {_} _.

Definition Ctl (M A : Type) : Type := Controller M -> (A + string) * Controller M.

#[global] Instance Ctl_ret {M} : MRet (Ctl M) := fun _ a c => (inl a, c).
#[global] Instance Ctl_bind {M} : MBind (Ctl M) := fun _ _ f x c =>
  match x c with
  | (inl a, c) => f a c
  | (inr e, c) => (inr e, c)
  end.

(** Assignments to members of [CpuState]. *)
Definition set_msp (v : Z) (st : CpuState) : CpuState := {| st with cs_msp := v |}.
Definition set_psp (v : Z) (st : CpuState) : CpuState := {| st with cs_psp := v |}.
Definition set_control (v : Z) (st : CpuState) : CpuState := {| st with cs_control := v |}.
Definition set_thumb (st : CpuState) : CpuState := {| st with cs_thumb := true |}.
Definition set_instruction_address (v : Z) (st : CpuState) : CpuState :=
  {| st with cs_instruction_address := v |}.

Section controller.
Context `{CpuMemory M} `{SystemHost M}.

Definition runtimeError {A} (message : string) : Ctl M A := fun c => (inr message, c).
Definition get_cpu : Ctl M CpuState := fun c => (inl (ec_cpu c), c).
Definition set_cpu (st : CpuState) : Ctl M unit := fun c => (inl tt, {| c with ec_cpu := st |}).
Definition get_system : Ctl M SystemControl := fun c => (inl (system_of (ec_mem c)), c).
Definition modify_system (f : SystemControl -> SystemControl) : Ctl M unit :=
  fun c => (inl tt, {| c with ec_mem := set_system (f (system_of (ec_mem c))) (ec_mem c) |}).
Definition guard (ok : bool) (message : string) : Ctl M unit :=
  if ok then mret tt else runtimeError message.

(** A bus access, whose fault becomes [message] and the text of the fault. *)
Definition checked {A} (op : M -> MemoryResult A * M) (message : string) : Ctl M A := fun c =>
  let '(result, m) := op (ec_mem c) in
  let c := {| c with ec_mem := m |} in
  match result with
  | inl v => (inl v, c)
  | inr fault => (inr (message +:+ formatBusFault fault), c)
  end.

Definition data_read_context (st : CpuState) : AccessContext :=
  mkAccessContext AccessType.data_read (currentInstrAddr st).
Definition data_write_context (st : CpuState) : AccessContext :=
  mkAccessContext AccessType.data_write (currentInstrAddr st).

Definition validateStackRange (address size : Z) : Ctl M unit := fun c =>
  if containsWritableRange address size (ec_mem c) then (inl tt, c)
  else (inr "exception stack frame is outside writable memory", c).

Definition push_active (n : Z) : Ctl M unit :=
  fun c => (inl tt, {| c with ec_active_stack := ec_active_stack c ++ [n] |}).
(** [leaving = active_stack_.back(); active_stack_.pop_back(); system_.leave(leaving)]. *)
Definition pop_active : Ctl M unit := fun c =>
  let leaving := default 0 (last (ec_active_stack c)) in
  (inl tt, {| c with
     ec_active_stack := removelast (ec_active_stack c);
     ec_mem := set_system (system_leave leaving (system_of (ec_mem c))) (ec_mem c) |}).
(** [if (!active_stack_.empty()) system_.resume(active_stack_.back())]. *)
Definition resume_outer : Ctl M unit := fun c =>
  match last (ec_active_stack c) with
  | Some n => modify_system (system_resume n) c
  | None => (inl tt, c)
  end.
Definition check_active (st : CpuState) : Ctl M unit := fun c =>
  if bool_decide (ec_active_stack c = []) || negb (inHandlerMode st)
  then (inr "EXC_RETURN attempted outside an active exception", c) else (inl tt, c).

Definition fp_frame_size : Z := 72.

(** ** Entry *)

(** The eager floating-point frame: S0-S15, FPSCR and a reserved word. *)
Definition stack_fp_frame (new_sp : Z) : Ctl M unit :=
  st ← get_cpu;
  let c := data_write_context st in
  checked (write_words (sreg st <$> seqZ 0 16) new_sp c)
    "unable to stack floating-point exception frame: ";;
  checked (write32 (u32 (new_sp + 64)) (cs_fpscr st) c) "unable to stack FPSCR: ";;
  checked (write32 (u32 (new_sp + 68)) 0 c) "unable to stack floating-point reserved word: ";;
  mret tt.

(** The eight words of the integer frame. *)
Definition core_frame (add_padding : bool) (st : CpuState) : list Z :=
  [reg st 0; reg st 1; reg st 2; reg st 3; reg st 12; reg st 14; reg st 15 .| 1;
   cs_xpsr st .| xpsr_t .| (if add_padding then 1 .<< 9 else 0)].

(** One bulk store, or word by word when the bulk store declines. *)
Definition stack_core_frame (base : Z) (frame : list Z) : Ctl M unit := fun c =>
  let context := data_write_context (ec_cpu c) in
  let '(stored, m) := tryFastWriteWords base frame context (ec_mem c) in
  let c := {| c with ec_mem := m |} in
  if stored then (inl tt, c)
  else (checked (write_words frame base context) "unable to stack exception frame: ";; mret tt) c.

Definition exc_return_value (extended from_handler used_psp : bool) : Z :=
  if extended then (if from_handler then 0xffffffe1 else if used_psp then 0xffffffed else 0xffffffe9)
  else (if from_handler then 0xfffffff1 else if used_psp then 0xfffffffd else 0xfffffff9).

(** The lazy-stacking state after an entry at [new_sp]. *)
Definition lazy_state (lazy_fp : bool) (new_sp : Z) (st : CpuState) : CpuState :=
  if lazy_fp then {| st with cs_fp_lazy_active := true; cs_fp_lazy_base := new_sp |}
  else if cs_fp_lazy_active st then {| st with cs_fp_lazy_active := false |}
  else st.

(** The register updates at the end of [enter]. *)
Definition vectored (n new_sp handler : Z) (extended from_handler used_psp : bool) (st : CpuState)
    : CpuState :=
  let st := if used_psp then set_psp new_sp st else set_msp new_sp st in
  let st := set_reg 13 (cs_msp st) st in
  let st := set_reg 14 (exc_return_value extended from_handler used_psp) st in
  let st := set_reg 15 (handler .& not32 1) st in
  let st := set_thumb (set_instruction_address (handler .& not32 1) st) in
  let st := set_xpsr (cs_xpsr st .& not32 xpsr_ipsr_mask .| n .| xpsr_t) st in
  setItState 0 st.

Definition enter (n : Z) : Ctl M unit :=
  guard (negb ((n =? 0) || (256 <=? n))) "invalid Cortex-M exception number";;
  st ← get_cpu;
  sys ← get_system;
  let from_handler := inHandlerMode st in
  let used_psp := negb from_handler && has (cs_control st) 2 in
  let extended := has (cs_control st) 4 in
  let old_sp := if used_psp then cs_psp st else cs_msp st in
  let add_padding := has (sc_ccr sys) (1 .<< 9) && has old_sp 7 in
  let frame_size := 32 + (if extended then fp_frame_size else 0) + (if add_padding then 4 else 0) in
  guard (negb (old_sp <? frame_size)) "exception stack pointer underflow";;
  let new_sp := old_sp - frame_size in
  validateStackRange new_sp frame_size;;
  let vector_address := sc_vtor sys + n * 4 in
  guard (negb (0xffffffff <? vector_address)) "exception vector address wraps target space";;
  handler ← checked (read32 vector_address (data_read_context st))
              "unable to read exception vector: ";
  guard (has handler 1) "exception handler vector does not select Thumb state";;
  sys ← get_system;
  let lazy_fp := extended && has (sc_fpccr sys) fpccr_lspen && negb (cs_fp_lazy_active st) in
  (if extended && negb lazy_fp then stack_fp_frame new_sp else mret tt);;
  set_cpu (lazy_state lazy_fp new_sp st);;
  let core_frame_base := u32 (new_sp + (if extended then fp_frame_size else 0)) in
  stack_core_frame core_frame_base (core_frame add_padding st);;
  st ← get_cpu;
  set_cpu (vectored n new_sp handler extended from_handler used_psp st);;
  push_active n;;
  modify_system (system_enter n).

(** Whether an exception was taken. *)
Definition enterPending : Ctl M bool :=
  st ← get_cpu;
  sys ← get_system;
  match nextPending (cs_primask st) (cs_basepri st) (cs_faultmask st) sys with
  | None => mret false
  | Some pending => enter pending;; mret true
  end.

(** ** Return *)

(** Loads S0-S15 one by one, each assigned as it is read, then FPSCR. *)
Fixpoint unstack_fp (indices : list Z) (stack_pointer : Z) : Ctl M unit :=
  match indices with
  | [] => mret tt
  | index :: indices =>
      st ← get_cpu;
      value ← checked (read32 (u32 (stack_pointer + index * 4)) (data_read_context st))
                "unable to unstack floating-point exception frame: ";
      set_cpu (set_sreg index value st);;
      unstack_fp indices stack_pointer
  end.
Definition unstack_fp_frame (stack_pointer : Z) : Ctl M unit :=
  unstack_fp (seqZ 0 16) stack_pointer;;
  st ← get_cpu;
  fpscr ← checked (read32 (u32 (stack_pointer + 64)) (data_read_context st))
            "unable to unstack FPSCR: ";
  set_cpu {| st with cs_fpscr := fpscr |}.

Definition unstack_core_frame (base : Z) : Ctl M (list Z) := fun c =>
  let context := data_read_context (ec_cpu c) in
  let '(frame, m) := tryFastReadWords base 8 context (ec_mem c) in
  let c := {| c with ec_mem := m |} in
  match frame with
  | Some frame => (inl frame, c)
  | None => checked (read_words 8 base context) "unable to unstack exception frame: " c
  end.

Definition it_state_of (xpsr : Z) : Z := u8 (xpsr .>> 8 .& 0xfc .| xpsr .>> 25 .& 0x03).

(** The register updates at the end of [exceptionReturn], up to the stack pointers and CONTROL. *)
Definition unstacked (frame : list Z) (exc_return : Z) (use_psp extended : bool) (st : CpuState)
    : CpuState :=
  let word i := rget frame i in
  let had_padding := has (word 7) (1 .<< 9) in
  let st := set_reg 0 (word 0) st in
  let st := set_reg 1 (word 1) st in
  let st := set_reg 2 (word 2) st in
  let st := set_reg 3 (word 3) st in
  let st := set_reg 12 (word 4) st in
  let st := set_reg 14 (word 5) st in
  let st := set_reg 15 (word 6 .& not32 1) st in
  let st := set_thumb (set_xpsr (word 7 .& not32 (1 .<< 9)) st) in
  let advance := (if extended then fp_frame_size else 0) + 32 + (if had_padding then 4 else 0) in
  let st := if use_psp then set_psp (u32 (cs_psp st + advance)) st
            else set_msp (u32 (cs_msp st + advance)) st in
  let st := if has exc_return (1 .<< 3)
            then set_control (cs_control st .& not32 6 .| (if use_psp then 2 else 0)
                                .| (if extended then 4 else 0)) st
            else st in
  st.
Definition resumed (frame : list Z) (exc_return : Z) (use_psp extended : bool) (st : CpuState)
    : CpuState :=
  let st := unstacked frame exc_return use_psp extended st in
  let st := set_reg 13 (activeSp st) st in
  let st := set_instruction_address (reg st 15) st in
  setItState (it_state_of (cs_xpsr st)) st.

Definition thumb_message (stack_pointer : Z) (frame : list Z) : string :=
  "exception return frame clears Thumb state sp=0x" +:+ hex_padded 8 stack_pointer
  +:+ " pc=0x" +:+ hex_padded 8 (rget frame 6) +:+ " xpsr=0x" +:+ hex_padded 8 (rget frame 7).

Definition exceptionReturn (exc_return : Z) : Ctl M unit :=
  guard (isExceptionReturn exc_return) "invalid EXC_RETURN value";;
  st ← get_cpu;
  check_active st;;
  let use_psp := has exc_return (1 .<< 2) in
  let extended := negb (has exc_return (1 .<< 4)) in
  let core_frame_offset := if extended then fp_frame_size else 0 in
  let stack_pointer := if use_psp then cs_psp st else cs_msp st in
  validateStackRange stack_pointer (core_frame_offset + 32);;
  (if extended && negb (cs_fp_lazy_active st) then unstack_fp_frame stack_pointer else mret tt);;
  st ← get_cpu;
  set_cpu {| st with cs_fp_lazy_active := false |};;
  frame ← unstack_core_frame (u32 (stack_pointer + core_frame_offset));
  guard (has (rget frame 7) xpsr_t) (thumb_message stack_pointer frame);;
  pop_active;;
  st ← get_cpu;
  set_cpu (resumed frame exc_return use_psp extended st);;
  resume_outer.
End controller.
