(* ===== verification/MemoryBus.v ===== *)
(** * The target address map and its side-effect journal

    Models [MemoryBus] of [include/fil/mem/memory_bus.hpp] and [src/mem/memory_bus.cpp] on a
    little-endian host: region construction, lookup, checked accesses with alias translation
    and MMIO dispatch, the backed-memory fast paths, the bulk word transfers, the mutation
    journal with its checkpoints, and the read footprint.  MMIO devices are a parameter: the
    class [MmioDevices] is the virtual interface [MmioDevice], over one state [D] for all
    devices of the map. *)

From stdpp Require Import gmap sorting.
From S2P Require Import Prelude Address CpuState MemoryApi.
#[local] Open Scope Z_scope.
#[local] Open Scope fil_scope.

(** ** Data *)

Module RegionKind.
Inductive t : Type := ram | rom | flash | alias | mmio.
#[export] Instance eq_dec : EqDecision t.
Proof. solve_decision. Defined.
End RegionKind.
Export (hints) RegionKind.

Module MmioDomain.
Inductive t : Type := board_local | shared.
#[export] Instance eq_dec : EqDecision t.
Proof. solve_decision. Defined.
End MmioDomain.
Export (hints) MmioDomain.

Record Region := mkRegion {
  rg_base : Z;
  rg_size : Z;
  rg_kind : RegionKind.t;
  rg_name : string;
  rg_readable : bool;
  rg_writable : bool;
  rg_executable : bool;
  rg_bytes : list Z;
  rg_alias_target : Z;
  rg_device : nat;
}.

(** The virtual interface of the mapped peripherals. *)
Class MmioDevices (D : Type) := {
  device_read : nat -> Z -> AccessSize.t -> AccessContext -> D -> MemoryResult Z * D;
  device_write : nat -> Z -> AccessSize.t -> Z -> AccessContext -> D -> MemoryResult Z * D;
  device_domain : nat -> Z -> AccessSize.t -> D -> MmioDomain.t;
  (** The FPCCR word of the attached system control block. *)
  device_fpccr : D -> option Z;
}.

Record BackedMutation := mkBackedMutation {
  bm_address : Z;
  bm_old_value : Z;
  bm_external : bool;
}.
Definition mutation_default : BackedMutation := mkBackedMutation 0 0 false.

Record ReadFootprint := mkReadFootprint {
  rf_words : list Z;
  rf_complete : bool;
}.
Definition footprint_default : ReadFootprint := mkReadFootprint [0; 0; 0; 0] true.

Record AccessWatchEntry := mkAccessWatchEntry {
  aw_address : Z;
  aw_width : Z;
  aw_write : bool;
}.

Record SideEffectCheckpoint := mkCheckpoint {
  ck_mutation_sequence : Z;
  ck_mmio_generation : Z;
  ck_journal_generation : Z;
}.

Record Bus (D : Type) := mkBus {
  bus_regions : list Region;
  bus_execution_generation : Z;
  bus_side_effect_generation : Z;
  bus_mmio_generation : Z;
  bus_mutation_sequence : Z;
  bus_journal_generation : Z;
  bus_restoration_generation : Z;
  bus_write_journal_tracking : bool;
  (** The ring [mutation_journal_]; an absent key is a value-initialised slot. *)
  bus_mutation_journal : gmap Z BackedMutation;
  bus_read_footprint : ReadFootprint;
  bus_read_footprint_tracking : bool;
  bus_access_watch_log : list AccessWatchEntry;
  bus_access_watch_log_enabled : bool;
  bus_store_footprint_tracking : bool;
  bus_trap_shared_mmio : bool;
  bus_trap_all_mmio : bool;
  bus_reversible_ram_only : bool;
  bus_devices : D;
}.
Arguments mkBus {_}.
Arguments bus_regions {_} _.
Arguments bus_execution_generation {_} _.
Arguments bus_side_effect_generation {_} _.
Arguments bus_mmio_generation {_} _.
Arguments bus_mutation_sequence {_} _.
Arguments bus_journal_generation {_} _.
Arguments bus_restoration_generation {_} _.
Arguments bus_write_journal_tracking {_} _.
Arguments bus_mutation_journal {_} _.
Arguments bus_read_footprint {_} _.
Arguments bus_read_footprint_tracking {_} _.
Arguments bus_access_watch_log {_} _.
Arguments bus_access_watch_log_enabled {_} _.
Arguments bus_store_footprint_tracking {_} _.
Arguments bus_trap_shared_mmio {_} _.
Arguments bus_trap_all_mmio {_} _.
Arguments bus_reversible_ram_only {_} _.
Arguments bus_devices {_} _.

Definition maximum_alias_depth : nat := 8.
Definition mutation_journal_capacity : Z := 8192.

Definition empty_bus {D} (devices : D) : Bus D :=
  {| bus_regions := []; bus_execution_generation := 1; bus_side_effect_generation := 1;
     bus_mmio_generation := 1; bus_mutation_sequence := 0; bus_journal_generation := 1;
     bus_restoration_generation := 0; bus_write_journal_tracking := true;
     bus_mutation_journal := ∅; bus_read_footprint := footprint_default;
     bus_read_footprint_tracking := true; bus_access_watch_log := [];
     bus_access_watch_log_enabled := false; bus_store_footprint_tracking := false;
     bus_trap_shared_mmio := false; bus_trap_all_mmio := false;
     bus_reversible_ram_only := false; bus_devices := devices |}.

(** ** Regions *)

Definition validRange (base size : Z) : bool :=
  negb (size =? 0) && (base <=? 0xffffffff - (size - 1)).

Definition region_end (r : Region) : Z := rg_base r + rg_size r.
Definition region_contains (r : Region) (address : Z) : bool :=
  (rg_base r <=? address) && (address <? region_end r).
Definition containsRange (r : Region) (address size : Z) : bool :=
  (rg_base r <=? address) && (address + size <=? region_end r).

(** RAM, ROM or flash: storage held in the region itself. *)
Definition is_backed (r : Region) : bool :=
  match rg_kind r with
  | RegionKind.ram | RegionKind.rom | RegionKind.flash => true
  | _ => false
  end.
Definition is_mmio (r : Region) : bool :=
  match rg_kind r with RegionKind.mmio => true | _ => false end.
Definition is_alias (r : Region) : bool :=
  match rg_kind r with RegionKind.alias => true | _ => false end.
Definition is_ram (r : Region) : bool :=
  match rg_kind r with RegionKind.ram => true | _ => false end.

(** [std::upper_bound] on the sorted bases: the number of leading regions at or below. *)
Fixpoint upper_bound (address : Z) (regions : list Region) : nat :=
  match regions with
  | [] => O
  | r :: rest => if address <? rg_base r then O else S (upper_bound address rest)
  end.

Definition find_region (address : Z) (regions : list Region) : option (nat * Region) :=
  match upper_bound address regions with
  | O => None
  | S i =>
      match regions !! i with
      | Some r => if region_contains r address then Some (i, r) else None
      | None => None
      end
  end.

Definition rg_overlap (candidate existing : Region) : bool :=
  Z.max (rg_base candidate) (rg_base existing)
    <? Z.min (region_end candidate) (region_end existing).

Definition base_le (l r : Region) : Prop := rg_base l <= rg_base r.
#[global] Instance base_le_dec l r : Decision (base_le l r).
Proof. unfold base_le. apply _. Defined.

Section bus.
Context `{MmioDevices D}.

Definition bump_execution (b : Bus D) : Bus D :=
  {| b with bus_execution_generation := u64 (bus_execution_generation b + 1) |}.
Definition bump_side_effect (b : Bus D) : Bus D :=
  {| b with bus_side_effect_generation := u64 (bus_side_effect_generation b + 1) |}.
Definition bump_mmio (b : Bus D) : Bus D :=
  {| b with bus_mmio_generation := u64 (bus_mmio_generation b + 1) |}.
Definition bump_execution_if (executable : bool) (b : Bus D) : Bus D :=
  if executable then bump_execution b else b.

(** ** Map construction *)

Definition addRegion (region : Region) (b : Bus D) : (unit + string) * Bus D :=
  if negb (validRange (rg_base region) (rg_size region)) then
    (inr ("memory region '" +:+ rg_name region +:+ "' has an empty or wrapping range"), b)
  else
    match List.find (rg_overlap region) (bus_regions b) with
    | Some existing =>
        (inr ("memory region '" +:+ rg_name region +:+ "' overlaps region '"
              +:+ rg_name existing +:+ "'"), b)
    | None =>
        (inl tt,
         bump_execution
           {| b with bus_regions := merge_sort base_le (bus_regions b ++ [region]) |})
    end.

Definition backed_region (kind : RegionKind.t) (base size : Z) (name : string)
    (writable executable : bool) (fill : Z) : Region :=
  {| rg_base := base; rg_size := size; rg_kind := kind; rg_name := name;
     rg_readable := true; rg_writable := writable; rg_executable := executable;
     rg_bytes := if validRange base size then replicate (Z.to_nat size) fill else [];
     rg_alias_target := 0; rg_device := 0 |}.

Definition mapRam (base size : Z) (name : string) (executable : bool) (b : Bus D) :=
  addRegion (backed_region RegionKind.ram base size name true executable 0) b.
Definition mapRom (base size : Z) (name : string) (executable : bool) (b : Bus D) :=
  addRegion (backed_region RegionKind.rom base size name false executable 0xff) b.
Definition mapFlash (base size : Z) (name : string) (executable : bool) (b : Bus D) :=
  addRegion (backed_region RegionKind.flash base size name true executable 0xff) b.

Definition mapAlias (alias_base target_base size : Z) (name : string) (b : Bus D)
    : (unit + string) * Bus D :=
  if negb (validRange target_base size) then
    (inr ("alias '" +:+ name +:+ "' has an empty or wrapping target range"), b)
  else
    let failed := inr ("alias '" +:+ name
                       +:+ "' target range is not contained in one mapped region") in
    match find_region target_base (bus_regions b) with
    | None => (failed, b)
    | Some (_, target) =>
        if negb (containsRange target target_base size) then (failed, b)
        else
          addRegion
            {| rg_base := alias_base; rg_size := size; rg_kind := RegionKind.alias;
               rg_name := name; rg_readable := rg_readable target;
               rg_writable := rg_writable target; rg_executable := rg_executable target;
               rg_bytes := []; rg_alias_target := target_base; rg_device := 0 |} b
    end.

Definition mapMmio (base size : Z) (device : nat) (name : string) (b : Bus D) :=
  addRegion
    {| rg_base := base; rg_size := size; rg_kind := RegionKind.mmio; rg_name := name;
       rg_readable := true; rg_writable := true; rg_executable := false; rg_bytes := [];
       rg_alias_target := 0; rg_device := device |} b.

(** ** Read footprint and access log *)

Definition footprintBitIndices (address : Z) : list Z :=
  let word := address .>> 2 in
  let first := u32 (word * 0x9e3779b1) in
  let second := u32 ((word .^ word .>> 16) * 0x85ebca6b) in
  [first .>> 24; second .>> 24].

Definition footprint_set (words : list Z) (bit : Z) : list Z :=
  rset words (bit .>> 6) (rget words (bit .>> 6) .| 1 .<< (bit .& 63)).

Definition addReadFootprint (f : ReadFootprint) (address : Z) : ReadFootprint :=
  {| f with rf_words := foldl footprint_set (rf_words f) (footprintBitIndices address) |}.

Definition footprintContains (f : ReadFootprint) (address : Z) : bool :=
  forallb (fun bit => has (rget (rf_words f) (bit .>> 6)) (1 .<< (bit .& 63)))
    (footprintBitIndices address).

(** The words touched by [address, address + width), first word aligned down. *)
Definition span_words (address width : Z) : list Z :=
  let first := address .& not32 3 in
  (fun i => u32 (first + 4 * i)) <$> seqZ 0 ((address + width - first + 3) / 4).

Definition log_access (address width : Z) (write : bool) (b : Bus D) : Bus D :=
  {| b with bus_access_watch_log :=
       bus_access_watch_log b ++ [mkAccessWatchEntry address (Z.min width 8) write] |}.

Definition mark_footprint (words : list Z) (b : Bus D) : Bus D :=
  {| b with bus_read_footprint := foldl addReadFootprint (bus_read_footprint b) words |}.

Definition addAccessFootprint (address width : Z) (b : Bus D) : Bus D :=
  let b := if bus_access_watch_log_enabled b && negb (width =? 0)
           then log_access address width false b else b in
  if negb (bus_read_footprint_tracking b) || (width =? 0) then b
  else if (address .& 3 =? 0) && (width <=? 4) then mark_footprint [address] b
  else mark_footprint (span_words address width) b.

Definition addStoreFootprint (address width : Z) (c : AccessContext) (b : Bus D) : Bus D :=
  if (ctx_pc c =? 0) || (width =? 0) then b
  else
    let b := if bus_access_watch_log_enabled b then log_access address width true b else b in
    if negb (bus_store_footprint_tracking b) then b
    else mark_footprint (span_words address width) b.

Definition is_data_read (c : AccessContext) : bool :=
  match ctx_type c with AccessType.data_read => true | _ => false end.
Definition is_fetch (c : AccessContext) : bool :=
  match ctx_type c with AccessType.instruction_fetch => true | _ => false end.

Definition note_backed_read (address width : Z) (c : AccessContext) (b : Bus D) : Bus D :=
  if is_data_read c && negb (ctx_pc c =? 0) then addAccessFootprint address width b else b.

(** ** Backed storage *)

(** Little-endian value of [width] bytes. *)
Fixpoint le_value (bytes : list Z) : Z :=
  match bytes with
  | [] => 0
  | byte :: rest => byte .| le_value rest .<< 8
  end.

Definition region_bytes (r : Region) (offset width : Z) : list Z :=
  take (Z.to_nat width) (drop (Z.to_nat offset) (rg_bytes r)).
Definition region_value (r : Region) (offset width : Z) : Z :=
  le_value (region_bytes r offset width).

Definition set_region (i : nat) (r : Region) (b : Bus D) : Bus D :=
  {| b with bus_regions := <[i := r]> (bus_regions b) |}.
Definition region_at (i : nat) (b : Bus D) : Region :=
  default (backed_region RegionKind.ram 0 0 EmptyString true false 0) (bus_regions b !! i).
Definition set_byte (i : nat) (offset byte : Z) (b : Bus D) : Bus D :=
  let r := region_at i b in
  set_region i {| r with rg_bytes := rset (rg_bytes r) offset byte |} b.

Definition journal_slot (sequence : Z) : Z := (sequence - 1) mod mutation_journal_capacity.

Definition recordMutation (address old_value : Z) (external : bool) (b : Bus D) : Bus D :=
  let sequence := u64 (bus_mutation_sequence b + 1) in
  let b := {| b with bus_mutation_sequence := sequence |} in
  if bus_write_journal_tracking b then
    {| b with bus_mutation_journal :=
         <[journal_slot sequence := mkBackedMutation address old_value external]>
           (bus_mutation_journal b) |}
  else b.

(** One byte of a backed store: journalled when it changes the stored value. *)
Definition store_byte (i : nat) (address offset byte : Z) (external : bool) (b : Bus D)
    : Bus D :=
  let old := rget (rg_bytes (region_at i b)) offset in
  if old =? byte then b
  else set_byte i offset byte (bump_side_effect (recordMutation address old external b)).

Definition value_byte (value index : Z) : Z := u8 (value .>> (index * 8)).

(** The byte loop of the generic and narrow stores. *)
Definition store_bytes (i : nat) (address offset value width : Z) (external : bool)
    (b : Bus D) : Bus D :=
  foldl (fun b index => store_byte i (u32 (address + index)) (offset + index)
                          (value_byte value index) external b)
    b (seqZ 0 width).

(** *** The word store *)

(** [record_lane] of [storeBackedWord]: journals one differing byte of the old word. *)
Definition record_lane (address old_value difference : Z) (external : bool)
    (acc : Z * gmap Z BackedMutation) (shift : Z) : Z * gmap Z BackedMutation :=
  let '(sequence, journal) := acc in
  if difference .& (0xff .<< shift) =? 0 then acc
  else
    (u64 (sequence + 1),
     <[sequence mod mutation_journal_capacity :=
         mkBackedMutation (u32 (address + shift / 8)) (u8 (old_value .>> shift)) external]>
       journal).

(** The SWAR count of differing bytes used when journalling is off. *)
Definition changed_byte_count (difference : Z) : Z :=
  let changed := difference .| difference .>> 4 in
  let changed := changed .| changed .>> 2 in
  let changed := changed .| changed .>> 1 in
  let changed := changed .& 0x01010101 in
  u32 (changed * 0x01010101) .>> 24.

Definition write_region_bytes (r : Region) (offset : Z) (bytes : list Z) : Region :=
  {| r with rg_bytes := list_inserts (Z.to_nat offset) bytes (rg_bytes r) |}.

Definition word_bytes (value : Z) : list Z :=
  [value_byte value 0; value_byte value 1; value_byte value 2; value_byte value 3].

Definition storeBackedWord (i : nat) (offset value : Z) (external : bool) (b : Bus D)
    : Bus D :=
  let r := region_at i b in
  let old_value := region_value r offset 4 in
  if old_value =? value then b
  else
    let difference := old_value .^ value in
    let b' :=
      if bus_write_journal_tracking b then
        let address := u32 (rg_base r + offset) in
        let '(sequence, journal) :=
          foldl (record_lane address old_value difference external)
            (bus_mutation_sequence b, bus_mutation_journal b) [0; 8; 16; 24] in
        let changed_bytes := u64 (sequence - bus_mutation_sequence b) in
        {| b with
           bus_mutation_sequence := sequence;
           bus_mutation_journal := journal;
           bus_side_effect_generation := u64 (bus_side_effect_generation b + changed_bytes) |}
      else
        let changed_bytes := changed_byte_count difference in
        {| b with
           bus_mutation_sequence := u64 (bus_mutation_sequence b + changed_bytes);
           bus_side_effect_generation := u64 (bus_side_effect_generation b + changed_bytes) |}
    in
    set_region i (write_region_bytes r offset (word_bytes value)) b'.

(** ** Checked accesses *)

Definition makeFault (reason : BusFaultReason.t) (address : Z) (size : AccessSize.t)
    (c : AccessContext) (region message : string) : BusFault :=
  mkBusFault reason address size c region message.

Definition name_fault (region : string) (fault : BusFault) : BusFault :=
  if bool_decide (fault_region fault = EmptyString)
  then {| fault with fault_region := region |} else fault.

Definition mmio_traps (r : Region) (offset : Z) (size : AccessSize.t) (b : Bus D) : bool :=
  bus_trap_all_mmio b
  || (bus_trap_shared_mmio b
      && bool_decide (device_domain (rg_device r) offset size (bus_devices b)
                      = MmioDomain.shared)).

(** The bookkeeping of one dispatched MMIO access. *)
Definition note_mmio (address width : Z) (write : bool) (c : AccessContext) (b : Bus D)
    : Bus D :=
  let b := if bus_access_watch_log_enabled b && negb (ctx_pc c =? 0)
           then {| b with bus_access_watch_log :=
                     bus_access_watch_log b ++ [mkAccessWatchEntry address width write] |}
           else b in
  bump_mmio (bump_side_effect b).

Definition sync_fault (address : Z) (size : AccessSize.t) (c : AccessContext) (r : Region)
    : BusFault :=
  makeFault BusFaultReason.synchronization_required address size c (rg_name r)
    "MMIO access requires coordinator synchronization".

Definition read_mmio (r : Region) (address : Z) (size : AccessSize.t) (c : AccessContext)
    (b : Bus D) : MemoryResult Z * Bus D :=
  let offset := address - rg_base r in
  if mmio_traps r offset size b then (inr (sync_fault address size c r), b)
  else
    let b := note_mmio address (byteCount size) false c b in
    let '(result, devices) := device_read (rg_device r) offset size c (bus_devices b) in
    let b := {| b with bus_devices := devices |} in
    match result with
    | inl value => (inl (value .& accessWidthMask size), b)
    | inr fault => (inr (name_fault (rg_name r) fault), b)
    end.

Definition write_mmio (r : Region) (address : Z) (size : AccessSize.t) (value : Z)
    (c : AccessContext) (b : Bus D) : MemoryResult Z * Bus D :=
  let offset := address - rg_base r in
  if mmio_traps r offset size b then (inr (sync_fault address size c r), b)
  else
    let b := note_mmio address (byteCount size) true c b in
    let '(result, devices) :=
      device_write (rg_device r) offset size (value .& accessWidthMask size) c
        (bus_devices b) in
    let b := {| b with bus_devices := devices |} in
    match result with
    | inl value => (inl value, b)
    | inr fault => (inr (name_fault (rg_name r) fault), b)
    end.

(** [MemoryBus::read] and [MemoryBus::write]; [depth] is the number of alias translations
    still allowed, [maximum_alias_depth - alias_depth]. *)
Fixpoint bus_read (depth : nat) (address : Z) (size : AccessSize.t) (c : AccessContext)
    (b : Bus D) : MemoryResult Z * Bus D :=
  let width := byteCount size in
  if negb (validRange address width) then
    (inr (makeFault BusFaultReason.address_overflow address size c EmptyString
            "memory read wraps target address space"), b)
  else
    match find_region address (bus_regions b) with
    | None =>
        (inr (makeFault BusFaultReason.unmapped address size c EmptyString
                "read from unmapped memory"), b)
    | Some (_, r) =>
        let fault reason message :=
          (inr (makeFault reason address size c (rg_name r) message), b) in
        if negb (containsRange r address width) then
          fault BusFaultReason.cross_region "memory read crosses a region boundary"
        else if negb (rg_readable r) then
          fault BusFaultReason.read_protected "memory region is not readable"
        else if is_fetch c && negb (rg_executable r) then
          fault BusFaultReason.execute_protected "memory region is not executable"
        else if is_alias r then
          match depth with
          | O => fault BusFaultReason.alias_cycle
                   "alias translation exceeded its recursion limit"
          | S depth => bus_read depth (u32 (rg_alias_target r + (address - rg_base r))) size c b
          end
        else if is_mmio r then read_mmio r address size c b
        else (inl (region_value r (address - rg_base r) width),
              note_backed_read address width c b)
    end.

Fixpoint bus_write (depth : nat) (address : Z) (size : AccessSize.t) (value : Z)
    (c : AccessContext) (b : Bus D) : MemoryResult Z * Bus D :=
  let width := byteCount size in
  if negb (validRange address width) then
    (inr (makeFault BusFaultReason.address_overflow address size c EmptyString
            "memory write wraps target address space"), b)
  else
    match find_region address (bus_regions b) with
    | None =>
        (inr (makeFault BusFaultReason.unmapped address size c EmptyString
                "write to unmapped memory"), b)
    | Some (i, r) =>
        let fault reason message :=
          (inr (makeFault reason address size c (rg_name r) message), b) in
        if negb (containsRange r address width) then
          fault BusFaultReason.cross_region "memory write crosses a region boundary"
        else if is_alias r then
          match depth with
          | O => fault BusFaultReason.alias_cycle
                   "alias translation exceeded its recursion limit"
          | S depth =>
              bus_write depth (u32 (rg_alias_target r + (address - rg_base r))) size value c b
          end
        else if negb (rg_writable r) then
          fault BusFaultReason.write_protected "memory region is not writable"
        else if bus_reversible_ram_only b && (negb (is_ram r) || rg_executable r) then
          fault BusFaultReason.synchronization_required
            "store requires coordinator synchronization outside reversible RAM"
        else if is_mmio r then write_mmio r address size value c b
        else
          let b := addStoreFootprint address width c b in
          let b := store_bytes i address (address - rg_base r) value width
                     (ctx_pc c =? 0) b in
          (inl 0, bump_execution_if (rg_executable r) b)
    end.

(** ** Backed-memory fast paths *)

Definition fast_readable (r : Region) (address width : Z) (c : AccessContext) : bool :=
  is_backed r && rg_readable r && containsRange r address width
  && negb (is_fetch c && negb (rg_executable r)).

Definition fast_writable (r : Region) (address width : Z) (require_nonexecutable_ram : bool)
    (b : Bus D) : bool :=
  is_backed r && rg_writable r && containsRange r address width
  && negb ((bus_reversible_ram_only b || require_nonexecutable_ram)
           && (negb (is_ram r) || rg_executable r)).

Definition bus_tryFastRead (address : Z) (size : AccessSize.t) (c : AccessContext) (b : Bus D)
    : option Z * Bus D :=
  let width := byteCount size in
  if width =? 8 then (None, b)
  else
    match find_region address (bus_regions b) with
    | Some (_, r) =>
        if fast_readable r address width c
        then (Some (region_value r (address - rg_base r) width),
              note_backed_read address width c b)
        else (None, b)
    | None => (None, b)
    end.

Definition bus_tryFastRead32 (address : Z) (c : AccessContext) (b : Bus D)
    : option Z * Bus D :=
  match find_region address (bus_regions b) with
  | Some (_, r) =>
      if fast_readable r address 4 c
      then (Some (region_value r (address - rg_base r) 4), note_backed_read address 4 c b)
      else (None, b)
  | None => (None, b)
  end.

Definition bus_tryFastWrite32 (address value : Z) (c : AccessContext)
    (require_nonexecutable_ram : bool) (b : Bus D) : bool * Bus D :=
  match find_region address (bus_regions b) with
  | Some (i, r) =>
      if fast_writable r address 4 require_nonexecutable_ram b then
        let b := addStoreFootprint address 4 c b in
        let b := storeBackedWord i (address - rg_base r) value (ctx_pc c =? 0) b in
        (true, bump_execution_if (rg_executable r) b)
      else (false, b)
  | None => (false, b)
  end.

Definition bus_tryFastWrite (address : Z) (size : AccessSize.t) (value : Z)
    (c : AccessContext) (require_nonexecutable_ram : bool) (b : Bus D) : bool * Bus D :=
  let width := byteCount size in
  if width =? 8 then (false, b)
  else
    match find_region address (bus_regions b) with
    | Some (i, r) =>
        if fast_writable r address width require_nonexecutable_ram b then
          let b := addStoreFootprint address width c b in
          let offset := address - rg_base r in
          let external := ctx_pc c =? 0 in
          let b := if width =? 4 then storeBackedWord i offset (u32 value) external b
                   else store_bytes i address offset value width external b in
          (true, bump_execution_if (rg_executable r) b)
        else (false, b)
    | None => (false, b)
    end.

Definition bus_tryFastReadWords (address count : Z) (c : AccessContext) (b : Bus D)
    : option (list Z) * Bus D :=
  let span := count * 4 in
  if (count =? 0) || (0xffffffff <? span) then (None, b)
  else
    match find_region address (bus_regions b) with
    | Some (_, r) =>
        if is_backed r && rg_readable r && containsRange r address span then
          let tracked := is_data_read c && negb (ctx_pc c =? 0) in
          let footprint := bus_read_footprint_tracking b && tracked in
          let log_reads := bus_access_watch_log_enabled b && tracked in
          let base := address - rg_base r in
          let values := (fun w => region_value r (base + w * 4) 4) <$> seqZ 0 count in
          (Some values,
           if footprint || log_reads
           then foldl (fun b w => addAccessFootprint (u32 (address + w * 4)) 4 b) b
                  (seqZ 0 count)
           else b)
        else (None, b)
    | None => (None, b)
    end.

Definition bus_tryFastWriteWords (address : Z) (values : list Z) (c : AccessContext)
    (require_nonexecutable_ram : bool) (b : Bus D) : bool * Bus D :=
  let count := Z.of_nat (length values) in
  let span := count * 4 in
  if (count =? 0) || (0xffffffff <? span) then (false, b)
  else
    match find_region address (bus_regions b) with
    | Some (i, r) =>
        if fast_writable r address span require_nonexecutable_ram b then
          let b := addStoreFootprint address span c b in
          let base := address - rg_base r in
          let b := foldl (fun b '(w, value) =>
                            storeBackedWord i (base + w * 4) value (ctx_pc c =? 0) b)
                     b (zip (seqZ 0 count) values) in
          (true, bump_execution_if (rg_executable r) b)
        else (false, b)
    | None => (false, b)
    end.

(** ** Public width-specific accesses *)

Definition narrow (mask : Z -> Z) (p : MemoryResult Z * Bus D) : MemoryResult Z * Bus D :=
  match p with
  | (inl v, b) => (inl (mask v), b)
  | (inr f, b) => (inr f, b)
  end.

Definition bus_read_narrow (size : AccessSize.t) (mask : Z -> Z) (address : Z)
    (c : AccessContext) (b : Bus D) : MemoryResult Z * Bus D :=
  match bus_tryFastRead address size c b with
  | (Some value, b) => (inl (mask value), b)
  | (None, b) => narrow mask (bus_read maximum_alias_depth address size c b)
  end.
Definition bus_read8 := bus_read_narrow AccessSize.byte u8.
Definition bus_read16 := bus_read_narrow AccessSize.halfword u16.

Definition bus_read32 (address : Z) (c : AccessContext) (b : Bus D)
    : MemoryResult Z * Bus D :=
  match bus_tryFastRead32 address c b with
  | (Some value, b) => (inl value, b)
  | (None, b) => narrow u32 (bus_read maximum_alias_depth address AccessSize.word c b)
  end.

Definition bus_read64 (address : Z) (c : AccessContext) (b : Bus D) :=
  bus_read maximum_alias_depth address AccessSize.doubleword c b.

Definition bus_write_narrow (size : AccessSize.t) (address value : Z) (c : AccessContext)
    (b : Bus D) : MemoryResult Z * Bus D :=
  match bus_tryFastWrite address size value c false b with
  | (true, b) => (inl 0, b)
  | (false, b) => bus_write maximum_alias_depth address size value c b
  end.
Definition bus_write8 := bus_write_narrow AccessSize.byte.
Definition bus_write16 := bus_write_narrow AccessSize.halfword.

Definition bus_write32 (address value : Z) (c : AccessContext) (b : Bus D)
    : MemoryResult Z * Bus D :=
  match bus_tryFastWrite32 address value c false b with
  | (true, b) => (inl 0, b)
  | (false, b) => bus_write maximum_alias_depth address AccessSize.word value c b
  end.

Definition bus_write64 (address value : Z) (c : AccessContext) (b : Bus D) :=
  bus_write maximum_alias_depth address AccessSize.doubleword value c b.

(** ** Range probes *)

Definition isMmioRange (address size : Z) (b : Bus D) : bool :=
  if size =? 0 then false
  else match find_region address (bus_regions b) with
       | Some (_, r) => is_mmio r && containsRange r address size
       | None => false
       end.

Definition isBackedRange (address size : Z) (is_store : bool) (b : Bus D) : bool :=
  if size =? 0 then false
  else match find_region address (bus_regions b) with
       | Some (_, r) =>
           is_backed r && (if is_store then rg_writable r else rg_readable r)
           && containsRange r address size
       | None => false
       end.

Definition isReversibleRamTarget (address : Z) (b : Bus D) : bool :=
  match find_region address (bus_regions b) with
  | Some (_, r) => is_ram r && negb (rg_executable r)
  | None => false
  end.

Definition bus_containsWritableRange (address size : Z) (b : Bus D) : bool :=
  existsb (fun r => rg_writable r && negb (is_mmio r)
                    && (rg_base r <=? address) && (address + size <=? region_end r))
    (bus_regions b).

Definition containsWritableRamRange (address size : Z) (b : Bus D) : bool :=
  if (size =? 0) || (0xffffffff <? size) then false
  else match find_region address (bus_regions b) with
       | Some (_, r) => is_ram r && rg_writable r && containsRange r address size
       | None => false
       end.

Definition bus_mmioTrapping (b : Bus D) : bool :=
  bus_trap_shared_mmio b || bus_trap_all_mmio b.

(** [readMmioChecked]/[writeMmioChecked]: the access with the trap modes lifted. *)
Definition without_traps (op : Bus D -> MemoryResult Z * Bus D) (b : Bus D)
    : MemoryResult Z * Bus D :=
  let '(result, b') :=
    op {| b with bus_trap_all_mmio := false; bus_reversible_ram_only := false |} in
  (result, {| b' with bus_trap_all_mmio := bus_trap_all_mmio b;
                      bus_reversible_ram_only := bus_reversible_ram_only b |}).
Definition readMmioChecked (address : Z) (size : AccessSize.t) (c : AccessContext) :=
  without_traps (bus_read maximum_alias_depth address size c).
Definition writeMmioChecked (address : Z) (size : AccessSize.t) (value : Z)
    (c : AccessContext) :=
  without_traps (bus_write maximum_alias_depth address size value c).

(** ** Loading *)

Definition loadBytes (address : Z) (bytes : list Z) (b : Bus D) : (unit + string) * Bus D :=
  let size := Z.of_nat (length bytes) in
  if size =? 0 then (inl tt, b)
  else if (0xffffffff <? size) || negb (validRange address size) then
    (inr "load byte range wraps target address space", b)
  else
    let outside := inr "load byte range is not contained in one mapped region" in
    match find_region address (bus_regions b) with
    | None => (outside, b)
    | Some (i, r) =>
        if negb (containsRange r address size) then (outside, b)
        else if negb (is_backed r) then
          (inr ("load bytes require directly backed RAM, ROM, or flash, not region '"
                +:+ rg_name r +:+ "'"), b)
        else
          let offset := address - rg_base r in
          let b := foldl (fun b '(index, byte) =>
                            let old := rget (rg_bytes r) (offset + index) in
                            if old =? byte then b
                            else bump_side_effect (recordMutation (u32 (address + index)) old true b))
                     b (zip (seqZ 0 size) bytes) in
          let b := set_region i (write_region_bytes r offset bytes) b in
          (inl tt, bump_execution_if (rg_executable r) b)
    end.

(** ** Tracking modes *)

Definition setReadFootprintTracking (enabled : bool) (b : Bus D) : Bus D :=
  if eqb (bus_read_footprint_tracking b) enabled then b
  else {| b with bus_read_footprint_tracking := enabled;
                 bus_read_footprint := {| footprint_default with rf_complete := enabled |} |}.

Definition setAccessWatchLog (enabled : bool) (b : Bus D) : Bus D :=
  {| b with bus_access_watch_log_enabled := enabled; bus_access_watch_log := [] |}.

Definition setWriteJournalTracking (enabled : bool) (b : Bus D) : Bus D :=
  if eqb (bus_write_journal_tracking b) enabled then b
  else {| b with bus_write_journal_tracking := enabled;
                 bus_journal_generation := u64 (bus_journal_generation b + 1) |}.

Definition takeReadFootprint (b : Bus D) : ReadFootprint * Bus D :=
  (bus_read_footprint b,
   {| b with bus_read_footprint :=
        {| footprint_default with rf_complete := bus_read_footprint_tracking b |} |}).

(** ** Checkpoints and rollback *)

Definition sideEffectCheckpoint (b : Bus D) : SideEffectCheckpoint :=
  mkCheckpoint (bus_mutation_sequence b) (bus_mmio_generation b) (bus_journal_generation b).

Definition journal_at (b : Bus D) (sequence : Z) : BackedMutation :=
  default mutation_default (bus_mutation_journal b !! journal_slot sequence).

Definition same_epoch (ck : SideEffectCheckpoint) (b : Bus D) : bool :=
  (ck_mmio_generation ck =? bus_mmio_generation b)
  && (ck_journal_generation ck =? bus_journal_generation b).

Definition in_window (ck : SideEffectCheckpoint) (b : Bus D) : bool :=
  bus_write_journal_tracking b && (ck_mutation_sequence ck <=? bus_mutation_sequence b)
  && (bus_mutation_sequence b - ck_mutation_sequence ck <=? mutation_journal_capacity).

(** The sequence numbers after the checkpoint, oldest first. *)
Definition window (ck : SideEffectCheckpoint) (b : Bus D) : list Z :=
  seqZ (ck_mutation_sequence ck + 1) (bus_mutation_sequence b - ck_mutation_sequence ck).

(** The byte currently stored at a directly backed address. *)
Definition backed_byte (address : Z) (b : Bus D) : option Z :=
  match find_region address (bus_regions b) with
  | Some (_, r) =>
      if is_mmio r || is_alias r then None
      else Some (rget (rg_bytes r) (address - rg_base r))
  | None => None
  end.

(** [first_for_address]: no earlier entry of the window has the same address. *)
Definition first_for_address (ck : SideEffectCheckpoint) (b : Bus D) (sequence : Z) : bool :=
  let current := bm_address (journal_at b sequence) in
  forallb (fun prior => negb (bm_address (journal_at b prior) =? current))
    (seqZ (ck_mutation_sequence ck + 1) (sequence - ck_mutation_sequence ck - 1)).

Definition sideEffectsRestoredSince (ck : SideEffectCheckpoint) (b : Bus D) : bool :=
  if negb (same_epoch ck b) then false
  else if ck_mutation_sequence ck =? bus_mutation_sequence b then true
  else if negb (in_window ck b) then false
  else
    forallb (fun sequence =>
      let current := journal_at b sequence in
      if negb (first_for_address ck b sequence) then true
      else match backed_byte (bm_address current) b with
           | None => false
           | Some byte => byte =? bm_old_value current
           end) (window ck b).

(** [only_external]: every entry of this address from [sequence] on was external. *)
Definition only_external (b : Bus D) (sequence : Z) : bool :=
  let first := journal_at b sequence in
  bm_external first
  && forallb (fun later =>
       let mutation := journal_at b later in
       negb (bm_address mutation =? bm_address first) || bm_external mutation)
       (seqZ (sequence + 1) (bus_mutation_sequence b - sequence)).

Definition sideEffectsCompatibleSince (ck : SideEffectCheckpoint) (footprint : ReadFootprint)
    (b : Bus D) : bool :=
  if negb (same_epoch ck b) then false
  else if ck_mutation_sequence ck =? bus_mutation_sequence b then true
  else if negb (rf_complete footprint) || negb (in_window ck b) then false
  else
    forallb (fun sequence =>
      let first := journal_at b sequence in
      if negb (first_for_address ck b sequence) then true
      else match backed_byte (bm_address first) b with
           | None => false
           | Some byte =>
               (byte =? bm_old_value first)
               || (only_external b sequence
                   && negb (footprintContains footprint (bm_address first)))
           end) (window ck b).

Definition canRestoreSideEffects (ck : SideEffectCheckpoint) (b : Bus D) : bool :=
  same_epoch ck b && (ck_mutation_sequence ck <=? bus_mutation_sequence b)
  && ((ck_mutation_sequence ck =? bus_mutation_sequence b)
      || (bus_write_journal_tracking b
          && (bus_mutation_sequence b - ck_mutation_sequence ck
                <=? mutation_journal_capacity))).

(** The rollback loop, newest entry first; [None] when an entry has no backed region, with
    the bus as mutated so far. *)
Fixpoint restore_loop (count : nat) (sequence : Z) (executable_changed : bool) (b : Bus D)
    : option bool * Bus D :=
  match count with
  | O => (Some executable_changed, b)
  | S count =>
      let mutation := journal_at b sequence in
      match find_region (bm_address mutation) (bus_regions b) with
      | None => (None, b)
      | Some (i, r) =>
          if is_mmio r || is_alias r then (None, b)
          else
            let b := set_byte i (bm_address mutation - rg_base r) (bm_old_value mutation) b in
            let b := {| b with bus_mutation_journal :=
                          <[journal_slot sequence := mutation_default]>
                            (bus_mutation_journal b) |} in
            restore_loop count (sequence - 1) (executable_changed || rg_executable r) b
      end
  end.

Definition restoreSideEffects (ck : SideEffectCheckpoint) (b : Bus D) : bool * Bus D :=
  if negb (canRestoreSideEffects ck b) then (false, b)
  else
    let count := Z.to_nat (bus_mutation_sequence b - ck_mutation_sequence ck) in
    match restore_loop count (bus_mutation_sequence b) false b with
    | (None, b) => (false, b)
    | (Some executable_changed, b) =>
        let b := {| b with bus_mutation_sequence := ck_mutation_sequence ck |} in
        let b := bump_execution_if executable_changed (bump_side_effect b) in
        (true, {| b with bus_restoration_generation :=
                    u64 (bus_restoration_generation b + 1) |})
    end.

(** ** The bus as the processor's memory *)

#[global] Instance Bus_CpuMemory : CpuMemory (Bus D) := {|
  read8 := bus_read8; read16 := bus_read16; read32 := bus_read32;
  write8 := bus_write8; write16 := bus_write16; write32 := bus_write32;
  tryFastRead32 := bus_tryFastRead32;
  tryFastRead := bus_tryFastRead;
  tryFastWrite32 a v c := bus_tryFastWrite32 a v c false;
  tryFastWrite a s v c := bus_tryFastWrite a s v c false;
  tryFastReadWords := bus_tryFastReadWords;
  tryFastWriteWords a vs c := bus_tryFastWriteWords a vs c false;
  containsWritableRange := bus_containsWritableRange;
  mmioTrapping := bus_mmioTrapping;
  system_fpccr b := device_fpccr (bus_devices b);
|}.
End bus.
