(* ===== verification/MemoryBusProofs.v ===== *)
(** * Properties of the memory bus

    The region invariant [bus_ok] and its preservation, uniqueness of region lookup,
    equality of the word store with four byte stores, agreement of the fast paths with the
    checked accesses, and the instance of the processor's memory interface. *)

From stdpp Require Import gmap sorting.
From S2P Require Import Prelude Address InstructionProofs CpuState CpuStateProofs MemoryApi.
From S2P Require Import MemoryBus.
#[local] Open Scope Z_scope.
#[local] Open Scope fil_scope.

(** ** The map invariant *)

Record region_ok (r : Region) : Prop := {
  rgk_base : 0 <= rg_base r;
  rgk_size : 0 < rg_size r;
  rgk_end : region_end r <= 0x100000000;
  rgk_bytes : is_backed r = true -> length (rg_bytes r) = Z.to_nat (rg_size r);
  rgk_range : Forall is_u8 (rg_bytes r);
}.

(** One region ends before the next begins. *)
Definition rg_before (l r : Region) : Prop := region_end l <= rg_base r.

Record regions_ok (rs : list Region) : Prop := {
  rsk_regions : Forall region_ok rs;
  rsk_sorted : StronglySorted rg_before rs;
}.

Definition bus_ok {D} (b : Bus D) : Prop := regions_ok (bus_regions b).

Lemma region_contains_spec r a :
  region_contains r a = true <-> rg_base r <= a < region_end r.
Proof. unfold region_contains. rewrite andb_true_iff, Z.leb_le, Z.ltb_lt. done. Qed.
Lemma containsRange_spec r a n :
  containsRange r a n = true <-> rg_base r <= a /\ a + n <= region_end r.
Proof. unfold containsRange. by rewrite andb_true_iff, !Z.leb_le. Qed.
Lemma validRange_spec base size : 0 <= size ->
  validRange base size = true <-> 0 < size /\ base + size <= 0x100000000.
Proof.
  intros. unfold validRange. rewrite andb_true_iff, negb_true_iff, Z.eqb_neq, Z.leb_le. lia.
Qed.

(** ** Lookup *)

Lemma find_region_Some a rs i r : find_region a rs = Some (i, r) ->
  rs !! i = Some r /\ region_contains r a = true.
Proof.
  unfold find_region. destruct (upper_bound a rs) as [|k]; [done|].
  destruct (rs !! k) as [r'|] eqn:E; [|done].
  destruct (region_contains r' a) eqn:C; [|done]. by intros [= <- <-].
Qed.

Lemma upper_bound_app a l1 r l2 :
  Forall (fun q => rg_base q <= a) l1 -> rg_base r <= a ->
  Forall (fun q => a < rg_base q) l2 -> upper_bound a (l1 ++ r :: l2) = S (length l1).
Proof.
  intros H1 Hr H2. induction H1 as [|q l1 Hq H1 IH]; simpl.
  - destruct (Z.ltb_spec a (rg_base r)); [lia|]. f_equal.
    destruct H2 as [|q l2 Hq H2]; simpl; [done|]. by destruct (Z.ltb_spec a (rg_base q)); [|lia].
  - destruct (Z.ltb_spec a (rg_base q)); [lia|]. by rewrite IH.
Qed.

Lemma sorted_split (R : relation Region) l1 r l2 : StronglySorted R (l1 ++ r :: l2) ->
  Forall (fun q => R q r) l1 /\ Forall (R r) l2.
Proof.
  intros Hs. induction l1 as [|q l1 IH]; simpl in Hs; inversion_clear Hs as [|? ? Hs' Hf].
  - done.
  - apply Forall_app in Hf as [_ Hf]. inversion_clear Hf. destruct (IH Hs'). by split; [constructor|].
Qed.

(** In a well-formed map, the region that contains an address is the one found. *)
Lemma find_region_complete rs i r a : regions_ok rs -> rs !! i = Some r ->
  region_contains r a = true -> find_region a rs = Some (i, r).
Proof.
  intros [Hr Hs] Hi Hc. pose proof (proj1 (region_contains_spec r a) Hc) as Hb.
  pose proof (list_elem_of_split_length rs i r Hi) as (l1 & l2 & -> & ->).
  apply sorted_split in Hs as [Hl1 Hl2].
  apply Forall_app in Hr as [Hr1 Hr2].
  unfold find_region. rewrite upper_bound_app.
  - by rewrite list_lookup_middle, Hc.
  - apply Forall_forall. intros q Hq. rewrite Forall_forall in Hl1, Hr1.
    pose proof (Hl1 q Hq) as Hbefore. pose proof (rgk_size _ (Hr1 q Hq)).
    unfold rg_before, region_end in *. lia.
  - lia.
  - apply Forall_forall. intros q Hq. rewrite Forall_forall in Hl2.
    pose proof (Hl2 q Hq) as Hbefore. unfold rg_before in *. lia.
Qed.

Lemma find_region_same rs a i r a' : regions_ok rs -> find_region a rs = Some (i, r) ->
  rg_base r <= a' < region_end r -> find_region a' rs = Some (i, r).
Proof.
  intros Hok Hf Ha. apply find_region_Some in Hf as [Hi _].
  apply find_region_complete; [done|done|]. by apply region_contains_spec.
Qed.

Lemma regions_ok_lookup rs i r : regions_ok rs -> rs !! i = Some r -> region_ok r.
Proof. intros [Hr _] Hi. by eapply Forall_lookup_1. Qed.

(** ** Little-endian values *)

Lemma le_value_nonneg bs : Forall is_u8 bs -> 0 <= le_value bs.
Proof.
  induction 1 as [|b bs Hb _ IH]; simpl; [lia|].
  apply Z.lor_nonneg. split; [width_lia|]. by apply Z.shiftl_nonneg.
Qed.
Lemma le_value_cons b bs : is_u8 b -> le_value (b :: bs) = b + le_value bs * 256.
Proof.
  intros Hb. simpl. rewrite Z.shiftl_mul_pow2 by lia. change 256 with (2 ^ 8).
  apply lor_disjoint_add; width_lia.
Qed.
Lemma le_value_bound bs : Forall is_u8 bs -> 0 <= le_value bs < 2 ^ (8 * Z.of_nat (length bs)).
Proof.
  induction 1 as [|b bs Hb Hbs IH]; [simpl; lia|].
  rewrite le_value_cons by done. cbn [length].
  replace (8 * Z.of_nat (S (length bs))) with (8 + 8 * Z.of_nat (length bs)) by lia.
  rewrite Z.pow_add_r by lia. change (2 ^ 8) with 256. width_lia.
Qed.
Lemma le_value_low b bs : is_u8 b -> u8 (le_value (b :: bs)) = b.
Proof. intros Hb. rewrite le_value_cons by done. unfold u8. rewrite Z.mod_add by lia. by apply u8_small. Qed.
Lemma le_value_high b bs : is_u8 b -> le_value (b :: bs) .>> 8 = le_value bs.
Proof.
  intros Hb. rewrite le_value_cons, Z.shiftr_div_pow2 by (lia || done). change (2 ^ 8) with 256.
  rewrite Z.div_add by lia. rewrite Z.div_small by width_lia. lia.
Qed.

(** Byte [k] of a little-endian value. *)
Lemma le_value_byte bs k b : Forall is_u8 bs -> bs !! k = Some b ->
  u8 (le_value bs .>> (8 * Z.of_nat k)) = b.
Proof.
  intros Hbs. revert k. induction Hbs as [|c bs Hc Hbs IH]; intros k Hk; [done|].
  destruct k as [|k]; simpl in Hk; simplify_eq.
  - by rewrite Z.shiftr_0_r, le_value_low.
  - replace (8 * Z.of_nat (S k)) with (8 + 8 * Z.of_nat k) by lia.
    rewrite <- Z.shiftr_shiftr, le_value_high by (lia || done). by apply IH.
Qed.

Lemma value_byte_range v k : is_u8 (value_byte v k).
Proof. apply u8_range. Qed.
Lemma word_bytes_range v : Forall is_u8 (word_bytes v).
Proof. repeat apply Forall_cons_2; [apply value_byte_range..|apply Forall_nil_2]. Qed.

Lemma le_value_word_bytes v : is_u32 v -> le_value (word_bytes v) = v.
Proof.
  intros Hv. unfold word_bytes.
  rewrite !le_value_cons by apply value_byte_range. simpl le_value.
  unfold value_byte, u8. rewrite !Z.shiftr_div_pow2 by lia.
  change (2 ^ (0 * 8)) with 1. change (2 ^ (1 * 8)) with 256.
  change (2 ^ (2 * 8)) with (256 * 256). change (2 ^ (3 * 8)) with (256 * 256 * 256).
  rewrite <- !Z.div_div by lia. rewrite Z.div_1_r.
  assert (v / 256 / 256 / 256 < 256).
  { repeat (apply Z.div_lt_upper_bound; [lia|]). width_lia. }
  assert (0 <= v / 256 / 256 / 256).
  { repeat (apply Z.div_pos; [|lia]). width_lia. }
  rewrite (Z.mod_small (v / 256 / 256 / 256)) by lia.
  pose proof (Z.div_mod v 256). pose proof (Z.div_mod (v / 256) 256).
  pose proof (Z.div_mod (v / 256 / 256) 256). lia.
Qed.

(** ** The SWAR count of changed bytes *)

Definition lane_bit (d s : Z) : bool := negb (d .& (0xff .<< s) =? 0).

Lemma byte_mask_bits s : 0 <= s -> 0xff .<< s =
  2 ^ s .| 2 ^ (s + 1) .| 2 ^ (s + 2) .| 2 ^ (s + 3) .| 2 ^ (s + 4) .| 2 ^ (s + 5)
  .| 2 ^ (s + 6) .| 2 ^ (s + 7).
Proof.
  intros Hs. change 0xff with (1 .| 2 .| 4 .| 8 .| 16 .| 32 .| 64 .| 128) at 1.
  rewrite !Z.shiftl_lor. rewrite !Z.shiftl_mul_pow2 by done.
  rewrite !(Z.pow_add_r 2 s) by lia. rewrite !(Z.mul_comm (2 ^ s)).
  change (2 ^ 1) with 2. change (2 ^ 2) with 4. change (2 ^ 3) with 8. change (2 ^ 4) with 16.
  change (2 ^ 5) with 32. change (2 ^ 6) with 64. change (2 ^ 7) with 128. by rewrite Z.mul_1_l.
Qed.

Lemma lane_bit_testbits d s : 0 <= s -> lane_bit d s =
  Z.testbit d s || Z.testbit d (s + 1) || Z.testbit d (s + 2) || Z.testbit d (s + 3)
  || Z.testbit d (s + 4) || Z.testbit d (s + 5) || Z.testbit d (s + 6) || Z.testbit d (s + 7).
Proof.
  intros Hs. change (lane_bit d s) with (has d (0xff .<< s)).
  rewrite byte_mask_bits by done. rewrite !has_lor_r, !has_pow2 by lia. done.
Qed.

(** Folding a word onto itself by 4, 2 and 1 collects eight bits into one. *)
Lemma folded_bit d s : 0 <= s ->
  let c := d .| d .>> 4 in let c := c .| c .>> 2 in let c := c .| c .>> 1 in
  Z.testbit c s = lane_bit d s.
Proof.
  intros Hs. cbv zeta. rewrite lane_bit_testbits by done.
  repeat rewrite ?Z.lor_spec, ?Z.shiftr_spec by lia.
  replace (s + 4) with (s + 4) by lia. replace (s + 1 + 2) with (s + 3) by lia.
  replace (s + 1 + 4) with (s + 5) by lia. replace (s + 2 + 4) with (s + 6) by lia.
  replace (s + 3 + 4) with (s + 7) by lia.
  destruct (Z.testbit d s), (Z.testbit d (s + 1)), (Z.testbit d (s + 2)), (Z.testbit d (s + 3)),
    (Z.testbit d (s + 4)), (Z.testbit d (s + 5)), (Z.testbit d (s + 6)), (Z.testbit d (s + 7));
    reflexivity.
Qed.

Lemma changed_byte_count_lanes d : changed_byte_count d =
  Z.b2z (lane_bit d 0) + Z.b2z (lane_bit d 8) + Z.b2z (lane_bit d 16) + Z.b2z (lane_bit d 24).
Proof.
  unfold changed_byte_count. cbv zeta.
  change 0x01010101 with (2 ^ 0 .| 2 ^ 8 .| 2 ^ 16 .| 2 ^ 24) at 1.
  rewrite !Z.land_lor_distr_r, !land_pow2 by lia.
  rewrite !folded_bit by lia.
  destruct (lane_bit d 0), (lane_bit d 8), (lane_bit d 16), (lane_bit d 24); reflexivity.
Qed.

(** ** Construction keeps the map sorted and disjoint *)

Lemma sorted_strong (R : relation Region) rs : (∀ x y z, R x y -> R y z -> R x z) ->
  Sorted R rs -> StronglySorted R rs.
Proof. intros HR Hs. apply Sorted_StronglySorted; [|done]. intros x y z. apply HR. Qed.

Lemma no_overlap_before l r : region_ok l -> region_ok r -> base_le l r ->
  rg_overlap l r = false -> rg_before l r.
Proof.
  intros Hl Hr Hle Ho. unfold rg_overlap in Ho. apply Z.ltb_ge in Ho.
  pose proof (rgk_size _ Hl). pose proof (rgk_size _ Hr).
  unfold rg_before, base_le, region_end in *. lia.
Qed.
Lemma rg_overlap_sym l r : rg_overlap l r = rg_overlap r l.
Proof. unfold rg_overlap. by rewrite Z.max_comm, Z.min_comm. Qed.
Lemma before_no_overlap l r : rg_before l r -> rg_overlap l r = false.
Proof. intros Hb. unfold rg_overlap, rg_before in *. apply Z.ltb_ge. lia. Qed.

(** Pairwise disjointness, whatever the order. *)
Definition rg_disjoint (l r : Region) : Prop := rg_overlap l r = false.

Lemma strongly_sorted_of rs : Forall region_ok rs -> StronglySorted base_le rs ->
  (∀ i j l r, rs !! i = Some l -> rs !! j = Some r -> i <> j -> rg_disjoint l r) ->
  StronglySorted rg_before rs.
Proof.
  intros Hok Hs Hd. induction Hs as [|r rs Hs IH Hle]; [constructor|].
  inversion_clear Hok as [|? ? Hr Hrs]. constructor.
  - apply IH; [done|]. intros i j l q Hi Hj Hne. apply (Hd (S i) (S j)); [done|done|lia].
  - rewrite Forall_lookup in *. intros i q Hi. apply no_overlap_before; [done|exact (Hrs i q Hi)|exact (Hle i q Hi)|].
    by apply (Hd 0%nat (S i)).
Qed.

Lemma disjoint_of_strongly_sorted rs i j l r : StronglySorted rg_before rs ->
  rs !! i = Some l -> rs !! j = Some r -> i <> j -> rg_disjoint l r.
Proof.
  intros Hs. revert i j. induction Hs as [|q rs Hs IH Hf]; intros i j Hi Hj Hne; [done|].
  rewrite Forall_lookup in Hf. destruct i as [|i], j as [|j]; simpl in *; simplify_eq; try done.
  - apply before_no_overlap. exact (Hf _ _ ltac:(eassumption)).
  - unfold rg_disjoint. rewrite rg_overlap_sym. apply before_no_overlap. exact (Hf _ _ ltac:(eassumption)).
  - apply (IH i j); [done|done|lia].
Qed.

#[global] Instance base_le_total : Total base_le.
Proof. intros l r. unfold base_le. lia. Qed.
#[global] Instance base_le_trans : Transitive base_le.
Proof. intros x y z. unfold base_le. lia. Qed.

Lemma disjoint_permutation rs rs' : rs ≡ₚ rs' ->
  (∀ i j l r, rs !! i = Some l -> rs !! j = Some r -> i <> j -> rg_disjoint l r) ->
  (∀ i j l r, rs' !! i = Some l -> rs' !! j = Some r -> i <> j -> rg_disjoint l r).
Proof.
  intros Hp Hd i j l r Hi Hj Hne.
  symmetry in Hp. apply Permutation_inj in Hp as (_ & f & Hf & Hlook).
  rewrite Hlook in Hi, Hj. apply (Hd (f i) (f j)); [done|done|]. by intros ?%Hf.
Qed.

Lemma disjoint_snoc rs region :
  (∀ i j l r, rs !! i = Some l -> rs !! j = Some r -> i <> j -> rg_disjoint l r) ->
  Forall (rg_disjoint region) rs ->
  (∀ i j l r, (rs ++ [region]) !! i = Some l -> (rs ++ [region]) !! j = Some r -> i <> j ->
    rg_disjoint l r).
Proof.
  intros Hd Hn i j l r Hi Hj Hne. rewrite Forall_lookup in Hn.
  apply lookup_app_Some in Hi as [Hi|[Hi1 Hi]], Hj as [Hj|[Hj1 Hj]].
  - by apply (Hd i j).
  - apply list_lookup_singleton_Some in Hj as [_ <-].
    unfold rg_disjoint. rewrite rg_overlap_sym. exact (Hn _ _ Hi).
  - apply list_lookup_singleton_Some in Hi as [_ <-]. exact (Hn _ _ Hj).
  - apply list_lookup_singleton_Some in Hi as [? _], Hj as [? _]. lia.
Qed.

Section bus.
Context `{MmioDevices D}.
Implicit Types b : Bus D.

(** Adding a region keeps the map sorted, disjoint and non-wrapping; a refused region leaves
    the bus untouched. *)
Lemma addRegion_regions region b res b' : bus_ok b ->
  (validRange (rg_base region) (rg_size region) = true -> region_ok region) ->
  addRegion region b = (res, b') ->
  bus_ok b' /\ match res with
               | inl _ => bus_regions b' ≡ₚ region :: bus_regions b
               | inr _ => b' = b
               end.
Proof.
  intros [Hr Hs] Hreg. unfold addRegion.
  destruct (validRange _ _) eqn:Hv; [|by intros [= <- <-]]. cbn [negb].
  destruct (List.find _ _) as [e|] eqn:Hf; [by intros [= <- <-]|]. intros [= <- <-].
  specialize (Hreg eq_refl).
  set (sorted := merge_sort base_le (bus_regions b ++ [region])).
  assert (sorted ≡ₚ bus_regions b ++ [region]) as Hp by apply merge_sort_Permutation.
  split; [|simpl; rewrite Hp; by rewrite Permutation_app_comm].
  assert (Forall region_ok sorted) as Hok.
  { rewrite Hp. apply Forall_app. by split; [|constructor]. }
  assert (Forall (rg_disjoint region) (bus_regions b)) as Hn.
  { apply Forall_forall. intros q Hq. apply list_elem_of_In in Hq.
    by apply (List.find_none _ _ Hf) in Hq. }
  split; [done|]. apply strongly_sorted_of; [done| |].
  - apply StronglySorted_merge_sort; apply _.
  - apply (disjoint_permutation (bus_regions b ++ [region])); [by symmetry|].
    apply disjoint_snoc; [|done]. intros i j l r. by apply disjoint_of_strongly_sorted.
Qed.

Lemma backed_region_ok kind base size name w x fill : 0 <= base -> 0 <= size -> is_u8 fill ->
  validRange base size = true -> region_ok (backed_region kind base size name w x fill).
Proof.
  intros Hb Hs Hf Hv. pose proof (proj1 (validRange_spec base size Hs) Hv) as [? ?].
  unfold backed_region. rewrite Hv.
  constructor; unfold region_end; cbn [rg_base rg_size rg_bytes]; [done|done|done| |].
  - intros _. apply length_replicate.
  - by apply Forall_replicate.
Qed.

(** ** Stores *)

(** The bus with one backed region's bytes and the store counters replaced. *)
Definition stored (i : nat) (r : Region) (b : Bus D) (sequence : Z)
    (journal : gmap Z BackedMutation) (generation : Z) (bytes : list Z) : Bus D :=
  {| b with
     bus_mutation_sequence := sequence;
     bus_mutation_journal := journal;
     bus_side_effect_generation := generation;
     bus_regions := <[i := {| r with rg_bytes := bytes |}]> (bus_regions b) |}.

Lemma region_at_stored i r b q j g bs : (i < length (bus_regions b))%nat ->
  region_at i (stored i r b q j g bs) = {| r with rg_bytes := bs |}.
Proof. intros Hi. unfold region_at, stored. simpl. by rewrite list_lookup_insert_eq. Qed.

Lemma stored_self i r b : bus_regions b !! i = Some r ->
  stored i r b (bus_mutation_sequence b) (bus_mutation_journal b)
    (bus_side_effect_generation b) (rg_bytes r) = b.
Proof.
  intros Hi. unfold stored. replace {| r with rg_bytes := rg_bytes r |} with r by (by destruct r).
  rewrite list_insert_id by done. by destruct b.
Qed.

Lemma journal_slot_next q : journal_slot (u64 (q + 1)) = q mod mutation_journal_capacity.
Proof.
  unfold journal_slot, u64, mutation_journal_capacity.
  rewrite <- (Zminus_mod_idemp_l _ 1 8192).
  change 0x10000000000000000 with (8192 * 2251799813685248).
  rewrite Z.rem_mul_r by lia. rewrite Z.mul_comm, Z.mod_add by lia.
  rewrite Z.mod_mod, Zminus_mod_idemp_l by lia. f_equal. lia.
Qed.

Lemma recordMutation_stored i r b q j g bs a old x :
  recordMutation a old x (stored i r b q j g bs) =
    stored i r b (u64 (q + 1))
      (if bus_write_journal_tracking b
       then <[q mod mutation_journal_capacity := mkBackedMutation a old x]> j else j) g bs.
Proof.
  rewrite <- journal_slot_next. unfold recordMutation.
  change (bus_mutation_sequence (stored i r b q j g bs)) with q. generalize (u64 (q + 1)). intros s.
  unfold stored. cbn [bus_write_journal_tracking bus_mutation_journal].
  by destruct (bus_write_journal_tracking b).
Qed.
Lemma bump_side_effect_stored i r b q j g bs :
  bump_side_effect (stored i r b q j g bs) = stored i r b q j (u64 (g + 1)) bs.
Proof. reflexivity. Qed.
Lemma set_byte_stored i r b q j g bs o v : (i < length (bus_regions b))%nat ->
  set_byte i o v (stored i r b q j g bs) = stored i r b q j g (rset bs o v).
Proof.
  intros Hi. unfold set_byte. rewrite region_at_stored by done. cbn [rg_bytes].
  unfold set_region, stored. cbn [bus_regions].
  by rewrite list_insert_insert_eq.
Qed.

Lemma store_byte_stored i r b q j g bs a o v x : (i < length (bus_regions b))%nat ->
  store_byte i a o v x (stored i r b q j g bs) =
    if rget bs o =? v then stored i r b q j g bs
    else stored i r b (u64 (q + 1))
           (if bus_write_journal_tracking b
            then <[q mod mutation_journal_capacity := mkBackedMutation a (rget bs o) x]> j else j)
           (u64 (g + 1)) (rset bs o v).
Proof.
  intros Hi. unfold store_byte. rewrite region_at_stored by done. cbn [rg_bytes].
  destruct (rget bs o =? v); [done|].
  by rewrite recordMutation_stored, bump_side_effect_stored, set_byte_stored.
Qed.

Lemma rget_if_ne (c : bool) l i k v : 0 <= i -> 0 <= k -> i <> k ->
  rget (if c then l else rset l i v) k = rget l k.
Proof. intros. destruct c; [done | by apply rget_rset_ne]. Qed.

(** A byte that already has its value may be written again. *)
Lemma rset_same l i : (Z.to_nat i < length l)%nat -> rset l i (rget l i) = l.
Proof.
  intros Hi. apply lookup_lt_is_Some_2 in Hi as [x Hx]. unfold rset, rget.
  apply list_insert_id. by rewrite Hx.
Qed.

Lemma list_inserts_rset l k a0 a1 a2 a3 : 0 <= k ->
  list_inserts (Z.to_nat k) [a0; a1; a2; a3] l
  = rset (rset (rset (rset l (k + 0) a0) (k + 1) a1) (k + 2) a2) (k + 3) a3.
Proof.
  intros Hk. cbn [list_inserts]. unfold rset.
  replace (Z.to_nat (k + 0)) with (Z.to_nat k) by lia.
  replace (Z.to_nat (k + 1)) with (S (Z.to_nat k)) by lia.
  replace (Z.to_nat (k + 2)) with (S (S (Z.to_nat k))) by lia.
  replace (Z.to_nat (k + 3)) with (S (S (S (Z.to_nat k)))) by lia.
  rewrite !(list_insert_insert_ne _ (Z.to_nat k)) by lia.
  rewrite !(list_insert_insert_ne _ (S (Z.to_nat k))) by lia.
  by rewrite !(list_insert_insert_ne _ (S (S (Z.to_nat k)))) by lia.
Qed.

Lemma region_bytes_word bs o : 0 <= o -> (Z.to_nat o + 4 <= length bs)%nat ->
  take 4 (drop (Z.to_nat o) bs)
  = [rget bs (o + 0); rget bs (o + 1); rget bs (o + 2); rget bs (o + 3)].
Proof.
  intros Ho Hl. unfold rget.
  replace (Z.to_nat (o + 0)) with (Z.to_nat o + 0)%nat by lia.
  replace (Z.to_nat (o + 1)) with (Z.to_nat o + 1)%nat by lia.
  replace (Z.to_nat (o + 2)) with (Z.to_nat o + 2)%nat by lia.
  replace (Z.to_nat (o + 3)) with (Z.to_nat o + 3)%nat by lia.
  rewrite <- !lookup_drop.
  assert (4 <= length (drop (Z.to_nat o) bs))%nat as H4 by (rewrite length_drop; lia).
  destruct (drop (Z.to_nat o) bs) as [|x0 [|x1 [|x2 [|x3 t]]]]; simpl in H4; try lia. done.
Qed.

(** Sequence numbers and generations advance by the number of changed bytes. *)
Lemma u64_add_add q k l : u64 (u64 (q + k) + l) = u64 (q + (k + l)).
Proof. rewrite u64_add_l. f_equal. lia. Qed.
Lemma u64_count q k : 0 <= k < 2 ^ 64 -> u64 (u64 (q + k) - q) = k.
Proof.
  intros Hk. unfold u64. rewrite Zminus_mod_idemp_l.
  replace (q + k - q) with k by lia. apply Z.mod_small. lia.
Qed.

Lemma store_bytes_four i' a o' v' x b0 :
  store_bytes i' a o' v' 4 x b0 =
  store_byte i' (u32 (a + 3)) (o' + 3) (value_byte v' 3) x
    (store_byte i' (u32 (a + 2)) (o' + 2) (value_byte v' 2) x
      (store_byte i' (u32 (a + 1)) (o' + 1) (value_byte v' 1) x
        (store_byte i' (u32 (a + 0)) (o' + 0) (value_byte v' 0) x b0))).
Proof. unfold store_bytes. replace (seqZ 0 4) with [0; 1; 2; 3] by done. reflexivity. Qed.

Section word_store.
Variables (i : nat) (b : Bus D) (r : Region) (o v : Z).
Hypotheses (Hi : bus_regions b !! i = Some r) (Ho : 0 <= o)
  (Hlen : (Z.to_nat o + 4 <= length (rg_bytes r))%nat)
  (Hbytes : Forall is_u8 (rg_bytes r)) (Hv : is_u32 v).

Lemma word_index_bound : (i < length (bus_regions b))%nat.
Proof. by eapply lookup_lt_Some. Qed.

Lemma word_region_at : region_at i b = r.
Proof. unfold region_at. by rewrite Hi. Qed.

Lemma word_old_bytes : Forall is_u8 (take 4 (drop (Z.to_nat o) (rg_bytes r))).
Proof. by apply Forall_take, Forall_drop. Qed.

Lemma word_old_byte k : 0 <= k < 4 ->
  u8 (region_value r o 4 .>> (8 * k)) = rget (rg_bytes r) (o + k).
Proof.
  intros Hk. unfold region_value, region_bytes. change (Z.to_nat 4) with 4%nat.
  replace (8 * k) with (8 * Z.of_nat (Z.to_nat k)) by lia.
  apply le_value_byte; [apply word_old_bytes|]. rewrite region_bytes_word by done.
  assert (k = 0 \/ k = 1 \/ k = 2 \/ k = 3) as [->|[->|[->| ->]]] by lia; done.
Qed.

Lemma word_unchanged :
  (region_value r o 4 =? v) =
    (rget (rg_bytes r) (o + 0) =? value_byte v 0) && (rget (rg_bytes r) (o + 1) =? value_byte v 1)
    && (rget (rg_bytes r) (o + 2) =? value_byte v 2) && (rget (rg_bytes r) (o + 3) =? value_byte v 3).
Proof.
  destruct (Z.eqb_spec (region_value r o 4) v) as [E|E].
  - rewrite <- !word_old_byte by lia. rewrite E. unfold value_byte.
    rewrite !(Z.mul_comm 8). by rewrite !Z.eqb_refl.
  - symmetry. apply not_true_iff_false. rewrite !andb_true_iff, !Z.eqb_eq.
    intros [[[E0 E1] E2] E3]. apply E. rewrite <- (le_value_word_bytes v) by done.
    unfold region_value, region_bytes. change (Z.to_nat 4) with 4%nat.
    rewrite region_bytes_word by done. unfold word_bytes. by rewrite E0, E1, E2, E3.
Qed.

(** Four byte stores, the bytes written whether they change or not. *)
Lemma store_byte_uniform r0 q j g bs a k w x : (Z.to_nat k < length bs)%nat ->
  store_byte i a k w x (stored i r0 b q j g bs) =
    stored i r0 b
      (if rget bs k =? w then q else u64 (q + 1))
      (if rget bs k =? w then j
       else if bus_write_journal_tracking b
            then <[q mod mutation_journal_capacity := mkBackedMutation a (rget bs k) x]> j else j)
      (if rget bs k =? w then g else u64 (g + 1)) (rset bs k w).
Proof.
  intros Hk. rewrite store_byte_stored by apply word_index_bound.
  destruct (Z.eqb_spec (rget bs k) w) as [E|E]; [|done].
  subst w. by rewrite rset_same.
Qed.
Lemma lane_byte_equal k : 0 <= k < 4 ->
  ((region_value r o 4 .^ v) .& (0xff .<< (8 * k)) =? 0)
  = (rget (rg_bytes r) (o + k) =? value_byte v k).
Proof.
  intros Hk. rewrite lane_differs by lia. rewrite word_old_byte by done.
  unfold value_byte. by rewrite (Z.mul_comm 8).
Qed.
Lemma record_lane_stored a x q j k : 0 <= k < 4 ->
  record_lane a (region_value r o 4) (region_value r o 4 .^ v) x (q, j) (8 * k) =
    (if rget (rg_bytes r) (o + k) =? value_byte v k then q else u64 (q + 1),
     if rget (rg_bytes r) (o + k) =? value_byte v k then j
     else <[q mod mutation_journal_capacity :=
              mkBackedMutation (u32 (a + k)) (rget (rg_bytes r) (o + k)) x]> j).
Proof.
  intros Hk. unfold record_lane. rewrite lane_byte_equal, word_old_byte by done.
  replace (8 * k / 8) with k by (rewrite Z.mul_comm, Z.div_mul; lia).
  by destruct (rget (rg_bytes r) (o + k) =? value_byte v k).
Qed.
Lemma changed_byte_count_stored :
  changed_byte_count (region_value r o 4 .^ v) =
    Z.b2z (negb (rget (rg_bytes r) (o + 0) =? value_byte v 0))
    + Z.b2z (negb (rget (rg_bytes r) (o + 1) =? value_byte v 1))
    + Z.b2z (negb (rget (rg_bytes r) (o + 2) =? value_byte v 2))
    + Z.b2z (negb (rget (rg_bytes r) (o + 3) =? value_byte v 3)).
Proof.
  rewrite changed_byte_count_lanes. unfold lane_bit.
  change (0xff .<< 0) with (0xff .<< (8 * 0)). change (0xff .<< 8) with (0xff .<< (8 * 1)).
  change (0xff .<< 16) with (0xff .<< (8 * 2)). change (0xff .<< 24) with (0xff .<< (8 * 3)).
  by rewrite !lane_byte_equal.
Qed.

(** The word store equals the byte loop, in the bytes, the journal and the counters. *)
Lemma storeBackedWord_bytes x :
  storeBackedWord i o v x b = store_bytes i (rg_base r + o) o v 4 x b.
Proof.
  rewrite store_bytes_four.
  transitivity (store_byte i (u32 (rg_base r + o + 3)) (o + 3) (value_byte v 3) x
    (store_byte i (u32 (rg_base r + o + 2)) (o + 2) (value_byte v 2) x
      (store_byte i (u32 (rg_base r + o + 1)) (o + 1) (value_byte v 1) x
        (store_byte i (u32 (rg_base r + o + 0)) (o + 0) (value_byte v 0) x
          (stored i r b (bus_mutation_sequence b) (bus_mutation_journal b)
            (bus_side_effect_generation b) (rg_bytes r)))))); [|by rewrite (stored_self i r b)].
  rewrite !(store_byte_uniform r) by (rewrite ?rset_length; lia).
  rewrite !rget_rset_ne by lia.
  unfold storeBackedWord. rewrite word_region_at. cbv zeta.
  rewrite word_unchanged.
  unfold write_region_bytes, word_bytes. rewrite list_inserts_rset by done.
  change [0; 8; 16; 24] with [8 * 0; 8 * 1; 8 * 2; 8 * 3]. cbn [foldl].
  rewrite !record_lane_stored by lia. rewrite changed_byte_count_stored, !u32_add_l.
  destruct (rget (rg_bytes r) (o + 0) =? value_byte v 0) eqn:E0, (rget (rg_bytes r) (o + 1) =? value_byte v 1) eqn:E1,
    (rget (rg_bytes r) (o + 2) =? value_byte v 2) eqn:E2, (rget (rg_bytes r) (o + 3) =? value_byte v 3) eqn:E3; cbn [andb].
  1: { symmetry. apply Z.eqb_eq in E0, E1, E2, E3. rewrite <- E0, <- E1, <- E2, <- E3.
    rewrite !rset_same by lia. by apply stored_self. }
  all: destruct (bus_write_journal_tracking b) eqn:T; unfold set_region, stored;
    rewrite T;
    rewrite ?u64_add_add, ?u64_count by lia; reflexivity.
Qed.
End word_store.
End bus.
