(* ===== verification/BusAccess.v ===== *)
(** * Accesses through the bus

    Every access keeps the map well formed; the backed-memory fast paths return what the
    checked accesses return; bulk word transfers equal their word-by-word loops; and the
    bookkeeping that only observers see (the execution generation, the read footprint, the
    access log) never influences a result.  Together these discharge [CpuMemoryLaws] for
    [Bus]. *)

From stdpp Require Import gmap sorting.
From S2P Require Import Prelude Address CpuState CpuStateProofs MemoryApi MemoryBus.
From S2P Require Import MemoryBusProofs.
#[local] Open Scope Z_scope.
#[local] Open Scope fil_scope.

(** ** The shape of the map *)

(** A region without its contents. *)
Definition shape (r : Region) : Region := {| r with rg_bytes := [] |}.

Lemma shape_base r r' : shape r = shape r' -> rg_base r = rg_base r'.
Proof. intros E. exact (f_equal rg_base E). Qed.
Lemma shape_end r r' : shape r = shape r' -> region_end r = region_end r'.
Proof. intros E. exact (f_equal region_end E). Qed.
Lemma shape_executable r r' : shape r = shape r' -> rg_executable r = rg_executable r'.
Proof. intros E. exact (f_equal rg_executable E). Qed.
Lemma shape_backed r r' : shape r = shape r' -> is_backed r = is_backed r'.
Proof. intros E. exact (f_equal is_backed E). Qed.
Lemma shape_mmio r r' : shape r = shape r' -> is_mmio r = is_mmio r'.
Proof. intros E. exact (f_equal is_mmio E). Qed.
Lemma shape_alias r r' : shape r = shape r' -> is_alias r = is_alias r'.
Proof. intros E. exact (f_equal is_alias E). Qed.
Lemma shape_contains r r' a : shape r = shape r' -> region_contains r a = region_contains r' a.
Proof. intros E. exact (f_equal (fun q => region_contains q a) E). Qed.

Lemma upper_bound_shape rs rs' a : shape <$> rs = shape <$> rs' ->
  upper_bound a rs = upper_bound a rs'.
Proof.
  revert rs'. induction rs as [|r rs IH]; intros [|r' rs'] E; try done.
  rewrite !fmap_cons in E. apply cons_eq_inj in E as [E1 E2]. cbn [upper_bound]. apply shape_base in E1.
  rewrite <- E1. destruct (a <? rg_base r); [done|]. by rewrite (IH rs').
Qed.
(** Lookup depends on the shape alone. *)
Lemma find_region_shape rs rs' a i r : shape <$> rs = shape <$> rs' ->
  find_region a rs = Some (i, r) ->
  ∃ r', find_region a rs' = Some (i, r') /\ shape r' = shape r.
Proof.
  intros E. unfold find_region. rewrite (upper_bound_shape _ _ _ E).
  destruct (upper_bound a rs') as [|k]; [done|].
  pose proof (f_equal (fun l => l !! k) E) as Ek. rewrite !list_lookup_fmap in Ek.
  destruct (rs !! k) as [q|] eqn:Hq; [|done].
  destruct (rs' !! k) as [q'|]; [|done]. apply (inj Some) in Ek as Es.
  rewrite (shape_contains _ _ a Es). destruct (region_contains q' a); [|done].
  intros [= <- <-]. by exists q'.
Qed.

Lemma regions_ok_insert rs i r r' : regions_ok rs -> rs !! i = Some r -> shape r' = shape r ->
  region_ok r' -> regions_ok (<[i := r']> rs).
Proof.
  intros [Hr Hs] Hi Esh Hr'. split; [by apply Forall_insert|].
  pose proof (list_elem_of_split_length rs i r Hi) as (l1 & l2 & -> & ->).
  rewrite insert_app_r_alt, Nat.sub_diag by done. cbn [insert list_insert].
  pose proof (shape_base _ _ Esh) as Eb. pose proof (shape_end _ _ Esh) as Ee. clear Hi Hr.
  induction l1 as [|q l1 IH]; cbn [app] in *; inversion_clear Hs as [|? ? Hs' Hf].
  - constructor; [done|]. eapply Forall_impl; [exact Hf|]. unfold rg_before. by rewrite Ee.
  - constructor; [by apply IH|]. apply Forall_app in Hf as [Hf1 Hf2].
    inversion_clear Hf2. apply Forall_app. split; [done|]. constructor; [|done].
    unfold rg_before in *. by rewrite Eb.
Qed.
Lemma region_ok_bytes r bs : region_ok r -> length bs = length (rg_bytes r) -> Forall is_u8 bs ->
  region_ok {| r with rg_bytes := bs |}.
Proof.
  intros [Hb Hs He Hl Hr] Hlen Hbs. constructor; [done|done|done| |done].
  cbn [rg_bytes rg_size]. intros Hk. rewrite Hlen. by apply Hl.
Qed.

Section access.
Context `{MmioDevices D}.
Implicit Types b : Bus D.

(** ** Equality up to bookkeeping *)

Definition forget (b : Bus D) : Bus D :=
  {| b with bus_execution_generation := 0; bus_read_footprint := footprint_default;
            bus_access_watch_log := [] |}.
Definition bus_eqv : relation (Bus D) := fun b1 b2 => forget b1 = forget b2.

#[global] Instance bus_eqv_equivalence : Equivalence bus_eqv.
Proof.
  split; unfold bus_eqv; [intros ?; reflexivity|intros ???; by symmetry|intros ?????; by etransitivity].
Qed.

Lemma bus_eqv_regions b1 b2 : bus_eqv b1 b2 -> bus_regions b1 = bus_regions b2.
Proof. intros E. exact (f_equal bus_regions E). Qed.
Lemma bus_eqv_devices b1 b2 : bus_eqv b1 b2 -> bus_devices b1 = bus_devices b2.
Proof. intros E. exact (f_equal bus_devices E). Qed.
Lemma bus_eqv_reversible b1 b2 : bus_eqv b1 b2 ->
  bus_reversible_ram_only b1 = bus_reversible_ram_only b2.
Proof. intros E. exact (f_equal bus_reversible_ram_only E). Qed.
Lemma bus_eqv_trapping b1 b2 : bus_eqv b1 b2 -> bus_mmioTrapping b1 = bus_mmioTrapping b2.
Proof. intros E. exact (f_equal bus_mmioTrapping E). Qed.
Lemma bus_eqv_traps r o s b1 b2 : bus_eqv b1 b2 -> mmio_traps r o s b1 = mmio_traps r o s b2.
Proof. intros E. exact (f_equal (mmio_traps r o s) E). Qed.
Lemma bus_eqv_writable r a w q b1 b2 : bus_eqv b1 b2 ->
  fast_writable r a w q b1 = fast_writable r a w q b2.
Proof. intros E. exact (f_equal (fast_writable r a w q) E). Qed.

(** Operations that touch bookkeeping only. *)
Lemma forget_log_access a w x b : forget (log_access a w x b) = forget b.
Proof. reflexivity. Qed.
Lemma forget_mark ws b : forget (mark_footprint ws b) = forget b.
Proof. reflexivity. Qed.
Lemma forget_addAccess a w b : forget (addAccessFootprint a w b) = forget b.
Proof. unfold addAccessFootprint. by repeat case_match. Qed.
Lemma forget_addStore a w c b : forget (addStoreFootprint a w c b) = forget b.
Proof. unfold addStoreFootprint. by repeat case_match. Qed.
Lemma forget_backed_read a w c b : forget (note_backed_read a w c b) = forget b.
Proof. unfold note_backed_read. case_match; [apply forget_addAccess|done]. Qed.
Lemma forget_bump_execution x b : forget (bump_execution_if x b) = forget b.
Proof. by destruct x. Qed.

(** Operations that commute with forgetting. *)
Lemma forget_storeBackedWord i o v x b :
  forget (storeBackedWord i o v x b) = storeBackedWord i o v x (forget b).
Proof.
  unfold storeBackedWord. change (region_at i (forget b)) with (region_at i b). cbv zeta.
  destruct (_ =? v); [done|].
  change (bus_write_journal_tracking (forget b)) with (bus_write_journal_tracking b).
  change (bus_mutation_sequence (forget b)) with (bus_mutation_sequence b).
  change (bus_mutation_journal (forget b)) with (bus_mutation_journal b).
  destruct (bus_write_journal_tracking b); [|done]. by destruct (foldl _ _ _).
Qed.
Lemma forget_store_byte i a o v x b :
  forget (store_byte i a o v x b) = store_byte i a o v x (forget b).
Proof.
  unfold store_byte. change (region_at i (forget b)) with (region_at i b).
  destruct (_ =? v); [done|]. unfold recordMutation. cbv zeta.
  cbn [bus_write_journal_tracking bus_mutation_sequence forget].
  by destruct (bus_write_journal_tracking b).
Qed.
Lemma forget_store_bytes i a o v w x b :
  forget (store_bytes i a o v w x b) = store_bytes i a o v w x (forget b).
Proof.
  unfold store_bytes. generalize (seqZ 0 w). intros l. revert b.
  induction l as [|k l IH]; intros b; [done|]. cbn [foldl]. by rewrite IH, forget_store_byte.
Qed.

(** An MMIO dispatch sees and changes only what [forget] keeps. *)
Lemma note_mmio_eqv a w x c b1 b2 : bus_eqv b1 b2 ->
  bus_eqv (note_mmio a w x c b1) (note_mmio a w x c b2).
Proof.
  assert (∀ b, forget (note_mmio a w x c b) = forget (bump_mmio (bump_side_effect (forget b)))) as E.
  { intros b. unfold note_mmio. cbv zeta. by case_match. }
  unfold bus_eqv. intros Hb. by rewrite !E, Hb.
Qed.
Lemma set_devices_eqv (d : D) b1 b2 : bus_eqv b1 b2 ->
  bus_eqv {| b1 with bus_devices := d |} {| b2 with bus_devices := d |}.
Proof. intros Hb. exact (f_equal (fun b : Bus D => {| b with bus_devices := d |}) Hb). Qed.

Lemma read_mmio_eqv r a s c b1 b2 : bus_eqv b1 b2 ->
  res_rel bus_eqv (read_mmio r a s c b1) (read_mmio r a s c b2).
Proof.
  intros Hb. unfold read_mmio. cbv zeta. rewrite (bus_eqv_traps _ _ _ _ _ Hb).
  destruct (mmio_traps _ _ _ _); [done|].
  pose proof (note_mmio_eqv a (byteCount s) false c _ _ Hb) as Hn.
  rewrite (bus_eqv_devices _ _ Hn). destruct (device_read _ _ _ _ _) as [[v|f] d].
  all: split; [done|by apply set_devices_eqv].
Qed.
Lemma write_mmio_eqv r a s v c b1 b2 : bus_eqv b1 b2 ->
  res_rel bus_eqv (write_mmio r a s v c b1) (write_mmio r a s v c b2).
Proof.
  intros Hb. unfold write_mmio. cbv zeta. rewrite (bus_eqv_traps _ _ _ _ _ Hb).
  destruct (mmio_traps _ _ _ _); [done|].
  pose proof (note_mmio_eqv a (byteCount s) true c _ _ Hb) as Hn.
  rewrite (bus_eqv_devices _ _ Hn). destruct (device_write _ _ _ _ _ _) as [[u|f] d].
  all: split; [done|by apply set_devices_eqv].
Qed.

Lemma bus_read_eqv depth a s c b1 b2 : bus_eqv b1 b2 ->
  res_rel bus_eqv (bus_read depth a s c b1) (bus_read depth a s c b2).
Proof.
  intros Hb. revert a. induction depth as [|depth IH]; intros a; cbn [bus_read];
    rewrite (bus_eqv_regions _ _ Hb);
    (destruct (negb (validRange _ _)); [done|]);
    (destruct (find_region _ _) as [[i r]|]; [|done]); cbv zeta beta;
    (destruct (negb (containsRange _ _ _)); [done|]);
    (destruct (negb (rg_readable r)); [done|]);
    (destruct (is_fetch c && _); [done|]);
    (destruct (is_alias r); [by first [apply IH|done]|]);
    (destruct (is_mmio r); [by apply read_mmio_eqv|]);
    (split; [done|]); unfold bus_eqv; cbn [snd]; by rewrite !forget_backed_read.
Qed.

Lemma bus_write_eqv depth a s v c b1 b2 : bus_eqv b1 b2 ->
  res_rel bus_eqv (bus_write depth a s v c b1) (bus_write depth a s v c b2).
Proof.
  intros Hb. revert a. induction depth as [|depth IH]; intros a; cbn [bus_write];
    rewrite (bus_eqv_regions _ _ Hb), (bus_eqv_reversible _ _ Hb);
    (destruct (negb (validRange _ _)); [done|]);
    (destruct (find_region _ _) as [[i r]|]; [|done]); cbv zeta beta;
    (destruct (negb (containsRange _ _ _)); [done|]);
    (destruct (is_alias r); [by first [apply IH|done]|]);
    (destruct (negb (rg_writable r)); [done|]);
    (destruct (bus_reversible_ram_only b2 && _); [done|]);
    (destruct (is_mmio r); [by apply write_mmio_eqv|]);
    (split; [done|]); unfold bus_eqv; cbn [snd];
    by rewrite !forget_bump_execution, !forget_store_bytes, !forget_addStore, Hb.
Qed.

Lemma bus_tryFastRead_eqv a s c b1 b2 : bus_eqv b1 b2 ->
  res_rel bus_eqv (bus_tryFastRead a s c b1) (bus_tryFastRead a s c b2).
Proof.
  intros Hb. unfold bus_tryFastRead. cbv zeta. rewrite (bus_eqv_regions _ _ Hb).
  destruct (byteCount s =? 8); [done|]. destruct (find_region _ _) as [[i r]|]; [|done].
  destruct (fast_readable _ _ _ _); [|done].
  split; [done|]. unfold bus_eqv. cbn [snd]. by rewrite !forget_backed_read.
Qed.
Lemma bus_tryFastRead32_word a c b :
  bus_tryFastRead32 a c b = bus_tryFastRead a AccessSize.word c b.
Proof. reflexivity. Qed.

Lemma bus_tryFastWrite_eqv a s v c q b1 b2 : bus_eqv b1 b2 ->
  res_rel bus_eqv (bus_tryFastWrite a s v c q b1) (bus_tryFastWrite a s v c q b2).
Proof.
  intros Hb. unfold bus_tryFastWrite. cbv zeta. rewrite (bus_eqv_regions _ _ Hb).
  destruct (byteCount s =? 8); [done|]. destruct (find_region _ _) as [[i r]|]; [|done].
  rewrite (bus_eqv_writable _ _ _ _ _ _ Hb). destruct (fast_writable _ _ _ _ _); [|done].
  split; [done|]. unfold bus_eqv. cbn [snd]. rewrite !forget_bump_execution.
  destruct (byteCount s =? 4); rewrite ?forget_storeBackedWord, ?forget_store_bytes;
    by rewrite !forget_addStore, Hb.
Qed.
Lemma bus_tryFastWrite32_eqv a v c q b1 b2 : bus_eqv b1 b2 ->
  res_rel bus_eqv (bus_tryFastWrite32 a v c q b1) (bus_tryFastWrite32 a v c q b2).
Proof.
  intros Hb. unfold bus_tryFastWrite32. rewrite (bus_eqv_regions _ _ Hb).
  destruct (find_region _ _) as [[i r]|]; [|done].
  rewrite (bus_eqv_writable _ _ _ _ _ _ Hb). destruct (fast_writable _ _ _ _ _); [|done].
  split; [done|]. unfold bus_eqv. cbn [snd]. cbv zeta.
  by rewrite !forget_bump_execution, !forget_storeBackedWord, !forget_addStore, Hb.
Qed.

Lemma narrow_eqv mask p1 p2 : res_rel bus_eqv p1 p2 ->
  res_rel bus_eqv (narrow mask p1) (narrow mask p2).
Proof. destruct p1 as [r1 b1], p2 as [r2 b2]. intros [E Hb]. cbn in E. subst r2. by destruct r1. Qed.

Lemma bus_read_narrow_eqv s mask a c b1 b2 : bus_eqv b1 b2 ->
  res_rel bus_eqv (bus_read_narrow s mask a c b1) (bus_read_narrow s mask a c b2).
Proof.
  intros Hb. pose proof (bus_tryFastRead_eqv a s c b1 b2 Hb) as Hf. unfold bus_read_narrow.
  destruct (bus_tryFastRead a s c b1) as [v1 b1'], (bus_tryFastRead a s c b2) as [v2 b2'].
  destruct Hf as [E Hb']. cbn in E. subst v2. destruct v1; [done|].
  by apply narrow_eqv, bus_read_eqv.
Qed.
Lemma bus_write_narrow_eqv s a v c b1 b2 : bus_eqv b1 b2 ->
  res_rel bus_eqv (bus_write_narrow s a v c b1) (bus_write_narrow s a v c b2).
Proof.
  intros Hb. pose proof (bus_tryFastWrite_eqv a s v c false b1 b2 Hb) as Hf. unfold bus_write_narrow.
  destruct (bus_tryFastWrite a s v c false b1) as [v1 b1'], (bus_tryFastWrite a s v c false b2) as [v2 b2'].
  destruct Hf as [E Hb']. cbn in E. subst v2. destruct v1; [done|]. by apply bus_write_eqv.
Qed.
Lemma bus_read32_eqv a c b1 b2 : bus_eqv b1 b2 ->
  res_rel bus_eqv (bus_read32 a c b1) (bus_read32 a c b2).
Proof.
  intros Hb. pose proof (bus_tryFastRead_eqv a AccessSize.word c b1 b2 Hb) as Hf.
  unfold bus_read32. rewrite !bus_tryFastRead32_word.
  destruct (bus_tryFastRead a _ c b1) as [v1 b1'], (bus_tryFastRead a _ c b2) as [v2 b2'].
  destruct Hf as [E Hb']. cbn in E. subst v2. destruct v1; [done|].
  by apply narrow_eqv, bus_read_eqv.
Qed.
Lemma bus_write32_eqv a v c b1 b2 : bus_eqv b1 b2 ->
  res_rel bus_eqv (bus_write32 a v c b1) (bus_write32 a v c b2).
Proof.
  intros Hb. pose proof (bus_tryFastWrite32_eqv a v c false b1 b2 Hb) as Hf. unfold bus_write32.
  destruct (bus_tryFastWrite32 a v c false b1) as [v1 b1'], (bus_tryFastWrite32 a v c false b2) as [v2 b2'].
  destruct Hf as [E Hb']. cbn in E. subst v2. destruct v1; [done|]. by apply bus_write_eqv.
Qed.

(** ** Accesses keep the map *)

Lemma set_byte_regions i o v b r : bus_regions b !! i = Some r ->
  bus_regions (set_byte i o v b) = <[i := {| r with rg_bytes := rset (rg_bytes r) o v |}]> (bus_regions b).
Proof. intros Hi. unfold set_byte, region_at. by rewrite Hi. Qed.
Lemma recordMutation_regions a v x b : bus_regions (recordMutation a v x b) = bus_regions b.
Proof. unfold recordMutation. cbv zeta. by case_match. Qed.

Lemma store_byte_regions i a o v x b :
  bus_regions (store_byte i a o v x b) = bus_regions b
  \/ bus_regions (store_byte i a o v x b) = bus_regions (set_byte i o v b).
Proof.
  unfold store_byte. cbv zeta. destruct (_ =? v); [by left|right].
  unfold set_byte, set_region, region_at, bump_side_effect. cbn [bus_regions].
  by rewrite recordMutation_regions.
Qed.

Lemma set_byte_ok i o v b : bus_ok b -> is_u8 v -> bus_ok (set_byte i o v b).
Proof.
  intros Hb Hv. unfold bus_ok. destruct (bus_regions b !! i) as [r|] eqn:Hi.
  - rewrite (set_byte_regions _ _ _ _ _ Hi). pose proof (regions_ok_lookup _ _ _ Hb Hi) as Hr.
    eapply regions_ok_insert; [done|done|done|].
    apply region_ok_bytes; [done|apply rset_length|]. by apply Forall_insert; [apply Hr|].
  - unfold set_byte, set_region. cbn [bus_regions].
    rewrite list_insert_ge; [done|by apply lookup_ge_None].
Qed.
Lemma store_byte_ok i a o v x b : bus_ok b -> is_u8 v -> bus_ok (store_byte i a o v x b).
Proof.
  intros Hb Hv. unfold bus_ok. destruct (store_byte_regions i a o v x b) as [-> | ->]; [done|].
  by apply set_byte_ok.
Qed.
Lemma store_bytes_ok i a o v w x b : bus_ok b -> bus_ok (store_bytes i a o v w x b).
Proof.
  unfold store_bytes. generalize (seqZ 0 w). intros l. revert b.
  induction l as [|k l IH]; intros b Hb; [done|]. cbn [foldl].
  apply IH, store_byte_ok; [done|apply value_byte_range].
Qed.

Lemma set_byte_shape i o v b : shape <$> bus_regions (set_byte i o v b) = shape <$> bus_regions b.
Proof.
  unfold set_byte, set_region, region_at. cbn [bus_regions].
  destruct (bus_regions b !! i) as [r|] eqn:Hi; cbn [default].
  - rewrite list_fmap_insert. apply list_insert_id. by rewrite list_lookup_fmap, Hi.
  - rewrite list_insert_ge; [done|by apply lookup_ge_None].
Qed.
Lemma store_byte_shape i a o v x b :
  shape <$> bus_regions (store_byte i a o v x b) = shape <$> bus_regions b.
Proof. destruct (store_byte_regions i a o v x b) as [-> | ->]; [done|apply set_byte_shape]. Qed.
Lemma store_bytes_shape i a o v w x b :
  shape <$> bus_regions (store_bytes i a o v w x b) = shape <$> bus_regions b.
Proof.
  unfold store_bytes. generalize (seqZ 0 w). intros l. revert b.
  induction l as [|k l IH]; intros b; [done|]. cbn [foldl]. by rewrite IH, store_byte_shape.
Qed.

Lemma eqv_ok b1 b2 : bus_eqv b1 b2 -> bus_ok b1 <-> bus_ok b2.
Proof. intros Hb. unfold bus_ok. by rewrite (bus_eqv_regions _ _ Hb). Qed.
Lemma addStore_ok a w c b : bus_ok (addStoreFootprint a w c b) <-> bus_ok b.
Proof. apply eqv_ok, forget_addStore. Qed.
Lemma bump_execution_ok x b : bus_ok (bump_execution_if x b) <-> bus_ok b.
Proof. apply eqv_ok, forget_bump_execution. Qed.
Lemma addStore_regions a w c b : bus_regions (addStoreFootprint a w c b) = bus_regions b.
Proof. apply bus_eqv_regions, forget_addStore. Qed.
Lemma note_mmio_regions a w x c b : bus_regions (note_mmio a w x c b) = bus_regions b.
Proof. unfold note_mmio. cbv zeta. by case_match. Qed.
Lemma bump_execution_regions x b : bus_regions (bump_execution_if x b) = bus_regions b.
Proof. apply bus_eqv_regions, forget_bump_execution. Qed.

(** Reads leave the map as it is. *)
Lemma read_mmio_regions r a s c b : bus_regions (snd (read_mmio r a s c b)) = bus_regions b.
Proof.
  unfold read_mmio. cbv zeta. destruct (mmio_traps _ _ _ _); [done|].
  destruct (device_read _ _ _ _ _) as [[v|f] d]; cbn [snd bus_regions]; apply note_mmio_regions.
Qed.
Lemma write_mmio_regions r a s v c b : bus_regions (snd (write_mmio r a s v c b)) = bus_regions b.
Proof.
  unfold write_mmio. cbv zeta. destruct (mmio_traps _ _ _ _); [done|].
  destruct (device_write _ _ _ _ _ _) as [[u|f] d]; cbn [snd bus_regions]; apply note_mmio_regions.
Qed.
Lemma bus_read_regions depth a s c b : bus_regions (snd (bus_read depth a s c b)) = bus_regions b.
Proof.
  revert a. induction depth as [|depth IH]; intros a; cbn [bus_read];
    (destruct (negb (validRange _ _)); [done|]);
    (destruct (find_region _ _) as [[i r]|]; [|done]); cbv zeta beta;
    (destruct (negb (containsRange _ _ _)); [done|]);
    (destruct (negb (rg_readable r)); [done|]);
    (destruct (is_fetch c && _); [done|]);
    (destruct (is_alias r); [by first [apply IH|done]|]);
    (destruct (is_mmio r); [by apply read_mmio_regions|]);
    apply bus_eqv_regions, forget_backed_read.
Qed.
Lemma bus_write_ok depth a s v c b : bus_ok b -> bus_ok (snd (bus_write depth a s v c b)).
Proof.
  intros Hb. revert a. induction depth as [|depth IH]; intros a; cbn [bus_write];
    (destruct (negb (validRange _ _)); [done|]);
    (destruct (find_region _ _) as [[i r]|]; [|done]); cbv zeta beta;
    (destruct (negb (containsRange _ _ _)); [done|]);
    (destruct (is_alias r); [by first [apply IH|done]|]);
    (destruct (negb (rg_writable r)); [done|]);
    (destruct (bus_reversible_ram_only b && _); [done|]);
    (destruct (is_mmio r); [unfold bus_ok; by rewrite write_mmio_regions|]);
    cbn [snd]; by apply bump_execution_ok, store_bytes_ok, addStore_ok.
Qed.

(** ** Fast paths agree with the checked accesses *)

Record backed_at (b : Bus D) (a w : Z) (i : nat) (r : Region) : Prop := {
  ba_lookup : bus_regions b !! i = Some r;
  ba_region : region_ok r;
  ba_offset : 0 <= a - rg_base r;
  ba_length : (Z.to_nat (a - rg_base r) + Z.to_nat w <= length (rg_bytes r))%nat;
  ba_valid : validRange a w = true;
}.
Lemma backed_at_intro b a w i r : bus_ok b -> find_region a (bus_regions b) = Some (i, r) ->
  is_backed r = true -> containsRange r a w = true -> 0 < w -> backed_at b a w i r.
Proof.
  intros Hb Hf Hk Hc Hw. apply find_region_Some in Hf as [Hi _].
  apply containsRange_spec in Hc as [Hlo Hhi].
  pose proof (regions_ok_lookup _ _ _ Hb Hi) as Hr. pose proof (rgk_end _ Hr).
  constructor; [done|done|lia| |].
  - rewrite (rgk_bytes _ Hr Hk). unfold region_end in *. lia.
  - apply validRange_spec; lia.
Qed.

Lemma byteCount_pos s : 0 < byteCount s.
Proof. by destruct s. Qed.
Lemma region_value_bound r o w : Forall is_u8 (rg_bytes r) -> 0 <= w ->
  0 <= region_value r o w < 2 ^ (8 * w).
Proof.
  intros Hr Hw. unfold region_value, region_bytes.
  pose proof (le_value_bound (take (Z.to_nat w) (drop (Z.to_nat o) (rg_bytes r)))
                ltac:(by apply Forall_take, Forall_drop)) as [H0 H1].
  split; [done|]. eapply Z.lt_le_trans; [exact H1|]. apply Z.pow_le_mono_r; [lia|].
  rewrite length_take. lia.
Qed.

Lemma backed_not_device r : is_backed r = true -> is_alias r = false /\ is_mmio r = false.
Proof. unfold is_backed, is_alias, is_mmio. by destruct (rg_kind r). Qed.

Lemma fast_readable_spec r a w c : fast_readable r a w c = true ->
  is_backed r = true /\ rg_readable r = true /\ containsRange r a w = true
  /\ is_fetch c && negb (rg_executable r) = false.
Proof. unfold fast_readable. rewrite !andb_true_iff, negb_true_iff. tauto. Qed.
Lemma fast_writable_spec r a w q b : fast_writable r a w q b = true ->
  is_backed r = true /\ rg_writable r = true /\ containsRange r a w = true
  /\ bus_reversible_ram_only b && (negb (is_ram r) || rg_executable r) = false.
Proof.
  unfold fast_writable. rewrite !andb_true_iff, negb_true_iff. intros [[[? ?] ?] Hn].
  repeat split; try done. by destruct (bus_reversible_ram_only b).
Qed.

Lemma fast_read_checked depth a s c b v b' : bus_ok b ->
  bus_tryFastRead a s c b = (Some v, b') ->
  bus_read depth a s c b = (inl v, b') /\ 0 <= v < 2 ^ (8 * byteCount s).
Proof.
  intros Hb. unfold bus_tryFastRead. cbv zeta. destruct (byteCount s =? 8); [done|].
  destruct (find_region a (bus_regions b)) as [[i r]|] eqn:Hf; [|done].
  destruct (fast_readable r a (byteCount s) c) eqn:Hr; [|done]. intros [= <- <-].
  apply fast_readable_spec in Hr as (Hk & Hrd & Hc & Hx).
  pose proof (backed_at_intro b a (byteCount s) i r Hb Hf Hk Hc (byteCount_pos s)) as Hat.
  apply backed_not_device in Hk as [Ha Hm]. split.
  - destruct depth; cbn [bus_read]; by rewrite (ba_valid _ _ _ _ _ Hat), Hf, Hc, Hrd, Hx, Ha, Hm.
  - apply region_value_bound; [apply (ba_region _ _ _ _ _ Hat)|]. pose proof (byteCount_pos s). lia.
Qed.

(** The byte loop reads only the low [width] bytes of its value. *)
Lemma store_bytes_value i a o v v' w x b :
  (∀ k, 0 <= k < w -> value_byte v k = value_byte v' k) ->
  store_bytes i a o v w x b = store_bytes i a o v' w x b.
Proof.
  intros Hv. unfold store_bytes.
  assert (Forall (fun k => value_byte v k = value_byte v' k) (seqZ 0 w)) as Hl.
  { apply Forall_forall. intros k Hk%elem_of_seqZ. apply Hv. lia. }
  revert b. induction Hl as [|k l Hk Hl IH]; intros b; [done|]. cbn [foldl]. by rewrite Hk, IH.
Qed.
Lemma value_byte_mod v k n : 0 <= k -> 8 * k + 8 <= n -> value_byte (v mod 2 ^ n) k = value_byte v k.
Proof.
  intros Hk Hn. unfold value_byte, u8. change 0x100 with (2 ^ 8).
  rewrite <- !Z.land_ones by lia. apply Z.bits_inj'. intros m Hm.
  rewrite !Z.land_spec, !Z.shiftr_spec, Z.land_spec by lia.
  destruct (Z.lt_ge_cases m 8).
  - rewrite (Z.ones_spec_low n) by lia. by rewrite andb_true_r.
  - rewrite (Z.ones_spec_high 8) by lia. by rewrite !andb_false_r.
Qed.

Lemma fast_write_checked depth a s v c q b b' : bus_ok b ->
  bus_tryFastWrite a s v c q b = (true, b') -> bus_write depth a s v c b = (inl 0, b').
Proof.
  intros Hb. unfold bus_tryFastWrite. cbv zeta. destruct (byteCount s =? 8); [done|].
  destruct (find_region a (bus_regions b)) as [[i r]|] eqn:Hf; [|done].
  destruct (fast_writable r a (byteCount s) q b) eqn:Hr; [|done]. intros [= <-].
  apply fast_writable_spec in Hr as (Hk & Hwr & Hc & Hx).
  pose proof (backed_at_intro b a (byteCount s) i r Hb Hf Hk Hc (byteCount_pos s)) as Hat.
  apply backed_not_device in Hk as [Ha Hm].
  assert (bus_write depth a s v c b = (inl 0, bump_execution_if (rg_executable r)
    (store_bytes i a (a - rg_base r) v (byteCount s) (ctx_pc c =? 0)
       (addStoreFootprint a (byteCount s) c b)))) as ->.
  { destruct depth; cbn [bus_write]; by rewrite (ba_valid _ _ _ _ _ Hat), Hf, Hc, Ha, Hwr, Hx, Hm. }
  destruct (Z.eqb_spec (byteCount s) 4) as [E4|]; [|done]. rewrite E4 in *. do 2 f_equal.
  rewrite (storeBackedWord_bytes i (addStoreFootprint a 4 c b) r).
  - replace (rg_base r + (a - rg_base r)) with a by lia. symmetry. apply store_bytes_value.
    intros k Hk. apply (value_byte_mod v k 32); lia.
  - rewrite addStore_regions. apply Hat.
  - apply Hat.
  - exact (ba_length _ _ _ _ _ Hat).
  - apply (ba_region _ _ _ _ _ Hat).
  - apply u32_range.
Qed.
Lemma tryFastWrite32_word a v c q b : is_u32 v ->
  bus_tryFastWrite32 a v c q b = bus_tryFastWrite a AccessSize.word v c q b.
Proof.
  intros Hv. unfold bus_tryFastWrite32, bus_tryFastWrite. cbn [byteCount]. cbv zeta.
  destruct (find_region a (bus_regions b)) as [[i r]|]; [|done]. by rewrite u32_small.
Qed.

Lemma tryFastWrite_miss a s v c q b b' : bus_tryFastWrite a s v c q b = (false, b') -> b' = b.
Proof. unfold bus_tryFastWrite. cbv zeta. intros Hf. by repeat case_match; simplify_eq. Qed.
Lemma tryFastRead_miss a s c b b' : bus_tryFastRead a s c b = (None, b') -> b' = b.
Proof. unfold bus_tryFastRead. cbv zeta. intros Hf. by repeat case_match; simplify_eq. Qed.

(** The narrow and word accesses are the checked access, with its value masked. *)
Lemma bus_read_narrow_checked s a c b : bus_ok b ->
  bus_read_narrow s (fun v => v mod 2 ^ (8 * byteCount s)) a c b
  = narrow (fun v => v mod 2 ^ (8 * byteCount s)) (bus_read maximum_alias_depth a s c b).
Proof.
  intros Hb. unfold bus_read_narrow. destruct (bus_tryFastRead a s c b) as [[v|] b'] eqn:Hf.
  - by destruct (fast_read_checked maximum_alias_depth a s c b v b' Hb Hf) as [-> _].
  - by apply tryFastRead_miss in Hf as ->.
Qed.
Lemma bus_read32_checked a c b : bus_ok b ->
  bus_read32 a c b = narrow u32 (bus_read maximum_alias_depth a AccessSize.word c b).
Proof.
  intros Hb. unfold bus_read32. rewrite bus_tryFastRead32_word.
  destruct (bus_tryFastRead a _ c b) as [[v|] b'] eqn:Hf.
  - destruct (fast_read_checked maximum_alias_depth a _ c b v b' Hb Hf) as [-> Hv].
    cbn [narrow]. by rewrite u32_small.
  - by apply tryFastRead_miss in Hf as ->.
Qed.
Lemma bus_write_narrow_checked s a v c b : bus_ok b ->
  bus_write_narrow s a v c b = bus_write maximum_alias_depth a s v c b.
Proof.
  intros Hb. unfold bus_write_narrow. destruct (bus_tryFastWrite a s v c false b) as [[] b'] eqn:Hf.
  - symmetry. exact (fast_write_checked _ _ _ _ _ _ _ _ Hb Hf).
  - by apply tryFastWrite_miss in Hf as ->.
Qed.
Lemma bus_write32_checked a v c b : bus_ok b -> is_u32 v ->
  bus_write32 a v c b = bus_write maximum_alias_depth a AccessSize.word v c b.
Proof.
  intros Hb Hv. unfold bus_write32. rewrite tryFastWrite32_word by done.
  by apply bus_write_narrow_checked.
Qed.

(** ** Bulk transfers *)

Lemma addAccess_flags a w b :
  bus_access_watch_log_enabled (addAccessFootprint a w b) = bus_access_watch_log_enabled b
  /\ bus_read_footprint_tracking (addAccessFootprint a w b) = bus_read_footprint_tracking b
  /\ bus_regions (addAccessFootprint a w b) = bus_regions b.
Proof.
  pose proof (forget_addAccess a w b) as E.
  exact (conj (f_equal bus_access_watch_log_enabled E)
    (conj (f_equal bus_read_footprint_tracking E) (f_equal bus_regions E))).
Qed.
Lemma addAccess_off a w b : bus_access_watch_log_enabled b = false ->
  bus_read_footprint_tracking b = false -> addAccessFootprint a w b = b.
Proof. intros Hl Hf. unfold addAccessFootprint. rewrite Hl. cbn [andb]. by rewrite Hf. Qed.

(** One word of a bulk read, on a region that covers it. *)
Lemma read32_in_region a c b i r : bus_ok b -> find_region a (bus_regions b) = Some (i, r) ->
  fast_readable r a 4 c = true ->
  bus_read32 a c b = (inl (region_value r (a - rg_base r) 4), note_backed_read a 4 c b).
Proof. intros Hb Hf Hr. unfold bus_read32, bus_tryFastRead32. by rewrite Hf, Hr. Qed.

Lemma fast_readable_inside r a w c a' : fast_readable r a w c = true ->
  a <= a' -> a' + 4 <= a + w -> fast_readable r a' 4 c = true.
Proof.
  unfold fast_readable. rewrite !andb_true_iff, !containsRange_spec. intros [[[? ?] [? ?]] ?] ? ?.
  repeat split; try done; lia.
Qed.

Definition noted_words (a : Z) (c : AccessContext) (ws : list Z) (b : Bus D) : Bus D :=
  foldl (fun b w => note_backed_read (u32 (a + w * 4)) 4 c b) b ws.

Lemma backed_read_regions a w c b : bus_regions (note_backed_read a w c b) = bus_regions b.
Proof. apply bus_eqv_regions, forget_backed_read. Qed.

Lemma read_words_region a c i r n k b : bus_ok b -> is_u32 a ->
  0 <= k -> (0 < n)%nat ->
  find_region a (bus_regions b) = Some (i, r) ->
  fast_readable r a ((k + Z.of_nat n) * 4) c = true ->
  read_words n (u32 (a + k * 4)) c b
  = (inl ((fun w => region_value r (a - rg_base r + w * 4) 4) <$> seqZ k (Z.of_nat n)),
     noted_words a c (seqZ k (Z.of_nat n)) b).
Proof.
  revert k b. induction n as [|n IH]; intros k b Hb Ha Hk Hn Hf Hr; [lia|].
  pose proof (fast_readable_spec _ _ _ _ Hr) as (_ & _ & Hc & _).
  apply containsRange_spec in Hc as [Hlo Hhi].
  pose proof (find_region_Some _ _ _ _ Hf) as [Hi _].
  pose proof (regions_ok_lookup _ _ _ Hb Hi) as Hreg. pose proof (rgk_end _ Hreg). pose proof (rgk_base _ Hreg).
  assert (u32 (a + k * 4) = a + k * 4) as Ea by (apply u32_small; unfold is_u32 in *; lia).
  cbn [read_words]. unfold read32, Bus_CpuMemory at 1.
  rewrite (read32_in_region _ _ _ i r Hb).
  2: { rewrite Ea. eapply find_region_same; [done|done|]. lia. }
  2: { rewrite Ea. eapply fast_readable_inside; [exact Hr|lia|lia]. }
  rewrite (seqZ_cons k) by lia. cbn [fmap list_fmap]. rewrite Ea.
  replace (a + k * 4 - rg_base r) with (a - rg_base r + k * 4) by lia.
  replace (Z.pred (Z.of_nat (S n))) with (Z.of_nat n) by lia.
  unfold noted_words. cbn [foldl]. rewrite Ea.
  destruct n as [|n]; [done|].
  replace (u32 (a + k * 4 + 4)) with (u32 (a + Z.succ k * 4)) by (f_equal; lia).
  rewrite IH; [reflexivity| | done|lia|lia| |].
  - unfold bus_ok. by rewrite backed_read_regions.
  - by rewrite backed_read_regions.
  - replace (Z.succ k + Z.of_nat (S n)) with (k + Z.of_nat (S (S n))) by lia. done.
Qed.

Lemma noted_words_tracked a c ws b : is_data_read c = true ->
  (if bus_read_footprint_tracking b && (is_data_read c && negb (ctx_pc c =? 0))
      || bus_access_watch_log_enabled b && (is_data_read c && negb (ctx_pc c =? 0))
   then foldl (fun b w => addAccessFootprint (u32 (a + w * 4)) 4 b) b ws else b)
  = noted_words a c ws b.
Proof.
  intros Hd. unfold noted_words, note_backed_read. rewrite Hd. cbn [andb].
  destruct (negb (ctx_pc c =? 0)).
  - rewrite !andb_true_r. destruct (bus_read_footprint_tracking b || bus_access_watch_log_enabled b) eqn:E; [done|].
    apply orb_false_iff in E as [Hf Hl]. induction ws as [|w ws IH]; [done|].
    cbn [foldl]. by rewrite addAccess_off.
  - rewrite !andb_false_r. cbn [orb]. by induction ws.
Qed.

Lemma tryFastReadWords_hit a n c b vs b' : bus_ok b -> is_u32 a ->
  ctx_type c = AccessType.data_read -> 0 < n ->
  bus_tryFastReadWords a n c b = (Some vs, b') -> read_words (Z.to_nat n) a c b = (inl vs, b').
Proof.
  intros Hb Ha Hd Hn. unfold bus_tryFastReadWords. cbv zeta.
  destruct ((n =? 0) || _); [done|].
  destruct (find_region a (bus_regions b)) as [[i r]|] eqn:Hf; [|done].
  destruct (is_backed r && rg_readable r && containsRange r a (n * 4)) eqn:Hc; [|done].
  assert (is_data_read c = true) as Hdr by (unfold is_data_read; by rewrite Hd).
  assert (is_fetch c = false) as Hfe by (unfold is_fetch; by rewrite Hd).
  rewrite noted_words_tracked by done. intros [= <- <-].
  replace a with (u32 (a + 0 * 4)) at 1 by (rewrite Z.add_0_r; by apply u32_small).
  rewrite (read_words_region a c i r) by
    (try done; try lia; rewrite Z2Nat.id, Z.add_0_l by lia; unfold fast_readable; by rewrite Hc, Hfe).
  by rewrite Z2Nat.id by lia.
Qed.
Lemma forget_addAccess_words a ws b :
  forget (foldl (fun b w => addAccessFootprint (u32 (a + w * 4)) 4 b) b ws) = forget b.
Proof. revert b. induction ws as [|w ws IH]; intros b; [done|]. cbn [foldl]. by rewrite IH, forget_addAccess. Qed.
Lemma tryFastReadWords_eqv a n c b r b' : bus_tryFastReadWords a n c b = (r, b') -> bus_eqv b' b.
Proof.
  unfold bus_tryFastReadWords. cbv zeta. intros Hf. repeat case_match; simplify_eq; try done.
  apply forget_addAccess_words.
Qed.

(** One word of a bulk write. *)
Lemma write32_in_region a v c b i r : find_region a (bus_regions b) = Some (i, r) ->
  fast_writable r a 4 false b = true ->
  bus_write32 a v c b = (inl 0, bump_execution_if (rg_executable r)
    (storeBackedWord i (a - rg_base r) v (ctx_pc c =? 0) (addStoreFootprint a 4 c b))).
Proof. intros Hf Hw. unfold bus_write32, bus_tryFastWrite32. by rewrite Hf, Hw. Qed.

Lemma storeBackedWord_regions i o v x b :
  shape <$> bus_regions (storeBackedWord i o v x b) = shape <$> bus_regions b
  /\ bus_reversible_ram_only (storeBackedWord i o v x b) = bus_reversible_ram_only b.
Proof.
  unfold storeBackedWord. cbv zeta. destruct (_ =? v); [done|].
  match goal with |- context [set_region i ?q ?b'] =>
    assert (bus_regions b' = bus_regions b /\ bus_reversible_ram_only b' = bus_reversible_ram_only b) as [E1 E2] end.
  { destruct (bus_write_journal_tracking b); [|done]. by destruct (foldl _ _ _). }
  unfold set_region. cbn [bus_regions bus_reversible_ram_only]. rewrite E1. split; [|exact E2].
  unfold region_at. destruct (bus_regions b !! i) as [r|] eqn:Hi; cbn [default].
  - rewrite list_fmap_insert. apply list_insert_id. by rewrite list_lookup_fmap, Hi.
  - rewrite list_insert_ge; [done|by apply lookup_ge_None].
Qed.

Lemma fast_writable_inside r r' a w q b b' a' : shape r' = shape r ->
  bus_reversible_ram_only b' = bus_reversible_ram_only b -> fast_writable r a w q b = true ->
  a <= a' -> a' + 4 <= a + w -> fast_writable r' a' 4 q b' = true.
Proof.
  intros Es Er.
  assert (fast_writable r' a' 4 q b' = fast_writable (shape r) a' 4 q b') as ->.
  { rewrite <- Es. reflexivity. }
  assert (fast_writable r a w q b = fast_writable (shape r) a w q b) as -> by reflexivity.
  unfold fast_writable. rewrite Er, !andb_true_iff, !containsRange_spec. intros [[[? ?] [? ?]] ?] ? ?.
  repeat split; try done; lia.
Qed.

Definition stored_words (i : nat) (base : Z) (x : bool) (ws : list (Z * Z)) (b : Bus D) : Bus D :=
  foldl (fun b '(w, value) => storeBackedWord i (base + w * 4) value x b) b ws.

Lemma write_words_region a c i r b0 vs k b1 b2 : bus_ok b0 -> is_u32 a -> 0 <= k ->
  find_region a (bus_regions b0) = Some (i, r) ->
  fast_writable r a ((k + Z.of_nat (length vs)) * 4) false b0 = true ->
  bus_eqv b1 b2 -> shape <$> bus_regions b0 = shape <$> bus_regions b2 ->
  bus_reversible_ram_only b2 = bus_reversible_ram_only b0 ->
  ∃ b2', write_words vs (u32 (a + k * 4)) c b2 = (inl 0, b2')
    /\ bus_eqv (stored_words i (a - rg_base r) (ctx_pc c =? 0)
                  (zip (seqZ k (Z.of_nat (length vs))) vs) b1) b2'.
Proof.
  intros Hb0 Ha. revert k b1 b2. induction vs as [|v vs IH]; intros k b1 b2 Hk Hf Hw Hb Hs Hr.
  { by exists b2. }
  cbn [length] in *.
  pose proof (fast_writable_spec _ _ _ _ _ Hw) as (_ & _ & Hc & _). apply containsRange_spec in Hc as [Hlo Hhi].
  pose proof (find_region_Some _ _ _ _ Hf) as [Hi _].
  pose proof (regions_ok_lookup _ _ _ Hb0 Hi) as Hreg. pose proof (rgk_end _ Hreg). pose proof (rgk_base _ Hreg).
  assert (u32 (a + k * 4) = a + k * 4) as Ea by (apply u32_small; unfold is_u32 in *; lia).
  assert (find_region (a + k * 4) (bus_regions b0) = Some (i, r)) as Hfk.
  { eapply find_region_same; [done|done|]. lia. }
  destruct (find_region_shape _ _ _ _ _ Hs Hfk) as (r2 & Hf2 & Hs2).
  assert (fast_writable r2 (a + k * 4) 4 false b2 = true) as Hw2.
  { apply (fast_writable_inside _ _ _ _ _ _ _ _ Hs2 Hr Hw); lia. }
  cbn [write_words]. unfold write32, Bus_CpuMemory at 1.
  rewrite Ea, (write32_in_region _ _ _ _ _ _ Hf2 Hw2). cbv beta iota.
  set (b2' := bump_execution_if _ _).
  replace (u32 (a + k * 4 + 4)) with (u32 (a + Z.succ k * 4)) by (f_equal; lia).
  rewrite (seqZ_cons k) by lia. replace (Z.pred (Z.of_nat (S (length vs)))) with (Z.of_nat (length vs)) by lia.
  unfold stored_words. cbn [zip zip_with foldl].
  apply (IH (Z.succ k)); [lia|done| | | |].
  - replace (Z.succ k + Z.of_nat (length vs)) with (k + Z.of_nat (S (length vs))) by lia. done.
  - unfold bus_eqv, b2'. rewrite forget_bump_execution, !forget_storeBackedWord, forget_addStore, Hb.
    f_equal. rewrite (shape_base _ _ Hs2). lia.
  - unfold b2'. rewrite bump_execution_regions, (proj1 (storeBackedWord_regions _ _ _ _ _)), addStore_regions. done.
  - rewrite <- Hr. unfold b2'. rewrite <- (bus_eqv_reversible _ _ (forget_addStore (a + k * 4) 4 c b2)).
    rewrite (bus_eqv_reversible _ _ (forget_bump_execution _ _)). apply storeBackedWord_regions.
Qed.

Lemma tryFastWriteWords_hit a vs c b b' : bus_ok b -> is_u32 a ->
  bus_tryFastWriteWords a vs c false b = (true, b') ->
  ∃ b'', write_words vs a c b = (inl 0, b'') /\ bus_eqv b' b''.
Proof.
  intros Hb Ha. unfold bus_tryFastWriteWords. cbv zeta.
  destruct ((_ =? 0) || _); [done|].
  destruct (find_region a (bus_regions b)) as [[i r]|] eqn:Hf; [|done].
  destruct (fast_writable r a (Z.of_nat (length vs) * 4) false b) eqn:Hc; [|done]. intros [= <-].
  destruct (write_words_region a c i r b vs 0 (addStoreFootprint a (Z.of_nat (length vs) * 4) c b) b)
    as (b2 & Hw & He); try done.
  - apply forget_addStore.
  - exists b2. rewrite Z.add_0_r, u32_small in Hw by done. split; [exact Hw|].
    etransitivity; [apply forget_bump_execution|exact He].
Qed.
Lemma tryFastWriteWords_miss a vs c q b b' : bus_tryFastWriteWords a vs c q b = (false, b') -> b' = b.
Proof. unfold bus_tryFastWriteWords. cbv zeta. intros Hf. by repeat case_match; simplify_eq. Qed.

(** ** The processor's memory interface *)

Lemma narrow_snd mask (p : MemoryResult Z * Bus D) : snd (narrow mask p) = snd p.
Proof. by destruct p as [[v|f] b]. Qed.
Lemma read_ok_of s mask a c b : bus_ok b -> bus_ok (snd (bus_read_narrow s mask a c b)).
Proof.
  intros Hb. unfold bus_read_narrow. destruct (bus_tryFastRead a s c b) as [[v|] b'] eqn:Hf.
  - destruct (fast_read_checked maximum_alias_depth a s c b v b' Hb Hf) as [Hr _].
    unfold bus_ok. pose proof (bus_read_regions maximum_alias_depth a s c b) as E. rewrite Hr in E.
    cbn [snd] in *. by rewrite E.
  - apply tryFastRead_miss in Hf as ->. unfold bus_ok. by rewrite narrow_snd, bus_read_regions.
Qed.
Lemma tryFastWrite_narrow a s v v' c q b : (∀ k, 0 <= k < byteCount s -> value_byte v k = value_byte v' k) ->
  byteCount s <> 4 -> bus_tryFastWrite a s v c q b = bus_tryFastWrite a s v' c q b.
Proof.
  intros Hv Hs. unfold bus_tryFastWrite. cbv zeta.
  destruct (byteCount s =? 8); [done|]. destruct (find_region _ _) as [[i r]|]; [|done].
  destruct (fast_writable _ _ _ _ _); [|done]. destruct (Z.eqb_spec (byteCount s) 4); [done|].
  by rewrite (store_bytes_value _ _ _ _ _ _ _ _ Hv).
Qed.
Lemma read_narrow_fast s mask a c b v b' : bus_ok b -> (∀ v, 0 <= v < 2 ^ (8 * byteCount s) -> mask v = v) ->
  bus_tryFastRead a s c b = (Some v, b') -> bus_read_narrow s mask a c b = (inl v, b').
Proof.
  intros Hb Hm Hf. unfold bus_read_narrow. rewrite Hf.
  destruct (fast_read_checked maximum_alias_depth a s c b v b' Hb Hf) as [_ Hv]. by rewrite Hm.
Qed.
Lemma read_narrow_range s mask a c b v b' : bus_read_narrow s mask a c b = (inl v, b') -> ∃ u, v = mask u.
Proof.
  unfold bus_read_narrow. destruct (bus_tryFastRead a s c b) as [[u|] b1]; [intros [= <- _]; by exists u|].
  destruct (bus_read _ _ _ _ _) as [[u|f] b2]; intros [= <- _]. by exists u.
Qed.
Lemma read32_narrow a c b : bus_ok b -> bus_read32 a c b = bus_read_narrow AccessSize.word u32 a c b.
Proof.
  intros Hb. unfold bus_read32, bus_read_narrow. rewrite bus_tryFastRead32_word.
  destruct (bus_tryFastRead a _ c b) as [[u|] b1] eqn:Hf; [|done].
  destruct (fast_read_checked maximum_alias_depth a _ c b u b1 Hb Hf) as [_ Hv]. by rewrite u32_small.
Qed.
Lemma Forall_list_inserts (P : Z -> Prop) k vs l : Forall P vs -> Forall P l -> Forall P (list_inserts k vs l).
Proof.
  intros Hvs. revert k. induction Hvs as [|v vs Hv Hvs IH]; intros k Hl; [done|].
  cbn [list_inserts]. apply Forall_insert; [|done]. by apply IH.
Qed.
Lemma storeBackedWord_ok i o v x b : bus_ok b -> bus_ok (storeBackedWord i o v x b).
Proof.
  intros Hb. unfold storeBackedWord. cbv zeta. destruct (_ =? v); [done|].
  match goal with |- context [set_region i ?q ?b'] => assert (bus_regions b' = bus_regions b) as E end.
  { destruct (bus_write_journal_tracking b); [|done]. by destruct (foldl _ _ _). }
  unfold bus_ok, set_region. cbn [bus_regions]. rewrite E. unfold region_at.
  destruct (bus_regions b !! i) as [r|] eqn:Hi; cbn [default].
  - pose proof (regions_ok_lookup _ _ _ Hb Hi) as Hr. eapply regions_ok_insert; [done|done|done|].
    apply region_ok_bytes; [done|apply length_inserts|].
    apply Forall_list_inserts; [apply word_bytes_range|apply Hr].
  - rewrite list_insert_ge; [done|by apply lookup_ge_None].
Qed.
Lemma write32_ok_of a v c b : bus_ok b -> bus_ok (snd (bus_write32 a v c b)).
Proof.
  intros Hb. unfold bus_write32, bus_tryFastWrite32.
  destruct (find_region a (bus_regions b)) as [[i r]|]; [|by apply bus_write_ok].
  destruct (fast_writable _ _ _ _ _); [|by apply bus_write_ok].
  by apply bump_execution_ok, storeBackedWord_ok, addStore_ok.
Qed.
Lemma write_narrow_ok s a v c b : bus_ok b -> bus_ok (snd (bus_write_narrow s a v c b)).
Proof. intros Hb. rewrite bus_write_narrow_checked by done. by apply bus_write_ok. Qed.
Lemma tryFastWrite32_miss a v c q b b' : bus_tryFastWrite32 a v c q b = (false, b') -> b' = b.
Proof. unfold bus_tryFastWrite32. intros Hf. by repeat case_match; simplify_eq. Qed.

#[global] Instance Bus_CpuMemoryLaws : CpuMemoryLaws (Bus D).
Proof.
  refine {| mem_ok := bus_ok; mem_eqv := bus_eqv |}; cbn [read8 read16 read32 write8 write16 write32
    tryFastRead32 tryFastRead tryFastWrite32 tryFastWrite tryFastReadWords tryFastWriteWords
    mmioTrapping system_fpccr Bus_CpuMemory].
  - intros b1 b2. apply eqv_ok.
  - intros a c b1 b2. apply bus_read_narrow_eqv.
  - intros a c b1 b2. apply bus_read_narrow_eqv.
  - intros a c b1 b2. apply bus_read32_eqv.
  - intros a v c b1 b2. apply bus_write_narrow_eqv.
  - intros a v c b1 b2. apply bus_write_narrow_eqv.
  - intros a v c b1 b2. apply bus_write32_eqv.
  - intros b1 b2. apply bus_eqv_trapping.
  - intros b1 b2 Hb. by rewrite (bus_eqv_devices _ _ Hb).
  - intros a c m. apply read_ok_of.
  - intros a c m. apply read_ok_of.
  - intros a c m Hm. rewrite read32_narrow by done. by apply read_ok_of.
  - intros a v c m. apply write_narrow_ok.
  - intros a v c m. apply write_narrow_ok.
  - intros a v c m. apply write32_ok_of.
  - intros a c m v m' _ Hr. apply read_narrow_range in Hr as [u ->]. apply u8_range.
  - intros a c m v m' _ Hr. apply read_narrow_range in Hr as [u ->]. apply u16_range.
  - intros a c m v m' Hm. rewrite read32_narrow by done. intros Hr.
    apply read_narrow_range in Hr as [u ->]. apply u32_range.
  - intros a c m v m' Hm Hf. unfold bus_read32. by rewrite Hf.
  - intros a c m v m' Hm. apply read_narrow_fast; [done|]. intros u. apply u8_small.
  - intros a c m v m' Hm. apply read_narrow_fast; [done|]. intros u. apply u16_small.
  - intros a v c m m' Hm Hf. exists 0. unfold bus_write32. by rewrite Hf.
  - intros a v c m m' Hm Hf. exists 0. unfold bus_write8, bus_write_narrow.
    rewrite (tryFastWrite_narrow a AccessSize.byte (u8 v) v), Hf; [done| |done].
    intros k Hk. cbn [byteCount] in Hk. apply (value_byte_mod v k 8); lia.
  - intros a v c m m' Hm Hf. exists 0. unfold bus_write16, bus_write_narrow.
    rewrite (tryFastWrite_narrow a AccessSize.halfword (u16 v) v), Hf; [done| |done].
    intros k Hk. cbn [byteCount] in Hk. apply (value_byte_mod v k 16); lia.
  - intros a c m m'. rewrite bus_tryFastRead32_word. apply tryFastRead_miss.
  - intros a s c m m'. apply tryFastRead_miss.
  - intros a v c m m'. apply tryFastWrite32_miss.
  - intros a s v c m m'. apply tryFastWrite_miss.
  - intros a n c m vs m'. apply tryFastReadWords_hit.
  - intros a n c m r m'. apply tryFastReadWords_eqv.
  - intros a vs c m m' Hm Ha _ _ _ Hf. exists 0. by apply tryFastWriteWords_hit.
  - intros a vs c m m'. apply tryFastWriteWords_miss.
Defined.
End access.
