(* ===== verification/BusJournal.v ===== *)
(** * The mutation journal

    Byte-level effect of stores, and soundness of the journal that lanes use to run ahead
    and roll back: from a checkpoint, any number of journalled byte stores that fits the
    ring can be undone exactly, [sideEffectsRestoredSince] decides whether the backed memory
    is as it was, and [sideEffectsCompatibleSince] never accepts a change of a byte that the
    read footprint covers. *)

From stdpp Require Import gmap sorting.
From S2P Require Import Prelude Address CpuState CpuStateProofs MemoryApi MemoryBus.
From S2P Require Import MemoryBusProofs BusAccess.
#[local] Open Scope Z_scope.
#[local] Open Scope fil_scope.

(** ** The read footprint has no false negatives *)

Definition bit_marked (words : list Z) (bit : Z) : bool :=
  has (rget words (bit .>> 6)) (1 .<< (bit .& 63)).

Lemma shiftl_one k : 0 <= k -> 1 .<< k = 2 ^ k.
Proof. intros Hk. rewrite Z.shiftl_mul_pow2 by done. lia. Qed.
Lemma footprint_bit_low bit : 0 <= bit .& 63.
Proof. apply Z.land_nonneg. by right. Qed.

Lemma footprint_set_marks words bit : 0 <= bit < 256 -> length words = 4%nat ->
  bit_marked (footprint_set words bit) bit = true.
Proof.
  intros Hb Hl. unfold bit_marked, footprint_set, rget at 1, rset.
  assert (0 <= bit .>> 6 < 4) as Hi.
  { rewrite Z.shiftr_div_pow2 by lia. change (2 ^ 6) with 64. split; [apply Z.div_pos; lia|].
    apply Z.div_lt_upper_bound; lia. }
  rewrite list_lookup_insert_eq by lia. cbn [from_option id]. pose proof (footprint_bit_low bit).
  rewrite shiftl_one by done. rewrite has_lor, !has_pow2 by done.
  rewrite (Z.pow2_bits_true (bit .& 63)) by done. apply orb_true_r.
Qed.
Lemma footprint_set_keeps words bit bit' : 0 <= bit -> 0 <= bit' ->
  bit_marked words bit' = true -> bit_marked (footprint_set words bit) bit' = true.
Proof.
  intros Hb Hb' Hm. unfold bit_marked, footprint_set in *.
  destruct (Z.eq_dec (bit .>> 6) (bit' .>> 6)) as [E|E].
  - rewrite <- E in *. unfold rget at 1, rset.
    destruct (decide (Z.to_nat (bit .>> 6) < length words)%nat).
    + rewrite list_lookup_insert_eq by done. cbn [from_option id]. rewrite has_lor, Hm. done.
    + rewrite list_insert_ge by lia. exact Hm.
  - unfold rget at 1, rset. rewrite list_lookup_insert_ne; [exact Hm|].
    intros E'. apply E. assert (0 <= bit .>> 6) by by apply Z.shiftr_nonneg.
    assert (0 <= bit' .>> 6) by by apply Z.shiftr_nonneg. lia.
Qed.

Lemma footprintBitIndices_range a : Forall (fun bit => 0 <= bit < 256) (footprintBitIndices a).
Proof.
  assert (∀ x, 0 <= u32 x .>> 24 < 256) as Hx.
  { intros x. pose proof (u32_range x) as Hr. unfold is_u32 in Hr. rewrite Z.shiftr_div_pow2 by lia.
    split; [apply Z.div_pos; lia|]. apply Z.div_lt_upper_bound; lia. }
  unfold footprintBitIndices. cbv zeta. repeat (constructor; [apply Hx|]). constructor.
Qed.
Lemma footprintContains_marked f a :
  footprintContains f a = true <-> Forall (fun bit => bit_marked (rf_words f) bit = true) (footprintBitIndices a).
Proof. unfold footprintContains. rewrite forallb_forall, List.Forall_forall. done. Qed.

Lemma footprint_sets_length words bits : length (foldl footprint_set words bits) = length words.
Proof.
  revert words. induction bits as [|bit bits IH]; intros words; [done|]. cbn [foldl].
  rewrite IH. apply length_insert.
Qed.
Lemma footprint_sets_keep words bits bit : Forall (fun x => 0 <= x < 256) bits -> 0 <= bit ->
  bit_marked words bit = true -> bit_marked (foldl footprint_set words bits) bit = true.
Proof.
  intros Hbits Hb. revert words. induction Hbits as [|x bits Hx Hbits IH]; intros words Hm; [done|].
  cbn [foldl]. apply IH. apply footprint_set_keeps; [lia|lia|done].
Qed.
Lemma footprint_sets_mark words bits : Forall (fun x => 0 <= x < 256) bits -> length words = 4%nat ->
  Forall (fun bit => bit_marked (foldl footprint_set words bits) bit = true) bits.
Proof.
  intros Hbits. revert words. induction Hbits as [|x bits Hx Hbits IH]; intros words Hl; [done|].
  cbn [foldl]. constructor.
  - apply footprint_sets_keep; [done|lia|]. by apply footprint_set_marks.
  - apply IH. unfold footprint_set. by rewrite rset_length.
Qed.

Lemma addReadFootprint_contains f a : length (rf_words f) = 4%nat ->
  footprintContains (addReadFootprint f a) a = true.
Proof. intros Hl. apply footprintContains_marked, footprint_sets_mark; [apply footprintBitIndices_range|done]. Qed.
Lemma addReadFootprint_keeps f a a' : footprintContains f a' = true ->
  footprintContains (addReadFootprint f a) a' = true.
Proof.
  rewrite !footprintContains_marked. pose proof (footprintBitIndices_range a') as Hr.
  intros Hf. rewrite List.Forall_forall in *. intros bit Hbit.
  apply footprint_sets_keep; [apply footprintBitIndices_range|by apply Hr|by apply Hf].
Qed.
Lemma addReadFootprints_contain f ws a : length (rf_words f) = 4%nat -> a ∈ ws ->
  footprintContains (foldl addReadFootprint f ws) a = true.
Proof.
  intros Hl Ha. assert (∀ ws f, footprintContains f a = true ->
    footprintContains (foldl addReadFootprint f ws) a = true) as Hkeep.
  { clear. induction ws as [|w ws IH]; intros f Hf; [done|]. cbn [foldl]. by apply IH, addReadFootprint_keeps. }
  revert f Hl. induction ws as [|w ws IH]; intros f Hl; [by apply not_elem_of_nil in Ha|].
  cbn [foldl]. apply elem_of_cons in Ha as [->|Ha].
  - by apply Hkeep, addReadFootprint_contains.
  - apply IH; [done|]. cbn [addReadFootprint rf_words]. by rewrite footprint_sets_length.
Qed.

(** The filter is per word. *)
Lemma footprintContains_word f a a' : a .>> 2 = a' .>> 2 -> footprintContains f a = footprintContains f a'.
Proof. intros E. unfold footprintContains, footprintBitIndices. by rewrite E. Qed.

Lemma align_down a : is_u32 a -> a .& not32 3 = 4 * (a .>> 2).
Proof.
  intros Ha. rewrite Z.mul_comm. change 4 with (2 ^ 2) at 1. rewrite <- Z.shiftl_mul_pow2 by lia.
  change (not32 3) with (Z.ones 30 .<< 2). apply Z.bits_inj'. intros k Hk.
  rewrite Z.land_spec, !Z.shiftl_spec by done. destruct (Z.lt_ge_cases k 2).
  - rewrite !(Z.testbit_neg_r _ (k - 2)) by lia. by rewrite andb_false_r.
  - rewrite Z.shiftr_spec by lia. replace (k - 2 + 2) with k by lia.
    destruct (Z.lt_ge_cases (k - 2) 30).
    + rewrite Z.ones_spec_low by lia. by rewrite andb_true_r.
    + rewrite (high_bits_clear 32 a) by (unfold is_u32 in *; lia). done.
Qed.

(** The words marked for an access cover each of its bytes. *)
Lemma span_words_cover a w a' : is_u32 a -> is_u32 a' -> a <= a' < a + w ->
  ∃ word, word ∈ span_words a w /\ word .>> 2 = a' .>> 2.
Proof.
  intros Ha Ha' Hin. unfold span_words. cbv zeta. rewrite align_down by done.
  rewrite !Z.shiftr_div_pow2 by lia. change (2 ^ 2) with 4.
  pose proof (Z.div_mod a 4 ltac:(lia)). pose proof (Z.mod_pos_bound a 4 ltac:(lia)).
  pose proof (Z.div_mod a' 4 ltac:(lia)). pose proof (Z.mod_pos_bound a' 4 ltac:(lia)).
  assert (0 <= a / 4) by (apply Z.div_pos; unfold is_u32 in *; lia).
  exists (4 * (a' / 4)). split.
  - apply list_elem_of_fmap. exists (a' / 4 - a / 4). split.
    + rewrite u32_small; unfold is_u32 in *; lia.
    + apply elem_of_seqZ. split; [lia|]. rewrite Z.add_0_l.
      apply Z.lt_le_trans with ((a + w - 4 * (a / 4) + 3) / 4); [|lia].
      apply (Z.lt_le_trans _ ((4 * (a' / 4 - a / 4) + 4) / 4)).
      * replace (4 * (a' / 4 - a / 4) + 4) with ((a' / 4 - a / 4 + 1) * 4) by lia.
        rewrite Z.div_mul by lia. lia.
      * apply Z.div_le_mono; lia.
  - rewrite Z.mul_comm. rewrite Z.shiftr_div_pow2 by lia. change (2 ^ 2) with 4. by rewrite Z.div_mul.
Qed.

Section journal.
Context `{MmioDevices D}.
Implicit Types b : Bus D.

(** ** Bytes *)

Lemma backed_byte_region a b i r : find_region a (bus_regions b) = Some (i, r) ->
  is_backed r = true -> backed_byte a b = Some (rget (rg_bytes r) (a - rg_base r)).
Proof.
  intros Hf Hk. apply backed_not_device in Hk as [Ha Hm].
  unfold backed_byte. by rewrite Hf, Ha, Hm.
Qed.
Lemma not_device_backed r : is_mmio r || is_alias r = negb (is_backed r).
Proof. unfold is_mmio, is_alias, is_backed. by destruct (rg_kind r). Qed.

(** What a byte store does to the stored bytes. *)
Lemma backed_byte_set_byte a a' i r v b : bus_ok b ->
  find_region a (bus_regions b) = Some (i, r) -> is_backed r = true ->
  backed_byte a' (set_byte i (a - rg_base r) v b)
  = if a' =? a then Some v else backed_byte a' b.
Proof.
  intros Hb Hf Hk. pose proof (find_region_Some _ _ _ _ Hf) as [Hi Hc].
  pose proof (proj1 (region_contains_spec _ _) Hc) as Ha.
  pose proof (regions_ok_lookup _ _ _ Hb Hi) as Hr.
  assert (length (rg_bytes r) = Z.to_nat (rg_size r)) as Hl by by apply Hr.
  unfold backed_byte.
  assert (∀ q, find_region a' (bus_regions b) = Some q -> ∃ r',
    find_region a' (bus_regions (set_byte i (a - rg_base r) v b)) = Some (fst q, r')
    /\ shape r' = shape (snd q)) as Hto.
  { intros [j r1] Hj. apply (find_region_shape _ _ _ _ _ (eq_sym (set_byte_shape i (a - rg_base r) v b)) Hj). }
  destruct (find_region a' (bus_regions b)) as [[j r1]|] eqn:Hj.
  - destruct (Hto _ eq_refl) as (r' & Hf' & Hs). rewrite Hf'. cbn [fst snd] in *.
    apply find_region_Some in Hj as [Hj Hc'], Hf' as [Hj' _].
    apply region_contains_spec in Hc'.
    rewrite (set_byte_regions _ _ _ _ _ Hi) in Hj'.
    rewrite !not_device_backed, (shape_backed _ _ Hs), (shape_base _ _ Hs).
    destruct (decide (i = j)) as [<-|Hne].
    + rewrite list_lookup_insert_eq in Hj' by (by eapply lookup_lt_Some).
      assert (r1 = r) as -> by congruence. injection Hj' as <-. rewrite Hk. cbn [negb rg_bytes].
      destruct (Z.eqb_spec a' a) as [->|Hna].
      * rewrite rget_rset; [done|]. unfold region_end in *. lia.
      * rewrite rget_rset_ne; [done|lia|lia|lia].
    + rewrite list_lookup_insert_ne in Hj' by done. assert (r' = r1) as -> by congruence.
      destruct (Z.eqb_spec a' a) as [->|Hna]; [|done].
      assert (find_region a (bus_regions b) = Some (j, r1)) as Hj2.
      { apply find_region_complete; [done|done|]. by apply region_contains_spec. }
      congruence.
  - destruct (find_region a' (bus_regions (set_byte _ _ _ _))) as [[j r1]|] eqn:Hj'.
    + destruct (find_region_shape _ _ _ _ _ (set_byte_shape i (a - rg_base r) v b) Hj') as (r' & Hf' & _).
      congruence.
    + destruct (Z.eqb_spec a' a) as [->|]; [congruence|done].
Qed.

Lemma backed_byte_regions a b1 b2 : bus_regions b1 = bus_regions b2 -> backed_byte a b1 = backed_byte a b2.
Proof. intros E. unfold backed_byte. by rewrite E. Qed.

Lemma backed_byte_store_byte a a' i r v x b : bus_ok b ->
  find_region a (bus_regions b) = Some (i, r) -> is_backed r = true ->
  backed_byte a' (store_byte i a (a - rg_base r) v x b)
  = if a' =? a then Some v else backed_byte a' b.
Proof.
  intros Hb Hf Hk. rewrite <- (backed_byte_set_byte a a' i r v b) by done.
  unfold store_byte. cbv zeta. pose proof (find_region_Some _ _ _ _ Hf) as [Hi _].
  assert (region_at i b = r) as -> by (unfold region_at; by rewrite Hi).
  destruct (Z.eqb_spec (rget (rg_bytes r) (a - rg_base r)) v) as [E|].
  - rewrite (backed_byte_set_byte a a' i r v b) by done.
    destruct (Z.eqb_spec a' a) as [->|]; [|done]. by rewrite (backed_byte_region _ _ _ _ Hf Hk), E.
  - apply backed_byte_regions. unfold set_byte, set_region, region_at, bump_side_effect.
    cbn [bus_regions]. by rewrite recordMutation_regions.
Qed.

(** Induction over the byte loop of a store to one backed region. *)
Lemma store_bytes_ind (P : Z -> Bus D -> Prop) a i r v w x b : bus_ok b -> is_u32 a -> 0 <= w ->
  find_region a (bus_regions b) = Some (i, r) -> is_backed r = true -> containsRange r a w = true ->
  P 0 b ->
  (∀ k b' r', 0 <= k < w -> P k b' -> bus_ok b' ->
    find_region (a + k) (bus_regions b') = Some (i, r') -> is_backed r' = true ->
    P (k + 1) (store_byte i (a + k) (a + k - rg_base r') (value_byte v k) x b')) ->
  P w (store_bytes i a (a - rg_base r) v w x b).
Proof.
  intros Hb Ha Hw Hf Hk Hc H0 Hstep. apply containsRange_spec in Hc as [Hlo Hhi].
  pose proof (find_region_Some _ _ _ _ Hf) as [Hi _].
  pose proof (regions_ok_lookup _ _ _ Hb Hi) as Hr. pose proof (rgk_end _ Hr) as Hend. pose proof (rgk_base _ Hr).
  rewrite <- (Z2Nat.id w) by done.
  assert (Z.to_nat w <= Z.to_nat w)%nat as Hn by done. revert Hn. generalize (Z.to_nat w) at 1 3 4 as n.
  induction n as [|n IH]; intros Hn; [exact H0|].
  specialize (IH ltac:(lia)). unfold store_bytes in *. rewrite seqZ_S, foldl_app. cbn [foldl].
  set (b' := foldl _ b (seqZ 0 (Z.of_nat n))) in *. rewrite Z.add_0_l.
  change b' with (store_bytes i a (a - rg_base r) v (Z.of_nat n) x b) in *. clearbody b'.
  replace (Z.of_nat (S n)) with (Z.of_nat n + 1) by lia.
  assert (find_region (a + Z.of_nat n) (bus_regions b) = Some (i, r)) as Hfn.
  { eapply find_region_same; [done|done|]. lia. }
  set (b1 := store_bytes i a (a - rg_base r) v (Z.of_nat n) x b) in *.
  assert (bus_ok b1) as Hb1 by by apply store_bytes_ok.
  destruct (find_region_shape _ _ _ _ _ (eq_sym (store_bytes_shape i a (a - rg_base r) v (Z.of_nat n) x b)) Hfn)
    as (r' & Hf' & Hs). change (find_region (a + Z.of_nat n) (bus_regions b1) = Some (i, r')) in Hf'.
  rewrite u32_small by (unfold is_u32 in *; lia).
  replace (a - rg_base r + Z.of_nat n) with (a + Z.of_nat n - rg_base r') by (rewrite (shape_base _ _ Hs); lia).
  apply Hstep; [lia|exact IH|done|done|]. by rewrite (shape_backed _ _ Hs).
Qed.

(** What the byte loop of a store does. *)
Lemma backed_byte_store_bytes a a' i r v w x b : bus_ok b -> is_u32 a -> 0 <= w ->
  find_region a (bus_regions b) = Some (i, r) -> is_backed r = true -> containsRange r a w = true ->
  backed_byte a' (store_bytes i a (a - rg_base r) v w x b)
  = if (a <=? a') && (a' <? a + w) then Some (value_byte v (a' - a)) else backed_byte a' b.
Proof.
  intros Hb Ha Hw Hf Hk Hc.
  apply (store_bytes_ind (fun k b' => backed_byte a' b' =
    if (a <=? a') && (a' <? a + k) then Some (value_byte v (a' - a)) else backed_byte a' b));
    [done..| |].
  - destruct (Z.leb_spec a a'), (Z.ltb_spec a' (a + 0)); try done. lia.
  - intros k b' r' Hkw IH Hb' Hf' Hk'. rewrite backed_byte_store_byte, IH by done.
    destruct (Z.eqb_spec a' (a + k)) as [->|Hne].
    + replace (a + k - a) with k by lia.
      destruct (Z.leb_spec a (a + k)), (Z.ltb_spec (a + k) (a + (k + 1))); try done; lia.
    + destruct (Z.leb_spec a a'); [|done]. cbn [andb].
      destruct (Z.ltb_spec a' (a + k)), (Z.ltb_spec a' (a + (k + 1))); try done; lia.
Qed.

(** ** Reads see the bytes *)

Lemma le_value_bytes v bs k : (∀ j byte, bs !! j = Some byte -> byte = value_byte v (k + Z.of_nat j)) ->
  0 <= k -> le_value bs = (v .>> (8 * k)) mod 2 ^ (8 * Z.of_nat (length bs)).
Proof.
  revert k. induction bs as [|byte bs IH]; intros k Hbs Hk; cbn [length].
  { change (2 ^ (8 * Z.of_nat 0)) with 1. by rewrite Z.mod_1_r. }
  pose proof (Hbs 0%nat byte eq_refl) as Hb. rewrite Z.add_0_r in Hb. subst byte.
  rewrite le_value_cons by apply value_byte_range. rewrite (IH (k + 1)); [|intros j c Hj|lia].
  - replace (8 * Z.of_nat (S (length bs))) with (8 + 8 * Z.of_nat (length bs)) by lia.
    rewrite Z.pow_add_r by lia. rewrite Z.rem_mul_r by lia. unfold value_byte, u8.
    change (2 ^ 8) with 256. rewrite (Z.mul_comm k 8), (Z.mul_comm 256). do 2 f_equal.
    replace (8 * (k + 1)) with (8 * k + 8) by lia. rewrite <- Z.shiftr_shiftr by lia.
    f_equal. by rewrite (Z.shiftr_div_pow2 _ 8).
  - rewrite (Hbs (S j) c Hj). f_equal. lia.
Qed.

Lemma region_value_bytes b a w i r v : bus_ok b -> 0 < w ->
  find_region a (bus_regions b) = Some (i, r) -> is_backed r = true -> containsRange r a w = true ->
  (∀ k, 0 <= k < w -> backed_byte (a + k) b = Some (value_byte v k)) ->
  region_value r (a - rg_base r) w = v mod 2 ^ (8 * w).
Proof.
  intros Hb Hw Hf Hk Hc Hbytes.
  pose proof (backed_at_intro b a w i r Hb Hf Hk Hc Hw) as Hat. apply containsRange_spec in Hc as [Hlo Hhi].
  unfold region_value, region_bytes. rewrite (le_value_bytes v _ 0); [| |lia].
  - rewrite Z.shiftr_0_r, length_take, length_drop. do 2 f_equal.
    pose proof (ba_length _ _ _ _ _ Hat). lia.
  - intros j byte Hj. apply lookup_take_Some in Hj as [Hj Hjw]. rewrite lookup_drop in Hj.
    assert (backed_byte (a + Z.of_nat j) b = Some byte) as Hbj.
    { rewrite (backed_byte_region _ _ i r); [|eapply find_region_same; [done|done|lia]|done].
      f_equal. unfold rget.
      replace (Z.to_nat (a + Z.of_nat j - rg_base r)) with (Z.to_nat (a - rg_base r) + j)%nat
        by (pose proof (ba_offset _ _ _ _ _ Hat); lia). by rewrite Hj. }
    rewrite (Hbytes (Z.of_nat j)) in Hbj by lia. rewrite Z.add_0_l. congruence.
Qed.

(** ** Reading back a store *)

Lemma bus_write_backed depth a s v c b u b' i r : bus_write depth a s v c b = (inl u, b') ->
  find_region a (bus_regions b) = Some (i, r) -> is_backed r = true ->
  containsRange r a (byteCount s) = true /\ rg_writable r = true
  /\ b' = bump_execution_if (rg_executable r)
            (store_bytes i a (a - rg_base r) v (byteCount s) (ctx_pc c =? 0)
               (addStoreFootprint a (byteCount s) c b)).
Proof.
  intros Hw Hf Hk. apply backed_not_device in Hk as [Ha Hm]. revert Hw.
  destruct depth; cbn [bus_write]; rewrite Hf, Ha, Hm;
    (destruct (validRange _ _); [|done]); cbn [negb];
    (destruct (containsRange r a (byteCount s)); [|done]); cbn [negb];
    (destruct (rg_writable r); [|done]); cbn [negb];
    (destruct (bus_reversible_ram_only b && _); [done|]); by intros [= _ <-].
Qed.

(** The bytes after a store to backed memory. *)
Lemma bus_write_bytes depth a s v c b u b' i r a' : bus_ok b -> is_u32 a ->
  bus_write depth a s v c b = (inl u, b') ->
  find_region a (bus_regions b) = Some (i, r) -> is_backed r = true ->
  backed_byte a' b' = if (a <=? a') && (a' <? a + byteCount s)
                      then Some (value_byte v (a' - a)) else backed_byte a' b.
Proof.
  intros Hb Ha Hw Hf Hk. destruct (bus_write_backed _ _ _ _ _ _ _ _ _ _ Hw Hf Hk) as (Hc & _ & ->).
  rewrite (backed_byte_regions _ _ _ (bump_execution_regions _ _)).
  rewrite backed_byte_store_bytes; try done.
  - by rewrite (backed_byte_regions a' _ _ (addStore_regions a (byteCount s) c b)).
  - by apply addStore_ok.
  - pose proof (byteCount_pos s). lia.
  - by rewrite addStore_regions.
Qed.

Lemma bus_write_shape depth a s v c b :
  shape <$> bus_regions (snd (bus_write depth a s v c b)) = shape <$> bus_regions b.
Proof.
  revert a. induction depth as [|depth IH]; intros a; cbn [bus_write];
    (destruct (negb (validRange _ _)); [done|]);
    (destruct (find_region _ _) as [[i r]|]; [|done]); cbv zeta beta;
    (destruct (negb (containsRange _ _ _)); [done|]);
    (destruct (is_alias r); [by first [apply IH|done]|]);
    (destruct (negb (rg_writable r)); [done|]);
    (destruct (bus_reversible_ram_only b && _); [done|]);
    (destruct (is_mmio r); [by rewrite write_mmio_regions|]);
    cbn [snd]; by rewrite bump_execution_regions, store_bytes_shape, addStore_regions.
Qed.

(** A data read at the same address returns the stored value. *)
Lemma bus_write_read depth depth' a s v c c' b u b' i r : bus_ok b -> is_u32 a ->
  bus_write depth a s v c b = (inl u, b') ->
  find_region a (bus_regions b) = Some (i, r) -> is_backed r = true -> rg_readable r = true ->
  is_fetch c' = false ->
  fst (bus_read depth' a s c' b') = inl (v mod 2 ^ (8 * byteCount s)).
Proof.
  intros Hb Ha Hw Hf Hk Hrd Hfe.
  pose proof (bus_write_shape depth a s v c b) as Hs. rewrite Hw in Hs. cbn [snd] in Hs.
  pose proof (bus_write_ok depth a s v c b Hb) as Hb'. rewrite Hw in Hb'. cbn [snd] in Hb'.
  destruct (bus_write_backed _ _ _ _ _ _ _ _ _ _ Hw Hf Hk) as (Hc & _ & _).
  destruct (find_region_shape _ _ _ _ _ (eq_sym Hs) Hf) as (r' & Hf' & Hs').
  assert (is_backed r' = true) as Hk' by by rewrite (shape_backed _ _ Hs').
  assert (containsRange r' a (byteCount s) = true) as Hc'.
  { rewrite <- Hc. exact (f_equal (fun q => containsRange q a (byteCount s)) Hs'). }
  assert (rg_readable r' = true) as Hrd' by (rewrite <- Hrd; exact (f_equal rg_readable Hs')).
  pose proof (backed_at_intro _ _ _ _ _ Hb' Hf' Hk' Hc' (byteCount_pos s)) as Hat.
  assert (region_value r' (a - rg_base r') (byteCount s) = v mod 2 ^ (8 * byteCount s)) as Hval.
  { eapply region_value_bytes; [exact Hb'|apply byteCount_pos|done|done|done|].
    intros k Hkw. rewrite (bus_write_bytes _ _ _ _ _ _ _ _ _ _ (a + k) Hb Ha Hw Hf Hk).
    destruct (Z.leb_spec a (a + k)), (Z.ltb_spec (a + k) (a + byteCount s)); try lia.
    cbn [andb]. do 2 f_equal. lia. }
  apply backed_not_device in Hk' as [Hal Hm].
  destruct depth'; cbn [bus_read];
    rewrite (ba_valid _ _ _ _ _ Hat), Hf', Hc', Hrd', Hfe, Hal, Hm; cbn [negb andb fst]; by rewrite Hval.
Qed.

(** ** Journalled runs *)

(** [bus_path b0 n b]: [b] is reached from [b0] by [n] byte changes of backed memory, through
    [store_byte], and any number of operations that leave the regions, the mutation
    sequence, the journal and its tracking flag alone (reads, MMIO accesses, footprint and
    log bookkeeping). *)
Inductive bus_path (b0 : Bus D) : Z -> Bus D -> Prop :=
| path_refl : bus_path b0 0 b0
| path_store n b i r a v x : bus_path b0 n b ->
    find_region a (bus_regions b) = Some (i, r) -> is_backed r = true -> is_u8 v ->
    rget (rg_bytes r) (a - rg_base r) <> v ->
    bus_path b0 (n + 1) (store_byte i a (a - rg_base r) v x b)
| path_quiet n b b' : bus_path b0 n b ->
    bus_regions b' = bus_regions b -> bus_mutation_sequence b' = bus_mutation_sequence b ->
    bus_mutation_journal b' = bus_mutation_journal b ->
    bus_write_journal_tracking b' = bus_write_journal_tracking b -> bus_path b0 n b'.

Lemma path_eqv b0 n b b' : bus_path b0 n b -> bus_eqv b' b -> bus_path b0 n b'.
Proof.
  intros Hp E. eapply path_quiet; [exact Hp|exact (f_equal bus_regions E)|
    exact (f_equal bus_mutation_sequence E)|exact (f_equal bus_mutation_journal E)|
    exact (f_equal bus_write_journal_tracking E)].
Qed.

Lemma path_store_bytes b0 n b a i r v w x : bus_ok b -> is_u32 a -> 0 <= w ->
  find_region a (bus_regions b) = Some (i, r) -> is_backed r = true -> containsRange r a w = true ->
  bus_path b0 n b ->
  ∃ m, 0 <= m <= w /\ bus_path b0 (n + m) (store_bytes i a (a - rg_base r) v w x b).
Proof.
  intros Hb Ha Hw Hf Hk Hc Hp.
  apply (store_bytes_ind (fun k b' => ∃ m, 0 <= m <= k /\ bus_path b0 (n + m) b')); [done..| |].
  - exists 0. rewrite Z.add_0_r. split; [lia|done].
  - intros k b' r' Hkw (m & Hm & Hp') Hb' Hf' Hk'.
    pose proof (find_region_Some _ _ _ _ Hf') as [Hi' _].
    destruct (Z.eq_dec (rget (rg_bytes r') (a + k - rg_base r')) (value_byte v k)) as [E|E].
    + exists m. split; [lia|]. unfold store_byte.
      assert (region_at i b' = r') as -> by (unfold region_at; by rewrite Hi').
      rewrite E, Z.eqb_refl. done.
    + exists (m + 1). split; [lia|]. rewrite Z.add_assoc.
      apply path_store; [done|done|done|apply value_byte_range|done].
Qed.

Lemma note_mmio_quiet a w x c b :
  let b' := note_mmio a w x c b in
  bus_regions b' = bus_regions b /\ bus_mutation_sequence b' = bus_mutation_sequence b
  /\ bus_mutation_journal b' = bus_mutation_journal b
  /\ bus_write_journal_tracking b' = bus_write_journal_tracking b.
Proof. unfold note_mmio. cbv zeta. by case_match. Qed.

(** Every store through the bus, of any outcome, is such a run of at most eight changes. *)
Lemma path_bus_write b0 n b depth a s v c : bus_ok b -> is_u32 a -> bus_path b0 n b ->
  ∃ m, 0 <= m <= 8 /\ bus_path b0 (n + m) (snd (bus_write depth a s v c b)).
Proof.
  intros Hb Ha Hp. assert (∃ m, 0 <= m <= 8 /\ bus_path b0 (n + m) b) as Hsame.
  { exists 0. rewrite Z.add_0_r. split; [lia|done]. }
  revert a Ha. induction depth as [|depth IH]; intros a Ha; cbn [bus_write];
    (destruct (negb (validRange _ _)); [done|]);
    (destruct (find_region _ _) as [[i r]|] eqn:Hf; [|done]); cbv zeta beta;
    (destruct (containsRange r a (byteCount s)) eqn:Hc; [|done]); cbn [negb];
    (destruct (is_alias r) eqn:Hal; [by first [apply IH, u32_range|done]|]);
    (destruct (negb (rg_writable r)); [done|]);
    (destruct (bus_reversible_ram_only b && _); [done|]);
    (destruct (is_mmio r) eqn:Hm).
  all: try solve [
    unfold write_mmio; cbv zeta; destruct (mmio_traps _ _ _ _); [done|];
    destruct (note_mmio_quiet a (byteCount s) true c b) as (E1 & E2 & E3 & E4);
    destruct (device_write _ _ _ _ _ _) as [[u|f] d]; cbn [snd]; exists 0; rewrite Z.add_0_r;
      (split; [lia|]); (eapply path_quiet; [exact Hp|exact E1|exact E2|exact E3|exact E4])].
  all: assert (is_backed r = true) as Hk by
    (pose proof (not_device_backed r) as E; rewrite Hal, Hm in E; by destruct (is_backed r)).
  all: cbn [snd]; pose proof (byteCount_pos s);
    destruct (path_store_bytes b0 n (addStoreFootprint a (byteCount s) c b) a i r v (byteCount s) (ctx_pc c =? 0))
      as (m & Hm' & Hp'); [by apply addStore_ok|done|lia|by rewrite addStore_regions|done|done|
        by eapply path_eqv; [exact Hp|apply forget_addStore]|].
  all: exists m; split; [destruct s; cbn [byteCount] in Hm'; lia|];
    eapply path_eqv; [exact Hp'|apply forget_bump_execution].
Qed.

(** ** Rollback *)

(** Applying journal entries, newest first, to the regions. *)
Fixpoint undo (entries : list BackedMutation) (rs : list Region) : option (list Region) :=
  match entries with
  | [] => Some rs
  | m :: entries =>
      match find_region (bm_address m) rs with
      | Some (i, r) =>
          if is_backed r
          then undo entries
                 (<[i := {| r with rg_bytes :=
                              rset (rg_bytes r) (bm_address m - rg_base r) (bm_old_value m) |}]> rs)
          else None
      | None => None
      end
  end.

(** The [count] sequence numbers ending at [sequence], newest first. *)
Fixpoint newest (sequence : Z) (count : nat) : list Z :=
  match count with
  | O => []
  | S count => sequence :: newest (sequence - 1) count
  end.
Lemma elem_of_newest q n k : k ∈ newest q n <-> q - Z.of_nat n < k <= q.
Proof.
  revert q. induction n as [|n IH]; intros q; cbn [newest].
  - rewrite elem_of_nil. lia.
  - rewrite elem_of_cons, IH. lia.
Qed.

(** Sequence numbers of one window have different slots. *)
Lemma journal_slot_ne p q : p < q < p + mutation_journal_capacity -> journal_slot p <> journal_slot q.
Proof.
  unfold journal_slot, mutation_journal_capacity. intros Hpq E.
  assert ((q - p) mod 8192 = 0) as Hz.
  { replace (q - p) with ((q - 1) - (p - 1)) by lia. by rewrite Zminus_mod, E, Z.sub_diag. }
  rewrite Z.mod_small in Hz by lia. lia.
Qed.

Lemma newest_journal q n b b' :
  (∀ p, q - Z.of_nat n < p <= q -> bus_mutation_journal b' !! journal_slot p = bus_mutation_journal b !! journal_slot p) ->
  journal_at b' <$> newest q n = journal_at b <$> newest q n.
Proof.
  intros Hj. apply list_fmap_ext. intros k p Hp. apply list_elem_of_lookup_2, elem_of_newest in Hp.
  unfold journal_at. by rewrite Hj.
Qed.

(** The rollback loop applies the entries of its window. *)
Lemma restore_loop_undo n q flag b rs : Z.of_nat n <= mutation_journal_capacity ->
  undo (journal_at b <$> newest q n) (bus_regions b) = Some rs ->
  ∃ flag' b', restore_loop n q flag b = (Some flag', b') /\ bus_regions b' = rs.
Proof.
  revert q flag b. induction n as [|n IH]; intros q flag b Hn Hu.
  { exists flag, b. cbn in Hu. split; [done|congruence]. }
  cbn [newest fmap list_fmap undo restore_loop] in *.
  destruct (find_region (bm_address (journal_at b q)) (bus_regions b)) as [[i r]|] eqn:Hf; [|done].
  rewrite not_device_backed. destruct (is_backed r); [|done]. cbn [negb].
  pose proof (find_region_Some _ _ _ _ Hf) as [Hi _]. cbv zeta.
  set (b1 := set_byte i (bm_address (journal_at b q) - rg_base r) (bm_old_value (journal_at b q)) b).
  apply IH; [lia|]. rewrite <- Hu. cbn [bus_regions].
  rewrite (newest_journal (q - 1) n b).
  - unfold b1. by rewrite (set_byte_regions _ _ _ _ _ Hi).
  - intros p Hp. cbn [bus_mutation_journal]. rewrite lookup_insert_ne; [done|].
    intros E. symmetry in E. revert E. apply journal_slot_ne. lia.
Qed.

Record journalled (b0 : Bus D) (n : Z) (b : Bus D) : Prop := {
  jn_count : 0 <= n;
  jn_ok : bus_ok b;
  jn_shape : shape <$> bus_regions b0 = shape <$> bus_regions b;
  jn_tracking : bus_write_journal_tracking b = true;
  jn_sequence : bus_mutation_sequence b = bus_mutation_sequence b0 + n;
  jn_undo : n <= mutation_journal_capacity ->
    undo (journal_at b <$> newest (bus_mutation_sequence b) (Z.to_nat n)) (bus_regions b)
    = Some (bus_regions b0);
}.

(** A changing byte store, field by field. *)
Lemma store_byte_changed i r a v x b : bus_regions b !! i = Some r ->
  bus_write_journal_tracking b = true -> rget (rg_bytes r) (a - rg_base r) <> v ->
  let b' := store_byte i a (a - rg_base r) v x b in
  bus_regions b' = <[i := {| r with rg_bytes := rset (rg_bytes r) (a - rg_base r) v |}]> (bus_regions b)
  /\ bus_mutation_sequence b' = u64 (bus_mutation_sequence b + 1)
  /\ bus_write_journal_tracking b' = true
  /\ bus_mutation_journal b' =
      <[bus_mutation_sequence b mod mutation_journal_capacity :=
          mkBackedMutation a (rget (rg_bytes r) (a - rg_base r)) x]> (bus_mutation_journal b).
Proof.
  intros Hi Ht Hne. cbv zeta.
  pose proof (store_byte_stored i r b (bus_mutation_sequence b) (bus_mutation_journal b)
    (bus_side_effect_generation b) (rg_bytes r) a (a - rg_base r) v x ltac:(by eapply lookup_lt_Some)) as E.
  rewrite (stored_self i r b Hi), Ht, (proj2 (Z.eqb_neq _ _) Hne) in E. rewrite E.
  repeat split; done.
Qed.

Lemma journalled_refl b : bus_ok b -> bus_write_journal_tracking b = true -> journalled b 0 b.
Proof. intros Hb Ht. constructor; try done; lia. Qed.

Lemma slot_of_next q : q mod mutation_journal_capacity = journal_slot (q + 1).
Proof. unfold journal_slot. f_equal. lia. Qed.

(** The entries of the window after one more change. *)
Lemma store_journal_new i r a v x b : bus_regions b !! i = Some r ->
  bus_write_journal_tracking b = true -> rget (rg_bytes r) (a - rg_base r) <> v ->
  journal_at (store_byte i a (a - rg_base r) v x b) (bus_mutation_sequence b + 1)
  = mkBackedMutation a (rget (rg_bytes r) (a - rg_base r)) x.
Proof.
  intros Hi Ht Hne. destruct (store_byte_changed i r a v x b Hi Ht Hne) as (_ & _ & _ & Ej).
  unfold journal_at. rewrite Ej, <- slot_of_next, lookup_insert_eq. done.
Qed.
Lemma store_journal_old i r a v x b p : bus_regions b !! i = Some r ->
  bus_write_journal_tracking b = true -> rget (rg_bytes r) (a - rg_base r) <> v ->
  bus_mutation_sequence b + 1 - mutation_journal_capacity < p <= bus_mutation_sequence b ->
  journal_at (store_byte i a (a - rg_base r) v x b) p = journal_at b p.
Proof.
  intros Hi Ht Hne Hp. destruct (store_byte_changed i r a v x b Hi Ht Hne) as (_ & _ & _ & Ej).
  unfold journal_at. rewrite Ej, slot_of_next, lookup_insert_ne; [done|].
  intros E. symmetry in E. revert E. apply journal_slot_ne. lia.
Qed.

Lemma undo_store i r a v b x rs : bus_ok b -> find_region a (bus_regions b) = Some (i, r) ->
  is_backed r = true -> undo rs (bus_regions b) =
  undo (mkBackedMutation a (rget (rg_bytes r) (a - rg_base r)) x :: rs)
    (<[i := {| r with rg_bytes := rset (rg_bytes r) (a - rg_base r) v |}]> (bus_regions b)).
Proof.
  intros Hb Hf Hk. pose proof (find_region_Some _ _ _ _ Hf) as [Hi Hc].
  pose proof (proj1 (region_contains_spec _ _) Hc) as Ha.
  pose proof (regions_ok_lookup _ _ _ Hb Hi) as Hr.
  assert (length (rg_bytes r) = Z.to_nat (rg_size r)) as Hl by by apply Hr.
  assert (i < length (bus_regions b))%nat as Hil by by eapply lookup_lt_Some.
  set (r' := {| r with rg_bytes := rset (rg_bytes r) (a - rg_base r) v |}).
  assert (shape <$> <[i := r']> (bus_regions b) = shape <$> bus_regions b) as Hs.
  { rewrite list_fmap_insert. apply list_insert_id. by rewrite list_lookup_fmap, Hi. }
  destruct (find_region_shape _ _ _ _ _ (eq_sym Hs) Hf) as (r1 & Hf1 & _).
  pose proof (find_region_Some _ _ _ _ Hf1) as [Hi1 _]. rewrite list_lookup_insert_eq in Hi1 by done.
  injection Hi1 as <-. cbn [undo bm_address bm_old_value]. rewrite Hf1.
  change (is_backed r') with (is_backed r). rewrite Hk, list_insert_insert_eq. f_equal.
  unfold r'. cbn [rg_bytes rg_base rg_size rg_kind rg_name rg_readable rg_writable rg_executable rg_alias_target rg_device].
  unfold rset at 1 2. rewrite list_insert_insert_eq. fold (rset (rg_bytes r) (a - rg_base r) (rget (rg_bytes r) (a - rg_base r))).
  rewrite rset_same by (unfold region_end in *; lia). symmetry. apply list_insert_id. rewrite Hi. by destruct r.
Qed.

Lemma journalled_store b0 n b i r a v x : journalled b0 n b ->
  find_region a (bus_regions b) = Some (i, r) -> is_backed r = true -> is_u8 v ->
  rget (rg_bytes r) (a - rg_base r) <> v ->
  0 <= bus_mutation_sequence b0 -> bus_mutation_sequence b0 + (n + 1) < 2 ^ 64 ->
  journalled b0 (n + 1) (store_byte i a (a - rg_base r) v x b).
Proof.
  intros J Hf Hk Hv Hne H0 Hmax. pose proof (find_region_Some _ _ _ _ Hf) as [Hi _].
  destruct (store_byte_changed i r a v x b Hi (jn_tracking _ _ _ J) Hne) as (Er & Eq & Et & _).
  pose proof (jn_count _ _ _ J). pose proof (jn_sequence _ _ _ J) as Es.
  assert (u64 (bus_mutation_sequence b + 1) = bus_mutation_sequence b + 1) as Eu.
  { rewrite Es. unfold u64. apply Z.mod_small. change 0x10000000000000000 with (2 ^ 64). lia. }
  constructor.
  - lia.
  - by apply store_byte_ok; [apply J|].
  - rewrite (jn_shape _ _ _ J). symmetry. apply store_byte_shape.
  - exact Et.
  - rewrite Eq, Eu, Es. lia.
  - intros Hcap. rewrite Eq, Eu, Er. replace (Z.to_nat (n + 1)) with (S (Z.to_nat n)) by lia.
    cbn [newest]. rewrite fmap_cons. rewrite store_journal_new by (done || apply J).
    rewrite <- undo_store; [|apply J|done|done].
    replace (bus_mutation_sequence b + 1 - 1) with (bus_mutation_sequence b) by lia.
    rewrite <- (jn_undo _ _ _ J) by lia. f_equal. apply list_fmap_ext. intros k p Hp.
    apply list_elem_of_lookup_2, elem_of_newest in Hp. apply store_journal_old; [done|apply J|done|lia].
Qed.

Lemma journalled_quiet b0 n b b' : journalled b0 n b ->
  bus_regions b' = bus_regions b -> bus_mutation_sequence b' = bus_mutation_sequence b ->
  bus_mutation_journal b' = bus_mutation_journal b ->
  bus_write_journal_tracking b' = bus_write_journal_tracking b -> journalled b0 n b'.
Proof.
  intros J Er Es Ej Et.
  constructor; unfold bus_ok; rewrite ?Er, ?Es, ?Et; try apply J.
  intros Hn. rewrite <- (jn_undo _ _ _ J Hn). f_equal. apply newest_journal. intros. by rewrite Ej.
Qed.

Lemma path_count b0 n b : bus_path b0 n b -> 0 <= n.
Proof. induction 1; lia. Qed.
Lemma path_journalled b0 n b : bus_ok b0 -> bus_write_journal_tracking b0 = true ->
  0 <= bus_mutation_sequence b0 -> bus_mutation_sequence b0 + n < 2 ^ 64 ->
  bus_path b0 n b -> journalled b0 n b.
Proof.
  intros Hb0 Ht H0 Hmax Hp. induction Hp as [|n b i r a v x Hp IH Hf Hk Hv Hne|n b b' Hp IH Er Es Ej Et].
  - by apply journalled_refl.
  - apply journalled_store; try done. apply IH. lia.
  - by apply (journalled_quiet b0 n b); [apply IH|..].
Qed.

(** The sequence counts every change, whether or not it is journalled. *)
Lemma store_byte_counts i o a v x b : rget (rg_bytes (region_at i b)) o <> v ->
  bus_mutation_sequence (store_byte i a o v x b) = u64 (bus_mutation_sequence b + 1)
  /\ bus_write_journal_tracking (store_byte i a o v x b) = bus_write_journal_tracking b.
Proof.
  intros Hne. unfold store_byte. rewrite (proj2 (Z.eqb_neq _ _) Hne). unfold recordMutation. cbv zeta.
  by destruct (bus_write_journal_tracking b) eqn:E.
Qed.
Lemma path_counts b0 n b : 0 <= bus_mutation_sequence b0 -> bus_mutation_sequence b0 + n < 2 ^ 64 -> bus_path b0 n b ->
  bus_mutation_sequence b = bus_mutation_sequence b0 + n
  /\ bus_write_journal_tracking b = bus_write_journal_tracking b0 /\ (n = 0 -> bus_regions b = bus_regions b0).
Proof.
  intros H0 Hmax Hp. induction Hp as [|n b i r a v x Hp IH Hf Hk Hv Hne|n b b' Hp IH Er Es Ej Et].
  - split_and!; [lia|done|done].
  - pose proof (path_count _ _ _ Hp). destruct IH as (Es & Et & _); [lia|].
    pose proof (find_region_Some _ _ _ _ Hf) as [Hi _].
    assert (region_at i b = r) as Er by (unfold region_at; by rewrite Hi).
    destruct (store_byte_counts i (a - rg_base r) a v x b) as [Es' Et']; [by rewrite Er|].
    rewrite Es', Et', Es, Et. split_and!; [rewrite u64_small; lia|done|lia].
  - destruct IH as (Es' & Et' & Er'); [lia|]. rewrite Es, Et, Er. done.
Qed.
(** A run that the checks look into was journalled and fits the ring. *)
Lemma path_in_window b0 n b : 0 <= bus_mutation_sequence b0 -> bus_mutation_sequence b0 + n < 2 ^ 64 -> bus_path b0 n b ->
  in_window (sideEffectCheckpoint b0) b = true -> bus_write_journal_tracking b0 = true /\ n <= mutation_journal_capacity.
Proof.
  intros H0 Hmax Hp Hin. destruct (path_counts b0 n b H0 Hmax Hp) as (Es & Et & _).
  unfold in_window in Hin. cbn [sideEffectCheckpoint ck_mutation_sequence] in Hin.
  rewrite !andb_true_iff, !Z.leb_le in Hin. destruct Hin as [[Ht _] Hcap]. split; [congruence|lia].
Qed.

(** Rolling back a run that fits the ring restores every region. *)
Lemma restoreSideEffects_regions b0 n b : journalled b0 n b ->
  canRestoreSideEffects (sideEffectCheckpoint b0) b = true ->
  ∃ b', restoreSideEffects (sideEffectCheckpoint b0) b = (true, b')
    /\ bus_regions b' = bus_regions b0
    /\ bus_mutation_sequence b' = bus_mutation_sequence b0.
Proof.
  intros J Hcan. unfold restoreSideEffects. rewrite Hcan. cbn [negb].
  pose proof (jn_count _ _ _ J). pose proof (jn_sequence _ _ _ J) as Es.
  assert (n <= mutation_journal_capacity) as Hcap.
  { unfold canRestoreSideEffects in Hcan. cbn [sideEffectCheckpoint ck_mutation_sequence] in Hcan.
    apply andb_true_iff in Hcan as [_ Hc]. apply orb_true_iff in Hc as [Hc|Hc].
    - apply Z.eqb_eq in Hc. unfold mutation_journal_capacity. lia.
    - apply andb_true_iff in Hc as [_ Hc]. apply Z.leb_le in Hc. lia. }
  cbn [sideEffectCheckpoint ck_mutation_sequence].
  replace (bus_mutation_sequence b - bus_mutation_sequence b0) with n by lia.
  destruct (restore_loop_undo (Z.to_nat n) (bus_mutation_sequence b) false b (bus_regions b0))
    as (flag & b' & E & Er).
  - lia.
  - by apply J.
  - rewrite E. eexists. split; [reflexivity|]. split; [|by destruct flag].
    rewrite <- Er. by destruct flag.
Qed.

(** ** Deciding whether memory is as it was *)

Definition in_run (b0 : Bus D) (n p : Z) : Prop :=
  bus_mutation_sequence b0 < p <= bus_mutation_sequence b0 + n.

(** The journal against the bytes at the checkpoint: an address without an entry is
    unchanged; its first entry holds its old byte. *)
Record window_bytes (b0 : Bus D) (n : Z) (b : Bus D) : Prop := {
  wb_untouched a : (∀ p, in_run b0 n p -> bm_address (journal_at b p) <> a) ->
    backed_byte a b = backed_byte a b0;
  wb_first p : in_run b0 n p ->
    (∀ p', in_run b0 n p' -> p' < p -> bm_address (journal_at b p') <> bm_address (journal_at b p)) ->
    backed_byte (bm_address (journal_at b p)) b0 = Some (bm_old_value (journal_at b p));
}.

Lemma window_bytes_store b0 n b i r a v x : journalled b0 n b -> window_bytes b0 n b ->
  find_region a (bus_regions b) = Some (i, r) -> is_backed r = true ->
  rget (rg_bytes r) (a - rg_base r) <> v -> n + 1 <= mutation_journal_capacity ->
  window_bytes b0 (n + 1) (store_byte i a (a - rg_base r) v x b).
Proof.
  intros J W Hf Hk Hne Hcap. pose proof (find_region_Some _ _ _ _ Hf) as [Hi _].
  pose proof (jn_sequence _ _ _ J) as Es. pose proof (jn_tracking _ _ _ J) as Ht.
  pose proof (store_journal_new i r a v x b Hi Ht Hne) as Enew.
  assert (∀ p, in_run b0 n p ->
    journal_at (store_byte i a (a - rg_base r) v x b) p = journal_at b p) as Eold.
  { intros p Hp. apply store_journal_old; [done|done|done|]. unfold in_run in Hp. lia. }
  set (b' := store_byte i a (a - rg_base r) v x b) in *. pose proof (jn_count _ _ _ J).
  constructor.
  - intros a' Ha'. unfold b'. rewrite backed_byte_store_byte by (done || apply J).
    destruct (Z.eqb_spec a' a) as [->|Hna].
    + exfalso. apply (Ha' (bus_mutation_sequence b + 1)); [unfold in_run; lia|]. by rewrite Enew.
    + apply W. intros p Hp. rewrite <- Eold by done. apply Ha'. unfold in_run in *. lia.
  - intros p Hp Hfirst. destruct (Z.eq_dec p (bus_mutation_sequence b + 1)) as [->|Hnp].
    + rewrite Enew in *. cbn [bm_address bm_old_value] in *.
      rewrite <- (backed_byte_region _ _ _ _ Hf Hk). symmetry. apply W. intros p' Hp'.
      rewrite <- Eold by done. apply Hfirst; unfold in_run in *; lia.
    + assert (in_run b0 n p) as Hp' by (unfold in_run in *; lia).
      rewrite (Eold p Hp') in *. apply W; [done|]. intros p' Hpr Hlt.
      rewrite <- (Eold p') by done. apply Hfirst; [unfold in_run in *; lia|done].
Qed.

Lemma path_window_bytes b0 n b : bus_ok b0 -> bus_write_journal_tracking b0 = true ->
  0 <= bus_mutation_sequence b0 -> bus_mutation_sequence b0 + n < 2 ^ 64 ->
  n <= mutation_journal_capacity -> bus_path b0 n b -> window_bytes b0 n b.
Proof.
  intros Hb0 Ht H0 Hmax Hcap Hp.
  induction Hp as [|n b i r a v x Hp IH Hf Hk Hv Hne|n b b' Hp IH Er Es Ej Et].
  - constructor; [done|]. intros p Hp. unfold in_run in Hp. lia.
  - apply window_bytes_store; try done; [|apply IH; lia]. apply path_journalled; try done. lia.
  - destruct (IH Hmax Hcap) as [W1 W2].
    assert (∀ p, journal_at b' p = journal_at b p) as Ejp by (intros p; unfold journal_at; by rewrite Ej).
    constructor.
    + intros a Ha. rewrite (backed_byte_regions a b' b Er). apply W1. intros p Hp'. rewrite <- Ejp. by apply Ha.
    + intros p Hp' Hf. rewrite Ejp in *. apply W2; [done|]. intros p' Hr Hlt. rewrite <- (Ejp p'). by apply Hf.
Qed.

Lemma first_for_address_spec ck b p :
  first_for_address ck b p = true <->
  (∀ p', ck_mutation_sequence ck < p' < p -> bm_address (journal_at b p') <> bm_address (journal_at b p)).
Proof.
  unfold first_for_address. rewrite forallb_forall. split.
  - intros Hf p' Hp' E. specialize (Hf p'). rewrite E, Z.eqb_refl in Hf. discriminate Hf.
    apply list_elem_of_In, elem_of_seqZ. lia.
  - intros Hf p' Hp'. apply list_elem_of_In, elem_of_seqZ in Hp'. apply negb_true_iff, Z.eqb_neq, Hf. lia.
Qed.

(** An address with an entry has a first entry. *)
Lemma first_entry b0 n b a : 0 <= n -> (∃ p, in_run b0 n p /\ bm_address (journal_at b p) = a) ->
  ∃ p, in_run b0 n p /\ bm_address (journal_at b p) = a
    /\ (∀ p', in_run b0 n p' -> p' < p -> bm_address (journal_at b p') <> a).
Proof.
  unfold in_run. intros Hn (p & Hp & Ha).
  remember (Z.to_nat (p - bus_mutation_sequence b0)) as k eqn:Ek. revert p Hp Ha Ek.
  induction k as [k IH] using lt_wf_ind. intros p Hp Ha ->.
  destruct (existsb (fun p' => bm_address (journal_at b p') =? a)
    (seqZ (bus_mutation_sequence b0 + 1) (p - bus_mutation_sequence b0 - 1))) eqn:Ee.
  - apply existsb_exists in Ee as (p' & Hin & Hp'). apply list_elem_of_In, elem_of_seqZ in Hin.
    apply Z.eqb_eq in Hp'. apply (IH (Z.to_nat (p' - bus_mutation_sequence b0)) ltac:(lia) p'); [lia|done|done].
  - exists p. split; [done|]. split; [done|]. intros p' Hp' Hlt E.
    apply not_true_iff_false in Ee. apply Ee. apply existsb_exists. exists p'.
    rewrite E, Z.eqb_refl. split; [|done]. apply list_elem_of_In, elem_of_seqZ. lia.
Qed.

Lemma address_has_entry_dec b0 n b a :
  (∃ p, in_run b0 n p /\ bm_address (journal_at b p) = a)
  \/ (∀ p, in_run b0 n p -> bm_address (journal_at b p) <> a).
Proof.
  destruct (existsb (fun p => bm_address (journal_at b p) =? a) (seqZ (bus_mutation_sequence b0 + 1) n)) eqn:Ee.
  - left. apply existsb_exists in Ee as (p & Hin & Hp). exists p.
    apply list_elem_of_In, elem_of_seqZ in Hin. apply Z.eqb_eq in Hp. unfold in_run. split; [lia|done].
  - right. intros p Hp E. apply not_true_iff_false in Ee. apply Ee, existsb_exists. exists p.
    rewrite E, Z.eqb_refl. split; [|done]. apply list_elem_of_In, elem_of_seqZ. unfold in_run in Hp. lia.
Qed.

Section checks.
Variables (b0 : Bus D) (n : Z) (b : Bus D).
Hypotheses (J : journalled b0 n b) (W : window_bytes b0 n b).

Lemma run_window p : p ∈ window (sideEffectCheckpoint b0) b <-> in_run b0 n p.
Proof.
  unfold window, in_run. cbn [sideEffectCheckpoint ck_mutation_sequence]. rewrite elem_of_seqZ.
  rewrite (jn_sequence _ _ _ J). lia.
Qed.
Lemma run_first p : in_run b0 n p ->
  first_for_address (sideEffectCheckpoint b0) b p = true <->
  (∀ p', in_run b0 n p' -> p' < p -> bm_address (journal_at b p') <> bm_address (journal_at b p)).
Proof.
  intros Hp. rewrite first_for_address_spec. cbn [sideEffectCheckpoint ck_mutation_sequence].
  unfold in_run in *. split; intros Hf p'; [intros|intros [? ?]]; apply Hf; lia.
Qed.

(** When the journal covers the run, [sideEffectsRestoredSince] compares every byte. *)
Lemma restoredSince_iff : same_epoch (sideEffectCheckpoint b0) b = true ->
  n <= mutation_journal_capacity ->
  sideEffectsRestoredSince (sideEffectCheckpoint b0) b = true <->
  (∀ a, backed_byte a b = backed_byte a b0).
Proof.
  intros He Hcap. unfold sideEffectsRestoredSince. rewrite He. cbn [negb].
  pose proof (jn_count _ _ _ J) as Hn. pose proof (jn_sequence _ _ _ J) as Es.
  assert (n = 0 -> ∀ a, backed_byte a b = backed_byte a b0) as Hzero.
  { intros -> a. apply W. intros p Hp. unfold in_run in Hp. lia. }
  cbn [sideEffectCheckpoint ck_mutation_sequence] in *.
  destruct (Z.eqb_spec (bus_mutation_sequence b0) (bus_mutation_sequence b)) as [E|E].
  { split; [intros _; apply Hzero; lia|done]. }
  assert (in_window (sideEffectCheckpoint b0) b = true) as ->.
  { unfold in_window. rewrite (jn_tracking _ _ _ J). cbn [andb sideEffectCheckpoint ck_mutation_sequence].
    apply andb_true_iff. split; apply Z.leb_le; lia. }
  cbn [negb]. rewrite forallb_forall. split.
  - intros Hall a. destruct (address_has_entry_dec b0 n b a) as [Hex|Hno]; [|by apply W].
    destruct (first_entry b0 n b a Hn Hex) as (p & Hp & Ha & Hfirst). subst a.
    specialize (Hall p ltac:(by apply list_elem_of_In, run_window)).
    rewrite (proj2 (run_first p Hp)) in Hall by done. cbn [negb] in Hall.
    rewrite (wb_first _ _ _ W p Hp Hfirst).
    destruct (backed_byte (bm_address (journal_at b p)) b) as [byte|]; [|done].
    by apply Z.eqb_eq in Hall as ->.
  - intros Hall p Hp%list_elem_of_In%run_window.
    destruct (first_for_address _ b p) eqn:Hfirst; [|done]. cbn [negb].
    rewrite Hall. pose proof (proj1 (run_first p Hp) Hfirst) as Hf.
    rewrite (wb_first _ _ _ W p Hp Hf). apply Z.eqb_refl.
Qed.

(** [sideEffectsCompatibleSince] never accepts a changed byte that the footprint covers. *)
Lemma compatibleSince_sound fp a :
  sideEffectsCompatibleSince (sideEffectCheckpoint b0) fp b = true ->
  footprintContains fp a = true -> backed_byte a b = backed_byte a b0.
Proof.
  unfold sideEffectsCompatibleSince. destruct (same_epoch _ b); [|done]. cbn [negb].
  pose proof (jn_count _ _ _ J) as Hn. pose proof (jn_sequence _ _ _ J) as Es.
  cbn [sideEffectCheckpoint ck_mutation_sequence] in *.
  destruct (Z.eqb_spec (bus_mutation_sequence b0) (bus_mutation_sequence b)) as [E|E].
  { intros _ _. apply W. intros p Hp. unfold in_run in Hp. lia. }
  destruct (negb (rf_complete fp) || _); [done|]. rewrite forallb_forall. intros Hall Hfp.
  destruct (address_has_entry_dec b0 n b a) as [Hex|Hno]; [|by apply W].
  destruct (first_entry b0 n b a Hn Hex) as (p & Hp & Ha & Hfirst). subst a.
  specialize (Hall p ltac:(by apply list_elem_of_In, run_window)).
  rewrite (proj2 (run_first p Hp)) in Hall by done. cbn [negb] in Hall.
  rewrite (wb_first _ _ _ W p Hp Hfirst).
  destruct (backed_byte (bm_address (journal_at b p)) b) as [byte|]; [|done].
  rewrite Hfp, andb_false_r, orb_false_r in Hall. by apply Z.eqb_eq in Hall as ->.
Qed.
End checks.

(** ** Footprints of bus accesses *)

Lemma footprint_covers f a w a' ws : length (rf_words f) = 4%nat -> is_u32 a -> is_u32 a' ->
  a <= a' < a + w -> (ws = span_words a w \/ (ws = [a] /\ a .& 3 = 0 /\ w <= 4)) ->
  footprintContains (foldl addReadFootprint f ws) a' = true.
Proof.
  intros Hl Ha Ha' Hin [->|(-> & Hal & Hw)].
  - destruct (span_words_cover a w a' Ha Ha' Hin) as (word & Hword & E).
    rewrite <- (footprintContains_word _ word a' E). by apply addReadFootprints_contain.
  - rewrite (footprintContains_word _ a' a); [by apply addReadFootprints_contain; [|left]|].
    rewrite !Z.shiftr_div_pow2 by lia. change (2 ^ 2) with 4.
    change 3 with (Z.ones 2) in Hal. rewrite Z.land_ones in Hal by lia. change (2 ^ 2) with 4 in Hal.
    pose proof (Z.div_mod a 4 ltac:(lia)). symmetry. apply Z.div_unique with (a' - a); lia.
Qed.

(** Each byte of a tracked data read is in the footprint from then on. *)
Lemma note_backed_read_contains a w c b a' : bus_read_footprint_tracking b = true ->
  length (rf_words (bus_read_footprint b)) = 4%nat -> is_data_read c = true -> ctx_pc c <> 0 ->
  is_u32 a -> is_u32 a' -> a <= a' < a + w ->
  footprintContains (bus_read_footprint (note_backed_read a w c b)) a' = true.
Proof.
  intros Ht Hl Hd Hpc Ha Ha' Hin. unfold note_backed_read. rewrite Hd.
  destruct (Z.eqb_spec (ctx_pc c) 0); [done|]. cbn [andb negb]. unfold addAccessFootprint. cbv zeta.
  set (b1 := if bus_access_watch_log_enabled b && negb (w =? 0) then _ else b).
  assert (bus_read_footprint_tracking b1 = true /\ bus_read_footprint b1 = bus_read_footprint b) as [Ht1 Ef].
  { unfold b1. by destruct (_ && _). }
  rewrite Ht1. destruct (Z.eqb_spec w 0); [lia|]. cbn [negb orb].
  destruct ((a .& 3 =? 0) && (w <=? 4)) eqn:Ew; cbn [mark_footprint bus_read_footprint]; rewrite Ef;
    apply (footprint_covers _ a w); try done.
  - apply andb_true_iff in Ew as [E1 E2]. apply Z.eqb_eq in E1. apply Z.leb_le in E2. by right.
  - by left.
Qed.

Lemma bus_read_footprint_covers depth a s c b v b' i r a' : bus_read_footprint_tracking b = true ->
  length (rf_words (bus_read_footprint b)) = 4%nat -> is_data_read c = true -> ctx_pc c <> 0 ->
  is_u32 a -> is_u32 a' -> a <= a' < a + byteCount s ->
  find_region a (bus_regions b) = Some (i, r) -> is_backed r = true ->
  bus_read depth a s c b = (inl v, b') -> footprintContains (bus_read_footprint b') a' = true.
Proof.
  intros Ht Hl Hd Hpc Ha Ha' Hin Hf Hk Hr. apply backed_not_device in Hk as [Hal Hm].
  assert (b' = note_backed_read a (byteCount s) c b) as ->; [|by apply note_backed_read_contains].
  revert Hr. destruct depth; cbn [bus_read]; rewrite Hf, Hal, Hm;
    (destruct (negb (validRange _ _)); [done|]);
    (destruct (negb (containsRange _ _ _)); [done|]);
    (destruct (negb (rg_readable r)); [done|]);
    (destruct (is_fetch c && _); [done|]); by intros [= _ <-].
Qed.
End journal.
