(* ===== verification/BusIsolation.v ===== *)
(** * Lane isolation

    The bus modes under which a lane runs ahead of the coordinator: with all MMIO trapping,
    no access reaches a device and a refused access leaves no trace; with the reversible-RAM
    restriction on top, stores change non-executable RAM only, which the journal can undo. *)

From stdpp Require Import gmap sorting.
From S2P Require Import Prelude Address CpuState CpuStateProofs MemoryApi MemoryBus.
From S2P Require Import MemoryBusProofs BusAccess BusJournal.
#[local] Open Scope Z_scope.
#[local] Open Scope fil_scope.

Section isolation.
Context `{MmioDevices D}.
Implicit Types b : Bus D.

Lemma store_byte_devices i a o v x b :
  bus_devices (store_byte i a o v x b) = bus_devices b
  /\ bus_mmio_generation (store_byte i a o v x b) = bus_mmio_generation b.
Proof.
  unfold store_byte, recordMutation. cbv zeta. destruct (_ =? v); [done|].
  by destruct (bus_write_journal_tracking _).
Qed.
Lemma store_bytes_devices i a o v w x b :
  bus_devices (store_bytes i a o v w x b) = bus_devices b
  /\ bus_mmio_generation (store_bytes i a o v w x b) = bus_mmio_generation b.
Proof.
  unfold store_bytes. generalize (seqZ 0 w). intros l. revert b.
  induction l as [|k l IH]; intros b; [done|]. cbn [foldl].
  destruct (IH (store_byte i (u32 (a + k)) (o + k) (value_byte v k) x b)) as [-> ->]. apply store_byte_devices.
Qed.
Lemma eqv_devices b b' : bus_eqv b b' ->
  bus_devices b = bus_devices b' /\ bus_mmio_generation b = bus_mmio_generation b'.
Proof. intros E. exact (conj (f_equal bus_devices E) (f_equal bus_mmio_generation E)). Qed.

(** Reads with MMIO trapped: a success changes bookkeeping only, a fault changes nothing. *)
Lemma trapped_read depth a s c b res b' : bus_trap_all_mmio b = true ->
  bus_read depth a s c b = (res, b') ->
  match res with inl _ => bus_eqv b' b | inr _ => b' = b end.
Proof.
  intros Ht. revert a. induction depth as [|depth IH]; intros a; cbn [bus_read];
    (destruct (negb (validRange _ _)); [by intros [= <- <-]|]);
    (destruct (find_region _ _) as [[i r]|]; [|by intros [= <- <-]]); cbv zeta beta;
    (destruct (negb (containsRange _ _ _)); [by intros [= <- <-]|]);
    (destruct (negb (rg_readable r)); [by intros [= <- <-]|]);
    (destruct (is_fetch c && _); [by intros [= <- <-]|]);
    (destruct (is_alias r); [first [apply IH|by intros [= <- <-]]|]);
    (destruct (is_mmio r); [unfold read_mmio, mmio_traps; cbv zeta; rewrite Ht; by intros [= <- <-]|]);
    intros [= <- <-]; apply forget_backed_read.
Qed.

(** Stores with MMIO trapped. *)
Lemma trapped_write depth a s v c b res b' : bus_trap_all_mmio b = true ->
  bus_write depth a s v c b = (res, b') ->
  match res with
  | inl _ => bus_devices b' = bus_devices b /\ bus_mmio_generation b' = bus_mmio_generation b
  | inr _ => b' = b
  end.
Proof.
  intros Ht. revert a. induction depth as [|depth IH]; intros a; cbn [bus_write];
    (destruct (negb (validRange _ _)); [by intros [= <- <-]|]);
    (destruct (find_region _ _) as [[i r]|]; [|by intros [= <- <-]]); cbv zeta beta;
    (destruct (negb (containsRange _ _ _)); [by intros [= <- <-]|]);
    (destruct (is_alias r); [first [apply IH|by intros [= <- <-]]|]);
    (destruct (negb (rg_writable r)); [by intros [= <- <-]|]);
    (destruct (bus_reversible_ram_only b && _); [by intros [= <- <-]|]);
    (destruct (is_mmio r); [unfold write_mmio, mmio_traps; cbv zeta; rewrite Ht; by intros [= <- <-]|]);
    intros [= <- <-];
    destruct (eqv_devices _ _ (forget_bump_execution (rg_executable r)
      (store_bytes i a (a - rg_base r) v (byteCount s) (ctx_pc c =? 0) (addStoreFootprint a (byteCount s) c b)))) as [-> ->];
    destruct (store_bytes_devices i a (a - rg_base r) v (byteCount s) (ctx_pc c =? 0)
      (addStoreFootprint a (byteCount s) c b)) as [-> ->];
    apply eqv_devices, forget_addStore.
Qed.

(** The regions a lane may change. *)
Definition reversible_region (r : Region) : bool := is_ram r && negb (rg_executable r).

Lemma store_bytes_other i j a o v w x b : i <> j ->
  bus_regions (store_bytes i a o v w x b) !! j = bus_regions b !! j.
Proof.
  intros Hne. unfold store_bytes. generalize (seqZ 0 w). intros l. revert b.
  induction l as [|k l IH]; intros b; [done|]. cbn [foldl]. rewrite IH.
  destruct (store_byte_regions i (u32 (a + k)) (o + k) (value_byte v k) x b) as [-> | ->]; [done|].
  unfold set_byte, set_region. cbn [bus_regions]. by rewrite list_lookup_insert_ne.
Qed.

Lemma reversible_write depth a s v c b j r : bus_reversible_ram_only b = true ->
  bus_regions b !! j = Some r -> reversible_region r = false ->
  bus_regions (snd (bus_write depth a s v c b)) !! j = Some r.
Proof.
  intros Hro Hj Hrev. revert a. induction depth as [|depth IH]; intros a; cbn [bus_write];
    (destruct (negb (validRange _ _)); [done|]);
    (destruct (find_region a (bus_regions b)) as [[i q]|] eqn:Hf; [|done]); cbv zeta beta;
    (destruct (negb (containsRange _ _ _)); [done|]);
    (destruct (is_alias q); [first [apply IH|done]|]);
    (destruct (negb (rg_writable q)); [done|]);
    rewrite Hro; cbn [andb];
    (destruct (negb (is_ram q) || rg_executable q) eqn:Hq; [done|]);
    (destruct (is_mmio q); [by rewrite write_mmio_regions|]);
    cbn [snd]; rewrite bump_execution_regions;
    apply find_region_Some in Hf as [Hi _];
    (rewrite store_bytes_other; [by rewrite addStore_regions|]);
    intros ->; rewrite Hj in Hi; injection Hi as <-; unfold reversible_region in Hrev;
    destruct (is_ram r), (rg_executable r); discriminate.
Qed.
End isolation.
