(* ===== verification/BusWords.v ===== *)
(** * Words in plain memory

    The bus on memory that is readable, writable and not a device: a word store is read back,
    sequences of words are stored and loaded as a whole, and nothing else changes.  Used for
    the stack, by the block transfers and by exception entry and return. *)

From stdpp Require Import gmap sorting.
From S2P Require Import Prelude Address CpuState CpuStateProofs MemoryApi MemoryBus.
From S2P Require Import MemoryBusProofs BusAccess BusJournal.
#[local] Open Scope Z_scope.
#[local] Open Scope fil_scope.

Section words.
Context `{MmioDevices D}.
Implicit Types b : Bus D.

(** [w] bytes at [a] are plain readable and writable memory. *)
Record ram_at (b : Bus D) (a w : Z) : Prop := {
  ra_region : ∃ i r, find_region a (bus_regions b) = Some (i, r) /\ rg_readable r = true
    /\ fast_writable r a w false b = true;
}.

Definition word_at (b : Bus D) (a v : Z) : Prop :=
  ∀ k, 0 <= k < 4 -> backed_byte (a + k) b = Some (value_byte v k).

(** Same map, store policy and devices, possibly different contents. *)
Definition same_map b b' : Prop :=
  shape <$> bus_regions b = shape <$> bus_regions b'
  /\ bus_reversible_ram_only b' = bus_reversible_ram_only b /\ bus_devices b' = bus_devices b.
Lemma same_map_trans b1 b2 b3 : same_map b1 b2 -> same_map b2 b3 -> same_map b1 b3.
Proof. intros (E1 & R1 & D1) (E2 & R2 & D2). repeat split; congruence. Qed.

Lemma ram_at_same b b' a w : same_map b b' -> ram_at b a w -> ram_at b' a w.
Proof.
  intros (Es & Er & _) [(i & r & Hf & Hrd & Hw)].
  destruct (find_region_shape _ _ _ _ _ Es Hf) as (r' & Hf' & Hs). constructor. exists i, r'.
  split; [done|]. split; [by rewrite <- Hrd; exact (f_equal rg_readable Hs)|].
  rewrite <- Hw. unfold fast_writable. rewrite Er.
  pose proof (f_equal (fun q => is_backed q && rg_writable q && containsRange q a w
    && negb ((bus_reversible_ram_only b || false) && (negb (is_ram q) || rg_executable q))) Hs) as E.
  exact E.
Qed.

Lemma ram_at_sub b a w a' w' : bus_ok b -> ram_at b a w -> a <= a' -> 0 < w' -> a' + w' <= a + w ->
  ram_at b a' w'.
Proof.
  intros Hb [(i & r & Hf & Hrd & Hw)] Hlo Hpos Hhi. constructor. exists i, r.
  pose proof (fast_writable_spec _ _ _ _ _ Hw) as (_ & _ & Hc & _). apply containsRange_spec in Hc as [? ?].
  split; [eapply find_region_same; [done|done|lia]|]. split; [done|].
  revert Hw. unfold fast_writable. rewrite !andb_true_iff, !containsRange_spec. intros [[[? ?] [? ?]] ?].
  repeat split; try done; lia.
Qed.

Lemma ram_at_u32 b a w : bus_ok b -> ram_at b a w -> 0 <= a /\ a + w <= 0x100000000.
Proof.
  intros Hb [(i & r & Hf & _ & Hw)]. apply find_region_Some in Hf as [Hi _].
  pose proof (fast_writable_spec _ _ _ _ _ Hw) as (_ & _ & Hc & _). apply containsRange_spec in Hc as [? ?].
  pose proof (regions_ok_lookup _ _ _ Hb Hi) as Hr. pose proof (rgk_end _ Hr). pose proof (rgk_base _ Hr). lia.
Qed.

Lemma storeBackedWord_devices i o v x b : bus_devices (storeBackedWord i o v x b) = bus_devices b.
Proof.
  unfold storeBackedWord. cbv zeta. destruct (_ =? v); [done|]. unfold set_region. cbn [bus_devices].
  destruct (bus_write_journal_tracking b); [|done]. by destruct (foldl _ _ _).
Qed.

(** A word store and load on such memory. *)
Lemma write32_ram b a v c : bus_ok b -> is_u32 v -> ram_at b a 4 ->
  ∃ b', bus_write32 a v c b = (inl 0, b') /\ bus_ok b' /\ same_map b b' /\ word_at b' a v
    /\ ∀ a', ~ a <= a' < a + 4 -> backed_byte a' b' = backed_byte a' b.
Proof.
  intros Hb Hv Hram. pose proof (ram_at_u32 _ _ _ Hb Hram) as Ha.
  destruct Hram as [(i & r & Hf & Hrd & Hw)].
  pose proof (write32_in_region a v c b i r Hf Hw) as E. eexists. split; [exact E|].
  set (b' := bump_execution_if _ _) in *.
  rewrite bus_write32_checked in E by done.
  assert (is_u32 a) as Hau by (unfold is_u32; lia).
  pose proof (fast_writable_spec _ _ _ _ _ Hw) as (Hk & _ & _ & _).
  pose proof (fun a' => bus_write_bytes _ a AccessSize.word v c b 0 b' i r a' Hb Hau E Hf Hk) as Hbytes.
  cbn [byteCount] in Hbytes. split; [|split; [|split]].
  - pose proof (bus_write_ok maximum_alias_depth a AccessSize.word v c b Hb) as Hok. by rewrite E in Hok.
  - split; [|split].
    + pose proof (bus_write_shape maximum_alias_depth a AccessSize.word v c b) as Hs. by rewrite E in Hs.
    + unfold b'. rewrite (bus_eqv_reversible _ _ (forget_bump_execution _ _)).
      rewrite (proj2 (storeBackedWord_regions _ _ _ _ _)). apply bus_eqv_reversible, forget_addStore.
    + unfold b'. rewrite (bus_eqv_devices _ _ (forget_bump_execution _ _)), storeBackedWord_devices.
      apply bus_eqv_devices, forget_addStore.
  - intros k Hkk. rewrite Hbytes. destruct (Z.leb_spec a (a + k)), (Z.ltb_spec (a + k) (a + 4)); try lia.
    cbn [andb]. do 2 f_equal. lia.
  - intros a' Ha'. rewrite Hbytes. destruct (Z.leb_spec a a'), (Z.ltb_spec a' (a + 4)); try done. lia.
Qed.

Lemma read32_ram b a v c : bus_ok b -> is_u32 v -> is_fetch c = false -> ram_at b a 4 -> word_at b a v ->
  ∃ b', bus_read32 a c b = (inl v, b') /\ bus_eqv b' b.
Proof.
  intros Hb Hv Hc [(i & r & Hf & Hrd & Hw)] Hword.
  pose proof (fast_writable_spec _ _ _ _ _ Hw) as (Hk & _ & Hin & _).
  assert (fast_readable r a 4 c = true) as Hr by (unfold fast_readable; by rewrite Hk, Hrd, Hin, Hc).
  rewrite (read32_in_region a c b i r Hb Hf Hr). eexists. split; [|apply forget_backed_read].
  do 2 f_equal. rewrite (region_value_bytes b a 4 i r v Hb) by (done || lia). by apply u32_small.
Qed.

(** ** Sequences of words *)

Definition words_at (b : Bus D) (a : Z) (vs : list Z) : Prop :=
  ∀ k v, vs !! k = Some v -> word_at b (a + 4 * Z.of_nat k) v.

Lemma word_at_frame b b' a v lo hi : word_at b a v -> a + 4 <= lo \/ hi <= a ->
  (∀ a', ~ lo <= a' < hi -> backed_byte a' b' = backed_byte a' b) -> word_at b' a v.
Proof. intros Hw Hd Hf k Hk. rewrite Hf by lia. by apply Hw. Qed.
Lemma word_at_eqv b b' a v : bus_eqv b' b -> word_at b a v -> word_at b' a v.
Proof. intros E Hw k Hk. rewrite (backed_byte_regions _ b' b) by by apply bus_eqv_regions. by apply Hw. Qed.
Lemma same_map_eqv b b' : bus_eqv b' b -> same_map b b'.
Proof.
  intros E. split; [by rewrite (bus_eqv_regions _ _ E)|]. split; [by apply bus_eqv_reversible|by apply bus_eqv_devices].
Qed.

Lemma write_words_ram vs a c b : bus_ok b -> Forall is_u32 vs ->
  ram_at b a (4 * Z.of_nat (length vs)) ->
  ∃ b', write_words vs a c b = (inl 0, b') /\ bus_ok b' /\ same_map b b' /\ words_at b' a vs
    /\ ∀ a', ~ a <= a' < a + 4 * Z.of_nat (length vs) -> backed_byte a' b' = backed_byte a' b.
Proof.
  revert a b. induction vs as [|v vs IH]; intros a b Hb Hvs Hram.
  { exists b. split; [done|]. split; [done|]. split; [done|]. split; [|done]. by intros k u. }
  inversion_clear Hvs as [|? ? Hv Hvs']. cbn [length] in *. pose proof (ram_at_u32 _ _ _ Hb Hram) as Hrange.
  assert (ram_at b a 4) as Hram4 by (apply (ram_at_sub _ a (4 * Z.of_nat (S (length vs)))); try done; lia).
  destruct (write32_ram b a v c Hb Hv Hram4) as (b1 & Ew & Hb1 & Hs1 & Hw1 & Hfr1).
  cbn [write_words]. unfold write32, Bus_CpuMemory. rewrite Ew.
  destruct vs as [|v2 vs].
  - exists b1. split; [done|]. split; [done|]. split; [done|]. split.
    + intros [|k] u Hk; [|done]. cbn in Hk. injection Hk as <-. by rewrite Z.add_0_r.
    + intros a' Ha'. apply Hfr1. cbn [length] in *. lia.
  - assert (u32 (a + 4) = a + 4) as Ea by (apply u32_small; unfold is_u32; cbn [length] in *; lia). rewrite Ea.
    destruct (IH (a + 4) b1 Hb1 Hvs') as (b2 & Es & Hb2 & Hs2 & Hw2 & Hfr2).
    { apply (ram_at_same b); [done|].
      apply (ram_at_sub _ a (4 * Z.of_nat (S (length (v2 :: vs))))); try done; cbn [length] in *; lia. }
    exists b2. split; [exact Es|]. split; [done|]. split; [by eapply same_map_trans|]. split.
    + intros [|k] u Hk.
      * cbn in Hk. injection Hk as <-. rewrite Z.add_0_r. eapply word_at_frame; [exact Hw1|left|exact Hfr2]. lia.
      * replace (a + 4 * Z.of_nat (S k)) with (a + 4 + 4 * Z.of_nat k) by lia. apply Hw2. exact Hk.
    + intros a' Ha'. cbn [length] in *. rewrite Hfr2 by lia. apply Hfr1. lia.
Qed.

Lemma read_words_ram vs a c b : bus_ok b -> is_fetch c = false -> Forall is_u32 vs ->
  ram_at b a (4 * Z.of_nat (length vs)) -> words_at b a vs ->
  ∃ b', read_words (length vs) a c b = (inl vs, b') /\ bus_eqv b' b.
Proof.
  revert a b. induction vs as [|v vs IH]; intros a b Hb Hc Hvs Hram Hw; [by exists b|].
  cbn [length read_words] in *. inversion_clear Hvs as [|? ? Hv Hvs']. pose proof (ram_at_u32 _ _ _ Hb Hram) as Hrange.
  assert (ram_at b a 4) as Hram4 by (apply (ram_at_sub _ a (4 * Z.of_nat (S (length vs)))); try done; lia).
  destruct (read32_ram b a v c Hb Hv Hc Hram4) as (b1 & Er & E1).
  { specialize (Hw 0%nat v eq_refl). by rewrite Z.add_0_r in Hw. }
  change (read32 a c b) with (bus_read32 a c b). rewrite Er.
  destruct vs as [|v2 vs]; [by exists b1|].
  assert (u32 (a + 4) = a + 4) as Ea by (apply u32_small; unfold is_u32; cbn [length] in *; lia). rewrite Ea.
  destruct (IH (a + 4) b1) as (b2 & Es & E2); [by apply (eqv_ok _ _ E1)|done|done| | |].
  - apply (ram_at_same b); [by apply same_map_eqv|].
    apply (ram_at_sub _ a (4 * Z.of_nat (S (length (v2 :: vs))))); try done; cbn [length] in *; lia.
  - intros k u Hk. specialize (Hw (S k) u Hk). apply (word_at_eqv b); [done|].
    by replace (a + 4 + 4 * Z.of_nat k) with (a + 4 * Z.of_nat (S k)) by lia.
  - rewrite Es. exists b2. split; [done|]. by etransitivity.
Qed.
End words.
