(* ===== verification/ExceptionsProofs.v ===== *)
(** * Exception entry and return restore the interrupted state

    The exception controller on the bus: entry stacks a frame that encodes the interrupted
    state, and the return through the value that entry leaves in LR rebuilds it, for the basic
    frame, the extended frame and the deferred (lazy) floating-point frame. *)

From stdpp Require Import gmap sorting.
From S2P Require Import Prelude Address Instruction InstructionProofs CpuState CpuStateProofs.
From S2P Require Import MemoryApi SystemControl SystemControlProofs Exceptions MemoryBus.
From S2P Require Import MemoryBusProofs BusAccess BusJournal BusWords.
#[local] Open Scope Z_scope.
#[local] Open Scope fil_scope.

(** ** Status word and control bits *)

Lemma set_bit_absorb x k : 0 <= k -> Z.testbit x k = true -> x .| 1 .<< k = x.
Proof.
  intros Hk Hx. apply Z.bits_inj'. intros i Hi. rewrite Z.lor_spec, Z.shiftl_1_l, Z.pow2_bits_eqb by lia.
  destruct (Z.eqb_spec k i) as [->|]; [by rewrite Hx|apply orb_false_r].
Qed.
Lemma clear_set_bit x k (b : bool) : is_u32 x -> 0 <= k < 32 -> Z.testbit x k = false ->
  (x .| (if b then 1 .<< k else 0)) .& not32 (1 .<< k) = x.
Proof.
  intros Hu Hk Hx. apply Z.bits_inj'. intros i Hi. rewrite Z.land_spec, Z.lor_spec.
  destruct (Z.lt_ge_cases i 32).
  - rewrite not32_testbit by lia. rewrite Z.shiftl_1_l.
    destruct b; rewrite ?Z.testbit_0_l, !Z.pow2_bits_eqb by lia;
      destruct (Z.eqb_spec k i) as [<-|]; rewrite ?Hx, ?orb_false_r, ?andb_false_r, ?andb_true_r; done.
  - rewrite (high_bits_clear 32 x i Hu) by lia.
    rewrite (high_bits_clear 32 (not32 _) i (is_u32_not32 _)) by lia. apply andb_false_r.
Qed.

(** The IT bits of the status word survive being unpacked and packed again. *)
Lemma setItState_packed x : is_u32 x ->
  x .& not32 xpsr_it_mask .| ((it_state_of x .& 0x03) .<< 25 .| (it_state_of x .& 0xfc) .<< 8) = x.
Proof.
  intros Hx.
  assert (∀ i, 0 <= i < 8 -> Z.testbit (it_state_of x) i
            = (Z.testbit x (i + 8) && Z.testbit 0xfc i) || (Z.testbit x (i + 25) && Z.testbit 3 i)) as Hit.
  { intros i Hi. unfold it_state_of, u8. change 0x100 with (2 ^ 8). rewrite Z.mod_pow2_bits_low by lia.
    by rewrite Z.lor_spec, !Z.land_spec, !Z.shiftr_spec by lia. }
  assert (is_u8 (it_state_of x)) as Hu8 by apply u8_range.
  apply u32_bits; [|done|].
  - apply is_u32_lor; [by apply is_u32_land_l|]. unfold is_u32.
    apply (lor_below 32); [lia| |]; rewrite Z.shiftl_mul_pow2 by lia;
      pose proof (land_bounds_r (it_state_of x) 3 ltac:(lia)); pose proof (land_bounds_r (it_state_of x) 0xfc ltac:(lia)); lia.
  - change (seqZ 0 32) with (Z.of_nat <$> seq 0 32). cbn [seq fmap list_fmap].
    repeat apply Forall_cons_2; try apply Forall_nil_2;
      rewrite !Z.lor_spec, !Z.land_spec, !Z.shiftl_spec, !Z.land_spec, not32_testbit by lia;
      cbn [Z.of_nat Pos.of_succ_nat Pos.succ].
    all: try (rewrite !Hit by lia).
    all: cbn; rewrite ?andb_true_r, ?andb_false_r, ?orb_false_r; try done.
    all: rewrite Hit by lia; cbn; rewrite ?andb_true_r, ?andb_false_r, ?orb_false_r; done.
Qed.

(** Clearing SPSEL and FPCA and setting them as they were is the identity. *)
Lemma control_restored x : is_u32 x ->
  x .& not32 6 .| (if has x 2 then 2 else 0) .| (if has x 4 then 4 else 0) = x.
Proof.
  intros Hx. change 2 with (1 .<< 1) at 1. change 4 with (1 .<< 2) at 1. rewrite !has_testbit by lia.
  apply u32_bits; [|done|].
  - apply is_u32_lor; [apply is_u32_lor; [by apply is_u32_land_l|]|]; case_match; unfold is_u32; lia.
  - change (seqZ 0 32) with (Z.of_nat <$> seq 0 32). cbn [seq fmap list_fmap].
    repeat apply Forall_cons_2; try apply Forall_nil_2; rewrite !Z.lor_spec, !Z.land_spec, not32_testbit by lia;
      cbn [Z.of_nat Pos.of_succ_nat Pos.succ];
      destruct (Z.testbit x 1) eqn:E1, (Z.testbit x 2) eqn:E2; cbn [Z.testbit];
      rewrite ?E1, ?E2; cbn; rewrite ?andb_true_r, ?andb_false_r, ?orb_false_r; try done.
Qed.

Lemma exc_return_bits extended from_handler used_psp : (from_handler = true -> used_psp = false) ->
  let e := exc_return_value extended from_handler used_psp in
  isExceptionReturn e = true /\ has e (1 .<< 2) = used_psp /\ has e (1 .<< 4) = negb extended
  /\ has e (1 .<< 3) = negb from_handler.
Proof. intros Hh. destruct extended, from_handler, used_psp; try (by specialize (Hh eq_refl)); done. Qed.

Lemma stacked_xpsr x (pad : bool) : is_u32 x -> has x xpsr_t = true -> has x (1 .<< 9) = false ->
  let word := x .| xpsr_t .| (if pad then 1 .<< 9 else 0) in
  has word xpsr_t = true /\ has word (1 .<< 9) = pad /\ word .& not32 (1 .<< 9) = x.
Proof.
  intros Hu Ht H9. cbv zeta. change xpsr_t with (1 .<< 24) in *.
  rewrite has_testbit in Ht, H9 by lia. rewrite (set_bit_absorb x 24) by (done || lia).
  rewrite !has_testbit, !Z.lor_spec, Ht, H9 by lia. split; [done|]. split; [by destruct pad|].
  by apply clear_set_bit.
Qed.
Lemma stacked_pc x : is_u32 x -> has x 1 = false -> (x .| 1) .& not32 1 = x.
Proof.
  intros Hu Hx. change 1 with (1 .<< 0) at 1 2. apply (clear_set_bit x 0 true); [done|lia|].
  by rewrite testbit_odd.
Qed.

(** ** The controller on the bus *)

(** The system control block among the devices of the bus. *)
Class SystemDevice (D : Type) := {
  device_system : D -> SystemControl;
  set_device_system : SystemControl -> D -> D;
  device_system_set s d : device_system (set_device_system s d) = s;
}.

#[global] Instance Bus_SystemHost `{SystemDevice D} : SystemHost (Bus D) := {|
  system_of b := device_system (bus_devices b);
  set_system s b := {| b with bus_devices := set_device_system s (bus_devices b) |};
|}.

Section frames.
Context `{MmioDevices D} `{SystemDevice D}.
Implicit Types (b : Bus D) (c : Controller (Bus D)).

Lemma words_at_eqv b b' a vs : bus_eqv b' b -> words_at b a vs -> words_at b' a vs.
Proof. intros E Hw k v Hk. apply (word_at_eqv b); [done|]. by apply Hw. Qed.
Lemma same_map_eqv_r b1 b2 b3 : same_map b1 b2 -> bus_eqv b3 b2 -> same_map b1 b3.
Proof. intros Hs He. eapply same_map_trans; [exact Hs|by apply same_map_eqv]. Qed.

Lemma stack_core_frame_ram base frame c : bus_ok (ec_mem c) -> frame <> [] -> Forall is_u32 frame ->
  ram_at (ec_mem c) base (4 * Z.of_nat (length frame)) ->
  ∃ b', stack_core_frame base frame c = (inl tt, {| c with ec_mem := b' |})
    /\ bus_ok b' /\ same_map (ec_mem c) b' /\ words_at b' base frame
    /\ ∀ a', ~ base <= a' < base + 4 * Z.of_nat (length frame) -> backed_byte a' b' = backed_byte a' (ec_mem c).
Proof.
  intros Hb Hne Hu Hram. set (context := data_write_context (ec_cpu c)).
  destruct (write_words_ram frame base context (ec_mem c) Hb Hu Hram) as (b' & E & Hb' & Hs & Hw & Hf).
  unfold stack_core_frame. fold context. destruct (tryFastWriteWords base frame context (ec_mem c)) as [[] b1] eqn:Et.
  - assert (is_u32 base) as Hbase.
    { pose proof (ram_at_u32 _ _ _ Hb Hram). destruct frame; [done|]. cbn [length] in *. unfold is_u32. lia. }
    destruct (tryFastWriteWords_hit _ _ _ _ _ Hb Hbase Et) as (b2 & E2 & Eq).
    rewrite E in E2. injection E2 as <-. exists b1. split; [done|]. split; [by apply (eqv_ok _ _ Eq)|].
    split; [by eapply same_map_eqv_r|]. split; [by eapply words_at_eqv|].
    intros a' Ha'. rewrite (backed_byte_regions a' b1 b') by by apply bus_eqv_regions. by apply Hf.
  - apply tryFastWriteWords_miss in Et as ->. exists b'. split; [|done].
    unfold mbind, Ctl_bind, checked. cbn [ec_mem]. unfold write_words in E. fold write_words in E.
    rewrite E. done.
Qed.

Lemma unstack_core_frame_ram base frame c : bus_ok (ec_mem c) -> length frame = 8%nat -> Forall is_u32 frame ->
  ram_at (ec_mem c) base 32 -> words_at (ec_mem c) base frame ->
  ∃ b', unstack_core_frame base c = (inl frame, {| c with ec_mem := b' |}) /\ bus_eqv b' (ec_mem c).
Proof.
  intros Hb Hlen Hu Hram Hw. set (context := data_read_context (ec_cpu c)).
  assert (ram_at (ec_mem c) base (4 * Z.of_nat (length frame))) as Hram' by by rewrite Hlen.
  assert (is_u32 base) as Hbase by (pose proof (ram_at_u32 _ _ _ Hb Hram); unfold is_u32; lia).
  unfold unstack_core_frame. fold context.
  destruct (tryFastReadWords base 8 context (ec_mem c)) as [[vs|] b1] eqn:Et.
  - pose proof (tryFastReadWords_eqv _ _ _ _ _ _ Et) as Eq. exists b1. split; [|done].
    pose proof (tryFastReadWords_hit base 8 context _ vs b1 Hb Hbase eq_refl ltac:(lia) Et) as Er.
    destruct (read_words_ram frame base context (ec_mem c) Hb eq_refl Hu Hram' Hw) as (b2 & E2 & _).
    rewrite Hlen in E2. change (Z.to_nat 8) with 8%nat in Er. rewrite E2 in Er. by injection Er as <- <-.
  - pose proof (tryFastReadWords_eqv _ _ _ _ _ _ Et) as Eq.
    destruct (read_words_ram frame base context b1) as (b2 & E2 & Eq2); try done.
    + by apply (eqv_ok _ _ Eq).
    + apply (ram_at_same (ec_mem c)); [by apply same_map_eqv|done].
    + by eapply words_at_eqv.
    + exists b2. split; [|by etransitivity]. unfold checked. cbn [ec_mem]. rewrite Hlen in E2. by rewrite E2.
Qed.

(** The FP frame: S0-S15, FPSCR and the reserved word. *)
Definition fp_words (st : CpuState) : list Z := (sreg st <$> seqZ 0 16) ++ [cs_fpscr st; 0].

Lemma words_at_app b a vs ws : words_at b a vs -> words_at b (a + 4 * Z.of_nat (length vs)) ws ->
  words_at b a (vs ++ ws).
Proof.
  intros Hv Hw k v Hk. apply lookup_app_Some in Hk as [Hk|[Hlen Hk]]; [by apply Hv|].
  specialize (Hw _ _ Hk). replace (a + 4 * Z.of_nat k)
    with (a + 4 * Z.of_nat (length vs) + 4 * Z.of_nat (k - length vs)) by lia. done.
Qed.
Lemma words_at_frame b b' a vs lo hi : words_at b a vs ->
  a + 4 * Z.of_nat (length vs) <= lo \/ hi <= a ->
  (∀ a', ~ lo <= a' < hi -> backed_byte a' b' = backed_byte a' b) -> words_at b' a vs.
Proof.
  intros Hw Hd Hf k v Hk. eapply word_at_frame; [by apply Hw| |exact Hf].
  apply lookup_lt_Some in Hk. lia.
Qed.
Lemma words_at_one b a v : word_at b a v -> words_at b a [v].
Proof. intros Hw [|k] u Hk; [|done]. injection Hk as <-. by rewrite Z.add_0_r. Qed.

Lemma stack_fp_frame_ram sp c : bus_ok (ec_mem c) -> cpu_ok (ec_cpu c) -> ram_at (ec_mem c) sp 72 ->
  ∃ b', stack_fp_frame sp c = (inl tt, {| c with ec_mem := b' |})
    /\ bus_ok b' /\ same_map (ec_mem c) b' /\ words_at b' sp (fp_words (ec_cpu c))
    /\ ∀ a', ~ sp <= a' < sp + 72 -> backed_byte a' b' = backed_byte a' (ec_mem c).
Proof.
  intros Hb Hcpu Hram. pose proof (ram_at_u32 _ _ _ Hb Hram) as Hsp.
  assert (Forall is_u32 (sreg (ec_cpu c) <$> seqZ 0 16)) as Hu.
  { apply Forall_fmap, Forall_forall. intros i _. by apply sreg_range. }
  set (context := data_write_context (ec_cpu c)).
  destruct (write_words_ram (sreg (ec_cpu c) <$> seqZ 0 16) sp context (ec_mem c) Hb Hu) as (b1 & E1 & Hb1 & Hs1 & Hw1 & Hf1).
  { rewrite length_fmap, length_seqZ. apply (ram_at_sub _ sp 72); try done; lia. }
  rewrite length_fmap, length_seqZ in Hf1.
  destruct (write32_ram b1 (sp + 64) (cs_fpscr (ec_cpu c)) context Hb1 (ok_fpscr _ Hcpu)) as (b2 & E2 & Hb2 & Hs2 & Hw2 & Hf2).
  { apply (ram_at_sub _ sp 72); try lia; [done|]. by apply (ram_at_same (ec_mem c)). }
  pose proof (same_map_trans _ _ _ Hs1 Hs2) as Hs12.
  destruct (write32_ram b2 (sp + 68) 0 context Hb2) as (b3 & E3 & Hb3 & Hs3 & Hw3 & Hf3).
  { unfold is_u32. lia. }
  { apply (ram_at_sub _ sp 72); try lia; [done|]. by apply (ram_at_same (ec_mem c)). }
  exists b3. split; [|split; [done|split; [by eapply same_map_trans|split]]].
  - unfold stack_fp_frame, mbind, Ctl_bind, get_cpu, checked. fold context. cbn [ec_cpu ec_mem]. rewrite E1. cbn [ec_mem].
    rewrite (u32_small (sp + 64)), (u32_small (sp + 68)) by (unfold is_u32; lia).
    change (write32 (sp + 64)) with (bus_write32 (D:=D) (sp + 64)). rewrite E2. cbn [ec_mem].
    change (write32 (sp + 68)) with (bus_write32 (D:=D) (sp + 68)). rewrite E3. done.
  - unfold fp_words. change [cs_fpscr (ec_cpu c); 0] with ([cs_fpscr (ec_cpu c)] ++ [0]). rewrite app_assoc.
    apply words_at_app; [apply words_at_app|].
    + eapply words_at_frame; [|left|exact Hf3]; [|rewrite length_fmap, length_seqZ; lia].
      eapply words_at_frame; [exact Hw1|left|exact Hf2]. rewrite length_fmap, length_seqZ. lia.
    + apply words_at_one. eapply word_at_frame; [|left|exact Hf3]; rewrite length_fmap, length_seqZ; [|lia].
      exact Hw2.
    + apply words_at_one. rewrite length_app, length_fmap, length_seqZ. exact Hw3.
  - intros a' Ha'. rewrite Hf3, Hf2, Hf1 by lia. done.
Qed.

(** ** Unstacking the FP registers *)

Definition load_s (f : Z -> Z) (indices : list Z) (l : list Z) : list Z :=
  foldl (fun l i => rset l i (f i)) l indices.

Lemma load_s_lookup f n l k : (n <= length l)%nat ->
  load_s f (seqZ 0 (Z.of_nat n)) l !! k
  = (if bool_decide (k < n)%nat then Some (f (Z.of_nat k)) else l !! k)
  /\ length (load_s f (seqZ 0 (Z.of_nat n)) l) = length l.
Proof.
  unfold load_s. induction n as [|n IH]; intros Hn; [done|].
  rewrite seqZ_S, foldl_app. cbn [foldl]. rewrite Z.add_0_l.
  destruct (IH ltac:(lia)) as [IHk IHl]. rewrite rset_length. split; [|done].
  match goal with |- rset ?l ?i ?v !! k = _ => change (rset l i v) with (<[Z.to_nat i := v]> l) end. rewrite Nat2Z.id.
  destruct (decide (k = n)) as [->|Hne].
  - rewrite list_lookup_insert_eq by (rewrite IHl; lia). rewrite bool_decide_eq_true_2 by lia. done.
  - rewrite list_lookup_insert_ne by done. rewrite IHk.
    destruct (bool_decide_reflect (k < n)%nat), (bool_decide_reflect (k < S n)%nat); try done; lia.
Qed.

Lemma load_s_restores l l0 : length l = 32%nat -> length l0 = 32%nat ->
  (∀ i, 16 <= i < 32 -> rget l i = rget l0 i) -> load_s (rget l0) (seqZ 0 16) l = l0.
Proof.
  intros Hl Hl0 Hhigh. apply list_eq. intros k.
  destruct (load_s_lookup (rget l0) 16 l k ltac:(lia)) as [Hk _]. change (Z.of_nat 16) with 16 in Hk. rewrite Hk.
  destruct (decide (k < 32)%nat) as [Hlt|Hge].
  - destruct (lookup_lt_is_Some_2 l0 k) as [y Hy]; [lia|]. destruct (lookup_lt_is_Some_2 l k) as [x Hx]; [lia|].
    destruct (bool_decide_reflect (k < 16)%nat).
    + rewrite Hy. unfold rget. by rewrite Nat2Z.id, Hy.
    + specialize (Hhigh (Z.of_nat k) ltac:(lia)). unfold rget in Hhigh. rewrite Nat2Z.id, Hx, Hy in Hhigh.
      cbn in Hhigh. by rewrite Hx, Hy, Hhigh.
  - rewrite bool_decide_eq_false_2 by lia. by rewrite !lookup_ge_None_2 by lia.
Qed.

Lemma unstack_fp_ram indices sp f c : bus_ok (ec_mem c) -> ram_at (ec_mem c) sp 72 ->
  Forall (fun i => 0 <= i < 16 /\ is_u32 (f i) /\ word_at (ec_mem c) (sp + 4 * i) (f i)) indices ->
  ∃ b', unstack_fp indices sp c
    = (inl tt, {| c with ec_cpu := {| (ec_cpu c) with cs_s := load_s f indices (cs_s (ec_cpu c)) |};
                         ec_mem := b' |}) /\ bus_eqv b' (ec_mem c).
Proof.
  revert c. induction indices as [|i indices IH]; intros c Hb Hram Hall.
  { exists (ec_mem c). split; [by destruct c as [[] ? ?]|done]. }
  inversion_clear Hall as [|? ? (Hi & Hu & Hw) Hrest]. pose proof (ram_at_u32 _ _ _ Hb Hram) as Hsp.
  assert (ram_at (ec_mem c) (sp + 4 * i) 4) as Hram4 by (apply (ram_at_sub _ sp 72); try done; lia).
  destruct (read32_ram (ec_mem c) (sp + 4 * i) (f i) (data_read_context (ec_cpu c)) Hb Hu eq_refl Hram4 Hw)
    as (b1 & E1 & Eq1).
  destruct (IH {| ec_cpu := set_sreg i (f i) (ec_cpu c); ec_mem := b1; ec_active_stack := ec_active_stack c |})
    as (b2 & E2 & Eq2); cbn [ec_mem ec_cpu ec_active_stack] in *.
  - by apply (eqv_ok _ _ Eq1).
  - apply (ram_at_same (ec_mem c)); [by apply same_map_eqv|done].
  - eapply Forall_impl; [exact Hrest|]. cbn. intros j (Hj & Hju & Hjw). split; [done|]. split; [done|].
    by apply (word_at_eqv (ec_mem c)).
  - exists b2. split; [|by etransitivity].
    cbn [unstack_fp]. unfold mbind, Ctl_bind, get_cpu, checked, set_cpu. cbn [ec_mem ec_cpu ec_active_stack].
    rewrite (u32_small (sp + i * 4)) by (unfold is_u32; lia). replace (sp + i * 4) with (sp + 4 * i) by lia.
    change (read32 (sp + 4 * i)) with (bus_read32 (D:=D) (sp + 4 * i)). rewrite E1. cbn [ec_mem ec_cpu ec_active_stack].
    unfold mbind, Ctl_bind, get_cpu, checked, set_cpu in E2. rewrite E2. done.
Qed.

Lemma unstack_fp_frame_ram sp st0 c : bus_ok (ec_mem c) -> ram_at (ec_mem c) sp 72 -> cpu_ok st0 ->
  words_at (ec_mem c) sp (fp_words st0) ->
  ∃ b', unstack_fp_frame sp c
    = (inl tt, {| c with ec_cpu := {| (ec_cpu c) with cs_s := load_s (sreg st0) (seqZ 0 16) (cs_s (ec_cpu c));
                                                     cs_fpscr := cs_fpscr st0 |};
                         ec_mem := b' |}) /\ bus_eqv b' (ec_mem c).
Proof.
  intros Hb Hram Hst Hw. pose proof (ram_at_u32 _ _ _ Hb Hram) as Hsp.
  assert (∀ k, (k < 16)%nat -> word_at (ec_mem c) (sp + 4 * Z.of_nat k) (sreg st0 (Z.of_nat k))) as Hs.
  { intros k Hk. apply Hw. unfold fp_words. rewrite lookup_app_l by (rewrite length_fmap, length_seqZ; lia).
    rewrite list_lookup_fmap, lookup_seqZ_lt by lia. done. }
  destruct (unstack_fp_ram (seqZ 0 16) sp (sreg st0) c Hb Hram) as (b1 & E1 & Eq1).
  { apply Forall_forall. intros i Hi%elem_of_seqZ. split; [lia|]. split; [by apply sreg_range|].
    specialize (Hs (Z.to_nat i) ltac:(lia)). by rewrite Z2Nat.id in Hs by lia. }
  destruct (read32_ram b1 (sp + 64) (cs_fpscr st0) (data_read_context (ec_cpu c))) as (b2 & E2 & Eq2).
  - by apply (eqv_ok _ _ Eq1).
  - apply Hst.
  - done.
  - apply (ram_at_sub _ sp 72); try lia; [by apply (eqv_ok _ _ Eq1)|].
    apply (ram_at_same (ec_mem c)); [by apply same_map_eqv|done].
  - apply (word_at_eqv (ec_mem c)); [done|]. apply (Hw 16%nat). done.
  - exists b2. split; [|by etransitivity]. unfold unstack_fp_frame, mbind, Ctl_bind.
    unfold mbind, Ctl_bind in E1. rewrite E1. unfold get_cpu, checked, set_cpu. cbn [ec_mem ec_cpu ec_active_stack].
    rewrite (u32_small (sp + 64)) by (unfold is_u32; lia).
    change (read32 (sp + 64)) with (bus_read32 (D:=D) (sp + 64)).
    match goal with |- context [data_read_context ?s] => change (data_read_context s) with (data_read_context (ec_cpu c)) end.
    rewrite E2. done.
Qed.
End frames.

(** ** Entry *)

Definition entry_psp (st : CpuState) : bool := negb (inHandlerMode st) && has (cs_control st) 2.
Definition entry_extended (st : CpuState) : bool := has (cs_control st) 4.
Definition entry_sp (st : CpuState) : Z := if entry_psp st then cs_psp st else cs_msp st.
Definition entry_padding (sys : SystemControl) (st : CpuState) : bool :=
  has (sc_ccr sys) (1 .<< 9) && has (entry_sp st) 7.
Definition entry_size (sys : SystemControl) (st : CpuState) : Z :=
  32 + (if entry_extended st then fp_frame_size else 0) + (if entry_padding sys st then 4 else 0).
Definition entry_lazy (sys : SystemControl) (st : CpuState) : bool :=
  entry_extended st && has (sc_fpccr sys) fpccr_lspen && negb (cs_fp_lazy_active st).

Section round_trip.
Context `{MmioDevices D} `{SystemDevice D}.
Implicit Types (b : Bus D) (c : Controller (Bus D)).

(** Entry finds room on the stack, in plain memory, and a Thumb handler in the vector table. *)
Record entry_ready (n handler : Z) c : Prop := {
  er_number : 0 < n < 256;
  er_cpu : cpu_ok (ec_cpu c);
  er_bus : bus_ok (ec_mem c);
  er_stack : let size := entry_size (system_of (ec_mem c)) (ec_cpu c) in
    ram_at (ec_mem c) (entry_sp (ec_cpu c) - size) size;
  er_vector : let address := sc_vtor (system_of (ec_mem c)) + n * 4 in
    ∃ i r, find_region address (bus_regions (ec_mem c)) = Some (i, r)
      /\ fast_readable r address 4 (data_read_context (ec_cpu c)) = true
      /\ region_value r (address - rg_base r) 4 = handler;
  er_thumb : has handler 1 = true;
}.

Lemma containsWritableRange_ram b a w : ram_at b a w -> bus_containsWritableRange a w b = true.
Proof.
  intros [(i & r & Hf & _ & Hw)]. apply find_region_Some in Hf as [Hi _].
  apply fast_writable_spec in Hw as (Hk & Hwr & Hc & _). apply containsRange_spec in Hc as [? ?].
  apply existsb_exists. exists r. split; [by eapply list_elem_of_In, list_elem_of_lookup_2|].
  unfold is_mmio. unfold is_backed in Hk. rewrite Hwr.
  destruct (Z.leb_spec (rg_base r) a), (Z.leb_spec (a + w) (region_end r)); try lia.
  rewrite !andb_true_r. by destruct (rg_kind r).
Qed.

Lemma core_frame_u32 pad st : cpu_ok st -> Forall is_u32 (core_frame pad st).
Proof.
  intros Hst. pose proof (fun i => reg_range st i Hst) as Hr. unfold core_frame.
  repeat apply Forall_cons_2; try apply Forall_nil_2; try done.
  - apply is_u32_lor; [done|unfold is_u32; lia].
  - apply is_u32_lor; [apply is_u32_lor; [apply Hst|apply xpsr_t_u32]|].
    destruct pad; unfold is_u32; split; vm_compute; done.
Qed.

(** The saved state in memory: the core frame, and the FP frame unless it is deferred. *)
Definition saved_frame (sys : SystemControl) (st : CpuState) (deferred : bool) b : Prop :=
  let sp := entry_sp st - entry_size sys st in
  words_at b (sp + (if entry_extended st then fp_frame_size else 0)) (core_frame (entry_padding sys st) st)
  /\ (entry_extended st = true -> deferred = false -> words_at b sp (fp_words st)).

Lemma enter_effect n handler c : entry_ready n handler c ->
  let st := ec_cpu c in
  let sys := system_of (ec_mem c) in
  let sp := entry_sp st - entry_size sys st in
  ∃ b', enter n c = (inl tt,
      {| ec_cpu := vectored n sp handler (entry_extended st) (inHandlerMode st) (entry_psp st)
                     (lazy_state (entry_lazy sys st) sp st);
         ec_mem := set_system (system_enter n sys) b';
         ec_active_stack := ec_active_stack c ++ [n] |})
    /\ bus_ok b' /\ same_map (ec_mem c) b' /\ saved_frame sys st (entry_lazy sys st) b'.
Proof.
  intros [Hn Hcpu Hb Hram Hvec Hthumb] st sys sp. cbv zeta in Hram. fold st sys sp in Hram.
  destruct Hvec as (i & r & Hf & Hread & Hval). fold st sys in Hf, Hread, Hval.
  pose proof (ram_at_u32 _ _ _ Hb Hram) as Hsp.
  assert (32 <= entry_size sys st) as Hsize by (unfold entry_size, fp_frame_size; repeat case_match; lia).
  pose proof (read32_in_region _ (data_read_context st) _ i r Hb Hf Hread) as Er. rewrite Hval in Er.
  set (b1 := note_backed_read _ _ _ _) in Er.
  assert (bus_eqv b1 (ec_mem c)) as Eq1 by apply forget_backed_read.
  assert (system_of b1 = sys) as Hsys1 by (unfold sys; cbn; by rewrite (bus_eqv_devices _ _ Eq1)).
  assert (ram_at b1 sp (entry_size sys st)) as Hram1 by (apply (ram_at_same (ec_mem c)); [by apply same_map_eqv|done]).
  assert (bus_ok b1) as Hb1 by by apply (eqv_ok _ _ Eq1).
  assert (sc_vtor sys + n * 4 <= 0xffffffff) as Hva.
  { apply find_region_Some in Hf as [Hi Hc]. apply region_contains_spec in Hc.
    pose proof (rgk_end _ (regions_ok_lookup _ _ _ Hb Hi)). lia. }
  assert (∃ b2, (if entry_extended st && negb (entry_lazy sys st) then stack_fp_frame sp else mret tt)
                  {| c with ec_mem := b1 |} = (inl tt, {| c with ec_mem := b2 |})
    /\ bus_ok b2 /\ same_map b1 b2
    /\ (entry_extended st = true -> entry_lazy sys st = false -> words_at b2 sp (fp_words st))) as
    (b2 & E2 & Hb2 & Hs2 & Hw2).
  { destruct (entry_extended st) eqn:Hext; cbn [andb]; [|by exists b1].
    destruct (entry_lazy sys st); cbn [negb]; [by exists b1|].
    destruct (stack_fp_frame_ram sp {| c with ec_mem := b1 |}) as (b2 & E2 & Hb2 & Hs2 & Hw2 & _).
    - done.
    - done.
    - assert (72 <= entry_size sys st) by (unfold entry_size; rewrite Hext; unfold fp_frame_size; case_match; lia).
      apply (ram_at_sub _ sp (entry_size sys st)); try done; lia.
    - by exists b2. }
  set (base := sp + (if entry_extended st then fp_frame_size else 0)).
  set (st1 := lazy_state (entry_lazy sys st) sp st).
  destruct (stack_core_frame_ram base (core_frame (entry_padding sys st) st)
    {| ec_cpu := st1; ec_mem := b2; ec_active_stack := ec_active_stack c |}) as (b3 & E3 & Hb3 & Hs3 & Hw3 & Hf3).
  { done. } { done. } { by apply core_frame_u32. }
  { cbn [ec_mem core_frame length]. apply (ram_at_sub _ sp (entry_size sys st)); try done.
    - by apply (ram_at_same b1).
    - unfold base, fp_frame_size. destruct (entry_extended st); lia.
    - unfold base, entry_size, fp_frame_size. destruct (entry_extended st), (entry_padding sys st); lia. }
  cbn [ec_mem ec_cpu ec_active_stack] in *. exists b3.
  split; [|split; [done|split; [eapply same_map_trans; [by apply same_map_eqv|]; by eapply same_map_trans|]]].
  - unfold enter, mbind, Ctl_bind, guard, get_cpu, get_system.
    destruct (Z.eqb_spec n 0); [lia|]. destruct (Z.leb_spec 256 n); [lia|]. cbn [orb negb].
    unfold mret, Ctl_ret. fold st. fold sys.
    change (negb (inHandlerMode st) && has (cs_control st) 2) with (entry_psp st).
    change (has (cs_control st) 4) with (entry_extended st).
    change (if entry_psp st then cs_psp st else cs_msp st) with (entry_sp st).
    change (has (sc_ccr sys) (1 .<< 9) && has (entry_sp st) 7) with (entry_padding sys st).
    change (32 + (if entry_extended st then fp_frame_size else 0) + (if entry_padding sys st then 4 else 0))
      with (entry_size sys st).
    destruct (Z.ltb_spec (entry_sp st) (entry_size sys st)); [lia|]. cbn [negb].
    fold sp. unfold validateStackRange. change (containsWritableRange sp) with (bus_containsWritableRange (D:=D) sp).
    rewrite containsWritableRange_ram by done.
    destruct (Z.ltb_spec 0xffffffff (sc_vtor sys + n * 4)); [lia|]. cbn [negb].
    unfold checked at 1. change (read32 (sc_vtor sys + n * 4)) with (bus_read32 (D:=D) (sc_vtor sys + n * 4)).
    rewrite Er, Hthumb. cbn [ec_mem]. rewrite Hsys1.
    change (entry_extended st && has (sc_fpccr sys) fpccr_lspen && negb (cs_fp_lazy_active st)) with (entry_lazy sys st).
    unfold mret, Ctl_ret in E2. rewrite E2. unfold set_cpu. cbn [ec_mem ec_cpu ec_active_stack].
    fold st1. fold base. rewrite (u32_small base) by (unfold is_u32, base, entry_size, fp_frame_size in *; destruct (entry_extended st), (entry_padding sys st); lia).
    unfold mbind, Ctl_bind in E3. rewrite E3. cbn [ec_mem ec_cpu ec_active_stack]. unfold push_active, modify_system.
    cbn [ec_mem ec_cpu ec_active_stack].
    assert (system_of b3 = sys) as ->; [|done].
    rewrite <- Hsys1. cbn. rewrite (proj2 (proj2 Hs3)), (proj2 (proj2 Hs2)). done.
  - split; [exact Hw3|]. intros Hext Hlz. eapply words_at_frame; [by apply Hw2|left|exact Hf3].
    unfold fp_words, base, fp_frame_size. rewrite length_app, length_fmap, length_seqZ, Hext. cbn [length]. lia.
Qed.

(** ** Return *)

(** The FP registers after a return with a deferred or a stored FP frame. *)
Definition fp_unstacked (extended : bool) (st0 st : CpuState) : CpuState :=
  let st := if extended && negb (cs_fp_lazy_active st)
            then {| st with cs_s := load_s (sreg st0) (seqZ 0 16) (cs_s st); cs_fpscr := cs_fpscr st0 |}
            else st in
  {| st with cs_fp_lazy_active := false |}.

Lemma return_effect (extended from_handler used_psp : bool) (frame : list Z) (st0 : CpuState) c :
  (from_handler = true -> used_psp = false) -> bus_ok (ec_mem c) -> cpu_ok st0 ->
  inHandlerMode (ec_cpu c) = true -> ec_active_stack c <> [] ->
  let sp := if used_psp then cs_psp (ec_cpu c) else cs_msp (ec_cpu c) in
  let offset := if extended then fp_frame_size else 0 in
  ram_at (ec_mem c) sp (offset + 32) -> length frame = 8%nat -> Forall is_u32 frame ->
  has (rget frame 7) xpsr_t = true -> words_at (ec_mem c) (sp + offset) frame ->
  (extended = true -> cs_fp_lazy_active (ec_cpu c) = false -> words_at (ec_mem c) sp (fp_words st0)) ->
  let e := exc_return_value extended from_handler used_psp in
  ∃ b', exceptionReturn e c = (inl tt,
    {| ec_cpu := resumed frame e used_psp extended (fp_unstacked extended st0 (ec_cpu c));
       ec_mem := b';
       ec_active_stack := removelast (ec_active_stack c) |}).
Proof.
  intros Hh Hb Hst0 Hmode Hact sp offset Hram Hlen Hu Hthumb Hcore Hfp e.
  destruct (exc_return_bits extended from_handler used_psp Hh) as (Hexc & Hpsp & Hext & _). fold e in Hexc, Hpsp, Hext.
  pose proof (ram_at_u32 _ _ _ Hb Hram) as Hsp.
  assert (∃ b1, (if extended && negb (cs_fp_lazy_active (ec_cpu c)) then unstack_fp_frame sp else mret tt) c
      = (inl tt, {| c with ec_cpu := (if extended && negb (cs_fp_lazy_active (ec_cpu c))
            then {| (ec_cpu c) with cs_s := load_s (sreg st0) (seqZ 0 16) (cs_s (ec_cpu c)); cs_fpscr := cs_fpscr st0 |}
            else ec_cpu c); ec_mem := b1 |}) /\ bus_eqv b1 (ec_mem c)) as (b1 & E1 & Eq1).
  { destruct extended; cbn [andb]; [|by exists (ec_mem c); destruct c].
    destruct (negb (cs_fp_lazy_active (ec_cpu c))) eqn:Hl; [|by exists (ec_mem c); destruct c].
    apply unstack_fp_frame_ram; try done; [|by apply Hfp; [|apply negb_true_iff]].
    apply (ram_at_sub _ sp (offset + 32)); try done; unfold offset, fp_frame_size; lia. }
  destruct (unstack_core_frame_ram (sp + offset) frame
    {| ec_cpu := fp_unstacked extended st0 (ec_cpu c); ec_mem := b1; ec_active_stack := ec_active_stack c |})
    as (b2 & E2 & Eq2); cbn [ec_mem ec_cpu ec_active_stack] in *.
  { by apply (eqv_ok _ _ Eq1). } { done. } { done. }
  { apply (ram_at_same (ec_mem c)); [by apply same_map_eqv|].
    apply (ram_at_sub _ sp (offset + 32)); try done; try lia; unfold offset, fp_frame_size; destruct extended; lia. }
  { by eapply words_at_eqv. }
  unfold exceptionReturn, mbind, Ctl_bind, guard, get_cpu, set_cpu. rewrite Hexc. unfold mret, Ctl_ret.
  unfold check_active. rewrite bool_decide_eq_false_2, Hmode by done. cbn [orb negb].
  rewrite Hpsp, Hext, negb_involutive. fold sp offset. unfold validateStackRange.
  change (containsWritableRange sp) with (bus_containsWritableRange (D:=D) sp). rewrite containsWritableRange_ram by done.
  unfold mret, Ctl_ret in E1. rewrite E1. cbn [ec_mem ec_cpu ec_active_stack].
  match goal with |- context [{| ec_cpu := ?s; ec_mem := b1; ec_active_stack := _ |}] =>
    change s with (fp_unstacked extended st0 (ec_cpu c)) end.
  rewrite (u32_small (sp + offset)) by (unfold is_u32, offset, fp_frame_size in *; destruct extended; lia).
  unfold mbind, Ctl_bind in E2. rewrite E2. cbn [ec_mem ec_cpu ec_active_stack]. rewrite Hthumb.
  unfold pop_active. cbn [ec_mem ec_cpu ec_active_stack]. unfold resume_outer. cbn [ec_mem ec_cpu ec_active_stack].
  destruct (last (removelast (ec_active_stack c))); eexists; reflexivity.
Qed.

(** ** Round trip *)

(** What a handler may leave behind: registers that it must save are as they were, the stacked
    frame and the stack pointers are intact, and FP registers that were not stacked are
    untouched. *)
Record handler_done c (c1 c2 : Controller (Bus D)) : Prop := {
  hd_regs i : 4 <= i < 12 -> reg (ec_cpu c2) i = reg (ec_cpu c) i;
  hd_lengths : length (cs_r (ec_cpu c2)) = 16%nat /\ length (cs_s (ec_cpu c2)) = 32%nat;
  hd_msp : cs_msp (ec_cpu c2) = cs_msp (ec_cpu c1);
  hd_psp : cs_psp (ec_cpu c2) = cs_psp (ec_cpu c1);
  hd_control : cs_control (ec_cpu c2) = cs_control (ec_cpu c);
  hd_mode : inHandlerMode (ec_cpu c2) = true;
  hd_high_s i : 16 <= i < 32 -> sreg (ec_cpu c2) i = sreg (ec_cpu c) i;
  hd_low_s : entry_extended (ec_cpu c) = false \/ cs_fp_lazy_active (ec_cpu c2) = true ->
    cs_s (ec_cpu c2) = cs_s (ec_cpu c) /\ cs_fpscr (ec_cpu c2) = cs_fpscr (ec_cpu c);
  hd_active : ec_active_stack c2 = ec_active_stack c1;
  hd_bus : bus_ok (ec_mem c2);
  hd_stack : let size := entry_size (system_of (ec_mem c)) (ec_cpu c) in
    ram_at (ec_mem c2) (entry_sp (ec_cpu c) - size) size;
  hd_frame : saved_frame (system_of (ec_mem c)) (ec_cpu c) (cs_fp_lazy_active (ec_cpu c2)) (ec_mem c2);
}.

(** The interrupted state: Thumb, with its duplicated fields in agreement and no deferred FP
    frame of an earlier exception. *)
Record interruptible (st : CpuState) : Prop := {
  in_thumb : has (cs_xpsr st) xpsr_t = true;
  in_align : has (cs_xpsr st) (1 .<< 9) = false;
  in_pc : has (reg st 15) 1 = false;
  in_it : cs_it_state st = it_state_of (cs_xpsr st);
  in_sp : reg st 13 = activeSp st;
  in_lazy : cs_fp_lazy_active st = false;
}.

Record restored (st st' : CpuState) : Prop := {
  rs_r : cs_r st' = cs_r st;
  rs_xpsr : cs_xpsr st' = cs_xpsr st;
  rs_msp : cs_msp st' = cs_msp st;
  rs_psp : cs_psp st' = cs_psp st;
  rs_control : cs_control st' = cs_control st;
  rs_it : cs_it_state st' = cs_it_state st;
  rs_s : cs_s st' = cs_s st;
  rs_fpscr : cs_fpscr st' = cs_fpscr st;
  rs_lazy : cs_fp_lazy_active st' = false;
}.

Lemma regs_list l : length l = 16%nat -> l = rget l <$> seqZ 0 16.
Proof.
  intros Hl. apply list_eq. intros k. rewrite list_lookup_fmap. destruct (decide (k < 16)%nat).
  - rewrite lookup_seqZ_lt by lia. cbn. destruct (lookup_lt_is_Some_2 l k) as [x Hx]; [lia|].
    rewrite Hx. unfold rget. by rewrite Z.add_0_l, Nat2Z.id, Hx.
  - rewrite !lookup_ge_None_2; [done|rewrite length_seqZ; lia|lia].
Qed.

Lemma rget_rset_if l i v k : (Z.to_nat i < length l)%nat -> 0 <= i -> 0 <= k ->
  rget (rset l i v) k = if k =? i then v else rget l k.
Proof.
  intros Hi Hi0 Hk. destruct (Z.eqb_spec k i) as [->|Hne]; [by apply rget_rset|]. apply rget_rset_ne; lia.
Qed.

(** Projections of nested assignments. *)
Ltac fields := cbn [cs_r cs_xpsr cs_msp cs_psp cs_control cs_it_state cs_s cs_fpscr cs_fp_lazy_active
  set_reg set_xpsr set_msp set_psp set_control set_thumb set_instruction_address setItState].

(** The registers that [resumed] restores, from any register file of the right size. *)
Lemma resumed_regs frame e psp ext st2 st : length (cs_r st2) = 16%nat -> length (cs_r st) = 16%nat ->
  (∀ i, 4 <= i < 12 -> reg st2 i = reg st i) ->
  rget frame 0 = reg st 0 -> rget frame 1 = reg st 1 -> rget frame 2 = reg st 2 -> rget frame 3 = reg st 3 ->
  rget frame 4 = reg st 12 -> rget frame 5 = reg st 14 -> rget frame 6 .& not32 1 = reg st 15 ->
  reg (resumed frame e psp ext st2) 13 = reg st 13 -> cs_r (resumed frame e psp ext st2) = cs_r st.
Proof.
  intros H2 H1 Hsaved E0 E1 E2 E3 E12 E14 E15 E13.
  assert (∃ sp, cs_r (resumed frame e psp ext st2)
    = rset (rset (rset (rset (rset (rset (rset (rset (cs_r st2) 0 (rget frame 0)) 1 (rget frame 1)) 2 (rget frame 2))
        3 (rget frame 3)) 12 (rget frame 4)) 14 (rget frame 5)) 15 (rget frame 6 .& not32 1)) 13 sp) as [sp Er].
  { unfold resumed, unstacked. cbv zeta. fields. destruct psp, (has e _); eexists; fields; reflexivity. }
  unfold reg in E13. rewrite Er in *.
  rewrite (regs_list (rset _ 13 sp)), (regs_list (cs_r st) H1) by by rewrite !rset_length.
  apply list_fmap_ext. intros k i Hk. apply lookup_seqZ in Hk as [-> Hk].
  destruct (decide (0 + Z.of_nat k = 13)) as [->|H13]; [exact E13|].
  rewrite !rget_rset_if by (rewrite ?rset_length; lia).
  repeat match goal with |- context [?a =? ?b] => destruct (Z.eqb_spec a b) as [->|]; [done|] end.
  destruct (Z.eqb_spec (0 + Z.of_nat k) 13); [done|]. apply (Hsaved (0 + Z.of_nat k)). lia.
Qed.

Section restores.
Variables (sys : SystemControl) (st st2 : CpuState).
Let extended := entry_extended st.
Let sp := entry_sp st - entry_size sys st.
Let e := exc_return_value extended (inHandlerMode st) (entry_psp st).
Let frame := core_frame (entry_padding sys st) st.
Let st3 := resumed frame e (entry_psp st) extended st2.
Let out := unstacked frame e (entry_psp st) extended st2.
Hypotheses (Hst : cpu_ok st) (Hin : interruptible st) (Hctl : cs_control st2 = cs_control st)
  (Hmsp : cs_msp st2 = if entry_psp st then cs_msp st else sp)
  (Hpsp : cs_psp st2 = if entry_psp st then sp else cs_psp st).

Lemma frame_xpsr : has (rget frame 7) xpsr_t = true /\ has (rget frame 7) (1 .<< 9) = entry_padding sys st
  /\ rget frame 7 .& not32 (1 .<< 9) = cs_xpsr st.
Proof. exact (stacked_xpsr (cs_xpsr st) (entry_padding sys st) (ok_xpsr _ Hst) (in_thumb _ Hin) (in_align _ Hin)). Qed.

Lemma unstacked_xpsr : cs_xpsr out = cs_xpsr st.
Proof.
  destruct frame_xpsr as (_ & _ & Hx). unfold out, unstacked. cbv zeta.
  destruct (entry_psp st), (has e (1 .<< 3)); fields; exact Hx.
Qed.
Lemma unstacked_control : cs_control out = cs_control st.
Proof.
  destruct (exc_return_bits extended (inHandlerMode st) (entry_psp st)) as (_ & _ & _ & Hthread).
  { unfold entry_psp. by intros ->. }
  fold e in Hthread. unfold out, unstacked. cbv zeta. rewrite Hthread. fields.
  destruct (inHandlerMode st) eqn:Hmode; cbn [negb].
  - destruct (entry_psp st); exact Hctl.
  - assert (entry_psp st = has (cs_control st) 2) as Ep by (unfold entry_psp; by rewrite Hmode).
    pose proof (control_restored (cs_control st) (ok_control _ Hst)) as Hcr. rewrite <- Ep in Hcr.
    destruct (entry_psp st); fields; rewrite Hctl; exact Hcr.
Qed.
Lemma unstacked_stacks : cs_msp out = cs_msp st /\ cs_psp out = cs_psp st.
Proof.
  assert (0 <= entry_sp st < 0x100000000) as Hspr.
  { unfold entry_sp. destruct (entry_psp st); [exact (ok_psp _ Hst)|exact (ok_msp _ Hst)]. }
  assert (u32 (sp + ((if extended then fp_frame_size else 0) + 32 + (if entry_padding sys st then 4 else 0)))
    = entry_sp st) as Hback.
  { unfold sp, entry_size. fold extended. rewrite u32_small; [|unfold is_u32]; lia. }
  destruct frame_xpsr as (_ & Hpad & _). unfold out, unstacked. cbv zeta. rewrite Hpad. fields.
  unfold entry_sp in Hback. destruct (entry_psp st); destruct (has e (1 .<< 3));
    fields; rewrite ?Hmsp, ?Hpsp; split; done.
Qed.
Lemma unstacked_frame : length (cs_r out) = length (cs_r st2) /\ cs_s out = cs_s st2
  /\ cs_fpscr out = cs_fpscr st2 /\ cs_fp_lazy_active out = cs_fp_lazy_active st2.
Proof.
  unfold out, unstacked. cbv zeta.
  destruct (entry_psp st), (has e (1 .<< 3)); fields; rewrite !rset_length; done.
Qed.
Lemma unstacked_sp : activeSp out = activeSp st.
Proof.
  destruct unstacked_stacks as [Hm Hp]. unfold activeSp, uses_msp, inHandlerMode, ipsr.
  by rewrite unstacked_xpsr, unstacked_control, Hm, Hp.
Qed.

(** The return rebuilds the interrupted state. *)
Lemma resumed_restores : length (cs_r st2) = 16%nat -> (∀ i, 4 <= i < 12 -> reg st2 i = reg st i) ->
  cs_s st2 = cs_s st -> cs_fpscr st2 = cs_fpscr st -> cs_fp_lazy_active st2 = false -> restored st st3.
Proof.
  intros Hlen Hsaved Hs Hf Hl. destruct unstacked_frame as (Elen & Es & Ef & El).
  destruct unstacked_stacks as [Em Ep]. pose proof unstacked_xpsr as Ex. pose proof unstacked_control as Ec.
  assert (reg st3 13 = reg st 13) as H13.
  { rewrite (in_sp _ Hin), <- unstacked_sp. unfold st3, resumed. cbv zeta. fold out. unfold reg. fields.
    apply rget_rset. rewrite Elen, Hlen. lia. }
  constructor; try (unfold st3, resumed; cbv zeta; fold out; fields; congruence).
  - apply resumed_regs; try done; [apply Hst|]. apply stacked_pc; [by apply reg_range|apply Hin].
  - unfold st3, resumed. cbv zeta. fold out. fields. rewrite Ex. apply setItState_packed, Hst.
  - unfold st3, resumed. cbv zeta. fold out. unfold setItState. fields. rewrite Ex. symmetry. apply Hin.
Qed.
End restores.

Lemma vectored_fields n sp handler ext fh psp st : length (cs_r st) = 16%nat ->
  let st1 := vectored n sp handler ext fh psp st in
  reg st1 14 = exc_return_value ext fh psp /\ reg st1 15 = handler .& not32 1
  /\ cs_msp st1 = (if psp then cs_msp st else sp) /\ cs_psp st1 = (if psp then sp else cs_psp st).
Proof.
  intros Hlen. unfold vectored, reg. cbv zeta. fields. destruct psp; fields;
    (rewrite !rget_rset_if by (rewrite ?rset_length; lia)); done.
Qed.

Lemma vectored_ipsr n sp handler ext fh psp st : 0 < n < 256 -> is_u32 (cs_xpsr st) ->
  ipsr (vectored n sp handler ext fh psp st) = n.
Proof.
  intros Hn Hx. unfold ipsr, vectored. cbv zeta. unfold setItState. fields.
  match goal with |- context [cs_xpsr ?s .& not32 xpsr_ipsr_mask] => assert (cs_xpsr s = cs_xpsr st) as -> end.
  { by destruct psp. }
  apply u32_bits; [apply is_u32_land_r; unfold is_u32; split; vm_compute; done|unfold is_u32; lia|].
  change (seqZ 0 32) with (Z.of_nat <$> seq 0 32). cbn [seq fmap list_fmap].
  repeat apply Forall_cons_2; try apply Forall_nil_2;
    rewrite ?Z.lor_spec, ?Z.land_spec, ?Z.lor_spec, ?Z.land_spec, ?Z.lor_spec, ?Z.land_spec, !not32_testbit by lia;
    cbn; rewrite ?andb_true_r, ?andb_false_r, ?orb_false_r, ?orb_true_r; try done;
    symmetry; apply (high_bits_clear 8); lia.
Qed.

Lemma lazy_state_fields lz sp st : cs_r (lazy_state lz sp st) = cs_r st /\ cs_xpsr (lazy_state lz sp st) = cs_xpsr st
  /\ cs_msp (lazy_state lz sp st) = cs_msp st /\ cs_psp (lazy_state lz sp st) = cs_psp st.
Proof. unfold lazy_state. by repeat case_match. Qed.

Lemma fp_unstacked_fields c c1 c2 : cpu_ok (ec_cpu c) -> handler_done c c1 c2 ->
  let st := fp_unstacked (entry_extended (ec_cpu c)) (ec_cpu c) (ec_cpu c2) in
  cs_s st = cs_s (ec_cpu c) /\ cs_fpscr st = cs_fpscr (ec_cpu c) /\ cs_fp_lazy_active st = false
  /\ cs_r st = cs_r (ec_cpu c2) /\ cs_control st = cs_control (ec_cpu c2)
  /\ cs_msp st = cs_msp (ec_cpu c2) /\ cs_psp st = cs_psp (ec_cpu c2).
Proof.
  intros Hcpu Hd. unfold fp_unstacked. cbv zeta.
  destruct (entry_extended (ec_cpu c)) eqn:Hext; cbn [andb].
  - destruct (cs_fp_lazy_active (ec_cpu c2)) eqn:Hl; cbn [negb]; fields.
    + destruct (hd_low_s _ _ _ Hd) as [-> ->]; [by right|done].
    + split; [|done]. apply load_s_restores; [apply Hd|apply Hcpu|apply Hd].
  - fields. destruct (hd_low_s _ _ _ Hd) as [-> ->]; [by left|done].
Qed.

(** Whatever the handler did to the registers it need not save, the return restores the
    interrupted state and the stack of active exceptions. *)
Lemma enter_return n handler c : entry_ready n handler c -> interruptible (ec_cpu c) ->
  ∃ c1, enter n c = (inl tt, c1)
    /\ reg (ec_cpu c1) 15 = handler .& not32 1 /\ ipsr (ec_cpu c1) = n
    /\ ∀ c2, handler_done c c1 c2 ->
       ∃ c3, exceptionReturn (reg (ec_cpu c1) 14) c2 = (inl tt, c3)
         /\ restored (ec_cpu c) (ec_cpu c3) /\ ec_active_stack c3 = ec_active_stack c.
Proof.
  intros Hready Hin. pose proof (er_cpu _ _ _ Hready) as Hcpu.
  destruct (enter_effect n handler c Hready) as (b1 & E1 & _).
  set (st := ec_cpu c) in *. set (sys := system_of (ec_mem c)) in *. set (sp := entry_sp st - entry_size sys st) in *.
  destruct (lazy_state_fields (entry_lazy sys st) sp st) as (Lr & Lx & Lm & Lp).
  destruct (vectored_fields n sp handler (entry_extended st) (inHandlerMode st) (entry_psp st)
    (lazy_state (entry_lazy sys st) sp st)) as (V14 & V15 & Vm & Vp); [rewrite Lr; apply Hcpu|].
  eexists. split; [exact E1|]. cbn [ec_cpu]. split; [exact V15|]. split.
  { apply vectored_ipsr; [apply Hready|]. rewrite Lx. apply Hcpu. }
  intros c2 Hd. rewrite V14. rewrite Lm in Vm. rewrite Lp in Vp.
  pose proof (hd_msp _ _ _ Hd) as Hm. pose proof (hd_psp _ _ _ Hd) as Hp. cbn [ec_cpu] in Hm, Hp. rewrite Vm in Hm. rewrite Vp in Hp.
  assert ((if entry_psp st then cs_psp (ec_cpu c2) else cs_msp (ec_cpu c2)) = sp) as Esp
    by (rewrite Hm, Hp; by destruct (entry_psp st)).
  destruct (frame_xpsr sys st Hcpu Hin) as (Hthumb & _ & _).
  destruct (return_effect (entry_extended st) (inHandlerMode st) (entry_psp st)
    (core_frame (entry_padding sys st) st) st c2) as (b3 & E3).
  - unfold entry_psp. by intros ->.
  - apply Hd.
  - done.
  - apply Hd.
  - rewrite (hd_active _ _ _ Hd). cbn. by destruct (ec_active_stack c).
  - rewrite Esp. apply (ram_at_sub _ sp (entry_size sys st)).
    + apply Hd.
    + apply (hd_stack _ _ _ Hd).
    + lia.
    + unfold fp_frame_size. destruct (entry_extended st); lia.
    + unfold entry_size, fp_frame_size. destruct (entry_extended st), (entry_padding sys st); lia.
  - done.
  - by apply core_frame_u32.
  - exact Hthumb.
  - rewrite Esp. apply (hd_frame _ _ _ Hd).
  - rewrite Esp. intros Hext Hl. by apply (hd_frame _ _ _ Hd).
  - eexists. split; [exact E3|]. cbn [ec_cpu ec_active_stack].
    destruct (fp_unstacked_fields _ _ _ Hcpu Hd) as (Fs & Ff & Fl & Fr & Fc & Fm & Fp). fold st in Fs, Ff, Fl, Fr, Fc, Fm, Fp.
    split; [|rewrite (hd_active _ _ _ Hd); apply removelast_last].
    apply resumed_restores; try done.
    + rewrite Fc. apply Hd.
    + by rewrite Fm, Hm.
    + by rewrite Fp, Hp.
    + rewrite Fr. apply Hd.
    + intros i Hi. unfold reg. rewrite Fr. by apply (hd_regs _ _ _ Hd).
Qed.
(** Entry keeps the registers a handler must save, CONTROL and the FP registers. *)
Lemma vectored_keeps n sp handler ext fh psp st : length (cs_r st) = 16%nat ->
  let st1 := vectored n sp handler ext fh psp st in
  (∀ i, 0 <= i < 13 -> reg st1 i = reg st i) /\ length (cs_r st1) = length (cs_r st)
  /\ cs_s st1 = cs_s st /\ cs_fpscr st1 = cs_fpscr st /\ cs_control st1 = cs_control st
  /\ cs_fp_lazy_active st1 = cs_fp_lazy_active st.
Proof.
  intros Hlen. unfold vectored, reg. cbv zeta. destruct psp; fields; rewrite !rset_length;
    (split; [|done]); intros i Hi; (rewrite !rget_rset_if by (rewrite ?rset_length; lia));
    by destruct (Z.eqb_spec i 15), (Z.eqb_spec i 14), (Z.eqb_spec i 13); try lia.
Qed.
Lemma lazy_state_fp lz sp st : cs_fp_lazy_active st = false ->
  let st1 := lazy_state lz sp st in
  cs_s st1 = cs_s st /\ cs_fpscr st1 = cs_fpscr st /\ cs_control st1 = cs_control st
  /\ cs_fp_lazy_active st1 = lz.
Proof. intros Hl. unfold lazy_state. rewrite Hl. by destruct lz. Qed.

(** A handler that returns at once is one of the handlers of the round trip. *)
Lemma handler_done_at_once n handler c : entry_ready n handler c -> interruptible (ec_cpu c) ->
  handler_done c (snd (enter n c)) (snd (enter n c)).
Proof.
  intros Hready Hin. pose proof (er_cpu _ _ _ Hready) as Hcpu. pose proof (er_number _ _ _ Hready) as Hn.
  destruct (enter_effect n handler c Hready) as (b1 & E1 & Hb1 & Hs1 & Hf1). rewrite E1. cbn [snd].
  set (st := ec_cpu c) in *. set (sys := system_of (ec_mem c)) in *. set (sp := entry_sp st - entry_size sys st) in *.
  destruct (lazy_state_fields (entry_lazy sys st) sp st) as (Lr & Lx & Lm & Lp).
  pose proof (vectored_ipsr n sp handler (entry_extended st) (inHandlerMode st) (entry_psp st)
    (lazy_state (entry_lazy sys st) sp st) Hn) as Hi. rewrite Lx in Hi. specialize (Hi (ok_xpsr _ Hcpu)).
  destruct (vectored_keeps n sp handler (entry_extended st) (inHandlerMode st) (entry_psp st)
    (lazy_state (entry_lazy sys st) sp st)) as (Vr & Vl & Vs & Vf & Vc & Vz); [rewrite Lr; apply Hcpu|].
  destruct (lazy_state_fp (entry_lazy sys st) sp st (in_lazy _ Hin)) as (Ls & Lf & Lc & Lz).
  constructor; cbn [ec_cpu ec_mem ec_active_stack]; fold st sys; rewrite ?Vl, ?Vs, ?Vf, ?Vc, ?Vz, ?Ls, ?Lf, ?Lc, ?Lz; try done.
  - intros i Hi'. rewrite Vr by lia. unfold reg. by rewrite Lr.
  - rewrite Lr. split; apply Hcpu.
  - unfold inHandlerMode at 1. rewrite Hi. destruct (Z.eqb_spec n 0); [lia|done].
  - intros i Hi'. unfold sreg. by rewrite Vs, Ls.
  - destruct (ram_at_same _ _ _ _ Hs1 (er_stack _ _ _ Hready)) as [Hr]. by constructor.
Qed.
End round_trip.
