(* ===== verification/Elf.v ===== *)
(** * The ELF loader

    Models [src/elf/elf_loader.cpp] and [include/fil/elf/elf_loader.hpp]: headers, load segments
    with their overlap check, sections, symbols and ARM attributes of a 32-bit ARM image.

    A program of the monad [Checked] ends with a value or an error, or with [None] when it reads a
    byte outside its buffer (undefined behaviour in the source) or when a loop uses up its fuel.
    Reading the file is I/O: its result is an argument.  [std::sort] promises a sorted permutation
    and no more, which is the class [StdSort]. *)

From Stdlib Require Import Ascii.
From stdpp Require Import pretty sorting.
From S2P Require Import Prelude Common Trace.
#[local] Open Scope Z_scope.
#[local] Open Scope fil_scope.

(** ** The sort of the standard library *)

(** A strict weak order, as [std::sort] requires of its comparison. *)
Record strict_weak {A} (less : A -> A -> bool) : Prop := mk_strict_weak {
  less_irreflexive x : less x x = false;
  less_negative_transitive x y z : less x y = false -> less y z = false -> less x z = false;
  less_asymmetric x y : less x y = true -> less y x = false;
}.
Definition not_after {A} (less : A -> A -> bool) (x y : A) : Prop := less y x = false.

Class StdSort := {
  std_sort : ∀ {A}, (A -> A -> bool) -> list A -> list A;
  std_sort_permutation : ∀ {A} (less : A -> A -> bool) l, std_sort less l ≡ₚ l;
  std_sort_sorted : ∀ {A} (less : A -> A -> bool) l, strict_weak less -> StronglySorted (not_after less) (std_sort less l);
}.

(** [std::unique] with [erase]: drops every element equal to the last one kept. *)
Fixpoint unique_from {A} (same : A -> A -> bool) (x : A) (l : list A) : list A :=
  match l with
  | [] => []
  | y :: l => if same x y then unique_from same x l else y :: unique_from same y l
  end.
Definition std_unique {A} (same : A -> A -> bool) (l : list A) : list A :=
  match l with [] => [] | x :: l => x :: unique_from same x l end.

Module Elf.

(** ** Data *)

Record ElfLoadSegment := mkSegment {
  sg_virtual_address : Z;
  sg_physical_address : Z;
  sg_memory_size : Z;
  sg_file_size : Z;
  sg_file_offset : Z;
  sg_readable : bool;
  sg_writable : bool;
  sg_executable : bool;
}.

Record ElfSymbol := mkSymbol { sy_address : Z; sy_size : Z; sy_name : string; sy_function : bool }.

Record ArmAttributes := mkAttributes {
  at_cpu_name : option string;
  at_cpu_arch : option Z;
  at_thumb_isa_use : option Z;
  at_fp_arch : option Z;
  at_hard_fp_use : option Z;
  at_vfp_args : option Z;
  at_unaligned_access : option Z;
}.
Definition attributes_default : ArmAttributes := mkAttributes None None None None None None None.

Record ElfImage := mkImage {
  im_file_bytes : list Z;
  im_segments : list ElfLoadSegment;
  im_symbols : list ElfSymbol;
  im_attributes : ArmAttributes;
  im_entry_point : Z;
  im_flags : Z;
  im_vector_base : Z;
  im_initial_msp : Z;
  im_reset_handler : Z;
}.
Definition hardFloatAbi (image : ElfImage) : bool := has (im_flags image) 0x400.

Record ElfSection := mkSection {
  se_name_offset : Z;
  se_type : Z;
  se_offset : Z;
  se_size : Z;
  se_link : Z;
  se_entry_size : Z;
  se_name : string;
}.

Definition elf_type_executable : Z := 2.
Definition elf_machine_arm : Z := 40.
Definition program_type_load : Z := 1.
Definition section_type_symbol_table : Z := 2.
Definition section_type_dynamic_symbols : Z := 11.
Definition symbol_type_function : Z := 2.

(** ** Checked programs *)

Definition Checked (A : Type) : Type := option (A + Error).
#[global] Instance Checked_ret : MRet Checked := fun _ a => Some (inl a).
#[global] Instance Checked_bind : MBind Checked := fun _ _ f m =>
  match m with
  | Some (inl a) => f a
  | Some (inr e) => Some (inr e)
  | None => None
  end.
Definition reject {A} (e : Error) : Checked A := Some (inr e).

(** An access to a span, which checks nothing in the source. *)
Definition byte_at (bytes : list Z) (index : Z) : option Z :=
  if 0 <=? index then bytes !! Z.to_nat index else None.
(** An unchecked access inside a checked program. *)
Definition unchecked {A} (a : option A) : Checked A := match a with Some a => Some (inl a) | None => None end.

Definition byte_char (b : Z) : ascii := ascii_of_nat (Z.to_nat b).
Definition text_of_bytes (bytes : list Z) : string := String.string_of_list_ascii (byte_char <$> bytes).

Definition elfError (path message : string) : Error :=
  mkError ErrorCategory.parse message (Some (mkSourceContext path 0 0)).
Definition addressRangeFits (address size : Z) : bool := (size =? 0) || (address <=? 0xffffffff - (size - 1)).

Definition slice {A} (l : list A) (offset size : Z) : list A := take (Z.to_nat size) (drop (Z.to_nat offset) l).

(** Bytes [offset .. offset + 4) as a little-endian word. *)
Definition rawU32 (bytes : list Z) (offset : Z) : option Z :=
  b0 ← byte_at bytes offset; b1 ← byte_at bytes (offset + 1);
  b2 ← byte_at bytes (offset + 2); b3 ← byte_at bytes (offset + 3);
  Some (b0 .| (b1 .<< 8) .| (b2 .<< 16) .| (b3 .<< 24)).

Section reader.
Variables (file : list Z) (path : string).
Let file_size : Z := Z.of_nat (length file).

Definition outOfBounds (offset size : Z) : Error :=
  elfError path ("ELF read outside file at offset " +:+ pretty offset +:+ " for " +:+ pretty size +:+ " bytes").
Definition read_u8 (offset : Z) : Checked Z :=
  if negb (rangeFits offset 1 file_size) then reject (outOfBounds offset 1) else unchecked (byte_at file offset).
Definition read_u16 (offset : Z) : Checked Z :=
  if negb (rangeFits offset 2 file_size) then reject (outOfBounds offset 2)
  else
    b0 ← unchecked (byte_at file offset);
    b1 ← unchecked (byte_at file (offset + 1));
    mret (b0 .| (b1 .<< 8)).
Definition read_u32 (offset : Z) : Checked Z :=
  if negb (rangeFits offset 4 file_size) then reject (outOfBounds offset 4) else unchecked (rawU32 file offset).
Definition read_bytes (offset size : Z) : Checked (list Z) :=
  if negb (rangeFits offset size file_size) then reject (outOfBounds offset size) else mret (slice file offset size).

(** [stringAt]: the bytes up to the first zero. *)
Fixpoint c_string (bytes : list Z) : option (list Z) :=
  match bytes with
  | [] => None
  | b :: bytes => if b =? 0 then Some [] else s ← c_string bytes; Some (b :: s)
  end.
Definition stringAt (table : list Z) (offset : Z) (description : string) : Checked string :=
  if Z.of_nat (length table) <=? offset then
    reject (elfError path (description +:+ " string offset is outside its string table"))
  else
    match c_string (drop (Z.to_nat offset) table) with
    | None => reject (elfError path (description +:+ " string is not null terminated"))
    | Some s => mret (text_of_bytes s)
    end.

(** A loop that appends to a list. *)
Fixpoint collect {A B} (f : A -> Checked B) (l : list A) : Checked (list B) :=
  match l with
  | [] => mret []
  | x :: l => y ← f x; rest ← collect f l; mret (y :: rest)
  end.

(** ** Sections *)

Definition parse_section (table_offset entry_size index : Z) : Checked ElfSection :=
  let offset := table_offset + index * entry_size in
  name ← read_u32 offset;
  type ← read_u32 (offset + 4);
  section_offset ← read_u32 (offset + 16);
  size ← read_u32 (offset + 20);
  link ← read_u32 (offset + 24);
  section_entry_size ← read_u32 (offset + 36);
  if negb (rangeFits section_offset size file_size) then
    reject (elfError path ("ELF section " +:+ pretty index +:+ " is outside the file"))
  else mret (mkSection name type section_offset size link section_entry_size "").

Definition parseSections (table_offset entry_size count names_index : Z) : Checked (list ElfSection) :=
  if count =? 0 then mret []
  else if entry_size <? 40 then reject (elfError path "ELF section-header entry is smaller than ELF32 requires")
  else if negb (rangeFits table_offset (entry_size * count) file_size) then
    reject (elfError path "ELF section-header table is outside the file")
  else if count <=? names_index then reject (elfError path "ELF section-name string-table index is out of range")
  else
    sections ← collect (parse_section table_offset entry_size) (seqZ 0 count);
    names ← unchecked (sections !! Z.to_nat names_index);
    names_table ← read_bytes (se_offset names) (se_size names);
    collect (fun section : ElfSection =>
      name ← stringAt names_table (se_name_offset section) "section name";
      mret {| section with se_name := name |}) sections.

(** ** Symbols *)

(** ARM mapping symbols: [$a], [$d] or [$t], alone or followed by a dot. *)
Definition is_mapping_symbol (name : string) : bool :=
  match String.list_ascii_of_string name with
  | c0 :: c1 :: rest =>
      Ascii.eqb c0 "$"%char
      && (Ascii.eqb c1 "a"%char || Ascii.eqb c1 "d"%char || Ascii.eqb c1 "t"%char)
      && match rest with [] => true | c2 :: _ => Ascii.eqb c2 "."%char end
  | _ => false
  end.

(** One entry of a symbol table; [None] for the entries that are skipped. *)
Definition parse_symbol (string_table : list Z) (section : ElfSection) (index : Z) : Checked (option ElfSymbol) :=
  let offset := se_offset section + index * se_entry_size section in
  name_offset ← read_u32 offset;
  value ← read_u32 (offset + 4);
  size ← read_u32 (offset + 8);
  info ← read_u8 (offset + 12);
  if name_offset =? 0 then mret None
  else
    name ← stringAt string_table name_offset "symbol name";
    if bool_decide (name = "") then mret None
    else if is_mapping_symbol name then mret None
    else
      let function := info .& 0x0f =? symbol_type_function in
      mret (Some (mkSymbol (if function then value .& not32 1 else value) size name function)).

Definition parse_symbol_table (sections : list ElfSection) (section : ElfSection) : Checked (list ElfSymbol) :=
  if negb (se_type section =? section_type_symbol_table) && negb (se_type section =? section_type_dynamic_symbols) then mret []
  else if (se_entry_size section <? 16) || negb (se_size section mod se_entry_size section =? 0) then
    reject (elfError path ("symbol table '" +:+ se_name section +:+ "' has an invalid entry size"))
  else if Z.of_nat (length sections) <=? se_link section then
    reject (elfError path ("symbol table '" +:+ se_name section +:+ "' has an invalid string-table link"))
  else
    strings ← unchecked (sections !! Z.to_nat (se_link section));
    string_table ← read_bytes (se_offset strings) (se_size strings);
    symbols ← collect (parse_symbol string_table section) (seqZ 0 (se_size section / se_entry_size section));
    mret (omap id symbols).

Definition symbol_less (left right : ElfSymbol) : bool :=
  if negb (sy_address left =? sy_address right) then sy_address left <? sy_address right
  else if negb (Bool.eqb (sy_function left) (sy_function right)) then sy_function left && negb (sy_function right)
  else String.ltb (sy_name left) (sy_name right).
Definition same_symbol (left right : ElfSymbol) : bool :=
  (sy_address left =? sy_address right) && bool_decide (sy_name left = sy_name right).

Definition parseSymbols `{StdSort} (sections : list ElfSection) : Checked (list ElfSymbol) :=
  symbols ← collect (parse_symbol_table sections) sections;
  mret (std_unique same_symbol (std_sort symbol_less (concat symbols))).
End reader.

(** ** ARM attributes *)

Section attributes.
Variable bytes : list Z.

(** [readUleb]: whether a value was read, the cursor and the value. *)
Fixpoint uleb_loop (fuel : nat) (cursor limit shift result : Z) : option (bool * Z * Z) :=
  match fuel with
  | O => None
  | S fuel =>
      if (cursor <? limit) && (shift <? 35) then
        byte ← byte_at bytes cursor;
        let result := result .| u32 ((byte .& 0x7f) .<< shift) in
        if byte .& 0x80 =? 0 then Some (true, cursor + 1, result)
        else uleb_loop fuel (cursor + 1) limit (shift + 7) result
      else Some (false, cursor, result)
  end.
Definition readUleb (cursor limit : Z) : option (bool * Z * Z) := uleb_loop 6 cursor limit 0 0.

Fixpoint skip_loop (fuel : nat) (cursor limit : Z) : option (bool * Z) :=
  match fuel with
  | O => None
  | S fuel =>
      if cursor <? limit then
        byte ← byte_at bytes cursor;
        if byte =? 0 then Some (true, cursor + 1) else skip_loop fuel (cursor + 1) limit
      else Some (false, cursor)
  end.
(** Enough rounds for every loop over the section. *)
Definition enough : nat := S (length bytes).
Definition skipCString (cursor limit : Z) : option (bool * Z) := skip_loop enough cursor limit.

Definition isStringAttribute (tag : Z) : bool := (tag =? 4) || (tag =? 5) || (tag =? 65) || (tag =? 67).
Definition recordAttribute (tag value : Z) (a : ArmAttributes) : ArmAttributes :=
  if tag =? 6 then {| a with at_cpu_arch := Some value |}
  else if tag =? 9 then {| a with at_thumb_isa_use := Some value |}
  else if tag =? 10 then {| a with at_fp_arch := Some value |}
  else if tag =? 27 then {| a with at_hard_fp_use := Some value |}
  else if tag =? 28 then {| a with at_vfp_args := Some value |}
  else if tag =? 34 then {| a with at_unaligned_access := Some value |}
  else a.

(** The loops return the attributes, and the cursor unless the source returns. *)
Definition Loop : Type := option (ArmAttributes * option Z).
Definition return_with (a : ArmAttributes) : Loop := Some (a, None).
Definition text_between (from to : Z) : string := text_of_bytes (slice bytes from (to - from)).

Fixpoint parse_tags (fuel : nat) (cursor limit : Z) (a : ArmAttributes) : Loop :=
  match fuel with
  | O => None
  | S fuel =>
      if cursor <? limit then
        '(ok, cursor, tag) ← readUleb cursor limit;
        if negb ok then return_with a
        else if isStringAttribute tag then
          '(ok, stop) ← skipCString cursor limit;
          if negb ok then return_with a
          else parse_tags fuel stop limit
                 (if tag =? 5 then {| a with at_cpu_name := Some (text_between cursor (stop - 1)) |} else a)
        else if tag =? 32 then
          '(ok, cursor, _) ← readUleb cursor limit;
          if negb ok then return_with a
          else
            '(ok, cursor) ← skipCString cursor limit;
            if negb ok then return_with a else parse_tags fuel cursor limit a
        else
          '(ok, cursor, value) ← readUleb cursor limit;
          if negb ok then return_with a else parse_tags fuel cursor limit (recordAttribute tag value a)
      else Some (a, Some cursor)
  end.

Fixpoint parse_subsections (fuel : nat) (cursor limit : Z) (a : ArmAttributes) : Loop :=
  match fuel with
  | O => None
  | S fuel =>
      if cursor <? limit then
        let subsection_start := cursor in
        '(ok, cursor, subsection_tag) ← readUleb cursor limit;
        if negb ok || negb (rangeFits cursor 4 limit) then return_with a
        else
          subsection_size ← rawU32 bytes cursor;
          if (subsection_size <? cursor + 4 - subsection_start) || negb (rangeFits subsection_start subsection_size limit)
          then return_with a
          else
            let subsection_end := subsection_start + subsection_size in
            let cursor := cursor + 4 in
            if negb (subsection_tag =? 1) then parse_subsections fuel subsection_end limit a
            else
              '(a, next) ← parse_tags enough cursor subsection_end a;
              match next with
              | None => return_with a
              | Some cursor => parse_subsections fuel cursor limit a
              end
      else Some (a, Some cursor)
  end.

Fixpoint parse_vendors (fuel : nat) (cursor : Z) (a : ArmAttributes) : Loop :=
  match fuel with
  | O => None
  | S fuel =>
      let total := Z.of_nat (length bytes) in
      if rangeFits cursor 4 total then
        let vendor_start := cursor in
        vendor_size ← rawU32 bytes cursor;
        if (vendor_size <? 5) || negb (rangeFits vendor_start vendor_size total) then return_with a
        else
          let vendor_end := vendor_start + vendor_size in
          let cursor := cursor + 4 in
          let vendor_name_start := cursor in
          '(ok, cursor) ← skipCString cursor vendor_end;
          if negb ok then return_with a
          else if bool_decide (text_between vendor_name_start (cursor - 1) <> "aeabi") then parse_vendors fuel vendor_end a
          else
            '(a, next) ← parse_subsections enough cursor vendor_end a;
            match next with
            | None => return_with a
            | Some _ => parse_vendors fuel vendor_end a
            end
      else Some (a, Some cursor)
  end.

Definition parseArmAttributes (a : ArmAttributes) : option ArmAttributes :=
  match bytes with
  | [] => Some a
  | b :: _ => if negb (b =? 0x41) then Some a else '(a, _) ← parse_vendors enough 1 a; Some a
  end.
End attributes.
(** ** Load segments *)

(** A loop that only checks. *)
Fixpoint check_all {A} (f : A -> Checked unit) (l : list A) : Checked unit :=
  match l with
  | [] => mret tt
  | x :: l => _ ← f x; check_all f l
  end.

Definition segment_end (s : ElfLoadSegment) : Z := sg_physical_address s + sg_file_size s.
(** The file offset of the byte at a load address. *)
Definition offset_in (s : ElfLoadSegment) (address : Z) : Z := sg_file_offset s + (address - sg_physical_address s).

Definition check_byte (file : list Z) (path : string) (candidate other : ElfLoadSegment) (index : nat) (address : Z)
    : Checked unit :=
  new ← unchecked (byte_at file (offset_in candidate address));
  old ← unchecked (byte_at file (offset_in other address));
  if negb (new =? old) then
    reject (elfError path ("PT_LOAD file ranges overlap with different bytes at load address "
      +:+ hexValue address 0 +:+ " (new segment and segment " +:+ pretty index +:+ ")"))
  else mret tt.
Definition validateFileBackedOverlap (candidate : ElfLoadSegment) (existing : list ElfLoadSegment) (file : list Z)
    (path : string) : Checked unit :=
  check_all (fun '(index, other) =>
    let overlap_start := Z.max (sg_physical_address candidate) (sg_physical_address other) in
    let overlap_end := Z.min (segment_end candidate) (segment_end other) in
    if overlap_end <=? overlap_start then mret tt
    else check_all (check_byte file path candidate other index) (seqZ overlap_start (overlap_end - overlap_start)))
    (zip (seq 0 (length existing)) existing).

(** One program header, after the segments already accepted. *)
Definition parse_program_header (file : list Z) (path : string) (program_offset entry_size : Z)
    (segments : list ElfLoadSegment) (index : Z) : Checked (list ElfLoadSegment) :=
  let offset := program_offset + index * entry_size in
  segment_type ← read_u32 file path offset;
  if negb (segment_type =? program_type_load) then mret segments
  else
    file_offset ← read_u32 file path (offset + 4);
    virtual_address ← read_u32 file path (offset + 8);
    physical_address ← read_u32 file path (offset + 12);
    file_size ← read_u32 file path (offset + 16);
    memory_size ← read_u32 file path (offset + 20);
    segment_flags ← read_u32 file path (offset + 24);
    if memory_size <? file_size then
      reject (elfError path ("PT_LOAD " +:+ pretty index +:+ " has p_filesz greater than p_memsz"))
    else if negb (rangeFits file_offset file_size (Z.of_nat (length file))) then
      reject (elfError path ("PT_LOAD " +:+ pretty index +:+ " file range is outside the ELF"))
    else if negb (addressRangeFits physical_address file_size) || negb (addressRangeFits virtual_address memory_size) then
      reject (elfError path ("PT_LOAD " +:+ pretty index +:+ " address range wraps 32-bit space"))
    else
      let segment := mkSegment virtual_address physical_address memory_size file_size file_offset
        (has segment_flags 4) (has segment_flags 2) (has segment_flags 1) in
      _ ← validateFileBackedOverlap segment segments file path;
      mret (segments ++ [segment]).

Fixpoint parse_program_headers (file : list Z) (path : string) (program_offset entry_size : Z)
    (segments : list ElfLoadSegment) (indices : list Z) : Checked (list ElfLoadSegment) :=
  match indices with
  | [] => mret segments
  | index :: rest =>
      segments ← parse_program_header file path program_offset entry_size segments index;
      parse_program_headers file path program_offset entry_size segments rest
  end.

Definition segment_less (left right : ElfLoadSegment) : bool :=
  if negb (sg_physical_address left =? sg_physical_address right) then
    sg_physical_address left <? sg_physical_address right
  else sg_virtual_address left <? sg_virtual_address right.

(** ** Reading the load image *)

Definition serves (s : ElfLoadSegment) (address size : Z) : bool :=
  negb ((address <? sg_physical_address s) || (segment_end s <? address + size)).
Definition read_segments (file : list Z) (segments : list ElfLoadSegment) (address size : Z) : Result (list Z) :=
  if negb (addressRangeFits address size) then
    Common.fail ErrorCategory.invalid_argument "requested load-image range wraps 32-bit space"
  else
    match List.find (fun s => serves s address size) segments with
    | Some s => inl (slice file (offset_in s address) size)
    | None => Common.fail ErrorCategory.invalid_argument "requested range is not file-backed load memory"
    end.
Definition readLoadImage (image : ElfImage) (address size : Z) : Result (list Z) :=
  read_segments (im_file_bytes image) (im_segments image) address size.

(** ** Loading *)

(** The vector base without an override; [None] reads the front of an empty list. *)
Definition default_vector_base (segments : list ElfLoadSegment) : option Z :=
  match List.find (fun s => sg_executable s && (8 <=? sg_file_size s)) segments with
  | Some s => Some (sg_physical_address s)
  | None => s ← head segments; Some (sg_physical_address s)
  end.

Fixpoint parse_attributes (file : list Z) (path : string) (a : ArmAttributes) (sections : list ElfSection)
    : Checked ArmAttributes :=
  match sections with
  | [] => mret a
  | section :: rest =>
      if bool_decide (se_name section = ".ARM.attributes") then
        bytes ← read_bytes file path (se_offset section) (se_size section);
        a ← unchecked (parseArmAttributes bytes a);
        parse_attributes file path a rest
      else parse_attributes file path a rest
  end.

(** The header fields [load] uses. *)
Record ElfHeader := mkHeader {
  eh_type : Z; eh_machine : Z; eh_version : Z; eh_entry : Z; eh_program_offset : Z; eh_section_offset : Z;
  eh_flags : Z; eh_header_size : Z; eh_program_entry_size : Z; eh_program_count : Z; eh_section_entry_size : Z;
  eh_section_count : Z; eh_section_names : Z;
}.
Definition read_header (file : list Z) (path : string) : Checked ElfHeader :=
  type ← read_u16 file path 16;
  machine ← read_u16 file path 18;
  version ← read_u32 file path 20;
  entry ← read_u32 file path 24;
  program_offset ← read_u32 file path 28;
  section_offset ← read_u32 file path 32;
  flags ← read_u32 file path 36;
  header_size ← read_u16 file path 40;
  program_entry_size ← read_u16 file path 42;
  program_count ← read_u16 file path 44;
  section_entry_size ← read_u16 file path 46;
  section_count ← read_u16 file path 48;
  section_names ← read_u16 file path 50;
  mret (mkHeader type machine version entry program_offset section_offset flags header_size program_entry_size
    program_count section_entry_size section_count section_names).

Definition check_identification (file : list Z) (path : string) : Checked unit :=
  m0 ← unchecked (byte_at file 0); m1 ← unchecked (byte_at file 1);
  m2 ← unchecked (byte_at file 2); m3 ← unchecked (byte_at file 3);
  if negb (m0 =? 0x7f) || negb (m1 =? 0x45) || negb (m2 =? 0x4c) || negb (m3 =? 0x46) then
    reject (elfError path "invalid ELF magic")
  else
    class ← unchecked (byte_at file 4); data ← unchecked (byte_at file 5); version ← unchecked (byte_at file 6);
    if negb (class =? 1) then reject (elfError path "only ELF32 files are supported")
    else if negb (data =? 1) then reject (elfError path "only little-endian ELF files are supported")
    else if negb (version =? 1) then reject (elfError path "unsupported ELF identification version")
    else mret tt.

Definition check_header (file : list Z) (path : string) (h : ElfHeader) : Checked unit :=
  if negb (eh_type h =? elf_type_executable) then reject (elfError path "ELF is not an executable image")
  else if negb (eh_machine h =? elf_machine_arm) then reject (elfError path "ELF machine is not ARM")
  else if negb (eh_version h =? 1) then reject (elfError path "unsupported ELF header version")
  else if eh_header_size h <? 52 then reject (elfError path "ELF header size is smaller than ELF32 requires")
  else if negb (eh_program_count h =? 0) && (eh_program_entry_size h <? 32) then
    reject (elfError path "ELF program-header entry is smaller than ELF32 requires")
  else if negb (rangeFits (eh_program_offset h) (eh_program_entry_size h * eh_program_count h) (Z.of_nat (length file)))
  then reject (elfError path "ELF program-header table is outside the file")
  else mret tt.

Section load.
Context `{StdSort}.

Definition load_segments (file : list Z) (path : string) (h : ElfHeader) : Checked (list ElfLoadSegment) :=
  segments ← parse_program_headers file path (eh_program_offset h) (eh_program_entry_size h) []
    (seqZ 0 (eh_program_count h));
  match segments with
  | [] => reject (elfError path "ELF contains no PT_LOAD segments")
  | _ => mret (std_sort segment_less segments)
  end.

(** [load]; [contents] is the result of [readFile]. *)
Definition load (path : string) (contents : Result (list Z)) (vector_base : option Z) : Checked ElfImage :=
  match contents with
  | inr e => reject e
  | inl file =>
      if Z.of_nat (length file) <? 52 then reject (elfError path "file is smaller than an ELF32 header")
      else
        _ ← check_identification file path;
        h ← read_header file path;
        _ ← check_header file path h;
        segments ← load_segments file path h;
        chosen ← unchecked (default_vector_base segments);
        let vector_base := default chosen vector_base in
        match read_segments file segments vector_base 8 with
        | inr e =>
            reject (elfError path ("vector table is not contained in a file-backed PT_LOAD segment: " +:+ err_message e))
        | inl vectors =>
            initial_msp ← unchecked (rawU32 vectors 0);
            reset_handler ← unchecked (rawU32 vectors 4);
            sections ← parseSections file path (eh_section_offset h) (eh_section_entry_size h) (eh_section_count h)
              (eh_section_names h);
            symbols ← parseSymbols file path sections;
            attributes ← parse_attributes file path attributes_default sections;
            mret (mkImage file segments symbols attributes (eh_entry h) (eh_flags h) vector_base initial_msp reset_handler)
        end
  end.
End load.

(** ** Queries *)

(** [std::upper_bound] over a sorted list: how many leading symbols are at or before the address. *)
Fixpoint symbols_before (address : Z) (symbols : list ElfSymbol) : nat :=
  match symbols with
  | [] => O
  | s :: rest => if address <? sy_address s then O else S (symbols_before address rest)
  end.
Definition symbolAtOrBefore (image : ElfImage) (address : Z) : option ElfSymbol :=
  match symbols_before address (im_symbols image) with
  | O => None
  | S n => im_symbols image !! n
  end.

Definition permissions (s : ElfLoadSegment) : string :=
  (if sg_readable s then "R" else "-") +:+ (if sg_writable s then "W" else "-") +:+ (if sg_executable s then "X" else "-").

Definition new_line : string := String (ascii_of_nat 10) EmptyString.
Definition text_line (s : string) : string := s +:+ new_line.
Definition inspect_segment (s : ElfLoadSegment) : string :=
  text_line ("  vaddr=" +:+ hex32 (sg_virtual_address s) +:+ " paddr=" +:+ hex32 (sg_physical_address s)
    +:+ " mem=" +:+ pretty (sg_memory_size s) +:+ " file=" +:+ pretty (sg_file_size s)
    +:+ " offset=" +:+ hex32 (sg_file_offset s) +:+ " " +:+ permissions s).
Definition inspect_tag (label : string) (value : option string) : string :=
  match value with Some v => text_line (label +:+ v) | None => EmptyString end.

Definition inspect (image : ElfImage) (path : string) : string :=
  let a := im_attributes image in
  text_line ("ELF: " +:+ path) +:+ text_line "class: ELF32" +:+ text_line "endian: little" +:+ text_line "machine: ARM"
  +:+ text_line ("entry: " +:+ hex32 (im_entry_point image))
  +:+ text_line ("abi: EABI" +:+ pretty ((im_flags image .>> 24) .& 0xff)
        +:+ (if hardFloatAbi image then " hard-float" else " soft-float-or-unspecified"))
  +:+ text_line "load segments:"
  +:+ foldr (fun s text => inspect_segment s +:+ text) EmptyString (im_segments image)
  +:+ text_line ("vector table: " +:+ hex32 (im_vector_base image))
  +:+ text_line ("initial MSP: " +:+ hex32 (im_initial_msp image))
  +:+ text_line ("reset handler: " +:+ hex32 (im_reset_handler image))
  +:+ text_line ("symbols: " +:+ pretty (length (im_symbols image)))
  +:+ inspect_tag "ARM CPU name: " (at_cpu_name a)
  +:+ inspect_tag "ARM CPU arch tag: " (pretty <$> at_cpu_arch a)
  +:+ inspect_tag "Thumb ISA tag: " (pretty <$> at_thumb_isa_use a)
  +:+ inspect_tag "FP arch tag: " (pretty <$> at_fp_arch a)
  +:+ inspect_tag "HardFP use tag: " (pretty <$> at_hard_fp_use a)
  +:+ inspect_tag "VFP args tag: " (pretty <$> at_vfp_args a)
  +:+ inspect_tag "Unaligned access tag: " (pretty <$> at_unaligned_access a).
End Elf.
