(* ===== verification/ElfProofs.v ===== *)
(** * Safety of the ELF loader

    [safely m Q]: the checked program [m] reads inside its buffers and ends within its fuel, and a
    value it returns satisfies [Q].  The lemmas give this for each parser of [Elf], up to [load]:
    an accepted image is well formed ([image_ok]). *)

From stdpp Require Import pretty sorting.
From S2P Require Import Prelude Common Trace Elf.
#[local] Open Scope Z_scope.
#[local] Open Scope fil_scope.
Import Elf.

Definition safely {A} (m : Checked A) (Q : A -> Prop) : Prop :=
  match m with
  | Some (inl a) => Q a
  | Some (inr _) => True
  | None => False
  end.

Lemma safely_ret {A} (a : A) (Q : A -> Prop) : Q a -> safely (mret a : Checked A) Q.
Proof. done. Qed.
Lemma safely_reject {A} e (Q : A -> Prop) : safely (reject e) Q.
Proof. done. Qed.
Lemma safely_unchecked {A} (o : option A) (Q : A -> Prop) a : o = Some a -> Q a -> safely (unchecked o) Q.
Proof. by intros ->. Qed.
Lemma safely_bind {A B} (m : Checked A) (f : A -> Checked B) P Q :
  safely m P -> (∀ a, P a -> safely (f a) Q) -> safely (m ≫= f) Q.
Proof. intros Hm Hf. destruct m as [[a|e]|]; cbn in *; auto. Qed.
Lemma safely_mono {A} (m : Checked A) (P Q : A -> Prop) : safely m P -> (∀ a, P a -> Q a) -> safely m Q.
Proof. destruct m as [[a|e]|]; cbn; auto. Qed.
Lemma safely_collect {A B} (f : A -> Checked B) (P : A -> Prop) (Q : B -> Prop) l :
  (∀ x, P x -> safely (f x) Q) -> Forall P l -> safely (collect f l) (fun r => Forall Q r ∧ length r = length l).
Proof.
  intros Hf Hl. induction Hl as [|x l Hx Hl IH]; [by split|].
  cbn [collect]. eapply safely_bind; [by apply Hf | intros y Hy].
  eapply safely_bind; [apply IH | intros r [Hr Hn]]. split; [by constructor | cbn; lia].
Qed.
Lemma safely_check_all {A} (f : A -> Checked unit) (Q : A -> Prop) l :
  (∀ x, x ∈ l -> safely (f x) (fun _ => Q x)) -> safely (check_all f l) (fun _ => ∀ x, x ∈ l -> Q x).
Proof.
  induction l as [|x l IH]; intros Hf; cbn [check_all]; [by intros ? ?%elem_of_nil|].
  eapply safely_bind; [apply Hf; constructor | intros [] Hx].
  eapply safely_mono; [apply IH; intros; apply Hf; by constructor | intros [] Hl y].
  intros [->|Hy]%elem_of_cons; [done | by apply Hl].
Qed.

(** The two shapes of a guard. *)
Lemma safely_guard {A} (c : bool) e (m : Checked A) Q : (c = false -> safely m Q) -> safely (if c then reject e else m) Q.
Proof. destruct c; [done | auto]. Qed.

(** ** Bytes *)

Lemma rangeFits_iff o s t : 0 <= t -> rangeFits o s t = true <-> 0 <= o ∧ 0 <= s ∧ o + s <= t.
Proof. intros. unfold rangeFits. rewrite !andb_true_iff, !Z.leb_le. lia. Qed.
Lemma byte_at_is_some file o : 0 <= o < Z.of_nat (length file) -> is_Some (byte_at file o).
Proof. intros H. unfold byte_at. destruct (Z.leb_spec 0 o); [|lia]. apply lookup_lt_is_Some. lia. Qed.
Lemma byte_at_u8 file o b : Forall is_u8 file -> byte_at file o = Some b -> is_u8 b.
Proof. unfold byte_at. destruct (0 <=? o); [|done]. intros Hf Hb. by eapply Forall_lookup_1. Qed.

Lemma rawU32_bytes file o v : rawU32 file o = Some v ->
  ∃ b0 b1 b2 b3, byte_at file o = Some b0 ∧ byte_at file (o + 1) = Some b1 ∧ byte_at file (o + 2) = Some b2
    ∧ byte_at file (o + 3) = Some b3 ∧ v = b0 .| (b1 .<< 8) .| (b2 .<< 16) .| (b3 .<< 24).
Proof.
  unfold rawU32. intros H.
  destruct (byte_at file o) as [b0|]; [cbn in H | done]. destruct (byte_at file (o + 1)) as [b1|]; [cbn in H | done].
  destruct (byte_at file (o + 2)) as [b2|]; [cbn in H | done]. destruct (byte_at file (o + 3)) as [b3|]; [cbn in H | done].
  simplify_eq. by exists b0, b1, b2, b3.
Qed.
Lemma rawU32_is_some file o : 0 <= o -> o + 4 <= Z.of_nat (length file) -> is_Some (rawU32 file o).
Proof.
  intros Ho Hl. unfold rawU32.
  destruct (byte_at_is_some file o) as [? ->]; [lia|]. destruct (byte_at_is_some file (o + 1)) as [? ->]; [lia|].
  destruct (byte_at_is_some file (o + 2)) as [? ->]; [lia|]. destruct (byte_at_is_some file (o + 3)) as [? ->]; [lia|].
  cbn. eauto.
Qed.
Lemma shiftl_lor_bound x y s n : 0 <= s <= n -> 0 <= x < 2 ^ n -> 0 <= y < 2 ^ (n - s) -> 0 <= x .| (y .<< s) < 2 ^ n.
Proof.
  intros Hs Hx Hy. assert (0 <= y .<< s < 2 ^ n).
  { rewrite Z.shiftl_mul_pow2 by lia. replace (2 ^ n) with (2 ^ (n - s) * 2 ^ s) by (rewrite <- Z.pow_add_r by lia; f_equal; lia).
    assert (0 < 2 ^ s) by (apply Z.pow_pos_nonneg; lia). nia. }
  apply lor_below; lia.
Qed.
Lemma rawU32_u32 file o v : Forall is_u8 file -> rawU32 file o = Some v -> is_u32 v.
Proof.
  intros Hf (b0 & b1 & b2 & b3 & H0 & H1 & H2 & H3 & ->)%rawU32_bytes.
  apply byte_at_u8 in H0, H1, H2, H3; try done. unfold is_u8 in *. unfold is_u32.
  change 0x100000000 with (2 ^ 32). repeat apply shiftl_lor_bound; cbn; lia.
Qed.

(** ** Primitive reads *)

Section parsers.
Context (file : list Z) (path : string).
Hypothesis file_u8 : Forall is_u8 file.
Abbreviation total := (Z.of_nat (length file)).

Lemma read_u8_safe o : 0 <= o -> safely (read_u8 file path o) is_u8.
Proof.
  intros Ho. apply safely_guard. intros Hr%negb_false_iff. apply rangeFits_iff in Hr; [|lia].
  destruct (byte_at_is_some file o) as [b Hb]; [lia|]. rewrite Hb. by eapply byte_at_u8.
Qed.
Lemma read_u16_safe o : 0 <= o -> safely (read_u16 file path o) is_u16.
Proof.
  intros Ho. apply safely_guard. intros Hr%negb_false_iff. apply rangeFits_iff in Hr; [|lia].
  destruct (byte_at_is_some file o) as [b Hb]; [lia|]. destruct (byte_at_is_some file (o + 1)) as [b' Hb']; [lia|].
  rewrite Hb, Hb'. cbn. apply byte_at_u8 in Hb, Hb'; try done. unfold is_u8, is_u16 in *.
  change 0x10000 with (2 ^ 16). apply shiftl_lor_bound; cbn; lia.
Qed.
Lemma read_u32_safe o : 0 <= o ->
  safely (read_u32 file path o) (fun v => is_u32 v ∧ rawU32 file o = Some v ∧ o + 4 <= total).
Proof.
  intros Ho. apply safely_guard. intros Hr%negb_false_iff. apply rangeFits_iff in Hr; [|lia].
  destruct (rawU32_is_some file o) as [v Hv]; [lia..|]. rewrite Hv. cbn. split; [by eapply rawU32_u32 | by split; [|lia]].
Qed.
Lemma slice_length {A} (l : list A) o s : 0 <= o -> 0 <= s -> o + s <= Z.of_nat (length l) ->
  Z.of_nat (length (slice l o s)) = s.
Proof. intros. unfold slice. rewrite length_take, length_drop. lia. Qed.
Lemma slice_u8 o s : Forall is_u8 (slice file o s).
Proof. by apply Forall_take, Forall_drop. Qed.
Lemma read_bytes_safe o s :
  safely (read_bytes file path o s) (fun bytes => Forall is_u8 bytes ∧ bytes = slice file o s ∧ Z.of_nat (length bytes) = s).
Proof.
  apply safely_guard. intros Hr%negb_false_iff. apply rangeFits_iff in Hr; [|lia].
  split; [apply slice_u8 | split; [done | apply slice_length; lia]].
Qed.
Lemma stringAt_safe table o d : safely (stringAt path table o d) (fun _ => True).
Proof. apply safely_guard. intros _. by destruct (c_string _). Qed.

(** ** Sections and symbols *)

Definition section_ok (s : ElfSection) : Prop :=
  0 <= se_offset s ∧ 0 <= se_size s ∧ se_offset s + se_size s <= total ∧ 0 <= se_link s ∧ 0 <= se_entry_size s.

Ltac read_word := eapply safely_bind; [apply read_u32_safe; lia | intros ? (? & ? & ?)].

Lemma parse_section_safe t e i : 0 <= t -> 0 <= e -> 0 <= i -> safely (parse_section file path t e i) section_ok.
Proof.
  intros Ht He Hi. assert (0 <= t + i * e) by nia. unfold parse_section.
  do 6 read_word.
  apply safely_guard. intros Hr%negb_false_iff. apply rangeFits_iff in Hr; [|lia].
  unfold is_u32 in *. repeat split; cbn; lia.
Qed.
Lemma parseSections_safe t e n k : 0 <= t -> 0 <= e -> 0 <= n -> 0 <= k ->
  safely (parseSections file path t e n k) (Forall section_ok).
Proof.
  intros Ht He Hn Hk. unfold parseSections. destruct (n =? 0); [by apply Forall_nil_2|].
  do 2 (apply safely_guard; intros _). apply safely_guard. intros Hk'%Z.leb_gt.
  eapply safely_bind.
  { apply (safely_collect _ (fun i => 0 <= i) section_ok); [intros; by apply parse_section_safe|].
    apply Forall_forall. intros i Hi%elem_of_seqZ. lia. }
  intros sections [Hs Hl]. rewrite length_seqZ in Hl.
  destruct (lookup_lt_is_Some_2 sections (Z.to_nat k)) as [names Hnames]; [lia|].
  eapply safely_bind; [by eapply (safely_unchecked _ (fun s => s = names)) | intros ? ->].
  eapply safely_bind; [apply read_bytes_safe | intros table _].
  eapply safely_mono; [apply (safely_collect _ section_ok section_ok); [|done] | by intros ? [? _]].
  intros s Hok. eapply safely_bind; [apply stringAt_safe | intros name _]. exact Hok.
Qed.

Lemma parse_symbol_safe table s i : 0 <= se_offset s -> 0 <= se_entry_size s -> 0 <= i ->
  safely (parse_symbol file path table s i) (fun _ => True).
Proof.
  intros Ho He Hi. assert (0 <= se_offset s + i * se_entry_size s) by nia. unfold parse_symbol.
  do 3 read_word. eapply safely_bind; [apply read_u8_safe; lia | intros info _].
  destruct (_ =? 0); [done|]. eapply safely_bind; [apply stringAt_safe | intros name _].
  destruct (bool_decide _); [done|]. by destruct (is_mapping_symbol name).
Qed.
Lemma parse_symbol_table_safe sections s : Forall section_ok sections -> section_ok s ->
  safely (parse_symbol_table file path sections s) (fun _ => True).
Proof.
  intros Hall Hs. unfold parse_symbol_table. destruct (_ && _); [done|].
  apply safely_guard. intros _. apply safely_guard. intros Hl%Z.leb_gt.
  destruct Hs as (Ho & Hsz & _ & Hlk & He).
  destruct (lookup_lt_is_Some_2 sections (Z.to_nat (se_link s))) as [strings Hstrings]; [lia|].
  eapply safely_bind; [by eapply (safely_unchecked _ (fun s => s = strings)) | intros ? ->].
  eapply safely_bind; [apply read_bytes_safe | intros table _].
  eapply safely_bind; [apply (safely_collect _ (fun i => 0 <= i) (fun _ => True)) | by intros];
    [intros; by apply parse_symbol_safe|].
  apply Forall_forall. intros i Hi%elem_of_seqZ. lia.
Qed.
End parsers.

(** ** The orders of the two sorts *)

(** Lexicographic order with an integer key first. *)
Lemma strict_weak_lex {A} (key : A -> Z) (rest : A -> A -> bool) :
  strict_weak rest -> strict_weak (fun x y => if negb (key x =? key y) then key x <? key y else rest x y).
Proof.
  intros [Hi Ht Ha]. split.
  - intros x. rewrite Z.eqb_refl. apply Hi.
  - intros x y z. destruct (Z.eqb_spec (key x) (key y)), (Z.eqb_spec (key y) (key z)), (Z.eqb_spec (key x) (key z));
      cbn; rewrite ?Z.ltb_ge; try lia; eauto.
  - intros x y. rewrite (Z.eqb_sym (key y)). destruct (key x =? key y); cbn; [apply Ha | lia].
Qed.
Lemma strict_weak_pull {A B} (f : A -> B) (less : B -> B -> bool) : strict_weak less -> strict_weak (fun x y => less (f x) (f y)).
Proof. intros [Hi Ht Ha]. split; eauto. Qed.

Lemma string_compare_cons c d s t : String.compare (String c s) (String d t) =
  match (Ascii.N_of_ascii c ?= Ascii.N_of_ascii d)%N with Eq => String.compare s t | r => r end.
Proof. done. Qed.
Lemma string_less_weak : strict_weak String.ltb.
Proof.
  unfold String.ltb. split.
  - intros s. induction s as [|c s IH]; [done|]. by rewrite string_compare_cons, N.compare_refl.
  - intros s. induction s as [|c s IH]; intros [|d t] [|e u]; try done.
    rewrite !string_compare_cons.
    destruct (N.compare_spec (Ascii.N_of_ascii c) (Ascii.N_of_ascii d)), (N.compare_spec (Ascii.N_of_ascii d) (Ascii.N_of_ascii e)),
      (N.compare_spec (Ascii.N_of_ascii c) (Ascii.N_of_ascii e)); try done; try lia. apply IH.
  - intros s t. rewrite (String.compare_antisym t s). by destruct (String.compare s t).
Qed.

Definition flag_key (s : ElfSymbol) : Z := if sy_function s then 0 else 1.
Lemma symbol_less_lex left right : symbol_less left right =
  (if negb (sy_address left =? sy_address right) then sy_address left <? sy_address right
   else if negb (flag_key left =? flag_key right) then flag_key left <? flag_key right
   else String.ltb (sy_name left) (sy_name right)).
Proof. unfold symbol_less, flag_key. by destruct (sy_function left), (sy_function right). Qed.
Lemma strict_weak_ext {A} (f g : A -> A -> bool) : (∀ x y, f x y = g x y) -> strict_weak g -> strict_weak f.
Proof. intros E [Hi Ht Ha]. split; intros *; rewrite !E; eauto. Qed.
Lemma symbol_less_weak : strict_weak symbol_less.
Proof.
  eapply strict_weak_ext; [apply symbol_less_lex|].
  apply (strict_weak_lex sy_address), (strict_weak_lex flag_key), (strict_weak_pull sy_name), string_less_weak.
Qed.
Lemma segment_less_weak : strict_weak segment_less.
Proof.
  apply (strict_weak_lex sg_physical_address). split; intros *; rewrite ?Z.ltb_lt, ?Z.ltb_ge, ?Z.ltb_irrefl; lia.
Qed.

(** ** Attributes *)

Section attributes.
Context (bytes : list Z).
Abbreviation total := (Z.of_nat (length bytes)).

(** A read that ended: the new cursor stays below the limit, and moved when it succeeded. *)
Definition advanced (cursor limit c : Z) (ok : bool) : Prop := cursor <= c <= Z.max cursor limit ∧ (ok = true -> cursor < c).

Lemma uleb_loop_ends fuel cursor limit shift result :
  42 <= shift + 7 * Z.of_nat fuel -> shift < 42 -> 0 <= cursor -> limit <= total ->
  ∃ ok c v, uleb_loop bytes fuel cursor limit shift result = Some (ok, c, v) ∧ advanced cursor limit c ok.
Proof.
  unfold advanced. revert cursor shift result.
  induction fuel as [|fuel IH]; intros cursor shift result Hf Hs Hc Hl; [lia | cbn [uleb_loop]].
  destruct (Z.ltb_spec cursor limit); cbn [andb]; [|eexists _, _, _; split; [done|]; split; [lia | done]].
  destruct (Z.ltb_spec shift 35); [|eexists _, _, _; split; [done|]; split; [lia | done]].
  destruct (byte_at_is_some bytes cursor) as [b ->]; [lia|]. cbn -[Z.land Z.lor Z.shiftl].
  destruct (b .& 0x80 =? 0); [eexists _, _, _; split; [done|]; split; lia|].
  destruct (IH (cursor + 1) (shift + 7) (result .| u32 ((b .& 0x7f) .<< shift))) as (ok & c & v & -> & Hr & Ho); [lia..|].
  exists ok, c, v. split; [done|]. split; lia.
Qed.
Lemma readUleb_ends cursor limit : 0 <= cursor -> limit <= total ->
  ∃ ok c v, readUleb bytes cursor limit = Some (ok, c, v) ∧ advanced cursor limit c ok.
Proof. intros. apply uleb_loop_ends; lia. Qed.

Lemma skip_loop_ends fuel cursor limit : limit - cursor < Z.of_nat fuel -> 0 <= cursor -> limit <= total -> fuel <> O ->
  ∃ ok c, skip_loop bytes fuel cursor limit = Some (ok, c) ∧ advanced cursor limit c ok.
Proof.
  unfold advanced. revert cursor. induction fuel as [|fuel IH]; intros cursor Hf Hc Hl Hne; [done | cbn [skip_loop]].
  destruct (Z.ltb_spec cursor limit); [|eexists _, _; split; [done|]; split; [lia | done]].
  destruct (byte_at_is_some bytes cursor) as [b ->]; [lia|]. cbn.
  destruct (b =? 0); [eexists _, _; split; [done|]; split; lia|].
  destruct (IH (cursor + 1)) as (ok & c & -> & Hr & Ho); [lia..|]. exists ok, c. split; [done|]. split; lia.
Qed.
Lemma skipCString_ends cursor limit : 0 <= cursor -> limit <= total ->
  ∃ ok c, skipCString bytes cursor limit = Some (ok, c) ∧ advanced cursor limit c ok.
Proof. intros. apply skip_loop_ends; unfold enough; lia. Qed.

(** A loop that ended: it either returned, or its cursor is the limit. *)
Definition loop_ends (m : Loop) (cursor limit : Z) : Prop :=
  ∃ a next, m = Some (a, next) ∧ ∀ c, next = Some c -> c = Z.max cursor limit.
Lemma loop_returns a cursor limit : loop_ends (return_with a) cursor limit.
Proof. by exists a, None. Qed.
Lemma loop_finishes a cursor limit : limit <= cursor -> loop_ends (Some (a, Some cursor)) cursor limit.
Proof. intros. exists a, (Some cursor). split; [done | intros c [= <-]; lia]. Qed.
Lemma loop_continues m c cursor limit : c <= limit -> cursor <= limit -> loop_ends m c limit -> loop_ends m cursor limit.
Proof. intros ? ? (a & next & -> & Hn). exists a, next. split; [done|]. intros c' Hc'. rewrite (Hn _ Hc'). lia. Qed.

(** One read of a loop body, whose failure returns. *)
Lemma take_uleb (k : Z -> Z -> Loop) a cursor limit start stop : 0 <= cursor < limit \/ cursor = limit ->
  0 <= cursor -> limit <= total ->
  (∀ c v, cursor < c <= limit -> loop_ends (k c v) start stop) ->
  loop_ends ('(ok, c, v) ← readUleb bytes cursor limit; if negb ok then return_with a else k c v) start stop.
Proof.
  intros Hle Hc Hl Hk. destruct (readUleb_ends cursor limit) as (ok & c & v & -> & R & R'); [lia..|].
  destruct ok; [apply Hk; specialize (R' eq_refl); lia | apply loop_returns].
Qed.
Lemma take_string (k : Z -> Loop) a cursor limit start stop : cursor <= limit -> 0 <= cursor -> limit <= total ->
  (∀ c, cursor < c <= limit -> loop_ends (k c) start stop) ->
  loop_ends ('(ok, c) ← skipCString bytes cursor limit; if negb ok then return_with a else k c) start stop.
Proof.
  intros Hle Hc Hl Hk. destruct (skipCString_ends cursor limit) as (ok & c & -> & R & R'); [lia..|].
  destruct ok; [apply Hk; specialize (R' eq_refl); lia | apply loop_returns].
Qed.

Lemma parse_tags_ends fuel cursor limit a : limit - cursor < Z.of_nat fuel -> 0 <= cursor -> limit <= total -> fuel <> O ->
  loop_ends (parse_tags bytes fuel cursor limit a) cursor limit.
Proof.
  revert cursor a. induction fuel as [|fuel IH]; intros cursor a Hf Hc Hl Hne; [done | cbn [parse_tags]].
  destruct (Z.ltb_spec cursor limit); [|by apply loop_finishes].
  apply take_uleb; [lia..|]. intros c tag Hr. destruct (isStringAttribute tag); [|destruct (tag =? 32)].
  - apply take_string; [lia..|]. intros d Hd. apply (loop_continues _ d); [lia..|]. apply IH; lia.
  - apply (take_uleb (fun c _ => _)); [lia..|]. intros d _ Hd.
    apply take_string; [lia..|]. intros e He. apply (loop_continues _ e); [lia..|]. apply IH; lia.
  - apply take_uleb; [lia..|]. intros d v Hd. apply (loop_continues _ d); [lia..|]. apply IH; lia.
Qed.
Lemma parse_subsections_ends fuel cursor limit a : limit - cursor < Z.of_nat fuel -> 0 <= cursor -> limit <= total ->
  fuel <> O -> loop_ends (parse_subsections bytes fuel cursor limit a) cursor limit.
Proof.
  revert cursor a. induction fuel as [|fuel IH]; intros cursor a Hf Hc Hl Hne; [done | cbn [parse_subsections]].
  destruct (Z.ltb_spec cursor limit); [|by apply loop_finishes].
  destruct (readUleb_ends cursor limit) as (ok & c & tag & -> & R & R'); [lia..|].
  destruct ok; [|apply loop_returns]. specialize (R' eq_refl). cbn [negb orb mbind option_bind].
  destruct (rangeFits c 4 limit) eqn:Hr; cbn [negb]; [|apply loop_returns]. apply rangeFits_iff in Hr; [|lia].
  destruct (rawU32_is_some bytes c) as [size ->]; [lia..|]. cbn [mbind option_bind].
  destruct (_ || _) eqn:Hs; [apply loop_returns|]. apply orb_false_iff in Hs as [Hs%Z.ltb_ge Hfit%negb_false_iff].
  apply rangeFits_iff in Hfit; [|lia].
  destruct (negb (tag =? 1)); [apply (loop_continues _ (cursor + size)); [lia..|]; apply IH; lia|].
  destruct (parse_tags_ends (enough bytes) (c + 4) (cursor + size) a) as (a' & next & -> & Hn); [unfold enough; lia..|].
  cbn [mbind option_bind]. destruct next as [d|]; [|apply loop_returns].
  rewrite (Hn d eq_refl). apply (loop_continues _ (Z.max (c + 4) (cursor + size))); [lia..|]. apply IH; lia.
Qed.
Lemma parse_vendors_ends fuel cursor a : total - cursor < Z.of_nat fuel -> 0 <= cursor -> fuel <> O ->
  is_Some (parse_vendors bytes fuel cursor a).
Proof.
  revert cursor a. induction fuel as [|fuel IH]; intros cursor a Hf Hc Hne; [done | cbn [parse_vendors]].
  destruct (rangeFits cursor 4 total) eqn:Hr; [|done]. apply rangeFits_iff in Hr; [|lia].
  destruct (rawU32_is_some bytes cursor) as [size ->]; [lia..|]. cbn [mbind option_bind].
  destruct (_ || _) eqn:Hs; [done|]. apply orb_false_iff in Hs as [Hs%Z.ltb_ge Hfit%negb_false_iff].
  apply rangeFits_iff in Hfit; [|lia].
  destruct (skipCString_ends (cursor + 4) (cursor + size)) as (ok & c & -> & R & R'); [lia..|].
  destruct ok; [|done]. cbn [negb mbind option_bind]. specialize (R' eq_refl).
  destruct (bool_decide _); [apply IH; lia|].
  destruct (parse_subsections_ends (enough bytes) c (cursor + size) a) as (a' & next & -> & Hn); [unfold enough; lia..|].
  cbn [mbind option_bind]. destruct next; [apply IH; lia | done].
Qed.
Lemma parseArmAttributes_ends a : is_Some (parseArmAttributes bytes a).
Proof.
  unfold parseArmAttributes. destruct bytes as [|b rest] eqn:E; [done|]. rewrite <- E.
  destruct (negb _); [done|].
  destruct (parse_vendors_ends (enough bytes) 1 a) as [[a' n] ->]; [unfold enough; lia..|done].
Qed.
End attributes.

(** ** Load segments *)

Section segments.
Context (file : list Z) (path : string).
Hypothesis file_u8 : Forall is_u8 file.
Abbreviation total := (Z.of_nat (length file)).

Record segment_ok (s : ElfLoadSegment) : Prop := mk_segment_ok {
  sok_virtual : is_u32 (sg_virtual_address s);
  sok_physical : is_u32 (sg_physical_address s);
  sok_sizes : 0 <= sg_file_size s <= sg_memory_size s;
  sok_offset : 0 <= sg_file_offset s;
  sok_in_file : sg_file_offset s + sg_file_size s <= total;
  sok_load_range : segment_end s <= 0x100000000;
  sok_runtime_range : sg_virtual_address s + sg_memory_size s <= 0x100000000;
}.
(** A load address with a byte of the file behind it. *)
Definition covers (s : ElfLoadSegment) (address : Z) : Prop := sg_physical_address s <= address < segment_end s.
(** The byte a segment puts at a load address. *)
Definition image_byte (s : ElfLoadSegment) (address : Z) : option Z := byte_at file (offset_in s address).
Definition agree (s t : ElfLoadSegment) : Prop := ∀ address, covers s address -> covers t address -> image_byte s address = image_byte t address.
Definition segments_ok (l : list ElfLoadSegment) : Prop :=
  Forall segment_ok l ∧ ∀ s t, s ∈ l -> t ∈ l -> agree s t.

Lemma addressRangeFits_spec a n : is_u32 a -> 0 <= n -> addressRangeFits a n = true -> a + n <= 0x100000000.
Proof.
  unfold addressRangeFits. intros Ha Hn [E%Z.eqb_eq|E%Z.leb_le]%orb_true_iff; unfold is_u32 in *; lia.
Qed.
Lemma image_byte_some s address : segment_ok s -> covers s address -> is_Some (image_byte s address).
Proof.
  intros [] Hc. unfold covers, segment_end in *. apply byte_at_is_some. unfold offset_in. lia.
Qed.
Lemma validate_agrees s l : segment_ok s -> Forall segment_ok l ->
  safely (validateFileBackedOverlap s l file path) (fun _ => ∀ t, t ∈ l -> agree s t).
Proof.
  intros Hs Hl. eapply safely_mono; [apply (safely_check_all _ (fun '(_, t) => agree s t))|].
  - intros [i t] Hit. apply elem_of_zip_r in Hit as Ht. rewrite Forall_forall in Hl. specialize (Hl t Ht). cbv zeta.
    destruct (Z.leb_spec (Z.min (segment_end s) (segment_end t)) (Z.max (sg_physical_address s) (sg_physical_address t))).
    { apply safely_ret. intros address Hc Hd. unfold covers in *. lia. }
    eapply safely_mono; [apply (safely_check_all _ (fun address => image_byte s address = image_byte t address))|].
    + intros address Ha%elem_of_seqZ. unfold check_byte, image_byte.
      destruct (image_byte_some s address Hs) as [b Hb]; [unfold covers; lia|].
      destruct (image_byte_some t address Hl) as [c Hd]; [unfold covers; lia|].
      unfold image_byte in Hb, Hd. rewrite Hb, Hd. cbn. destruct (Z.eqb_spec b c); [by subst | done].
    + intros [] Hall address Hc Hd. apply Hall, elem_of_seqZ. unfold covers in *. lia.
  - intros [] Hall t Ht. apply list_elem_of_lookup in Ht as [i Hi]. apply (Hall (i, t)).
    apply list_elem_of_lookup. exists i. apply lookup_zip_Some. split; [|done].
    apply lookup_seq. split; [lia | by eapply lookup_lt_Some].
Qed.
Lemma agree_refl s : agree s s.
Proof. by intros ?. Qed.
Lemma agree_sym s t : agree s t -> agree t s.
Proof. intros H a Hs Ht. symmetry. by apply H. Qed.
Lemma segments_ok_snoc s l : segment_ok s -> segments_ok l -> (∀ t, t ∈ l -> agree s t) -> segments_ok (l ++ [s]).
Proof.
  intros Hs [Hl Ha] Hn. split; [by apply Forall_app_2; [|apply Forall_singleton]|].
  intros t u [Ht| ->%list_elem_of_singleton]%elem_of_app [Hu| ->%list_elem_of_singleton]%elem_of_app;
    auto using agree_refl, agree_sym.
Qed.

Ltac read_word := eapply safely_bind; [apply read_u32_safe; [assumption | lia] | intros ? (? & _ & _)].

Lemma parse_program_header_safe o e l i : 0 <= o -> 0 <= e -> 0 <= i -> segments_ok l ->
  safely (parse_program_header file path o e l i) segments_ok.
Proof.
  intros Ho He Hi Hl. assert (0 <= o + i * e) by nia. unfold parse_program_header.
  read_word. destruct (negb _); [by apply safely_ret|]. do 6 read_word.
  apply safely_guard. intros Hsize%Z.ltb_ge. apply safely_guard. intros Hfit%negb_false_iff.
  apply rangeFits_iff in Hfit; [|lia].
  apply safely_guard. intros [Hp%negb_false_iff Hv%negb_false_iff]%orb_false_iff.
  apply addressRangeFits_spec in Hp, Hv; try (assumption || lia).
  match goal with |- context [mkSegment ?a ?b ?c ?d ?e ?f ?g ?h] => set (segment := mkSegment a b c d e f g h) end.
  assert (segment_ok segment) as Hok by (split; cbn; try (assumption || lia); unfold segment_end; cbn; lia).
  eapply safely_bind; [apply validate_agrees; [done | apply Hl] | intros [] Hn].
  apply safely_ret. by apply segments_ok_snoc.
Qed.
Lemma parse_program_headers_safe o e l indices : 0 <= o -> 0 <= e -> Forall (fun i => 0 <= i) indices -> segments_ok l ->
  safely (parse_program_headers file path o e l indices) segments_ok.
Proof.
  intros Ho He Hi. revert l. induction Hi as [|i indices Hi Hrest IH]; intros l Hl; [done|].
  cbn [parse_program_headers]. eapply safely_bind; [by apply parse_program_header_safe | intros l' Hl']. by apply IH.
Qed.

(** ** Reading through the segments *)

Lemma segments_ok_permutation l l' : l ≡ₚ l' -> segments_ok l -> segments_ok l'.
Proof. intros Hp [Hl Ha]. split; [by rewrite <- Hp|]. intros s t. rewrite <- Hp. apply Ha. Qed.
Lemma serves_spec s a n : serves s a n = true <-> sg_physical_address s <= a ∧ a + n <= segment_end s.
Proof. unfold serves. rewrite negb_true_iff, orb_false_iff, !Z.ltb_ge. lia. Qed.
Lemma slice_lookup {A} (l : list A) o n k : 0 <= o -> 0 <= k < n -> slice l o n !! Z.to_nat k = l !! Z.to_nat (o + k).
Proof. intros. unfold slice. rewrite lookup_take_lt by lia. rewrite lookup_drop. f_equal. lia. Qed.
Lemma slice_image_byte s a n k : segment_ok s -> serves s a n = true -> 0 <= k < n ->
  byte_at (slice file (offset_in s a) n) k = image_byte s (a + k).
Proof.
  intros [] Hs%serves_spec Hk. unfold image_byte, byte_at, offset_in in *.
  destruct (Z.leb_spec 0 k); [|lia]. destruct (Z.leb_spec 0 (sg_file_offset s + (a + k - sg_physical_address s))); [|lia].
  rewrite slice_lookup by lia. do 2 f_equal. lia.
Qed.
Lemma serves_covers s a n k : serves s a n = true -> 0 <= k < n -> covers s (a + k).
Proof. intros Hs%serves_spec Hk. unfold covers. lia. Qed.

(** A read succeeds exactly when one segment holds the whole range, and whichever segment that is. *)
Lemma read_segments_some l a n bytes : read_segments file l a n = inl bytes ->
  addressRangeFits a n = true ∧ ∃ s, s ∈ l ∧ serves s a n = true ∧ bytes = slice file (offset_in s a) n.
Proof.
  unfold read_segments. destruct (addressRangeFits a n); cbn [negb]; [|done].
  destruct (List.find _ l) as [s|] eqn:E; [|done]. intros [= <-]. apply find_some in E as [Hs%list_elem_of_In Hv].
  split; [done|]. by exists s.
Qed.
Lemma byte_at_ext (l m : list Z) n : Z.of_nat (length l) = n -> Z.of_nat (length m) = n ->
  (∀ k, 0 <= k < n -> byte_at l k = byte_at m k) -> l = m.
Proof.
  intros Hl Hm Hk. apply list_eq. intros i. destruct (decide (Z.of_nat i < n)).
  - specialize (Hk (Z.of_nat i) ltac:(lia)). unfold byte_at in Hk.
    destruct (Z.leb_spec 0 (Z.of_nat i)); [|lia]. by rewrite Nat2Z.id in Hk.
  - rewrite !lookup_ge_None_2 by lia. done.
Qed.
Lemma slice_segment_length s a n : segment_ok s -> 0 <= n -> serves s a n = true ->
  Z.of_nat (length (slice file (offset_in s a) n)) = n.
Proof. intros [] Hn Hs%serves_spec. unfold offset_in, segment_end in *. apply slice_length; lia. Qed.
Lemma read_segments_any l a n s : segments_ok l -> 0 <= n -> is_u32 a -> s ∈ l -> serves s a n = true ->
  read_segments file l a n = inl (slice file (offset_in s a) n).
Proof.
  intros [Hl Ha] Hn Hu Hs Hv. rewrite Forall_forall in Hl. pose proof (Hl s Hs) as Hok.
  assert (addressRangeFits a n = true) as Hfit.
  { unfold addressRangeFits. apply orb_true_iff. rewrite Z.eqb_eq, Z.leb_le.
    apply serves_spec in Hv. destruct Hok. lia. }
  unfold read_segments. rewrite Hfit. cbn [negb].
  destruct (List.find _ l) as [t|] eqn:E.
  - apply find_some in E as [Ht%list_elem_of_In Htv]. f_equal. pose proof (Hl t Ht) as Htok.
    apply (byte_at_ext _ _ n); [by apply slice_segment_length.. |].
    intros k Hk. rewrite !slice_image_byte by done. apply (Ha t s); [done.. | |]; by eapply serves_covers.
  - exfalso. apply list_elem_of_In in Hs. pose proof (find_none _ _ E s Hs). congruence.
Qed.
End segments.

(** ** Loading *)

(** What a returned image satisfies. *)
Record image_ok (image : ElfImage) : Prop := mk_image_ok {
  iok_bytes : Forall is_u8 (im_file_bytes image);
  iok_segments : segments_ok (im_file_bytes image) (im_segments image);
  iok_sorted : StronglySorted (not_after segment_less) (im_segments image);
  iok_nonempty : im_segments image <> [];
  iok_vectors : ∃ vectors, readLoadImage image (im_vector_base image) 8 = inl vectors
    ∧ rawU32 vectors 0 = Some (im_initial_msp image) ∧ rawU32 vectors 4 = Some (im_reset_handler image);
  iok_symbols : StronglySorted (not_after symbol_less) (im_symbols image);
}.

Lemma check_identification_safe file path : 52 <= Z.of_nat (length file) -> safely (check_identification file path) (fun _ => True).
Proof.
  intros Hl. destruct file as [|b0 [|b1 [|b2 [|b3 [|b4 [|b5 [|b6 rest]]]]]]]; try (cbn in Hl; lia).
  cbn -[Z.eqb]. apply safely_guard. intros _. do 3 (apply safely_guard; intros _). done.
Qed.

(** The counts and offsets of a header are unsigned. *)
Definition header_ok (h : ElfHeader) : Prop :=
  0 <= eh_program_offset h ∧ 0 <= eh_section_offset h ∧ 0 <= eh_program_entry_size h ∧ 0 <= eh_section_entry_size h
  ∧ 0 <= eh_section_count h ∧ 0 <= eh_section_names h.
Lemma read_header_safe file path : Forall is_u8 file -> safely (read_header file path) header_ok.
Proof.
  intros Hf. unfold read_header.
  repeat (eapply safely_bind; [first [apply read_u16_safe; [done | lia] | apply read_u32_safe; [done | lia]] |]; intros ? ?).
  apply safely_ret. unfold header_ok, is_u16, is_u32 in *; cbn. lia.
Qed.
Lemma check_header_safe file path h : safely (check_header file path h) (fun _ => True).
Proof. unfold check_header. by do 6 (apply safely_guard; intros _). Qed.
Lemma parse_attributes_safe file path a sections : safely (parse_attributes file path a sections) (fun _ => True).
Proof.
  revert a. induction sections as [|s sections IH]; intros a; [done|]. cbn [parse_attributes].
  destruct (bool_decide _); [|apply IH].
  apply (safely_bind _ _ (fun _ => True)).
  { unfold read_bytes. by apply safely_guard. }
  intros bytes _. destruct (parseArmAttributes_ends bytes a) as [a' ->]. apply IH.
Qed.

(** [std::unique] keeps a sublist. *)
Lemma unique_from_sublist {A} (same : A -> A -> bool) x l : unique_from same x l `sublist_of` l.
Proof.
  revert x. induction l as [|y l IH]; intros x; cbn; [done|].
  destruct (same x y); [by apply sublist_cons | by apply sublist_skip].
Qed.
Lemma std_unique_sublist {A} (same : A -> A -> bool) l : std_unique same l `sublist_of` l.
Proof. destruct l as [|x l]; [done|]. apply sublist_skip, unique_from_sublist. Qed.
Lemma StronglySorted_sublist {A} (R : A -> A -> Prop) l l' : l' `sublist_of` l -> StronglySorted R l -> StronglySorted R l'.
Proof.
  induction 1 as [|x l1 l2 Hs IH|x l1 l2 Hs IH]; intros Hl; [done| |].
  - apply StronglySorted_inv in Hl as [Hl Hx]. constructor; [by apply IH|].
    rewrite Forall_forall in *. intros y Hy. by eapply Hx, elem_of_sublist.
  - apply StronglySorted_inv in Hl as [Hl _]. by apply IH.
Qed.

Section load.
Context `{StdSort}.

Lemma load_segments_safe file path h : Forall is_u8 file -> header_ok h ->
  safely (load_segments file path h)
    (fun l => segments_ok file l ∧ StronglySorted (not_after segment_less) l ∧ l <> []).
Proof.
  intros Hf (Ho & _ & He & _). unfold load_segments.
  eapply safely_bind; [apply parse_program_headers_safe; try done|].
  - apply Forall_forall. intros i Hi%elem_of_seqZ. lia.
  - split; [done|]. by intros s t ?%elem_of_nil.
  - intros l Hl. destruct l as [|s l]; [done|]. apply safely_ret.
    pose proof (std_sort_permutation segment_less (s :: l)) as Hp.
    split; [by eapply segments_ok_permutation | split; [apply std_sort_sorted, segment_less_weak|]].
    intros E. rewrite E in Hp. by apply Permutation_nil_cons in Hp.
Qed.
Lemma parseSymbols_safe file path sections : Forall is_u8 file -> Forall (section_ok file) sections ->
  safely (parseSymbols file path sections) (StronglySorted (not_after symbol_less)).
Proof.
  intros Hf Hs. unfold parseSymbols.
  eapply safely_bind; [apply (safely_collect _ (section_ok file) (fun _ => True)); [|done]|].
  { intros s Hok. by apply parse_symbol_table_safe. }
  intros l _. apply safely_ret. eapply StronglySorted_sublist; [apply std_unique_sublist|].
  apply std_sort_sorted, symbol_less_weak.
Qed.

Lemma load_safely path file vector_base : Forall is_u8 file ->
  safely (load path (inl file) vector_base) (fun image => image_ok image ∧ im_file_bytes image = file).
Proof.
  intros Hf. unfold load. apply safely_guard. intros Hl%Z.ltb_ge.
  eapply safely_bind; [by apply check_identification_safe | intros [] _].
  eapply safely_bind; [by apply read_header_safe | intros h Hh].
  eapply safely_bind; [apply check_header_safe | intros [] _].
  eapply safely_bind; [by apply load_segments_safe | intros l (Hok & Hsorted & Hne)].
  assert (is_Some (default_vector_base l)) as [chosen Hc].
  { unfold default_vector_base. destruct (List.find _ l); [done|]. destruct l; [done | cbn; eauto]. }
  rewrite Hc. eapply safely_bind; [by apply (safely_unchecked _ (fun _ => True) chosen) | intros c _].
  destruct (read_segments file l _ 8) as [vectors|] eqn:Hv; [|done].
  assert (Z.of_nat (length vectors) = 8) as Hlen.
  { apply read_segments_some in Hv as (_ & s & Hs & Hserve & ->).
    destruct Hok as [Hok _]. rewrite Forall_forall in Hok. apply slice_segment_length; [by apply Hok | lia | done]. }
  destruct (rawU32_is_some vectors 0) as [msp Hmsp]; [lia..|]. destruct (rawU32_is_some vectors 4) as [reset Hreset]; [lia..|].
  rewrite Hmsp, Hreset. cbn [unchecked mbind Checked_bind].
  destruct Hh as (_ & Hso & _ & Hse & Hsc & Hsn).
  eapply safely_bind; [by apply parseSections_safe | intros sections Hs].
  eapply safely_bind; [by apply parseSymbols_safe | intros symbols Hsym].
  eapply safely_bind; [apply parse_attributes_safe | intros a _].
  split; [|done]. split; cbn; try done. exists vectors. split; [exact Hv | done].
Qed.
End load.

(** ** Symbol lookup *)

Lemma symbol_sorted_address s t : not_after symbol_less s t -> sy_address s <= sy_address t.
Proof.
  unfold not_after, symbol_less. destruct (Z.eqb_spec (sy_address t) (sy_address s)) as [E|]; cbn [negb]; [lia|].
  by intros ?%Z.ltb_ge.
Qed.
Lemma symbols_before_spec a l : StronglySorted (not_after symbol_less) l ->
  let n := symbols_before a l in
  (n <= length l)%nat ∧ Forall (fun s => sy_address s <= a) (take n l) ∧ Forall (fun s => a < sy_address s) (drop n l).
Proof.
  cbv zeta. induction 1 as [|s l Hs IH Hf]; cbn [symbols_before]; [by split|].
  destruct (Z.ltb_spec a (sy_address s)); cbn [take drop].
  - split; [lia|]. split; [done|]. constructor; [done|]. eapply Forall_impl; [exact Hf|].
    intros t Ht%symbol_sorted_address. cbn. lia.
  - destruct IH as (Hn & Ht & Hd). cbn [length]. split; [lia|]. by split; [constructor|].
Qed.
Lemma sorted_last_max a n l s : StronglySorted (not_after symbol_less) l -> l !! n = Some s ->
  Forall (fun t => a < sy_address t) (drop (S n) l) -> ∀ t, t ∈ l -> sy_address t <= a -> sy_address t <= sy_address s.
Proof.
  revert n. induction l as [|q l IH]; intros n Hl Hn Hd t Ht Hta; [done|].
  apply StronglySorted_inv in Hl as [Hl Hq]. rewrite Forall_forall in Hq. destruct n as [|n]; cbn in Hn, Hd.
  - injection Hn as ->. apply elem_of_cons in Ht as [->|Ht]; [lia|]. rewrite drop_0, Forall_forall in Hd. specialize (Hd t Ht). cbn in Hd. lia.
  - apply elem_of_cons in Ht as [->|Ht]; [|by eapply IH]. apply symbol_sorted_address, Hq. by eapply list_elem_of_lookup_2.
Qed.
