(* ===== verification/McuMap.v ===== *)
(** * The reset memory map of one MCU

    Models [src/mem/mcu_map.cpp] with [MemoryBus::materialize] of [src/mem/memory_bus.cpp]: the
    standard STM32 address map, the ELF bytes put at their load addresses, and the checks on the
    reset vectors.  The two MMIO windows are devices of the map, named by their index. *)

From stdpp Require Import gmap sorting.
From S2P Require Import Prelude Address CpuState MemoryApi Common Trace MemoryBus MemoryBusProofs BusAccess.
From S2P Require Import BusJournal Elf ElfProofs.
#[local] Open Scope Z_scope.
#[local] Open Scope fil_scope.
Import Elf.

Module Mcu.

(** The part of [McuConfig] the map uses. *)
Record McuConfig := mkMcu {
  mcu_flash_base : Z;
  mcu_flash_size : Z;
  mcu_sram_base : Z;
  mcu_sram_size : Z;
  mcu_ccm_sram_base : Z;
  mcu_ccm_sram_size : Z;
}.
Record McuMmioWindows := mkWindows { win_peripherals : nat; win_system_control : nat }.

Definition configFailure (message : string) : Error := mkError ErrorCategory.config message None.
Definition mapError (message : string) : Error := mkError ErrorCategory.invalid_argument message None.

Section map.
Context `{MmioDevices D}.

(** ** Materializing the image *)

Fixpoint materialize_segments (image : ElfImage) (segments : list ElfLoadSegment) (b : Bus D) : Result unit * Bus D :=
  match segments with
  | [] => (inl tt, b)
  | s :: rest =>
      let mapped :=
        (sg_memory_size s =? 0)
        || match find_region (sg_virtual_address s) (bus_regions b) with
           | Some (_, runtime) => containsRange runtime (sg_virtual_address s) (sg_memory_size s)
           | None => false
           end in
      if negb mapped then (inr (mapError "ELF runtime segment is not contained in one mapped memory region"), b)
      else if sg_file_size s =? 0 then materialize_segments image rest b
      else
        match readLoadImage image (sg_physical_address s) (sg_file_size s) with
        | inr e => (inr e, b)
        | inl bytes =>
            match loadBytes (sg_physical_address s) bytes b with
            | (inr message, b) => (inr (mapError message), b)
            | (inl _, b) => materialize_segments image rest b
            end
        end
  end.
Definition materialize (image : ElfImage) (b : Bus D) : Result unit * Bus D :=
  materialize_segments image (im_segments image) b.

(** ** Reset vectors *)

Definition isWritableStackAddress (b : Bus D) (address : Z) : bool :=
  existsb (fun r => rg_writable r && negb (is_mmio r) && (rg_base r <=? address) && (address <=? region_end r))
    (bus_regions b).
Definition isExecutableAddress (b : Bus D) (address : Z) : bool :=
  existsb (fun r => rg_executable r && (rg_base r <=? address) && (address <? region_end r)) (bus_regions b).

Definition validateResetVectors (image : ElfImage) (b : Bus D) : Result unit :=
  if has (im_vector_base image) 0x7f then inr (configFailure "vector-table base must be 128-byte aligned")
  else if has (im_initial_msp image) 0x7 then inr (configFailure "initial MSP must be 8-byte aligned")
  else if negb (isWritableStackAddress b (im_initial_msp image)) then
    inr (configFailure "initial MSP does not lie in or immediately above writable memory")
  else if negb (has (im_reset_handler image) 1) then inr (configFailure "reset handler does not select Thumb state")
  else if negb (isExecutableAddress b (im_reset_handler image .& not32 1)) then
    inr (configFailure "reset handler does not resolve to executable memory")
  else inl tt.

(** ** The map *)

(** One [map...] call, whose error [buildMcuMemoryMap] returns. *)
Definition map_step (op : Bus D -> (unit + string) * Bus D) (b : Bus D) : Result (Bus D) :=
  match op b with
  | (inl _, b) => inl b
  | (inr message, _) => inr (mapError message)
  end.
Definition then_map (m : Result (Bus D)) (op : Bus D -> (unit + string) * Bus D) : Result (Bus D) :=
  match m with inl b => map_step op b | inr e => inr e end.

Definition map_regions (mcu : McuConfig) (windows : McuMmioWindows) (executable_sram : bool) (b : Bus D) : Result (Bus D) :=
  let m := then_map (inl b) (mapFlash (mcu_flash_base mcu) (mcu_flash_size mcu) "flash" true) in
  let m := then_map m (mapRam (mcu_ccm_sram_base mcu) (mcu_ccm_sram_size mcu) "ccm-sram" executable_sram) in
  let m := then_map m (mapRam (mcu_sram_base mcu) (mcu_sram_size mcu) "sram" executable_sram) in
  let m := then_map m (mapRom 0x1fff0000 0x00010000 "system-memory" false) in
  let m := then_map m (mapAlias 0x00000000 (mcu_flash_base mcu) (mcu_flash_size mcu) "boot-alias") in
  let m := then_map m (mapMmio 0x40000000 0x20000000 (win_peripherals windows) "stm32-peripherals") in
  then_map m (mapMmio 0xe0000000 0x00100000 (win_system_control windows) "cortexm-system").

Definition buildMcuMemoryMap (mcu : McuConfig) (image : ElfImage) (windows : McuMmioWindows) (executable_sram : bool)
    (devices : D) : Result (Bus D) :=
  match map_regions mcu windows executable_sram (empty_bus devices) with
  | inr e => inr e
  | inl memory =>
      match materialize image memory with
      | (inr e, _) => inr e
      | (inl _, memory) =>
          match validateResetVectors image memory with
          | inr e => inr e
          | inl _ => inl memory
          end
      end
  end.
End map.
End Mcu.

(** * What the reset map holds

    Reading the bytes of a map by address, through construction ([addRegion]) and through loading
    ([loadBytes], [materialize]): after a successful build every byte of the map is the file byte of
    a segment that covers it, or the fill of its region. *)

Import Elf Mcu.

Section bytes.
Context `{MmioDevices D}.
Implicit Types b : Bus D.

(** ** Bytes by region *)

Definition region_byte (r : Region) (a : Z) : option Z :=
  if is_backed r then Some (rget (rg_bytes r) (a - rg_base r)) else None.

Lemma backed_byte_in a b r : bus_ok b -> r ∈ bus_regions b -> region_contains r a = true -> backed_byte a b = region_byte r a.
Proof.
  intros Hb [i Hi]%list_elem_of_lookup Hc. unfold backed_byte.
  rewrite (find_region_complete _ i r a Hb Hi Hc), not_device_backed. unfold region_byte. by destruct (is_backed r).
Qed.
Lemma backed_byte_out a b : (∀ r, r ∈ bus_regions b -> region_contains r a = false) -> backed_byte a b = None.
Proof.
  intros Hn. unfold backed_byte. destruct (find_region a (bus_regions b)) as [[i r]|] eqn:E; [|done].
  apply find_region_Some in E as [Hi Hc]. rewrite Hn in Hc; [done|]. by eapply list_elem_of_lookup_2.
Qed.
Lemma region_at_address a b : {∃ r, r ∈ bus_regions b ∧ region_contains r a = true} + {∀ r, r ∈ bus_regions b -> region_contains r a = false}.
Proof.
  destruct (List.find (fun r => region_contains r a) (bus_regions b)) as [r|] eqn:E.
  - left. apply find_some in E as [Hr%list_elem_of_In Hc]. eauto.
  - right. intros r Hr%list_elem_of_In. by apply (find_none _ _ E).
Qed.

(** A successful [addRegion] adds the bytes of the region. *)
Lemma addRegion_byte r b b' u a : bus_ok b -> (validRange (rg_base r) (rg_size r) = true -> region_ok r) ->
  addRegion r b = (inl u, b') ->
  bus_ok b' ∧ bus_devices b' = bus_devices b ∧ bus_regions b' ≡ₚ r :: bus_regions b
  ∧ backed_byte a b' = (if region_contains r a then region_byte r a else backed_byte a b)
  ∧ (region_contains r a = true -> backed_byte a b = None).
Proof.
  intros Hb Hr E. assert (bus_devices b' = bus_devices b ∧ Forall (rg_disjoint r) (bus_regions b)) as [Hd Hdis].
  { unfold addRegion in E. destruct (negb _); [done|]. destruct (List.find _ _) eqn:Hf; [done|]. split; [by injection E as _ <-|].
    apply Forall_forall. intros q Hq%list_elem_of_In. by apply (find_none _ _ Hf). }
  apply addRegion_regions in E as [Hb' Hp]; [|done..]. split; [done|]. split; [done|]. split; [done|]. split.
  2:{ intros Hc. apply backed_byte_out. intros q Hq. rewrite Forall_forall in Hdis. specialize (Hdis q Hq).
      apply region_contains_spec in Hc. unfold rg_disjoint, rg_overlap in Hdis. apply Z.ltb_ge in Hdis.
      apply not_true_iff_false. rewrite region_contains_spec. lia. }
  destruct (region_contains r a) eqn:Hc.
  { apply backed_byte_in; [done| |done]. rewrite Hp. constructor. }
  destruct (region_at_address a b) as [(q & Hq & Hqc)|Hn].
  - rewrite (backed_byte_in a b q) by done. apply backed_byte_in; [done| |done]. rewrite Hp. by constructor.
  - rewrite (backed_byte_out a b) by done. apply backed_byte_out. intros q. rewrite Hp.
    intros [->|Hq]%elem_of_cons; [done | by apply Hn].
Qed.

(** ** Loading bytes *)

Lemma backed_byte_set_region a b i r r' : bus_ok b -> bus_regions b !! i = Some r -> shape r' = shape r -> region_ok r' ->
  bus_ok (set_region i r' b)
  ∧ backed_byte a (set_region i r' b) = (if region_contains r a then region_byte r' a else backed_byte a b).
Proof.
  intros Hb Hi Hs Hr'. assert (bus_ok (set_region i r' b)) as Hok by by apply (regions_ok_insert _ i r r').
  split; [done|]. destruct (region_contains r a) eqn:Hc.
  { apply backed_byte_in; [done | | by rewrite (shape_contains _ _ _ Hs)].
    apply list_elem_of_lookup. exists i. apply list_lookup_insert_eq. by eapply lookup_lt_Some. }
  destruct (region_at_address a b) as [(q & Hq & Hqc)|Hn].
  - rewrite (backed_byte_in a b q) by done. apply backed_byte_in; [done| |done].
    apply list_elem_of_lookup in Hq as [j Hj]. apply list_elem_of_lookup. exists j. cbn.
    rewrite list_lookup_insert_ne; [done|]. intros ->. congruence.
  - rewrite (backed_byte_out a b) by done. apply backed_byte_out. intros q [j Hj]%list_elem_of_lookup. cbn in Hj.
    apply list_lookup_insert_Some in Hj as [(-> & <- & _)|[_ Hj]]; [by rewrite (shape_contains _ _ _ Hs)|].
    apply Hn. by eapply list_elem_of_lookup_2.
Qed.

Lemma record_changes_regions (r : Region) address offset l b :
  let b' := foldl (fun b '(index, byte) =>
    let old := rget (rg_bytes r) (offset + index) in
    if old =? byte then b else bump_side_effect (recordMutation (u32 (address + index)) old true b)) b l in
  bus_regions b' = bus_regions b ∧ bus_devices b' = bus_devices b.
Proof.
  cbv zeta. revert b. induction l as [|[k byte] l IH]; intros b; [done|]. cbn [foldl].
  destruct (_ =? byte); [apply IH|]. destruct (IH (bump_side_effect (recordMutation (u32 (address + k))
    (rget (rg_bytes r) (offset + k)) true b))) as [-> ->].
  unfold bump_side_effect, recordMutation. cbv zeta. by destruct (bus_write_journal_tracking _).
Qed.
Lemma list_inserts_u8 o bytes (l : list Z) : Forall is_u8 bytes -> Forall is_u8 l -> Forall is_u8 (list_inserts o bytes l).
Proof.
  intros Hb. revert o l. induction Hb as [|x bytes Hx Hb IH]; intros o l Hl; cbn; [done|].
  apply Forall_insert; [by apply IH | done].
Qed.
Lemma write_region_bytes_ok r o bytes : region_ok r -> Forall is_u8 bytes -> region_ok (write_region_bytes r o bytes).
Proof.
  intros Hr Hb. apply (region_ok_bytes r); [done | apply length_inserts | apply list_inserts_u8; [done | apply Hr]].
Qed.
Lemma rget_list_inserts o bytes l k : 0 <= o -> 0 <= k -> o + Z.of_nat (length bytes) <= Z.of_nat (length l) ->
  rget (list_inserts (Z.to_nat o) bytes l) k =
  if (o <=? k) && (k <? o + Z.of_nat (length bytes)) then rget bytes (k - o) else rget l k.
Proof.
  intros Ho Hk Hl. unfold rget.
  destruct (Z.leb_spec o k); cbn [andb]; [|rewrite list_lookup_inserts_lt by lia; done].
  destruct (Z.ltb_spec k (o + Z.of_nat (length bytes))); [|rewrite list_lookup_inserts_ge by lia; done].
  rewrite list_lookup_inserts by lia. do 2 f_equal. lia.
Qed.
Lemma write_region_byte r address bytes a : region_ok r -> is_backed r = true -> rg_base r <= address ->
  address + Z.of_nat (length bytes) <= region_end r -> region_contains r a = true ->
  region_byte (write_region_bytes r (address - rg_base r) bytes) a =
  if (address <=? a) && (a <? address + Z.of_nat (length bytes)) then Some (rget bytes (a - address)) else region_byte r a.
Proof.
  intros Hr Hk Hlo Hhi Ha%region_contains_spec. assert (length (rg_bytes r) = Z.to_nat (rg_size r)) as Hl by by apply Hr.
  unfold region_byte, region_end in *. change (is_backed (write_region_bytes _ _ _)) with (is_backed r). rewrite Hk. cbn.
  rewrite rget_list_inserts by lia.
  destruct (Z.leb_spec address a), (Z.leb_spec (address - rg_base r) (a - rg_base r)); try lia; cbn [andb]; [|done].
  destruct (Z.ltb_spec a (address + Z.of_nat (length bytes))),
    (Z.ltb_spec (a - rg_base r) (address - rg_base r + Z.of_nat (length bytes))); try lia; [|done].
  do 2 f_equal. lia.
Qed.

(** What a successful [loadBytes] does: the given bytes at the given addresses, all else as before. *)
Lemma loadBytes_bytes address bytes b b' u : bus_ok b -> Forall is_u8 bytes -> bytes <> [] ->
  loadBytes address bytes b = (inl u, b') ->
  bus_ok b' ∧ bus_devices b' = bus_devices b ∧ shape <$> bus_regions b' = shape <$> bus_regions b
  ∧ (∀ a, backed_byte a b' = if (address <=? a) && (a <? address + Z.of_nat (length bytes))
      then Some (rget bytes (a - address)) else backed_byte a b)
  ∧ ∃ i r, find_region address (bus_regions b) = Some (i, r) ∧ is_backed r = true
      ∧ containsRange r address (Z.of_nat (length bytes)) = true.
Proof.
  intros Hb Hu Hne. unfold loadBytes. cbv zeta. destruct (Z.eqb_spec (Z.of_nat (length bytes)) 0) as [E0|E0].
  { by destruct bytes. }
  destruct (_ || _); [done|].
  destruct (find_region address (bus_regions b)) as [[i r]|] eqn:Hf; [|done].
  destruct (containsRange r address _) eqn:Hc; [|done]. destruct (is_backed r) eqn:Hk; [|done]. cbn [negb].
  match goal with |- context [foldl ?f b ?l] =>
    pose proof (record_changes_regions r address (address - rg_base r) l b) as [Hregs Hdev];
    set (b1 := foldl f b l) in * end.
  intros [= _ <-]. pose proof (find_region_Some _ _ _ _ Hf) as [Hi _].
  pose proof (regions_ok_lookup _ _ _ Hb Hi) as Hr. pose proof Hc as Hcr. apply containsRange_spec in Hc as [Hlo Hhi].
  assert (length (rg_bytes r) = Z.to_nat (rg_size r)) as Hl by by apply Hr.
  assert (bus_ok b1) as Hb1 by (unfold bus_ok; by rewrite Hregs).
  set (r' := write_region_bytes r (address - rg_base r) bytes).
  assert (bus_regions b1 !! i = Some r) as Hi1 by by rewrite Hregs.
  pose proof (fun a => backed_byte_set_region a b1 i r r' Hb1 Hi1 eq_refl (write_region_bytes_ok r _ bytes Hr Hu)) as Hset.
  split; [apply bump_execution_ok, (Hset 0)|]. split; [by destruct (rg_executable r)|].
  split.
  - rewrite bump_execution_regions. cbn. rewrite Hregs, list_fmap_insert. apply list_insert_id.
    by rewrite list_lookup_fmap, Hi.
  - split; [|by exists i, r]. intros a. rewrite (backed_byte_regions a _ (set_region i r' b1)) by apply bump_execution_regions.
    rewrite (proj2 (Hset a)), (backed_byte_regions a b1 b Hregs).
    destruct (region_contains r a) eqn:Hca.
    + unfold r'. rewrite write_region_byte by done.
      by rewrite (backed_byte_in a b r Hb) by (done || by eapply list_elem_of_lookup_2).
    + destruct (Z.leb_spec address a), (Z.ltb_spec a (address + Z.of_nat (length bytes))); try done.
      exfalso. assert (region_contains r a = true) by (apply region_contains_spec; lia). congruence.
Qed.

(** ** Materializing the image *)

#[local] Instance covers_dec s a : Decision (covers s a).
Proof. unfold covers. apply _. Defined.

(** A range inside one directly backed region. *)
Definition in_region (b : Bus D) (a n : Z) : Prop :=
  ∃ i r, find_region a (bus_regions b) = Some (i, r) ∧ is_backed r = true ∧ containsRange r a n = true.
Lemma in_region_shape b b' a n : shape <$> bus_regions b' = shape <$> bus_regions b -> in_region b a n -> in_region b' a n.
Proof.
  intros Hs (i & r & Hf & Hk & Hc). destruct (find_region_shape _ _ _ _ _ (eq_sym Hs) Hf) as (r' & Hf' & Hr').
  exists i, r'. split; [done|]. rewrite (shape_backed _ _ Hr'). split; [done|]. rewrite <- Hc.
  exact (f_equal (fun q => containsRange q a n) Hr').
Qed.

(** [loaded image l b b']: [b'] is [b] with the file bytes of the segments [l]. *)
Record loaded (image : ElfImage) (l : list ElfLoadSegment) (b b' : Bus D) : Prop := mk_loaded {
  ld_ok : bus_ok b';
  ld_devices : bus_devices b' = bus_devices b;
  ld_shape : shape <$> bus_regions b' = shape <$> bus_regions b;
  ld_covered s a : s ∈ l -> covers s a -> backed_byte a b' = image_byte (im_file_bytes image) s a;
  ld_other a : (∀ s, s ∈ l -> ~ covers s a) -> backed_byte a b' = backed_byte a b;
  ld_region s : s ∈ l -> sg_file_size s <> 0 -> in_region b' (sg_physical_address s) (sg_file_size s);
}.

Lemma loaded_nil image b : bus_ok b -> loaded image [] b b.
Proof. intros Hb. split; try done; [by intros ? ? ?%elem_of_nil | by intros ? ?%elem_of_nil]. Qed.
Lemma loaded_empty image s l b b' : sg_file_size s = 0 -> loaded image l b b' -> loaded image (s :: l) b b'.
Proof.
  intros Hs [Hok Hd Hsh Hc Ho Hg]. split; try done.
  - intros t a [->|Ht]%elem_of_cons Ha; [|by apply Hc]. unfold covers, segment_end in Ha. lia.
  - intros a Hn. apply Ho. intros t Ht. apply Hn. by constructor.
  - intros t [->|Ht]%elem_of_cons Hne; [done | by apply Hg].
Qed.
Lemma loaded_cons image s l b b1 b' : segments_ok (im_file_bytes image) (im_segments image) ->
  s :: l ⊆ im_segments image -> loaded image [s] b b1 -> loaded image l b1 b' -> loaded image (s :: l) b b'.
Proof.
  intros [_ Hag] Hsub [Hok1 Hd1 Hsh1 Hc1 Ho1 Hg1] [Hok Hd Hsh Hc Ho Hg]. split; [done | congruence | congruence | | |].
  - intros t a Ht Ha. destruct (decide (Exists (fun q => covers q a) l)) as [E|E].
    + apply Exists_exists in E as (q & Hq & Hqa). rewrite (Hc q a Hq Hqa).
      apply (Hag q t); [apply Hsub; by constructor | by apply Hsub | done..].
    + rewrite Ho; [|intros q Hq Hqa; apply E, Exists_exists; eauto].
      apply elem_of_cons in Ht as [->|Ht]; [apply Hc1; [constructor | done]|].
      exfalso. apply E, Exists_exists. eauto.
  - intros a Hn. rewrite Ho by (intros q Hq; apply Hn; by constructor).
    apply Ho1. intros q ->%list_elem_of_singleton. apply Hn. constructor.
  - intros t [->|Ht]%elem_of_cons Hne; [|by apply Hg]. eapply in_region_shape; [exact Hsh|]. by apply Hg1; [constructor|].
Qed.

Lemma loaded_segment image s b b' u : image_ok image -> s ∈ im_segments image -> bus_ok b -> sg_file_size s <> 0 ->
  loadBytes (sg_physical_address s) (slice (im_file_bytes image) (sg_file_offset s) (sg_file_size s)) b = (inl u, b') ->
  loaded image [s] b b'.
Proof.
  intros Him Hs Hb Hne Hload. destruct (iok_segments _ Him) as [Hall _]. rewrite Forall_forall in Hall.
  pose proof (Hall s Hs) as Hok. pose proof (sok_sizes _ _ Hok). pose proof (sok_offset _ _ Hok). pose proof (sok_in_file _ _ Hok).
  assert (Z.of_nat (length (slice (im_file_bytes image) (sg_file_offset s) (sg_file_size s))) = sg_file_size s) as Hlen
    by (apply slice_length; lia).
  apply loadBytes_bytes in Hload as (Hb' & Hd & Hsh & Hbytes & Hreg); [|done|apply slice_u8, Him|intros E; rewrite E in Hlen; cbn in Hlen; lia].
  split; try done.
  - intros t a ->%list_elem_of_singleton Ha. destruct (image_byte_some _ s a Hok Ha) as [v Hv].
    rewrite Hbytes, Hlen, Hv. unfold covers, segment_end in Ha.
    destruct (Z.leb_spec (sg_physical_address s) a), (Z.ltb_spec a (sg_physical_address s + sg_file_size s)); try lia. cbn [andb].
    unfold rget. rewrite slice_lookup by lia. unfold image_byte, offset_in, byte_at in Hv.
    destruct (0 <=? _); [|done]. by rewrite Hv.
  - intros a Hn. specialize (Hn s ltac:(constructor)). rewrite Hbytes, Hlen. unfold covers, segment_end in Hn.
    destruct (Z.leb_spec (sg_physical_address s) a), (Z.ltb_spec a (sg_physical_address s + sg_file_size s)); try done. lia.
  - intros t ->%list_elem_of_singleton _. rewrite Hlen in Hreg. eapply in_region_shape; [exact Hsh | exact Hreg].
Qed.

Lemma materialize_segments_loaded image l b b' u : image_ok image -> l ⊆ im_segments image -> bus_ok b ->
  materialize_segments image l b = (inl u, b') -> loaded image l b b'.
Proof.
  intros Him. revert b. induction l as [|s l IH]; intros b Hsub Hb; cbn [materialize_segments].
  { intros [= _ <-]. by apply loaded_nil. }
  assert (l ⊆ im_segments image) as Hrest by (intros t Ht; apply Hsub; by constructor).
  assert (s ∈ im_segments image) as Hs by (apply Hsub; constructor).
  destruct (negb _); [done|]. destruct (Z.eqb_spec (sg_file_size s) 0) as [E|E].
  { intros Hm. apply loaded_empty; [done | by apply IH]. }
  pose proof (iok_segments _ Him) as [Hall _]. rewrite Forall_forall in Hall. pose proof (Hall s Hs) as Hok.
  assert (readLoadImage image (sg_physical_address s) (sg_file_size s) =
    inl (slice (im_file_bytes image) (sg_file_offset s) (sg_file_size s))) as ->.
  { unfold readLoadImage. rewrite (read_segments_any _ _ _ _ s); [|apply Him|apply Hok|apply Hok|done|].
    - unfold offset_in. do 2 f_equal. lia.
    - apply serves_spec. unfold segment_end. lia. }
  destruct (loadBytes _ _ b) as [[u1|] b1] eqn:Hl; [|done]. intros Hm.
  pose proof (loaded_segment _ _ _ _ _ Him Hs Hb E Hl) as H1.
  eapply loaded_cons; [apply Him | done | exact H1|]. apply IH; [done | apply H1 | done].
Qed.

(** ** The standard map *)

Definition within (base size a : Z) : bool := (base <=? a) && (a <? base + size).
(** The bytes of the map before loading. *)
Definition reset_byte (mcu : McuConfig) (a : Z) : option Z :=
  if within (mcu_flash_base mcu) (mcu_flash_size mcu) a then Some 0xff
  else if within (mcu_ccm_sram_base mcu) (mcu_ccm_sram_size mcu) a then Some 0
  else if within (mcu_sram_base mcu) (mcu_sram_size mcu) a then Some 0
  else if within 0x1fff0000 0x00010000 a then Some 0xff
  else None.
Definition mcu_ok (mcu : McuConfig) : Prop :=
  is_u32 (mcu_flash_base mcu) ∧ is_u32 (mcu_flash_size mcu) ∧ is_u32 (mcu_sram_base mcu) ∧ is_u32 (mcu_sram_size mcu)
  ∧ is_u32 (mcu_ccm_sram_base mcu) ∧ is_u32 (mcu_ccm_sram_size mcu).

Lemma then_map_some m op b' : then_map m op = inl b' -> ∃ b u, m = inl b ∧ op b = (inl u, b').
Proof.
  unfold then_map, map_step. destruct m as [b|]; [|done]. destruct (op b) as [[u|] b1] eqn:E; [|done].
  intros [= <-]. by exists b, u.
Qed.

(** What one step of the construction adds at each address. *)
Definition extends (b b' : Bus D) (base size : Z) (byte : option Z) : Prop :=
  bus_ok b' ∧ bus_devices b' = bus_devices b ∧ (∀ r, r ∈ bus_regions b -> r ∈ bus_regions b')
  ∧ (∀ a, backed_byte a b' = if within base size a then byte else backed_byte a b)
  ∧ ∀ a, within base size a = true -> backed_byte a b = None.

Lemma backed_region_extends kind base size name w x fill b b' u : bus_ok b -> is_u32 base -> is_u32 size -> is_u8 fill ->
  is_backed (backed_region kind base size name w x fill) = true ->
  addRegion (backed_region kind base size name w x fill) b = (inl u, b') -> extends b b' base size (Some fill).
Proof.
  intros Hb Hba Hsz Hf Hk E. set (r := backed_region kind base size name w x fill) in *.
  assert (validRange base size = true) as Hv.
  { unfold addRegion in E. by destruct (validRange (rg_base r) (rg_size r)) eqn:Hv. }
  assert (region_ok r) as Hr by (apply backed_region_ok; unfold is_u32 in *; try done; lia).
  pose proof (fun a => addRegion_byte r b b' u a Hb (fun _ => Hr) E) as Ha.
  destruct (Ha 0) as (Hb' & Hd & Hp & _). split; [done|]. split; [done|]. split; [intros q Hq; rewrite Hp; by constructor|].
  split; [|intros a; apply (Ha a)].
  intros a. destruct (Ha a) as (_ & _ & _ & -> & _). change (region_contains r a) with (within base size a).
  destruct (within base size a) eqn:Hc; [|done]. unfold region_byte. rewrite Hk. f_equal.
  unfold within in Hc. apply andb_true_iff in Hc as [Hlo%Z.leb_le Hhi%Z.ltb_lt].
  cbn. unfold rget. rewrite Hv, lookup_replicate_2 by lia. done.
Qed.
Lemma device_region_extends r b b' u : bus_ok b -> 0 <= rg_base r -> is_backed r = false -> rg_bytes r = [] ->
  0 <= rg_size r -> addRegion r b = (inl u, b') ->
  extends b b' (rg_base r) (rg_size r) None ∧ r ∈ bus_regions b'.
Proof.
  intros Hb Hbase Hk Hbytes Hsize E.
  assert (validRange (rg_base r) (rg_size r) = true -> region_ok r) as Hr.
  { intros Hv. apply validRange_spec in Hv; [|done]. split; unfold region_end; try done; try lia; [congruence|].
    rewrite Hbytes. done. }
  pose proof (fun a => addRegion_byte r b b' u a Hb Hr E) as Ha.
  destruct (Ha 0) as (Hb' & Hd & Hp & _). split; [|rewrite Hp; constructor].
  split; [done|]. split; [done|]. split; [intros q Hq; rewrite Hp; by constructor|].
  split; [|intros a; apply (Ha a)].
  intros a. destruct (Ha a) as (_ & _ & _ & -> & _). change (region_contains r a) with (within (rg_base r) (rg_size r) a).
  unfold region_byte. by rewrite Hk.
Qed.
Lemma mapAlias_extends alias target size name b b' u : bus_ok b -> 0 <= alias -> 0 <= size ->
  mapAlias alias target size name b = (inl u, b') ->
  extends b b' alias size None ∧
  ∃ i t r, find_region target (bus_regions b) = Some (i, t) ∧ containsRange t target size = true ∧ r ∈ bus_regions b'
    ∧ is_alias r = true ∧ rg_base r = alias ∧ rg_size r = size ∧ rg_alias_target r = target
    ∧ rg_readable r = rg_readable t ∧ rg_executable r = rg_executable t.
Proof.
  intros Hb Ha Hs. unfold mapAlias. destruct (negb _); [done|]. cbv zeta.
  destruct (find_region target (bus_regions b)) as [[i t]|] eqn:Hf; [|done].
  destruct (containsRange t target size) eqn:Hc; [|done]. cbn [negb]. intros E.
  apply device_region_extends in E as [Hx Hr]; [|done..]. split; [exact Hx|]. by eexists i, t, _.
Qed.

Lemma extends_ok b b' base size byte : extends b b' base size byte -> bus_ok b'.
Proof. intros X. apply X. Qed.
Lemma empty_bus_ok (d : D) : bus_ok (empty_bus d).
Proof. split; constructor. Qed.
Lemma empty_bus_byte (d : D) a : backed_byte a (empty_bus d) = None.
Proof. done. Qed.

(** The regions as built: each address of the map reads as [reset_byte], and the alias at zero
    leads to the flash. *)
Lemma map_regions_bytes mcu windows x (d : D) b : mcu_ok mcu -> map_regions mcu windows x (empty_bus d) = inl b ->
  bus_ok b ∧ bus_devices b = d ∧ (∀ a, backed_byte a b = reset_byte mcu a).
Proof.
  intros (Hfb & Hfs & Hsb & Hss & Hcb & Hcs). unfold map_regions. cbv zeta.
  intros (b6 & u7 & E & E7)%then_map_some. apply then_map_some in E as (b5 & u6 & E & E6).
  apply then_map_some in E as (b4 & u5 & E & E5). apply then_map_some in E as (b3 & u4 & E & E4).
  apply then_map_some in E as (b2 & u3 & E & E3). apply then_map_some in E as (b1 & u2 & E & E2).
  apply then_map_some in E as (b0 & u1 & [= <-] & E1).
  apply backed_region_extends in E1 as X1; [|apply empty_bus_ok|done|done|unfold is_u8; lia|done].
  apply backed_region_extends in E2 as X2; [|exact (extends_ok _ _ _ _ _ X1)|done|done|unfold is_u8; lia|done].
  apply backed_region_extends in E3 as X3; [|exact (extends_ok _ _ _ _ _ X2)|done|done|unfold is_u8; lia|done].
  apply backed_region_extends in E4 as X4; [|exact (extends_ok _ _ _ _ _ X3)|unfold is_u32; lia|unfold is_u32; lia|unfold is_u8; lia|done].
  apply mapAlias_extends in E5 as [X5 _]; [|exact (extends_ok _ _ _ _ _ X4)|lia|apply Hfs].
  apply device_region_extends in E6 as [X6 _]; [|exact (extends_ok _ _ _ _ _ X5)|done..]. cbn in X6.
  apply device_region_extends in E7 as [X7 _]; [|exact (extends_ok _ _ _ _ _ X6)|done..]. cbn in X7.
  destruct X1 as (_ & D1 & _ & B1 & N1), X2 as (_ & D2 & _ & B2 & N2), X3 as (_ & D3 & _ & B3 & N3), X4 as (_ & D4 & _ & B4 & N4),
    X5 as (_ & D5 & _ & B5 & N5), X6 as (_ & D6 & _ & B6 & N6), X7 as (Hok & D7 & _ & B7 & N7).
  split; [done|]. split; [cbn in D1; congruence|]. intros a.
  specialize (B1 a). specialize (B2 a). specialize (B3 a). specialize (B4 a). specialize (B5 a). specialize (B6 a). specialize (B7 a).
  specialize (N2 a). specialize (N3 a). specialize (N4 a). specialize (N5 a). specialize (N6 a). specialize (N7 a).
  rewrite empty_bus_byte in B1. unfold reset_byte.
  destruct (within (mcu_flash_base mcu) _ a), (within (mcu_ccm_sram_base mcu) _ a), (within (mcu_sram_base mcu) _ a),
    (within 0x1fff0000 _ a); repeat case_match; try done;
    repeat match goal with N : true = true -> _ |- _ => specialize (N eq_refl) end; congruence.
Qed.

(** ** The built map *)

(** Every region of the standard map can be read. *)
Definition all_readable b : Prop := ∀ r, r ∈ bus_regions b -> rg_readable r = true.
Lemma addRegion_readable r b b' u : rg_readable r = true -> all_readable b -> addRegion r b = (inl u, b') -> all_readable b'.
Proof.
  intros Hr Hb. unfold addRegion. destruct (negb _); [done|]. destruct (List.find _ _); [done|]. intros [= _ <-] q. cbn.
  rewrite (merge_sort_Permutation base_le). intros [Hq|Hq]%elem_of_app; [by apply Hb|].
  by apply list_elem_of_singleton in Hq as ->.
Qed.
Lemma mapAlias_readable alias target size name b b' u : all_readable b ->
  mapAlias alias target size name b = (inl u, b') -> all_readable b'.
Proof.
  intros Hb. unfold mapAlias. destruct (negb _); [done|]. cbv zeta.
  destruct (find_region target _) as [[i t]|] eqn:Hf; [|done]. destruct (negb _); [done|].
  apply addRegion_readable; [|done]. apply find_region_Some in Hf as [Hi _].
  exact (Hb t (list_elem_of_lookup_2 _ _ _ Hi)).
Qed.
Lemma map_regions_readable mcu windows x (d : D) b : map_regions mcu windows x (empty_bus d) = inl b -> all_readable b.
Proof.
  unfold map_regions. cbv zeta.
  intros (b6 & u7 & E & E7)%then_map_some. apply then_map_some in E as (b5 & u6 & E & E6).
  apply then_map_some in E as (b4 & u5 & E & E5). apply then_map_some in E as (b3 & u4 & E & E4).
  apply then_map_some in E as (b2 & u3 & E & E3). apply then_map_some in E as (b1 & u2 & E & E2).
  apply then_map_some in E as (b0 & u1 & [= <-] & E1).
  apply addRegion_readable in E1; [|done|intros r Hr; cbn in Hr; by apply elem_of_nil in Hr].
  apply addRegion_readable in E2; [|done|done]. apply addRegion_readable in E3; [|done|done].
  apply addRegion_readable in E4; [|done|done]. apply mapAlias_readable in E5; [|done].
  apply addRegion_readable in E6; [|done|done]. by apply addRegion_readable in E7.
Qed.
Lemma all_readable_shape b b' : shape <$> bus_regions b' = shape <$> bus_regions b -> all_readable b -> all_readable b'.
Proof.
  intros Hs Hb r [i Hi]%list_elem_of_lookup.
  assert ((shape <$> bus_regions b) !! i = Some (shape r)) as Hi' by by rewrite <- Hs, list_lookup_fmap, Hi.
  rewrite list_lookup_fmap in Hi'. destruct (bus_regions b !! i) as [q|] eqn:Hq; [|done]. apply (inj Some) in Hi' as Hq'.
  apply list_elem_of_lookup_2 in Hq. rewrite <- (Hb q Hq). symmetry. exact (f_equal rg_readable Hq').
Qed.

Lemma buildMcuMemoryMap_loaded mcu image windows x (d : D) b : mcu_ok mcu -> image_ok image ->
  buildMcuMemoryMap mcu image windows x d = inl b ->
  validateResetVectors image b = inl tt ∧ all_readable b
  ∧ ∃ b0, bus_devices b0 = d ∧ (∀ a, backed_byte a b0 = reset_byte mcu a) ∧ loaded image (im_segments image) b0 b.
Proof.
  intros Hm Him. unfold buildMcuMemoryMap.
  destruct (map_regions mcu windows x (empty_bus d)) as [b0|] eqn:E0; [|done].
  destruct (materialize image b0) as [[u|] b1] eqn:E1; [|done].
  destruct (validateResetVectors image b1) as [[]|] eqn:E2; [|done]. intros [= <-]. split; [done|].
  pose proof (map_regions_readable _ _ _ _ _ E0) as Hr.
  apply map_regions_bytes in E0 as (Hok & Hd & Hbytes); [|done].
  apply materialize_segments_loaded in E1; [|done..].
  split; [eapply all_readable_shape; [apply E1 | done]|]. by exists b0.
Qed.

(** A word read through the bus sees the bytes of the map. *)
Lemma bus_read_word_bytes depth a c b v : bus_ok b -> all_readable b -> is_fetch c = false -> is_u32 v -> in_region b a 4 ->
  (∀ k, 0 <= k < 4 -> backed_byte (a + k) b = Some (value_byte v k)) ->
  fst (bus_read depth a AccessSize.word c b) = inl v.
Proof.
  intros Hb Hrd Hc Hv (i & r & Hf & Hk & Hr) Hbytes.
  pose proof (region_value_bytes b a 4 i r v Hb ltac:(lia) Hf Hk Hr Hbytes) as Hval.
  pose proof (backed_at_intro b a 4 i r Hb Hf Hk Hr ltac:(lia)) as Hat.
  assert (rg_readable r = true) as Hrr.
  { apply Hrd. apply find_region_Some in Hf as [Hi _]. by eapply list_elem_of_lookup_2. }
  apply backed_not_device in Hk as [Ha Hm].
  assert (v mod 2 ^ (8 * 4) = v) as Hmod by (apply Z.mod_small; exact Hv). rewrite Hmod in Hval.
  destruct depth; cbn [bus_read]; change (byteCount AccessSize.word) with 4;
    rewrite (ba_valid _ _ _ _ _ Hat), Hf, Hr, Hrr, Hc, Ha, Hm; cbn [negb andb fst]; by rewrite Hval.
Qed.
Lemma le_value_word (b0 b1 b2 b3 : Z) : le_value [b0; b1; b2; b3] = b0 .| (b1 .<< 8) .| (b2 .<< 16) .| (b3 .<< 24).
Proof.
  cbn [le_value]. rewrite Z.shiftl_0_l, Z.lor_0_r, !Z.shiftl_lor, !Z.shiftl_shiftl by lia. by rewrite !Z.lor_assoc.
Qed.
Lemma rawU32_value_bytes file o v k : Forall is_u8 file -> rawU32 file o = Some v -> 0 <= k < 4 ->
  byte_at file (o + k) = Some (value_byte v k).
Proof.
  intros Hf (b0 & b1 & b2 & b3 & H0 & H1 & H2 & H3 & ->)%rawU32_bytes Hk. rewrite <- le_value_word.
  pose proof (byte_at_u8 _ _ _ Hf H0). pose proof (byte_at_u8 _ _ _ Hf H1).
  pose proof (byte_at_u8 _ _ _ Hf H2). pose proof (byte_at_u8 _ _ _ Hf H3).
  assert (Forall is_u8 [b0; b1; b2; b3]) as Hall by (do 4 (apply Forall_cons_2; [done|]); apply Forall_nil_2).
  assert (∀ j y, [b0; b1; b2; b3] !! j = Some y -> value_byte (le_value [b0; b1; b2; b3]) (Z.of_nat j) = y) as Hb.
  { intros j y Hj. unfold value_byte. rewrite Z.mul_comm. by apply le_value_byte. }
  assert (k = 0 \/ k = 1 \/ k = 2 \/ k = 3) as Hcase by lia. destruct Hcase as [-> | [-> | [-> | ->]]].
  - rewrite Z.add_0_r, H0. f_equal. symmetry. by apply (Hb 0%nat).
  - rewrite H1. f_equal. symmetry. by apply (Hb 1%nat).
  - rewrite H2. f_equal. symmetry. by apply (Hb 2%nat).
  - rewrite H3. f_equal. symmetry. by apply (Hb 3%nat).
Qed.

(** The segment that serves a range determines the words a bus read returns there. *)
Lemma loaded_word depth image b0 b c s a v o : image_ok image -> loaded image (im_segments image) b0 b -> all_readable b ->
  is_fetch c = false -> s ∈ im_segments image -> serves s a 8 = true -> 0 <= o <= 4 ->
  rawU32 (slice (im_file_bytes image) (offset_in s a) 8) o = Some v ->
  fst (bus_read depth (a + o) AccessSize.word c b) = inl v.
Proof.
  intros Him Hl Hrd Hc Hs Hv Ho Hw.
  pose proof (iok_segments _ Him) as [Hall _]. rewrite Forall_forall in Hall. pose proof (Hall s Hs) as Hok.
  pose proof (proj1 (serves_spec _ _ _) Hv) as Hrange. unfold segment_end in Hrange.
  assert (Forall is_u8 (slice (im_file_bytes image) (offset_in s a) 8)) as Hu by apply slice_u8, Him.
  apply bus_read_word_bytes; [apply Hl | done | done | by eapply rawU32_u32 | |].
  - destruct (ld_region _ _ _ _ Hl s Hs) as (i & r & Hf & Hk & Hr); [lia|]. pose proof (ld_ok _ _ _ _ Hl) as Hb.
    apply containsRange_spec in Hr as [Hlo Hhi].
    exists i, r. split; [eapply find_region_same; [done|done|lia]|]. split; [done|]. apply containsRange_spec. lia.
  - intros k Hk. rewrite (ld_covered _ _ _ _ Hl s) by (done || unfold covers, segment_end; lia).
    rewrite <- Z.add_assoc, <- (slice_image_byte (im_file_bytes image) s a 8) by (done || lia).
    by apply rawU32_value_bytes.
Qed.
End bytes.
