(* ===== verification/MmioRouter.v ===== *)
(** * The MMIO router

    Models [src/mem/mmio_router.cpp] and [include/fil/mem/mmio_router.hpp]: one MMIO window shared by
    non-overlapping child devices, with counted fallback accesses or faults elsewhere.  The children
    are the devices of [MmioDevices]; the router with its children is such a device again
    ([router_devices]). *)

From stdpp Require Import gmap sorting.
From S2P Require Import Prelude Address CpuState MemoryApi Common MemoryBus MemoryBusProofs ElfProofs.
#[local] Open Scope Z_scope.
#[local] Open Scope fil_scope.

Module MmioRouter.

(** ** Data *)

Record UnknownMmioAccess := mkUnknown { un_address : Z; un_reads : Z; un_writes : Z }.
Record Route := mkRoute { rt_offset : Z; rt_size : Z; rt_device : nat; rt_name : string }.
Record Router := mkRouter {
  ro_absolute_base : Z;
  ro_window_size : Z;
  ro_name : string;
  ro_lenient : bool;
  ro_unknown_read_value : Z;
  ro_routes : list Route;
  ro_unknown : list UnknownMmioAccess;
}.
Definition router_new (absolute_base window_size : Z) (name : string) (lenient : bool) (unknown_read_value : Z) : Router :=
  mkRouter absolute_base window_size name lenient unknown_read_value [] [].

Definition routeError (message : string) : Error := mkError ErrorCategory.invalid_argument message None.
Definition route_end (r : Route) : Z := rt_offset r + rt_size r.

(** ** Routes *)

Definition route_le (l r : Route) : Prop := rt_offset l <= rt_offset r.
#[export] Instance route_le_dec l r : Decision (route_le l r).
Proof. unfold route_le. apply _. Defined.

Definition route_overlaps (offset size : Z) (r : Route) : bool :=
  Z.max offset (rt_offset r) <? Z.min (offset + size) (route_end r).
Definition map (offset size : Z) (device : nat) (name : string) (r : Router) : Result unit * Router :=
  if (size =? 0) || negb (rangeFits offset size (ro_window_size r)) then
    (inr (routeError ("MMIO route '" +:+ name +:+ "' has an empty or out-of-window range")), r)
  else
    match List.find (route_overlaps offset size) (ro_routes r) with
    | Some route =>
        (inr (routeError ("MMIO route '" +:+ name +:+ "' overlaps route '" +:+ rt_name route +:+ "'")), r)
    | None =>
        (inl tt, {| r with ro_routes := merge_sort route_le (ro_routes r ++ [mkRoute offset size device name]) |})
    end.

Definition route_contains (offset width : Z) (route : Route) : bool :=
  (rt_offset route <=? offset) && (offset + width <=? route_end route).
(** [std::upper_bound] over the sorted routes. *)
Fixpoint routes_before (offset : Z) (routes : list Route) : nat :=
  match routes with
  | [] => O
  | r :: rest => if offset <? rt_offset r then O else S (routes_before offset rest)
  end.
Definition find_route (offset width : Z) (r : Router) : option Route :=
  match routes_before offset (ro_routes r) with
  | O => None
  | S n => route ← ro_routes r !! n; if route_contains offset width route then Some route else None
  end.

(** ** Unknown accesses *)

(** [record] followed by an update of the entry: the list stays sorted by address. *)
Fixpoint record (address : Z) (f : UnknownMmioAccess -> UnknownMmioAccess) (l : list UnknownMmioAccess)
    : list UnknownMmioAccess :=
  match l with
  | [] => [f (mkUnknown address 0 0)]
  | u :: rest =>
      if un_address u <? address then u :: record address f rest
      else if un_address u =? address then f u :: rest
      else f (mkUnknown address 0 0) :: l
  end.
Definition count_read (u : UnknownMmioAccess) : UnknownMmioAccess := {| u with un_reads := u64 (un_reads u + 1) |}.
Definition count_write (u : UnknownMmioAccess) : UnknownMmioAccess := {| u with un_writes := u64 (un_writes u + 1) |}.
Definition note_unknown (offset : Z) (f : UnknownMmioAccess -> UnknownMmioAccess) (r : Router) : Router :=
  {| r with ro_unknown := record (u32 (ro_absolute_base r + offset)) f (ro_unknown r) |}.

Definition setLenient (value : bool) (r : Router) : Router := {| r with ro_lenient := value |}.
Definition setUnknownReadValue (value : Z) (r : Router) : Router := {| r with ro_unknown_read_value := value |}.
Definition clearUnknownAccesses (r : Router) : Router := {| r with ro_unknown := [] |}.
Definition unknownAccesses (r : Router) : list UnknownMmioAccess := ro_unknown r.

(** ** Accesses *)

Definition fault (r : Router) (offset : Z) (size : AccessSize.t) (c : AccessContext) (message : string) : BusFault :=
  mkBusFault BusFaultReason.device_error (u32 (ro_absolute_base r + offset)) size c (ro_name r) message.
(** The router names the route in a fault its device left without a region. *)
Definition name_fault (name : string) (f : BusFault) : BusFault :=
  if bool_decide (fault_region f = "") then {| f with fault_region := name |} else f.
Definition name_region (name : string) (result : MemoryResult Z) : MemoryResult Z :=
  match result with inl v => inl v | inr f => inr (name_fault name f) end.

Section access.
Context `{MmioDevices D}.

Definition route_access (offset : Z) (size : AccessSize.t) (c : AccessContext)
    (access : nat -> Z -> D -> MemoryResult Z * D) (outside unknown : string)
    (fallback : Router -> MemoryResult Z * Router) (s : Router * D) : MemoryResult Z * (Router * D) :=
  let '(r, d) := s in
  if negb (rangeFits offset (byteCount size) (ro_window_size r)) then (inr (fault r offset size c outside), s)
  else
    match find_route offset (byteCount size) r with
    | Some route =>
        let '(result, d) := access (rt_device route) (offset - rt_offset route) d in
        (name_region (rt_name route) result, (r, d))
    | None =>
        if negb (ro_lenient r) then (inr (fault r offset size c unknown), s)
        else let '(result, r) := fallback r in (result, (r, d))
    end.

Definition router_read (offset : Z) (size : AccessSize.t) (c : AccessContext) : Router * D -> MemoryResult Z * (Router * D) :=
  route_access offset size c (fun device offset => device_read device offset size c)
    "MMIO read is outside the router window" "read from unknown MMIO register"
    (fun r => (inl (ro_unknown_read_value r), note_unknown offset count_read r)).
Definition router_write (offset : Z) (size : AccessSize.t) (value : Z) (c : AccessContext)
    : Router * D -> MemoryResult Z * (Router * D) :=
  route_access offset size c (fun device offset => device_write device offset size value c)
    "MMIO write is outside the router window" "write to unknown MMIO register"
    (fun r => (inl 0, note_unknown offset count_write r)).

Definition router_domain (offset : Z) (size : AccessSize.t) (s : Router * D) : MmioDomain.t :=
  let '(r, d) := s in
  if negb (rangeFits offset (byteCount size) (ro_window_size r)) then MmioDomain.board_local
  else
    match find_route offset (byteCount size) r with
    | None => MmioDomain.board_local
    | Some route => device_domain (rt_device route) (offset - rt_offset route) size d
    end.

(** [directReadWord] and [directWriteWord]: the aligned word is forwarded to its route. *)
Definition direct_word {A} (access : nat -> Z -> option A) (offset : Z) (r : Router) : option A :=
  if has offset 3 || negb (rangeFits offset 4 (ro_window_size r)) then None
  else route ← find_route offset 4 r; access (rt_device route) (offset - rt_offset route).

(** A router as the only device of a window. *)
#[export] Instance router_devices : MmioDevices (Router * D) := {|
  device_read _ := router_read;
  device_write _ := router_write;
  device_domain _ := router_domain;
  device_fpccr s := device_fpccr (snd s);
|}.
End access.

(** ** The routes are sorted and disjoint *)

Definition route_before (l r : Route) : Prop := route_end l <= rt_offset r.
Record router_ok (r : Router) : Prop := mk_router_ok {
  rok_routes : Forall (fun q => 0 <= rt_offset q ∧ 0 < rt_size q ∧ route_end q <= ro_window_size r) (ro_routes r);
  rok_sorted : StronglySorted route_before (ro_routes r);
  rok_unknown : StronglySorted (fun u v => un_address u < un_address v) (ro_unknown r);
}.

#[export] Instance route_le_total : Total route_le.
Proof. intros l r. unfold route_le. lia. Qed.
#[export] Instance route_le_trans : Transitive route_le.
Proof. intros x y z. unfold route_le. lia. Qed.

(** Two routes without a common offset, in either order. *)
Definition route_disjoint (l r : Route) : Prop := route_end l <= rt_offset r \/ route_end r <= rt_offset l.

Lemma StronglySorted_permutation {A} (R : A -> A -> Prop) l l' : (∀ x y, R x y -> R y x) -> l ≡ₚ l' ->
  StronglySorted R l -> StronglySorted R l'.
Proof.
  intros HR. induction 1 as [|x l l' Hp IH|x y l|l l' l'' Hp IH Hp' IH']; intros Hs; [done| | |by auto].
  - apply StronglySorted_inv in Hs as [Hs Hx]. constructor; [by apply IH | by rewrite <- Hp].
  - apply StronglySorted_inv in Hs as [Hs Hy]. apply StronglySorted_inv in Hs as [Hs Hx].
    apply Forall_cons in Hy as [Hyx Hy]. constructor; [by constructor|]. constructor; [by apply HR | done].
Qed.
Lemma StronglySorted_combine {A} (P Q R : A -> A -> Prop) (S : A -> Prop) l :
  (∀ x y, S x -> S y -> P x y -> Q x y -> R x y) -> Forall S l -> StronglySorted P l -> StronglySorted Q l -> StronglySorted R l.
Proof.
  intros HR. induction l as [|x l IH]; intros HS HP HQ; [constructor|].
  apply Forall_cons in HS as [Hx HS]. apply StronglySorted_inv in HP as [HP Px], HQ as [HQ Qx].
  constructor; [by apply IH|]. rewrite Forall_forall in *. intros y Hy. by apply HR; auto.
Qed.

Lemma router_new_ok base size name lenient value : router_ok (router_new base size name lenient value).
Proof. split; constructor. Qed.
Lemma map_ok offset size device name r : router_ok r -> router_ok (snd (map offset size device name r)).
Proof.
  intros [Hr Hs Hu]. unfold map. destruct (_ || _) eqn:Hv; [done|].
  apply orb_false_iff in Hv as [Hne%Z.eqb_neq Hfit%negb_false_iff].
  destruct (List.find _ _) eqn:Hf; [done|]. cbn [snd].
  set (new := mkRoute offset size device name). set (l := merge_sort route_le (ro_routes r ++ [new])).
  assert (0 <= offset ∧ 0 <= size ∧ offset + size <= ro_window_size r) as Hrange.
  { unfold rangeFits in Hfit. rewrite !andb_true_iff, !Z.leb_le in Hfit. lia. }
  assert (l ≡ₚ new :: ro_routes r) as Hp by (unfold l; rewrite merge_sort_Permutation; symmetry; apply Permutation_cons_append).
  assert (Forall (fun q => 0 <= rt_offset q ∧ 0 < rt_size q ∧ route_end q <= ro_window_size r) l) as Hok.
  { rewrite Hp. constructor; [unfold route_end; cbn; lia | done]. }
  assert (StronglySorted route_disjoint l) as Hd.
  { eapply StronglySorted_permutation; [|by symmetry|]; [unfold route_disjoint; tauto|]. constructor.
    - apply (StronglySorted_combine route_before route_before _ (fun _ => True)); [|by apply Forall_true | done | done].
      intros ? ? _ _ Hb _. by left.
    - apply Forall_forall. intros q Hq. pose proof (find_none _ _ Hf q ltac:(by apply list_elem_of_In)) as Hn.
      rewrite Forall_forall in Hr. specialize (Hr q Hq). cbn in Hr.
      unfold route_overlaps, route_disjoint, route_end in *. cbn. apply Z.ltb_ge in Hn. lia. }
  split; [exact Hok | | exact Hu].
  eapply StronglySorted_combine; [|exact Hok|exact Hd|apply StronglySorted_merge_sort; apply _].
  unfold route_disjoint, route_le, route_before. intros x y (? & ? & ?) (? & ? & ?) [?|?] ?; [done|].
  unfold route_end in *. lia.
Qed.

(** ** Lookup *)

Lemma routes_before_spec offset l : StronglySorted route_before l -> Forall (fun q => 0 < rt_size q) l ->
  let n := routes_before offset l in
  (n <= length l)%nat ∧ Forall (fun q => rt_offset q <= offset) (take n l) ∧ Forall (fun q => offset < rt_offset q) (drop n l).
Proof.
  cbv zeta. induction 1 as [|q l Hl IH Hq]; intros Hs; cbn [routes_before]; [by split|].
  apply Forall_cons in Hs as [Hsq Hs]. destruct (Z.ltb_spec offset (rt_offset q)); cbn [take drop].
  - split; [lia|]. split; [done|]. constructor; [done|]. eapply Forall_impl; [exact Hq|].
    unfold route_before, route_end. intros p Hp. cbn. lia.
  - destruct (IH Hs) as (Hn & Ht & Hd). cbn [length]. split; [lia|]. by split; [constructor|].
Qed.
(** The binary search finds exactly the route that holds the whole access. *)
Lemma find_route_exact offset width r route : router_ok r -> 0 < width ->
  find_route offset width r = Some route <-> route ∈ ro_routes r ∧ route_contains offset width route = true.
Proof.
  intros [Hr Hs _] Hw. assert (Forall (fun q => 0 < rt_size q) (ro_routes r)) as Hpos
    by (eapply Forall_impl; [exact Hr|]; by intros q (_ & ? & _)).
  destruct (routes_before_spec offset _ Hs Hpos) as (Hn & Ht & Hd). unfold find_route.
  set (n := routes_before offset (ro_routes r)) in *. split.
  - destruct n as [|n]; [done|]. destruct (ro_routes r !! n) as [q|] eqn:Hq; [cbn|done].
    destruct (route_contains offset width q) eqn:Hc; [|done]. intros [= ->]. split; [by eapply list_elem_of_lookup_2 | done].
  - intros [[i Hi]%list_elem_of_lookup Hc]. pose proof Hc as Hc'. unfold route_contains in Hc'.
    apply andb_true_iff in Hc' as [Hlo%Z.leb_le Hhi%Z.leb_le].
    assert (i < n)%nat as Hin.
    { destruct (decide (i < n)%nat) as [|Hge]; [done|]. rewrite Forall_lookup in Hd.
      specialize (Hd (i - n)%nat route). rewrite lookup_drop in Hd. replace (n + (i - n))%nat with i in Hd by lia.
      specialize (Hd Hi). cbn in Hd. lia. }
    destruct n as [|n]; [lia|]. destruct (decide (i = n)) as [->|Hne]; [rewrite Hi; cbn; by rewrite Hc|].
    exfalso. destruct (lookup_lt_is_Some_2 (ro_routes r) n) as [q Hq]; [lia|].
    rewrite Forall_lookup in Ht. specialize (Ht n q). rewrite lookup_take_lt in Ht by lia. specialize (Ht Hq). cbn in Ht.
    assert (route_before route q) as Hb.
    { clear -Hs Hi Hq Hin Hne. assert (i < n)%nat as Hlt by lia. clear Hin Hne.
      revert i n Hi Hq Hlt. induction Hs as [|p l Hl IH Hp]; intros i n Hi Hq Hlt; [done|].
      destruct n as [|n]; [lia|]. destruct i as [|i]; cbn in Hi, Hq.
      - injection Hi as ->. rewrite Forall_lookup in Hp. by eapply Hp.
      - apply (IH i n); [done | done | lia]. }
    unfold route_before in Hb. lia.
Qed.

(** ** Counting unknown accesses *)

(** The entry of an address; an absent entry counts nothing. *)
Definition entry (address : Z) (l : list UnknownMmioAccess) : UnknownMmioAccess :=
  default (mkUnknown address 0 0) (List.find (fun u => un_address u =? address) l).

Lemma record_address address f l : (∀ u, un_address (f u) = un_address u) ->
  ∀ u, u ∈ record address f l -> un_address u = address \/ ∃ v, v ∈ l ∧ un_address v = un_address u.
Proof.
  intros Hf. induction l as [|v l IH]; cbn [record]; intros u Hu.
  - apply list_elem_of_singleton in Hu as ->. left. by rewrite Hf.
  - destruct (un_address v <? address); [|destruct (Z.eqb_spec (un_address v) address)].
    + apply elem_of_cons in Hu as [->|Hu]; [right; exists v; split; [constructor | done]|].
      destruct (IH u Hu) as [|(w & Hw & He)]; [by left | right; exists w; split; [by constructor | done]].
    + apply elem_of_cons in Hu as [->|Hu]; [left; by rewrite Hf | right; exists u; split; [by constructor | done]].
    + apply elem_of_cons in Hu as [->|Hu]; [left; by rewrite Hf | right; exists u; split; done].
Qed.
Lemma record_sorted address f l : (∀ u, un_address (f u) = un_address u) ->
  StronglySorted (fun u v => un_address u < un_address v) l ->
  StronglySorted (fun u v => un_address u < un_address v) (record address f l).
Proof.
  intros Hf. induction 1 as [|u l Hl IH Hu]; cbn [record]; [by repeat constructor|].
  destruct (Z.ltb_spec (un_address u) address); [|destruct (Z.eqb_spec (un_address u) address)].
  - constructor; [done|]. rewrite Forall_forall in *. intros v Hv.
    destruct (record_address address f l Hf v Hv) as [->|(w & Hw & <-)]; [done | by apply Hu].
  - constructor; [done|]. eapply Forall_impl; [exact Hu|]. intros v. cbn. by rewrite Hf.
  - constructor; [by constructor|]. constructor; [rewrite Hf; cbn; lia|]. eapply Forall_impl; [exact Hu|].
    intros v Hv. cbn in *. rewrite Hf. cbn. lia.
Qed.
Lemma entry_absent a l : Forall (fun u => a < un_address u) l -> entry a l = mkUnknown a 0 0.
Proof.
  intros Hl. unfold entry. destruct (List.find _ l) as [u|] eqn:E; [|done].
  apply find_some in E as [Hu%list_elem_of_In He%Z.eqb_eq]. rewrite Forall_forall in Hl. specialize (Hl u Hu). cbn in Hl. lia.
Qed.
Lemma record_entry address f l a : (∀ u, un_address (f u) = un_address u) ->
  StronglySorted (fun u v => un_address u < un_address v) l ->
  entry a (record address f l) = if a =? address then f (entry a l) else entry a l.
Proof.
  intros Hf. induction 1 as [|u l Hl IH Hu]; cbn [record].
  { unfold entry. cbn. rewrite Hf. cbn. rewrite (Z.eqb_sym address). by destruct (Z.eqb_spec a address) as [->|]. }
  destruct (Z.ltb_spec (un_address u) address); [|destruct (Z.eqb_spec (un_address u) address) as [Eu|]].
  - unfold entry in *. cbn. destruct (Z.eqb_spec (un_address u) a); [|exact IH].
    destruct (Z.eqb_spec a address); [lia | done].
  - unfold entry in *. cbn. rewrite Hf, (Z.eqb_sym a), <- Eu. by destruct (Z.eqb_spec (un_address u) a).
  - destruct (Z.eqb_spec a address) as [->|Hne].
    + rewrite (entry_absent address (u :: l)) by (constructor; [cbn; lia|]; eapply Forall_impl; [exact Hu|]; intros v Hv; cbn in *; lia).
      unfold entry. cbn. by rewrite Hf, Z.eqb_refl.
    + unfold entry. cbn. rewrite Hf. cbn. destruct (Z.eqb_spec address a); [congruence | done].
Qed.

Lemma note_unknown_ok offset f r : (∀ u, un_address (f u) = un_address u) -> router_ok r -> router_ok (note_unknown offset f r).
Proof. intros Hf [Hr Hs Hu]. split; [done | done | by apply record_sorted]. Qed.

Lemma find_route_none offset width r : router_ok r -> 0 < width ->
  (∀ route, route ∈ ro_routes r -> route_contains offset width route = false) -> find_route offset width r = None.
Proof.
  intros Hr Hw Hn. destruct (find_route offset width r) as [route|] eqn:E; [|done].
  apply find_route_exact in E as [Hin Hc]; [|done..]. specialize (Hn route Hin). congruence.
Qed.
End MmioRouter.
