(* ===== verification/Rsp.v ===== *)
(** * The GDB remote serial protocol: codecs and framing

    Models [src/debug/rsp.cpp] and [src/debug/rsp.hpp].  Text is a list of bytes.  The byte transport
    is the abstract class [RspTransport] of [include/fil/debug/gdb_server.hpp], here a type class;
    [Scripted] states what its documentation promises of a transport whose input is known.  The
    loops that wait for input carry fuel, [None] when it runs out. *)

From Stdlib Require Import Ascii.
From stdpp Require Import prelude gmap.
From S2P Require Import Prelude InstructionProofs CpuState Common MemoryBus MemoryBusProofs BusJournal.
#[local] Open Scope Z_scope.
#[local] Open Scope fil_scope.

Module Rsp.

Definition char_code (c : ascii) : Z := Z.of_nat (nat_of_ascii c).
Definition bytes_of (s : string) : list Z := char_code <$> String.list_ascii_of_string s.

(** ** Hexadecimal *)

Definition maximum_packet_bytes : Z := 64 * 1024.

(** [hex_digits[digit]]. *)
Definition hex_char (digit : Z) : Z := if digit <? 10 then 0x30 + digit else 0x61 + (digit - 10).

Definition hexDigitValue (character : Z) : Z :=
  if (0x30 <=? character) && (character <=? 0x39) then character - 0x30
  else if (0x61 <=? character) && (character <=? 0x66) then character - 0x61 + 10
  else if (0x41 <=? character) && (character <=? 0x46) then character - 0x41 + 10
  else -1.

Definition hex_byte (digit : Z) : list Z := [hex_char (digit .>> 4); hex_char (digit .& 0x0f)].
Definition hexValue (value bytes : Z) : list Z :=
  mbind (fun index => hex_byte ((value .>> (index * 8)) .& 0xff)) (seqZ 0 bytes).

(** [std::countl_zero] of a 64-bit value. *)
Definition countl_zero (value : Z) : Z := if value =? 0 then 64 else 63 - Z.log2 value.
(** [None] is the [std::out_of_range] of [substr] for more than sixteen digits. *)
Definition hexNumber (value minimum_digits : Z) : option (list Z) :=
  let digits := (fun index => hex_char ((value .>> (4 * (15 - index))) .& 0xf)) <$> seqZ 0 16 in
  let leading_zero_digits := countl_zero value / 4 in
  let significant := Z.max 1 (16 - leading_zero_digits) in
  let size := Z.max minimum_digits significant in
  if 16 <? size then None else Some (drop (Z.to_nat (16 - size)) digits).

Fixpoint parse_digits (text : list Z) (value : Z) : option Z :=
  match text with
  | [] => Some value
  | character :: text =>
      let digit := hexDigitValue character in
      if digit <? 0 then None else parse_digits text (u64 (value .<< 4) .| digit)
  end.
Definition parseHex (text : list Z) : option Z :=
  if (Z.of_nat (length text) =? 0) || (16 <? Z.of_nat (length text)) then None else parse_digits text 0.
Definition parseHex32 (text : list Z) : option Z :=
  value ← parseHex text;
  if max_u32 <? value then None else Some value.

(** Two digits; [None] when one is not a digit. *)
Definition hex_pair (high low : Z) : option Z :=
  if (hexDigitValue high <? 0) || (hexDigitValue low <? 0) then None
  else Some ((hexDigitValue high .<< 4) .| hexDigitValue low).

Fixpoint parse_little_endian (text : list Z) (position value : Z) : option Z :=
  match text with
  | high :: low :: text =>
      byte ← hex_pair high low;
      parse_little_endian text (position + 2) (value .| (byte .<< (position * 4)))
  | _ => Some value
  end.
Definition parseLittleEndianHex (text : list Z) : option Z :=
  let size := Z.of_nat (length text) in
  if (size =? 0) || negb (size mod 2 =? 0) || (16 <? size) then None else parse_little_endian text 0 0.

Fixpoint decode_pairs (text : list Z) : option (list Z) :=
  match text with
  | high :: low :: text => byte ← hex_pair high low; bytes ← decode_pairs text; Some (byte :: bytes)
  | _ => Some []
  end.
Definition decodeHexBytes (text : list Z) : option (list Z) :=
  if negb (Z.of_nat (length text) mod 2 =? 0) then None else decode_pairs text.

Definition escape_mark : Z := 0x7d.
Fixpoint decodeBinaryBytes (text : list Z) : option (list Z) :=
  match text with
  | [] => Some []
  | byte :: text =>
      if byte =? escape_mark then
        match text with
        | [] => None
        | next :: text => bytes ← decodeBinaryBytes text; Some (next .^ 0x20 :: bytes)
        end
      else bytes ← decodeBinaryBytes text; Some (byte :: bytes)
  end.

(** ** Framing *)

Class RspTransport (T : Type) := {
  readByte : T -> option Z * T;
  transport_write : list Z -> T -> bool * T;
}.

Record RspConnection := mkConnection {
  rc_last_frame : list Z;
  rc_have_last_frame : bool;
  rc_no_ack : bool;
}.
Definition connection_default : RspConnection := mkConnection [] false false.
Definition setNoAck (value : bool) (c : RspConnection) : RspConnection := {| c with rc_no_ack := value |}.

Definition checksum (payload : list Z) : Z := foldl (fun sum character => u8 (sum + character)) 0 payload.
Definition digit_or_zero (character : Z) : Z :=
  let digit := hexDigitValue character in if digit <? 0 then 0 else digit.
Definition expected_checksum (high low : Z) : Z := u8 ((digit_or_zero high .<< 4) .| digit_or_zero low).
Definition frame_of (payload : list Z) : list Z := [0x24] ++ payload ++ [0x23] ++ hexValue (checksum payload) 1.

Section connection.
Context `{RspTransport T}.

(** The bytes of one frame up to its [#]: the payload, or nothing at end of input or when too long. *)
Fixpoint read_payload (fuel : nat) (payload : list Z) (t : T) : option (option (list Z) * T) :=
  match fuel with
  | O => None
  | S fuel =>
      let '(next, t) := readByte t in
      match next with
      | None => Some (None, t)
      | Some next =>
          if next =? 0x23 then Some (Some payload, t)
          else if maximum_packet_bytes <=? Z.of_nat (length payload) then Some (None, t)
          else read_payload fuel (payload ++ [next]) t
      end
  end.
Definition payload_fuel : nat := S (S (Z.to_nat maximum_packet_bytes)).

(** Writing may be skipped; what follows runs unless a write failed. *)
Definition write_if (needed : bool) (bytes : list Z) (t : T) : bool * T :=
  if needed then transport_write bytes t else (true, t).

Fixpoint readPacket (fuel : nat) (c : RspConnection) (t : T) : option (option (list Z) * T) :=
  match fuel with
  | O => None
  | S fuel =>
      let '(byte, t) := readByte t in
      match byte with
      | None => Some (None, t)
      | Some byte =>
          if byte =? 0x2b then readPacket fuel c t
          else if byte =? 0x2d then
            let '(ok, t) := write_if (rc_have_last_frame c) (rc_last_frame c) t in
            if ok then readPacket fuel c t else Some (None, t)
          else if negb (byte =? 0x24) then readPacket fuel c t
          else
            '(payload, t) ← read_payload payload_fuel [] t;
            match payload with
            | None => Some (None, t)
            | Some payload =>
                let '(high, t) := readByte t in
                let '(low, t) := readByte t in
                match high, low with
                | Some high, Some low =>
                    if negb (checksum payload =? expected_checksum high low) then
                      let '(ok, t) := write_if (negb (rc_no_ack c)) [0x2d] t in
                      if ok then readPacket fuel c t else Some (None, t)
                    else
                      let '(ok, t) := write_if (negb (rc_no_ack c)) [0x2b] t in
                      if ok then Some (Some payload, t) else Some (None, t)
                | _, _ => Some (None, t)
                end
            end
      end
  end.

(** The wait for an acknowledgement, resending on [-]. *)
Fixpoint await_ack (fuel : nat) (frame : list Z) (t : T) : option (bool * T) :=
  match fuel with
  | O => None
  | S fuel =>
      let '(byte, t) := readByte t in
      match byte with
      | None => Some (false, t)
      | Some byte =>
          if byte =? 0x2b then Some (true, t)
          else if byte =? 0x2d then
            let '(ok, t) := transport_write frame t in
            if ok then await_ack fuel frame t else Some (false, t)
          else await_ack fuel frame t
      end
  end.
Definition sendPacket (fuel : nat) (payload : list Z) (c : RspConnection) (t : T) : option (bool * RspConnection * T) :=
  let frame := frame_of payload in
  let c : RspConnection := {| c with rc_last_frame := frame; rc_have_last_frame := true |} in
  let '(ok, t) := transport_write frame t in
  if negb ok then Some (false, c, t)
  else if rc_no_ack c then Some (true, c, t)
  else '(ok, t) ← await_ack fuel frame t; Some (ok, c, t).

Definition sendConsole (fuel : nat) (text : list Z) : RspConnection -> T -> option (bool * RspConnection * T) :=
  sendPacket fuel (bytes_of "O" ++ mbind (fun character => hexValue character 1) text).
End connection.

(** A transport whose writes succeed and whose input is [incoming], then end of input. *)
Class Scripted (T : Type) `{RspTransport T} := {
  incoming : T -> list Z;
  written : T -> list (list Z);
  read_next t byte rest : incoming t = byte :: rest ->
    ∃ t', readByte t = (Some byte, t') ∧ incoming t' = rest ∧ written t' = written t;
  read_end t : incoming t = [] -> ∃ t', readByte t = (None, t') ∧ incoming t' = [] ∧ written t' = written t;
  write_succeeds bytes t :
    ∃ t', transport_write bytes t = (true, t') ∧ incoming t' = incoming t ∧ written t' = written t ++ [bytes];
}.
End Rsp.

(** * Round trips of the remote serial protocol *)

Import Rsp.

(** ** Digits *)

Lemma hex_char_value d : 0 <= d < 16 -> hexDigitValue (hex_char d) = d.
Proof.
  intros Hd. unfold hexDigitValue, hex_char.
  destruct (Z.ltb_spec d 10); repeat (case_match; try lia).
  all: repeat match goal with H : (_ && _) = true |- _ => apply andb_true_iff in H as [?%Z.leb_le ?%Z.leb_le] end; try lia.
  all: repeat match goal with H : (_ && _) = false |- _ => apply andb_false_iff in H as [?%Z.leb_gt|?%Z.leb_gt] end; lia.
Qed.
Lemma nibbles b : is_u8 b -> 0 <= b .>> 4 < 16 ∧ 0 <= b .& 0x0f < 16 ∧ ((b .>> 4) .<< 4) .| (b .& 0x0f) = b.
Proof.
  unfold is_u8. intros Hb. change 0x0f with (Z.ones 4). rewrite Z.land_ones by lia.
  rewrite Z.shiftr_div_pow2, Z.shiftl_mul_pow2 by lia. change (2 ^ 4) with 16.
  assert (0 <= b mod 16 < 16) by (apply Z.mod_pos_bound; lia).
  assert (b = 16 * (b / 16) + b mod 16) as E by (apply Z.div_mod; lia). split; [lia|]. split; [lia|].
  rewrite Z.lor_comm. change 16 with (2 ^ 4) at 3. rewrite lor_disjoint_add by (change (2 ^ 4) with 16; lia).
  change (2 ^ 4) with 16. lia.
Qed.
Lemma hex_pair_byte b : is_u8 b -> hex_pair (hex_char (b .>> 4)) (hex_char (b .& 0x0f)) = Some b.
Proof.
  intros Hb. destruct (nibbles b Hb) as (Hh & Hl & E). unfold hex_pair. rewrite !hex_char_value by done.
  destruct (Z.ltb_spec (b .>> 4) 0); [lia|]. destruct (Z.ltb_spec (b .& 0x0f) 0); [lia|]. cbn [orb]. by rewrite E.
Qed.

(** ** Byte strings *)

Definition hex_text (bytes : list Z) : list Z := mbind hex_byte bytes.
Lemma hex_text_length bytes : Z.of_nat (length (hex_text bytes)) = 2 * Z.of_nat (length bytes).
Proof. induction bytes as [|b bytes IH]; [done|]. cbn. change (mbind hex_byte bytes) with (hex_text bytes). lia. Qed.
Lemma decodeHexBytes_text bytes : Forall is_u8 bytes -> decodeHexBytes (hex_text bytes) = Some bytes.
Proof.
  intros Hb. unfold decodeHexBytes. rewrite hex_text_length, Z.mul_comm, Z.mod_mul by lia. cbn [negb Z.eqb].
  induction Hb as [|b bytes Hb Hbs IH]; [done|]. cbn -[hex_pair hex_char Z.land Z.shiftr].
  rewrite hex_pair_byte by done. cbn. change (mbind hex_byte bytes) with (hex_text bytes). by rewrite IH.
Qed.
Lemma hexValue_text value n : hexValue value n = hex_text ((fun k => value_byte value k) <$> seqZ 0 n).
Proof.
  unfold hexValue, hex_text. generalize (seqZ 0 n). intros l. induction l as [|k l IH]; [done|].
  rewrite fmap_cons, !bind_cons, IH. unfold value_byte. by rewrite u8_land.
Qed.

Lemma parse_little_endian_text bytes position value : Forall is_u8 bytes -> 0 <= position ->
  parse_little_endian (hex_text bytes) position value = Some (value .| (le_value bytes .<< (position * 4))).
Proof.
  intros Hb. revert position value. induction Hb as [|b bytes Hb Hbs IH]; intros position value Hp.
  { cbn [hex_text mbind list_bind parse_little_endian le_value]. by rewrite Z.shiftl_0_l, Z.lor_0_r. }
  cbn [hex_text mbind list_bind hex_byte app parse_little_endian]. rewrite hex_pair_byte by done. cbn [mbind option_bind].
  fold (hex_text bytes). change (list_bind _ _ hex_byte bytes) with (hex_text bytes). rewrite IH by lia.
  cbn [le_value]. rewrite Z.shiftl_lor, Z.shiftl_shiftl, Z.lor_assoc by lia. do 3 f_equal. lia.
Qed.
Lemma value_bytes_u8 value l : Forall is_u8 ((fun k => value_byte value k) <$> l).
Proof. apply Forall_fmap, Forall_forall. intros k _. apply value_byte_range. Qed.
(** A register value survives its little-endian text. *)
Lemma parseLittleEndianHex_value value n : 0 < n <= 8 -> 0 <= value < 2 ^ (8 * n) ->
  parseLittleEndianHex (hexValue value n) = Some value.
Proof.
  intros Hn Hv. unfold parseLittleEndianHex. rewrite hexValue_text, hex_text_length, length_fmap, length_seqZ.
  destruct (Z.eqb_spec (2 * Z.of_nat (Z.to_nat n)) 0); [lia|]. rewrite Z.mul_comm, Z.mod_mul by lia.
  destruct (Z.ltb_spec 16 (Z.of_nat (Z.to_nat n) * 2)); [lia|]. cbn [orb negb Z.eqb].
  rewrite parse_little_endian_text by (lia || apply value_bytes_u8).
  rewrite (le_value_bytes value _ 0); [|intros j byte Hj|lia].
  - rewrite length_fmap, length_seqZ, Z.shiftr_0_r, Z.shiftl_0_r, Z.lor_0_l, Z2Nat.id by lia. by rewrite Z.mod_small.
  - apply list_lookup_fmap_Some in Hj as (k & -> & Hk%lookup_seqZ). f_equal. lia.
Qed.

(** ** Plain numbers *)

Lemma shift_nibble v n : 0 <= v < 2 ^ 64 -> 0 <= n ->
  u64 ((v .>> (4 * (n + 1))) .<< 4) .| ((v .>> (4 * n)) .& 0xf) = v .>> (4 * n).
Proof.
  intros Hv Hn. replace (4 * (n + 1)) with (4 * n + 4) by lia. rewrite <- Z.shiftr_shiftr by lia.
  set (x := v .>> (4 * n)). assert (0 <= x <= v) as Hx.
  { unfold x. rewrite Z.shiftr_div_pow2 by lia. assert (0 < 2 ^ (4 * n)) by (apply Z.pow_pos_nonneg; lia).
    split; [apply Z.div_pos; lia | apply Z.div_le_upper_bound; nia]. }
  change 0xf with (Z.ones 4). rewrite Z.land_ones, (Z.shiftr_div_pow2 x), Z.shiftl_mul_pow2 by lia. change (2 ^ 4) with 16.
  assert (0 <= x mod 16 < 16) by (apply Z.mod_pos_bound; lia).
  assert (x = 16 * (x / 16) + x mod 16) as E by (apply Z.div_mod; lia).
  unfold u64. rewrite Z.mod_small by lia.
  rewrite Z.lor_comm. change 16 with (2 ^ 4) at 3. rewrite lor_disjoint_add by (change (2 ^ 4) with 16; lia).
  change (2 ^ 4) with 16. lia.
Qed.
(** The digits of the low [n] nibbles, most significant first. *)
Definition nibble_text (v n : Z) : list Z := (fun k => hex_char ((v .>> (4 * (n - 1 - k))) .& 0xf)) <$> seqZ 0 n.
Lemma nibble_range x : 0 <= x .& 0xf < 16.
Proof. change 0xf with (Z.ones 4). rewrite Z.land_ones by lia. apply Z.mod_pos_bound. lia. Qed.
Lemma parse_digits_text v n : 0 <= v < 2 ^ 64 -> parse_digits (nibble_text v (Z.of_nat n)) (v .>> (4 * Z.of_nat n)) = Some v.
Proof.
  intros Hv. induction n as [|n IH]; [cbn; by rewrite Z.shiftr_0_r|].
  unfold nibble_text. rewrite seqZ_cons by lia. rewrite fmap_cons. cbn [parse_digits].
  rewrite hex_char_value by apply nibble_range.
  pose proof (nibble_range (v .>> (4 * (Z.of_nat (S n) - 1 - 0)))) as Hr.
  destruct (Z.ltb_spec ((v .>> (4 * (Z.of_nat (S n) - 1 - 0))) .& 0xf) 0); [lia|]. clear Hr.
  replace (Z.of_nat (S n) - 1 - 0) with (Z.of_nat n) by lia.
  replace (4 * Z.of_nat (S n)) with (4 * (Z.of_nat n + 1)) by lia. rewrite shift_nibble by lia.
  etransitivity; [|exact IH]. f_equal. unfold nibble_text. replace (Z.pred (Z.of_nat (S n))) with (Z.of_nat n) by lia.
  change (Z.succ 0) with (1 + 0). rewrite <- fmap_add_seqZ, <- list_fmap_compose. apply list_fmap_ext.
  intros i k _. cbn. do 4 f_equal. lia.
Qed.
Lemma significant_digits v : 0 <= v < 2 ^ 64 ->
  let n := Z.max 1 (16 - countl_zero v / 4) in 1 <= n <= 16 ∧ v < 2 ^ (4 * n).
Proof.
  intros Hv. cbv zeta. unfold countl_zero. destruct (Z.eqb_spec v 0) as [->|Hne]; [done|].
  assert (0 <= Z.log2 v <= 63) as Hl.
  { split; [apply Z.log2_nonneg|]. assert (Z.log2 v < 64) by (apply Z.log2_lt_pow2; lia). lia. }
  pose proof (Z.log2_spec v ltac:(lia)) as [_ Hup].
  set (q := (63 - Z.log2 v) / 4). assert (0 <= q ∧ 4 * q <= 63 - Z.log2 v) as Hq.
  { unfold q. split; [apply Z.div_pos; lia | apply Z.mul_div_le; lia]. }
  split; [lia|]. eapply Z.lt_le_trans; [exact Hup|]. apply Z.pow_le_mono_r; lia.
Qed.
Lemma drop_digits v n : 1 <= n <= 16 ->
  drop (Z.to_nat (16 - n)) ((fun index => hex_char ((v .>> (4 * (15 - index))) .& 0xf)) <$> seqZ 0 16) = nibble_text v n.
Proof.
  intros Hn. replace 16 with ((16 - n) + n) at 2 by lia. rewrite seqZ_app by lia.
  rewrite fmap_app, drop_app_length' by (rewrite length_fmap, length_seqZ; lia).
  unfold nibble_text. replace (0 + (16 - n)) with ((16 - n) + 0) by lia.
  rewrite <- (fmap_add_seqZ (16 - n) 0 n), <- list_fmap_compose. apply list_fmap_ext.
  intros i k _. cbn. do 4 f_equal. lia.
Qed.
Lemma parseHex_number v m text : 0 <= v < 2 ^ 64 -> hexNumber v m = Some text -> parseHex text = Some v.
Proof.
  intros Hv. unfold hexNumber. destruct (significant_digits v Hv) as [Hs Hlt]. cbv zeta.
  set (s := Z.max 1 (16 - countl_zero v / 4)) in *. destruct (Z.ltb_spec 16 (Z.max m s)); [done|].
  set (n := Z.max m s) in *. intros <-%(inj Some). rewrite drop_digits by lia. unfold parseHex.
  assert (length (nibble_text v n) = Z.to_nat n) as Hl by (unfold nibble_text; by rewrite length_fmap, length_seqZ).
  rewrite Hl. destruct (Z.eqb_spec (Z.of_nat (Z.to_nat n)) 0); [lia|].
  destruct (Z.ltb_spec 16 (Z.of_nat (Z.to_nat n))); [lia|]. cbn [orb].
  replace n with (Z.of_nat (Z.to_nat n)) by lia. rewrite <- (parse_digits_text v (Z.to_nat n)) by done. f_equal.
  rewrite Z.shiftr_div_pow2 by lia. symmetry. apply Z.div_small. split; [lia|].
  eapply Z.lt_le_trans; [exact Hlt|]. apply Z.pow_le_mono_r; lia.
Qed.

(** ** Escaped binary data *)

(** The encoding of binary data that the protocol defines: [#], [$], [}] and [*] are sent as [}]
    and the byte with bit five flipped. *)
Definition escape_byte (b : Z) : list Z :=
  if (b =? 0x23) || (b =? 0x24) || (b =? escape_mark) || (b =? 0x2a) then [escape_mark; b .^ 0x20] else [b].
Lemma decodeBinaryBytes_escaped bytes : decodeBinaryBytes (mbind escape_byte bytes) = Some bytes.
Proof.
  induction bytes as [|b bytes IH]; [done|]. rewrite bind_cons. unfold escape_byte at 1.
  destruct (_ || _) eqn:E.
  - cbn -[Z.lxor]. rewrite IH. cbn -[Z.lxor]. by rewrite Z.lxor_assoc, Z.lxor_nilpotent, Z.lxor_0_r.
  - apply orb_false_iff in E as [E _]. apply orb_false_iff in E as [_ E]. cbn. rewrite E, IH. done.
Qed.

(** ** Framing *)

Lemma checksum_u8 payload : is_u8 (checksum payload).
Proof.
  unfold checksum. assert (is_u8 0) as H0 by (unfold is_u8; lia). revert H0. generalize 0.
  induction payload as [|c payload IH]; intros s Hs; [done|]. apply IH, u8_range.
Qed.
Lemma frame_digits payload : hexValue (checksum payload) 1
  = [hex_char (checksum payload .>> 4); hex_char (checksum payload .& 0x0f)].
Proof.
  change (hexValue (checksum payload) 1) with (hex_byte ((checksum payload .>> 0) .& 0xff)).
  rewrite Z.shiftr_0_r, <- u8_land, u8_small by apply checksum_u8. done.
Qed.
Lemma expected_checksum_digits c : is_u8 c -> expected_checksum (hex_char (c .>> 4)) (hex_char (c .& 0x0f)) = c.
Proof.
  intros Hc. destruct (nibbles c Hc) as (Hh & Hl & E). unfold expected_checksum, digit_or_zero.
  rewrite !hex_char_value by done. destruct (Z.ltb_spec (c .>> 4) 0); [lia|]. destruct (Z.ltb_spec (c .& 0x0f) 0); [lia|].
  rewrite E. by apply u8_small.
Qed.

Section framing.
Context `{Scripted T}.
Implicit Types t : T.

(** The outcome of [read_payload] on an input: the payload up to the first [#], or nothing. *)
Lemma read_payload_frame fuel acc payload rest t : (length payload < fuel)%nat -> 0x23 ∉ payload ->
  Z.of_nat (length acc + length payload) <= maximum_packet_bytes -> incoming t = payload ++ 0x23 :: rest ->
  ∃ t', read_payload fuel acc t = Some (Some (acc ++ payload), t') ∧ incoming t' = rest ∧ written t' = written t.
Proof.
  revert fuel acc t. induction payload as [|b payload IH]; intros [|fuel] acc t Hf Hn Hl Hi; cbn in Hf; [lia| |lia|]; cbn [read_payload].
  - destruct (read_next t 0x23 rest Hi) as (t' & -> & Hi' & Hw). cbn. exists t'. by rewrite app_nil_r.
  - destruct (read_next t b (payload ++ 0x23 :: rest) Hi) as (t' & -> & Hi' & Hw). cbn [length] in Hl.
    apply not_elem_of_cons in Hn as [Hb Hn]. destruct (Z.eqb_spec b 0x23); [congruence|].
    destruct (Z.leb_spec maximum_packet_bytes (Z.of_nat (length acc))); [lia|].
    destruct (IH fuel (acc ++ [b]) t') as (t2 & -> & Hi2 & Hw2); [lia | done | rewrite length_app; cbn; lia | done|].
    exists t2. rewrite <- app_assoc. split; [done|]. split; [done | congruence].
Qed.
(** It always ends, and consumes input. *)
Lemma read_payload_ends fuel acc t : (length acc <= Z.to_nat maximum_packet_bytes)%nat ->
  (Z.to_nat maximum_packet_bytes - length acc < fuel)%nat ->
  ∃ r t', read_payload fuel acc t = Some (r, t') ∧ (length (incoming t') <= length (incoming t))%nat.
Proof.
  revert acc t. induction fuel as [|fuel IH]; intros acc t Ha Hf; [lia|]. cbn [read_payload].
  destruct (incoming t) as [|b rest] eqn:Hi.
  - destruct (read_end t Hi) as (t' & -> & Hi' & _). exists None, t'. by rewrite Hi'.
  - destruct (read_next t b rest Hi) as (t' & -> & Hi' & _). destruct (b =? 0x23); [eexists _, t'; rewrite Hi'; cbn; split; [done | lia]|].
    destruct (Z.leb_spec maximum_packet_bytes (Z.of_nat (length acc))); [exists None, t'; rewrite Hi'; cbn; split; [done | lia]|].
    destruct (IH (acc ++ [b]) t') as (r & t2 & -> & Hl); [rewrite length_app; cbn; lia..|].
    exists r, t2. split; [done|]. rewrite Hi' in Hl. cbn. lia.
Qed.

Definition acknowledgement (c : RspConnection) (byte : Z) : list (list Z) := if rc_no_ack c then [] else [[byte]].
Lemma write_if_ack c byte t : ∃ t', write_if (negb (rc_no_ack c)) [byte] t = (true, t')
  ∧ incoming t' = incoming t ∧ written t' = written t ++ acknowledgement c byte.
Proof.
  unfold write_if, acknowledgement. destruct (rc_no_ack c); cbn [negb]; [exists t; by rewrite app_nil_r | apply write_succeeds].
Qed.

(** A frame is read back as its payload, and acknowledged. *)
Lemma readPacket_frame fuel c payload rest t : 0x23 ∉ payload -> Z.of_nat (length payload) <= maximum_packet_bytes ->
  incoming t = frame_of payload ++ rest ->
  ∃ t', readPacket (S fuel) c t = Some (Some payload, t') ∧ incoming t' = rest
    ∧ written t' = written t ++ acknowledgement c 0x2b.
Proof.
  intros Hn Hl Hi. unfold frame_of in Hi. rewrite frame_digits in Hi.
  cbn [readPacket]. rewrite <- !app_assoc in Hi. cbn [app] in Hi.
  destruct (read_next t _ _ Hi) as (t1 & -> & Hi1 & Hw1). cbn [Z.eqb negb].
  destruct (read_payload_frame payload_fuel [] payload _ t1 ltac:(unfold payload_fuel; lia) Hn Hl Hi1) as (t2 & -> & Hi2 & Hw2).
  cbn [mbind option_bind app].
  destruct (read_next t2 _ _ Hi2) as (t3 & -> & Hi3 & Hw3). destruct (read_next t3 _ _ Hi3) as (t4 & -> & Hi4 & Hw4).
  rewrite expected_checksum_digits, Z.eqb_refl by apply checksum_u8. cbn [negb].
  destruct (write_if_ack c 0x2b t4) as (t5 & -> & Hi5 & Hw5). exists t5. split; [done|]. split; congruence.
Qed.

(** A frame with another checksum is refused, and reading goes on behind it. *)
Lemma readPacket_corrupt fuel c payload high low rest t : 0x23 ∉ payload -> Z.of_nat (length payload) <= maximum_packet_bytes ->
  expected_checksum high low <> checksum payload -> incoming t = [0x24] ++ payload ++ [0x23; high; low] ++ rest ->
  ∃ t', readPacket (S fuel) c t = readPacket fuel c t' ∧ incoming t' = rest ∧ written t' = written t ++ acknowledgement c 0x2d.
Proof.
  intros Hn Hl Hc Hi. cbn [app] in Hi. cbn [readPacket].
  destruct (read_next t _ _ Hi) as (t1 & -> & Hi1 & Hw1). cbn [Z.eqb negb].
  destruct (read_payload_frame payload_fuel [] payload _ t1 ltac:(unfold payload_fuel; lia) Hn Hl Hi1) as (t2 & -> & Hi2 & Hw2).
  cbn [mbind option_bind app].
  destruct (read_next t2 _ _ Hi2) as (t3 & -> & Hi3 & Hw3). destruct (read_next t3 _ _ Hi3) as (t4 & -> & Hi4 & Hw4).
  rewrite (proj2 (Z.eqb_neq (checksum payload) (expected_checksum high low))) by by apply not_eq_sym. cbn [negb].
  destruct (write_if_ack c 0x2d t4) as (t5 & -> & Hi5 & Hw5). exists t5. split; [done|]. split; congruence.
Qed.

(** Reading ends for every input. *)
Lemma readPacket_ends fuel c t : (length (incoming t) < fuel)%nat -> is_Some (readPacket fuel c t).
Proof.
  revert t. induction fuel as [|fuel IH]; intros t Hf; [lia|]. cbn [readPacket].
  destruct (incoming t) as [|b rest] eqn:Hi; cbn in Hf.
  { destruct (read_end t Hi) as (t' & -> & _). done. }
  destruct (read_next t b rest Hi) as (t1 & -> & Hi1 & _).
  destruct (b =? 0x2b); [apply IH; rewrite Hi1; lia|]. destruct (b =? 0x2d).
  { unfold write_if. destruct (rc_have_last_frame c); [|apply IH; rewrite Hi1; lia].
    destruct (write_succeeds (rc_last_frame c) t1) as (t2 & -> & Hi2 & _). apply IH. rewrite Hi2, Hi1. lia. }
  destruct (negb (b =? 0x24)); [apply IH; rewrite Hi1; lia|].
  destruct (read_payload_ends payload_fuel [] t1) as (r & t2 & -> & Hl2); [unfold payload_fuel; cbn [length]; lia..|].
  rewrite Hi1 in Hl2. cbn [mbind option_bind]. destruct r as [payload|]; [|done].
  assert (∀ t, ∃ o t', readByte t = (o, t') ∧ (length (incoming t') <= length (incoming t))%nat) as Hread.
  { intros u. destruct (incoming u) as [|x l] eqn:Hu.
    - destruct (read_end u Hu) as (u' & -> & Hu' & _). exists None, u'. by rewrite Hu'.
    - destruct (read_next u x l Hu) as (u' & -> & Hu' & _). exists (Some x), u'. rewrite Hu'. cbn. split; [done | lia]. }
  destruct (Hread t2) as (high & t3 & -> & Hl3). destruct (Hread t3) as (low & t4 & -> & Hl4).
  destruct high as [high|]; [|done]. destruct low as [low|]; [|done].
  destruct (negb (checksum payload =? _)).
  - destruct (write_if_ack c 0x2d t4) as (t5 & -> & Hi5 & _). apply IH. rewrite Hi5. lia.
  - destruct (write_if_ack c 0x2b t4) as (t5 & -> & _). done.
Qed.

(** Acknowledgements and noise before a frame are skipped. *)
Lemma readPacket_noise noise fuel c rest t : Forall (fun b => b <> 0x24 ∧ b <> 0x2d) noise ->
  incoming t = noise ++ rest ->
  ∃ t', readPacket (length noise + fuel) c t = readPacket fuel c t' ∧ incoming t' = rest ∧ written t' = written t.
Proof.
  intros Hn. revert t. induction Hn as [|b noise [Hd Hm] Hn IH]; intros t Hi; [by exists t|].
  cbn [length Nat.add readPacket]. destruct (read_next t b (noise ++ rest) Hi) as (t1 & -> & Hi1 & Hw1).
  destruct (IH t1 Hi1) as (t2 & E & Hi2 & Hw2). exists t2. split; [|split; congruence].
  destruct (Z.eqb_spec b 0x2b); [done|]. destruct (Z.eqb_spec b 0x2d); [done|]. destruct (Z.eqb_spec b 0x24); [done|]. done.
Qed.
(** A packet is sent once, and again for every rejection, until it is acknowledged. *)
Lemma await_ack_rejected fuel n frame rest t : (n < fuel)%nat -> incoming t = replicate n 0x2d ++ 0x2b :: rest ->
  ∃ t', await_ack fuel frame t = Some (true, t') ∧ incoming t' = rest ∧ written t' = written t ++ replicate n frame.
Proof.
  revert n t. induction fuel as [|fuel IH]; intros n t Hf Hi; [lia|]. cbn [await_ack]. destruct n as [|n]; cbn in Hi.
  - destruct (read_next t _ _ Hi) as (t1 & -> & Hi1 & Hw1). exists t1. by rewrite app_nil_r.
  - destruct (read_next t _ _ Hi) as (t1 & -> & Hi1 & Hw1). cbn [Z.eqb].
    destruct (write_succeeds frame t1) as (t2 & -> & Hi2 & Hw2).
    destruct (IH n t2 ltac:(lia) ltac:(congruence)) as (t3 & -> & Hi3 & Hw3).
    exists t3. split; [done|]. split; [done|]. rewrite Hw3, Hw2, Hw1, <- app_assoc. done.
Qed.
End framing.

(** ** A scripted transport *)

Record Script := mkScript { script_input : list Z; script_output : list (list Z) }.
#[export] Instance script_transport : RspTransport Script := {|
  readByte (s : Script) :=
    match script_input s with
    | [] => (None, s)
    | b :: rest => (Some b, {| s with script_input := rest |})
    end;
  transport_write bytes (s : Script) := (true, {| s with script_output := script_output s ++ [bytes] |});
|}.
#[export] Instance script_scripted : Scripted Script.
Proof.
  refine {| incoming := script_input; written := script_output |}.
  - intros [input output] b rest Hi. cbn in Hi. subst input. by eexists.
  - intros [input output] Hi. cbn in Hi. subst input. by eexists.
  - intros bytes [input output]. by eexists.
Defined.
