(* ===== verification/DebugRegisters.v ===== *)
(** * Register access of the debugger

    Models [src/debug/registers.cpp] with [src/debug/registers.hpp]: the target description, the
    [g], [G], [p] and [P] packets over the core state, and the chunked transfer of documents, also
    used for the memory map of [src/debug/memory_map.cpp]. *)

From stdpp Require Import prelude gmap sorting.
From S2P Require Import Prelude Address Instruction InstructionProofs CpuState CpuStateProofs MemoryApi Common Trace.
From S2P Require Import MemoryBus Rsp.
#[local] Open Scope Z_scope.
#[local] Open Scope fil_scope.
Import Rsp.

Module DebugRegisters.

Definition sp_register_index : Z := 13.
Definition lr_register_index : Z := 14.
Definition pc_register_index : Z := 15.
Definition xpsr_register_index : Z := 16.
Definition msp_register_index : Z := 17.
Definition psp_register_index : Z := 18.
Definition control_register_index : Z := 19.
Definition primask_register_index : Z := 20.
Definition basepri_register_index : Z := 21.
Definition faultmask_register_index : Z := 22.
Definition double_register_base : Z := 23.
Definition double_register_count : Z := 16.
Definition fpscr_register_index : Z := 39.
Definition register_count : Z := 40.
Definition double_register_nibbles : Z := 16.
Definition single_register_nibbles : Z := 8.

Definition wideRegisterIndex (index : Z) : bool :=
  (double_register_base <=? index) && (index <? double_register_base + double_register_count).
Definition refreshActiveSpMirror (st : CpuState) : CpuState := set_reg sp_register_index (activeSp st) st.

(** ** Reading *)

Definition double_value (st : CpuState) (pair : Z) : Z := sreg st (pair * 2) .| (sreg st (pair * 2 + 1) .<< 32).

Definition readAllRegisters (st : CpuState) : list Z :=
  mbind (fun index => hexValue (reg st index) 4) (seqZ 0 sp_register_index)
  ++ hexValue (readRegister st sp_register_index) 4
  ++ hexValue (reg st lr_register_index) 4
  ++ hexValue (reg st pc_register_index .& not32 1) 4
  ++ hexValue (cs_xpsr st) 4
  ++ hexValue (cs_msp st) 4
  ++ hexValue (cs_psp st) 4
  ++ hexValue (cs_control st) 4
  ++ hexValue (cs_primask st) 4
  ++ hexValue (cs_basepri st) 4
  ++ hexValue (cs_faultmask st) 4
  ++ mbind (fun index => hexValue (double_value st index) 8) (seqZ 0 double_register_count)
  ++ hexValue (cs_fpscr st) 4.

Definition readSingleRegister (st : CpuState) (index : Z) : option (list Z) :=
  if index <? sp_register_index then Some (hexValue (reg st index) 4)
  else if index =? sp_register_index then Some (hexValue (readRegister st index) 4)
  else if index =? lr_register_index then Some (hexValue (reg st lr_register_index) 4)
  else if index =? pc_register_index then Some (hexValue (reg st pc_register_index .& not32 1) 4)
  else if index =? xpsr_register_index then Some (hexValue (cs_xpsr st) 4)
  else if index =? msp_register_index then Some (hexValue (cs_msp st) 4)
  else if index =? psp_register_index then Some (hexValue (cs_psp st) 4)
  else if index =? control_register_index then Some (hexValue (cs_control st) 4)
  else if index =? primask_register_index then Some (hexValue (cs_primask st) 4)
  else if index =? basepri_register_index then Some (hexValue (cs_basepri st) 4)
  else if index =? faultmask_register_index then Some (hexValue (cs_faultmask st) 4)
  else if index =? fpscr_register_index then Some (hexValue (cs_fpscr st) 4)
  else if wideRegisterIndex index then Some (hexValue (double_value st (index - double_register_base)) 8)
  else None.

(** ** Writing *)

(** The IT bits of an xPSR value. *)
Definition it_bits (word : Z) : Z := u8 (((word .>> 25) .& 0x3) .| (((word .>> 10) .& 0x3f) .<< 2)).

Definition writeSingleRegister (index value : Z) (st : CpuState) : bool * CpuState :=
  let word := u32 value in
  if index <? sp_register_index then (true, set_reg index word st)
  else if index =? sp_register_index then (true, writeRegister index word st)
  else if index =? lr_register_index then (true, set_reg lr_register_index word st)
  else if index =? pc_register_index then (true, set_reg pc_register_index (word .& not32 1) st)
  else if index =? xpsr_register_index then
    (true, refreshActiveSpMirror {| st with cs_xpsr := word; cs_thumb := has word xpsr_t; cs_it_state := it_bits word |})
  else if index =? msp_register_index then (true, refreshActiveSpMirror {| st with cs_msp := word |})
  else if index =? psp_register_index then (true, refreshActiveSpMirror {| st with cs_psp := word |})
  else if index =? control_register_index then (true, refreshActiveSpMirror {| st with cs_control := word |})
  else if index =? primask_register_index then (true, {| st with cs_primask := word |})
  else if index =? basepri_register_index then (true, {| st with cs_basepri := word |})
  else if index =? faultmask_register_index then (true, {| st with cs_faultmask := word |})
  else if index =? fpscr_register_index then (true, {| st with cs_fpscr := word |})
  else if wideRegisterIndex index then
    let pair := index - double_register_base in
    (true, set_sreg (pair * 2 + 1) (u32 (value .>> 32)) (set_sreg (pair * 2) word st))
  else (false, st).

Definition register_nibbles (index : Z) : Z :=
  if wideRegisterIndex index then double_register_nibbles else single_register_nibbles.
(** The loop over the registers; a failure keeps what was written before it. *)
Fixpoint write_registers (indices : list Z) (text : list Z) (st : CpuState) : bool * CpuState :=
  match indices with
  | [] => (bool_decide (text = []), st)
  | index :: indices =>
      let nibbles := register_nibbles index in
      if Z.of_nat (length text) <? nibbles then (false, st)
      else
        match parseLittleEndianHex (take (Z.to_nat nibbles) text) with
        | None => (false, st)
        | Some value =>
            let '(ok, st) := writeSingleRegister index value st in
            if ok then write_registers indices (drop (Z.to_nat nibbles) text) st else (false, st)
        end
  end.
Definition writeAllRegisters (text : list Z) (st : CpuState) : bool * CpuState :=
  write_registers (seqZ 0 register_count) text st.

(** ** Documents in chunks *)

(** The reply to a read of [requested] bytes at [offset] of a document. *)
Definition chunk_reply (document : list Z) (offset requested : Z) : list Z :=
  let size := Z.of_nat (length document) in
  if size <=? offset then bytes_of "l"
  else
    let available := size - offset in
    let count := Z.min requested available in
    (if count <? available then bytes_of "m" else bytes_of "l")
    ++ take (Z.to_nat count) (drop (Z.to_nat offset) document).

(** Position of the first and of the last occurrence of a character. *)
Fixpoint find_char (c : Z) (text : list Z) : option nat :=
  match text with
  | [] => None
  | b :: text => if b =? c then Some O else S <$> find_char c text
  end.
Definition rfind_char (c : Z) (text : list Z) : option nat :=
  (fun k => length text - 1 - k)%nat <$> find_char c (reverse text).

(** The suffix after a prefix. *)
Definition strip_prefix (prefix text : list Z) : option (list Z) :=
  if bool_decide (take (length prefix) text = prefix) then Some (drop (length prefix) text) else None.

(** A range [offset,length] and its reply; [E01] when it does not parse. *)
Definition range_reply (document : list Z) (range : list Z) : list Z :=
  match find_char 0x2c range with
  | None => bytes_of "E01"
  | Some comma =>
      match parseHex (take comma range), parseHex (drop (S comma) range) with
      | Some offset, Some requested => chunk_reply document offset requested
      | _, _ => bytes_of "E01"
      end
  end.

Definition q : string := String quote EmptyString.
Definition attribute (name value : string) : string := " " +:+ name +:+ "=" +:+ q +:+ value +:+ q.
Definition new_line : string := String (Ascii.ascii_of_nat 10) EmptyString.
Definition reg_element (name bitsize type : string) : string :=
  "    <reg" +:+ attribute "name" name +:+ attribute "bitsize" bitsize +:+ attribute "type" type +:+ "/>" +:+ new_line.
Definition concat_text (l : list string) : string := foldr String.append EmptyString l.
Definition core_names : list string :=
  ["r0"; "r1"; "r2"; "r3"; "r4"; "r5"; "r6"; "r7"; "r8"; "r9"; "r10"; "r11"; "r12"].
Definition double_names : list string :=
  ["d0"; "d1"; "d2"; "d3"; "d4"; "d5"; "d6"; "d7"; "d8"; "d9"; "d10"; "d11"; "d12"; "d13"; "d14"; "d15"].

Definition target_description : string :=
  "<?xml" +:+ attribute "version" "1.0" +:+ "?>" +:+ new_line
  +:+ "<!DOCTYPE target SYSTEM " +:+ q +:+ "gdb-target.dtd" +:+ q +:+ ">" +:+ new_line
  +:+ "<target>" +:+ new_line
  +:+ "  <architecture>arm</architecture>" +:+ new_line
  +:+ "  <feature" +:+ attribute "name" "org.gnu.gdb.arm.m-profile" +:+ ">" +:+ new_line
  +:+ concat_text ((fun name => reg_element name "32" "uint32") <$> core_names)
  +:+ reg_element "sp" "32" "data_ptr" +:+ reg_element "lr" "32" "uint32" +:+ reg_element "pc" "32" "code_ptr"
  +:+ reg_element "xpsr" "32" "uint32" +:+ reg_element "msp" "32" "data_ptr" +:+ reg_element "psp" "32" "data_ptr"
  +:+ reg_element "control" "32" "uint32" +:+ reg_element "primask" "32" "uint32" +:+ reg_element "basepri" "32" "uint32"
  +:+ reg_element "faultmask" "32" "uint32"
  +:+ "  </feature>" +:+ new_line
  +:+ "  <feature" +:+ attribute "name" "org.gnu.gdb.arm.vfp" +:+ ">" +:+ new_line
  +:+ concat_text ((fun name => reg_element name "64" "ieee_double") <$> double_names)
  +:+ reg_element "fpscr" "32" "int"
  +:+ "  </feature>" +:+ new_line
  +:+ "</target>" +:+ new_line.

Definition readFeaturePacket (packet : list Z) : option (list Z) :=
  spec ← strip_prefix (bytes_of "qXfer:features:read:") packet;
  colon ← rfind_char 0x3a spec;
  if bool_decide (take colon spec <> bytes_of "target.xml") then None
  else Some (range_reply (bytes_of target_description) (drop (S colon) spec)).

(** ** The memory map *)

Definition region_element (r : Region) : string :=
  let element type close :=
    "  <memory" +:+ attribute "type" type +:+ attribute "start" (Trace.hexValue (rg_base r) 0) +:+ " length=" +:+ q
    +:+ Trace.hexValue (rg_size r) 0 +:+ q +:+ close in
  let plain type := element type ("/>" +:+ new_line) in
  if (rg_size r =? 0) || negb (rg_readable r) then EmptyString
  else
    match rg_kind r with
    | RegionKind.ram => plain "ram"
    | RegionKind.rom => plain "rom"
    | RegionKind.flash =>
        element "flash" (">" +:+ new_line +:+ "    <property" +:+ attribute "name" "blocksize" +:+ ">0x800</property>"
          +:+ new_line +:+ "  </memory>" +:+ new_line)
    | RegionKind.alias | RegionKind.mmio => EmptyString
    end.
Definition memoryMapXml (regions : list Region) : string :=
  "<?xml" +:+ attribute "version" "1.0" +:+ "?>" +:+ new_line
  +:+ "<!DOCTYPE memory-map PUBLIC " +:+ q +:+ "+//IDN gnu.org//DTD GDB Memory Map V1.0//EN" +:+ q +:+ " " +:+ q
  +:+ "http://sourceware.org/gdb/gdb-memory-map.dtd" +:+ q +:+ ">" +:+ new_line
  +:+ "<memory-map>" +:+ new_line
  +:+ concat_text (region_element <$> merge_sort base_le regions)
  +:+ "</memory-map>" +:+ new_line.
Definition readMemoryMapPacket (regions : list Region) (packet : list Z) : option (list Z) :=
  spec ← strip_prefix (bytes_of "qXfer:memory-map:read:") packet;
  match spec with
  | colon :: range =>
      if negb (colon =? 0x3a) then Some (bytes_of "E01")
      else Some (range_reply (bytes_of (memoryMapXml regions)) range)
  | [] => Some (bytes_of "E01")
  end.
End DebugRegisters.

(** * The debugger sees and restores the registers *)

Import Rsp DebugRegisters.

(** ** Registers *)

(** The value of each register the debugger shows, and its width in bytes. *)
Definition visible (st : CpuState) (index : Z) : Z :=
  if index <? 13 then reg st index
  else if index =? 13 then activeSp st
  else if index =? 14 then reg st 14
  else if index =? 15 then reg st 15 .& not32 1
  else if index =? 16 then cs_xpsr st
  else if index =? 17 then cs_msp st
  else if index =? 18 then cs_psp st
  else if index =? 19 then cs_control st
  else if index =? 20 then cs_primask st
  else if index =? 21 then cs_basepri st
  else if index =? 22 then cs_faultmask st
  else if index =? 39 then cs_fpscr st
  else double_value st (index - 23).
Definition register_bytes (index : Z) : Z := if wideRegisterIndex index then 8 else 4.

Lemma seqZ_registers (P : Z -> Prop) : (∀ i, i ∈ seqZ 0 register_count -> P i) <-> (∀ i, 0 <= i < 40 -> P i).
Proof.
  split; intros HP i Hi; apply HP; [apply elem_of_seqZ; unfold register_count; lia|].
  apply elem_of_seqZ in Hi. unfold register_count in Hi. lia.
Qed.

Lemma readSingleRegister_visible st index : index < 40 ->
  readSingleRegister st index = Some (hexValue (visible st index) (register_bytes index)).
Proof.
  intros Hi. unfold readSingleRegister, visible, register_bytes, wideRegisterIndex, readRegister.
  unfold sp_register_index, lr_register_index, pc_register_index, xpsr_register_index, msp_register_index,
    psp_register_index, control_register_index, primask_register_index, basepri_register_index,
    faultmask_register_index, fpscr_register_index, double_register_base, double_register_count.
  repeat match goal with
  | |- context [?a <? ?b] => destruct (Z.ltb_spec a b)
  | |- context [?a =? ?b] => destruct (Z.eqb_spec a b)
  | |- context [?a <=? ?b] => destruct (Z.leb_spec a b)
  end; cbn [andb]; subst; try done; lia.
Qed.
Lemma readAllRegisters_visible st :
  readAllRegisters st = mbind (fun i => hexValue (visible st i) (register_bytes i)) (seqZ 0 register_count).
Proof.
  unfold readAllRegisters, register_count.
  change (seqZ 0 40) with (seqZ 0 13 ++ [13; 14; 15; 16; 17; 18; 19; 20; 21; 22] ++ (Z.add 23 <$> seqZ 0 16) ++ [39]).
  rewrite !bind_app, !bind_cons, <- !app_assoc. reflexivity.
Qed.

Lemma double_value_bound st pair : cpu_ok st -> 0 <= double_value st pair < 2 ^ 64.
Proof.
  intros Hst. unfold double_value. pose proof (rget_range (cs_s st) (pair * 2) (ok_s _ Hst)) as Hl.
  pose proof (rget_range (cs_s st) (pair * 2 + 1) (ok_s _ Hst)) as Hh. unfold sreg, is_u32 in *.
  rewrite Z.shiftl_mul_pow2, lor_disjoint_add by lia. change (2 ^ 32) with 4294967296. change (2 ^ 64) with (4294967296 * 4294967296). lia.
Qed.
Lemma visible_bound st index : cpu_ok st -> index < 40 -> 0 <= visible st index < 2 ^ (8 * register_bytes index) .
Proof.
  intros Hst Hi. assert (∀ x, is_u32 x -> 0 <= x < 2 ^ (8 * register_bytes index)) as Hw.
  { intros x Hx. unfold is_u32 in Hx. unfold register_bytes. destruct (wideRegisterIndex index).
    - change (2 ^ (8 * 8)) with 18446744073709551616. lia.
    - change (2 ^ (8 * 4)) with 4294967296. lia. }
  pose proof (fun i => rget_range (cs_r st) i (ok_r _ Hst)) as Hr. fold (reg st) in Hr.
  unfold visible. destruct (Z.ltb_spec index 13); [apply Hw, Hr|].
  destruct (Z.eqb_spec index 13); [apply Hw; unfold activeSp; destruct (uses_msp st); eauto with fil|].
  destruct (Z.eqb_spec index 14); [apply Hw, Hr|].
  destruct (Z.eqb_spec index 15); [apply Hw, is_u32_land_l, Hr|].
  repeat match goal with |- context [index =? ?k] => destruct (Z.eqb_spec index k); [apply Hw; eauto with fil|] end.
  unfold register_bytes, wideRegisterIndex, double_register_base, double_register_count.
  destruct (Z.leb_spec 23 index), (Z.ltb_spec index (23 + 16)); cbn [andb]; try lia. by apply double_value_bound.
Qed.

(** Writing the values of [from], one after the other. *)
Definition write_values (from : CpuState) (indices : list Z) (st : CpuState) : CpuState :=
  foldl (fun st i => snd (writeSingleRegister i (visible from i) st)) st indices.

Lemma writeSingleRegister_ok i value st : 0 <= i < 40 -> fst (writeSingleRegister i value st) = true.
Proof.
  intros Hi. unfold writeSingleRegister. cbv zeta.
  repeat (match goal with |- context [if ?c then _ else _] => destruct c eqn:? end; [done|]).
  unfold wideRegisterIndex, double_register_base, double_register_count, sp_register_index, fpscr_register_index,
    lr_register_index, pc_register_index, xpsr_register_index, msp_register_index, psp_register_index, control_register_index,
    primask_register_index, basepri_register_index, faultmask_register_index in *.
  rewrite ?Z.ltb_ge, ?Z.eqb_neq, ?andb_false_iff, ?Z.leb_gt in *. lia.
Qed.
Lemma hexValue_length value n : 0 <= n -> length (hexValue value n) = Z.to_nat (2 * n).
Proof.
  intros Hn. pose proof (hex_text_length ((fun k => value_byte value k) <$> seqZ 0 n)) as Hl.
  rewrite <- hexValue_text, length_fmap, length_seqZ in Hl. lia.
Qed.
Lemma register_nibbles_bytes i : register_nibbles i = 2 * register_bytes i ∧ 0 < register_bytes i <= 8.
Proof. unfold register_nibbles, register_bytes. by destruct (wideRegisterIndex i). Qed.

Lemma write_registers_text from indices st : cpu_ok from -> Forall (fun i => 0 <= i < 40) indices ->
  write_registers indices (mbind (fun i => hexValue (visible from i) (register_bytes i)) indices) st
  = (true, write_values from indices st).
Proof.
  intros Hf Hi. revert st. induction Hi as [|i indices Hi Hrest IH]; intros st; [done|].
  cbn [write_registers]. rewrite bind_cons. destruct (register_nibbles_bytes i) as [Hn Hb].
  assert (length (hexValue (visible from i) (register_bytes i)) = Z.to_nat (register_nibbles i)) as Hl
    by (rewrite hexValue_length; [by rewrite Hn | lia]).
  destruct (Z.ltb_spec (Z.of_nat (length (hexValue (visible from i) (register_bytes i)
    ++ mbind (fun i => hexValue (visible from i) (register_bytes i)) indices))) (register_nibbles i)) as [Hlt|_].
  { rewrite length_app, Hl in Hlt. lia. }
  rewrite <- Hl, take_app_length, drop_app_length.
  rewrite parseLittleEndianHex_value by (done || by apply visible_bound; [|lia]).
  pose proof (writeSingleRegister_ok i (visible from i) st Hi) as Hok.
  destruct (writeSingleRegister i (visible from i) st) as [ok st'] eqn:E. cbn in Hok. subst ok. rewrite IH.
  unfold write_values. cbn [foldl]. by rewrite E.
Qed.

(** The state after writing all registers of [from]. *)
Definition restored (from st : CpuState) : CpuState :=
  {| st with
     cs_r := take 13 (cs_r from) ++ [activeSp from; reg from 14; reg from 15 .& not32 1];
     cs_xpsr := cs_xpsr from;
     cs_msp := cs_msp from;
     cs_psp := cs_psp from;
     cs_control := cs_control from;
     cs_primask := cs_primask from;
     cs_basepri := cs_basepri from;
     cs_faultmask := cs_faultmask from;
     cs_thumb := has (cs_xpsr from) xpsr_t;
     cs_it_state := it_bits (cs_xpsr from);
     cs_s := cs_s from;
     cs_fpscr := cs_fpscr from |}.

(** The state after writing a value to every register, whatever the values. *)
Definition written_state (f : Z -> Z) (st : CpuState) : CpuState :=
  let st : CpuState :=
  {| st with
     cs_r := ((fun i => u32 (f i)) <$> seqZ 0 13) ++ [0; u32 (f 14); u32 (f 15) .& not32 1];
     cs_xpsr := u32 (f 16);
     cs_msp := u32 (f 17);
     cs_psp := u32 (f 18);
     cs_control := u32 (f 19);
     cs_primask := u32 (f 20);
     cs_basepri := u32 (f 21);
     cs_faultmask := u32 (f 22);
     cs_thumb := has (u32 (f 16)) xpsr_t;
     cs_it_state := it_bits (u32 (f 16));
     cs_s := mbind (fun k => [u32 (f (23 + k)); u32 (f (23 + k) .>> 32)]) (seqZ 0 16);
     cs_fpscr := u32 (f 39) |} in
  refreshActiveSpMirror st.
Lemma set_activeSp_shape v (st : CpuState) : ∃ m p, set_activeSp v st = {| st with cs_msp := m; cs_psp := p |}.
Proof. unfold set_activeSp. destruct (uses_msp st); [exists v, (cs_psp st) | exists (cs_msp st), v]; by destruct st. Qed.

(** A list of known length, element by element. *)
Ltac spell_out l := do 40 (try (destruct l as [|? l]; [discriminate|])); destruct l; [|discriminate].
Lemma foldl_written f st : length (cs_r st) = 16%nat -> length (cs_s st) = 32%nat ->
  foldl (fun st i => snd (writeSingleRegister i (f i) st)) st (seqZ 0 register_count) = written_state f st.
Proof.
  intros Hr Hs. change (seqZ 0 register_count) with (seqZ 0 13 ++ 13 :: seqZ 14 26). rewrite foldl_app.
  change (foldl ?g ?x (13 :: ?l)) with (foldl g (g x 13) l).
  match goal with |- foldl _ (_ ?x 13) _ = _ => set (st1 := x) end. cbv beta.
  change (snd (writeSingleRegister 13 (f 13) st1)) with (set_reg 13 (u32 (f 13)) (set_activeSp (u32 (f 13)) st1)).
  destruct (set_activeSp_shape (u32 (f 13)) st1) as (m & p & ->). subst st1.
  destruct st; cbn in Hr, Hs. spell_out cs_r. spell_out cs_s.
  reflexivity.
Qed.

Lemma double_low st k : cpu_ok st -> u32 (double_value st k) = sreg st (k * 2).
Proof.
  intros Hst. unfold double_value. pose proof (rget_range (cs_s st) (k * 2) (ok_s _ Hst)) as Hl.
  pose proof (rget_range (cs_s st) (k * 2 + 1) (ok_s _ Hst)) as Hh. unfold sreg, is_u32, u32 in *.
  rewrite Z.shiftl_mul_pow2, lor_disjoint_add by lia. change (2 ^ 32) with 0x100000000.
  rewrite Z.mod_add by lia. by apply Z.mod_small.
Qed.
Lemma double_high st k : cpu_ok st -> u32 (double_value st k .>> 32) = sreg st (k * 2 + 1).
Proof.
  intros Hst. unfold double_value. pose proof (rget_range (cs_s st) (k * 2) (ok_s _ Hst)) as Hl.
  pose proof (rget_range (cs_s st) (k * 2 + 1) (ok_s _ Hst)) as Hh. unfold sreg, is_u32, u32 in *.
  rewrite Z.shiftl_mul_pow2, lor_disjoint_add, Z.shiftr_div_pow2 by lia. change (2 ^ 32) with 0x100000000.
  rewrite Z.div_add, Z.div_small by lia. by apply Z.mod_small.
Qed.
Lemma written_doubles st : cpu_ok st ->
  mbind (fun k => [u32 (visible st (23 + k)); u32 (visible st (23 + k) .>> 32)]) (seqZ 0 16) = cs_s st.
Proof.
  intros Hst. transitivity (mbind (fun k => [sreg st (k * 2); sreg st (k * 2 + 1)]) (seqZ 0 16)).
  - apply Forall_bind_ext, Forall_forall. intros k Hk%elem_of_seqZ.
    assert (visible st (23 + k) = double_value st k) as ->.
    { unfold visible. repeat match goal with |- context [if ?c then _ else _] => destruct c eqn:?; [lia|] end. f_equal. lia. }
    by rewrite double_low, double_high.
  - pose proof (ok_s_length _ Hst) as Hl. destruct st; cbn in Hl |- *. spell_out cs_s. reflexivity.
Qed.

Lemma write_values_restored from st : cpu_ok from -> cpu_ok st ->
  write_values from (seqZ 0 register_count) st = restored from st.
Proof.
  intros Hf Hst. unfold write_values. rewrite foldl_written by eauto with fil. unfold written_state.
  rewrite written_doubles by done.
  assert (∀ i, i < 23 -> u32 (visible from i) = visible from i) as Hu.
  { intros i Hi. apply u32_small. pose proof (visible_bound from i Hf ltac:(lia)) as Hb. unfold register_bytes in Hb.
    assert (wideRegisterIndex i = false) as Hw by (unfold wideRegisterIndex, double_register_base, double_register_count; lia).
    rewrite Hw in Hb. exact Hb. }
  assert ((fun i => u32 (visible from i)) <$> seqZ 0 13 = take 13 (cs_r from)) as ->.
  { transitivity (reg from <$> seqZ 0 13).
    - apply list_fmap_ext. intros j i Hj%lookup_seqZ. rewrite Hu by lia. unfold visible. by destruct (Z.ltb_spec i 13); [|lia].
    - pose proof (ok_r_length _ Hf) as Hl. destruct from; cbn in Hl |- *. spell_out cs_r. reflexivity. }
  rewrite !Hu by lia. assert (u32 (visible from 39) = cs_fpscr from) as -> by (apply u32_small; eauto with fil).
  assert (length (take 13 (cs_r from)) = 13%nat) as Hl by (rewrite length_take, (ok_r_length _ Hf); done).
  change (visible from 15) with (reg from 15 .& not32 1). rewrite <- Z.land_assoc, Z.land_diag.
  unfold refreshActiveSpMirror, set_reg, rset. cbn [cs_r]. rewrite insert_app_r_alt by (rewrite Hl; unfold sp_register_index; lia).
  rewrite Hl. reflexivity.
Qed.

Lemma restored_visible from st i : cpu_ok from -> i < 40 -> visible (restored from st) i = visible from i.
Proof.
  intros Hf Hi. pose proof (ok_r_length _ Hf) as Hl. destruct from; cbn in Hl. spell_out cs_r.
  unfold visible. destruct (Z.ltb_spec i 13).
  - unfold reg, rget. cbn [restored CpuState.cs_r]. destruct (decide (0 <= i)).
    + f_equal. rewrite lookup_app_l by (cbn; lia). rewrite lookup_take_lt by lia. done.
    + replace (Z.to_nat i) with 0%nat by lia. done.
  - destruct (i =? 13); [reflexivity|]. destruct (i =? 14); [reflexivity|]. destruct (i =? 15).
    + set (x := z14). transitivity (x .& not32 1 .& not32 1); [reflexivity|]. by rewrite <- Z.land_assoc, Z.land_diag.
    + repeat (match goal with |- context [if ?c then _ else _] => destruct c end; [reflexivity|]). reflexivity.
Qed.

(** ** Documents in chunks *)

(** What a client does: read on while the reply starts with [m]. *)
Fixpoint transfer (fuel : nat) (document : list Z) (requested offset : Z) : option (list Z) :=
  match fuel with
  | O => None
  | S fuel =>
      match chunk_reply document offset requested with
      | [] => None
      | mark :: data =>
          if mark =? 0x6d then
            rest ← transfer fuel document requested (offset + Z.of_nat (length data));
            Some (data ++ rest)
          else Some data
      end
  end.
Lemma transfer_suffix fuel document requested offset : 0 < requested -> 0 <= offset ->
  Z.of_nat (length document) - offset < Z.of_nat fuel -> fuel <> O ->
  transfer fuel document requested offset = Some (drop (Z.to_nat offset) document).
Proof.
  intros Hr. revert offset. induction fuel as [|fuel IH]; intros offset Ho Hf Hne; [done|]. cbn [transfer].
  unfold chunk_reply. destruct (Z.leb_spec (Z.of_nat (length document)) offset).
  { cbn. by rewrite drop_ge by lia. }
  set (available := Z.of_nat (length document) - offset). set (count := Z.min requested available).
  assert (length (take (Z.to_nat count) (drop (Z.to_nat offset) document)) = Z.to_nat count) as Hl.
  { rewrite length_take, length_drop. lia. }
  destruct (Z.ltb_spec count available).
  - change (bytes_of "m") with [0x6d]. cbn [app]. change (0x6d =? 0x6d) with true. cbn iota.
    rewrite Hl, IH by lia. cbn [mbind option_bind].
    f_equal. rewrite <- (take_drop (Z.to_nat count) (drop (Z.to_nat offset) document)) at 2. f_equal.
    rewrite drop_drop. f_equal. lia.
  - change (bytes_of "l") with [0x6c]. cbn [app]. change (0x6c =? 0x6d) with false. cbn iota.
    f_equal. apply take_ge. rewrite length_drop. lia.
Qed.

(** ** The packets that ask for a chunk *)

Lemma find_char_first c l r : c ∉ l -> find_char c (l ++ c :: r) = Some (length l).
Proof.
  induction l as [|b l IH]; cbn; intros Hn; [by rewrite Z.eqb_refl|]. apply not_elem_of_cons in Hn as [Hb Hn].
  destruct (Z.eqb_spec b c); [congruence|]. by rewrite IH.
Qed.
Lemma rfind_char_last c l r : c ∉ r -> rfind_char c (l ++ c :: r) = Some (length l).
Proof.
  intros Hn. unfold rfind_char. rewrite reverse_app, reverse_cons, <- app_assoc. cbn [app].
  rewrite find_char_first by by rewrite elem_of_reverse. cbn. f_equal. rewrite length_app, length_reverse. cbn. lia.
Qed.
Lemma hexNumber_digits v m text : hexNumber v m = Some text -> Forall (fun b => b <> 0x2c ∧ b <> 0x3a) text.
Proof.
  unfold hexNumber. cbv zeta. destruct (_ <? _); [done|]. intros <-%(inj Some).
  apply Forall_drop, Forall_fmap, Forall_forall. intros k _. cbn.
  pose proof (nibble_range (v .>> (4 * (15 - k)))) as Hr. unfold hex_char. destruct (Z.ltb_spec (v .>> (4 * (15 - k)) .& 0xf) 10); lia.
Qed.
Lemma digits_not_in c text : c = 0x2c \/ c = 0x3a -> Forall (fun b => b <> 0x2c ∧ b <> 0x3a) text -> c ∉ text.
Proof. intros Hc Hf Hin. rewrite Forall_forall in Hf. specialize (Hf c Hin). cbn in Hf. lia. Qed.

Lemma range_reply_numbers document offset requested o n : 0 <= offset < 2 ^ 64 -> 0 <= requested < 2 ^ 64 ->
  hexNumber offset 0 = Some o -> hexNumber requested 0 = Some n ->
  range_reply document (o ++ 0x2c :: n) = chunk_reply document offset requested.
Proof.
  intros Ho Hr Eo En. unfold range_reply.
  rewrite find_char_first by (eapply digits_not_in; [by left | by eapply hexNumber_digits]).
  rewrite take_app_length. replace (drop (S (length o)) (o ++ 0x2c :: n)) with n.
  - by rewrite (parseHex_number offset 0 o), (parseHex_number requested 0 n).
  - change (0x2c :: n) with ([0x2c] ++ n). rewrite app_assoc, drop_app_length' by (rewrite length_app; cbn; lia). done.
Qed.
Lemma strip_prefix_app prefix text : strip_prefix prefix (prefix ++ text) = Some text.
Proof. unfold strip_prefix. rewrite take_app_length, drop_app_length. by rewrite bool_decide_eq_true_2. Qed.
Lemma readFeaturePacket_chunk offset requested o n : 0 <= offset < 2 ^ 64 -> 0 <= requested < 2 ^ 64 ->
  hexNumber offset 0 = Some o -> hexNumber requested 0 = Some n ->
  readFeaturePacket (bytes_of "qXfer:features:read:" ++ bytes_of "target.xml" ++ 0x3a :: o ++ 0x2c :: n)
  = Some (chunk_reply (bytes_of target_description) offset requested).
Proof.
  intros Ho Hr Eo En. unfold readFeaturePacket. rewrite strip_prefix_app. cbn [mbind option_bind].
  assert (0x3a ∉ o ++ 0x2c :: n) as Hn.
  { rewrite elem_of_app, elem_of_cons. intros [Hin|[Hin|Hin]]; [|done|].
    - eapply digits_not_in in Hin; [done | by right | by eapply hexNumber_digits].
    - eapply digits_not_in in Hin; [done | by right | by eapply hexNumber_digits]. }
  rewrite rfind_char_last by done. cbn [mbind option_bind]. rewrite take_app_length, bool_decide_eq_false_2 by (intros Hne; by apply Hne).
  replace (drop (S (length (bytes_of "target.xml"))) (bytes_of "target.xml" ++ 0x3a :: o ++ 0x2c :: n)) with (o ++ 0x2c :: n) by reflexivity.
  by rewrite (range_reply_numbers _ offset requested).
Qed.
Lemma readMemoryMapPacket_chunk regions offset requested o n : 0 <= offset < 2 ^ 64 -> 0 <= requested < 2 ^ 64 ->
  hexNumber offset 0 = Some o -> hexNumber requested 0 = Some n ->
  readMemoryMapPacket regions (bytes_of "qXfer:memory-map:read:" ++ 0x3a :: o ++ 0x2c :: n)
  = Some (chunk_reply (bytes_of (memoryMapXml regions)) offset requested).
Proof.
  intros Ho Hr Eo En. unfold readMemoryMapPacket. rewrite strip_prefix_app. cbn [mbind option_bind Z.eqb negb].
  change (0x3a =? 0x3a) with true. cbn [negb]. by rewrite (range_reply_numbers _ offset requested).
Qed.
