(* ===== verification/WindowSet.v ===== *)
(** * The window address set and the certificate check

    [MemoryBus::WindowAddressSet] (an open-addressed hash set with generation stamps) and
    [MemoryBus::ramInputsCompatibleSince], the single-pass journal check built on it.  The
    set is the abstract set of addresses inserted in the current pass; the check equals the
    quadratic definition that rescans the window for each entry. *)

From stdpp Require Import gmap sorting.
From S2P Require Import Prelude Address CpuState CpuStateProofs MemoryApi MemoryBus.
From S2P Require Import MemoryBusProofs BusAccess BusJournal.
#[local] Open Scope Z_scope.
#[local] Open Scope fil_scope.

(** ** The set *)

Record Slot := mkSlot { slot_address : Z; slot_stamp : Z }.
Definition slot_default : Slot := mkSlot 0 0.

(** [slots]: an absent key is a value-initialised slot. *)
Record WindowAddressSet := mkWindowSet { ws_slots : gmap Z Slot; ws_generation : Z }.

Definition window_set_size : Z := 0x4000.
Definition slot_at (w : WindowAddressSet) (index : Z) : Slot :=
  default slot_default (ws_slots w !! index).

Definition beginPass (w : WindowAddressSet) : WindowAddressSet :=
  let current := u32 (ws_generation w + 1) in
  if current =? 0
  then mkWindowSet ((fun slot => {| slot with slot_stamp := 0 |}) <$> ws_slots w) 1
  else {| w with ws_generation := current |}.

Definition address_hash (address : Z) : Z := u32 (address * 2654435761) .>> (32 - 14).
Definition next_index (index : Z) : Z := u32 (index + 1) .& (window_set_size - 1).

(** The probing loop, [fuel] slots of it at most; [None] when the fuel runs out. *)
Fixpoint probe (fuel : nat) (address index : Z) (w : WindowAddressSet)
    : option (bool * WindowAddressSet) :=
  match fuel with
  | O => None
  | S fuel =>
      let slot := slot_at w index in
      if negb (slot_stamp slot =? ws_generation w)
      then Some (true, {| w with ws_slots := <[index := mkSlot address (ws_generation w)]> (ws_slots w) |})
      else if slot_address slot =? address then Some (false, w)
      else probe fuel address (next_index index) w
  end.

(** [insertNew]: the loop visits each slot once at most. *)
Definition insertNew (address : Z) (w : WindowAddressSet) : option (bool * WindowAddressSet) :=
  probe (Z.to_nat window_set_size) address (address_hash address) w.

(** ** The certificate check *)

(** [region == nullptr || !region->contains(address)]: the last region found, or a lookup. *)
Definition cached_find {D} (cache : option (nat * Region)) (address : Z) (b : Bus D)
    : option (nat * Region) :=
  match cache with
  | Some (i, r) => if region_contains r address then Some (i, r) else find_region address (bus_regions b)
  | None => find_region address (bus_regions b)
  end.

Fixpoint certificate_loop {D} (entries : list BackedMutation) (footprint : ReadFootprint)
    (cache : option (nat * Region)) (w : WindowAddressSet) (b : Bus D)
    : option (bool * WindowAddressSet) :=
  match entries with
  | [] => Some (true, w)
  | mutation :: entries =>
      match cached_find cache (bm_address mutation) b with
      | None => Some (false, w)
      | Some (i, r) =>
          if is_mmio r || is_alias r then Some (false, w)
          else if negb (footprintContains footprint (bm_address mutation))
          then certificate_loop entries footprint (Some (i, r)) w b
          else
            '(fresh, w) ← insertNew (bm_address mutation) w;
            if negb fresh then certificate_loop entries footprint (Some (i, r)) w b
            else if negb (rget (rg_bytes r) (bm_address mutation - rg_base r)
                          =? bm_old_value mutation)
            then Some (false, w)
            else certificate_loop entries footprint (Some (i, r)) w b
      end
  end.

Definition ramInputsCompatibleSince {D} (ck : SideEffectCheckpoint) (footprint : ReadFootprint)
    (w : WindowAddressSet) (b : Bus D) : option (bool * WindowAddressSet) :=
  if negb (ck_journal_generation ck =? bus_journal_generation b)
     || negb (rf_complete footprint) || negb (bus_read_footprint_tracking b) || negb (in_window ck b)
  then Some (false, w)
  else if ck_mutation_sequence ck =? bus_mutation_sequence b then Some (true, w)
  else certificate_loop (journal_at b <$> window ck b) footprint None (beginPass w) b.

(** ** The set is a set *)

(** Slots of earlier passes carry earlier stamps. *)
Record ws_wf (w : WindowAddressSet) : Prop := {
  wf_generation : 0 <= ws_generation w < 0x100000000;
  wf_stamps i : 0 <= slot_stamp (slot_at w i) <= ws_generation w;
}.

Definition live (w : WindowAddressSet) (i : Z) : Prop := slot_stamp (slot_at w i) = ws_generation w.
Definition probe_index (a : Z) (k : Z) : Z := (address_hash a + k) mod window_set_size.

(** [w] holds the addresses [s] of the current pass, each on an unbroken probe chain. *)
Record ws_holds (w : WindowAddressSet) (s : gset Z) : Prop := {
  wh_wf : ws_wf w;
  wh_pass : 0 < ws_generation w;
  wh_member i : 0 <= i < window_set_size -> live w i -> slot_address (slot_at w i) ∈ s;
  wh_found a : a ∈ s -> ∃ k, 0 <= k < window_set_size /\ live w (probe_index a k)
    /\ slot_address (slot_at w (probe_index a k)) = a
    /\ ∀ j, 0 <= j < k -> live w (probe_index a j);
  wh_unique i j : 0 <= i < window_set_size -> 0 <= j < window_set_size -> live w i -> live w j ->
    slot_address (slot_at w i) = slot_address (slot_at w j) -> i = j;
}.

Lemma slot_at_clear w i :
  slot_at (mkWindowSet ((fun slot => {| slot with slot_stamp := 0 |}) <$> ws_slots w) 1) i
  = {| (slot_at w i) with slot_stamp := 0 |}.
Proof. unfold slot_at. cbn [ws_slots]. rewrite lookup_fmap. by destruct (ws_slots w !! i). Qed.

(** A new pass starts empty. *)
Lemma beginPass_empty w : ws_wf w -> ws_holds (beginPass w) ∅.
Proof.
  intros [Hg Hs]. unfold beginPass. cbv zeta. destruct (Z.eqb_spec (u32 (ws_generation w + 1)) 0) as [E|E].
  - assert (∀ i, ~ live (mkWindowSet ((fun slot => {| slot with slot_stamp := 0 |}) <$> ws_slots w) 1) i) as Hd.
    { intros i. unfold live. rewrite slot_at_clear. cbn. lia. }
    constructor; cbn [ws_generation].
    + constructor; cbn [ws_generation]; [lia|]. intros i. rewrite slot_at_clear. cbn. lia.
    + lia.
    + intros i _ Hl. by apply Hd in Hl.
    + intros a Ha. by apply not_elem_of_empty in Ha.
    + intros i j _ _ Hl. by apply Hd in Hl.
  - assert (u32 (ws_generation w + 1) = ws_generation w + 1) as Eu.
    { unfold u32 in *. destruct (Z.eq_dec (ws_generation w) 0xffffffff) as [G|]; [by rewrite G in E|].
      apply Z.mod_small. lia. }
    rewrite Eu in *.
    assert (∀ i, ~ live {| w with ws_generation := ws_generation w + 1 |} i) as Hd.
    { intros i Hl. unfold live in Hl. change (slot_at {| w with ws_generation := ws_generation w + 1 |} i)
        with (slot_at w i) in Hl. cbn in Hl. specialize (Hs i). lia. }
    constructor; cbn [ws_generation].
    + constructor; cbn [ws_generation].
      * unfold u32 in Eu. pose proof (Z.mod_pos_bound (ws_generation w + 1) 0x100000000). lia.
      * intros i. specialize (Hs i).
        change (slot_at {| w with ws_generation := ws_generation w + 1 |} i) with (slot_at w i). lia.
    + lia.
    + intros i _ Hl. by apply Hd in Hl.
    + intros a Ha. by apply not_elem_of_empty in Ha.
    + intros i j _ _ Hl. by apply Hd in Hl.
Qed.

(** ** Insertion *)

Lemma address_hash_range a : 0 <= address_hash a < window_set_size.
Proof.
  unfold address_hash, window_set_size. pose proof (u32_range (a * 2654435761)) as Hr. unfold is_u32 in Hr.
  rewrite Z.shiftr_div_pow2 by lia. change (2 ^ (32 - 14)) with 0x40000.
  split; [apply Z.div_pos; lia|]. apply Z.div_lt_upper_bound; lia.
Qed.
Lemma probe_index_range a k : 0 <= probe_index a k < window_set_size.
Proof. apply Z.mod_pos_bound. done. Qed.
Lemma probe_index_start a : probe_index a 0 = address_hash a.
Proof. unfold probe_index. rewrite Z.add_0_r. apply Z.mod_small, address_hash_range. Qed.
Lemma next_index_probe a k : 0 <= k -> next_index (probe_index a k) = probe_index a (k + 1).
Proof.
  intros Hk. pose proof (probe_index_range a k) as Hr. unfold next_index.
  rewrite u32_small by (unfold is_u32, window_set_size in *; lia).
  change (window_set_size - 1) with (Z.ones 14). rewrite Z.land_ones by lia.
  change (2 ^ 14) with window_set_size. unfold probe_index.
  rewrite Zplus_mod_idemp_l. f_equal. lia.
Qed.

(** Every slot is on the probe sequence of every address. *)
Lemma probe_index_onto a i : 0 <= i < window_set_size ->
  ∃ k, 0 <= k < window_set_size /\ probe_index a k = i.
Proof.
  intros Hi. exists ((i - address_hash a) mod window_set_size).
  split; [by apply Z.mod_pos_bound|]. unfold probe_index. rewrite Zplus_mod_idemp_r.
  replace (address_hash a + (i - address_hash a)) with i by lia. by apply Z.mod_small.
Qed.

Lemma live_dec w i : {live w i} + {~ live w i}.
Proof. apply Z.eq_dec. Qed.

(** With room left, some slot of the probe sequence is free. *)
Lemma free_slot w s a : ws_holds w s -> Z.of_nat (size s) < window_set_size ->
  ∃ k, 0 <= k < window_set_size /\ ~ live w (probe_index a k).
Proof.
  intros Hw Hsize.
  destruct (forallb (fun i => if live_dec w i then true else false) (seqZ 0 window_set_size)) eqn:Hall.
  - exfalso. rewrite forallb_forall in Hall.
    assert (∀ i, 0 <= i < window_set_size -> live w i) as Hlive.
    { intros i Hi. specialize (Hall i ltac:(apply list_elem_of_In, elem_of_seqZ; lia)).
      by destruct (live_dec w i). }
    assert (NoDup ((fun i => slot_address (slot_at w i)) <$> seqZ 0 window_set_size)) as Hnd.
    { apply NoDup_fmap_2_strong; [|apply NoDup_seqZ]. intros i j Hi%elem_of_seqZ Hj%elem_of_seqZ E.
      apply (wh_unique _ _ Hw); try lia; try apply Hlive; try lia; done. }
    assert (list_to_set ((fun i => slot_address (slot_at w i)) <$> seqZ 0 window_set_size) ⊆ s) as Hsub.
    { intros x. rewrite elem_of_list_to_set, list_elem_of_fmap. intros (i & -> & Hi%elem_of_seqZ).
      apply (wh_member _ _ Hw); [lia|apply Hlive; lia]. }
    apply subseteq_size in Hsub. rewrite size_list_to_set in Hsub by done.
    rewrite length_fmap, length_seqZ in Hsub. lia.
  - apply not_true_iff_false in Hall. rewrite forallb_forall in Hall.
    assert (∃ i, 0 <= i < window_set_size /\ ~ live w i) as (i & Hi & Hl).
    { destruct (existsb (fun i => if live_dec w i then false else true) (seqZ 0 window_set_size)) eqn:Hex.
      - apply existsb_exists in Hex as (i & Hin & Hi). apply list_elem_of_In, elem_of_seqZ in Hin.
        exists i. split; [lia|]. by destruct (live_dec w i).
      - exfalso. apply Hall. intros i Hi. destruct (live_dec w i) eqn:E; [done|]. exfalso.
        apply not_true_iff_false in Hex. apply Hex, existsb_exists. exists i. split; [done|]. by rewrite E. }
    destruct (probe_index_onto a i Hi) as (k & Hk & E). exists k. by rewrite E.
Qed.

Definition insert_slot (i a : Z) (w : WindowAddressSet) : WindowAddressSet :=
  {| w with ws_slots := <[i := mkSlot a (ws_generation w)]> (ws_slots w) |}.
Lemma slot_at_insert i a w j :
  slot_at (insert_slot i a w) j = if Z.eq_dec i j then mkSlot a (ws_generation w) else slot_at w j.
Proof.
  unfold slot_at, insert_slot. cbn [ws_slots]. destruct (Z.eq_dec i j) as [->|Hne].
  - by rewrite lookup_insert_eq.
  - by rewrite lookup_insert_ne.
Qed.
Lemma live_insert i a w j : live w j -> live (insert_slot i a w) j.
Proof. unfold live. rewrite slot_at_insert. by destruct (Z.eq_dec i j). Qed.

(** Where the probing loop stops. *)
Lemma probe_stops w a fuel k : 0 <= k ->
  (∀ j, 0 <= j < k -> live w (probe_index a j) /\ slot_address (slot_at w (probe_index a j)) <> a) ->
  (∃ free, k <= free < k + Z.of_nat fuel /\ ~ live w (probe_index a free)) ->
  ∃ stop, k <= stop < k + Z.of_nat fuel
    /\ (∀ j, 0 <= j < stop -> live w (probe_index a j) /\ slot_address (slot_at w (probe_index a j)) <> a)
    /\ ((probe fuel a (probe_index a k) w = Some (true, insert_slot (probe_index a stop) a w)
         /\ ~ live w (probe_index a stop))
        \/ (probe fuel a (probe_index a k) w = Some (false, w)
            /\ live w (probe_index a stop) /\ slot_address (slot_at w (probe_index a stop)) = a)).
Proof.
  revert k. induction fuel as [|fuel IH]; intros k Hk Hbefore (free & Hfree & Hnl); [lia|].
  cbn [probe]. destruct (Z.eqb_spec (slot_stamp (slot_at w (probe_index a k))) (ws_generation w)) as [El|El]; cbn [negb].
  2: { exists k. split; [lia|]. split; [done|]. left. by split. }
  destruct (Z.eqb_spec (slot_address (slot_at w (probe_index a k))) a) as [Ea|Ea].
  { exists k. split; [lia|]. split; [done|]. right. by split. }
  rewrite next_index_probe by done.
  destruct (IH (k + 1)) as (stop & Hstop & Hb & Hres); [lia| | |].
  - intros j Hj. destruct (Z.eq_dec j k) as [->|]; [by split|]. apply Hbefore. lia.
  - exists free. destruct (Z.eq_dec free k) as [->|]; [by destruct Hnl|]. split; [lia|done].
  - exists stop. split; [lia|]. split; [done|]. exact Hres.
Qed.

(** [insertNew] reports whether the address is new in this pass, and inserts it. *)
Lemma insertNew_holds w s a : ws_holds w s -> Z.of_nat (size s) < window_set_size ->
  ∃ w', insertNew a w = Some (negb (bool_decide (a ∈ s)), w') /\ ws_holds w' ({[a]} ∪ s).
Proof.
  intros Hw Hsize. destruct (free_slot w s a Hw Hsize) as (free & Hfree & Hnl).
  destruct (probe_stops w a (Z.to_nat window_set_size) 0) as (stop & Hstop & Hbefore & Hres);
    [lia|lia| |].
  { exists free. split; [lia|done]. }
  rewrite probe_index_start in Hres. unfold insertNew. rewrite Z2Nat.id in Hstop by (unfold window_set_size; lia).
  destruct Hres as [[E Hfree']|(E & Hl & Ha)].
  - assert (a ∉ s) as Hnew.
    { intros Has. destruct (wh_found _ _ Hw a Has) as (k & Hk & Hlk & Eak & Hchain).
      destruct (Z.lt_trichotomy k stop) as [Hlt|[->|Hgt]].
      - destruct (Hbefore k ltac:(lia)) as [_ Hne]. done.
      - done.
      - apply Hfree', Hchain. lia. }
    exists (insert_slot (probe_index a stop) a w). rewrite bool_decide_eq_false_2 by done. split; [exact E|].
    pose proof (probe_index_range a stop) as Hps. constructor.
    + constructor; [apply Hw|]. intros i. change (ws_generation (insert_slot (probe_index a stop) a w)) with (ws_generation w).
      rewrite slot_at_insert. pose proof (wf_generation _ (wh_wf _ _ Hw)).
      destruct (Z.eq_dec _ i) as [_|_]; [cbn [slot_stamp]; lia|]. apply (wf_stamps _ (wh_wf _ _ Hw)).
    + apply (wh_pass _ _ Hw).
    + intros i Hi. unfold live. change (ws_generation (insert_slot (probe_index a stop) a w)) with (ws_generation w).
      rewrite slot_at_insert. destruct (Z.eq_dec _ i) as [_|_]; intros Hli;
        [by apply elem_of_union_l, elem_of_singleton|].
       apply elem_of_union_r. by apply (wh_member _ _ Hw).
    + intros x Hx. destruct (Z.eq_dec x a) as [->|Hne].
      * exists stop. split; [lia|]. split; [unfold live; rewrite slot_at_insert; by destruct (Z.eq_dec _ _)|].
        split; [rewrite slot_at_insert; by destruct (Z.eq_dec _ _)|].
        intros j Hj. apply live_insert, Hbefore. lia.
      * apply elem_of_union in Hx as [Hx%elem_of_singleton|Hxs]; [done|]. destruct (wh_found _ _ Hw x Hxs) as (k & Hk & Hlk & Exk & Hchain).
        exists k. split; [done|]. split; [by apply live_insert|].
        assert (probe_index a stop <> probe_index x k) as Hdiff by (intros Eq; apply Hfree'; by rewrite Eq).
        rewrite slot_at_insert. destruct (Z.eq_dec _ _); [done|]. split; [done|].
        intros j Hj. by apply live_insert, Hchain.
    + intros i j Hi Hj. unfold live. change (ws_generation (insert_slot (probe_index a stop) a w)) with (ws_generation w).
      rewrite !slot_at_insert. destruct (Z.eq_dec _ i) as [<-|], (Z.eq_dec _ j) as [<-|]; cbn [slot_address slot_stamp];
        intros Hli Hlj Eij; [done| | |].
      * exfalso. apply Hnew. rewrite Eij. by apply (wh_member _ _ Hw).
      * exfalso. apply Hnew. rewrite <- Eij. by apply (wh_member _ _ Hw).
      * by apply (wh_unique _ _ Hw).
  - assert (a ∈ s) as Has.
    { rewrite <- Ha. apply (wh_member _ _ Hw); [apply probe_index_range|done]. }
    exists w. rewrite bool_decide_eq_true_2 by done. split; [exact E|]. replace ({[a]} ∪ s) with s; [done|].
    apply set_eq. intros x. rewrite elem_of_union, elem_of_singleton. split; [by right|intros [->|?]; done].
Qed.

(** ** The single pass equals the quadratic check *)

(** One entry, as the comment of the source states it: its byte is backed, and when it is
    the first of its address in the window and in the footprint, it has its old value. *)
Definition entry_compatible {D} (ck : SideEffectCheckpoint) (footprint : ReadFootprint) (b : Bus D)
    (sequence : Z) : bool :=
  let mutation := journal_at b sequence in
  match backed_byte (bm_address mutation) b with
  | None => false
  | Some byte =>
      negb (footprintContains footprint (bm_address mutation))
      || negb (first_for_address ck b sequence) || (byte =? bm_old_value mutation)
  end.

Definition ram_inputs_reference {D} (ck : SideEffectCheckpoint) (footprint : ReadFootprint)
    (b : Bus D) : bool :=
  (ck_journal_generation ck =? bus_journal_generation b) && rf_complete footprint
  && bus_read_footprint_tracking b && in_window ck b
  && forallb (entry_compatible ck footprint b) (window ck b).

Section certificate.
Context {D : Type}.
Implicit Types b : Bus D.

Lemma cached_find_find b cache a : bus_ok b ->
  (∀ i r, cache = Some (i, r) -> bus_regions b !! i = Some r) ->
  cached_find cache a b = find_region a (bus_regions b).
Proof.
  intros Hb Hc. unfold cached_find. destruct cache as [[i r]|]; [|done].
  destruct (region_contains r a) eqn:E; [|done]. symmetry.
  apply find_region_complete; [done|by apply Hc|done].
Qed.

(** The addresses inserted before sequence number [q]. *)
Definition seen (ck : SideEffectCheckpoint) (fp : ReadFootprint) b (q : Z) (s : gset Z) : Prop :=
  ∀ a, a ∈ s <-> footprintContains fp a = true
                 /\ ∃ p, ck_mutation_sequence ck < p < q /\ bm_address (journal_at b p) = a.

Lemma seen_first ck fp b q s : seen ck fp b q s ->
  footprintContains fp (bm_address (journal_at b q)) = true ->
  negb (bool_decide (bm_address (journal_at b q) ∈ s)) = first_for_address ck b q.
Proof.
  intros Hs Hf. destruct (first_for_address ck b q) eqn:Hff.
  - rewrite bool_decide_eq_false_2; [done|]. intros Hin%Hs. destruct Hin as (_ & p & Hp & E).
    by apply (proj1 (first_for_address_spec ck b q) Hff p).
  - rewrite bool_decide_eq_true_2; [done|]. apply Hs. split; [done|].
    destruct (existsb (fun p => bm_address (journal_at b p) =? bm_address (journal_at b q))
      (seqZ (ck_mutation_sequence ck + 1) (q - ck_mutation_sequence ck - 1))) eqn:Hex.
    + apply existsb_exists in Hex as (p & Hp & E). apply list_elem_of_In, elem_of_seqZ in Hp.
      apply Z.eqb_eq in E. exists p. split; [lia|done].
    + exfalso. apply not_true_iff_false in Hff. apply Hff, first_for_address_spec. intros p Hp E.
      apply not_true_iff_false in Hex. apply Hex, existsb_exists. exists p. split.
      * apply list_elem_of_In, elem_of_seqZ. lia.
      * by apply Z.eqb_eq.
Qed.

Lemma seen_step ck fp b q s s' : ck_mutation_sequence ck < q -> seen ck fp b q s ->
  (∀ a, a ∈ s' <-> a ∈ s \/ (footprintContains fp a = true /\ a = bm_address (journal_at b q))) ->
  seen ck fp b (q + 1) s'.
Proof.
  intros Hq Hs Hs' a. rewrite Hs'. unfold seen in Hs. rewrite Hs. split.
  - intros [(Hf & p & Hp & E)|(Hf & ->)]; split; try done; [exists p|exists q]; split; try done; lia.
  - intros (Hf & p & Hp & E). destruct (Z.eq_dec p q) as [->|]; [by right|left].
    split; [done|]. exists p. split; [lia|done].
Qed.

Lemma size_insert_le (s : gset Z) a : (size ({[a]} ∪ s) <= S (size s))%nat.
Proof.
  rewrite size_union_alt, size_singleton.
  assert (size (s ∖ {[a]}) <= size s)%nat; [|lia]. apply subseteq_size, subseteq_difference_l. done.
Qed.

Lemma certificate_loop_spec ck fp b n q cache w s : bus_ok b ->
  (∀ i r, cache = Some (i, r) -> bus_regions b !! i = Some r) ->
  ck_mutation_sequence ck < q -> ws_holds w s -> seen ck fp b q s ->
  Z.of_nat (size s) + Z.of_nat n < window_set_size ->
  ∃ w', certificate_loop (journal_at b <$> seqZ q (Z.of_nat n)) fp cache w b
        = Some (forallb (entry_compatible ck fp b) (seqZ q (Z.of_nat n)), w') /\ ws_wf w'.
Proof.
  intros Hb. revert q cache w s. induction n as [|n IH]; intros q cache w s Hc Hq Hw Hs Hsize.
  { exists w. split; [done|]. apply Hw. }
  rewrite (seqZ_cons q) by lia. replace (Z.pred (Z.of_nat (S n))) with (Z.of_nat n) by lia.
  rewrite fmap_cons. cbn [certificate_loop forallb]. rewrite cached_find_find by done.
  unfold entry_compatible at 1. unfold backed_byte. cbv zeta.
  destruct (find_region (bm_address (journal_at b q)) (bus_regions b)) as [[i r]|] eqn:Hf; [|exists w; split; [done|apply Hw]].
  destruct (is_mmio r || is_alias r); [exists w; split; [done|apply Hw]|].
  apply find_region_Some in Hf as [Hi _].
  assert (∀ i' r', Some (i, r) = Some (i', r') -> bus_regions b !! i' = Some r') as Hc' by (by intros ? ? [= <- <-]).
  rewrite <- Z.add_1_r. destruct (footprintContains fp (bm_address (journal_at b q))) eqn:Hfp; cbn [negb orb andb].
  2: { apply (IH (q + 1) _ w s); try done; try lia. eapply seen_step; [done|exact Hs|]. intros a. split; [by left|].
       intros [?|[Hfa ->]]; [done|congruence]. }
  destruct (insertNew_holds w s (bm_address (journal_at b q)) Hw ltac:(lia)) as (w' & Ei & Hw').
  rewrite Ei. cbn [mbind option_bind]. rewrite (seen_first ck fp b q s Hs Hfp).
  pose proof (size_insert_le s (bm_address (journal_at b q))) as Hle.
  assert (seen ck fp b (q + 1) ({[bm_address (journal_at b q)]} ∪ s)) as Hs'.
  { eapply seen_step; [done|exact Hs|]. intros a. rewrite elem_of_union, elem_of_singleton. split.
    - intros [->|?]; [by right|by left].
    - intros [?|[_ ->]]; [by right|by left]. }
  destruct (first_for_address ck b q); cbn [negb orb].
  - destruct (_ =? bm_old_value _); cbn [negb andb].
    + apply (IH (q + 1) _ w' _ Hc' ltac:(lia) Hw' Hs'). lia.
    + exists w'. split; [done|]. apply Hw'.
  - apply (IH (q + 1) _ w' _ Hc' ltac:(lia) Hw' Hs'). lia.
Qed.

(** The check returns, equals its reference and keeps the scratch set well formed. *)
Lemma ramInputsCompatibleSince_reference ck fp w b : bus_ok b -> ws_wf w ->
  ∃ w', ramInputsCompatibleSince ck fp w b = Some (ram_inputs_reference ck fp b, w') /\ ws_wf w'.
Proof.
  intros Hb Hw. unfold ramInputsCompatibleSince, ram_inputs_reference.
  destruct (ck_journal_generation ck =? bus_journal_generation b); cbn [negb orb andb]; [|by exists w].
  destruct (rf_complete fp); cbn [negb orb andb]; [|by exists w].
  destruct (bus_read_footprint_tracking b); cbn [negb orb andb]; [|by exists w].
  destruct (in_window ck b) eqn:Hin; cbn [negb orb andb]; [|by exists w].
  unfold in_window in Hin. rewrite !andb_true_iff, !Z.leb_le in Hin. destruct Hin as [[_ Hle] Hcap].
  unfold window. destruct (Z.eqb_spec (ck_mutation_sequence ck) (bus_mutation_sequence b)) as [E|E].
  { exists w. rewrite E, Z.sub_diag. done. }
  replace (bus_mutation_sequence b - ck_mutation_sequence ck)
    with (Z.of_nat (Z.to_nat (bus_mutation_sequence b - ck_mutation_sequence ck))) by lia.
  apply (certificate_loop_spec _ _ _ _ _ _ _ ∅); try done; try lia.
  - by apply beginPass_empty.
  - intros a. rewrite elem_of_empty. split; [done|]. intros (_ & p & Hp & _). lia.
  - rewrite size_empty. unfold window_set_size, mutation_journal_capacity in *. lia.
Qed.
End certificate.

(** What the two checks accept changed nothing or lies in the window of the journal. *)
Lemma compatibleSince_in_window {D} ck fp (b : Bus D) : sideEffectsCompatibleSince ck fp b = true ->
  ck_mutation_sequence ck = bus_mutation_sequence b \/ in_window ck b = true.
Proof.
  unfold sideEffectsCompatibleSince. destruct (same_epoch ck b); [|done]. cbn [negb].
  destruct (Z.eqb_spec (ck_mutation_sequence ck) (bus_mutation_sequence b)); [by left|].
  destruct (in_window ck b); [by right|]. by rewrite orb_true_r.
Qed.
Lemma ramInputs_in_window {D} ck fp w (b : Bus D) w' : ramInputsCompatibleSince ck fp w b = Some (true, w') -> in_window ck b = true.
Proof.
  unfold ramInputsCompatibleSince. destruct (in_window ck b); [done|]. by rewrite orb_true_r.
Qed.

(** A certificate that passes has unchanged inputs. *)
Lemma ram_inputs_sound `{MmioDevices D} (b0 : Bus D) n b fp a : journalled b0 n b -> window_bytes b0 n b ->
  ram_inputs_reference (sideEffectCheckpoint b0) fp b = true -> footprintContains fp a = true ->
  backed_byte a b = backed_byte a b0.
Proof.
  intros J W. unfold ram_inputs_reference. rewrite !andb_true_iff, forallb_forall. intros [_ Hall] Hfp.
  pose proof (jn_count _ _ _ J) as Hn.
  destruct (address_has_entry_dec b0 n b a) as [Hex|Hno]; [|by apply W].
  destruct (first_entry b0 n b a Hn Hex) as (p & Hp & Ha & Hfirst). subst a.
  specialize (Hall p ltac:(by apply list_elem_of_In, (run_window b0 n b J))). unfold entry_compatible in Hall.
  rewrite (wb_first _ _ _ W p Hp Hfirst). cbv zeta in Hall.
  destruct (backed_byte (bm_address (journal_at b p)) b) as [byte|]; [|done].
  rewrite Hfp, (proj2 (run_first b0 n b p Hp)) in Hall by done. cbn in Hall.
  by apply Z.eqb_eq in Hall as ->.
Qed.
