(* ===== verification/Demo.v ===== *)
(** * A concrete system

    A small instance of the parameters and a decision procedure for the invariants, used by
    the witnesses: flash and RAM of 256 bytes each, an alias of the RAM, and one MMIO window
    whose device reads as zero.  Programs are loaded with [loadBytes]. *)

From stdpp Require Import gmap sorting.
From S2P Require Import Prelude Address Instruction CpuState CpuStateProofs Float32 MemoryApi.
From S2P Require Import Machine Execute ExecuteProofs Step StepProofs MemoryBus.
From S2P Require Import MemoryBusProofs BusAccess.
#[local] Open Scope Z_scope.
#[local] Open Scope fil_scope.

(** ** Parameters *)

#[global] Instance demo_nan : HostNaN.
Proof. refine {| host_nan := fun _ _ => 0x7fc00000 |}; [done|]. intros _ _. unfold is_u32. lia. Defined.

#[global] Instance demo_devices : MmioDevices unit := {|
  device_read _ _ _ _ d := (inl 0, d);
  device_write _ _ _ _ _ d := (inl 0, d);
  device_domain _ _ _ _ := MmioDomain.shared;
  device_fpccr _ := None;
|}.

(** ** Deciding the invariants *)

Definition u32b (x : Z) : bool := (0 <=? x) && (x <? 0x100000000).
Definition u8b (x : Z) : bool := (0 <=? x) && (x <? 0x100).
Lemma u32b_ok x : u32b x = true -> is_u32 x.
Proof. unfold u32b, is_u32. rewrite andb_true_iff, Z.leb_le, Z.ltb_lt. lia. Qed.
Lemma u8b_ok x : u8b x = true -> is_u8 x.
Proof. unfold u8b, is_u8. rewrite andb_true_iff, Z.leb_le, Z.ltb_lt. lia. Qed.
Lemma forallb_ok {A} (f : A -> bool) (P : A -> Prop) l : (∀ x, f x = true -> P x) ->
  forallb f l = true -> Forall P l.
Proof. intros Hf. rewrite forallb_forall, List.Forall_forall. auto. Qed.

Definition cpu_okb (st : CpuState) : bool :=
  (length (cs_r st) =? 16)%nat && forallb u32b (cs_r st) && u32b (cs_xpsr st) && u32b (cs_msp st)
  && u32b (cs_psp st) && u32b (cs_primask st) && u32b (cs_basepri st) && u32b (cs_faultmask st)
  && u32b (cs_control st) && (length (cs_s st) =? 32)%nat && forallb u32b (cs_s st)
  && u32b (cs_fpscr st) && u8b (cs_it_state st) && u32b (cs_fp_lazy_base st)
  && u32b (cs_instruction_address st).
Lemma cpu_okb_ok st : cpu_okb st = true -> cpu_ok st.
Proof.
  unfold cpu_okb. rewrite !andb_true_iff, !Nat.eqb_eq. intros Hall. destruct_and?.
  constructor; try done; try (by apply u32b_ok); try (by apply u8b_ok);
    by eapply forallb_ok; [exact u32b_ok|].
Qed.

Definition region_okb (r : Region) : bool :=
  (0 <=? rg_base r) && (0 <? rg_size r) && (region_end r <=? 0x100000000)
  && (negb (is_backed r) || (length (rg_bytes r) =? Z.to_nat (rg_size r))%nat)
  && forallb u8b (rg_bytes r).
Lemma region_okb_ok r : region_okb r = true -> region_ok r.
Proof.
  unfold region_okb. rewrite !andb_true_iff, !Z.leb_le, Z.ltb_lt. intros Hall. destruct_and?.
  constructor; try done; [|by eapply forallb_ok; [exact u8b_ok|]].
  intros Hb. rewrite Hb in *. by apply Nat.eqb_eq.
Qed.
Fixpoint sortedb (rs : list Region) : bool :=
  match rs with
  | [] => true
  | r :: rs => forallb (fun q => region_end r <=? rg_base q) rs && sortedb rs
  end.
Lemma sortedb_ok rs : sortedb rs = true -> StronglySorted rg_before rs.
Proof.
  induction rs as [|r rs IH]; cbn [sortedb]; [constructor|]. rewrite andb_true_iff. intros [Hf Hs].
  constructor; [by apply IH|]. eapply forallb_ok; [|exact Hf]. intros q. by rewrite Z.leb_le.
Qed.
Definition bus_okb {D} (b : Bus D) : bool := forallb region_okb (bus_regions b) && sortedb (bus_regions b).
Lemma bus_okb_ok {D} (b : Bus D) : bus_okb b = true -> bus_ok b.
Proof.
  unfold bus_okb. rewrite andb_true_iff. intros [Hr Hs].
  split; [by eapply forallb_ok; [exact region_okb_ok|]|by apply sortedb_ok].
Qed.

Definition core_okb (c : Core (Bus unit)) : bool :=
  cpu_okb (mc_cpu (core_mc c)) && bus_okb (mc_mem (core_mc c)).
Lemma core_okb_ok c : core_okb c = true -> core_ok c.
Proof.
  unfold core_okb. rewrite andb_true_iff. intros [Hc Hb].
  split; [by apply cpu_okb_ok|by apply bus_okb_ok].
Qed.

(** ** The system *)

Definition demo_map : Bus unit :=
  let b := snd (mapFlash 0x08000000 256 "flash" true (empty_bus tt)) in
  let b := snd (mapRam 0x20000000 256 "sram" false b) in
  let b := snd (mapAlias 0x10000000 0x20000000 256 "ccm alias" b) in
  snd (mapMmio 0x40000000 256 0 "peripheral" b).

Definition demo_bus (code : list Z) : Bus unit := snd (loadBytes 0x08000000 code demo_map).

(** The core at [pc] with the first general registers given. *)
Definition demo_cpu (pc : Z) (regs : list Z) : CpuState :=
  {| cpu_default with
     cs_r := take 13 (regs ++ replicate 13 0) ++ [0x20000080; 0; pc];
     cs_msp := 0x20000080;
     cs_instruction_address := pc |}.

Definition demo_core_at (pc : Z) (code regs : list Z) : Core (Bus unit) :=
  {| core_mc := mkMachine (demo_cpu pc regs) (demo_bus code) diagnostic_default;
     core_stats := mkJitStats 0 0 0 |}.
Definition demo_core : list Z -> list Z -> Core (Bus unit) := demo_core_at 0x08000000.

Example demo_adds :
  let '(r, c) := stepFast (demo_core [0x88; 0x18] [0; 0xffffffff; 2]) in
  fs_reason r = StopReason.step_complete /\ fs_cycles r = 1
  /\ reg (mc_cpu (core_mc c)) 0 = 1 /\ carryFlag (mc_cpu (core_mc c)) = true.
Proof. vm_compute. auto. Qed.
