(* ===== verification/StackRoundTrip.v ===== *)
(** * PUSH and POP

    The block transfers of [CortexM4::execute] on the bus: a POP of the registers that a
    PUSH stored restores them and the stack pointer, whatever happened to the registers in
    between. *)

From stdpp Require Import gmap sorting.
From S2P Require Import Prelude Address Instruction InstructionProofs CpuState CpuStateProofs.
From S2P Require Import Float32 MemoryApi Machine Execute MemoryBus MemoryBusProofs BusAccess.
From S2P Require Import BusJournal BusWords JitFastProofs.
#[local] Open Scope Z_scope.
#[local] Open Scope fil_scope.

Section stack.
Context `{HostNaN} `{MmioDevices D}.
Implicit Types b : Bus D.

Lemma store_multiple_ram regs a c (mc : Machine (Bus D)) :
  bus_ok (mc_mem mc) -> cpu_ok (mc_cpu mc) -> ram_at (mc_mem mc) a (4 * Z.of_nat (length regs)) ->
  ∃ b', store_multiple regs a c mc = Done tt (with_mem b' mc)
    /\ bus_ok b' /\ same_map (mc_mem mc) b'
    /\ words_at b' a (readRegister (mc_cpu mc) <$> regs)
    /\ ∀ a', ~ a <= a' < a + 4 * Z.of_nat (length regs) -> backed_byte a' b' = backed_byte a' (mc_mem mc).
Proof.
  intros Hb Hcpu Hram.
  destruct (write_words_ram (readRegister (mc_cpu mc) <$> regs) a c (mc_mem mc)) as (b' & E & Hrest).
  - done.
  - apply Forall_fmap, Forall_forall. intros r _. by apply readRegister_range.
  - by rewrite length_fmap.
  - exists b'. rewrite length_fmap in Hrest. split; [|done]. by apply (store_multiple_words _ _ _ _ 0).
Qed.

Lemma load_multiple_ram regs a c (mc : Machine (Bus D)) vs :
  bus_ok (mc_mem mc) -> is_fetch c = false -> Forall is_u32 vs -> length vs = length regs ->
  ram_at (mc_mem mc) a (4 * Z.of_nat (length regs)) -> words_at (mc_mem mc) a vs ->
  ∃ b', load_multiple regs a c mc = Done vs (with_mem b' mc) /\ bus_eqv b' (mc_mem mc).
Proof.
  intros Hb Hc Hvs Hlen Hram Hw. rewrite <- Hlen in Hram.
  destruct (read_words_ram vs a c (mc_mem mc) Hb Hc Hvs Hram Hw) as (b' & E & Eb).
  exists b'. split; [|done]. apply load_multiple_words. by rewrite <- Hlen.
Qed.

(** ** PUSH then POP *)

Lemma write_loaded_frame regs vs st r : r ∉ regs -> r <> 13 -> r < 16 -> 0 <= r ->
  Forall (fun q => 0 <= q < 16 /\ q <> 13) regs ->
  reg (write_loaded regs vs st) r = reg st r.
Proof.
  intros Hr H13 H16 Hpos Hregs. revert vs st. induction regs as [|q regs IH]; intros [|v vs] st; cbn [write_loaded]; try done.
  inversion_clear Hregs as [|? ? Hq Hregs']. apply not_elem_of_cons in Hr as [Hne Hr]. rewrite IH by done.
  destruct (q =? 15); [done|]. unfold writeRegister. destruct (Z.leb_spec 16 q); [lia|].
  destruct (Z.eqb_spec q 13); [lia|]. unfold reg, set_reg, rget, rset. cbn [cs_r].
  rewrite list_lookup_insert_ne; [done|lia].
Qed.
Lemma write_loaded_values regs vs st k r v : length (cs_r st) = 16%nat -> NoDup regs ->
  Forall (fun q => 0 <= q < 16 /\ q <> 13 /\ q <> 15) regs -> regs !! k = Some r -> vs !! k = Some v ->
  reg (write_loaded regs vs st) r = v.
Proof.
  intros Hlen Hnd Hregs. revert vs st k Hlen.
  induction regs as [|q regs IH]; intros [|u vs] st k Hlen Hk Hv; try done.
  inversion_clear Hregs as [|? ? Hq Hregs']. apply NoDup_cons in Hnd as [Hnotin Hnd]. cbn [write_loaded].
  destruct (Z.eqb_spec q 15); [lia|].
  assert (writeRegister q u st = set_reg q u st) as Ew.
  { unfold writeRegister. destruct (Z.leb_spec 16 q); [lia|]. by destruct (Z.eqb_spec q 13); [lia|]. }
  rewrite Ew. destruct k as [|k]; cbn in Hk, Hv; simplify_eq.
  - rewrite write_loaded_frame; try lia; [|done|eapply Forall_impl; [exact Hregs'|]; cbn; intros; lia].
    unfold reg, set_reg, rget, rset. cbn [cs_r]. rewrite list_lookup_insert_eq; [done|lia].
  - apply (IH Hnd Hregs' vs (set_reg q u st) k); [|done|done]. unfold set_reg. cbn [cs_r]. by rewrite rset_length.
Qed.
Lemma write_loaded_sp regs vs st : Forall (fun q => q <> 13) regs ->
  activeSp (write_loaded regs vs st) = activeSp st /\ uses_msp (write_loaded regs vs st) = uses_msp st
  /\ length (cs_r (write_loaded regs vs st)) = length (cs_r st).
Proof.
  intros Hregs. revert vs st. induction Hregs as [|q regs Hq _ IH]; intros [|v vs] st; cbn [write_loaded]; try done.
  destruct (IH vs (if q =? 15 then st else writeRegister q v st)) as (-> & -> & ->).
  destruct (q =? 15); [done|]. unfold writeRegister. destruct (16 <=? q); [done|].
  destruct (Z.eqb_spec q 13); [done|]. unfold set_reg. cbn [cs_r]. by rewrite rset_length.
Qed.

Lemma activeSp_write v st : activeSp (writeRegister 13 v st) = v /\ uses_msp (writeRegister 13 v st) = uses_msp st.
Proof.
  unfold writeRegister. change (16 <=? 13) with false. change (13 =? 13) with true. cbv iota.
  unfold activeSp, set_activeSp. destruct (uses_msp st) eqn:E.
  - change (uses_msp (set_reg 13 v {| st with cs_msp := v |})) with (uses_msp st). by rewrite E.
  - change (uses_msp (set_reg 13 v {| st with cs_psp := v |})) with (uses_msp st). by rewrite E.
Qed.

(** The two decoded forms: PUSH is STMDB SP!, POP is LDMIA SP!. *)
Definition is_push (op : DecodedInstruction) : Prop :=
  is_block_load op = false /\ decrement_before op = true /\ di_writeback op = true /\ di_rn op = 13.
Definition is_pop (op : DecodedInstruction) : Prop :=
  is_block_load op = true /\ decrement_before op = false /\ di_writeback op = true /\ di_rn op = 13.

Lemma listed_spec l : NoDup (listed l 16) /\ Forall (fun r => 0 <= r < 16) (listed l 16).
Proof.
  unfold listed. split; [apply NoDup_filter, NoDup_seqZ|].
  apply Forall_forall. intros r Hr. apply list_elem_of_filter in Hr as [_ Hr]. apply elem_of_seqZ in Hr. lia.
Qed.

Section round_trip.
Variables (push pop : DecodedInstruction) (mc : Machine (Bus D)).
Let regs := listed (di_register_list push) 16.
Let bytes := 4 * Z.of_nat (length regs).
Hypotheses (Hpush : is_push push) (Hpop : is_pop pop)
  (Hlist : di_register_list pop = di_register_list push) (Hu16 : is_u16 (di_register_list push))
  (Hgpr : Forall (fun r => r <> 13 /\ r <> 15) regs)
  (Hcpu : cpu_ok (mc_cpu mc)) (Hbus : bus_ok (mc_mem mc))
  (Hram : ram_at (mc_mem mc) (activeSp (mc_cpu mc) - bytes) bytes).

Lemma stack_count : popcount (di_register_list push) * 4 = bytes.
Proof. rewrite popcount_listed by done. unfold bytes, regs, listed. change (Z.of_nat 16) with 16. lia. Qed.
Lemma stack_sp_range : u32 (activeSp (mc_cpu mc) - bytes) = activeSp (mc_cpu mc) - bytes.
Proof.
  pose proof (ram_at_u32 _ _ _ Hbus Hram). pose proof (activeSp_range _ Hcpu) as Hsp.
  apply u32_small. unfold is_u32 in *. unfold bytes in *. lia.
Qed.

(** PUSH stores the listed registers below the stack pointer and lowers it. *)
Lemma push_effect : ∃ b', exec_block push mc
    = Done tt (with_cpu (writeRegister 13 (activeSp (mc_cpu mc) - bytes) (mc_cpu mc)) (with_mem b' mc))
  /\ bus_ok b' /\ same_map (mc_mem mc) b'
  /\ words_at b' (activeSp (mc_cpu mc) - bytes) (readRegister (mc_cpu mc) <$> regs)
  /\ ∀ a', ~ activeSp (mc_cpu mc) - bytes <= a' < activeSp (mc_cpu mc) ->
       backed_byte a' b' = backed_byte a' (mc_mem mc).
Proof.
  destruct Hpush as (Hl & Hd & Hw & Hrn).
  destruct (store_multiple_ram regs (activeSp (mc_cpu mc) - bytes) (store_context (mc_cpu mc)) mc Hbus Hcpu Hram)
    as (b' & Es & Hb' & Hs & Hwords & Hframe).
  exists b'. split; [|split; [done|split; [done|split; [done|]]]].
  2: { intros a' Ha'. apply Hframe. fold bytes. lia. }
  unfold exec_block. cbv zeta. rewrite Hl, Hw, Hrn. fold regs.
  unfold mbind, Exec_bind, gets, modify, when. cbn [andb].
  change (readRegister (mc_cpu mc) 13) with (activeSp (mc_cpu mc)).
  unfold block_final, block_start. rewrite Hd, stack_count, stack_sp_range.
  unfold mbind, Exec_bind in Es. rewrite Es. done.
Qed.

(** POP restores them, from any register state with the same stack pointer. *)
Lemma pop_effect b st : bus_ok b -> same_map (mc_mem mc) b -> length (cs_r st) = 16%nat ->
  words_at b (activeSp (mc_cpu mc) - bytes) (readRegister (mc_cpu mc) <$> regs) ->
  activeSp st = activeSp (mc_cpu mc) - bytes ->
  ∃ mc', exec_block pop (mkMachine st b (mc_diag mc)) = Done tt mc'
    /\ bus_eqv (mc_mem mc') b
    /\ (∀ r, r ∈ regs -> reg (mc_cpu mc') r = reg (mc_cpu mc) r)
    /\ (∀ r, 0 <= r < 16 -> r <> 13 -> r ∉ regs -> reg (mc_cpu mc') r = reg st r)
    /\ activeSp (mc_cpu mc') = activeSp (mc_cpu mc).
Proof.
  intros Hb Hs Hlen Hwords Hsp. destruct Hpop as (Hl & Hd & Hw & Hrn).
  assert (Forall is_u32 (readRegister (mc_cpu mc) <$> regs)) as Hvs.
  { apply Forall_fmap, Forall_forall. intros r _. by apply readRegister_range. }
  destruct (load_multiple_ram regs (activeSp st) (load_context st) (mkMachine st b (mc_diag mc))
    (readRegister (mc_cpu mc) <$> regs)) as (b' & El & Eb); [done|done|done|by rewrite length_fmap| | |].
  { rewrite Hsp. by apply (ram_at_same (mc_mem mc)). }
  { by rewrite Hsp. }
  set (st1 := write_loaded regs (readRegister (mc_cpu mc) <$> regs) st).
  exists (mkMachine (writeRegister 13 (activeSp (mc_cpu mc)) st1) b' (mc_diag mc)).
  destruct (listed_spec (di_register_list push)) as [Hnd Hrange]. fold regs in Hnd, Hrange.
  assert (Z.testbit (di_register_list push) 15 = false) as H15.
  { apply not_true_iff_false. intros Ht. rewrite Forall_forall in Hgpr. destruct (Hgpr 15) as [_ Hne]; [|done].
    apply list_elem_of_filter. split; [done|]. apply elem_of_seqZ. lia. }
  split; [|split; [done|]].
  - unfold exec_block. cbv zeta. rewrite Hl, Hw, Hrn, Hlist, H15. fold regs.
    unfold mbind, Exec_bind, gets, modify, when. cbn [andb mc_cpu].
    change (readRegister st 13) with (activeSp st). unfold block_final, block_start.
    rewrite Hd. unfold mbind, Exec_bind in El. rewrite El. cbn [mc_cpu with_mem with_cpu].
    unfold mret, Exec_ret. unfold with_cpu, with_mem. cbn [mc_cpu mc_mem mc_diag]. fold st1. rewrite Hsp, stack_count.
    replace (activeSp (mc_cpu mc) - bytes + bytes) with (activeSp (mc_cpu mc)) by lia.
    rewrite u32_small by by apply activeSp_range. done.
  - cbn [mc_cpu].
    assert (∀ r, 0 <= r < 16 -> r <> 13 -> reg (writeRegister 13 (activeSp (mc_cpu mc)) st1) r = reg st1 r) as Hreg.
    { intros r Hr H13. unfold writeRegister. change (16 <=? 13) with false. change (13 =? 13) with true. cbv iota.
      unfold reg, set_reg, rget, rset. cbn [cs_r].
      rewrite list_lookup_insert_ne by lia. unfold set_activeSp. by destruct (uses_msp st1). }
    rewrite Forall_forall in Hgpr, Hrange. split; [|split].
    + intros r Hr. pose proof (Hgpr r Hr). pose proof (Hrange r Hr). rewrite Hreg by lia.
      apply list_elem_of_lookup in Hr as [k Hk].
      unfold st1. rewrite (write_loaded_values regs _ st k r (readRegister (mc_cpu mc) r)); try done.
      * unfold readRegister. destruct (Z.eqb_spec r 13); [lia|]. destruct (Z.eqb_spec r 15); [lia|].
        by destruct (Z.ltb_spec r 16); [|lia].
      * apply Forall_forall. intros q Hq. split; [by apply Hrange|by apply Hgpr].
      * by rewrite list_lookup_fmap, Hk.
    + intros r Hr H13 Hnot. rewrite Hreg by done. apply write_loaded_frame; try done; try lia.
      apply Forall_forall. intros q Hq. split; [by apply Hrange|by apply Hgpr].
    + apply activeSp_write.
Qed.
End round_trip.
End stack.
