(* ===== verification/CpuTheorems.v ===== *)
(** * Properties of the processor core

    The theorems about decoding, instruction semantics, the executor, the fast handlers and
    the stepper, with their witnesses on the concrete system of [Demo]. *)

From stdpp Require Import gmap sorting.
From S2P Require Import Prelude Address Instruction InstructionProofs Decoder DecoderProofs.
From S2P Require Import CpuState CpuStateProofs Float32 MemoryApi Machine Execute.
From S2P Require Import ExecuteProofs JitFast JitFastProofs Step StepProofs StepFrame.
From S2P Require Import StepSafety MemoryBus MemoryBusProofs BusAccess BusJournal Demo.
From S2P Require Import BusWords StackRoundTrip.
#[local] Open Scope Z_scope.
#[local] Open Scope fil_scope.

(** ** Helpers of the statements *)

(** Flags of the status word after [setNzcv]. *)
Lemma setNzcv_flags r st : 
  let x := cs_xpsr (setNzcv r st) in
  has x xpsr_n = ar_n r /\ has x xpsr_z = ar_z r /\ has x xpsr_c = ar_c r /\ has x xpsr_v = ar_v r.
Proof.
  cbv zeta. unfold setNzcv. cbn [cs_xpsr set_xpsr].
  set (x := cs_xpsr st .& not32 _).
  assert (has x xpsr_n = false /\ has x xpsr_z = false /\ has x xpsr_c = false /\ has x xpsr_v = false)
    as (Hn & Hz & Hc & Hv).
  { unfold x. rewrite !has_land. repeat split;
      match goal with |- has _ ?m = _ => replace m with 0 by reflexivity end;
      unfold has; by rewrite Z.land_0_r. }
  destruct r as [v [] [] [] []]; cbn [ar_n ar_z ar_c ar_v]; rewrite ?has_lor, ?Hn, ?Hz, ?Hc, ?Hv; done.
Qed.
Lemma conditionPasses_flags c x r :
  has x xpsr_n = ar_n r -> has x xpsr_z = ar_z r -> has x xpsr_c = ar_c r -> has x xpsr_v = ar_v r ->
  conditionPasses c x = conditionPasses c (flags_of r).
Proof.
  intros Hn Hz Hc Hv. destruct (flags_of_has r) as (En & Ez & Ec & Ev).
  unfold conditionPasses. by rewrite Hn, Hz, Hc, Hv, En, Ez, Ec, Ev.
Qed.

(** The PUSH and POP encodings of the low registers. *)
Definition push_pop_decodes (l : Z) : bool :=
  match decode16 (0xb400 + l), decode16 (0xbc00 + l) with
  | Some push, Some pop =>
      negb (is_block_load push) && decrement_before push && di_writeback push && (di_rn push =? 13)
      && is_block_load pop && negb (decrement_before pop) && di_writeback pop && (di_rn pop =? 13)
      && (di_register_list push =? l) && (di_register_list pop =? l)
  | _, _ => false
  end.
Lemma push_pop_decodes_all : forallb push_pop_decodes (seqZ 1 255) = true.
Proof. vm_compute. reflexivity. Qed.
Lemma push_pop_decode l : 0 < l < 256 -> ∃ push pop, decode16 (0xb400 + l) = Some push
  /\ decode16 (0xbc00 + l) = Some pop /\ is_push push /\ is_pop pop
  /\ di_register_list push = l /\ di_register_list pop = l.
Proof.
  intros Hl. pose proof push_pop_decodes_all as Hall. rewrite forallb_forall in Hall.
  specialize (Hall l ltac:(apply list_elem_of_In, elem_of_seqZ; lia)). unfold push_pop_decodes in Hall.
  destruct (decode16 (0xb400 + l)) as [push|]; [|done]. destruct (decode16 (0xbc00 + l)) as [pop|]; [|done].
  exists push, pop. rewrite !andb_true_iff, !negb_true_iff, !Z.eqb_eq in Hall. unfold is_push, is_pop. tauto.
Qed.
Lemma low_registers l : 0 < l < 256 -> Forall (fun r => r <> 13 /\ r <> 15) (listed l 16).
Proof.
  intros Hl. apply Forall_forall. intros r Hr. apply list_elem_of_filter in Hr as [Hb _].
  split; intros ->; rewrite (high_bits_clear 8 l) in Hb by lia; done.
Qed.

Section cpu.
Context `{HostNaN} {M : Type} `{ML : CpuMemoryLaws M}.

(** C1: the stepper that tries the fast handlers and the stepper that only uses the checked
    executor return the same result and leave the same core and the same memory, up to
    bookkeeping of the bus that no access can observe. *)
Theorem stepJitFast_agrees (c : Core M) : core_ok c ->
  fst (stepJitFast c) = fst (stepFast c) /\ core_eqv (snd (stepJitFast c)) (snd (stepFast c)).
Proof. exact (stepFastImpl_agrees c). Qed.

(** C2: a fast handler that accepts an instruction has the effect of the checked executor;
    one that declines leaves the core untouched and at most bookkeeping on the bus. *)
Theorem executeJitFast_sound op st (m : M) d : op_ok op -> cpu_ok st -> mem_ok m ->
  match executeJitFast op (classifyJitFast op) (cs_instruction_address st) st m with
  | (true, st', m') => ∃ m'', execute op (mkMachine st m d) = Done tt (mkMachine st' m'' d)
                              /\ mem_eqv m' m''
  | (false, st', m') => st' = st /\ mem_eqv m' m
  end.
Proof. intros Hop Hst Hm. exact (executeJitFast_refines op st m Hop Hst Hm d). Qed.

(** executing any decoded instruction, to completion or to a stop, keeps every register
    in its width, the register files at their sizes and the memory invariant. *)
Theorem execute_keeps_types first second op (mc : Machine M) : is_u16 first -> is_u16 second ->
  decode16 first = Some op \/ decode32 first second = Some op -> machine_ok mc ->
  match execute op mc with Done _ mc' => machine_ok mc' | Stop _ mc' => machine_ok mc' end.
Proof.
  intros Hf Hs Hd Hm.
  assert (op_ok op) as Hop by
    (destruct Hd as [Hd|Hd]; [exact (decode16_op_ok _ _ Hf Hd)|exact (decode32_op_ok _ _ _ Hf Hs Hd)]).
  pose proof (inv_execute op Hop mc Hm) as Hi. destruct (execute op mc); cbn in Hi; [by destruct Hi|done].
Qed.

(** C22: one step, with or without fast handlers, keeps the core invariant, retires at most
    one instruction and charges at most 19 cycles; a completed step retires exactly one and
    charges at least one cycle. *)
Theorem step_bounds (c : Core M) (jit : bool) : core_ok c ->
  let step := if jit then stepJitFast c else stepFast c in
  let r := fst step in
  core_ok (snd step) /\ (fs_instructions r = 0 \/ fs_instructions r = 1) /\ 0 <= fs_cycles r <= 19
  /\ (fs_reason r = StopReason.step_complete -> fs_instructions r = 1 /\ 1 <= fs_cycles r).
Proof.
  intros Hc. assert (core_ok (snd (if jit then stepJitFast c else stepFast c))
    /\ result_ok (fst (if jit then stepJitFast c else stepFast c))) as [Hok Hr].
  { destruct jit; [by apply stepJitFast_ok|by apply stepFast_ok]. }
  cbv zeta. split; [done|]. split; [apply Hr|]. split; apply Hr.
Qed.

(** a run with an instruction budget keeps the invariant, retires at most the budget,
    and reports [instruction_budget] only when it retired exactly the budget. *)
Theorem run_bounds budget (c : Core M) : core_ok c -> Z.of_nat budget < 2 ^ 59 ->
  let result := fst (run budget c) in
  core_ok (snd (run budget c)) /\ 0 <= rr_instructions result <= Z.of_nat budget
  /\ 0 <= rr_cycles result <= 19 * Z.of_nat budget
  /\ (rr_reason result = StopReason.instruction_budget -> rr_instructions result = Z.of_nat budget).
Proof. apply run_ok. Qed.

(** C23: when an instruction that does not load the program counter stops for MMIO
    synchronization under trapping, the step restores the core exactly and charges nothing,
    so that the same instruction is executed again after the coordinator has synchronized. *)
Theorem synchronization_restarts (c : Core M) raw size op m :
  fetches c (step_instruction raw size op) m -> mmioTrapping m = true -> pc_load op = false ->
  fs_reason (fst (stepFast c)) = StopReason.synchronization_required ->
  mc_cpu (core_mc (snd (stepFast c))) = mc_cpu (core_mc c)
  /\ fs_instructions (fst (stepFast c)) = 0 /\ fs_cycles (fst (stepFast c)) = 0.
Proof. apply sync_restarts. Qed.

(** for every instruction that names no program-counter destination and is not CBZ or
    CBNZ, the predicted cycle count is what the completed step charges. *)
Theorem peek_is_exact (c : Core M) op raw size n : core_ok c ->
  fetchDecode (reg (mc_cpu (core_mc c)) 15) (mc_mem (core_mc c)) = Some (op, raw, size) ->
  names_pc op = false -> di_kind op <> InstrKind.cbz -> di_kind op <> InstrKind.cbnz ->
  peekPipelineCycles false (mc_cpu (core_mc c)) (mc_mem (core_mc c)) = Some n ->
  fs_reason (fst (stepFast c)) = StopReason.step_complete -> fs_cycles (fst (stepFast c)) = n.
Proof. apply peek_exact. Qed.

(** the upper-bound prediction is one, also for instructions that write the program
    counter, except for CBZ and CBNZ and for a divide into the program counter. *)
Theorem peek_is_upper_bound (c : Core M) op raw size n : core_ok c ->
  fetchDecode (reg (mc_cpu (core_mc c)) 15) (mc_mem (core_mc c)) = Some (op, raw, size) ->
  di_kind op <> InstrKind.cbz -> di_kind op <> InstrKind.cbnz ->
  (is_divide op = true -> names_pc op = false) ->
  peekPipelineCycles true (mc_cpu (core_mc c)) (mc_mem (core_mc c)) = Some n ->
  fs_reason (fst (stepFast c)) = StopReason.step_complete -> fs_cycles (fst (stepFast c)) <= n.
Proof. apply peek_upper. Qed.
End cpu.

(** C24: whatever the low registers, PUSH of a non-empty list below a stack pointer with room
    in plain RAM followed by POP of the same list restores the listed registers and the
    stack pointer, from any register state with the pushed stack pointer. *)
Theorem push_pop_round_trip `{HostNaN} `{MmioDevices D} l (mc : Machine (Bus D)) : 0 < l < 256 ->
  cpu_ok (mc_cpu mc) -> bus_ok (mc_mem mc) ->
  let bytes := 4 * popcount l in
  ram_at (mc_mem mc) (activeSp (mc_cpu mc) - bytes) bytes ->
  ∃ push pop b, decode16 (0xb400 + l) = Some push /\ decode16 (0xbc00 + l) = Some pop
  /\ exec_block push mc = Done tt
       (with_cpu (writeRegister 13 (activeSp (mc_cpu mc) - bytes) (mc_cpu mc)) (with_mem b mc))
  /\ ∀ st, length (cs_r st) = 16%nat -> activeSp st = activeSp (mc_cpu mc) - bytes ->
     ∃ mc', exec_block pop (mkMachine st b (mc_diag mc)) = Done tt mc'
       /\ (∀ r, 0 <= r < 8 -> Z.testbit l r = true -> reg (mc_cpu mc') r = reg (mc_cpu mc) r)
       /\ activeSp (mc_cpu mc') = activeSp (mc_cpu mc).
Proof.
  intros Hl Hcpu Hbus bytes Hram. destruct (push_pop_decode l Hl) as (push & pop & D1 & D2 & P1 & P2 & L1 & L2).
  assert (is_u16 l) as Hu by (unfold is_u16; lia).
  assert (bytes = 4 * Z.of_nat (length (listed (di_register_list push) 16))) as Eb.
  { unfold bytes, listed. rewrite L1, popcount_listed by done. done. }
  rewrite Eb in Hram. rewrite <- L1 in Hu.
  pose proof (low_registers l Hl) as Hlow. rewrite <- L1 in Hlow.
  destruct (push_effect push mc P1 Hu Hcpu Hbus Hram) as (b & E1 & Hb & Hs & Hw & _).
  exists push, pop, b. rewrite Eb. split; [done|]. split; [done|]. split; [exact E1|].
  intros st Hlen Hsp.
  destruct (pop_effect push pop mc P2 ltac:(congruence) Hu Hlow Hcpu Hram b st Hb Hs Hlen Hw Hsp)
    as (mc' & E2 & _ & Hreg & _ & Hsp'). exists mc'. split; [done|]. split; [|done].
  intros r Hr Ht. apply Hreg. apply list_elem_of_filter. rewrite L1. split; [done|]. apply elem_of_seqZ. lia.
Qed.

(** C25: every decoded instruction is well formed: register numbers, immediates, register
    lists, shift amounts and branch offsets are in the ranges their executors rely on. *)
Theorem decode_well_formed first second op : is_u16 first -> is_u16 second ->
  decode16 first = Some op \/ decode32 first second = Some op -> op_ok op.
Proof. intros Hf Hs [Hd|Hd]; [exact (decode16_op_ok _ _ Hf Hd)|exact (decode32_op_ok _ _ _ Hf Hs Hd)]. Qed.

(** decoding does not depend on the order of the tables: whichever row an encoding
    matches is the row that decodes it. *)
Theorem decode_row_unique first second i p : is32BitThumbPrefix first = true ->
  patterns32 !! i = Some p -> row_matches (first .<< 16 .| second) (p32_mask p, p32_value p) ->
  decode32 first second = p32_decode p first second.
Proof.
  intros Hp Hi Hm. unfold decode32. rewrite Hp. cbn [negb].
  apply (scan32_first patterns32 _ first second i p); [vm_compute; reflexivity|done|done].
Qed.

(** after CMP every condition code tests the relation it names between the operands,
    unsigned or signed, for all operand values. *)
Theorem cmp_conditions op st cond : cpu_ok st -> op_ok op -> di_kind op = InstrKind.cmp ->
  conditionPasses cond (cs_xpsr (alu_cmp_cmn op st))
  = condition_relation cond (readRegister st (di_rn op)) (operand2 op st).
Proof.
  intros Hst Hop Hk. unfold alu_cmp_cmn. rewrite Hk. cbv zeta.
  change (kind_eqb InstrKind.cmp InstrKind.cmp) with true. cbv iota.
  set (r := addWithCarry _ _ true). destruct (setNzcv_flags r st) as (Hn & Hz & Hc & Hv).
  rewrite (conditionPasses_flags cond _ r Hn Hz Hc Hv).
  pose proof (readRegister_range st (di_rn op) Hst) as Hl. pose proof (operand2_range op st Hst Hop) as Hr.
  apply sub_spec_conditions; [done|done|]. by apply addWithCarry_sub_spec.
Qed.

(** the 33-bit adder: value, carry and overflow are those of the unsigned and the signed
    sum of the operands and the carry. *)
Theorem addWithCarry_exact x y carry : is_u32 x -> is_u32 y ->
  let r := addWithCarry x y carry in
  let sum := x + y + Z.b2z carry in
  let signed := i32 x + i32 y + Z.b2z carry in
  ar_value r = u32 sum /\ ar_n r = (0x80000000 <=? u32 sum) /\ ar_z r = (u32 sum =? 0)
  /\ ar_c r = (0x100000000 <=? sum)
  /\ ar_v r = negb ((-0x80000000 <=? signed) && (signed <? 0x80000000)).
Proof.
  intros Hx Hy. cbv zeta. destruct (addWithCarry_add_spec x y carry Hx Hy) as [Hv Hn Hz Hc Ho].
  rewrite <- Hv. done.
Qed.

(** the barrel shifter returns the shifted value and the last bit shifted out, for
    every shift type and amount, including amounts of 32 and more. *)
Theorem shiftC_exact v type n carry : is_u32 v -> 0 <= n ->
  (sr_value (shiftC v type n carry), sr_carry (shiftC v type n carry)) = shift_reference v type n carry.
Proof. apply shiftC_reference. Qed.

(** an IT block of an IT instruction covers one to four instructions; the k-th executes
    under the base condition or its inverse as its mask bit says, and then the block ends. *)
Theorem it_block_conditions it_state : is_u8 it_state -> inItBlock it_state = true ->
  (0 < it_length it_state <= 4)%nat
  /\ (∀ k, (k < it_length it_state)%nat -> inItBlock (it_after k it_state) = true
        /\ currentItCondition (it_after k it_state) = it_condition it_state k)
  /\ it_after (it_length it_state) it_state = 0.
Proof.
  intros Hs Hin. pose proof (it_block_ok_byte it_state Hs) as Hok. unfold it_block_ok in Hok.
  rewrite Hin in Hok. apply andb_true_iff in Hok as [Hok Hall]. apply andb_true_iff in Hok as [Hlen Hend].
  destruct (bool_decide (0 < it_length it_state)%nat) eqn:Hpos; [|done]. apply bool_decide_eq_true in Hpos.
  cbn [negb orb] in Hend. apply bool_decide_eq_true in Hend. split; [|split; [|done]].
  - unfold it_length in *. repeat case_match; lia.
  - rewrite forallb_forall in Hall. intros k Hk. specialize (Hall k ltac:(apply in_seq; lia)).
    apply andb_true_iff in Hall as [Hi Hc]. by apply bool_decide_eq_true in Hc.
Qed.

(** a planned block holds straight-line instructions only, at most the limit of them;
    it ends with the branch it includes, or before the first instruction that needs the
    checked executor and whose boundary it reports. *)
Theorem planJitBlock_exact instructions limit :
  let p := planJitBlock instructions limit in
  let n := plan_translated_instructions p in
  (n <= limit)%nat /\ (n <= length instructions)%nat
  /\ (if plan_ends_with_branch p then
        ∃ k op, n = S k /\ instructions !! k = Some op
          /\ classifyJitBoundary op = JitBoundary.control_flow
          /\ Forall straight_line (take k instructions)
      else Forall straight_line (take n instructions)
           /\ ((n < limit)%nat -> ∀ op, instructions !! n = Some op ->
                plan_boundary p = classifyJitBoundary op
                /\ classifyJitBoundary op <> JitBoundary.none
                /\ classifyJitBoundary op <> JitBoundary.memory_may_trap)).
Proof.
  cbv zeta. destruct (planJitBlock_loop_ok instructions limit 0) as [Hb Hbr Hst Hstop].
  fold (planJitBlock instructions limit) in *. set (p := planJitBlock instructions limit) in *.
  split; [lia|]. split; [lia|]. destruct (plan_ends_with_branch p).
  - destruct (Hbr eq_refl) as (k & op & Hk & Ho). exists k, op. split; [lia|done].
  - rewrite Nat.sub_0_r in *. split; [by apply Hst|]. intros Hlt op Hop.
    specialize (Hstop eq_refl ltac:(lia)). rewrite Hop in Hstop. unfold straight_line in Hstop. tauto.
Qed.

(** the long multiplies are exact: the pair of destination registers holds the 64-bit
    unsigned (UMULL) or two's complement signed (SMULL) product. *)
Theorem long_multiply_exact op st : cpu_ok st -> op_ok op ->
  di_rd op <> di_ra op -> di_rd op < 13 -> di_ra op < 13 ->
  let n := readRegister st (di_rn op) in
  let m := readRegister st (di_rm op) in
  let pair st' := reg st' (di_ra op) * 0x100000000 + reg st' (di_rd op) in
  pair (alu_umull op st) = n * m /\ pair (alu_smull op st) = u64 (i32 n * i32 m).
Proof.
  intros Hst Hop Hne Hd Ha. cbv zeta. pose proof (opk_rd op Hop). pose proof (opk_ra op Hop).
  assert (∀ hi lo, let st' := writeRegister (di_ra op) hi (writeRegister (di_rd op) lo st) in
    reg st' (di_ra op) = hi /\ reg st' (di_rd op) = lo) as Hpair.
  { intros hi lo. cbv zeta. unfold writeRegister.
    destruct (Z.leb_spec 16 (di_rd op)), (Z.leb_spec 16 (di_ra op)); try lia.
    destruct (Z.eqb_spec (di_rd op) 13), (Z.eqb_spec (di_ra op) 13); try lia.
    unfold reg, set_reg, rget, rset. cbn [cs_r].
    rewrite list_lookup_insert_eq by (rewrite length_insert, ok_r_length by done; lia).
    rewrite list_lookup_insert_ne by lia.
    rewrite list_lookup_insert_eq by (rewrite ok_r_length by done; lia). done. }
  assert (∀ p, 0 <= p < 2 ^ 64 -> u32 (p .>> 32) * 0x100000000 + u32 p = p) as Hsplit.
  { intros p Hp. rewrite Z.shiftr_div_pow2 by lia. change (2 ^ 32) with 0x100000000.
    unfold u32. rewrite (Z.mod_small (p / 0x100000000)).
    - pose proof (Z.div_mod p 0x100000000). lia.
    - split; [apply Z.div_pos; lia|]. apply Z.div_lt_upper_bound; lia. }
  pose proof (readRegister_range st (di_rn op) Hst) as Hn. pose proof (readRegister_range st (di_rm op) Hst) as Hm.
  unfold is_u32 in Hn, Hm. split.
  - unfold alu_umull. cbv zeta. destruct (Hpair (u32 (u64 (readRegister st (di_rn op) * readRegister st (di_rm op)) .>> 32))
      (u32 (u64 (readRegister st (di_rn op) * readRegister st (di_rm op))))) as [-> ->].
    rewrite Hsplit; unfold u64; rewrite ?Z.mod_small; nia.
  - unfold alu_smull. cbv zeta. destruct (Hpair (u32 (u64 (i32 (readRegister st (di_rn op)) * i32 (readRegister st (di_rm op))) .>> 32))
      (u32 (u64 (i32 (readRegister st (di_rn op)) * i32 (readRegister st (di_rm op)))))) as [-> ->].
    apply Hsplit. unfold u64. apply Z.mod_pos_bound. lia.
Qed.

(** ** Behaviours that differ from the architecture or from the code's own intent *)

(** the 32-bit register-controlled shifts (LSL, LSR, ASR, ROR) are never decoded as
    flag-setting, whatever their S bit. *)
Theorem register_shift_drops_s_bit first second op :
  decodeRegisterShift first second = Some op -> di_set_flags op = false.
Proof. unfold decodeRegisterShift. cbv zeta. destruct (_ || _); [done|]. by intros [= <-]. Qed.

(** a byte, halfword or signed literal load with a clear U bit is decoded with its
    offset added instead of subtracted. *)
Theorem narrow_literal_adds_offset first second op :
  first = 0xf81f \/ first = 0xf83f \/ first = 0xf91f \/ first = 0xf93f ->
  decodeWideTransfer first second = Some op -> di_rn op = 15 /\ di_add op = true.
Proof.
  unfold decodeWideTransfer. cbv zeta.
  generalize (second .& 0xf000) (second .>> 12 .& 0x0f) (second .& 0x0fff) (has second 0x0800)
    (has second 0x0400) (has second 0x0100) (has second 0x0200) (has second 0x0fc0).
  intros ? rd imm ? ? ? ? ? [-> | [-> | [-> | ->]]];
    unfold base32; match goal with |- context [?x .| second] => generalize (x .| second) end;
    intros ?; vm_compute; intros E;
    match type of E with (if ?c then _ else _) = _ => destruct c end; by simplify_eq.
Qed.

(** every VLDM and VSTM is charged one cycle, however many registers it transfers. *)
Theorem vfp_multiple_costs_one first second op : decodeVfpMultiple first second = Some op ->
  di_kind op = InstrKind.vldm \/ di_kind op = InstrKind.vstm -> basePipelineCycles op = 1.
Proof.
  intros Hd Hk. assert (di_register_list op = 0) as Hl.
  { revert Hd. unfold decodeVfpMultiple. cbv zeta. intros Hd.
    repeat (case_match; simplify_eq; try done). all: revert Hd; unfold mbind, option_bind; repeat case_match; by intros [= <-]. }
  unfold basePipelineCycles. rewrite Hl. by destruct Hk as [-> | ->].
Qed.

(** The demonstration core with all MMIO trapping. *)
Definition trapping (c : Core (Bus unit)) : Core (Bus unit) :=
  {| c with core_mc :=
       with_mem {| (mc_mem (core_mc c)) with bus_trap_all_mmio := true |} (core_mc c) |}.

(** LDR PC from a trapped MMIO address stops for synchronization with the instruction
    counted as retired and the program counter already advanced, so that it is lost on
    resumption; the same load into R0 is restarted. *)
Theorem pc_load_synchronization_is_lost :
  let step code := stepFast (trapping (demo_core code [0; 0x40000000])) in
  let '(r, c) := step [0xd1; 0xf8; 0x00; 0xf0] in
  let '(r0, c0) := step [0xd1; 0xf8; 0x00; 0x00] in
  fs_reason r = StopReason.synchronization_required /\ fs_instructions r = 1
  /\ reg (mc_cpu (core_mc c)) 15 = 0x08000004
  /\ fs_reason r0 = StopReason.synchronization_required /\ fs_instructions r0 = 0
  /\ reg (mc_cpu (core_mc c0)) 15 = 0x08000000.
Proof. vm_compute. auto 10. Qed.

(** The core about to execute [CBZ R0, pc+4] at 0x08000002, after the NOP before it. *)
Definition cbz_core : Core (Bus unit) :=
  snd (stepFast (demo_core [0x00; 0xbf; 0x00; 0xb1] [0])).

(** the prediction for CBZ computes the target from the previous instruction's address;
    even the upper bound is then below the charge of the step. *)
Theorem cbz_prediction_too_low :
  core_ok cbz_core
  /\ peekPipelineCycles true (mc_cpu (core_mc cbz_core)) (mc_mem (core_mc cbz_core)) = Some 1
  /\ fs_reason (fst (stepFast cbz_core)) = StopReason.step_complete
  /\ fs_cycles (fst (stepFast cbz_core)) = 2.
Proof. split; [apply core_okb_ok; vm_compute; reflexivity|]. vm_compute. auto. Qed.

(** the exact prediction takes ADD PC, R1 for a sequential instruction, where the step
    charges the branch penalty. *)
Theorem add_pc_prediction_too_low :
  let c := demo_core [0x8f; 0x44] [0; 0x10] in
  peekPipelineCycles false (mc_cpu (core_mc c)) (mc_mem (core_mc c)) = Some 1
  /\ fs_reason (fst (stepFast c)) = StopReason.step_complete
  /\ fs_cycles (fst (stepFast c)) = 3.
Proof. vm_compute. auto. Qed.

(** ** Witnesses *)

Definition adds_core : Core (Bus unit) := demo_core [0x88; 0x18] [0; 0xffffffff; 2].
Definition ldr_core : Core (Bus unit) := demo_core [0x08; 0x68] [0; 0x20000000].
Definition adds_op : DecodedInstruction := default decoded_default (decode16 0x1888).
Definition cmp_op : DecodedInstruction := default decoded_default (decode16 0x4291).
Definition umull_op : DecodedInstruction := default decoded_default (decode32 0xfba1 0x0302).

Lemma adds_core_ok : core_ok adds_core.
Proof. apply core_okb_ok. vm_compute. reflexivity. Qed.
Lemma u16_literal x : (0 <=? x) && (x <? 0x10000) = true -> is_u16 x.
Proof. rewrite andb_true_iff, Z.leb_le, Z.ltb_lt. unfold is_u16. lia. Qed.
Lemma adds_op_ok : op_ok adds_op.
Proof. apply (decode16_op_ok 0x1888); [by apply u16_literal|]. vm_compute. reflexivity. Qed.
Lemma cmp_op_ok : op_ok cmp_op.
Proof. apply (decode16_op_ok 0x4291); [by apply u16_literal|]. vm_compute. reflexivity. Qed.
Lemma umull_op_ok : op_ok umull_op.
Proof. apply (decode32_op_ok 0xfba1 0x0302); [by apply u16_literal..|]. vm_compute. reflexivity. Qed.

Lemma stepJitFast_agrees_witness :
  core_ok adds_core /\ fst (stepJitFast adds_core) = fst (stepFast adds_core)
  /\ fs_reason (fst (stepFast adds_core)) = StopReason.step_complete.
Proof.
  split; [exact adds_core_ok|]. split; [exact (proj1 (stepJitFast_agrees adds_core adds_core_ok))|].
  vm_compute. reflexivity.
Defined.

Lemma executeJitFast_sound_witness :
  let st := demo_cpu 0x08000000 [0; 0xffffffff; 2] in
  let m := demo_bus [0x88; 0x18] in
  match executeJitFast adds_op (classifyJitFast adds_op) (cs_instruction_address st) st m with
  | (true, st', m') => ∃ m'', execute adds_op (mkMachine st m diagnostic_default)
                                = Done tt (mkMachine st' m'' diagnostic_default) /\ mem_eqv m' m''
  | (false, st', m') => st' = st /\ mem_eqv m' m
  end.
Proof.
  apply (executeJitFast_sound adds_op (demo_cpu 0x08000000 [0; 0xffffffff; 2])
    (demo_bus [0x88; 0x18]) diagnostic_default).
  - exact adds_op_ok.
  - apply cpu_okb_ok. vm_compute. reflexivity.
  - apply bus_okb_ok. vm_compute. reflexivity.
Defined.

Lemma execute_keeps_types_witness :
  match execute adds_op (core_mc adds_core) with
  | Done _ mc' => machine_ok mc' | Stop _ mc' => machine_ok mc' end.
Proof.
  apply (execute_keeps_types 0x1888 0 adds_op (core_mc adds_core)).
  - by apply u16_literal.
  - by apply u16_literal.
  - left. vm_compute. reflexivity.
  - exact adds_core_ok.
Defined.

Lemma step_bounds_witness :
  core_ok (snd (stepJitFast adds_core)) /\ 0 <= fs_cycles (fst (stepJitFast adds_core)) <= 19.
Proof.
  destruct (step_bounds adds_core true adds_core_ok) as (H1 & _ & H2 & _).
  split; [exact H1|exact H2].
Defined.

Lemma run_bounds_witness :
  core_ok (snd (run 3 adds_core)) /\ 0 <= rr_instructions (fst (run 3 adds_core)) <= 3.
Proof.
  destruct (run_bounds 3 adds_core adds_core_ok) as (H1 & H2 & _); [lia|].
  split; [exact H1|exact H2].
Defined.

Definition sync_core : Core (Bus unit) := trapping (demo_core [0x08; 0x68] [0; 0x40000000]).
Definition sync_op : DecodedInstruction := default decoded_default (decode16 0x6808).
Lemma synchronization_restarts_witness :
  mc_cpu (core_mc (snd (stepFast sync_core))) = mc_cpu (core_mc sync_core)
  /\ fs_instructions (fst (stepFast sync_core)) = 0 /\ fs_cycles (fst (stepFast sync_core)) = 0.
Proof.
  apply (synchronization_restarts sync_core 0x6808 2 sync_op (mc_mem (core_mc sync_core)));
    [|vm_compute; reflexivity..].
  split; [vm_compute; reflexivity|]. split; [vm_compute; reflexivity|]. vm_compute. reflexivity.
Defined.

Lemma peek_is_exact_witness : fs_cycles (fst (stepFast ldr_core)) = 2.
Proof.
  apply (peek_is_exact ldr_core sync_op 0x6808 2 2); try (vm_compute; reflexivity); try (vm_compute; discriminate).
  apply core_okb_ok. vm_compute. reflexivity.
Defined.

Lemma peek_is_upper_bound_witness : fs_cycles (fst (stepFast ldr_core)) <= 2.
Proof.
  apply (peek_is_upper_bound ldr_core sync_op 0x6808 2 2);
    try (vm_compute; reflexivity); try (vm_compute; discriminate).
  apply core_okb_ok. vm_compute. reflexivity.
Defined.

Lemma push_pop_round_trip_witness :
  ∃ push pop b, decode16 (0xb400 + 3) = Some push /\ decode16 (0xbc00 + 3) = Some pop
  /\ exec_block push (core_mc adds_core) = Done tt
       (with_cpu (writeRegister 13 (activeSp (mc_cpu (core_mc adds_core)) - 4 * popcount 3)
                    (mc_cpu (core_mc adds_core))) (with_mem b (core_mc adds_core)))
  /\ ∀ st, length (cs_r st) = 16%nat ->
       activeSp st = activeSp (mc_cpu (core_mc adds_core)) - 4 * popcount 3 ->
     ∃ mc', exec_block pop (mkMachine st b (mc_diag (core_mc adds_core))) = Done tt mc'
       /\ (∀ r, 0 <= r < 8 -> Z.testbit 3 r = true ->
             reg (mc_cpu mc') r = reg (mc_cpu (core_mc adds_core)) r)
       /\ activeSp (mc_cpu mc') = activeSp (mc_cpu (core_mc adds_core)).
Proof.
  apply (push_pop_round_trip 3 (core_mc adds_core)).
  - lia.
  - apply adds_core_ok.
  - apply adds_core_ok.
  - constructor. exists 2%nat. eexists. split; [vm_compute; reflexivity|]. vm_compute. auto.
Defined.

Lemma decode_well_formed_witness : op_ok adds_op.
Proof.
  apply (decode_well_formed 0x1888 0); [by apply u16_literal|by apply u16_literal|].
  left. vm_compute. reflexivity.
Defined.

Lemma decode_row_unique_witness : decode32 0xfba1 0x0302 = decodeUmull 0xfba1 0x0302.
Proof.
  apply (decode_row_unique 0xfba1 0x0302 14 (mkPattern32 0xfff000f0 0xfba00000 decodeUmull));
    vm_compute; reflexivity.
Defined.

Lemma cmp_conditions_witness :
  conditionPasses Condition.lt (cs_xpsr (alu_cmp_cmn cmp_op (demo_cpu 0x08000000 [0; 0xffffffff; 2])))
  = condition_relation Condition.lt 0xffffffff 2.
Proof.
  apply (cmp_conditions cmp_op (demo_cpu 0x08000000 [0; 0xffffffff; 2]) Condition.lt).
  - apply cpu_okb_ok. vm_compute. reflexivity.
  - exact cmp_op_ok.
  - vm_compute. reflexivity.
Defined.

Lemma addWithCarry_exact_witness : ar_v (addWithCarry 0x7fffffff 1 false) = true.
Proof. apply (addWithCarry_exact 0x7fffffff 1 false); unfold is_u32; lia. Defined.

Lemma shiftC_exact_witness :
  (sr_value (shiftC 3 ShiftType.lsr 1 false), sr_carry (shiftC 3 ShiftType.lsr 1 false)) = (1, true).
Proof. apply (shiftC_exact 3 ShiftType.lsr 1 false); unfold is_u32; lia. Defined.

Lemma it_block_conditions_witness : (0 < it_length 0x0c <= 4)%nat /\ it_after (it_length 0x0c) 0x0c = 0.
Proof.
  destruct (it_block_conditions 0x0c) as (H1 & _ & H3); [unfold is_u8; lia|reflexivity|].
  split; [exact H1|exact H3].
Defined.

Lemma long_multiply_exact_witness :
  let st := demo_cpu 0x08000000 [0; 0xffffffff; 2] in
  reg (alu_umull umull_op st) 3 * 0x100000000 + reg (alu_umull umull_op st) 0 = 0xffffffff * 2.
Proof.
  apply (long_multiply_exact umull_op (demo_cpu 0x08000000 [0; 0xffffffff; 2])).
  - apply cpu_okb_ok. vm_compute. reflexivity.
  - exact umull_op_ok.
  - vm_compute. discriminate.
  - vm_compute. reflexivity.
  - vm_compute. reflexivity.
Defined.

Lemma register_shift_drops_s_bit_witness :
  di_set_flags (default decoded_default (decodeRegisterShift 0xfa11 0xf002)) = false.
Proof. apply (register_shift_drops_s_bit 0xfa11 0xf002). vm_compute. reflexivity. Defined.

Lemma narrow_literal_adds_offset_witness :
  di_add (default decoded_default (decodeWideTransfer 0xf81f 0x1004)) = true.
Proof. apply (narrow_literal_adds_offset 0xf81f 0x1004); [by left|]. vm_compute. reflexivity. Defined.

Lemma vfp_multiple_costs_one_witness :
  basePipelineCycles (default decoded_default (decodeVfpMultiple 0xec91 0x0a04)) = 1.
Proof.
  apply (vfp_multiple_costs_one 0xec91 0x0a04); [vm_compute; reflexivity|left; vm_compute; reflexivity].
Defined.
