(* ===== verification/BusTheorems.v ===== *)
(** * Properties of the memory bus

    The theorems about the address map, the accesses, the mutation journal and the lane
    modes of [MemoryBus], with their witnesses on the concrete system of [Demo]. *)

From stdpp Require Import gmap sorting.
From S2P Require Import Prelude Address CpuState CpuStateProofs MemoryApi MemoryBus.
From S2P Require Import MemoryBusProofs BusAccess BusJournal BusIsolation WindowSet Machine.
From S2P Require Import Step Demo.
#[local] Open Scope Z_scope.
#[local] Open Scope fil_scope.

Section bus.
Context `{MmioDevices D}.
Implicit Types b : Bus D.

(** C38: rolling back to a checkpoint restores every region byte for byte: after any run of
    byte changes and unrelated operations from the checkpoint with the journal on (fewer changes
    than wrap the 64-bit sequence number, possibly more than the ring holds), [restoreSideEffects] succeeds
    whenever [canRestoreSideEffects] allows it and leaves the regions of the checkpoint. *)
Theorem rollback_restores b0 n b : bus_ok b0 -> bus_write_journal_tracking b0 = true ->
  0 <= bus_mutation_sequence b0 -> bus_mutation_sequence b0 + n < 2 ^ 64 -> bus_path b0 n b ->
  canRestoreSideEffects (sideEffectCheckpoint b0) b = true ->
  ∃ b', restoreSideEffects (sideEffectCheckpoint b0) b = (true, b')
    /\ bus_regions b' = bus_regions b0 /\ bus_mutation_sequence b' = bus_mutation_sequence b0.
Proof.
  intros Hb Ht H0 Hmax Hp Hcan.
  by apply (restoreSideEffects_regions b0 n b); [apply path_journalled|].
Qed.

(** every store through the bus, whatever its width, path and outcome, is a run of the
    journal of at most eight byte changes, so that rollback covers any sequence of stores. *)
Theorem write_is_journalled b0 n b a s v c : bus_ok b -> is_u32 a -> bus_path b0 n b ->
  ∃ m, 0 <= m <= 8 /\ bus_path b0 (n + m) (snd (bus_write maximum_alias_depth a s v c b)).
Proof. apply path_bus_write. Qed.

(** within one journal epoch and its capacity, [sideEffectsRestoredSince] holds exactly
    when every byte of backed memory is what it was at the checkpoint. *)
Theorem restoredSince_exact b0 n b : bus_ok b0 -> bus_write_journal_tracking b0 = true ->
  0 <= bus_mutation_sequence b0 -> bus_mutation_sequence b0 + n < 2 ^ 64 ->
  n <= mutation_journal_capacity -> bus_path b0 n b ->
  same_epoch (sideEffectCheckpoint b0) b = true ->
  sideEffectsRestoredSince (sideEffectCheckpoint b0) b = true
  <-> (∀ a, backed_byte a b = backed_byte a b0).
Proof.
  intros Hb Ht H0 Hmax Hcap Hp He.
  apply (restoredSince_iff b0 n b); [by apply path_journalled|by apply path_window_bytes|done|done].
Qed.

(** C39: neither check of a run against a read footprint, [sideEffectsCompatibleSince] nor
    the certificate check [ramInputsCompatibleSince], accepts a run in which a byte covered
    by the footprint differs from the checkpoint. The run may make any number of byte changes
    short of wrapping the 64-bit sequence number, also more than the journal holds, and the
    journal may be on or off throughout: a run whose entries were overwritten or never
    recorded is refused. *)
Theorem compatibleSince_never_misses b0 n b fp w w' a : bus_ok b0 ->
  0 <= bus_mutation_sequence b0 -> bus_mutation_sequence b0 + n < 2 ^ 64 -> bus_path b0 n b -> ws_wf w ->
  sideEffectsCompatibleSince (sideEffectCheckpoint b0) fp b = true
    \/ ramInputsCompatibleSince (sideEffectCheckpoint b0) fp w b = Some (true, w') ->
  footprintContains fp a = true -> backed_byte a b = backed_byte a b0.
Proof.
  intros Hb H0 Hmax Hp Hw Hpass. destruct (path_counts b0 n b H0 Hmax Hp) as (Es & _ & Er).
  destruct (Z.eq_dec n 0) as [E0|Hn]; [by rewrite (backed_byte_regions a b b0 (Er E0))|].
  assert (in_window (sideEffectCheckpoint b0) b = true) as Hin.
  { destruct Hpass as [Hpass|Hpass]; [|by eapply ramInputs_in_window].
    apply compatibleSince_in_window in Hpass. cbn [sideEffectCheckpoint ck_mutation_sequence] in Hpass. by destruct Hpass; [lia|]. }
  destruct (path_in_window b0 n b H0 Hmax Hp Hin) as [Ht Hcap].
  assert (journalled b0 n b) as J by (by apply path_journalled).
  assert (window_bytes b0 n b) as W by (by apply path_window_bytes).
  destruct Hpass as [Hpass|Hpass]; [by apply (compatibleSince_sound b0 n b)|].
  destruct (ramInputsCompatibleSince_reference (sideEffectCheckpoint b0) fp w b (jn_ok _ _ _ J) Hw)
    as (w'' & E & _).
  rewrite E in Hpass. injection Hpass as Hr _. by apply (ram_inputs_sound b0 n b).
Qed.

(** the Bloom filter of reads has no false negatives: after a tracked data read of
    backed memory the footprint contains every byte of the access, aligned or not. *)
Theorem read_footprint_covers depth a s c b v b' i r a' : bus_read_footprint_tracking b = true ->
  length (rf_words (bus_read_footprint b)) = 4%nat -> is_data_read c = true -> ctx_pc c <> 0 ->
  is_u32 a -> is_u32 a' -> a <= a' < a + byteCount s ->
  find_region a (bus_regions b) = Some (i, r) -> is_backed r = true ->
  bus_read depth a s c b = (inl v, b') -> footprintContains (bus_read_footprint b') a' = true.
Proof. apply bus_read_footprint_covers. Qed.

(** the width-specific loads are the checked access with its value masked: the
    backed-memory fast path is invisible, in value, faults and state. *)
Theorem reads_are_checked a c b : bus_ok b ->
  bus_read8 a c b = narrow u8 (bus_read maximum_alias_depth a AccessSize.byte c b)
  /\ bus_read16 a c b = narrow u16 (bus_read maximum_alias_depth a AccessSize.halfword c b)
  /\ bus_read32 a c b = narrow u32 (bus_read maximum_alias_depth a AccessSize.word c b).
Proof.
  intros Hb. split; [exact (bus_read_narrow_checked AccessSize.byte a c b Hb)|].
  split; [exact (bus_read_narrow_checked AccessSize.halfword a c b Hb)|by apply bus_read32_checked].
Qed.

(** the width-specific stores are the checked access: fast path, word store and byte
    loop leave the same memory, journal, counters and footprint. *)
Theorem writes_are_checked a v c b : bus_ok b -> is_u32 v ->
  bus_write8 a v c b = bus_write maximum_alias_depth a AccessSize.byte v c b
  /\ bus_write16 a v c b = bus_write maximum_alias_depth a AccessSize.halfword v c b
  /\ bus_write32 a v c b = bus_write maximum_alias_depth a AccessSize.word v c b.
Proof.
  intros Hb Hv. split; [by apply bus_write_narrow_checked|].
  split; [by apply bus_write_narrow_checked|by apply bus_write32_checked].
Qed.

(** the SWAR word store is the byte loop: same bytes, same journal entries in the same
    ring slots, same sequence and generation counts, with journalling on or off. *)
Theorem storeBackedWord_is_byte_loop i b r o v external : bus_regions b !! i = Some r -> 0 <= o ->
  (Z.to_nat o + 4 <= length (rg_bytes r))%nat -> Forall is_u8 (rg_bytes r) -> is_u32 v ->
  storeBackedWord i o v external b = store_bytes i (rg_base r + o) o v 4 external b.
Proof. intros Hi Ho Hl Hb Hv. by apply storeBackedWord_bytes. Qed.

(** a store to backed memory is read back by any data read at that address with its
    width, and changes no byte outside the access. *)
Theorem write_read_back depth depth' a s v c c' b u b' i r : bus_ok b -> is_u32 a ->
  bus_write depth a s v c b = (inl u, b') ->
  find_region a (bus_regions b) = Some (i, r) -> is_backed r = true -> rg_readable r = true ->
  is_fetch c' = false ->
  fst (bus_read depth' a s c' b') = inl (v mod 2 ^ (8 * byteCount s))
  /\ (∀ a', ~ a <= a' < a + byteCount s -> backed_byte a' b' = backed_byte a' b).
Proof.
  intros Hb Ha Hw Hf Hk Hr Hc. split; [by eapply bus_write_read|]. intros a' Ha'.
  rewrite (bus_write_bytes _ _ _ _ _ _ _ _ _ _ a' Hb Ha Hw Hf Hk).
  destruct (Z.leb_spec a a'), (Z.ltb_spec a' (a + byteCount s)); try done. lia.
Qed.

(** a bulk word read that hits returns what the word-by-word loop returns and leaves
    the same bus; a bulk word write that hits leaves the bus of the word-by-word loop, up to
    bookkeeping. *)
Theorem bulk_transfers_agree a n c b vs b' : bus_ok b -> is_u32 a ->
  (ctx_type c = AccessType.data_read -> 0 < n -> bus_tryFastReadWords a n c b = (Some vs, b') ->
     read_words (Z.to_nat n) a c b = (inl vs, b'))
  /\ (bus_tryFastWriteWords a vs c false b = (true, b') ->
     ∃ b'', write_words vs a c b = (inl 0, b'') /\ bus_eqv b' b'').
Proof.
  intros Hb Ha. split; [intros Hc Hn; by apply tryFastReadWords_hit|by apply tryFastWriteWords_hit].
Qed.

(** mapping a region keeps the map sorted, disjoint and inside the address space and
    adds exactly that region, or refuses it and changes nothing. *)
Theorem addRegion_keeps_map region b res b' : bus_ok b ->
  (validRange (rg_base region) (rg_size region) = true -> region_ok region) ->
  addRegion region b = (res, b') ->
  bus_ok b' /\ match res with
               | inl _ => bus_regions b' ≡ₚ region :: bus_regions b
               | inr _ => b' = b
               end.
Proof. apply addRegion_regions. Qed.

(** in a well-formed map an address has at most one region and lookup finds it. *)
Theorem find_region_exact b a : bus_ok b ->
  match find_region a (bus_regions b) with
  | Some (i, r) => bus_regions b !! i = Some r /\ region_contains r a = true
      /\ (∀ j q, bus_regions b !! j = Some q -> region_contains q a = true -> j = i)
  | None => ∀ j q, bus_regions b !! j = Some q -> region_contains q a = false
  end.
Proof.
  intros Hb. destruct (find_region a (bus_regions b)) as [[i r]|] eqn:Hf.
  - pose proof (find_region_Some _ _ _ _ Hf) as [Hi Hc]. split; [done|]. split; [done|].
    intros j q Hj Hq. pose proof (find_region_complete _ _ _ _ Hb Hj Hq). congruence.
  - intros j q Hj. destruct (region_contains q a) eqn:Hq; [|done].
    pose proof (find_region_complete _ _ _ _ Hb Hj Hq). congruence.
Qed.

(** C40: with all MMIO trapping no access reaches a device, and a refused access leaves the
    bus exactly as it was. *)
Theorem trapping_isolates_devices depth a s v c b : bus_trap_all_mmio b = true ->
  (let '(res, b') := bus_read depth a s c b in
   match res with inl _ => bus_eqv b' b | inr _ => b' = b end)
  /\ (let '(res, b') := bus_write depth a s v c b in
      match res with
      | inl _ => bus_devices b' = bus_devices b /\ bus_mmio_generation b' = bus_mmio_generation b
      | inr _ => b' = b
      end).
Proof.
  intros Ht. split.
  - destruct (bus_read depth a s c b) as [res b'] eqn:E. exact (trapped_read _ _ _ _ _ _ _ Ht E).
  - destruct (bus_write depth a s v c b) as [res b'] eqn:E. exact (trapped_write _ _ _ _ _ _ _ _ Ht E).
Qed.

(** under the reversible-RAM restriction no store changes a region other than
    non-executable RAM, through an alias or not. *)
Theorem reversible_mode_changes_ram_only depth a s v c b j r : bus_reversible_ram_only b = true ->
  bus_regions b !! j = Some r -> reversible_region r = false ->
  bus_regions (snd (bus_write depth a s v c b)) !! j = Some r.
Proof. apply reversible_write. Qed.

(** the single-pass certificate check, with its open-addressed address set, terminates
    and returns what rescanning the journal window for every entry returns, from any state
    of the scratch set, which it leaves usable. *)
Theorem certificate_check_exact ck fp w b : bus_ok b -> ws_wf w ->
  ∃ w', ramInputsCompatibleSince ck fp w b = Some (ram_inputs_reference ck fp b, w') /\ ws_wf w'.
Proof. apply ramInputsCompatibleSince_reference. Qed.
End bus.

(** ** Witnesses *)

Definition data_context : AccessContext := mkAccessContext AccessType.data_read 0x08000000.
Definition store_access : AccessContext := mkAccessContext AccessType.data_write 0x08000000.

Lemma demo_bus_ok : bus_ok (demo_bus []).
Proof. apply bus_okb_ok. vm_compute. reflexivity. Qed.
Lemma ram_address_u32 : is_u32 0x20000010.
Proof. unfold is_u32. lia. Qed.

(** The bus after one word store to RAM. *)
Definition stored_bus : Bus unit :=
  snd (bus_write maximum_alias_depth 0x20000010 AccessSize.word 0x11223344 store_access (demo_bus [])).

Lemma stored_bus_path : bus_path (demo_bus []) 4 stored_bus.
Proof.
  assert (stored_bus = store_bytes 2 0x20000010 0x10 0x11223344 4 false (demo_bus [])) as ->.
  { vm_compute. reflexivity. }
  destruct (path_store_bytes (demo_bus []) 0 (demo_bus []) 0x20000010 2
    (default (backed_region RegionKind.ram 0 0 EmptyString true false 0) (bus_regions (demo_bus []) !! 2%nat))
    0x11223344 4 false) as (m & Hm & Hp).
  - exact demo_bus_ok.
  - exact ram_address_u32.
  - lia.
  - vm_compute. reflexivity.
  - vm_compute. reflexivity.
  - vm_compute. reflexivity.
  - constructor.
  - assert (bus_mutation_sequence (demo_bus []) = 0) as E0 by (vm_compute; reflexivity).
    assert (m = 4) as ->; [|exact Hp].
    assert (journalled (demo_bus []) (0 + m) (store_bytes 2 0x20000010 0x10 0x11223344 4 false (demo_bus []))) as J.
    { apply path_journalled; [exact demo_bus_ok|vm_compute; reflexivity|lia|lia|exact Hp]. }
    pose proof (jn_sequence _ _ _ J) as E. rewrite E0 in E.
    assert (bus_mutation_sequence (store_bytes 2 0x20000010 0x10 0x11223344 4 false (demo_bus [])) = 4) as E4
      by (vm_compute; reflexivity). lia.
Qed.

Lemma demo_tracking : bus_write_journal_tracking (demo_bus []) = true.
Proof. vm_compute. reflexivity. Qed.
Lemma demo_sequence : bus_mutation_sequence (demo_bus []) = 0.
Proof. vm_compute. reflexivity. Qed.

Lemma rollback_restores_witness :
  ∃ b', restoreSideEffects (sideEffectCheckpoint (demo_bus [])) stored_bus = (true, b')
    /\ bus_regions b' = bus_regions (demo_bus [])
    /\ bus_mutation_sequence b' = bus_mutation_sequence (demo_bus []).
Proof.
  apply (rollback_restores (demo_bus []) 4 stored_bus).
  - exact demo_bus_ok.
  - exact demo_tracking.
  - rewrite demo_sequence. lia.
  - rewrite demo_sequence. lia.
  - exact stored_bus_path.
  - vm_compute. reflexivity.
Defined.

Lemma write_is_journalled_witness :
  ∃ m, 0 <= m <= 8 /\ bus_path (demo_bus []) (4 + m)
    (snd (bus_write maximum_alias_depth 0x20000010 AccessSize.byte 5 store_access stored_bus)).
Proof.
  apply (write_is_journalled (demo_bus []) 4 stored_bus).
  - apply bus_okb_ok. vm_compute. reflexivity.
  - exact ram_address_u32.
  - exact stored_bus_path.
Defined.

Lemma restoredSince_exact_witness :
  sideEffectsRestoredSince (sideEffectCheckpoint (demo_bus [])) stored_bus = true
  <-> (∀ a, backed_byte a stored_bus = backed_byte a (demo_bus [])).
Proof.
  apply (restoredSince_exact (demo_bus []) 4 stored_bus).
  - exact demo_bus_ok.
  - exact demo_tracking.
  - rewrite demo_sequence. lia.
  - rewrite demo_sequence. lia.
  - unfold mutation_journal_capacity. lia.
  - exact stored_bus_path.
  - vm_compute. reflexivity.
Defined.

(** A host-side store to a word that the program has not read. *)
Definition external_context : AccessContext := mkAccessContext AccessType.data_write 0.
Definition external_bus : Bus unit :=
  snd (bus_write maximum_alias_depth 0x20000010 AccessSize.byte 5 external_context (demo_bus [])).
Definition empty_set : WindowAddressSet := mkWindowSet ∅ 0.
Lemma empty_set_wf : ws_wf empty_set.
Proof. split; [cbn; lia|]. intros i. unfold slot_at, empty_set. cbn [ws_slots]. rewrite lookup_empty. cbn. lia. Qed.
Definition tracked_footprint : ReadFootprint := addReadFootprint footprint_default 0x20000040.

Lemma compatibleSince_never_misses_witness :
  backed_byte 0x20000040 external_bus = backed_byte 0x20000040 (demo_bus []).
Proof.
  destruct (path_bus_write (demo_bus []) 0 (demo_bus []) maximum_alias_depth 0x20000010
    AccessSize.byte 5 external_context demo_bus_ok ram_address_u32 (path_refl _)) as (m & Hm & Hp).
  apply (compatibleSince_never_misses (demo_bus []) (0 + m) external_bus tracked_footprint
    empty_set empty_set).
  - exact demo_bus_ok.
  - rewrite demo_sequence. lia.
  - rewrite demo_sequence. lia.
  - exact Hp.
  - exact empty_set_wf.
  - left. vm_compute. reflexivity.
  - vm_compute. reflexivity.
Defined.

Lemma certificate_check_exact_witness :
  ∃ w', ramInputsCompatibleSince (sideEffectCheckpoint (demo_bus [])) tracked_footprint empty_set
          external_bus = Some (true, w') /\ ws_wf w'.
Proof.
  assert (bus_ok external_bus) as Hb by (apply bus_okb_ok; vm_compute; reflexivity).
  destruct (certificate_check_exact (sideEffectCheckpoint (demo_bus [])) tracked_footprint empty_set
    external_bus Hb empty_set_wf) as (w' & E & Hw).
  exists w'. split; [|exact Hw]. rewrite E. f_equal.
Defined.

Definition demo_ram : Region :=
  default (backed_region RegionKind.ram 0 0 EmptyString true false 0) (bus_regions (demo_bus []) !! 2%nat).

Lemma read_footprint_covers_witness :
  footprintContains (bus_read_footprint (snd (bus_read maximum_alias_depth 0x20000010 AccessSize.word
    data_context (demo_bus [])))) 0x20000013 = true.
Proof.
  apply (read_footprint_covers maximum_alias_depth 0x20000010 AccessSize.word data_context (demo_bus []) 0
    (snd (bus_read maximum_alias_depth 0x20000010 AccessSize.word data_context (demo_bus []))) 2 demo_ram);
    try (vm_compute; reflexivity); try (vm_compute; discriminate).
  - exact ram_address_u32.
  - unfold is_u32. lia.
  - cbn [byteCount]. lia.
Defined.

Lemma reads_are_checked_witness :
  bus_read8 0x20000010 data_context stored_bus
  = narrow u8 (bus_read maximum_alias_depth 0x20000010 AccessSize.byte data_context stored_bus).
Proof.
  assert (bus_ok stored_bus) as Hb by (apply bus_okb_ok; vm_compute; reflexivity).
  exact (proj1 (reads_are_checked 0x20000010 data_context stored_bus Hb)).
Defined.

Lemma writes_are_checked_witness :
  bus_write32 0x20000010 7 store_access stored_bus
  = bus_write maximum_alias_depth 0x20000010 AccessSize.word 7 store_access stored_bus.
Proof.
  assert (bus_ok stored_bus) as Hb by (apply bus_okb_ok; vm_compute; reflexivity).
  assert (is_u32 7) as Hv by (unfold is_u32; lia).
  exact (proj2 (proj2 (writes_are_checked 0x20000010 7 store_access stored_bus Hb Hv))).
Defined.

Lemma storeBackedWord_is_byte_loop_witness :
  storeBackedWord 2 0x10 0x11223344 false (demo_bus [])
  = store_bytes 2 (rg_base demo_ram + 0x10) 0x10 0x11223344 4 false (demo_bus []).
Proof.
  apply (storeBackedWord_is_byte_loop 2 (demo_bus []) demo_ram).
  - vm_compute. reflexivity.
  - lia.
  - vm_compute. repeat constructor.
  - exact (rgk_range _ (regions_ok_lookup _ 2 demo_ram demo_bus_ok eq_refl)).
  - unfold is_u32. lia.
Defined.

Lemma write_read_back_witness :
  fst (bus_read maximum_alias_depth 0x20000010 AccessSize.word data_context stored_bus)
  = inl (0x11223344 mod 2 ^ (8 * byteCount AccessSize.word)).
Proof.
  refine (proj1 (write_read_back maximum_alias_depth maximum_alias_depth 0x20000010 AccessSize.word 0x11223344
    store_access data_context (demo_bus []) 0 stored_bus 2 demo_ram demo_bus_ok ram_address_u32 _ _ _ _ _));
    vm_compute; reflexivity.
Defined.

Lemma bulk_transfers_agree_witness :
  read_words 2 0x20000010 data_context stored_bus
  = (inl [0x11223344; 0], snd (bus_tryFastReadWords 0x20000010 2 data_context stored_bus)).
Proof.
  assert (bus_ok stored_bus) as Hb by (apply bus_okb_ok; vm_compute; reflexivity).
  refine (proj1 (bulk_transfers_agree 0x20000010 2 data_context stored_bus [0x11223344; 0]
    (snd (bus_tryFastReadWords 0x20000010 2 data_context stored_bus)) Hb ram_address_u32) _ _ _).
  - reflexivity.
  - lia.
  - vm_compute. reflexivity.
Defined.

Definition second_ram : Region := backed_region RegionKind.ram 0x30000000 16 "sram2" true false 0.
Lemma addRegion_keeps_map_witness :
  bus_ok (snd (addRegion second_ram (demo_bus []))).
Proof.
  refine (proj1 (addRegion_keeps_map second_ram (demo_bus []) (fst (addRegion second_ram (demo_bus [])))
    (snd (addRegion second_ram (demo_bus []))) demo_bus_ok _ _)).
  - intros _. apply region_okb_ok. vm_compute. reflexivity.
  - apply surjective_pairing.
Defined.

Lemma find_region_exact_witness :
  bus_regions (demo_bus []) !! 2%nat = Some demo_ram /\ region_contains demo_ram 0x20000010 = true.
Proof.
  pose proof (find_region_exact (demo_bus []) 0x20000010 demo_bus_ok) as Hf.
  assert (find_region 0x20000010 (bus_regions (demo_bus [])) = Some (2%nat, demo_ram)) as E
    by (vm_compute; reflexivity).
  rewrite E in Hf. destruct Hf as (H1 & H2 & _). split; [exact H1|exact H2].
Defined.

Definition trapped_bus : Bus unit := {| (demo_bus []) with bus_trap_all_mmio := true |}.
Lemma trapping_isolates_devices_witness :
  let '(res, b') := bus_read 8 0x40000000 AccessSize.word data_context trapped_bus in
  match res with inl _ => bus_eqv b' trapped_bus | inr _ => b' = trapped_bus end.
Proof. exact (proj1 (trapping_isolates_devices 8 0x40000000 AccessSize.word 0 data_context trapped_bus eq_refl)). Defined.

Definition reversible_bus : Bus unit := {| (demo_bus []) with bus_reversible_ram_only := true |}.
Lemma reversible_mode_changes_ram_only_witness :
  bus_regions (snd (bus_write 8 0x08000000 AccessSize.word 0 store_access reversible_bus)) !! 0%nat
  = bus_regions reversible_bus !! 0%nat.
Proof.
  apply (reversible_mode_changes_ram_only 8 0x08000000 AccessSize.word 0 store_access reversible_bus 0);
    vm_compute; reflexivity.
Defined.
