(* ===== verification/SystemTheorems.v ===== *)
(** * Properties of the exception model

    The theorems about the system control block and the exception controller, with their
    witnesses on a small system whose only device is the system control block. *)

From stdpp Require Import gmap sorting.
From S2P Require Import Prelude Address Instruction CpuState CpuStateProofs MemoryApi.
From S2P Require Import SystemControl SystemControlProofs Exceptions MemoryBus MemoryBusProofs.
From S2P Require Import BusAccess BusJournal BusWords ExceptionsProofs Machine Step Demo.
#[local] Open Scope Z_scope.
#[local] Open Scope fil_scope.

(** C26: exception entry and return are inverse, as long as no FP frame of an earlier exception
    is still deferred when the exception is entered (a nested entry over a deferred frame loses
    that frame, see [nested_lazy_frame_is_lost]).  Take an exception number from 1 to 255, a core
    in Thumb state with an even program counter, the alignment bit of its status word clear, its
    IT state and stack pointer agreeing with their copies, plain RAM for the whole frame below
    the stack pointer and a Thumb handler in a directly readable vector.  Entry succeeds at the
    handler, and after any handler that keeps the registers it must save, the stacked frame and
    the stack pointers, returning through the value in LR restores the core registers, the status
    word with its IT state, both stack pointers, CONTROL, the FP registers (stacked eagerly,
    deferred by this entry, or never stacked) and the nesting of exceptions. *)
Theorem exception_round_trip `{MmioDevices D} `{SystemDevice D} n handler (c : Controller (Bus D)) :
  entry_ready n handler c -> interruptible (ec_cpu c) ->
  ∃ c1, enter n c = (inl tt, c1)
    /\ reg (ec_cpu c1) 15 = handler .& not32 1 /\ ipsr (ec_cpu c1) = n
    /\ ∀ c2, handler_done c c1 c2 ->
       ∃ c3, exceptionReturn (reg (ec_cpu c1) 14) c2 = (inl tt, c3)
         /\ restored (ec_cpu c) (ec_cpu c3) /\ ec_active_stack c3 = ec_active_stack c.
Proof. apply enter_return. Qed.


(** C28: every operation of the system control block, register accesses and interrupt lines
    included, keeps its registers in range, its pending summary exact and every asserted
    line of an inactive interrupt pending: the states reachable from reset are well formed. *)
Theorem system_control_invariant vector_base s : is_u32 vector_base ->
  rtc system_step (system_reset vector_base) s -> sys_ok s.
Proof.
  intros Hv. apply (rtc_ind_r (fun s => sys_ok s)); [by apply reset_ok|].
  intros x y _ Hstep Hx. exact (system_step_ok x y Hstep Hx).
Qed.

(** SysTick and DWT time can be advanced in batches: advancing by [a] and then by [b]
    cycles is advancing by [a + b], for counter, flags and cycle count. *)
Theorem systick_batching a b s : sys_ok s -> 0 <= a -> 0 <= b -> a + b < 2 ^ 64 ->
  advanceCycles b (advanceCycles a s) = advanceCycles (a + b) s.
Proof.
  intros Hok Ha Hb Hab. pose proof (so_typed s Hok) as Ht.
  rewrite !advanceCycles_reference; try done; try lia.
  - by apply advance_add.
  - apply advanceCycles_ok; [done|lia].
Qed.

(** C36: [cyclesUntilSysTickInterrupt] is exact: in every reachable state in which SysTick is not
    pending already, advancing by fewer cycles than announced does not pend it, advancing by at
    least as many does (also through several wraps of the counter), and without an announcement
    no advance pends it, for every 64-bit number of cycles. *)
Theorem systick_deadline_exact c s : sys_ok s -> 0 <= c < 2 ^ 64 -> sc_systick_pending s = false ->
  sc_systick_pending (advanceCycles c s)
  = match cyclesUntilSysTickInterrupt s with Some n => n <=? c | None => false end.
Proof.
  intros Hok Hc Hp. pose proof (so_typed s Hok) as Ht. rewrite advanceCycles_reference by done.
  apply systick_deadline; [done|lia|done].
Qed.

(** ** A system with the system control block as its device *)

#[global] Instance system_devices : MmioDevices SystemControl := {|
  device_read _ offset size context s := system_read offset size context s;
  device_write _ offset size value context s := system_write offset size value context s;
  device_domain _ _ _ _ := MmioDomain.board_local;
  device_fpccr s := Some (sc_fpccr s);
|}.
#[global] Instance system_device : SystemDevice SystemControl := {|
  device_system s := s;
  set_device_system s _ := s;
  device_system_set s d := eq_refl;
|}.

(** Flash with a vector table at its base, RAM, and the system window. *)
Definition exception_bus (fpccr : Z) (vectors : list Z) : Bus SystemControl :=
  let sys := {| (system_reset 0x08000000) with sc_fpccr := fpccr |} in
  let b := snd (mapFlash 0x08000000 256 "flash" true (empty_bus sys)) in
  let b := snd (mapRam 0x20000000 256 "sram" false b) in
  let b := snd (mapMmio 0xe0000000 0x10000 0 "cortexm-system" b) in
  snd (loadBytes 0x08000040 vectors b).

(** Handlers at 0x08000080 and 0x08000090 for exceptions 16 and 17. *)
Definition two_vectors : list Z := [0x81; 0; 0; 8; 0x91; 0; 0; 8].

(** A thread with the FP context active. *)
Definition fp_thread : CpuState :=
  {| cpu_default with
     cs_r := [1; 2; 3; 4; 5; 6; 7; 8; 9; 10; 11; 12; 13; 0x200000fc; 15; 0x08000020];
     cs_msp := 0x200000fc; cs_control := 4; cs_s := 0x3f800000 :: replicate 31 0;
     cs_instruction_address := 0x0800001e |}.
Definition fp_controller (fpccr : Z) : Controller (Bus SystemControl) :=
  mkController fp_thread (exception_bus fpccr two_vectors) [].

Definition after {A} (p : (A + string) * Controller (Bus SystemControl)) : Controller (Bus SystemControl) := snd p.

(** A second exception that preempts a handler whose FP frame is still deferred abandons the
    deferred frame.  On this machine the two returns leave the thread with FP registers read from stack memory
    that was never written.  With lazy stacking off the thread gets its registers back. *)
Lemma nested_lazy_frame_is_lost :
  let run c := let c := after (enter 16 c) in
               let c := after (enter 17 c) in
               let c := after (exceptionReturn (reg (ec_cpu c) 14) c) in
               after (exceptionReturn 0xffffffe9 c) in
  ec_active_stack (run (fp_controller fpccr_lspen)) = []
  /\ cs_r (ec_cpu (run (fp_controller fpccr_lspen))) = cs_r fp_thread
  /\ sreg (ec_cpu (run (fp_controller fpccr_lspen))) 0 = 0
  /\ sreg (ec_cpu (run (fp_controller 0))) 0 = 0x3f800000.
Proof. vm_compute. auto. Qed.

(** ** Witnesses *)

Definition first_entry : Controller (Bus SystemControl) := fp_controller fpccr_lspen.

Lemma first_entry_ready : entry_ready 16 0x08000081 first_entry.
Proof.
  constructor; cbv zeta.
  - lia.
  - apply cpu_okb_ok. vm_compute. reflexivity.
  - apply bus_okb_ok. vm_compute. reflexivity.
  - constructor. exists 1%nat. eexists. split; [vm_compute; reflexivity|]. vm_compute. done.
  - exists 0%nat. eexists. split; [vm_compute; reflexivity|]. vm_compute. done.
  - reflexivity.
Qed.
Lemma first_entry_interruptible : interruptible (ec_cpu first_entry).
Proof. constructor; vm_compute; reflexivity. Qed.

Lemma exception_round_trip_witness :
  ∃ c3, exceptionReturn (reg (ec_cpu (after (enter 16 first_entry))) 14) (after (enter 16 first_entry)) = (inl tt, c3)
    /\ restored fp_thread (ec_cpu c3).
Proof.
  destruct (exception_round_trip 16 0x08000081 first_entry first_entry_ready first_entry_interruptible)
    as (c1 & E1 & _ & _ & Hall).
  pose proof (handler_done_at_once _ _ _ first_entry_ready first_entry_interruptible) as Hd.
  unfold after. rewrite E1 in *. cbn [snd] in *. destruct (Hall c1 Hd) as (c3 & E3 & Hr & _).
  exists c3. split; [exact E3|exact Hr].
Defined.

Lemma reset_system_ok : sys_ok (system_reset 0x08000000).
Proof. apply reset_ok. unfold is_u32. lia. Qed.


Lemma system_control_invariant_witness : sys_ok (setInterruptLine 3 true (system_reset 0x08000000)).
Proof.
  apply (system_control_invariant 0x08000000); [unfold is_u32; lia|]. apply rtc_once, step_line.
Defined.

Definition write_context : AccessContext := mkAccessContext AccessType.data_write 0.

(** SysTick counting down from 9 with its interrupt enabled. *)
Definition counting_system : SystemControl :=
  snd (system_write 0xe010 AccessSize.word 3 write_context
    (snd (system_write 0xe014 AccessSize.word 9 write_context (system_reset 0x08000000)))).
Lemma counting_system_ok : sys_ok counting_system.
Proof.
  apply (system_access_ok 0xe010 AccessSize.word), (system_access_ok 0xe014 AccessSize.word), reset_system_ok.
Qed.

Lemma systick_batching_witness :
  advanceCycles 25 (advanceCycles 7 counting_system) = advanceCycles 32 counting_system.
Proof. apply (systick_batching 7 25); [exact counting_system_ok|lia|lia|lia]. Defined.

Lemma systick_deadline_exact_witness :
  sc_systick_pending (advanceCycles 9 counting_system) = false
  /\ sc_systick_pending (advanceCycles 10 counting_system) = true.
Proof.
  split; rewrite systick_deadline_exact; try exact counting_system_ok; try lia; vm_compute; reflexivity.
Defined.
