(* ===== verification/JitTheorems.v ===== *)
(** * Properties of the micro-JIT's intermediate representation

    The refinement theorem for lowered blocks, with its witness on a three-instruction loop. *)

From S2P Require Import Prelude Address Instruction Decoder DecoderProofs CpuState.
From S2P Require Import CpuStateProofs MemoryApi Machine Float32 Execute ExecuteProofs Step.
From S2P Require Import StepProofs MicroIr MicroIrProofs MicroIrBlocks MemoryBus BusAccess Demo.
#[local] Open Scope Z_scope.
#[local] Open Scope fil_scope.

Section jit.
Context `{HostNaN} {M : Type} `{ML : CpuMemoryLaws M}.

(** C3: a block that [buildMicroBlock] accepts, built from decoded instructions that follow each
    other in memory from the program counter and entered outside an IT block, run by the micro-operation interpreter for up
    to [max] instructions, leaves exactly the registers, flags and program counter that the
    stepper leaves after the same number of instructions of the block, with memory and every
    other part of the core untouched; it retires at least one instruction and at most [max]. *)
Theorem micro_block_refines sources block max (core : Core M) : let st := mc_cpu (core_mc core) in
  buildMicroBlock sources = inl block ->
  Forall (fun source => op_ok (ms_decoded source)) sources ->
  core_ok core -> cs_it_state st = 0 -> contiguous (reg st 15) sources ->
  let '(n, mu) := interpretMicroBlock block max (micro_of st) in
  (n <= max)%nat /\ (n <= length sources)%nat /\ (0 < max -> 0 < n)%nat
  /\ ∃ a, step_sources (take n sources) core = Some (put_cpu (inject mu (at_address a st)) core).
Proof.
  intros st Hb Hops Hc Hit Hcont. unfold interpretMicroBlock, interpretMicroOps.
  unfold buildMicroBlock in Hb. destruct sources as [|first rest]; [done|]. case_match; [done|].
  apply build_ops_lowers in Hb as (insts & Hi & Hf). cbn [mb_ops app] in Hi. rewrite Hi.
  pose proof (Forall2_length _ _ _ Hf) as Hlen.
  destruct (Nat.eqb_spec max 0) as [->|Hmax].
  - split; [lia|]. split; [lia|]. split; [lia|]. exists (cs_instruction_address st).
    unfold st. by rewrite put_cpu_same.
  - pose proof (interpret_loop_bounds insts max 0 (micro_of st)) as (Hn & Hm & Hp & _).
    destruct (interpret_loop insts max 0 (micro_of st)) as [n mu] eqn:Eloop. cbn [fst] in *.
    destruct (interpret_loop_sim _ _ _ _ core _ _ Hf Hops Hc Hit Hcont Eloop) as (_ & a & Hs & _).
    rewrite Nat.sub_0_r in Hs. split; [lia|]. split; [cbn [length] in *; lia|].
    split; [intros _; apply Hp; [by destruct insts|lia]|]. by exists a.
Qed.
End jit.

(** ** Witness *)

(** [subs r0, #1; lsls r1, r1, #1; bne] back to the first instruction. *)
Definition loop_sources : list MicroSource :=
  let source pc raw := mkMicroSource (default decoded_default (decode16 raw)) pc 2 in
  [source 0x08000000 0x3801; source 0x08000002 0x0049; source 0x08000004 0xd1fc].
Definition loop_block : MicroBlock :=
  match buildMicroBlock loop_sources with inl block => block | inr _ => mkMicroBlock [] false 0 end.
Definition loop_core : Core (Bus unit) := demo_core [0x01; 0x38; 0x49; 0x00; 0xfc; 0xd1] [5; 1].

Lemma narrow_ok raw : is_u16 raw -> op_ok (default decoded_default (decode16 raw)).
Proof.
  intros Hr. destruct (decode16 raw) as [op|] eqn:E; [exact (decode16_op_ok _ _ Hr E)|].
  constructor; cbn; try done; unfold is_u32, is_u16; lia.
Qed.

Lemma micro_block_refines_witness :
  let '(n, mu) := interpretMicroBlock loop_block 8 (micro_of (mc_cpu (core_mc loop_core))) in
  n = 3%nat /\ mu_pc mu = 0x08000000 /\ take 2 (mu_r mu) = [4; 2]
  /\ ∃ a, step_sources (take n loop_sources) loop_core
          = Some (put_cpu (inject mu (at_address a (mc_cpu (core_mc loop_core)))) loop_core).
Proof.
  pose proof (micro_block_refines loop_sources loop_block 8 loop_core) as Hr. cbv zeta in Hr.
  assert (interpretMicroBlock loop_block 8 (micro_of (mc_cpu (core_mc loop_core)))
    = (3%nat, mkMicroCpu [4; 2; 0; 0; 0; 0; 0; 0; 0; 0; 0; 0; 0] 0 0x08000000 0x01000000)) as E
    by (vm_compute; reflexivity).
  rewrite E in *. split; [done|]. split; [done|]. split; [done|]. apply Hr.
  - vm_compute. reflexivity.
  - repeat apply Forall_cons_2; try apply Forall_nil_2; apply narrow_ok; unfold is_u16; lia.
  - apply core_okb_ok. vm_compute. reflexivity.
  - reflexivity.
  - vm_compute. auto.
Defined.
