(* ===== verification/CanClock.v ===== *)
(** * The event loop as the CAN bus's clock

    [EventLoop] implements the interface the bus is verified against: the laws of
    [EventClockLaws] follow from what scheduling and cancelling do to the pending events. *)

From stdpp Require Import gmap sorting.
From S2P Require Import Prelude Common EventLoop EventLoopProofs EventLoopDispatch.
From S2P Require Import CanFrame CanBus CanBusProofs.
#[local] Open Scope Z_scope.
#[local] Open Scope fil_scope.

(** A type of callbacks that contains the bus's two. *)
Class CanCallbacks (C : Type) := {
  can_event : CanEvent -> C;
  as_can_event : C -> option CanEvent;
  as_can_event_law e : as_can_event (can_event e) = Some e;
}.

Section clock.
Context {C G B : Type} `{CanCallbacks C}.
Abbreviation Loop := (Loop C G B).
Abbreviation Slot := (Slot C G).

#[export] Instance loop_clock : EventClock Loop := {|
  ck_now_of := timeFor;
  ck_owner := lp_active_owner;
  ck_set_owner := setCurrentOwner;
  ck_schedule t e := scheduleBuiltin t (Some (can_event e)) None;
  ck_cancel := cancelId;
|}.

Definition bus_event (slot : Slot) : Z * option CanEvent := (sl_at slot, sl_builtin slot ≫= as_can_event).
Definition bus_events (l : Loop) : gmap Z (Z * option CanEvent) := bus_event <$> view l.
Definition has_room (l : Loop) : Prop :=
  lp_next_id l < lane_id_marker /\ lp_next_sequence l < max_u64 /\ Z.of_nat (length (lp_slots l)) < max_u32.

Lemma timeFor_range owner (l : Loop) : loop_ok l -> 0 <= timeFor owner l <= max_u64.
Proof.
  intros Hok. unfold timeFor. assert (∀ x, 0 <= u64 x <= max_u64) as Hu
    by (intros x; pose proof (u64_range x); unfold max_u64; lia).
  destruct (_ =? _); [apply Hu|]. destruct (lp_owner_now l !! owner); apply Hu.
Qed.

Lemma schedule_succeeds t c guard (l : Loop) : loop_ok l -> has_room l -> timeFor (lp_active_owner l) l <= t ->
  ∃ id l', scheduleBuiltin t (Some c) guard l = (inl id, l').
Proof.
  intros Hok (H1 & H2 & H3) Ht. pose proof (lo_next_id l Hok).
  unfold scheduleBuiltin, schedule_with, throw_if, get, update, mbind, Ev_bind, raise, mret, Ev_ret.
  rewrite bool_decide_eq_true_2 by done. cbn [negb]. rewrite (lo_serial l Hok). cbn [andb].
  destruct (Z.ltb_spec t (timeFor (lp_active_owner l) l)); [lia|].
  destruct (allocateId l) as [r1 l1] eqn:E1. assert (∃ id, r1 = inl id /\ lp_next_sequence l1 = lp_next_sequence l /\ lp_slots l1 = lp_slots l) as (id & -> & Q1 & S1).
  { unfold allocateId in E1. rewrite (lo_serial l Hok) in E1. destruct (Z.eqb_spec (lp_next_id l) 0); [lia|].
    destruct (Z.leb_spec lane_id_marker (lp_next_id l)); [lia|]. injection E1 as <- <-. by eexists. }
  destruct (acquireSlot l1) as [r2 l2] eqn:E2. assert (∃ i, r2 = inl i /\ lp_next_sequence l2 = lp_next_sequence l) as (i & -> & Q2).
  { unfold acquireSlot in E2. rewrite S1 in E2. destruct (Z.leb_spec max_u32 (Z.of_nat (length (lp_slots l)))); [lia|].
    destruct (lp_free_slots l1); injection E2 as <- <-; eexists; (split; [reflexivity|exact Q1]). }
  destruct (allocateSequence (stamp_slot i t id l2)) as [r3 l3] eqn:E3. assert (∃ q, r3 = inl q) as (q & ->).
  { unfold allocateSequence in E3. change (lp_next_sequence (stamp_slot i t id l2)) with (lp_next_sequence l2) in E3. rewrite Q2 in E3.
    destruct (Z.eqb_spec (lp_next_sequence l) max_u64); [lia|]. injection E3 as <- _. by eexists. }
  do 2 eexists. reflexivity.
Qed.

Lemma bus_events_schedule t e (l : Loop) : loop_ok l -> t <= max_u64 ->
  let '(r, l') := scheduleBuiltin t (Some (can_event e)) None l in
  loop_ok l' /\ lp_active_owner l' = lp_active_owner l /\ (∀ o, timeFor o l' = timeFor o l)
  /\ match r with
     | inl id => id <> 0 /\ bus_events l !! id = None /\ bus_events l' = <[id := (t, Some e)]> (bus_events l)
     | inr _ => bus_events l' = bus_events l /\ ~ (has_room l /\ timeFor (lp_active_owner l) l <= t)
     end.
Proof.
  intros Hok Ht. pose proof (schedule_spec true t (Some (can_event e)) None l Hok Ht) as Hs.
  pose proof (schedule_succeeds t (can_event e) None l Hok) as Hsucc. unfold scheduleBuiltin in *.
  destruct (schedule_with true t (Some (can_event e)) None l) as [r l'].
  destruct Hs as (Hok' & Hk & Ho & Hv). split; [done|]. split; [done|]. split; [intros o; by apply timeFor_clocks|].
  destruct r as [id|err].
  - destruct Hv as (_ & slot & Hnone & Hv & Hslot). split_and!.
    + assert (view l' !! id = Some slot) as Hx by (rewrite Hv; apply lookup_insert_eq).
      apply view_lookup in Hx as (i & Hx & <-); [|done]. destruct (lo_live_slot l' Hok' i slot Hx). lia.
    + unfold bus_events. by rewrite lookup_fmap, Hnone.
    + unfold bus_events. rewrite Hv, fmap_insert. f_equal. rewrite Hslot. unfold bus_event. cbn [sl_at sl_builtin mbind option_bind].
      by rewrite as_can_event_law.
  - split; [unfold bus_events; by rewrite Hv|]. intros [Hr Hn]. destruct (Hsucc Hr Hn) as (? & ? & ?). done.
Qed.

Lemma cancelId_room id (l : Loop) : has_room l -> has_room (cancelId id l).2.
Proof.
  intros (H1 & H2 & H3). unfold cancelId. destruct (id =? 0); [done|]. destruct (lp_live_events l !! id) as [ref|]; [|done].
  destruct (match lp_slots l !! _ with None => _ | Some _ => _ end); [done|]. split; [done|]. split; [done|]. cbn.
  by rewrite length_insert.
Qed.

#[local] Opaque schedule_with cancelId.
#[export] Program Instance loop_clock_laws : EventClockLaws Loop := {|
  ck_ok := loop_ok;
  ck_pending := bus_events;
  ck_room := has_room;
|}.
Next Obligation. intros l o Hok. by apply timeFor_range. Qed.
Next Obligation.
  intros l o Hok. pose proof (timeFor_shared o l Hok). pose proof (lo_shared_now l Hok).
  change (timeFor shared_event_owner l <= timeFor o l).
  assert (timeFor shared_event_owner l = lp_shared_now l) as ->; [|done].
  unfold timeFor. rewrite Z.eqb_refl, (lo_offset l Hok), Z.add_0_r. apply u64_small. unfold max_u64 in *. lia.
Qed.
Next Obligation.
  intros l o Hok. destruct (clocks_ok l (setCurrentOwner o l) Hok) as [Hok' Hv]; [by constructor|by constructor|].
  by split_and!.
Qed.
Next Obligation. intros l t e Hok Ht. exact (bus_events_schedule t e l Hok Ht). Qed.
Next Obligation.
  intros l id Hok. cbn. pose proof (cancelId_spec l id Hok) as Hc. pose proof (cancelId_room id l) as Hroom.
  destruct (cancelId id l) as [b l']. destruct Hc as (Hok' & Hk & Ho & _ & Hv). split_and!; try done.
  - intros o. by apply timeFor_clocks.
  - unfold bus_events. by rewrite Hv, fmap_delete.
Qed.
End clock.
