(* ===== verification/SimTheorems.v ===== *)
(** * Properties of the event loop

    The loop as a map of pending events: what scheduling, cancelling and clearing do to it, that
    every run stops and leaves nothing due, and that the next times are the exact minima. *)

From stdpp Require Import gmap sorting.
From S2P Require Import Prelude Common EventLoop EventLoopProofs EventLoopDispatch.
#[local] Open Scope Z_scope.
#[local] Open Scope fil_scope.

Section sim.
Context {C G B W : Type} `{Callbacks C G B W}.
Abbreviation Loop := (Loop C G B).
Abbreviation Slot := (Slot C G).

(** The least time of the pending events that satisfy [P]. *)
Definition least_time (P : Slot -> Prop) (l : Loop) (t : option Z) : Prop :=
  match t with
  | None => ∀ id x, view l !! id = Some x -> ~ P x
  | Some t => (∃ id x, view l !! id = Some x /\ P x /\ sl_at x = t)
      /\ ∀ id x, view l !! id = Some x -> P x -> t <= sl_at x
  end.

Lemma front_least P (l : Loop) q : loop_ok l -> queue_ok P l q -> discardDeadFront (lp_slots l) q = q ->
  least_time P l (en_at <$> head q).
Proof.
  intros Hok Hq Hd. pose proof (queue_front P l q Hq) as Hf. rewrite Hd in Hf. destruct q as [|e q]; cbn.
  - intros id x Hx HP. apply view_lookup in Hx as (i & Hx & _); [|done]. by apply (Hf i x).
  - destruct Hf as (slot & Hl & He & HP & Hfirst). split.
    + exists (sl_id slot), slot. split; [apply view_lookup; [done|]; by eexists|]. split; [done|]. by rewrite He.
    + intros id x Hx HPx. apply view_lookup in Hx as (i & Hx & _); [|done].
      destruct (Hfirst i x Hx HPx) as [->|[Hb|Hb]]; [by rewrite He|cbn in Hb; lia|cbn in Hb; lia].
Qed.

Lemma least_or P Q (l : Loop) a b : least_time P l a -> least_time Q l b ->
  least_time (fun x => P x \/ Q x) l
    (match b with
     | Some e => match a with Some t => if e <? t then Some e else a | None => Some e end
     | None => a
     end).
Proof.
  intros Ha Hb. destruct a as [t|], b as [e|]; cbn in *.
  - destruct Ha as [(i & x & Hx & HP & Hat) Ha], Hb as [(j & y & Hy & HQ & Het) Hb].
    destruct (Z.ltb_spec e t); cbn; (split; [|intros k z Hz [H1|H1]; [pose proof (Ha k z Hz H1)|pose proof (Hb k z Hz H1)]; lia]).
    + exists j, y. auto.
    + exists i, x. auto.
  - destruct Ha as [(i & x & Hx & HP & Hat) Ha]. split; [exists i, x; auto|]. intros k z Hz [H1|H1]; [by apply (Ha k)|by destruct (Hb k z Hz)].
  - destruct Hb as [(j & y & Hy & HQ & Het) Hb]. split; [exists j, y; auto|]. intros k z Hz [H1|H1]; [by destruct (Ha k z Hz)|by apply (Hb k)].
  - intros k z Hz [H1|H1]; [by apply (Ha k z)|by apply (Hb k z)].
Qed.

Lemma ownerQueue_ok owner (l : Loop) : loop_ok l -> let '(q, l') := ownerQueue owner l in
  loop_ok l' /\ view l' = view l /\ queue_ok (fun x => sl_owner x = owner) l' q
  /\ discardDeadFront (lp_slots l') q = q.
Proof.
  intros Hok. pose proof (lo_owner_events l Hok owner) as Hq. unfold ownerQueue, schedulingQueue in *.
  destruct (lp_owner_events l !! owner) as [q|]; cbn [default from_option id] in Hq; [|done].
  apply discard_ok in Hq. split; [by apply owner_events_ok|]. split; [done|]. split; [|apply discard_idem].
  destruct Hq; by constructor.
Qed.

Lemma observed_front_ok (l : Loop) : loop_ok l -> let l' := discardDeadObservedFront l in
  loop_ok l' /\ view l' = view l /\ discardDeadFront (lp_slots l') (lp_globally_observed l') = lp_globally_observed l'.
Proof.
  intros Hok l'. split; [|split; [done|apply discard_idem]].
  pose proof (discard_ok _ l _ (lo_observed l Hok)) as Hq.
  constructor; try exact (lo_live l Hok); try exact (lo_live_slot l Hok); try apply Hok.
  - destruct (lo_events l Hok); by constructor.
  - destruct Hq; by constructor.
  - intros owner. destruct (lo_owner_events l Hok owner); by constructor.
Qed.

(** C6: the loop implements a finite map from event identifiers to events. Scheduling adds
    exactly the event it returns the identifier of, under a fresh identifier and not before
    the clock of its owner, and an exception leaves the map as it was; cancelling removes
    exactly the event named, and returns whether it was pending; clearing empties the map;
    [pending] is its size; and every one of them keeps the slots, queues and live map
    consistent. *)
Theorem event_map_refinement builtin at_time callback guard id (l : Loop) :
  loop_ok l -> at_time <= max_u64 ->
  (let '(r, l') := schedule_with builtin at_time callback guard l in
   scheduled builtin at_time callback guard l r l')
  /\ (let '(cancelled, l') := cancelId id l in
      loop_ok l' /\ cancelled = bool_decide (is_Some (view l !! id)) /\ view l' = delete id (view l))
  /\ loop_ok (clear l) /\ view (clear l) = ∅ /\ pending l = size (view l).
Proof.
  intros Hok Hat. split; [by apply schedule_spec|]. split; [|destruct (clear_ok l Hok); split_and!; try done; by apply pending_view].
  pose proof (cancelId_spec l id Hok) as Hc. destruct (cancelId id l) as [b l']. by destruct Hc as (? & _ & _ & ? & ?).
Qed.

(** the times the loop announces are exact: [nextScheduledTime] is the least time of any
    pending event, of one owner's events when an owner is given, and [nextObservationTime] the
    least time of the events that are the owner's own or globally observed; none is announced
    exactly when there is no such event. *)
Theorem next_times_exact owner (l : Loop) : loop_ok l ->
  least_time (fun _ => True) l (nextScheduledTime l).1
  /\ least_time (fun x => sl_owner x = owner) l (nextScheduledTimeOf owner l).1
  /\ least_time (fun x => sl_owner x = owner \/ sl_globally_observed x = true) l (nextObservationTime owner l).1.
Proof.
  intros Hok. split_and!.
  - pose proof (discard_ok _ l _ (lo_events l Hok)) as Hq. unfold nextScheduledTime. cbn [fst].
    apply front_least; [done|exact Hq|apply discard_idem].
  - pose proof (ownerQueue_ok owner l Hok) as Ho. unfold nextScheduledTimeOf. destruct (ownerQueue owner l) as [q l'].
    destruct Ho as (Hok' & Hv & Hq & Hd). pose proof (front_least _ l' q Hok' Hq Hd) as Hf. unfold least_time in *. by rewrite Hv in Hf.
  - pose proof (ownerQueue_ok owner l Hok) as Ho. unfold nextObservationTime. destruct (ownerQueue owner l) as [q l1].
    destruct Ho as (Hok1 & Hv1 & Hq1 & Hd1). destruct (observed_front_ok l1 Hok1) as (Hok2 & Hv2 & Hd2).
    pose proof (front_least _ _ _ Hok1 Hq1 Hd1) as Hf1. pose proof (front_least _ _ _ Hok2 (lo_observed _ Hok2) Hd2) as Hf2.
    unfold least_time in Hf1, Hf2. rewrite Hv2, Hv1 in Hf2. rewrite Hv1 in Hf1.
    pose proof (least_or _ _ l _ _ Hf1 Hf2) as Hl. cbn [fst].
    destruct (lp_globally_observed (discardDeadObservedFront l1)); exact Hl.
Qed.

Hypothesis Hprogs : ∀ c w, prog_ok (behave c w).

(** C4: a global run always stops. Whatever the callbacks schedule or cancel, a run to a
    deadline returns after at most [(deadline + 1) * maximum_same_time_events] dispatches: with
    that much fuel the result exists. When it is not an exception, either no pending event is
    due any more, or the limit of events at one timestamp was hit and an event is pending at
    the time the run stopped at, none before it. *)
Theorem global_run_terminates fuel deadline w (l : Loop) : loop_ok l ->
  lp_owner_dispatch_active l = false -> lp_shared_now l <= deadline <= max_u64 ->
  0 <= lp_maximum_same_time_events l ->
  (deadline + 1) * lp_maximum_same_time_events l < Z.of_nat fuel ->
  ∃ res, runDueEvents fuel deadline w l = Some res /\ run_spec (fun _ => True) deadline res.
Proof.
  intros Hok Hact Hd Hm Hfuel. pose proof (lo_shared_now l Hok). unfold runDueEvents, runDueEventsLocked.
  rewrite Hact. cbn [lp_shared_now set_dispatch_depth]. destruct (Z.ltb_spec deadline (lp_shared_now l)); [lia|].
  set (l0 := set_dispatch_depth _ l). destruct (clocks_ok l l0 Hok) as [Hok0 Hv0]; [by constructor|by constructor|].
  edestruct (dispatch_spec Hprogs _ _ global_selects fuel deadline 0 0 0 (run_result (lp_shared_now l)) w l0 Hok0)
    as (res & Hres & Hspec); try done; try lia; try (by left).
  - intros id x Hx _. apply view_lookup in Hx as (i & Hx & _); [|done]. destruct (lo_live_slot _ Hok0 i x Hx). lia.
  - cbn. lia.
  - rewrite Hres. cbn [mbind option_bind]. destruct res as [[r w'] l1]. eexists. split; [done|].
    destruct Hspec as [Hok1 Hr]. destruct (clocks_ok l1 (set_dispatch_depth (lp_global_dispatch_depth l) l1) Hok1) as [Hok2 Hv2];
      [by constructor|by constructor|]. split; [done|]. by rewrite Hv2.
Qed.

(** C5: a run of one owner's events is complete: it stops, and unless a callback threw or the
    limit of events at one timestamp was hit, it reaches its deadline and leaves no pending
    event of that owner at or before it, including those scheduled during the run. *)
Theorem owner_run_complete fuel owner deadline w (l : Loop) : loop_ok l ->
  lp_owner_dispatch_active l = false -> timeFor owner l <= deadline <= max_u64 ->
  0 <= lp_maximum_same_time_events l ->
  (deadline + 1) * lp_maximum_same_time_events l < Z.of_nat fuel ->
  ∃ res, runOwnedEvents fuel owner deadline w l = Some res /\ run_spec (fun x => sl_owner x = owner) deadline res.
Proof.
  intros Hok Hact Hd Hm Hfuel. pose proof (lo_shared_now l Hok). pose proof (timeFor_shared owner l Hok).
  unfold runOwnedEvents. rewrite Hact, (lo_serial l Hok). cbn [andb].
  set (l0 := set_owner_dispatch true l). change (timeFor owner l0) with (timeFor owner l).
  destruct (Z.ltb_spec deadline (timeFor owner l)); [lia|].
  destruct (clocks_ok l l0 Hok) as [Hok0 Hv0]; [by constructor|by constructor|].
  edestruct (dispatch_spec Hprogs _ _ (owner_selects owner) fuel deadline 0 0 0 (run_result (timeFor owner l)) w l0 Hok0)
    as (res & Hres & Hspec); try done; try lia; try (by left).
  - intros id x Hx _. apply view_lookup in Hx as (i & Hx & _); [|done]. destruct (lo_live_slot _ Hok0 i x Hx). lia.
  - cbn. lia.
  - rewrite Hres. cbn [mbind option_bind]. destruct res as [[r w'] l1]. eexists. split; [done|].
    destruct Hspec as [Hok1 Hr]. destruct (clocks_ok l1 (set_owner_dispatch false l1) Hok1) as [Hok2 Hv2];
      [by constructor|by constructor|]. split; [done|]. by rewrite Hv2.
Qed.
End sim.

(** ** Witnesses *)

(** A periodic event every ten nanoseconds, and one that cancels an event. *)
Module Clockwork.
Inductive event := tick | stop (id : Z).

Definition behave (e : event) (trace : list Z) : Prog event unit (list Z) :=
  match e with
  | tick => Now (fun t => ScheduleAfter false 10 (Some tick) (fun _ => Return (trace ++ [t])))
  | stop id => Cancel id (fun cancelled => Return (trace ++ [if cancelled then - id else 0]))
  end.
#[export] Instance clockwork : Callbacks event unit unit (list Z) :=
  {| EventLoop.behave := behave; guard_holds _ _ := true; observe _ _ _ _ w := w |}.

Lemma programs_ok (c : event) (w : list Z) : prog_ok (EventLoop.behave c w).
Proof. by destruct c. Qed.

(** A tick at 5 for owner 2, and at 22 the cancellation of event 4, the tick then pending. *)
Definition start : Loop event unit unit :=
  let l := setCurrentOwner 2 (loop_default 4) in
  let l := (schedule_with false 5 (Some tick) None l).2 in
  (schedule_with true 22 (Some (stop 4)) (Some tt) l).2.

Lemma start_ok : loop_ok start.
Proof.
  pose proof (loop_default_ok (C:=event) (G:=unit) (B:=unit) 4) as H0.
  destruct (clocks_ok _ (setCurrentOwner 2 (loop_default 4)) H0) as [H1 _]; [by constructor|by constructor|].
  pose proof (grown_schedule (B:=unit) false 5 (Some tick) None _ H1 ltac:(done)) as [H2 _ _].
  pose proof (grown_schedule (B:=unit) true 22 (Some (stop 4)) (Some tt) _ H2 ltac:(done)) as [H3 _ _]. exact H3.
Qed.
End Clockwork.
Import Clockwork.

Lemma event_map_refinement_witness : loop_ok start /\ pending start = 2%nat /\ (cancelId 2 start).1 = true
  /\ view (cancelId 2 start).2 = delete 2 (view start).
Proof.
  pose proof (event_map_refinement false 30 (Some tick) None 2 start start_ok ltac:(done)) as (_ & Hc & _).
  split; [exact start_ok|]. split; [reflexivity|]. split; [reflexivity|].
  destruct (cancelId 2 start) as [b l']. exact (proj2 (proj2 Hc)).
Defined.

Lemma next_times_exact_witness : (nextScheduledTime start).1 = Some 5 /\ (nextObservationTime 3 start).1 = Some 5
  /\ least_time (fun x => sl_owner x = 3 \/ sl_globally_observed x = true) start (nextObservationTime 3 start).1.
Proof. split; [reflexivity|]. split; [reflexivity|]. exact (proj2 (proj2 (next_times_exact 3 start start_ok))). Defined.

Lemma global_run_terminates_witness :
  ∃ res, runDueEvents 128 30 [] start = Some res /\ run_spec (fun _ => True) 30 res /\ snd (fst res) = [5; 15; -4].
Proof.
  destruct (global_run_terminates programs_ok 128 30 [] start start_ok eq_refl) as (res & Hr & Hs).
  - vm_compute. split; discriminate.
  - vm_compute. discriminate.
  - vm_compute. reflexivity.
  - exists res. split; [exact Hr|]. split; [exact Hs|]. vm_compute in Hr. injection Hr as <-. reflexivity.
Defined.

Lemma owner_run_complete_witness :
  ∃ res, runOwnedEvents 128 2 21 [] start = Some res /\ run_spec (fun x => sl_owner x = 2) 21 res
         /\ snd (fst res) = [5; 15].
Proof.
  destruct (owner_run_complete programs_ok 128 2 21 [] start start_ok eq_refl) as (res & Hr & Hs).
  - vm_compute. split; discriminate.
  - vm_compute. discriminate.
  - vm_compute. reflexivity.
  - exists res. split; [exact Hr|]. split; [exact Hs|]. vm_compute in Hr. injection Hr as <-. reflexivity.
Defined.
