(* ===== verification/CanTheorems.v ===== *)
(** * Properties of the CAN bus

    The theorems on frames, on the invariant of the bus against any event loop and any code it
    calls back, on arbitration, admission and wire time, with their witnesses on a bus driven by
    the event loop of [EventLoop.v]. *)

From stdpp Require Import gmap.
From S2P Require Import Prelude Common CanFrame CanBus CanBusProofs.
From S2P Require Import EventLoop EventLoopProofs EventLoopDispatch CanClock.
#[local] Open Scope Z_scope.
#[local] Open Scope fil_scope.

(** C37: [classicCanStuffedFrameBits], where it accepts a frame, counts exactly the bits a
    transmitter sends. The bits from the start of frame through the CRC, stuffed after every five equal bits, are as many as
    counted (plus the ten fixed bits that follow); no run of six remains; a receiver that drops
    the stuff bits recovers the frame; and the CRC register is zero at the end. The count lies
    between 44 and 157. *)
Theorem stuffed_bits_exact frame n : 0 <= cf_dlc frame -> classicCanStuffedFrameBits frame = inl n ->
  let bits := frame_bits frame in
  let wire := on_wire bits in
  n = Z.of_nat (length wire) + 10 /\ 44 <= n <= 157
  /\ (∃ first rest, bits = first :: rest /\ unstuff first 1 (tail wire) = Some rest /\ short_runs first 1 (tail wire))
  /\ crc_bits bits = 0.
Proof.
  intros Hd E bits wire. pose proof (classic_bits_bounds frame n Hd E) as Hb. unfold classicCanStuffedFrameBits in E.
  destruct (validate frame); [|done]. destruct (cf_fd frame); [done|]. injection E as <-.
  split_and!; try lia; [unfold wire, bits; rewrite stuffed_count_wire; lia| |apply crc_remainder].
  unfold wire. destruct bits as [|first rest] eqn:Eb.
  - pose proof (length_frame_bits frame) as Hl. fold bits in Hl. rewrite Eb in Hl. cbn in Hl. destruct (cf_extended frame); lia.
  - exists first, rest. cbn [on_wire tail]. split; [done|]. split; [apply unstuff_stuff|]. apply stuff_short_runs. lia.
Qed.

Section bus.
Context {CB L W : Type} `{LW : EventClockLaws L} `{U : CanUser CB L W} `{UL : !CanUserLaws}.
Abbreviation State := (CanState CB L W).

(** The calls a board or the coordinator makes. *)
Inductive CanCall :=
  | call_send (sender : Z) (frame : CanFrame) (time_ns : Z) (completion : option CB)
  | call_inject (frame : CanFrame) (time_ns : Z) (completion : option CB)
  | call_cancelSender (sender : Z)
  | call_attach (node : string) (loopback : bool) (callback : option CB)
  | call_detach (id : Z)
  | call_replay (r : Replay (CB:=CB)).
Definition run_call (c : CanCall) : Op CB L W unit :=
  match c with
  | call_send sender frame t completion => send sender frame t completion;; skip
  | call_inject frame t completion => inject frame t completion;; skip
  | call_cancelSender sender => cancelSender sender
  | call_attach node loopback callback => attach node loopback callback;; skip
  | call_detach id => detach id
  | call_replay r => replay r;; skip
  end.
Definition call_ok (c : CanCall) : Prop :=
  match c with
  | call_send _ frame t _ | call_inject frame t _ => frame_range frame /\ 0 <= t <= max_u64
  | call_replay r => replay_ok r
  | _ => True
  end.

(** C7: the courier of a timed bus is consistent and never sleeps on work. Whatever sequence
    of calls and events: at most one event of the bus is armed, it is the one the bus
    remembers, it is the arbitration or the end of frame its state says, the queue holds valid
    classic frames within its capacity, and the carried fraction is below the bit rate; and
    after every call or event that returns, a bus with waiting frames has its event armed. *)
Theorem can_bus_invariant (s s' : State) : bus_ok s ->
  (∀ c, awake s -> call_ok c -> run_call c s = (inl tt, s') -> bus_ok s' /\ awake s')
  /\ (∀ s1, cb_timed_state (st_bus s) = TimedState.arbitrating -> dispatched s s1 ->
      arbitrationEvent s1 = (inl tt, s') -> bus_ok s' /\ awake s')
  /\ (∀ s1, cb_timed_state (st_bus s) = TimedState.in_flight -> dispatched s s1 ->
      completionEvent s1 = (inl tt, s') -> bus_ok s' /\ awake s').
Proof.
  intros Hs. split_and!.
  - intros c Ha Hc E. assert (keeps (run_call c)) as Hk.
    { destruct c as [sender frame t completion|frame t completion| | | |r]; cbn [run_call call_ok] in *;
        [destruct Hc as [Hf Ht]|destruct Hc as [Hf Ht]| | | |].
      - apply bus_keeps_bind; [by apply send_keeps|]. intros _. apply keeps_skip.
      - apply bus_keeps_bind; [by apply inject_keeps|]. intros _. apply keeps_skip.
      - apply cancelSender_keeps.
      - apply bus_keeps_bind; [apply attach_keeps|]. intros _. apply keeps_skip.
      - apply detach_keeps.
      - apply bus_keeps_bind; [by apply replay_keeps|]. intros _. apply keeps_skip. }
    destruct (Hk s tt s' Hs E). auto.
  - intros s1. by apply arbitrationEvent_wakes.
  - intros s1. by apply completionEvent_wakes.
Qed.

(** C8: arbitration always finds a winner, and the right one. When the armed arbitration event
    of a bus is dispatched at its time, a frame starts: the first waiting frame of its sender,
    requested by then, that no other such frame outranks by identifier (eleven bits, then
    standard before extended, then the low bits) or, between frames with the same key, by
    admission order. *)
Theorem arbitration_exact (s s1 : State) t : bus_ok s -> cb_timed_state (st_bus s) = TimedState.arbitrating ->
  dispatched s s1 -> ck_pending (st_loop s) !! cb_timed_event_id (st_bus s) = Some (t, Some arbitrationEvent_cb) ->
  t <= ck_now (st_loop s1) -> cb_mode (st_bus s) = DeliveryMode.timed ->
  let pending := cb_pending (st_bus s) in
  let start := ck_now (st_loop s1) in
  ∃ w tx s2, arbitrationEvent s1 = start_frame start w tx s2 /\ cb_pending (st_bus s2) = pending
    /\ eligible pending start w tx
    /\ ∀ i tx', eligible pending start i tx' -> outranks (tx_frame tx') (tx_frame tx) = false
         /\ (arbitrationKey (tx_frame tx') = arbitrationKey (tx_frame tx) -> tx_sequence tx <= tx_sequence tx').
Proof.
  intros Hs Hst [Hb Hok Hp] Hev Hnow Hmode pending start.
  pose proof (bi_courier _ _ Hs) as Hc. unfold courier_ok in Hc. rewrite Hst in Hc. destruct Hc as (Hfl & Hne & t' & Hev' & Hn & He).
  rewrite Hev in Hev'. injection Hev' as <-. pose proof (bi_attached _ _ Hs ltac:(congruence)) as Hl.
  destruct (winner_exists pending start Hne) as (w & tx & Ew).
  { eapply Forall_impl; [exact (bi_pending _ _ Hs)|]. intros x Hx. apply (to_requested x Hx). }
  { unfold start, pending. lia. }
  pose proof (pick_winner_spec pending start) as Hw. rewrite Ew in Hw. destruct Hw as [Hw Hbest].
  exists w, tx, {| s1 with st_bus := rested (st_bus s) |}. split_and!; try done.
  - unfold arbitrationEvent, set_bus, modify, mbind, Op_bind. rewrite Hb.
    set (s2 := mkCanState _ _ _ _). pose proof (arbitrate_starts s2 w tx eq_refl Hmode Hl) as Hstart. cbn [st_bus st_loop s2 cb_next_start_ns cb_pending] in Hstart.
    rewrite Z.max_r in Hstart by (fold start; lia). fold start in Hstart. rewrite (Hstart Ew). unfold s2, rested. by rewrite Hfl.
  - intros i tx' Hel. assert (beats tx' tx = false) as Hbt.
    { apply (Hbest i); [|done]. destruct Hel as [Hel _]. by eapply lookup_lt_Some. }
    assert (∀ j x, pending !! j = Some x -> id_ok (tx_frame x)) as Hid.
    { intros j x Hx. pose proof (Forall_lookup_1 _ _ _ _ (bi_pending _ _ Hs) Hx) as Hx'.
      pose proof (to_valid x Hx') as Hv. apply validate_spec in Hv as (_ & Hv & _). split; [apply (to_id x Hx')|done]. }
    unfold beats in Hbt. apply orb_false_iff in Hbt as [Hlex Hseq]. destruct Hw as [Hw _], Hel as [Hel _].
    rewrite arbitrationKey_outranks in Hlex by (by eapply Hid). split; [done|]. intros Ek. rewrite bool_decide_eq_true_2 in Hseq by done.
    cbn [andb] in Hseq. apply Z.ltb_ge in Hseq. lia.
Qed.

(** What a timed bus needs to take one more frame: its invariant, an attached event loop that
    can still schedule, a nonzero bitrate and a free place in its queue. *)
Record takes_a_frame (s : State) : Prop := {
  tf_ok : bus_ok s;
  tf_loop_room : ck_room (st_loop s);
  tf_timed : cb_mode (st_bus s) = DeliveryMode.timed;
  tf_loop : cb_has_event_loop (st_bus s) = true;
  tf_bitrate : cb_bitrate (st_bus s) <> 0;
  tf_queue_room : queuedTransmissions (st_bus s) < cb_queue_capacity (st_bus s) }.

(** The frame is last in the queue with the next admission number, and an event is armed. *)
Definition queued_last (tx : Transmission CB) (s s' : State) : Prop :=
  bus_ok s' /\ awake s' /\ cb_pending (st_bus s') =
    cb_pending (st_bus s) ++ [{| tx with tx_sequence := cb_next_transmission_sequence (st_bus s) |}].

Lemma submit_queues tx (s : State) : takes_a_frame s -> tx_ok tx -> cf_fd (tx_frame tx) = false ->
  ∃ s', submit tx s = (inl (inl tt), s') /\ queued_last tx s s'.
Proof.
  intros [Hs Hroom Hm Hl Hbr Hcap] Htx Hfd. destruct (admitted_ok tx s Hs Htx Hcap) as [Hs1 Hr].
  assert (cb_pending (st_bus (admitted tx s)) =
    cb_pending (st_bus s) ++ [{| tx with tx_sequence := cb_next_transmission_sequence (st_bus s) |}]) as Hp1
    by (unfold admitted; case_bool_decide; done).
  destruct (scheduleArbitration_returns _ Hs1 (Hr Hroom)) as (s' & E & Hp & _).
  exists s'. destruct (scheduleArbitration_wakes _ tt s' Hs1 E) as [Hs' Ha]. split; [|split_and!; [done..|congruence]].
  rewrite (submit_admits tx s) by done. unfold mbind, Op_bind. by rewrite E.
Qed.

(** C29: a valid classic frame sent by an attached node reaches the queue. Outside a deferred
    staging scope, on a timed bus with an event loop that can still schedule, a nonzero bitrate
    and room in its queue, the call returns success, the frame is at the end of the queue with
    the next admission number, and an event is armed for it. Inside a deferred staging scope the
    call returns success, changes nothing but the scope's outbox and appends one command to it
    with the board and the next sequence number of the scope; replaying that command later, on a
    timed bus of the same kind to which the sender is still attached, queues the frame in the
    same way, with the name the sender had and the time of the original request. *)
Theorem send_is_queued (s : State) sender node frame t completion :
  find sender (st_bus s) = Some node -> validate frame = inl tt -> cf_fd frame = false -> frame_range frame -> 0 <= t <= max_u64 ->
  let tx := mkTransmission frame (Some sender) (nd_name node) t 0 completion in
  match st_scope s with
  | None => takes_a_frame s -> ∃ s', send sender frame t completion s = (inl (inl tt), s') /\ queued_last tx s s'
  | Some scope =>
      ∃ command,
        send sender frame t completion s = (inl (inl tt), {| s with st_scope := Some {| scope with
          cs_outbox := cs_outbox scope ++ [mkDeferredCanCommand t (cs_board scope) (cs_sequence scope) command];
          cs_sequence := u64 (cs_sequence scope + 1) |} |})
        /\ ∀ later, takes_a_frame later -> is_Some (find sender (st_bus later)) ->
             ∃ s', replay command later = (inl (inl tt), s') /\ queued_last tx later s'
  end.
Proof.
  intros Hf Hv Hfd Hfr Ht tx. assert (tx_ok tx) as Htx by (destruct Hfr; by constructor).
  destruct (st_scope s) as [scope|] eqn:Hsc.
  - exists (replay_send sender frame t (nd_name node) completion). split.
    + unfold send. rewrite Hv. unfold the, gets, mbind at 1 2, Op_bind at 1 2. by rewrite Hf, Hsc.
    + intros later Hready [node' Hf']. destruct (submit_queues tx later Hready Htx Hfd) as (s' & E & Hq).
      exists s'. split; [|done]. cbn [replay]. unfold the, gets, mbind at 1, Op_bind at 1. rewrite Hf'.
      fold tx. unfold replay_submit, mbind, Op_bind. by rewrite E.
  - intros Hready. destruct (submit_queues tx s Hready Htx Hfd) as (s' & E & Hq). exists s'. split; [|done].
    unfold send. rewrite Hv. unfold the, gets, mbind at 1 2, Op_bind at 1 2. by rewrite Hf, Hsc.
Qed.
End bus.

(** ** Wire time *)

(** The time and the carried fraction after frames of the given lengths, back to back. *)
Fixpoint frames_time (lengths : list Z) (fraction bitrate : Z) : Z * Z :=
  match lengths with
  | [] => (0, fraction)
  | bits :: rest =>
      let wt := wire_time bits fraction bitrate in
      let '(time, fraction) := frames_time rest (wt_fraction wt) bitrate in
      (wt_frame_duration wt + wt_intermission wt + time, fraction)
  end.

(** timed delivery does not drift. Any number of frames sent back to back, each with its
    three bits of intermission, occupies the exact time of its bits at the configured rate,
    rounded down once to nanoseconds for the whole sequence and not once per frame; the carried
    fraction is exactly the remainder. *)
Theorem wire_time_no_drift lengths fraction bitrate : Forall (fun bits => 0 <= bits <= 157) lengths ->
  0 < bitrate <= max_u32 -> 0 <= fraction < bitrate ->
  let total := fraction + foldr (fun bits sum => (bits + 3) * 1000000000 + sum) 0 lengths in
  frames_time lengths fraction bitrate = (total / bitrate, total mod bitrate).
Proof.
  intros Hl Hb Hf total. unfold total. clear total. revert fraction Hf.
  induction Hl as [|bits lengths Hbits _ IH]; intros fraction Hf; cbn [frames_time foldr].
  - rewrite Z.add_0_r, Z.div_small, Z.mod_small by lia. done.
  - destruct (wire_time_exact bits fraction bitrate) as (_ & _ & Hw & He); try lia. set (wt := wire_time bits fraction bitrate) in *.
    rewrite IH by lia. set (sum := foldr _ 0 lengths).
    replace (fraction + ((bits + 3) * 1000000000 + sum))
      with (wt_fraction wt + sum + (wt_frame_duration wt + wt_intermission wt) * bitrate) by lia.
    rewrite Z.div_add, Z.mod_add by lia. f_equal. lia.
Qed.

Lemma wire_time_no_drift_witness : frames_time [131; 131; 131] 0 500001 = (803998, 196002).
Proof.
  rewrite (wire_time_no_drift [131; 131; 131] 0 500001); [reflexivity|repeat (constructor; [lia|]); constructor|unfold max_u32; lia|lia].
Defined.

(** ** Witnesses *)

(** A bus at 500 kbit/s with two nodes, on an event loop whose only callbacks are the bus's;
    receivers, completions and the trace append a number to the world. *)
Module Bench.
Definition CB : Type := Z.
#[export] Instance callbacks : CanCallbacks CanEvent := {|
  can_event e := e; as_can_event := Some; as_can_event_law e := eq_refl |}.
Abbreviation L := (Loop CanEvent unit unit).
Definition note (x : Z) : Op CB L (list Z) unit := fun s => (inl tt, {| s with st_world := st_world s ++ [x] |}).
#[export] Instance user : CanUser CB L (list Z) := {|
  user_receive c frame t := note (c + cf_id frame);
  user_complete c t b := note c;
  user_trace c r := note (c + tr_time_ns r);
  user_barrier c t := note c |}.

Lemma note_keeps x : keeps (note x).
Proof. intros s a s' Hs [= _ <-]. done. Qed.
#[export] Instance user_laws : CanUserLaws (CB:=CB) (L:=L) (W:=list Z).
Proof. constructor; intros; apply note_keeps. Qed.

Definition bus : Bus CB :=
  {| (bus_default (CB:=CB) "can0" 500000 DeliveryMode.timed 4) with
     cb_has_event_loop := true;
     cb_next_node_id := 3;
     cb_nodes := [mkNode 1 "ecu" false 1000; mkNode 2 "dash" false 2000] |}.
Definition start : CanState CB L (list Z) := mkCanState bus (loop_default 100) None [].

Lemma bench_start_ok : bus_ok start.
Proof.
  constructor; try done; exact (loop_default_ok 100).
Qed.

Definition speed : CanFrame := mkCanFrame 0x123 false false false 2 [0x12; 0x34].
Definition alarm : CanFrame := mkCanFrame 0x040 false false false 0 [].

(** Both nodes have a frame waiting at time 0. *)
Definition contended : CanState CB L (list Z) := (send 2 alarm 0 None (send 1 speed 0 (Some 7) start).2).2.
Definition waiting : list (Transmission CB) :=
  [mkTransmission speed (Some 1) "ecu" 0 0 (Some 7); mkTransmission alarm (Some 2) "dash" 0 1 None].
Lemma contended_pending : cb_pending (st_bus contended) = waiting.
Proof. vm_compute. reflexivity. Qed.
Lemma contended_ok : bus_ok contended.
Proof.
  assert (∀ sender frame c s, frame_range frame -> bus_ok s -> (∃ r, (send sender frame 0 c s).1 = inl r) ->
    bus_ok (send sender frame 0 c s).2) as Hsend.
  { intros sender frame c s Hf Hs [r E]. destruct (send sender frame 0 c s) as [r' s'] eqn:Es. cbn in E. subst r'.
    destruct (send_keeps sender frame 0 c Hf ltac:(done) s r s' Hs Es). done. }
  apply Hsend; [done| |eexists; vm_compute; reflexivity].
  apply Hsend; [done|exact bench_start_ok|eexists; vm_compute; reflexivity].
Qed.
End Bench.
Import Bench.

Lemma stuffed_bits_exact_witness : classicCanStuffedFrameBits alarm = inl 47
  /\ crc_bits (frame_bits alarm) = 0 /\ length (on_wire (frame_bits alarm)) = 37%nat.
Proof.
  pose proof (stuffed_bits_exact alarm 47 ltac:(done) ltac:(vm_compute; reflexivity)) as (H1 & _ & _ & H2).
  split; [vm_compute; reflexivity|]. split; [exact H2|]. lia.
Defined.

Lemma can_bus_invariant_witness : ∃ s', run_call (call_cancelSender 2) contended = (inl tt, s') /\ bus_ok s' /\ awake s'.
Proof.
  assert ((run_call (call_cancelSender 2) contended).1 = inl tt) as Hr by (vm_compute; reflexivity).
  destruct (run_call (call_cancelSender 2) contended) as [r s'] eqn:E. cbn [fst] in Hr. subst r. exists s'. split; [reflexivity|]. refine (proj1 (can_bus_invariant contended s' contended_ok) (call_cancelSender 2) _ I E).
  intros _ _ _ Hidle. vm_compute in Hidle. discriminate.
Defined.

(** The alarm, sent second, goes first. *)
Lemma arbitration_exact_witness :
  let fired := {| contended with st_loop := (ck_cancel (cb_timed_event_id (st_bus contended)) (st_loop contended)).2 |} in
  ∃ w tx s2, arbitrationEvent fired = start_frame 0 w tx s2 /\ tx_frame tx = alarm
    /\ outranks speed (tx_frame tx) = false.
Proof.
  intros fired.
  pose proof (cancelled_dispatched contended contended_ok) as Hd.
  destruct (arbitration_exact contended fired 0 contended_ok) as (w & tx & s2 & E & Hp & Hel & Hbest); try exact Hd.
  - vm_compute. reflexivity.
  - vm_compute. reflexivity.
  - vm_compute. discriminate.
  - vm_compute. reflexivity.
  - exists w, tx, s2. assert (ck_now (st_loop fired) = 0) as Hn by (vm_compute; reflexivity). rewrite Hn in *.
    split; [exact E|]. assert (tx_frame tx = alarm) as Ht.
    { clear E Hp Hd Hn. rewrite contended_pending in Hel, Hbest. clearbody fired.
      assert (eligible waiting 0 1 (mkTransmission alarm (Some 2) "dash" 0 1 None)) as He
        by (split; [reflexivity|split; [reflexivity|apply Z.le_refl]]).
      destruct (Hbest 1%nat _ He) as [Ho _]. destruct Hel as [Hw _].
      destruct w as [|[|w]]; cbn in Hw; try discriminate; injection Hw as <-; [vm_compute in Ho; discriminate|reflexivity]. }
    split; [exact Ht|]. rewrite Ht. vm_compute. reflexivity.
Defined.

(** The bench at its start, inside a scope of board 7 whose outbox is empty. *)
Definition staging : CanState CB L (list Z) := {| start with st_scope := Some (mkCanScope [] 7 0 3) |}.

Lemma contended_takes_a_frame : takes_a_frame contended.
Proof.
  constructor; [exact contended_ok|..]; vm_compute; [repeat split|reflexivity|reflexivity|discriminate|reflexivity].
Qed.

(** Sent at once, and staged on one board then replayed: the queue is the same. *)
Lemma send_is_queued_witness :
  (∃ s', send 1 alarm 5 None contended = (inl (inl tt), s') /\ awake s' /\ length (cb_pending (st_bus s')) = 3%nat)
  /\ ∃ staged command, send 1 alarm 5 None staging = (inl (inl tt), staged) /\ st_bus staged = bus
     /\ option_map cs_outbox (st_scope staged) = Some [mkDeferredCanCommand 5 7 3 command]
     /\ ∃ s', replay command contended = (inl (inl tt), s') /\ awake s' /\ length (cb_pending (st_bus s')) = 3%nat.
Proof.
  assert (find 1 (st_bus contended) = Some (mkNode 1 "ecu" false 1000)) as Hf by (vm_compute; reflexivity).
  assert (validate alarm = inl tt) as Hv by (vm_compute; reflexivity).
  assert (frame_range alarm) as Hr by (split; vm_compute; discriminate).
  assert (0 <= 5 <= max_u64) as Ht by (split; vm_compute; discriminate).
  split.
  - pose proof (send_is_queued contended 1 _ alarm 5 None Hf Hv eq_refl Hr Ht) as Hsend. cbv zeta in Hsend.
    replace (st_scope contended) with (@None (CanScope CB)) in Hsend by (vm_compute; reflexivity).
    destruct (Hsend contended_takes_a_frame) as (s' & E & _ & Ha & Hp).
    exists s'. split; [exact E|]. split; [exact Ha|]. rewrite Hp, length_app. vm_compute. reflexivity.
  - assert (find 1 (st_bus staging) = Some (mkNode 1 "ecu" false 1000)) as Hf' by (vm_compute; reflexivity).
    pose proof (send_is_queued staging 1 _ alarm 5 None Hf' Hv eq_refl Hr Ht) as Hsend. cbv zeta in Hsend.
    change (st_scope staging) with (Some (mkCanScope (CB:=CB) [] 7 0 3)) in Hsend. destruct Hsend as (command & E & Hreplay).
    eexists _, command. split; [exact E|]. cbn [st_bus st_scope]. split; [reflexivity|]. split; [reflexivity|].
    destruct (Hreplay contended contended_takes_a_frame) as (s' & Er & _ & Ha & Hp); [rewrite Hf; eexists; reflexivity|].
    exists s'. split; [exact Er|]. split; [exact Ha|]. rewrite Hp, length_app. vm_compute. reflexivity.
Defined.
