(* ===== verification/DeviceTheorems.v ===== *)
(** * Theorems about the peripherals and the trace

    What the register blocks, the peripherals of the STM32G4 and the trace recorder promise, each
    with an instance on a concrete device. *)

From Stdlib Require Import Ascii.
From stdpp Require Import pretty sorting.
From S2P Require Import Prelude Address Common CpuState CpuStateProofs MemoryApi Trace.
From S2P Require Import Peripheral PeripheralProofs Crc Gpio Exti GpioExti Flash Rcc Dma DmaProofs.
From S2P Require Import MemoryBus Demo.
#[local] Open Scope Z_scope.
#[local] Open Scope fil_scope.

(** ** The DMA controller *)

(** C9: The direct write of the DMA flag-clear register keeps the contract of [DirectWriteWord]: on every controller
    whose unused interrupt lines are low, it either performs nothing at all (no field of the device changes and no
    callback runs) or it ends in exactly the state, and makes exactly the calls, of the ordinary word write to IFCR,
    and then every interrupt line it touches is released, never asserted. *)
Theorem dma_direct_clear_exact {M} `{CpuMemory M} (v : Z) (c : AccessContext) (env : Env) (s : Dma.DmaBus M) :
  dma_shape s -> unused_levels_low s -> is_u32 v ->
  Dma.directClearFlags v env s = (inl false, s, [])
  \/ ∃ s' calls, Dma.directClearFlags v env s = (inl true, s', calls)
       /\ write Dma.dma_ifcr AccessSize.word v c env s = (inl (inl 0), s', calls)
       /\ Forall (fun e => ∃ k, e = fx_interrupt_level k false) calls.
Proof. apply direct_clear_run. Qed.

(** C10: The channel state machine of the DMA controller agrees with its registers in every reachable state: an armed
    or active channel has EN set, a disabled, completed or failed one has it clear, a completed channel shows TCIF
    and a failed one TEIF, GIF of a channel is the disjunction of its flags, and every interrupt line is high exactly
    when an enabled flag of its channel is set.  The constructor establishes this, register accesses of every width
    at every offset, DMA requests over any memory apart from the controller's own registers, reset and the direct
    flag clear keep it. *)
Theorem dma_channel_invariant {M} `{CpuMemory M} (n : Z) :
  (∀ name count memory loop trace env, Dma.normalizedDmaChannels count = n ->
     dma_inv n true (Dma.dma_new (M := M) name count memory loop trace env))
  /\ ∀ env (s : Dma.DmaBus M), dma_inv n true s ->
     (∀ offset size v c, dma_inv n true (snd (fst (write offset size v c env s))))
     /\ (∀ offset size c, dma_inv n true (snd (fst (read offset size c env s))))
     /\ (∀ channel, 0 <= channel -> dma_inv n true (snd (fst (Dma.request channel env s))))
     /\ dma_inv n true (snd (fst (reset env s)))
     /\ (∀ v, is_u32 v -> dma_inv n true (snd (fst (Dma.directClearFlags v env s)))).
Proof.
  split; [intros name count memory loop trace env <-; apply dma_new_ok|]. intros env s Hs.
  pose proof (inv_count _ _ _ Hs) as Hn. split_and!.
  - intros offset size v c. eapply holds_state; [apply dma_write_ok; lia|done].
  - intros offset size c. eapply holds_state; [apply dma_read_ok; lia|done].
  - intros channel Hc. eapply holds_state; [by apply dma_request_ok|done].
  - destruct (reset_runs n env s) as (a&s'&w&->&H'); [by eapply inv_resettable|exact H'].
  - intros v Hv. destruct Hs as [Hm Hl]. destruct (direct_clear_run v (mkAccessContext AccessType.data_write 0) env s) as [->|(s'&w&->&E&_)];
      [apply Hm| |done|by split|].
    + intros k Hk. rewrite (dj_count _ _ _ Hm) in Hk. by apply (dj_unused _ _ _ Hm).
    + pose proof (holds_state _ _ _ env s (dma_write_ok n Dma.dma_ifcr AccessSize.word v (mkAccessContext AccessType.data_write 0) ltac:(lia))) as Hw.
      rewrite E in Hw. by apply Hw.
Qed.

(** ** Register blocks *)

#[local] Existing Instance plain_hooks.

(** C34: A plain register block is a little-endian bit array with bounds.  An access that does not fit the block faults
    with the device's name and leaves the block unchanged.  A write of one, two, four or eight bytes that fits, at
    any alignment, changes exactly the bits of its bytes, keeps the block well formed and makes no calls; reading the
    same bytes back then gives the value written, reduced to the width of the access. *)
Theorem plain_block_is_bit_array (b : RegBlock) (env : Env) (c : AccessContext) (offset : Z) (size : AccessSize.t) (v : Z) :
  block_ok b -> 0 <= offset ->
  if rangeFits offset (byteCount size) (rb_block_size b) then
    ∃ b', write offset size v c env b = (inl (inl 0), b', []) /\ block_ok b' /\ rb_block_size b' = rb_block_size b
      /\ written b b' offset v 0 (byteCount size)
      /\ read offset size c env b' = (inl (inl (v mod 2 ^ (8 * byteCount size))), b', [])
  else
    write offset size v c env b
      = (inl (inr (accessFault offset size c "peripheral register write is outside the register block" b)), b, [])
    /\ read offset size c env b
      = (inl (inr (accessFault offset size c "peripheral register read is outside the register block" b)), b, []).
Proof.
  intros Hb Ho. destruct (rangeFits offset (byteCount size) (rb_block_size b)) eqn:Hf.
  - destruct (plain_write_bits b env c offset size v Hb Ho Hf) as (b'&Ew&Hb'&Hs&Hw).
    exists b'. split_and!; try done. destruct (plain_read_bits b' env c offset size Hb' Ho) as (r&->&Hr); [by rewrite Hs|].
    do 4 f_equal. assert (0 < byteCount size) by by destruct size. apply Z.bits_inj'. intros j Hj.
    rewrite Hr, Hw by lia. destruct (Z.ltb_spec j (byteCount size * 8)).
    + rewrite Z.mod_pow2_bits_low by lia. rewrite (proj2 (Z.leb_le _ _)), (proj2 (Z.ltb_lt _ _)) by lia. cbn. f_equal. lia.
    + by rewrite Z.mod_pow2_bits_high by lia.
  - unfold write, read. rewrite !get_bind. cbn [block block_self]. by rewrite Hf.
Qed.

(** ** CRC *)

(** C30: The CRC unit computes polynomial division.  Whatever sequence of byte, halfword and word writes feeds the data
    register, the word read back is the remainder of the message (the current value followed by the bytes, most
    significant first, of every written unit) modulo the generator polynomial over GF(2), and the unit makes no
    calls. *)
Theorem crc_is_remainder (accesses : list (AccessSize.t * Z)) (c : AccessContext) (env : Env) (d : Crc.CrcPeripheral) :
  CrcProofs.crc_ok d -> Forall (fun a => CrcProofs.feeds (fst a) = true) accesses ->
  ∃ d', CrcProofs.feed_accesses c accesses env d = (inl tt, d', [])
    /\ read Crc.dr AccessSize.word c env d' = (inl (inl (Crc.crc_crc d')), d', [])
    /\ CrcProofs.remainder_of (Crc.crc_poly d) (Crc.crc_crc d) (CrcProofs.access_bytes accesses) (Crc.crc_crc d').
Proof.
  intros Hd Ha. destruct (CrcProofs.crc_feed accesses c env d Hd Ha) as (d'&E&Hd'&_&Ec). exists d'. split_and!; [done| |].
  - by apply CrcProofs.crc_read.
  - rewrite Ec. apply CrcProofs.feed_bytes; [apply Hd|apply Hd|apply CrcProofs.access_bytes_range].
Qed.

(** ** GPIO and EXTI *)

(** C11: Writing ODR, BSRR or BRR of a port updates exactly the addressed latch bits (BSRR set bits win over reset
    bits), and through the wired edge callbacks latches exactly the EXTI lines whose pin level changed, whose line
    is routed to this port and whose trigger for that direction is selected; pins driven from outside or not in an
    output mode never change level.  The controller stays consistent. *)
Theorem gpio_write_latches_edges (w v port : Z) (c : AccessContext) (env : Env) (syscfg : option RegBlock)
    (d : Gpio.GpioPeripheral) (x : Exti.ExtiPeripheral) :
  GpioProofs.gpio_ok d -> ExtiProofs.exti_ok x -> is_u32 v -> w ∈ [Gpio.odr; Gpio.bsrr; Gpio.brr] ->
  0 <= port <= 6 -> Gpio.gp_edge_callback d = true ->
  ∃ d' calls x' lines, write w AccessSize.word v c env d = (inl (inl 0), d', calls) /\ GpioProofs.gpio_ok d'
    /\ deliver_edges syscfg port calls env x = (inl tt, x', lines) /\ ExtiProofs.exti_ok x'
    /\ ∀ pin, 0 <= pin < 16 ->
       let before := Z.testbit (registerValue Gpio.odr (Gpio.gp_block d)) pin in
       let after := if w =? Gpio.odr then Z.testbit v pin
                    else if w =? Gpio.bsrr then Z.testbit v pin || (before && negb (Z.testbit v (pin + 16)))
                    else before && negb (Z.testbit v pin) in
       let level (latch : Z) := GpioProofs.pin_level (Gpio.gp_external_input_mask d) (Gpio.gp_external_input_value d)
                            (registerValue Gpio.moder (Gpio.gp_block d)) latch pin in
       let old_level := level (registerValue Gpio.odr (Gpio.gp_block d)) in
       let new_level := level (registerValue Gpio.odr (Gpio.gp_block d')) in
       Z.testbit (registerValue Gpio.odr (Gpio.gp_block d')) pin = after
       /\ ExtiProofs.latched x' pin
          = ExtiProofs.latched x pin || (negb (Bool.eqb old_level new_level) && ExtiProofs.triggers syscfg port pin new_level x).
Proof.
  intros Hd Hx Hv Hw Hp He. destruct (GpioProofs.gpio_write_run w v c env d Hd Hv Hw) as (d'&calls&E&Hc).
  destruct (deliver_run syscfg port calls env x Hx Hp) as (x'&lines&El&Hx'&Hl&_).
  { rewrite (GpioProofs.oc_effects _ _ _ _ _ Hc). apply port_edges_range. }
  exists d', calls, x', lines. split_and!; [done|apply Hc|done|done|]. intros pin Hpin. cbv zeta. split.
  - rewrite (GpioProofs.oc_odr _ _ _ _ _ Hc). by apply GpioProofs.gpio_next_bit.
  - rewrite Hl, (GpioProofs.oc_effects _ _ _ _ _ Hc), port_edges by done.
    rewrite !GpioProofs.inputValue_bit, (proj2 (Z.ltb_lt _ _)) by lia. cbn [andb].
    by rewrite (GpioProofs.oc_mask _ _ _ _ _ Hc), (GpioProofs.oc_value _ _ _ _ _ Hc), (GpioProofs.oc_moder _ _ _ _ _ Hc).
Qed.

(** C31: In every reachable state of the EXTI controller the sixteen line states are those that the pending and mask
    registers dictate and the seven interrupt outputs are exactly the disjunction of the pending, unmasked lines of
    their group: the constructor establishes this and register writes of every width and offset (the software
    trigger, clearing by writing ones, masking) and GPIO edges keep it. *)
Theorem exti_lines_consistent :
  (∀ name loop trace env, ExtiProofs.exti_ok (Exti.exti_new name loop trace env))
  /\ ∀ env d, ExtiProofs.exti_ok d ->
     (∀ offset size v c, ExtiProofs.exti_ok (snd (fst (write offset size v c env d))))
     /\ (∀ syscfg port pin high, 0 <= pin < 16 -> 0 <= port <= 6 ->
           ExtiProofs.exti_ok (snd (fst (Exti.notifyGpioEdge syscfg port pin high env d))))
     /\ ∀ i, 0 <= i < 5 -> level i (Exti.ex_block d) = ExtiProofs.latched d i && ExtiProofs.enabled d i.
Proof.
  split; [intros; apply ExtiProofs.exti_new_ok|]. intros env d Hd. split_and!.
  - intros offset size v c. eapply holds_state; [apply ExtiProofs.exti_write_ok|done].
  - intros syscfg port pin high Hp Hport. by destruct (ExtiProofs.notify_run syscfg port pin high env d Hd Hp Hport) as (d'&w&->&H'&_).
  - intros i Hi. destruct Hd as [Hm Hl]. rewrite Hl by lia. unfold ExtiProofs.expected.
    rewrite (proj2 (Z.ltb_lt _ _)) by lia. apply ExtiProofs.linePendingEnabled_spec; [done|lia].
Qed.

(** ** Flash and clocks *)

(** C32: The flash controller cannot be unlocked by accident: from a locked controller, wherever its key sequence
    stands, after any sequence of word writes to its registers in which KEY1 and KEY2 are not written to KEYR one
    directly after the other (a KEY1 that the controller has already seen counts as written just before the sequence;
    writes to other registers may come between), the lock bit is still set, CR is unchanged apart from the option
    lock, and no page erase (indeed no call at all) was issued. *)
Theorem flash_stays_locked `{PageErase} (c : AccessContext) (writes : list (Z * Z)) (env : Env) (control : Z)
    (k : Flash.KeySequence.t) (d : Flash.FlashPeripheral) :
  FlashProofs.locked control k d ->
  Forall (fun a => register_of 0x40 (fst a) /\ is_u32 (snd a)) writes ->
  FlashProofs.keys_in_a_row (FlashProofs.seen_key k ++ FlashProofs.key_writes writes) = false ->
  ∃ d', FlashProofs.write_all c writes env d = (inl tt, d', [])
    /\ has (registerValue Flash.cr (Flash.fl_block d')) Flash.lock = true
    /\ registerValue Flash.cr (Flash.fl_block d') .& not32 Flash.option_lock = control .& not32 Flash.option_lock.
Proof.
  intros Hd Hw Hk. destruct (FlashProofs.key_after k writes) as [k'|] eqn:E.
  - destruct (FlashProofs.flash_writes_locked c writes env control k k' d Hw Hd E) as (d'&Er&Hl). exists d'. split_and!; [done|apply Hl..].
  - apply FlashProofs.key_after_none in E. congruence.
Qed.


(** ** Traces *)

(** Ending a lane capture merges the lanes deterministically: with an observer that only looks, the records
    appended are a permutation of everything the lanes captured, in time order, records of equal time in lane order
    and within a lane in capture order, numbered consecutively from the next sequence number; the buffers are empty
    and the recorder live again. *)
Theorem lane_capture_merge {O} (observe : O -> TraceRecord -> TraceRecorder O -> TraceRecorder O) (t : TraceRecorder O) :
  passive observe -> tr_retain_records t = true -> 0 <= tr_next_sequence t < 2 ^ 64 ->
  let captured := concat (tr_lane_records t) in
  let t' := flushLaneCapture observe t in
  ∃ merged, tr_records t' = tr_records t ++ number (tr_next_sequence t) merged
    /\ tr_next_sequence t' = u64 (tr_next_sequence t + Z.of_nat (length captured))
    /\ merged ≡ₚ captured /\ StronglySorted not_later merged
    /\ ∀ time, filter (fun r => rec_time_ns r = time) merged = filter (fun r => rec_time_ns r = time) captured.
Proof.
  intros Hp Hr Hn. cbv zeta. set (captured := concat (tr_lane_records t)).
  destruct (stable_sort_spec captured) as (Hperm&Hsorted&Hstable). exists (stable_sort captured).
  set (t0 := {| t with tr_capture_mode := CaptureMode.live; tr_lane_records := (fun _ => []) <$> tr_lane_records t |}).
  destruct (append_all observe (stable_sort captured) t0 Hp Hr) as [E1 E2]; [by rewrite u64_small|].
  split_and!; [exact E1| |done|done|done]. rewrite <- Hperm. exact E2.
Qed.

(** C35: The JSON-lines text of a trace determines its records: two recorders that write the same text hold the same
    records, whatever bytes their sources, types and fields contain (quotes, backslashes and line feeds are escaped
    without ambiguity). *)
Theorem trace_text_determines_records {O P} (t : TraceRecorder O) (t' : TraceRecorder P) :
  writeJsonLines t = writeJsonLines t' -> tr_records t = tr_records t'.
Proof.
  unfold writeJsonLines. generalize (tr_records t), (tr_records t'). intros l. induction l as [|r l IH]; intros [|r' l']; cbn [mbind list_bind]; intros E.
  - done.
  - apply (f_equal length) in E. rewrite !length_app in E. cbn in E. lia.
  - apply (f_equal length) in E. rewrite !length_app in E. cbn in E. lia.
  - rewrite <- !app_assoc in E. apply json_line_inj in E as [-> E]. apply (f_equal tail) in E. cbn in E. f_equal. by apply IH.
Qed.

(** ** Instances *)

Module Board.
Definition env : Env := mkEnv 1000 true [] false.
Definition word_write : AccessContext := mkAccessContext AccessType.data_write 0x08000100.
Definition observe (o : unit) (r : TraceRecord) (t : TraceRecorder unit) : TraceRecorder unit := t.
#[global] Instance erase : PageErase := {| erase_succeeds _ _ := true |}.

(** A controller with one-byte memory-to-memory transfers set up on channel 1, and the same after two items. *)
Definition dma : Dma.DmaBus (Bus unit) := Dma.dma_new "DMA1" 7 (Some (demo_bus [1; 2; 3; 4])) true true env.
Definition put {S A} (m : Dev S A) (s : S) : S := snd (fst (m env s)).
Definition dma_done : Dma.DmaBus (Bus unit) :=
  put (write 0x08 AccessSize.word 0x40cb word_write)
    (put (write 0x14 AccessSize.word 0x20000010 word_write)
       (put (write 0x10 AccessSize.word 0x08000000 word_write)
          (put (write 0x0c AccessSize.word 2 word_write)
             (put (setDeviceLocalInterruptLevelCallback true) dma)))).

Example dma_done_state :
  Dma.channel_state 1 (Dma.db_dma dma_done) = Dma.ChannelState.completed
  /\ registerValue Dma.dma_isr (block dma_done) = 3 /\ interruptLevelMask (block dma_done) = 1.
Proof. vm_compute. done. Qed.

Lemma dma_done_ok : dma_inv 7 true dma_done.
Proof.
  unfold dma_done, put. do 4 (eapply holds_state; [apply dma_write_ok; lia|]).
  assert (dma_inv 7 true dma) as [[[[] Hc Hs Hz] Hn Hr Hst Hf Hu Ho] Hl] by apply (dma_new_ok (M := Bus unit) "DMA1" 7).
  split; [|exact Hl]. by constructor.
Qed.

Definition captured : TraceRecorder unit :=
  let r time source := mkTraceRecord time 0 source "event" [("text", "line one")] in
  mkTraceRecorder true true CaptureMode.lane_buffered 5 []
    [[r 10 "a"; r 30 "a"]; [r 10 "b"; r 20 "b"]] [] (Some tt).
End Board.

Lemma dma_direct_clear_exact_witness :
  ∃ s' calls, Dma.directClearFlags 2 Board.env Board.dma_done = (inl true, s', calls)
    /\ write Dma.dma_ifcr AccessSize.word 2 Board.word_write Board.env Board.dma_done = (inl (inl 0), s', calls)
    /\ calls = [fx_interrupt_level 0 false].
Proof.
  assert (fst (fst (Dma.directClearFlags 2 Board.env Board.dma_done)) = inl true
          /\ snd (Dma.directClearFlags 2 Board.env Board.dma_done) = [fx_interrupt_level 0 false]) as [E1 E2] by (vm_compute; done).
  destruct (dma_direct_clear_exact 2 Board.word_write Board.env Board.dma_done) as [E|(s'&calls&E&Ew&_)].
  - apply Board.dma_done_ok.
  - intros k Hk. apply (dj_unused _ _ _ (proj1 Board.dma_done_ok)). exact Hk.
  - width_lia.
  - rewrite E in E1. discriminate E1.
  - exists s', calls. rewrite E in E2. auto.
Defined.

Lemma dma_channel_invariant_witness :
  dma_inv 7 true (snd (fst (Dma.request 1 Board.env Board.dma_done)))
  /\ Dma.channel_state 1 (Dma.db_dma Board.dma_done) = Dma.ChannelState.completed.
Proof.
  split; [|vm_compute; done].
  destruct (proj2 (dma_channel_invariant 7) Board.env Board.dma_done Board.dma_done_ok) as (_&_&Hr&_). exact (Hr 1 Z.le_0_1).
Defined.

Lemma plain_block_is_bit_array_witness :
  ∃ b', write 6 AccessSize.word 0x11223344 Board.word_write Board.env (block_init "plain" 16 true true) = (inl (inl 0), b', [])
    /\ rb_registers b' = [0; 0x33440000; 0x1122; 0].
Proof.
  destruct (plain_block_is_bit_array (block_init "plain" 16 true true) Board.env Board.word_write 6 AccessSize.word 0x11223344)
    as (b'&E&_); [apply block_init_ok; lia|lia|]. exists b'. split; [exact E|].
  assert (rb_registers (snd (fst (write 6 AccessSize.word 0x11223344 Board.word_write Board.env (block_init "plain" 16 true true))))
          = [0; 0x33440000; 0x1122; 0]) as Er by (vm_compute; done). by rewrite E in Er.
Defined.

Lemma crc_is_remainder_witness :
  ∃ d', CrcProofs.feed_accesses Board.word_write [(AccessSize.word, 0x31323334); (AccessSize.halfword, 0x3536); (AccessSize.byte, 0x37);
          (AccessSize.byte, 0x38); (AccessSize.byte, 0x39)] Board.env (Crc.crc_new true true Board.env) = (inl tt, d', [])
    /\ read Crc.dr AccessSize.word Board.word_write Board.env d' = (inl (inl 0x0376e6e7), d', []).
Proof.
  destruct (crc_is_remainder [(AccessSize.word, 0x31323334); (AccessSize.halfword, 0x3536); (AccessSize.byte, 0x37);
    (AccessSize.byte, 0x38); (AccessSize.byte, 0x39)] Board.word_write Board.env (Crc.crc_new true true Board.env))
    as (d'&E&Er&_); [apply CrcProofs.crc_new_ok|repeat constructor|]. exists d'. split; [exact E|]. rewrite Er.
  assert (Crc.crc_crc (snd (fst (CrcProofs.feed_accesses Board.word_write [(AccessSize.word, 0x31323334); (AccessSize.halfword, 0x3536);
    (AccessSize.byte, 0x37); (AccessSize.byte, 0x38); (AccessSize.byte, 0x39)] Board.env (Crc.crc_new true true Board.env)))) = 0x0376e6e7)
    as Ec by (vm_compute; done). rewrite E in Ec. cbn [fst snd] in Ec. by rewrite Ec.
Defined.

Module Edges.
(** Port A with pin 5 an output, and line 5 armed for rising edges. *)
Definition port : Gpio.GpioPeripheral :=
  Board.put (write Gpio.moder AccessSize.word 0xabfff7ff Board.word_write)
    (Gpio.set_edge_callback true (Gpio.gpio_new "GPIOA" true true Board.env)).
Definition controller : Exti.ExtiPeripheral :=
  Board.put (write Exti.rtsr1 AccessSize.word 0x20 Board.word_write)
    (Board.put (write Exti.imr1 AccessSize.word 0x20 Board.word_write) (Exti.exti_new "EXTI" true true Board.env)).

Lemma controller_ok : ExtiProofs.exti_ok controller.
Proof. unfold controller, Board.put. do 2 (eapply holds_state; [apply ExtiProofs.exti_write_ok|]). apply ExtiProofs.exti_new_ok. Qed.
Lemma port_ok : GpioProofs.gpio_ok port.
Proof.
  destruct (GpioProofs.gpio_new_ok "GPIOA" true true Board.env) as [Hb Hs Ho Hm Hv].
  set (d := Gpio.set_edge_callback true (Gpio.gpio_new "GPIOA" true true Board.env)).
  assert (port = with_block (set_register Gpio.moder 0xabfff7ff) d) as -> by (vm_compute; reflexivity).
  constructor; [by apply set_register_ok| |done|done|done].
  transitivity (rb_block_size (Gpio.gp_block d)); [|exact Hs]. vm_compute. reflexivity.
Qed.
End Edges.

Lemma gpio_write_latches_edges_witness :
  ∃ d' calls x' lines, write Gpio.bsrr AccessSize.word 0x20 Board.word_write Board.env Edges.port = (inl (inl 0), d', calls)
    /\ deliver_edges None 0 calls Board.env Edges.controller = (inl tt, x', lines)
    /\ ExtiProofs.latched x' 5 = true /\ ExtiProofs.latched x' 4 = false.
Proof.
  assert (is_u32 0x20) as Hv by width_lia.
  assert (Gpio.bsrr ∈ [Gpio.odr; Gpio.bsrr; Gpio.brr]) as Hw by (right; left).
  assert (0 <= 0 <= 6) as Hp by lia.
  assert (Gpio.gp_edge_callback Edges.port = true) as He by (vm_compute; reflexivity).
  assert (let '(_, d, calls) := write Gpio.bsrr AccessSize.word 0x20 Board.word_write Board.env Edges.port in
    let '(_, x, _) := deliver_edges None 0 calls Board.env Edges.controller in
    ExtiProofs.latched x 5 = true /\ ExtiProofs.latched x 4 = false) as Hx by (vm_compute; done).
  pose proof (gpio_write_latches_edges Gpio.bsrr 0x20 0 Board.word_write Board.env None Edges.port Edges.controller
    Edges.port_ok Edges.controller_ok Hv Hw Hp He) as (d'&calls&x'&lines&E&_&El&_).
  exists d', calls, x', lines. rewrite E, El in Hx. destruct Hx as [H5 H4]. split_and!; assumption.
Defined.

Lemma exti_lines_consistent_witness :
  ExtiProofs.exti_ok (snd (fst (write Exti.swier1 AccessSize.halfword 0x20 Board.word_write Board.env Edges.controller)))
  /\ level 5 (Exti.ex_block (snd (fst (write Exti.swier1 AccessSize.halfword 0x20 Board.word_write Board.env Edges.controller)))) = true.
Proof.
  split; [|vm_compute; reflexivity].
  destruct (proj2 exti_lines_consistent Board.env Edges.controller Edges.controller_ok) as (Hw&_). apply Hw.
Defined.

(** KEY1, then from that state KEY1 again and an erase: the second run starts with a key already seen. *)
Lemma flash_stays_locked_witness :
  ∃ d1 d2, FlashProofs.write_all Board.word_write [(Flash.keyr, 0x45670123)] Board.env (Flash.flash_new true true Board.env) = (inl tt, d1, [])
    /\ Flash.fl_key_sequence d1 = Flash.KeySequence.first_key_seen
    /\ FlashProofs.write_all Board.word_write [(Flash.keyr, 0x45670123); (Flash.cr, 0x10002)] Board.env d1 = (inl tt, d2, [])
    /\ has (registerValue Flash.cr (Flash.fl_block d2)) Flash.lock = true.
Proof.
  destruct (FlashProofs.flash_writes_locked Board.word_write [(Flash.keyr, 0x45670123)] Board.env (Flash.lock .| Flash.option_lock)
    Flash.KeySequence.idle Flash.KeySequence.first_key_seen (Flash.flash_new true true Board.env)) as (d1'&E1&H1);
    [repeat constructor; vm_compute; congruence|apply FlashProofs.flash_new_locked|reflexivity|].
  destruct (flash_stays_locked Board.word_write [(Flash.keyr, 0x45670123); (Flash.cr, 0x10002)]
    Board.env (Flash.lock .| Flash.option_lock) Flash.KeySequence.first_key_seen d1' H1) as (d2&E2&Hl&_);
    [repeat constructor; vm_compute; congruence|vm_compute; reflexivity|].
  exists d1', d2. split_and!; [exact E1|apply (FlashProofs.lk_key _ _ _ H1)|exact E2|exact Hl].
Defined.


Lemma lane_capture_merge_witness :
  ∃ merged, tr_records (flushLaneCapture Board.observe Board.captured) = number 5 merged
    /\ (fun r => (rec_time_ns r, rec_source r)) <$> merged = [(10, "a"); (10, "b"); (20, "b"); (30, "a")].
Proof.
  destruct (lane_capture_merge Board.observe Board.captured) as (merged&E&_); [done|done|cbn; lia|].
  exists merged. split; [exact E|].
  assert ((fun r => (rec_time_ns r, rec_source r)) <$> tr_records (flushLaneCapture Board.observe Board.captured)
          = [(10, "a"); (10, "b"); (20, "b"); (30, "a")]) as Hm by (vm_compute; reflexivity).
  rewrite E in Hm. cbn [Board.captured tr_records app] in Hm. rewrite <- Hm. unfold number.
  rewrite fmap_imap. cbn. symmetry. apply list_eq. intros i. rewrite list_lookup_imap, list_lookup_fmap. by destruct (merged !! i).
Defined.

Lemma trace_text_determines_records_witness :
  tr_records (flushLaneCapture Board.observe Board.captured)
  = tr_records (setEnabled false (flushLaneCapture Board.observe Board.captured)).
Proof. apply trace_text_determines_records. vm_compute. reflexivity. Defined.
