(* ===== verification/TimingTheorems.v ===== *)
(** * Theorems about the timing and serial peripherals

    Watchdogs, timers, USART, SPI and ADC, each theorem with an instance on a concrete device. *)

From S2P Require Import Prelude Address Common Trace CpuState CpuStateProofs Peripheral PeripheralProofs.
From S2P Require Import Timing Watchdog Timer Usart Spi Adc AdcLazy.
#[local] Open Scope Z_scope.
#[local] Open Scope fil_scope.

(** ** Watchdogs *)

(** C17: The independent watchdog supervises exactly.  From a locked device, for every sequence of timed word writes to
    its registers that never writes the unlock key and whose end is one period short of 2^64 nanoseconds, the run returns, prescaler, reload and window registers keep their
    content, and resets are requested at exactly the times the abstract watchdog gives: the start key starts a period,
    the reload key renews it only while running, and a period of (RLR + 1) prescaled ticks at 32 kHz that is not
    renewed ends in one request at its last nanosecond (no request at all while resets are disabled).  The durations computed in [long double] are exact for every
    register value, whatever the significand width of the target. *)
Theorem watchdog_supervision `{LongDouble} (fires : bool) (pr rlr winr : Z) (c : AccessContext) (env : Env)
    (writes : list (Z * (Z * Z))) (until now : Z) (running : bool) (deadline : option Z) (d : Iwdg.IwdgPeripheral) :
  Supervision.supervised fires pr rlr winr running deadline d ->
  Forall Supervision.plain_write writes -> 0 <= now -> Supervision.timed now writes until ->
  until + iwdg_period pr rlr <= max_u64 ->
  ∃ d' fx, Supervision.drive c env writes until d = (Some d', fx)
    /\ registerValue 0x04 (Iwdg.iw_block d') = pr /\ registerValue 0x08 (Iwdg.iw_block d') = rlr
    /\ registerValue 0x10 (Iwdg.iw_block d') = winr
    /\ Supervision.resets fx
       = if fires then Supervision.timeouts (iwdg_period pr rlr) running deadline (Supervision.key_writes writes) until else [].
Proof.
  intros Hd Hw Hnow Ht Hend.
  destruct (Supervision.drive_run fires pr rlr winr c env writes until Hw Hend now running deadline d Hnow Ht Hd)
    as (d'&fx&E&(r'&dl'&[_ _ _ _ Hp Hr Hwn _ _ _])&Hfx). exists d', fx. by split_and!.
Qed.

(** The window watchdog's lifecycle mirrors the enable bit of its control register, and a timeout is pending only
    while it runs: accesses of every width at every offset, the timeout and [setResetEnabled] keep that, also when
    scheduling throws. *)
Theorem window_watchdog_mirrors `{LongDouble} (env : Env) (d : Wwdg.WwdgPeripheral) :
  Window.mirrored d ->
  (∀ offset size v c, Window.mirrored (snd (fst (write offset size v c env d))))
  /\ (∀ offset size c, Window.mirrored (snd (fst (read offset size c env d))))
  /\ Window.mirrored (snd (fst (Wwdg.timeout env d)))
  /\ ∀ enabled, Window.mirrored (snd (fst (Wwdg.setResetEnabled enabled env d))).
Proof.
  intros Hd. split_and!.
  - intros offset size v c. by eapply holds_state; [apply Window.wwdg_write_holds|].
  - intros offset size c. by eapply holds_state; [apply Window.wwdg_read_holds|].
  - by eapply holds_state; [apply Window.wwdg_timeout_holds|].
  - intros enabled. by eapply holds_state; [apply Window.wwdg_setResetEnabled_holds|].
Qed.

(** ** Timers *)

(** A timer's lifecycle mirrors CR1.CEN, its interrupt line is DIER.UIE and SR.UIF, and an update is pending only
    while it runs: every access of every width, the update event and a clock change keep that, also when scheduling
    throws. *)
Theorem timer_line_invariant `{LongDouble} (env : Env) (d : Timer.TimerPeripheral) :
  timer_ok d ->
  (∀ offset size v c, timer_ok (snd (fst (write offset size v c env d))))
  /\ (∀ offset size c, timer_ok (snd (fst (read offset size c env d))))
  /\ timer_ok (snd (fst (Timer.update_callback env d)))
  /\ ∀ frequency_hz, timer_ok (snd (fst (Timer.setInputClockHz frequency_hz env d))).
Proof.
  intros Hd. split_and!.
  - intros offset size v c. by eapply holds_state; [apply timer_write_holds|].
  - intros offset size c. by eapply holds_state; [apply timer_read_holds|].
  - by eapply holds_state; [apply timer_callback_holds|].
  - intros f. by eapply holds_state; [apply timer_clock_holds|].
Qed.

(** C19: The timer counts and updates at the exact times.  Take a stopped timer on an event loop, with its counter at
    most ARR, a nonzero input clock, and clock and (ARR + 1) (PSC + 1) 10^9 below 2^63 and within the significand of
    [long double].  Setting CR1.CEN without one-pulse mode starts it, and after any number of dispatched updates whose
    times fit 64 bits: from the last update (or the start) until the next one, the counter is its value then plus the
    prescaled ticks elapsed since, never above ARR; the next update is pending at the first nanosecond at which that
    count exceeds ARR; and the log holds one update per dispatch, the first at the start value's delay and the others
    one period apart, a period being (ARR + 1) ticks rounded up to whole nanoseconds, each with ARR as its count. *)
Theorem timer_updates_exact `{LongDouble} (c : AccessContext) (env : Env) (d : Timer.TimerPeripheral) (v : Z) (n : nat) :
  timer_ok d -> Timer.tm_state d = State.stopped -> rb_has_loop (Timer.tm_block d) = true -> 0 < Timer.tm_input_clock_hz d ->
  in_range d -> Timer.tm_counter_epoch_value d <= reload_value d -> is_u32 v -> has v 1 = true -> has v (1 .<< 3) = false ->
  let start := Timer.tm_counter_epoch_value d in
  let first := env_now env + update_delay start d in
  let period := update_delay 0 d in
  let next := first + Z.of_nat n * period in
  let epoch := if n is S m then first + Z.of_nat m * period else env_now env in
  let count t := (if n is S _ then 0 else start) + ticks_in (Timer.tm_input_clock_hz d) (divider d) (t - epoch) in
  next <= max_u64 ->
  ∃ d0 d' fx, write Timer.cr1 AccessSize.word v c env d = (inl (inl 0), d0, fx)
    /\ run_updates env n d0 = Some d'
    /\ (∀ t, epoch <= t < next -> Timer.live_counter (at_time t env) d' = count t /\ count t <= reload_value d)
    /\ Timer.tm_update_event d' = Some next /\ reload_value d < count next
    /\ Timer.tm_updates d' = Timer.tm_updates d
         ++ ((fun k => mkTimerUpdate (first + k * period) (reload_value d)) <$> seqZ 0 (Z.of_nat n)).
Proof.
  intros Hok Hst Hl Hf Hr Hle Hv Hen Hopm start first period next epoch count Hend.
  assert (0 <= period) as Hpos.
  { pose proof (divider_pos d Hok). pose proof (reload_value_pos d Hok). unfold period, update_delay, ticks_ns.
    pose proof (cdiv_pos ((reload_value d + 1 - 0) * divider d * 1000000000) (Timer.tm_input_clock_hz d)). nia. }
  assert (first <= max_u64) as Hfirst by (unfold next in Hend; nia).
  destruct (start_run v c env d Hok Hst Hl Hf Hr Hle Hv Hen Hfirst) as (d0&fx&E&Ht&Hc&Hu). fold start in Ht.
  pose proof Hc as Hc0. unfold configuration in Hc0. injection Hc0 as Ecr Earr Epsc Eclk.
  assert (reload_value d0 = reload_value d /\ divider d0 = divider d) as [Ea Ep] by (unfold reload_value, divider; by rewrite Earr, Epsc).
  assert (∀ x, update_delay x d0 = update_delay x d) as Ed by (intros x; unfold update_delay; by rewrite Ea, Ep, Eclk).
  assert (in_range d0) as Hr0 by (destruct Hr; constructor; by rewrite ?Eclk, ?Ea, ?Ep).
  destruct (updates_run env n _ _ d0 Ht Hr0) as (d'&Erun&Ht'&Hconf&Hups); [by rewrite Ecr|rewrite !Ed; exact Hend|by rewrite Ed|].
  rewrite !Ed in Ht', Hups. fold first period epoch in Ht', Hups. set (from := if n is S _ then 0 else start) in *.
  pose proof (configuration_range _ _ Hconf Hr0) as Hr'. pose proof (configuration_delay _ _ from Hconf) as Ed'. rewrite Ed in Ed'.
  pose proof Hconf as Hconf0. unfold configuration in Hconf0. injection Hconf0 as _ Earr' Epsc' Eclk'.
  assert (reload_value d' = reload_value d /\ divider d' = divider d) as [Ea' Ep'].
  { rewrite <- Ea, <- Ep. unfold reload_value, divider. by rewrite Earr', Epsc'. }
  assert (next = epoch + update_delay from d) as En.
  { unfold next, epoch, from, first, period. destruct n as [|m]; [|rewrite Nat2Z.inj_succ]; lia. }
  exists d0, d', fx. split_and!; [done|done| | | |].
  - intros t Htt. pose proof (counter_between epoch from (at_time t env) d' Ht' Hr') as Hb. rewrite Ed', Ea', Ep', Eclk', Eclk in Hb.
    apply Hb. cbn. lia.
  - rewrite (ti_event _ _ _ Ht'), Ed'. by f_equal.
  - pose proof (overflow_exact epoch from next d' Ht') as Ho. rewrite Ed', Ea', Ep', Eclk', Eclk in Ho. unfold count. fold from. lia.
  - by rewrite Hups, Hu, Ea.
Qed.

(** ** USART *)

(** C20: The USART refines its two streams.  For every sequence of timed operations (injections of received bytes, word
    reads and writes of any register, the idle event) over any provider, on an attached event loop and at times whose
    idle gap ends within 64 bits, no operation throws, the bytes the firmware
    reads from RDR are those of the streams specification (oldest first, the provider asked only when the queue is
    empty, zero when nothing is waiting), the transmit log holds every TDR byte with its time, and at the end RXNE tells
    whether a byte is waiting, TXE is set, TEACK and REACK follow CR1, the interrupt line follows CR1 and the status,
    and the idle event is pending exactly when the detector is armed. *)
Theorem usart_refines_streams `{RxProvider} (c : AccessContext) (env : Env) (gap : Z) (ops : list (Z * UsartOp))
    (s : Streams) (d : Usart.UsartPeripheral) :
  Usart.at_ok gap s d -> Forall (op_valid gap) ops ->
  ∃ d', usart_drive c env ops d = Some ((stream_drive env ops s).1, d')
    /\ streams d' = (stream_drive env ops s).2 /\ Usart.usart_ok d'.
Proof.
  intros Hd Hops. destruct (usart_drive_runs c env gap ops Hops s d Hd) as (d'&E&(Hc&Hg&Hs)&Hm&Hl).
  exists d'. by split_and!.
Qed.

(** ** SPI *)

(** C21: The SPI refines its exchange of bytes.  For every sequence of timed operations (byte, halfword and word
    accesses to DR, word accesses to the other registers) over any target, no operation throws, a DR write sends one
    byte for a byte access and two for a wider one and queues as many answer bytes (the target's answer padded with
    zeros or cut to the width, the echo, or zeros), a DR read returns the oldest queued bytes in little-endian order
    and removes just those, every transfer is logged with its time, and at the end RXNE, TXE and the interrupt line
    agree with the queue and CR2. *)
Theorem spi_refines_exchange `{SpiTarget} (c : AccessContext) (env : Env) (echo : bool) (ops : list (Z * SpiOp))
    (s : SpiStreams) (d : Spi.SpiPeripheral) :
  Spi.at_ok echo s d -> Forall spi_op_valid ops ->
  ∃ d', spi_drive c env ops d = Some ((spi_stream_drive env echo ops s).1, d')
    /\ Spi.at_ok echo (spi_stream_drive env echo ops s).2 d'.
Proof. intros Hd Hops. by apply spi_drive_runs. Qed.

(** ** ADC *)

(** C18: Lazy conversions are invisible.  Take an ADC on an event loop that keeps every scan and records its samples, so that
    every conversion runs as an event, and the same ADC with the sample history switched off, which in continuous
    single-channel mode schedules nothing and computes the last elapsed conversion when it is looked at.  For every
    sequence of timed register accesses of any width, input changes and clock changes in which SQR1 is written only
    while no conversion is started, the event-driven run ends, and when it returns results the lazy run returns the
    same ones: no read of any register at any time tells the two apart. *)
Theorem lazy_conversions_invisible `{AnalogInput} (c : AccessContext) (env : Env) (now : Z) (ops : list (Z * AdcLazy.AdcOp))
    (d : Adc.AdcPeripheral) :
  AdcLazy.inv (at_time now env) true d -> Forall (fun x => AdcLazy.op_valid x.2) ops -> AdcLazy.timed now ops ->
  ∃ l w, Adc.setSampleHistoryEnabled false (at_time now env) d = (inl tt, l, w)
    /\ AdcLazy.adc_drive c env now ops d <> AdcLazy.exhausted
    /\ ∀ results d', AdcLazy.adc_drive c env now ops d = AdcLazy.finished results d' ->
         ∃ l', AdcLazy.adc_drive c env now ops l = AdcLazy.finished results l'.
Proof.
  intros Hd Hops Ht. destruct (AdcLazy.history_off env now d Hd) as (l&w&E&Hrel). exists l, w. split; [done|].
  pose proof (AdcLazy.drive_alike c env ops Hops now d l Ht Hrel) as Hall.
  destruct (AdcLazy.adc_drive c env now ops d) as [out d0| | |]; [|done..]. split; [done|]. by intros ? ? [= <- <-].
Qed.

(** ** Instances *)

Module Bench.
Definition env : Env := mkEnv 1000 true [] false.
Definition access : AccessContext := mkAccessContext AccessType.data_write 0x08000100.
(** The x87 format of x86-64. *)
#[global] Instance x87 : LongDouble.
Proof. refine {| ld_precision := 64 |}. lia. Defined.
Definition put {S A} (m : Dev S A) (s : S) : S := snd (fst (m env s)).

(** A watchdog with an armed reset callback. *)
Definition iwdg : Iwdg.IwdgPeripheral := put (Iwdg.setResetCallback true) (Iwdg.iwdg_new true true true env).
Lemma iwdg_supervised : Supervision.supervised true 0 0xfff 0xfff false None iwdg.
Proof. destruct (Supervision.iwdg_new_supervised false true true env eq_refl). by constructor. Qed.
(** A timer of 1 ms: 16 MHz, prescaler 16, 1000 ticks. *)
Definition timer : Timer.TimerPeripheral :=
  put (write Timer.arr AccessSize.word 999 access)
    (put (write Timer.psc AccessSize.word 15 access) (Timer.timer_new "TIM2" 16000000 true true env)).
Lemma timer_is_ok : timer_ok timer.
Proof. unfold timer, put. do 2 (eapply holds_state; [apply timer_write_holds|]). apply timer_new_ok. Qed.
(** A provider with a script, and an SPI target that answers with the complement of the first byte. *)
#[global] Instance script : RxProvider.
Proof.
  refine {| rx_state := list Z;
            provide l _ := match l with b :: l => (Some (u8 b), l) | [] => (None, []) end |}.
  intros [|b l] t; [done|]. apply u8_range.
Defined.
#[global] Instance complement : SpiTarget.
Proof.
  refine {| target_state := Z; exchange n tx _ := ([u8 (Z.lnot (default 0 (head tx)))], n + 1) |}.
  intros n tx t. constructor; [apply u8_range|constructor].
Defined.
(** A slow ramp on every ADC channel, and an ADC in continuous conversion of channel 0. *)
#[global] Instance ramp : AnalogInput.
Proof. refine {| analog channel t := u16 (t / 100 + channel) |}. intros. apply u16_range. Defined.
Definition quiet : Env := mkEnv 1000 false [] false.
Definition adc_started : Adc.AdcPeripheral :=
  snd (fst (Adc.adc_write Adc.cr AccessSize.word 5 access quiet
    (snd (fst (Adc.adc_write Adc.cfgr AccessSize.word 0x2000 access quiet
      (snd (fst (Adc.setChannelProvider true quiet (Adc.adc_new "ADC1" true true quiet))))))))).
Definition adc_ops : list (Z * AdcLazy.AdcOp) :=
  [(5000, AdcLazy.ao_read Adc.dr AccessSize.word); (5100, AdcLazy.ao_clock 8000000);
   (9000, AdcLazy.ao_read Adc.dr AccessSize.halfword); (9000, AdcLazy.ao_write Adc.ier AccessSize.word 4);
   (20000, AdcLazy.ao_read Adc.isr AccessSize.word)].
Definition results_of (run : AdcLazy.AdcRun) : option (list (MemoryResult Z)) :=
  match run with AdcLazy.finished results _ => Some results | _ => None end.
(** The target counts its transfers. *)
Definition count0 : @target_state complement := 0.
End Bench.

(** The 512 ms watchdog that is fed at 400 ms and then forgotten resets once, 512 ms after the feeding. *)
Lemma watchdog_supervision_witness :
  ∃ d' fx, Supervision.drive Bench.access Bench.env [(1000, (0, 0xcccc)); (400001000, (0, 0xaaaa)); (400002000, (4, 6))] 2000000000 Bench.iwdg
    = (Some d', fx) /\ registerValue 0x04 (Iwdg.iw_block d') = 0 /\ Supervision.resets fx = [912001000].
Proof.
  destruct (watchdog_supervision true 0 0xfff 0xfff Bench.access Bench.env
    [(1000, (0, 0xcccc)); (400001000, (0, 0xaaaa)); (400002000, (4, 6))] 2000000000 0 false None Bench.iwdg) as (d'&fx&E&Hp&_&_&Hr).
  - apply Bench.iwdg_supervised.
  - repeat constructor; cbn; try lia; try done.
  - lia.
  - cbn. lia.
  - vm_compute. congruence.
  - exists d', fx. split_and!; [done|done|]. rewrite Hr. vm_compute. reflexivity.
Defined.

Lemma timer_updates_exact_witness :
  ∃ d0 d' fx, write Timer.cr1 AccessSize.word 1 Bench.access Bench.env Bench.timer = (inl (inl 0), d0, fx)
    /\ run_updates Bench.env 2 d0 = Some d'
    /\ Timer.live_counter (at_time 2501500 Bench.env) d' = 500
    /\ Timer.tm_updates d' = [mkTimerUpdate 1001000 999; mkTimerUpdate 2001000 999].
Proof.
  destruct (timer_updates_exact Bench.access Bench.env Bench.timer 1 2) as (d0&d'&fx&E&Er&Hc&_&_&Hu).
  - apply Bench.timer_is_ok.
  - vm_compute. reflexivity.
  - vm_compute. reflexivity.
  - vm_compute. reflexivity.
  - constructor; unfold ld_fits; split_and!; vm_compute; congruence.
  - vm_compute. congruence.
  - width_lia.
  - reflexivity.
  - reflexivity.
  - vm_compute. congruence.
  - exists d0, d', fx. split_and!; [done|done| |rewrite Hu; vm_compute; reflexivity].
    rewrite (proj1 (Hc 2501500 ltac:(vm_compute; split; congruence))). vm_compute. reflexivity.
Defined.

Lemma usart_refines_streams_witness :
  ∃ d', usart_drive Bench.access Bench.env
      [(1000, usart_inject [0x41; 0x42]); (2000, usart_read Usart.rdr); (3000, usart_write Usart.tdr 0x58); (4000, usart_read Usart.rdr);
       (5000, usart_read Usart.rdr)] (Usart.usart_new "USART1" true true Bench.env) = Some ([0x41; 0x42; 0], d')
    /\ st_tx (streams d') = [mkUsartTxByte 3000 0x58].
Proof.
  destruct (usart_refines_streams Bench.access Bench.env 1000000
    [(1000, usart_inject [0x41; 0x42]); (2000, usart_read Usart.rdr); (3000, usart_write Usart.tdr 0x58); (4000, usart_read Usart.rdr);
     (5000, usart_read Usart.rdr)] (mkStreams [] None []) (Usart.usart_new "USART1" true true Bench.env)) as (d'&E&Hs&_).
  - by apply usart_new_ok.
  - repeat constructor; cbn; try done; try (unfold max_u64; lia).
  - exists d'. split; [exact E|]. by rewrite Hs.
Defined.

Lemma spi_refines_exchange_witness :
  ∃ d', spi_drive Bench.access Bench.env
      [(1000, spi_send AccessSize.byte 0x0f); (2000, spi_send AccessSize.halfword 0x1234); (3000, spi_recv AccessSize.halfword)]
      ({| (Spi.setEcho false (Spi.spi_new "SPI1" true true Bench.env)) with Spi.sp_transfer_callback := Some Bench.count0 |})
    = Some ([0xcbf0], d') /\ Spi.sp_receive_bytes d' = [0] /\ Spi.sp_transfer_callback d' = Some (2 : @target_state Bench.complement).
Proof.
  destruct (spi_refines_exchange Bench.access Bench.env false
    [(1000, spi_send AccessSize.byte 0x0f); (2000, spi_send AccessSize.halfword 0x1234); (3000, spi_recv AccessSize.halfword)]
    (mkSpiStreams [] (Some Bench.count0) [])
    ({| (Spi.setEcho false (Spi.spi_new "SPI1" true true Bench.env)) with Spi.sp_transfer_callback := Some Bench.count0 |})) as (d'&E&Hd').
  - apply spi_new_ok.
  - repeat constructor; done.
  - exists d'. split; [exact E|]. destruct Hd' as [[[_ _ _ _ _ Hs] _] _]. vm_compute in Hs.
    split; [exact (f_equal ss_rx Hs)|exact (f_equal ss_target Hs)].
Defined.

(** A register write can throw: with the largest prescaler and reload value the duration saturates at the end of time,
    and scheduling relative to any later instant than zero overflows. *)
Example timer_saturated_write_throws :
  fst (fst (write Timer.cr1 AccessSize.word 1 Bench.access Bench.env
    (Bench.put (write Timer.arr AccessSize.word 0xffffffff Bench.access)
       (Bench.put (write Timer.psc AccessSize.word 0xffffffff Bench.access) Bench.timer))))
  = inr "simulation event time overflow".
Proof. vm_compute. reflexivity. Qed.

(** The lazy device reads the same samples across a clock change and an interrupt enable. *)
Lemma lazy_conversions_invisible_witness :
  ∃ l l', fst (Adc.setSampleHistoryEnabled false (at_time 1000 Bench.quiet) Bench.adc_started) = (inl tt, l)
    /\ AdcLazy.adc_drive Bench.access Bench.quiet 1000 Bench.adc_ops l = AdcLazy.finished [inl 47; inl 0; inl 81; inl 0; inl 13] l'.
Proof.
  destruct (lazy_conversions_invisible Bench.access Bench.quiet 1000 Bench.adc_ops Bench.adc_started) as (l&w&E&_&Hrun).
  - split; [split; [constructor|..]|]; vm_compute; try done; by repeat split.
  - repeat constructor; cbn; lia.
  - cbn. lia.
  - destruct (AdcLazy.adc_drive Bench.access Bench.quiet 1000 Bench.adc_ops Bench.adc_started) as [results d'| | |] eqn:Er;
      [|exfalso; revert Er; vm_compute; discriminate..].
    destruct (Hrun results d' eq_refl) as [l' Hl]. exists l, l'. split; [by rewrite E|]. rewrite Hl. f_equal.
    assert (Bench.results_of (AdcLazy.adc_drive Bench.access Bench.quiet 1000 Bench.adc_ops Bench.adc_started) = Some [inl 47; inl 0; inl 81; inl 0; inl 13])
      as Eo by (vm_compute; reflexivity). rewrite Er in Eo. by injection Eo.
Defined.

(** Decimation is not applied to lazy conversions: of four scans the event-driven device keeps one, the lazy device
    shows the last. *)
Lemma lazy_ignores_decimation :
  let keep_one_of_four := Adc.setDecimation 4 Bench.adc_started in
  let lazy := snd (fst (Adc.setSampleHistoryEnabled false Bench.quiet keep_one_of_four)) in
  let look := [(5000, AdcLazy.ao_read Adc.dr AccessSize.word)] in
  Bench.results_of (AdcLazy.adc_drive Bench.access Bench.quiet 1000 look keep_one_of_four) = Some [inl 19]
  /\ Bench.results_of (AdcLazy.adc_drive Bench.access Bench.quiet 1000 look lazy) = Some [inl 47].
Proof. vm_compute. done. Qed.
