(* ===== verification/LoadTheorems.v ===== *)
(** * Loading firmware: theorems

    The ELF loader is total and reads inside its buffers on every file; an accepted image is
    unambiguous; and the reset map built from it holds the file bytes at their load addresses, so
    that the core reads its initial stack pointer and its reset handler from the vector table. *)

From stdpp Require Import gmap sorting.
From S2P Require Import Prelude Address CpuState MemoryApi Common Trace MemoryBus MemoryBusProofs BusAccess.
From S2P Require Import BusJournal Elf ElfProofs McuMap MmioRouter Demo.
#[local] Open Scope Z_scope.
#[local] Open Scope fil_scope.
Import Elf Mcu MmioRouter.

Section load.
Context `{StdSort}.

(** C12: for every file, the loader ends, reads no byte outside the file or outside a section, and
    what it accepts is well formed: each segment's bytes lie in the file and its addresses in 32
    bits, overlapping segments agree byte for byte, segments and symbols are sorted, and the
    initial stack pointer and reset handler are the first two words of the vector table. *)
Theorem elf_load_total path file vector_base : Forall is_u8 file ->
  ∃ r, load path (inl file) vector_base = Some r
    ∧ ∀ image, r = inl image -> image_ok image ∧ im_file_bytes image = file.
Proof.
  intros Hf. pose proof (load_safely path file vector_base Hf) as Hs.
  destruct (load path (inl file) vector_base) as [[image|e]|]; [| |done]; eexists; (split; [done|]); [|done].
  by intros ? [= <-].
Qed.

(** reading the load image does not depend on which segment serves the range: whichever
    segment of a loaded file contains it, the result is that segment's bytes, all of them. *)
Theorem load_image_unambiguous path file vector_base image s a n : Forall is_u8 file -> is_u32 a -> 0 <= n ->
  load path (inl file) vector_base = Some (inl image) -> s ∈ im_segments image -> serves s a n = true ->
  ∃ bytes, readLoadImage image a n = inl bytes ∧ Z.of_nat (length bytes) = n
    ∧ ∀ k, 0 <= k < n -> byte_at bytes k = byte_at file (sg_file_offset s + (a + k - sg_physical_address s)).
Proof.
  intros Hf Ha Hn Hl Hs Hv. pose proof (load_safely path file vector_base Hf) as Hsafe. rewrite Hl in Hsafe.
  destruct Hsafe as [Him <-]. pose proof (iok_segments _ Him) as Hok. pose proof Hok as [Hall _].
  rewrite Forall_forall in Hall. pose proof (Hall s Hs) as Hsok. eexists. split; [|split].
  - by apply read_segments_any.
  - by apply slice_segment_length.
  - intros k Hk. by apply slice_image_byte.
Qed.

(** the symbol found for an address is a nearest one at or before it, and none is found exactly
    when every symbol lies after the address. *)
Theorem symbol_lookup_nearest path file vector_base image a : Forall is_u8 file ->
  load path (inl file) vector_base = Some (inl image) ->
  match symbolAtOrBefore image a with
  | Some s => s ∈ im_symbols image ∧ sy_address s <= a
      ∧ ∀ t, t ∈ im_symbols image -> sy_address t <= a -> sy_address t <= sy_address s
  | None => ∀ t, t ∈ im_symbols image -> a < sy_address t
  end.
Proof.
  intros Hf Hl. pose proof (load_safely path file vector_base Hf) as Hsafe. rewrite Hl in Hsafe.
  destruct Hsafe as [Him _]. pose proof (iok_symbols _ Him) as Hsorted.
  destruct (symbols_before_spec a _ Hsorted) as (Hn & Ht & Hd). unfold symbolAtOrBefore.
  destruct (symbols_before a (im_symbols image)) as [|n].
  { rewrite drop_0, Forall_forall in Hd. exact Hd. }
  destruct (lookup_lt_is_Some_2 (im_symbols image) n) as [s Hs]; [lia|]. rewrite Hs.
  split; [by eapply list_elem_of_lookup_2|]. split; [|by eapply sorted_last_max].
  rewrite Forall_lookup in Ht. apply (Ht n). rewrite lookup_take_lt by lia. done.
Qed.
End load.

(** C13: a successful build of the reset map holds, at each load address of the image, the file's
    byte, and at every other address the fill of its region (erased flash and system memory, zeroed
    RAM); the devices are untouched; and a word read through the bus at the vector table returns
    the image's initial stack pointer and, four bytes on, its reset handler. *)
Theorem reset_map_is_load_image `{MmioDevices D} mcu image windows executable_sram (devices : D) b c depth :
  mcu_ok mcu -> image_ok image -> is_fetch c = false ->
  buildMcuMemoryMap mcu image windows executable_sram devices = inl b ->
  bus_ok b ∧ bus_devices b = devices
  ∧ (∀ s a, s ∈ im_segments image -> covers s a -> backed_byte a b = image_byte (im_file_bytes image) s a)
  ∧ (∀ a, (∀ s, s ∈ im_segments image -> ~ covers s a) -> backed_byte a b = reset_byte mcu a)
  ∧ fst (bus_read depth (im_vector_base image) AccessSize.word c b) = inl (im_initial_msp image)
  ∧ fst (bus_read depth (im_vector_base image + 4) AccessSize.word c b) = inl (im_reset_handler image).
Proof.
  intros Hm Him Hc Hb. apply buildMcuMemoryMap_loaded in Hb as (_ & Hr & b0 & Hd & H0 & Hl); [|done..].
  destruct (iok_vectors _ Him) as (vectors & Hv & Hmsp & Hreset).
  apply read_segments_some in Hv as (_ & s & Hs & Hserve & ->).
  split; [apply Hl|]. split; [rewrite <- Hd; apply Hl|]. split; [apply Hl|].
  split; [intros a Ha; rewrite <- H0; by apply Hl|]. split.
  - rewrite <- (Z.add_0_r (im_vector_base image)). by eapply (loaded_word _ image b0 b c s).
  - by eapply (loaded_word _ image b0 b c s).
Qed.

(** C14: an access inside a router's window goes to the one route that contains all of it, with the
    offset inside that route; where no route contains it, a lenient router answers with its fixed
    value and counts the access at its absolute address, and only there, leaving every device alone. *)
Theorem router_dispatch_exact `{MmioDevices D} (r : Router) (d : D) offset size value c :
  router_ok r -> rangeFits offset (byteCount size) (ro_window_size r) = true ->
  (∀ route, route ∈ ro_routes r -> route_contains offset (byteCount size) route = true ->
    router_read offset size c (r, d)
      = (let '(result, d) := device_read (rt_device route) (offset - rt_offset route) size c d in
         (name_region (rt_name route) result, (r, d)))
    ∧ router_write offset size value c (r, d)
      = (let '(result, d) := device_write (rt_device route) (offset - rt_offset route) size value c d in
         (name_region (rt_name route) result, (r, d))))
  ∧ ((∀ route, route ∈ ro_routes r -> route_contains offset (byteCount size) route = false) -> ro_lenient r = true ->
     ∃ read written, router_read offset size c (r, d) = (inl (ro_unknown_read_value r), (read, d))
       ∧ router_write offset size value c (r, d) = (inl 0, (written, d))
       ∧ router_ok read ∧ router_ok written
       ∧ ∀ a, let here := a =? u32 (ro_absolute_base r + offset) in
         entry a (unknownAccesses read) = (if here then count_read (entry a (unknownAccesses r)) else entry a (unknownAccesses r))
         ∧ entry a (unknownAccesses written)
           = (if here then count_write (entry a (unknownAccesses r)) else entry a (unknownAccesses r))).
Proof.
  intros Hr Hfit. pose proof (byteCount_pos size) as Hw. unfold router_read, router_write, route_access. rewrite Hfit. cbn [negb].
  split.
  - intros route Hin Hc. rewrite (proj2 (find_route_exact offset (byteCount size) r route Hr Hw) (conj Hin Hc)). done.
  - intros Hn Hl. rewrite find_route_none, Hl by done. cbn [negb].
    eexists _, _. split; [done|]. split; [done|]. split; [by apply note_unknown_ok|]. split; [by apply note_unknown_ok|].
    intros a. destruct Hr as [_ _ Hu]. split; by apply record_entry.
Qed.

(** ** A concrete firmware *)

Module Firmware.

(** A stable insertion sort, one of the sorts the standard allows. *)
Fixpoint sort_insert {A} (less : A -> A -> bool) (x : A) (l : list A) : list A :=
  match l with
  | [] => [x]
  | y :: l' => if less y x then y :: sort_insert less x l' else x :: l
  end.
Definition insertion_sort {A} (less : A -> A -> bool) (l : list A) : list A := foldr (sort_insert less) [] l.

Lemma sort_insert_permutation {A} (less : A -> A -> bool) x l : sort_insert less x l ≡ₚ x :: l.
Proof.
  induction l as [|y l IH]; cbn; [done|]. destruct (less y x); [|done]. rewrite IH. apply Permutation_swap.
Qed.
Lemma insertion_sort_permutation {A} (less : A -> A -> bool) l : insertion_sort less l ≡ₚ l.
Proof. induction l as [|x l IH]; cbn; [done|]. by rewrite sort_insert_permutation, IH. Qed.
Lemma sort_insert_sorted {A} (less : A -> A -> bool) x l : strict_weak less ->
  StronglySorted (not_after less) l -> StronglySorted (not_after less) (sort_insert less x l).
Proof.
  intros Hw. induction 1 as [|y l Hl IH Hy]; cbn; [by repeat constructor|].
  destruct (less y x) eqn:E.
  - constructor; [done|]. rewrite sort_insert_permutation. constructor; [|done]. by apply (less_asymmetric _ Hw).
  - constructor; [by constructor|]. constructor; [done|]. eapply Forall_impl; [exact Hy|].
    intros z Hz. unfold not_after in *. by eapply (less_negative_transitive _ Hw).
Qed.
#[export] Instance insertion : StdSort.
Proof.
  refine {| std_sort := @insertion_sort |}; [intros; apply insertion_sort_permutation|].
  intros A less l Hw. induction l as [|x l IH]; [constructor|]. by apply sort_insert_sorted.
Defined.

Definition half (v : Z) : list Z := [v mod 256; v / 256].
Definition word (v : Z) : list Z := half (v mod 65536) ++ half (v / 65536).

(** One executable segment of sixteen bytes, a symbol table with one function and its strings. *)
Definition file : list Z :=
  [0x7f; 0x45; 0x4c; 0x46; 1; 1; 1] ++ replicate 9 0 ++ half 2 ++ half 40 ++ word 1 ++ word 0x08000009 ++ word 52
  ++ word 140 ++ word 0x05000400 ++ half 52 ++ half 32 ++ half 1 ++ half 40 ++ half 3 ++ half 2
  ++ word 1 ++ word 84 ++ word 0x08000000 ++ word 0x08000000 ++ word 16 ++ word 16 ++ word 5 ++ word 4
  ++ word 0x20000100 ++ word 0x08000009 ++ word 0xbf00bf00 ++ word 0xe7fe
  ++ [0; 0x6d; 0x61; 0x69; 0x6e; 0; 0; 0]
  ++ replicate 16 0 ++ word 1 ++ word 0x08000009 ++ word 8 ++ [0x12; 0] ++ half 1
  ++ replicate 40 0
  ++ word 0 ++ word 2 ++ word 0 ++ word 0 ++ word 108 ++ word 32 ++ word 2 ++ word 0 ++ word 4 ++ word 16
  ++ word 0 ++ word 3 ++ word 0 ++ word 0 ++ word 100 ++ word 6 ++ word 0 ++ word 0 ++ word 1 ++ word 0.

Definition image : ElfImage :=
  mkImage file [mkSegment 0x08000000 0x08000000 16 16 84 true false true] [mkSymbol 0x08000008 8 "main" true]
    attributes_default 0x08000009 0x05000400 0x08000000 0x20000100 0x08000009.
Lemma file_bytes_ok : Forall is_u8 file.
Proof. apply (forallb_ok u8b); [exact u8b_ok | vm_compute; reflexivity]. Qed.
Lemma file_loads : load "demo.elf" (inl file) None = Some (inl image).
Proof. vm_compute. reflexivity. Qed.

Definition mcu : McuConfig := mkMcu 0x08000000 256 0x20000000 256 0x10000000 256.
Definition memory : Bus unit :=
  match buildMcuMemoryMap mcu image (mkWindows 0 0) false tt with inl b => b | inr _ => empty_bus tt end.
Lemma memory_built : buildMcuMemoryMap mcu image (mkWindows 0 0) false tt = inl memory.
Proof.
  assert (match buildMcuMemoryMap mcu image (mkWindows 0 0) false tt with inl _ => true | inr _ => false end = true) as Hs
    by (vm_compute; reflexivity).
  unfold memory. by destruct (buildMcuMemoryMap mcu image (mkWindows 0 0) false tt).
Qed.
End Firmware.
Import (hints) Firmware.

Lemma elf_load_total_witness :
  ∃ r, load "demo.elf" (inl Firmware.file) None = Some r
    ∧ ∀ image, r = inl image -> image_ok image ∧ im_file_bytes image = Firmware.file.
Proof. exact (elf_load_total "demo.elf" Firmware.file None Firmware.file_bytes_ok). Defined.

Lemma load_image_unambiguous_witness :
  ∃ bytes, readLoadImage Firmware.image 0x08000004 4 = inl bytes ∧ Z.of_nat (length bytes) = 4
    ∧ ∀ k, 0 <= k < 4 -> byte_at bytes k = byte_at Firmware.file (84 + (0x08000004 + k - 0x08000000)).
Proof.
  exact (load_image_unambiguous "demo.elf" Firmware.file None Firmware.image
    (mkSegment 0x08000000 0x08000000 16 16 84 true false true) 0x08000004 4 Firmware.file_bytes_ok
    ltac:(unfold is_u32; lia) ltac:(lia) Firmware.file_loads ltac:(constructor) eq_refl).
Defined.

Lemma symbol_lookup_nearest_witness :
  match symbolAtOrBefore Firmware.image 0x0800000b with
  | Some s => s ∈ im_symbols Firmware.image ∧ sy_address s <= 0x0800000b
      ∧ ∀ t, t ∈ im_symbols Firmware.image -> sy_address t <= 0x0800000b -> sy_address t <= sy_address s
  | None => ∀ t, t ∈ im_symbols Firmware.image -> 0x0800000b < sy_address t
  end.
Proof.
  exact (symbol_lookup_nearest "demo.elf" Firmware.file None Firmware.image 0x0800000b Firmware.file_bytes_ok Firmware.file_loads).
Defined.

Lemma reset_map_is_load_image_witness :
  ∃ b : Bus unit, buildMcuMemoryMap Firmware.mcu Firmware.image (mkWindows 0 0) false tt = inl b
    ∧ fst (bus_read 8 0x08000000 AccessSize.word (mkAccessContext AccessType.data_read 0) b) = inl 0x20000100.
Proof.
  assert (image_ok Firmware.image) as Him.
  { pose proof (load_safely "demo.elf" Firmware.file None Firmware.file_bytes_ok) as Hs.
    rewrite Firmware.file_loads in Hs. exact (proj1 Hs). }
  exists Firmware.memory. split; [exact Firmware.memory_built|].
  destruct (reset_map_is_load_image Firmware.mcu Firmware.image (mkWindows 0 0) false tt Firmware.memory (mkAccessContext AccessType.data_read 0) 8
    ltac:(unfold mcu_ok, is_u32; cbn; lia) Him eq_refl Firmware.memory_built) as (_ & _ & _ & _ & Hmsp & _).
  exact Hmsp.
Defined.

(** A window with two children, read in a gap between them. *)
Definition demo_router : Router :=
  snd (MmioRouter.map 0x400 0x400 1 "tim2" (snd (MmioRouter.map 0 0x100 0 "gpio" (router_new 0x40000000 0x1000 "window" true 7)))).

Lemma router_dispatch_exact_witness :
  ∃ read : Router, router_read 0x200 AccessSize.word (mkAccessContext AccessType.data_read 0) (demo_router, tt)
    = (inl 7, (read, tt)) ∧ un_reads (entry 0x40000200 (unknownAccesses read)) = 1.
Proof.
  destruct (router_dispatch_exact demo_router tt 0x200 AccessSize.word 0 (mkAccessContext AccessType.data_read 0)
    (map_ok _ _ _ _ _ (map_ok _ _ _ _ _ (router_new_ok _ _ _ _ _))) eq_refl) as [_ Hgap].
  destruct Hgap as (read & written & Hread & _ & _ & _ & Hcount); [|done|].
  - intros route Hin. cbn in Hin.
    apply elem_of_cons in Hin as [->|[->|Hin]%elem_of_cons]; [done | done | by apply elem_of_nil in Hin].
  - exists read. split; [exact Hread|]. destruct (Hcount 0x40000200) as [-> _]. vm_compute. reflexivity.
Defined.
