(* ===== verification/DebugTheorems.v ===== *)
(** * The debugger: theorems

    Packets survive framing, values survive their text, the registers survive a [g] and [G] round
    trip, and a document survives its transfer in chunks. *)

From stdpp Require Import prelude gmap sorting.
From S2P Require Import Prelude Common Instruction CpuState CpuStateProofs MemoryBus Rsp DebugRegisters Demo.
#[local] Open Scope Z_scope.
#[local] Open Scope fil_scope.
Import Rsp DebugRegisters.

(** C15: a packet sent is a packet received, in both acknowledgement modes.  The transport delivers its input and every
    write succeeds; the payload has no [#] and is within the limit.  With acknowledgements on, sending puts one frame
    on the wire for the first attempt and one for each [-] of the peer until its [+]; after QStartNoAckMode it puts one
    frame on the wire and reads nothing.  Reading a frame, after any noise without [$] and [-], returns its payload,
    consumes that frame only and answers [+], or nothing after QStartNoAckMode; a frame whose checksum digits do not
    match is answered [-], or nothing, and skipped.  Reading ends on every input. *)
Theorem rsp_frame_round_trip `{Scripted T} (sender receiver : T) c payload rejections noise rest fuel :
  0x23 ∉ payload -> Z.of_nat (length payload) <= maximum_packet_bytes ->
  Forall (fun b => b <> 0x24 ∧ b <> 0x2d) noise -> (rejections < fuel)%nat ->
  (rc_no_ack c = false -> incoming sender = replicate rejections 0x2d ++ [0x2b]) ->
  incoming receiver = noise ++ frame_of payload ++ rest ->
  (∃ c' sender', sendPacket fuel payload c sender = Some (true, c', sender')
    ∧ written sender' = written sender ++ replicate (if rc_no_ack c then 1 else S rejections) (frame_of payload)
    ∧ (rc_no_ack c = true -> incoming sender' = incoming sender))
  ∧ (∃ receiver', readPacket (length noise + S fuel) c receiver = Some (Some payload, receiver')
    ∧ incoming receiver' = rest ∧ written receiver' = written receiver ++ if rc_no_ack c then [] else [[0x2b]])
  ∧ (∀ (t : T) high low, expected_checksum high low <> checksum payload ->
       incoming t = [0x24] ++ payload ++ [0x23; high; low] ++ rest ->
       ∃ t', readPacket (S fuel) c t = readPacket fuel c t'
         ∧ incoming t' = rest ∧ written t' = written t ++ if rc_no_ack c then [] else [[0x2d]])
  ∧ (∀ t : T, is_Some (readPacket (S (length (incoming t))) c t)).
Proof.
  intros Hp Hl Hn Hf Hs Hr. split_and!.
  - unfold sendPacket. destruct (write_succeeds (frame_of payload) sender) as (s1 & -> & Hi1 & Hw1).
    cbn [negb rc_no_ack]. destruct (rc_no_ack c); [by eexists _, s1|]. specialize (Hs eq_refl).
    destruct (await_ack_rejected fuel rejections (frame_of payload) [] s1 Hf ltac:(by rewrite Hi1)) as (s2 & -> & _ & Hw2).
    cbn [mbind option_bind]. eexists _, s2. split; [done|]. split; [|done]. rewrite Hw2, Hw1, <- app_assoc. done.
  - destruct (readPacket_noise noise (S fuel) c _ receiver Hn Hr) as (r1 & -> & Hi1 & Hw1).
    destruct (readPacket_frame fuel c payload rest r1 Hp Hl Hi1) as (r2 & -> & Hi2 & Hw2).
    exists r2. split; [done|]. split; [done|]. by rewrite Hw2, Hw1.
  - intros t high low Hc Hi. by apply readPacket_corrupt with payload high low.
  - intros t. apply readPacket_ends. lia.
Qed.

(** the value codecs are inverse to each other: plain numbers of any width up to sixteen digits,
    little-endian register text, byte strings, and escaped binary data. *)
Theorem rsp_codecs_round_trip value digits text width bytes :
  0 <= value < 2 ^ 64 -> hexNumber value digits = Some text -> 0 < width <= 8 -> Forall is_u8 bytes ->
  parseHex text = Some value
  ∧ parseLittleEndianHex (hexValue (value mod 2 ^ (8 * width)) width) = Some (value mod 2 ^ (8 * width))
  ∧ decodeHexBytes (mbind (fun b => hexValue b 1) bytes) = Some bytes
  ∧ decodeBinaryBytes (mbind escape_byte bytes) = Some bytes.
Proof.
  intros Hv Hn Hw Hb. split; [by eapply parseHex_number|]. split; [|split; [|apply decodeBinaryBytes_escaped]].
  - apply parseLittleEndianHex_value; [done|]. apply Z.mod_pos_bound, Z.pow_pos_nonneg; lia.
  - rewrite <- (decodeHexBytes_text bytes Hb). f_equal. apply Forall_bind_ext. eapply Forall_impl; [exact Hb|].
    intros b Hbu. cbn beta. change (hexValue b 1) with (hex_byte ((b .>> 0) .& 0xff)).
    by rewrite Z.shiftr_0_r, <- u8_land, u8_small.
Qed.

(** C16: writing back the registers read from a core makes every register the debugger shows equal to
    that core's, whatever the target held: the banked stack pointers, the mode and the active stack
    pointer included; and a core in the state the debugger reads it in is left unchanged. *)
Theorem registers_round_trip from st : cpu_ok from -> cpu_ok st ->
  ∃ st', writeAllRegisters (readAllRegisters from) st = (true, st')
    ∧ readAllRegisters st' = readAllRegisters from
    ∧ (∀ index, 0 <= index < 40 -> readSingleRegister st' index = readSingleRegister from index)
    ∧ (st = from -> reg from 13 = activeSp from -> reg from 15 .& not32 1 = reg from 15 ->
       cs_thumb from = has (cs_xpsr from) xpsr_t -> cs_it_state from = it_bits (cs_xpsr from) -> st' = from).
Proof.
  intros Hf Hst. exists (restored from st). split; [|split; [|split]].
  - unfold writeAllRegisters. rewrite readAllRegisters_visible, write_registers_text, write_values_restored by
      (done || apply Forall_forall; intros i Hi%elem_of_seqZ; unfold register_count in Hi; lia). done.
  - rewrite !readAllRegisters_visible. apply Forall_bind_ext, Forall_forall. intros i Hi%elem_of_seqZ.
    rewrite restored_visible; [done | done | unfold register_count in Hi; lia].
  - intros index Hi. rewrite !readSingleRegister_visible, restored_visible by (done || lia). done.
  - intros -> H13 H15 Ht Hit. pose proof (ok_r_length _ Hf) as Hl. unfold restored. rewrite <- Ht, <- Hit, H15, <- H13.
    destruct from; cbn in Hl. spell_out cs_r. reflexivity.
Qed.

(** a [qXfer] packet for a range of the target description, or of the memory map, is answered
    with that chunk, and reading chunks of any size until the last yields the whole document. *)
Theorem document_transfer_complete regions document offset requested o n : 0 <= offset < 2 ^ 64 -> 0 < requested < 2 ^ 64 ->
  hexNumber offset 0 = Some o -> hexNumber requested 0 = Some n ->
  readFeaturePacket (bytes_of "qXfer:features:read:" ++ bytes_of "target.xml" ++ 0x3a :: o ++ 0x2c :: n)
    = Some (chunk_reply (bytes_of target_description) offset requested)
  ∧ readMemoryMapPacket regions (bytes_of "qXfer:memory-map:read:" ++ 0x3a :: o ++ 0x2c :: n)
    = Some (chunk_reply (bytes_of (memoryMapXml regions)) offset requested)
  ∧ transfer (S (length document)) document requested 0 = Some document.
Proof.
  intros Ho Hr Eo En. split; [by apply readFeaturePacket_chunk; [|lia|..]|].
  split; [by apply readMemoryMapPacket_chunk; [|lia|..]|]. rewrite transfer_suffix by lia. by rewrite drop_0.
Qed.

(** ** Witnesses *)

Lemma rsp_frame_round_trip_witness :
  (∃ receiver' : Script, readPacket 6 connection_default
      (mkScript ([0x2b; 0x03] ++ frame_of (bytes_of "m0,4") ++ [0x2b]) []) = Some (Some (bytes_of "m0,4"), receiver')
    ∧ incoming receiver' = [0x2b] ∧ written receiver' = [] ++ [[0x2b]])
  ∧ let quiet := ({| connection_default with rc_no_ack := true |} : RspConnection) in
    ∃ c' (sender' : Script), sendPacket 3 (bytes_of "m0,4") quiet (mkScript [0x03] []) = Some (true, c', sender')
      ∧ written sender' = [] ++ [frame_of (bytes_of "m0,4")] ∧ (true = true -> incoming sender' = [0x03]).
Proof.
  assert (0x23 ∉ bytes_of "m0,4") as Hp.
  { vm_compute. intros Hin. repeat (apply elem_of_cons in Hin as [Hin|Hin]; [discriminate|]). by apply elem_of_nil in Hin. }
  split.
  - destruct (rsp_frame_round_trip (mkScript ([0x2d; 0x2d] ++ [0x2b]) []) (mkScript ([0x2b; 0x03] ++ frame_of (bytes_of "m0,4") ++ [0x2b]) [])
      connection_default (bytes_of "m0,4") 2 [0x2b; 0x03] [0x2b] 3) as (_ & Hr & _).
    + exact Hp.
    + vm_compute. discriminate.
    + repeat constructor; discriminate.
    + lia.
    + reflexivity.
    + reflexivity.
    + exact Hr.
  - intros quiet. destruct (rsp_frame_round_trip (mkScript [0x03] []) (mkScript (frame_of (bytes_of "m0,4")) []) quiet (bytes_of "m0,4") 2 [] [] 3)
      as (Hs & _).
    + exact Hp.
    + vm_compute. discriminate.
    + constructor.
    + lia.
    + discriminate.
    + reflexivity.
    + exact Hs.
Defined.

Lemma rsp_codecs_round_trip_witness :
  parseHex (bytes_of "0800beef") = Some 0x0800beef
  ∧ parseLittleEndianHex (hexValue (0x0800beef mod 2 ^ (8 * 2)) 2) = Some (0x0800beef mod 2 ^ (8 * 2))
  ∧ decodeHexBytes (mbind (fun b => hexValue b 1) [0x7d; 0x23; 1]) = Some [0x7d; 0x23; 1]
  ∧ decodeBinaryBytes (mbind escape_byte [0x7d; 0x23; 1]) = Some [0x7d; 0x23; 1].
Proof.
  exact (rsp_codecs_round_trip 0x0800beef 8 (bytes_of "0800beef") 2 [0x7d; 0x23; 1] ltac:(lia) eq_refl ltac:(lia)
    (forallb_ok u8b is_u8 [0x7d; 0x23; 1] u8b_ok eq_refl)).
Defined.

Lemma registers_round_trip_witness :
  ∃ st', writeAllRegisters (readAllRegisters (demo_cpu 0x08000010 [7; 8; 9])) cpu_default = (true, st')
    ∧ readSingleRegister st' 13 = Some (bytes_of "80000020").
Proof.
  destruct (registers_round_trip (demo_cpu 0x08000010 [7; 8; 9]) cpu_default
    (cpu_okb_ok (demo_cpu 0x08000010 [7; 8; 9]) eq_refl) (cpu_okb_ok cpu_default eq_refl))
    as (st' & Hw & _ & Hs & _).
  exists st'. split; [exact Hw|]. rewrite (Hs 13 ltac:(lia)). reflexivity.
Defined.

Lemma document_transfer_complete_witness :
  readFeaturePacket (bytes_of "qXfer:features:read:" ++ bytes_of "target.xml" ++ 0x3a :: bytes_of "1f4" ++ 0x2c :: bytes_of "3e8")
    = Some (chunk_reply (bytes_of target_description) 500 1000)
  ∧ transfer (S (length (bytes_of target_description))) (bytes_of target_description) 1000 0 = Some (bytes_of target_description).
Proof.
  destruct (document_transfer_complete [] (bytes_of target_description) 500 1000 (bytes_of "1f4") (bytes_of "3e8")
    ltac:(lia) ltac:(lia) eq_refl eq_refl) as (Hf & _ & Ht).
  exact (conj Hf Ht).
Defined.
